(* ===== verification/_CoqProject ===== *)
-Q . S2P
Prelude.v
TimelineRate.v
TimelineFunction.v
LinearTransform.v
RateControl.v
FifoAllocator.v
FifoLists.v
FifoTiling.v
FifoSpec.v
SharedBuffer.v
StreamTypes.v
FrameLayout.v
TypeConversions.v
StdMap.v
Packet.v
MediaStates.v
Incident.v
MojoReader.v
MojoReaderSpec.v
NetworkReader.v
Publisher.v
SparseByteBuffer.v
ReaderCache.v
Graph.v
ConversionPipeline.v
Lpcm.v
Engine.v
EngineState.v
EngineMeasure.v
EngineSpec.v
EngineUpdate.v
EngineRun.v
EnginePrepare.v
EngineInputs.v
EngineExample.v
Mixer.v
MixerSpec.v
MediaPipe.v
StandardOutput.v
StandardOutputSpec.v
AudioReturn.v
AudioServer.v
AudioServerSpec.v
AudioServerRun.v
AudioSession.v
CircularBuffer.v
CircularBufferSpec.v
Transport.v
TransportSpec.v
MediaSink.v
MediaSinkSpec.v
MediaSinkRun.v
Player.v
PlayerSpec.v
PlayerRun.v
RelocationPacker.v
RelocationSpec.v
ElfFile.v
ElfLayout.v
ElfDynamic.v
ElfSegments.v
ElfHeaders.v
ElfImage.v
ElfLibrary.v
ElfPack.v
ElfSpec.v
ElfExample.v
