(* ===== verification/Prelude.v ===== *)
(** * Verification of the Motown media stack

    Motown is a media stack of C++ services: applications hand compressed or LPCM
    streams to a media factory service, which builds graphs of parts (readers,
    demultiplexers, decoders, reformatters, sinks) and connects them to an audio
    server through shared memory, while rate controls map local time to presentation
    time.  This library models the parts of it listed below by executable
    definitions translated from the sources and proves what makes them correct.

    ** How C++ is modelled

    This file holds the shared vocabulary.
    - [fault] and [outcome]: the result of running C++ code.  A run either returns a
      value or stops at a failed [DCHECK], a failed [CHECK], a call of [abort], an
      operation whose behaviour C++ leaves undefined (a null or dangling pointer, an
      index out of range, signed overflow, division by zero), or, for loops written
      with fuel, exhausted fuel.  [NOTREACHED()] is a [DCHECK] of false.
    - [Build]: the two facts about the build that the sources depend on, whether
      [DCHECK] is compiled in and whether signed overflow wraps.  Theorems hold for
      every build unless they name one.
    - [prog]: state passing over [outcome], for methods that mutate an object;
      [runs m s Q] says that [m] returns from [s], with result and state in [Q], so
      it is a total statement.  [safe Q m] allows a stop at a signed overflow in a
      build that does not wrap, and nothing else.
    - machine integers are [Z] with the wrap-around written out ([uwrap], [to_s64],
      [s64]); pointers into a structure are keys of a heap; [unique_ptr] is [option];
      [std::map] is a [gmap] with its ordered iterators ([StdMap]).
    - tactics ([run_bind], [concrete]) and the integer and bit lemmas several
      components use.

    ** Files and what they model

    Timelines (src/mojo/services/media/common/cpp, src/services/media/common):
    - [TimelineRate]: timeline_rate.cc.  Rates as reduced fractions, products, exact
      scaling of 64-bit values through 96-bit products.
    - [TimelineFunction]: timeline_function.cc.  Linear functions over rates: apply in
      both directions, compose.
    - [LinearTransform]: linear_transform.cc.  The older 64-bit transform and its
      ratio composition with the precision test.
    - [RateControl]: rate_control_base.cc.  The rate control object: current
      transform, the two queues of scheduled changes, generation, connection errors;
      interface calls are the constructors of [event] and [step] is the transition
      relation.

    Shared memory (src/mojo/services/media/common/cpp):
    - [FifoAllocator]: fifo_allocator.cc, as operations on a heap of doubly linked
      region nodes.  [FifoLists] relates heap and lists ([Rep]), [FifoTiling] is the
      theory of regions tiling a buffer, [FifoSpec] has the invariant [wf] and the
      behaviour of every operation against the abstract set of allocated intervals.
    - [SharedBuffer]: mapped_shared_buffer.cc and shared_media_buffer_allocator.cc.
      The allocator is used through the class [RegionAllocator] with its laws, which
      the fifo allocator discharges; shared memory of the system is the class
      [MojoSystem].

    Stream types (src/services/media/framework/types, framework_mojo):
    - [StreamTypes]: audio, video, text and subpicture types and type sets, cloning.
    - [FrameLayout]: the pixel format tables and [BuildFrameLayout].
    - [TypeConversions]: mojo_type_conversions.cc, both directions; the structs that
      the interface compiler generates enter through [MojoBindings] and its laws.

    Parts (src/services/media/framework/parts and util):
    - [SparseByteBuffer]: holes and regions of a partly known byte sequence.
    - [ReaderCache]: the cache in front of a reader: its store, the pending request,
      and the intake loop; replies of the upstream reader are events.
    - [Lpcm]: lpcm_util.cc and lpcm_reformatter.cc on buffers of samples; arithmetic
      on floating point samples is the class [FloatUnit].
    - [Packet]: packet.cc, packets as owned values.
    - [Incident]: incident.cc and callback_joiner.h: consequences that wait for an
      incident, the thread-safe variant as interleaved critical sections, and the joiner.

    The graph and its engine (src/services/media/framework):
    - [Graph]: graph.cc, refs.cc and the connectors of stages, on a heap of stages.
      The abstract view is the relation [linked] between outputs and inputs.
    - [ConversionPipeline]: conversion_pipeline_builder.cc, which adds decoders and
      reformatters to a graph; the decoder library is a parameter.
    - [Engine]: engine.cc and the six classes of stages/: the supply and demand backlogs,
      the update of every class of stage, the callbacks of parts, preparing, unpreparing
      and flushing.  The parts that stages host are the class [Parts].
      [EngineState] has the invariant [Inv] and the laws that are asked of parts
      ([PartLaws]: a packet made uses up work, sources answer what they are asked);
      [EngineMeasure] counts the packets that are left and describes who is upstream of
      whom; [EngineSpec] says when a stage has nothing left to do; [EngineUpdate] proves of
      each class's update that it settles the stage and makes progress; [EngineRun] puts
      the updates together to the work list; [EnginePrepare] follows preparing upstream
      and flushing downstream; [EngineInputs] is the allocation of a multistream sink's
      inputs; [EngineExample] runs a source, a transform and a sink.

    Transport (src/mojo/services/media/common/cpp, src/services/media/common, audio):
    - [CircularBuffer]: circular_buffer_media_pipe_adapter.cc, the producer of a media
      pipe, which carves packets out of a shared ring; [CircularBufferSpec] refines it to
      a queue of packets.
    - [MediaPipe]: media_pipe_base.cc and audio_pipe.cc, the consumer: its buffer, the
      validation of packets and their regions, timestamps, priming and flushing.
    - [Transport]: mojo_producer.cc, mojo_consumer.cc and mojo_allocator.cc of
      framework_mojo, the two ends of a stream between graphs: the allocator over the
      shared buffer, posted tasks, calls and replies as queues.  [TransportSpec] has the
      system of both ends, its invariant, what is delivered and that it drains.
    - [MojoReader]: mojo_reader.cc of framework_mojo, reads through data pipes that a seeking
      reader hands out.  Data pipes are the class [DataPipe]: a pipe gives what is left of
      its bytes in pieces of any size.  [MojoReaderSpec] has the phases of a read.

    The audio server (src/services/media/audio):
    - [Mixer]: the point and linear samplers, their selection, and the output formatter.
      [MixerSpec] has a reference
      mixer, one frame at a time, that the loops are equal to.
    - [StandardOutput]: standard_output_base.cc, throttle_output.cc and the links from
      tracks to outputs: wake-ups, mix jobs, the mixing and trimming of queued packets;
      [StandardOutputSpec] has the window of frames that a packet fills.
    - [AudioServer]: audio_server_impl.cc, audio_output_manager.cc, audio_output.cc,
      audio_track_impl.cc and audio_track_to_output_link.cc together: the main thread as a
      list of steps to come, processing of outputs as calls between them, and packets,
      links and tracks that live as long as something points to them.  [AudioReturn] is
      the theory of the order in which packets come back; [AudioServerSpec] has the
      invariant and the handlers, [AudioServerRun] the calls of processing, the steps of
      the main thread and a weight that its shutdown decreases, [AudioSession] the
      reachable states, the theorems about them and traces.

    The factory service (src/services/media/factory_service):
    - [MediaStates]: the states that sinks and players report, shared by its files.
    - [Publisher]: mojo_publisher.h, status versions and the callbacks that wait for them.
    - [MediaSink]: media_sink_impl.cc and audio_track_controller.cc, composed of the models of
      the producer, the conversion pipeline, the publisher and the transforms; the audio
      track and its rate control are logged calls.  [MediaSinkSpec] has the arithmetic of
      setting the rate and the invariant, [MediaSinkRun] its events and traces.
    - [NetworkReader]: network_reader_impl.cc, the seeking reader that asks an HTTP server,
      with its requests, the headers of responses, and decimal numbers in them.
    - [Player]: media_player_impl.cc, its state machine with the joiners that prepare the
      streams; remote objects are logged calls and awaited callbacks.  [PlayerSpec] has the
      invariant with the demux's protocol, [PlayerRun] the runs with cooperative remotes.

    Tools (src/tools/relocation_packer):
    - [RelocationPacker]: the codecs (LEB128, run lengths, deltas) and both packed formats;
      [RelocationSpec] proves the round trips.
    - [ElfFile]: elf_file.cc, on libelf's memory image of a file: loading, padding, resizing
      sections around a hole, splitting and coalescing program headers, dynamic entries,
      packing and unpacking.  The two types of relocations are instances of the class
      [Relocation].  [ElfLayout] has words in memory, searches and sorting, [ElfDynamic] the
      dynamic section, [ElfSegments] the table of program headers before and after splitting,
      [ElfHeaders] the runs of splitting and coalescing, [ElfImage] files that differ in where
      their sections lie, [ElfLibrary] what is asked of a library, [ElfPack] the stages of
      packing and unpacking one, [ElfSpec] the laws of types of relocations
      ([RelocationLaws]) and the theorems, [ElfExample] a library.

    ** What the theorems show

    - Timelines: scaling and transforms return the exact rounded-down value whenever
      they report success, succeed when that value and the distances on the way are
      representable (and not the smallest integer), and report overflow otherwise; products and compositions are exact or bounded by an explicit
      error; rates are equal as fractions iff the operators say so; the rate control's
      invariant holds in every reachable state and rate changes keep the timeline
      continuous.
    - Shared memory: an allocation returns an interval of the buffer disjoint from all
      that are allocated, or fails exactly when no unused range is large enough;
      releasing frees exactly the interval, coalescing gaps; the
      destructor frees every node; pointers and offsets translate into each other.
    - Stream types: cloning and conversion round trips, frame layouts in bounds.
    - Parts: filling and searching the sparse buffer refine its set of known bytes; a
      read of the cache that does not begin before its first region returns the bytes of the
      resource, and intake adds them; interleaving and reformatting
      place every sample and touch nothing else; consequences of an incident run once, and
      a joiner fires when all its callbacks have.
    - The graph: edits keep connections recorded at both ends and change exactly the
      connections named; a conversion pipeline ends in an accepted type within two
      rounds, or the call is refused with the graph unchanged, but for a decoder whose output
      nothing takes.
    - The engine: a request for an update ends, within an amount of work that the packets
      left and the ranks of the stages bound, with both backlogs empty and no check
      failed; with parts that do their share every callback takes the engine from rest
      to rest; preparing reaches every input upstream and tells stages, outputs and parts their
      allocators, flushing empties every connection downstream and tells the parts; inputs of multistream sinks are slots.
    - Transport: the adapter's packets are pairwise disjoint regions of the ring, sent and
      returned in order like a queue; a pipe accepts a packet exactly when its regions lie
      in the buffer and hold whole frames, not too many, and its time can be represented.  Between a producer and a consumer, however steps interleave, packets
      arrive once, in order and intact, memory is returned, and the stream drains.  Reads
      through data pipes return the bytes at their positions, whatever pieces they arrive in,
      and none is lost; what is read from an HTTP server is the body that answers the request
      for the position, whatever server it is, and so the bytes there if it keeps to ranges.
    - The audio server: both samplers are equal to the reference mixer, across buffers,
      and move on in the same way when muted; a mix fills exactly the frames that the packet's window says; the
      throttle output's process loop ends and releases what is due.  However clients,
      outputs and the main thread interleave, each packet comes back once and in the order
      of its track; nothing fails but one race that the theorem names; and the end of the
      server leaves no track, output or packet behind.
    - The factory service: a publisher gives every waiting client the newest status; a sink
      keeps media time continuous between flushes, at the stream's rate, for its rate control
      and for the clients that ask for its status; a
      player whose client does not seek to INT64_MAX follows the demux's protocol, waits
      exactly when something is outstanding, and reaches what its client asks for within a
      bounded number of replies.
    - Tools: unpacking inverts packing, for relocations with and without addends, and for
      whole libraries: an unpacked file is the file that was packed, its relative relocations
      first; a packed file's segments stay aligned to pages; the padding is the least
      that allows it.
    - Defects: theorems named [..._defect], [..._dangling] and the corresponding
      parts of other statements exhibit inputs on which the code departs from what its
      comments or names say.  Among them: rounding before an overflow test (timeline
      rate and ratio), arrays converted with null elements in front, the cache's lost
      replies, a graph removal that uses the stage it has just deleted, the
      exchanged bounds of the 24-bit sample clamp, preparing that cannot be undone, a
      flush that forgets an outstanding request, inputs released while they are pending,
      a transform that is not called again, the adapter's space check and flush, a sink that
      is played before it is primed, and a range that a server ignores.

    ** Fuel

    Loops whose recursion is not structural take fuel, and the theorems use an amount
    that suffices: the shifts of the rate product 64 rounds and the loops of the
    binary gcd the bits of their operands, the pending changes of the rate control the
    length of both queues plus one, the walks over fifo regions the number of heap
    nodes plus one, [fill_loop] the number of holes plus one, the serving loop the
    number of bytes still requested, since each round delivers one or stops,
    [build_loop] two rounds, since a decoder's output is LPCM, and the removal of a
    pipeline two rounds, after which it has failed.  The samplers' loops take the frames
    left in the destination, the track loop of an output the length of the packet queue
    plus one, the engine's work list [budget], which multiplies the packets left by the
    ranks of the stages, a multistream source's loop the work its part has left plus one,
    a sink's loop twice its pending inputs plus one, and a visit the length of the path.
    LEB128 takes 10 rounds to encode and 11 to decode a 64-bit value, a whole encoding as
    many as its bytes, padding three; the loop that aligns the hole in a library runs once
    for each relative relocation at most, and the one that adds padding once for each
    byte of a page; a player's update settles within four rounds and the
    player within 2n+5 replies; the server's shutdown within the weight of its steps; and
    printing a 64-bit number 20 digits.
    Results are stated as returned values, never only for runs that return.

    ** Not modelled

    Logging and message text; the message loop and the interface bindings (calls enter
    as events); locks and threads, except where the interleaving matters (incidents, the
    transport, the audio server), where critical sections are the steps; FFmpeg and the
    bindings to it; the factory service's source, demux and decoder objects, which
    connect graphs to interfaces; libelf and the layout of the file it writes, and the
    packer's command line; floating point arithmetic, gain among it; vendored code, examples and build scripts. *)

From stdpp Require Export base tactics numbers option list gmap sets sorting.
From Stdlib Require Export ZArith Lia Bool.

Set Default Goal Selector "!".

Declare Scope motown_scope.
Delimit Scope motown_scope with motown.
Global Open Scope Z_scope.
Global Open Scope motown_scope.

(** ** Outcomes *)

Inductive fault :=
  | DCheckFailed
  | CheckFailed
  | Aborted
  | UndefinedBehaviour
  | OutOfFuel.

Inductive outcome (A : Type) : Type :=
  | Ok (a : A)
  | Fault (f : fault).
Arguments Ok {A} a.
Arguments Fault {A} f.

#[export] Instance fault_eq_dec : EqDecision fault.
Proof. solve_decision. Defined.

#[export] Instance outcome_eq_dec {A} `{EqDecision A} : EqDecision (outcome A).
Proof. solve_decision. Defined.

#[export] Instance outcome_ret : MRet outcome := λ A a, Ok a.
#[export] Instance outcome_bind : MBind outcome := λ A B k m,
  match m with Ok a => k a | Fault f => Fault f end.
#[export] Instance outcome_fmap : FMap outcome := λ A B g m,
  match m with Ok a => Ok (g a) | Fault f => Fault f end.

Definition is_ok {A} (m : outcome A) : bool :=
  match m with Ok _ => true | Fault _ => false end.

(** What the sources leave to the build: [DCHECK]s are compiled out of release
    builds, and signed overflow is undefined unless the compiler is told to
    wrap it. *)
Class Build := {
  dcheck_is_on : bool;
  signed_wraps : bool;
}.

Definition debug_build : Build := {| dcheck_is_on := true; signed_wraps := false |}.
Definition release_build : Build := {| dcheck_is_on := false; signed_wraps := false |}.
Definition wrapping_build : Build := {| dcheck_is_on := false; signed_wraps := true |}.

(** [DCHECK(b)] followed by the rest of the function. *)
Definition dcheck `{Build} (b : bool) : outcome unit :=
  if dcheck_is_on && negb b then Fault DCheckFailed else Ok tt.

(** [CHECK(b)] is present in every build. *)
Definition check (b : bool) : outcome unit :=
  if b then Ok tt else Fault CheckFailed.

Lemma dcheck_true `{Build} b : b = true → dcheck b = Ok tt.
Proof. intros ->. unfold dcheck. by rewrite andb_false_r. Qed.

Lemma dcheck_nonzero `{Build} z : z ≠ 0 → dcheck (negb (z =? 0)) = Ok tt.
Proof. intros Hz. by apply dcheck_true, negb_true_iff, Z.eqb_neq. Qed.

Lemma dcheck_false_debug : @dcheck debug_build false = Fault DCheckFailed.
Proof. done. Qed.

Lemma outcome_bind_Ok {A B} (m : outcome A) (k : A → outcome B) b :
  m ≫= k = Ok b ↔ ∃ a, m = Ok a ∧ k a = Ok b.
Proof.
  split.
  - destruct m as [a|f]; cbn; [eauto | discriminate].
  - by intros (a & -> & ?).
Qed.

(** ** State-passing programs *)

Definition prog (S A : Type) : Type := S → outcome (A * S).

#[export] Instance prog_ret S : MRet (prog S) := λ A a s, Ok (a, s).
#[export] Instance prog_bind S : MBind (prog S) := λ A B k m s,
  match m s with Ok (a, s') => k a s' | Fault f => Fault f end.

Definition getS {S} : prog S S := λ s, Ok (s, s).
Definition putS {S} (s : S) : prog S unit := λ _, Ok (tt, s).
Definition modS {S} (g : S → S) : prog S unit := λ s, Ok (tt, g s).
Definition readS {S A} (g : S → A) : prog S A := λ s, Ok (g s, s).
Definition failS {S A} (f : fault) : prog S A := λ _, Fault f.
Definition liftO {S A} (m : outcome A) : prog S A := λ s,
  match m with Ok a => Ok (a, s) | Fault f => Fault f end.
Definition dcheckS {S} `{Build} (b : bool) : prog S unit := liftO (dcheck b).
Definition whenS {S} (b : bool) (m : prog S unit) : prog S unit :=
  if b then m else mret tt.

(** [m @ s ⇒ r]: running [m] from [s] returns [r]. *)
Notation "m @ s ⇒ r" := (m s = Ok r)
  (at level 70, s at level 9, r at level 69) : motown_scope.

Lemma prog_bind_run {S A B} (m : prog S A) (k : A → prog S B) s a s' :
  m s = Ok (a, s') → (m ≫= k) s = k a s'.
Proof. intros H. unfold mbind, prog_bind. by rewrite H. Qed.

(** Rewrites the first step of a program with a known run. *)
Tactic Notation "run_bind" uconstr(H) := rewrite (prog_bind_run _ _ _ _ _ H).

Lemma prog_bind_Ok {S A B} (m : prog S A) (k : A → prog S B) s r :
  (m ≫= k) s = Ok r ↔ ∃ a s', m s = Ok (a, s') ∧ k a s' = Ok r.
Proof.
  unfold mbind, prog_bind. split.
  - destruct (m s) as [[a s']|f]; [eauto | discriminate].
  - by intros (a & s' & -> & ?).
Qed.

Lemma dcheckS_true {S} `{Build} (s : S) b : b = true → dcheckS b s = Ok (tt, s).
Proof. intros Hb. unfold dcheckS, liftO. by rewrite dcheck_true. Qed.

(** [runs m s Q]: from [s], [m] returns, in a result and a state related by [Q]. *)
Definition runs {S A} (m : prog S A) (s : S) (Q : A → S → Prop) : Prop :=
  ∃ a s', m s = Ok (a, s') ∧ Q a s'.

Lemma runs_ret {S A} (a : A) (s : S) (Q : A → S → Prop) : Q a s → runs (mret a) s Q.
Proof. intros HQ. by exists a, s. Qed.

Lemma runs_bind {S A B} (m : prog S A) (k : A → prog S B) s Q R :
  runs m s Q → (∀ a s', Q a s' → runs (k a) s' R) → runs (m ≫= k) s R.
Proof.
  intros (a & s' & Hm & HQ) Hk. destruct (Hk a s' HQ) as (b & s'' & Hb & HR).
  exists b, s''. split; [|done]. by rewrite (prog_bind_run _ _ _ _ _ Hm).
Qed.

Lemma runs_step {S A B} (m : prog S A) (k : A → prog S B) s a s' Q :
  m s = Ok (a, s') → runs (k a) s' Q → runs (m ≫= k) s Q.
Proof. intros Hm Hk. unfold runs. by rewrite (prog_bind_run _ _ _ _ _ Hm). Qed.

Lemma runs_mono {S A} (m : prog S A) s (Q R : A → S → Prop) :
  runs m s Q → (∀ a s', Q a s' → R a s') → runs m s R.
Proof. intros (a & s' & Hm & HQ) HR. exists a, s'. auto. Qed.

Lemma runs_get {S A} (k : S → prog S A) s Q :
  runs (k s) s Q → runs (getS ≫= k) s Q.
Proof. done. Qed.

Lemma runs_mod {S A} g (k : unit → prog S A) s Q :
  runs (k tt) (g s) Q → runs (modS g ≫= k) s Q.
Proof. done. Qed.

Lemma runs_mod_last {S} g (s : S) (Q : unit → S → Prop) : Q tt (g s) → runs (modS g) s Q.
Proof. intros HQ. by exists tt, (g s). Qed.

Lemma runs_dcheck {S A} `{Build} b (k : unit → prog S A) s Q :
  b = true → runs (k tt) s Q → runs (dcheckS b ≫= k) s Q.
Proof.
  intros Hb (a & s' & E & HQ). exists a, s'. split; [|done].
  by rewrite (prog_bind_run _ _ s tt s) by (by apply dcheckS_true).
Qed.

(** ** Machine integers *)

Definition uwrap (w : Z) (z : Z) : Z := z mod 2 ^ w.
Abbreviation u8 := (uwrap 8).
Abbreviation u16 := (uwrap 16).
Abbreviation u32 := (uwrap 32).
Abbreviation u64 := (uwrap 64).

Definition max_u32 : Z := 2 ^ 32 - 1.
Definition max_u64 : Z := 2 ^ 64 - 1.
Definition max_s64 : Z := 2 ^ 63 - 1.
Definition min_s64 : Z := - 2 ^ 63.

Definition is_u (w : Z) (z : Z) : Prop := 0 ≤ z < 2 ^ w.
Definition is_s64 (z : Z) : Prop := min_s64 ≤ z ≤ max_s64.

(** Conversion of an integer to [int64_t] (two's complement). *)
Definition to_s64 (z : Z) : Z := (z + 2 ^ 63) mod 2 ^ 64 - 2 ^ 63.

Definition in_s64 (z : Z) : bool := (min_s64 <=? z) && (z <=? max_s64).

(** The result of a signed 64-bit addition, subtraction or negation whose exact
    value is [z]. *)
Definition s64 `{Build} (z : Z) : outcome Z :=
  if in_s64 z then Ok z
  else if signed_wraps then Ok (to_s64 z)
  else Fault UndefinedBehaviour.

(** [safe P m]: [m] returns a value satisfying [P], or stops at a signed
    overflow in a build that does not wrap it.  No [DCHECK] fails, no fuel runs
    out. *)
Definition safe `{Build} {A} (P : A → Prop) (m : outcome A) : Prop :=
  match m with
  | Ok a => P a
  | Fault f => f = UndefinedBehaviour ∧ signed_wraps = false
  end.

Lemma safe_bind `{Build} {A B} (P : A → Prop) (Q : B → Prop) m (k : A → outcome B) :
  safe P m → (∀ a, P a → safe Q (k a)) → safe Q (m ≫= k).
Proof. destruct m; cbn; auto. Qed.

Lemma safe_mono `{Build} {A} (P Q : A → Prop) m :
  safe P m → (∀ a, P a → Q a) → safe Q m.
Proof. destruct m; cbn; auto. Qed.

(** Closes a goal with no variables by evaluation. *)
Ltac concrete :=
  vm_compute;
  repeat match goal with |- _ ∧ _ => split end;
  first [reflexivity | discriminate | congruence].

Lemma in_s64_spec z : in_s64 z = true ↔ is_s64 z.
Proof. unfold in_s64, is_s64. rewrite andb_true_iff. lia. Qed.

Lemma s64_ok `{Build} z : is_s64 z → s64 z = Ok z.
Proof. intros Hz%in_s64_spec. unfold s64. by rewrite Hz. Qed.

Lemma uwrap_small w z : is_u w z → uwrap w z = z.
Proof. apply Z.mod_small. Qed.

Lemma uwrap_range w z : 0 ≤ w → is_u w (uwrap w z).
Proof. intros Hw. apply Z.mod_pos_bound. lia. Qed.

Lemma to_s64_small z : is_s64 z → to_s64 z = z.
Proof.
  unfold is_s64, min_s64, max_s64, to_s64. intros Hz.
  rewrite Z.mod_small by lia. lia.
Qed.

Lemma to_s64_range z : is_s64 (to_s64 z).
Proof.
  unfold is_s64, min_s64, max_s64, to_s64.
  pose proof (Z.mod_pos_bound (z + 2 ^ 63) (2 ^ 64)). lia.
Qed.

Lemma safe_s64 `{Build} z : safe (λ v, is_s64 v ∧ (is_s64 z → v = z)) (s64 z).
Proof.
  unfold s64. destruct (in_s64 z) eqn:E.
  - apply in_s64_spec in E. done.
  - destruct signed_wraps eqn:Hw; cbn; [|done]. split; [apply to_s64_range|].
    intros Hz%in_s64_spec. congruence.
Qed.

Lemma to_s64_shift z k : to_s64 (z + k * 2 ^ 64) = to_s64 z.
Proof.
  unfold to_s64.
  replace (z + k * 2 ^ 64 + 2 ^ 63) with (z + 2 ^ 63 + k * 2 ^ 64) by lia.
  by rewrite Z_mod_plus_full.
Qed.

Lemma land1_even b : (Z.land b 1 =? 0) = Z.even b.
Proof.
  change 1 with (Z.ones 1). rewrite Z.land_ones by lia.
  change (2 ^ 1) with 2. rewrite Zmod_even. by destruct (Z.even b).
Qed.

Lemma shiftr1_div2 b : Z.shiftr b 1 = b / 2.
Proof. rewrite Z.shiftr_div_pow2 by lia. done. Qed.

Lemma shiftl_land_low a b w :
  0 ≤ w → is_u w b → Z.land (Z.shiftl a w) b = 0.
Proof.
  intros Hw [Hb0 Hb]. apply Z.bits_inj'. intros n Hn.
  rewrite Z.land_spec, Z.bits_0.
  destruct (Z.ltb_spec n w); [by rewrite Z.shiftl_spec_low by lia|].
  destruct (decide (b = 0)) as [->|Hne]; [by rewrite Z.bits_0, andb_false_r|].
  rewrite (Z.bits_above_log2 b n); [apply andb_false_r | lia |].
  apply Z.log2_lt_pow2; [lia|].
  apply Z.lt_le_trans with (2 ^ w); [lia|]. apply Z.pow_le_mono_r; lia.
Qed.

Lemma lor_disjoint_add a b w :
  0 ≤ w → is_u w b → Z.lor (Z.shiftl a w) b = a * 2 ^ w + b.
Proof.
  intros Hw Hb. pose proof (shiftl_land_low a b w Hw Hb) as Hd.
  rewrite <- Z.shiftl_mul_pow2 by lia.
  rewrite Z.add_nocarry_lxor by done. by rewrite Z.lxor_lor.
Qed.

(** Masking the upper half of a word. *)
Lemma land_shiftl_high h m w :
  0 ≤ w → Z.land h (Z.shiftl m w) = Z.shiftl (Z.land (Z.shiftr h w) m) w.
Proof.
  intros Hw. apply Z.bits_inj'. intros n Hn.
  rewrite Z.land_spec, !Z.shiftl_spec, Z.land_spec by lia.
  destruct (Z.ltb_spec n w).
  - rewrite (Z.testbit_neg_r m), !andb_false_r by lia. done.
  - rewrite Z.shiftr_spec by lia. do 2 f_equal. lia.
Qed.

Lemma land_low h w : 0 ≤ w → Z.land h (2 ^ w - 1) = h mod 2 ^ w.
Proof.
  intros Hw. replace (2 ^ w - 1) with (Z.ones w) by (rewrite Z.ones_equiv; lia).
  by apply Z.land_ones.
Qed.

(** Long division of [h * B + l] by [r], one digit at a time. *)
Lemma long_division h l B r :
  0 < r → 0 ≤ h → 0 ≤ l < B →
  (h * B + l) / r = h / r * B + (h mod r * B + l) / r ∧
  (h * B + l) mod r = (h mod r * B + l) mod r ∧
  0 ≤ (h mod r * B + l) / r < B.
Proof.
  intros Hr Hh Hl. pose proof (Z.div_mod h r ltac:(lia)) as Hdm.
  pose proof (Z.mod_pos_bound h r Hr).
  assert (Heq : h * B + l = h / r * B * r + (h mod r * B + l)) by nia.
  split_and!.
  - rewrite Heq, Z.div_add_l by lia. done.
  - rewrite Heq, Z.add_comm, Z_mod_plus_full. done.
  - apply Z.div_pos; nia.
  - apply Z.div_lt_upper_bound; nia.
Qed.

(** Truncating both terms of a positive fraction by the same power of two. *)
Lemma truncated_fraction n d n' d' m l K :
  0 < n → 0 ≤ n' → 0 < d' → 0 < K → 0 ≤ m < K → 0 ≤ l < K →
  n = K * n' + m → d = K * d' + l →
  n' * d < n * (d' + 1) ∧ n * d' < (n' + 1) * d.
Proof.
  intros Hn Hn' Hd' HK Hm Hl -> ->. split.
  - destruct (decide (n' = 0)) as [->|]; [nia|].
    assert (n' * l < n' * K) by nia. nia.
  - assert (m * d' < K * d') by nia. nia.
Qed.

(** The 96-bit product of a 64-bit and a 32-bit number, computed in 64-bit
    halves. *)
Lemma mul_96 v s :
  is_u 64 v → is_u 32 s →
  let lo := s * (v mod 2 ^ 32) in
  let h := s * (v / 2 ^ 32) + lo / 2 ^ 32 in
  is_u 64 (s * (v / 2 ^ 32)) ∧ is_u 64 lo ∧ is_u 64 h ∧
  v * s = h * 2 ^ 32 + lo mod 2 ^ 32 ∧ 0 ≤ lo mod 2 ^ 32 < 2 ^ 32.
Proof.
  intros Hv Hs lo h. unfold is_u in *.
  pose proof (Z.div_mod v (2 ^ 32) ltac:(lia)).
  pose proof (Z.mod_pos_bound v (2 ^ 32) ltac:(lia)).
  assert (0 ≤ v / 2 ^ 32 < 2 ^ 32).
  { split; [apply Z.div_pos; lia|]. apply Z.div_lt_upper_bound; lia. }
  pose proof (Z.div_mod lo (2 ^ 32) ltac:(lia)).
  pose proof (Z.mod_pos_bound lo (2 ^ 32) ltac:(lia)).
  assert (0 ≤ lo / 2 ^ 32 < 2 ^ 32).
  { split; [apply Z.div_pos; subst lo; nia|]. apply Z.div_lt_upper_bound; subst lo; nia. }
  subst h. split_and!; try (subst lo; nia).
Qed.

(** Floor division of a negated numerator. *)
Lemma div_neg p r :
  0 < r → - p / r = - (p / r) - (if p mod r =? 0 then 0 else 1).
Proof.
  intros Hr. destruct (Z.eqb_spec (p mod r) 0).
  - rewrite Z.div_opp_l_z by lia. lia.
  - rewrite Z.div_opp_l_nz by lia. lia.
Qed.

(** The sign of a 64-bit value as an arithmetic shift. *)
Lemma sar63 z : is_s64 z → Z.shiftr z 63 = if z <? 0 then -1 else 0.
Proof.
  unfold is_s64, min_s64, max_s64. intros Hz. rewrite Z.shiftr_div_pow2 by lia.
  destruct (Z.ltb_spec z 0).
  - symmetry. apply Z.div_unique with (z + 2 ^ 63); lia.
  - apply Z.div_small. lia.
Qed.

Lemma land_min_s64 z : (Z.land z min_s64 =? 0) = (Z.shiftr z 63 =? 0).
Proof.
  change min_s64 with (Z.shiftl (-1) 63).
  rewrite land_shiftl_high, Z.land_m1_r, Z.shiftl_mul_pow2 by lia.
  destruct (Z.eqb_spec (Z.shiftr z 63) 0) as [->|]; [done|].
  apply Z.eqb_neq. lia.
Qed.

(** Dividing both terms of a fraction by their gcd. *)
Lemma reduced_facts n d :
  0 ≤ n → 0 < d →
  let g := Z.gcd n d in
  0 < g ∧ n = n / g * g ∧ d = d / g * g ∧ Z.gcd (n / g) (d / g) = 1 ∧
  0 ≤ n / g ≤ n ∧ 0 < d / g ≤ d.
Proof.
  intros Hn Hd g.
  assert (0 < g) as Hg.
  { pose proof (Z.gcd_nonneg n d). assert (g ≠ 0); [|lia].
    intros [_ ?]%Z.gcd_eq_0. lia. }
  destruct (Z.gcd_divide_l n d) as [n' En]. destruct (Z.gcd_divide_r n d) as [d' Ed].
  fold g in En, Ed.
  assert (n / g = n') as -> by (rewrite En at 1; apply Z.div_mul; lia).
  assert (d / g = d') as -> by (rewrite Ed at 1; apply Z.div_mul; lia).
  split_and!; try done; try nia.
  assert (g * Z.gcd n' d' = g * 1); [|nia].
  rewrite <- Z.gcd_mul_mono_l_nonneg by lia.
  rewrite (Z.mul_comm g n'), (Z.mul_comm g d'), <- En, <- Ed. fold g. lia.
Qed.

(** Two fractions in lowest terms are equal only if their terms are. *)
Lemma coprime_cross_eq s r s' r' :
  0 ≤ s → 0 < r → 0 ≤ s' → 0 < r' →
  Z.gcd s r = 1 → Z.gcd s' r' = 1 → s * r' = s' * r → s = s' ∧ r = r'.
Proof.
  intros Hs Hr Hs' Hr' Hg Hg' Heq.
  assert ((r | r')) as H1.
  { apply (Z.gauss r s r'); [exists s'; lia|]. by rewrite Z.gcd_comm. }
  assert ((r' | r)) as H2.
  { apply (Z.gauss r' s' r); [exists s; lia|]. by rewrite Z.gcd_comm. }
  apply Z.divide_pos_le in H1; [|lia]. apply Z.divide_pos_le in H2; [|lia].
  assert (r = r') as <- by lia. split; [nia|done].
Qed.
