(* ===== verification/TimelineRate.v ===== *)
(** [TimelineRate] of mojo/services/media/common/cpp: the ratio of two 32-bit
    values that relates two timelines, with the routines it is built on
    ([BinaryGcd], [ReduceRatio], [ScaleUInt64]).

    The theorems show that the binary gcd computes the greatest common divisor,
    that every constructed rate is in lowest terms (so [operator==] decides
    equality of the rational numbers), that [Product] is the exact product
    whenever that product is representable, and that [Scale] is the floor of the
    exact product whenever it lies strictly above the smallest [int64_t]. *)

From S2P Require Import Prelude.

Module TimelineRate.

(** ** Definitions *)

(** The loops of [BinaryGcd] run at most once per bit of their operands.  The
    fuel below covers operands of up to 64 bits. *)
Definition kGcdFuel : nat := 129.

(** [while ((b & 1) == 0) b >>= 1;] *)
Fixpoint strip_twos (fuel : nat) (b : Z) : outcome Z :=
  match fuel with
  | O => Fault OutOfFuel
  | S fuel =>
      if Z.land b 1 =? 0 then strip_twos fuel (Z.shiftr b 1) else Ok b
  end.

(** [for (twos = 0; ((a | b) & 1) == 0; ++twos) { a >>= 1; b >>= 1; }] *)
Fixpoint strip_common_twos (fuel : nat) (a b twos : Z) : outcome (Z * Z * Z) :=
  match fuel with
  | O => Fault OutOfFuel
  | S fuel =>
      if Z.land (Z.lor a b) 1 =? 0
      then strip_common_twos fuel (Z.shiftr a 1) (Z.shiftr b 1) (u8 (twos + 1))
      else Ok (a, b, twos)
  end.

(** The [do ... while (b != 0)] loop of [BinaryGcd]. *)
Fixpoint gcd_loop (fuel : nat) (a b : Z) : outcome Z :=
  match fuel with
  | O => Fault OutOfFuel
  | S fuel =>
      b ← strip_twos kGcdFuel b;
      let '(a, b) := if b <? a then (b, a) else (a, b) in
      let b := b - a in
      if b =? 0 then Ok a else gcd_loop fuel a b
  end.

(** [BinaryGcd<T>] for an unsigned [T] of [w] bits. *)
Definition BinaryGcd (w a b : Z) : outcome Z :=
  if a =? 0 then Ok b
  else if b =? 0 then Ok a
  else
    '(a, b, twos) ← strip_common_twos kGcdFuel a b 0;
    a ← strip_twos kGcdFuel a;
    a ← gcd_loop kGcdFuel a b;
    Ok (uwrap w (Z.shiftl a twos)).

Section WithBuild.
Context `{Build}.

(** [ReduceRatio<T>]: the new numerator and denominator. *)
Definition ReduceRatio (w numerator denominator : Z) : outcome (Z * Z) :=
  _ ← dcheck (negb (denominator =? 0));
  gcd ← BinaryGcd w numerator denominator;
  if gcd =? 0 then Ok (numerator, 1)
  else if gcd =? 1 then Ok (numerator, denominator)
  else Ok (numerator / gcd, denominator / gcd).

Definition kLow32Bits : Z := 0xffffffff.
Definition kHigh32Bits : Z := u64 (Z.shiftl kLow32Bits 32).

(** [ScaleUInt64]: the result and the value stored to [*overflow]. *)
Definition ScaleUInt64 (value subject_delta reference_delta : Z)
    (round_up : bool) : outcome (Z * bool) :=
  _ ← dcheck (negb (reference_delta =? 0));
  let high := u64 (subject_delta * Z.shiftr value 32) in
  let low := u64 (subject_delta * Z.land value kLow32Bits) in
  let high := u64 (high + Z.shiftr low 32) in
  let low := Z.land low kLow32Bits in
  if reference_delta =? 0 then Fault UndefinedBehaviour
  else
    let low := Z.lor low (u64 (Z.shiftl (high mod reference_delta) 32)) in
    let round_up := round_up && negb (low mod reference_delta =? 0) in
    let high := high / reference_delta in
    let low := low / reference_delta in
    if negb (Z.land high kHigh32Bits =? 0) then Ok (0, true)
    else
      let result := Z.lor (u64 (Z.shiftl high 32)) low in
      if round_up then
        if result =? max_s64 then Ok (0, true)
        else Ok (u64 (result + 1), false)
      else Ok (result, false).

Definition kOverflow : Z := max_s64.

(** [TimelineRate::Reduce] *)
Definition Reduce (subject_delta reference_delta : Z) : outcome (Z * Z) :=
  ReduceRatio 32 subject_delta reference_delta.

(** The [do ... while] loop of [Product] that drops low bits until both deltas
    fit in 32 bits. *)
Fixpoint shift_to_fit (fuel : nat) (subject_delta reference_delta : Z)
    : outcome (Z * Z) :=
  match fuel with
  | O => Fault OutOfFuel
  | S fuel =>
      let s := Z.shiftr subject_delta 1 in
      let r := Z.shiftr reference_delta 1 in
      if (max_u32 <? s) || (max_u32 <? r) then shift_to_fit fuel s r
      else Ok (s, r)
  end.

(** [TimelineRate::Product] on the four deltas. *)
Definition Product (a_subject_delta a_reference_delta
    b_subject_delta b_reference_delta : Z) (exact : bool) : outcome (Z * Z) :=
  _ ← dcheck (negb (a_reference_delta =? 0));
  _ ← dcheck (negb (b_reference_delta =? 0));
  let subject_delta := u64 (a_subject_delta * b_subject_delta) in
  let reference_delta := u64 (a_reference_delta * b_reference_delta) in
  '(subject_delta, reference_delta) ←
    ReduceRatio 64 subject_delta reference_delta;
  if (max_u32 <? subject_delta) || (max_u32 <? reference_delta) then
    _ ← dcheck (negb exact);
    '(subject_delta, reference_delta) ←
      shift_to_fit 64 subject_delta reference_delta;
    if reference_delta =? 0 then Ok (max_u32, 1)
    else Ok (u32 subject_delta, u32 reference_delta)
  else Ok (u32 subject_delta, u32 reference_delta).

Definition abs_of_min_int64 : Z := u64 (max_s64 + 1).

(** [TimelineRate::Scale] on a value and the two deltas. *)
Definition Scale (value subject_delta reference_delta : Z) : outcome Z :=
  _ ← dcheck (negb (reference_delta =? 0));
  '(abs_result, overflow) ←
    (if 0 <=? value then
       ScaleUInt64 (u64 value) subject_delta reference_delta false
     else if value =? min_s64 then
       ScaleUInt64 abs_of_min_int64 subject_delta reference_delta true
     else
       neg ← s64 (- value);
       ScaleUInt64 (u64 neg) subject_delta reference_delta true);
  if (overflow : bool) then Ok kOverflow
  else if max_s64 <? abs_result then
    if (value <? 0) && (abs_result =? abs_of_min_int64) then Ok min_s64
    else Ok kOverflow
  else if 0 <=? value then Ok (to_s64 abs_result)
  else s64 (- to_s64 abs_result).

(** The class itself. *)
Record rate := mk_rate {
  subject_delta : Z;
  reference_delta : Z;
}.

(** [TimelineRate()] *)
Definition rate_default : rate := mk_rate 0 1.

(** [TimelineRate(uint32_t subject_delta)] *)
Definition rate_of_int (s : Z) : rate := mk_rate s 1.

(** [TimelineRate(uint32_t subject_delta, uint32_t reference_delta)] *)
Definition rate_new (s r : Z) : outcome rate :=
  _ ← dcheck (negb (r =? 0));
  '(s, r) ← Reduce s r;
  Ok (mk_rate s r).

(** [TimelineRate::Product] on rates. *)
Definition rate_product (a b : rate) (exact : bool) : outcome rate :=
  '(s, r) ← Product (subject_delta a) (reference_delta a)
                    (subject_delta b) (reference_delta b) exact;
  rate_new s r.

(** [TimelineRate::Inverse] *)
Definition Inverse (a : rate) : outcome rate :=
  _ ← dcheck (negb (subject_delta a =? 0));
  rate_new (reference_delta a) (subject_delta a).

(** [TimelineRate::Scale(int64_t) const] *)
Definition rate_scale (a : rate) (value : Z) : outcome Z :=
  Scale value (subject_delta a) (reference_delta a).

(** [operator==], [operator!=], [operator*] on rates and [operator/] *)
Definition rate_eqb (a b : rate) : bool :=
  (subject_delta a =? subject_delta b) && (reference_delta a =? reference_delta b).
Definition rate_neqb (a b : rate) : bool := negb (rate_eqb a b).
Definition rate_mul (a b : rate) : outcome rate := rate_product a b true.
Definition rate_div (value : Z) (b : rate) : outcome Z :=
  i ← Inverse b; rate_scale i value.

End WithBuild.

(** ** The binary gcd *)

Lemma gcd_odd_double a b : Z.odd a = true → Z.gcd a (2 * b) = Z.gcd a b.
Proof.
  intros Hodd.
  assert (Hdiv : ∀ d, (d | a) → (d | 2 * b) → (d | b)).
  { intros d Ha Hb. apply (Z.gauss d 2 b); [done|].
    pose proof (Z.gcd_nonneg d 2).
    assert ((Z.gcd d 2 | 2)) as H2 by apply Z.gcd_divide_r.
    assert ((Z.gcd d 2 | a)) as H1 by (etrans; [apply Z.gcd_divide_l | done]).
    apply Z.divide_pos_le in H2 as Hle; [|lia].
    assert (Z.gcd d 2 = 0 ∨ Z.gcd d 2 = 1 ∨ Z.gcd d 2 = 2) as [E|[E|E]] by lia.
    - rewrite E in H2. destruct H2. lia.
    - done.
    - rewrite E in H1. destruct H1 as [k ->]. by rewrite Z.odd_mul, andb_false_r in Hodd. }
  apply Z.gcd_unique.
  - apply Z.gcd_nonneg.
  - apply Z.gcd_divide_l.
  - apply Z.divide_mul_r, Z.gcd_divide_r.
  - intros d Ha Hb. apply Z.gcd_greatest; auto.
Qed.

Lemma gcd_odd_pow2 a b k :
  0 ≤ k → Z.odd a = true → Z.gcd a (2 ^ k * b) = Z.gcd a b.
Proof.
  intros Hk Hodd. revert k Hk. apply natlike_ind; [by rewrite Z.pow_0_r, Z.mul_1_l|].
  intros k Hk IH. rewrite Z.pow_succ_r, <- Z.mul_assoc, gcd_odd_double by done. done.
Qed.

Lemma even_halves b : Z.even b = true → b = 2 * (b / 2).
Proof. intros [k ->]%Z.even_spec. rewrite (Z.mul_comm 2 k), Z.div_mul by lia. lia. Qed.

Lemma strip_twos_spec fuel b :
  0 < b < 2 ^ Z.of_nat fuel →
  ∃ k b', strip_twos fuel b = Ok b' ∧ 0 ≤ k ∧ b = 2 ^ k * b' ∧
          Z.odd b' = true ∧ 0 < b' ≤ b.
Proof.
  revert b. induction fuel as [|fuel IH]; intros b Hb; [cbn in Hb; lia|].
  rewrite Nat2Z.inj_succ, Z.pow_succ_r in Hb by lia.
  cbn [strip_twos]. rewrite land1_even, shiftr1_div2.
  destruct (Z.even b) eqn:Heven.
  - pose proof (even_halves b Heven) as Hh.
    destruct (IH (b / 2)) as (k & b' & -> & Hk & Heq & Hodd & Hle); [lia|].
    exists (Z.succ k), b'. split_and!; try done; try lia.
    rewrite Z.pow_succ_r by lia. lia.
  - exists 0, b. rewrite <- Z.negb_even, Heven. split_and!; [done|lia|lia|done|lia|lia].
Qed.

(** When [b] is even the shift removes at least one factor of two. *)
Lemma strip_twos_even fuel b :
  0 < b < 2 ^ Z.of_nat fuel → Z.even b = true →
  ∃ k b', strip_twos fuel b = Ok b' ∧ 0 ≤ k ∧ b = 2 ^ k * b' ∧
          Z.odd b' = true ∧ 0 < b' ∧ 2 * b' ≤ b.
Proof.
  intros Hb Heven. destruct (strip_twos_spec fuel b Hb) as (k & b' & -> & Hk & Heq & Hodd & Hle).
  exists k, b'. split_and!; try done; try lia.
  destruct (decide (k = 0)) as [->|Hne].
  - rewrite Z.pow_0_r, Z.mul_1_l in Heq. subst.
    by rewrite <- Z.negb_odd, Hodd in Heven.
  - rewrite Heq. replace k with (Z.succ (k - 1)) by lia.
    rewrite Z.pow_succ_r by lia. pose proof (Z.pow_pos_nonneg 2 (k - 1)). nia.
Qed.

(** One subtraction step keeps the gcd. *)
Lemma gcd_sub_step a b :
  (let '(x, y) := if b <? a then (b, a) else (a, b) in Z.gcd x (y - x)) = Z.gcd a b.
Proof.
  destruct (b <? a).
  - by rewrite Z.gcd_sub_diag_r, Z.gcd_comm.
  - by rewrite Z.gcd_sub_diag_r.
Qed.

(** One iteration of the loop, given that the rest of the loop handles every
    pair with an even second component and a smaller product. *)
Lemma gcd_loop_step fuel a b b' :
  strip_twos kGcdFuel b = Ok b' → Z.odd a = true → Z.odd b' = true →
  0 < a < 2 ^ 64 → 0 < b' < 2 ^ 64 →
  (∀ x y, Z.odd x = true → Z.even y = true → 0 < x < 2 ^ 64 → 0 < y < 2 ^ 64 →
     x * y < a * b' → gcd_loop fuel x y = Ok (Z.gcd x y)) →
  gcd_loop (S fuel) a b = Ok (Z.gcd a b').
Proof.
  intros Hs Hodd Hodd' Ha Hb' IH. cbn [gcd_loop]. rewrite Hs. cbn [mbind outcome_bind].
  rewrite <- gcd_sub_step.
  assert (Heven : Z.even (a - b') = true ∧ Z.even (b' - a) = true).
  { by rewrite !Z.even_sub, <- !Z.negb_odd, Hodd, Hodd'. }
  destruct (Z.ltb_spec b' a) as [Hlt|Hge].
  - rewrite (proj2 (Z.eqb_neq _ _)) by lia. apply IH; [done|apply Heven|lia|lia|nia].
  - destruct (Z.eqb_spec (b' - a) 0) as [He|Hne].
    + by rewrite He, Z.gcd_0_r, Z.abs_eq by lia.
    + apply IH; [done|apply Heven|lia|lia|nia].
Qed.

Lemma gcd_loop_even fuel a b :
  Z.odd a = true → Z.even b = true → 0 < a < 2 ^ 64 → 0 < b < 2 ^ 64 →
  a * b < 2 ^ Z.of_nat fuel →
  gcd_loop fuel a b = Ok (Z.gcd a b).
Proof.
  revert a b. induction fuel as [|fuel IH]; intros a b Hodd Heven Ha Hb Hm;
    [cbn in Hm; nia|].
  rewrite Nat2Z.inj_succ, Z.pow_succ_r in Hm by lia.
  destruct (strip_twos_even kGcdFuel b) as (k & b' & Hs & Hk & Heq & Hodd' & Hb0 & Hle);
    [unfold kGcdFuel; lia | done |].
  rewrite Heq at 2. rewrite gcd_odd_pow2 by done.
  apply gcd_loop_step; try done; [lia|].
  intros x y Hx Hy Hx0 Hy0 Hxy. apply IH; try done. nia.
Qed.

Lemma gcd_loop_spec fuel a b :
  Z.odd a = true → 0 < a < 2 ^ 64 → 0 < b < 2 ^ 64 →
  a * b < 2 ^ Z.of_nat fuel →
  gcd_loop (S fuel) a b = Ok (Z.gcd a b).
Proof.
  intros Hodd Ha Hb Hm.
  destruct (strip_twos_spec kGcdFuel b) as (k & b' & Hs & Hk & Heq & Hodd' & Hle);
    [unfold kGcdFuel; lia |].
  rewrite Heq at 2. rewrite gcd_odd_pow2 by done.
  apply gcd_loop_step; try done; [lia|].
  intros x y Hx Hy Hx0 Hy0 Hxy. apply gcd_loop_even; try done. nia.
Qed.

Lemma strip_common_twos_spec fuel a b t :
  0 < a < 2 ^ Z.of_nat fuel → 0 < b → 0 ≤ t → t + Z.of_nat fuel ≤ 255 →
  ∃ k a' b', strip_common_twos fuel a b t = Ok (a', b', t + k) ∧
    0 ≤ k < Z.of_nat fuel ∧ a = 2 ^ k * a' ∧ b = 2 ^ k * b' ∧ 0 < a' ∧ 0 < b' ∧
    (Z.odd a' || Z.odd b') = true.
Proof.
  revert a b t. induction fuel as [|fuel IH]; intros a b t Ha Hb Ht Hf; [cbn in Ha; lia|].
  rewrite Nat2Z.inj_succ, Z.pow_succ_r in Ha by lia.
  cbn [strip_common_twos]. rewrite land1_even.
  assert (Heo : Z.even (Z.lor a b) = Z.even a && Z.even b).
  { rewrite <- !Z.negb_odd, <- !Z.bit0_odd, Z.lor_spec. by destruct (Z.testbit a 0). }
  rewrite Heo, !shiftr1_div2.
  destruct (Z.even a && Z.even b) eqn:E.
  - apply andb_true_iff in E as [Ea Eb].
    pose proof (even_halves a Ea). pose proof (even_halves b Eb).
    assert (u8 (t + 1) = t + 1) as -> by (apply uwrap_small; unfold is_u; lia).
    destruct (IH (a / 2) (b / 2) (t + 1)) as (k & a' & b' & -> & Hk & Hea & Heb & Hr); [lia..|].
    exists (Z.succ k), a', b'. rewrite Z.pow_succ_r by lia.
    split_and!; try apply Hr; try lia. do 2 f_equal; lia.
  - exists 0, a, b. rewrite Z.pow_0_r, Z.add_0_r. split_and!; try done; try lia.
    rewrite <- !Z.negb_even. by apply negb_true_iff in E as <-; destruct (Z.even a), (Z.even b).
Qed.

Lemma BinaryGcd_gcd w a b :
  32 ≤ w ≤ 64 → is_u w a → is_u w b → BinaryGcd w a b = Ok (Z.gcd a b).
Proof.
  unfold is_u. intros Hw Ha Hb.
  assert (2 ^ w ≤ 2 ^ 64) by (apply Z.pow_le_mono_r; lia).
  unfold BinaryGcd.
  destruct (Z.eqb_spec a 0) as [->|Ha0]; [by rewrite Z.gcd_0_l, Z.abs_eq by lia|].
  destruct (Z.eqb_spec b 0) as [->|Hb0]; [by rewrite Z.gcd_0_r, Z.abs_eq by lia|].
  destruct (strip_common_twos_spec kGcdFuel a b 0)
    as (k & a' & b' & -> & Hk & Hea & Heb & Ha' & Hb' & Hodd); [unfold kGcdFuel; lia..|].
  cbn [mbind outcome_bind]. rewrite Z.add_0_l.
  pose proof (Z.pow_pos_nonneg 2 k ltac:(lia) ltac:(lia)).
  destruct (strip_twos_spec kGcdFuel a') as (j & a'' & -> & Hj & Heq & Hodd'' & Hle);
    [unfold kGcdFuel; nia|].
  cbn [mbind outcome_bind]. rewrite (gcd_loop_spec 128); [|done|nia..].
  cbn [mbind outcome_bind]. f_equal.
  assert (Hg : Z.gcd a'' b' = Z.gcd a' b').
  { destruct (Z.odd b') eqn:Hob.
    - by rewrite Heq, (Z.gcd_comm (2 ^ j * a'')), gcd_odd_pow2, Z.gcd_comm by done.
    - rewrite orb_false_r in Hodd. destruct (decide (j = 0)) as [->|Hne].
      + by rewrite Heq, Z.pow_0_r, Z.mul_1_l.
      + rewrite Heq, Z.odd_mul, Z.odd_pow in Hodd by lia. done. }
  rewrite Hg, Z.shiftl_mul_pow2 by lia.
  assert (Hgcd : Z.gcd a b = Z.gcd a' b' * 2 ^ k).
  { rewrite Hea, Heb, Z.gcd_mul_mono_l, Z.abs_eq by lia. lia. }
  rewrite <- Hgcd. apply uwrap_small. unfold is_u.
  pose proof (Z.gcd_nonneg a b).
  assert (Z.gcd a b ≤ a); [|lia].
  apply Z.divide_pos_le; [lia|]. apply Z.gcd_divide_l.
Qed.

(** ** Scaling *)

Section Scaling.
Context `{Build}.

(** The value [ScaleUInt64] returns, in exact arithmetic. *)
Definition scaled_u64 (value s r : Z) (round_up : bool) : Z * bool :=
  let q := value * s / r in
  if 2 ^ 64 <=? q then (0, true)
  else if round_up && negb (value * s mod r =? 0) then
    if q =? max_s64 then (0, true) else (u64 (q + 1), false)
  else (q, false).

Lemma high_bits_clear high :
  is_u 64 high → (Z.land high kHigh32Bits =? 0) = (high <? 2 ^ 32).
Proof.
  unfold is_u. intros Hh.
  change kHigh32Bits with (Z.shiftl (2 ^ 32 - 1) 32).
  rewrite land_shiftl_high, Z.shiftl_mul_pow2, Z.shiftr_div_pow2, land_low by lia.
  rewrite (Z.mod_small (high / 2 ^ 32)).
  - destruct (Z.ltb_spec high (2 ^ 32)).
    + rewrite Z.div_small by lia. done.
    + apply Z.eqb_neq. pose proof (Z.div_le_mono (2 ^ 32) high (2 ^ 32)).
      rewrite Z.div_same in * by lia. lia.
  - split; [apply Z.div_pos; lia|]. apply Z.div_lt_upper_bound; lia.
Qed.

Lemma ScaleUInt64_exact value s r up :
  is_u 64 value → is_u 32 s → is_u 32 r → r ≠ 0 →
  ScaleUInt64 value s r up = Ok (scaled_u64 value s r up).
Proof.
  unfold is_u. intros Hv Hs Hr Hr0.
  unfold ScaleUInt64. rewrite dcheck_nonzero by done.
  cbn [mbind outcome_bind]. rewrite (proj2 (Z.eqb_neq r 0)) by done.
  change kLow32Bits with (2 ^ 32 - 1). rewrite !land_low, !Z.shiftr_div_pow2 by lia.
  destruct (mul_96 value s) as (H1 & H2 & Hu & Hp & Hll); [done..|].
  set (vh := value / 2 ^ 32) in *. set (vl := value mod 2 ^ 32) in *.
  rewrite (uwrap_small 64 (s * vh)), (uwrap_small 64 (s * vl)) by done.
  set (lh := s * vl / 2 ^ 32) in *. set (ll := (s * vl) mod 2 ^ 32) in *.
  rewrite (uwrap_small 64 (s * vh + lh)) by done.
  set (h := s * vh + lh) in *.
  pose proof (Z.mod_pos_bound h r ltac:(lia)) as Hm.
  rewrite (uwrap_small 64 (Z.shiftl (h mod r) 32))
    by (rewrite Z.shiftl_mul_pow2 by lia; unfold is_u; nia).
  rewrite Z.lor_comm, lor_disjoint_add by (unfold is_u; lia).
  destruct (long_division h ll (2 ^ 32) r) as (Hq & Hrem & Hlow); [lia|unfold is_u in Hu; lia|lia|].
  rewrite <- Hp in Hq, Hrem. unfold scaled_u64. rewrite Hrem.
  assert (0 ≤ h / r) by (apply Z.div_pos; unfold is_u in Hu; lia).
  rewrite high_bits_clear.
  2:{ split; [done|]. apply Z.le_lt_trans with h; [|apply Hu].
      apply Z.div_le_upper_bound; unfold is_u in Hu; nia. }
  destruct (Z.ltb_spec (h / r) (2 ^ 32)); cbn [negb].
  - rewrite (uwrap_small 64 (Z.shiftl (h / r) 32))
      by (rewrite Z.shiftl_mul_pow2 by lia; unfold is_u; nia).
    rewrite lor_disjoint_add by (unfold is_u; lia). rewrite <- Hq.
    rewrite (proj2 (Z.leb_gt _ _)) by nia.
    by repeat case_match.
  - rewrite (proj2 (Z.leb_le _ _)) by nia. done.
Qed.

(** The value [Scale] returns, in exact arithmetic. *)
Definition scaled (value s r : Z) : Z :=
  if 0 <=? value then Z.min (value * s / r) kOverflow
  else
    let '(m, overflow) := scaled_u64 (- value) s r true in
    if (overflow : bool) then kOverflow else if m <=? 2 ^ 63 then - m else kOverflow.

Lemma scaled_u64_range value s r up :
  0 ≤ value → 0 ≤ s → 0 < r → is_u 64 (fst (scaled_u64 value s r up)).
Proof.
  intros Hv Hs Hr. unfold scaled_u64.
  assert (0 ≤ value * s / r) by (apply Z.div_pos; nia).
  repeat case_match; simplify_eq/=; try (unfold is_u; lia).
  apply uwrap_range. lia.
Qed.

Lemma Scale_exact value s r :
  is_s64 value → is_u 32 s → is_u 32 r → r ≠ 0 →
  Scale value s r = Ok (scaled value s r).
Proof.
  intros Hv Hs Hr Hr0. unfold Scale.
  rewrite dcheck_nonzero by done.
  cbn [mbind outcome_bind]. unfold scaled.
  unfold is_s64, min_s64, max_s64, is_u in *.
  destruct (Z.leb_spec 0 value) as [Hpos|Hneg].
  - rewrite (uwrap_small 64) by (unfold is_u; lia).
    rewrite ScaleUInt64_exact by (unfold is_u; lia). cbn [mbind outcome_bind].
    assert (0 ≤ value * s / r) by (apply Z.div_pos; nia).
    unfold scaled_u64, kOverflow, max_s64. cbn [andb].
    rewrite (proj2 (Z.ltb_ge value 0)) by lia. cbn [andb].
    destruct (Z.leb_spec (2 ^ 64) (value * s / r)); [f_equal; lia|].
    destruct (Z.ltb_spec (2 ^ 63 - 1) (value * s / r)); [f_equal; lia|].
    rewrite to_s64_small by (unfold is_s64, min_s64, max_s64; lia). f_equal. lia.
  - rewrite (proj2 (Z.ltb_lt value 0)) by lia. cbn [andb].
    match goal with |- (?e ≫= _) = _ =>
      replace e with (Ok (scaled_u64 (- value) s r true)) end.
    2:{ destruct (Z.eqb_spec value (- 2 ^ 63)) as [Hmin|Hmin].
        - change abs_of_min_int64 with (2 ^ 63). replace (- value) with (2 ^ 63) by lia.
          by rewrite ScaleUInt64_exact by (unfold is_u; lia).
        - rewrite s64_ok by (unfold is_s64, min_s64, max_s64; lia). cbn [mbind outcome_bind].
          rewrite (uwrap_small 64), ScaleUInt64_exact by (unfold is_u; lia). done. }
    pose proof (scaled_u64_range (- value) s r true ltac:(lia) ltac:(lia) ltac:(lia)) as Hrange.
    cbn [mbind outcome_bind]. destruct (scaled_u64 (- value) s r true) as [m [|]]; [done|].
    cbn [fst] in Hrange. unfold is_u in Hrange. change abs_of_min_int64 with (2 ^ 63).
    unfold max_s64, kOverflow.
    destruct (Z.ltb_spec (2 ^ 63 - 1) m).
    + destruct (Z.eqb_spec m (2 ^ 63)) as [->|]; [done|].
      by rewrite (proj2 (Z.leb_gt m (2 ^ 63))) by lia.
    + rewrite (proj2 (Z.leb_le m (2 ^ 63))) by lia.
      rewrite to_s64_small by (unfold is_s64, min_s64, max_s64; lia).
      apply s64_ok. unfold is_s64, min_s64, max_s64. lia.
Qed.

Lemma scaled_floor value s r :
  is_s64 value → is_u 32 s → is_u 32 r → r ≠ 0 →
  min_s64 < value * s / r ≤ max_s64 → scaled value s r = value * s / r.
Proof.
  intros Hv Hs Hr Hr0 Hq. unfold scaled.
  unfold is_s64, min_s64, max_s64, is_u in *.
  destruct (Z.leb_spec 0 value); [unfold kOverflow, max_s64; lia|].
  pose proof (div_neg (- value * s) r ltac:(lia)) as Hd.
  replace (- (- value * s)) with (value * s) in Hd by lia.
  unfold scaled_u64, max_s64.
  assert (0 ≤ - value * s / r) by (apply Z.div_pos; nia).
  rewrite (proj2 (Z.leb_gt (2 ^ 64) _)) by (case_match; lia).
  destruct (Z.eqb_spec (- value * s mod r) 0); cbn [negb andb].
  - rewrite (proj2 (Z.leb_le _ (2 ^ 63))) by lia. lia.
  - rewrite (proj2 (Z.eqb_neq _ (2 ^ 63 - 1))) by lia.
    rewrite (uwrap_small 64) by (unfold is_u; lia).
    rewrite (proj2 (Z.leb_le _ (2 ^ 63))) by lia. lia.
Qed.

(** C30. Whenever the exact product [value * s / r], rounded down, is an
    [int64_t] above the smallest one, [Scale] returns exactly that floor, for
    positive and negative values alike, and it never faults. *)
Theorem Scale_floor value s r :
  is_s64 value → is_u 32 s → is_u 32 r → r ≠ 0 →
  min_s64 < value * s / r ≤ max_s64 →
  Scale value s r = Ok (value * s / r).
Proof. intros Hv Hs Hr Hr0 Hq. by rewrite Scale_exact, scaled_floor. Qed.

(** A product above the largest [int64_t] is reported as [kOverflow]; so is
    one below the smallest [int64_t], except when the magnitude before rounding
    up is [2^64 - 1]. *)
Lemma Scale_overflow value s r :
  is_s64 value → is_u 32 s → is_u 32 r → r ≠ 0 →
  (max_s64 < value * s / r ∨
   value * s / r < min_s64 ∧ - value * s / r ≠ 2 ^ 64 - 1) →
  Scale value s r = Ok kOverflow.
Proof.
  intros Hv Hs Hr Hr0 Hq. rewrite Scale_exact by done. f_equal. unfold scaled.
  unfold is_s64, min_s64, max_s64, kOverflow, is_u in *.
  destruct (Z.leb_spec 0 value).
  { destruct Hq as [Hq|[Hq _]]; [unfold max_s64; lia|].
    assert (0 ≤ value * s / r) by (apply Z.div_pos; nia). lia. }
  pose proof (div_neg (- value * s) r ltac:(lia)) as Hd.
  replace (- (- value * s)) with (value * s) in Hd by lia.
  assert (0 ≤ - value * s / r) by (apply Z.div_pos; nia).
  destruct Hq as [Hq|[Hq Hne]]; [case_match; lia|].
  unfold scaled_u64, max_s64.
  destruct (Z.leb_spec (2 ^ 64) (- value * s / r)); [done|].
  destruct (Z.eqb_spec (- value * s mod r) 0); cbn [negb andb].
  - by rewrite (proj2 (Z.leb_gt _ (2 ^ 63))) by lia.
  - rewrite (proj2 (Z.eqb_neq _ (2 ^ 63 - 1))) by lia.
    rewrite (uwrap_small 64) by (unfold is_u; lia).
    by rewrite (proj2 (Z.leb_gt _ (2 ^ 63))) by lia.
Qed.

End Scaling.

(** Underflow is not always reported.  [ScaleUInt64] compares the magnitude
    with the largest [int64_t] instead of the largest [uint64_t] before rounding
    it up: a magnitude of [2^64 - 1] with a remainder wraps to [0], which [Scale]
    returns although the exact floor is [-2^64]; and an exact floor equal to the
    smallest [int64_t] is reported as an overflow when the division has a
    remainder. *)
Lemma Scale_underflow_defect :
  @Scale release_build (-8384883669867978007) 11 5 = Ok 0 ∧
  -8384883669867978007 * 11 / 5 = - 2 ^ 64 ∧
  @Scale release_build (-6148914691236517205) 3 2 = Ok kOverflow ∧
  -6148914691236517205 * 3 / 2 = min_s64.
Proof. vm_compute. done. Qed.

Lemma Scale_floor_witness :
  @Scale debug_build (-7) 3 2 = Ok (-11).
Proof. apply (@Scale_floor debug_build (-7) 3 2); concrete. Defined.

Lemma Scale_overflow_witness :
  @Scale debug_build (2 ^ 62) 7 2 = Ok kOverflow.
Proof.
  apply (@Scale_overflow debug_build (2 ^ 62) 7 2); [concrete..|]. left. concrete.
Defined.

(** ** Rates *)

Section Rates.
Context `{Build}.

(** Every constructed rate is a fraction of 32-bit numbers in lowest terms. *)
Definition rate_wf (a : rate) : Prop :=
  is_u 32 (subject_delta a) ∧ is_u 32 (reference_delta a) ∧
  reference_delta a ≠ 0 ∧ Z.gcd (subject_delta a) (reference_delta a) = 1.

Lemma BinaryGcd_pos w n d :
  32 ≤ w ≤ 64 → is_u w n → is_u w d → d ≠ 0 →
  BinaryGcd w n d = Ok (Z.gcd n d) ∧ 0 < Z.gcd n d.
Proof.
  intros Hw Hn Hd Hd0. split; [by apply BinaryGcd_gcd|].
  pose proof (Z.gcd_nonneg n d).
  assert (Z.gcd n d ≠ 0); [|lia]. intros [_ ?]%Z.gcd_eq_0. done.
Qed.

Lemma ReduceRatio_div w n d :
  32 ≤ w ≤ 64 → is_u w n → is_u w d → d ≠ 0 →
  ReduceRatio w n d = Ok (n / Z.gcd n d, d / Z.gcd n d).
Proof.
  intros Hw Hn Hd Hd0. unfold ReduceRatio.
  rewrite dcheck_nonzero by done.
  destruct (BinaryGcd_pos w n d) as [-> Hg]; [done..|]. cbn [mbind outcome_bind].
  rewrite (proj2 (Z.eqb_neq _ 0)) by lia.
  destruct (Z.eqb_spec (Z.gcd n d) 1) as [->|]; [by rewrite !Z.div_1_r|done].
Qed.

Lemma rate_new_div s r :
  is_u 32 s → is_u 32 r → r ≠ 0 →
  rate_new s r = Ok (mk_rate (s / Z.gcd s r) (r / Z.gcd s r)).
Proof.
  intros Hs Hr Hr0. unfold rate_new, Reduce.
  rewrite dcheck_nonzero by done.
  cbn [mbind outcome_bind]. rewrite ReduceRatio_div by (done || lia). done.
Qed.

Lemma rate_new_spec s r :
  is_u 32 s → is_u 32 r → r ≠ 0 →
  ∃ a, rate_new s r = Ok a ∧ rate_wf a ∧
       subject_delta a * r = s * reference_delta a.
Proof.
  intros Hs Hr Hr0. rewrite rate_new_div by done. eexists. split; [done|].
  destruct (reduced_facts s r) as (Hg & Es & Er & Hc & Hsr & Hrr); [apply Hs|unfold is_u in Hr; lia|].
  unfold rate_wf, is_u in *. cbn. split_and!; try lia; nia.
Qed.

Lemma rate_new_coprime s r :
  is_u 32 s → is_u 32 r → r ≠ 0 → Z.gcd s r = 1 → rate_new s r = Ok (mk_rate s r).
Proof. intros Hs Hr Hr0 Hg. rewrite rate_new_div, Hg, !Z.div_1_r by done. done. Qed.

(** [TimelineRate(s, r)] succeeds for every nonzero [r] and yields the
    fraction in lowest terms, so that [operator==] on two constructed rates
    decides equality of the rational numbers [s/r] and [s'/r']. *)
Lemma rate_eqb_rational s r s' r' :
  is_u 32 s → is_u 32 r → r ≠ 0 → is_u 32 s' → is_u 32 r' → r' ≠ 0 →
  ∃ a b, rate_new s r = Ok a ∧ rate_new s' r' = Ok b ∧ rate_wf a ∧ rate_wf b ∧
         (rate_eqb a b = true ↔ s * r' = s' * r).
Proof.
  intros Hs Hr Hr0 Hs' Hr' Hr0'.
  destruct (rate_new_spec s r) as (a & -> & Hwa & Ea); [done..|].
  destruct (rate_new_spec s' r') as (b & -> & Hwb & Eb); [done..|].
  exists a, b. split_and!; try done.
  destruct a as [s1 r1], b as [s2 r2].
  destruct Hwa as (H1 & H2 & H3 & H4), Hwb as (H5 & H6 & H7 & H8).
  unfold rate_eqb, is_u in *. cbn in *. rewrite andb_true_iff, !Z.eqb_eq. split.
  - intros [-> ->]. nia.
  - intros Hx. apply coprime_cross_eq; try done; try lia. nia.
Qed.

Definition swapped (a : rate) : rate := mk_rate (reference_delta a) (subject_delta a).

Lemma Inverse_swapped a :
  rate_wf a → subject_delta a ≠ 0 → Inverse a = Ok (swapped a) ∧ rate_wf (swapped a).
Proof.
  destruct a as [s r]. intros (Hs & Hr & Hr0 & Hg) Hs0. unfold Inverse, swapped, rate_wf. cbn in *.
  rewrite dcheck_nonzero by done. cbn [mbind outcome_bind].
  rewrite Z.gcd_comm in Hg. rewrite rate_new_coprime by done. done.
Qed.

(** On a well-formed nonzero rate [Inverse] swaps the two deltas, stays well
    formed, and is its own inverse. *)
Lemma Inverse_involutive a :
  rate_wf a → subject_delta a ≠ 0 →
  ∃ b, Inverse a = Ok b ∧ rate_wf b ∧ Inverse b = Ok a ∧
       subject_delta b = reference_delta a ∧ reference_delta b = subject_delta a.
Proof.
  intros Hwf Hs0. destruct (Inverse_swapped a Hwf Hs0) as [Hi Hwf'].
  exists (swapped a). split_and!; try done.
  destruct (Inverse_swapped (swapped a) Hwf') as [-> _]; [apply Hwf|].
  by destruct a.
Qed.

Lemma shift_to_fit_spec fuel s r :
  0 ≤ s < 2 ^ (32 + Z.of_nat fuel) → 0 ≤ r < 2 ^ (32 + Z.of_nat fuel) → (0 < fuel)%nat →
  ∃ k, shift_to_fit fuel s r = Ok (s / 2 ^ k, r / 2 ^ k) ∧ 0 < k ∧
       s / 2 ^ k ≤ max_u32 ∧ r / 2 ^ k ≤ max_u32.
Proof.
  revert s r. induction fuel as [|fuel IH]; intros s r Hs Hr Hf; [lia|].
  cbn [shift_to_fit]. rewrite !shiftr1_div2.
  replace (32 + Z.of_nat (S fuel)) with (Z.succ (32 + Z.of_nat fuel)) in * by lia.
  rewrite Z.pow_succ_r in * by lia.
  assert (∀ x, 0 ≤ x < 2 * 2 ^ (32 + Z.of_nat fuel) →
            0 ≤ x / 2 < 2 ^ (32 + Z.of_nat fuel)) as Hhalf.
  { intros x Hx. split; [apply Z.div_pos; lia|]. apply Z.div_lt_upper_bound; lia. }
  destruct ((max_u32 <? s / 2) || (max_u32 <? r / 2)) eqn:E.
  - destruct fuel as [|fuel].
    { pose proof (Hhalf s Hs). pose proof (Hhalf r Hr).
      change (32 + Z.of_nat 0) with 32 in *. unfold max_u32 in E. lia. }
    destruct (IH (s / 2) (r / 2)) as (k & -> & Hk & H1 & H2); [apply Hhalf; lia..|lia|].
    exists (Z.succ k). rewrite Z.pow_succ_r by lia.
    rewrite <- !Z.div_div by lia. split_and!; try done. lia.
  - exists 1. change (2 ^ 1) with 2. split_and!; try done; lia.
Qed.

(** The reduced product of two rates, in exact arithmetic. *)
Definition product_terms (a b : rate) : Z * Z :=
  let n := subject_delta a * subject_delta b in
  let d := reference_delta a * reference_delta b in
  (n / Z.gcd n d, d / Z.gcd n d).

Definition product_fits (a b : rate) : Prop :=
  (product_terms a b).1 ≤ max_u32 ∧ (product_terms a b).2 ≤ max_u32.

Lemma product_facts a b :
  rate_wf a → rate_wf b →
  let '(n, d) := product_terms a b in
  0 ≤ n < 2 ^ 64 ∧ 0 < d < 2 ^ 64 ∧ Z.gcd n d = 1 ∧
  n * (reference_delta a * reference_delta b) =
    subject_delta a * subject_delta b * d.
Proof.
  destruct a as [s r], b as [s' r'].
  intros (Hs & Hr & Hr0 & _) (Hs' & Hr' & Hr0' & _). unfold product_terms, is_u in *. cbn in *.
  destruct (reduced_facts (s * s') (r * r')) as (Hg & En & Ed & Hc & Hn & Hd); [nia..|].
  split_and!; try done; nia.
Qed.

Lemma Product_terms a b exact :
  rate_wf a → rate_wf b →
  Product (subject_delta a) (reference_delta a)
          (subject_delta b) (reference_delta b) exact =
  let '(n, d) := product_terms a b in
  if (max_u32 <? n) || (max_u32 <? d) then
    _ ← dcheck (negb exact);
    '(n, d) ← shift_to_fit 64 n d;
    if d =? 0 then Ok (max_u32, 1) else Ok (u32 n, u32 d)
  else Ok (n, d).
Proof.
  intros Ha Hb. pose proof (product_facts a b Ha Hb) as Hp.
  destruct a as [s r], b as [s' r'].
  destruct Ha as (Hs & Hr & Hr0 & _), Hb as (Hs' & Hr' & Hr0' & _).
  unfold Product, product_terms, is_u in *. cbn in Hs, Hr, Hr0, Hs', Hr', Hr0', Hp |- *.
  rewrite !dcheck_nonzero by done. cbn [mbind outcome_bind].
  rewrite !(uwrap_small 64) by (unfold is_u; nia).
  rewrite ReduceRatio_div by (unfold is_u; nia). cbn [mbind outcome_bind].
  destruct ((max_u32 <? _) || _) eqn:E; [done|].
  apply orb_false_iff in E as [E1%Z.ltb_ge E2%Z.ltb_ge]. unfold max_u32 in *.
  by rewrite !(uwrap_small 32) by (unfold is_u; lia).
Qed.

Lemma rate_product_fits a b exact :
  rate_wf a → rate_wf b → product_fits a b →
  ∃ c, rate_product a b exact = Ok c ∧ rate_wf c ∧
       subject_delta c * (reference_delta a * reference_delta b) =
         subject_delta a * subject_delta b * reference_delta c.
Proof.
  intros Ha Hb [Hn Hd]. pose proof (product_facts a b Ha Hb) as Hp.
  unfold rate_product. rewrite Product_terms by done.
  destruct (product_terms a b) as [n d]. cbn in Hn, Hd.
  destruct Hp as (Hn0 & Hd0 & Hg & Heq).
  rewrite (proj2 (Z.ltb_ge max_u32 n)), (proj2 (Z.ltb_ge max_u32 d)) by done.
  cbn [orb mbind outcome_bind]. unfold max_u32 in *.
  exists (mk_rate n d). rewrite rate_new_coprime by (done || unfold is_u; lia).
  split_and!; try done. split_and!; cbn; try done; unfold is_u; lia.
Qed.

(** If the product of two rates in lowest terms fits in 32-bit deltas,
    [Product] returns it exactly and in lowest terms, whatever [exact] is; if it
    does not fit, a debug build stops an exact product at its [DCHECK]. *)
Lemma rate_product_exact a b exact :
  rate_wf a → rate_wf b →
  (product_fits a b →
     ∃ c, rate_product a b exact = Ok c ∧ rate_wf c ∧
       subject_delta c * (reference_delta a * reference_delta b) =
         subject_delta a * subject_delta b * reference_delta c) ∧
  (¬ product_fits a b → dcheck_is_on = true →
     rate_product a b true = Fault DCheckFailed).
Proof.
  intros Ha Hb. split; [by apply rate_product_fits|]. intros Hfit Hon.
  unfold rate_product, product_fits in *. rewrite Product_terms by done.
  destruct (product_terms a b) as [n d]. cbn [fst snd] in Hfit.
  replace ((max_u32 <? n) || (max_u32 <? d)) with true by lia.
  unfold dcheck. by rewrite Hon.
Qed.

(** When the product of two rates does not fit in 32-bit deltas, an inexact
    [Product] drops the same number of low bits from both terms; unless the
    denominator vanishes (the largest representable rate is returned then), the
    terms [n'/d'] it keeps enclose the exact product: [n'/(d'+1) < n/d < (n'+1)/d']. *)
Lemma Product_inexact_enclosure a b :
  rate_wf a → rate_wf b → ¬ product_fits a b →
  ∃ n' d', Product (subject_delta a) (reference_delta a)
                   (subject_delta b) (reference_delta b) false = Ok (n', d') ∧
    is_u 32 n' ∧ is_u 32 d' ∧ d' ≠ 0 ∧
    ((n', d') = (max_u32, 1) ∨
     n' * (product_terms a b).2 < (product_terms a b).1 * (d' + 1) ∧
     (product_terms a b).1 * d' < (n' + 1) * (product_terms a b).2).
Proof.
  intros Ha Hb Hfit. pose proof (product_facts a b Ha Hb) as Hp.
  rewrite Product_terms by done. unfold product_fits in Hfit.
  destruct (product_terms a b) as [n d]. cbn [fst snd] in Hfit |- *.
  destruct Hp as (Hn0 & Hd0 & Hg & Heq).
  replace ((max_u32 <? n) || (max_u32 <? d)) with true by lia.
  rewrite dcheck_true by done. cbn [mbind outcome_bind].
  destruct (shift_to_fit_spec 64 n d) as (k & -> & Hk & Hn' & Hd');
    [change (32 + Z.of_nat 64) with 96; lia..|lia|].
  cbn [mbind outcome_bind].
  pose proof (Z.pow_pos_nonneg 2 k ltac:(lia) ltac:(lia)) as Hpk.
  assert (0 ≤ n / 2 ^ k) by (apply Z.div_pos; lia).
  assert (0 ≤ d / 2 ^ k) by (apply Z.div_pos; lia).
  unfold max_u32 in *.
  destruct (Z.eqb_spec (d / 2 ^ k) 0) as [E|E].
  - exists (2 ^ 32 - 1), 1. split_and!; try done; try (unfold is_u; lia). by left.
  - rewrite !(uwrap_small 32) by (unfold is_u; lia).
    exists (n / 2 ^ k), (d / 2 ^ k). split_and!; try done; try (unfold is_u; lia). right.
    apply (truncated_fraction n d _ _ (n mod 2 ^ k) (d mod 2 ^ k) (2 ^ k));
      try lia; auto using Z.mod_pos_bound, Z.div_mod with lia.
    destruct (decide (n = 0)) as [->|]; [|lia].
    rewrite Z.gcd_0_l, Z.abs_eq in Hg by lia. lia.
Qed.

End Rates.

Lemma rate_eqb_rational_witness :
  ∃ a b, @rate_new debug_build 44100 48000 = Ok a ∧ @rate_new debug_build 147 160 = Ok b ∧
         rate_wf a ∧ rate_wf b ∧ (rate_eqb a b = true ↔ 44100 * 160 = 147 * 48000).
Proof. apply (@rate_eqb_rational debug_build); concrete. Defined.

Lemma rate_product_exact_witness :
  (∃ c, @rate_product debug_build (mk_rate 147 160) (mk_rate 160 147) true = Ok c ∧
     rate_wf c ∧ subject_delta c * (160 * 147) = 147 * 160 * reference_delta c) ∧
  @rate_product debug_build (mk_rate 4294967291 2) (mk_rate 4294967279 3) true =
    Fault DCheckFailed.
Proof.
  split.
  - apply (@rate_product_exact debug_build (mk_rate 147 160) (mk_rate 160 147) true); concrete.
  - apply (@rate_product_exact debug_build (mk_rate 4294967291 2) (mk_rate 4294967279 3) true);
      [concrete..| |done].
    intros [Hn _]. vm_compute in Hn. by apply Hn.
Defined.

Lemma Product_inexact_enclosure_witness :
  ∃ n' d', @Product debug_build 4294967291 2 4294967279 3 false = Ok (n', d') ∧
    is_u 32 n' ∧ is_u 32 d' ∧ d' ≠ 0 ∧
    ((n', d') = (max_u32, 1) ∨
     n' * 6 < 4294967291 * 4294967279 * (d' + 1) ∧
     4294967291 * 4294967279 * d' < (n' + 1) * 6).
Proof.
  apply (@Product_inexact_enclosure debug_build (mk_rate 4294967291 2) (mk_rate 4294967279 3));
    [concrete..|].
  intros [Hn _]. vm_compute in Hn. by apply Hn.
Defined.

End TimelineRate.
