(* ===== verification/TimelineFunction.v ===== *)
(** [TimelineFunction] of mojo/services/media/common/cpp: a linear function from
    [int64_t] to [int64_t] in point-slope form, built on [TimelineRate].

    The theorems show that [Apply] evaluates the rounded linear function, that
    [ApplyInverse] undoes [Apply] to within one unit when the slope is at least
    one, and that the composition of two functions agrees with applying them one
    after the other up to one unit above and the slope of the outer function
    below. *)

From S2P Require Import Prelude TimelineRate.
Import TimelineRate.

Module TimelineFunction.

Record func := mk_func {
  reference_time : Z;
  subject_time : Z;
  frate : rate;
}.

Section WithBuild.
Context `{Build}.

(** The static [TimelineFunction::Apply]. *)
Definition apply_static (reference_time subject_time : Z) (r : rate)
    (reference_input : Z) : outcome Z :=
  d ← s64 (reference_input - reference_time);
  v ← rate_scale r d;
  s64 (v + subject_time).

(** The static [TimelineFunction::ApplyInverse]. *)
Definition apply_inverse_static (reference_time subject_time : Z) (r : rate)
    (subject_input : Z) : outcome Z :=
  _ ← dcheck (negb (reference_delta r =? 0));
  i ← TimelineRate.Inverse r;
  apply_static subject_time reference_time i subject_input.

(** The constructors. *)
Definition func_default : func := mk_func 0 0 rate_default.
Definition func_new (reference_time subject_time reference_delta subject_delta : Z)
    : outcome func :=
  r ← rate_new subject_delta reference_delta;
  Ok (mk_func reference_time subject_time r).
Definition func_of_rate (r : rate) : func := mk_func 0 0 r.

(** [Apply(int64_t) const], also [operator()]. *)
Definition Apply (f : func) (reference_input : Z) : outcome Z :=
  apply_static (reference_time f) (subject_time f) (frate f) reference_input.

(** [ApplyInverse(int64_t) const] *)
Definition ApplyInverse (f : func) (subject_input : Z) : outcome Z :=
  _ ← dcheck (negb (reference_delta (frate f) =? 0));
  apply_inverse_static (reference_time f) (subject_time f) (frate f) subject_input.

(** [Inverse() const] *)
Definition func_inverse (f : func) : outcome func :=
  _ ← dcheck (negb (reference_delta (frate f) =? 0));
  i ← TimelineRate.Inverse (frate f);
  Ok (mk_func (subject_time f) (reference_time f) i).

(** [TimelineFunction::Compose] *)
Definition Compose (bc ab : func) (exact : bool) : outcome func :=
  s ← Apply bc (subject_time ab);
  r ← rate_product (frate ab) (frate bc) exact;
  Ok (mk_func (reference_time ab) s r).

(** [operator==] and [operator!=] *)
Definition func_eqb (a b : func) : bool :=
  (reference_time a =? reference_time b) && (subject_time a =? subject_time b) &&
  rate_eqb (frate a) (frate b).
Definition func_neqb (a b : func) : bool := negb (func_eqb a b).

(** ** The function in exact arithmetic *)

Definition slope (r : rate) (d : Z) : Z := d * subject_delta r / reference_delta r.

Definition exact_apply (f : func) (x : Z) : Z :=
  slope (frate f) (x - reference_time f) + subject_time f.

(** The intermediate values of [Apply f x] are representable. *)
Definition applies (f : func) (x : Z) : Prop :=
  is_s64 (x - reference_time f) ∧
  min_s64 < slope (frate f) (x - reference_time f) ≤ max_s64 ∧
  is_s64 (exact_apply f x).

Lemma rate_scale_slope r d :
  rate_wf r → is_s64 d → min_s64 < slope r d ≤ max_s64 →
  rate_scale r d = Ok (slope r d).
Proof.
  destruct r as [s k]. intros (Hs & Hk & Hk0 & _) Hd Hq. unfold rate_scale.
  rewrite Scale_exact by done. f_equal. unfold slope in *. cbn in *.
  by apply scaled_floor.
Qed.

Lemma Apply_exact f x :
  rate_wf (frate f) → applies f x → Apply f x = Ok (exact_apply f x).
Proof.
  intros Hwf (Hd & Hq & Hr). unfold Apply, apply_static.
  rewrite s64_ok by done. cbn [mbind outcome_bind].
  rewrite rate_scale_slope by done. cbn [mbind outcome_bind]. by rewrite s64_ok.
Qed.

(** The function [ApplyInverse] evaluates. *)
Definition inverse_of (f : func) : func :=
  mk_func (subject_time f) (reference_time f) (swapped (frate f)).

Lemma ApplyInverse_exact f y :
  rate_wf (frate f) → subject_delta (frate f) ≠ 0 → applies (inverse_of f) y →
  ApplyInverse f y = Ok (exact_apply (inverse_of f) y).
Proof.
  intros Hwf Hs Happ. unfold ApplyInverse, apply_inverse_static.
  rewrite !dcheck_nonzero by apply Hwf. cbn [mbind outcome_bind].
  destruct (Inverse_swapped _ Hwf Hs) as [-> Hwf']. cbn [mbind outcome_bind].
  exact (Apply_exact (inverse_of f) y Hwf' Happ).
Qed.

(** ** Rounding *)

Lemma slope_bounds r d :
  rate_wf r →
  slope r d * reference_delta r ≤ d * subject_delta r
    < (slope r d + 1) * reference_delta r.
Proof.
  intros (Hs & Hr & Hr0 & _). unfold slope, is_u in *.
  pose proof (Z.div_mod (d * subject_delta r) (reference_delta r) Hr0).
  pose proof (Z.mod_pos_bound (d * subject_delta r) (reference_delta r)). lia.
Qed.

(** A slope of at least one followed by its inverse loses at most one unit. *)
Lemma slope_roundtrip r d :
  rate_wf r → reference_delta r ≤ subject_delta r →
  d - 1 ≤ slope (swapped r) (slope r d) ≤ d.
Proof.
  intros Hwf Hle. pose proof (slope_bounds r d Hwf).
  destruct Hwf as (Hs & Hr & Hr0 & Hg). unfold is_u in *.
  assert (rate_wf (swapped r)) as Hwf' by (repeat split; cbn; try rewrite Z.gcd_comm; lia).
  pose proof (slope_bounds (swapped r) (slope r d) Hwf'). cbn in *. nia.
Qed.

Lemma slope_mono r d d' : rate_wf r → d ≤ d' → slope r d ≤ slope r d'.
Proof.
  intros (Hs & Hr & Hr0 & _) Hd. unfold slope, is_u in *.
  apply Z.div_le_mono; [lia|]. nia.
Qed.

(** Composition of two slopes against the slope of the product. *)
Lemma slope_compose r1 r2 r d e :
  rate_wf r1 → rate_wf r2 → rate_wf r →
  subject_delta r * (reference_delta r1 * reference_delta r2) =
    subject_delta r1 * subject_delta r2 * reference_delta r →
  slope r d + slope r2 e - (subject_delta r2 / reference_delta r2 + 1)
    ≤ slope r2 (slope r1 d + e) ≤ slope r d + slope r2 e + 1.
Proof.
  intros H1 H2 H3 Hp.
  pose proof (slope_bounds r1 d H1) as B1. pose proof (slope_bounds r d H3) as B3.
  pose proof (slope_bounds r2 e H2) as B2.
  pose proof (slope_bounds r2 (slope r1 d + e) H2) as B4.
  destruct r1 as [s1 k1], r2 as [s2 k2], r as [s k].
  destruct H1 as (? & ? & ? & _), H2 as (? & ? & ? & _), H3 as (? & ? & ? & _).
  unfold is_u in *. cbn in *.
  pose proof (Z.div_mod s2 k2 ltac:(done)). pose proof (Z.mod_pos_bound s2 k2 ltac:(lia)).
  set (q1 := slope (mk_rate s1 k1) d) in *. set (q := slope (mk_rate s k) d) in *.
  set (q2 := slope (mk_rate s2 k2) e) in *. set (z := slope (mk_rate s2 k2) (q1 + e)) in *.
  (* q * k1 * k2 <= d * s1 * s2 < (q + 1) * k1 * k2 *)
  assert (q * (k1 * k2) ≤ d * (s1 * s2)) as L1.
  { apply (Zmult_le_reg_r _ _ k); [lia|].
    replace (q * (k1 * k2) * k) with (q * k * (k1 * k2)) by ring.
    replace (d * (s1 * s2) * k) with (d * s * (k1 * k2)) by (rewrite <- !Z.mul_assoc, Hp; ring).
    apply Z.mul_le_mono_nonneg_r; nia. }
  assert (d * (s1 * s2) < (q + 1) * (k1 * k2)) as L2.
  { apply (Zmult_lt_reg_r _ _ k); [lia|].
    replace (d * (s1 * s2) * k) with (d * s * (k1 * k2)) by (rewrite <- !Z.mul_assoc, Hp; ring).
    replace ((q + 1) * (k1 * k2) * k) with ((q + 1) * k * (k1 * k2)) by ring.
    apply Z.mul_lt_mono_pos_r; nia. }
  assert (q1 * s2 * k1 ≤ d * (s1 * s2)) as L3 by nia.
  assert (d * (s1 * s2) ≤ (q1 + 1) * s2 * k1) as L4 by nia.
  assert (q1 * s2 < (q + 1) * k2) as L5.
  { apply (Zmult_lt_reg_r _ _ k1); [lia|]. nia. }
  assert (q * k2 ≤ (q1 + 1) * s2) as L6.
  { apply (Zmult_le_reg_r _ _ k1); [lia|]. nia. }
  split.
  - assert ((q + q2 - (s2 / k2 + 1)) * k2 < (z + 1) * k2) by nia. nia.
  - assert (z * k2 < (q + q2 + 2) * k2) by nia. nia.
Qed.

(** [Apply] computes the rounded-down linear function
    [(x - reference_time) * s / r + subject_time] whenever its intermediate
    values are representable, and it is monotone there. *)
Lemma Apply_linear f x x' :
  rate_wf (frate f) → applies f x → applies f x' → x ≤ x' →
  ∃ y y', Apply f x = Ok y ∧ Apply f x' = Ok y' ∧ y ≤ y' ∧
    y = (x - reference_time f) * subject_delta (frate f) / reference_delta (frate f)
        + subject_time f.
Proof.
  intros Hwf Ha Ha' Hle. exists (exact_apply f x), (exact_apply f x').
  rewrite !Apply_exact by done. split_and!; try done. unfold exact_apply.
  pose proof (slope_mono (frate f) (x - reference_time f) (x' - reference_time f) Hwf). lia.
Qed.

(** For a slope of at least one, [ApplyInverse] takes the value of [Apply]
    back to the original input or to the unit just below it. *)
Lemma ApplyInverse_roundtrip f x :
  rate_wf (frate f) → reference_delta (frate f) ≤ subject_delta (frate f) →
  applies f x → applies (inverse_of f) (exact_apply f x) →
  ∃ y z, Apply f x = Ok y ∧ ApplyInverse f y = Ok z ∧ x - 1 ≤ z ≤ x.
Proof.
  intros Hwf Hle Ha Hi. exists (exact_apply f x), (exact_apply (inverse_of f) (exact_apply f x)).
  assert (subject_delta (frate f) ≠ 0).
  { destruct Hwf as (? & ? & ? & _). unfold is_u in *. lia. }
  rewrite Apply_exact, ApplyInverse_exact by done. split_and!; try done.
  all: pose proof (slope_roundtrip (frate f) (x - reference_time f) Hwf Hle);
    unfold exact_apply; cbn; fold (swapped (frate f)); rewrite Z.add_simpl_r; lia.
Qed.

(** C34. Applying [ab] and then [bc] differs little from applying [Compose bc ab]: when the
    composed rate is representable and every application involved is in range, the result
    of the two applications is at most one unit above that of the composed function, and
    below it by at most one unit more than the whole part of [bc]'s slope. *)
Theorem Compose_error bc ab x :
  rate_wf (frate bc) → rate_wf (frate ab) → product_fits (frate ab) (frate bc) →
  applies ab x → applies bc (exact_apply ab x) → applies bc (subject_time ab) →
  (∀ f, Compose bc ab true = Ok f → applies f x) →
  ∃ f y z w, Compose bc ab true = Ok f ∧ Apply f x = Ok w ∧
    Apply ab x = Ok y ∧ Apply bc y = Ok z ∧
    w - (subject_delta (frate bc) / reference_delta (frate bc) + 1) ≤ z ≤ w + 1.
Proof.
  intros Hbc Hab Hfit Ha Hb Hs Happ.
  destruct (rate_product_fits (frate ab) (frate bc) true Hab Hbc Hfit) as (r & Hr & Hwf & Hp).
  assert (Compose bc ab true =
            Ok (mk_func (reference_time ab) (exact_apply bc (subject_time ab)) r)) as Hc.
  { unfold Compose. rewrite Apply_exact by done. cbn [mbind outcome_bind]. by rewrite Hr. }
  set (f := mk_func _ _ r) in Hc. exists f, (exact_apply ab x), (exact_apply bc (exact_apply ab x)),
    (exact_apply f x).
  specialize (Happ f Hc). rewrite !Apply_exact by done. split; [done|].
  split; [done|]. split; [done|]. split; [done|].
  pose proof (slope_compose (frate ab) (frate bc) r (x - reference_time ab)
    (subject_time ab - reference_time bc) Hab Hbc Hwf Hp) as Hsl.
  unfold exact_apply in *. cbn. unfold exact_apply.
  replace (slope (frate ab) (x - reference_time ab) + subject_time ab - reference_time bc)
    with (slope (frate ab) (x - reference_time ab) + (subject_time ab - reference_time bc)) by lia.
  lia.
Qed.

End WithBuild.

(** [Apply] does not return [kOverflow] when its scaling overflows: the
    overflow marker is added to the subject time, giving an ordinary looking
    value, or undefined behaviour when the subject time is positive. *)
Lemma Apply_overflow_defect :
  @Apply release_build (mk_func 0 (-5) (mk_rate 4 1)) max_s64 = Ok (kOverflow - 5) ∧
  @Apply release_build (mk_func 0 1 (mk_rate 4 1)) max_s64 = Fault UndefinedBehaviour.
Proof. concrete. Qed.

Definition sample : func := mk_func 10 100 (mk_rate 5 2).

Lemma Apply_linear_witness :
  ∃ y y', @Apply debug_build sample 13 = Ok y ∧ @Apply debug_build sample 20 = Ok y' ∧ y ≤ y' ∧
    y = (13 - 10) * 5 / 2 + 100.
Proof. apply (@Apply_linear debug_build sample 13 20); concrete. Defined.

Lemma ApplyInverse_roundtrip_witness :
  ∃ y z, @Apply debug_build sample 13 = Ok y ∧ @ApplyInverse debug_build sample y = Ok z ∧
    13 - 1 ≤ z ≤ 13.
Proof. apply (@ApplyInverse_roundtrip debug_build sample 13); concrete. Defined.

Lemma Compose_error_witness :
  ∃ f y z w, @Compose debug_build sample (mk_func 0 7 (mk_rate 1 3)) true = Ok f ∧
    @Apply debug_build f 50 = Ok w ∧ @Apply debug_build (mk_func 0 7 (mk_rate 1 3)) 50 = Ok y ∧
    @Apply debug_build sample y = Ok z ∧ w - (5 / 2 + 1) ≤ z ≤ w + 1.
Proof.
  apply (@Compose_error debug_build sample (mk_func 0 7 (mk_rate 1 3)) 50); [concrete..|].
  intros f Hf. vm_compute in Hf. injection Hf as <-. concrete.
Defined.

End TimelineFunction.
