(* ===== verification/LinearTransform.v ===== *)
(** [LinearTransform] of mojo/services/media/common/cpp: the linear map between
    two 64-bit coordinate systems used by the rate control and the audio
    mixer, with its rational scale factor [Ratio].

    Functions with an out parameter return the pair of the C++ return value and
    the value stored through the pointer, [None] when nothing was stored.

    The theorems show that a transform which reports success produced the exact
    rounded-down value, that it succeeds on every representable result, that
    [Ratio::Reduce] yields lowest terms, and that [Ratio::Compose] is exact when
    the product fits. *)

From S2P Require Import Prelude.

Module LinearTransform.

(** ** Definitions *)

(** The [while (1)] loop of [internal::Reduce]: the gcd it divides by.  The
    product of the operands halves at each turn. *)
Fixpoint euclid (fuel : nat) (a b : Z) : outcome Z :=
  match fuel with
  | O => Fault OutOfFuel
  | S fuel =>
      if b =? 0 then Fault UndefinedBehaviour
      else
        let remainder := a mod b in
        if remainder =? 0 then Ok b else euclid fuel b remainder
  end.

Definition kEuclidFuel : nat := 129.

(** [internal::Reduce<T>] *)
Definition reduce_internal (numerator denominator : Z) : outcome (Z * Z) :=
  if numerator =? 0 then Ok (numerator, 1)
  else
    let '(a, b) := if numerator <? denominator then (denominator, numerator)
                   else (numerator, denominator) in
    g ← euclid kEuclidFuel a b;
    Ok (numerator / g, denominator / g).

Record ratio := mk_ratio { numerator : Z; denominator : Z }.

(** [LinearTransform::Ratio::Reduce] *)
Definition ratio_reduce (r : ratio) : outcome ratio :=
  if negb (denominator r =? 0) then
    '(n, d) ← reduce_internal (numerator r) (denominator r); Ok (mk_ratio n d)
  else Ok (mk_ratio (if negb (numerator r =? 0) then 1 else 0) (denominator r)).

(** [Ratio()] and [Ratio(numerator, denominator)] *)
Definition ratio_default : ratio := mk_ratio 1 1.
Definition ratio_new (n d : Z) : outcome ratio := ratio_reduce (mk_ratio n d).

(** [__builtin_clzl] on a nonzero argument. *)
Definition clzl (x : Z) : Z := 63 - Z.log2 x.

(** [LinearTransform::Ratio::Compose] *)
Definition ratio_compose (a b : ratio) : outcome (bool * ratio) :=
  let n := u64 (numerator a * numerator b) in
  let d := u64 (denominator a * denominator b) in
  if (n =? 0) || (d =? 0) then
    Ok (true, mk_ratio (if negb (n =? 0) then 1 else 0) (if negb (d =? 0) then 1 else 0))
  else
    '(n, d) ← reduce_internal n d;
    let leading_zeros := clzl (Z.lor (u64 (Z.shiftl n 1)) d) in
    let lossy := leading_zeros <? 32 in
    let shift := 32 - leading_zeros in
    let n := if (lossy : bool) then Z.shiftr n shift else n in
    let d := if lossy then Z.shiftr d shift else d in
    Ok (negb lossy, mk_ratio (u32 n) (u32 d)).

(** The fields of [LinearTransform]. *)
Record transform := mk_transform {
  scale : ratio;
  a_zero : Z;
  b_zero : Z;
}.

(** The constructors from a numerator and a denominator and from a [Ratio]. *)
Definition transform_default : transform := mk_transform ratio_default 0 0.
Definition transform_of_terms (n d : Z) : outcome transform :=
  r ← ratio_new n d; Ok (mk_transform r 0 0).
Definition transform_of_ratio (s : ratio) : transform := mk_transform s 0 0.
Definition transform_new (az n d bz : Z) : outcome transform :=
  r ← ratio_new n d; Ok (mk_transform r az bz).
Definition transform_new_ratio (az : Z) (s : ratio) (bz : Z) : transform :=
  mk_transform s az bz.

Section WithBuild.
Context `{Build}.

(** [ABS<int64_t>] *)
Definition ABS (x : Z) : outcome Z := if x <? 0 then s64 (- x) else Ok x.

(** [sum_check_ovfl]: the return value and the sum stored through [out]. *)
Definition sum_check_ovfl (a b : Z) : outcome (bool * Z) :=
  out ← s64 (a + b);
  if negb (Z.land (Z.land (Z.lxor (Z.lxor a b) min_s64) (Z.lxor a out)) min_s64 =? 0)
  then Ok (false, out) else Ok (true, out).

(** [scale_u64_to_u64] *)
Definition scale_u64_to_u64 (value n d : Z) (round_up_not_down : bool)
    : outcome (bool * Z) :=
  _ ← dcheck (negb (d =? 0));
  let tmp2 := u64 (Z.shiftr value 32 * n) in
  let tmp1 := u64 (Z.land value max_u32 * n) in
  let tmp2 := u64 (tmp2 + Z.shiftr tmp1 32) in
  if d <=? Z.shiftr tmp2 32 then Ok (false, max_u64)
  else if d =? 0 then Fault UndefinedBehaviour
  else
    let r := u32 (tmp2 mod d) in
    let tmp2 := tmp2 / d in
    let tmp1 := Z.lor (Z.land tmp1 max_u32) (u64 (Z.shiftl r 32)) in
    let r := u32 (tmp1 mod d) in
    let tmp1 := tmp1 / d in
    let out := Z.lor (u64 (Z.shiftl tmp2 32)) tmp1 in
    if negb (r =? 0) && round_up_not_down then
      let out := u64 (out + 1) in
      if out =? 0 then Ok (false, max_u64) else Ok (true, out)
    else Ok (true, out).

(** [linear_transform_s64_to_s64], called with a non-null [out]. *)
Definition linear_transform_s64_to_s64 (val basis1 n d : Z) (invert_frac : bool)
    (basis2 : Z) : outcome (bool * option Z) :=
  '(is_neg, abs_val) ←
    (if val <? basis1 then x ← s64 (basis1 - val); Ok (true, u64 x)
     else x ← s64 (val - basis1); Ok (false, u64 x));
  '(ok, scaled) ← scale_u64_to_u64 abs_val (if invert_frac then d else n)
                    (if invert_frac then n else d) is_neg;
  if negb ok then Ok (false, None)
  else if negb (Z.land scaled (u64 min_s64) =? 0) then
    if is_neg && (basis2 <? 0) then Ok (false, None)
    else if negb is_neg && (0 <=? basis2) then Ok (false, None)
    else
      a ← ABS basis2;
      if a <=? to_s64 (Z.land scaled max_s64) then Ok (false, None)
      else Ok (true, Some (to_s64 ((if is_neg then u64 (- scaled) else scaled) + basis2)))
  else
    let scaled := if (is_neg : bool) then u64 (- scaled) else scaled in
    '(ok, out) ← sum_check_ovfl (to_s64 scaled) basis2;
    Ok (ok, Some out).

(** [LinearTransform::DoForwardTransform] *)
Definition DoForwardTransform (t : transform) (a_in : Z) : outcome (bool * option Z) :=
  if denominator (scale t) =? 0 then Ok (false, None)
  else linear_transform_s64_to_s64 a_in (a_zero t) (numerator (scale t))
         (denominator (scale t)) false (b_zero t).

(** [LinearTransform::DoReverseTransform] *)
Definition DoReverseTransform (t : transform) (b_in : Z) : outcome (bool * option Z) :=
  if numerator (scale t) =? 0 then Ok (false, None)
  else linear_transform_s64_to_s64 b_in (b_zero t) (numerator (scale t))
         (denominator (scale t)) true (a_zero t).

End WithBuild.

(** ** Scaling of magnitudes *)

Section Proofs.
Context `{Build}.

Definition rounded (v n d : Z) (up : bool) : Z :=
  v * n / d + (if up && negb (v * n mod d =? 0) then 1 else 0).

Lemma scale_u64_exact v n d up :
  is_u 64 v → is_u 32 n → is_u 32 d → d ≠ 0 →
  scale_u64_to_u64 v n d up =
    Ok (if rounded v n d up <? 2 ^ 64 then (true, rounded v n d up) else (false, max_u64)).
Proof.
  intros Hv Hn Hd Hd0. unfold scale_u64_to_u64. rewrite dcheck_nonzero by done.
  cbn [mbind outcome_bind]. change max_u32 with (2 ^ 32 - 1).
  rewrite !land_low, !Z.shiftr_div_pow2, !(Z.mul_comm _ n) by lia.
  destruct (mul_96 v n) as (H1 & H2 & Hu & Hp & Hll); [done..|].
  set (vh := v / 2 ^ 32) in *. set (vl := v mod 2 ^ 32) in *.
  rewrite (uwrap_small 64 (n * vh)), (uwrap_small 64 (n * vl)) by done.
  set (lh := n * vl / 2 ^ 32) in *. set (ll := (n * vl) mod 2 ^ 32) in *.
  rewrite (uwrap_small 64 (n * vh + lh)) by done. set (h := n * vh + lh) in *.
  unfold is_u in Hu, Hd.
  destruct (long_division h ll (2 ^ 32) d) as (Hq & Hrem & Hlow); [lia..|].
  rewrite <- Hp in Hq, Hrem. unfold rounded. rewrite Hrem.
  pose proof (Z.div_mod h d Hd0) as Hdm. pose proof (Z.mod_pos_bound h d ltac:(lia)) as Hm.
  assert (0 ≤ h / d) by (apply Z.div_pos; lia).
  destruct (Z.leb_spec d (h / 2 ^ 32)) as [Hov|Hnov].
  { assert (2 ^ 32 ≤ h / d).
    { apply Z.div_le_lower_bound; [lia|].
      pose proof (Z.mul_div_le h (2 ^ 32) ltac:(lia)). nia. }
    rewrite (proj2 (Z.ltb_ge _ (2 ^ 64))); [done|]. case_match; nia. }
  rewrite (proj2 (Z.eqb_neq d 0)) by done.
  assert (h / d < 2 ^ 32).
  { apply Z.div_lt_upper_bound; [lia|].
    pose proof (Z.mul_succ_div_gt h (2 ^ 32) ltac:(lia)). nia. }
  rewrite (uwrap_small 32 (h mod d)) by (unfold is_u; lia).
  rewrite (uwrap_small 64 (Z.shiftl (h mod d) 32))
    by (rewrite Z.shiftl_mul_pow2 by lia; unfold is_u; nia).
  rewrite (Z.lor_comm ll), lor_disjoint_add by (unfold is_u; lia).
  pose proof (Z.mod_pos_bound (h mod d * 2 ^ 32 + ll) d ltac:(lia)).
  rewrite (uwrap_small 32 (_ mod d)) by (unfold is_u; lia).
  rewrite (uwrap_small 64 (Z.shiftl (h / d) 32))
    by (rewrite Z.shiftl_mul_pow2 by lia; unfold is_u; nia).
  rewrite lor_disjoint_add, <- Hq by (unfold is_u; lia).
  assert (v * n / d < 2 ^ 64) by nia.
  rewrite (andb_comm (negb _) up).
  destruct (up && negb _).
  - destruct (Z.ltb_spec (v * n / d + 1) (2 ^ 64)).
    + rewrite (uwrap_small 64) by (unfold is_u; nia).
      by rewrite (proj2 (Z.eqb_neq _ 0)) by nia.
    + replace (v * n / d + 1) with (2 ^ 64) by lia. done.
  - rewrite Z.add_0_r. by rewrite (proj2 (Z.ltb_lt _ (2 ^ 64))) by lia.
Qed.

(** ** Signed transforms *)

Lemma sum_check_ovfl_spec a b :
  is_s64 a → is_s64 b →
  sum_check_ovfl a b =
    if in_s64 (a + b) then Ok (true, a + b)
    else if signed_wraps then Ok (false, to_s64 (a + b)) else Fault UndefinedBehaviour.
Proof.
  intros Ha Hb. unfold sum_check_ovfl, s64.
  assert (Hsign : ∀ out, is_s64 out →
    (Z.land (Z.land (Z.lxor (Z.lxor a b) min_s64) (Z.lxor a out)) min_s64 =? 0) =
    (negb (Bool.eqb (a <? 0) (b <? 0)) || Bool.eqb (a <? 0) (out <? 0))).
  { intros out Ho. rewrite land_min_s64.
    rewrite Z.shiftr_land, !Z.shiftr_lxor, !sar63 by done.
    change (Z.shiftr min_s64 63) with (-1).
    by destruct (a <? 0), (b <? 0), (out <? 0). }
  unfold is_s64, min_s64, max_s64 in *.
  destruct (in_s64 (a + b)) eqn:E; cbn [mbind outcome_bind].
  - rewrite Hsign by by apply in_s64_spec.
    destruct (Z.ltb_spec a 0), (Z.ltb_spec b 0), (Z.ltb_spec (a + b) 0); cbn; done || lia.
  - destruct signed_wraps; [|done]. cbn [mbind outcome_bind].
    rewrite Hsign by apply to_s64_range.
    assert (a + b < - 2 ^ 63 ∨ 2 ^ 63 ≤ a + b) as [Hlt|Hge].
    { unfold in_s64, min_s64, max_s64 in E. lia. }
    + rewrite <- (to_s64_shift _ 1), to_s64_small
        by (unfold is_s64, min_s64, max_s64; lia).
      by rewrite (proj2 (Z.ltb_lt a 0)), (proj2 (Z.ltb_lt b 0)), (proj2 (Z.ltb_ge _ 0)) by lia.
    + rewrite <- (to_s64_shift _ (-1)), to_s64_small
        by (unfold is_s64, min_s64, max_s64; lia).
      by rewrite (proj2 (Z.ltb_ge a 0)), (proj2 (Z.ltb_ge b 0)), (proj2 (Z.ltb_lt _ 0)) by lia.
Qed.

(** The value of the transform in exact arithmetic. *)
Definition exact_value (val basis1 n d basis2 : Z) : Z :=
  (val - basis1) * n / d + basis2.

Lemma exact_value_rounded val basis1 n d basis2 :
  0 < d →
  exact_value val basis1 n d basis2 =
    basis2 + if val <? basis1 then - rounded (basis1 - val) n d true
             else rounded (val - basis1) n d false.
Proof.
  intros Hd. unfold exact_value, rounded. cbn [andb].
  destruct (val <? basis1).
  - replace ((val - basis1) * n) with (- ((basis1 - val) * n)) by lia.
    rewrite div_neg by lia. destruct (_ =? 0); cbn; lia.
  - lia.
Qed.

Lemma rounded_nonneg v n d up : 0 ≤ v → 0 ≤ n → 0 < d → 0 ≤ rounded v n d up.
Proof.
  intros Hv Hn Hd. unfold rounded.
  assert (0 ≤ v * n / d) by (apply Z.div_pos; nia). case_match; lia.
Qed.

(** The second half of [linear_transform_s64_to_s64], after the magnitude [m]
    has been scaled. *)
Definition finish (is_neg : bool) (m basis2 : Z) : outcome (bool * option Z) :=
  if 2 ^ 63 <=? m then
    if is_neg && (basis2 <? 0) then Ok (false, None)
    else if negb is_neg && (0 <=? basis2) then Ok (false, None)
    else
      a ← ABS basis2;
      if a <=? m - 2 ^ 63 then Ok (false, None)
      else Ok (true, Some ((if is_neg then - m else m) + basis2))
  else
    '(ok, out) ← sum_check_ovfl (if is_neg then - m else m) basis2;
    Ok (ok, Some out).

Lemma top_bit m :
  is_u 64 m → (Z.land m (u64 min_s64) =? 0) = (m <? 2 ^ 63).
Proof.
  unfold is_u. intros Hm. change (u64 min_s64) with (Z.shiftl 1 63).
  rewrite land_shiftl_high, Z.shiftr_div_pow2 by lia.
  destruct (Z.ltb_spec m (2 ^ 63)).
  - by rewrite Z.div_small by lia.
  - assert (m / 2 ^ 63 = 1) as ->; [|done].
    symmetry. apply Z.div_unique with (m - 2 ^ 63); lia.
Qed.

Lemma finish_code is_neg m basis2 :
  is_u 64 m → is_s64 basis2 →
  (if negb (Z.land m (u64 min_s64) =? 0) then
    if is_neg && (basis2 <? 0) then Ok (false, None)
    else if negb is_neg && (0 <=? basis2) then Ok (false, None)
    else
      a ← ABS basis2;
      if a <=? to_s64 (Z.land m max_s64) then Ok (false, None)
      else Ok (true, Some (to_s64 ((if is_neg then u64 (- m) else m) + basis2)))
  else
    let scaled := if (is_neg : bool) then u64 (- m) else m in
    '(ok, out) ← sum_check_ovfl (to_s64 scaled) basis2;
    Ok (ok, Some out)) = finish is_neg m basis2.
Proof.
  intros Hm Hb. rewrite top_bit by done. unfold finish.
  assert (u64 (- m) = if m =? 0 then 0 else 2 ^ 64 - m) as Hneg.
  { unfold is_u in Hm. destruct (Z.eqb_spec m 0) as [->|]; [done|].
    unfold uwrap. symmetry. apply Z.mod_unique with (-1); lia. }
  unfold is_u, is_s64, min_s64, max_s64 in *.
  destruct (Z.ltb_spec m (2 ^ 63)).
  - rewrite (proj2 (Z.leb_gt _ m)) by lia. cbn [negb]. do 2 f_equal.
    destruct is_neg; [rewrite Hneg; destruct (Z.eqb_spec m 0) as [->|]; [done|]|].
    + rewrite <- (to_s64_shift _ (-1)), to_s64_small by (unfold is_s64, min_s64, max_s64; lia). lia.
    + by rewrite to_s64_small by (unfold is_s64, min_s64, max_s64; lia).
  - rewrite (proj2 (Z.leb_le _ m)) by lia. cbn [negb].
    rewrite land_low by lia.
    assert (m mod 2 ^ 63 = m - 2 ^ 63) as ->.
    { symmetry. apply Z.mod_unique with 1; lia. }
    rewrite (to_s64_small (m - 2 ^ 63)) by (unfold is_s64, min_s64, max_s64; lia).
    destruct (is_neg && (basis2 <? 0)) eqn:E1; [done|].
    destruct (negb is_neg && (0 <=? basis2)) eqn:E2; [done|].
    unfold ABS, s64. destruct (Z.ltb_spec basis2 0).
    + destruct (in_s64 (- basis2)) eqn:E3; cbn [mbind outcome_bind].
      * destruct (Z.leb_spec (- basis2) (m - 2 ^ 63)); [done|].
        destruct is_neg; [done|]. rewrite to_s64_small; [done|].
        unfold is_s64, min_s64, max_s64. lia.
      * destruct signed_wraps; [|done]. cbn [mbind outcome_bind].
        assert (basis2 = - 2 ^ 63) as -> by (unfold in_s64, min_s64, max_s64 in E3; lia).
        change (to_s64 (- - 2 ^ 63)) with (- 2 ^ 63).
        by rewrite (proj2 (Z.leb_le _ (m - 2 ^ 63))) by lia.
    + cbn [mbind outcome_bind]. destruct (Z.leb_spec basis2 (m - 2 ^ 63)); [done|].
      destruct is_neg; [|cbn in E2; lia]. rewrite Hneg, (proj2 (Z.eqb_neq m 0)) by lia.
      rewrite <- (to_s64_shift _ (-1)), to_s64_small; [by replace (2 ^ 64 - m + basis2 + -1 * 2 ^ 64) with (- m + basis2) by lia|].
      unfold is_s64, min_s64, max_s64. lia.
Qed.

Lemma delta_u64 (is_neg : bool) x :
  is_u 64 x →
  (y ← s64 x; Ok (is_neg, u64 y)) =
    if in_s64 x || signed_wraps then Ok (is_neg, x) else Fault UndefinedBehaviour.
Proof.
  intros Hx. unfold s64. destruct (in_s64 x) eqn:E; cbn [orb mbind outcome_bind].
  - by rewrite uwrap_small.
  - destruct signed_wraps; [|done]. cbn [mbind outcome_bind]. do 2 f_equal.
    unfold is_u in Hx.
    assert (2 ^ 63 ≤ x) by (unfold in_s64, min_s64, max_s64 in E; lia).
    rewrite <- (to_s64_shift _ (-1)), to_s64_small by (unfold is_s64, min_s64, max_s64; lia).
    unfold uwrap. symmetry. apply Z.mod_unique with (-1); lia.
Qed.

Lemma linear_transform_exact val basis1 n d (inv : bool) basis2 n' d' :
  is_s64 val → is_s64 basis1 → is_s64 basis2 → is_u 32 n → is_u 32 d →
  n' = (if inv then d else n) → d' = (if inv then n else d) → d' ≠ 0 →
  let neg := val <? basis1 in
  let m := rounded (Z.abs (val - basis1)) n' d' neg in
  linear_transform_s64_to_s64 val basis1 n d inv basis2 =
    if in_s64 (Z.abs (val - basis1)) || signed_wraps then
      if m <? 2 ^ 64 then finish neg m basis2 else Ok (false, None)
    else Fault UndefinedBehaviour.
Proof.
  intros Hval Hb1 Hb2 Hn Hd -> -> Hd'. cbn zeta. unfold linear_transform_s64_to_s64.
  assert (is_u 64 (Z.abs (val - basis1))) as Hu
    by (unfold is_u, is_s64, min_s64, max_s64 in *; lia).
  match goal with |- (?e ≫= _) = _ =>
    replace e with (if in_s64 (Z.abs (val - basis1)) || signed_wraps
                    then Ok (val <? basis1, Z.abs (val - basis1))
                    else Fault UndefinedBehaviour) end.
  2:{ rewrite <- delta_u64 by done.
      destruct (Z.ltb_spec val basis1); do 2 f_equal; lia. }
  destruct (in_s64 _ || _); [|done]. cbn [mbind outcome_bind].
  rewrite scale_u64_exact by (done || by destruct inv).
  cbn [mbind outcome_bind].
  destruct (Z.ltb_spec (rounded (Z.abs (val - basis1)) (if inv then d else n)
    (if inv then n else d) (val <? basis1)) (2 ^ 64)) as [Hlt|Hge]; [|done].
  cbn [negb]. apply finish_code; [|done]. split; [|done].
  apply rounded_nonneg; unfold is_u in *; destruct inv; lia.
Qed.

Lemma finish_sound neg m basis2 o :
  0 ≤ m < 2 ^ 64 → is_s64 basis2 → finish neg m basis2 = Ok (true, o) →
  o = Some (basis2 + if neg then - m else m) ∧
  is_s64 (basis2 + if neg then - m else m).
Proof.
  intros Hm Hb. unfold finish, ABS.
  unfold is_s64, min_s64, max_s64 in *.
  destruct (Z.leb_spec (2 ^ 63) m).
  - destruct (neg && (basis2 <? 0)) eqn:E1; [done|].
    destruct (negb neg && (0 <=? basis2)) eqn:E2; [done|].
    destruct (Z.ltb_spec basis2 0).
    + destruct neg; [cbn in E1; lia|]. unfold s64. destruct (in_s64 (- basis2)) eqn:E3; cbn [mbind outcome_bind].
      * case_match; [done|]. intros [= <-]. split; [f_equal; lia|lia].
      * destruct signed_wraps; [|done]. cbn [mbind outcome_bind].
        unfold in_s64, min_s64, max_s64 in E3. assert (basis2 = - 2 ^ 63) as -> by lia.
        rewrite (proj2 (Z.leb_le _ _)); [done|]. change (to_s64 _) with (- 2 ^ 63). lia.
    + destruct neg; [|cbn in E2; lia]. cbn [mbind outcome_bind]. case_match; [done|].
      intros [= <-]. split; [f_equal; lia|lia].
  - rewrite sum_check_ovfl_spec by (unfold is_s64, min_s64, max_s64; destruct neg; lia).
    destruct (in_s64 _) eqn:E.
    + cbn [mbind outcome_bind]. intros [= <-]. rewrite (Z.add_comm basis2).
      split; [done|]. apply in_s64_spec in E. exact E.
    + by destruct signed_wraps.
Qed.

Lemma finish_complete (neg : bool) m basis2 :
  0 ≤ m < 2 ^ 64 → is_s64 basis2 → basis2 ≠ min_s64 →
  min_s64 < basis2 + (if neg then - m else m) ≤ max_s64 →
  finish neg m basis2 = Ok (true, Some (basis2 + if neg then - m else m)).
Proof.
  intros Hm Hb Hne Hr. unfold finish, ABS. rewrite (Z.add_comm basis2) in *.
  unfold is_s64, min_s64, max_s64 in *.
  destruct (Z.leb_spec (2 ^ 63) m).
  - replace (neg && (basis2 <? 0)) with false by (destruct neg; lia).
    replace (negb neg && (0 <=? basis2)) with false by (destruct neg; lia).
    destruct (Z.ltb_spec basis2 0).
    + rewrite s64_ok by (unfold is_s64, min_s64, max_s64; lia). cbn [mbind outcome_bind].
      destruct neg; [lia|]. by rewrite (proj2 (Z.leb_gt _ _)) by lia.
    + cbn [mbind outcome_bind]. destruct neg; [|lia]. by rewrite (proj2 (Z.leb_gt _ _)) by lia.
  - rewrite sum_check_ovfl_spec by (unfold is_s64, min_s64, max_s64; destruct neg; lia).
    by replace (in_s64 _) with true by (unfold in_s64, min_s64, max_s64; lia).
Qed.

(** The fields of a transform have their C++ types. *)
Definition transform_ok (t : transform) : Prop :=
  is_u 32 (numerator (scale t)) ∧ is_u 32 (denominator (scale t)) ∧
  is_s64 (a_zero t) ∧ is_s64 (b_zero t).

Definition exact_forward (t : transform) (a : Z) : Z :=
  exact_value a (a_zero t) (numerator (scale t)) (denominator (scale t)) (b_zero t).
Definition exact_reverse (t : transform) (b : Z) : Z :=
  exact_value b (b_zero t) (denominator (scale t)) (numerator (scale t)) (a_zero t).

Lemma linear_transform_sound val basis1 n d (inv : bool) basis2 n' d' o :
  is_s64 val → is_s64 basis1 → is_s64 basis2 → is_u 32 n → is_u 32 d →
  n' = (if inv then d else n) → d' = (if inv then n else d) → d' ≠ 0 →
  linear_transform_s64_to_s64 val basis1 n d inv basis2 = Ok (true, o) →
  o = Some (exact_value val basis1 n' d' basis2) ∧
  is_s64 (exact_value val basis1 n' d' basis2).
Proof.
  intros Hval Hb1 Hb2 Hn Hd En Ed Hd'.
  rewrite (linear_transform_exact val basis1 n d inv basis2 n' d') by done.
  assert (is_u 32 n' ∧ is_u 32 d') as [Hn' Hd''] by (subst; by destruct inv).
  unfold is_u in *. rewrite exact_value_rounded by lia.
  pose proof (rounded_nonneg (Z.abs (val - basis1)) n' d' (val <? basis1)).
  destruct (in_s64 _ || _); [|done].
  destruct (Z.ltb_spec (rounded (Z.abs (val - basis1)) n' d' (val <? basis1)) (2 ^ 64)); [|done].
  intros Hf%finish_sound; [|lia|done].
  destruct (Z.ltb_spec val basis1);
    [rewrite Z.abs_neq, Z.opp_sub_distr in Hf by lia | rewrite Z.abs_eq in Hf by lia];
    [replace (- val + basis1) with (basis1 - val) in Hf by lia|]; done.
Qed.

Lemma linear_transform_complete val basis1 n d (inv : bool) basis2 n' d' :
  is_s64 val → is_s64 basis1 → is_s64 basis2 → is_u 32 n → is_u 32 d →
  n' = (if inv then d else n) → d' = (if inv then n else d) → d' ≠ 0 →
  Z.abs (val - basis1) ≤ max_s64 → basis2 ≠ min_s64 →
  min_s64 < exact_value val basis1 n' d' basis2 ≤ max_s64 →
  linear_transform_s64_to_s64 val basis1 n d inv basis2 =
    Ok (true, Some (exact_value val basis1 n' d' basis2)).
Proof.
  intros Hval Hb1 Hb2 Hn Hd En Ed Hd' Habs Hne.
  rewrite (linear_transform_exact val basis1 n d inv basis2 n' d') by done.
  assert (is_u 32 n' ∧ is_u 32 d') as [Hn' Hd''] by (subst; by destruct inv).
  unfold is_u in *. rewrite exact_value_rounded by lia.
  pose proof (rounded_nonneg (Z.abs (val - basis1)) n' d' (val <? basis1)) as Hm.
  replace (in_s64 _) with true by (unfold in_s64, min_s64, max_s64 in *; lia). cbn [orb].
  assert ((if val <? basis1 then - rounded (basis1 - val) n' d' true
           else rounded (val - basis1) n' d' false) =
          if val <? basis1 then - rounded (Z.abs (val - basis1)) n' d' (val <? basis1)
          else rounded (Z.abs (val - basis1)) n' d' (val <? basis1)) as ->.
  { destruct (Z.ltb_spec val basis1); do 2 f_equal; lia. }
  intros Hr. unfold is_s64, min_s64, max_s64 in *.
  rewrite (proj2 (Z.ltb_lt _ (2 ^ 64))) by (destruct (val <? basis1); lia).
  apply finish_complete; [|done|done|].
  - destruct (val <? basis1); lia.
  - done.
Qed.

Lemma finish_safe neg m basis2 : safe (λ _, True) (finish neg m basis2).
Proof.
  assert (safe (λ _, True) (ABS basis2)) as Habs.
  { unfold ABS. case_match; [|done]. eapply safe_mono; [apply safe_s64|done]. }
  assert (∀ a, safe (λ _, True) (sum_check_ovfl a basis2)) as Hsum.
  { intros a. eapply safe_bind; [apply safe_s64|]. intros out _. by case_match. }
  unfold finish. case_match.
  - case_match; [done|]. case_match; [done|].
    eapply safe_bind; [done|]. intros a _. by case_match.
  - eapply safe_bind; [done|]. by intros [??] _.
Qed.

Lemma linear_transform_safe val basis1 n d (inv : bool) basis2 :
  is_s64 val → is_s64 basis1 → is_s64 basis2 → is_u 32 n → is_u 32 d →
  (if inv then n else d) ≠ 0 →
  safe (λ '(ok, o), ok = true →
          o = Some (exact_value val basis1 (if inv then d else n) (if inv then n else d) basis2) ∧
          is_s64 (exact_value val basis1 (if inv then d else n) (if inv then n else d) basis2))
    (linear_transform_s64_to_s64 val basis1 n d inv basis2).
Proof.
  intros Hval Hb1 Hb2 Hn Hd Hd0.
  destruct (linear_transform_s64_to_s64 _ _ _ _ _ _) as [[[|] o]|f] eqn:E; cbn; [|done|].
  { intros _. by eapply linear_transform_sound in E. }
  erewrite linear_transform_exact in E by done.
  match type of E with context [finish ?a ?b ?c] => pose proof (finish_safe a b c) as Hs end.
  destruct (in_s64 _ || _) eqn:E1; [|apply orb_false_iff in E1 as [_ ->]; by simplify_eq].
  destruct (_ <? 2 ^ 64); [|done]. by rewrite E in Hs.
Qed.

(** What a caller learns from a transform: it does not fault except on a signed
    overflow, and a reported success carries the exact value. *)
Lemma DoForward_safe t x :
  transform_ok t → is_s64 x →
  safe (λ '(ok, o), ok = true →
          denominator (scale t) ≠ 0 ∧ o = Some (exact_forward t x) ∧
          is_s64 (exact_forward t x)) (DoForwardTransform t x).
Proof.
  intros (Hn & Hd & Ha & Hb) Hx. unfold DoForwardTransform.
  destruct (Z.eqb_spec (denominator (scale t)) 0) as [|Hd0]; [done|].
  eapply safe_mono; [by apply linear_transform_safe|]. intros [ok o]. naive_solver.
Qed.

Lemma DoReverse_safe t x :
  transform_ok t → is_s64 x →
  safe (λ '(ok, o), ok = true →
          numerator (scale t) ≠ 0 ∧ o = Some (exact_reverse t x) ∧
          is_s64 (exact_reverse t x)) (DoReverseTransform t x).
Proof.
  intros (Hn & Hd & Ha & Hb) Hx. unfold DoReverseTransform.
  destruct (Z.eqb_spec (numerator (scale t)) 0) as [|Hn0]; [done|].
  eapply safe_mono; [by apply linear_transform_safe|]. intros [ok o]. naive_solver.
Qed.

(** C17. A forward or reverse transform that reports success has stored the exact
    value of the linear function, rounded down, and that value is an [int64_t];
    so overflow and a zero divisor are never reported as success. *)
Theorem transform_sound t x o :
  transform_ok t → is_s64 x →
  (DoForwardTransform t x = Ok (true, o) →
     denominator (scale t) ≠ 0 ∧ o = Some (exact_forward t x) ∧ is_s64 (exact_forward t x)) ∧
  (DoReverseTransform t x = Ok (true, o) →
     numerator (scale t) ≠ 0 ∧ o = Some (exact_reverse t x) ∧ is_s64 (exact_reverse t x)).
Proof.
  intros Ht Hx. pose proof (DoForward_safe t x Ht Hx) as Hf.
  pose proof (DoReverse_safe t x Ht Hx) as Hr.
  split; intros E; rewrite E in *; cbn in *; auto.
Qed.

(** C18. Both directions succeed, with the exact value rounded down, when the divisor of the
    direction is nonzero, the distance from its origin has a representable absolute value,
    the zero that is added is not the smallest [int64_t], and the result is representable
    and not the smallest [int64_t] either. *)
Theorem transform_complete t x :
  transform_ok t → is_s64 x →
  (denominator (scale t) ≠ 0 → Z.abs (x - a_zero t) ≤ max_s64 → b_zero t ≠ min_s64 →
   min_s64 < exact_forward t x ≤ max_s64 →
   DoForwardTransform t x = Ok (true, Some (exact_forward t x))) ∧
  (numerator (scale t) ≠ 0 → Z.abs (x - b_zero t) ≤ max_s64 → a_zero t ≠ min_s64 →
   min_s64 < exact_reverse t x ≤ max_s64 →
   DoReverseTransform t x = Ok (true, Some (exact_reverse t x))).
Proof.
  intros (Hn & Hd & Ha & Hb) Hx. unfold DoForwardTransform, DoReverseTransform.
  split; intros Hd0 Habs Hz Hr; rewrite (proj2 (Z.eqb_neq _ 0)) by done;
    by apply linear_transform_complete.
Qed.

End Proofs.

(** ** Ratios *)

Lemma euclid_gcd fuel a b :
  0 < b ≤ a → a * b < 2 ^ Z.of_nat fuel → euclid fuel a b = Ok (Z.gcd a b).
Proof.
  revert a b. induction fuel as [|fuel IH]; intros a b Hb Hm; [cbn in Hm; nia|].
  rewrite Nat2Z.inj_succ, Z.pow_succ_r in Hm by lia. cbn [euclid].
  rewrite (proj2 (Z.eqb_neq b 0)) by lia.
  pose proof (Z.div_mod a b ltac:(lia)) as Hdm. pose proof (Z.mod_pos_bound a b ltac:(lia)).
  assert (1 ≤ a / b) by (apply Z.div_le_lower_bound; lia).
  destruct (Z.eqb_spec (a mod b) 0) as [E|E].
  - f_equal. rewrite Z.gcd_comm, Hdm, E, Z.add_0_r, Z.gcd_mul_diag_l by lia. done.
  - rewrite IH; [|lia|nia]. by rewrite Z.gcd_comm, Z.gcd_mod, Z.gcd_comm by lia.
Qed.

Lemma reduce_internal_gcd n d :
  is_u 64 n → is_u 64 d → d ≠ 0 →
  reduce_internal n d = Ok (n / Z.gcd n d, d / Z.gcd n d).
Proof.
  unfold is_u. intros Hn Hd Hd0. unfold reduce_internal.
  destruct (Z.eqb_spec n 0) as [->|Hn0].
  { by rewrite Z.gcd_0_l, Z.abs_eq, Z.div_same, Z.div_0_l by lia. }
  assert (∀ x y, 0 < y ≤ x → x < 2 ^ 64 → euclid kEuclidFuel x y = Ok (Z.gcd x y)) as He.
  { intros x y Hy Hx. apply euclid_gcd; [done|]. unfold kEuclidFuel.
    change (Z.of_nat 129) with 129. nia. }
  destruct (Z.ltb_spec n d).
  - rewrite He by lia. cbn [mbind outcome_bind]. by rewrite (Z.gcd_comm d n).
  - rewrite He by lia. done.
Qed.

Definition ratio_wf (r : ratio) : Prop :=
  is_u 32 (numerator r) ∧ is_u 32 (denominator r) ∧ denominator r ≠ 0 ∧
  Z.gcd (numerator r) (denominator r) = 1.

Lemma ratio_new_spec n d :
  is_u 32 n → is_u 32 d → d ≠ 0 →
  ∃ r, ratio_new n d = Ok r ∧ ratio_wf r ∧ numerator r * d = n * denominator r.
Proof.
  unfold is_u. intros Hn Hd Hd0. unfold ratio_new, ratio_reduce. cbn [numerator denominator].
  rewrite (proj2 (Z.eqb_neq d 0)) by done. cbn [negb].
  rewrite reduce_internal_gcd by (done || unfold is_u; lia). cbn [mbind outcome_bind].
  destruct (reduced_facts n d) as (Hg & En & Ed & Hc & Hn' & Hd'); [lia..|].
  eexists. split; [done|]. unfold ratio_wf, is_u. cbn. split_and!; first [done | lia | nia].
Qed.

(** A [Ratio] built from a nonzero denominator holds the same fraction in
    lowest terms (Euclid's loop terminates within its fuel on every pair of
    32-bit terms), and building it again from those terms changes nothing. *)
Lemma ratio_new_lowest_terms n d :
  is_u 32 n → is_u 32 d → d ≠ 0 →
  ∃ r, ratio_new n d = Ok r ∧ ratio_wf r ∧ numerator r * d = n * denominator r ∧
       ratio_new (numerator r) (denominator r) = Ok r.
Proof.
  intros Hn Hd Hd0. destruct (ratio_new_spec n d Hn Hd Hd0) as (r & Hr & Hwf & Heq).
  exists r. split_and!; try done. destruct Hwf as (Hrn & Hrd & Hr0 & Hg).
  unfold ratio_new, ratio_reduce. cbn [numerator denominator].
  rewrite (proj2 (Z.eqb_neq (denominator r) 0)) by done. cbn [negb].
  rewrite reduce_internal_gcd by (done || unfold is_u in *; lia).
  rewrite Hg, !Z.div_1_r. by destruct r.
Qed.

Lemma ratio_new_coprime n d :
  is_u 32 n → is_u 32 d → d ≠ 0 → Z.gcd n d = 1 → ratio_new n d = Ok (mk_ratio n d).
Proof.
  intros Hn Hd Hd0 Hg. unfold ratio_new, ratio_reduce. cbn [numerator denominator].
  rewrite (proj2 (Z.eqb_neq d 0)) by done. cbn [negb].
  rewrite reduce_internal_gcd by (done || unfold is_u in *; lia). by rewrite Hg, !Z.div_1_r.
Qed.

Lemma clzl_small x : 0 < x < 2 ^ 32 → (clzl x <? 32) = false.
Proof.
  intros Hx. apply Z.ltb_ge. unfold clzl.
  assert (Z.log2 x < 32) by (apply Z.log2_lt_pow2; lia). lia.
Qed.

(** [Ratio::Compose] reports an exact result, and the result is the product in
    lowest terms, when the reduced numerator is below [2^31] and the reduced
    denominator below [2^32]. *)
Lemma ratio_compose_exact a b :
  ratio_wf a → ratio_wf b → numerator a ≠ 0 → numerator b ≠ 0 →
  let n := numerator a * numerator b in
  let d := denominator a * denominator b in
  n / Z.gcd n d < 2 ^ 31 → d / Z.gcd n d < 2 ^ 32 →
  ∃ r, ratio_compose a b = Ok (true, r) ∧ ratio_wf r ∧ numerator r * d = n * denominator r.
Proof.
  destruct a as [na da], b as [nb db]. intros (Ha & Ha' & Ha0 & _) (Hb & Hb' & Hb0 & _) Hna Hnb.
  unfold is_u in *. cbn in *. intros Hsn Hsd. unfold ratio_compose. cbn [numerator denominator].
  rewrite !(uwrap_small 64) by (unfold is_u; nia).
  rewrite (proj2 (Z.eqb_neq (na * nb) 0)), (proj2 (Z.eqb_neq (da * db) 0)) by nia.
  cbn [orb]. rewrite reduce_internal_gcd by (unfold is_u; nia). cbn [mbind outcome_bind].
  destruct (reduced_facts (na * nb) (da * db)) as (Hg & En & Ed & Hc & Hn' & Hd'); [nia..|].
  set (n := na * nb / _) in *. set (d := da * db / _) in *.
  assert (0 < n) by nia.
  rewrite (uwrap_small 64 (Z.shiftl n 1)) by (rewrite Z.shiftl_mul_pow2 by lia; unfold is_u; lia).
  rewrite clzl_small.
  - eexists. split; [done|]. rewrite !(uwrap_small 32) by (unfold is_u; lia).
    unfold ratio_wf, is_u. cbn. split_and!; first [done | lia | nia].
  - rewrite Z.shiftl_mul_pow2 by lia. change (2 ^ 1) with 2.
    assert (0 ≤ Z.lor (n * 2) d) by (apply Z.lor_nonneg; lia).
    assert (Z.lor (n * 2) d ≠ 0).
    { intros [? _]%Z.lor_eq_0_iff. lia. }
    split; [lia|]. apply Z.log2_lt_cancel. change (Z.log2 (2 ^ 32)) with 32.
    rewrite Z.log2_lor by lia. apply Z.max_lub_lt; apply Z.log2_lt_pow2; lia.
Qed.

(** The precision test of [Ratio::Compose] shifts the numerator left before
    counting leading zeros, which drops its top bit: the square of 3037000500
    is reported as exact and stored as 145474192.  The same shift makes it
    discard precision for a product that fits: [2^31/1 * 1/1] becomes
    [2^30/0]. *)
Lemma ratio_compose_defect :
  ratio_compose (mk_ratio 3037000500 1) (mk_ratio 3037000500 1) =
    Ok (true, mk_ratio 145474192 1) ∧
  ratio_compose (mk_ratio (2 ^ 31) 1) (mk_ratio 1 1) =
    Ok (false, mk_ratio (2 ^ 30) 0).
Proof. concrete. Qed.

Definition sample : transform := mk_transform (mk_ratio 3 2) 10 100.

Lemma transform_sound_witness :
  (@DoForwardTransform debug_build sample 7 = Ok (true, Some 95) →
     denominator (scale sample) ≠ 0 ∧ Some 95 = Some (exact_forward sample 7) ∧
     is_s64 (exact_forward sample 7)) ∧
  (@DoReverseTransform debug_build sample 7 = Ok (true, Some 95) →
     numerator (scale sample) ≠ 0 ∧ Some 95 = Some (exact_reverse sample 7) ∧
     is_s64 (exact_reverse sample 7)).
Proof. apply (@transform_sound debug_build sample 7 (Some 95)); concrete. Defined.

Lemma transform_complete_witness :
  @DoForwardTransform debug_build sample 7 = Ok (true, Some (exact_forward sample 7)).
Proof.
  apply (proj1 (@transform_complete debug_build sample 7 ltac:(concrete) ltac:(concrete)));
    concrete.
Defined.

End LinearTransform.
