(* ===== verification/RateControl.v ===== *)
(** [RateControlBase] of services/media/common: the state machine behind the
    RateControl interface.  It keeps the current linear transform from local
    (target) time to media (reference) time and two queues of scheduled rate
    changes.

    The local clock is an argument [now] of the operations that read it; the
    binding of the Mojo interface is the flag [bound].

    The theorems show that every operation keeps the invariant and stops only at
    a signed overflow, that a rate change never makes the media clock jump, and
    what happens to changes scheduled at a reference time. *)

From S2P Require Import Prelude LinearTransform.
Import LinearTransform.

Module RateControl.

(** ** State and operations *)

Record state := mk_state {
  bound : bool;
  current : transform;
  reference_pending : list transform;
  target_pending : list transform;
  generation : Z;
}.

Record quad := mk_quad {
  reference_offset : Z;
  target_offset : Z;
  reference_delta : Z;
  target_delta : Z;
}.

Definition kLocalTimeID : Z := 0xFFFFFFFF.

Definition set_bound (b : bool) (s : state) : state :=
  mk_state b (current s) (reference_pending s) (target_pending s) (generation s).
Definition set_current (t : transform) (s : state) : state :=
  mk_state (bound s) t (reference_pending s) (target_pending s) (generation s).
Definition set_reference_pending (l : list transform) (s : state) : state :=
  mk_state (bound s) (current s) l (target_pending s) (generation s).
Definition set_target_pending (l : list transform) (s : state) : state :=
  mk_state (bound s) (current s) (reference_pending s) l (generation s).

(** [AdvanceGenerationLocked]: [while (!(++generation_)) {}] *)
Definition next_generation (g : Z) : Z :=
  let g := u32 (g + 1) in if g =? 0 then u32 (g + 1) else g.
Definition AdvanceGenerationLocked (s : state) : state :=
  mk_state (bound s) (current s) (reference_pending s) (target_pending s)
    (next_generation (generation s)).

Section WithBuild.
Context `{Build}.

(** [RateControlBase()] *)
Definition init : outcome state :=
  t ← transform_of_terms 0 1; Ok (mk_state false t [] [] 1).

(** The pending target change which is not in the future, with its age. *)
Definition target_due (now : Z) (s : state) : outcome (option (transform * Z)) :=
  match target_pending s with
  | t :: _ =>
      if a_zero t <=? now then age ← s64 (now - a_zero t); Ok (Some (t, age))
      else Ok None
  | [] => Ok None
  end.

(** The pending reference change which is not in the future, with the target
    time at which it takes place and its age. *)
Definition reference_due (now : Z) (s : state) : outcome (option (transform * Z * Z)) :=
  match reference_pending s with
  | t :: _ =>
      '(ok, o) ← DoReverseTransform (current s) (b_zero t);
      match ok, o with
      | true, Some time =>
          if time <=? now then age ← s64 (now - time); Ok (Some (t, time, age))
          else Ok None
      | _, _ => Ok None
      end
  | [] => Ok None
  end.

Definition apply_target (t : transform) (s : state) : outcome state :=
  '(ok, o) ← DoForwardTransform (current s) (a_zero t);
  s ← match ok, o with
      | true, Some reference_time =>
          let c := mk_transform (mk_ratio (numerator (scale t)) (denominator (scale t)))
                     (a_zero t) reference_time in
          _ ← dcheck (negb (denominator (scale c) =? 0)); Ok (set_current c s)
      | _, _ => Ok s
      end;
  Ok (set_target_pending (tail (target_pending s)) s).

Definition apply_reference (t : transform) (time : Z) (s : state) : outcome state :=
  let c := mk_transform (mk_ratio (numerator (scale t)) (denominator (scale t)))
             time (a_zero t) in
  _ ← dcheck (negb (denominator (scale c) =? 0));
  Ok (set_reference_pending (tail (reference_pending s)) (set_current c s)).

(** One turn of the loop of [ApplyPendingChangesLocked]; [None] is its [break]. *)
Definition apply_one (now : Z) (s : state) : outcome (option state) :=
  td ← target_due now s;
  rd ← reference_due now s;
  match td, rd with
  | Some (t, target_age), Some (r, time, reference_age) =>
      if reference_age <=? target_age then Some <$> apply_target t s
      else Some <$> apply_reference r time s
  | Some (t, _), None => Some <$> apply_target t s
  | None, Some (r, time, _) => Some <$> apply_reference r time s
  | None, None => Ok None
  end.

Fixpoint apply_loop (fuel : nat) (now : Z) (advance_generation : bool) (s : state)
    : outcome (bool * state) :=
  match fuel with
  | O => Fault OutOfFuel
  | S fuel =>
      next ← apply_one now s;
      match next with
      | Some s => apply_loop fuel now true s
      | None => Ok (advance_generation, s)
      end
  end.

(** [ApplyPendingChangesLocked]: every turn but the last removes one scheduled
    change. *)
Definition ApplyPendingChangesLocked (now : Z) (s : state) : outcome state :=
  '(advance_generation, s) ←
    apply_loop (S (length (reference_pending s) + length (target_pending s))) now false s;
  Ok (if (advance_generation : bool) then AdvanceGenerationLocked s else s).

(** [CancelPendingChanges] *)
Definition CancelPendingChanges (s : state) : state :=
  set_target_pending [] (set_reference_pending [] s).

(** The branch of [SetRate] taken for a nonzero target delta. *)
Definition SetRate_legal (now reference_delta target_delta : Z) (s : state) : outcome state :=
  s ← ApplyPendingChangesLocked now s;
  _ ← dcheck (negb (denominator (scale (current s)) =? 0));
  '(ok, o) ← DoForwardTransform (current s) now;
  match ok, o with
  | true, Some reference_now =>
      Ok (AdvanceGenerationLocked
            (set_current (mk_transform (mk_ratio reference_delta target_delta)
                            now reference_now) s))
  | _, _ => Ok s
  end.

(** [Reset], whose [SetRate(0, 1)] takes the legal branch. *)
Definition Reset (now : Z) (s : state) : outcome state :=
  s ← SetRate_legal now 0 1 (CancelPendingChanges s);
  Ok (set_bound false s).

(** [OnIllegalRateChange] *)
Definition OnIllegalRateChange (now : Z) (s : state) : outcome state := Reset now s.

(** [SetRate] *)
Definition SetRate (now reference_delta target_delta : Z) (s : state) : outcome state :=
  if target_delta =? 0 then OnIllegalRateChange now s
  else SetRate_legal now reference_delta target_delta s.

(** [Bind] *)
Definition Bind (now : Z) (s : state) : outcome state :=
  s ← Reset now s; Ok (set_bound true s).

(** [SnapshotCurrentTransform]: the transform and the generation. *)
Definition SnapshotCurrentTransform (now : Z) (s : state)
    : outcome (transform * Z * state) :=
  s ← ApplyPendingChangesLocked now s;
  Ok (current s, generation s, s).

(** [GetCurrentTransform]: the quad passed to the callback. *)
Definition GetCurrentTransform (now : Z) (s : state) : outcome (quad * state) :=
  '(trans, _, s) ← SnapshotCurrentTransform now s;
  Ok (mk_quad (b_zero trans) (a_zero trans) (numerator (scale trans))
        (denominator (scale trans)), s).

(** [SetTargetTimelineID] *)
Definition SetTargetTimelineID (now id : Z) (s : state) : outcome state :=
  if negb (id =? kLocalTimeID) then Reset now s else Ok s.

(** [SetCurrentQuad] *)
Definition SetCurrentQuad (now : Z) (q : quad) (s : state) : outcome state :=
  if target_delta q =? 0 then OnIllegalRateChange now s
  else
    let s := CancelPendingChanges s in
    sc ← (if negb (reference_delta q =? 0)
          then ratio_new (reference_delta q) (target_delta q)
          else Ok (mk_ratio 0 1));
    Ok (AdvanceGenerationLocked
          (set_current (mk_transform sc (target_offset q) (reference_offset q)) s)).

(** [SetRateAtReferenceTime] *)
Definition SetRateAtReferenceTime (now reference_delta target_delta reference_time : Z)
    (s : state) : outcome state :=
  if target_delta =? 0 then OnIllegalRateChange now s
  else
    match last (reference_pending s) with
    | Some t => if reference_time <=? b_zero t then Ok s else
        n ← transform_new 0 reference_delta target_delta reference_time;
        Ok (set_reference_pending (reference_pending s ++ [n]) s)
    | None =>
        n ← transform_new 0 reference_delta target_delta reference_time;
        Ok (set_reference_pending (reference_pending s ++ [n]) s)
    end.

(** [SetRateAtTargetTime] *)
Definition SetRateAtTargetTime (now reference_delta target_delta target_time : Z)
    (s : state) : outcome state :=
  if target_delta =? 0 then OnIllegalRateChange now s
  else
    match last (target_pending s) with
    | Some t => if target_time <=? a_zero t then Ok s else
        n ← transform_new target_time reference_delta target_delta 0;
        Ok (set_target_pending (target_pending s ++ [n]) s)
    | None =>
        n ← transform_new target_time reference_delta target_delta 0;
        Ok (set_target_pending (target_pending s ++ [n]) s)
    end.

(** ** Calls arriving on the interface *)

Inductive event :=
  | EBind
  | EConnectionError
  | EGetCurrentTransform
  | ESnapshot
  | ESetTargetTimelineID (id : Z)
  | ESetCurrentQuad (q : quad)
  | ESetRate (reference_delta target_delta : Z)
  | ESetRateAtReferenceTime (reference_delta target_delta reference_time : Z)
  | ESetRateAtTargetTime (reference_delta target_delta target_time : Z)
  | ECancelPendingChanges.

Definition run (now : Z) (e : event) (s : state) : outcome state :=
  match e with
  | EBind => Bind now s
  | EConnectionError => Reset now s
  | EGetCurrentTransform => '(_, s) ← GetCurrentTransform now s; Ok s
  | ESnapshot => '(_, _, s) ← SnapshotCurrentTransform now s; Ok s
  | ESetTargetTimelineID id => SetTargetTimelineID now id s
  | ESetCurrentQuad q => SetCurrentQuad now q s
  | ESetRate r t => SetRate now r t s
  | ESetRateAtReferenceTime r t x => SetRateAtReferenceTime now r t x s
  | ESetRateAtTargetTime r t x => SetRateAtTargetTime now r t x s
  | ECancelPendingChanges => Ok (CancelPendingChanges s)
  end.

(** The arguments of a call have their C++ types. *)
Definition event_ok (e : event) : Prop :=
  match e with
  | ESetCurrentQuad q =>
      is_s64 (reference_offset q) ∧ is_s64 (target_offset q) ∧
      is_u 32 (reference_delta q) ∧ is_u 32 (target_delta q)
  | ESetRate r t => is_u 32 r ∧ is_u 32 t
  | ESetRateAtReferenceTime r t x | ESetRateAtTargetTime r t x =>
      is_u 32 r ∧ is_u 32 t ∧ is_s64 x
  | _ => True
  end.

(** A step: a call with well-typed arguments, at some local time, returns. *)
Inductive step : state → state → Prop :=
  | step_call now e s s' : is_s64 now → event_ok e → run now e s = Ok s' → step s s'.

(** ** Invariant *)

Definition live_transform (t : transform) : Prop :=
  transform_ok t ∧ denominator (scale t) ≠ 0.

Record inv (s : state) : Prop := {
  inv_current : live_transform (current s);
  inv_reference : Forall live_transform (reference_pending s);
  inv_target : Forall live_transform (target_pending s);
  inv_reference_sorted : StronglySorted (λ t u, b_zero t < b_zero u) (reference_pending s);
  inv_target_sorted : StronglySorted (λ t u, a_zero t < a_zero u) (target_pending s);
  inv_generation : 0 < generation s < 2 ^ 32;
}.

Definition pending (s : state) : nat :=
  length (reference_pending s) + length (target_pending s).

(** ** Proofs *)

Lemma next_generation_spec g :
  0 < g < 2 ^ 32 → 0 < next_generation g < 2 ^ 32 ∧ next_generation g ≠ g.
Proof.
  intros Hg. unfold next_generation.
  destruct (decide (g = 2 ^ 32 - 1)) as [->|]; [done|].
  rewrite (uwrap_small 32 (g + 1)) by (unfold is_u; lia).
  rewrite (proj2 (Z.eqb_neq _ 0)) by lia. lia.
Qed.

Lemma live_ratio n d az bz :
  is_u 32 n → is_u 32 d → d ≠ 0 → is_s64 az → is_s64 bz →
  live_transform (mk_transform (mk_ratio n d) az bz).
Proof. intros. by split; [split_and!|]. Qed.

Lemma inv_set_current t s :
  inv s → live_transform t → inv (set_current t s).
Proof. intros [] ?. by constructor. Qed.

Lemma inv_advance s : inv s → inv (AdvanceGenerationLocked s).
Proof. intros []. constructor; try done. by apply next_generation_spec. Qed.

Lemma inv_set_bound b s : inv s → inv (set_bound b s).
Proof. intros []. by constructor. Qed.

Lemma inv_cancel s : inv s → inv (CancelPendingChanges s).
Proof. intros []. constructor; try done; constructor. Qed.

Lemma inv_pop_target s : inv s → inv (set_target_pending (tail (target_pending s)) s).
Proof.
  intros []. constructor; try done; cbn.
  - by apply Forall_tail.
  - destruct (target_pending s) as [|t l]; [done|]. by inversion inv_target_sorted0.
Qed.

Lemma inv_pop_reference s : inv s → inv (set_reference_pending (tail (reference_pending s)) s).
Proof.
  intros []. constructor; try done; cbn.
  - by apply Forall_tail.
  - destruct (reference_pending s) as [|t l]; [done|]. by inversion inv_reference_sorted0.
Qed.

Create HintDb rate_control.
#[local] Hint Resolve inv_set_current inv_advance inv_set_bound inv_cancel inv_pop_target
  inv_pop_reference live_ratio : rate_control.

Lemma target_due_safe now s :
  inv s → safe (λ o, ∀ t age, o = Some (t, age) → ∃ l, target_pending s = t :: l)
            (target_due now s).
Proof.
  intros Hs. unfold target_due. destruct (target_pending s) as [|t l]; [done|].
  case_match; [|done]. eapply safe_bind; [apply safe_s64|]. cbn. naive_solver.
Qed.

Lemma reference_due_safe now s :
  inv s → safe (λ o, ∀ t time age, o = Some (t, time, age) →
                   is_s64 time ∧ ∃ l, reference_pending s = t :: l)
            (reference_due now s).
Proof.
  intros Hs. unfold reference_due. destruct (reference_pending s) as [|t l] eqn:E; [done|].
  pose proof (inv_reference s Hs) as Hl. rewrite E in Hl. apply Forall_cons in Hl as [[Ht _] _].
  eapply safe_bind; [apply DoReverse_safe; [apply inv_current, Hs|apply Ht]|].
  intros [[|] [time|]] Hok; try done. case_match; [|done].
  destruct (Hok eq_refl) as (_ & [= ->] & Hr).
  eapply safe_bind; [apply safe_s64|]. cbn. naive_solver.
Qed.

(** What is known after a target change has been applied. *)
Lemma apply_target_safe t l s :
  inv s → target_pending s = t :: l →
  safe (λ s', inv s' ∧ (pending s' < pending s)%nat ∧
          exact_forward (current s') (a_zero t) = exact_forward (current s) (a_zero t))
    (apply_target t s).
Proof.
  intros Hs Hl. pose proof (inv_target s Hs) as Ht. rewrite Hl in Ht.
  apply Forall_cons in Ht as [[Hok Hd] _]. unfold apply_target.
  eapply safe_bind; [apply DoForward_safe; [apply inv_current, Hs|apply Hok]|].
  intros [[|] o] Ho; cbn [mbind outcome_bind].
  - destruct (Ho eq_refl) as (_ & -> & Hr). cbn [scale denominator].
    rewrite dcheck_nonzero by done. cbn [mbind outcome_bind safe].
    destruct Hok as (? & ? & ? & ?). split_and!.
    + apply (inv_pop_target (set_current _ s)). auto with rate_control.
    + unfold pending. cbn. rewrite Hl. cbn. lia.
    + unfold exact_forward, exact_value. cbn.
      by rewrite Z.sub_diag, Z.mul_0_l, Zdiv_0_l.
  - destruct o; cbn; (split_and!; [auto with rate_control | | done]);
      unfold pending; cbn; rewrite Hl; cbn; lia.
Qed.

Lemma apply_reference_safe t l time s :
  inv s → reference_pending s = t :: l → is_s64 time →
  safe (λ s', inv s' ∧ (pending s' < pending s)%nat) (apply_reference t time s).
Proof.
  intros Hs Hl Htime. pose proof (inv_reference s Hs) as Ht. rewrite Hl in Ht.
  apply Forall_cons in Ht as [[(? & ? & ? & ?) Hd] _]. unfold apply_reference. cbn [scale denominator].
  rewrite dcheck_nonzero by done. cbn [mbind outcome_bind safe]. split.
  - apply (inv_pop_reference (set_current _ s)). auto with rate_control.
  - unfold pending. cbn. rewrite Hl. cbn. lia.
Qed.

Lemma safe_fmap {A B} (P : A → Prop) (Q : B → Prop) (g : A → B) m :
  safe P m → (∀ a, P a → Q (g a)) → safe Q (g <$> m).
Proof. destruct m; cbn; auto. Qed.

Lemma apply_one_safe now s :
  inv s → safe (λ o, ∀ s', o = Some s' → inv s' ∧ (pending s' < pending s)%nat)
            (apply_one now s).
Proof.
  intros Hs. unfold apply_one.
  eapply safe_bind; [by apply target_due_safe|]. intros td Htd.
  eapply safe_bind; [by apply reference_due_safe|]. intros rd Hrd.
  assert (Ht : ∀ t age, td = Some (t, age) →
    safe (λ o, ∀ s', o = Some s' → inv s' ∧ (pending s' < pending s)%nat)
      (Some <$> apply_target t s)).
  { intros t age Hd. destruct (Htd t age Hd) as [l Hl].
    eapply safe_fmap; [by eapply apply_target_safe|]. naive_solver. }
  assert (Hr : ∀ t time age, rd = Some (t, time, age) →
    safe (λ o, ∀ s', o = Some s' → inv s' ∧ (pending s' < pending s)%nat)
      (Some <$> apply_reference t time s)).
  { intros t time age Hd. destruct (Hrd t time age Hd) as [Htime [l Hl]].
    eapply safe_fmap; [by eapply apply_reference_safe|]. naive_solver. }
  destruct td as [[t tage]|], rd as [[[r time] rage]|]; try (by eauto).
  case_match; eauto.
Qed.

Lemma apply_loop_safe fuel now b s :
  (pending s < fuel)%nat → inv s → safe (λ '(_, s'), inv s') (apply_loop fuel now b s).
Proof.
  revert b s. induction fuel as [|fuel IH]; intros b s Hf Hs; [lia|]. cbn.
  eapply safe_bind; [by apply apply_one_safe|]. intros [s'|] Hs'; [|done].
  destruct (Hs' s' eq_refl) as [Hi Hp]. apply IH; [lia|done].
Qed.

Lemma ApplyPending_safe now s : inv s → safe inv (ApplyPendingChangesLocked now s).
Proof.
  intros Hs. eapply safe_bind; [apply apply_loop_safe; [unfold pending; lia|done]|].
  intros [[|] s'] Hi; cbn; auto with rate_control.
Qed.

(** [SetRate] from an up-to-date state [s1]: the media time at [now] is kept. *)
Definition rate_set (now rd td : Z) (s1 s' : state) : Prop :=
  inv s' ∧ exact_forward (current s') now = exact_forward (current s1) now ∧
  (s' = s1 ∨ scale (current s') = mk_ratio rd td ∧ generation s' ≠ generation s1).

Lemma SetRate_legal_safe now rd td s :
  inv s → is_s64 now → is_u 32 rd → is_u 32 td → td ≠ 0 →
  safe (λ s', ∃ s1, ApplyPendingChangesLocked now s = Ok s1 ∧ rate_set now rd td s1 s')
    (SetRate_legal now rd td s).
Proof.
  intros Hs Hnow Hrd Htd Htd0. unfold SetRate_legal.
  pose proof (ApplyPending_safe now s Hs) as Ha.
  destruct (ApplyPendingChangesLocked now s) as [s1|f] eqn:E; [|done]. cbn in Ha.
  cbn [mbind outcome_bind]. destruct (inv_current s1 Ha) as [Hok Hd].
  rewrite dcheck_nonzero by done. cbn [mbind outcome_bind].
  eapply safe_bind; [by apply DoForward_safe|].
  intros [[|] o] Ho.
  - destruct (Ho eq_refl) as (_ & -> & Hr). cbn. exists s1. split; [done|]. split_and!.
    + auto with rate_control.
    + unfold exact_forward, exact_value. cbn. by rewrite Z.sub_diag, Z.mul_0_l, Zdiv_0_l.
    + right. split; [done|]. by apply next_generation_spec, Ha.
  - destruct o; cbn; exists s1; (split; [done|]; split_and!; [done|done|by left]).
Qed.

Lemma SetRate_legal_inv now rd td s :
  inv s → is_s64 now → is_u 32 rd → is_u 32 td → td ≠ 0 →
  safe inv (SetRate_legal now rd td s).
Proof.
  intros. eapply safe_mono; [by apply SetRate_legal_safe|]. intros s' (s1 & _ & Hr & _). done.
Qed.

Lemma Reset_safe now s : inv s → is_s64 now → safe inv (Reset now s).
Proof.
  intros Hs Hnow. unfold Reset. eapply safe_bind.
  - apply SetRate_legal_inv; [auto with rate_control|done| | |done]; unfold is_u; lia.
  - intros s' Hs'. cbn. auto with rate_control.
Qed.

Lemma transform_new_safe az n d bz :
  is_s64 az → is_s64 bz → is_u 32 n → is_u 32 d → d ≠ 0 →
  ∃ t, transform_new az n d bz = Ok t ∧ live_transform t ∧ a_zero t = az ∧ b_zero t = bz.
Proof.
  intros Haz Hbz Hn Hd Hd0. unfold transform_new.
  destruct (ratio_new_spec n d Hn Hd Hd0) as (r & -> & (Hrn & Hrd & Hr0 & _) & _).
  eexists. split; [done|]. by split; [split; [split_and!|]|].
Qed.

Lemma sorted_snoc (g : transform → Z) l t :
  StronglySorted (λ t u, g t < g u) l → (∀ u, last l = Some u → g u < g t) →
  StronglySorted (λ t u, g t < g u) (l ++ [t]).
Proof.
  induction l as [|x l IH]; intros Hs Hl; cbn; [by repeat constructor|].
  inversion Hs as [|? ? Hs' Hx]; subst. constructor.
  - apply IH; [done|]. intros u Hu. apply Hl. destruct l; [done|done].
  - apply Forall_app. split; [done|]. constructor; [|constructor].
    destruct l as [|y l']; [by apply Hl|].
    destruct (last (y :: l')) as [u|] eqn:E; [|by apply last_None in E].
    specialize (Hl u E). rewrite Forall_forall in Hx.
    specialize (Hx u). apply last_Some_elem_of in E. specialize (Hx E). lia.
Qed.

Lemma run_safe now e s :
  inv s → is_s64 now → event_ok e → safe inv (run now e s).
Proof.
  intros Hs Hnow He. destruct e; cbn [event_ok run] in He |- *.
  - eapply safe_bind; [by apply Reset_safe|]. cbn. auto with rate_control.
  - by apply Reset_safe.
  - unfold GetCurrentTransform, SnapshotCurrentTransform.
    generalize (ApplyPending_safe now s Hs). destruct (ApplyPendingChangesLocked now s); cbn; auto.
  - unfold SnapshotCurrentTransform.
    generalize (ApplyPending_safe now s Hs). destruct (ApplyPendingChangesLocked now s); cbn; auto.
  - unfold SetTargetTimelineID. case_match; [by apply Reset_safe|done].
  - unfold SetCurrentQuad. destruct (Z.eqb_spec (target_delta q) 0); [by apply Reset_safe|].
    destruct He as (? & ? & ? & ?). case_match; cbn [mbind outcome_bind].
    + destruct (ratio_new_spec (reference_delta q) (target_delta q))
        as ([rn rd] & -> & (? & ? & ? & _) & _); [done..|]. cbn in *. auto 6 with rate_control.
    + cbn. assert (is_u 32 0 ∧ is_u 32 1) as [? ?] by (unfold is_u; lia).
      auto 6 with rate_control.
  - unfold SetRate. destruct He. case_match; [by apply Reset_safe|].
    apply SetRate_legal_inv; try done. lia.
  - unfold SetRateAtReferenceTime. destruct He as (? & ? & ?).
    destruct (Z.eqb_spec target_delta0 0); [by apply Reset_safe|].
    destruct (transform_new_safe 0 reference_delta0 target_delta0 reference_time)
      as (t & -> & Ht & Ea & Eb); [unfold is_s64, min_s64, max_s64; lia|done..|].
    assert ((∀ u, last (reference_pending s) = Some u → b_zero u < b_zero t) →
      inv (set_reference_pending (reference_pending s ++ [t]) s)) as Hadd.
    { intros Hl. destruct Hs. constructor; try done; cbn.
      - apply Forall_app. auto.
      - by apply (sorted_snoc b_zero). }
    destruct (last (reference_pending s)) as [u|] eqn:E; cbn; [|apply Hadd; naive_solver].
    destruct (Z.leb_spec reference_time (b_zero u)); cbn; [done|].
    apply Hadd. intros ? [= <-]. lia.
  - unfold SetRateAtTargetTime. destruct He as (? & ? & ?).
    destruct (Z.eqb_spec target_delta0 0); [by apply Reset_safe|].
    destruct (transform_new_safe target_time reference_delta0 target_delta0 0)
      as (t & -> & Ht & Ea & Eb); [done|unfold is_s64, min_s64, max_s64; lia|done..|].
    assert ((∀ u, last (target_pending s) = Some u → a_zero u < a_zero t) →
      inv (set_target_pending (target_pending s ++ [t]) s)) as Hadd.
    { intros Hl. destruct Hs. constructor; try done; cbn.
      - apply Forall_app. auto.
      - by apply (sorted_snoc a_zero). }
    destruct (last (target_pending s)) as [u|] eqn:E; cbn; [|apply Hadd; naive_solver].
    destruct (Z.leb_spec target_time (a_zero u)); cbn; [done|].
    apply Hadd. intros ? [= <-]. lia.
  - cbn. auto with rate_control.
Qed.

Lemma init_inv : ∃ s, init = Ok s ∧ inv s.
Proof.
  eexists. split; [vm_compute; reflexivity|].
  constructor; try constructor; concrete.
Qed.

(** C19. From the initial state, after any sequence of interface calls with
    well-typed arguments at any local times, the invariant holds: the current
    and every scheduled transform has a nonzero target delta, both queues are
    strictly ordered by their scheduled time, and the generation is nonzero; and
    the next call returns or stops at a signed overflow, never at a [DCHECK] or
    without terminating. *)
Theorem reachable_invariant s0 s now e :
  init = Ok s0 → rtc step s0 s → is_s64 now → event_ok e →
  inv s ∧ safe inv (run now e s).
Proof.
  intros Hinit Hsteps Hnow He. destruct init_inv as (s1 & Hi & Hinv).
  rewrite Hinit in Hi. injection Hi as <-.
  assert (inv s) as Hs.
  { clear Hinit. induction Hsteps as [|x y z [now' e' ?? Hn' He' Hrun] _ IH]; [done|].
    apply IH. pose proof (run_safe _ _ _ Hinv Hn' He') as Hsafe. rewrite Hrun in Hsafe.
    exact Hsafe. }
  split; [done|]. by apply run_safe.
Qed.

(** C20. Rate changes do not make the media clock jump.  [SetRate] first applies
    the changes which are due, then either leaves the transform alone (the media
    time overflows) or installs the new rate with a new generation, and in both
    cases the media time at [now] is what it was; a change scheduled at a target
    time keeps the media time at that target time. *)
Theorem rate_change_continuous now rd td s :
  inv s → is_s64 now → is_u 32 rd → is_u 32 td → td ≠ 0 →
  safe (λ s', ∃ s1, ApplyPendingChangesLocked now s = Ok s1 ∧ rate_set now rd td s1 s')
    (SetRate now rd td s) ∧
  (∀ t l, target_pending s = t :: l →
     safe (λ s', exact_forward (current s') (a_zero t) = exact_forward (current s) (a_zero t))
       (apply_target t s)).
Proof.
  intros Hs Hnow Hrd Htd Htd0. split.
  - unfold SetRate. rewrite (proj2 (Z.eqb_neq td 0)) by done. by apply SetRate_legal_safe.
  - intros t l Hl. eapply safe_mono; [by eapply apply_target_safe|]. naive_solver.
Qed.

(** An illegal rate (zero target delta) or an unsupported timeline closes the
    connection and drops every scheduled change. *)
Lemma illegal_rate_closes now s s' rd x q :
  inv s → is_s64 now → target_delta q = 0 →
  (SetRate now rd 0 s = Ok s' ∨ SetRateAtReferenceTime now rd 0 x s = Ok s' ∨
   SetRateAtTargetTime now rd 0 x s = Ok s' ∨ SetCurrentQuad now q s = Ok s') →
  bound s' = false ∧ reference_pending s' = [] ∧ target_pending s' = [].
Proof.
  intros Hs Hnow Hq Hrun.
  assert (Reset now s = Ok s') as Hr.
  { unfold SetCurrentQuad in Hrun. rewrite Hq in Hrun. naive_solver. }
  unfold Reset in Hr. apply outcome_bind_Ok in Hr as (s1 & Hr & [= <-]). cbn. split; [done|].
  unfold SetRate_legal in Hr. apply outcome_bind_Ok in Hr as (s2 & Ha & Hr).
  assert (reference_pending s2 = [] ∧ target_pending s2 = []) as [H1 H2].
  { cbn in Ha. by simplify_eq/=. }
  apply outcome_bind_Ok in Hr as (_ & _ & Hr).
  apply outcome_bind_Ok in Hr as ([[|] [o|]] & _ & Hr); by simplify_eq/=.
Qed.

End WithBuild.

(** Applying a change scheduled at a reference time sets the media time at
    the splice point from the change's [a_zero], which [SetRateAtReferenceTime]
    always leaves at [0], and not from the scheduled reference time: a clock
    running at rate one with a change scheduled at media time 1000 jumps from
    1000 back to 0. *)
Lemma reference_change_defect :
  let s0 := mk_state true (mk_transform (mk_ratio 1 1) 0 0) [] [] 1 in
  ∃ s1 s2, @SetRateAtReferenceTime release_build 0 2 1 1000 s0 = Ok s1 ∧
    @ApplyPendingChangesLocked release_build 2000 s1 = Ok s2 ∧
    exact_forward (current s1) 1000 = 1000 ∧ exact_forward (current s2) 1000 = 0.
Proof.
  exists (mk_state true (mk_transform (mk_ratio 1 1) 0 0)
            [mk_transform (mk_ratio 2 1) 0 1000] [] 1),
    (mk_state true (mk_transform (mk_ratio 2 1) 1000 0) [] [] 2).
  concrete.
Qed.

Definition playing : state := mk_state true (mk_transform (mk_ratio 1 1) 0 0) [] [] 1.

Lemma playing_inv : inv playing.
Proof. constructor; try constructor; concrete. Defined.

Definition paused : state := mk_state false (mk_transform (mk_ratio 0 1) 0 0) [] [] 1.

Lemma reachable_invariant_witness :
  inv paused ∧ safe (H := debug_build) inv (@run debug_build 5 (ESetRate 1 1) paused).
Proof.
  refine (@reachable_invariant debug_build paused paused 5 (ESetRate 1 1) _ (rtc_refl _ _) _ _);
    concrete.
Defined.

Lemma rate_change_continuous_witness :
  safe (H := debug_build)
    (λ s', ∃ s1, @ApplyPendingChangesLocked debug_build 100 playing = Ok s1 ∧
                 rate_set 100 3 2 s1 s') (@SetRate debug_build 100 3 2 playing).
Proof.
  apply (proj1 (@rate_change_continuous debug_build 100 3 2 playing playing_inv
    ltac:(concrete) ltac:(concrete) ltac:(concrete) ltac:(concrete))).
Defined.

Lemma illegal_rate_closes_witness :
  ∃ s', @SetRate debug_build 100 3 0 playing = Ok s' ∧
    bound s' = false ∧ reference_pending s' = [] ∧ target_pending s' = [].
Proof.
  exists (mk_state false (mk_transform (mk_ratio 0 1) 100 100) [] [] 2).
  split; [concrete|].
  apply (@illegal_rate_closes debug_build 100 playing _ 3 0 (mk_quad 0 0 0 0) playing_inv);
    [concrete | concrete | left; concrete].
Defined.

End RateControl.
