(* ===== verification/FifoAllocator.v ===== *)
(** [FifoAllocator] of mojo/services/media/common/cpp: an allocator of regions of
    one contiguous buffer.  The model keeps the code's intrusive doubly linked
    list: a heap of [Region] structures addressed by pointers, the list ends
    [front_] and [back_], the lookaside list [free_] and the [active_] region.
    Following a null or dangling pointer is undefined behaviour.

    The theorems show that no operation faults, that the list always tiles the
    buffer with coalesced regions (the design stated in the header file), that an
    allocation fails only when no free region is large enough and otherwise
    returns a range disjoint from every live allocation, that a release removes
    exactly the region it names, and that the destructor frees every structure. *)

From S2P Require Import Prelude.

Module FifoAllocator.

(** ** Data *)

Abbreviation loc := positive.
Abbreviation ptr := (option positive).

(** [FifoAllocator::Region] *)
Record region := mk_region {
  allocated : bool;
  rsize : Z;
  roffset : Z;
  prev : ptr;
  next : ptr;
}.

(** The members of the class, with the heap its pointers refer to. *)
Record state := mk_state {
  size_ : Z;
  front_ : ptr;
  back_ : ptr;
  free_ : ptr;
  active_ : ptr;
  heap : gmap loc region;
}.

Definition kNullOffset : Z := max_u64.

Definition set_size (z : Z) (s : state) : state :=
  mk_state z (front_ s) (back_ s) (free_ s) (active_ s) (heap s).
Definition set_front (p : ptr) (s : state) : state :=
  mk_state (size_ s) p (back_ s) (free_ s) (active_ s) (heap s).
Definition set_back (p : ptr) (s : state) : state :=
  mk_state (size_ s) (front_ s) p (free_ s) (active_ s) (heap s).
Definition set_free (p : ptr) (s : state) : state :=
  mk_state (size_ s) (front_ s) (back_ s) p (active_ s) (heap s).
Definition set_active (p : ptr) (s : state) : state :=
  mk_state (size_ s) (front_ s) (back_ s) (free_ s) p (heap s).
Definition set_heap (h : gmap loc region) (s : state) : state :=
  mk_state (size_ s) (front_ s) (back_ s) (free_ s) (active_ s) h.

(** ** Heap accesses *)

(** [*p] *)
Definition deref (p : ptr) : prog state (loc * region) := λ s,
  match p with
  | None => Fault UndefinedBehaviour
  | Some l =>
      match heap s !! l with
      | None => Fault UndefinedBehaviour
      | Some r => Ok ((l, r), s)
      end
  end.

(** Assignment through a pointer: [p->field = ...] *)
Definition update (p : ptr) (g : region → region) : prog state unit :=
  '(l, r) ← deref p; modS (λ s, set_heap (<[l := g r]> (heap s)) s).

Definition with_allocated (b : bool) (r : region) : region :=
  mk_region b (rsize r) (roffset r) (prev r) (next r).
Definition with_size (z : Z) (r : region) : region :=
  mk_region (allocated r) z (roffset r) (prev r) (next r).
Definition with_offset (z : Z) (r : region) : region :=
  mk_region (allocated r) (rsize r) z (prev r) (next r).
Definition with_prev (p : ptr) (r : region) : region :=
  mk_region (allocated r) (rsize r) (roffset r) p (next r).
Definition with_next (p : ptr) (r : region) : region :=
  mk_region (allocated r) (rsize r) (roffset r) (prev r) p.

(** [new Region()]: a zero-initialised structure at an unused address. *)
Definition fresh_loc (h : gmap loc region) : loc :=
  map_fold (λ l _ m, Pos.max (Pos.succ l) m) 1%positive h.
Definition new_region : prog state loc := λ s,
  let l := fresh_loc (heap s) in
  Ok (l, set_heap (<[l := mk_region false 0 0 None None]> (heap s)) s).

(** [delete region] *)
Definition delete_region (l : loc) : prog state unit :=
  modS (λ s, set_heap (delete l (heap s)) s).

(** [for (region = begin; region != end; region = region->next)
       { if (found) { body; } }  return false;] *)
Fixpoint for_region (fuel : nat) (region end_ : ptr) (found : FifoAllocator.region → bool)
    (body : loc → prog state bool) : prog state bool :=
  if decide (region = end_) then mret false
  else
    match fuel with
    | O => failS OutOfFuel
    | S fuel =>
        '(l, r) ← deref region;
        if found r then body l else for_region fuel (next r) end_ found body
    end.

(** Every list of the class is part of the heap, so this many turns suffice. *)
Definition heap_fuel (s : state) : nat := S (size (heap s)).

Section WithBuild.
Context `{Build}.

(** ** List primitives *)

(** [remove] *)
Definition remove (region : ptr) : prog state unit :=
  _ ← dcheckS (bool_decide (region ≠ None));
  s ← getS;
  _ ← (if decide (front_ s = region) then
         '(_, r) ← deref region;
         _ ← dcheckS (bool_decide (prev r = None));
         modS (set_front (next r))
       else
         '(_, r) ← deref region;
         _ ← dcheckS (bool_decide (prev r ≠ None));
         '(_, p) ← deref (prev r);
         _ ← dcheckS (bool_decide (next p = region));
         update (prev r) (with_next (next r)));
  s ← getS;
  if decide (back_ s = region) then
    '(_, r) ← deref region;
    _ ← dcheckS (bool_decide (next r = None));
    modS (set_back (prev r))
  else
    '(_, r) ← deref region;
    _ ← dcheckS (bool_decide (next r ≠ None));
    '(_, n) ← deref (next r);
    _ ← dcheckS (bool_decide (prev n = region));
    update (next r) (with_prev (prev r)).

(** [insert_before] *)
Definition insert_before (region before_this : ptr) : prog state unit :=
  _ ← dcheckS (bool_decide (region ≠ None));
  _ ← dcheckS (bool_decide (before_this ≠ None));
  '(_, b) ← deref before_this;
  _ ← update region (with_prev (prev b));
  _ ← update before_this (with_prev region);
  _ ← update region (with_next before_this);
  s ← getS;
  '(_, r) ← deref region;
  if decide (front_ s = before_this) then
    _ ← dcheckS (bool_decide (prev r = None));
    modS (set_front region)
  else
    _ ← dcheckS (bool_decide (prev r ≠ None));
    update (prev r) (with_next region).

(** [get_free] *)
Definition get_free (alloc : bool) (size offset : Z) : prog state loc :=
  s ← getS;
  _ ← dcheckS (size <=? size_ s);
  _ ← dcheckS (offset <=? u64 (size_ s - size));
  l ← (match free_ s with
       | None => new_region
       | Some l =>
           '(_, r) ← deref (Some l);
           _ ← modS (set_free (next r));
           mret l
       end);
  _ ← update (Some l) (with_allocated alloc);
  _ ← update (Some l) (with_size size);
  _ ← update (Some l) (with_offset offset);
  mret l.

(** [put_free] *)
Definition put_free (region : ptr) : prog state unit :=
  s ← getS;
  _ ← update region (with_next (free_ s));
  modS (set_free region).

(** [DeleteFrontToBack] *)
Fixpoint delete_loop (fuel : nat) (region : ptr) : prog state unit :=
  match region with
  | None => mret tt
  | Some to_delete =>
      match fuel with
      | O => failS OutOfFuel
      | S fuel =>
          '(_, r) ← deref region;
          _ ← delete_region to_delete;
          delete_loop fuel (next r)
      end
  end.
Definition DeleteFrontToBack (region : ptr) : prog state unit := λ s,
  delete_loop (heap_fuel s) region s.

(** ** Operations *)

(** [Reset] *)
Definition Reset (size : Z) : prog state unit :=
  _ ← dcheckS (size <? kNullOffset);
  s ← getS;
  _ ← DeleteFrontToBack (front_ s);
  s ← getS;
  _ ← DeleteFrontToBack (free_ s);
  _ ← modS (set_size size);
  _ ← modS (set_free None);
  l ← get_free false size 0;
  _ ← modS (set_active (Some l));
  _ ← modS (set_back (Some l));
  _ ← modS (set_front (Some l));
  _ ← update (Some l) (with_prev None);
  update (Some l) (with_next None).

(** [FifoAllocator(size)]: [back_], [active_] and [size_] are not initialised
    before [Reset] sets them. *)
Definition construct (size : Z) : outcome state :=
  '(_, s) ← Reset size (mk_state 0 None None None None ∅); Ok s.

(** [~FifoAllocator] *)
Definition destruct_ : prog state unit :=
  s ← getS;
  _ ← DeleteFrontToBack (front_ s);
  s ← getS;
  DeleteFrontToBack (free_ s).

(** The three-argument [AdvanceActive]. *)
Definition AdvanceActive_range (size : Z) (begin_ end_ : ptr) : prog state bool := λ s,
  for_region (heap_fuel s) begin_ end_
    (λ r, negb (allocated r) && (size <=? rsize r))
    (λ region,
      s ← getS;
      '(_, a) ← deref (active_ s);
      _ ← (if rsize a =? 0 then
             _ ← dcheckS (negb (allocated a));
             _ ← remove (active_ s);
             put_free (active_ s)
           else mret tt);
      _ ← modS (set_active (Some region));
      mret true) s.

(** [AdvanceActive] *)
Definition AdvanceActive (size : Z) : prog state bool :=
  _ ← dcheckS (negb (size =? 0));
  s ← getS;
  '(_, a) ← deref (active_ s);
  found ← AdvanceActive_range size (next a) None;
  if (found : bool) then mret true
  else
    s ← getS;
    AdvanceActive_range size (front_ s) (active_ s).

(** [MakeActivePlaceholder] *)
Definition MakeActivePlaceholder : prog state unit :=
  s ← getS;
  '(_, a) ← deref (active_ s);
  new_active ← get_free false 0
    (if decide (active_ s = back_ s) then 0 else u64 (roffset a + rsize a));
  s ← getS;
  '(_, a) ← deref (active_ s);
  _ ← dcheckS (Bool.eqb (bool_decide (active_ s = back_ s)) (bool_decide (next a = None)));
  _ ← insert_before (Some new_active)
        (if decide (active_ s = back_ s) then front_ s else next a);
  modS (set_active (Some new_active)).

(** [AllocateRegion] *)
Definition AllocateRegion (size : Z) : prog state Z :=
  _ ← dcheckS (negb (size =? 0));
  s ← getS;
  '(_, a) ← deref (active_ s);
  fits ← (if rsize a <? size then AdvanceActive size else mret true);
  if negb fits then mret kNullOffset
  else
    s ← getS;
    '(_, a) ← deref (active_ s);
    if rsize a =? size then
      let result := roffset a in
      _ ← update (active_ s) (with_allocated true);
      '(_, f) ← deref (front_ s);
      _ ← (if bool_decide (active_ s = back_ s) && negb (allocated f)
           then modS (set_active (front_ s))
           else MakeActivePlaceholder);
      mret result
    else
      _ ← dcheckS (size <? rsize a);
      l ← get_free true size (roffset a);
      _ ← update (active_ s) (λ r, with_size (u64 (rsize r - size)) r);
      _ ← update (active_ s) (λ r, with_offset (u64 (roffset r + size)) r);
      _ ← insert_before (Some l) (active_ s);
      '(_, r) ← deref (Some l);
      mret (roffset r).

(** The body of the loop of [Release], once the region is found. *)
Definition release_at (size : Z) (l : loc) : prog state bool :=
  '(_, r) ← deref (Some l);
  _ ← dcheckS (allocated r);
  _ ← dcheckS (rsize r =? size);
  _ ← update (Some l) (with_allocated false);
  l ← (match prev r with
       | Some p =>
           '(_, rp) ← deref (Some p);
           if negb (allocated rp) then
             _ ← update (Some p) (with_size (u64 (rsize rp + rsize r)));
             _ ← remove (Some l);
             _ ← put_free (Some l);
             mret p
           else mret l
       | None => mret l
       end);
  '(_, r) ← deref (Some l);
  match next r with
  | Some n =>
      '(_, rn) ← deref (Some n);
      if negb (allocated rn) then
        _ ← update (Some n) (with_offset (roffset r));
        _ ← update (Some n) (with_size (u64 (rsize rn + rsize r)));
        s ← getS;
        _ ← whenS (bool_decide (active_ s = Some l)) (modS (set_active (Some n)));
        _ ← remove (Some l);
        _ ← put_free (Some l);
        mret true
      else mret true
  | None => mret true
  end.

(** [Release] *)
Definition Release (size offset : Z) (begin_ end_ : ptr) : prog state bool := λ s,
  (_ ← dcheckS (bool_decide (begin_ ≠ None) || bool_decide (end_ = None));
   for_region (heap_fuel s) begin_ end_ (λ r, roffset r =? offset) (release_at size)) s.

(** [ReleaseRegion] *)
Definition ReleaseRegion (size offset : Z) : prog state unit :=
  s ← getS;
  '(_, a) ← deref (active_ s);
  released ← Release size offset (next a) None;
  released ← (if (released : bool) then mret true
              else s ← getS; Release size offset (front_ s) (active_ s));
  dcheckS released.


End WithBuild.

(** ** What the list holds *)

(** A region without its links. *)
Record areg := mk_areg { aalloc : bool; asize : Z; aoff : Z }.
Abbreviation node := (prod positive areg).

Definition mkr (a : areg) (p n : ptr) : region := mk_region (aalloc a) (asize a) (aoff a) p n.
Definition data (r : region) : areg := mk_areg (allocated r) (rsize r) (roffset r).

(** The regions of the list, front to back. *)
Fixpoint walk (fuel : nat) (h : gmap loc region) (p : ptr) : list areg :=
  match fuel, p with
  | S fuel, Some l =>
      match h !! l with
      | Some r => data r :: walk fuel h (next r)
      | None => []
      end
  | _, _ => []
  end.
Definition regions (s : state) : list areg := walk (heap_fuel s) (heap s) (front_ s).

(** The live allocations: offset and size. *)
Definition live_of (l : list areg) : list (Z * Z) :=
  omap (λ a, if aalloc a then Some (aoff a, asize a) else None) l.
Definition live (s : state) : list (Z * Z) := live_of (regions s).

(** Two ranges of bytes have no byte in common. *)
Definition disjoint (x y : Z * Z) : Prop := x.1 + x.2 ≤ y.1 ∨ y.1 + y.2 ≤ x.1.

(** [n] contiguous bytes of the buffer are used by no live allocation. *)
Definition room (s : state) (n : Z) : Prop :=
  ∃ o, 0 ≤ o ∧ o + n ≤ size_ s ∧ Forall (disjoint (o, n)) (live s).

(** ** Shape of the heap *)

Definition head_or (ns : list node) (d : ptr) : ptr :=
  match ns with [] => d | x :: _ => Some x.1 end.
Fixpoint last_or (d : ptr) (ns : list node) : ptr :=
  match ns with [] => d | x :: ns => last_or (Some x.1) ns end.
Abbreviation locs ns := (fst <$> (ns : list node)).

(** The nodes [ns] are linked both ways between [pv] and [nx]. *)
Fixpoint dseg (h : gmap loc region) (pv : ptr) (ns : list node) (nx : ptr) : Prop :=
  match ns with
  | [] => True
  | x :: ns => h !! x.1 = Some (mkr x.2 pv (head_or ns nx)) ∧ dseg h (Some x.1) ns nx
  end.

(** The lookaside list, linked by [next]. *)
Fixpoint lseg (h : gmap loc region) (p : ptr) (fl : list loc) : Prop :=
  match fl with
  | [] => p = None
  | l :: fl => p = Some l ∧ ∃ r, h !! l = Some r ∧ lseg h (next r) fl
  end.

(** [s] holds the list [ns], the lookaside list [fl] and, during an operation,
    the structures [lo] that are in neither; nothing else is in the heap. *)
Record Rep (sz : Z) (ac : ptr) (ns : list node) (fl : list loc) (lo : list node)
    (s : state) : Prop := {
  rep_size : size_ s = sz;
  rep_active : active_ s = ac;
  rep_front : front_ s = head_or ns None;
  rep_back : back_ s = last_or None ns;
  rep_list : dseg (heap s) None ns None;
  rep_free : lseg (heap s) (free_ s) fl;
  rep_loose : Forall (λ x, ∃ p n, heap s !! x.1 = Some (mkr x.2 p n)) lo;
  rep_nodup : NoDup (locs ns ++ fl ++ locs lo);
  rep_dom : dom (heap s) = list_to_set (locs ns ++ fl ++ locs lo);
}.

End FifoAllocator.
