(* ===== verification/FifoLists.v ===== *)
(** The list operations of [FifoAllocator] on the heap: every primitive of the
    class, run from a heap that represents a list of regions ([Rep]), returns and
    leaves a heap that represents the list with the change made. *)

From S2P Require Import Prelude FifoAllocator.

Module FifoLists.
Import FifoAllocator.

(** Proves [l ∉ xs], [l ≠ l'], [NoDup xs] or a contradiction from a
    duplicate-free list that has these elements. *)
Ltac solve_mem := rewrite ?elem_of_app, ?elem_of_cons; solve [tauto].
Ltac solve_nodup :=
  repeat match goal with
  | H : NoDup _ |- _ =>
      revert H; rewrite ?fmap_app, ?fmap_cons, ?fmap_nil, ?NoDup_app, ?NoDup_cons; cbn [fst]
  | H : _ ∈ _ |- _ => revert H
  | H : _ ∉ _ |- _ => revert H
  end;
  clear; rewrite ?fmap_app, ?fmap_cons, ?fmap_nil, ?NoDup_app, ?NoDup_cons; cbn [fst];
  rewrite ?elem_of_app, ?elem_of_cons, ?elem_of_nil;
  intros; destruct_and?; subst; repeat split; intros; try assumption; try intro;
  rewrite ?elem_of_app, ?elem_of_cons, ?elem_of_nil in *;
  destruct_or?; subst; try done; try tauto;
  match goal with
  | H : ∀ x, x ∈ _ → _, Hy : ?y ∈ _ |- _ => exfalso; apply (H y); solve_mem
  | H : ∀ x, x ∈ _ → _, y : node |- _ => exfalso; apply (H y.1); solve_mem
  | H : ∀ x, x ∈ _ → _, y : positive |- _ => exfalso; apply (H y); solve_mem
  end.

(** ** Segments *)

Lemma head_or_app xs ys d : head_or (xs ++ ys) d = head_or xs (head_or ys d).
Proof. by destruct xs. Qed.

Lemma last_or_app d xs ys : last_or d (xs ++ ys) = last_or (last_or d xs) ys.
Proof. revert d. induction xs; cbn; auto. Qed.

Lemma last_or_snoc d xs x : last_or d (xs ++ [x]) = Some x.1.
Proof. by rewrite last_or_app. Qed.

Lemma last_or_elem d xs l : last_or d xs = Some l → d = Some l ∨ l ∈ locs xs.
Proof.
  revert d. induction xs as [|x xs IH]; cbn; intros d H; [by left|].
  destruct (IH _ H) as [[= <-]|]; right; set_solver.
Qed.

Lemma head_or_elem xs d l : head_or xs d = Some l → d = Some l ∨ l ∈ locs xs.
Proof. destruct xs; cbn; [by left|]. intros [= <-]. right. set_solver. Qed.

Lemma head_or_in xs ys d l : xs ≠ [] → head_or (xs ++ ys) d = Some l → l ∈ locs xs.
Proof. destruct xs; cbn; [done|]. intros _ [= <-]. set_solver. Qed.

Lemma last_or_in d xs ys l : ys ≠ [] → last_or d (xs ++ ys) = Some l → l ∈ locs ys.
Proof.
  intros Hys. rewrite last_or_app. destruct ys as [|y ys]; [done|]. cbn.
  intros [[= ->]|]%last_or_elem; set_solver.
Qed.

Lemma dseg_app h pv xs ys nx :
  dseg h pv (xs ++ ys) nx ↔ dseg h pv xs (head_or ys nx) ∧ dseg h (last_or pv xs) ys nx.
Proof.
  revert pv. induction xs as [|x xs IH]; cbn; intros pv; [tauto|].
  rewrite IH, head_or_app. tauto.
Qed.

Lemma dseg_ext h h' pv ns nx :
  (∀ l, l ∈ locs ns → h' !! l = h !! l) → dseg h pv ns nx → dseg h' pv ns nx.
Proof.
  revert pv. induction ns as [|x ns IH]; cbn; intros pv Hh; [done|].
  intros [Hx Hns]. split.
  - rewrite Hh; [done | set_solver].
  - apply IH; [|done]. intros l Hl. apply Hh. set_solver.
Qed.

Lemma lseg_ext h h' p fl :
  (∀ l, l ∈ fl → h' !! l = h !! l) → lseg h p fl → lseg h' p fl.
Proof.
  revert p. induction fl as [|l fl IH]; cbn; intros p Hh; [done|].
  intros (-> & r & Hr & Hfl). split; [done|]. exists r. split.
  - rewrite Hh; [done | set_solver].
  - apply IH; [|done]. intros l' Hl. apply Hh. set_solver.
Qed.

Lemma dseg_lookup h pv xs x ys nx :
  dseg h pv (xs ++ x :: ys) nx → h !! x.1 = Some (mkr x.2 (last_or pv xs) (head_or ys nx)).
Proof. rewrite dseg_app. by intros [_ [? _]]. Qed.

(** Relinking the end of a segment touches its last node only, relinking its
    start its first node only. *)
Lemma dseg_relink_next h pv xs x nx r :
  x.1 ∉ locs xs → r = mkr x.2 (last_or pv xs) nx →
  ∀ nx', dseg h pv (xs ++ [x]) nx' → dseg (<[x.1 := r]> h) pv (xs ++ [x]) nx.
Proof.
  intros Hx -> nx'. rewrite !dseg_app. cbn. intros [Hxs _]. split_and!; [|by simplify_map_eq|done].
  eapply dseg_ext; [|done]. intros l Hl. rewrite lookup_insert_ne; [done|]. intros <-. done.
Qed.

Lemma dseg_relink_prev h pv y ys nx r :
  y.1 ∉ locs ys → r = mkr y.2 pv (head_or ys nx) →
  ∀ pv', dseg h pv' (y :: ys) nx → dseg (<[y.1 := r]> h) pv (y :: ys) nx.
Proof.
  intros Hy -> pv'. cbn. intros [_ Hys]. split; [by simplify_map_eq|].
  eapply dseg_ext; [|done]. intros l Hl. rewrite lookup_insert_ne; [done|]. intros <-. done.
Qed.

Lemma loose_ext (h h' : gmap loc region) (lo : list node) :
  (∀ l, l ∈ locs lo → h' !! l = h !! l) →
  Forall (λ x, ∃ p n, h !! x.1 = Some (mkr x.2 p n)) lo →
  Forall (λ x, ∃ p n, h' !! x.1 = Some (mkr x.2 p n)) lo.
Proof.
  intros Hh Hlo. rewrite Forall_forall in *. intros x Hx.
  destruct (Hlo x Hx) as (p & n & E). exists p, n. rewrite Hh; [done|].
  apply list_elem_of_fmap. eauto.
Qed.

Lemma dseg_insert_ne h l r pv ns nx :
  l ∉ locs ns → dseg h pv ns nx → dseg (<[l := r]> h) pv ns nx.
Proof.
  intros Hl. apply dseg_ext. intros l' Hl'. rewrite lookup_insert_ne; [done|]. by intros <-.
Qed.

Lemma lseg_insert_ne h l r p fl :
  l ∉ fl → lseg h p fl → lseg (<[l := r]> h) p fl.
Proof.
  intros Hl. apply lseg_ext. intros l' Hl'. rewrite lookup_insert_ne; [done|]. by intros <-.
Qed.

Lemma loose_insert_ne (h : gmap loc region) l r (lo : list node) :
  l ∉ locs lo →
  Forall (λ x, ∃ p n, h !! x.1 = Some (mkr x.2 p n)) lo →
  Forall (λ x, ∃ p n, <[l := r]> h !! x.1 = Some (mkr x.2 p n)) lo.
Proof.
  intros Hl. apply loose_ext. intros l' Hl'. rewrite lookup_insert_ne; [done|]. by intros <-.
Qed.

Lemma data_mkr a p n : data (mkr a p n) = a.
Proof. by destruct a. Qed.

Lemma walk_dseg h pv ns fuel :
  dseg h pv ns None → (length ns < fuel)%nat → walk fuel h (head_or ns None) = snd <$> ns.
Proof.
  revert pv fuel. induction ns as [|x ns IH]; intros pv [|fuel] Hd Hf; cbn in *; try done; [lia|].
  destruct Hd as [Hx Hns]. rewrite Hx. cbn. rewrite data_mkr. f_equal.
  eapply IH; [done|lia].
Qed.

(** ** Represented states *)

Section Representation.
Context (sz : Z).

Lemma rep_heap_size ac ns fl lo s :
  Rep sz ac ns fl lo s → size (heap s) = (length ns + length fl + length lo)%nat.
Proof.
  intros R. rewrite <- size_dom, (rep_dom _ _ _ _ _ _ R), size_list_to_set by apply R.
  rewrite !length_app, !length_fmap. lia.
Qed.

Lemma rep_regions ac ns fl lo s : Rep sz ac ns fl lo s → regions s = snd <$> ns.
Proof.
  intros R. unfold regions. rewrite (rep_front _ _ _ _ _ _ R).
  eapply walk_dseg; [apply R|]. unfold heap_fuel. rewrite (rep_heap_size _ _ _ _ _ R). lia.
Qed.

Lemma rep_lookup ac xs x ys fl lo s :
  Rep sz ac (xs ++ x :: ys) fl lo s →
  heap s !! x.1 = Some (mkr x.2 (last_or None xs) (head_or ys None)).
Proof. intros R. eapply dseg_lookup, R. Qed.

(** Another order of the same structures. *)
Lemma rep_intro ac ns fl lo ac' ns' fl' lo' s s' :
  Rep sz ac ns fl lo s → active_ s' = ac' →
  locs ns' ++ fl' ++ locs lo' ≡ₚ locs ns ++ fl ++ locs lo →
  size_ s' = sz → dom (heap s') = dom (heap s) →
  front_ s' = head_or ns' None → back_ s' = last_or None ns' →
  dseg (heap s') None ns' None → lseg (heap s') (free_ s') fl' →
  Forall (λ x, ∃ p n, heap s' !! x.1 = Some (mkr x.2 p n)) lo' →
  Rep sz ac' ns' fl' lo' s'.
Proof.
  intros R Ha HP Hz Hd Hf Hb Hl Hfl Hlo. split; try done.
  - rewrite HP. apply R.
  - rewrite HP, Hd. apply R.
Qed.

(** Setting the data of a region of the list. *)
Lemma rep_update_node ac xs l a a' ys fl lo s :
  Rep sz ac (xs ++ (l, a) :: ys) fl lo s →
  Rep sz ac (xs ++ (l, a') :: ys) fl lo
    (set_heap (<[l := mkr a' (last_or None xs) (head_or ys None)]> (heap s)) s).
Proof.
  intros R. pose proof (rep_lookup _ _ _ _ _ _ _ R) as Hl. cbn [fst snd] in Hl.
  pose proof (rep_nodup _ _ _ _ _ _ R) as Hnd.
  pose proof (rep_list _ _ _ _ _ _ R) as Hd.
  eapply rep_intro; [exact R|apply R|..]; cbn.
  - by rewrite !fmap_app.
  - apply R.
  - apply dom_insert_lookup_L. by rewrite Hl.
  - rewrite (rep_front _ _ _ _ _ _ R). by destruct xs.
  - rewrite (rep_back _ _ _ _ _ _ R). by rewrite !last_or_app.
  - apply dseg_app in Hd as [H1 H2]. apply dseg_app. cbn in *. split_and!.
    + apply dseg_insert_ne; [solve_nodup|done].
    + by simplify_map_eq.
    + apply dseg_insert_ne; [solve_nodup|tauto].
  - apply lseg_insert_ne; [solve_nodup|apply R].
  - apply loose_insert_ne; [solve_nodup|apply R].
Qed.

(** ** Running the primitives *)

Lemma deref_run s l r : heap s !! l = Some r → deref (Some l) s = Ok ((l, r), s).
Proof. intros Hl. unfold deref. by rewrite Hl. Qed.

Lemma runs_deref {A} (k : loc * region → prog state A) s l r Q :
  heap s !! l = Some r → runs (k (l, r)) s Q → runs (deref (Some l) ≫= k) s Q.
Proof.
  intros Hl Hk. unfold runs, mbind, prog_bind, deref. rewrite Hl. exact Hk.
Qed.

Lemma runs_update {A} g (k : unit → prog state A) s l r Q :
  heap s !! l = Some r →
  runs (k tt) (set_heap (<[l := g r]> (heap s)) s) Q → runs (update (Some l) g ≫= k) s Q.
Proof.
  intros Hl Hk. unfold runs, mbind, prog_bind, update, deref.
  unfold mbind, prog_bind. rewrite Hl. exact Hk.
Qed.

Lemma runs_update_last g s l r (Q : unit → state → Prop) :
  heap s !! l = Some r →
  Q tt (set_heap (<[l := g r]> (heap s)) s) → runs (update (Some l) g) s Q.
Proof.
  intros Hl HQ. exists tt. eexists. split; [|exact HQ].
  unfold update, deref, mbind, prog_bind. by rewrite Hl.
Qed.

Context `{Build}.

Lemma last_snoc_cases (xs : list node) : xs = [] ∨ ∃ ys y, xs = ys ++ [y].
Proof. induction xs as [|x xs _] using rev_ind; eauto. Qed.

Lemma locs_app xs ys : locs (xs ++ ys) = locs xs ++ locs ys.
Proof. apply fmap_app. Qed.

(** Relinking a neighbour, when there is one. *)
Definition relink_next (p nx : ptr) (h : gmap loc region) : gmap loc region :=
  match p with Some p => alter (with_next nx) p h | None => h end.
Definition relink_prev (p pv : ptr) (h : gmap loc region) : gmap loc region :=
  match p with Some p => alter (with_prev pv) p h | None => h end.

Lemma insert_alter (g : region → region) (h : gmap loc region) l r :
  h !! l = Some r → <[l := g r]> h = alter g l h.
Proof.
  intros Hl. apply map_eq. intros k. destruct (decide (k = l)) as [->|].
  - rewrite lookup_insert_eq, lookup_alter_eq, Hl. done.
  - by rewrite lookup_insert_ne, lookup_alter_ne.
Qed.

Lemma relink_next_ne p nx h l : p ≠ Some l → relink_next p nx h !! l = h !! l.
Proof. destruct p; cbn; intros; [apply lookup_alter_ne; congruence|done]. Qed.
Lemma relink_prev_ne p pv h l : p ≠ Some l → relink_prev p pv h !! l = h !! l.
Proof. destruct p; cbn; intros; [apply lookup_alter_ne; congruence|done]. Qed.

Lemma relink_dom p nx q pv h : dom (relink_prev q pv (relink_next p nx h)) = dom h.
Proof. destruct p, q; cbn; by rewrite ?dom_alter_L. Qed.

Lemma dseg_relinked_next h pv xs nx nx' :
  NoDup (locs xs) → dseg h pv xs nx' → dseg (relink_next (last_or None xs) nx h) pv xs nx.
Proof.
  destruct (last_snoc_cases xs) as [->|(ys & y & ->)]; [done|].
  rewrite last_or_snoc, !dseg_app. cbn. intros Hnd [H1 [H2 _]]. split_and!; [| |done].
  - eapply dseg_ext; [|done]. intros l Hl. apply lookup_alter_ne. intros <-.
    solve_nodup.
  - by rewrite lookup_alter_eq, H2.
Qed.

Lemma dseg_relinked_prev h pv pv' ys nx :
  NoDup (locs ys) → dseg h pv' ys nx → dseg (relink_prev (head_or ys None) pv h) pv ys nx.
Proof.
  destruct ys as [|y ys]; [done|]. cbn. intros Hnd [H1 H2]. split.
  - by rewrite lookup_alter_eq, H1.
  - eapply dseg_ext; [|done]. intros l Hl. apply lookup_alter_ne. intros <-.
    solve_nodup.
Qed.

(** Relinking two neighbours joins their segments, and leaves every other
    structure as it is. *)
Definition joined (xs ys : list node) (h : gmap loc region) : gmap loc region :=
  relink_prev (head_or ys None) (last_or None xs)
    (relink_next (last_or None xs) (head_or ys None) h).

Lemma joined_ne xs ys h l :
  l ∉ locs (xs ++ ys) → joined xs ys h !! l = h !! l.
Proof.
  rewrite locs_app. intros Hl. unfold joined. rewrite relink_prev_ne, relink_next_ne; [done|..].
  - intros [|]%last_or_elem; [done|set_solver].
  - intros [|]%head_or_elem; [done|set_solver].
Qed.

Lemma dseg_joined h xs ys nx pv :
  NoDup (locs (xs ++ ys)) → dseg h None xs nx → dseg h pv ys None →
  dseg (joined xs ys h) None (xs ++ ys) None.
Proof.
  rewrite locs_app. intros Hnd Hxs Hys. unfold joined. apply dseg_app. split.
  - eapply dseg_ext; [|eapply dseg_relinked_next; [solve_nodup|done]].
    intros l Hl. apply relink_prev_ne. intros [|]%head_or_elem; [done|].
    solve_nodup.
  - eapply dseg_relinked_prev; [solve_nodup|]. eapply dseg_ext; [|done].
    intros l Hl. apply relink_next_ne. intros [|]%last_or_elem; [done|].
    solve_nodup.
Qed.

Lemma rep_unlinked ac xs l a ys fl lo s s' :
  Rep sz ac (xs ++ (l, a) :: ys) fl lo s →
  size_ s' = size_ s → active_ s' = active_ s → free_ s' = free_ s →
  heap s' = joined xs ys (heap s) →
  front_ s' = head_or (xs ++ ys) None → back_ s' = last_or None (xs ++ ys) →
  Rep sz ac (xs ++ ys) fl ((l, a) :: lo) s'.
Proof.
  intros R Hz Ha Hfr Hh Hf Hb. pose proof (rep_nodup _ _ _ _ _ _ R) as Hnd.
  pose proof (rep_lookup _ _ _ _ _ _ _ R) as Hl. cbn [fst snd] in Hl.
  pose proof (rep_list _ _ _ _ _ _ R) as Hd. apply dseg_app in Hd as [Hxs [_ Hys]].
  eapply rep_intro; [exact R|rewrite Ha; apply R|..]; rewrite ?Hh, ?Hfr.
  - rewrite !locs_app. cbn. solve_Permutation.
  - rewrite Hz. apply R.
  - apply relink_dom.
  - done.
  - done.
  - eapply dseg_joined; [rewrite locs_app; solve_nodup|done|done].
  - eapply lseg_ext; [|apply R]. intros k Hk. apply joined_ne. rewrite locs_app.
    solve_nodup.
  - constructor.
    + cbn. rewrite joined_ne; [eauto|]. rewrite locs_app. solve_nodup.
    + eapply loose_ext; [|apply R]. intros k Hk. apply joined_ne. rewrite locs_app. solve_nodup.
Qed.

(** [remove] *)
Lemma remove_runs ac xs l a ys fl lo s :
  Rep sz ac (xs ++ (l, a) :: ys) fl lo s →
  runs (remove (Some l)) s (λ _, Rep sz ac (xs ++ ys) fl ((l, a) :: lo)).
Proof.
  intros R. pose proof (rep_nodup _ _ _ _ _ _ R) as Hnd.
  pose proof (rep_front _ _ _ _ _ _ R) as Hf. pose proof (rep_back _ _ _ _ _ _ R) as Hb.
  pose proof (rep_lookup _ _ _ _ _ _ _ R) as Hl. cbn [fst snd] in Hl.
  unfold remove. apply runs_dcheck; [done|]. apply runs_get.
  eapply (runs_bind _ _ _ (λ _ s', s' =
    set_front (head_or (xs ++ ys) None)
      (set_heap (relink_next (last_or None xs) (head_or ys None) (heap s)) s))).
  - destruct (last_snoc_cases xs) as [->|(xs' & p & ->)].
    + rewrite decide_True by done.
      eapply runs_deref; [done|]. apply runs_dcheck; [done|]. apply runs_mod_last.
      cbn. by destruct s.
    + rewrite decide_False.
      2:{ rewrite Hf. intros Hin%head_or_in; [|by destruct xs']. solve_nodup. }
      rewrite last_or_snoc in Hl. rewrite <- (assoc_L (++)) in R.
      pose proof (rep_lookup _ _ _ _ _ _ _ R) as Hp. cbn [fst snd head_or app] in Hp.
      eapply runs_deref; [done|]. apply runs_dcheck; [done|]. cbn [prev mkr].
      eapply runs_deref; [done|]. apply runs_dcheck; [by apply bool_decide_eq_true|].
      eapply runs_update_last; [done|]. rewrite insert_alter by done.
      rewrite last_or_snoc, <- (assoc_L (++)). destruct s; cbn in *. rewrite Hf. by destruct xs'.
  - intros [] s1 ->. apply runs_get. cbn [back_ set_front set_heap].
    rewrite Hb. set (h1 := relink_next _ _ _).
    assert (Hl1 : h1 !! l = heap s !! l).
    { apply relink_next_ne. intros [|Hin]%last_or_elem; [done|]. solve_nodup. }
    rewrite <- Hl1 in Hl. destruct ys as [|n ys].
    + rewrite decide_True by apply last_or_snoc.
      eapply runs_deref; [done|]. apply runs_dcheck; [done|]. apply runs_mod_last.
      eapply (rep_unlinked _ _ _ _ []); [exact R|done..|]. cbn. by rewrite app_nil_r.
    + rewrite decide_False.
      2:{ replace (xs ++ (l, a) :: n :: ys) with ((xs ++ [(l, a)]) ++ n :: ys)
            by by rewrite <- (assoc_L (++)).
          intros Hin%last_or_in; [|done]. solve_nodup. }
      eapply runs_deref; [done|]. apply runs_dcheck; [done|]. cbn [next mkr head_or].
      pose proof (rep_list _ _ _ _ _ _ R) as Hd. apply dseg_app in Hd as [_ (_ & Hn & _)].
      assert (Hn1 : h1 !! n.1 = heap s !! n.1).
      { apply relink_next_ne. intros [|Hin]%last_or_elem; [done|]. solve_nodup. }
      rewrite <- Hn1 in Hn.
      eapply runs_deref; [done|]. apply runs_dcheck; [by apply bool_decide_eq_true|].
      eapply runs_update_last; [done|]. rewrite insert_alter by done.
      eapply rep_unlinked; [exact R|done..|]. cbn. rewrite Hb, !last_or_app. done.
Qed.

(** [put_free] *)
Lemma put_free_runs ac ns l a fl lo s :
  Rep sz ac ns fl ((l, a) :: lo) s →
  runs (put_free (Some l)) s (λ _, Rep sz ac ns (l :: fl) lo).
Proof.
  intros R. pose proof (rep_nodup _ _ _ _ _ _ R) as Hnd.
  pose proof (rep_loose _ _ _ _ _ _ R) as Hlo. inversion_clear Hlo as [|?? (p & n & Hl) Hlo'].
  cbn [fst snd] in Hl. unfold put_free. apply runs_get.
  eapply runs_update; [done|]. apply runs_mod_last.
  eapply rep_intro; [exact R|apply R|..]; cbn.
  - solve_Permutation.
  - apply R.
  - apply dom_insert_lookup_L. by rewrite Hl.
  - apply R.
  - apply R.
  - apply dseg_insert_ne; [solve_nodup|apply R].
  - split; [done|]. eexists. split; [by simplify_map_eq|]. cbn.
    apply lseg_insert_ne; [solve_nodup|apply R].
  - apply loose_insert_ne; [solve_nodup|done].
Qed.

Lemma set_heap_set_heap h h' s : set_heap h (set_heap h' s) = set_heap h s.
Proof. done. Qed.

(** [get_free] *)
Lemma fresh_loc_fresh (h : gmap loc region) : h !! fresh_loc h = None.
Proof.
  assert (Hlt : ∀ l, is_Some (h !! l) → (l < fresh_loc h)%positive).
  { unfold fresh_loc. apply (map_fold_weak_ind
      (λ m h, ∀ l, is_Some (h !! l) → (l < m)%positive)).
    - intros l. rewrite lookup_empty. by intros [? ?].
    - intros i r h' m Hi IH l. destruct (decide (l = i)) as [->|].
      + intros _. lia.
      + rewrite lookup_insert_ne by done. intros ?%IH. lia. }
  destruct (h !! fresh_loc h) eqn:E; [|done]. specialize (Hlt (fresh_loc h)).
  rewrite E in Hlt. assert (fresh_loc h < fresh_loc h)%positive by eauto. lia.
Qed.

Lemma rep_new ac ns fl lo s a :
  Rep sz ac ns fl lo s →
  Rep sz ac ns fl ((fresh_loc (heap s), a) :: lo)
    (set_heap (<[fresh_loc (heap s) := mkr a None None]> (heap s)) s).
Proof.
  intros R. assert (Hfr : fresh_loc (heap s) ∉ locs ns ++ fl ++ locs lo).
  { intros Hin. assert (Hd : fresh_loc (heap s) ∈ dom (heap s)).
    { rewrite (rep_dom _ _ _ _ _ _ R). by apply elem_of_list_to_set. }
    apply elem_of_dom in Hd. rewrite fresh_loc_fresh in Hd. by destruct Hd. }
  pose proof (rep_nodup _ _ _ _ _ _ R) as Hnd.
  assert (HP : locs ns ++ fl ++ locs ((fresh_loc (heap s), a) :: lo)
               ≡ₚ fresh_loc (heap s) :: locs ns ++ fl ++ locs lo).
  { rewrite fmap_cons. cbn [fst]. solve_Permutation. }
  rewrite !elem_of_app in Hfr.
  destruct R as [Hz Ha Hf Hb Hd Hfl Hlo _ Hdom]. split; cbn; try done.
  - apply dseg_insert_ne; [tauto|done].
  - apply lseg_insert_ne; [tauto|done].
  - constructor; [exists None, None; by simplify_map_eq|]. apply loose_insert_ne; [tauto|done].
  - rewrite HP. constructor; [rewrite !elem_of_app; tauto|done].
  - rewrite HP, dom_insert_L, Hdom. done.
Qed.

Lemma rep_loose_lookup ac ns fl l a lo s :
  Rep sz ac ns fl ((l, a) :: lo) s → ∃ p n, heap s !! l = Some (mkr a p n).
Proof. intros R. pose proof (rep_loose _ _ _ _ _ _ R) as Hlo. by inversion Hlo. Qed.

Lemma rep_update_loose ac ns fl l a a' p n lo s :
  Rep sz ac ns fl ((l, a) :: lo) s →
  Rep sz ac ns fl ((l, a') :: lo) (set_heap (<[l := mkr a' p n]> (heap s)) s).
Proof.
  intros R. pose proof (rep_nodup _ _ _ _ _ _ R) as Hnd.
  destruct (rep_loose_lookup _ _ _ _ _ _ _ R) as (p0 & n0 & Hl).
  pose proof (rep_loose _ _ _ _ _ _ R) as Hlo. inversion_clear Hlo as [|??? Hlo'].
  eapply rep_intro; [exact R|apply R|..]; cbn; try apply R; try done.
  - apply dom_insert_lookup_L. by rewrite Hl.
  - apply dseg_insert_ne; [solve_nodup|apply R].
  - apply lseg_insert_ne; [solve_nodup|apply R].
  - constructor; [exists p, n; by simplify_map_eq|]. apply loose_insert_ne; [solve_nodup|done].
Qed.

Lemma rep_pop_free ac ns l fl lo s :
  Rep sz ac ns (l :: fl) lo s →
  ∃ r, heap s !! l = Some r ∧ free_ s = Some l ∧
       Rep sz ac ns fl ((l, data r) :: lo) (set_free (next r) s).
Proof.
  intros R. destruct (rep_free _ _ _ _ _ _ R) as (Hfr & r & Hl & Hfl).
  exists r. split_and!; [done..|].
  eapply rep_intro; [exact R|apply R|..]; cbn; try apply R; try done.
  - solve_Permutation.
  - constructor; [|apply R]. exists (prev r), (next r). cbn. rewrite Hl. by destruct r.
Qed.

Lemma get_free_runs ac ns fl lo s al z o :
  0 ≤ z ≤ sz → 0 ≤ o ≤ sz - z → sz < 2 ^ 64 → Rep sz ac ns fl lo s →
  runs (get_free al z o) s (λ l s', ∃ fl', Rep sz ac ns fl' ((l, mk_areg al z o) :: lo) s').
Proof.
  intros Hz Ho Hsz R. unfold get_free. apply runs_get.
  rewrite (rep_size _ _ _ _ _ _ R). apply runs_dcheck; [lia|].
  rewrite uwrap_small by (unfold is_u; lia). apply runs_dcheck; [lia|].
  eapply (runs_bind _ _ _ (λ l s', ∃ a fl', Rep sz ac ns fl' ((l, a) :: lo) s')).
  - destruct fl as [|l fl].
    + rewrite (rep_free _ _ _ _ _ _ R). unfold new_region. eexists _, _. split; [done|].
      exists (mk_areg false 0 0), []. by apply rep_new.
    + destruct (rep_pop_free _ _ _ _ _ _ R) as (r & Hl & Hfr & R'). rewrite Hfr.
      eapply runs_deref; [done|]. apply runs_mod, runs_ret. eauto.
  - clear. intros l s (a & fl & R).
    destruct (rep_loose_lookup _ _ _ _ _ _ _ R) as (p & n & Hl).
    eapply runs_update; [done|]. eapply runs_update; [by simplify_map_eq|].
    eapply runs_update; [by simplify_map_eq|]. apply runs_ret. exists fl. cbn.
    rewrite !set_heap_set_heap, !insert_insert_eq.
    eapply (rep_update_loose _ _ _ _ _ (mk_areg al z o)). done.
Qed.

(** [insert_before] *)
Lemma rep_linked ac xs l a k b ys fl lo s s' :
  Rep sz ac (xs ++ (k, b) :: ys) fl ((l, a) :: lo) s →
  size_ s' = size_ s → active_ s' = active_ s → free_ s' = free_ s →
  heap s' = relink_next (last_or None xs) (Some l)
    (<[l := mkr a (last_or None xs) (Some k)]> (alter (with_prev (Some l)) k (heap s))) →
  front_ s' = head_or (xs ++ [(l, a)]) None → back_ s' = back_ s →
  Rep sz ac (xs ++ (l, a) :: (k, b) :: ys) fl lo s'.
Proof.
  intros R Hz Ha Hfr Hh Hf Hb. pose proof (rep_nodup _ _ _ _ _ _ R) as Hnd.
  destruct (rep_loose_lookup _ _ _ _ _ _ _ R) as (p0 & n0 & Hl).
  pose proof (rep_loose _ _ _ _ _ _ R) as Hlo. inversion_clear Hlo as [|??? Hlo'].
  pose proof (rep_list _ _ _ _ _ _ R) as Hd. apply dseg_app in Hd as [Hxs Hys].
  assert (Hne : ∀ j, j ∉ locs xs → j ≠ l → j ≠ k → heap s' !! j = heap s !! j).
  { intros j Hj Hjl Hjk. rewrite Hh, relink_next_ne.
    - by rewrite lookup_insert_ne, lookup_alter_ne.
    - by intros [|]%last_or_elem. }
  eapply rep_intro; [exact R|rewrite Ha; apply R|..]; rewrite ?Hfr.
  - rewrite !locs_app. cbn. solve_Permutation.
  - rewrite Hz. apply R.
  - rewrite Hh. transitivity (dom (alter (with_prev (Some l)) k (heap s))).
    + transitivity (dom (<[l := mkr a (last_or None xs) (Some k)]>
        (alter (with_prev (Some l)) k (heap s)))); [apply (relink_dom _ _ None None)|].
      apply dom_insert_lookup_L. rewrite lookup_alter_ne; [by rewrite Hl|].
      intros ->. solve_nodup.
    + apply dom_alter_L.
  - rewrite Hf. by rewrite !head_or_app.
  - rewrite Hb, (rep_back _ _ _ _ _ _ R), !last_or_app. done.
  - apply dseg_app. split.
    + rewrite Hh. eapply dseg_relinked_next; [solve_nodup|].
      eapply dseg_ext; [|exact Hxs]. intros j Hj.
      rewrite lookup_insert_ne, lookup_alter_ne; [done|..]; intros <-; solve_nodup.
    + cbn [dseg fst snd head_or] in *. destruct Hys as [Hk Hys]. split_and!.
      * rewrite Hh, relink_next_ne; [by rewrite lookup_insert_eq|].
        intros [|]%last_or_elem; [done|]. solve_nodup.
      * rewrite Hh, relink_next_ne; [|intros [|]%last_or_elem; [done|]; solve_nodup].
        rewrite lookup_insert_ne, lookup_alter_eq, Hk; [done|]. intros ->. solve_nodup.
      * eapply dseg_ext; [|exact Hys]. intros j Hj. apply Hne; solve_nodup.
  - eapply lseg_ext; [|apply R]. intros j Hj. apply Hne; solve_nodup.
  - eapply loose_ext; [|exact Hlo']. intros j Hj. apply Hne; solve_nodup.
Qed.

Lemma insert_before_runs ac xs l a k b ys fl lo s :
  Rep sz ac (xs ++ (k, b) :: ys) fl ((l, a) :: lo) s →
  runs (insert_before (Some l) (Some k)) s
    (λ _, Rep sz ac (xs ++ (l, a) :: (k, b) :: ys) fl lo).
Proof.
  intros R. pose proof (rep_nodup _ _ _ _ _ _ R) as Hnd.
  destruct (rep_loose_lookup _ _ _ _ _ _ _ R) as (p0 & n0 & Hl).
  pose proof (rep_lookup _ _ _ _ _ _ _ R) as Hk. cbn [fst snd] in Hk.
  pose proof (rep_front _ _ _ _ _ _ R) as Hf.
  assert (Hlk : l ≠ k) by (intros ->; solve_nodup).
  unfold insert_before. do 2 (apply runs_dcheck; [done|]).
  eapply runs_deref; [done|]. eapply runs_update; [done|].
  eapply runs_update; [cbn; by rewrite lookup_insert_ne|].
  eapply runs_update; [cbn; rewrite lookup_insert_ne by done; by rewrite lookup_insert_eq|].
  apply runs_get. eapply runs_deref; [cbn; by rewrite lookup_insert_eq|].
  cbn [heap set_heap front_ prev with_next with_prev mkr].
  assert (Hheap : ∀ r, <[l := r]> (<[k := with_prev (Some l) (mkr b (last_or None xs) (head_or ys None))]>
      (<[l := with_prev (last_or None xs) (mkr a p0 n0)]> (heap s)))
    = <[l := r]> (alter (with_prev (Some l)) k (heap s))).
  { intros r. rewrite (insert_insert_ne _ k l) by done. rewrite insert_insert_eq.
    by rewrite (insert_alter _ _ _ _ Hk). }
  destruct (last_snoc_cases xs) as [->|(xs' & [p pd] & ->)].
  - rewrite decide_True by done. apply runs_dcheck; [done|]. apply runs_mod_last.
    eapply rep_linked; [exact R|done|done|done|cbn; by rewrite Hheap|done|done].
  - rewrite decide_False.
    2:{ rewrite Hf. intros Hin%head_or_in; [|by destruct xs']. solve_nodup. }
    rewrite last_or_snoc in *. cbn [fst] in *. apply runs_dcheck; [done|].
    pose proof R as R'. rewrite <- (assoc_L (++)) in R'. apply rep_lookup in R'.
    eapply runs_update_last.
    { cbn. rewrite !lookup_insert_ne by (intros ->; solve_nodup). exact R'. }
    eapply rep_linked; [exact R|done|done|done| | |done].
    + cbn [heap set_heap]. rewrite Hheap, last_or_snoc. cbn [relink_next fst].
      rewrite (insert_alter _ _ _ (mkr pd (last_or None xs') (Some k))); [done|].
      rewrite lookup_insert_ne, lookup_alter_ne; [exact R'|..]; intros ->; solve_nodup.
    + cbn. rewrite Hf. by destruct xs'.
Qed.

(** ** Loops *)

(** The search loop stops at the first region of the segment [ys] that passes the
    test, or runs through all of it. *)
Lemma for_region_run (found : region → bool) (test : areg → bool) body ac fl s :
  (∀ a p n, found (mkr a p n) = test a) →
  ∀ ys fuel xs zs, Rep sz ac (xs ++ ys ++ zs) fl [] s → (length ys ≤ fuel)%nat →
  let run := for_region fuel (head_or (ys ++ zs) None) (head_or zs None) found body s in
  (∃ y1 l a y2, ys = y1 ++ (l, a) :: y2 ∧ test a = true ∧ run = body l s) ∨
  (Forall (λ x, test x.2 = false) ys ∧ run = Ok (false, s)).
Proof.
  intros Hft ys. induction ys as [|[l a] ys IH]; intros fuel xs zs R Hfuel; cbn zeta.
  - right. split; [done|]. destruct fuel; cbn [for_region app]; by rewrite decide_True.
  - destruct fuel as [|fuel]; [cbn in Hfuel; lia|]. cbn [app head_or for_region fst].
    pose proof (rep_nodup _ _ _ _ _ _ R) as Hnd.
    rewrite decide_False.
    2:{ intros E. symmetry in E. apply head_or_elem in E as [|Hin]; [done|]. solve_nodup. }
    pose proof (rep_lookup _ _ _ _ _ _ _ R) as Hl. cbn [fst snd] in Hl.
    rewrite (prog_bind_run _ _ _ _ _ (deref_run _ _ _ Hl)), Hft. cbn [next mkr].
    destruct (test a) eqn:Ht.
    + left. exists [], l, a, ys. done.
    + assert (R' : Rep sz ac ((xs ++ [(l, a)]) ++ ys ++ zs) fl [] s)
        by by rewrite <- (assoc_L (++)).
      destruct (IH fuel _ _ R') as [(y1 & l' & a' & y2 & -> & Ht' & E)|[Hf E]];
        [cbn in Hfuel; lia|left|right].
      * exists ((l, a) :: y1), l', a', y2. done.
      * split; [by constructor|done].
Qed.

Lemma rep_fuel ac ns fl lo s : Rep sz ac ns fl lo s → (length ns ≤ heap_fuel s)%nat.
Proof. intros R. unfold heap_fuel. rewrite (rep_heap_size _ _ _ _ _ R). lia. Qed.

(** [DeleteFrontToBack] *)
Lemma delete_loop_run fl : ∀ fuel p s, lseg (heap s) p fl → NoDup fl → (length fl ≤ fuel)%nat →
  delete_loop fuel p s = Ok (tt, set_heap (foldr delete (heap s) (reverse fl)) s).
Proof.
  induction fl as [|l fl IH]; intros fuel p s Hs Hnd Hf; cbn [lseg] in Hs.
  - subst p. destruct fuel; cbn; by destruct s.
  - destruct Hs as (-> & r & Hl & Hs). destruct fuel as [|fuel]; [cbn in Hf; lia|].
    cbn [delete_loop]. rewrite (prog_bind_run _ _ _ _ _ (deref_run _ _ _ Hl)).
    erewrite prog_bind_run by reflexivity. rewrite IH.
    + cbn [heap set_heap]. rewrite set_heap_set_heap, reverse_cons, foldr_app. done.
    + cbn. eapply lseg_ext; [|done]. intros k Hk. apply lookup_delete_ne. intros <-.
      solve_nodup.
    + by apply NoDup_cons in Hnd as [_ ?].
    + cbn in Hf. lia.
Qed.

Lemma dseg_lseg h pv ns : dseg h pv ns None → lseg h (head_or ns None) (locs ns).
Proof.
  revert pv. induction ns as [|x ns IH]; cbn; intros pv; [done|].
  intros [Hx Hns]. split; [done|]. eexists. split; [done|]. cbn. eauto.
Qed.

Lemma lookup_foldr_delete (h : gmap loc region) ls k :
  foldr delete h ls !! k = if decide (k ∈ ls) then None else h !! k.
Proof.
  induction ls as [|l ls IH]; cbn; [done|].
  destruct (decide (k = l)) as [->|].
  - rewrite lookup_delete_eq, decide_True; [done|]. set_solver.
  - rewrite lookup_delete_ne, IH by done. repeat case_decide; try done; set_solver.
Qed.

(** Deleting both lists empties the heap. *)
Lemma delete_both_run ac ns fl s :
  Rep sz ac ns fl [] s →
  runs (DeleteFrontToBack (front_ s)) s
    (λ _ s1, runs (DeleteFrontToBack (free_ s1)) s1 (λ _ s2, s2 = set_heap ∅ s)).
Proof.
  intros R. pose proof (rep_nodup _ _ _ _ _ _ R) as Hnd.
  rewrite (rep_front _ _ _ _ _ _ R). eexists tt, _. split.
  { apply (delete_loop_run (locs ns)); [eapply dseg_lseg, R|solve_nodup|].
    rewrite length_fmap. eapply rep_fuel, R. }
  eexists tt, _. split.
  { apply (delete_loop_run fl); [|solve_nodup|].
    - cbn. eapply lseg_ext; [|apply R]. intros k Hk. rewrite lookup_foldr_delete.
      rewrite decide_False; [done|]. rewrite elem_of_reverse. solve_nodup.
    - unfold heap_fuel. cbn. transitivity (size (foldr delete (heap s) (reverse (locs ns))));
        [|lia].
      rewrite <- size_dom, <- (size_list_to_set (C := gset loc) fl) by solve_nodup.
      apply subseteq_size. intros k Hk%elem_of_list_to_set. apply elem_of_dom.
      rewrite lookup_foldr_delete, decide_False by (rewrite elem_of_reverse; solve_nodup).
      apply elem_of_dom. rewrite (rep_dom _ _ _ _ _ _ R). set_solver. }
  cbn. rewrite set_heap_set_heap. f_equal. apply map_eq. intros k.
  rewrite !lookup_foldr_delete, lookup_empty. do 2 (case_decide; [done|]).
  rewrite elem_of_reverse in *. apply not_elem_of_dom. rewrite (rep_dom _ _ _ _ _ _ R).
  cbn. rewrite app_nil_r. set_solver.
Qed.

End Representation.

End FifoLists.
