(* ===== verification/FifoTiling.v ===== *)
(** What a [FifoAllocator] list of regions means for the buffer: the regions tile
    it, no two neighbours are free, and only the active region may be empty.
    Pure facts about such lists, used by the operations' theorems. *)

From S2P Require Import Prelude FifoAllocator.

Module FifoTiling.
Import FifoAllocator.

(** The regions [ns] cover [o, e) without gap or overlap. *)
Fixpoint tiles (o : Z) (ns : list node) (e : Z) : Prop :=
  match ns with
  | [] => o = e
  | x :: ns => aoff x.2 = o ∧ tiles (o + asize x.2) ns e
  end.

(** No two neighbours are free; [f] says that the region before [ns] is. *)
Fixpoint separated (f : bool) (ns : list node) : Prop :=
  match ns with
  | [] => True
  | x :: ns => (f = true → aalloc x.2 = true) ∧ separated (negb (aalloc x.2)) ns
  end.
Fixpoint last_free (f : bool) (ns : list node) : bool :=
  match ns with [] => f | x :: ns => last_free (negb (aalloc x.2)) ns end.

(** Only the active region [l] may be empty. *)
Definition sized (l : loc) (x : node) : Prop :=
  0 ≤ asize x.2 ∧ (x.1 ≠ l → 0 < asize x.2).

(** The list invariant: [l] is the active region. *)
Record Good (sz : Z) (l : loc) (ns : list node) : Prop := {
  good_tiles : tiles 0 ns sz;
  good_separated : separated false ns;
  good_sized : Forall (sized l) ns;
  good_active : ∃ a, (l, a) ∈ ns ∧ aalloc a = false;
}.

Definition live_nodes (ns : list node) : list (Z * Z) := live_of (snd <$> ns).

(** ** Tilings *)

Lemma tiles_app o xs ys e :
  tiles o (xs ++ ys) e ↔ ∃ m, tiles o xs m ∧ tiles m ys e.
Proof.
  revert o. induction xs as [|x xs IH]; cbn; intros o.
  - split; [by eauto|]. by intros (m & <- & ?).
  - rewrite IH. naive_solver.
Qed.

Lemma tiles_le o ns e :
  Forall (λ x : node, 0 ≤ asize x.2) ns → tiles o ns e → o ≤ e.
Proof.
  intros Hns. revert o. induction Hns as [|x ns Hx Hns IH]; cbn; intros o; [lia|].
  intros [_ ?%IH]. lia.
Qed.

Lemma tiles_bounds o ns e x :
  Forall (λ x : node, 0 ≤ asize x.2) ns → tiles o ns e → x ∈ ns →
  o ≤ aoff x.2 ∧ aoff x.2 + asize x.2 ≤ e.
Proof.
  intros Hns Ht (xs & ys & ->)%list_elem_of_split.
  apply tiles_app in Ht as (m & Hxs & [Hm Hys]).
  apply Forall_app in Hns as [H1 [H2 H3]%Forall_cons].
  apply tiles_le in Hxs; [|done]. apply tiles_le in Hys; [|done]. lia.
Qed.

(** Nonempty regions have distinct offsets. *)
Lemma tiles_offset_unique o ns e x y :
  Forall (λ x : node, 0 ≤ asize x.2) ns → tiles o ns e → x ∈ ns → y ∈ ns →
  0 < asize x.2 → 0 < asize y.2 → aoff x.2 = aoff y.2 → x = y.
Proof.
  intros Hns. revert o. induction Hns as [|z ns Hz Hns IH]; cbn; intros o; [set_solver|].
  intros [Ho Ht] Hx Hy Hpx Hpy He.
  apply elem_of_cons in Hx as [->|Hx]; apply elem_of_cons in Hy as [->|Hy].
  - done.
  - pose proof (tiles_bounds _ _ _ _ Hns Ht Hy). lia.
  - pose proof (tiles_bounds _ _ _ _ Hns Ht Hx). lia.
  - eauto.
Qed.

(** ** Separation *)

Lemma separated_app f xs ys :
  separated f (xs ++ ys) ↔ separated f xs ∧ separated (last_free f xs) ys.
Proof. revert f. induction xs; cbn; intros f; [tauto|]. rewrite IHxs. tauto. Qed.

Lemma separated_weaken f ns : separated f ns → separated false ns.
Proof. destruct ns; cbn; [done|]. by intros [_ ?]. Qed.

Lemma last_free_app f xs ys : last_free f (xs ++ ys) = last_free (last_free f xs) ys.
Proof. revert f. induction xs; cbn; auto. Qed.

Lemma last_free_snoc f xs x : last_free f (xs ++ [x]) = negb (aalloc x.2).
Proof. by rewrite last_free_app. Qed.

(** ** Live allocations *)

Lemma live_nodes_app xs ys : live_nodes (xs ++ ys) = live_nodes xs ++ live_nodes ys.
Proof. unfold live_nodes, live_of. by rewrite fmap_app, omap_app. Qed.

Lemma live_nodes_free x ns : aalloc x.2 = false → live_nodes (x :: ns) = live_nodes ns.
Proof. intros Hx. unfold live_nodes, live_of. cbn. by rewrite Hx. Qed.

Lemma live_nodes_alloc x ns :
  aalloc x.2 = true → live_nodes (x :: ns) = (aoff x.2, asize x.2) :: live_nodes ns.
Proof. intros Hx. unfold live_nodes, live_of. cbn. by rewrite Hx. Qed.

Lemma elem_of_live_nodes ns o n :
  (o, n) ∈ live_nodes ns → ∃ x, x ∈ ns ∧ aalloc x.2 = true ∧ aoff x.2 = o ∧ asize x.2 = n.
Proof.
  unfold live_nodes, live_of. rewrite list_elem_of_omap.
  intros (a & ([l a'] & -> & Hx)%list_elem_of_fmap & E). cbn in E.
  exists (l, a'). destruct (aalloc a') eqn:?; [|done]. cbn in *. by simplify_eq.
Qed.

Section Good.
Context {sz : Z} {l : loc}.

Lemma sized_nonneg ns : Forall (sized l) ns → Forall (λ x : node, 0 ≤ asize x.2) ns.
Proof. intros Hs. eapply Forall_impl; [exact Hs|]. by intros ? []. Qed.

Lemma good_nonneg ns : Good sz l ns → Forall (λ x : node, 0 ≤ asize x.2) ns.
Proof. intros G. eapply sized_nonneg, G. Qed.

Lemma good_bounds ns x :
  Good sz l ns → x ∈ ns → 0 ≤ aoff x.2 ∧ 0 ≤ asize x.2 ∧ aoff x.2 + asize x.2 ≤ sz.
Proof.
  intros G Hx. pose proof (good_nonneg _ G) as Hnn.
  pose proof (tiles_bounds _ _ _ _ Hnn (good_tiles _ _ _ G) Hx).
  rewrite Forall_forall in Hnn. specialize (Hnn x Hx). cbn in Hnn. lia.
Qed.

(** The active region is unique, so an allocated region is not the active one. *)
Lemma good_active_unique xs a ys :
  NoDup (locs (xs ++ (l, a) :: ys)) → Good sz l (xs ++ (l, a) :: ys) → aalloc a = false.
Proof.
  intros Hnd G. destruct (good_active _ _ _ G) as (a' & Hin & Ha).
  enough (a = a') as -> by done.
  rewrite fmap_app in Hnd. cbn in Hnd. apply NoDup_app in Hnd as (_ & H1 & [H2 _]%NoDup_cons).
  apply elem_of_app in Hin as [Hin|[[= ->]|Hin]%elem_of_cons]; [|done|].
  - exfalso. apply (H1 l); [|set_solver]. apply list_elem_of_fmap. by exists (l, a').
  - exfalso. apply H2. apply list_elem_of_fmap. by exists (l, a').
Qed.

(** A free range of [n] bytes lies in one free region: the regions are coalesced. *)
Lemma room_in_region o ns f p n :
  tiles o ns sz → separated f ns → Forall (λ x : node, 0 ≤ asize x.2) ns →
  (∀ x, x ∈ ns → aalloc x.2 = true → 0 < asize x.2) →
  0 < n → o ≤ p → p + n ≤ sz → Forall (disjoint (p, n)) (live_nodes ns) →
  ∃ x, x ∈ ns ∧ aalloc x.2 = false ∧ n ≤ asize x.2.
Proof.
  intros Ht Hs Hnn. revert o f Ht Hs.
  induction Hnn as [|x ns Hx Hns IH]; cbn [tiles separated];
    intros o f Ht Hs Hpos Hn Hp Hpn Hd; [lia|].
  destruct Ht as [Ho Ht], Hs as [_ Hs].
  assert (Hd' : Forall (disjoint (p, n)) (live_nodes ns)).
  { destruct (aalloc x.2) eqn:E.
    - rewrite live_nodes_alloc in Hd by done. by apply Forall_cons in Hd as [_ ?].
    - by rewrite live_nodes_free in Hd. }
  destruct (Z.le_gt_cases (o + asize x.2) p).
  { edestruct IH as (y & ? & ? & ?); [done|done|set_solver|done..|]. exists y. set_solver. }
  destruct (aalloc x.2) eqn:E.
  { rewrite live_nodes_alloc in Hd by done. apply Forall_cons in Hd as [Hd _].
    unfold disjoint in Hd. cbn in Hd. specialize (Hpos x ltac:(set_solver) E). lia. }
  exists x. split_and!; [set_solver|done|]. destruct ns as [|y ns]; cbn [tiles separated] in *; [lia|].
  destruct Ht as [Hy _], Hs as [Hya _]. specialize (Hya eq_refl).
  rewrite live_nodes_alloc in Hd' by done. apply Forall_cons in Hd' as [Hd' _].
  unfold disjoint in Hd'. cbn in Hd'. specialize (Hpos y ltac:(set_solver) Hya). lia.
Qed.

(** A range inside a free region is disjoint from the live allocations. *)
Lemma region_disjoint xs x ys r n :
  Good sz l (xs ++ x :: ys) → aalloc x.2 = false →
  aoff x.2 ≤ r → r + n ≤ aoff x.2 + asize x.2 →
  Forall (disjoint (r, n)) (live_nodes (xs ++ x :: ys)).
Proof.
  intros G Hx Hr Hn. pose proof (good_nonneg _ G) as Hnn. pose proof (good_tiles _ _ _ G) as Ht.
  apply Forall_app in Hnn as [H1 [H2 H3]%Forall_cons].
  apply tiles_app in Ht as (m & Hxs & [Hm Hys]).
  apply Forall_forall. intros [o z] Hin. unfold disjoint. cbn.
  rewrite live_nodes_app, live_nodes_free, elem_of_app in Hin by done.
  destruct Hin as [Hin|Hin]; apply elem_of_live_nodes in Hin as (y & Hy & _ & <- & <-).
  - pose proof (tiles_bounds _ _ _ _ H1 Hxs Hy). lia.
  - pose proof (tiles_bounds _ _ _ _ H3 Hys Hy). lia.
Qed.

End Good.

(** ** Lists without an empty region *)

Record Flat (sz : Z) (ns : list node) : Prop := {
  flat_tiles : tiles 0 ns sz;
  flat_separated : separated false ns;
  flat_sized : Forall (λ x : node, 0 < asize x.2) ns;
}.

Lemma flat_good sz m b ns : Flat sz ns → (m, b) ∈ ns → aalloc b = false → Good sz m ns.
Proof.
  intros [Ht Hs Hp] Hin Hb. split; [done..| |eauto].
  eapply Forall_impl; [exact Hp|]. intros x Hx. cbn in Hx. split; [lia|done].
Qed.

Section Active.
Context {sz : Z} {l : loc} {xs : list node} {a : areg} {ys : list node}.
Hypothesis (Hnd : NoDup (locs (xs ++ (l, a) :: ys))).
Hypothesis (G : Good sz l (xs ++ (l, a) :: ys)).

Lemma others_sized : Forall (λ x : node, 0 < asize x.2) (xs ++ ys).
Proof.
  pose proof (good_sized _ _ _ G) as Hs.
  rewrite fmap_app in Hnd. cbn in Hnd.
  apply NoDup_app in Hnd as (_ & H1 & [H2 _]%NoDup_cons).
  rewrite Forall_forall in *. intros x Hx. apply Hs; [set_solver|].
  intros <-. apply elem_of_app in Hx as [Hx|Hx].
  - apply (H1 x.1); [|set_solver]. by apply list_elem_of_fmap_2.
  - apply H2. by apply list_elem_of_fmap_2.
Qed.

Lemma good_flat : 0 < asize a → Flat sz (xs ++ (l, a) :: ys).
Proof.
  intros Ha. split; [apply G..|]. pose proof others_sized as Ho.
  apply Forall_app in Ho as [Hx Hy]. apply Forall_app. split; [done|]. by constructor.
Qed.

(** Dropping an empty active region: both its neighbours are allocated. *)
Lemma good_drop : asize a = 0 → Flat sz (xs ++ ys).
Proof.
  intros Ha. pose proof (good_active_unique _ _ _ Hnd G) as Hfree.
  destruct G as [Ht Hs _ _]. split; [| |apply others_sized].
  - apply tiles_app in Ht as (m & Hxs & [_ Hys]). apply tiles_app. exists m.
    split; [done|]. cbn in Hys. rewrite Ha in Hys. by rewrite Z.add_0_r in Hys.
  - apply separated_app in Hs as [Hxs [Hf Hys]]. apply separated_app. split; [done|].
    cbn in Hf, Hys. rewrite Hfree in *. cbn in Hys.
    destruct (last_free false xs); [by discriminate Hf|]. by apply separated_weaken in Hys.
Qed.

(** Allocating all of the active region. *)
Lemma good_take : 0 < asize a →
  Flat sz (xs ++ (l, mk_areg true (asize a) (aoff a)) :: ys).
Proof.
  intros Ha. destruct (good_flat Ha) as [Ht Hs Hp]. split.
  - apply tiles_app in Ht as (m & Hxs & Hys). apply tiles_app. eauto.
  - apply separated_app in Hs as [Hxs [_ Hys]]. apply separated_app. cbn. split_and!; [done..|].
    by eapply separated_weaken.
  - apply Forall_app in Hp as [H1 [H2 H3]%Forall_cons]. apply Forall_app. by repeat constructor.
Qed.

(** The neighbours of the active region are allocated. *)
Lemma good_next_alloc y ys' : ys = y :: ys' → aalloc y.2 = true.
Proof.
  intros ->. pose proof (good_active_unique _ _ _ Hnd G) as Hfree.
  destruct G as [_ Hs _ _]. apply separated_app in Hs as (_ & _ & Hy & _).
  cbn in Hy. rewrite Hfree in Hy. auto.
Qed.

(** Allocating the front part of the active region. *)
Lemma good_split k n : 0 < n < asize a → k ≠ l →
  Good sz l (xs ++ (k, mk_areg true n (aoff a))
                :: (l, mk_areg false (asize a - n) (aoff a + n)) :: ys).
Proof.
  intros Hn Hk. pose proof (good_active_unique _ _ _ Hnd G) as Hfree.
  pose proof (good_sized _ _ _ G) as Hp. destruct G as [Ht Hs _ _]. split.
  - apply tiles_app in Ht as (m & Hxs & [Hm Hys]). apply tiles_app. exists m. cbn in *.
    split_and!; [done|done|lia|]. by replace (m + n + (asize a - n)) with (m + asize a) by lia.
  - apply separated_app in Hs as (Hxs & _ & Hys). apply separated_app. cbn in *.
    rewrite Hfree in Hys. done.
  - apply Forall_app in Hp as [H1 [H2 H3]%Forall_cons]. apply Forall_app. split; [done|].
    repeat constructor; cbn; try lia; done.
  - exists (mk_areg false (asize a - n) (aoff a + n)). split; [set_solver|done].
Qed.

(** A region named by a live allocation is not the active one. *)
Lemma live_region m b n : (m, b) ∈ xs ++ ys → (aoff b, n) ∈ live_nodes (xs ++ (l, a) :: ys) →
  aalloc b = true ∧ asize b = n.
Proof.
  intros Hin Hlive. pose proof (good_active_unique _ _ _ Hnd G) as Hfree.
  apply elem_of_live_nodes in Hlive as (y & Hy & Hal & Ho & Hn).
  pose proof others_sized as Hp. rewrite Forall_forall in Hp.
  assert (Hy' : y ∈ xs ++ ys).
  { apply elem_of_app in Hy as [|[->|]%elem_of_cons]; [set_solver| |set_solver].
    cbn in Hal. congruence. }
  assert ((m, b) = y) as <-; [|done].
  eapply (tiles_offset_unique 0 _ sz); [eapply good_nonneg, G|apply G|set_solver|set_solver|..].
  - apply (Hp _ Hin).
  - apply (Hp _ Hy').
  - done.
Qed.

(** No region is large enough: no free range is. *)
Lemma no_room n : 0 < n → asize a < n →
  Forall (λ x : node, negb (aalloc x.2) && (n <=? asize x.2) = false) (xs ++ ys) →
  ∀ p, 0 ≤ p → p + n ≤ sz → ¬ Forall (disjoint (p, n)) (live_nodes (xs ++ (l, a) :: ys)).
Proof.
  intros Hn Ha Hf p Hp Hpn Hd. pose proof (good_active_unique _ _ _ Hnd G) as Hfree.
  pose proof others_sized as Hos. rewrite Forall_forall in Hf, Hos.
  destruct (room_in_region (sz := sz) 0 (xs ++ (l, a) :: ys) false p n) as (x & Hx & Hxf & Hxn);
    [apply G|apply G|eapply good_nonneg, G| |done..|].
  - intros x Hx Hxa. apply elem_of_app in Hx as [Hx|[->|Hx]%elem_of_cons].
    + apply Hos. set_solver.
    + cbn in Hxa. congruence.
    + apply Hos. set_solver.
  - apply elem_of_app in Hx as [Hx|[->|Hx]%elem_of_cons].
    2:{ cbn in Hxn. lia. }
    all: specialize (Hf x ltac:(set_solver)); cbn in Hf; rewrite Hxf in Hf; cbn in Hf; lia.
Qed.

End Active.

End FifoTiling.
