(* ===== verification/FifoSpec.v ===== *)
(** The contract of [FifoAllocator]: the invariant every operation keeps, what
    allocation and release do to the set of live allocations, and that nothing is
    leaked.  The theorems hold in every build: no [DCHECK] fails, no pointer is
    null or dangling, and the fuel of the loops is enough. *)

From S2P Require Import Prelude FifoAllocator FifoLists FifoTiling.

Module FifoSpec.
Import FifoAllocator FifoLists FifoTiling.

(** The invariant: the heap holds a well-formed list and nothing else, and the
    buffer's size is representable. *)
Definition holds (s : state) (l : loc) (ns : list node) (fl : list loc) : Prop :=
  Rep (size_ s) (Some l) ns fl [] s ∧ Good (size_ s) l ns.
Definition wf (s : state) : Prop :=
  0 ≤ size_ s < kNullOffset ∧ ∃ l ns fl, holds s l ns fl.

Lemma rep_self sz ac ns fl lo s : Rep sz ac ns fl lo s → size_ s = sz.
Proof. apply rep_size. Qed.

Lemma holds_intro sz l ns fl s : Rep sz (Some l) ns fl [] s → Good sz l ns → holds s l ns fl.
Proof. intros R G. unfold holds. by rewrite (rep_self _ _ _ _ _ _ R). Qed.

Lemma rep_live sz ac ns fl lo s : Rep sz ac ns fl lo s → live s = live_nodes ns.
Proof. intros R. unfold live. by rewrite (rep_regions _ _ _ _ _ _ R). Qed.

Lemma rep_locs sz ac ns fl s : Rep sz ac ns fl [] s → NoDup (locs ns).
Proof. intros R. pose proof (rep_nodup _ _ _ _ _ _ R) as Hnd. by apply NoDup_app in Hnd as [? _]. Qed.

Lemma rep_set_active sz ac ns fl lo s p :
  Rep sz ac ns fl lo s → Rep sz p ns fl lo (set_active p s).
Proof. intros []. by split. Qed.

Section WithBuild.
Context `{Build}.

(** ** Creation *)

Lemma get_free_empty sz s al z o :
  0 ≤ z ≤ sz → 0 ≤ o ≤ sz - z → sz < 2 ^ 64 →
  size_ s = sz → heap s = ∅ → free_ s = None →
  get_free al z o s =
    Ok (1%positive, set_heap {[1%positive := mk_region al z o None None]} s).
Proof.
  intros Hz Ho Hsz Es Eh Ef. destruct s as [s0 f b fr ac h]. cbn in *. subst.
  unfold get_free. erewrite prog_bind_run by reflexivity. cbn [size_ free_].
  erewrite prog_bind_run by (apply dcheckS_true; lia).
  rewrite uwrap_small by (unfold is_u; lia).
  erewrite prog_bind_run by (apply dcheckS_true; lia). reflexivity.
Qed.

Lemma Reset_runs s size :
  0 ≤ size < kNullOffset →
  (∃ ns fl sz ac, Rep sz ac ns fl [] s) ∨ (heap s = ∅ ∧ front_ s = None ∧ free_ s = None) →
  runs (Reset size) s (λ _ s', wf s' ∧ live s' = [] ∧ size_ s' = size).
Proof.
  intros Hsz Hs. unfold kNullOffset, max_u64 in Hsz. unfold Reset.
  apply runs_dcheck; [unfold kNullOffset, max_u64; lia|]. apply runs_get.
  assert (Hdel : runs (DeleteFrontToBack (front_ s)) s
    (λ _ s1, runs (DeleteFrontToBack (free_ s1)) s1 (λ _ s2, s2 = set_heap ∅ s))).
  { destruct Hs as [(ns & fl & sz & ac & R)|(Hh & Hf & Hfr)]; [by eapply delete_both_run|].
    rewrite Hf. exists tt, s. split; [done|]. exists tt, s. rewrite Hfr. split; [done|].
    destruct s. cbn in *. by subst. }
  eapply runs_bind; [exact Hdel|]. cbn beta. intros _ s1 H1. apply runs_get.
  eapply runs_bind; [exact H1|]. cbn beta. intros _ s2 ->. do 2 apply runs_mod.
  eapply runs_step; [apply (get_free_empty size); cbn; lia || done|].
  do 3 apply runs_mod.
  eapply runs_update; [reflexivity|]. eapply runs_update_last; [reflexivity|].
  set (s' := set_heap _ _).
  assert (R : Rep size (Some 1%positive) [(1%positive, mk_areg false size 0)] [] [] s').
  { split; cbn; try done.
    repeat constructor. set_solver. }
  split_and!; [| |apply R].
  - split; [rewrite (rep_size _ _ _ _ _ _ R); unfold kNullOffset, max_u64; lia|].
    eexists _, _, _. eapply holds_intro; [exact R|]. split; cbn.
    + done.
    + done.
    + repeat constructor; cbn; [lia|done].
    + exists (mk_areg false size 0). split; [set_solver|done].
  - rewrite (rep_live _ _ _ _ _ _ R). done.
Qed.

Lemma construct_runs size :
  0 ≤ size < kNullOffset →
  ∃ s, construct size = Ok s ∧ wf s ∧ live s = [] ∧ size_ s = size.
Proof.
  intros Hsz. destruct (Reset_runs (mk_state 0 None None None None ∅) size) as ([] & s & E & HQ);
    [done|by right|].
  exists s. split; [|done]. unfold construct. by rewrite E.
Qed.

(** Destroying a well-formed allocator deletes every region structure exactly
    once: the heap is left empty. *)
Lemma destruct_no_leak s :
  wf s → ∃ s', destruct_ @ s ⇒ (tt, s') ∧ heap s' = ∅.
Proof.
  intros (_ & l & ns & fl & R & _).
  assert (Hr : runs destruct_ s (λ _ s', heap s' = ∅)).
  { unfold destruct_. apply runs_get. eapply runs_bind; [by eapply delete_both_run|].
    cbn beta. intros _ s1 H1. apply runs_get. eapply runs_mono; [exact H1|]. by intros _ ? ->. }
  destruct Hr as ([] & s' & E & Hh). eauto.
Qed.

(** ** Allocation *)

(** Removing a region and putting it on the lookaside list. *)
Lemma retire_runs {A} sz ac xs l a ys fl s (k : unit → prog state A) Q :
  Rep sz ac (xs ++ (l, a) :: ys) fl [] s →
  (∀ s', Rep sz ac (xs ++ ys) (l :: fl) [] s' → runs (k tt) s' Q) →
  runs (_ ← remove (Some l); put_free (Some l) ≫= k) s Q.
Proof.
  intros R Hk. eapply runs_bind; [by eapply remove_runs|]. cbn beta. intros _ s1 R1.
  eapply runs_bind; [by eapply put_free_runs|]. cbn beta. intros [] s2 R2. auto.
Qed.

(** What [AdvanceActive] does once it has found the region [m]. *)
Lemma advance_runs sz l xs a ys fl s m b :
  Rep sz (Some l) (xs ++ (l, a) :: ys) fl [] s → Good sz l (xs ++ (l, a) :: ys) →
  (m, b) ∈ xs ++ ys → aalloc b = false →
  runs (s ← getS;
        '(_, a) ← deref (active_ s);
        _ ← (if rsize a =? 0 then
               _ ← dcheckS (negb (allocated a));
               _ ← remove (active_ s);
               put_free (active_ s)
             else mret tt);
        _ ← modS (set_active (Some m));
        mret true) s
    (λ r s', r = true ∧ ∃ ws zs fl', Rep sz (Some m) (ws ++ (m, b) :: zs) fl' [] s' ∧
       Good sz m (ws ++ (m, b) :: zs) ∧
       live_nodes (ws ++ (m, b) :: zs) = live_nodes (xs ++ (l, a) :: ys)).
Proof.
  intros R G Hin Hb. pose proof (rep_locs _ _ _ _ _ R) as Hnd.
  pose proof (good_active_unique _ _ _ Hnd G) as Hfree.
  apply runs_get. rewrite (rep_active _ _ _ _ _ _ R).
  eapply runs_deref; [by eapply (rep_lookup sz _ xs (l, a) ys)|]. cbn [fst snd rsize mkr].
  eapply (runs_bind _ _ _ (λ _ s', ∃ ws zs fl', Rep sz (Some l) (ws ++ (m, b) :: zs) fl' [] s' ∧
    Flat sz (ws ++ (m, b) :: zs) ∧
    live_nodes (ws ++ (m, b) :: zs) = live_nodes (xs ++ (l, a) :: ys))).
  - destruct (Z.eqb_spec (asize a) 0) as [Ha|Ha].
    + apply runs_dcheck; [cbn; by rewrite Hfree|].
      eapply runs_bind; [by eapply remove_runs|]. cbn beta. intros _ s1 R1.
      eapply runs_mono; [by eapply put_free_runs|]. cbn beta. intros _ s2 R2.
      apply list_elem_of_split in Hin as (ws & zs & E). exists ws, zs, (l :: fl).
      rewrite <- E. split_and!; [done|by eapply good_drop|].
      rewrite !live_nodes_app, live_nodes_free; done.
    + apply runs_ret.
      assert (Hin' : (m, b) ∈ xs ++ (l, a) :: ys) by (revert Hin; solve_mem).
      apply list_elem_of_split in Hin' as (ws & zs & E). exists ws, zs, fl.
      rewrite <- E. split_and!; [done| |done]. apply good_flat; [done..|].
      pose proof (good_bounds _ (l, a) G ltac:(solve_mem)) as Hb'. cbn in Hb'. lia.
  - intros _ s' (ws & zs & fl' & R' & F' & E). apply runs_mod, runs_ret. split; [done|].
    exists ws, zs, fl'. split_and!; [by eapply rep_set_active| |done].
    eapply (flat_good _ _ b); [done| |done]. solve_mem.
Qed.

(** [AdvanceActive] makes a large enough free region active when there is one. *)
Lemma AdvanceActive_runs sz l xs a ys fl s n :
  0 < n → Rep sz (Some l) (xs ++ (l, a) :: ys) fl [] s → Good sz l (xs ++ (l, a) :: ys) →
  runs (AdvanceActive n) s (λ r s',
    (r = true ∧ ∃ ws m b zs fl', Rep sz (Some m) (ws ++ (m, b) :: zs) fl' [] s' ∧
       Good sz m (ws ++ (m, b) :: zs) ∧ n ≤ asize b ∧
       live_nodes (ws ++ (m, b) :: zs) = live_nodes (xs ++ (l, a) :: ys)) ∨
    (r = false ∧ s' = s ∧
       Forall (λ x : node, negb (aalloc x.2) && (n <=? asize x.2) = false) (xs ++ ys))).
Proof.
  intros Hn R G. unfold AdvanceActive. apply runs_dcheck; [lia|]. apply runs_get.
  rewrite (rep_active _ _ _ _ _ _ R).
  eapply runs_deref; [by eapply (rep_lookup sz _ xs (l, a) ys)|]. cbn [fst snd next mkr].
  pose proof (rep_fuel _ _ _ _ _ _ R) as Hfuel. rewrite length_app in Hfuel. cbn in Hfuel.
  set (test := λ a, negb (aalloc a) && (n <=? asize a)).
  assert (R2 : Rep sz (Some l) ((xs ++ [(l, a)]) ++ ys ++ []) fl [] s)
    by by rewrite app_nil_r, <- (assoc_L (++)).
  unfold AdvanceActive_range.
  match goal with |- context [for_region _ (head_or ys None) None ?f ?b] =>
    destruct (for_region_run sz f test b (Some l) fl s ltac:(done) ys (heap_fuel s) _ _ R2
      ltac:(lia)) as [(y1 & m & b0 & y2 & -> & Ht & E)|[Hf1 E]] end;
    rewrite app_nil_r in E; cbn [head_or] in E.
  - apply andb_true_iff in Ht as [Hb0%negb_true_iff Hsz].
    edestruct (advance_runs sz l xs a (y1 ++ (m, b0) :: y2) fl s m b0) as (r & s' & E' & -> & HQ);
      [done|done|solve_mem|done|]. rewrite E' in E.
    eapply runs_step; [exact E|]. cbn [negb]. apply runs_ret. left. split; [done|].
    destruct HQ as (ws & zs & fl' & HR & HG & HL). exists ws, m, b0, zs, fl'.
    split_and!; try done. lia.
  - eapply runs_step; [exact E|]. cbn iota. apply runs_get.
    rewrite (rep_front _ _ _ _ _ _ R), (rep_active _ _ _ _ _ _ R).
    match goal with |- context [for_region _ _ (Some l) ?f ?b] =>
      destruct (for_region_run sz f test b (Some l) fl s ltac:(done) xs (heap_fuel s) [] _ R
        ltac:(lia)) as [(y1 & m & b0 & y2 & -> & Ht & E')|[Hf2 E']] end; cbn [head_or fst] in E'.
    + apply andb_true_iff in Ht as [Hb0%negb_true_iff Hsz].
      edestruct (advance_runs sz l (y1 ++ (m, b0) :: y2) a ys fl s m b0)
        as (r & s' & E2 & -> & HQ); [done|done|solve_mem|done|]. rewrite E2 in E'.
      exists true, s'. split; [exact E'|]. left. split; [done|].
      destruct HQ as (ws & zs & fl' & HR & HG & HL). exists ws, m, b0, zs, fl'.
      split_and!; try done. lia.
    + exists false, s. split; [exact E'|]. right. split_and!; [done..|]. by apply Forall_app.
Qed.

Lemma back_active sz ac xs l a ys fl lo s :
  Rep sz ac (xs ++ (l, a) :: ys) fl lo s → Some l = back_ s ↔ ys = [].
Proof.
  intros R. pose proof (rep_nodup _ _ _ _ _ _ R) as Hnd. rewrite (rep_back _ _ _ _ _ _ R).
  split; [|intros ->; by rewrite last_or_app].
  intros E. destruct ys as [|y ys]; [done|]. symmetry in E.
  replace (xs ++ (l, a) :: y :: ys) with ((xs ++ [(l, a)]) ++ y :: ys) in E
    by by rewrite <- (assoc_L (++)).
  apply last_or_in in E; [|done]. solve_nodup.
Qed.

(** An empty free region between allocated neighbours. *)
Lemma placeholder_good sz k xs ys o :
  Flat sz (xs ++ ys) → tiles 0 xs o → last_free false xs = false →
  (∀ y ys', ys = y :: ys' → aalloc y.2 = true) →
  Good sz k (xs ++ (k, mk_areg false 0 o) :: ys).
Proof.
  intros [Ht Hs Hp] Ho Hlf Hy. split.
  - apply tiles_app in Ht as (m & Hxs & Hys). apply tiles_app. exists o. split; [done|].
    assert (m = o) as ->.
    { clear - Hxs Ho. revert Hxs Ho. generalize 0. induction xs as [|x xs IH]; cbn; intros z.
      - congruence.
      - intros [_ ?] [_ ?]. eauto. }
    cbn. by rewrite Z.add_0_r.
  - apply separated_app in Hs as [Hxs Hys]. apply separated_app. cbn. rewrite Hlf in *.
    split_and!; [done..|]. destruct ys as [|y ys]; [done|]. cbn in *. split; [eauto|tauto].
  - apply Forall_app in Hp as [H1 H2]. apply Forall_app. split; [|constructor].
    + eapply Forall_impl; [exact H1|]. intros x Hx. cbn in Hx. split; [lia|done].
    + by split.
    + eapply Forall_impl; [exact H2|]. intros x Hx. cbn in Hx. split; [lia|done].
  - exists (mk_areg false 0 o). split; [solve_mem|done].
Qed.

Lemma live_placeholder k xs ys o :
  live_nodes (xs ++ (k, mk_areg false 0 o) :: ys) = live_nodes (xs ++ ys).
Proof. by rewrite !live_nodes_app, live_nodes_free. Qed.

(** [MakeActivePlaceholder], after the active region was allocated. *)
Lemma MakeActivePlaceholder_runs sz l xs a ys fl s :
  Rep sz (Some l) (xs ++ (l, a) :: ys) fl [] s → Flat sz (xs ++ (l, a) :: ys) →
  sz < 2 ^ 64 → aalloc a = true →
  (∀ y ys', ys = y :: ys' → aalloc y.2 = true) →
  (ys = [] → ∀ y ys', xs ++ (l, a) :: ys = y :: ys' → aalloc y.2 = true) →
  runs MakeActivePlaceholder s (λ _ s', ∃ k ns fl', Rep sz (Some k) ns fl' [] s' ∧
    Good sz k ns ∧ live_nodes ns = live_nodes (xs ++ (l, a) :: ys)).
Proof.
  intros R F Hsz Ha Hnext Hfront. unfold MakeActivePlaceholder. apply runs_get.
  rewrite (rep_active _ _ _ _ _ _ R).
  eapply runs_deref; [by eapply (rep_lookup sz _ xs (l, a) ys)|].
  cbn [fst snd roffset rsize mkr].
  pose proof (flat_tiles _ _ F) as Ht. pose proof (flat_sized _ _ F) as Hp.
  assert (Hb : 0 ≤ aoff a ∧ 0 < asize a ∧ aoff a + asize a ≤ sz).
  { rewrite Forall_forall in Hp. specialize (Hp (l, a) ltac:(solve_mem)) as Hpa.
    assert (Hnn : Forall (λ x : node, 0 ≤ asize x.2) (xs ++ (l, a) :: ys)).
    { apply Forall_forall. intros x Hx%Hp. cbn in Hx. lia. }
    pose proof (tiles_bounds _ _ _ (l, a) Hnn Ht ltac:(solve_mem)). cbn in *. lia. }
  set (o := if decide (Some l = back_ s) then 0 else aoff a + asize a).
  replace (if decide (Some l = back_ s) then 0 else u64 (aoff a + asize a)) with o.
  2:{ unfold o. case_decide; [done|]. rewrite uwrap_small; [done|]. unfold is_u. lia. }
  eapply runs_bind.
  { eapply (get_free_runs sz); [| |done|exact R]; [lia|]. unfold o. case_decide; lia. }
  cbn beta. intros k s1 (fl' & R1). apply runs_get. rewrite (rep_active _ _ _ _ _ _ R1).
  eapply runs_deref; [by eapply (rep_lookup sz _ xs (l, a) ys)|]. cbn [fst snd next mkr].
  pose proof (back_active _ _ _ _ _ _ _ _ _ R) as Hback.
  pose proof (back_active _ _ _ _ _ _ _ _ _ R1) as Hback1.
  destruct ys as [|[m b] ys].
  - assert (Some l = back_ s1) as <- by by apply Hback1.
    apply runs_dcheck; [by rewrite !bool_decide_true|]. rewrite decide_True by done.
    unfold o in *. rewrite decide_True in * by by apply Hback.
    rewrite (rep_front _ _ _ _ _ _ R1). specialize (Hfront eq_refl).
    destruct (xs ++ [(l, a)]) as [|[m b] ns] eqn:E; [by destruct xs|]. cbn [head_or fst].
    eapply runs_bind; [by eapply (insert_before_runs sz _ [])|]. cbn beta. intros _ s2 R2.
    apply runs_mod_last. eexists k, _, fl'. split_and!; [by eapply rep_set_active|..].
    + by eapply (placeholder_good _ _ []).
    + apply (live_placeholder _ []).
  - assert (Hne : Some l ≠ back_ s1) by (intros E; by apply Hback1 in E).
    assert (Hne' : Some l ≠ back_ s) by (intros E; by apply Hback in E).
    apply runs_dcheck; [by rewrite !bool_decide_false|]. rewrite decide_False by done.
    unfold o in *. rewrite decide_False in * by done. cbn [head_or fst].
    replace (xs ++ (l, a) :: (m, b) :: ys) with ((xs ++ [(l, a)]) ++ (m, b) :: ys) in *
      by by rewrite <- (assoc_L (++)).
    eapply runs_bind; [by eapply insert_before_runs|]. cbn beta. intros _ s2 R2.
    apply runs_mod_last. eexists k, _, fl'. split_and!; [by eapply rep_set_active|..].
    + eapply placeholder_good; [done| | |done].
      * apply tiles_app in Ht as (e & Ht & _). apply tiles_app in Ht as (e' & Hx & [E1 E2]).
        apply tiles_app. exists e'. split; [done|]. cbn in *. split; congruence.
      * rewrite last_free_snoc. cbn. by rewrite Ha.
    + apply live_placeholder.
Qed.

(** The part of [AllocateRegion] after the active region is large enough. *)
Definition take_active (size : Z) : prog state Z :=
  s ← getS;
  '(_, a) ← deref (active_ s);
  if rsize a =? size then
    let result := roffset a in
    _ ← update (active_ s) (with_allocated true);
    '(_, f) ← deref (front_ s);
    _ ← (if bool_decide (active_ s = back_ s) && negb (allocated f)
         then modS (set_active (front_ s))
         else MakeActivePlaceholder);
    mret result
  else
    _ ← dcheckS (size <? rsize a);
    l ← get_free true size (roffset a);
    _ ← update (active_ s) (λ r, with_size (u64 (rsize r - size)) r);
    _ ← update (active_ s) (λ r, with_offset (u64 (roffset r + size)) r);
    _ ← insert_before (Some l) (active_ s);
    '(_, r) ← deref (Some l);
    mret (roffset r).

Lemma live_take xs l a ys :
  aalloc a = false →
  live_nodes (xs ++ (l, mk_areg true (asize a) (aoff a)) :: ys)
  ≡ₚ (aoff a, asize a) :: live_nodes (xs ++ (l, a) :: ys).
Proof.
  intros Ha. rewrite !live_nodes_app, live_nodes_alloc, live_nodes_free by done. cbn.
  solve_Permutation.
Qed.

(** The active region has exactly the requested size. *)
Lemma take_all_runs sz l xs a ys fl s :
  sz < 2 ^ 64 → 0 < asize a →
  Rep sz (Some l) (xs ++ (l, a) :: ys) fl [] s → Good sz l (xs ++ (l, a) :: ys) →
  runs (take_active (asize a)) s (λ r s', r = aoff a ∧ ∃ k ns fl',
    Rep sz (Some k) ns fl' [] s' ∧ Good sz k ns ∧
    live_nodes ns ≡ₚ (aoff a, asize a) :: live_nodes (xs ++ (l, a) :: ys)).
Proof.
  intros Hsz Ha R G. pose proof (rep_locs _ _ _ _ _ R) as Hnd.
  pose proof (good_active_unique _ _ _ Hnd G) as Hfree.
  pose proof (good_take Hnd G Ha) as F. set (a' := mk_areg true (asize a) (aoff a)) in *.
  unfold take_active. apply runs_get. rewrite (rep_active _ _ _ _ _ _ R).
  pose proof (rep_lookup sz _ xs (l, a) ys _ _ _ R) as Hl. cbn [fst snd] in Hl.
  eapply runs_deref; [done|]. cbn [rsize roffset mkr]. rewrite Z.eqb_refl.
  eapply runs_update; [done|].
  pose proof (rep_update_node sz _ xs l a a' ys _ _ _ R) as R1.
  change (with_allocated true (mkr a (last_or None xs) (head_or ys None)))
    with (mkr a' (last_or None xs) (head_or ys None)).
  revert R1. set (s1 := set_heap _ s). intros R1.
  change (front_ s) with (front_ s1). change (back_ s) with (back_ s1).
  pose proof (back_active _ _ _ _ _ _ _ _ _ R1) as Hback.
  rewrite (rep_front _ _ _ _ _ _ R1).
  destruct (xs ++ (l, a') :: ys) as [|[m b] ns] eqn:E; [by destruct xs|]. cbn [head_or fst].
  eapply runs_deref; [by eapply (rep_lookup sz _ [] (m, b) ns)|]. cbn [fst snd allocated mkr].
  destruct (bool_decide (Some l = back_ s1) && negb (aalloc b)) eqn:C.
  - apply andb_true_iff in C as [_ Hb%negb_true_iff].
    apply runs_mod, runs_ret. split; [done|]. eexists m, _, fl.
    split_and!; [by eapply rep_set_active|by eapply (flat_good _ _ b); [|solve_mem|]|].
    rewrite <- E. by apply live_take.
  - rewrite <- E in R1, F. eapply runs_bind; [eapply MakeActivePlaceholder_runs; try done|].
    + intros y ys' ->. by eapply (good_next_alloc Hnd G).
    + intros Hys y ys'. rewrite E. intros [= <- _]. cbn.
      apply Hback in Hys. rewrite bool_decide_true in C by done. by destruct (aalloc b).
    + cbn beta. intros _ s2 (k & ns' & fl' & R2 & G2 & L2). apply runs_ret.
      split; [done|]. exists k, ns', fl'. split_and!; [done..|]. rewrite L2. by apply live_take.
Qed.

(** The active region is larger than the requested size. *)
Lemma take_part_runs sz l xs a ys fl s n :
  sz < 2 ^ 64 → 0 < n < asize a →
  Rep sz (Some l) (xs ++ (l, a) :: ys) fl [] s → Good sz l (xs ++ (l, a) :: ys) →
  runs (take_active n) s (λ r s', r = aoff a ∧ ∃ k ns fl',
    Rep sz (Some k) ns fl' [] s' ∧ Good sz k ns ∧
    live_nodes ns ≡ₚ (aoff a, n) :: live_nodes (xs ++ (l, a) :: ys)).
Proof.
  intros Hsz Hn R G. pose proof (rep_locs _ _ _ _ _ R) as Hnd.
  pose proof (good_active_unique _ _ _ Hnd G) as Hfree.
  pose proof (good_bounds _ (l, a) G ltac:(solve_mem)) as Hb. cbn in Hb.
  unfold take_active. apply runs_get. rewrite (rep_active _ _ _ _ _ _ R).
  pose proof (rep_lookup sz _ xs (l, a) ys _ _ _ R) as Hl. cbn [fst snd] in Hl.
  eapply runs_deref; [done|]. cbn [rsize roffset mkr].
  destruct (Z.eqb_spec (asize a) n); [lia|]. apply runs_dcheck; [lia|].
  eapply runs_bind; [eapply (get_free_runs sz); [| |done|exact R]; lia|].
  cbn beta. intros k s1 (fl' & R1).
  assert (Hkl : k ≠ l).
  { pose proof (rep_nodup _ _ _ _ _ _ R1) as Hnd1. intros ->. solve_nodup. }
  pose proof (rep_lookup sz _ xs (l, a) ys _ _ _ R1) as Hl1. cbn [fst snd] in Hl1.
  eapply runs_update; [done|]. eapply runs_update; [cbn; by rewrite lookup_insert_eq|].
  cbn [heap set_heap]. rewrite insert_insert_eq, set_heap_set_heap.
  unfold with_offset, with_size. cbn [allocated rsize roffset prev next mkr].
  rewrite !uwrap_small by (unfold is_u; lia). rewrite Hfree.
  pose proof (rep_update_node sz _ xs l a (mk_areg false (asize a - n) (aoff a + n)) ys _ _ _ R1)
    as R2. unfold mkr in R2. cbn [aalloc asize aoff] in R2.
  eapply runs_bind; [by eapply insert_before_runs|]. cbn beta. intros _ s3 R3.
  pose proof (rep_lookup sz _ xs _ _ _ _ _ R3) as Hk. cbn [fst snd] in Hk.
  eapply runs_deref; [exact Hk|]. apply runs_ret. split; [done|]. eexists l, _, fl'.
  split_and!; [exact R3|by apply (good_split Hnd G)|].
  rewrite !live_nodes_app, live_nodes_alloc, !live_nodes_free by done. cbn. solve_Permutation.
Qed.

Lemma take_active_runs sz l xs a ys fl s n :
  sz < 2 ^ 64 → 0 < n ≤ asize a →
  Rep sz (Some l) (xs ++ (l, a) :: ys) fl [] s → Good sz l (xs ++ (l, a) :: ys) →
  runs (take_active n) s (λ r s', r = aoff a ∧ ∃ k ns fl',
    Rep sz (Some k) ns fl' [] s' ∧ Good sz k ns ∧
    live_nodes ns ≡ₚ (aoff a, n) :: live_nodes (xs ++ (l, a) :: ys)).
Proof.
  intros Hsz Hn R G. destruct (decide (n = asize a)) as [->|].
  - apply (take_all_runs sz l xs a ys fl); try done. lia.
  - apply (take_part_runs sz l xs a ys fl); try done. lia.
Qed.

(** What a request for [n] bytes may answer: the offset of an unused range, which
    becomes live, or [kNullOffset] when there is none. *)
Definition allocated_from (n : Z) (s : state) (r : Z) (s' : state) : Prop :=
  wf s' ∧ size_ s' = size_ s ∧
  ((0 ≤ r ∧ r + n ≤ size_ s ∧ Forall (disjoint (r, n)) (live s) ∧
    live s' ≡ₚ (r, n) :: live s) ∨
   (¬ room s n ∧ r = kNullOffset ∧ s' = s)).

Lemma take_allocated s sz l xs a ys fl s1 n :
  0 ≤ sz < kNullOffset → size_ s = sz → 0 < n ≤ asize a →
  Rep sz (Some l) (xs ++ (l, a) :: ys) fl [] s1 → Good sz l (xs ++ (l, a) :: ys) →
  live_nodes (xs ++ (l, a) :: ys) = live s →
  runs (take_active n) s1 (allocated_from n s).
Proof.
  intros Hsz Es Hn R G L. pose proof (rep_locs _ _ _ _ _ R) as Hnd.
  pose proof (good_active_unique _ _ _ Hnd G) as Hfree.
  pose proof (good_bounds _ (l, a) G ltac:(solve_mem)) as Hb. cbn in Hb.
  eapply runs_mono; [eapply take_active_runs; try done; unfold kNullOffset, max_u64 in *; lia|].
  cbn beta. intros r s' (-> & k & ns & fl' & R' & G' & L').
  rewrite L in L'. unfold allocated_from, wf. rewrite (rep_size _ _ _ _ _ _ R'), Es. split_and!.
  - lia.
  - lia.
  - exists k, ns, fl'. by eapply holds_intro.
  - done.
  - left. split_and!; [lia|lia| |by rewrite (rep_live _ _ _ _ _ _ R')].
    rewrite <- L. eapply (region_disjoint xs (l, a)); [done|done|cbn; lia..].
Qed.

Lemma AllocateRegion_runs s n :
  wf s → 0 < n → runs (AllocateRegion n) s (allocated_from n s).
Proof.
  intros (Hsz & l & ns & fl & R & G) Hn.
  destruct (good_active _ _ _ G) as (a & (xs & ys & ->)%list_elem_of_split & Hfree).
  unfold AllocateRegion. apply runs_dcheck; [lia|]. apply runs_get.
  rewrite (rep_active _ _ _ _ _ _ R).
  eapply runs_deref; [by eapply (rep_lookup _ _ xs (l, a) ys)|]. cbn [fst snd rsize mkr].
  pose proof (rep_live _ _ _ _ _ _ R) as Hlive.
  destruct (Z.ltb_spec (asize a) n).
  - eapply runs_bind; [by eapply (AdvanceActive_runs _ l xs a ys)|]. cbn beta.
    intros r s1 [(-> & ws & m & b & zs & fl' & R1 & G1 & Hb & L1)|(-> & -> & Hf)]; cbn [negb].
    + by eapply (take_allocated s (size_ s)); [..|rewrite L1].
    + apply runs_ret. split; [split; [done|]; by exists l, (xs ++ (l, a) :: ys), fl|].
      split; [done|]. right. split; [|done]. intros (p & Hp & Hpn & Hd). rewrite Hlive in Hd. revert Hd.
      by apply (no_room (rep_locs _ _ _ _ _ R) G).
  - eapply (runs_step _ _ _ true s); [done|]. cbn [negb].
    by eapply (take_allocated s (size_ s)).
Qed.

(** C1. Allocating [n > 0] bytes always returns. It returns [kNullOffset], leaving
    the allocator as it was, exactly when no [n] contiguous bytes of the buffer are
    unused; otherwise it returns the offset of a range inside the buffer that is
    disjoint from every live allocation, and this range is what becomes live.
    The invariant is kept. *)
Theorem AllocateRegion_spec s n :
  wf s → 0 < n → ∃ r s', AllocateRegion n @ s ⇒ (r, s') ∧ allocated_from n s r s'.
Proof. intros Hs Hn. destruct (AllocateRegion_runs s n Hs Hn) as (r & s' & ?). eauto. Qed.

(** ** Release *)

(** Between the two coalescing steps of [Release]: the region [c] is free and
    nonempty, and may have a free right neighbour. *)
Record Mid (sz : Z) (l : loc) (ws : list node) (c : loc) (cb : areg) (zs : list node) : Prop := {
  mid_tiles : tiles 0 (ws ++ (c, cb) :: zs) sz;
  mid_left : separated false (ws ++ [(c, cb)]);
  mid_right : separated false zs;
  mid_free : aalloc cb = false;
  mid_pos : 0 < asize cb;
  mid_sized : Forall (sized l) (ws ++ zs);
  mid_active : ∃ a, (l, a) ∈ ws ++ (c, cb) :: zs ∧ aalloc a = false;
}.

Lemma mid_bounds sz l ws c cb zs x :
  Mid sz l ws c cb zs → x ∈ ws ++ (c, cb) :: zs →
  0 ≤ aoff x.2 ∧ 0 ≤ asize x.2 ∧ aoff x.2 + asize x.2 ≤ sz.
Proof.
  intros M Hx. assert (Hnn : Forall (λ x : node, 0 ≤ asize x.2) (ws ++ (c, cb) :: zs)).
  { destruct (proj1 (Forall_app _ _ _) (sized_nonneg _ (mid_sized _ _ _ _ _ _ M))) as [H1 H2].
    apply Forall_app. split; [done|]. constructor; [|done]. cbn.
    pose proof (mid_pos _ _ _ _ _ _ M). lia. }
  pose proof (tiles_bounds _ _ _ _ Hnn (mid_tiles _ _ _ _ _ _ M) Hx).
  rewrite Forall_forall in Hnn. specialize (Hnn x Hx). cbn in Hnn. lia.
Qed.

Lemma separated_false_snoc f ws x :
  separated f (ws ++ [x]) ↔
  separated f ws ∧ (last_free f ws = true → aalloc x.2 = true).
Proof. rewrite separated_app. cbn. tauto. Qed.

(** Freeing a region whose left neighbour is allocated. *)
Lemma mid_keep sz l ws m b zs :
  Good sz l (ws ++ (m, b) :: zs) → aalloc b = true → 0 < asize b →
  last_free false ws = false →
  Mid sz l ws m (mk_areg false (asize b) (aoff b)) zs.
Proof.
  intros [Ht Hs Hp (a & Hin & Ha)] Hb Hpos Hlf.
  apply separated_app in Hs as (Hws & _ & Hzs). cbn in Hzs. rewrite Hb in Hzs.
  apply Forall_app in Hp as [H1 [_ H3]%Forall_cons].
  split; cbn; try done.
  - apply tiles_app in Ht as (e & ? & ?). apply tiles_app. eauto.
  - apply separated_false_snoc. split; [done|]. by rewrite Hlf.
  - by apply Forall_app.
  - exists a. split; [|done]. revert Hin. rewrite !elem_of_app, !elem_of_cons.
    intros [|[[= -> ->]|]]; [tauto|congruence|tauto].
Qed.

(** Freeing a region into its free left neighbour. *)
Lemma mid_merge sz l ws p pb m b zs :
  Good sz l ((ws ++ [(p, pb)]) ++ (m, b) :: zs) → aalloc b = true → 0 < asize b →
  aalloc pb = false →
  Mid sz l ws p (mk_areg false (asize pb + asize b) (aoff pb)) zs.
Proof.
  intros [Ht Hs Hp (a & Hin & Ha)] Hb Hpos Hpb.
  apply separated_app in Hs as (Hws & _ & Hzs). cbn in Hzs. rewrite Hb in Hzs.
  apply Forall_app in Hp as [[H1 [H2 _]%Forall_cons]%Forall_app [_ H3]%Forall_cons].
  destruct H2 as [H2 _]. cbn in H2. split; cbn; try done; try lia.
  - apply tiles_app in Ht as (e & (e' & He' & Hpe)%tiles_app & [He Hz]). cbn in *.
    apply tiles_app. exists e'. split; [done|]. cbn. destruct Hpe as [-> <-].
    split; [done|]. by replace (e' + (asize pb + asize b)) with (e' + asize pb + asize b) by lia.
  - apply separated_false_snoc in Hws as [Hws Hlf]. apply separated_false_snoc. split; [done|].
    cbn in *. by rewrite Hpb in Hlf.
  - by apply Forall_app.
  - revert Hin. rewrite !elem_of_app, !elem_of_cons, elem_of_nil.
    intros [[Hin|[[= -> ->]|[]]]|[[= -> ->]|Hin]].
    + exists a. split; [solve_mem|done].
    + exists (mk_areg false (asize pb + asize b) (aoff pb)). split; [solve_mem|done].
    + congruence.
    + exists a. split; [solve_mem|done].
Qed.

(** The right neighbour is allocated: done. *)
Lemma mid_done sz l ws c cb zs :
  Mid sz l ws c cb zs → (∀ y ys, zs = y :: ys → aalloc y.2 = true) →
  Good sz l (ws ++ (c, cb) :: zs).
Proof.
  intros [Ht Hl Hr Hf Hp Hs Ha] Hn. split; [done| | |done].
  - apply separated_false_snoc in Hl as [Hl Hlf]. apply separated_app. split; [done|].
    cbn in *. rewrite Hf in *. split; [done|]. destruct zs; [done|]. cbn in *.
    split; [eauto|tauto].
  - apply Forall_app in Hs as [H1 H2]. apply Forall_app. split; [done|].
    constructor; [|done]. split; cbn; [lia|done].
Qed.

(** The right neighbour is free: it takes the region over. *)
Lemma mid_absorb sz l ws c cb k kb zs :
  Mid sz l ws c cb ((k, kb) :: zs) → aalloc kb = false →
  NoDup (locs (ws ++ (c, cb) :: (k, kb) :: zs)) →
  Good sz (if decide (l = c) then k else l)
    (ws ++ (k, mk_areg false (asize kb + asize cb) (aoff cb)) :: zs).
Proof.
  intros [Ht Hl Hr Hf Hp Hs (a & Hin & Ha)] Hk Hnd.
  apply Forall_app in Hs as [H1 [[H2 _] H3]%Forall_cons]. cbn in H2.
  split.
  - apply tiles_app in Ht as (e & He & Ho & Ho' & Hz). apply tiles_app. exists e.
    split; [done|]. cbn in *. split; [done|].
    by replace (e + (asize kb + asize cb)) with (e + asize cb + asize kb) by lia.
  - apply separated_false_snoc in Hl as [Hl Hlf]. apply separated_app. split; [done|].
    cbn in *. rewrite Hf in Hlf. rewrite Hk in Hr. split; [done|tauto].
  - assert (Hany : ∀ x, x.1 ≠ c → sized l x → sized (if decide (l = c) then k else l) x).
    { intros x Hx [Hx1 Hx2]. split; [done|]. case_decide; [|done]. intros _. apply Hx2. congruence. }
    apply Forall_app. split; [|constructor; [split; cbn; [lia|lia]|]].
    + rewrite Forall_forall in *. intros x Hx. apply Hany; [|by apply H1].
      intros <-. apply (list_elem_of_fmap_2 fst) in Hx. solve_nodup.
    + rewrite Forall_forall in *. intros x Hx. apply Hany; [|by apply H3].
      intros <-. apply (list_elem_of_fmap_2 fst) in Hx. solve_nodup.
  - case_decide as Hlc.
    + exists (mk_areg false (asize kb + asize cb) (aoff cb)). split; [solve_mem|done].
    + revert Hin. rewrite !elem_of_app, !elem_of_cons.
      intros [Hin|[[= -> ->]|[[= -> ->]|Hin]]].
      * exists a. split; [solve_mem|done].
      * done.
      * exists (mk_areg false (asize kb + asize cb) (aoff cb)). split; [solve_mem|done].
      * exists a. split; [solve_mem|done].
Qed.

Lemma live_without m b ws zs :
  aalloc b = false → live_nodes (ws ++ (m, b) :: zs) = live_nodes (ws ++ zs).
Proof. intros Hb. by rewrite !live_nodes_app, live_nodes_free. Qed.

(** The first half of the loop body: free the region and merge it to the left. *)
Lemma release_left_runs sz l ws m b zs fl s {A} (k : loc → prog state A) Q :
  sz < 2 ^ 64 →
  Rep sz (Some l) (ws ++ (m, b) :: zs) fl [] s → Good sz l (ws ++ (m, b) :: zs) →
  aalloc b = true → 0 < asize b →
  (∀ c ws' cb fl' s', Rep sz (Some l) (ws' ++ (c, cb) :: zs) fl' [] s' →
     Mid sz l ws' c cb zs → live_nodes ws' = live_nodes ws → runs (k c) s' Q) →
  runs (_ ← update (Some m) (with_allocated false);
        l ← (match last_or None ws with
             | Some p =>
                 '(_, rp) ← deref (Some p);
                 if negb (allocated rp) then
                   _ ← update (Some p) (with_size (u64 (rsize rp + asize b)));
                   _ ← remove (Some m);
                   _ ← put_free (Some m);
                   mret p
                 else mret m
             | None => mret m
             end);
        k l) s Q.
Proof.
  intros Hsz R G Hb Hpos Hk.
  pose proof (rep_lookup sz _ ws (m, b) zs _ _ _ R) as Hm. cbn [fst snd] in Hm.
  eapply runs_update; [done|]. set (b' := mk_areg false (asize b) (aoff b)).
  pose proof (rep_update_node sz _ ws m b b' zs _ _ _ R) as R1.
  change (with_allocated false (mkr b (last_or None ws) (head_or zs None)))
    with (mkr b' (last_or None ws) (head_or zs None)).
  revert R1. set (s1 := set_heap _ s). intros R1. clearbody s1.
  destruct (last_snoc_cases ws) as [->|(ws' & [p pb] & ->)].
  - eapply runs_step; [done|]. eapply Hk; [done|by apply mid_keep|done].
  - rewrite last_or_snoc. cbn [fst].
    pose proof R1 as R1'. rewrite <- (assoc_L (++)) in R1'. cbn [app] in R1'.
    pose proof (rep_lookup sz _ ws' (p, pb) _ _ _ _ R1') as Hp. cbn [fst snd] in Hp.
    eapply runs_bind; [|intros c s' HQ; exact HQ].
    eapply runs_deref; [exact Hp|]. cbn [allocated mkr].
    destruct (aalloc pb) eqn:Hpb; cbn [negb].
    + apply runs_ret. eapply Hk; [exact R1| |done]. apply mid_keep; [done..|].
      by rewrite last_free_snoc; cbn; rewrite Hpb.
    + pose proof (good_bounds _ (p, pb) G ltac:(solve_mem)) as Bp.
      pose proof (good_bounds _ (m, b) G ltac:(solve_mem)) as Bm. cbn in Bp, Bm.
      pose proof (mid_merge _ _ _ _ _ _ _ _ G Hb Hpos Hpb) as M.
      pose proof (mid_bounds _ _ _ _ _ _ (p, _) M ltac:(solve_mem)) as Bn. cbn in Bn.
      eapply runs_update; [exact Hp|]. cbn [rsize mkr].
      rewrite uwrap_small by (unfold is_u; lia).
      pose proof (rep_update_node sz _ ws' p pb (mk_areg false (asize pb + asize b) (aoff pb))
        _ _ _ _ R1') as R2.
      unfold with_size. cbn [allocated roffset prev next mkr]. rewrite Hpb.
      unfold mkr in R2. cbn [aalloc asize aoff] in R2.
      eapply (retire_runs sz _ (ws' ++ [(p, _)])).
      { rewrite <- (assoc_L (++)). exact R2. }
      intros s' R3. rewrite <- (assoc_L (++)) in R3. apply runs_ret.
      eapply Hk; [exact R3|done|]. rewrite live_nodes_app, live_nodes_free by done.
      by rewrite app_nil_r.
Qed.

(** The second half: merge the freed region to the right. *)
Lemma release_right_runs sz l ws c cb zs fl s :
  sz < 2 ^ 64 →
  Rep sz (Some l) (ws ++ (c, cb) :: zs) fl [] s → Mid sz l ws c cb zs →
  runs ('(_, r) ← deref (Some c);
        match next r with
        | Some n =>
            '(_, rn) ← deref (Some n);
            if negb (allocated rn) then
              _ ← update (Some n) (with_offset (roffset r));
              _ ← update (Some n) (with_size (u64 (rsize rn + rsize r)));
              s ← getS;
              _ ← whenS (bool_decide (active_ s = Some c)) (modS (set_active (Some n)));
              _ ← remove (Some c);
              _ ← put_free (Some c);
              mret true
            else mret true
        | None => mret true
        end) s
    (λ r s', r = true ∧ ∃ l' ns fl', Rep sz (Some l') ns fl' [] s' ∧ Good sz l' ns ∧
       live_nodes ns = live_nodes (ws ++ zs)).
Proof.
  intros Hsz R M. pose proof (mid_free _ _ _ _ _ _ M) as Hfree.
  pose proof (rep_locs _ _ _ _ _ R) as Hnd.
  pose proof (rep_lookup sz _ ws (c, cb) zs _ _ _ R) as Hc. cbn [fst snd] in Hc.
  eapply runs_deref; [exact Hc|]. cbn [next roffset rsize mkr].
  assert (Hdone : (∀ y ys, zs = y :: ys → aalloc y.2 = true) →
    runs (mret true) s (λ r s', r = true ∧ ∃ l' ns fl', Rep sz (Some l') ns fl' [] s' ∧
      Good sz l' ns ∧ live_nodes ns = live_nodes (ws ++ zs))).
  { intros Hz. apply runs_ret. split; [done|]. exists l, (ws ++ (c, cb) :: zs), fl.
    split_and!; [done|by apply mid_done|by apply live_without]. }
  destruct zs as [|[n nb] zs]; cbn [head_or fst]; [by apply Hdone|].
  assert (R1 : Rep sz (Some l) ((ws ++ [(c, cb)]) ++ (n, nb) :: zs) fl [] s)
    by by rewrite <- (assoc_L (++)).
  pose proof (rep_lookup sz _ (ws ++ [(c, cb)]) (n, nb) zs _ _ _ R1) as Hn. cbn [fst snd] in Hn.
  eapply runs_deref; [exact Hn|]. cbn [allocated rsize mkr].
  destruct (aalloc nb) eqn:Hnb; cbn [negb].
  { apply Hdone. by intros ? ? [= <- _]. }
  pose proof (mid_absorb _ _ _ _ _ _ _ _ M Hnb Hnd) as G'.
  pose proof (mid_bounds _ _ _ _ _ _ (n, nb) M ltac:(solve_mem)) as Bn.
  pose proof (mid_bounds _ _ _ _ _ _ (c, cb) M ltac:(solve_mem)) as Bc.
  pose proof (good_bounds _ (n, _) G' ltac:(solve_mem)) as Bm. cbn in Bn, Bc, Bm.
  eapply runs_update; [exact Hn|]. eapply runs_update; [cbn; by rewrite lookup_insert_eq|].
  cbn [heap set_heap]. rewrite insert_insert_eq, set_heap_set_heap.
  rewrite uwrap_small by (unfold is_u; lia). apply runs_get.
  pose proof (rep_update_node sz _ (ws ++ [(c, cb)]) n nb
    (mk_areg false (asize nb + asize cb) (aoff cb)) zs _ _ _ R1) as R2.
  unfold with_size, with_offset. cbn [allocated rsize roffset prev next mkr]. rewrite Hnb.
  unfold mkr in R2. cbn [aalloc asize aoff] in R2.
  revert R2. set (s2 := set_heap _ _). intros R2. rewrite (rep_active _ _ _ _ _ _ R2).
  eapply (runs_bind _ _ _ (λ _, Rep sz (Some (if decide (l = c) then n else l))
    (ws ++ (c, cb) :: (n, mk_areg false (asize nb + asize cb) (aoff cb)) :: zs) fl [])).
  { rewrite <- (assoc_L (++)) in R2. unfold whenS. destruct (decide (l = c)) as [->|Hlc].
    - rewrite bool_decide_true by done. apply runs_mod_last. by eapply rep_set_active.
    - rewrite bool_decide_false by congruence. by apply runs_ret. }
  intros _ s3 R3. eapply retire_runs; [exact R3|]. intros s4 R4. apply runs_ret.
  split; [done|]. eexists _, _, _. split_and!; [exact R4|exact G'|].
  by rewrite !live_nodes_app, !live_nodes_free.
Qed.

Lemma release_at_runs sz l ws m b zs fl s :
  sz < 2 ^ 64 →
  Rep sz (Some l) (ws ++ (m, b) :: zs) fl [] s → Good sz l (ws ++ (m, b) :: zs) →
  aalloc b = true → 0 < asize b →
  runs (release_at (asize b) m) s (λ r s', r = true ∧ ∃ l' ns fl',
    Rep sz (Some l') ns fl' [] s' ∧ Good sz l' ns ∧ live_nodes ns = live_nodes (ws ++ zs)).
Proof.
  intros Hsz R G Hb Hpos. unfold release_at.
  pose proof (rep_lookup sz _ ws (m, b) zs _ _ _ R) as Hm. cbn [fst snd] in Hm.
  eapply runs_deref; [exact Hm|]. cbn [allocated rsize prev mkr].
  apply runs_dcheck; [done|]. apply runs_dcheck; [lia|].
  eapply release_left_runs; [done|exact R|done..|]. intros c ws' cb fl' s' R' M' L'.
  eapply runs_mono; [by eapply release_right_runs|]. cbn beta.
  intros r s2 (-> & l2 & ns & fl2 & R2 & G2 & L2). split; [done|]. exists l2, ns, fl2.
  split_and!; [done..|]. by rewrite L2, !live_nodes_app, L'.
Qed.

(** What releasing the range [(o, n)] does. *)
Definition released_from (o n : Z) (s s' : state) : Prop :=
  wf s' ∧ size_ s' = size_ s ∧ live s ≡ₚ (o, n) :: live s'.

Lemma release_found_runs l ws m b zs fl s :
  0 ≤ size_ s < kNullOffset →
  Rep (size_ s) (Some l) (ws ++ (m, b) :: zs) fl [] s →
  Good (size_ s) l (ws ++ (m, b) :: zs) → aalloc b = true → 0 < asize b →
  runs (release_at (asize b) m) s (λ r s', r = true ∧ released_from (aoff b) (asize b) s s').
Proof.
  intros Hsz R G Hb Hpos. eapply runs_mono.
  { eapply release_at_runs; try done. unfold kNullOffset, max_u64 in *. lia. }
  cbn beta. intros r s' (-> & l' & ns & fl' & R' & G' & L'). split; [done|].
  unfold released_from, wf. rewrite (rep_size _ _ _ _ _ _ R'), (rep_live _ _ _ _ _ _ R),
    (rep_live _ _ _ _ _ _ R'), L'. split_and!; [lia|lia|exists l', ns, fl'; by eapply holds_intro|done|].
  rewrite !live_nodes_app, live_nodes_alloc by done. cbn. solve_Permutation.
Qed.

Lemma Release_loop n o b e s :
  bool_decide (b ≠ None) || bool_decide (e = None) = true →
  Release n o b e s =
  for_region (heap_fuel s) b e (λ r, roffset r =? o) (release_at n) s.
Proof. intros Hb. unfold Release. by erewrite prog_bind_run by by apply dcheckS_true. Qed.

Lemma ReleaseRegion_runs s o n :
  wf s → (o, n) ∈ live s → runs (ReleaseRegion n o) s (λ _, released_from o n s).
Proof.
  intros (Hsz & l & ns & fl & R & G) Hlive.
  destruct (good_active _ _ _ G) as (a & (xs & ys & ->)%list_elem_of_split & Hfree).
  pose proof (rep_locs _ _ _ _ _ R) as Hnd. rewrite (rep_live _ _ _ _ _ _ R) in Hlive.
  pose proof (rep_fuel _ _ _ _ _ _ R) as Hfuel. rewrite length_app in Hfuel. cbn in Hfuel.
  assert (Hfound : ∀ m b, (m, b) ∈ xs ++ ys → aoff b = o →
    runs (release_at n m) s (λ r s', r = true ∧ released_from o n s s')).
  { intros m b Hin <-. pose proof (live_region Hnd G m b n Hin Hlive) as [Hb <-].
    pose proof (others_sized Hnd G) as Hp. rewrite Forall_forall in Hp. specialize (Hp _ Hin).
    assert (Hin' : (m, b) ∈ xs ++ (l, a) :: ys) by (revert Hin; solve_mem).
    apply list_elem_of_split in Hin' as (ws & zs & E). rewrite E in R, G.
    by eapply release_found_runs. }
  unfold ReleaseRegion. apply runs_get. rewrite (rep_active _ _ _ _ _ _ R).
  eapply runs_deref; [by eapply (rep_lookup _ _ xs (l, a) ys)|]. cbn [fst snd next mkr].
  set (test := λ a, aoff a =? o).
  assert (R2 : Rep (size_ s) (Some l) ((xs ++ [(l, a)]) ++ ys ++ []) fl [] s)
    by by rewrite app_nil_r, <- (assoc_L (++)).
  pose proof (Release_loop n o (head_or ys None) None s (orb_true_r _)) as Hfst.
  destruct (for_region_run (size_ s) (λ r, roffset r =? o) test (release_at n) (Some l) fl s
    ltac:(done) ys (heap_fuel s) _ _ R2 ltac:(lia)) as [(y1 & m & b & y2 & -> & Ht & E)|[Hf1 E]];
    rewrite app_nil_r in E; cbn [head_or] in E; rewrite E in Hfst.
  - destruct (Hfound m b) as (r & s' & Er & -> & HQ); [solve_mem|unfold test in Ht; lia|].
    rewrite Er in Hfst. eapply runs_step; [exact Hfst|]. cbn iota.
    eapply runs_step; [done|]. exists tt, s'. split; [by apply dcheckS_true|done].
  - eapply runs_step; [exact Hfst|]. cbn iota.
    assert (Hsnd : (s0 ← getS; Release n o (front_ s0) (active_ s0)) s =
      for_region (heap_fuel s) (head_or (xs ++ (l, a) :: ys) None) (Some l)
        (λ r, roffset r =? o) (release_at n) s).
    { etransitivity; [by apply (prog_bind_run _ _ s s s)|].
      rewrite (rep_front _ _ _ _ _ _ R), (rep_active _ _ _ _ _ _ R).
      by apply Release_loop; destruct xs. }
    destruct (for_region_run (size_ s) (λ r, roffset r =? o) test (release_at n) (Some l) fl s
      ltac:(done) xs (heap_fuel s) [] _ R ltac:(lia)) as [(y1 & m & b & y2 & -> & Ht & E')|[Hf2 E']];
      cbn [head_or fst] in E'; rewrite E' in Hsnd.
    + destruct (Hfound m b) as (r & s' & Er & -> & HQ); [solve_mem|unfold test in Ht; lia|].
      rewrite Er in Hsnd. eapply runs_step; [exact Hsnd|].
      exists tt, s'. split; [by apply dcheckS_true|done].
    + exfalso. apply elem_of_live_nodes in Hlive as (x & Hx & Hxa & Hxo & _).
      rewrite Forall_forall in Hf1, Hf2. unfold test in *.
      apply elem_of_app in Hx as [Hx|[->|Hx]%elem_of_cons].
      * specialize (Hf2 _ Hx). cbn in Hf2. lia.
      * cbn in Hxa. congruence.
      * specialize (Hf1 _ Hx). cbn in Hf1. lia.
Qed.

(** C2. Releasing a live allocation always returns, removes exactly that
    allocation from the live ones, and keeps the invariant: in particular the freed
    bytes are merged with their free neighbours. *)
Theorem ReleaseRegion_spec s o n :
  wf s → (o, n) ∈ live s →
  ∃ s', ReleaseRegion n o @ s ⇒ (tt, s') ∧ released_from o n s s'.
Proof. intros Hs Ho. destruct (ReleaseRegion_runs s o n Hs Ho) as ([] & s' & ?). eauto. Qed.

End WithBuild.

(** ** Concrete allocators *)

(** A new allocator of 100 bytes, and the same with 10 of them allocated. *)
Definition sample : state :=
  match @construct debug_build 100 with
  | Ok s => s
  | Fault _ => mk_state 0 None None None None ∅
  end.
Definition sample_used : state :=
  match @AllocateRegion debug_build 10 sample with
  | Ok (_, s) => s
  | Fault _ => sample
  end.

Lemma sample_wf : wf sample.
Proof.
  destruct (@construct_runs debug_build 100) as (s & E & W & _); [by concrete|].
  unfold sample. by rewrite E.
Qed.

Lemma sample_allocate : @AllocateRegion debug_build 10 sample = Ok (0, sample_used).
Proof. vm_compute. reflexivity. Qed.

Lemma sample_used_wf : wf sample_used.
Proof.
  destruct (@AllocateRegion_runs debug_build sample 10 sample_wf) as (r & s & E & W & _); [lia|].
  unfold sample_used. by rewrite E.
Qed.

Lemma destruct_no_leak_witness :
  ∃ s', destruct_ @ sample_used ⇒ (tt, s') ∧ heap s' = ∅.
Proof. apply destruct_no_leak, sample_used_wf. Defined.

Lemma AllocateRegion_spec_witness :
  (∃ r s', @AllocateRegion debug_build 20 @ sample_used ⇒ (r, s') ∧
     allocated_from 20 sample_used r s') ∧
  (∃ r s', @AllocateRegion debug_build 91 @ sample_used ⇒ (r, s') ∧
     allocated_from 91 sample_used r s').
Proof.
  split; apply (@AllocateRegion_spec debug_build); try lia; apply sample_used_wf.
Defined.

Lemma ReleaseRegion_spec_witness :
  ∃ s', @ReleaseRegion debug_build 10 0 @ sample_used ⇒ (tt, s') ∧
    released_from 0 10 sample_used s'.
Proof.
  apply (@ReleaseRegion_spec debug_build); [apply sample_used_wf|].
  vm_compute. left.
Defined.

End FifoSpec.
