(* ===== verification/SharedBuffer.v ===== *)
(** [MappedSharedBuffer] and [SharedMediaBufferAllocator] of
    mojo/services/media/common/cpp: a shared buffer mapped into the address space,
    with offset/pointer translation, and the allocator of regions of it.

    The allocator is used through an interface, [RegionAllocator], which states
    what the class relies on; [FifoAllocator] is its instance.  The mojo system
    calls are not part of the repository: they are parameters, with their
    documented behaviour as hypotheses.  A pointer is an address; 0 is null. *)

From S2P Require Import Prelude FifoAllocator FifoSpec.

(** ** What an allocator of regions promises *)

(** The operations, and the abstract state they are specified by: the size of the
    buffer and the live allocations, as pairs of offset and size. *)
Class RegionAllocator (St : Type) := {
  ra_construct : Z → outcome St;
  ra_reset : Z → prog St unit;
  ra_allocate : Z → prog St Z;
  ra_release : Z → Z → prog St unit;
  ra_inv : St → Prop;
  ra_size : St → Z;
  ra_live : St → list (Z * Z);
}.

Definition ra_room {St} `{RegionAllocator St} (s : St) (n : Z) : Prop :=
  ∃ o, 0 ≤ o ∧ o + n ≤ ra_size s ∧ Forall (FifoAllocator.disjoint (o, n)) (ra_live s).

Class RegionAllocatorLaws (St : Type) `{RegionAllocator St} : Prop := {
  ra_construct_ok size :
    0 ≤ size < FifoAllocator.kNullOffset →
    ∃ s, ra_construct size = Ok s ∧ ra_inv s ∧ ra_live s = [] ∧ ra_size s = size;
  ra_reset_ok s size :
    0 ≤ size < FifoAllocator.kNullOffset → ra_inv s →
    runs (ra_reset size) s (λ _ s', ra_inv s' ∧ ra_live s' = [] ∧ ra_size s' = size);
  ra_allocate_ok s n :
    ra_inv s → 0 < n →
    runs (ra_allocate n) s (λ r s', ra_inv s' ∧ ra_size s' = ra_size s ∧
      ((0 ≤ r ∧ r + n ≤ ra_size s ∧ Forall (FifoAllocator.disjoint (r, n)) (ra_live s) ∧
        ra_live s' ≡ₚ (r, n) :: ra_live s) ∨
       (¬ ra_room s n ∧ r = FifoAllocator.kNullOffset ∧ s' = s)));
  ra_release_ok s o n :
    ra_inv s → (o, n) ∈ ra_live s →
    runs (ra_release n o) s (λ _ s', ra_inv s' ∧ ra_size s' = ra_size s ∧
      ra_live s ≡ₚ (o, n) :: ra_live s');
  ra_size_ok s : ra_inv s → 0 ≤ ra_size s < FifoAllocator.kNullOffset;
}.

#[export] Instance fifo_allocator `{Build} : RegionAllocator FifoAllocator.state := {|
  ra_construct := FifoAllocator.construct;
  ra_reset := FifoAllocator.Reset;
  ra_allocate := FifoAllocator.AllocateRegion;
  ra_release := FifoAllocator.ReleaseRegion;
  ra_inv := FifoSpec.wf;
  ra_size := FifoAllocator.size_;
  ra_live := FifoAllocator.live;
|}.

#[export] Instance fifo_allocator_laws `{Build} : RegionAllocatorLaws FifoAllocator.state.
Proof.
  split; cbn.
  - apply FifoSpec.construct_runs.
  - intros s size Hsz (_ & l & ns & fl & R & _). apply FifoSpec.Reset_runs; [done|].
    left. by exists ns, fl, (FifoAllocator.size_ s), (Some l).
  - intros s n Hs Hn. by apply FifoSpec.AllocateRegion_runs.
  - intros s o n Hs Ho. by apply FifoSpec.ReleaseRegion_runs.
  - by intros s [? _].
Qed.

Module SharedBuffer.

(** The result codes and calls of the mojo system, and where it maps buffers. *)
Class MojoSystem := {
  handle : Type;
  is_valid : handle → bool;
  new_shared_buffer : Z → handle;
  get_buffer_information : handle → bool * Z;
  map_buffer : handle → Z → Z → bool * Z;
  duplicate_buffer : handle → handle;
}.

(** Documented behaviour of the calls: a new buffer has a valid handle and at least
    the requested size, a duplicate of a handle is a handle of the same buffer, and mapping a buffer succeeds with a non-null address such
    that the mapped range fits the address space. *)
Class MojoSystemLaws `{MojoSystem} : Prop := {
  new_shared_buffer_ok size :
    0 < size < 2 ^ 63 → is_valid (new_shared_buffer size) = true;
  get_buffer_information_ok size :
    0 < size < 2 ^ 63 →
    ∃ z, get_buffer_information (new_shared_buffer size) = (true, z) ∧ size ≤ z < 2 ^ 63;
  map_buffer_ok h z :
    is_valid h = true → get_buffer_information h = (true, z) → 0 < z < 2 ^ 63 →
    ∃ p, map_buffer h 0 z = (true, p) ∧ 0 < p ∧ p + z ≤ 2 ^ 64;
  duplicate_buffer_ok h :
    is_valid (duplicate_buffer h) = is_valid h ∧ get_buffer_information (duplicate_buffer h) = get_buffer_information h;
}.

Section Client.
Context {St : Type} `{RA : RegionAllocator St} `{MS : MojoSystem} `{BD : Build}.

(** The members of both classes. *)
Record state := mk_state {
  size_ : Z;
  buffer_ : option handle;
  handle_ : option handle;
  buffer_ptr_ : Z;
  fifo_allocator_ : St;
}.

Definition set_fifo (f : St) (s : state) : state :=
  mk_state (size_ s) (buffer_ s) (handle_ s) (buffer_ptr_ s) f.

(** [lock_guard lock(lock_); fifo_allocator_.f(...)]: the lock makes the call atomic. *)
Definition with_fifo {A} (m : prog St A) : prog state A := λ s,
  match m (fifo_allocator_ s) with
  | Ok (a, f) => Ok (a, set_fifo f s)
  | Fault e => Fault e
  end.

(** [SharedMediaBufferAllocator()]: [size_] is not initialised. *)
Definition construct (uninitialized : Z) : outcome state :=
  f ← ra_construct 0; Ok (mk_state uninitialized None None 0 f).

(** [SharedMediaBufferAllocator::OnInit] *)
Definition OnInit : prog state unit :=
  s ← getS; with_fifo (ra_reset (size_ s)).

(** [MappedSharedBuffer::InitInternal] *)
Definition InitInternal (h : handle) : prog state unit :=
  _ ← dcheckS (is_valid h);
  let '(res, size) := get_buffer_information h in
  _ ← dcheckS res;
  _ ← dcheckS (0 <? size);
  _ ← modS (λ s, mk_state size (buffer_ s) (handle_ s) 0 (fifo_allocator_ s));
  let '(result, p) := map_buffer h 0 size in
  _ ← dcheckS result;
  _ ← dcheckS (negb (p =? 0));
  _ ← modS (λ s, mk_state (size_ s) (buffer_ s) (handle_ s) p (fifo_allocator_ s));
  OnInit.

(** [MappedSharedBuffer::InitNew] *)
Definition InitNew (size : Z) : prog state unit :=
  _ ← dcheckS (0 <? size);
  let h := new_shared_buffer size in
  _ ← modS (λ s, mk_state (size_ s) (Some h) None (buffer_ptr_ s) (fifo_allocator_ s));
  InitInternal h.

(** [MappedSharedBuffer::InitFromHandle] *)
Definition InitFromHandle (h : handle) : prog state unit :=
  _ ← dcheckS (is_valid h);
  _ ← modS (λ s, mk_state (size_ s) None (Some h) (buffer_ptr_ s) (fifo_allocator_ s));
  InitInternal h.

(** [MappedSharedBuffer::initialized] *)
Definition initialized (s : state) : bool := negb (buffer_ptr_ s =? 0).

(** [MappedSharedBuffer::GetDuplicateHandle]; [None] is an invalid handle. *)
Definition GetDuplicateHandle : prog state (option handle) :=
  s ← getS;
  _ ← dcheckS (initialized s);
  match buffer_ s with
  | Some h => mret (Some (duplicate_buffer h))
  | None =>
      _ ← dcheckS (match handle_ s with Some h => is_valid h | None => false end);
      mret (duplicate_buffer <$> handle_ s)
  end.

(** [MappedSharedBuffer::PtrFromOffset] *)
Definition PtrFromOffset (offset : Z) : prog state Z :=
  s ← getS;
  _ ← dcheckS (initialized s);
  if offset =? FifoAllocator.kNullOffset then mret 0
  else
    _ ← dcheckS (offset <? size_ s);
    mret (u64 (buffer_ptr_ s + offset)).

(** [MappedSharedBuffer::OffsetFromPtr] *)
Definition OffsetFromPtr (p : Z) : prog state Z :=
  s ← getS;
  _ ← dcheckS (initialized s);
  if p =? 0 then mret FifoAllocator.kNullOffset
  else
    let offset := u64 (p - buffer_ptr_ s) in
    _ ← dcheckS (offset <? size_ s);
    mret offset.

(** [SharedMediaBufferAllocator::AllocateRegionByOffset] and
    [ReleaseRegionByOffset] *)
Definition AllocateRegionByOffset (size : Z) : prog state Z := with_fifo (ra_allocate size).
Definition ReleaseRegionByOffset (size offset : Z) : prog state unit :=
  with_fifo (ra_release size offset).

(** [SharedMediaBufferAllocator::AllocateRegion] *)
Definition AllocateRegion (size : Z) : prog state Z :=
  offset ← AllocateRegionByOffset size; PtrFromOffset offset.

(** [SharedMediaBufferAllocator::ReleaseRegion] *)
Definition ReleaseRegion (size p : Z) : prog state unit :=
  offset ← OffsetFromPtr p; ReleaseRegionByOffset size offset.

(** ** Contract *)

(** A mapped buffer whose allocator manages exactly its bytes. *)
Record ready (s : state) : Prop := {
  ready_inv : ra_inv (fifo_allocator_ s);
  ready_size : ra_size (fifo_allocator_ s) = size_ s;
  ready_mapped : 0 < buffer_ptr_ s;
  ready_fits : buffer_ptr_ s + size_ s ≤ 2 ^ 64;
}.

(** The live allocations as pointer ranges. *)
Definition live_ptrs (s : state) : list (Z * Z) :=
  (λ x, (buffer_ptr_ s + x.1, x.2)) <$> ra_live (fifo_allocator_ s).

Context `{!RegionAllocatorLaws St}.

Lemma runs_with_fifo {A} (m : prog St A) s Q :
  runs m (fifo_allocator_ s) (λ a f, Q a (set_fifo f s)) → runs (with_fifo m) s Q.
Proof.
  intros (a & f & E & HQ). exists a, (set_fifo f s). split; [|done].
  unfold with_fifo. by rewrite E.
Qed.

Lemma PtrFromOffset_run s o :
  ready s → 0 ≤ o < size_ s → PtrFromOffset o @ s ⇒ (buffer_ptr_ s + o, s).
Proof.
  intros [Hi Hs Hm Hf] Ho. pose proof (ra_size_ok _ Hi) as Hsz.
  unfold PtrFromOffset. erewrite prog_bind_run by done. unfold initialized.
  erewrite prog_bind_run by (apply dcheckS_true; lia).
  destruct (Z.eqb_spec o FifoAllocator.kNullOffset); [lia|].
  erewrite prog_bind_run by (apply dcheckS_true; lia).
  rewrite uwrap_small by (unfold is_u; lia). done.
Qed.

Lemma OffsetFromPtr_run s o :
  ready s → 0 ≤ o < size_ s → OffsetFromPtr (buffer_ptr_ s + o) @ s ⇒ (o, s).
Proof.
  intros [Hi Hs Hm Hf] Ho. unfold OffsetFromPtr. erewrite prog_bind_run by done.
  unfold initialized. erewrite prog_bind_run by (apply dcheckS_true; lia).
  destruct (Z.eqb_spec (buffer_ptr_ s + o) 0); [lia|].
  replace (buffer_ptr_ s + o - buffer_ptr_ s) with o by lia.
  rewrite uwrap_small by (unfold is_u; lia).
  erewrite prog_bind_run by (apply dcheckS_true; lia). done.
Qed.

Lemma AllocateRegion_ptr_runs s n :
  ready s → 0 < n →
  runs (AllocateRegion n) s (λ p s', ready s' ∧ buffer_ptr_ s' = buffer_ptr_ s ∧ size_ s' = size_ s ∧
    ((buffer_ptr_ s ≤ p ∧ p + n ≤ buffer_ptr_ s + size_ s ∧
      Forall (FifoAllocator.disjoint (p, n)) (live_ptrs s) ∧
      live_ptrs s' ≡ₚ (p, n) :: live_ptrs s) ∨
     (p = 0 ∧ s' = s ∧ ¬ ra_room (fifo_allocator_ s) n))).
Proof.
  intros [Hi Hs Hm Hf] Hn. unfold AllocateRegion, AllocateRegionByOffset.
  destruct (ra_allocate_ok _ n Hi Hn) as (r & f & E & Hi' & Hs' & Hcase).
  eapply (runs_step _ _ _ r (set_fifo f s)); [unfold with_fifo; by rewrite E|].
  assert (Hr : ready (set_fifo f s)) by (split; cbn; try done; congruence).
  destruct Hcase as [(H1 & H2 & H3 & H4)|(H1 & -> & ->)].
  - exists (buffer_ptr_ s + r), (set_fifo f s). split; [apply (PtrFromOffset_run (set_fifo f s)); cbn; [done|lia]|].
    split_and!; [done..|]. left. split_and!; [lia|lia| |].
    + unfold live_ptrs. apply Forall_fmap. eapply Forall_impl; [exact H3|].
      intros [o z]. unfold FifoAllocator.disjoint. cbn. lia.
    + unfold live_ptrs. cbn. by rewrite H4.
  - assert (set_fifo (fifo_allocator_ s) s = s) as -> by by destruct s.
    exists 0, s. split; [|split_and!; [done..|by right]].
    unfold PtrFromOffset. erewrite prog_bind_run by done. unfold initialized.
    erewrite prog_bind_run by (apply dcheckS_true; lia). by rewrite Z.eqb_refl.
Qed.

Lemma ReleaseRegion_ptr_runs s p n :
  ready s → (p, n) ∈ live_ptrs s → p < buffer_ptr_ s + size_ s → buffer_ptr_ s ≤ p →
  runs (ReleaseRegion n p) s (λ _ s', ready s' ∧ buffer_ptr_ s' = buffer_ptr_ s ∧
    size_ s' = size_ s ∧ live_ptrs s ≡ₚ (p, n) :: live_ptrs s').
Proof.
  intros R Hin Hlt Hle. pose proof R as [Hi Hs Hm Hf].
  apply list_elem_of_fmap in Hin as ([o z] & [= -> ->] & Hin). cbn [fst snd] in *.
  unfold ReleaseRegion. eapply runs_step; [apply OffsetFromPtr_run; [done|lia]|].
  apply runs_with_fifo. eapply runs_mono; [by apply ra_release_ok|]. cbn beta.
  intros _ f (Hi' & Hs' & Hl'). split_and!; try done.
  - split; cbn; try done. congruence.
  - unfold live_ptrs. cbn. by rewrite Hl'.
Qed.

(** [SharedMediaBufferAllocator::AllocateRegion] on a ready buffer always
    returns: null with nothing changed when no unused range of [n] bytes is left,
    and otherwise a pointer to [n] bytes inside the mapping that overlap no range
    handed out before and not yet released. *)
Lemma AllocateRegion_ptr_spec s n :
  ready s → 0 < n →
  ∃ p s', AllocateRegion n @ s ⇒ (p, s') ∧ ready s' ∧
    ((buffer_ptr_ s ≤ p ∧ p + n ≤ buffer_ptr_ s + size_ s ∧
      Forall (FifoAllocator.disjoint (p, n)) (live_ptrs s) ∧
      live_ptrs s' ≡ₚ (p, n) :: live_ptrs s) ∨
     (p = 0 ∧ s' = s ∧ ¬ ra_room (fifo_allocator_ s) n)).
Proof.
  intros Hs Hn. destruct (AllocateRegion_ptr_runs s n Hs Hn) as (p & s' & E & R & _ & _ & HQ). eauto.
Qed.

(** Releasing the pointer an allocation returned, with the size asked for,
    returns and restores the set of live ranges. *)
Lemma AllocateRegion_release s n p s' :
  ready s → 0 < n → AllocateRegion n @ s ⇒ (p, s') → p ≠ 0 →
  ∃ s'', ReleaseRegion n p @ s' ⇒ (tt, s'') ∧ ready s'' ∧ live_ptrs s'' ≡ₚ live_ptrs s.
Proof.
  intros Hs Hn E Hp.
  destruct (AllocateRegion_ptr_runs s n Hs Hn) as (p' & s1 & E' & R & Hb & Hz & HQ).
  rewrite E in E'. injection E' as <- <-. destruct HQ as [(H1 & H2 & _ & HL)|[? _]]; [|done].
  destruct (ReleaseRegion_ptr_runs s' p n R) as ([] & s2 & E2 & R2 & _ & _ & HL2).
  - rewrite HL. left.
  - rewrite Hb, Hz. lia.
  - rewrite Hb. lia.
  - exists s2. split_and!; [done..|]. rewrite HL2 in HL. by apply Permutation_cons_inv in HL.
Qed.

Context `{!MojoSystemLaws}.

(** Mapping a buffer by a valid handle, whatever the object held. *)
Lemma InitInternal_runs (Q : St → Prop) s h z :
  is_valid h = true → get_buffer_information h = (true, z) → 0 < z < 2 ^ 63 →
  runs (ra_reset z) (fifo_allocator_ s) (λ _ f, Q f) →
  runs (InitInternal h) s (λ _ s', size_ s' = z ∧ 0 < buffer_ptr_ s' ∧ buffer_ptr_ s' + z ≤ 2 ^ 64 ∧
    buffer_ s' = buffer_ s ∧ handle_ s' = handle_ s ∧ Q (fifo_allocator_ s')).
Proof.
  intros Hv Ei Hz Hr. destruct (map_buffer_ok _ _ Hv Ei Hz) as (p & Em & Hp & Hpz).
  unfold InitInternal. apply runs_dcheck; [done|]. rewrite Ei. apply runs_dcheck; [done|].
  apply runs_dcheck; [lia|]. apply runs_mod. rewrite Em. apply runs_dcheck; [done|].
  apply runs_dcheck; [lia|]. apply runs_mod. unfold OnInit. apply runs_get.
  apply runs_with_fifo. eapply runs_mono; [exact Hr|]. cbn. intros. by split_and!.
Qed.

(** [InitNew] keeps the handle of the buffer that it mapped. *)
Lemma InitNew_runs s size :
  ra_inv (fifo_allocator_ s) → 0 < size < 2 ^ 63 →
  runs (InitNew size) s (λ _ s', ready s' ∧ live_ptrs s' = [] ∧ size ≤ size_ s' < 2 ^ 63 ∧
    buffer_ s' = Some (new_shared_buffer size) ∧ get_buffer_information (new_shared_buffer size) = (true, size_ s')).
Proof.
  intros Hs Hsz. destruct (get_buffer_information_ok size Hsz) as (z & Ei & Hz).
  unfold InitNew. apply runs_dcheck; [lia|]. apply runs_mod. eapply runs_mono.
  { eapply InitInternal_runs; [by apply new_shared_buffer_ok|done|lia|].
    apply ra_reset_ok; [unfold FifoAllocator.kNullOffset, max_u64; lia|done]. }
  cbn. intros _ s' (Ez & Hp & Hpz & Eb & _ & Hi & Hl & Hsf). rewrite Ez, Eb.
  split_and!; [split; [done|congruence|done|by rewrite Ez]| |lia..|done|done].
  unfold live_ptrs. by rewrite Hl.
Qed.

(** [InitNew] on any object, initialised or not, maps a buffer of at least the
    requested size and makes the object ready with nothing allocated. *)
Lemma InitNew_ready s size :
  ra_inv (fifo_allocator_ s) → 0 < size < 2 ^ 63 →
  ∃ s', InitNew size @ s ⇒ (tt, s') ∧ ready s' ∧ live_ptrs s' = [] ∧ size ≤ size_ s'.
Proof.
  intros Hs Hsz. destruct (InitNew_runs s size Hs Hsz) as ([] & s' & E & ? & ? & [? _] & _). exists s'. by split_and!.
Qed.

End Client.

(** ** A concrete system *)

(** Handles are sizes; every buffer is mapped at address 4096. *)
#[local] Instance sample_system : MojoSystem := {|
  handle := Z;
  is_valid h := 0 <? h;
  new_shared_buffer size := size;
  get_buffer_information h := (true, h);
  map_buffer h _ size := (size <? 2 ^ 63, 4096);
  duplicate_buffer h := h;
|}.

#[local] Instance sample_system_laws : MojoSystemLaws.
Proof.
  split; cbn.
  - intros. lia.
  - intros size Hs. exists size. split; [done|lia].
  - intros h z _ [= ->] Hz. exists 4096. split; [f_equal; lia|lia].
  - done.
Qed.

(** A mapped buffer of 100 bytes with nothing allocated, and with 10 allocated. *)
Definition sample : state := mk_state 100 (Some 100) None 4096 FifoSpec.sample.
Definition sample_used : state := mk_state 100 (Some 100) None 4096 FifoSpec.sample_used.

#[local] Existing Instance debug_build.

Lemma sample_ready : ready sample.
Proof. split; [apply FifoSpec.sample_wf|by concrete..]. Qed.

Lemma AllocateRegion_ptr_spec_witness :
  ∃ p s', AllocateRegion 30 @ sample ⇒ (p, s') ∧ ready s' ∧
    ((buffer_ptr_ sample ≤ p ∧ p + 30 ≤ buffer_ptr_ sample + size_ sample ∧
      Forall (FifoAllocator.disjoint (p, 30)) (live_ptrs sample) ∧
      live_ptrs s' ≡ₚ (p, 30) :: live_ptrs sample) ∨
     (p = 0 ∧ s' = sample ∧ ¬ ra_room (fifo_allocator_ sample) 30)).
Proof. apply AllocateRegion_ptr_spec; [apply sample_ready|lia]. Defined.

Lemma AllocateRegion_release_witness :
  ∃ s'', ReleaseRegion 10 4096 @ sample_used ⇒ (tt, s'') ∧ ready s'' ∧
    live_ptrs s'' ≡ₚ live_ptrs sample.
Proof.
  refine (AllocateRegion_release sample 10 4096 sample_used sample_ready _ _ _); [lia| |lia].
  assert (E : AllocateRegionByOffset 10 @ sample ⇒ (0, sample_used))
    by (unfold AllocateRegionByOffset, with_fifo; cbn; by rewrite FifoSpec.sample_allocate).
  unfold AllocateRegion. rewrite (prog_bind_run _ _ _ _ _ E). reflexivity.
Defined.

Lemma InitNew_ready_witness :
  ∃ s', InitNew 64 @ sample_used ⇒ (tt, s') ∧ ready s' ∧ live_ptrs s' = [] ∧ 64 ≤ size_ s'.
Proof. apply InitNew_ready; [apply FifoSpec.sample_used_wf|lia]. Defined.

End SharedBuffer.
