(* ===== verification/StreamTypes.v ===== *)
(** The stream types of the media framework (services/media/framework/types):
    audio, video, text and subpicture types, the sets of types a part accepts, and
    the frame layout of the pixel formats.

    A [StreamType] object is its base class data with the data of the derived
    class it was created as; [DBase] is an object of the base class itself, whose
    [audio()], [video()], ... return null.  [unique_ptr] members are options, byte
    buffers are lists. *)

From S2P Require Import Prelude.
From stdpp Require Export strings.

Global Open Scope Z_scope.

Module StreamTypes.

(** ** Stream types *)

(** [StreamType::Medium] *)
Inductive Medium := MAudio | MVideo | MText | MSubpicture.

(** [AudioStreamType::SampleFormat] *)
Inductive SampleFormat := FAny | FUnsigned8 | FSigned16 | FSigned24In32 | FFloat.

(** [VideoStreamType::VideoProfile] *)
Inductive VideoProfile :=
  | VPUnknown | VPNotApplicable | VPH264Baseline | VPH264Main | VPH264Extended | VPH264High
  | VPH264High10 | VPH264High422 | VPH264High444Predictive | VPH264ScalableBaseline
  | VPH264ScalableHigh | VPH264StereoHigh | VPH264MultiviewHigh.

(** [VideoStreamType::PixelFormat] *)
Inductive PixelFormat :=
  | PUnknown | PI420 | PYv12 | PYv16 | PYv12A | PYv24 | PNv12 | PNv21 | PUyvy | PYuy2
  | PArgb | PXrgb | PRgb24 | PRgb32 | PMjpeg | PMt21.

(** [VideoStreamType::ColorSpace] *)
Inductive ColorSpace := CUnknown | CNotApplicable | CJpeg | CHdRec709 | CSdRec601.

#[export] Instance Medium_eq_dec : EqDecision Medium.
Proof. solve_decision. Defined.
#[export] Instance SampleFormat_eq_dec : EqDecision SampleFormat.
Proof. solve_decision. Defined.
#[export] Instance PixelFormat_eq_dec : EqDecision PixelFormat.
Proof. solve_decision. Defined.

(** [Bytes] *)
Abbreviation Bytes := (list Z).

(** [AudioStreamType] *)
Record AudioData := mk_audio {
  sample_format : SampleFormat;
  channels : Z;
  frames_per_second : Z;
  sample_size : Z;
}.

(** [VideoStreamType] *)
Record VideoData := mk_video {
  profile : VideoProfile;
  pixel_format : PixelFormat;
  color_space : ColorSpace;
  width : Z;
  height : Z;
  coded_width : Z;
  coded_height : Z;
}.

(** The derived class of an object and its members. *)
Inductive derived := DBase | DAudio (a : AudioData) | DVideo (v : VideoData) | DText | DSubpicture.

(** [StreamType] *)
Record StreamType := mk_type {
  medium : Medium;
  encoding : string;
  encoding_parameters : option Bytes;
  sub : derived;
}.

(** [kAudioEncoding...], [kVideoEncoding...] *)
Definition kAudioEncodingLpcm : string := "lpcm".
Definition known_encodings : list string :=
  ["aac"; "amrnb"; "amrwb"; "flac"; "gsmms"; "lpcm"; "mp3"; "pcmalaw"; "pcmmulaw"; "vorbis";
   "h263"; "h264"; "mpeg4"; "theora"; "uncompressed_video"; "vp3"; "vp8"].

(** The virtual [audio], [video], [text] and [subpicture]: null unless overridden. *)
Definition audio (t : StreamType) : option AudioData :=
  match sub t with DAudio a => Some a | _ => None end.
Definition video (t : StreamType) : option VideoData :=
  match sub t with DVideo v => Some v | _ => None end.
Definition text (t : StreamType) : bool := match sub t with DText => true | _ => false end.
Definition subpicture (t : StreamType) : bool :=
  match sub t with DSubpicture => true | _ => false end.

(** [AudioStreamType::SampleSizeFromFormat] *)
Definition SampleSizeFromFormat (f : SampleFormat) : outcome Z :=
  match f with
  | FAny => Fault Aborted
  | FUnsigned8 => Ok 1
  | FSigned16 => Ok 2
  | FSigned24In32 => Ok 4
  | FFloat => Ok 4
  end.

(** The [Create] functions (and the constructors they call). *)
Definition StreamType_Create (m : Medium) (e : string) (p : option Bytes) : StreamType :=
  mk_type m e p DBase.
Definition AudioStreamType_Create (e : string) (p : option Bytes) (f : SampleFormat)
    (channels frames_per_second : Z) : outcome StreamType :=
  size ← SampleSizeFromFormat f;
  Ok (mk_type MAudio e p (DAudio (mk_audio f channels frames_per_second size))).
Definition VideoStreamType_Create (e : string) (p : option Bytes) (pr : VideoProfile)
    (pf : PixelFormat) (cs : ColorSpace) (w h cw ch : Z) : StreamType :=
  mk_type MVideo e p (DVideo (mk_video pr pf cs w h cw ch)).
Definition TextStreamType_Create (e : string) (p : option Bytes) : StreamType :=
  mk_type MText e p DText.
Definition SubpictureStreamType_Create (e : string) (p : option Bytes) : StreamType :=
  mk_type MSubpicture e p DSubpicture.

(** [SafeClone] of a pointer: [Bytes::Clone] copies the bytes. *)
Definition SafeClone {A} (clone : A → outcome A) (p : option A) : outcome (option A) :=
  match p with
  | None => Ok None
  | Some a => b ← clone a; Ok (Some b)
  end.
Definition Bytes_Clone (b : Bytes) : outcome Bytes := Ok b.

(** The virtual [Clone]. *)
Definition StreamType_Clone (t : StreamType) : outcome StreamType :=
  p ← SafeClone Bytes_Clone (encoding_parameters t);
  match sub t with
  | DBase => Ok (StreamType_Create (medium t) (encoding t) p)
  | DAudio a =>
      AudioStreamType_Create (encoding t) p (sample_format a) (channels a) (frames_per_second a)
  | DVideo v =>
      Ok (VideoStreamType_Create (encoding t) p (profile v) (pixel_format v) (color_space v)
            (width v) (height v) (coded_width v) (coded_height v))
  | DText => Ok (TextStreamType_Create (encoding t) p)
  | DSubpicture => Ok (SubpictureStreamType_Create (encoding t) p)
  end.

(** [SafeClone] of a vector of pointers: the result is created with [size()] null
    pointers, and the clones are pushed behind them. *)
Fixpoint clone_all {A} (clone : A → outcome A) (vec : list (option A)) : outcome (list (option A)) :=
  match vec with
  | [] => Ok []
  | t :: vec => c ← SafeClone clone t; cs ← clone_all clone vec; Ok (c :: cs)
  end.
Definition SafeClone_vector {A} (clone : A → outcome A) (vec : option (list (option A))) :
    outcome (option (list (option A))) :=
  match vec with
  | None => Ok None
  | Some v => cs ← clone_all clone v; Ok (Some (replicate (length v) None ++ cs))
  end.

Section WithBuild.
Context `{Build}.

(** [AudioStreamType::bytes_per_frame], [min_buffer_size], [frame_count] *)
Definition bytes_per_frame (a : AudioData) : Z := u32 (sample_size a * channels a).
Definition min_buffer_size (a : AudioData) (frame_count : Z) : Z :=
  u64 (frame_count * bytes_per_frame a).
Definition frame_count (a : AudioData) (size : Z) : outcome Z :=
  _ ← dcheck (negb (bytes_per_frame a =? 0));
  if bytes_per_frame a =? 0 then Fault UndefinedBehaviour
  else
    _ ← dcheck (size mod bytes_per_frame a =? 0);
    Ok (size / bytes_per_frame a).

(** ** Sets of stream types *)

(** [Range] *)
Record Range := mk_range { rmin : Z; rmax : Z }.
Definition Range_new (min max : Z) : outcome Range :=
  _ ← dcheck (min <=? max); Ok (mk_range min max).
Definition Range_contains (r : Range) (t : Z) : bool := (rmin r <=? t) && (t <=? rmax r).

(** [AudioStreamTypeSet] *)
Record AudioSetData := mk_audio_set {
  set_sample_format : SampleFormat;
  set_channels : Range;
  set_frames_per_second : Range;
}.

(** [VideoStreamTypeSet] *)
Record VideoSetData := mk_video_set { set_width : Range; set_height : Range }.

Inductive set_derived :=
  | SBase | SAudio (a : AudioSetData) | SVideo (v : VideoSetData) | SText | SSubpicture.

(** [StreamTypeSet] *)
Record StreamTypeSet := mk_set {
  set_medium : Medium;
  encodings : list string;
  set_sub : set_derived;
}.

Definition set_audio (t : StreamTypeSet) : option AudioSetData :=
  match set_sub t with SAudio a => Some a | _ => None end.
Definition set_video (t : StreamTypeSet) : option VideoSetData :=
  match set_sub t with SVideo v => Some v | _ => None end.

Definition StreamTypeSet_Create (m : Medium) (es : list string) : StreamTypeSet :=
  mk_set m es SBase.
Definition AudioStreamTypeSet_Create (es : list string) (f : SampleFormat) (c r : Range) :
    StreamTypeSet := mk_set MAudio es (SAudio (mk_audio_set f c r)).
Definition VideoStreamTypeSet_Create (es : list string) (w h : Range) : StreamTypeSet :=
  mk_set MVideo es (SVideo (mk_video_set w h)).
Definition TextStreamTypeSet_Create (es : list string) : StreamTypeSet := mk_set MText es SText.
Definition SubpictureStreamTypeSet_Create (es : list string) : StreamTypeSet :=
  mk_set MSubpicture es SSubpicture.

(** The virtual [Clone] of sets. *)
Definition StreamTypeSet_Clone (t : StreamTypeSet) : StreamTypeSet :=
  match set_sub t with
  | SBase => StreamTypeSet_Create (set_medium t) (encodings t)
  | SAudio a => AudioStreamTypeSet_Create (encodings t) (set_sample_format a) (set_channels a)
                  (set_frames_per_second a)
  | SVideo v => VideoStreamTypeSet_Create (encodings t) (set_width v) (set_height v)
  | SText => TextStreamTypeSet_Create (encodings t)
  | SSubpicture => SubpictureStreamTypeSet_Create (encodings t)
  end.

(** [StreamTypeSet::IncludesEncoding] *)
Fixpoint includes_loop (es : list string) (e : string) : bool :=
  match es with
  | [] => false
  | set_encoding :: es => if decide (set_encoding = e) then true else includes_loop es e
  end.
Definition IncludesEncoding (t : StreamTypeSet) (e : string) : bool :=
  includes_loop (encodings t) e.

(** [AudioStreamTypeSet::contains] *)
Definition AudioStreamTypeSet_contains (s : AudioSetData) (t : AudioData) : bool :=
  (bool_decide (set_sample_format s = sample_format t) ||
   bool_decide (set_sample_format s = FAny)) &&
  Range_contains (set_channels s) (frames_per_second t) &&
  Range_contains (set_frames_per_second s) (frames_per_second t).

End WithBuild.

(** ** Theorems *)

(** An object made by one of the [Create] functions: the medium of a derived class
    is its own, and an audio type's sample size is its format's. *)
Definition type_ok (t : StreamType) : Prop :=
  match sub t with
  | DBase => True
  | DAudio a => medium t = MAudio ∧ SampleSizeFromFormat (sample_format a) = Ok (sample_size a)
  | DVideo _ => medium t = MVideo
  | DText => medium t = MText
  | DSubpicture => medium t = MSubpicture
  end.
Definition set_ok (t : StreamTypeSet) : Prop :=
  match set_sub t with
  | SBase => True
  | SAudio _ => set_medium t = MAudio
  | SVideo _ => set_medium t = MVideo
  | SText => set_medium t = MText
  | SSubpicture => set_medium t = MSubpicture
  end.

Lemma SafeClone_bytes p : SafeClone Bytes_Clone p = Ok p.
Proof. by destruct p. Qed.

Lemma StreamType_Clone_ok t : type_ok t → StreamType_Clone t = Ok t.
Proof.
  destruct t as [m e p d]. unfold type_ok, StreamType_Clone. cbn [sub medium encoding].
  rewrite SafeClone_bytes. cbn [mbind outcome_bind].
  destruct d as [|[f c r z]|[]| |]; cbn; try (by intros ->); [done|].
  intros [-> Hz]. unfold AudioStreamType_Create. by rewrite Hz.
Qed.

Lemma StreamTypeSet_Clone_ok t : set_ok t → StreamTypeSet_Clone t = t.
Proof. destruct t as [m es [|[]|[]| |]]; cbn; intros; subst; done. Qed.

(** [Clone] of an audio, video, text or subpicture type or type set made by its
    [Create] function yields an equal object, but [SafeClone] of a vector of [n]
    types yields [2 * n] pointers of which the first [n] are null. *)
Lemma clone_spec t ts vec :
  type_ok t → set_ok ts → Forall (λ o : option StreamType, ∀ x, o = Some x → type_ok x) vec →
  StreamType_Clone t = Ok t ∧ StreamTypeSet_Clone ts = ts ∧
  SafeClone_vector StreamType_Clone (Some vec) = Ok (Some (replicate (length vec) None ++ vec)).
Proof.
  intros Ht Hts Hv. split_and!; [by apply StreamType_Clone_ok|by apply StreamTypeSet_Clone_ok|].
  unfold SafeClone_vector. assert (E : clone_all StreamType_Clone vec = Ok vec); [|by rewrite E].
  induction Hv as [|o vec Ho Hv IH]; [done|]. cbn [clone_all].
  assert (SafeClone StreamType_Clone o = Ok o) as ->.
  { destruct o as [x|]; [|done]. cbn. by rewrite (StreamType_Clone_ok x (Ho x eq_refl)). }
  cbn [mbind outcome_bind]. by rewrite IH.
Qed.

Definition stereo : StreamType :=
  mk_type MAudio "lpcm" None (DAudio (mk_audio FSigned16 2 48000 2)).
Lemma clone_spec_witness :
  let ts := mk_set MText ["a"] SText in
  StreamType_Clone stereo = Ok stereo ∧ StreamTypeSet_Clone ts = ts ∧
  SafeClone_vector StreamType_Clone (Some [Some stereo]) = Ok (Some [None; Some stereo]).
Proof.
  refine (clone_spec stereo (mk_set MText ["a"] SText) [Some stereo] _ _ _); [done|done|].
  constructor; [|constructor]. by intros x [= <-].
Defined.

(** Sizes of audio buffers: without overflow, the frame count of a buffer made
    for [n] frames is [n] again. *)
Lemma frame_count_roundtrip `{Build} a n :
  0 < sample_size a * channels a < 2 ^ 32 → 0 ≤ n → n * (sample_size a * channels a) < 2 ^ 64 →
  frame_count a (min_buffer_size a n) = Ok n.
Proof.
  intros Hb Hn Hs. unfold frame_count, min_buffer_size, bytes_per_frame.
  rewrite (uwrap_small 32) by (unfold is_u; lia). rewrite uwrap_small by (unfold is_u; nia).
  rewrite dcheck_nonzero by lia. cbn [mbind outcome_bind].
  destruct (Z.eqb_spec (sample_size a * channels a) 0); [lia|].
  rewrite Z.mod_mul by lia. rewrite dcheck_true by done. cbn [mbind outcome_bind].
  by rewrite Z.div_mul.
Qed.

(** [AudioStreamTypeSet::contains] tests the frame rate against the range of
    channel counts, so a set of mono and stereo types at 8 to 96 kHz does not
    contain 48 kHz stereo, and a set of types with 48000 or more channels does. *)
Lemma contains_defect :
  let t := mk_audio FSigned16 2 48000 2 in
  AudioStreamTypeSet_contains (mk_audio_set FAny (mk_range 1 2) (mk_range 8000 96000)) t = false ∧
  AudioStreamTypeSet_contains (mk_audio_set FAny (mk_range 48000 96000) (mk_range 8000 96000)) t
    = true.
Proof. vm_compute. done. Qed.

End StreamTypes.
