(* ===== verification/FrameLayout.v ===== *)
(** The pixel format table of [VideoStreamType] and the layout of a frame in
    memory (services/media/framework/types/video_stream_type.cc). [size_t] has 64
    bits.  An access outside a fixed array is undefined behaviour. *)

From S2P Require Import Prelude StreamTypes.

Module FrameLayout.
Import StreamTypes.

(** [VideoStreamType::Extent]; the constructor takes [int]s. *)
Record Extent := mk_extent { ewidth : Z; eheight : Z }.
Definition to_s32 (z : Z) : Z := (z + 2 ^ 31) mod 2 ^ 32 - 2 ^ 31.
Definition Extent_new (w h : Z) : Extent := mk_extent (u64 (to_s32 w)) (u64 (to_s32 h)).

(** [kFrameSizeAlignment], [kFrameSizePadding], [kUPlaneIndex] *)
Definition kFrameSizeAlignment : Z := 16.
Definition kFrameSizePadding : Z := 16.
Definition kUPlaneIndex : nat := 1.

(** [VideoStreamType::FrameLayout] *)
Record Layout := mk_layout {
  layout_plane_count : nat;
  line_stride : list Z;
  plane_offset : list Z;
  layout_size : Z;
}.

(** [VideoStreamType::PixelFormatInfo] *)
Record PixelFormatInfo := mk_info {
  plane_count : nat;
  bytes_per_element : list Z;
  sample_sizes : list Extent;
}.

(** The table of [InfoForPixelFormat]. *)
Definition table (f : PixelFormat) : option PixelFormatInfo :=
  let e11 := Extent_new 1 1 in let e22 := Extent_new 2 2 in let e21 := Extent_new 2 1 in
  match f with
  | PUnknown => None
  | PI420 => Some (mk_info 3 [1; 1; 1; 0] [e11; e22; e22; mk_extent 0 0])
  | PYv12 => Some (mk_info 3 [1; 1; 1; 0] [e11; e22; e22; mk_extent 0 0])
  | PYv16 => Some (mk_info 3 [1; 1; 1; 0] [e11; e21; e21; mk_extent 0 0])
  | PYv12A => Some (mk_info 4 [1; 1; 1; 1] [e11; e22; e22; e11])
  | PYv24 => Some (mk_info 3 [1; 1; 1; 0] [e11; e11; e11; mk_extent 0 0])
  | PNv12 => Some (mk_info 2 [1; 2; 0; 0] [e11; e22; mk_extent 0 0; mk_extent 0 0])
  | PNv21 => Some (mk_info 2 [1; 2; 0; 0] [e11; e22; mk_extent 0 0; mk_extent 0 0])
  | PUyvy => Some (mk_info 1 [2; 0; 0; 0] [e11; mk_extent 0 0; mk_extent 0 0; mk_extent 0 0])
  | PYuy2 => Some (mk_info 1 [2; 0; 0; 0] [e11; mk_extent 0 0; mk_extent 0 0; mk_extent 0 0])
  | PArgb => Some (mk_info 1 [4; 0; 0; 0] [e11; mk_extent 0 0; mk_extent 0 0; mk_extent 0 0])
  | PXrgb => Some (mk_info 1 [4; 0; 0; 0] [e11; mk_extent 0 0; mk_extent 0 0; mk_extent 0 0])
  | PRgb24 => Some (mk_info 1 [3; 0; 0; 0] [e11; mk_extent 0 0; mk_extent 0 0; mk_extent 0 0])
  | PRgb32 => Some (mk_info 1 [4; 0; 0; 0] [e11; mk_extent 0 0; mk_extent 0 0; mk_extent 0 0])
  | PMjpeg => Some (mk_info 1 [0; 0; 0; 0] [e11; mk_extent 0 0; mk_extent 0 0; mk_extent 0 0])
  | PMt21 => Some (mk_info 2 [1; 2; 0; 0] [e11; e22; mk_extent 0 0; mk_extent 0 0])
  end.

(** [RoundUpToAlign] *)
Definition RoundUpToAlign (value alignment : Z) : Z :=
  Z.land (u64 (value + u64 (alignment - 1))) (u64 (Z.lnot (u64 (alignment - 1)))).

Section WithBuild.
Context `{Build}.

(** [InfoForPixelFormat] *)
Definition InfoForPixelFormat (f : PixelFormat) : outcome PixelFormatInfo :=
  _ ← dcheck (bool_decide (table f ≠ None));
  match table f with Some i => Ok i | None => Fault UndefinedBehaviour end.

(** [a[i]] for a member array. *)
Definition index {A} (a : list A) (i : nat) : outcome A :=
  match a !! i with Some x => Ok x | None => Fault UndefinedBehaviour end.
Definition store (a : list Z) (i : nat) (z : Z) : outcome (list Z) :=
  if decide (i < length a)%nat then Ok (<[i := z]> a) else Fault UndefinedBehaviour.

Definition div_size (a b : Z) : outcome Z :=
  if b =? 0 then Fault UndefinedBehaviour else Ok (a / b).

Definition bytes_per_element_for_plane (i : PixelFormatInfo) (plane : nat) : outcome Z :=
  _ ← dcheck (bool_decide (plane < plane_count i)%nat); index (bytes_per_element i) plane.
Definition sample_size_for_plane (i : PixelFormatInfo) (plane : nat) : outcome Extent :=
  _ ← dcheck (bool_decide (plane < plane_count i)%nat); index (sample_sizes i) plane.

(** [RowCount], [ColumnCount], [BytesPerRow] *)
Definition RowCount (i : PixelFormatInfo) (plane : nat) (height : Z) : outcome Z :=
  _ ← dcheck (bool_decide (plane < plane_count i)%nat);
  e ← sample_size_for_plane i plane;
  let sample_height := u64 (to_s32 (eheight e)) in
  div_size (RoundUpToAlign height sample_height) sample_height.
Definition ColumnCount (i : PixelFormatInfo) (plane : nat) (width : Z) : outcome Z :=
  _ ← dcheck (bool_decide (plane < plane_count i)%nat);
  e ← sample_size_for_plane i plane;
  div_size (RoundUpToAlign width (ewidth e)) (ewidth e).
Definition BytesPerRow (i : PixelFormatInfo) (plane : nat) (width : Z) : outcome Z :=
  _ ← dcheck (bool_decide (plane < plane_count i)%nat);
  b ← bytes_per_element_for_plane i plane;
  c ← ColumnCount i plane width;
  Ok (u64 (b * c)).

(** [CommonAlignment] *)
Fixpoint common_loop (i : PixelFormatInfo) (planes : list nat) (mw mh : Z) : outcome (Z * Z) :=
  match planes with
  | [] => Ok (mw, mh)
  | plane :: planes =>
      e ← sample_size_for_plane i plane;
      common_loop i planes (Z.max mw (ewidth e)) (Z.max mh (eheight e))
  end.
Definition CommonAlignment (i : PixelFormatInfo) : outcome Extent :=
  '(w, h) ← common_loop i (seq 0 (plane_count i)) 0 0;
  Ok (Extent_new w h).

(** [AlignedSize] *)
Definition AlignedSize (i : PixelFormatInfo) (unaligned : Extent) : outcome Extent :=
  a ← CommonAlignment i;
  let adjusted := Extent_new (RoundUpToAlign (ewidth unaligned) (ewidth a))
                             (RoundUpToAlign (eheight unaligned) (eheight a)) in
  _ ← dcheck ((ewidth adjusted mod ewidth a =? 0) && (eheight adjusted mod eheight a =? 0));
  Ok adjusted.

(** [BuildFrameLayout]: the loop over the planes, then the padding. *)
Fixpoint build_loop (i : PixelFormatInfo) (aligned : Extent) (planes : list nat)
    (strides offsets : list Z) (size : Z) : outcome (list Z * list Z * Z) :=
  match planes with
  | [] => Ok (strides, offsets, size)
  | plane :: planes =>
      rows ← RowCount i plane (eheight aligned);
      let height := RoundUpToAlign rows (kFrameSizeAlignment * 2) in
      bytes ← BytesPerRow i plane (ewidth aligned);
      let stride := RoundUpToAlign bytes kFrameSizeAlignment in
      strides ← store strides plane stride;
      offsets ← store offsets plane size;
      build_loop i aligned planes strides offsets (u64 (size + u64 (height * stride)))
  end.
Definition BuildFrameLayout (i : PixelFormatInfo) (coded_size : Extent) (frame_layout : Layout) :
    outcome Layout :=
  aligned ← AlignedSize i coded_size;
  '(strides, offsets, size) ←
    build_loop i aligned (seq 0 (plane_count i)) (line_stride frame_layout)
      (plane_offset frame_layout) 0;
  _ ← dcheck (bool_decide (kUPlaneIndex < plane_count i)%nat);
  u ← index strides kUPlaneIndex;
  Ok (mk_layout (plane_count i) strides offsets (u64 (size + u64 (u + kFrameSizePadding)))).

(** A layout structure as the caller has it: members with any values. *)
Definition layout_ok (l : Layout) : Prop :=
  length (line_stride l) = 4%nat ∧ length (plane_offset l) = 4%nat.

End WithBuild.

(** ** Rounding *)

(** The number of groups of [b] that cover [a] items. *)
Definition ceil_div (a b : Z) : Z := (a + b - 1) / b.

Lemma ceil_div_bounds a b : 0 ≤ a → 0 < b → a ≤ ceil_div a b * b < a + b ∧ 0 ≤ ceil_div a b.
Proof.
  intros Ha Hb. unfold ceil_div. pose proof (Z.div_mod (a + b - 1) b ltac:(lia)).
  pose proof (Z.mod_pos_bound (a + b - 1) b Hb).
  split; [nia|]. apply Z.div_pos; lia.
Qed.

Lemma ceil_div_mono a a' b : 0 < b → a ≤ a' → ceil_div a b ≤ ceil_div a' b.
Proof. intros Hb Ha. apply Z.div_le_mono; lia. Qed.

Lemma ceil_div_le a b : 0 ≤ a → 0 < b → ceil_div a b ≤ a.
Proof.
  intros Ha Hb. pose proof (ceil_div_bounds a b Ha Hb) as [[_ Hlt] Hge].
  destruct (Z.le_gt_cases (ceil_div a b) a); [done|].
  assert ((a + 1) * b ≤ ceil_div a b * b) by nia. nia.
Qed.

Lemma RoundUpToAlign_pow2 v k :
  0 ≤ k < 32 → 0 ≤ v < 2 ^ 62 → RoundUpToAlign v (2 ^ k) = ceil_div v (2 ^ k) * 2 ^ k.
Proof.
  intros Hk Hv. assert (Hp : 0 < 2 ^ k ≤ 2 ^ 32).
  { split; [apply Z.pow_pos_nonneg; lia|]. apply Z.pow_le_mono_r; lia. }
  unfold RoundUpToAlign. rewrite (uwrap_small 64 (2 ^ k - 1)) by (unfold is_u; lia).
  rewrite uwrap_small by (unfold is_u; lia). set (x := v + (2 ^ k - 1)).
  assert (Hm : Z.land x (u64 (Z.lnot (2 ^ k - 1))) = Z.ldiff x (Z.ones k)).
  { unfold uwrap. rewrite <- Z.land_ones by lia.
    rewrite (Z.land_comm (Z.lnot _)), Z.land_assoc, Z.land_ones by lia.
    rewrite Z.mod_small by lia. by rewrite Z.ldiff_land, Z.ones_equiv, <- Z.sub_1_r. }
  rewrite Hm, Z.ldiff_ones_r, Z.shiftl_mul_pow2, Z.shiftr_div_pow2 by lia.
  unfold ceil_div, x. by rewrite Z.add_sub_assoc.
Qed.

(** Only alignments 1, 2, 16 and 32 are used. *)
Lemma RoundUpToAlign_ceil v a :
  a ∈ [1; 2; 16; 32] → 0 ≤ v < 2 ^ 62 → RoundUpToAlign v a = ceil_div v a * a.
Proof.
  intros Ha Hv. rewrite !elem_of_cons, elem_of_nil in Ha.
  destruct Ha as [->|[->|[->|[->|[]]]]].
  - by apply (RoundUpToAlign_pow2 v 0).
  - by apply (RoundUpToAlign_pow2 v 1).
  - by apply (RoundUpToAlign_pow2 v 4).
  - by apply (RoundUpToAlign_pow2 v 5).
Qed.

(** ** The table *)

Section Proofs.
Context `{Build}.

(** What the layout relies on, for a format with planes. *)
Record info_ok (i : PixelFormatInfo) (aw ah : Z) : Prop := {
  info_planes : (plane_count i ≤ 4)%nat;
  info_plane p : (p < plane_count i)%nat → ∃ e b,
    sample_sizes i !! p = Some e ∧ bytes_per_element i !! p = Some b ∧
    (ewidth e = 1 ∨ ewidth e = 2) ∧ (eheight e = 1 ∨ eheight e = 2) ∧ 0 ≤ b ≤ 4;
  info_alignment : CommonAlignment i = Ok (mk_extent aw ah) ∧ (aw = 1 ∨ aw = 2) ∧ (ah = 1 ∨ ah = 2);
}.

Definition plane_check (i : PixelFormatInfo) (p : nat) : bool :=
  match sample_sizes i !! p, bytes_per_element i !! p with
  | Some e, Some b =>
      ((ewidth e =? 1) || (ewidth e =? 2)) && ((eheight e =? 1) || (eheight e =? 2)) &&
      (0 <=? b) && (b <=? 4)
  | _, _ => false
  end.

Lemma table_checked f i :
  table f = Some i →
  (plane_count i ≤ 4)%nat ∧ forallb (plane_check i) (seq 0 (plane_count i)) = true.
Proof. destruct f; intros [= <-]; split; (cbn; lia) || (vm_compute; reflexivity). Qed.

Lemma table_alignment f i :
  table f = Some i →
  ∃ aw ah, CommonAlignment i = Ok (mk_extent aw ah) ∧ (aw = 1 ∨ aw = 2) ∧ (ah = 1 ∨ ah = 2).
Proof.
  intros Ht. destruct H as [dc sw].
  exists (match f with PI420 | PYv12 | PYv16 | PYv12A | PNv12 | PNv21 | PMt21 => 2 | _ => 1 end),
    (match f with PI420 | PYv12 | PYv12A | PNv12 | PNv21 | PMt21 => 2 | _ => 1 end).
  destruct f; try discriminate Ht; injection Ht as <-;
    (split; [destruct dc; vm_compute; reflexivity|lia]).
Qed.

Lemma table_ok f i : table f = Some i → ∃ aw ah, info_ok i aw ah.
Proof.
  intros Ht. destruct (table_checked f i Ht) as [Hn Hc].
  destruct (table_alignment f i Ht) as (aw & ah & Ha). exists aw, ah. split; [done| |done].
  intros p Hp. rewrite forallb_forall in Hc. specialize (Hc p).
  rewrite <- list_elem_of_In, elem_of_seq in Hc. specialize (Hc ltac:(lia)).
  unfold plane_check in Hc. destruct (sample_sizes i !! p) as [e|], (bytes_per_element i !! p) as [b|];
    try discriminate Hc. exists e, b. split_and!; try done; lia.
Qed.

(** ** One plane *)

Definition plane_rows (i : PixelFormatInfo) (p : nat) (h : Z) : Z :=
  match sample_sizes i !! p with Some e => ceil_div h (eheight e) | None => 0 end.
Definition plane_row_bytes (i : PixelFormatInfo) (p : nat) (w : Z) : Z :=
  match sample_sizes i !! p, bytes_per_element i !! p with
  | Some e, Some b => b * ceil_div w (ewidth e)
  | _, _ => 0
  end.

Lemma plane_dcheck i p : (p < plane_count i)%nat → dcheck (bool_decide (p < plane_count i)%nat) = Ok tt.
Proof. intros Hp. apply dcheck_true. by apply bool_decide_eq_true. Qed.

Lemma RowCount_run i aw ah p h :
  info_ok i aw ah → (p < plane_count i)%nat → 0 ≤ h < 2 ^ 30 →
  RowCount i p h = Ok (plane_rows i p h) ∧ 0 ≤ plane_rows i p h ≤ h.
Proof.
  intros I Hp Hh. destruct (info_plane _ _ _ I p Hp) as (e & b & He & Hb & Hw & Heh & _).
  unfold RowCount, sample_size_for_plane, index, plane_rows. rewrite He, plane_dcheck by done.
  cbn [mbind outcome_bind]. pose proof (ceil_div_bounds h (eheight e) ltac:(lia) ltac:(lia)).
  pose proof (ceil_div_le h (eheight e) ltac:(lia) ltac:(lia)). split; [|lia].
  assert (Ee : u64 (to_s32 (eheight e)) = eheight e) by (destruct Heh as [-> | ->]; reflexivity).
  rewrite Ee. unfold div_size. destruct (Z.eqb_spec (eheight e) 0); [lia|].
  rewrite RoundUpToAlign_ceil by (try lia; destruct Heh as [-> | ->]; set_solver).
  by rewrite Z.div_mul.
Qed.

Lemma BytesPerRow_run i aw ah p w :
  info_ok i aw ah → (p < plane_count i)%nat → 0 ≤ w < 2 ^ 30 →
  BytesPerRow i p w = Ok (plane_row_bytes i p w) ∧ 0 ≤ plane_row_bytes i p w ≤ 4 * w.
Proof.
  intros I Hp Hh. destruct (info_plane _ _ _ I p Hp) as (e & b & He & Hb & Hw & Heh & Hb4).
  unfold BytesPerRow, ColumnCount, bytes_per_element_for_plane, sample_size_for_plane, index,
    plane_row_bytes.
  rewrite He, Hb, plane_dcheck by done. cbn [mbind outcome_bind].
  pose proof (ceil_div_bounds w (ewidth e) ltac:(lia) ltac:(lia)).
  pose proof (ceil_div_le w (ewidth e) ltac:(lia) ltac:(lia)).
  unfold div_size. destruct (Z.eqb_spec (ewidth e) 0); [lia|]. cbn [mbind outcome_bind].
  rewrite RoundUpToAlign_ceil by (try lia; destruct Hw as [-> | ->]; set_solver).
  rewrite Z.div_mul by lia. split; [|nia]. rewrite uwrap_small; [done|]. unfold is_u. nia.
Qed.

(** The stride and height the layout gives a plane. *)
Definition plane_stride (i : PixelFormatInfo) (p : nat) (w : Z) : Z :=
  ceil_div (plane_row_bytes i p w) 16 * 16.
Definition plane_height (i : PixelFormatInfo) (p : nat) (h : Z) : Z :=
  ceil_div (plane_rows i p h) 32 * 32.

Section Loop.
Context (i : PixelFormatInfo) (aw ah : Z) (I : info_ok i aw ah) (w h : Z).
Context (Hw : 0 ≤ w < 2 ^ 28 + 2) (Hh : 0 ≤ h < 2 ^ 28 + 2).

Lemma plane_area p : (p < plane_count i)%nat →
  0 ≤ plane_height i p h ∧ 0 ≤ plane_stride i p w ≤ 2 ^ 31 ∧
  plane_height i p h * plane_stride i p w ≤ 2 ^ 60.
Proof.
  intros Hp. destruct (RowCount_run i aw ah p h I Hp ltac:(lia)) as [_ Hr].
  destruct (BytesPerRow_run i aw ah p w I Hp ltac:(lia)) as [_ Hb].
  pose proof (ceil_div_bounds (plane_rows i p h) 32 ltac:(lia) ltac:(lia)).
  pose proof (ceil_div_bounds (plane_row_bytes i p w) 16 ltac:(lia) ltac:(lia)).
  unfold plane_height, plane_stride. split_and!; nia.
Qed.

(** The loop stores increasing, non-overlapping offsets. *)
Lemma build_loop_run n : ∀ k strides offsets size,
  (k + n = plane_count i)%nat → length strides = 4%nat → length offsets = 4%nat →
  0 ≤ size → size + Z.of_nat n * 2 ^ 60 ≤ 2 ^ 63 →
  ∃ st offs sz, build_loop i (mk_extent w h) (seq k n) strides offsets size = Ok (st, offs, sz) ∧
    length st = 4%nat ∧ size ≤ sz ≤ size + Z.of_nat n * 2 ^ 60 ∧
    (∀ p, (p < k)%nat → st !! p = strides !! p ∧ offs !! p = offsets !! p) ∧
    (∀ p, (k ≤ p < k + n)%nat → st !! p = Some (plane_stride i p w) ∧
       ∃ o, offs !! p = Some o ∧ size ≤ o ∧ o + plane_height i p h * plane_stride i p w ≤ sz ∧
         ∀ q o', (p < q < k + n)%nat → offs !! q = Some o' →
           o + plane_height i p h * plane_stride i p w ≤ o').
Proof.
  pose proof (info_planes _ _ _ I) as H4.
  induction n as [|n IH]; intros k strides offsets size Hk Hls Hlo Hs Hb; cbn [seq build_loop].
  - exists strides, offsets, size. split_and!; try done; try lia.
  - assert (Hp : (k < plane_count i)%nat) by lia. cbn [eheight ewidth].
    destruct (RowCount_run i aw ah k h I Hp ltac:(lia)) as [-> Hr].
    destruct (BytesPerRow_run i aw ah k w I Hp ltac:(lia)) as [-> Hby].
    cbn [mbind outcome_bind]. change (kFrameSizeAlignment * 2) with 32.
    change kFrameSizeAlignment with 16.
    rewrite !RoundUpToAlign_ceil by (try lia; set_solver).
    fold (plane_height i k h) (plane_stride i k w).
    destruct (plane_area k Hp) as (A1 & A2 & A3).
    unfold store. rewrite !decide_True by lia. cbn [mbind outcome_bind].
    rewrite !uwrap_small by (unfold is_u; try rewrite uwrap_small; unfold is_u; nia).
    destruct (IH (S k) (<[k := plane_stride i k w]> strides) (<[k := size]> offsets)
      (size + plane_height i k h * plane_stride i k w))
      as (st & offs & sz & E & L & Hsz & Hold & Hnew);
      [lia|by rewrite length_insert|by rewrite length_insert|nia|lia|].
    exists st, offs, sz. split; [exact E|]. split_and!; [done|lia|lia| |].
    + intros p Hpk. destruct (Hold p ltac:(lia)) as [-> ->].
      by rewrite !list_lookup_insert_ne by lia.
    + intros p Hpk. destruct (decide (p = k)) as [->|].
      * destruct (Hold k ltac:(lia)) as [-> ->].
        rewrite !list_lookup_insert_eq by lia. split; [done|]. exists size.
        split_and!; [done|lia|lia|]. intros q o' Hq Ho'.
        destruct (Hnew q ltac:(lia)) as (_ & o'' & Ho'' & ? & _). simplify_eq. lia.
      * destruct (Hnew p ltac:(lia)) as (? & o & Ho & ? & ? & Hq). split; [done|].
        exists o. split_and!; [done|nia|done|]. intros q o' Hqr. apply Hq. lia.
Qed.

End Loop.

Lemma AlignedSize_run i aw ah w h :
  info_ok i aw ah → 0 ≤ w < 2 ^ 28 → 0 ≤ h < 2 ^ 28 →
  ∃ w' h', AlignedSize i (mk_extent w h) = Ok (mk_extent w' h') ∧
    w ≤ w' ≤ w + 1 ∧ h ≤ h' ≤ h + 1.
Proof.
  intros I Hw Hh. destruct (info_alignment _ _ _ I) as (Ha & Haw & Hah).
  unfold AlignedSize. rewrite Ha. cbn [mbind outcome_bind ewidth eheight].
  rewrite !RoundUpToAlign_ceil by (try lia; (destruct Haw as [-> | ->] || idtac);
    (destruct Hah as [-> | ->] || idtac); set_solver).
  pose proof (ceil_div_bounds w aw ltac:(lia) ltac:(lia)).
  pose proof (ceil_div_bounds h ah ltac:(lia) ltac:(lia)).
  exists (ceil_div w aw * aw), (ceil_div h ah * ah). split; [|lia].
  assert (Hfit : ∀ z, 0 ≤ z < 2 ^ 30 → u64 (to_s32 z) = z).
  { intros z Hz. unfold to_s32. rewrite Z.mod_small by lia.
    rewrite uwrap_small by (unfold is_u; lia). lia. }
  unfold Extent_new. rewrite !Hfit by lia. cbn [ewidth eheight].
  rewrite !Z.mod_mul by lia. rewrite dcheck_true; done.
Qed.

(** For every pixel format with more than one plane and every coded size below
    [2^28] in both directions, [BuildFrameLayout] returns a layout in which each
    line starts at a multiple of 16 bytes and holds the samples of a row, the rows
    of a plane end before the next plane starts, and every plane ends 16 bytes or
    more before the end of the frame. *)
Lemma BuildFrameLayout_spec f i w h l0 :
  InfoForPixelFormat f = Ok i → (2 ≤ plane_count i)%nat →
  0 ≤ w < 2 ^ 28 → 0 ≤ h < 2 ^ 28 → layout_ok l0 →
  ∃ l, BuildFrameLayout i (mk_extent w h) l0 = Ok l ∧ layout_plane_count l = plane_count i ∧
    ∀ p, (p < plane_count i)%nat → ∃ stride offset,
      line_stride l !! p = Some stride ∧ plane_offset l !! p = Some offset ∧
      (16 | stride) ∧ plane_row_bytes i p w ≤ stride ∧ 0 ≤ offset ∧
      offset + plane_rows i p h * stride + kFrameSizePadding ≤ layout_size l ∧
      ∀ q offset', (p < q < plane_count i)%nat → plane_offset l !! q = Some offset' →
        offset + plane_rows i p h * stride ≤ offset'.
Proof.
  intros Hi H2 Hw Hh [L1 L2].
  assert (Ht : table f = Some i).
  { unfold InfoForPixelFormat in Hi. apply outcome_bind_Ok in Hi as (_ & _ & Hi).
    by destruct (table f); simplify_eq. }
  destruct (table_ok f i Ht) as (aw & ah & I).
  destruct (AlignedSize_run i aw ah w h I Hw Hh) as (w' & h' & Ea & Hw' & Hh').
  pose proof (info_planes _ _ _ I) as H4.
  destruct (build_loop_run i aw ah I w' h' ltac:(lia) ltac:(lia) (plane_count i) 0
    (line_stride l0) (plane_offset l0) 0) as (st & offs & sz & E & L & Hsz & _ & Hnew);
    [lia|done|done|lia|lia|].
  destruct (Hnew kUPlaneIndex ltac:(unfold kUPlaneIndex; lia)) as (Hu & _).
  destruct (plane_area i aw ah I w' h' ltac:(lia) ltac:(lia) kUPlaneIndex
    ltac:(unfold kUPlaneIndex; lia)) as (_ & Au & _).
  exists (mk_layout (plane_count i) st offs (sz + (plane_stride i kUPlaneIndex w' + 16))).
  split_and!; [|done|].
  { unfold BuildFrameLayout. rewrite Ea. cbn [mbind outcome_bind]. rewrite E. cbn [mbind outcome_bind].
    rewrite plane_dcheck by (unfold kUPlaneIndex; lia). cbn [mbind outcome_bind].
    unfold index. rewrite Hu. cbn [mbind outcome_bind]. change kFrameSizePadding with 16.
    rewrite !uwrap_small by (unfold is_u; try rewrite uwrap_small; unfold is_u; lia). done. }
  intros p Hp. destruct (Hnew p ltac:(lia)) as (Hst & o & Ho & Ho0 & Hend & Hq).
  exists (plane_stride i p w'), o. cbn [line_stride plane_offset layout_size].
  destruct (RowCount_run i aw ah p h I Hp ltac:(lia)) as [_ Br].
  destruct (RowCount_run i aw ah p h' I Hp ltac:(lia)) as [_ Br'].
  destruct (BytesPerRow_run i aw ah p w' I Hp ltac:(lia)) as [_ Bb].
  destruct (info_plane _ _ _ I p Hp) as (e & b & He & Hb & Hew & Heh & Hb4).
  assert (Hmono : plane_rows i p h ≤ plane_rows i p h').
  { unfold plane_rows. rewrite He. apply ceil_div_mono; lia. }
  assert (Hmonob : plane_row_bytes i p w ≤ plane_row_bytes i p w').
  { unfold plane_row_bytes. rewrite He, Hb.
    pose proof (ceil_div_mono w w' (ewidth e) ltac:(lia) ltac:(lia)). nia. }
  pose proof (ceil_div_bounds (plane_rows i p h') 32 ltac:(lia) ltac:(lia)) as C1.
  pose proof (ceil_div_bounds (plane_row_bytes i p w') 16 ltac:(lia) ltac:(lia)) as C2.
  assert (Harea : plane_rows i p h * plane_stride i p w' ≤
    plane_height i p h' * plane_stride i p w').
  { apply Z.mul_le_mono_nonneg_r; unfold plane_stride, plane_height; lia. }
  split_and!; [done|done| | |lia| |].
  - exists (ceil_div (plane_row_bytes i p w') 16). done.
  - unfold plane_stride. lia.
  - unfold kFrameSizePadding. lia.
  - intros q o' Hqr Ho'. specialize (Hq q o' ltac:(lia) Ho'). lia.
Qed.

End Proofs.

Lemma BuildFrameLayout_spec_witness :
  let i := mk_info 3 [1; 1; 1; 0] [mk_extent 1 1; mk_extent 2 2; mk_extent 2 2; mk_extent 0 0] in
  ∃ l, @BuildFrameLayout debug_build i (mk_extent 641 479)
         (mk_layout 0 [0; 0; 0; 0] [0; 0; 0; 0] 0) = Ok l ∧ layout_plane_count l = 3%nat ∧
    ∀ p, (p < 3)%nat → ∃ stride offset,
      line_stride l !! p = Some stride ∧ plane_offset l !! p = Some offset ∧
      (16 | stride) ∧ plane_row_bytes i p 641 ≤ stride ∧ 0 ≤ offset ∧
      offset + plane_rows i p 479 * stride + kFrameSizePadding ≤ layout_size l ∧
      ∀ q offset', (p < q < 3)%nat → plane_offset l !! q = Some offset' →
        offset + plane_rows i p 479 * stride ≤ offset'.
Proof. apply (@BuildFrameLayout_spec debug_build PI420); done || (cbn; lia). Defined.

(** [BuildFrameLayout] pads every frame by a line of the second plane, also when
    the format has one plane only: a debug build stops at its [DCHECK], and a release
    build adds whatever the caller's structure holds in the stride of the missing
    plane to the frame size. *)
Lemma BuildFrameLayout_packed_defect :
  let frame (b : Build) (garbage : Z) :=
    i ← @InfoForPixelFormat b PArgb;
    layout_size <$> @BuildFrameLayout b i (mk_extent 640 480)
      (mk_layout 0 [0; garbage; 0; 0] [0; 0; 0; 0] 0) in
  frame debug_build 0 = Fault DCheckFailed ∧
  frame release_build 0 = Ok (4 * 640 * 480 + 16) ∧
  frame release_build 1000000 = Ok (4 * 640 * 480 + 1000016).
Proof. vm_compute. done. Qed.

End FrameLayout.
