(* ===== verification/TypeConversions.v ===== *)
(** Conversions between the framework's types and the mojo interface types
    (services/media/framework_mojo/mojo_type_conversions.cc).

    The interface types are those of media_types.mojom and media_metadata.mojom.
    The mojo bindings library is not part of the repository; what the conversions
    use of it ([Array::New], the conversion of string arrays, the value of a null
    string) is the class [MojoBindings].  The members of a union read through the
    accessor of another member are undefined behaviour. *)

From S2P Require Import Prelude StreamTypes.

Module TypeConversions.
Import StreamTypes.

(** ** Result codes *)

(** [Result] of services/media/framework/result.h *)
Inductive Result :=
  | kOk | kUnknownError | kInternalError | kUnsupportedOperation | kInvalidArgument | kNotFound.

(** The mojo system's result codes; the codes without a case of their own are one. *)
Inductive MojoResult :=
  | MOJO_RESULT_OK | MOJO_RESULT_INTERNAL | MOJO_RESULT_UNIMPLEMENTED
  | MOJO_RESULT_INVALID_ARGUMENT | MOJO_RESULT_NOT_FOUND | MOJO_RESULT_OTHER.

Inductive MediaResult :=
  | OK | INTERNAL_ERROR | UNSUPPORTED_OPERATION | NOT_IMPLEMENTED | INVALID_ARGUMENT
  | NOT_FOUND | UNKNOWN_ERROR | UNSUPPORTED_CONFIG | INSUFFICIENT_RESOURCES | BAD_STATE
  | BUF_OVERFLOW | FLUSHED | BUSY | PROTOCOL_ERROR | ALREADY_EXISTS | SHUTTING_DOWN
  | CONNECTION_LOST.

Definition ConvertResult (r : MojoResult) : Result :=
  match r with
  | MOJO_RESULT_OK => kOk
  | MOJO_RESULT_INTERNAL => kInternalError
  | MOJO_RESULT_UNIMPLEMENTED => kUnsupportedOperation
  | MOJO_RESULT_INVALID_ARGUMENT => kInvalidArgument
  | MOJO_RESULT_NOT_FOUND => kNotFound
  | MOJO_RESULT_OTHER => kUnknownError
  end.

Definition Convert_MediaResult (r : MediaResult) : Result :=
  match r with
  | OK => kOk
  | INTERNAL_ERROR => kInternalError
  | UNSUPPORTED_OPERATION | NOT_IMPLEMENTED => kUnsupportedOperation
  | INVALID_ARGUMENT => kInvalidArgument
  | NOT_FOUND => kNotFound
  | UNKNOWN_ERROR | UNSUPPORTED_CONFIG | INSUFFICIENT_RESOURCES | BAD_STATE | BUF_OVERFLOW
  | FLUSHED | BUSY | PROTOCOL_ERROR | ALREADY_EXISTS | SHUTTING_DOWN | CONNECTION_LOST =>
      kUnknownError
  end.

(** ** Enumerations of media_types.mojom *)

Inductive MediaTypeMedium := AUDIO | VIDEO | TEXT | SUBPICTURE.
Inductive AudioSampleFormat := ANY | UNSIGNED_8 | SIGNED_16 | SIGNED_24_IN_32 | FLOAT.
Inductive MojoVideoProfile :=
  | VP_UNKNOWN | VP_NOT_APPLICABLE | H264_BASELINE | H264_MAIN | H264_EXTENDED | H264_HIGH
  | H264_HIGH10 | H264_HIGH422 | H264_HIGH444_PREDICTIVE | H264_SCALABLE_BASELINE
  | H264_SCALABLE_HIGH | H264_STEREO_HIGH | H264_MULTIVIEW_HIGH.
Inductive MojoPixelFormat :=
  | PF_UNKNOWN | I420 | YV12 | YV16 | YV12A | YV24 | NV12 | NV21 | UYVY | YUY2 | ARGB | XRGB
  | RGB24 | RGB32 | MJPEG | MT21.
Inductive MojoColorSpace := CS_UNKNOWN | CS_NOT_APPLICABLE | JPEG | HD_REC709 | SD_REC601.

Definition medium_of (m : MediaTypeMedium) : Medium :=
  match m with AUDIO => MAudio | VIDEO => MVideo | TEXT => MText | SUBPICTURE => MSubpicture end.
Definition sample_format_of (f : AudioSampleFormat) : SampleFormat :=
  match f with
  | ANY => FAny
  | UNSIGNED_8 => FUnsigned8
  | SIGNED_16 => FSigned16
  | SIGNED_24_IN_32 => FSigned24In32
  | FLOAT => FFloat
  end.
Definition video_profile_of (p : MojoVideoProfile) : VideoProfile :=
  match p with
  | VP_UNKNOWN => VPUnknown
  | VP_NOT_APPLICABLE => VPNotApplicable
  | H264_BASELINE => VPH264Baseline
  | H264_MAIN => VPH264Main
  | H264_EXTENDED => VPH264Extended
  | H264_HIGH => VPH264High
  | H264_HIGH10 => VPH264High10
  | H264_HIGH422 => VPH264High422
  | H264_HIGH444_PREDICTIVE => VPH264High444Predictive
  | H264_SCALABLE_BASELINE => VPH264ScalableBaseline
  | H264_SCALABLE_HIGH => VPH264ScalableHigh
  | H264_STEREO_HIGH => VPH264StereoHigh
  | H264_MULTIVIEW_HIGH => VPH264MultiviewHigh
  end.
Definition pixel_format_of (p : MojoPixelFormat) : PixelFormat :=
  match p with
  | PF_UNKNOWN => PUnknown | I420 => PI420 | YV12 => PYv12 | YV16 => PYv16 | YV12A => PYv12A
  | YV24 => PYv24 | NV12 => PNv12 | NV21 => PNv21 | UYVY => PUyvy | YUY2 => PYuy2
  | ARGB => PArgb | XRGB => PXrgb | RGB24 => PRgb24 | RGB32 => PRgb32 | MJPEG => PMjpeg
  | MT21 => PMt21
  end.
Definition color_space_of (c : MojoColorSpace) : ColorSpace :=
  match c with
  | CS_UNKNOWN => CUnknown
  | CS_NOT_APPLICABLE => CNotApplicable
  | JPEG => CJpeg
  | HD_REC709 => CHdRec709
  | SD_REC601 => CSdRec601
  end.

Definition mojo_medium (m : Medium) : MediaTypeMedium :=
  match m with MAudio => AUDIO | MVideo => VIDEO | MText => TEXT | MSubpicture => SUBPICTURE end.
Definition mojo_sample_format (f : SampleFormat) : AudioSampleFormat :=
  match f with
  | FAny => ANY
  | FUnsigned8 => UNSIGNED_8
  | FSigned16 => SIGNED_16
  | FSigned24In32 => SIGNED_24_IN_32
  | FFloat => FLOAT
  end.
Definition mojo_video_profile (p : VideoProfile) : MojoVideoProfile :=
  match p with
  | VPUnknown => VP_UNKNOWN
  | VPNotApplicable => VP_NOT_APPLICABLE
  | VPH264Baseline => H264_BASELINE
  | VPH264Main => H264_MAIN
  | VPH264Extended => H264_EXTENDED
  | VPH264High => H264_HIGH
  | VPH264High10 => H264_HIGH10
  | VPH264High422 => H264_HIGH422
  | VPH264High444Predictive => H264_HIGH444_PREDICTIVE
  | VPH264ScalableBaseline => H264_SCALABLE_BASELINE
  | VPH264ScalableHigh => H264_SCALABLE_HIGH
  | VPH264StereoHigh => H264_STEREO_HIGH
  | VPH264MultiviewHigh => H264_MULTIVIEW_HIGH
  end.
Definition mojo_pixel_format (p : PixelFormat) : MojoPixelFormat :=
  match p with
  | PUnknown => PF_UNKNOWN | PI420 => I420 | PYv12 => YV12 | PYv16 => YV16 | PYv12A => YV12A
  | PYv24 => YV24 | PNv12 => NV12 | PNv21 => NV21 | PUyvy => UYVY | PYuy2 => YUY2
  | PArgb => ARGB | PXrgb => XRGB | PRgb24 => RGB24 | PRgb32 => RGB32 | PMjpeg => MJPEG
  | PMt21 => MT21
  end.
Definition mojo_color_space (c : ColorSpace) : MojoColorSpace :=
  match c with
  | CUnknown => CS_UNKNOWN
  | CNotApplicable => CS_NOT_APPLICABLE
  | CJpeg => JPEG
  | CHdRec709 => HD_REC709
  | CSdRec601 => SD_REC601
  end.

(** ** Structures of media_types.mojom and media_metadata.mojom *)

Record AudioMediaTypeDetails := mk_audio_details {
  d_sample_format : AudioSampleFormat; d_channels : Z; d_frames_per_second : Z }.
Record VideoMediaTypeDetails := mk_video_details {
  d_profile : MojoVideoProfile; d_pixel_format : MojoPixelFormat; d_color_space : MojoColorSpace;
  d_width : Z; d_height : Z; d_coded_width : Z; d_coded_height : Z }.
Inductive MediaTypeDetails :=
  | details_audio (a : AudioMediaTypeDetails) | details_video (v : VideoMediaTypeDetails)
  | details_text | details_subpicture.
Record MediaType := mk_media_type {
  mt_medium : MediaTypeMedium; mt_details : MediaTypeDetails;
  mt_encoding : string; mt_encoding_parameters : option (list Z) }.

Record AudioMediaTypeSetDetails := mk_audio_set_details {
  sd_sample_format : AudioSampleFormat; min_channels : Z; max_channels : Z;
  min_frames_per_second : Z; max_frames_per_second : Z }.
Record VideoMediaTypeSetDetails := mk_video_set_details {
  min_width : Z; max_width : Z; min_height : Z; max_height : Z }.
Inductive MediaTypeSetDetails :=
  | set_details_audio (a : AudioMediaTypeSetDetails) | set_details_video (v : VideoMediaTypeSetDetails)
  | set_details_text | set_details_subpicture.

Record Metadata := mk_metadata {
  duration_ns : Z; title : string; artist : string; album : string;
  publisher : string; genre : string; composer : string }.
(** A mojo string is null or a value. *)
Record MediaMetadata := mk_media_metadata {
  mm_duration : Z; mm_title : option string; mm_artist : option string; mm_album : option string;
  mm_publisher : option string; mm_genre : option string; mm_composer : option string }.

(** What is used of the mojo bindings, and whether equal string literals of
    different files have the same address in this build. *)
Class MojoBindings := {
  strings : Type;
  strings_from : list string → strings;
  strings_to : strings → list string;
  array_new : ∀ A : Type, nat → list (option A);
  string_value : option string → string;
  literals_shared : bool;
}.
(** Documented behaviour: string arrays convert element by element, a new array has
    null elements, a null string converts to the empty one. *)
Class MojoBindingsLaws `{MojoBindings} : Prop := {
  strings_to_from l : strings_to (strings_from l) = l;
  array_new_null A n : array_new A n = replicate n None;
  string_value_spec s : string_value s = default "" s;
}.

Section WithBuild.
Context `{BD : Build} `{MB : MojoBindings}.

Record MediaTypeSet := mk_media_type_set {
  mts_medium : MediaTypeMedium; mts_details : MediaTypeSetDetails; mts_encodings : strings }.

(** [KnownEncodingsMatch]: compares the addresses of the literals. *)
Definition KnownEncodingsMatch : bool := literals_shared.

(** A null pointer dereference. *)
Definition non_null {A} (p : option A) : outcome A :=
  match p with Some a => Ok a | None => Fault UndefinedBehaviour end.
Definition get_audio (d : MediaTypeDetails) : outcome AudioMediaTypeDetails :=
  match d with details_audio a => Ok a | _ => Fault UndefinedBehaviour end.
Definition get_video (d : MediaTypeDetails) : outcome VideoMediaTypeDetails :=
  match d with details_video v => Ok v | _ => Fault UndefinedBehaviour end.
Definition set_get_audio (d : MediaTypeSetDetails) : outcome AudioMediaTypeSetDetails :=
  match d with set_details_audio a => Ok a | _ => Fault UndefinedBehaviour end.
Definition set_get_video (d : MediaTypeSetDetails) : outcome VideoMediaTypeSetDetails :=
  match d with set_details_video v => Ok v | _ => Fault UndefinedBehaviour end.

(** [Array<uint8_t>] from [Bytes], and back: the bytes are copied. *)
Definition array_of_bytes (b : option Bytes) : option (list Z) :=
  match b with None => None | Some b => Some b end.
Definition bytes_of_array (a : option (list Z)) : option Bytes :=
  match a with None => None | Some a => Some a end.

(** [MediaTypePtr] from [StreamType] *)
Definition MediaType_From (input : option StreamType) : outcome (option MediaType) :=
  _ ← dcheck KnownEncodingsMatch;
  match input with
  | None => Ok None
  | Some input =>
      match medium input with
      | MAudio =>
          a ← non_null (audio input);
          Ok (Some (mk_media_type AUDIO
            (details_audio (mk_audio_details (mojo_sample_format (sample_format a))
               (channels a) (frames_per_second a)))
            (encoding input) (array_of_bytes (encoding_parameters input))))
      | MVideo =>
          v ← non_null (video input);
          Ok (Some (mk_media_type VIDEO
            (details_video (mk_video_details (mojo_video_profile (profile v))
               (mojo_pixel_format (pixel_format v)) (mojo_color_space (color_space v))
               (width v) (height v) (coded_width v) (coded_height v)))
            (encoding input) (array_of_bytes (encoding_parameters input))))
      | MText =>
          Ok (Some (mk_media_type TEXT details_text (encoding input)
            (array_of_bytes (encoding_parameters input))))
      | MSubpicture =>
          Ok (Some (mk_media_type SUBPICTURE details_subpicture (encoding input)
            (array_of_bytes (encoding_parameters input))))
      end
  end.

(** [StreamType] from [MediaTypePtr] *)
Definition MediaType_To (input : option MediaType) : outcome (option StreamType) :=
  _ ← dcheck KnownEncodingsMatch;
  match input with
  | None => Ok None
  | Some input =>
      let e := mt_encoding input in
      let p := bytes_of_array (mt_encoding_parameters input) in
      match mt_medium input with
      | AUDIO =>
          a ← get_audio (mt_details input);
          t ← AudioStreamType_Create e p (sample_format_of (d_sample_format a)) (d_channels a)
                (d_frames_per_second a);
          Ok (Some t)
      | VIDEO =>
          v ← get_video (mt_details input);
          Ok (Some (VideoStreamType_Create e p (video_profile_of (d_profile v))
            (pixel_format_of (d_pixel_format v)) (color_space_of (d_color_space v))
            (d_width v) (d_height v) (d_coded_width v) (d_coded_height v)))
      | TEXT => Ok (Some (TextStreamType_Create e p))
      | SUBPICTURE => Ok (Some (SubpictureStreamType_Create e p))
      end
  end.

(** [MediaTypeSetPtr] from [StreamTypeSet] *)
Definition MediaTypeSet_From (input : option StreamTypeSet) : outcome (option MediaTypeSet) :=
  _ ← dcheck KnownEncodingsMatch;
  match input with
  | None => Ok None
  | Some input =>
      let es := strings_from (encodings input) in
      match set_medium input with
      | MAudio =>
          a ← non_null (set_audio input);
          Ok (Some (mk_media_type_set AUDIO
            (set_details_audio (mk_audio_set_details (mojo_sample_format (set_sample_format a))
               (rmin (set_channels a)) (rmax (set_channels a))
               (rmin (set_frames_per_second a)) (rmax (set_frames_per_second a)))) es))
      | MVideo =>
          v ← non_null (set_video input);
          Ok (Some (mk_media_type_set VIDEO
            (set_details_video (mk_video_set_details (rmin (set_width v)) (rmax (set_width v))
               (rmin (set_height v)) (rmax (set_height v)))) es))
      | MText => Ok (Some (mk_media_type_set TEXT set_details_text es))
      | MSubpicture => Ok (Some (mk_media_type_set SUBPICTURE set_details_subpicture es))
      end
  end.

(** [StreamTypeSet] from [MediaTypeSetPtr] *)
Definition MediaTypeSet_To (input : option MediaTypeSet) : outcome (option StreamTypeSet) :=
  _ ← dcheck KnownEncodingsMatch;
  match input with
  | None => Ok None
  | Some input =>
      let es := strings_to (mts_encodings input) in
      match mts_medium input with
      | AUDIO =>
          a ← set_get_audio (mts_details input);
          c ← Range_new (min_channels a) (max_channels a);
          r ← Range_new (min_frames_per_second a) (max_frames_per_second a);
          Ok (Some (AudioStreamTypeSet_Create es (sample_format_of (sd_sample_format a)) c r))
      | VIDEO =>
          v ← set_get_video (mts_details input);
          w ← Range_new (min_width v) (max_width v);
          h ← Range_new (min_height v) (max_height v);
          Ok (Some (VideoStreamTypeSet_Create es w h))
      | TEXT => Ok (Some (TextStreamTypeSet_Create es))
      | SUBPICTURE => Ok (Some (SubpictureStreamTypeSet_Create es))
      end
  end.

(** [MediaMetadataPtr] from [Metadata], and back *)
Definition nullable (s : string) : option string := if decide (s = "") then None else Some s.
Definition MediaMetadata_From (input : option Metadata) : option MediaMetadata :=
  match input with
  | None => None
  | Some m =>
      Some (mk_media_metadata (duration_ns m) (nullable (title m)) (nullable (artist m))
        (nullable (album m)) (nullable (publisher m)) (nullable (genre m)) (nullable (composer m)))
  end.
Definition MediaMetadata_To (input : option MediaMetadata) : option Metadata :=
  match input with
  | None => None
  | Some m =>
      Some (mk_metadata (mm_duration m) (string_value (mm_title m)) (string_value (mm_artist m))
        (string_value (mm_album m)) (string_value (mm_publisher m)) (string_value (mm_genre m))
        (string_value (mm_composer m)))
  end.

(** A fallible conversion of every element, in order. *)
Fixpoint convert_all {A B} (conv : option A → outcome (option B)) (l : list (option A)) :
    outcome (list (option B)) :=
  match l with
  | [] => Ok []
  | x :: l => y ← conv x; ys ← convert_all conv l; Ok (y :: ys)
  end.

(** [Array] from a vector: the elements are pushed behind those of [Array::New(size())]. *)
Definition array_of_vector {A B} (conv : option A → outcome (option B))
    (input : option (list (option A))) : outcome (option (list (option B))) :=
  match input with
  | None => Ok None
  | Some v => ys ← convert_all conv v; Ok (Some (array_new B (length v) ++ ys))
  end.
(** A vector from an [Array]: the elements are assigned by index. *)
Definition vector_of_array {A B} (conv : option A → outcome (option B))
    (input : option (list (option A))) : outcome (option (list (option B))) :=
  match input with
  | None => Ok None
  | Some v => ys ← convert_all conv v; Ok (Some ys)
  end.

Definition MediaTypes_From := array_of_vector MediaType_From.
Definition MediaTypes_To := vector_of_array MediaType_To.
Definition MediaTypeSets_From := array_of_vector MediaTypeSet_From.
Definition MediaTypeSets_To := vector_of_array MediaTypeSet_To.

(** ** Round trips *)

Lemma medium_roundtrip m : medium_of (mojo_medium m) = m.
Proof. by destruct m. Qed.
Lemma sample_format_roundtrip f : sample_format_of (mojo_sample_format f) = f.
Proof. by destruct f. Qed.
Lemma mojo_sample_format_roundtrip f : mojo_sample_format (sample_format_of f) = f.
Proof. by destruct f. Qed.
Lemma video_profile_roundtrip p : video_profile_of (mojo_video_profile p) = p.
Proof. by destruct p. Qed.
Lemma mojo_video_profile_roundtrip p : mojo_video_profile (video_profile_of p) = p.
Proof. by destruct p. Qed.
Lemma pixel_format_roundtrip p : pixel_format_of (mojo_pixel_format p) = p.
Proof. by destruct p. Qed.
Lemma mojo_pixel_format_roundtrip p : mojo_pixel_format (pixel_format_of p) = p.
Proof. by destruct p. Qed.
Lemma color_space_roundtrip c : color_space_of (mojo_color_space c) = c.
Proof. by destruct c. Qed.
Lemma mojo_color_space_roundtrip c : mojo_color_space (color_space_of c) = c.
Proof. by destruct c. Qed.
Lemma bytes_roundtrip p : bytes_of_array (array_of_bytes p) = p.
Proof. by destruct p. Qed.
Lemma array_roundtrip p : array_of_bytes (bytes_of_array p) = p.
Proof. by destruct p. Qed.

(** Every object but those of the base class itself. *)
Definition proper_type (t : StreamType) : Prop := type_ok t ∧ sub t ≠ DBase.
Definition proper_set (t : StreamTypeSet) : Prop :=
  set_ok t ∧
  match set_sub t with
  | SBase => False
  | SAudio a => rmin (set_channels a) ≤ rmax (set_channels a) ∧
                rmin (set_frames_per_second a) ≤ rmax (set_frames_per_second a)
  | SVideo v => rmin (set_width v) ≤ rmax (set_width v) ∧ rmin (set_height v) ≤ rmax (set_height v)
  | SText | SSubpicture => True
  end.

(** A message whose union member matches its medium. *)
Definition proper_media_type (m : MediaType) : Prop :=
  match mt_medium m, mt_details m with
  | AUDIO, details_audio a => d_sample_format a ≠ ANY
  | VIDEO, details_video _ | TEXT, details_text | SUBPICTURE, details_subpicture => True
  | _, _ => False
  end.

Context {ML : MojoBindingsLaws}.
Context (Hlit : dcheck KnownEncodingsMatch = Ok tt).

Lemma Range_new_ok r : rmin r ≤ rmax r → Range_new (rmin r) (rmax r) = Ok r.
Proof.
  intros Hr. unfold Range_new. rewrite dcheck_true by lia. by destruct r.
Qed.

Lemma type_roundtrip t : proper_type t →
  (m ← MediaType_From (Some t); MediaType_To m) = Ok (Some t).
Proof using Hlit.
  intros [Ht Hs]. unfold MediaType_From, MediaType_To. rewrite Hlit. cbn [mbind outcome_bind].
  destruct t as [m e p [|[f c r z]|[]| |]]; cbn in *; try done.
  - destruct Ht as [-> Hz]. cbn. rewrite sample_format_roundtrip, bytes_roundtrip.
    unfold AudioStreamType_Create. by rewrite Hz.
  - rewrite Ht. cbn. unfold VideoStreamType_Create.
    by rewrite video_profile_roundtrip, pixel_format_roundtrip, color_space_roundtrip, bytes_roundtrip.
  - rewrite Ht. cbn. by rewrite bytes_roundtrip.
  - rewrite Ht. cbn. by rewrite bytes_roundtrip.
Qed.

Lemma media_type_roundtrip m : proper_media_type m →
  (t ← MediaType_To (Some m); MediaType_From t) = Ok (Some m).
Proof using Hlit.
  unfold proper_media_type, MediaType_From, MediaType_To. rewrite Hlit. cbn [mbind outcome_bind].
  destruct m as [[] [[f c r]|[]| |] e p]; cbn; try done; intros Hf.
  - unfold AudioStreamType_Create. destruct f; try done; cbn; by rewrite array_roundtrip.
  - rewrite mojo_video_profile_roundtrip, mojo_pixel_format_roundtrip, mojo_color_space_roundtrip.
    by rewrite array_roundtrip.
  - by rewrite array_roundtrip.
  - by rewrite array_roundtrip.
Qed.

Lemma set_roundtrip t : proper_set t →
  (m ← MediaTypeSet_From (Some t); MediaTypeSet_To m) = Ok (Some t).
Proof using Hlit ML.
  intros [Ht Hs]. unfold MediaTypeSet_From, MediaTypeSet_To. rewrite Hlit. cbn [mbind outcome_bind].
  destruct t as [m es [|[f c r]|[w h]| |]]; cbn in *; try done; rewrite Ht; cbn;
    rewrite strings_to_from; try done.
  - destruct Hs as [Hc Hr]. rewrite !Range_new_ok by done. cbn.
    by rewrite sample_format_roundtrip.
  - destruct Hs as [Hw Hh]. by rewrite !Range_new_ok by done.
Qed.

Lemma nullable_value s : string_value (nullable s) = s.
Proof using ML.
  rewrite string_value_spec. unfold nullable. by case_decide.
Qed.

Lemma convert_all_total {A B} (conv : option A → outcome (option B)) g l :
  Forall (λ x, conv x = Ok (g x)) l → convert_all conv l = Ok (g <$> l).
Proof.
  induction 1 as [|x l Hx Hl IH]; [done|]. cbn [convert_all]. rewrite Hx.
  cbn [mbind outcome_bind]. by rewrite IH.
Qed.

(** Converting a stream type, a stream type set or metadata to its interface form
    and back gives it back, for every object of a derived class; and converting an
    interface type that matches its medium, other than one of sample format [ANY],
    to a stream type and back gives it back. *)
Lemma conversions_roundtrip t ts m md :
  proper_type t → proper_set ts → proper_media_type m →
  (x ← MediaType_From (Some t); MediaType_To x) = Ok (Some t) ∧
  (x ← MediaTypeSet_From (Some ts); MediaTypeSet_To x) = Ok (Some ts) ∧
  (x ← MediaType_To (Some m); MediaType_From x) = Ok (Some m) ∧
  MediaMetadata_To (MediaMetadata_From (Some md)) = Some md.
Proof using Hlit ML.
  intros Ht Hts Hm. split_and!;
    [by apply type_roundtrip|by apply set_roundtrip|by apply media_type_roundtrip|].
  destruct md. cbn. by rewrite !nullable_value.
Qed.

(** Converting a vector of [n] stream types to an interface array gives an array
    of [2 * n] elements whose first [n] are null; converting that array back gives a
    vector with [n] null pointers in front of the original types. *)
Lemma array_conversion_defect v :
  Forall proper_type v →
  ∃ l, MediaTypes_From (Some (Some <$> v)) = Ok (Some (replicate (length v) None ++ l)) ∧
    length l = length v ∧
    MediaTypes_To (Some (replicate (length v) None ++ l))
      = Ok (Some (replicate (length v) None ++ (Some <$> v))).
Proof using Hlit ML.
  intros Hv. assert (Hc : Forall (λ x, ∃ y, MediaType_From x = Ok y ∧ MediaType_To y = Ok x)
    (Some <$> v)).
  { apply Forall_fmap. eapply Forall_impl; [exact Hv|]. intros t Ht. cbn.
    pose proof (type_roundtrip t Ht) as E. apply outcome_bind_Ok in E as (y & ? & ?). eauto. }
  assert (Hl : ∃ l, convert_all MediaType_From (Some <$> v) = Ok l ∧
    convert_all MediaType_To l = Ok (Some <$> v)).
  { clear Hv. induction Hc as [|x w (y & Hy1 & Hy2) Hw (l & IH1 & IH2)]; [by exists []|].
    exists (y :: l). cbn [convert_all]. rewrite Hy1, Hy2. cbn [mbind outcome_bind].
    by rewrite IH1, IH2. }
  destruct Hl as (l & E1 & E2). exists l.
  assert (Hlen : ∀ (A B : Type) (c : option A → outcome (option B)) a b,
    convert_all c a = Ok b → length b = length a).
  { intros A B c. induction a as [|x a IH]; intros b; cbn [convert_all].
    - by intros [= <-].
    - intros (y & _ & (ys & Hys & [= <-])%outcome_bind_Ok)%outcome_bind_Ok. cbn. f_equal. eauto. }
  assert (Hnull : ∀ n k, convert_all MediaType_To k = Ok (Some <$> v) →
    convert_all MediaType_To (replicate n None ++ k) = Ok (replicate n None ++ (Some <$> v))).
  { intros n k Hk. induction n as [|n IH]; [done|].
    change (replicate (S n) None ++ k) with (None :: (replicate n None ++ k)).
    assert (Hn : MediaType_To None = Ok None) by (unfold MediaType_To; by rewrite Hlit).
    cbn [convert_all]. rewrite Hn. cbn [mbind outcome_bind]. by rewrite IH. }
  split_and!.
  - unfold MediaTypes_From, array_of_vector. rewrite E1. cbn [mbind outcome_bind].
    by rewrite array_new_null, length_fmap.
  - apply Hlen in E1. by rewrite length_fmap in E1.
  - unfold MediaTypes_To, vector_of_array. by rewrite Hnull.
Qed.

End WithBuild.

(** Bindings for the witnesses. *)
#[local] Instance sample_bindings : MojoBindings := {|
  strings := list string;
  strings_from l := l;
  strings_to l := l;
  array_new A n := replicate n None;
  string_value := default "";
  literals_shared := true;
|}.
#[local] Instance sample_bindings_laws : MojoBindingsLaws.
Proof. by split. Qed.

Lemma conversions_roundtrip_witness :
  let ts := mk_set MVideo ["h264"] (SVideo (mk_video_set (mk_range 0 640) (mk_range 0 480))) in
  let m := mk_media_type TEXT details_text "srt" (Some [1; 2]) in
  let md := mk_metadata 5 "t" "" "" "" "g" "" in
  (x ← @MediaType_From debug_build _ (Some stereo); @MediaType_To debug_build _ x) = Ok (Some stereo) ∧
  (x ← @MediaTypeSet_From debug_build _ (Some ts); @MediaTypeSet_To debug_build _ x) = Ok (Some ts) ∧
  (x ← @MediaType_To debug_build _ (Some m); @MediaType_From debug_build _ x) = Ok (Some m) ∧
  MediaMetadata_To (MediaMetadata_From (Some md)) = Some md.
Proof.
  apply (@conversions_roundtrip debug_build sample_bindings sample_bindings_laws);
    repeat split; cbn; done || lia.
Defined.

Lemma array_conversion_defect_witness :
  ∃ l, @MediaTypes_From debug_build _ (Some [Some stereo]) = Ok (Some (None :: l)) ∧
    length l = 1%nat ∧
    @MediaTypes_To debug_build _ (Some (None :: l)) = Ok (Some [None; Some stereo]).
Proof.
  refine (@array_conversion_defect debug_build sample_bindings sample_bindings_laws _ [stereo] _);
    [done|].
  constructor; [|constructor]. by repeat split.
Defined.

End TypeConversions.
