(* ===== verification/StdMap.v ===== *)
(** [std::map] with integer keys: a finite map with iterators.  An iterator is the
    key of its element, or [None] for [end()]; the code that uses the maps never
    inserts a key again after erasing it, so a key identifies its element. *)

From S2P Require Import Prelude.

Module StdMap.

Section Map.
Context {V : Type}.
Implicit Types (m : gmap Z V) (k : Z) (P : Z → bool).

(** The least and the greatest key that satisfies a test. *)
Definition least P m : option Z :=
  map_fold (λ k _ acc,
    if P k then Some (match acc with None => k | Some j => Z.min j k end) else acc) None m.
Definition greatest P m : option Z :=
  map_fold (λ k _ acc,
    if P k then Some (match acc with None => k | Some j => Z.max j k end) else acc) None m.

(** [begin()], [lower_bound(k)], [++iter], [--iter] *)
Definition begin_ m : option Z := least (λ _, true) m.
Definition lower_bound m k : option Z := least (λ j, k <=? j) m.
Definition succ m k : option Z := least (λ j, k <? j) m.
Definition pred m (i : option Z) : option Z :=
  greatest (λ j, match i with None => true | Some k => j <? k end) m.

(** [insert] and [emplace] keep an element that is already there. *)
Definition insert_new k (v : V) m : gmap Z V :=
  match m !! k with Some _ => m | None => <[k := v]> m end.

Lemma least_spec P m :
  match least P m with
  | Some k => is_Some (m !! k) ∧ P k = true ∧ ∀ j, is_Some (m !! j) → P j = true → k ≤ j
  | None => ∀ j, is_Some (m !! j) → P j = false
  end.
Proof.
  unfold least. apply (map_fold_weak_ind (λ r m,
    match r with
    | Some k => is_Some (m !! k) ∧ P k = true ∧ ∀ j, is_Some (m !! j) → P j = true → k ≤ j
    | None => ∀ j, is_Some (m !! j) → P j = false
    end)).
  - intros j [? Hj]. by rewrite lookup_empty in Hj.
  - intros k v m' r Hk IH. destruct (P k) eqn:HP.
    + destruct r as [i|].
      * destruct IH as (Hi & HPi & Hmin). destruct (Z.min_spec i k) as [[? ->]|[? ->]].
        -- split_and!; [by rewrite lookup_insert_is_Some'; right|done|].
           intros j [<-|Hj]%lookup_insert_is_Some' HPj; [lia|auto].
        -- split_and!; [by rewrite lookup_insert_is_Some'; left|done|].
           intros j [<-|Hj]%lookup_insert_is_Some' HPj; [lia|].
           specialize (Hmin j Hj HPj). lia.
      * split_and!; [by rewrite lookup_insert_is_Some'; left|done|].
        intros j [<-|Hj]%lookup_insert_is_Some' HPj; [lia|]. rewrite IH in HPj; done.
    + destruct r as [i|].
      * destruct IH as (Hi & HPi & Hmin).
        split_and!; [by rewrite lookup_insert_is_Some'; right|done|].
        intros j [<-|Hj]%lookup_insert_is_Some' HPj; [congruence|auto].
      * intros j [<-|Hj]%lookup_insert_is_Some'; auto.
Qed.

Lemma greatest_spec P m :
  match greatest P m with
  | Some k => is_Some (m !! k) ∧ P k = true ∧ ∀ j, is_Some (m !! j) → P j = true → j ≤ k
  | None => ∀ j, is_Some (m !! j) → P j = false
  end.
Proof.
  unfold greatest. apply (map_fold_weak_ind (λ r m,
    match r with
    | Some k => is_Some (m !! k) ∧ P k = true ∧ ∀ j, is_Some (m !! j) → P j = true → j ≤ k
    | None => ∀ j, is_Some (m !! j) → P j = false
    end)).
  - intros j [? Hj]. by rewrite lookup_empty in Hj.
  - intros k v m' r Hk IH. destruct (P k) eqn:HP.
    + destruct r as [i|].
      * destruct IH as (Hi & HPi & Hmax). destruct (Z.max_spec i k) as [[? ->]|[? ->]].
        -- split_and!; [by rewrite lookup_insert_is_Some'; left|done|].
           intros j [<-|Hj]%lookup_insert_is_Some' HPj; [lia|].
           specialize (Hmax j Hj HPj). lia.
        -- split_and!; [by rewrite lookup_insert_is_Some'; right|done|].
           intros j [<-|Hj]%lookup_insert_is_Some' HPj; [lia|auto].
      * split_and!; [by rewrite lookup_insert_is_Some'; left|done|].
        intros j [<-|Hj]%lookup_insert_is_Some' HPj; [lia|]. rewrite IH in HPj; done.
    + destruct r as [i|].
      * destruct IH as (Hi & HPi & Hmax).
        split_and!; [by rewrite lookup_insert_is_Some'; right|done|].
        intros j [<-|Hj]%lookup_insert_is_Some' HPj; [congruence|auto].
      * intros j [<-|Hj]%lookup_insert_is_Some'; auto.
Qed.

Lemma least_Some P m k :
  is_Some (m !! k) → P k = true → (∀ j, is_Some (m !! j) → P j = true → k ≤ j) →
  least P m = Some k.
Proof.
  intros Hk HP Hmin. pose proof (least_spec P m) as Hl. destruct (least P m) as [i|].
  - destruct Hl as (Hi & HPi & Hmini). f_equal. specialize (Hmin i Hi HPi).
    specialize (Hmini k Hk HP). lia.
  - rewrite Hl in HP; done.
Qed.

Lemma least_None P m : (∀ j, is_Some (m !! j) → P j = false) → least P m = None.
Proof.
  intros HP. pose proof (least_spec P m) as Hl. destruct (least P m) as [i|]; [|done].
  destruct Hl as (Hi & HPi & _). rewrite HP in HPi; done.
Qed.

Lemma lower_bound_at m p : is_Some (m !! p) → lower_bound m p = Some p.
Proof. intros Hp. apply least_Some; [done|lia|]. intros. lia. Qed.

(** When [lower_bound(p)] is past [p] and not the first element, the element before
    it is the last one below [p]. *)
Lemma pred_lower_bound m p :
  lower_bound m p ≠ begin_ m →
  match lower_bound m p with None => true | Some k => p <? k end = true →
  ∃ k, pred m (lower_bound m p) = Some k ∧ is_Some (m !! k) ∧ k < p ∧
    ∀ j, is_Some (m !! j) → j ≤ p → j ≤ k.
Proof.
  intros Hne Hpast. pose proof (least_spec (λ j, p <=? j) m) as Hlb.
  fold (lower_bound m p) in Hlb. unfold pred.
  set (Q := λ j, match lower_bound m p with None => true | Some k => j <? k end).
  pose proof (greatest_spec Q m) as Hg. destruct (greatest Q m) as [k|].
  - destruct Hg as (Hk & HQ & Hmax). exists k. unfold Q in *.
    destruct (lower_bound m p) as [i|].
    + destruct Hlb as (Hi & Hpi & Hmin). split_and!; [done|done| |].
      * destruct (Z.lt_ge_cases k p); [done|]. specialize (Hmin k Hk ltac:(lia)). lia.
      * intros j Hj Hjp. apply Hmax; [done|]. lia.
    + specialize (Hlb k Hk) as ?. split_and!; [done|done|lia|]. intros j Hj _. by apply Hmax.
  - exfalso. apply Hne. symmetry. unfold Q in Hg. destruct (lower_bound m p) as [i|].
    + destruct Hlb as (Hi & Hpi & Hmin). apply least_Some; [done..|].
      intros j Hj _. specialize (Hg j Hj). lia.
    + apply least_None. intros j Hj. specialize (Hg j Hj). done.
Qed.

(** Otherwise it is the element at [p], the first element past [p], or [end()] of an
    empty map. *)
Lemma lower_bound_stays m p :
  negb (bool_decide (lower_bound m p = begin_ m)) &&
    match lower_bound m p with None => true | Some k => p <? k end = false →
  (lower_bound m p = Some p ∧ is_Some (m !! p)) ∨
  (∃ k, lower_bound m p = Some k ∧ begin_ m = Some k ∧ is_Some (m !! k) ∧ p < k ∧
     ∀ j, is_Some (m !! j) → k ≤ j) ∨
  (lower_bound m p = None ∧ ∀ j, ¬ is_Some (m !! j)).
Proof.
  intros Hc. pose proof (least_spec (λ j, p <=? j) m) as Hlb. fold (lower_bound m p) in Hlb.
  pose proof (least_spec (λ _, true) m) as Hb. fold (begin_ m) in Hb.
  apply andb_false_iff in Hc. destruct (lower_bound m p) as [k|].
  - destruct Hlb as (Hk & Hpk & Hmin). destruct (decide (p = k)) as [->|]; [by left|].
    right; left. destruct Hc as [Hc|Hc]; [|lia].
    apply negb_false_iff, bool_decide_eq_true in Hc. rewrite <- Hc in Hb.
    destruct Hb as (_ & _ & Hbm). exists k. split_and!; [done..|lia|auto].
  - right; right. destruct Hc as [Hc|Hc]; [|done].
    apply negb_false_iff, bool_decide_eq_true in Hc. rewrite <- Hc in Hb.
    split; [done|]. intros j Hj. specialize (Hb j Hj). done.
Qed.

Lemma insert_new_fresh k v m : m !! k = None → insert_new k v m = <[k := v]> m.
Proof. intros Hk. unfold insert_new. by rewrite Hk. Qed.

End Map.

End StdMap.
