(* ===== verification/Packet.v ===== *)
(** [Packet] of the media framework (services/media/framework/packet.cc).

    A [PacketPtr] owns its packet, so a packet is a value; the payload is the bytes of
    its buffer, absent when the pointer is null.  Allocators are known by their
    address. *)

From S2P Require Import Prelude.

Module Packet.

Record Packet := mk_packet {
  pts : Z;
  end_of_stream : bool;
  size : Z;
  payload : option (list Z);
  packet_allocator : option Z;
}.

#[export] Instance Packet_eq_dec : EqDecision Packet.
Proof. solve_decision. Defined.

Section WithBuild.
Context `{BD : Build}.

(** The constructor of [Packet], which checks the size against the payload. *)
Definition new_packet (pts : Z) (eos : bool) (size : Z) (payload : option (list Z)) (allocator : option Z) :
    outcome Packet :=
  _ ← dcheck (Bool.eqb (size =? 0) (bool_decide (payload = None)));
  Ok (mk_packet pts eos size payload allocator).

(** [Packet::Create], [CreateNoAllocator], [CreateEndOfStream] *)
Definition Create (pts : Z) (eos : bool) (size : Z) (payload : option (list Z)) (allocator : option Z) :
    outcome Packet :=
  _ ← dcheck (bool_decide (payload = None ∨ allocator ≠ None));
  new_packet pts eos size payload allocator.
Definition CreateNoAllocator (pts : Z) (eos : bool) (size : Z) (payload : option (list Z)) : outcome Packet :=
  new_packet pts eos size payload None.
Definition CreateEndOfStream (pts : Z) : outcome Packet := new_packet pts true 0 None None.

End WithBuild.

End Packet.
