(* ===== verification/MediaStates.v ===== *)
(** The states of media components (mojo/services/media/common/interfaces/media_state.mojom). *)

From S2P Require Import Prelude.

Module MediaStates.

Inductive MediaState := FAULT | UNPREPARED | PAUSED | PLAYING | ENDED.
#[export] Instance MediaState_eq_dec : EqDecision MediaState.
Proof. solve_decision. Defined.
Definition MediaState_value (m : MediaState) : Z :=
  match m with FAULT => 0 | UNPREPARED => 1 | PAUSED => 2 | PLAYING => 3 | ENDED => 4 end.

End MediaStates.
