(* ===== verification/Incident.v ===== *)
(** One-shot events and the joining of callbacks
    (services/media/framework/util/incident.h, incident.cc, callback_joiner.h).

    Consequences are closures, run by a parameter; an incident is a member of some larger
    state, which its consequences may change. *)

From S2P Require Import Prelude.

Module Incident.

(** ** [Incident] *)

Record Incident (C : Type) := mk_incident { occurred_ : bool; consequences_ : list C }.
Arguments mk_incident {C}.
Arguments occurred_ {C}.
Arguments consequences_ {C}.

Definition new_incident {C} : Incident C := mk_incident false [].

Section Incident.
Context {W C : Type} (run : C → prog W unit) (inc : W → Incident C) (put : Incident C → W → W).

Definition When (c : C) : prog W unit :=
  w ← getS;
  if occurred_ (inc w) then run c
  else modS (put (mk_incident (occurred_ (inc w)) (consequences_ (inc w) ++ [c]))).

(** The loop of [Occur], over the vector that was swapped out. *)
Fixpoint run_all (cs : list C) : prog W unit :=
  match cs with [] => mret tt | c :: cs => _ ← run c; run_all cs end.
Definition Occur : prog W unit :=
  w ← getS;
  if occurred_ (inc w) then mret tt
  else
    let consequences := consequences_ (inc w) in
    _ ← modS (put (mk_incident true []));
    run_all consequences.

Definition Reset : prog W unit := modS (put (mk_incident false [])).
Definition Run : prog W unit := Occur.

End Incident.

(** ** [ThreadsafeIncident]

    Each critical section is one step; what a call does outside the lock is to run the
    consequences that its critical section hands it. *)

Section Threadsafe.
Context {C : Type}.
Implicit Types (i : Incident C) (c : C).

Definition ts_occurred i : bool := occurred_ i.
Definition ts_When c i : list C * Incident C :=
  if occurred_ i then ([c], i) else ([], mk_incident false (consequences_ i ++ [c])).
Definition ts_Occur i : list C * Incident C :=
  if occurred_ i then ([], i) else (consequences_ i, mk_incident true []).
Definition ts_Reset i : Incident C := mk_incident false [].

(** The incident with the calls in progress, each of which has consequences still to run,
    and the consequences that were registered, that ran and that a reset dropped. *)
Record threads := mk_threads {
  shared : Incident C;
  in_progress : list (list C);
  registered : list C;
  ran : list C;
  dropped : list C;
}.
Definition start : threads := mk_threads new_incident [] [] [] [].

Inductive ts_step : threads → threads → Prop :=
  | step_when c i ps reg rn dr todo i' :
      ts_When c i = (todo, i') →
      ts_step (mk_threads i ps reg rn dr) (mk_threads i' (todo :: ps) (c :: reg) rn dr)
  | step_occur i ps reg rn dr todo i' :
      ts_Occur i = (todo, i') → ts_step (mk_threads i ps reg rn dr) (mk_threads i' (todo :: ps) reg rn dr)
  | step_reset i ps reg rn dr :
      ts_step (mk_threads i ps reg rn dr) (mk_threads (ts_Reset i) ps reg rn (consequences_ i ++ dr))
  | step_run i ps1 c todo ps2 reg rn dr :
      ts_step (mk_threads i (ps1 ++ (c :: todo) :: ps2) reg rn dr)
        (mk_threads i (ps1 ++ todo :: ps2) reg (c :: rn) dr).

End Threadsafe.
Arguments threads : clear implicits.

(** ** [CallbackJoiner] *)

Record CallbackJoiner (C : Type) := mk_joiner { counter_ : Z; join_callback_ : option C }.
Arguments mk_joiner {C}.
Arguments counter_ {C}.
Arguments join_callback_ {C}.

Definition new_joiner {C} : CallbackJoiner C := mk_joiner 0 None.

Section Joiner.
Context {W C : Type} (run : option C → prog W unit) (joiner : W → CallbackJoiner C)
  (put : CallbackJoiner C → W → W) `{BD : Build}.

(** [Spawn], which [NewCallback] calls for the callback that will call [Complete];
    [counter_] is a [size_t]. *)
Definition Spawn : prog W unit := modS (λ w, put (mk_joiner (uwrap 64 (counter_ (joiner w) + 1)) (join_callback_ (joiner w))) w).
Definition Complete : prog W unit :=
  w ← getS;
  _ ← dcheckS (negb (counter_ (joiner w) =? 0));
  _ ← modS (λ w, put (mk_joiner (uwrap 64 (counter_ (joiner w) - 1)) (join_callback_ (joiner w))) w);
  w ← getS;
  if counter_ (joiner w) =? 0 then
    let join_callback := join_callback_ (joiner w) in
    _ ← modS (λ w, put (mk_joiner (counter_ (joiner w)) None) w);
    run join_callback
  else mret tt.
Definition WhenJoined (join_callback : C) : prog W unit :=
  w ← getS;
  _ ← dcheckS (match join_callback_ (joiner w) with None => true | Some _ => false end);
  if counter_ (joiner w) =? 0 then run (Some join_callback)
  else modS (λ w, put (mk_joiner (counter_ (joiner w)) (Some join_callback)) w).
Definition Cancel : prog W bool :=
  w ← getS;
  let result := match join_callback_ (joiner w) with Some _ => true | None => false end in
  _ ← modS (λ w, put (mk_joiner (counter_ (joiner w)) None) w);
  mret result.

End Joiner.

(** ** What incidents do *)

Section Facts.
Context {C : Type}.
Implicit Types (s t : threads C).

(** Every registered consequence is in one place: held, about to run, run, or dropped. *)
Definition accounted s : Prop :=
  registered s ≡ₚ consequences_ (shared s) ++ concat (in_progress s) ++ ran s ++ dropped s ∧
  (occurred_ (shared s) = true → consequences_ (shared s) = []).

Lemma accounted_step s t : ts_step s t → accounted s → accounted t.
Proof.
  destruct 1 as [c i ps reg rn dr todo i' E|i ps reg rn dr todo i' E|i ps reg rn dr|i ps1 c todo ps2 reg rn dr];
    intros [Hp Ho]; cbn in *.
  - unfold ts_When in E. destruct (occurred_ i) eqn:Ei; injection E as <- <-; split; cbn.
    + rewrite Hp, Ho by done. done.
    + intros _. by apply Ho.
    + rewrite Hp. rewrite <- app_assoc. cbn. by rewrite Permutation_middle.
    + done.
  - unfold ts_Occur in E. destruct (occurred_ i) eqn:Ei; injection E as <- <-; split; cbn; try done.
    + intros _. by apply Ho.
    + by rewrite Hp, <- app_assoc.
  - split; [cbn|done]. rewrite Hp, Permutation_app_swap_app. apply Permutation_app_head, Permutation_app_swap_app.
  - split; [cbn|done]. rewrite Hp. apply Permutation_app_head. rewrite !concat_app. cbn. rewrite <- !app_assoc.
    apply Permutation_app_head. cbn. rewrite !app_assoc. apply Permutation_cons_app. by rewrite <- app_assoc.
Qed.

Lemma accounted_reachable s : rtc ts_step start s → accounted s.
Proof.
  intros Hr. remember start as s0 eqn:E. assert (accounted s0) as Hi by (subst; by split).
  clear E. induction Hr as [|s1 s2 s3 Hs _ IH]; [done|]. apply IH. by eapply accounted_step.
Qed.

End Facts.

(** [Occur] runs what was registered, in order, after the incident has become one that
    occurred, so that what consequences register runs at once. *)
Lemma Occur_runs_all {W C} (run : C → prog W unit) inc put w (Q : list C → W → Prop) :
  occurred_ (inc w) = false → Q (consequences_ (inc w)) (put (mk_incident true []) w) →
  (∀ c cs w, Q (c :: cs) w → runs (run c) w (λ _ w', Q cs w')) →
  runs (Occur run inc put) w (λ _ w', Q [] w').
Proof.
  intros Ho HQ Hrun. unfold Occur. apply runs_get. rewrite Ho. apply runs_mod.
  revert HQ. generalize (put (mk_incident true []) w). induction (consequences_ (inc w)) as [|c cs IH]; intros w' HQ.
  - by apply runs_ret.
  - cbn. eapply runs_bind; [by apply Hrun|]. intros ? w2. apply IH.
Qed.

(** ** What joiners do *)

Section JoinerHistory.
Context {C : Type} `{BD : Build}.

(** Calls of a joiner whose callbacks are recorded. *)
Inductive joiner_call := CallSpawn | CallComplete | CallWhenJoined (c : C) | CallCancel.
Record history := mk_history {
  hjoiner : CallbackJoiner C;
  joined : list C;
  when_joined : list C;
  cancelled : list C;
  spawned : nat;
  completed : nat;
}.
Definition record_run (o : option C) : prog history unit := modS (λ h,
  mk_history (hjoiner h) (match o with Some c => c :: joined h | None => joined h end) (when_joined h) (cancelled h)
    (spawned h) (completed h)).
Definition put_joiner (j : CallbackJoiner C) h : history :=
  mk_history j (joined h) (when_joined h) (cancelled h) (spawned h) (completed h).
Definition perform (k : joiner_call) : prog history unit :=
  match k with
  | CallSpawn =>
      _ ← Spawn hjoiner put_joiner;
      modS (λ h, mk_history (hjoiner h) (joined h) (when_joined h) (cancelled h) (S (spawned h)) (completed h))
  | CallComplete =>
      _ ← Complete record_run hjoiner put_joiner;
      modS (λ h, mk_history (hjoiner h) (joined h) (when_joined h) (cancelled h) (spawned h) (S (completed h)))
  | CallWhenJoined c =>
      _ ← WhenJoined record_run hjoiner put_joiner c;
      modS (λ h, mk_history (hjoiner h) (joined h) (c :: when_joined h) (cancelled h) (spawned h) (completed h))
  | CallCancel =>
      h ← getS;
      _ ← modS (λ h, mk_history (hjoiner h) (joined h) (when_joined h)
                 (match join_callback_ (hjoiner h) with Some c => c :: cancelled h | None => cancelled h end)
                 (spawned h) (completed h));
      _ ← Cancel hjoiner put_joiner; mret tt
  end.
Fixpoint performs (ks : list joiner_call) : prog history unit :=
  match ks with [] => mret tt | k :: ks => _ ← perform k; performs ks end.
Definition no_calls : history := mk_history new_joiner [] [] [] 0 0.

(** The calls that a joiner allows: completions match spawns, one registration at a time. *)
Definition allowed (k : joiner_call) h : Prop :=
  match k with
  | CallSpawn => Z.of_nat (spawned h) < 2 ^ 64 - 1
  | CallComplete => (completed h < spawned h)%nat
  | CallWhenJoined _ => join_callback_ (hjoiner h) = None
  | CallCancel => True
  end.

Record joiner_ok h : Prop := {
  jo_count : counter_ (hjoiner h) = Z.of_nat (spawned h - completed h);
  jo_order : (completed h ≤ spawned h)%nat;
  jo_range : Z.of_nat (spawned h) < 2 ^ 64;
  jo_waits : is_Some (join_callback_ (hjoiner h)) → (completed h < spawned h)%nat;
  jo_once : when_joined h ≡ₚ option_list (join_callback_ (hjoiner h)) ++ joined h ++ cancelled h;
}.

Lemma Complete_runs h :
  joiner_ok h → (completed h < spawned h)%nat →
  runs (Complete record_run hjoiner put_joiner) h (λ _ h', spawned h' = spawned h ∧ completed h' = completed h ∧
    when_joined h' = when_joined h ∧ cancelled h' = cancelled h ∧
    counter_ (hjoiner h') = Z.of_nat (spawned h - S (completed h)) ∧
    (is_Some (join_callback_ (hjoiner h')) → (S (completed h) < spawned h)%nat) ∧
    option_list (join_callback_ (hjoiner h)) ++ joined h ≡ₚ option_list (join_callback_ (hjoiner h')) ++ joined h').
Proof.
  intros [Hc Ho Hr Hw _] Ha. destruct h as [[n o] jd wj cn sp cp]. cbn in *. unfold Complete.
  apply runs_get. apply runs_dcheck; [apply negb_true_iff, Z.eqb_neq; cbn; lia|]. apply runs_mod, runs_get. cbn.
  rewrite Hc, uwrap_small by (unfold is_u; lia).
  assert (Z.of_nat (sp - cp) - 1 = Z.of_nat (sp - S cp)) as -> by lia.
  destruct (Z.eqb_spec (Z.of_nat (sp - S cp)) 0) as [E|E].
  - apply runs_mod, runs_mod_last. cbn. split_and!; try done. by destruct o.
  - apply runs_ret. cbn. split_and!; try done. lia.
Qed.

Lemma joiner_perform_ok k h : joiner_ok h → allowed k h → runs (perform k) h (λ _ h', joiner_ok h').
Proof.
  intros I. pose proof I as [Hc Ho Hr Hw H1]. destruct k as [| |c|]; cbn [perform allowed]; intros Ha.
  - apply runs_mod, runs_mod_last. destruct h as [[n o] jd wj cn sp cp]. cbn in *. split; cbn; try lia; try done.
    rewrite Hc, uwrap_small by (unfold is_u; lia). lia.
  - eapply runs_bind; [by apply Complete_runs|]. intros ? h' (Es & Ec & Ew & En & Hc' & Hw' & Hp).
    apply runs_mod_last. split; cbn; rewrite ?Es, ?Ec; try done; try lia.
    rewrite Ew, En, H1, !app_assoc. by apply Permutation_app_tail.
  - unfold WhenJoined. destruct h as [[n o] jd wj cn sp cp]. cbn in *. subst o.
    eapply runs_bind with (Q := λ _ h', h' = if n =? 0 then mk_history (mk_joiner n None) (c :: jd) wj cn sp cp
      else mk_history (mk_joiner n (Some c)) jd wj cn sp cp).
    { apply runs_get, runs_dcheck; [done|]. cbn. by destruct (n =? 0); apply runs_mod_last. }
    intros ? h' ->. apply runs_mod_last. destruct (Z.eqb_spec n 0); split; cbn; try done; try lia.
    + by constructor.
    + by constructor.
  - destruct h as [[n o] jd wj cn sp cp]. cbn in *. unfold Cancel. apply runs_get, runs_mod.
    eapply runs_bind with (Q := λ _ h', h' = mk_history (mk_joiner n None) jd wj
      (match o with Some c => c :: cn | None => cn end) sp cp).
    { apply runs_get, runs_mod. by apply runs_ret. }
    intros ? h' ->. apply runs_ret. split; cbn; try done. rewrite H1. destruct o; cbn; [|done].
    by rewrite Permutation_middle.
Qed.

(** A history of allowed calls. *)
Inductive performed : list joiner_call → history → Prop :=
  | performed_none : performed [] no_calls
  | performed_call ks k h h' :
      performed ks h → allowed k h → perform k h = Ok (tt, h') → performed (ks ++ [k]) h'.

(** A joiner runs each callback that is registered with it exactly once, when every
    child operation that was spawned has completed: after any calls in which completions
    match spawns, each registered callback has run, has been cancelled, or is the one that
    waits, and one that waits does so because there are operations still to complete.  Each
    allowed call returns. *)
Lemma joiner_accounts ks h :
  performed ks h →
  counter_ (hjoiner h) = Z.of_nat (spawned h - completed h) ∧
  (is_Some (join_callback_ (hjoiner h)) → (completed h < spawned h)%nat) ∧
  when_joined h ≡ₚ option_list (join_callback_ (hjoiner h)) ++ joined h ++ cancelled h ∧
  ∀ k, allowed k h → ∃ h', perform k h = Ok (tt, h') ∧ performed (ks ++ [k]) h'.
Proof.
  intros Hp. assert (joiner_ok h) as [Hc Ho Hr Hw H1].
  { induction Hp as [|ks k h h' _ IH Ha E]; [split; cbn; [done|done|lia|by intros [? ?]|done]|].
    destruct (joiner_perform_ok k h IH Ha) as ([] & h2 & E2 & Hok). rewrite E in E2. by injection E2 as <-. }
  split_and!; try done. intros k Ha. destruct (joiner_perform_ok k h) as ([] & h2 & E2 & Hok); [done..|].
  exists h2. split; [done|]. by eapply performed_call.
Qed.

End JoinerHistory.

(** C40. Under every interleaving of calls of a thread-safe incident, each consequence that
    was registered is in exactly one place: it waits for the incident, some call is about to
    run it, it has run, or a reset dropped it.  When the incident has occurred, no call is
    in progress and nothing was reset, every registered consequence has run exactly once. *)
Theorem consequences_once {C} (s : threads C) :
  rtc ts_step start s →
  registered s ≡ₚ consequences_ (shared s) ++ concat (in_progress s) ++ ran s ++ dropped s ∧
  (ts_occurred (shared s) = true → concat (in_progress s) = [] → dropped s = [] → ran s ≡ₚ registered s).
Proof.
  intros [Hp Ho]%accounted_reachable. split; [done|]. intros H1 H2 H3.
  by rewrite Hp, Ho, H2, H3, app_nil_r by done.
Qed.

(** ** Examples *)

(** One thread registers 1, a second one occurs, a third one registers 2 before the second
    has run 1. *)
Lemma consequences_once_witness :
  ∃ s : threads nat, rtc ts_step start s ∧ ran s = [1; 2]%nat ∧ ran s ≡ₚ registered s.
Proof.
  exists (mk_threads (mk_incident true []) [[]; []; []] [2; 1]%nat [1; 2]%nat []).
  assert (rtc ts_step start (mk_threads (mk_incident true []) [[]; []; []] [2; 1]%nat [1; 2]%nat [])) as H.
  { eapply rtc_l; [by apply step_when with (c := 1%nat)|]. eapply rtc_l; [by apply step_occur|].
    eapply rtc_l; [by apply step_when with (c := 2%nat)|].
    eapply rtc_l; [apply (step_run _ [] 2%nat [] [[1%nat]; []])|].
    eapply rtc_l; [apply (step_run _ [[]] 1%nat [] [[]])|]. apply rtc_refl. }
  split; [exact H|split; [done|]]. by apply (consequences_once _ H).
Defined.

(** An operation is spawned, a callback registered, and the operation completes. *)
Lemma joiner_accounts_witness :
  ∃ h : history, @performed nat debug_build [CallSpawn; CallWhenJoined 7%nat; CallComplete] h ∧
    joined h = [7%nat] ∧ when_joined h ≡ₚ option_list (join_callback_ (hjoiner h)) ++ joined h ++ cancelled h.
Proof.
  exists (mk_history (mk_joiner 0 None) [7%nat] [7%nat] [] 1 1).
  assert (@performed nat debug_build [CallSpawn; CallWhenJoined 7%nat; CallComplete]
    (mk_history (mk_joiner 0 None) [7%nat] [7%nat] [] 1 1)) as H.
  { apply (performed_call [CallSpawn; CallWhenJoined 7%nat] CallComplete (mk_history (mk_joiner 1 (Some 7%nat)) [] [7%nat] [] 1 0));
      [|cbn; lia|reflexivity].
    apply (performed_call [CallSpawn] (CallWhenJoined 7%nat) (mk_history (mk_joiner 1 None) [] [] [] 1 0)); [|done|reflexivity].
    apply (performed_call [] CallSpawn no_calls); [constructor|done|reflexivity]. }
  split; [exact H|split; [done|]]. apply (joiner_accounts _ _ H).
Defined.

End Incident.
