(* ===== verification/MojoReader.v ===== *)
(** Reading a resource through a data pipe (services/media/framework_mojo/mojo_reader.cc).

    A demux reads from any thread; the reader carries on on its own thread, where it keeps
    the data pipe of the last read, and asks its seeking reader for another one when the
    position is not the one that the pipe has reached.  Calls on the interface, the posted
    task and the wait for the pipe are members of the state that say what is awaited. *)

From S2P Require Import Prelude TypeConversions Incident.

Module MojoReader.
Import TypeConversions Incident.

(** ** Data pipes

    [ReadDataRaw] gives bytes, asks to wait, or fails; the pipe's producer adds bytes.
    [contents] are the bytes still to be read, those not written yet included. *)
Inductive read_data := READ (bytes : list Z) | SHOULD_WAIT | FAILED (r : MojoResult).
Class DataPipe := {
  pipe : Type;
  ReadDataRaw : pipe → Z → read_data * pipe;
  contents : pipe → list Z;
}.
(** What the system says of it: bytes come from the front, at most as many as asked for and
    at least one; waiting changes nothing; a read fails when the producer is gone and nothing
    is left. *)
Class DataPipeLaws `(D : DataPipe) := {
  read_some h n bs h' : 0 < n → ReadDataRaw h n = (READ bs, h') → 0 < Z.of_nat (length bs) ≤ n ∧ contents h = bs ++ contents h';
  read_waits h n h' : ReadDataRaw h n = (SHOULD_WAIT, h') → contents h' = contents h;
  read_fails h n r h' : ReadDataRaw h n = (FAILED r, h') → r ≠ MOJO_RESULT_OK ∧ contents h = [];
}.

Definition kUnknownSize : Z := max_u64.
#[export] Instance MojoResult_eq_dec : EqDecision MojoResult.
Proof. solve_decision. Defined.
#[export] Instance Result_eq_dec : EqDecision Result.
Proof. solve_decision. Defined.

(** ** The reader *)

Section Reader.
Context `{BD : Build} `{DP : DataPipe}.

Inductive consequence := RunDescribe (cb : nat) | RunReadAt.

(** [read_at_buffer_] is the caller's buffer as it was filled so far.  After the members
    follow what is awaited (the reply to [Describe], the posted [ContinueReadAt], the reply to
    [SeekingReader::ReadAt], the signal of the pipe) and what was called back. *)
Record MojoReader := mk_reader {
  result_ : Result;
  size_ : Z;
  can_seek_ : bool;
  ready_ : Incident consequence;
  read_in_progress_ : bool;
  read_at_position_ : Z;
  read_at_buffer_ : list Z;
  read_at_bytes_to_read_ : Z;
  read_at_bytes_remaining_ : Z;
  consumer_handle_ : option pipe;
  consumer_handle_position_ : Z;
  awaits_describe : bool;
  posted : bool;
  asked : option Z;
  waiting : bool;
  described : list (nat * (Result * Z * bool));
  completed : list (Result * Z * list Z);
}.
Implicit Types r : MojoReader.

Definition set_described_reply res sz sk r := mk_reader res sz sk (ready_ r) (read_in_progress_ r) (read_at_position_ r)
  (read_at_buffer_ r) (read_at_bytes_to_read_ r) (read_at_bytes_remaining_ r) (consumer_handle_ r) (consumer_handle_position_ r)
  false (posted r) (asked r) (waiting r) (described r) (completed r).
Definition set_result v r := mk_reader v (size_ r) (can_seek_ r) (ready_ r) (read_in_progress_ r) (read_at_position_ r)
  (read_at_buffer_ r) (read_at_bytes_to_read_ r) (read_at_bytes_remaining_ r) (consumer_handle_ r) (consumer_handle_position_ r)
  (awaits_describe r) (posted r) (asked r) (waiting r) (described r) (completed r).
Definition set_ready v r := mk_reader (result_ r) (size_ r) (can_seek_ r) v (read_in_progress_ r) (read_at_position_ r)
  (read_at_buffer_ r) (read_at_bytes_to_read_ r) (read_at_bytes_remaining_ r) (consumer_handle_ r) (consumer_handle_position_ r)
  (awaits_describe r) (posted r) (asked r) (waiting r) (described r) (completed r).
Definition set_request ip pos buf n r := mk_reader (result_ r) (size_ r) (can_seek_ r) (ready_ r) ip pos
  buf n (read_at_bytes_remaining_ r) (consumer_handle_ r) (consumer_handle_position_ r)
  (awaits_describe r) (posted r) (asked r) (waiting r) (described r) (completed r).
Definition set_amounts n rem r := mk_reader (result_ r) (size_ r) (can_seek_ r) (ready_ r) (read_in_progress_ r) (read_at_position_ r)
  (read_at_buffer_ r) n rem (consumer_handle_ r) (consumer_handle_position_ r)
  (awaits_describe r) (posted r) (asked r) (waiting r) (described r) (completed r).
Definition set_handle h pos r := mk_reader (result_ r) (size_ r) (can_seek_ r) (ready_ r) (read_in_progress_ r) (read_at_position_ r)
  (read_at_buffer_ r) (read_at_bytes_to_read_ r) (read_at_bytes_remaining_ r) h pos
  (awaits_describe r) (posted r) (asked r) (waiting r) (described r) (completed r).
Definition set_filled buf rem pos r := mk_reader (result_ r) (size_ r) (can_seek_ r) (ready_ r) (read_in_progress_ r) (read_at_position_ r)
  buf (read_at_bytes_to_read_ r) rem (consumer_handle_ r) pos
  (awaits_describe r) (posted r) (asked r) (waiting r) (described r) (completed r).
Definition set_awaits p a wt r := mk_reader (result_ r) (size_ r) (can_seek_ r) (ready_ r) (read_in_progress_ r) (read_at_position_ r)
  (read_at_buffer_ r) (read_at_bytes_to_read_ r) (read_at_bytes_remaining_ r) (consumer_handle_ r) (consumer_handle_position_ r)
  (awaits_describe r) p a wt (described r) (completed r).
Definition add_described x r := mk_reader (result_ r) (size_ r) (can_seek_ r) (ready_ r) (read_in_progress_ r) (read_at_position_ r)
  (read_at_buffer_ r) (read_at_bytes_to_read_ r) (read_at_bytes_remaining_ r) (consumer_handle_ r) (consumer_handle_position_ r)
  (awaits_describe r) (posted r) (asked r) (waiting r) (described r ++ [x]) (completed r).
Definition add_completed x r := mk_reader (result_ r) (size_ r) (can_seek_ r) (ready_ r) false (read_at_position_ r)
  (read_at_buffer_ r) (read_at_bytes_to_read_ r) (read_at_bytes_remaining_ r) (consumer_handle_ r) (consumer_handle_position_ r)
  (awaits_describe r) (posted r) (asked r) (waiting r) (described r) (completed r ++ [x]).

(** The constructor, which has called [Describe]. *)
Definition new_reader : MojoReader :=
  mk_reader kOk kUnknownSize false new_incident false 0 [] 0 0 None kUnknownSize true false None false [] [].

(** [CompleteReadAt]: the client has its buffer back. *)
Definition CompleteReadAt (result : Result) (bytes_read : Z) : prog MojoReader unit :=
  modS (λ r, add_completed (result, bytes_read, read_at_buffer_ r) r).
Definition FailReadAt (result : MojoResult) : prog MojoReader unit :=
  _ ← modS (set_result (ConvertResult result));
  _ ← modS (set_handle None kUnknownSize);
  r ← getS; CompleteReadAt (result_ r) 0.

(** An invalid handle is refused with [MOJO_RESULT_INVALID_ARGUMENT]. *)
Definition read_handle (n : Z) : prog MojoReader read_data := λ r,
  match consumer_handle_ r with
  | None => Ok (FAILED MOJO_RESULT_INVALID_ARGUMENT, r)
  | Some h => let '(x, h') := ReadDataRaw h n in Ok (x, set_handle (Some h') (consumer_handle_position_ r) r)
  end.
Definition ReadResponseBody : prog MojoReader unit :=
  r ← getS;
  _ ← dcheckS (read_at_bytes_remaining_ r <? max_u32);
  x ← read_handle (u32 (read_at_bytes_remaining_ r));
  match x with
  | FAILED result => FailReadAt result
  | _ =>
      let bytes := match x with READ bytes => bytes | _ => [] end in
      let byte_count := Z.of_nat (length bytes) in
      _ ← modS (λ r, set_filled (read_at_buffer_ r ++ bytes) (u64 (read_at_bytes_remaining_ r - byte_count))
        (u64 (consumer_handle_position_ r + byte_count)) r);
      r ← getS;
      if read_at_bytes_remaining_ r =? 0 then CompleteReadAt kOk (read_at_bytes_to_read_ r)
      else modS (λ r, set_awaits (posted r) (asked r) true r)
  end.

(** The body of the closure in [ContinueReadAt]. *)
Definition read_when_ready : prog MojoReader unit :=
  r ← getS;
  if negb (bool_decide (result_ r = kOk)) then CompleteReadAt (result_ r) 0
  else
    _ ← dcheckS (read_at_position_ r <? size_ r);
    let to_read :=
      if size_ r <? u64 (read_at_position_ r + read_at_bytes_to_read_ r) then u64 (size_ r - read_at_position_ r)
      else read_at_bytes_to_read_ r in
    _ ← modS (set_amounts to_read to_read);
    if read_at_position_ r =? consumer_handle_position_ r then ReadResponseBody
    else
      _ ← modS (set_handle None kUnknownSize);
      if negb (can_seek_ r) && negb (read_at_position_ r =? 0) then CompleteReadAt kInvalidArgument 0
      else modS (λ r, set_awaits (posted r) (Some (read_at_position_ r)) (waiting r) r).

Definition run_consequence (c : consequence) : prog MojoReader unit :=
  match c with
  | RunDescribe cb => modS (λ r, add_described (cb, (result_ r, size_ r, can_seek_ r)) r)
  | RunReadAt => read_when_ready
  end.
Definition ready_when : consequence → prog MojoReader unit := When run_consequence ready_ set_ready.
Definition ready_occur : prog MojoReader unit := Occur run_consequence ready_ set_ready.

(** The callback of [SeekingReader::Describe]. *)
Definition DescribeReply (result : MediaResult) (size : Z) (can_seek : bool) : prog MojoReader unit :=
  _ ← modS (λ r, set_described_reply (Convert_MediaResult result)
    (if decide (Convert_MediaResult result = kOk) then size else size_ r)
    (if decide (Convert_MediaResult result = kOk) then can_seek else can_seek_ r) r);
  ready_occur.
Definition Describe (cb : nat) : prog MojoReader unit := ready_when (RunDescribe cb).
Definition ReadAt (position bytes_to_read : Z) : prog MojoReader unit :=
  _ ← dcheckS (negb (bytes_to_read =? 0));
  r ← getS;
  _ ← dcheckS (negb (read_in_progress_ r));
  _ ← modS (set_request true position [] bytes_to_read);
  modS (λ r, set_awaits true (asked r) (waiting r) r).
Definition ContinueReadAt : prog MojoReader unit :=
  _ ← modS (λ r, set_awaits false (asked r) (waiting r) r); ready_when RunReadAt.
(** The callback of [SeekingReader::ReadAt]. *)
Definition ReadAtReply (result : MediaResult) (consumer_handle : option pipe) : prog MojoReader unit :=
  _ ← modS (λ r, set_awaits (posted r) None (waiting r) r);
  _ ← modS (set_result (Convert_MediaResult result));
  r ← getS;
  if negb (bool_decide (result_ r = kOk)) then CompleteReadAt (result_ r) 0
  else
    _ ← modS (λ r, set_handle consumer_handle (read_at_position_ r) r);
    ReadResponseBody.
Definition ReadResponseBodyStatic (result : MojoResult) : prog MojoReader unit :=
  _ ← modS (λ r, set_awaits (posted r) (asked r) false r);
  match result with MOJO_RESULT_OK => ReadResponseBody | _ => FailReadAt result end.

(** ** What may happen *)

Inductive event :=
  | EDescribe (cb : nat) | EReadAt (position bytes_to_read : Z) | ETask
  | EDescribed (result : MediaResult) (size : Z) (can_seek : bool)
  | EReply (result : MediaResult) (consumer_handle : option pipe)
  | ESignal (result : MojoResult)
  | EArrive (h : pipe).
Definition handle (e : event) : prog MojoReader unit :=
  match e with
  | EDescribe cb => Describe cb
  | EReadAt position bytes_to_read => ReadAt position bytes_to_read
  | ETask => ContinueReadAt
  | EDescribed result size can_seek => DescribeReply result size can_seek
  | EReply result consumer_handle => ReadAtReply result consumer_handle
  | ESignal result => ReadResponseBodyStatic result
  | EArrive h => modS (λ r, set_handle (Some h) (consumer_handle_position_ r) r)
  end.

End Reader.
Arguments MojoReader : clear implicits.
Arguments MojoReader {_}.
Arguments event : clear implicits.
Arguments event {_}.
End MojoReader.
