(* ===== verification/MojoReaderSpec.v ===== *)
(** Reads through a data pipe deliver the bytes of the resource, whatever pieces they arrive
    in, and no read is forgotten. *)

From S2P Require Import Prelude TypeConversions Incident MojoReader.
Import TypeConversions Incident MojoReader.

Module MojoReaderSpec.

Section Spec.
Context `{BD : Build} `{DP : DataPipe} `{!DataPipeLaws DP}.

(** The resource; and whether everything that is asked succeeds. *)
Variable asset : list Z.
Variable good : bool.
Abbreviation size := (Z.of_nat (length asset)).
Hypothesis size_small : size < max_u64.
Implicit Types (r : MojoReader) (reqs : list (Z * Z)).

Definition from (p : Z) : list Z := drop (Z.to_nat p) asset.
Definition slice (p n : Z) : list Z := take (Z.to_nat n) (from p).
Definition amount (p n : Z) : Z := Z.min n (size - p).

(** A pipe opened at a position has what follows in the resource, or a part of it if its
    producer fails. *)
Definition opens (h : pipe) (p : Z) : Prop :=
  contents h `prefix_of` from p ∧ (good = true → contents h = from p).

(** Reads of clients are inside the resource, one at a time, and short enough for the 32-bit
    lengths of data pipes. *)
Definition valid (p n : Z) : Prop := 0 ≤ p < size ∧ 0 < n ∧ p + n < 2 ^ 64 ∧ amount p n < max_u32.
Definition allowed r (e : event) : Prop :=
  match e with
  | EDescribe _ => True
  | EReadAt p n => read_in_progress_ r = false ∧ valid p n
  | ETask => posted r = true
  | EDescribed res sz sk => awaits_describe r = true ∧ (res = OK → sz = size) ∧ (good = true → res = OK ∧ sk = true)
  | EReply res h =>
      ∃ p, asked r = Some p ∧ (good = true → res = OK ∧ h ≠ None) ∧ (res = OK → ∀ h', h = Some h' → opens h' p)
  | ESignal res => waiting r = true ∧ (good = true → res = MOJO_RESULT_OK)
  | EArrive h => ∃ h0, consumer_handle_ r = Some h0 ∧ contents h = contents h0
  end.

(** What a read gives back: the bytes asked for that there are, or an error. *)
Definition answers (q : Z * Z) (c : Result * Z * list Z) : Prop :=
  let '(p, n) := q in
  let '(res, k, bytes) := c in
  (res = kOk ∧ k = amount p n ∧ bytes = slice p (amount p n)) ∨ (res ≠ kOk ∧ k = 0 ∧ good = false).

(** Where a read in progress is. *)
Definition is_read (c : consequence) : bool := match c with RunReadAt => true | _ => false end.
Definition reads (cs : list consequence) : nat := length (filter (λ c, is_read c = true) cs).
Inductive phase r (p n : Z) : Prop :=
  | phase_posted : posted r = true → reads (consequences_ (ready_ r)) = 0%nat → asked r = None → waiting r = false →
      read_at_buffer_ r = [] → read_at_bytes_to_read_ r = n → phase r p n
  | phase_pending : posted r = false → reads (consequences_ (ready_ r)) = 1%nat → asked r = None → waiting r = false →
      read_at_buffer_ r = [] → read_at_bytes_to_read_ r = n → phase r p n
  | phase_asked : awaits_describe r = false → posted r = false → reads (consequences_ (ready_ r)) = 0%nat → asked r = Some p → waiting r = false →
      result_ r = kOk → read_at_buffer_ r = [] → read_at_bytes_to_read_ r = amount p n →
      read_at_bytes_remaining_ r = amount p n → phase r p n
  | phase_waiting k : awaits_describe r = false → posted r = false → reads (consequences_ (ready_ r)) = 0%nat → asked r = None → waiting r = true →
      result_ r = kOk → 0 ≤ k < amount p n → read_at_buffer_ r = slice p k → read_at_bytes_to_read_ r = amount p n →
      read_at_bytes_remaining_ r = amount p n - k → consumer_handle_ r ≠ None → consumer_handle_position_ r = p + k → phase r p n.
Definition idle r : Prop :=
  posted r = false ∧ reads (consequences_ (ready_ r)) = 0%nat ∧ asked r = None ∧ waiting r = false.

Record steady r : Prop := {
  st_handle : match consumer_handle_ r with
    | Some h => 0 ≤ consumer_handle_position_ r ≤ size ∧ opens h (consumer_handle_position_ r)
    | None => consumer_handle_position_ r = kUnknownSize
    end;
  st_ready : occurred_ (ready_ r) = negb (awaits_describe r) ∧ (occurred_ (ready_ r) = true → consequences_ (ready_ r) = []);
  st_first : awaits_describe r = true → result_ r = kOk;
  st_size : awaits_describe r = false → result_ r = kOk → size_ r = size;
  st_described : Forall (λ x, x.2.1.1 = kOk → x.2.1.2 = size) (described r);
  st_good : good = true → result_ r = kOk ∧ (awaits_describe r = false → can_seek_ r = true);
}.
Record inv r reqs : Prop := {
  inv_steady : steady r;
  inv_reads : if read_in_progress_ r then
      ∃ done n, reqs = done ++ [(read_at_position_ r, n)] ∧ valid (read_at_position_ r) n ∧ Forall2 answers done (completed r) ∧
        phase r (read_at_position_ r) n
    else Forall2 answers reqs (completed r) ∧ idle r;
}.

(** ** Slices *)

Lemma length_from p : 0 ≤ p ≤ size → Z.of_nat (length (from p)) = size - p.
Proof. intros Hp. unfold from. rewrite length_drop. lia. Qed.
Lemma pipe_slice_app p k bs :
  0 ≤ p → 0 ≤ k → bs `prefix_of` from (p + k) → slice p k ++ bs = slice p (k + Z.of_nat (length bs)).
Proof.
  intros Hp Hk [rest E]. unfold slice, from in *. rewrite Z2Nat.inj_add, <-drop_drop in E by lia.
  set (xs := drop (Z.to_nat p) asset) in *. rewrite Z2Nat.inj_add, Nat2Z.id by lia.
  rewrite <-(take_drop (Z.to_nat k) xs) at 2. rewrite E.
  destruct (decide (Z.to_nat k ≤ length xs)%nat) as [Hle|Hgt].
  - rewrite take_app_ge by (rewrite length_take; lia). f_equal. rewrite length_take.
    replace (Z.to_nat k + length bs - Nat.min (Z.to_nat k) (length xs))%nat with (length bs) by lia. by rewrite take_app_length.
  - rewrite drop_ge in E by lia. symmetry in E. apply app_eq_nil in E as [-> ->]. rewrite !app_nil_r. symmetry.
    apply take_ge. rewrite length_take. lia.
Qed.

Lemma opens_read h h' bs p :
  0 ≤ p → contents h = bs ++ contents h' → opens h p →
  bs `prefix_of` from p ∧ opens h' (p + Z.of_nat (length bs)).
Proof.
  intros Hp E [[rest Hpre] Heq]. rewrite E in Hpre, Heq. split; [exists (contents h' ++ rest); by rewrite Hpre, app_assoc|].
  assert (∀ xs, from p = bs ++ xs → from (p + Z.of_nat (length bs)) = xs) as Hf.
  { intros xs Ex. unfold from in *. rewrite Z2Nat.inj_add, Nat2Z.id, <-drop_drop, Ex by lia. by rewrite drop_app_length. }
  split.
  - exists rest. apply Hf. by rewrite Hpre, app_assoc.
  - intros Hg. symmetry. apply Hf. by rewrite Heq.
Qed.

(** ** The body of a read *)

(** A read of [n] bytes at [p] that has the first [k] of them. *)
Record filling r p n k : Prop := {
  fi_steady : 0 ≤ consumer_handle_position_ r ∧ occurred_ (ready_ r) = true ∧ consequences_ (ready_ r) = [] ∧
    awaits_describe r = false ∧ result_ r = kOk ∧ size_ r = size ∧ (good = true → can_seek_ r = true) ∧
    Forall (λ x, x.2.1.1 = kOk → x.2.1.2 = size) (described r);
  fi_handle : match consumer_handle_ r with
    | Some h => consumer_handle_position_ r = p + k ∧ opens h (p + k)
    | None => good = false
    end;
  fi_idle : posted r = false ∧ asked r = None ∧ waiting r = false;
  fi_read : read_in_progress_ r = true ∧ read_at_position_ r = p ∧ read_at_buffer_ r = slice p k ∧
    read_at_bytes_to_read_ r = amount p n ∧ read_at_bytes_remaining_ r = amount p n - k ∧ 0 ≤ k < amount p n;
}.

Lemma FailReadAt_inv r p n k reqs done result :
  filling r p n k → result ≠ MOJO_RESULT_OK → good = false → reqs = done ++ [(p, n)] → Forall2 answers done (completed r) →
  runs (FailReadAt result) r (λ _ r', inv r' reqs ∧ awaits_describe r' = false).
Proof.
  intros [(_ & S1 & S2 & S3 & S4 & S5 & S6 & S7) _ (I1 & I2 & I3) (R1 & R2 & _)] Hr Hg -> Hd. unfold FailReadAt, CompleteReadAt.
  apply runs_mod, runs_mod, runs_get, runs_mod_last. split; [|exact S3]. split.
  - split; cbn; rewrite ?S1, ?S2, ?S3; try done; [by rewrite Hg].
  - cbn. split; [|unfold idle; cbn; by rewrite S2]. apply Forall2_app; [done|]. constructor; [|constructor]. right.
    split; [|done]. by destruct result.
Qed.

Lemma ReadResponseBody_inv r p n k reqs done :
  filling r p n k → valid p n → reqs = done ++ [(p, n)] → Forall2 answers done (completed r) →
  runs ReadResponseBody r (λ _ r', inv r' reqs ∧ awaits_describe r' = false).
Proof.
  intros F Hv Er Hd. pose proof F as [(S0 & S1 & S2 & S3 & S4 & S5 & S6 & S7) Hh (I1 & I2 & I3) (R1 & R2 & R3 & R4 & R5 & Hk)].
  destruct Hv as (Hp & Hn & Hw & Hm). assert (amount p n ≤ size - p) as Hle by (unfold amount; lia).
  unfold ReadResponseBody. apply runs_get, runs_dcheck; [rewrite R5; apply Z.ltb_lt; lia|]. rewrite R5.
  rewrite (uwrap_small 32) by (unfold is_u; unfold max_u32 in Hm; lia).
  unfold read_handle. destruct (consumer_handle_ r) as [h|] eqn:Eh.
  2: { eapply runs_step; [by rewrite Eh|]. by eapply FailReadAt_inv. }
  destruct Hh as [Ec Ho]. destruct (ReadDataRaw h (amount p n - k)) as [x h'] eqn:Ex.
  eapply runs_step; [rewrite Eh, Ex; done|]. set (r1 := set_handle (Some h') (consumer_handle_position_ r) r).
  assert (∀ bs, contents h = bs ++ contents h' → Z.of_nat (length bs) ≤ amount p n - k →
    runs (_ ← modS (λ r, set_filled (read_at_buffer_ r ++ bs) (u64 (read_at_bytes_remaining_ r - Z.of_nat (length bs)))
        (u64 (consumer_handle_position_ r + Z.of_nat (length bs))) r);
      r ← getS;
      if read_at_bytes_remaining_ r =? 0 then CompleteReadAt kOk (read_at_bytes_to_read_ r)
      else modS (λ r, set_awaits (posted r) (asked r) true r)) r1 (λ _ r', inv r' reqs ∧ awaits_describe r' = false)) as Hgo.
  { intros bs Ebs Hlen. destruct (opens_read h h' bs (p + k) ltac:(lia) Ebs Ho) as [Hpre Ho'].
    apply runs_mod, runs_get. cbn [read_at_bytes_remaining_ set_filled r1 set_handle read_at_buffer_ consumer_handle_position_ read_at_bytes_to_read_].
    rewrite R5, Ec, R3, R4. unfold max_u64 in size_small. rewrite !(uwrap_small 64) by (unfold is_u; lia).
    rewrite pipe_slice_app by (done || lia). set (j := k + Z.of_nat (length bs)).
    replace (amount p n - k - Z.of_nat (length bs)) with (amount p n - j) by (unfold j; lia).
    replace (p + k + Z.of_nat (length bs)) with (p + j) in Ho' |- * by (unfold j; lia).
    destruct (Z.eqb_spec (amount p n - j) 0) as [Ej|Ej]; apply runs_mod_last; (split; [|exact S3]); split.
    1, 3: split; cbn; rewrite ?S1, ?S2, ?S3, ?S4; auto; split; [lia|done].
    - cbn. split; [|unfold idle; cbn; by rewrite S2]. rewrite Er. apply Forall2_app; [done|]. constructor; [|constructor].
      left. split; [done|]. split; [done|]. by replace (amount p n) with j by lia.
    - cbn. rewrite R1, R2. exists done, n. split; [done|]. split; [done|]. split; [done|].
      apply (phase_waiting _ _ _ j); cbn; rewrite ?S2; try done. lia. }
  destruct x as [bs| |result].
  - destruct (read_some h (amount p n - k) bs h' ltac:(lia) Ex) as [Hlen Ebs]. apply Hgo; [done|lia].
  - apply (Hgo []); [by rewrite (read_waits h _ h' Ex)|cbn; lia].
  - destruct (read_fails h _ result h' Ex) as [Hr Ee].
    assert (good = false) as Hg.
    { apply not_true_is_false. intros Hg. destruct Ho as [_ Ho]. rewrite (Ho Hg) in Ee. apply (f_equal length) in Ee.
      unfold from in Ee. rewrite length_drop in Ee. cbn in Ee. lia. }
    change (runs (FailReadAt result) r (λ _ r', inv r' reqs ∧ awaits_describe r' = false)). by eapply FailReadAt_inv.
Qed.

(** ** From its posting to its body *)

(** A read whose turn it is. *)
Definition pending r reqs : Prop :=
  read_in_progress_ r = true ∧ posted r = false ∧ asked r = None ∧ waiting r = false ∧ read_at_buffer_ r = [] ∧
  ∃ done n, reqs = done ++ [(read_at_position_ r, n)] ∧ valid (read_at_position_ r) n ∧ Forall2 answers done (completed r) ∧
    read_at_bytes_to_read_ r = n.

Lemma complete_inv r done p n res :
  steady r → awaits_describe r = false → consequences_ (ready_ r) = [] → posted r = false → asked r = None → waiting r = false →
  Forall2 answers done (completed r) → res ≠ kOk → good = false →
  runs (CompleteReadAt res 0) r (λ _ r', inv r' (done ++ [(p, n)]) ∧ awaits_describe r' = false).
Proof.
  intros [H1 H2 H3 H4 H5 H6] Ha Hc I1 I2 I3 Hd Hr Hg. apply runs_mod_last. split; [split|done]; [by split|]. cbn.
  split; [|unfold idle; cbn; by rewrite Hc]. apply Forall2_app; [done|]. constructor; [|constructor]. by right.
Qed.

Lemma read_when_ready_inv r reqs :
  steady r → awaits_describe r = false → pending r reqs →
  runs read_when_ready r (λ _ r', inv r' reqs ∧ awaits_describe r' = false).
Proof.
  intros Hst Ha (Hip & I1 & I2 & I3 & Hbuf & done & n & -> & Hv & Hd & Hn).
  destruct (st_ready _ Hst) as [Ho Hc]. rewrite Ha in Ho. specialize (Hc Ho).
  assert (∀ res, res ≠ kOk → good = false → runs (CompleteReadAt res 0) r
    (λ _ r', inv r' (done ++ [(read_at_position_ r, n)]) ∧ awaits_describe r' = false)) as Hfail.
  { intros res Hr Hg. by apply complete_inv. }
  unfold read_when_ready. apply runs_get. case_bool_decide as Hres; cbn [negb].
  2: { apply Hfail; [done|]. apply not_true_is_false. intros Hg. by destruct (st_good _ Hst Hg). }
  rewrite (st_size _ Hst Ha Hres). set (p := read_at_position_ r) in *. destruct Hv as (Hp & Hn0 & Hw & Hm).
  apply runs_dcheck; [apply Z.ltb_lt; lia|]. rewrite Hn.
  assert ((if size <? u64 (p + n) then u64 (size - p) else n) = amount p n) as ->.
  { unfold max_u64 in size_small. rewrite (uwrap_small 64 (p + n)), (uwrap_small 64) by (unfold is_u; lia). unfold amount.
    destruct (Z.ltb_spec size (p + n)); lia. }
  apply runs_mod. pose proof (st_handle _ Hst) as Hh.
  destruct (Z.eqb_spec p (consumer_handle_position_ r)) as [Ep|Ep].
  - destruct (consumer_handle_ r) as [h|] eqn:Eh; [|exfalso; rewrite Hh in Ep; unfold kUnknownSize in Ep; lia].
    apply (ReadResponseBody_inv _ p n 0 _ done); try done. split; cbn; rewrite ?Eh; try done.
    + split_and!; try done; [lia|by apply (st_size _ Hst)| |by apply (st_described _ Hst)]. intros Hg. by apply (st_good _ Hst).
    + rewrite Z.add_0_r. split; [done|]. rewrite Ep. apply Hh.
    + split_and!; try done; try lia; unfold amount; lia.
  - apply runs_mod. destruct (negb (can_seek_ r) && negb (p =? 0)) eqn:Es.
    + apply complete_inv; try done.
      * destruct Hst. by split.
      * apply not_true_is_false. intros Hg. destruct (st_good _ Hst Hg) as [_ Hcs]. by rewrite Hcs in Es.
    + apply runs_mod_last. split; [|done]. destruct Hst. split; [by split|]. cbn. rewrite Hip. exists done, n.
      split; [done|]. split; [unfold valid; fold p; lia|]. split; [done|]. apply phase_asked; cbn; rewrite ?Hc; done.
Qed.

(** ** Events *)

Lemma reads_app cs cs' : reads (cs ++ cs') = (reads cs + reads cs')%nat.
Proof. unfold reads. by rewrite filter_app, length_app. Qed.

Definition with_described cb r : MojoReader := add_described (cb, (result_ r, size_ r, can_seek_ r)) r.
Lemma described_steady cb r : steady r → awaits_describe r = false → steady (with_described cb r).
Proof. intros [] Ha. split; try done. cbn. apply Forall_app. split; [done|]. constructor; [|constructor]. cbn. by auto. Qed.
Lemma described_inv cb r reqs : awaits_describe r = false → inv r reqs → inv (with_described cb r) reqs.
Proof.
  intros Ha [Hst Hr]. split; [by apply described_steady|]. cbn. destruct (read_in_progress_ r); [|exact Hr].
  destruct Hr as (done & n & Er & Hv & Hd & Hph). exists done, n.
  split_and!; [done..|]. destruct Hph; [by apply phase_posted|by apply phase_pending|by apply phase_asked|by eapply phase_waiting].
Qed.

Lemma run_all_inv cs r reqs :
  steady r → awaits_describe r = false → (reads cs = 0%nat → inv r reqs) → (reads cs = 1%nat → pending r reqs) → (reads cs ≤ 1)%nat →
  runs (run_all run_consequence cs) r (λ _ r', inv r' reqs).
Proof.
  revert r. induction cs as [|c cs IH]; intros r Hst Ha H0 H1 Hle; cbn [run_all].
  { apply runs_ret. by apply H0. }
  destruct c as [cb|]; cbn [run_consequence].
  - apply runs_mod. change (reads (RunDescribe cb :: cs)) with (reads cs) in *. apply IH; try done.
    + by apply described_steady.
    + intros E. by apply described_inv, H0.
  - change (reads (RunReadAt :: cs)) with (S (reads cs)) in *.
    eapply runs_bind; [apply read_when_ready_inv; [done..|]; apply H1; lia|]. cbn beta. intros _ r' [Hi Ha'].
    apply IH; [apply Hi|done|done|lia|lia].
Qed.

Lemma DescribeReply_inv res sz sk r reqs :
  inv r reqs → allowed r (EDescribed res sz sk) → runs (DescribeReply res sz sk) r (λ _ r', inv r' reqs).
Proof.
  intros [Hst Hr] (Ha & Hsz & Hg). destruct (st_ready _ Hst) as [Ho _]. rewrite Ha in Ho.
  unfold DescribeReply. apply runs_mod. unfold ready_occur, Occur. apply runs_get. cbn [ready_ set_described_reply]. rewrite Ho.
  apply runs_mod. set (cs := consequences_ (ready_ r)). set (r1 := set_ready _ _).
  assert (Convert_MediaResult res = kOk → res = OK) as Hok by (by destruct res).
  assert (steady r1) as Hst1.
  { destruct Hst. split; cbn; try done.
    - intros _ E. rewrite decide_True by done. auto.
    - intros G. destruct (Hg G) as [-> ->]. by rewrite decide_True. }
  destruct (read_in_progress_ r) eqn:Ep.
  - destruct Hr as (done & n & Er & Hv & Hd & Hph).
    destruct Hph as [P1 P2 P3 P4 P5 P6|P1 P2 P3 P4 P5 P6|P0|k P0]; [| |congruence..]; fold cs in P2;
      apply run_all_inv; try done; rewrite ?P2; try lia; intros _.
    + split; [done|]. cbn. rewrite Ep. exists done, n. split_and!; try done. by apply phase_posted.
    + split_and!; try done. by exists done, n.
  - destruct Hr as (Hd & I1 & I2 & I3 & I4). fold cs in I2. apply run_all_inv; try done; rewrite ?I2; try lia. intros _.
    split; [done|]. cbn. rewrite Ep. by split_and!.
Qed.

Lemma Describe_inv cb r reqs : inv r reqs → runs (Describe cb) r (λ _ r', inv r' reqs).
Proof.
  intros Hi. pose proof Hi as [Hst Hr]. destruct (st_ready _ Hst) as [Ho Hc]. unfold Describe, ready_when, When. apply runs_get.
  destruct (occurred_ (ready_ r)) eqn:E; apply runs_mod_last; [apply described_inv; [by destruct (awaits_describe r)|done]|].
  assert (reads (consequences_ (ready_ r) ++ [RunDescribe cb]) = reads (consequences_ (ready_ r))) as Erd by (rewrite reads_app; change (reads [RunDescribe cb]) with 0%nat; lia).
  split.
  - destruct Hst. split; try done.
  - cbn [read_in_progress_ set_ready]. destruct (read_in_progress_ r).
    2: { destruct Hr as (Hd & I1 & I2 & I3 & I4). split; [done|]. split; [done|]. split; [exact (eq_trans Erd I2)|done]. }
    destruct Hr as (done & n & Er & Hv & Hd & Hph). exists done, n. split_and!; [done..|].
    destruct Hph as [P1 P2|P1 P2|P0 P1 P2|k P0 P1 P2]; [apply phase_posted|apply phase_pending|apply phase_asked|eapply phase_waiting];
      try done; exact (eq_trans Erd P2).
Qed.

Lemma ContinueReadAt_inv r reqs : inv r reqs → allowed r ETask → runs ContinueReadAt r (λ _ r', inv r' reqs).
Proof.
  intros [Hst Hr] Ht. cbn in Ht. destruct (st_ready _ Hst) as [Ho Hc].
  destruct (read_in_progress_ r) eqn:Ep; [|destruct Hr as (_ & Hr & _); congruence].
  destruct Hr as (done & n & Er & Hv & Hd & [P1 P2 P3 P4 P5 P6|P1|_ P1|k _ P1]); [|congruence..].
  unfold ContinueReadAt. apply runs_mod. set (r1 := set_awaits false (asked r) (waiting r) r).
  assert (steady r1) as Hst1 by (destruct Hst; by split).
  unfold ready_when, When. apply runs_get. cbn [ready_ r1 set_awaits]. destruct (occurred_ (ready_ r)) eqn:E.
  - eapply runs_mono; [apply read_when_ready_inv; [done| |]|by intros _ r' []].
    + change (awaits_describe r = false). by destruct (awaits_describe r).
    + split_and!; try done. by exists done, n.
  - apply runs_mod_last. split.
    + destruct Hst1. by split.
    + cbn. rewrite Ep. exists done, n. split_and!; try done. apply phase_pending; try done.
      change (reads (consequences_ (ready_ r) ++ [RunReadAt]) = 1%nat). by rewrite reads_app, P2.
Qed.

Lemma ReadAtReply_inv res h r reqs :
  inv r reqs → allowed r (EReply res h) → runs (ReadAtReply res h) r (λ _ r', inv r' reqs).
Proof.
  intros [Hst Hr] (p & Ea & Hg & Hop). destruct (st_ready _ Hst) as [Ho Hc].
  destruct (read_in_progress_ r) eqn:Ep; [|destruct Hr as (_ & _ & _ & Hr & _); congruence].
  destruct Hr as (done & n & Er & Hv & Hd & [_ _ P3|_ _ P3|P0 P1 P2 P3 P4 P5 P6 P7 P8|k _ _ _ P3]); [congruence..| |congruence].
  rewrite Ea in P3. injection P3 as E. rewrite P0 in Ho. specialize (Hc Ho). unfold ReadAtReply. apply runs_mod, runs_mod, runs_get.
  cbn [result_ set_result]. case_bool_decide as Hres; cbn [negb].
  2: { rewrite Er. eapply runs_mono; [apply complete_inv; cbn; try done|by intros _ r' []].
       - destruct Hst. split; cbn; try done; [congruence|]. intros G. destruct (Hg G) as [-> _]. done.
       - apply not_true_is_false. intros G. by destruct (Hg G) as [-> _]. }
  assert (res = OK) as -> by (by destruct res). apply runs_mod.
  eapply runs_mono; [apply (ReadResponseBody_inv _ (read_at_position_ r) n 0 reqs done); try done|by intros _ r' []].
  destruct Hv as (Hp & Hn & Hw & Hm). split; cbn.
  - split_and!; try done; [lia|by apply (st_size _ Hst)| |by apply (st_described _ Hst)]. intros G. by apply (st_good _ Hst).
  - rewrite Z.add_0_r, <-E. destruct h as [h|]; [split; [done|by apply Hop]|]. apply not_true_is_false. intros G. by destruct (Hg G).
  - by split_and!.
  - split_and!; try done; try lia; unfold amount; lia.
Qed.

Lemma Signal_inv res r reqs :
  inv r reqs → allowed r (ESignal res) → runs (ReadResponseBodyStatic res) r (λ _ r', inv r' reqs).
Proof.
  intros [Hst Hr] [Hw Hg]. destruct (st_ready _ Hst) as [Ho Hc].
  destruct (read_in_progress_ r) eqn:Ep; [|destruct Hr as (_ & _ & _ & _ & Hr); congruence].
  destruct Hr as (done & n & Er & Hv & Hd & [_ _ _ P4|_ _ _ P4|_ _ _ _ P4|k P0 P1 P2 P3 P4 P5 P6 P7 P8 P9 P10 P11]); [congruence..|].
  rewrite P0 in Ho. specialize (Hc Ho). unfold ReadResponseBodyStatic. apply runs_mod.
  assert (filling (set_awaits (posted r) (asked r) false r) (read_at_position_ r) n k) as F.
  { destruct (consumer_handle_ r) as [h|] eqn:Eh; [|done]. pose proof (st_handle _ Hst) as Hh. rewrite Eh in Hh. split; cbn.
    - split_and!; try done; [lia|by apply (st_size _ Hst)| |by apply (st_described _ Hst)]. intros G. by apply (st_good _ Hst).
    - rewrite Eh. split; [done|]. rewrite <-P11. apply Hh.
    - by split_and!.
    - split_and!; try done; lia. }
  destruct (decide (res = MOJO_RESULT_OK)) as [->|Hne].
  - eapply runs_mono; [by eapply ReadResponseBody_inv|by intros _ r' []].
  - assert (runs (FailReadAt res) (set_awaits (posted r) (asked r) false r) (λ _ r', inv r' reqs)) as H; [|by destruct res].
    eapply runs_mono; [eapply FailReadAt_inv; try done|by intros _ r' []]. apply not_true_is_false. intros G. by rewrite Hg in Hne.
Qed.

Lemma reader_event_inv e r reqs :
  inv r reqs → allowed r e →
  runs (handle e) r (λ _ r', inv r' (match e with EReadAt p n => reqs ++ [(p, n)] | _ => reqs end)).
Proof.
  intros Hi Ha. destruct e as [cb|p n| |res sz sk|res h|res|h]; cbn [handle].
  - by apply Describe_inv.
  - destruct Ha as [Hip Hv]. destruct Hi as [Hst Hr]. rewrite Hip in Hr. destruct Hr as (Hd & I1 & I2 & I3 & I4).
    unfold ReadAt. apply runs_dcheck; [destruct Hv as (_ & ? & _); apply negb_true_iff, Z.eqb_neq; lia|].
    apply runs_get, runs_dcheck; [by rewrite Hip|]. apply runs_mod, runs_mod_last. split; [destruct Hst; by split|].
    cbn. exists reqs, n. split_and!; try done. by apply phase_posted.
  - by apply ContinueReadAt_inv.
  - by apply DescribeReply_inv.
  - by apply ReadAtReply_inv.
  - by apply Signal_inv.
  - destruct Ha as (h0 & Eh & Ec). apply runs_mod_last. destruct Hi as [Hst Hr]. split.
    + destruct Hst as [Hh ? ? ? ?]. split; try done. cbn. rewrite Eh in Hh. unfold opens in *. by rewrite Ec.
    + cbn. destruct (read_in_progress_ r); [|exact Hr]. destruct Hr as (done & n & Er & Hv & Hd & Hph). exists done, n.
      split_and!; [done..|]. destruct Hph; [by apply phase_posted|by apply phase_pending|by apply phase_asked|by eapply phase_waiting].
Qed.

(** ** Runs *)

(** The reader with the reads that were asked of it. *)
Inductive reader_step : MojoReader * list (Z * Z) → MojoReader * list (Z * Z) → Prop :=
  | reader_event r reqs e r' : allowed r e → handle e r = Ok (tt, r') →
      reader_step (r, reqs) (r', match e with EReadAt p n => reqs ++ [(p, n)] | _ => reqs end).
Lemma new_reader_inv : inv new_reader [].
Proof. split; [by split|]. cbn. split; [constructor|]. by split_and!. Qed.
Lemma reader_steps_inv s s' : rtc reader_step s s' → inv s.1 s.2 → inv s'.1 s'.2.
Proof.
  induction 1 as [|s s1 s2 Hs _ IH]; [done|]. intros Hi. apply IH. destruct Hs as [r reqs e r' Ha E]. cbn in *.
  destruct (reader_event_inv e r reqs Hi Ha) as ([] & r'' & E' & Hi'). rewrite E in E'. by injection E' as <-.
Qed.

(** How much is awaited for the read in progress. *)
Definition awaited r : nat :=
  ((if posted r then 1 else 0) + reads (consequences_ (ready_ r)) + (match asked r with Some _ => 1 | None => 0 end) +
  (if waiting r then 1 else 0))%nat.

(** C13. Whatever pieces the bytes of a resource arrive in, and however calls, replies and
    signals are ordered: no event that may happen fails a check; the reads that are complete
    were answered in order, each with exactly the bytes at its position, as many as there
    are, or with an error; with a seeking reader and pipes that do not fail, never with an
    error; and for the read in progress exactly one thing is awaited, the posted task, the
    description of the resource, a pipe, or its signal. *)
Theorem reads_deliver r reqs :
  rtc reader_step (new_reader, []) (r, reqs) →
  (∀ e, allowed r e → ∃ r', handle e r = Ok (tt, r')) ∧
  (∃ done n, reqs = done ++ (if read_in_progress_ r then [(read_at_position_ r, n)] else []) ∧ Forall2 answers done (completed r)) ∧
  awaited r = (if read_in_progress_ r then 1 else 0)%nat ∧
  (reads (consequences_ (ready_ r)) ≠ 0%nat → awaits_describe r = true).
Proof.
  intros Hs. pose proof (reader_steps_inv _ _ Hs new_reader_inv) as Hi. cbn in Hi. split_and!.
  - intros e Ha. destruct (reader_event_inv e r reqs Hi Ha) as ([] & r' & E & _). by exists r'.
  - destruct Hi as [_ Hr]. destruct (read_in_progress_ r).
    + destruct Hr as (done & n & E & _ & Hd & _). by exists done, n.
    + destruct Hr as [Hd _]. exists reqs, 0. by rewrite app_nil_r.
  - destruct Hi as [_ Hr]. unfold awaited. destruct (read_in_progress_ r).
    + destruct Hr as (done & n & _ & _ & _ & Hph). by destruct Hph as [-> -> -> -> | -> -> -> -> | _ -> -> -> -> | k _ -> -> -> ->].
    + destruct Hr as (_ & -> & -> & -> & ->). done.
  - intros Hne. destruct Hi as [Hst _]. destruct (st_ready _ Hst) as [Ho Hc]. destruct (awaits_describe r); [done|].
    by rewrite (Hc Ho) in Hne.
Qed.

End Spec.

(** ** A pipe that gives its bytes in pieces *)

Section Example.
#[local] Existing Instance debug_build.

(** An empty piece is where the reader has to wait. *)
Definition read_chunks (h : list (list Z)) (n : Z) : read_data * list (list Z) :=
  match h with
  | [] => (FAILED MOJO_RESULT_OTHER, [])
  | [] :: rest => (SHOULD_WAIT, rest)
  | c :: rest => if Z.of_nat (length c) <=? n then (READ c, rest)
                 else (READ (take (Z.to_nat n) c), drop (Z.to_nat n) c :: rest)
  end.
#[export] Instance chunks : DataPipe := {| pipe := list (list Z); ReadDataRaw := read_chunks; contents := @concat Z |}.
#[export] Instance chunks_laws : DataPipeLaws chunks.
Proof.
  split; cbn; intros h n; destruct h as [|[|x c] rest]; cbn [read_chunks]; try discriminate.
  - intros bs h' Hn. set (d := x :: c). destruct (Z.leb_spec (Z.of_nat (length d)) n); intros [= <- <-]; cbn [concat].
    + split; [cbn in *; lia|done].
    + rewrite length_take. split; [cbn in *; lia|]. by rewrite app_assoc, take_drop.
  - by intros h' [= <-].
  - intros h'. by destruct (_ <=? n).
  - by intros r h' [= <- <-].
  - intros r h'. by destruct (_ <=? n).
Qed.

Definition resource : list Z := [10; 11; 12; 13; 14; 15].
Definition read_events : list event :=
  [EReadAt 1 3; ETask; EDescribe 0; EDescribed OK 6 true; EReply OK (Some [[11]; []; [12]; [13; 14; 15]]);
   ESignal MOJO_RESULT_OK; ESignal MOJO_RESULT_OK; ESignal MOJO_RESULT_OK; EReadAt 4 9; ETask].
Fixpoint run_events (es : list event) (s : MojoReader * list (Z * Z)) : MojoReader * list (Z * Z) :=
  match es with
  | [] => s
  | e :: rest =>
      match handle e s.1 with
      | Ok (_, r') => run_events rest (r', match e with EReadAt p n => s.2 ++ [(p, n)] | _ => s.2 end)
      | Fault _ => s
      end
  end.
(** The second read goes on where the first one ended, without a new pipe. *)
Example two_reads : completed (run_events read_events (new_reader, [])).1 = [(kOk, 3, [11; 12; 13]); (kOk, 2, [14; 15])].
Proof. reflexivity. Qed.

Fixpoint fine (es : list event) (s : MojoReader * list (Z * Z)) : Prop :=
  match es with
  | [] => True
  | e :: rest => allowed resource true s.1 e ∧ is_ok (handle e s.1) = true ∧ fine rest (run_events [e] s)
  end.
Lemma fine_steps es s : fine es s → rtc (reader_step resource true) s (run_events es s).
Proof.
  revert s. induction es as [|e es IH]; intros [r reqs]; [constructor|]. intros (Ha & Hok & Hf). cbn in *.
  destruct (handle e r) as [[[] r']|] eqn:E; [|done]. eapply rtc_l; [by eapply reader_event|]. by apply IH.
Qed.
Ltac run_fine := first [exact I | split; [|split; [vm_compute; reflexivity|run_fine]]].
Lemma read_events_fine : fine read_events (new_reader, []).
Proof.
  unfold read_events. run_fine.
  - split; [reflexivity|]. vm_compute. by split_and!.
  - by vm_compute.
  - exact I.
  - split; [by vm_compute|]. by split.
  - exists 1. split; [by vm_compute|]. split; [by intros|]. intros _ h' [= <-]. split; [by exists []|by intros].
  - split; [by vm_compute|done].
  - split; [by vm_compute|done].
  - split; [by vm_compute|done].
  - split; [by vm_compute|]. vm_compute. by split_and!.
  - by vm_compute.
Qed.
Definition read_state : MojoReader := (run_events read_events (new_reader, [])).1.
Lemma read_state_reached : rtc (reader_step resource true) (new_reader, []) (read_state, [(1, 3); (4, 9)]).
Proof.
  assert (run_events read_events (new_reader, []) = (read_state, [(1, 3); (4, 9)])) as <- by (vm_compute; reflexivity).
  apply fine_steps, read_events_fine.
Qed.
Lemma reads_deliver_witness :
  ∃ done, [(1, 3); (4, 9)] = done ++ [] ∧ Forall2 (answers resource true) done (completed read_state).
Proof.
  destruct (reads_deliver resource true ltac:(done) _ _ read_state_reached) as (_ & (done & n & E & Hd) & _).
  exists done. split; [|exact Hd]. assert (read_in_progress_ read_state = false) as Ep by (vm_compute; reflexivity).
  rewrite Ep in E. exact E.
Defined.
End Example.
End MojoReaderSpec.
