(* ===== verification/NetworkReader.v ===== *)
(** Reading a resource over the network (services/media/factory_service/
    network_reader_impl.cc): the seeking reader that a [MojoReader] asks for data pipes, which
    asks an HTTP server in turn. *)

From stdpp Require Import strings.
From S2P Require Import Prelude TypeConversions Incident MojoReader MojoReaderSpec.
From Stdlib Require Import Ascii.
Local Open Scope Z_scope.

Module NetworkReader.
Import TypeConversions Incident.

#[export] Instance MediaResult_eq_dec : EqDecision MediaResult.
Proof. solve_decision. Defined.

(** ** Numbers in headers *)

Definition is_space (c : ascii) : bool := (c =? " ")%char || ((9 <=? Z.of_nat (nat_of_ascii c)) && (Z.of_nat (nat_of_ascii c) <=? 13)).
Definition digit_of (c : ascii) : option Z :=
  let n := Z.of_nat (nat_of_ascii c) in if (48 <=? n) && (n <=? 57) then Some (n - 48) else None.
Fixpoint skip_spaces (s : string) : string :=
  match s with String c rest => if is_space c then skip_spaces rest else s | EmptyString => s end.
Fixpoint read_digits (acc : Z) (s : string) : Z :=
  match s with
  | String c rest => match digit_of c with Some d => read_digits (10 * acc + d) rest | None => acc end
  | EmptyString => acc
  end.
(** [std::stoull]: [None] when it throws, for want of a digit or out of range; a minus sign
    negates modulo 2^64. *)
Definition stoull (s : string) : option Z :=
  let s := skip_spaces s in
  let '(negative, s) := match s with
    | String "-" rest => (true, rest) | String "+" rest => (false, rest) | _ => (false, s) end in
  match s with
  | String c rest =>
      match digit_of c with
      | Some d =>
          let n := read_digits d rest in
          if max_u64 <? n then None else Some (if (negative : bool) then uwrap 64 (- n) else n)
      | None => None
      end
  | EmptyString => None
  end.
(** [operator<<] of an integer that is not negative. *)
Fixpoint print_digits (fuel : nat) (n : Z) (rest : string) : string :=
  match fuel with
  | O => rest
  | S fuel =>
      let rest := String (ascii_of_nat (Z.to_nat (48 + n mod 10))) rest in
      if n / 10 =? 0 then rest else print_digits fuel (n / 10) rest
  end.
Definition decimal (n : Z) : string := print_digits 20 n EmptyString.

(** ** Messages *)

Section Network.
Context `{BD : Build} {body : Type}.

Definition kContentLengthHeaderName : string := "Content-Length".
Definition kAcceptRangesHeaderName : string := "Accept-Ranges".
Definition kAcceptRangesHeaderBytesValue : string := "bytes".
Definition kRangeHeaderName : string := "Range".
Definition kStatusOk : Z := 200.
Definition kStatusPartialContent : Z := 206.
Definition kStatusNotFound : Z := 404.

Record URLRequest := mk_request { method : string; request_headers : list (string * string) }.
Record URLResponse := mk_response { status_code : Z; headers : list (string * string); response_body : option body }.

(** ** The reader *)

Inductive consequence := RunDescribe (cb : nat) | RunReadAt (position : Z) (cb : nat).
(** After the members: whether the reply to the first request is awaited, the requests that
    were started since with the position and the callback that they are for, and what was
    called back. *)
Record NetworkReaderImpl := mk_network_reader {
  result_ : MediaResult;
  size_ : Z;
  can_seek_ : bool;
  ready_ : Incident consequence;
  awaits_head : option URLRequest;
  started : list (URLRequest * (Z * nat));
  described : list (nat * (MediaResult * Z * bool));
  replies : list (Z * nat * (MediaResult * option body));
}.
Implicit Types n : NetworkReaderImpl.

Definition set_members res sz sk n := mk_network_reader res sz sk (ready_ n) (awaits_head n) (started n) (described n) (replies n).
Definition set_ready v n := mk_network_reader (result_ n) (size_ n) (can_seek_ n) v (awaits_head n) (started n) (described n) (replies n).
Definition set_awaits v n := mk_network_reader (result_ n) (size_ n) (can_seek_ n) (ready_ n) v (started n) (described n) (replies n).
Definition set_started v n := mk_network_reader (result_ n) (size_ n) (can_seek_ n) (ready_ n) (awaits_head n) v (described n) (replies n).
Definition add_described x n :=
  mk_network_reader (result_ n) (size_ n) (can_seek_ n) (ready_ n) (awaits_head n) (started n) (described n ++ [x]) (replies n).
Definition add_reply x n :=
  mk_network_reader (result_ n) (size_ n) (can_seek_ n) (ready_ n) (awaits_head n) (started n) (described n) (replies n ++ [x]).

(** The constructor, which has started its request for the headers. *)
Definition new_network_reader : NetworkReaderImpl :=
  mk_network_reader OK MojoReader.kUnknownSize false new_incident (Some (mk_request "HEAD" [])) [] [] [].

Definition reply (position : Z) (cb : nat) (result : MediaResult) (h : option body) : prog NetworkReaderImpl unit :=
  modS (add_reply (position, cb, (result, h))).
(** The closure of [ReadAt]. *)
Definition range_headers (position : Z) : list (string * string) :=
  if position =? 0 then []
  else [(kRangeHeaderName, (kAcceptRangesHeaderBytesValue ++ "=" ++ decimal position ++ "-")%string)].
Definition read_when_ready (position : Z) (cb : nat) : prog NetworkReaderImpl unit :=
  n ← getS;
  if negb (bool_decide (result_ n = OK)) then reply position cb (result_ n) None
  else if negb (can_seek_ n) && negb (position =? 0) then reply position cb INVALID_ARGUMENT None
  else modS (λ n, set_started (started n ++ [(mk_request "GET" (range_headers position), (position, cb))]) n).
Definition run_consequence (c : consequence) : prog NetworkReaderImpl unit :=
  match c with
  | RunDescribe cb => modS (λ n, add_described (cb, (result_ n, size_ n, can_seek_ n)) n)
  | RunReadAt position cb => read_when_ready position cb
  end.
Definition Describe (cb : nat) : prog NetworkReaderImpl unit := When run_consequence ready_ set_ready (RunDescribe cb).
Definition ReadAt (position : Z) (cb : nat) : prog NetworkReaderImpl unit :=
  When run_consequence ready_ set_ready (RunReadAt position cb).

(** The loop over the headers of the first response. *)
Fixpoint read_headers (hs : list (string * string)) : prog NetworkReaderImpl unit :=
  match hs with
  | [] => mret tt
  | (name, value) :: rest =>
      _ ← (if bool_decide (name = kContentLengthHeaderName) then
             match stoull value with
             | Some size => modS (λ n, set_members (result_ n) size (can_seek_ n) n)
             | None => failS Aborted
             end
           else if bool_decide (name = kAcceptRangesHeaderName) && bool_decide (value = kAcceptRangesHeaderBytesValue) then
             modS (λ n, set_members (result_ n) (size_ n) true n)
           else mret tt);
      read_headers rest
  end.
Definition HeadReply (response : URLResponse) : prog NetworkReaderImpl unit :=
  _ ← modS (set_awaits None);
  _ ← (if negb (status_code response =? kStatusOk) then
         modS (λ n, set_members (if status_code response =? kStatusNotFound then NOT_FOUND else UNKNOWN_ERROR) (size_ n) (can_seek_ n) n)
       else read_headers (headers response));
  Occur run_consequence ready_ set_ready.
(** The callback of a request that [ReadAt] started. *)
Definition GetReply (position : Z) (cb : nat) (response : URLResponse) : prog NetworkReaderImpl unit :=
  if negb (status_code response =? kStatusOk) && negb (status_code response =? kStatusPartialContent) then
    _ ← modS (λ n, set_members UNKNOWN_ERROR (size_ n) (can_seek_ n) n);
    n ← getS; reply position cb (result_ n) None
  else
    _ ← dcheckS (match response_body response with Some _ => true | None => false end);
    n ← getS; reply position cb (result_ n) (response_body response).

Inductive event := EDescribe (cb : nat) | EReadAt (position : Z) (cb : nat) | EHead (response : URLResponse) | EGet (i : nat) (response : URLResponse).
Definition handle (e : event) : prog NetworkReaderImpl unit :=
  match e with
  | EDescribe cb => Describe cb
  | EReadAt position cb => ReadAt position cb
  | EHead response => HeadReply response
  | EGet i response =>
      n ← getS;
      match started n !! i with
      | Some (_, (position, cb)) => _ ← modS (set_started (delete i (started n))); GetReply position cb response
      | None => mret tt
      end
  end.

End Network.
Arguments URLResponse : clear implicits.
Arguments NetworkReaderImpl : clear implicits.
Arguments event : clear implicits.

(** The read that an event asks for. *)
Definition asked_of {body} (e : event body) : list (Z * nat) := match e with EReadAt p cb => [(p, cb)] | _ => [] end.

(** ** Printing and reading back *)

Section Numbers.
Implicit Types (s : string).

Lemma ascii_digit d : 0 ≤ d < 10 → digit_of (ascii_of_nat (Z.to_nat (48 + d))) = Some d.
Proof.
  intros Hd. unfold digit_of. rewrite nat_ascii_embedding by lia. rewrite Z2Nat.id by lia.
  replace (48 <=? 48 + d) with true by (symmetry; apply Z.leb_le; lia).
  replace (48 + d <=? 57) with true by (symmetry; apply Z.leb_le; lia). cbn [andb]. f_equal. lia.
Qed.

Lemma read_print fuel n rest :
  0 ≤ n < 10 ^ Z.of_nat fuel → read_digits 0 (print_digits fuel n rest) = read_digits n rest.
Proof.
  revert n rest. induction fuel as [|fuel IH]; intros n rest Hn; cbn [print_digits].
  { by replace n with 0 by (cbn in Hn; lia). }
  rewrite Nat2Z.inj_succ, Z.pow_succ_r in Hn by lia.
  pose proof (Z.mod_pos_bound n 10). pose proof (Z.div_mod n 10).
  assert (∀ acc, read_digits acc (String (ascii_of_nat (Z.to_nat (48 + n mod 10))) rest) = read_digits (10 * acc + n mod 10) rest) as E.
  { intros acc. cbn [read_digits]. by rewrite ascii_digit by lia. }
  destruct (Z.eqb_spec (n / 10) 0) as [E0|]; [rewrite E; f_equal; lia|]. rewrite IH, E by lia. f_equal. lia.
Qed.
Lemma print_first fuel n rest :
  0 ≤ n → (0 < fuel)%nat → ∃ d s, 0 ≤ d < 10 ∧ print_digits fuel n rest = String (ascii_of_nat (Z.to_nat (48 + d))) s.
Proof.
  revert n rest. induction fuel as [|fuel IH]; intros n rest Hn Hf; [lia|]. cbn [print_digits].
  pose proof (Z.mod_pos_bound n 10). destruct (n / 10 =? 0); [exists (n mod 10), rest; split; [lia|done]|].
  destruct fuel as [|fuel]; [cbn; exists (n mod 10), rest; split; [lia|done]|]. apply IH; [by apply Z.div_pos|lia].
Qed.

Lemma stoull_digit d s :
  0 ≤ d < 10 → stoull (String (ascii_of_nat (Z.to_nat (48 + d))) s) =
    if max_u64 <? read_digits d s then None else Some (read_digits d s).
Proof.
  intros Hd. assert (d = 0 ∨ d = 1 ∨ d = 2 ∨ d = 3 ∨ d = 4 ∨ d = 5 ∨ d = 6 ∨ d = 7 ∨ d = 8 ∨ d = 9) as Hc by lia.
  destruct Hc as [->|[->|[->|[->|[->|[->|[->|[->|[->| ->]]]]]]]]]; reflexivity.
Qed.

Lemma app_empty s : (s ++ EmptyString)%string = s.
Proof. induction s as [|c s IH]; [done|]. change (String c (s ++ EmptyString) = String c s). by f_equal. Qed.
Lemma print_app fuel n rest more : print_digits fuel n (rest ++ more) = (print_digits fuel n rest ++ more)%string.
Proof.
  revert n rest. induction fuel as [|fuel IH]; intros n rest; cbn [print_digits]; [done|].
  destruct (n / 10 =? 0); [done|]. apply (IH _ (String _ rest)).
Qed.

(** [stoull] reads what [operator<<] prints, up to what follows. *)
Lemma stoull_decimal n rest : 0 ≤ n ≤ max_u64 → read_digits n rest = n → stoull (decimal n ++ rest) = Some n.
Proof.
  intros Hn Hstop. unfold max_u64 in Hn. assert (0 ≤ n < 10 ^ Z.of_nat 20) as Hn' by (cbn; lia).
  unfold decimal. rewrite <-print_app. change (EmptyString ++ rest)%string with rest.
  pose proof (read_print 20 n rest Hn') as Hr. rewrite Hstop in Hr.
  destruct (print_first 20 n rest ltac:(lia) ltac:(lia)) as (d & s & Hd & E). rewrite E in *.
  rewrite stoull_digit by done. cbn [read_digits] in Hr. rewrite ascii_digit in Hr by done.
  replace (10 * 0 + d) with d in Hr by lia. rewrite Hr.
  destruct (Z.ltb_spec max_u64 n); [unfold max_u64 in *; lia|done].
Qed.
End Numbers.

(** ** Any server *)

Section Server.
Context `{BD : Build} {body : Type}.

(** What the server answers: the response to the request for headers, and the responses it
    may give to any other request.  Of the first, HTTP promises that a length is a decimal number
    (RFC 7230, 3.3.2); of the others, the network service promises a body with a good status. *)
Variable head : URLResponse body.
Variable answers : URLRequest → URLResponse body → Prop.
Definition good (resp : URLResponse body) : Prop := status_code resp = kStatusOk ∨ status_code resp = kStatusPartialContent.
Hypothesis lengths_decimal : ∀ v, (kContentLengthHeaderName, v) ∈ headers head → ∃ k, 0 ≤ k ≤ max_u64 ∧ v = decimal k.
Hypothesis good_bodies : ∀ req resp, answers req resp → good resp → is_Some (response_body resp).

Implicit Types (n : NetworkReaderImpl body) (reqs : list (Z * nat)) (hs : list (string * string)).

(** What headers say: the last length, and whether byte ranges are accepted. *)
Definition says_length hs (k : Z) : Prop :=
  (∃ pre post, hs = pre ++ (kContentLengthHeaderName, decimal k) :: post ∧ 0 ≤ k ≤ max_u64 ∧ ∀ v, (kContentLengthHeaderName, v) ∉ post) ∨
  (k = MojoReader.kUnknownSize ∧ ∀ v, (kContentLengthHeaderName, v) ∉ hs).
Definition accepts_ranges hs : Prop := (kAcceptRangesHeaderName, kAcceptRangesHeaderBytesValue) ∈ hs.
(** What the reader knows of the resource when the headers have arrived. *)
Definition told_result : MediaResult :=
  if status_code head =? kStatusOk then OK else if status_code head =? kStatusNotFound then NOT_FOUND else UNKNOWN_ERROR.
Definition told_size (k : Z) : Prop := if status_code head =? kStatusOk then says_length (headers head) k else k = MojoReader.kUnknownSize.
Definition told_seek : Prop := status_code head = kStatusOk ∧ accepts_ranges (headers head).
(** The server refuses some request. *)
Definition refuses : Prop := ∃ req resp, answers req resp ∧ ¬ good resp.
(** The result of the reader, now. *)
Definition standing (res : MediaResult) : Prop := res = told_result ∨ told_result = OK ∧ refuses ∧ res = UNKNOWN_ERROR.

(** The requests for a resource from a position on: no range for position 0, and otherwise the
    position in decimal between "bytes=" and "-". *)
Definition asks_from (p : Z) (req : URLRequest) : Prop :=
  method req = "GET"%string ∧
  if p =? 0 then request_headers req = []
  else ∃ v, request_headers req = [(kRangeHeaderName, ("bytes=" ++ v ++ "-")%string)] ∧ stoull v = Some p.
Definition may_ask (p : Z) : Prop := told_result = OK ∧ (p = 0 ∨ told_seek).
(** What a read is to get. *)
Inductive answered : Z * nat * (MediaResult * option body) → Prop :=
  | answered_nothing p cb res : standing res → res ≠ OK → answered (p, cb, (res, None))
  | answered_no_ranges p cb : told_result = OK → p ≠ 0 → ¬ told_seek → answered (p, cb, (INVALID_ARGUMENT, None))
  | answered_body p cb req resp res h :
      may_ask p → asks_from p req → answers req resp → good resp → response_body resp = Some h → standing res →
      answered (p, cb, (res, Some h)).
Definition wellformed (x : URLRequest * (Z * nat)) : Prop := asks_from x.2.1 x.1 ∧ may_ask x.2.1.
Definition reads_of (cs : list consequence) : list (Z * nat) :=
  omap (λ c, match c with RunReadAt p cb => Some (p, cb) | RunDescribe _ => None end) cs.
Definition as_told (x : nat * (MediaResult * Z * bool)) : Prop :=
  standing x.2.1.1 ∧ told_size x.2.1.2 ∧ (x.2.2 = true ↔ told_seek).

Record settled n : Prop := {
  se_head : match awaits_head n with
    | Some req => req = mk_request "HEAD" [] ∧ occurred_ (ready_ n) = false ∧
        result_ n = OK ∧ size_ n = MojoReader.kUnknownSize ∧ can_seek_ n = false
    | None => occurred_ (ready_ n) = true ∧ consequences_ (ready_ n) = [] ∧
        standing (result_ n) ∧ told_size (size_ n) ∧ (can_seek_ n = true ↔ told_seek)
    end;
  se_started : Forall wellformed (started n) ∧ (is_Some (awaits_head n) → started n = []);
  se_replies : Forall answered (replies n);
  se_described : Forall as_told (described n);
  se_pending : Forall (λ q, 0 ≤ q.1 ≤ max_u64) (reads_of (consequences_ (ready_ n)));
}.
(** Every read asked for is pending, or was started, or has its reply. *)
Definition accounts n (pending : list (Z * nat)) reqs : Prop :=
  reqs ≡ₚ pending ++ (started n).*2 ++ (replies n).*1.
Definition ninv n reqs : Prop := settled n ∧ accounts n (reads_of (consequences_ (ready_ n))) reqs.

Definition allowed n (e : event body) : Prop :=
  match e with
  | EDescribe _ => True
  | EReadAt p _ => 0 ≤ p ≤ max_u64
  | EHead resp => is_Some (awaits_head n) ∧ resp = head
  | EGet i resp => ∃ req x, started n !! i = Some (req, x) ∧ answers req resp
  end.

Lemma standing_ok res : standing res → res = OK → told_result = OK.
Proof. intros [->|(_ & _ & ->)]; done. Qed.
Lemma range_headers_ask p : 0 ≤ p ≤ max_u64 → asks_from p (mk_request "GET" (range_headers p)).
Proof.
  intros Hp. split; [done|]. unfold range_headers. cbn [request_headers]. destruct (p =? 0); [done|].
  exists (decimal p). split; [done|]. pose proof (stoull_decimal p EmptyString Hp eq_refl) as Hd. by rewrite app_empty in Hd.
Qed.

Lemma read_when_ready_ninv p cb n pending reqs :
  settled n → awaits_head n = None → 0 ≤ p ≤ max_u64 → accounts n ((p, cb) :: pending) reqs →
  runs (read_when_ready p cb) n (λ _ n', settled n' ∧ awaits_head n' = None ∧ accounts n' pending reqs).
Proof.
  intros Hs Ha Hp Hacc. pose proof (se_head _ Hs) as Hh. rewrite Ha in Hh. destruct Hh as (H1 & H2 & H3 & H4 & H5).
  unfold accounts in *.
  assert (∀ x, answered (p, cb, x) → settled (add_reply (p, cb, x) n) ∧ awaits_head (add_reply (p, cb, x) n) = None ∧
    reqs ≡ₚ pending ++ (started (add_reply (p, cb, x) n)).*2 ++ (replies (add_reply (p, cb, x) n)).*1) as Hadd.
  { intros x Hx. split; [|split; [done|]].
    - destruct Hs as [? [? ?] ? ? ?]. split; cbn; rewrite ?Ha; [done|split; [done|by intros []]| |done..].
      apply Forall_app. split; [done|]. by constructor.
    - cbn. rewrite Hacc, fmap_app. cbn. solve_Permutation. }
  unfold read_when_ready. apply runs_get. case_bool_decide as Hok; cbn [negb].
  2:{ apply runs_mod_last, Hadd. by apply answered_nothing. }
  pose proof (standing_ok _ H3 Hok) as Ht. destruct (negb (can_seek_ n) && negb (p =? 0)) eqn:E; apply runs_mod_last.
  - apply Hadd. apply andb_true_iff in E as [E1%negb_true_iff E2%negb_true_iff]. apply answered_no_ranges; [done|lia|].
    intros Hseek%H5. congruence.
  - assert (may_ask p) as Hm.
    { split; [done|]. apply andb_false_iff in E as [E%negb_false_iff|E%negb_false_iff]; [right; by apply H5|left; lia]. }
    split; [|split; [done|]].
    + destruct Hs as [? [? ?] ? ? ?]. split; cbn; rewrite ?Ha; [done| |done..]. split; [|by intros []]. apply Forall_app. split; [done|].
      constructor; [|constructor]. split; [by apply range_headers_ask|done].
    + cbn. rewrite Hacc, fmap_app. cbn. solve_Permutation.
Qed.

Lemma run_all_ninv cs n reqs :
  settled n → awaits_head n = None → Forall (λ q, 0 ≤ q.1 ≤ max_u64) (reads_of cs) → accounts n (reads_of cs) reqs →
  runs (run_all run_consequence cs) n (λ _ n', ninv n' reqs).
Proof.
  revert n. induction cs as [|c cs IH]; intros n Hs Ha Hp Hacc; cbn [run_all].
  { apply runs_ret. split; [done|]. pose proof (se_head _ Hs) as Hh. rewrite Ha in Hh. by destruct Hh as (_ & -> & _). }
  destruct c as [cb|p cb]; cbn [run_consequence].
  - apply runs_mod. apply IH; [|done..]. pose proof (se_head _ Hs) as Hh. rewrite Ha in Hh. destruct Hh as (H1 & H2 & H3 & H4 & H5).
    destruct Hs as [? [? ?] ? ? ?]. split; cbn; rewrite ?Ha; [done|split; [done|by intros []]|done| |done].
    apply Forall_app. split; [done|]. constructor; [|constructor]. by split.
  - apply Forall_cons in Hp as [Hp Hps]. eapply runs_bind; [by eapply read_when_ready_ninv|]. cbn beta.
    intros _ n' (Hs' & Ha' & Hacc'). by apply IH.
Qed.

Lemma When_ninv c n reqs reqs' :
  ninv n reqs → Forall (λ q, 0 ≤ q.1 ≤ max_u64) (reads_of [c]) → reqs' = reqs ++ reads_of [c] →
  runs (When run_consequence ready_ set_ready c) n (λ _ n', ninv n' reqs').
Proof.
  intros [Hs Hacc] Hp ->. unfold When. apply runs_get. pose proof (se_head _ Hs) as Hh.
  unfold accounts in Hacc. destruct (awaits_head n) as [req|] eqn:Ea.
  - destruct Hh as (Hq & Ho & Hh). rewrite Ho. apply runs_mod_last. split.
    + destruct Hs as [? [? He] ? ? ?]. split; cbn; rewrite ?Ea; [done|split; [done|intros _; apply He; by rewrite Ea]|done..|].
      unfold reads_of in *. rewrite omap_app. by apply Forall_app.
    + unfold accounts. cbn. unfold reads_of in *. rewrite omap_app, Hacc. solve_Permutation.
  - destruct Hh as (Ho & Hc & _). rewrite Ho. assert (runs (run_all run_consequence [c]) n (λ _ n', ninv n' (reqs ++ reads_of [c]))) as Hrun.
    { apply run_all_ninv; try done. unfold accounts. rewrite Hacc, Hc. cbn. solve_Permutation. }
    cbn [run_all] in Hrun. destruct Hrun as ([] & n' & E & Hn'). exists tt, n'. split; [|done].
    apply prog_bind_Ok in E as ([] & n1 & E & E1). by injection E1 as <-.
Qed.

(** The headers as the loop reads them, from the size and the flag that it starts with. *)
Lemma stoull_all k : 0 ≤ k ≤ max_u64 → stoull (decimal k) = Some k.
Proof. intros Hk. pose proof (stoull_decimal k EmptyString Hk eq_refl) as Hd. by rewrite app_empty in Hd. Qed.
Definition read_as (sz : Z) (sk : bool) hs (sz' : Z) (sk' : bool) : Prop :=
  ((∃ pre post, hs = pre ++ (kContentLengthHeaderName, decimal sz') :: post ∧ 0 ≤ sz' ≤ max_u64 ∧ ∀ v, (kContentLengthHeaderName, v) ∉ post) ∨
   (sz' = sz ∧ ∀ v, (kContentLengthHeaderName, v) ∉ hs)) ∧
  (sk' = true ↔ sk = true ∨ accepts_ranges hs).
Lemma singleton_middle {A} (x y : A) pre post : [x] = pre ++ y :: post → x = y ∧ post = [].
Proof. destruct pre as [|z pre]; cbn [app]; [by intros [= -> <-]|]. intros [= _ E]. by destruct pre. Qed.
Lemma read_as_cons x hs sz sk sz1 sk1 sz' sk' :
  read_as sz sk [x] sz1 sk1 → read_as sz1 sk1 hs sz' sk' → read_as sz sk (x :: hs) sz' sk'.
Proof.
  unfold accepts_ranges. intros [Hz Hk] [Hz' Hk']. split.
  - destruct Hz' as [(pre & post & -> & Hr & Hn)|[-> Hn]]; [left; by exists (x :: pre), post|].
    destruct Hz as [(pre & post & Ex & Hr & Hn')|[-> Hn']].
    + left. apply singleton_middle in Ex as [-> _]. by exists [], hs.
    + right. split; [done|]. intros v [<-|Hv]%elem_of_cons; [by apply (Hn' v); left|by apply (Hn v)].
  - rewrite Hk', Hk. unfold accepts_ranges. rewrite list_elem_of_singleton, elem_of_cons. tauto.
Qed.
Lemma read_headers_runs hs n :
  (∀ v, (kContentLengthHeaderName, v) ∈ hs → ∃ k, 0 ≤ k ≤ max_u64 ∧ v = decimal k) →
  runs (read_headers hs) n (λ _ n', ∃ sz' sk', n' = set_members (result_ n) sz' sk' n ∧ read_as (size_ n) (can_seek_ n) hs sz' sk').
Proof.
  revert n. induction hs as [|[name value] hs IH]; intros n Hd; cbn [read_headers].
  { apply runs_ret. exists (size_ n), (can_seek_ n). split; [by destruct n|]. split.
    - right. split; [done|]. intros v Hv. by inversion Hv.
    - split; [by left|]. intros [?|H]; [done|by inversion H]. }
  assert (∀ sz1 sk1, read_as (size_ n) (can_seek_ n) [(name, value)] sz1 sk1 →
    runs (read_headers hs) (set_members (result_ n) sz1 sk1 n)
      (λ _ n', ∃ sz' sk', n' = set_members (result_ n) sz' sk' n ∧ read_as (size_ n) (can_seek_ n) ((name, value) :: hs) sz' sk')) as Hstep.
  { intros sz1 sk1 H1. eapply runs_mono; [apply IH; intros v Hv; apply Hd; by right|]. cbn.
    intros _ n' (sz' & sk' & -> & H2). exists sz', sk'. split; [done|]. by eapply read_as_cons. }
  case_bool_decide as En; [|case_bool_decide as Ea; [case_bool_decide as Eb|]]; cbn [andb].
  - subst name. destruct (Hd value ltac:(by left)) as (k & Hk & ->). rewrite stoull_all by done.
    eapply runs_step; [reflexivity|]. apply Hstep. split.
    + left. exists [], []. split; [done|]. split; [done|]. intros v Hv. by inversion Hv.
    + split; [by left|]. intros [?|H]; [done|]. by apply list_elem_of_singleton in H.
  - subst. eapply runs_step; [reflexivity|]. apply Hstep. split.
    + right. split; [done|]. by intros v Hv%list_elem_of_singleton.
    + split; [intros _; right; by left|done].
  - eapply runs_step with (s' := set_members (result_ n) (size_ n) (can_seek_ n) n) (a := tt); [by destruct n|]. apply Hstep. split.
    + right. split; [done|]. intros v Hv%list_elem_of_singleton. by simplify_eq.
    + split; [by left|]. intros [?|H]; [done|]. apply list_elem_of_singleton in H. by simplify_eq.
  - eapply runs_step with (s' := set_members (result_ n) (size_ n) (can_seek_ n) n) (a := tt); [by destruct n|]. apply Hstep. split.
    + right. split; [done|]. intros v Hv%list_elem_of_singleton. by simplify_eq.
    + split; [by left|]. intros [?|H]; [done|]. apply list_elem_of_singleton in H. by simplify_eq.
Qed.

Lemma HeadReply_ninv n reqs :
  ninv n reqs → is_Some (awaits_head n) → runs (HeadReply head) n (λ _ n', ninv n' reqs).
Proof.
  intros [Hs Hacc] [req Ea]. pose proof (se_head _ Hs) as Hh. rewrite Ea in Hh. destruct Hh as (_ & Ho & H1 & H2 & H3).
  unfold HeadReply. apply runs_mod. set (n1 := set_awaits None n).
  assert (∀ res sz sk, standing res → told_size sz → (sk = true ↔ told_seek) →
    runs (Occur run_consequence ready_ set_ready) (set_members res sz sk n1) (λ _ n', ninv n' reqs)) as Hocc.
  { intros res sz sk Hr Hz Hk. unfold Occur. apply runs_get.
    change (occurred_ (ready_ (set_members res sz sk n1))) with (occurred_ (ready_ n)). rewrite Ho.
    apply runs_mod. apply run_all_ninv; try done; [|apply Hs].
    destruct Hs as [? [Hst He] ? ? ?]. split; cbn; [done|split; [done|by intros []]|done..]. }
  unfold told_size, told_seek, standing, told_result in Hocc. destruct (Z.eqb_spec (status_code head) kStatusOk) as [Es|Es]; cbn [negb].
  - eapply runs_bind; [by apply read_headers_runs|]. cbn beta. intros _ n2 (sz' & sk' & -> & [Hz Hk]).
    change (size_ n1) with (size_ n) in Hz. change (can_seek_ n1) with (can_seek_ n) in Hk. rewrite H2 in Hz. rewrite H3 in Hk.
    change (result_ n1) with (result_ n). rewrite H1. apply Hocc; [by left|exact Hz|]. rewrite Hk. naive_solver.
  - eapply runs_step; [reflexivity|]. change (size_ n1) with (size_ n). change (can_seek_ n1) with (can_seek_ n). rewrite H2, H3.
    apply Hocc; [by left|done|]. naive_solver.
Qed.

Lemma GetReply_ninv n reqs i req p cb resp :
  ninv n reqs → started n !! i = Some (req, (p, cb)) → answers req resp →
  runs (GetReply p cb resp) (set_started (delete i (started n)) n) (λ _ n', ninv n' reqs).
Proof.
  intros [Hs Hacc] Ei Hans. destruct (se_started _ Hs) as [Hst He].
  pose proof (Forall_lookup_1 _ _ _ _ Hst Ei) as [Hask Hmay]. cbn in Hask, Hmay.
  pose proof (se_head _ Hs) as Hh. destruct (awaits_head n) as [req0|] eqn:Ea; [by rewrite He in Ei by done|].
  destruct Hh as (H1 & H2 & H3 & H4 & H5).
  assert (∀ res x, standing res → answered (p, cb, x) →
    ninv (add_reply (p, cb, x) (set_members res (size_ n) (can_seek_ n) (set_started (delete i (started n)) n))) reqs) as Hadd.
  { intros res x Hr Hx. split.
    - destruct Hs. split; cbn; rewrite ?Ea; [done|split; [by apply Forall_delete|by intros []]| |done..].
      apply Forall_app. split; [done|]. by constructor.
    - unfold accounts in *. cbn. rewrite Hacc, fmap_app. rewrite (delete_Permutation _ _ _ Ei) at 1. cbn. solve_Permutation. }
  unfold GetReply. destruct (negb (status_code resp =? kStatusOk) && negb (status_code resp =? kStatusPartialContent)) eqn:E.
  - assert (standing UNKNOWN_ERROR) as Hu.
    { right. split; [apply Hmay|]. split; [|done]. exists req, resp. split; [done|]. intros [Hg|Hg]; rewrite Hg in E; done. }
    apply runs_mod, runs_get, runs_mod_last. apply (Hadd UNKNOWN_ERROR); [done|]. by apply answered_nothing.
  - assert (good resp) as Hg.
    { unfold good. apply andb_false_iff in E as [E%negb_false_iff%Z.eqb_eq|E%negb_false_iff%Z.eqb_eq]; auto. }
    destruct (good_bodies _ _ Hans Hg) as [h Eh]. rewrite Eh. apply runs_dcheck; [done|]. apply runs_get, runs_mod_last. cbn [result_ set_started].
    pose proof (Hadd (result_ n) (result_ n, Some h) H3) as Hn. apply Hn. by eapply answered_body.
Qed.

Lemma net_event_ninv e n reqs :
  ninv n reqs → allowed n e → runs (handle e) n (λ _ n', ninv n' (reqs ++ asked_of e)).
Proof.
  intros Hi Ha. destruct e as [cb|p cb|resp|i resp]; cbn [handle asked_of]; rewrite ?app_nil_r.
  - apply (When_ninv _ _ reqs); [done|constructor|by rewrite app_nil_r].
  - apply (When_ninv _ _ reqs); [done| |done]. constructor; [exact Ha|constructor].
  - destruct Ha as [Ea ->]. by apply HeadReply_ninv.
  - destruct Ha as (req & [p cb] & Ei & Hans). apply runs_get. rewrite Ei. apply runs_mod. by eapply GetReply_ninv.
Qed.

(** The reader with the reads that were asked of it. *)
Inductive net_step : NetworkReaderImpl body * list (Z * nat) → NetworkReaderImpl body * list (Z * nat) → Prop :=
  | net_event n reqs e n' : allowed n e → handle e n = Ok (tt, n') → net_step (n, reqs) (n', reqs ++ asked_of e).
Lemma new_network_reader_ninv : ninv new_network_reader [].
Proof. split; [split; by try constructor|]. unfold accounts. by cbn. Qed.
Lemma net_steps_ninv s s' : rtc net_step s s' → ninv s.1 s.2 → ninv s'.1 s'.2.
Proof.
  induction 1 as [|s s1 s2 Hs _ IH]; [done|]. intros Hi. apply IH. destruct Hs as [n reqs e n' Ha E]. cbn in *.
  destruct (net_event_ninv e n reqs Hi Ha) as ([] & n'' & E' & Hi'). rewrite E in E'. by injection E' as <-.
Qed.

(** C14. What a network reader does with any server, whatever it answers to whatever request, in
    whatever order calls and responses come, as long as lengths are decimal numbers and good responses
    have a body.  Nothing fails.  Every read asked for is waiting for the headers, or for the
    response to its request, or has had one reply.  A request is made for a position other than 0
    only if the headers said that byte ranges are accepted, and it names the position in
    decimal.  A read gets the body of a good response to the request for its position, whether or not the
    server kept to the range; or a refusal, if it is not at 0 and ranges are not
    accepted; or the error of the request for headers or of an earlier request.  [Describe] reports
    the status, the last length and whether byte ranges are accepted.  And if the server keeps to
    ranges, what bodies hold is the resource from the position asked for. *)
Theorem network_reads n reqs :
  rtc net_step (new_network_reader, []) (n, reqs) →
  (∀ e, allowed n e → ∃ n', handle e n = Ok (tt, n')) ∧
  (∃ pending, reqs ≡ₚ pending ++ (started n).*2 ++ (replies n).*1 ∧ (awaits_head n = None → pending = [])) ∧
  Forall wellformed (started n) ∧ Forall answered (replies n) ∧ Forall as_told (described n) ∧
  ∀ holds : body → Z → Prop,
    (∀ p req resp h, asks_from p req → answers req resp → good resp → response_body resp = Some h → holds h p) →
    Forall (λ x, ∀ h, x.2.2 = Some h → holds h x.1.1) (replies n).
Proof.
  intros Hs. pose proof (net_steps_ninv _ _ Hs new_network_reader_ninv) as Hi. cbn in Hi. split_and!.
  - intros e Ha. destruct (net_event_ninv e n reqs Hi Ha) as ([] & n' & E & _). by exists n'.
  - exists (reads_of (consequences_ (ready_ n))). split; [apply Hi|]. intros Ea. pose proof (se_head _ (proj1 Hi)) as Hh.
    rewrite Ea in Hh. by destruct Hh as (_ & -> & _).
  - apply Hi.
  - apply Hi.
  - apply Hi.
  - intros holds Hholds. eapply Forall_impl; [apply Hi|]. intros x Hx. destruct Hx; cbn; try done. intros h' [= <-]. eauto.
Qed.
End Server.

(** A server that keeps to ranges, in front of a [MojoReader]: such replies are what
    [MojoReaderSpec.reads_deliver] asks of a seeking reader. *)
Lemma reply_allowed `{DP : MojoReader.DataPipe} `{!MojoReader.DataPipeLaws DP} asset r p h :
  MojoReaderSpec.opens asset true h p → MojoReader.asked r = Some p → MojoReaderSpec.allowed asset true r (MojoReader.EReply OK (Some h)).
Proof. intros Ho Ha. exists p. split_and!; try done. intros _ h0 [= <-]. done. Qed.

(** ** A resource of three bytes *)

Section Example.
#[local] Existing Instance debug_build.

Definition three : list Z := [5; 6; 7].
(** Servers with and without ranges, and one that accepts ranges and then ignores them, as HTTP
    allows. *)
Definition head_of (more : list (string * string)) : URLResponse (list Z) :=
  mk_response 200 ((kContentLengthHeaderName, decimal 3) :: more) None.
Definition with_ranges : list (string * string) := [("Content-Type", "audio/wav"); (kAcceptRangesHeaderName, kAcceptRangesHeaderBytesValue)]%string.
Definition no_ranges : list (string * string) := [(kAcceptRangesHeaderName, "none")]%string.
Definition three_answers (req : URLRequest) (resp : URLResponse (list Z)) : Prop :=
  (req = mk_request "GET" [] ∧ resp = mk_response 200 [] (Some three)) ∨
  (∃ v p, req = mk_request "GET" [(kRangeHeaderName, ("bytes=" ++ v ++ "-")%string)] ∧ stoull v = Some p ∧
    resp = mk_response 206 [] (Some (drop (Z.to_nat p) three))).
Definition net_events (hs : list (string * string)) : list (event (list Z)) :=
  [EReadAt 1 0; EHead (head_of hs); EDescribe 4; EReadAt 0 1; EGet 1 (mk_response 200 [] (Some three));
   EGet 0 (mk_response 206 [] (Some [6; 7]))].
Fixpoint run_net (es : list (event (list Z))) (s : NetworkReaderImpl (list Z) * list (Z * nat)) :=
  match es with
  | [] => s
  | e :: rest => match handle e s.1 with Ok (_, n') => run_net rest (n', s.2 ++ asked_of e) | Fault _ => s end
  end.
Definition net_final : NetworkReaderImpl (list Z) := (run_net (net_events with_ranges) (new_network_reader, [])).1.
Example net_final_replies : replies net_final = [(0, 1%nat, (OK, Some [5; 6; 7])); (1, 0%nat, (OK, Some [6; 7]))].
Proof. reflexivity. Qed.
Example range_header : range_headers 18446744073709551615 = [("Range", "bytes=18446744073709551615-")%string].
Proof. reflexivity. Qed.
Example no_ranges_refused :
  replies (run_net [EReadAt 1 0; EHead (head_of no_ranges)] (new_network_reader, [])).1 = [(1, 0%nat, (INVALID_ARGUMENT, None))].
Proof. reflexivity. Qed.

(** A response that ignores the range: the bytes at 0 are taken for those at the position. *)
Definition ignores_range : URLResponse (list Z) := mk_response 200 [] (Some three).
Example range_ignored :
  replies (run_net [EHead (head_of with_ranges); EReadAt 1 0; EGet 0 ignores_range] (new_network_reader, [])).1 =
    [(1, 0%nat, (OK, Some [5; 6; 7]))].
Proof. reflexivity. Qed.
(** A length that is not a number ends the process. *)
Example length_not_a_number :
  handle (EHead (mk_response (body := list Z) 200 [("Content-Length", "unknown")%string] None)) new_network_reader = Fault Aborted.
Proof. reflexivity. Qed.
(** A refused request is the result of a read that another response answers. *)
Example refusal_sticks :
  replies (run_net [EHead (head_of with_ranges); EReadAt 0 0; EReadAt 0 1; EGet 1 (mk_response 503 [] None); EGet 0 ignores_range]
    (new_network_reader, [])).1 = [(0, 1%nat, (UNKNOWN_ERROR, None)); (0, 0%nat, (UNKNOWN_ERROR, Some [5; 6; 7]))].
Proof. reflexivity. Qed.

Fixpoint net_fine (es : list (event (list Z))) (s : NetworkReaderImpl (list Z) * list (Z * nat)) : Prop :=
  match es with
  | [] => True
  | e :: rest => allowed (head_of with_ranges) three_answers s.1 e ∧ is_ok (handle e s.1) = true ∧ net_fine rest (run_net [e] s)
  end.
Lemma net_fine_steps es s : net_fine es s → rtc (net_step (head_of with_ranges) three_answers) s (run_net es s).
Proof.
  revert s. induction es as [|e es IH]; intros [n reqs]; [constructor|]. intros (Ha & Hok & Hf). cbn in *.
  destruct (handle e n) as [[[] n']|] eqn:E; [|done]. apply (rtc_l _ _ (n', reqs ++ asked_of e)); [by constructor|]. by apply IH.
Qed.
Lemma net_run : rtc (net_step (head_of with_ranges) three_answers) (new_network_reader, []) (net_final, [(1, 0%nat); (0, 1%nat)]).
Proof.
  assert (run_net (net_events with_ranges) (new_network_reader, []) = (net_final, [(1, 0%nat); (0, 1%nat)])) as <- by (vm_compute; reflexivity).
  apply net_fine_steps. unfold net_events.
  split; [by vm_compute|split; [vm_compute; reflexivity|]].
  split; [split; [by eexists|reflexivity]|split; [vm_compute; reflexivity|]].
  split; [exact I|split; [vm_compute; reflexivity|]].
  split; [by vm_compute|split; [vm_compute; reflexivity|]].
  split; [eexists _, _; split; [vm_compute; reflexivity|by left]|split; [vm_compute; reflexivity|]].
  split; [eexists _, _; split; [vm_compute; reflexivity|]|split; [vm_compute; reflexivity|exact I]].
  right. exists "1"%string, 1. split_and!; reflexivity.
Qed.
Lemma head_lengths v : (kContentLengthHeaderName, v) ∈ headers (head_of with_ranges) → ∃ k, 0 ≤ k ≤ max_u64 ∧ v = decimal k.
Proof.
  unfold head_of, with_ranges. cbn [headers]. intros [E|[E|[E|Hv]%elem_of_cons]%elem_of_cons]%elem_of_cons; simplify_eq; [|by inversion Hv].
  exists 3. split; [by vm_compute|done].
Qed.
Lemma three_bodies req resp : three_answers req resp → good resp → is_Some (response_body resp).
Proof. intros [[_ ->]|(v & p & _ & _ & ->)] _; by eexists. Qed.
Lemma range_value v v' : [(kRangeHeaderName, ("bytes=" ++ v ++ "-")%string)] = [(kRangeHeaderName, ("bytes=" ++ v' ++ "-")%string)] → v = v'.
Proof.
  intros [= E]. revert v' E. induction v as [|c v IH]; intros [|c' v'] E; [done| | |].
  - by destruct v'.
  - by destruct v.
  - injection E as -> E. f_equal. by apply IH.
Qed.
Lemma network_reads_witness :
  rtc (net_step (head_of with_ranges) three_answers) (new_network_reader, []) (net_final, [(1, 0%nat); (0, 1%nat)]) ∧
  Forall (answered (head_of with_ranges) three_answers) (replies net_final) ∧ length (replies net_final) = 2%nat ∧
  Forall (λ x, ∀ h, x.2.2 = Some h → h = drop (Z.to_nat x.1.1) three) (replies net_final).
Proof.
  split; [exact net_run|].
  destruct (network_reads (head_of with_ranges) three_answers head_lengths three_bodies _ _ net_run) as (_ & _ & _ & H1 & _ & H2).
  split; [exact H1|]. split; [reflexivity|]. apply (H2 (λ h p, h = drop (Z.to_nat p) three)).
  intros p req resp h [Hm Hr] [[-> ->]|(v & q & -> & Hq & ->)] _ [= <-]; cbn [request_headers] in Hr.
  - destruct (Z.eqb_spec p 0) as [Ep|]; [by rewrite Ep|]. by destruct Hr as (v & ? & _).
  - destruct (Z.eqb_spec p 0) as [Ep|]; [done|]. destruct Hr as (v' & Ev & Hp). apply range_value in Ev. subst v'. congruence.
Defined.
End Example.
End NetworkReader.
