(* ===== verification/Publisher.v ===== *)
(** Pull mode publishing: clients ask for what is newer than the version they have seen
    (services/media/factory_service/mojo_publisher.h).

    The publisher is a member of some larger state; the callback runner is a parameter. *)

From S2P Require Import Prelude.

Module Publisher.

Record MojoPublisher (C : Type) := mk_publisher {
  version_ : Z;
  pending_callbacks_ : list C;
  has_callback_runner : bool;
}.
Arguments mk_publisher {C}.
Arguments version_ {C}.
Arguments pending_callbacks_ {C}.
Arguments has_callback_runner {C}.

Definition new_publisher {C} : MojoPublisher C := mk_publisher 1 [] false.

Section Publisher.
Context {W C : Type} (callback_runner : C → Z → prog W unit) (pub : W → MojoPublisher C)
  (put : MojoPublisher C → W → W) `{BD : Build}.

Definition SetCallbackRunner : prog W unit :=
  modS (λ w, put (mk_publisher (version_ (pub w)) (pending_callbacks_ (pub w)) true) w).

Definition Get (version_last_seen : Z) (callback : C) : prog W unit :=
  w ← getS;
  _ ← dcheckS (has_callback_runner (pub w));
  if version_last_seen <? version_ (pub w) then callback_runner callback (version_ (pub w))
  else modS (λ w, put (mk_publisher (version_ (pub w)) (pending_callbacks_ (pub w) ++ [callback])
                         (has_callback_runner (pub w))) w).

(** The loop reads [version_] afresh for each callback. *)
Fixpoint run_pending (pending : list C) : prog W unit :=
  match pending with
  | [] => mret tt
  | callback :: pending =>
      w ← getS;
      _ ← callback_runner callback (version_ (pub w));
      run_pending pending
  end.
Definition SendUpdates : prog W unit :=
  w ← getS;
  _ ← dcheckS (has_callback_runner (pub w));
  _ ← modS (λ w, put (mk_publisher (u64 (version_ (pub w) + 1)) (pending_callbacks_ (pub w)) (has_callback_runner (pub w))) w);
  w ← getS;
  let pending := pending_callbacks_ (pub w) in
  _ ← modS (λ w, put (mk_publisher (version_ (pub w)) [] (has_callback_runner (pub w))) w);
  run_pending pending.

End Publisher.

(** ** What publishers do *)

(** A publisher whose runner records its calls; a request has a number and the version that
    its client has seen. *)
Record request := mk_request { number : nat; last_seen : Z }.
Record history := mk_history {
  publisher : MojoPublisher request;
  asked : list request;
  answered : list (request * Z);
  updates : nat;
}.
Definition put_publisher (p : MojoPublisher request) h : history := mk_history p (asked h) (answered h) (updates h).
Definition record_answer (r : request) (version : Z) : prog history unit := modS (λ h,
  mk_history (publisher h) (asked h) ((r, version) :: answered h) (updates h)).
Definition opened : history := mk_history (mk_publisher 1 [] true) [] [] 0.

Section History.
Context `{BD : Build}.

Inductive call := CallGet (r : request) | CallSendUpdates.
Definition perform (k : call) : prog history unit :=
  match k with
  | CallGet r =>
      _ ← modS (λ h, mk_history (publisher h) (r :: asked h) (answered h) (updates h));
      Get record_answer publisher put_publisher (last_seen r) r
  | CallSendUpdates =>
      _ ← modS (λ h, mk_history (publisher h) (asked h) (answered h) (S (updates h)));
      SendUpdates record_answer publisher put_publisher
  end.

(** Clients pass versions that they were given, or zero. *)
Definition allowed (k : call) h : Prop :=
  match k with
  | CallGet r => last_seen r ≤ version_ (publisher h)
  | CallSendUpdates => Z.of_nat (updates h) < 2 ^ 64 - 2
  end.

Record publisher_ok h : Prop := {
  po_runner : has_callback_runner (publisher h) = true;
  po_version : version_ (publisher h) = Z.of_nat (updates h) + 1;
  po_range : Z.of_nat (updates h) < 2 ^ 64 - 1;
  po_once : asked h ≡ₚ pending_callbacks_ (publisher h) ++ map fst (answered h);
  po_newer : Forall (λ a, last_seen a.1 < a.2 ≤ version_ (publisher h)) (answered h);
  po_pending : Forall (λ r, last_seen r = version_ (publisher h)) (pending_callbacks_ (publisher h));
}.

Lemma run_pending_records rs h :
  run_pending record_answer publisher rs h =
    Ok (tt, mk_history (publisher h) (asked h) (rev (map (λ r, (r, version_ (publisher h))) rs) ++ answered h) (updates h)).
Proof.
  revert h. induction rs as [|r rs IH]; intros h; cbn [run_pending map rev app].
  - by destruct h.
  - etrans; [exact (IH (mk_history (publisher h) (asked h) ((r, version_ (publisher h)) :: answered h) (updates h)))|].
    cbn. by rewrite <- app_assoc.
Qed.

Lemma SendUpdates_runs h : publisher_ok h → allowed CallSendUpdates h →
  runs (perform CallSendUpdates) h (λ _ h', publisher_ok h' ∧ pending_callbacks_ (publisher h') = []).
Proof.
  intros [Hr Hv Hg Ho Hn Hp] Ha. destruct h as [[v ps b] aa an u]. cbn in *. subst b.
  unfold perform. apply runs_mod. unfold SendUpdates. apply runs_get. cbn. apply runs_dcheck; [done|].
  apply runs_mod, runs_get. cbn. apply runs_mod. cbn. rewrite uwrap_small by (unfold is_u; lia).
  eexists tt, _. split; [apply run_pending_records|]. cbn. split; [|done]. split; cbn; try done; try lia.
  - rewrite Ho, map_app, map_rev, map_map. cbn. rewrite map_id. by rewrite <- (Permutation_rev ps).
  - apply Forall_app_2.
    + apply Forall_rev, Forall_map. eapply Forall_impl; [exact Hp|]. cbn. lia.
    + eapply Forall_impl; [exact Hn|]. cbn. lia.
Qed.

Lemma publisher_perform_ok k h : publisher_ok h → allowed k h → runs (perform k) h (λ _ h', publisher_ok h').
Proof.
  intros Hh Ha. destruct k as [r|]; [|by eapply runs_mono; [by apply SendUpdates_runs|intros ? ? []]].
  destruct Hh as [Hr Hv Hg Ho Hn Hp]. destruct h as [[v ps b] aa an u]. cbn in *. subst b.
  unfold perform. apply runs_mod. unfold Get. apply runs_get. cbn. apply runs_dcheck; [done|].
  destruct (Z.ltb_spec (last_seen r) v); apply runs_mod_last; split; cbn; try done.
  - rewrite Ho. by rewrite <- Permutation_middle.
  - constructor; [cbn; lia|done].
  - rewrite Ho. rewrite <- app_assoc. by rewrite Permutation_middle.
  - apply Forall_app_2; [done|]. constructor; [lia|done].
Qed.

Inductive performed : history → Prop :=
  | performed_none : performed opened
  | performed_call k h h' : performed h → allowed k h → perform k h = Ok (tt, h') → performed h'.

Lemma performed_ok h : performed h → publisher_ok h.
Proof.
  induction 1 as [|k h h' _ IH Ha E]; [by split|].
  destruct (publisher_perform_ok k h IH Ha) as ([] & h2 & E2 & Hok). rewrite E in E2. by injection E2 as <-.
Qed.

(** Publishing delivers.  After any requests of clients that pass versions they were
    given, and any updates, every request was answered once or waits; an answer is newer
    than what its client had seen; only clients that have seen the current version wait; and
    one more update answers every client that waits. *)
Lemma publisher_delivers h :
  performed h →
  asked h ≡ₚ pending_callbacks_ (publisher h) ++ map fst (answered h) ∧
  Forall (λ a, last_seen a.1 < a.2 ≤ version_ (publisher h)) (answered h) ∧
  Forall (λ r, last_seen r = version_ (publisher h)) (pending_callbacks_ (publisher h)) ∧
  (Z.of_nat (updates h) < 2 ^ 64 - 2 →
   ∃ h', perform CallSendUpdates h = Ok (tt, h') ∧ pending_callbacks_ (publisher h') = [] ∧
     map fst (answered h') ≡ₚ asked h').
Proof.
  intros Hh%performed_ok. pose proof Hh as [Hr Hv Hg Ho Hn Hp]. split_and!; [done..|]. intros Hu.
  destruct (SendUpdates_runs h Hh Hu) as ([] & h' & E & Hh' & Hnil).
  exists h'. split_and!; [done..|]. by rewrite (po_once _ Hh'), Hnil.
Qed.

End History.

(** A client asks for the first status, gets it, asks for the next one and waits for it. *)
Lemma publisher_delivers_witness :
  ∃ h, @performed debug_build h ∧ pending_callbacks_ (publisher h) = [mk_request 1 1] ∧
    answered h = [(mk_request 0 0, 1)] ∧
    asked h ≡ₚ pending_callbacks_ (publisher h) ++ map fst (answered h).
Proof.
  exists (mk_history (mk_publisher 1 [mk_request 1 1] true) [mk_request 1 1; mk_request 0 0] [(mk_request 0 0, 1)] 0).
  assert (@performed debug_build
    (mk_history (mk_publisher 1 [mk_request 1 1] true) [mk_request 1 1; mk_request 0 0] [(mk_request 0 0, 1)] 0)) as H.
  { apply (performed_call (CallGet (mk_request 1 1)) (mk_history (mk_publisher 1 [] true) [mk_request 0 0] [(mk_request 0 0, 1)] 0));
      [|cbn; lia|reflexivity].
    apply (performed_call (CallGet (mk_request 0 0)) opened); [constructor|cbn; lia|reflexivity]. }
  split; [exact H|split; [done|split; [done|]]]. apply (publisher_delivers _ H).
Defined.

End Publisher.
