(* ===== verification/SparseByteBuffer.v ===== *)
(** [SparseByteBuffer] of services/media/framework/parts: a byte buffer of known
    size that is filled in pieces.  [holes_] maps positions to the sizes of the
    parts not yet filled, [regions_] maps positions to the parts that are.

    The theorems show that holes and regions always partition the buffer, what each
    search returns on every branch, and that filling refines the abstract view of
    the buffer as a partial array of bytes. *)

From S2P Require Import Prelude StdMap.

Module SparseByteBuffer.
Import StdMap.

(** The members of the class. *)
Record state := mk_state {
  size_ : Z;
  holes_ : gmap Z Z;
  regions_ : gmap Z (list Z);
}.

(** A [Hole] or a [Region] is an iterator. *)
Abbreviation iterator := (option Z).
Definition null_hole : iterator := None.
Definition null_region : iterator := None.

(** [iter->second]; dereferencing [end()] or an erased element is undefined. *)
Definition second {V} (m : gmap Z V) (i : iterator) : outcome V :=
  match i with
  | None => Fault UndefinedBehaviour
  | Some k => match m !! k with Some v => Ok v | None => Fault UndefinedBehaviour end
  end.
Definition first (i : iterator) : outcome Z :=
  match i with None => Fault UndefinedBehaviour | Some k => Ok k end.

Definition len (b : list Z) : Z := Z.of_nat (length b).

(** [Initialize] *)
Definition Initialize (size : Z) : state := mk_state size {[0 := size]} ∅.

Section WithBuild.
Context `{Build}.

(** The search at the end of [FindRegionContaining]. *)
Definition search_region (position : Z) (s : state) : outcome iterator :=
  let m := regions_ s in
  let iter := lower_bound m position in
  if negb (bool_decide (iter = begin_ m)) &&
     match iter with None => true | Some k => position <? k end
  then
    let iter := pred m iter in
    k ← first iter;
    v ← second m iter;
    _ ← dcheck (k <=? position);
    Ok (if u64 (k + len v) <=? position then None else iter)
  else Ok iter.

(** [FindRegionContaining] *)
Definition FindRegionContaining (position : Z) (hint : iterator) (s : state) : outcome iterator :=
  _ ← dcheck (0 <? size_ s);
  _ ← dcheck (position <? size_ s);
  let m := regions_ s in
  match hint with
  | Some k =>
      v ← second m hint;
      if k <=? position then
        if u64 (k + len v) <=? position then
          match succ m k with
          | Some k' =>
              v' ← second m (Some k');
              if (k' <=? position) && (position <? u64 (k' + len v')) then Ok (Some k')
              else search_region position s
          | None => search_region position s
          end
        else Ok (Some k)
      else search_region position s
  | None => search_region position s
  end.

(** [FindHoleContaining] *)
Definition FindHoleContaining (position : Z) (s : state) : outcome iterator :=
  _ ← dcheck (0 <? size_ s);
  let m := holes_ s in
  let iter := lower_bound m position in
  if negb (bool_decide (iter = begin_ m)) &&
     match iter with None => true | Some k => position <? k end
  then
    let iter := pred m iter in
    k ← first iter;
    v ← second m iter;
    _ ← dcheck (k <=? position);
    Ok (if u64 (k + v) <? position then None else iter)
  else Ok iter.

(** [FindOrCreateHole] *)
Definition FindOrCreateHole (position : Z) (hint : iterator) (s : state) :
    outcome (iterator * state) :=
  _ ← dcheck (0 <? size_ s);
  _ ← dcheck (bool_decide (holes_ s ≠ ∅));
  let m := holes_ s in
  let result := match hint with None => begin_ m | Some _ => hint end in
  k ← first result;
  v ← second m result;
  if k =? position then Ok (result, s)
  else
    result ← (if (position <? k) || (u64 (k + v) <=? position) then
                r ← FindHoleContaining position s;
                _ ← dcheck (bool_decide (r ≠ None));
                Ok r
              else Ok result);
    k ← first result;
    v ← second m result;
    if k =? position then Ok (result, s)
    else
      _ ← dcheck (k <? position);
      let front_size := u64 (position - k) in
      _ ← dcheck (front_size <? v);
      let back_size := u64 (v - front_size) in
      let m := insert_new position back_size (<[k := front_size]> m) in
      Ok (Some position, mk_state (size_ s) m (regions_ s)).

(** The loop of [Fill]: removes [buffer_size] bytes at [position] from the holes. *)
Fixpoint fill_loop (fuel : nat) (iter : iterator) (position buffer_size : Z) (m : gmap Z Z) :
    outcome (iterator * gmap Z Z) :=
  if buffer_size =? 0 then Ok (iter, m)
  else
    match fuel with
    | O => Fault OutOfFuel
    | S fuel =>
        _ ← dcheck (bool_decide (iter ≠ None));
        k ← first iter;
        v ← second m iter;
        _ ← dcheck (k =? position);
        let '(position, buffer_size, m) :=
          if buffer_size <? v
          then (u64 (position + buffer_size), 0,
                insert_new (u64 (k + buffer_size)) (u64 (v - buffer_size)) m)
          else (u64 (position + v), u64 (buffer_size - v), m) in
        let iter := succ m k in
        let m := delete k m in
        iter ← (match iter with
                | None => _ ← dcheck (buffer_size =? 0); Ok (begin_ m)
                | Some _ => Ok iter
                end);
        fill_loop fuel iter position buffer_size m
    end.

(** [Fill] *)
Definition Fill (hole : iterator) (buffer : list Z) (s : state) : outcome (iterator * state) :=
  _ ← dcheck (0 <? size_ s);
  _ ← dcheck (bool_decide (hole ≠ None));
  _ ← dcheck (negb (len buffer =? 0));
  v ← second (holes_ s) hole;
  _ ← dcheck (len buffer <=? v);
  position ← first hole;
  let regions := insert_new position buffer (regions_ s) in
  '(iter, holes) ← fill_loop (S (size (holes_ s))) hole position (len buffer) (holes_ s);
  Ok (iter, mk_state (size_ s) holes regions).

(** ** The partition of the buffer *)

Definition in_hole (s : state) (p : Z) : Prop :=
  ∃ k v, holes_ s !! k = Some v ∧ k ≤ p < k + v.
Definition in_region (s : state) (p : Z) : Prop :=
  ∃ k b, regions_ s !! k = Some b ∧ k ≤ p < k + len b.

Record inv (s : state) : Prop := {
  inv_size : 0 < size_ s < 2 ^ 63;
  inv_hole k v : holes_ s !! k = Some v → 0 ≤ k ∧ 0 < v ∧ k + v ≤ size_ s;
  inv_region k b : regions_ s !! k = Some b → 0 ≤ k ∧ 0 < len b ∧ k + len b ≤ size_ s;
  inv_holes k v k' v' : holes_ s !! k = Some v → holes_ s !! k' = Some v' → k < k' → k + v ≤ k';
  inv_regions k b k' b' :
    regions_ s !! k = Some b → regions_ s !! k' = Some b' → k < k' → k + len b ≤ k';
  inv_cover p : 0 ≤ p < size_ s → in_hole s p ∨ in_region s p;
  inv_apart p : in_hole s p → in_region s p → False;
}.

(** The buffer as a partial array of bytes. *)
Definition holds_byte (s : state) (p c : Z) : Prop :=
  ∃ k b, regions_ s !! k = Some b ∧ k ≤ p ∧ b !! Z.to_nat (p - k) = Some c.

(** ** Searches *)

(** [hint] is [end()] or an element of the map. *)
Definition valid_iter {V} (m : gmap Z V) (i : iterator) : Prop :=
  match i with None => True | Some k => is_Some (m !! k) end.

(** The region found for [p]. *)
Definition region_found (s : state) (p : Z) (r : iterator) : Prop :=
  (∀ k b, regions_ s !! k = Some b → k ≤ p < k + len b → r = Some k) ∧
  (¬ in_region s p → r = None ∨ ∃ k, r = Some k ∧ begin_ (regions_ s) = Some k ∧ p < k).

Lemma region_unique s p k b k' b' :
  inv s → regions_ s !! k = Some b → k ≤ p < k + len b →
  regions_ s !! k' = Some b' → k' ≤ p < k' + len b' → k = k'.
Proof.
  intros I Hk Hp Hk' Hp'. destruct (Z.lt_total k k') as [?|[?|?]]; [|done|].
  - pose proof (inv_regions _ I _ _ _ _ Hk Hk' ltac:(done)). lia.
  - pose proof (inv_regions _ I _ _ _ _ Hk' Hk ltac:(done)). lia.
Qed.

Lemma hole_unique s p k v k' v' :
  inv s → holes_ s !! k = Some v → k ≤ p < k + v →
  holes_ s !! k' = Some v' → k' ≤ p < k' + v' → k = k'.
Proof.
  intros I Hk Hp Hk' Hp'. destruct (Z.lt_total k k') as [?|[?|?]]; [|done|].
  - pose proof (inv_holes _ I _ _ _ _ Hk Hk' ltac:(done)). lia.
  - pose proof (inv_holes _ I _ _ _ _ Hk' Hk ltac:(done)). lia.
Qed.

Lemma search_region_run s p :
  inv s → 0 ≤ p < size_ s → ∃ r, search_region p s = Ok r ∧ region_found s p r.
Proof.
  intros I Hp. unfold search_region.
  match goal with |- context [if ?c then _ else _] => destruct c eqn:Hc end.
  - apply andb_true_iff in Hc as [Hne Hpast].
    apply negb_true_iff, bool_decide_eq_false in Hne.
    destruct (pred_lower_bound _ _ Hne Hpast) as (k & -> & [b Hk] & Hkp & Hmax).
    destruct (inv_region _ I _ _ Hk) as (? & ? & ?). pose proof (inv_size _ I).
    unfold second. rewrite Hk. cbn [first mbind outcome_bind]. rewrite dcheck_true by lia.
    cbn [mbind outcome_bind]. rewrite uwrap_small by (unfold is_u; lia).
    eexists. split; [done|]. split.
    + intros k' b' Hk' Hin. assert (k' ≤ k) by (apply Hmax; [eauto|lia]).
      destruct (decide (k' = k)) as [->|].
      * simplify_eq. destruct (Z.leb_spec (k + len b) p); [lia|done].
      * pose proof (inv_regions _ I _ _ _ _ Hk' Hk ltac:(lia)). lia.
    + intros Hno. left. destruct (Z.leb_spec (k + len b) p); [done|].
      exfalso. apply Hno. exists k, b. split; [done|lia].
  - exists (lower_bound (regions_ s) p). split; [done|].
    destruct (lower_bound_stays _ _ Hc) as [[-> [b Hb]]|[(k & -> & Hbeg & [b Hk] & Hpk & Hmin)|[-> Hno]]].
    + destruct (inv_region _ I _ _ Hb) as (? & ? & ?). split.
      * intros k' b' Hk' Hin. f_equal. eapply (region_unique s p p b k' b'); [done|done|lia|done|done].
      * intros Hno. exfalso. apply Hno. exists p, b. split; [done|lia].
    + split.
      * intros k' b' Hk' Hin. specialize (Hmin k' (mk_is_Some _ _ Hk')). lia.
      * intros _. right. eauto.
    + split.
      * intros k' b' Hk' _. destruct (Hno k'). eauto.
      * by left.
Qed.

Lemma FindRegion_run s p hint :
  inv s → 0 ≤ p < size_ s → valid_iter (regions_ s) hint →
  ∃ r, FindRegionContaining p hint s = Ok r ∧ region_found s p r.
Proof.
  intros I Hp Hh. pose proof (inv_size _ I). unfold FindRegionContaining.
  rewrite !dcheck_true by lia. cbn [mbind outcome_bind].
  destruct (search_region_run s p I Hp) as (r & Er & Hr).
  assert (Hfound : ∀ k b, regions_ s !! k = Some b → k ≤ p < k + len b → region_found s p (Some k)).
  { intros k b Hk Hin. split.
    - intros k' b' Hk' Hin'. f_equal. by eapply region_unique.
    - intros Hno. exfalso. apply Hno. by exists k, b. }
  destruct hint as [k|]; [|eauto]. destruct Hh as [b Hk]. cbn [second]. rewrite Hk.
  cbn [mbind outcome_bind]. destruct (inv_region _ I _ _ Hk) as (? & ? & ?).
  destruct (Z.leb_spec k p); [|eauto].
  rewrite uwrap_small by (unfold is_u; lia). destruct (Z.leb_spec (k + len b) p).
  - pose proof (least_spec (λ j, k <? j) (regions_ s)) as Hs. fold (succ (regions_ s) k) in Hs.
    destruct (succ (regions_ s) k) as [k'|]; [|eauto]. destruct Hs as ([b' Hk'] & _ & _).
    cbn [second]. rewrite Hk'. cbn [mbind outcome_bind].
    destruct (inv_region _ I _ _ Hk') as (? & ? & ?).
    rewrite uwrap_small by (unfold is_u; lia).
    destruct ((k' <=? p) && (p <? k' + len b')) eqn:E; [|eauto].
    exists (Some k'). split; [done|]. eapply Hfound; [done|lia].
  - exists (Some k). split; [done|]. eapply Hfound; [done|lia].
Qed.

(** With any valid hint, [FindRegionContaining] returns the region that contains
    the position when there is one.  When there is none it returns [null_region()],
    except for a position before the first region: then it returns that region,
    which does not contain the position. *)
Lemma FindRegionContaining_spec s p hint :
  inv s → 0 ≤ p < size_ s → valid_iter (regions_ s) hint →
  ∃ r, FindRegionContaining p hint s = Ok r ∧ region_found s p r ∧
    (¬ in_region s p → (∀ k, is_Some (regions_ s !! k) → k < p) → r = None).
Proof.
  intros I Hp Hh. destruct (FindRegion_run s p hint I Hp Hh) as (r & E & Hf).
  exists r. split_and!; [done..|]. intros Hno Hall. destruct (proj2 Hf Hno) as [|(k & -> & Hb & Hlt)];
    [done|]. pose proof (least_spec (λ _, true) (regions_ s)) as Hl.
  fold (begin_ (regions_ s)) in Hl. rewrite Hb in Hl. destruct Hl as (Hk & _ & _).
  specialize (Hall k Hk). lia.
Qed.

(** The hole found for [p]. *)
Lemma FindHole_run s p :
  inv s → 0 ≤ p →
  ∃ r, FindHoleContaining p s = Ok r ∧
    (∀ k v, holes_ s !! k = Some v → k ≤ p < k + v → r = Some k) ∧
    (¬ in_hole s p → r = None ∨
       ∃ k v, r = Some k ∧ holes_ s !! k = Some v ∧ (k + v = p ∨ begin_ (holes_ s) = Some k ∧ p < k)).
Proof.
  intros I Hp. pose proof (inv_size _ I). unfold FindHoleContaining.
  rewrite dcheck_true by lia. cbn [mbind outcome_bind].
  match goal with |- context [if ?c then _ else _] => destruct c eqn:Hc end.
  - apply andb_true_iff in Hc as [Hne Hpast].
    apply negb_true_iff, bool_decide_eq_false in Hne.
    destruct (pred_lower_bound _ _ Hne Hpast) as (k & -> & [v Hk] & Hkp & Hmax).
    destruct (inv_hole _ I _ _ Hk) as (? & ? & ?).
    unfold second. rewrite Hk. cbn [first mbind outcome_bind]. rewrite dcheck_true by lia.
    cbn [mbind outcome_bind]. rewrite uwrap_small by (unfold is_u; lia).
    eexists. split; [done|]. split.
    + intros k' v' Hk' Hin. assert (k' ≤ k) by (apply Hmax; [eauto|lia]).
      destruct (decide (k' = k)) as [->|].
      * simplify_eq. destruct (Z.ltb_spec (k + v) p); [lia|done].
      * pose proof (inv_holes _ I _ _ _ _ Hk' Hk ltac:(lia)). lia.
    + intros Hno. destruct (Z.ltb_spec (k + v) p); [by left|]. right. exists k, v.
      split_and!; [done..|]. left. destruct (decide (k + v = p)); [done|].
      exfalso. apply Hno. exists k, v. split; [done|lia].
  - exists (lower_bound (holes_ s) p). split; [done|].
    destruct (lower_bound_stays _ _ Hc) as [[-> [v Hv]]|[(k & -> & Hbeg & [v Hk] & Hpk & Hmin)|[-> Hno]]].
    + destruct (inv_hole _ I _ _ Hv) as (? & ? & ?). split.
      * intros k' v' Hk' Hin. f_equal. eapply (hole_unique s p p v k' v'); [done|done|lia|done|done].
      * intros Hno. exfalso. apply Hno. exists p, v. split; [done|lia].
    + split.
      * intros k' v' Hk' Hin. specialize (Hmin k' (mk_is_Some _ _ Hk')). lia.
      * intros _. right. eauto 8.
    + split.
      * intros k' v' Hk' _. destruct (Hno k'). eauto.
      * by left.
Qed.

(** ** Splitting and filling holes *)

Section Split.
Context (s : state) (I : inv s) (k v : Z) (Hk : holes_ s !! k = Some v).

(** The holes after the hole [k] is cut at [q]. *)
Definition split_holes (q : Z) : gmap Z Z := <[q := k + v - q]> (<[k := q - k]> (holes_ s)).

Lemma split_lookup q j w :
  k < q < k + v →
  split_holes q !! j = Some w ↔
  (j = q ∧ w = k + v - q) ∨ (j = k ∧ w = q - k) ∨ (j ≠ q ∧ j ≠ k ∧ holes_ s !! j = Some w).
Proof.
  intros Hq. unfold split_holes. destruct (decide (j = q)) as [->|].
  - rewrite lookup_insert_eq. naive_solver lia.
  - rewrite lookup_insert_ne by done. destruct (decide (j = k)) as [->|].
    + rewrite lookup_insert_eq. naive_solver lia.
    + rewrite lookup_insert_ne by done. naive_solver.
Qed.

Lemma split_fresh q : k < q < k + v → holes_ s !! q = None.
Proof.
  intros Hq. destruct (holes_ s !! q) as [w|] eqn:E; [|done].
  pose proof (inv_holes _ I _ _ _ _ Hk E ltac:(lia)). lia.
Qed.

Lemma split_inv q :
  k < q < k + v →
  let s' := mk_state (size_ s) (split_holes q) (regions_ s) in
  inv s' ∧ (∀ p, in_hole s' p ↔ in_hole s p).
Proof.
  intros Hq s'. destruct (inv_hole _ I _ _ Hk) as (Hk0 & Hv & Hkv).
  assert (Hcov : ∀ p, in_hole s' p ↔ in_hole s p).
  { intros p. split.
    - intros (j & w & Hj & Hin). cbn in Hj.
      apply split_lookup in Hj as [[-> ->]|[[-> ->]|(_ & _ & Hj)]]; [| |by exists j, w|done].
      + exists k, v. split; [done|lia].
      + exists k, v. split; [done|lia].
    - intros (j & w & Hj & Hin). destruct (decide (j = k)) as [->|].
      + simplify_eq. destruct (Z.lt_ge_cases p q).
        * exists k, (q - k). cbn. rewrite split_lookup by done. split; [naive_solver|lia].
        * exists q, (k + v - q). cbn. rewrite split_lookup by done. split; [naive_solver|lia].
      + exists j, w. cbn. rewrite split_lookup by done. split; [|done]. right; right.
        split_and!; [|done|done]. intros ->. rewrite split_fresh in Hj; done. }
  split; [|done]. split; cbn; try apply I.
  - intros j w [[-> ->]|[[-> ->]|(_ & _ & Hj)]]%split_lookup; [lia|lia| |done].
    by apply (inv_hole _ I).
  - intros j w j' w' Hj Hj' Hlt. apply split_lookup in Hj; [|done]. apply split_lookup in Hj'; [|done].
    destruct Hj as [[-> ->]|[[-> ->]|(? & ? & Hj)]], Hj' as [[-> ->]|[[-> ->]|(? & ? & Hj')]];
      try lia.
    + pose proof (inv_holes _ I _ _ _ _ Hk Hj' ltac:(lia)). lia.
    + destruct (Z.lt_total j' k) as [?|[?|?]]; [lia|done|].
      pose proof (inv_holes _ I _ _ _ _ Hk Hj' ltac:(lia)). lia.
    + destruct (Z.lt_total j k) as [?|[?|?]]; [|done|].
      * pose proof (inv_holes _ I _ _ _ _ Hj Hk ltac:(lia)). lia.
      * pose proof (inv_holes _ I _ _ _ _ Hk Hj ltac:(lia)). lia.
    + pose proof (inv_holes _ I _ _ _ _ Hj Hk ltac:(lia)). lia.
    + by eapply (inv_holes _ I).
  - intros p Hp. rewrite Hcov. by apply (inv_cover _ I).
  - intros p Hh. rewrite Hcov in Hh. by apply (inv_apart _ I).
Qed.

End Split.

Lemma FindOrCreateHole_run s p hint :
  inv s → in_hole s p → valid_iter (holes_ s) hint →
  ∃ s', FindOrCreateHole p hint s = Ok (Some p, s') ∧ inv s' ∧ is_Some (holes_ s' !! p) ∧
    regions_ s' = regions_ s ∧ (∀ q, in_hole s' q ↔ in_hole s q) ∧
    (∀ j, is_Some (holes_ s !! j) → is_Some (holes_ s' !! j)) ∧ size_ s' = size_ s.
Proof.
  intros I (k & v & Hk & Hin) Hh. pose proof (inv_size _ I) as Hsz.
  destruct (inv_hole _ I _ _ Hk) as (Hk0 & Hv & Hkv). unfold FindOrCreateHole.
  rewrite (dcheck_true (0 <? size_ s)) by lia. cbn [mbind outcome_bind].
  assert (Hne : holes_ s ≠ ∅) by (intros E; by rewrite E, lookup_empty in Hk).
  rewrite dcheck_true by by apply bool_decide_eq_true. cbn [mbind outcome_bind].
  set (h := match hint with None => begin_ (holes_ s) | Some _ => hint end).
  assert (Hhk : ∃ j w, h = Some j ∧ holes_ s !! j = Some w).
  { unfold h. destruct hint as [j|]; [destruct Hh as [w Hw]; eauto|].
    pose proof (least_spec (λ _, true) (holes_ s)) as Hl. fold (begin_ (holes_ s)) in Hl.
    destruct (begin_ (holes_ s)) as [j|]; [destruct Hl as ([w ?] & _ & _); eauto|].
    specialize (Hl k (mk_is_Some _ _ Hk)). done. }
  destruct Hhk as (j & w & -> & Hj). cbn [first second]. rewrite Hj. cbn [mbind outcome_bind].
  destruct (inv_hole _ I _ _ Hj) as (Hj0 & Hw & Hjw). rewrite uwrap_small by (unfold is_u; lia).
  destruct (Z.eqb_spec j p) as [->|Hjp].
  { exists s. split_and!; eauto; done. }
  assert (Hres : (if (p <? j) || (j + w <=? p) then
      r ← FindHoleContaining p s; _ ← dcheck (bool_decide (r ≠ None)); Ok r
    else Ok (Some j)) = Ok (Some k)).
  { destruct ((p <? j) || (j + w <=? p)) eqn:E.
    - destruct (FindHole_run s p I ltac:(lia)) as (r & -> & Hr & _). cbn [mbind outcome_bind].
      rewrite (Hr k v Hk Hin). by rewrite dcheck_true.
    - apply orb_false_iff in E as [? ?]. do 2 f_equal.
      eapply (hole_unique s p j w k v); [done|done|lia|done|done]. }
  rewrite Hres. cbn [mbind outcome_bind first second]. rewrite Hk. cbn [mbind outcome_bind].
  destruct (Z.eqb_spec k p) as [->|Hkp].
  { exists s. split_and!; eauto; done. }
  rewrite (dcheck_true (k <? p)) by lia. cbn [mbind outcome_bind].
  rewrite (uwrap_small 64 (p - k)) by (unfold is_u; lia). rewrite dcheck_true by lia.
  cbn [mbind outcome_bind]. rewrite uwrap_small by (unfold is_u; lia).
  destruct (split_inv s I k v Hk p ltac:(lia)) as [I' Hcov].
  rewrite insert_new_fresh.
  2:{ rewrite lookup_insert_ne by done. apply (split_fresh s I k v Hk); lia. }
  exists (mk_state (size_ s) (split_holes s k v p) (regions_ s)). split_and!; try done.
  - unfold split_holes. by replace (v - (p - k)) with (k + v - p) by lia.
  - cbn. unfold split_holes. rewrite lookup_insert_eq. eauto.
  - intros i Hi. cbn. unfold split_holes. rewrite !lookup_insert_is_Some'. auto.
Qed.

(** For a position inside a hole and any valid hint, [FindOrCreateHole] returns
    a hole that starts at the position.  It changes no region and no byte's status;
    it only splits the hole when it starts earlier. *)
Lemma FindOrCreateHole_spec s p hint :
  inv s → in_hole s p → valid_iter (holes_ s) hint →
  ∃ s', FindOrCreateHole p hint s = Ok (Some p, s') ∧ inv s' ∧ is_Some (holes_ s' !! p) ∧
    regions_ s' = regions_ s ∧ (∀ q, in_hole s' q ↔ in_hole s q).
Proof.
  intros I Hp Hh. destruct (FindOrCreateHole_run s p hint I Hp Hh) as (s' & ? & ? & ? & ? & ? & _).
  eauto 10.
Qed.

Section FillOne.
Context (s : state) (I : inv s) (k v : Z) (Hk : holes_ s !! k = Some v).
Context (b : list Z) (Hb : 0 < len b ≤ v).

(** The holes after the first [len b] bytes of the hole [k] are filled. *)
Definition filled_holes : gmap Z Z :=
  if len b <? v then delete k (<[k + len b := v - len b]> (holes_ s)) else delete k (holes_ s).
Definition filled : state := mk_state (size_ s) filled_holes (<[k := b]> (regions_ s)).

Lemma filled_lookup j w :
  filled_holes !! j = Some w ↔
  (j = k + len b ∧ w = v - len b ∧ len b < v) ∨ (j ≠ k ∧ holes_ s !! j = Some w).
Proof using I Hk Hb.
  unfold filled_holes. destruct (Z.ltb_spec (len b) v).
  - assert (Hn : holes_ s !! (k + len b) = None) by (apply (split_fresh s I k v Hk); lia).
    rewrite lookup_delete_Some. destruct (decide (j = k + len b)) as [->|].
    + rewrite lookup_insert_eq. naive_solver lia.
    + rewrite lookup_insert_ne by done. naive_solver.
  - rewrite lookup_delete_Some. naive_solver lia.
Qed.

Lemma filled_in_hole p : in_hole filled p ↔ in_hole s p ∧ ¬ k ≤ p < k + len b.
Proof using I Hk Hb.
  split.
  - intros (j & w & [(-> & -> & Hlt)|[Hj Hw]]%filled_lookup & Hin).
    + split; [|lia]. exists k, v. split; [done|lia].
    + split; [by exists j, w|]. intros Hp. apply Hj.
      eapply (hole_unique s p j w k v); [done|done|done|done|lia].
  - intros [(j & w & Hj & Hin) Hp]. destruct (decide (j = k)) as [->|].
    + simplify_eq. exists (k + len b), (v - len b). cbn [filled holes_].
      rewrite filled_lookup. split; [left; lia|lia].
    + exists j, w. cbn [filled holes_]. rewrite filled_lookup. split; [naive_solver|done].
Qed.

Lemma filled_region_fresh : regions_ s !! k = None.
Proof using I Hk Hb.
  destruct (regions_ s !! k) as [b'|] eqn:E; [|done]. exfalso. apply (inv_apart _ I k).
  - exists k, v. split; [done|lia].
  - exists k, b'. destruct (inv_region _ I _ _ E). split; [done|lia].
Qed.

Lemma filled_in_region p : in_region filled p ↔ in_region s p ∨ k ≤ p < k + len b.
Proof using I Hk Hb.
  pose proof filled_region_fresh as Hfr. split.
  - intros (j & b' & Hj & Hin). cbn in Hj. destruct (decide (j = k)) as [->|].
    + rewrite lookup_insert_eq in Hj. simplify_eq. by right.
    + rewrite lookup_insert_ne in Hj by done. left. by exists j, b'.
  - intros [(j & b' & Hj & Hin)|Hin].
    + exists j, b'. cbn. rewrite lookup_insert_ne; [done|]. intros ->. congruence.
    + exists k, b. cbn. by rewrite lookup_insert_eq.
Qed.

(** A region never starts inside a hole, and a hole never starts inside a region. *)
Lemma region_outside j b' : regions_ s !! j = Some b' → j + len b' ≤ k ∨ k + v ≤ j.
Proof using I Hk.
  clear Hb b. intros Hj. destruct (inv_region _ I _ _ Hj) as (? & ? & ?).
  destruct (inv_hole _ I _ _ Hk) as (? & ? & ?).
  destruct (Z.le_gt_cases (j + len b') k); [by left|]. right.
  destruct (Z.le_gt_cases (k + v) j); [done|]. exfalso. apply (inv_apart _ I (Z.max j k)).
  - exists k, v. split; [done|lia].
  - exists j, b'. split; [done|lia].
Qed.

Lemma filled_inv : inv filled.
Proof using I Hk Hb.
  destruct (inv_hole _ I _ _ Hk) as (Hk0 & Hv & Hkv). split; cbn [filled size_ holes_ regions_].
  - apply I.
  - intros j w [(-> & -> & ?)|[_ Hj]]%filled_lookup; [lia|]. by apply (inv_hole _ I).
  - intros j b' Hj. destruct (decide (j = k)) as [->|].
    + rewrite lookup_insert_eq in Hj. simplify_eq. lia.
    + rewrite lookup_insert_ne in Hj by done. by apply (inv_region _ I).
  - intros j w j' w' [(-> & -> & ?)|[? Hj]]%filled_lookup [(-> & -> & ?)|[? Hj']]%filled_lookup Hlt.
    + lia.
    + destruct (Z.lt_total j' k) as [?|[?|?]]; [lia|done|].
      pose proof (inv_holes _ I _ _ _ _ Hk Hj' ltac:(lia)). lia.
    + destruct (Z.lt_total j k) as [?|[?|?]]; [|done|].
      * pose proof (inv_holes _ I _ _ _ _ Hj Hk ltac:(lia)). lia.
      * pose proof (inv_holes _ I _ _ _ _ Hk Hj ltac:(lia)). lia.
    + by eapply (inv_holes _ I).
  - intros j b1 j' b2 Hj Hj' Hlt.
    destruct (decide (j = k)) as [->|]; destruct (decide (j' = k)) as [->|]; [lia|..];
      rewrite ?lookup_insert_eq in *; rewrite ?lookup_insert_ne in * by done; simplify_eq.
    + pose proof (region_outside _ _ Hj'). destruct (inv_region _ I _ _ Hj') as (? & ? & ?). lia.
    + pose proof (region_outside _ _ Hj). lia.
    + by eapply (inv_regions _ I).
  - intros p Hp. rewrite filled_in_hole, filled_in_region.
    destruct (inv_cover _ I p Hp); [|tauto].
    destruct (decide (k ≤ p < k + len b)); [tauto|]. left. split; [done|lia].
  - intros p. rewrite filled_in_hole, filled_in_region. intros [Hh Hn] [Hr|?]; [|lia].
    by apply (inv_apart _ I p).
Qed.

(** The hole after the filled bytes, in the wraparound sense. *)
Definition next_hole (m : gmap Z Z) (q : Z) : iterator :=
  match lower_bound m q with Some j => Some j | None => begin_ m end.

Lemma fill_succ (m : gmap Z Z) q :
  (∀ j, is_Some (m !! j) → k < j ↔ j ≠ k ∧ q ≤ j) →
  succ m k = lower_bound (delete k m) q.
Proof.
  clear. intros Hm. pose proof (least_spec (λ j, k <? j) m) as Hs. fold (succ m k) in Hs.
  symmetry. destruct (succ m k) as [i|].
  - destruct Hs as (Hi & Hki & Hmin). apply least_Some.
    + rewrite lookup_delete_ne; [done|lia].
    + specialize (Hm i Hi). lia.
    + intros j [Hjk Hj]%lookup_delete_is_Some Hq. apply Hmin; [done|]. specialize (Hm j Hj). lia.
  - apply least_None. intros j [Hjk Hj]%lookup_delete_is_Some. specialize (Hs j Hj).
    specialize (Hm j Hj). lia.
Qed.

Lemma fill_loop_run fuel :
  fill_loop (S fuel) (Some k) k (len b) (holes_ s) = Ok (next_hole filled_holes (k + len b), filled_holes).
Proof using I Hk Hb.
  destruct (inv_hole _ I _ _ Hk) as (Hk0 & Hv & Hkv). pose proof (inv_size _ I).
  cbn [fill_loop]. destruct (Z.eqb_spec (len b) 0); [lia|].
  rewrite dcheck_true by done. cbn [mbind outcome_bind first second]. rewrite Hk.
  cbn [mbind outcome_bind]. rewrite dcheck_true by lia. cbn [mbind outcome_bind].
  assert (Hdone : ∀ i p m, fill_loop fuel i p 0 m = Ok (i, m)) by by destruct fuel.
  assert (Hpart : ∀ j, is_Some (holes_ s !! j) → k < j → k + v ≤ j).
  { intros j [w Hj] Hlt. pose proof (inv_holes _ I _ _ _ _ Hk Hj Hlt). lia. }
  unfold next_hole, filled_holes. destruct (Z.ltb_spec (len b) v).
  - rewrite !uwrap_small by (unfold is_u; lia).
    rewrite insert_new_fresh by (apply (split_fresh s I k v Hk); lia).
    rewrite (fill_succ _ (k + len b)).
    2:{ intros j Hj. destruct (decide (j = k + len b)) as [->|]; [lia|].
        rewrite lookup_insert_ne in Hj by done. specialize (Hpart j Hj). lia. }
    assert (Hlb : is_Some (delete k (<[k + len b := v - len b]> (holes_ s)) !! (k + len b))).
    { rewrite lookup_delete_ne by lia. rewrite lookup_insert_eq. eauto. }
    rewrite (lower_bound_at _ _ Hlb). cbn [mbind outcome_bind]. by rewrite Hdone.
  - assert (v = len b) as -> by lia. rewrite Z.sub_diag.
    rewrite (uwrap_small 64 0) by (unfold is_u; lia).
    rewrite (fill_succ _ (k + len b)) by (intros j Hj; specialize (Hpart j Hj); lia).
    destruct (lower_bound (delete k (holes_ s)) (k + len b)); cbn [mbind outcome_bind].
    + by rewrite Hdone.
    + rewrite dcheck_true by done. cbn [mbind outcome_bind]. by rewrite Hdone.
Qed.

Lemma Fill_run :
  Fill (Some k) b s = Ok (next_hole (holes_ filled) (k + len b), filled).
Proof using I Hk Hb.
  pose proof (inv_size _ I). unfold Fill. rewrite (dcheck_true (0 <? size_ s)) by lia.
  cbn [mbind outcome_bind]. rewrite (dcheck_true (bool_decide (Some k ≠ None))) by done. cbn [mbind outcome_bind].
  rewrite dcheck_nonzero by lia. cbn [mbind outcome_bind second]. rewrite Hk.
  cbn [mbind outcome_bind]. rewrite dcheck_true by lia. cbn [mbind outcome_bind first].
  rewrite fill_loop_run. cbn [mbind outcome_bind].
  by rewrite (insert_new_fresh k b) by apply filled_region_fresh.
Qed.

(** The bytes stored are the new ones and the old ones. *)
Lemma filled_bytes p c :
  holds_byte filled p c ↔
  holds_byte s p c ∨ (k ≤ p ∧ b !! Z.to_nat (p - k) = Some c).
Proof using I Hk Hb.
  pose proof filled_region_fresh as Hfr. split.
  - intros (j & b' & Hj & Hin). cbn in Hj. destruct (decide (j = k)) as [->|].
    + rewrite lookup_insert_eq in Hj. simplify_eq. by right.
    + rewrite lookup_insert_ne in Hj by done. left. by exists j, b'.
  - intros [(j & b' & Hj & Hin)|Hin].
    + exists j, b'. cbn. rewrite lookup_insert_ne; [done|]. intros ->. congruence.
    + exists k, b. cbn. by rewrite lookup_insert_eq.
Qed.

End FillOne.

(** C31. Filling a hole with at most its size keeps the partition into holes and
    regions, adds exactly the given bytes at the hole's position to the buffer's
    contents, and returns the first hole at or after the filled bytes, wrapping to
    the first hole of the buffer, or [null_hole()] when the buffer is full. *)
Theorem Fill_spec s k v b :
  inv s → holes_ s !! k = Some v → 0 < len b ≤ v →
  ∃ s', Fill (Some k) b s = Ok (next_hole (holes_ s') (k + len b), s') ∧ inv s' ∧
    (∀ p, in_hole s' p ↔ in_hole s p ∧ ¬ k ≤ p < k + len b) ∧
    (∀ p c, holds_byte s' p c ↔ holds_byte s p c ∨ (k ≤ p ∧ b !! Z.to_nat (p - k) = Some c)).
Proof.
  intros I Hk Hb. exists (filled s k v b). split_and!.
  - by apply Fill_run.
  - by apply filled_inv.
  - intros p. by apply filled_in_hole.
  - intros p c. by apply filled_bytes.
Qed.

(** A new buffer is one hole. *)
Lemma Initialize_inv size : 0 < size < 2 ^ 63 → inv (Initialize size).
Proof.
  intros Hs. split; cbn.
  - done.
  - intros k v [<- <-]%lookup_singleton_Some. lia.
  - intros k b Hk. by rewrite lookup_empty in Hk.
  - intros k v k' v' [<- <-]%lookup_singleton_Some [<- <-]%lookup_singleton_Some. lia.
  - intros k v k' v' Hk. by rewrite lookup_empty in Hk.
  - intros p Hp. left. exists 0, size. cbn. rewrite lookup_singleton_eq. split; [done|lia].
  - intros p _ (k & b & Hk & _). cbn in Hk. by rewrite lookup_empty in Hk.
Qed.

End WithBuild.

(** ** Witnesses *)

Definition ten : state := Initialize 10.
Lemma ten_inv : inv ten.
Proof. apply Initialize_inv. lia. Qed.

Lemma FindRegionContaining_spec_witness :
  ∃ r, @FindRegionContaining debug_build 3 None ten = Ok r ∧ region_found ten 3 r ∧
    (¬ in_region ten 3 → (∀ k, is_Some (regions_ ten !! k) → k < 3) → r = None).
Proof. apply (@FindRegionContaining_spec debug_build ten 3 None); [apply ten_inv|cbn; lia|done]. Defined.

Lemma FindOrCreateHole_spec_witness :
  ∃ s', @FindOrCreateHole debug_build 4 None ten = Ok (Some 4, s') ∧ inv s' ∧
    is_Some (holes_ s' !! 4) ∧ regions_ s' = regions_ ten ∧ (∀ q, in_hole s' q ↔ in_hole ten q).
Proof.
  apply (@FindOrCreateHole_spec debug_build ten 4 None); [apply ten_inv| |done].
  exists 0, 10. split; [reflexivity|lia].
Defined.

Lemma Fill_spec_witness :
  ∃ s', @Fill debug_build (Some 0) [7; 8] ten = Ok (next_hole (holes_ s') 2, s') ∧ inv s' ∧
    (∀ p, in_hole s' p ↔ in_hole ten p ∧ ¬ 0 ≤ p < 0 + len [7; 8]) ∧
    (∀ p c, holds_byte s' p c ↔
       holds_byte ten p c ∨ (0 ≤ p ∧ [7; 8] !! Z.to_nat (p - 0) = Some c)).
Proof.
  apply (@Fill_spec debug_build ten 0 10 [7; 8]); [apply ten_inv|reflexivity|by concrete].
Defined.

(** Two searches that answer with an element that does not contain the position: a
    region that starts later, and a hole that ends at the position. *)
Lemma search_defects :
  let s := mk_state 10 {[0 := 3]} {[3 := [1; 2; 3; 4; 5; 6; 7]]} in
  @FindRegionContaining debug_build 1 None s = Ok (Some 3) ∧
  @FindHoleContaining debug_build 3 s = Ok (Some 0).
Proof. vm_compute. done. Qed.

End SparseByteBuffer.
