(* ===== verification/ReaderCache.v ===== *)
(** [ReaderCache] of services/media/framework/parts: reads an asset from an upstream
    reader into a [SparseByteBuffer] and serves reads from it.

    [Store] and [Intake] share one state record.  The upstream reader is any
    implementation of the [Reader] interface: the state records the read it was
    asked for, and its answer is an input ([UpstreamReply]).  The caller's buffer is
    the list of bytes written to it so far; completed requests are recorded with the
    result, the byte count and the bytes the callback's receiver sees.  Every method
    holds the store's lock, so methods are atomic. *)

From S2P Require Import Prelude StdMap SparseByteBuffer StreamTypes TypeConversions.

Module ReaderCache.
Import StdMap SparseByteBuffer.
Abbreviation Result := TypeConversions.Result.
Abbreviation kOk := TypeConversions.kOk.

#[export] Instance Result_eq_dec : EqDecision Result.
Proof. solve_decision. Defined.

(** [ReaderCache::ReadAtRequest] *)
Record request := mk_request {
  in_progress_ : bool;
  position_ : Z;
  delivered : list Z;
  original_bytes_to_read_ : Z;
  remaining_bytes_to_read_ : Z;
}.

Record state := mk_cache {
  (** [Store] *)
  result_ : Result;
  asset_size : Z;
  can_seek_ : bool;
  sparse_byte_buffer_ : SparseByteBuffer.state;
  intake_hole_ : iterator;
  read_hole_ : iterator;
  read_region_ : iterator;
  read_request_ : bool;
  read_request_position_ : Z;
  read_request_remaining_bytes_ : Z;
  (** [read_at_request_], and the requests completed so far *)
  read_at_request_ : request;
  completed : list (Result * Z * list Z);
  (** [Intake]: its buffer and the upstream read in progress *)
  intake_buffer_ : list Z;
  upstream : option (Z * Z);
}.

Definition kDefaultReadSize : Z := 32 * 1024.

Definition set_buffer b s := mk_cache (result_ s) (asset_size s) (can_seek_ s) b (intake_hole_ s)
  (read_hole_ s) (read_region_ s) (read_request_ s) (read_request_position_ s)
  (read_request_remaining_bytes_ s) (read_at_request_ s) (completed s) (intake_buffer_ s) (upstream s).
Definition set_intake_hole i s := mk_cache (result_ s) (asset_size s) (can_seek_ s)
  (sparse_byte_buffer_ s) i (read_hole_ s) (read_region_ s) (read_request_ s)
  (read_request_position_ s) (read_request_remaining_bytes_ s) (read_at_request_ s) (completed s)
  (intake_buffer_ s) (upstream s).
Definition set_read_hole i s := mk_cache (result_ s) (asset_size s) (can_seek_ s)
  (sparse_byte_buffer_ s) (intake_hole_ s) i (read_region_ s) (read_request_ s)
  (read_request_position_ s) (read_request_remaining_bytes_ s) (read_at_request_ s) (completed s)
  (intake_buffer_ s) (upstream s).
Definition set_read_region i s := mk_cache (result_ s) (asset_size s) (can_seek_ s)
  (sparse_byte_buffer_ s) (intake_hole_ s) (read_hole_ s) i (read_request_ s)
  (read_request_position_ s) (read_request_remaining_bytes_ s) (read_at_request_ s) (completed s)
  (intake_buffer_ s) (upstream s).
Definition set_read_request b p n s := mk_cache (result_ s) (asset_size s) (can_seek_ s)
  (sparse_byte_buffer_ s) (intake_hole_ s) (read_hole_ s) (read_region_ s) b p n
  (read_at_request_ s) (completed s) (intake_buffer_ s) (upstream s).
Definition set_request r s := mk_cache (result_ s) (asset_size s) (can_seek_ s)
  (sparse_byte_buffer_ s) (intake_hole_ s) (read_hole_ s) (read_region_ s) (read_request_ s)
  (read_request_position_ s) (read_request_remaining_bytes_ s) r (completed s)
  (intake_buffer_ s) (upstream s).
Definition set_completed c s := mk_cache (result_ s) (asset_size s) (can_seek_ s)
  (sparse_byte_buffer_ s) (intake_hole_ s) (read_hole_ s) (read_region_ s) (read_request_ s)
  (read_request_position_ s) (read_request_remaining_bytes_ s) (read_at_request_ s) c
  (intake_buffer_ s) (upstream s).
Definition set_result r s := mk_cache r (asset_size s) (can_seek_ s)
  (sparse_byte_buffer_ s) (intake_hole_ s) (read_hole_ s) (read_region_ s) (read_request_ s)
  (read_request_position_ s) (read_request_remaining_bytes_ s) (read_at_request_ s) (completed s)
  (intake_buffer_ s) (upstream s).
Definition set_intake b u s := mk_cache (result_ s) (asset_size s) (can_seek_ s)
  (sparse_byte_buffer_ s) (intake_hole_ s) (read_hole_ s) (read_region_ s) (read_request_ s)
  (read_request_position_ s) (read_request_remaining_bytes_ s) (read_at_request_ s) (completed s)
  b u.

Section WithBuild.
Context `{Build}.

(** ** [ReadAtRequest] *)

(** [Start] *)
Definition Request_Start (position bytes_to_read : Z) : prog state unit :=
  s ← getS;
  _ ← dcheckS (negb (in_progress_ (read_at_request_ s)));
  modS (set_request (mk_request true position [] bytes_to_read bytes_to_read)).

(** [CopyFrom]: [byte_count] bytes of [source] from index [offset] on. *)
Definition Request_CopyFrom (source : list Z) (offset byte_count : Z) : prog state unit :=
  s ← getS;
  let r := read_at_request_ s in
  _ ← dcheckS (byte_count <=? remaining_bytes_to_read_ r);
  if (offset <? 0) || (len source <? offset + byte_count) then failS UndefinedBehaviour
  else
    modS (set_request (mk_request (in_progress_ r) (u64 (position_ r + byte_count))
      (delivered r ++ take (Z.to_nat byte_count) (drop (Z.to_nat offset) source))
      (original_bytes_to_read_ r) (u64 (remaining_bytes_to_read_ r - byte_count)))).

(** [Complete] *)
Definition Request_Complete (result : Result) : prog state unit :=
  s ← getS;
  let r := read_at_request_ s in
  _ ← dcheckS (remaining_bytes_to_read_ r <=? original_bytes_to_read_ r);
  let bytes_read := u64 (original_bytes_to_read_ r - remaining_bytes_to_read_ r) in
  _ ← dcheckS (Bool.eqb (bytes_read =? 0) (bool_decide (result ≠ kOk)));
  _ ← modS (set_request (mk_request false (position_ r) (delivered r) (original_bytes_to_read_ r)
        (remaining_bytes_to_read_ r)));
  modS (set_completed (completed s ++ [(result, bytes_read, delivered r)])).

(** ** [Store] *)

(** [Store::Initialize] *)
Definition Store_Initialize (result : Result) (size : Z) (can_seek : bool) : prog state unit :=
  λ s,
  let b := SparseByteBuffer.Initialize size in
  match FindHoleContaining 0 b with
  | Fault f => Fault f
  | Ok h => Ok (tt, mk_cache result size can_seek b h null_hole null_region (read_request_ s)
              (read_request_position_ s) (read_request_remaining_bytes_ s) (read_at_request_ s)
              (completed s) (intake_buffer_ s) (upstream s))
  end.

(** [Store::Describe]: what the callback is called with. *)
Definition Store_Describe (s : state) : Result * Z * bool := (result_ s, asset_size s, can_seek_ s).

(** The end of [ServeRequest]. *)
Definition finish_request : prog state unit :=
  _ ← modS (λ s, set_read_request false (read_request_position_ s)
              (read_request_remaining_bytes_ s) s);
  s ← getS;
  Request_Complete (result_ s).

(** [Store::ServeRequest] *)
Fixpoint serve_loop (fuel : nat) : prog state unit :=
  s ← getS;
  if bool_decide (result_ s = kOk) && negb (read_request_remaining_bytes_ s =? 0) then
    match fuel with
    | O => failS OutOfFuel
    | S fuel =>
        r ← liftO (FindRegionContaining (read_request_position_ s) (read_region_ s)
                     (sparse_byte_buffer_ s));
        _ ← modS (set_read_region r);
        match r with
        | None =>
            '(h, b) ← liftO (FindOrCreateHole (read_request_position_ s) (intake_hole_ s)
                               (sparse_byte_buffer_ s));
            _ ← modS (set_buffer b);
            modS (set_read_hole h)
        | Some k =>
            data ← liftO (second (regions_ (sparse_byte_buffer_ s)) r);
            let p := read_request_position_ s in
            _ ← dcheckS (k <=? p);
            _ ← dcheckS (p <? u64 (k + len data));
            let available := u64 (u64 (k + len data) - p) in
            let bytes_to_copy := Z.min available (read_request_remaining_bytes_ s) in
            _ ← dcheckS (0 <? bytes_to_copy);
            _ ← Request_CopyFrom data (p - k) bytes_to_copy;
            _ ← modS (set_read_request (read_request_ s) (u64 (p + bytes_to_copy))
                  (u64 (read_request_remaining_bytes_ s - bytes_to_copy)));
            serve_loop fuel
        end
    end
  else finish_request.

(** Every turn copies at least one byte. *)
Definition ServeRequest : prog state unit := λ s,
  serve_loop (Z.to_nat (read_request_remaining_bytes_ s)) s.

(** [Store::SetReadAtRequest] *)
Definition SetReadAtRequest : prog state unit :=
  s ← getS;
  let r := read_at_request_ s in
  _ ← dcheckS (negb (read_request_ s));
  _ ← dcheckS (position_ r <? asset_size s);
  _ ← dcheckS (0 <? remaining_bytes_to_read_ r);
  let n := remaining_bytes_to_read_ r in
  let n := if asset_size s <? u64 (position_ r + n) then u64 (asset_size s - position_ r) else n in
  _ ← modS (set_read_request true (position_ r) n);
  ServeRequest.

(** [Store::GetIntakePositionAndSize]: [None] stands for [kUnknownSize]. *)
Definition GetIntakePositionAndSize : prog state (option (Z * Z)) :=
  s ← getS;
  let finish (size : Z) : prog state (option (Z * Z)) :=
    s ← getS;
    v ← liftO (second (holes_ (sparse_byte_buffer_ s)) (intake_hole_ s));
    p ← liftO (first (intake_hole_ s));
    mret (Some (p, Z.min size v)) in
  match read_hole_ s with
  | Some h =>
      _ ← dcheckS (read_request_ s);
      _ ← modS (set_intake_hole (read_hole_ s));
      _ ← modS (set_read_hole null_hole);
      finish (read_request_remaining_bytes_ s)
  | None =>
      match intake_hole_ s with
      | None => mret None
      | Some _ => finish kDefaultReadSize
      end
  end.

(** [Store::PutIntakeBuffer] *)
Definition PutIntakeBuffer (position : Z) (buffer : list Z) : prog state unit :=
  s ← getS;
  _ ← dcheckS (bool_decide (intake_hole_ s ≠ null_hole));
  p ← liftO (first (intake_hole_ s));
  _ ← dcheckS (position =? p);
  _ ← dcheckS (negb (len buffer =? 0));
  v ← liftO (second (holes_ (sparse_byte_buffer_ s)) (intake_hole_ s));
  _ ← dcheckS (len buffer <=? v);
  _ ← whenS (match read_hole_ s with
             | None => false
             | Some h => (position <=? h) && (h <? u64 (position + len buffer))
             end) (modS (set_read_hole null_hole));
  '(i, b) ← liftO (Fill (intake_hole_ s) buffer (sparse_byte_buffer_ s));
  _ ← modS (set_buffer b);
  _ ← modS (set_intake_hole i);
  whenS (read_request_ s) ServeRequest.

(** [Store::ReportIntakeError] *)
Definition ReportIntakeError (result : Result) : prog state unit :=
  _ ← dcheckS (bool_decide (result ≠ kOk));
  _ ← modS (set_result result);
  s ← getS;
  whenS (read_request_ s) ServeRequest.

(** ** [Intake] *)

(** [Intake::Continue]: asks the upstream reader for the next bytes. *)
Definition Intake_Continue : prog state unit :=
  next ← GetIntakePositionAndSize;
  match next with
  | None => mret tt
  | Some (position, size) =>
      _ ← dcheckS (0 <? size);
      s ← getS;
      _ ← dcheckS (len (intake_buffer_ s) =? 0);
      modS (set_intake (replicate (Z.to_nat size) 0) (Some (position, size)))
  end.

(** The callback of the upstream read: the reader has written [data] at the start
    of the buffer. *)
Definition UpstreamReply (result : Result) (data : list Z) : prog state unit :=
  s ← getS;
  match upstream s with
  | None => failS UndefinedBehaviour
  | Some (position, size) =>
      let buffer := data ++ drop (length data) (intake_buffer_ s) in
      if bool_decide (result ≠ kOk) then
        _ ← modS (set_intake buffer None);
        ReportIntakeError result
      else
        _ ← dcheckS (negb (len data =? 0));
        _ ← modS (set_intake [] None);
        _ ← PutIntakeBuffer position buffer;
        Intake_Continue
  end.

(** The callback of the upstream [Describe]: [pending] says that a [ReadAt] has been
    waiting for it. *)
Definition UpstreamDescribed (result : Result) (size : Z) (can_seek : bool)
    (pending : bool) : prog state unit :=
  _ ← Store_Initialize result size can_seek;
  _ ← whenS pending SetReadAtRequest;
  if bool_decide (result = kOk) then Intake_Continue else mret tt.

(** [ReadAt] once the description is known. *)
Definition ReadAt (position bytes_to_read : Z) : prog state unit :=
  _ ← dcheckS (0 <? bytes_to_read);
  _ ← Request_Start position bytes_to_read;
  SetReadAtRequest.

End WithBuild.

(** A cache before anything happened. *)
Definition initial : state :=
  mk_cache kOk 0 false (SparseByteBuffer.mk_state 0 ∅ ∅) null_hole null_hole null_region false 0 0
    (mk_request false 0 [] 0 0) [] [] None.

(** ** Coherence with the asset *)

(** [n] bytes of the asset from position [p] on. *)
Definition slice (asset : Z → Z) (p n : Z) : list Z := asset <$> seqZ p n.

Lemma slice_lookup asset p n i :
  (i < Z.to_nat n)%nat → slice asset p n !! i = Some (asset (p + Z.of_nat i)).
Proof.
  intros Hi. unfold slice. rewrite list_lookup_fmap, lookup_seqZ_lt by lia. done.
Qed.

Lemma slice_length asset p n : length (slice asset p n) = Z.to_nat n.
Proof. unfold slice. by rewrite length_fmap, length_seqZ. Qed.

Lemma slice_len asset p n : 0 ≤ n → len (slice asset p n) = n.
Proof. intros Hn. unfold len. rewrite slice_length. lia. Qed.

Lemma slice_app asset p a b :
  0 ≤ a → 0 ≤ b → slice asset p a ++ slice asset (p + a) b = slice asset p (a + b).
Proof. intros Ha Hb. unfold slice. by rewrite seqZ_app, fmap_app. Qed.

(** The cache holds bytes of the asset only, and its iterators are usable. *)
Record coherent (asset : Z → Z) (s : state) : Prop := {
  co_inv : inv (sparse_byte_buffer_ s);
  co_size : asset_size s = size_ (sparse_byte_buffer_ s);
  co_bytes p c : holds_byte (sparse_byte_buffer_ s) p c → c = asset p;
  co_region : valid_iter (regions_ (sparse_byte_buffer_ s)) (read_region_ s);
  co_intake : valid_iter (holes_ (sparse_byte_buffer_ s)) (intake_hole_ s);
  co_read : valid_iter (holes_ (sparse_byte_buffer_ s)) (read_hole_ s);
}.

Lemma region_slice asset s k b :
  coherent asset s → regions_ (sparse_byte_buffer_ s) !! k = Some b → b = slice asset k (len b).
Proof.
  intros C Hk. apply list_eq. intros i. destruct (b !! i) as [c|] eqn:E.
  - assert (Hi : (i < length b)%nat) by (by apply lookup_lt_is_Some; eauto).
    rewrite slice_lookup by (unfold len; lia). f_equal. apply (co_bytes _ _ C).
    exists k, b. split_and!; [done|lia|]. by replace (Z.to_nat (k + Z.of_nat i - k)) with i by lia.
  - symmetry. apply lookup_ge_None. apply lookup_ge_None in E. rewrite slice_length.
    unfold len. lia.
Qed.

Lemma slice_cut asset k m o n :
  0 ≤ o → 0 ≤ n → o + n ≤ m →
  take (Z.to_nat n) (drop (Z.to_nat o) (slice asset k m)) = slice asset (k + o) n.
Proof.
  intros Ho Hn Hm. apply list_eq. intros i. destruct (decide (i < Z.to_nat n)%nat).
  - rewrite lookup_take_lt, lookup_drop, !slice_lookup by lia. do 2 f_equal. lia.
  - rewrite lookup_take_ge by lia. symmetry. apply lookup_ge_None. rewrite slice_length. lia.
Qed.

(** A request for the bytes from [p0] on that has been served up to the store's
    current position, with [n] bytes to go. *)
Record serving (asset : Z → Z) (p0 n : Z) (s : state) : Prop := {
  sv_ok : result_ s = kOk;
  sv_request : read_request_ s = true;
  sv_start : 0 ≤ p0 ≤ read_request_position_ s;
  sv_remaining : read_request_remaining_bytes_ s = n;
  sv_end : 0 ≤ n ∧ read_request_position_ s + n ≤ asset_size s;
  sv_total : 0 < read_request_position_ s - p0 + n;
  sv_delivered : delivered (read_at_request_ s) = slice asset p0 (read_request_position_ s - p0);
  sv_left : n ≤ remaining_bytes_to_read_ (read_at_request_ s) < 2 ^ 63;
  sv_sum : original_bytes_to_read_ (read_at_request_ s) =
    remaining_bytes_to_read_ (read_at_request_ s) + (read_request_position_ s - p0);
  sv_bound : original_bytes_to_read_ (read_at_request_ s) < 2 ^ 63;
  sv_front k : begin_ (regions_ (sparse_byte_buffer_ s)) = Some k → k ≤ read_request_position_ s;
}.

(** How serving a request ends: with the whole range delivered, or waiting for the
    first byte that is missing, at [lo] or later. *)
Definition served (asset : Z → Z) (p0 total lo : Z) (cached : gmap Z (list Z)) (before : list (Result * Z * list Z))
    (s : state) : Prop :=
  coherent asset s ∧ regions_ (sparse_byte_buffer_ s) = cached ∧
  ((read_request_ s = false ∧ completed s = before ++ [(kOk, total, slice asset p0 total)]) ∨
   (completed s = before ∧ lo ≤ read_request_position_ s ∧
    serving asset p0 (p0 + total - read_request_position_ s) s ∧
    read_hole_ s = Some (read_request_position_ s) ∧
    in_hole (sparse_byte_buffer_ s) (read_request_position_ s))).

Section Serve.
Context `{Build} (asset : Z → Z).

Lemma finish_run s p0 :
  coherent asset s → serving asset p0 0 s →
  runs finish_request s
    (λ _, served asset p0 (read_request_position_ s - p0) (read_request_position_ s)
      (regions_ (sparse_byte_buffer_ s)) (completed s)).
Proof.
  intros C [? ? Hs Hr He Ht Hd Hl Hsum Hb Hf]. unfold finish_request. apply runs_mod, runs_get.
  unfold Request_Complete. apply runs_get. cbn [read_at_request_ set_read_request result_].
  apply runs_dcheck; [lia|].
  replace (original_bytes_to_read_ (read_at_request_ s) -
    remaining_bytes_to_read_ (read_at_request_ s)) with (read_request_position_ s - p0) by lia.
  rewrite uwrap_small by (unfold is_u; lia).
  apply runs_dcheck.
  { rewrite bool_decide_false by auto. destruct (Z.eqb_spec (read_request_position_ s - p0) 0); [lia|done]. }
  apply runs_mod, runs_mod_last. split; [|split; [done|]].
  - destruct C. by split.
  - left. cbn. split; [done|]. rewrite Hd. congruence.
Qed.

Lemma CopyFrom_run s b o c :
  0 ≤ c ≤ remaining_bytes_to_read_ (read_at_request_ s) →
  remaining_bytes_to_read_ (read_at_request_ s) < 2 ^ 63 → 0 ≤ o → o + c ≤ len b →
  Request_CopyFrom b o c s = Ok (tt, set_request
    (mk_request (in_progress_ (read_at_request_ s)) (u64 (position_ (read_at_request_ s) + c))
       (delivered (read_at_request_ s) ++ take (Z.to_nat c) (drop (Z.to_nat o) b))
       (original_bytes_to_read_ (read_at_request_ s))
       (remaining_bytes_to_read_ (read_at_request_ s) - c)) s).
Proof.
  intros Hc Hr Ho Hl. unfold Request_CopyFrom. erewrite prog_bind_run by done.
  erewrite prog_bind_run by (apply dcheckS_true; lia).
  rewrite (proj2 (orb_false_iff (o <? 0) (len b <? o + c))) by lia.
  rewrite (uwrap_small 64 (_ - c)) by (unfold is_u; lia). done.
Qed.

(** What [FindRegionContaining] answers for the current position. *)
Lemma serve_find s p0 n :
  coherent asset s → serving asset p0 n s → 0 < n →
  ∃ r, FindRegionContaining (read_request_position_ s) (read_region_ s) (sparse_byte_buffer_ s) = Ok r ∧
    match r with
    | None => in_hole (sparse_byte_buffer_ s) (read_request_position_ s)
    | Some k => ∃ b, regions_ (sparse_byte_buffer_ s) !! k = Some b ∧
                  k ≤ read_request_position_ s < k + len b
    end.
Proof.
  intros C S Hn. pose proof (co_inv _ _ C) as I. destruct (sv_end _ _ _ _ S) as [_ He].
  pose proof (sv_start _ _ _ _ S) as Hs. rewrite (co_size _ _ C) in He.
  destruct (FindRegion_run _ (read_request_position_ s) _ I ltac:(lia) (co_region _ _ C))
    as (r & E & Hin & Hout).
  exists r. split; [done|].
  destruct (inv_cover _ I (read_request_position_ s) ltac:(lia)) as [Hh|(k & b & Hk & Hp)].
  - assert (Hno : ¬ in_region (sparse_byte_buffer_ s) (read_request_position_ s)).
    { intros Hr. by apply (inv_apart _ I (read_request_position_ s)). }
    destruct (Hout Hno) as [->|(k & -> & Hb & Hlt)]; [done|].
    pose proof (sv_front _ _ _ _ S k Hb). lia.
  - rewrite (Hin k b Hk Hp). eauto.
Qed.

(** Copying from a region advances the request. *)
Lemma serve_copy s p0 n k b :
  coherent asset s → serving asset p0 n s → 0 < n →
  regions_ (sparse_byte_buffer_ s) !! k = Some b →
  k ≤ read_request_position_ s < k + len b →
  let p := read_request_position_ s in
  let c := Z.min (k + len b - p) n in
  let r := read_at_request_ s in
  let s' := set_read_request true (p + c) (n - c)
    (set_request (mk_request (in_progress_ r) (u64 (position_ r + c))
       (delivered r ++ take (Z.to_nat c) (drop (Z.to_nat (p - k)) b))
       (original_bytes_to_read_ r) (remaining_bytes_to_read_ r - c)) (set_read_region (Some k) s)) in
  coherent asset s' ∧ serving asset p0 (n - c) s'.
Proof.
  intros C S Hn Hk Hp p c r s'. pose proof (region_slice _ _ _ _ C Hk) as Hb.
  destruct S as [? ? Hs Hr [He1 He2] Ht Hd Hl Hsum Hbd Hf]. fold p in Hs, He2, Ht, Hd, Hsum, Hf.
  fold r in Hd, Hl, Hsum, Hbd.
  assert (Hc : 0 < c ≤ n) by lia. split.
  - destruct C. split; cbn; try done.
  - unfold s'. split; cbn; try done; try lia.
    + rewrite Hd, Hb, slice_cut by lia.
      replace (k + (p - k)) with (p0 + (p - p0)) by lia. rewrite slice_app by lia. f_equal. lia.
    + intros j Hj. specialize (Hf j Hj). lia.
Qed.

Lemma serve_loop_run fuel : ∀ s p0 n,
  coherent asset s → serving asset p0 n s → (Z.to_nat n ≤ fuel)%nat →
  runs (serve_loop fuel) s
    (λ _, served asset p0 (read_request_position_ s + n - p0)
      (read_request_position_ s) (regions_ (sparse_byte_buffer_ s)) (completed s)).
Proof.
  induction fuel as [|fuel IH]; intros s p0 n C S Hfuel.
  - assert (n = 0) as -> by (destruct (sv_end _ _ _ _ S); lia). cbn [serve_loop]. apply runs_get.
    rewrite (sv_remaining _ _ _ _ S), Z.eqb_refl, andb_false_r.
    replace (read_request_position_ s + 0) with (read_request_position_ s) by lia.
    by apply finish_run.
  - cbn [serve_loop]. apply runs_get. rewrite (sv_ok _ _ _ _ S), bool_decide_true by done.
    rewrite (sv_remaining _ _ _ _ S). cbn [andb].
    destruct (Z.eqb_spec n 0) as [->|Hn0]; cbn [negb].
    { replace (read_request_position_ s + 0) with (read_request_position_ s) by lia.
      by apply finish_run. }
    assert (Hn : 0 < n) by (destruct (sv_end _ _ _ _ S); lia).
    destruct (serve_find s p0 n C S Hn) as (r & E & Hr).
    eapply (runs_step _ _ _ r s); [unfold liftO; by rewrite E|]. apply runs_mod.
    destruct r as [k|].
    + destruct Hr as (b & Hk & Hp). destruct (inv_region _ (co_inv _ _ C) _ _ Hk) as (? & ? & ?).
      pose proof (inv_size _ (co_inv _ _ C)).
      eapply (runs_step _ _ _ b _); [cbn; by rewrite Hk|].
      apply runs_dcheck; [lia|]. rewrite (uwrap_small 64 (k + len b)) by (unfold is_u; lia).
      rewrite (uwrap_small 64 (k + len b - read_request_position_ s)) by (unfold is_u; lia).
      apply runs_dcheck; [lia|]. apply runs_dcheck; [lia|].
      pose proof (serve_copy s p0 n k b C S Hn Hk Hp) as [C' S'].
      set (c := Z.min (k + len b - read_request_position_ s) n) in *.
      destruct S as [? ? Hs ? [He1 He2] Ht Hd Hl Hsum Hbd Hf]. pose proof (co_size _ _ C).
      eapply runs_step; [apply CopyFrom_run; cbn; lia|].
      apply runs_mod. rewrite !uwrap_small by (unfold is_u; lia).
      replace (read_request_ s) with true by auto.
      eapply runs_mono; [eapply IH; [exact C'|exact S'|lia]|]. cbn beta. intros _ s2 HQ.
      revert HQ. cbn. replace (read_request_position_ s + c + (n - c) - p0)
        with (read_request_position_ s + n - p0) by lia.
      intros (HC & HR & [?|(Hcm & Hlo & Hrest)]); (split; [done|]; split; [done|]); [by left|].
      right. split; [done|]. split; [lia|exact Hrest].
    + destruct (FindOrCreateHole_run _ _ _ (co_inv _ _ C) Hr (co_intake _ _ C))
        as (b' & E' & I' & Hp' & Hreg & Hcov & Hkeep & Hsz).
      eapply (runs_step _ _ _ (Some (read_request_position_ s), b') _).
      { unfold liftO. by rewrite E'. }
      apply runs_mod, runs_mod_last. split; [|split; [done|]].
      * destruct C as [? Hcs Hcb Hcr Hci Hcrh]. split; cbn; try done.
        -- congruence.
        -- intros q c (k & b & Hk & Hq). rewrite Hreg in Hk. apply Hcb. by exists k, b.
        -- destruct (intake_hole_ s); [|done]. by apply Hkeep.
      * right. cbn. split; [done|]. split; [done|]. split; [|split; [done|by apply Hcov]].
        destruct S as [? ? Hs ? [He1 He2] Ht Hd Hl Hsum Hbd Hf].
        split; cbn; try done; try lia. by rewrite Hreg.
Qed.

Lemma ServeRequest_run s p0 n :
  coherent asset s → serving asset p0 n s →
  runs ServeRequest s (λ _, served asset p0 (read_request_position_ s + n - p0)
      (read_request_position_ s) (regions_ (sparse_byte_buffer_ s)) (completed s)).
Proof.
  intros C S. unfold ServeRequest, runs. rewrite (sv_remaining _ _ _ _ S).
  by apply (serve_loop_run (Z.to_nat n) s p0 n C S).
Qed.

Lemma ReadAt_run s p n :
  coherent asset s → result_ s = kOk → read_request_ s = false →
  in_progress_ (read_at_request_ s) = false →
  0 ≤ p < asset_size s → 0 < n < 2 ^ 62 →
  (∀ k, begin_ (regions_ (sparse_byte_buffer_ s)) = Some k → k ≤ p) →
  runs (ReadAt p n) s (λ _, served asset p (Z.min n (asset_size s - p)) p (regions_ (sparse_byte_buffer_ s))
      (completed s)).
Proof.
  intros C Hok Hreq Hprog Hp Hn Hfront. pose proof (inv_size _ (co_inv _ _ C)) as Hsz.
  rewrite <- (co_size _ _ C) in Hsz. unfold ReadAt. apply runs_dcheck; [lia|].
  eapply (runs_step _ _ _ tt (set_request (mk_request true p [] n n) s)).
  { unfold Request_Start. erewrite prog_bind_run by done.
    by erewrite prog_bind_run by (apply dcheckS_true; by rewrite Hprog). }
  unfold SetReadAtRequest. apply runs_get.
  cbn [read_at_request_ set_request read_request_ asset_size position_ remaining_bytes_to_read_].
  apply runs_dcheck; [by rewrite Hreq|]. apply runs_dcheck; [lia|]. apply runs_dcheck; [lia|].
  apply runs_mod. rewrite !uwrap_small by (unfold is_u; lia).
  replace (if asset_size s <? p + n then asset_size s - p else n)
    with (Z.min n (asset_size s - p)) by (destruct (Z.ltb_spec (asset_size s) (p + n)); lia).
  set (s1 := set_read_request _ _ _ _).
  eapply runs_mono; [apply (ServeRequest_run s1 p (Z.min n (asset_size s - p)))|].
  - destruct C. by split.
  - split; cbn; try done; try lia. by rewrite Z.sub_diag.
  - cbn. intros _ s2 HQ.
    by replace (p + Z.min n (asset_size s - p) - p) with (Z.min n (asset_size s - p)) in HQ by lia.
Qed.

(** C32. A read from a cache that holds only bytes of the asset, has had no error and serves
    no other request, at a position in the asset that is not before the first cached region,
    always returns (before that region the code fails, see [reader_cache_defects]). It completes the request with
    [kOk] and exactly the requested bytes of the asset (cut at its end), or leaves it
    waiting with the bytes before the first missing one delivered and a hole that
    starts at the missing byte for the intake to fill next. *)
Theorem ReadAt_spec s p n :
  coherent asset s → result_ s = kOk → read_request_ s = false →
  in_progress_ (read_at_request_ s) = false →
  0 ≤ p < asset_size s → 0 < n < 2 ^ 62 →
  (∀ k, begin_ (regions_ (sparse_byte_buffer_ s)) = Some k → k ≤ p) →
  ∃ s', ReadAt p n @ s ⇒ (tt, s') ∧
    served asset p (Z.min n (asset_size s - p)) p (regions_ (sparse_byte_buffer_ s))
      (completed s) s'.
Proof.
  intros C Hok Hreq Hprog Hp Hn Hfront.
  destruct (ReadAt_run s p n C Hok Hreq Hprog Hp Hn Hfront) as ([] & s' & ?). eauto.
Qed.

(** Filling the intake hole with bytes of the asset keeps the cache coherent. *)
Lemma coherent_fill s k v n :
  coherent asset s → intake_hole_ s = Some k → holes_ (sparse_byte_buffer_ s) !! k = Some v →
  0 < n ≤ v →
  let b := filled (sparse_byte_buffer_ s) k v (slice asset k n) in
  let i := next_hole (holes_ b) (k + n) in
  ∀ h, (h = read_hole_ s ∧ read_hole_ s ≠ Some k ∨ h = None) →
  coherent asset (set_intake_hole i (set_buffer b (set_read_hole h s))).
Proof.
  intros C Hi Hk Hn b i h Hh. pose proof (co_inv _ _ C) as I.
  assert (Hl : len (slice asset k n) = n) by (apply slice_len; lia).
  assert (Hb : 0 < len (slice asset k n) ≤ v) by lia.
  assert (Hkeep : ∀ j, j ≠ k → is_Some (holes_ (sparse_byte_buffer_ s) !! j) → is_Some (holes_ b !! j)).
  { intros j Hj [w Hw]. exists w. apply (filled_lookup _ I k v Hk _ Hb). by right. }
  split; cbn.
  - by apply filled_inv.
  - apply C.
  - intros p c Hpc. apply (filled_bytes _ I k v Hk _ Hb) in Hpc as [Hpc|[Hp Hc]].
    + by apply (co_bytes _ _ C).
    + assert (Hlt : (Z.to_nat (p - k) < length (slice asset k n))%nat)
        by (apply lookup_lt_is_Some; eauto). rewrite slice_length in Hlt.
      rewrite slice_lookup in Hc by done. injection Hc as <-. f_equal. lia.
  - pose proof (co_region _ _ C) as Hr. destruct (read_region_ s) as [j|]; [|done].
    cbn. apply lookup_insert_is_Some'. by right.
  - unfold i, next_hole. pose proof (least_spec (λ j, k + n <=? j) (holes_ b)) as Hlb.
    fold (lower_bound (holes_ b) (k + n)) in Hlb.
    destruct (lower_bound (holes_ b) (k + n)); [by destruct Hlb|].
    pose proof (least_spec (λ _, true) (holes_ b)) as Hbg. fold (begin_ (holes_ b)) in Hbg.
    destruct (begin_ (holes_ b)); [by destruct Hbg|done].
  - pose proof (co_read _ _ C) as Hr. destruct Hh as [[-> Hne]| ->]; [|done].
    destruct (read_hole_ s) as [j|]; [|done]. apply Hkeep; [congruence|done].
Qed.

(** What the intake's bytes for its hole change, before a pending request is served. *)
Definition stored (k v n : Z) (s : state) : state :=
  let b := filled (sparse_byte_buffer_ s) k v (slice asset k n) in
  let hit := match read_hole_ s with None => false | Some h => (k <=? h) && (h <? k + n) end in
  set_intake_hole (next_hole (holes_ b) (k + n)) (set_buffer b (set_read_hole (if hit then null_hole else read_hole_ s) s)).

Lemma PutIntakeBuffer_stores s k v n :
  coherent asset s → intake_hole_ s = Some k → holes_ (sparse_byte_buffer_ s) !! k = Some v → 0 < n ≤ v →
  coherent asset (stored k v n s) ∧
  PutIntakeBuffer k (slice asset k n) s = whenS (read_request_ s) ServeRequest (stored k v n s).
Proof.
  intros C Hi Hk Hn. pose proof (co_inv _ _ C) as I.
  pose proof (inv_size _ I). destruct (inv_hole _ I _ _ Hk) as (Hk0 & Hv & Hkv).
  assert (Hl : len (slice asset k n) = n) by (apply slice_len; lia). split.
  - apply coherent_fill; try done. destruct (read_hole_ s) as [j|]; [|by right].
    destruct ((k <=? j) && (j <? k + n)) eqn:E; [by right|]. left. split; [done|]. intros [= ->]. lia.
  - unfold PutIntakeBuffer, stored. erewrite prog_bind_run by done. rewrite Hi.
    erewrite prog_bind_run by (by apply dcheckS_true). erewrite prog_bind_run by done.
    erewrite prog_bind_run by (apply dcheckS_true; lia). erewrite prog_bind_run by (apply dcheckS_true; rewrite Hl; lia).
    erewrite (prog_bind_run _ _ s v s) by (cbn; by rewrite Hk). erewrite prog_bind_run by (apply dcheckS_true; lia).
    rewrite Hl, uwrap_small by (unfold is_u; lia).
    set (hit := match read_hole_ s with None => false | Some h => (k <=? h) && (h <? k + n) end).
    erewrite (prog_bind_run _ _ s tt (set_read_hole (if hit then null_hole else read_hole_ s) s))
      by (unfold whenS; destruct hit; [done|by destruct s]).
    unfold liftO. rewrite (Fill_run _ I k v Hk) by lia. by rewrite Hl.
Qed.

(** C33. With no request pending, or with one that no cached region starts after (otherwise
    the code fails, see [reader_cache_defects]), bytes of the asset delivered by the intake
    for its hole keep the cache coherent and are no longer missing.  With no request pending
    none is completed.  A pending one is served further: it completes with exactly the bytes
    of the asset it asked for, or waits for a byte that is still missing; if it waited for the
    first delivered byte, it advances past all of them. *)
Theorem PutIntakeBuffer_spec s k v n :
  coherent asset s → intake_hole_ s = Some k → holes_ (sparse_byte_buffer_ s) !! k = Some v → 0 < n ≤ v →
  (read_request_ s = false →
   ∃ s', PutIntakeBuffer k (slice asset k n) @ s ⇒ (tt, s') ∧ coherent asset s' ∧
     regions_ (sparse_byte_buffer_ s') = <[k := slice asset k n]> (regions_ (sparse_byte_buffer_ s)) ∧
     read_request_ s' = false ∧ completed s' = completed s ∧ result_ s' = result_ s) ∧
  ∀ p0 m, serving asset p0 m s →
   (∀ j, begin_ (<[k := slice asset k n]> (regions_ (sparse_byte_buffer_ s))) = Some j →
      j ≤ read_request_position_ s) →
   ∃ s', PutIntakeBuffer k (slice asset k n) @ s ⇒ (tt, s') ∧
     served asset p0 (read_request_position_ s + m - p0) (read_request_position_ s)
       (<[k := slice asset k n]> (regions_ (sparse_byte_buffer_ s))) (completed s) s' ∧
     (k = read_request_position_ s → read_request_ s' = true → k + n ≤ read_request_position_ s').
Proof.
  intros C Hi Hk Hn. destruct (PutIntakeBuffer_stores s k v n C Hi Hk Hn) as [C1 E1]. split.
  - intros Hreq. rewrite Hreq in E1. by exists (stored k v n s).
  - intros p0 m S Hfront. rewrite (sv_request _ _ _ _ S) in E1.
    assert (S1 : serving asset p0 m (stored k v n s)) by (destruct S; by split).
    assert (Hl : len (slice asset k n) = n) by (apply slice_len; lia).
    destruct (ServeRequest_run _ _ _ C1 S1) as ([] & s' & E & HQ). exists s'.
    split; [exact (eq_trans E1 E)|]. split; [done|].
    intros Hkp Hreq. destruct HQ as (C' & Hreg & [[? _]|(_ & Hlo & _ & _ & Hhole)]); [congruence|].
    destruct (Z.le_gt_cases (k + n) (read_request_position_ s')); [done|]. exfalso.
    apply (inv_apart _ (co_inv _ _ C') (read_request_position_ s')); [done|].
    exists k, (slice asset k n). rewrite Hreg. cbn. rewrite lookup_insert_eq. cbn in Hlo. split; [done|lia].
Qed.

End Serve.

(** ** Executions *)

Definition bytes (n : nat) : list Z := Z.of_nat <$> seq 0 n.

(** The outcome of a sequence of calls: the completed requests, or the fault. *)
Definition outcome_of (m : prog state unit) : outcome (list (Result * Z * list Z)) :=
  '(_, s) ← m initial; Ok (completed s).

(** Three sequences of calls on which the cache does not do what it promises.
    After a read at 50 was served first, a read at 10 finds the region at 50, which
    does not contain 10: a debug build stops at a [DCHECK], a release build copies
    from before the region's bytes.  A read at 10 while the intake's first read is
    in progress splits the hole being filled, so the intake's buffer no longer fits
    it and a debug build stops.  After a short upstream read the whole buffer is
    cached, so bytes the reader never wrote are served as bytes of the asset. *)
Lemma reader_cache_defects :
  let early b :=
    _ ← @Request_Start b 50 10; _ ← @UpstreamDescribed b kOk 100 true true;
    _ ← @UpstreamReply b kOk (bytes 10); @ReadAt b 10 5 in
  let split b :=
    _ ← @UpstreamDescribed b kOk 100 true false; _ ← @ReadAt b 10 5;
    @UpstreamReply b kOk (bytes 100) in
  let short b :=
    _ ← @UpstreamDescribed b kOk 100 true false; _ ← @UpstreamReply b kOk [7; 8; 9];
    @ReadAt b 1 5 in
  outcome_of (early debug_build) = Fault DCheckFailed ∧
  outcome_of (early release_build) = Fault UndefinedBehaviour ∧
  outcome_of (split debug_build) = Fault DCheckFailed ∧
  outcome_of (short debug_build) = Ok [(kOk, 5, [8; 9; 0; 0; 0])].
Proof. vm_compute. done. Qed.

(** A cache of an asset of 100 bytes that holds the first 40, and the same with a
    request for 8 bytes at 36 waiting for byte 40. *)
Definition some_asset (p : Z) : Z := p mod 256.
Definition partial_buffer : SparseByteBuffer.state :=
  filled (SparseByteBuffer.Initialize 100) 0 100 (slice some_asset 0 40).
Definition partial : state :=
  mk_cache kOk 100 true partial_buffer (Some 40) null_hole null_region false 0 0
    (mk_request false 0 [] 0 0) [] [] None.
Definition partial_waiting : state :=
  mk_cache kOk 100 true partial_buffer (Some 40) (Some 40) null_region true 40 4
    (mk_request true 40 (slice some_asset 36 4) 8 4) [] [] None.

Lemma partial_coherent h r b p n q :
  valid_iter (holes_ partial_buffer) h → valid_iter (holes_ partial_buffer) r →
  coherent some_asset (mk_cache kOk 100 true partial_buffer h r null_region b p n q [] [] None).
Proof.
  intros Hh Hr. assert (I : inv (SparseByteBuffer.Initialize 100)) by (apply Initialize_inv; lia).
  assert (Hl : len (slice some_asset 0 40) = 40) by by rewrite slice_len.
  split; cbn; try done.
  - apply filled_inv; [done|done|]. rewrite Hl. lia.
  - intros j c Hc. unfold partial_buffer in Hc.
    apply (filled_bytes _ I 0 100) in Hc as [(k & bb & Hk & _)|[Hj Hc]]; [|..|done|by rewrite Hl].
    + cbn in Hk. by rewrite lookup_empty in Hk.
    + assert (Hlt : (Z.to_nat (j - 0) < length (slice some_asset 0 40))%nat)
        by (apply lookup_lt_is_Some; eauto). rewrite slice_length in Hlt.
      rewrite slice_lookup in Hc by done. injection Hc as <-. f_equal. lia.
Qed.

Lemma ReadAt_spec_witness :
  ∃ s', @ReadAt debug_build 10 5 @ partial ⇒ (tt, s') ∧
    served some_asset 10 (Z.min 5 (asset_size partial - 10)) 10
      (regions_ (sparse_byte_buffer_ partial)) (completed partial) s'.
Proof.
  apply (@ReadAt_spec debug_build some_asset partial 10 5); try done.
  - apply partial_coherent; [by exists 60|done].
  - intros k Hk. vm_compute in Hk. injection Hk as <-. lia.
Defined.

Lemma PutIntakeBuffer_spec_witness :
  (∃ s', @PutIntakeBuffer debug_build 40 (slice some_asset 40 60) @ partial ⇒ (tt, s') ∧
    regions_ (sparse_byte_buffer_ s') = <[40 := slice some_asset 40 60]> (regions_ (sparse_byte_buffer_ partial))) ∧
  ∃ s', @PutIntakeBuffer debug_build 40 (slice some_asset 40 60) @ partial_waiting ⇒ (tt, s') ∧
    served some_asset 36 (40 + 4 - 36) 40
      (<[40 := slice some_asset 40 60]> (regions_ (sparse_byte_buffer_ partial_waiting))) [] s' ∧
    (40 = 40 → read_request_ s' = true → 40 + 60 ≤ read_request_position_ s').
Proof.
  split.
  - destruct (@PutIntakeBuffer_spec debug_build some_asset partial 40 60 60) as [H _];
      [apply partial_coherent; [by exists 60|done]|done|reflexivity|lia|].
    destruct (H eq_refl) as (s' & E & _ & Hr & _). exists s'. by split.
  - apply (@PutIntakeBuffer_spec debug_build some_asset partial_waiting 40 60 60);
      [apply partial_coherent; by exists 60|done|reflexivity|lia| |].
    + split; cbn; try done; try lia. intros k Hk. vm_compute in Hk. injection Hk as <-. lia.
    + intros k Hk. vm_compute in Hk. injection Hk as <-. cbn. lia.
Defined.

End ReaderCache.
