(* ===== verification/Graph.v ===== *)
(** The graph of the media framework (services/media/framework/graph.cc) with the
    references it hands out (refs.cc) and the connectors of its stages
    (stages/input.cc, stages/output.cc).

    Stages live in a heap indexed by address; the graph owns them and keeps them on
    three lists.  An [InputRef] or [OutputRef] is an address and an index, null when
    the address is 0; a stage that was deleted is no longer in the heap and
    dereferencing its address is undefined behaviour, so a dangling reference is a
    fault and not a value.  [P] is the type of the parts the stages host.

    The abstract view of a graph is the relation [linked] between its outputs and
    its inputs.  [wf] says that this relation is a matching recorded at both ends;
    the operations keep [wf] and change [linked] as a matching is changed. *)

From S2P Require Import Prelude Packet.

Module Graph.

(** ** Data *)

(** [Demand] *)
Inductive Demand := kPositive | kNeutral | kNegative.
#[export] Instance Demand_eq_dec : EqDecision Demand.
Proof. solve_decision. Defined.

(** [InputRef], [OutputRef] *)
Record Ref := mk_ref { stage_ : Z; index_ : nat }.
Definition null_ref : Ref := mk_ref 0 0.
#[export] Instance Ref_eq_dec : EqDecision Ref.
Proof. solve_decision. Defined.

(** [Input] *)
Record Input := mk_input {
  imate : Ref;
  prepared : bool;
  packet_from_upstream : option Packet.Packet;
}.

(** [Output] *)
Record Output := mk_output {
  omate : Ref;
  demand_ : Demand;
  copy_allocator : option Z;
}.

(** [Stage], with the part it hosts. *)
Record Stage (P : Type) := mk_stage {
  hosted : P;
  inputs : list Input;
  outputs : list Output;
  update_callback : bool;
  in_supply_backlog : bool;
  in_demand_backlog : bool;
}.
Arguments mk_stage {P}.
Arguments hosted {P}.
Arguments inputs {P}.
Arguments outputs {P}.
Arguments update_callback {P}.
Arguments in_supply_backlog {P}.
Arguments in_demand_backlog {P}.

(** [Graph], with the heap of its stages; [next] is an address never used so far. *)
Record Graph (P : Type) := mk_graph {
  heap : gmap Z (Stage P);
  next : Z;
  stages : list Z;
  sources : list Z;
  sinks : list Z;
}.
Arguments mk_graph {P}.
Arguments heap {P}.
Arguments next {P}.
Arguments stages {P}.
Arguments sources {P}.
Arguments sinks {P}.

(** The constructors [Input], [Output], [Stage] and [Graph]. *)
Definition new_input : Input := mk_input null_ref false None.
Definition new_output : Output := mk_output null_ref kNegative None.
Definition new_stage {P} (p : P) (input_count output_count : nat) : Stage P :=
  mk_stage p (replicate input_count new_input) (replicate output_count new_output)
    false false false.
Definition new_graph {P} : Graph P := mk_graph ∅ 1 [] [] [].

(** ** References *)

Section WithBuild.
Context {P : Type} `{Build}.
Implicit Types (g : Graph P) (st : Stage P) (r i o : Ref) (p : Z).

(** Access to the stage at an address. *)
Definition deref p : prog (Graph P) (Stage P) := λ g,
  match heap g !! p with Some st => Ok (st, g) | None => Fault UndefinedBehaviour end.
Definition set_heap (h : gmap Z (Stage P)) g : Graph P :=
  mk_graph h (next g) (stages g) (sources g) (sinks g).
Definition set_lists (ss so si : list Z) g : Graph P := mk_graph (heap g) (next g) ss so si.

(** [DCHECK] of a condition that reads the graph: not evaluated in release builds. *)
Definition dcheckG (m : prog (Graph P) bool) : prog (Graph P) unit :=
  if dcheck_is_on then b ← m; dcheckS b else mret tt.

Definition ref_bool r : bool := negb (stage_ r =? 0).
Definition part_valid p : bool := negb (p =? 0).

(** [InputRef::valid], [OutputRef::valid] *)
Definition input_valid i : prog (Graph P) bool :=
  if stage_ i =? 0 then mret false
  else st ← deref (stage_ i); mret (bool_decide (index_ i < length (inputs st))%nat).
Definition output_valid o : prog (Graph P) bool :=
  if stage_ o =? 0 then mret false
  else st ← deref (stage_ o); mret (bool_decide (index_ o < length (outputs st))%nat).

(** The constructors [InputRef(stage, index)] and [OutputRef(stage, index)]. *)
Definition input_ref p (index : nat) : prog (Graph P) Ref :=
  _ ← dcheckG (input_valid (mk_ref p index)); mret (mk_ref p index).
Definition output_ref p (index : nat) : prog (Graph P) Ref :=
  _ ← dcheckG (output_valid (mk_ref p index)); mret (mk_ref p index).

(** [InputRef::actual], [OutputRef::actual]: the connector's value; its members are
    changed by [set_input] and [set_output]. *)
Definition input_actual i : prog (Graph P) Input :=
  _ ← dcheckG (input_valid i);
  st ← deref (stage_ i);
  match inputs st !! index_ i with Some x => mret x | None => failS UndefinedBehaviour end.
Definition output_actual o : prog (Graph P) Output :=
  _ ← dcheckG (output_valid o);
  st ← deref (stage_ o);
  match outputs st !! index_ o with Some x => mret x | None => failS UndefinedBehaviour end.

Definition map_inputs (f : list Input → list Input) st : Stage P :=
  mk_stage (hosted st) (f (inputs st)) (outputs st) (update_callback st)
    (in_supply_backlog st) (in_demand_backlog st).
Definition map_outputs (f : list Output → list Output) st : Stage P :=
  mk_stage (hosted st) (inputs st) (f (outputs st)) (update_callback st)
    (in_supply_backlog st) (in_demand_backlog st).
Definition set_callback (b : bool) st : Stage P :=
  mk_stage (hosted st) (inputs st) (outputs st) b (in_supply_backlog st) (in_demand_backlog st).
Definition set_input i (x : Input) g : Graph P :=
  set_heap (alter (map_inputs (insert (index_ i) x)) (stage_ i) (heap g)) g.
Definition set_output o (x : Output) g : Graph P :=
  set_heap (alter (map_outputs (insert (index_ o) x)) (stage_ o) (heap g)) g.

(** [connected] and [mate] of the references. *)
Definition input_connected i : prog (Graph P) bool :=
  _ ← dcheckG (input_valid i); x ← input_actual i; mret (ref_bool (imate x)).
Definition output_connected o : prog (Graph P) bool :=
  _ ← dcheckG (output_valid o); x ← output_actual o; mret (ref_bool (omate x)).
Definition input_mate i : prog (Graph P) Ref :=
  _ ← dcheckG (input_valid i); x ← input_actual i; mret (imate x).
Definition output_mate o : prog (Graph P) Ref :=
  _ ← dcheckG (output_valid o); x ← output_actual o; mret (omate x).

(** [InputRef::part], [OutputRef::part]: the part that owns the connector. *)
Definition ref_part r : Z := stage_ r.

(** [PartRef::input_count], [input(index)], [input()] and their output versions. *)
Definition part_input_count p : prog (Graph P) nat :=
  _ ← dcheckS (part_valid p); st ← deref p; mret (length (inputs st)).
Definition part_output_count p : prog (Graph P) nat :=
  _ ← dcheckS (part_valid p); st ← deref p; mret (length (outputs st)).
Definition part_input_at p (index : nat) : prog (Graph P) Ref :=
  _ ← dcheckS (part_valid p);
  _ ← dcheckG (st ← deref p; mret (bool_decide (index < length (inputs st))%nat));
  input_ref p index.
Definition part_output_at p (index : nat) : prog (Graph P) Ref :=
  _ ← dcheckS (part_valid p);
  _ ← dcheckG (st ← deref p; mret (bool_decide (index < length (outputs st))%nat));
  output_ref p index.
Definition part_input p : prog (Graph P) Ref :=
  _ ← dcheckS (part_valid p);
  _ ← dcheckG (st ← deref p; mret (bool_decide (length (inputs st) = 1%nat)));
  input_ref p 0.
Definition part_output p : prog (Graph P) Ref :=
  _ ← dcheckS (part_valid p);
  _ ← dcheckG (st ← deref p; mret (bool_decide (length (outputs st) = 1%nat)));
  output_ref p 0.

(** ** Connectors *)

(** [Input::Connect], [Output::Connect], on the connector a reference names. *)
Definition Input_Connect i (output : Ref) : prog (Graph P) unit :=
  x ← input_actual i;
  _ ← dcheckG (output_valid output);
  _ ← dcheckS (negb (ref_bool (imate x)));
  modS (set_input i (mk_input output (prepared x) (packet_from_upstream x))).
Definition Output_Connect o (input : Ref) : prog (Graph P) unit :=
  x ← output_actual o;
  _ ← dcheckG (input_valid input);
  _ ← dcheckS (negb (ref_bool (omate x)));
  modS (set_output o (mk_output input (demand_ x) (copy_allocator x))).

(** [Input::Disconnect], [Output::Disconnect] *)
Definition Input_Disconnect i : prog (Graph P) unit :=
  x ← input_actual i;
  _ ← dcheckS (negb (prepared x));
  modS (set_input i (mk_input null_ref (prepared x) (packet_from_upstream x))).
Definition Output_Disconnect o : prog (Graph P) unit :=
  x ← output_actual o;
  modS (set_output o (mk_output null_ref (demand_ x) (copy_allocator x))).

(** ** Graph operations *)

(** [Graph::Add]: the stage is created for the part and appended to the lists. *)
Definition Add st : prog (Graph P) Z :=
  g ← getS;
  let p := next g in
  _ ← putS (mk_graph (<[p := st]> (heap g)) (p + 1) (stages g ++ [p])
              (if decide (length (inputs st) = 0%nat) then sources g ++ [p] else sources g)
              (if decide (length (outputs st) = 0%nat) then sinks g ++ [p] else sinks g));
  _ ← modS (λ g, set_heap (alter (set_callback true) p (heap g)) g);
  mret p.

(** [Graph::DisconnectOutput], [Graph::DisconnectInput] *)
Definition DisconnectOutput o : prog (Graph P) unit :=
  _ ← dcheckG (output_valid o);
  connected ← output_connected o;
  if negb connected then mret tt
  else
    mate ← output_mate o;
    x ← input_actual mate;
    if prepared x then failS CheckFailed
    else _ ← Input_Disconnect mate; Output_Disconnect o.
Definition DisconnectInput i : prog (Graph P) unit :=
  _ ← dcheckG (input_valid i);
  connected ← input_connected i;
  if negb connected then mret tt
  else
    mate ← input_mate i;
    _ ← output_actual mate;
    x ← input_actual i;
    if prepared x then failS CheckFailed
    else _ ← Output_Disconnect mate; Input_Disconnect i.

(** [Graph::Connect] *)
Definition Connect o i : prog (Graph P) Z :=
  _ ← dcheckG (output_valid o);
  _ ← dcheckG (input_valid i);
  oc ← output_connected o;
  _ ← whenS oc (DisconnectOutput o);
  ic ← input_connected i;
  _ ← whenS ic (DisconnectInput i);
  _ ← Output_Connect o i;
  _ ← Input_Connect i o;
  mret (ref_part i).

(** [Graph::ConnectParts], [ConnectOutputToPart], [ConnectPartToInput] *)
Definition ConnectParts (upstream_part downstream_part : Z) : prog (Graph P) Z :=
  _ ← dcheckS (part_valid upstream_part);
  _ ← dcheckS (part_valid downstream_part);
  o ← part_output upstream_part;
  i ← part_input downstream_part;
  _ ← Connect o i;
  mret downstream_part.
Definition ConnectOutputToPart o (downstream_part : Z) : prog (Graph P) Z :=
  _ ← dcheckG (output_valid o);
  _ ← dcheckS (part_valid downstream_part);
  i ← part_input downstream_part;
  _ ← Connect o i;
  mret downstream_part.
Definition ConnectPartToInput (upstream_part : Z) i : prog (Graph P) Z :=
  _ ← dcheckS (part_valid upstream_part);
  _ ← dcheckG (input_valid i);
  o ← part_output upstream_part;
  _ ← Connect o i;
  mret (ref_part i).

(** The two loops of [Graph::RemovePart], over the indices still to visit. *)
Fixpoint disconnect_inputs p (indices : list nat) : prog (Graph P) unit :=
  match indices with
  | [] => mret tt
  | k :: indices =>
      st ← deref p;
      x ← match inputs st !! k with Some x => mret x | None => failS UndefinedBehaviour end;
      _ ← whenS (ref_bool (imate x)) (i ← input_ref p k; DisconnectInput i);
      disconnect_inputs p indices
  end.
Fixpoint disconnect_outputs p (indices : list nat) : prog (Graph P) unit :=
  match indices with
  | [] => mret tt
  | k :: indices =>
      st ← deref p;
      x ← match outputs st !! k with Some x => mret x | None => failS UndefinedBehaviour end;
      _ ← whenS (ref_bool (omate x)) (o ← output_ref p k; DisconnectOutput o);
      disconnect_outputs p indices
  end.

(** [Graph::RemovePart]; [std::list::remove] removes every equal element. *)
Definition remove_all p (l : list Z) : list Z := filter (λ q, q ≠ p) l.
Definition RemovePart p : prog (Graph P) unit :=
  _ ← dcheckS (part_valid p);
  st ← deref p;
  _ ← disconnect_inputs p (seq 0 (length (inputs st)));
  st ← deref p;
  _ ← disconnect_outputs p (seq 0 (length (outputs st)));
  _ ← deref p;
  _ ← modS (λ g, set_heap (alter (set_callback false) p (heap g)) g);
  _ ← modS (λ g, set_lists (remove_all p (stages g)) (remove_all p (sources g))
                   (remove_all p (sinks g)) g);
  modS (λ g, set_heap (delete p (heap g)) g).

(** The loop of [Graph::RemovePartsConnectedToPart]; each round takes one part off
    [to_remove]. *)
Fixpoint part_refs (at_ : nat → prog (Graph P) Ref) (indices : list nat) :
    prog (Graph P) (list Z) :=
  match indices with
  | [] => mret []
  | k :: indices => r ← at_ k; ps ← part_refs at_ indices; mret (ref_part r :: ps)
  end.
Fixpoint remove_loop (fuel : nat) (to_remove : list Z) : prog (Graph P) unit :=
  match to_remove with
  | [] => mret tt
  | p :: to_remove =>
      match fuel with
      | O => failS OutOfFuel
      | S fuel =>
          input_count ← part_input_count p;
          upstream ← part_refs (part_input_at p) (seq 0 input_count);
          output_count ← part_output_count p;
          downstream ← part_refs (part_output_at p) (seq 0 output_count);
          _ ← RemovePart p;
          remove_loop fuel (to_remove ++ upstream ++ downstream)
      end
  end.
Definition RemovePartsConnectedToPart (fuel : nat) p : prog (Graph P) unit :=
  _ ← dcheckS (part_valid p);
  remove_loop fuel [p].

(** [Graph::RemovePartsConnectedToOutput], [RemovePartsConnectedToInput] *)
Definition RemovePartsConnectedToOutput (fuel : nat) o : prog (Graph P) unit :=
  _ ← dcheckG (output_valid o);
  connected ← output_connected o;
  if negb connected then mret tt
  else
    mate ← output_mate o;
    let downstream_part := ref_part mate in
    _ ← DisconnectOutput o;
    RemovePartsConnectedToPart fuel downstream_part.
Definition RemovePartsConnectedToInput (fuel : nat) i : prog (Graph P) unit :=
  _ ← dcheckG (input_valid i);
  connected ← input_connected i;
  if negb connected then mret tt
  else
    mate ← input_mate i;
    let upstream_part := ref_part mate in
    _ ← DisconnectInput i;
    RemovePartsConnectedToPart fuel upstream_part.

(** [Graph::Reset]: deletes the stages front to back. *)
Fixpoint delete_stages (l : list Z) : prog (Graph P) unit :=
  match l with
  | [] => mret tt
  | p :: l =>
      _ ← modS (λ g, set_lists l (sources g) (sinks g) g);
      _ ← deref p;
      _ ← modS (λ g, set_heap (delete p (heap g)) g);
      delete_stages l
  end.
Definition Reset : prog (Graph P) unit :=
  _ ← modS (λ g, set_lists (stages g) [] [] g);
  g ← getS;
  delete_stages (stages g).

End WithBuild.

(** ** The abstract graph *)

Section Theory.
Context {P : Type}.
Implicit Types (g : Graph P) (st : Stage P) (r i o : Ref) (p : Z).

Definition get_input g i : option Input := st ← heap g !! stage_ i; inputs st !! index_ i.
Definition get_output g o : option Output := st ← heap g !! stage_ o; outputs st !! index_ o.

(** Output [o] is connected to input [i]. *)
Definition linked g o i : Prop :=
  ref_bool i = true ∧ ∃ x, get_output g o = Some x ∧ omate x = i.

(** The graph without its connections: what connecting and disconnecting leave alone. *)
Definition imask (x : Input) : Input := mk_input null_ref (prepared x) (packet_from_upstream x).
Definition omask (x : Output) : Output := mk_output null_ref (demand_ x) (copy_allocator x).
Definition smask st : Stage P := map_inputs (fmap imask) (map_outputs (fmap omask) st).
Definition skel g : Graph P := set_heap (smask <$> heap g) g.

(** The graph's lists name exactly the live stages. *)
Record owned g : Prop := {
  owned_next : 0 < next g;
  owned_addr : ∀ p st, heap g !! p = Some st → 0 < p < next g;
  owned_stages : ∀ p, p ∈ stages g ↔ is_Some (heap g !! p);
  owned_nodup : NoDup (stages g);
  owned_sources : sources g ⊆ stages g;
  owned_sinks : sinks g ⊆ stages g;
}.

(** Connections are recorded at both ends, and only a connected input is prepared. *)
Record matched g : Prop := {
  matched_out : ∀ o x, get_output g o = Some x → ref_bool (omate x) = true →
    ∃ y, get_input g (omate x) = Some y ∧ imate y = o;
  matched_in : ∀ i y, get_input g i = Some y → ref_bool (imate y) = true →
    ∃ x, get_output g (imate y) = Some x ∧ omate x = i;
  matched_prepared : ∀ i y, get_input g i = Some y → prepared y = true →
    ref_bool (imate y) = true;
}.

Definition wf g : Prop := owned g ∧ matched g.

(** *** Reading and writing connectors *)

Lemma get_set_input g i i' x y :
  get_input g i = Some y →
  get_input (set_input i x g) i' = if decide (i' = i) then Some x else get_input g i'.
Proof.
  unfold get_input, set_input. cbn. intros Hy.
  destruct (heap g !! stage_ i) as [st|] eqn:E; [|done]. cbn in Hy.
  destruct (decide (stage_ i' = stage_ i)) as [Es|Es].
  - rewrite Es, lookup_alter_eq, E. cbn. destruct (decide (i' = i)) as [->|Hne].
    + apply list_lookup_insert_eq. by apply lookup_lt_Some in Hy.
    + apply list_lookup_insert_ne. intros Ei. apply Hne.
      destruct i, i'. cbn in *. by subst.
  - rewrite lookup_alter_ne by done. destruct (decide (i' = i)); [by subst|done].
Qed.

Lemma get_set_output g o o' x y :
  get_output g o = Some y →
  get_output (set_output o x g) o' = if decide (o' = o) then Some x else get_output g o'.
Proof.
  unfold get_output, set_output. cbn. intros Hy.
  destruct (heap g !! stage_ o) as [st|] eqn:E; [|done]. cbn in Hy.
  destruct (decide (stage_ o' = stage_ o)) as [Es|Es].
  - rewrite Es, lookup_alter_eq, E. cbn. destruct (decide (o' = o)) as [->|Hne].
    + apply list_lookup_insert_eq. by apply lookup_lt_Some in Hy.
    + apply list_lookup_insert_ne. intros Ei. apply Hne.
      destruct o, o'. cbn in *. by subst.
  - rewrite lookup_alter_ne by done. destruct (decide (o' = o)); [by subst|done].
Qed.

Lemma get_input_set_output g o i x : get_input (set_output o x g) i = get_input g i.
Proof.
  unfold get_input, set_output. cbn.
  destruct (decide (stage_ i = stage_ o)) as [->|]; [|by rewrite lookup_alter_ne].
  rewrite lookup_alter_eq. by destruct (heap g !! stage_ o).
Qed.

Lemma get_output_set_input g o i x : get_output (set_input i x g) o = get_output g o.
Proof.
  unfold get_output, set_input. cbn.
  destruct (decide (stage_ o = stage_ i)) as [->|]; [|by rewrite lookup_alter_ne].
  rewrite lookup_alter_eq. by destruct (heap g !! stage_ i).
Qed.

Lemma set_input_output_comm g o i x y :
  set_input i y (set_output o x g) = set_output o x (set_input i y g).
Proof.
  unfold set_input, set_output, set_heap. cbn. f_equal.
  destruct (decide (stage_ o = stage_ i)) as [->|].
  - rewrite !alter_alter_eq. by apply alter_ext.
  - by rewrite alter_alter_ne.
Qed.

Lemma skel_set_input g i x y :
  get_input g i = Some y → imask x = imask y → skel (set_input i x g) = skel g.
Proof.
  unfold get_input. intros Hy Hxy. unfold skel, set_input, set_heap. cbn. f_equal.
  apply map_eq. intros p. rewrite !lookup_fmap.
  destruct (decide (p = stage_ i)) as [->|]; [|by rewrite lookup_alter_ne].
  rewrite lookup_alter_eq. destruct (heap g !! stage_ i) as [st|]; [|done]. cbn in *.
  unfold smask, map_inputs, map_outputs. cbn. do 2 f_equal.
  rewrite list_fmap_insert, Hxy. apply list_insert_id. by rewrite list_lookup_fmap, Hy.
Qed.

Lemma skel_set_output g o x y :
  get_output g o = Some y → omask x = omask y → skel (set_output o x g) = skel g.
Proof.
  unfold get_output. intros Hy Hxy. unfold skel, set_output, set_heap. cbn. f_equal.
  apply map_eq. intros p. rewrite !lookup_fmap.
  destruct (decide (p = stage_ o)) as [->|]; [|by rewrite lookup_alter_ne].
  rewrite lookup_alter_eq. destruct (heap g !! stage_ o) as [st|]; [|done]. cbn in *.
  unfold smask, map_inputs, map_outputs. cbn. do 2 f_equal.
  rewrite list_fmap_insert, Hxy. apply list_insert_id. by rewrite list_lookup_fmap, Hy.
Qed.

Lemma skel_is_Some g g' p : skel g' = skel g → is_Some (heap g' !! p) ↔ is_Some (heap g !! p).
Proof.
  intros [= Hh _ _ _ _]. apply (f_equal (lookup p)) in Hh. rewrite !lookup_fmap in Hh.
  destruct (heap g' !! p), (heap g !! p); cbn in Hh; try done.
  all: rewrite is_Some_alt; naive_solver.
Qed.

Lemma owned_skel g g' : skel g' = skel g → owned g → owned g'.
Proof.
  intros E [Hn Ha Hs Hd Hso Hsi]. pose proof (λ p, skel_is_Some g g' p E) as Hd'.
  injection E as _ En Es Eso Esi.
  split; rewrite ?En, ?Es, ?Eso, ?Esi; try done.
  - intros p st Hp. destruct (proj1 (Hd' p) (mk_is_Some _ _ Hp)) as [st' Hst']. by eapply Ha.
  - intros p. by rewrite Hd'.
Qed.

(** *** Adding and removing a connection *)

Lemma linked_fun g o i i' : linked g o i → linked g o i' → i = i'.
Proof. intros (_ & x & Hx & <-) (_ & x' & Hx' & <-). by simplify_eq. Qed.

Lemma linked_in g o i :
  matched g → linked g o i → ∃ y, get_input g i = Some y ∧ imate y = o.
Proof. intros M (Hi & x & Hx & <-). by eapply matched_out. Qed.

Lemma linked_inj g o o' i : matched g → linked g o i → linked g o' i → o = o'.
Proof.
  intros M (y & Hy & <-)%linked_in (y' & Hy' & <-)%linked_in; [|done..]. by simplify_eq.
Qed.

Lemma owned_in g i y : owned g → get_input g i = Some y → ref_bool i = true.
Proof.
  unfold get_input, ref_bool. intros Ow Hy.
  destruct (heap g !! stage_ i) as [st|] eqn:E; [|done].
  pose proof (owned_addr g Ow _ _ E). apply negb_true_iff, Z.eqb_neq. lia.
Qed.

Lemma owned_out g o x : owned g → get_output g o = Some x → ref_bool o = true.
Proof.
  unfold get_output, ref_bool. intros Ow Hy.
  destruct (heap g !! stage_ o) as [st|] eqn:E; [|done].
  pose proof (owned_addr g Ow _ _ E). apply negb_true_iff, Z.eqb_neq. lia.
Qed.

Lemma in_linked g i y :
  owned g → matched g → get_input g i = Some y → ref_bool (imate y) = true →
  linked g (imate y) i.
Proof.
  intros Ow M Hy Hm. split; [by eapply owned_in|]. by eapply matched_in.
Qed.

(** [g'] is [g] with the connection of [o], if any, removed; and with [o] connected
    to [i] in place of what either was connected to. *)
Definition unlinked g g' o : Prop :=
  wf g' ∧ skel g' = skel g ∧ ∀ o' i', linked g' o' i' ↔ linked g o' i' ∧ o' ≠ o.
Definition relinked g g' o i : Prop :=
  wf g' ∧ skel g' = skel g ∧
  ∀ o' i', linked g' o' i' ↔ (o' = o ∧ i' = i) ∨ (o' ≠ o ∧ i' ≠ i ∧ linked g o' i').

Lemma unlink_spec g o i x y :
  wf g → linked g o i → get_output g o = Some x → get_input g i = Some y → prepared y = false →
  unlinked g (set_output o (omask x) (set_input i (imask y) g)) o.
Proof.
  intros [Ow M] Hl Hx Hy Hp. set (g' := set_output o (omask x) (set_input i (imask y) g)).
  assert (skel g' = skel g) as Es.
  { subst g'. rewrite (skel_set_output _ _ _ x), (skel_set_input _ _ _ y); try done.
    by rewrite get_output_set_input. }
  assert (∀ o', get_output g' o' = if decide (o' = o) then Some (omask x) else get_output g o')
    as Go.
  { intros o'. subst g'. rewrite (get_set_output _ _ _ _ x) by (by rewrite get_output_set_input).
    by rewrite get_output_set_input. }
  assert (∀ i', get_input g' i' = if decide (i' = i) then Some (imask y) else get_input g i') as Gi.
  { intros i'. subst g'. rewrite get_input_set_output. by eapply get_set_input. }
  split_and!; [split|done|].
  - by eapply owned_skel.
  - split.
    + intros o' x'. rewrite Go. case_decide; [by intros [= <-]|]. intros Hx' Hm. rewrite Gi.
      case_decide as Hi; [|by eapply matched_out].
      destruct H. apply (linked_inj g o' o i M); [|done]. split; [by subst|eauto].
    + intros i' y'. rewrite Gi. case_decide as Hi; [by intros [= <-]|]. intros Hy' Hm. rewrite Go.
      case_decide as Ho; [|by eapply matched_in].
      destruct Hi. apply (linked_fun g o i' i); [|done]. rewrite <- Ho. by apply in_linked.
    + intros i' y'. rewrite Gi. case_decide; [intros [= <-]; cbn; congruence|].
      by apply matched_prepared.
  - intros o' i'. unfold linked. setoid_rewrite Go. case_decide as Ho.
    + split; [|tauto]. intros (Hi & x' & [= <-] & <-). done.
    + tauto.
Qed.

Lemma link_spec g o i x y :
  wf g → get_output g o = Some x → get_input g i = Some y →
  ref_bool (omate x) = false → ref_bool (imate y) = false →
  relinked g
    (set_input i (mk_input o (prepared y) (packet_from_upstream y))
       (set_output o (mk_output i (demand_ x) (copy_allocator x)) g)) o i.
Proof.
  intros [Ow M] Hx Hy Fo Fi. set (x1 := mk_output i _ _). set (y1 := mk_input o _ _).
  set (g' := set_input i y1 (set_output o x1 g)).
  assert (skel g' = skel g) as Es.
  { subst g'. rewrite (skel_set_input _ _ _ y), (skel_set_output _ _ _ x); try done.
    by rewrite get_input_set_output. }
  assert (∀ o', get_output g' o' = if decide (o' = o) then Some x1 else get_output g o') as Go.
  { intros o'. subst g'. rewrite get_output_set_input. by eapply get_set_output. }
  assert (∀ i', get_input g' i' = if decide (i' = i) then Some y1 else get_input g i') as Gi.
  { intros i'. subst g'. rewrite (get_set_input _ _ _ _ y) by (by rewrite get_input_set_output).
    by rewrite get_input_set_output. }
  assert (∀ o', linked g o' i → False) as Ni.
  { intros o' Hl. destruct (linked_in g o' i M Hl) as (z & Hz & <-). simplify_eq.
    destruct Hl as (_ & x' & Hx' & _). apply (owned_out g) in Hx'; [congruence|done]. }
  assert (∀ i', linked g o i' → False) as No.
  { intros i' (Hi & x' & Hx' & <-). simplify_eq. congruence. }
  split_and!; [split|done|].
  - by eapply owned_skel.
  - split.
    + intros o' x'. rewrite Go. case_decide as Ho.
      * intros [= <-] _. cbn. rewrite Gi, decide_True by done. by exists y1.
      * intros Hx' Hm. rewrite Gi. case_decide as Hi; [|by eapply matched_out].
        destruct (Ni o'). split; [by rewrite <- Hi|eauto].
    + intros i' y'. rewrite Gi. case_decide as Hi.
      * intros [= <-] _. cbn. rewrite Go, decide_True by done. by exists x1.
      * intros Hy' Hm. rewrite Go. case_decide as Ho; [|by eapply matched_in].
        destruct (No i'). rewrite <- Ho. by apply in_linked.
    + intros i' y'. rewrite Gi. case_decide as Hi; [|by apply matched_prepared].
      intros [= <-] _. by eapply owned_out.
  - intros o' i'. unfold linked at 1. setoid_rewrite Go. case_decide as Ho.
    + split.
      * intros (_ & x' & [= <-] & <-). by left.
      * intros [[_ ->]|[? _]]; [|done]. split; [by eapply owned_in|by exists x1].
    + split.
      * intros Hl. right. split_and!; [done| |done]. intros ->. by eapply Ni.
      * intros [[? _]|(_ & _ & Hl)]; [done|exact Hl].
Qed.

End Theory.

(** ** Behaviour of the operations *)

Create HintDb graph.

Section Runs.
Context {P : Type} `{Build}.
Implicit Types (g : Graph P) (st : Stage P) (r i o : Ref) (p : Z).

Lemma dcheckG_run m g : m g = Ok (true, g) → dcheckG m g = Ok (tt, g).
Proof.
  intros Hm. unfold dcheckG. destruct dcheck_is_on; [|done].
  run_bind Hm. by apply dcheckS_true.
Qed.

Lemma stage_deref_run g p st : heap g !! p = Some st → deref p g = Ok (st, g).
Proof. unfold deref. by intros ->. Qed.

Lemma input_valid_run g i y : owned g → get_input g i = Some y → input_valid i g = Ok (true, g).
Proof.
  intros Ow Hy. pose proof (owned_in g i y Ow Hy) as Hb. unfold input_valid.
  apply negb_true_iff in Hb. rewrite Hb. unfold get_input in Hy.
  destruct (heap g !! stage_ i) as [st|] eqn:E; [|done].
  run_bind (stage_deref_run _ _ _ E).
  rewrite bool_decide_eq_true_2; [done|]. by eapply lookup_lt_Some.
Qed.

Lemma output_valid_run g o x : owned g → get_output g o = Some x → output_valid o g = Ok (true, g).
Proof.
  intros Ow Hy. pose proof (owned_out g o x Ow Hy) as Hb. unfold output_valid.
  apply negb_true_iff in Hb. rewrite Hb. unfold get_output in Hy.
  destruct (heap g !! stage_ o) as [st|] eqn:E; [|done].
  run_bind (stage_deref_run _ _ _ E).
  rewrite bool_decide_eq_true_2; [done|]. by eapply lookup_lt_Some.
Qed.

Lemma dcheck_in_run g i y : owned g → get_input g i = Some y → dcheckG (input_valid i) g = Ok (tt, g).
Proof. intros. eapply dcheckG_run, input_valid_run; eauto. Qed.

Lemma dcheck_out_run g o x :
  owned g → get_output g o = Some x → dcheckG (output_valid o) g = Ok (tt, g).
Proof. intros. eapply dcheckG_run, output_valid_run; eauto. Qed.

Lemma input_actual_run g i y : owned g → get_input g i = Some y → input_actual i g = Ok (y, g).
Proof.
  intros Ow Hy. unfold input_actual.
  run_bind (dcheck_in_run _ _ _ Ow Hy). unfold get_input in Hy.
  destruct (heap g !! stage_ i) as [st|] eqn:E; [|done].
  run_bind (stage_deref_run _ _ _ E). cbn in Hy. by rewrite Hy.
Qed.

Lemma output_actual_run g o x : owned g → get_output g o = Some x → output_actual o g = Ok (x, g).
Proof.
  intros Ow Hy. unfold output_actual.
  run_bind (dcheck_out_run _ _ _ Ow Hy). unfold get_output in Hy.
  destruct (heap g !! stage_ o) as [st|] eqn:E; [|done].
  run_bind (stage_deref_run _ _ _ E). cbn in Hy. by rewrite Hy.
Qed.

Lemma input_connected_run g i y :
  owned g → get_input g i = Some y → input_connected i g = Ok (ref_bool (imate y), g).
Proof.
  intros Ow Hy. unfold input_connected.
  run_bind (dcheck_in_run _ _ _ Ow Hy).
  by run_bind (input_actual_run _ _ _ Ow Hy).
Qed.

Lemma output_connected_run g o x :
  owned g → get_output g o = Some x → output_connected o g = Ok (ref_bool (omate x), g).
Proof.
  intros Ow Hy. unfold output_connected.
  run_bind (dcheck_out_run _ _ _ Ow Hy).
  by run_bind (output_actual_run _ _ _ Ow Hy).
Qed.

Lemma input_mate_run g i y : owned g → get_input g i = Some y → input_mate i g = Ok (imate y, g).
Proof.
  intros Ow Hy. unfold input_mate.
  run_bind (dcheck_in_run _ _ _ Ow Hy).
  by run_bind (input_actual_run _ _ _ Ow Hy).
Qed.

Lemma output_mate_run g o x :
  owned g → get_output g o = Some x → output_mate o g = Ok (omate x, g).
Proof.
  intros Ow Hy. unfold output_mate.
  run_bind (dcheck_out_run _ _ _ Ow Hy).
  by run_bind (output_actual_run _ _ _ Ow Hy).
Qed.

#[local] Hint Resolve stage_deref_run dcheck_in_run dcheck_out_run input_actual_run
  output_actual_run input_connected_run output_connected_run input_mate_run output_mate_run : graph.

(** One step of a run: a check or a read whose result the hypotheses give. *)
Ltac gread := eapply runs_step; [solve [eauto 3 with graph]|].

(** The input an output is connected to, if any, is not prepared. *)
Definition idle g o : Prop :=
  ∀ i y, linked g o i → get_input g i = Some y → prepared y = false.

Lemma unlinked_refl g o : wf g → (∀ i, ¬ linked g o i) → unlinked g g o.
Proof. intros W Hn. split_and!; try done. intros o' i'. split; [|tauto]. naive_solver. Qed.

Lemma not_linked g o x i : get_output g o = Some x → ref_bool (omate x) = false → ¬ linked g o i.
Proof. intros Hx Hm (Hi & x' & Hx' & <-). simplify_eq. congruence. Qed.

Lemma not_linked_in g o i y :
  owned g → matched g → get_input g i = Some y → ref_bool (imate y) = false → ¬ linked g o i.
Proof.
  intros Ow M Hy Hm Hl. destruct (linked_in g o i M Hl) as (z & Hz & <-). simplify_eq.
  destruct Hl as (_ & x & Hx & _). apply (owned_out g) in Hx; [congruence|done].
Qed.

Lemma DisconnectOutput_runs g o x :
  wf g → get_output g o = Some x → idle g o →
  runs (DisconnectOutput o) g (λ _ g', unlinked g g' o).
Proof.
  intros W Hx Hidle. pose proof W as [Ow M]. unfold DisconnectOutput. gread.
  gread.
  destruct (ref_bool (omate x)) eqn:Hm; cbn [negb].
  2:{ apply runs_ret, unlinked_refl; [done|]. intros i. by eapply not_linked. }
  assert (linked g o (omate x)) as Hl by (split; eauto).
  destruct (matched_out g M o x Hx Hm) as (y & Hy & Hyo).
  pose proof (Hidle _ _ Hl Hy) as Hp.
  gread. gread. rewrite Hp.
  pose proof (unlink_spec g o (omate x) x y W Hl Hx Hy Hp) as HU.
  unfold Input_Disconnect. eapply runs_step.
  { run_bind (input_actual_run _ _ _ Ow Hy). rewrite Hp.
    run_bind (dcheckS_true _ _ eq_refl). reflexivity. }
  unfold Output_Disconnect. eapply runs_step.
  { eapply output_actual_run; [|by rewrite get_output_set_input].
    eapply owned_skel; [|done]. eapply skel_set_input; [done|]. by unfold imask; cbn; rewrite Hp. }
  apply runs_mod_last. rewrite <- Hp. exact HU.
Qed.

(** [g'] is [g] with the connection of input [i], if any, removed. *)
Definition unlinked_in g g' i : Prop :=
  wf g' ∧ skel g' = skel g ∧ ∀ o' i', linked g' o' i' ↔ linked g o' i' ∧ i' ≠ i.
Definition idle_in g i : Prop := ∀ y, get_input g i = Some y → prepared y = false.

Lemma unlinked_to_in g g' o i :
  wf g → linked g o i → unlinked g g' o → unlinked_in g g' i.
Proof.
  intros [Ow M] Hl (W' & Es & HL). split_and!; try done. intros o' i'. rewrite HL.
  split; intros [Hl' Hne]; (split; [done|]); contradict Hne; subst.
  - by eapply linked_inj.
  - by eapply linked_fun.
Qed.

Lemma DisconnectInput_runs g i y :
  wf g → get_input g i = Some y → prepared y = false →
  runs (DisconnectInput i) g (λ _ g', unlinked_in g g' i).
Proof.
  intros W Hy Hp. pose proof W as [Ow M]. unfold DisconnectInput. gread.
  gread.
  destruct (ref_bool (imate y)) eqn:Hm; cbn [negb].
  2:{ apply runs_ret. split_and!; try done. intros o' i'. split; [|tauto].
      intros Hl. split; [done|]. intros ->. by eapply not_linked_in. }
  pose proof (in_linked g i y Ow M Hy Hm) as Hl.
  destruct (matched_in g M i y Hy Hm) as (x & Hx & Hxi).
  gread. gread. gread. rewrite Hp.
  pose proof (unlink_spec g (imate y) i x y W Hl Hx Hy Hp) as HU.
  unfold Output_Disconnect. eapply runs_step.
  { run_bind (output_actual_run _ _ _ Ow Hx). reflexivity. }
  unfold Input_Disconnect. eapply runs_step.
  { eapply input_actual_run; [|by rewrite get_input_set_output].
    eapply owned_skel; [|done]. by eapply skel_set_output. }
  apply runs_dcheck; [by rewrite Hp|]. apply runs_mod_last.
  fold (imask y). fold (omask x). rewrite set_input_output_comm. by eapply unlinked_to_in.
Qed.

(** What masking preserves: a connector is there, and an input stays prepared. *)
Lemma skel_input g g' i y :
  skel g' = skel g → get_input g i = Some y →
  ∃ y', get_input g' i = Some y' ∧ prepared y' = prepared y.
Proof.
  intros [= Hh _ _ _ _] Hy. apply (f_equal (lookup (stage_ i))) in Hh.
  rewrite !lookup_fmap in Hh. unfold get_input in *.
  destruct (heap g !! stage_ i) as [st|], (heap g' !! stage_ i) as [st'|]; cbn in *; try done.
  injection Hh as _ Hi _ _ _ _. apply (f_equal (lookup (index_ i))) in Hi.
  rewrite !list_lookup_fmap, Hy in Hi. destruct (inputs st' !! index_ i) as [y'|]; [|done].
  exists y'. split; [done|]. by injection Hi.
Qed.

Lemma skel_output g g' o x :
  skel g' = skel g → get_output g o = Some x → ∃ x', get_output g' o = Some x'.
Proof.
  intros [= Hh _ _ _ _] Hy. apply (f_equal (lookup (stage_ o))) in Hh.
  rewrite !lookup_fmap in Hh. unfold get_output in *.
  destruct (heap g !! stage_ o) as [st|], (heap g' !! stage_ o) as [st'|]; cbn in *; try done.
  injection Hh as _ _ Hi _ _ _. apply (f_equal (lookup (index_ o))) in Hi.
  rewrite !list_lookup_fmap, Hy in Hi. destruct (outputs st' !! index_ o) as [y'|]; [|done].
  by exists y'.
Qed.

Lemma whenS_runs {S} b (m : prog S unit) s (Q : unit → S → Prop) :
  (b = true → runs m s Q) → (b = false → Q tt s) → runs (whenS b m) s Q.
Proof. destruct b; cbn; [auto|]. intros _ HQ. by apply runs_ret, HQ. Qed.

Lemma link_runs g o i x y :
  wf g → get_output g o = Some x → get_input g i = Some y →
  ref_bool (omate x) = false → ref_bool (imate y) = false →
  runs (_ ← Output_Connect o i; Input_Connect i o) g (λ _ g', relinked g g' o i).
Proof.
  intros W Hx Hy Fo Fi. pose proof W as [Ow M].
  unfold Output_Connect. eapply runs_step.
  { run_bind (output_actual_run _ _ _ Ow Hx).
    run_bind (dcheck_in_run _ _ _ Ow Hy). rewrite Fo.
    by run_bind (dcheckS_true _ _ eq_refl). }
  set (g1 := set_output _ _ g).
  assert (owned g1) as Ow1 by (eapply owned_skel; [by eapply skel_set_output|done]).
  assert (get_input g1 i = Some y) as Hy1 by (subst g1; by rewrite get_input_set_output).
  assert (get_output g1 o = Some (mk_output i (demand_ x) (copy_allocator x))) as Hx1.
  { subst g1. rewrite (get_set_output _ _ _ _ x), decide_True; done. }
  unfold Input_Connect. gread. gread. apply runs_dcheck; [by rewrite Fi|].
  apply runs_mod_last. by apply link_spec.
Qed.

Lemma Connect_runs g o i x y :
  wf g → get_output g o = Some x → get_input g i = Some y →
  idle g o → prepared y = false →
  runs (Connect o i) g (λ p g', p = stage_ i ∧ relinked g g' o i).
Proof.
  intros W Hx Hy Hidle Hp. pose proof W as [Ow M]. unfold Connect. gread. gread.
  gread.
  eapply runs_bind with (Q := λ _ g', unlinked g g' o).
  { apply whenS_runs; intros Hm; [by eapply DisconnectOutput_runs|].
    apply unlinked_refl; [done|]. intros i'. by eapply not_linked. }
  intros _ g1 (W1 & E1 & L1). pose proof W1 as [Ow1 M1].
  destruct (skel_input _ _ _ _ E1 Hy) as (y1 & Hy1 & Hp1). rewrite Hp in Hp1.
  gread.
  eapply runs_bind with (Q := λ _ g', unlinked_in g1 g' i).
  { apply whenS_runs; intros Hm; [by eapply DisconnectInput_runs|].
    split_and!; try done. intros o' i'. split; [|tauto].
    intros Hl. split; [done|]. intros ->. by eapply not_linked_in. }
  intros _ g2 (W2 & E2 & L2). pose proof W2 as [Ow2 M2].
  destruct (skel_input _ _ _ _ E2 Hy1) as (y2 & Hy2 & Hp2). rewrite Hp1 in Hp2.
  destruct (skel_output g g2 o x) as (x2 & Hx2); [congruence|done|].
  assert (ref_bool (omate x2) = false) as Fo.
  { apply not_true_is_false. intros Hm.
    assert (linked g2 o (omate x2)) as Hl by (split; eauto).
    rewrite L2, L1 in Hl. tauto. }
  assert (ref_bool (imate y2) = false) as Fi.
  { apply not_true_is_false. intros Hm.
    pose proof (in_linked g2 i y2 Ow2 M2 Hy2 Hm) as Hl. rewrite L2 in Hl. tauto. }
  destruct (link_runs g2 o i x2 y2 W2 Hx2 Hy2 Fo Fi) as ([] & g' & Hrun & W' & E' & L').
  apply prog_bind_Ok in Hrun as ([] & g3 & H3 & H4).
  eapply runs_step; [done|]. eapply runs_step; [done|]. apply runs_ret. split; [done|].
  split_and!; [done|congruence|]. intros o' i'. rewrite L', L2, L1. tauto.
Qed.

(** *** Adding a part *)

(** A stage none of whose connectors is connected or prepared. *)
Definition detached st : Prop :=
  (∀ k y, inputs st !! k = Some y → imate y = null_ref ∧ prepared y = false) ∧
  (∀ k x, outputs st !! k = Some x → omate x = null_ref).

Lemma new_stage_detached part n m : detached (new_stage part n m : Stage P).
Proof. split; intros k z [-> _]%lookup_replicate; done. Qed.

Lemma Add_runs g st :
  wf g → detached st →
  runs (Add st) g (λ p g',
    wf g' ∧ heap g !! p = None ∧ heap g' = <[p := set_callback true st]> (heap g) ∧
    ∀ o i, linked g' o i ↔ linked g o i).
Proof.
  intros [Ow M] [Di Do]. unfold Add. apply runs_get. cbv zeta.
  eapply runs_step; [reflexivity|]. apply runs_mod, runs_ret.
  set (p := next g). set (g' := set_heap _ _).
  assert (heap g !! p = None) as Hp.
  { apply eq_None_not_Some. intros [st' Hst']. pose proof (owned_addr g Ow _ _ Hst'). lia. }
  assert (heap g' = <[p := set_callback true st]> (heap g)) as Eh.
  { subst g'. cbn. apply alter_insert_eq. }
  assert (∀ i, get_input g' i = if decide (stage_ i = p) then inputs st !! index_ i
                                else get_input g i) as Gi.
  { intros i. unfold get_input. rewrite Eh. case_decide as E; [by rewrite E, lookup_insert_eq|].
    by rewrite lookup_insert_ne. }
  assert (∀ o, get_output g' o = if decide (stage_ o = p) then outputs st !! index_ o
                                 else get_output g o) as Go.
  { intros o. unfold get_output. rewrite Eh. case_decide as E; [by rewrite E, lookup_insert_eq|].
    by rewrite lookup_insert_ne. }
  assert (∀ o x, get_output g o = Some x → stage_ o ≠ p) as No.
  { intros o x Hx E. unfold get_output in Hx. by rewrite E, Hp in Hx. }
  assert (∀ i y, get_input g i = Some y → stage_ i ≠ p) as Ni.
  { intros i y Hx E. unfold get_input in Hx. by rewrite E, Hp in Hx. }
  split_and!; [split; split|done|done|].
  - pose proof (owned_next g Ow). cbn. lia.
  - intros q st'. rewrite Eh, lookup_insert_Some. cbn. fold p.
    intros [[<- _]|[_ Hq]]; [pose proof (owned_next g Ow); lia|].
    pose proof (owned_addr g Ow _ _ Hq). lia.
  - intros q. rewrite Eh. cbn. fold p. rewrite elem_of_app, list_elem_of_singleton.
    rewrite (owned_stages g Ow), lookup_insert_is_Some.
    destruct (decide (p = q)); naive_solver.
  - cbn. fold p. apply NoDup_app. split_and!; [apply (owned_nodup g Ow)| |apply NoDup_singleton].
    intros q Hq%(owned_stages g Ow) ->%list_elem_of_singleton. rewrite Hp in Hq. by destruct Hq.
  - cbn. fold p. pose proof (owned_sources g Ow). case_decide; set_solver.
  - cbn. fold p. pose proof (owned_sinks g Ow). case_decide; set_solver.
  - intros o x. rewrite Go. case_decide; [intros Hx%Do; by rewrite Hx|]. intros Hx Hm.
    rewrite Gi. destruct (matched_out g M o x Hx Hm) as (y & Hy & Hyo).
    rewrite decide_False by (by eapply Ni). by exists y.
  - intros i y. rewrite Gi. case_decide; [intros [Hx _]%Di; by rewrite Hx|]. intros Hx Hm.
    rewrite Go. destruct (matched_in g M i y Hx Hm) as (x & Hy & Hyo).
    rewrite decide_False by (by eapply No). by exists x.
  - intros i y. rewrite Gi. case_decide; [intros [_ Hx]%Di; congruence|]. by apply matched_prepared.
  - intros o i. unfold linked. rewrite Go. case_decide as E; [|done].
    split; intros (Hi & x & Hx & Hm).
    + apply Do in Hx. rewrite Hx in Hm. by subst i.
    + by apply No in Hx.
Qed.

(** *** Removing a part *)

Lemma disconnect_inputs_runs p ks g :
  wf g → (∀ k, k ∈ ks → ∃ y, get_input g (mk_ref p k) = Some y ∧ prepared y = false) →
  runs (disconnect_inputs p ks) g (λ _ g',
    wf g' ∧ skel g' = skel g ∧
    ∀ o i, linked g' o i ↔ linked g o i ∧ ¬ (stage_ i = p ∧ index_ i ∈ ks)).
Proof.
  revert g. induction ks as [|k ks IH]; intros g W Hks.
  { apply runs_ret. split_and!; try done. intros o i. rewrite elem_of_nil. tauto. }
  cbn [disconnect_inputs]. pose proof W as [Ow M].
  destruct (Hks k) as (y & Hy & Hp); [left|].
  destruct (heap g !! p) as [st|] eqn:Est; [|unfold get_input in Hy; cbn in Hy; by rewrite Est in Hy].
  gread.
  assert (inputs st !! k = Some y) as -> by (unfold get_input in Hy; cbn in Hy; by rewrite Est in Hy).
  eapply runs_step; [reflexivity|].
  eapply runs_bind with (Q := λ _ g', unlinked_in g g' (mk_ref p k)).
  { apply whenS_runs; intros Hm.
    - unfold input_ref. eapply runs_step; [|by eapply DisconnectInput_runs].
      by run_bind (dcheck_in_run _ _ _ Ow Hy).
    - split_and!; try done. intros o' i'. split; [|tauto].
      intros Hl. split; [done|]. intros ->. by eapply not_linked_in. }
  intros _ g1 (W1 & E1 & L1). eapply runs_mono.
  { apply IH; [done|]. intros k' Hk'. destruct (Hks k') as (y' & Hy' & Hp'); [by right|].
    destruct (skel_input _ _ _ _ E1 Hy') as (y1 & Hy1 & Hp1). exists y1. split; [done|congruence]. }
  intros [] g2 (W2 & E2 & L2). split_and!; [done|congruence|].
  intros o i. rewrite L2, L1, elem_of_cons. destruct i as [q n]. cbn.
  assert (mk_ref q n ≠ mk_ref p k ↔ ¬ (q = p ∧ n = k)) as ->; [|tauto].
  split; [intros Hn [-> ->]; done|intros Hn [= -> ->]; tauto].
Qed.

Lemma idle_unlinked g g' o o' : unlinked g g' o' → idle g o → idle g' o.
Proof.
  intros (W & E & L) Hi i y Hl Hy. apply L in Hl as [Hl _].
  destruct (skel_input g' g i y (eq_sym E) Hy) as (y0 & Hy0 & <-). by eapply Hi.
Qed.

Lemma disconnect_outputs_runs p ks g :
  wf g → (∀ k, k ∈ ks → (∃ x, get_output g (mk_ref p k) = Some x) ∧ idle g (mk_ref p k)) →
  runs (disconnect_outputs p ks) g (λ _ g',
    wf g' ∧ skel g' = skel g ∧
    ∀ o i, linked g' o i ↔ linked g o i ∧ ¬ (stage_ o = p ∧ index_ o ∈ ks)).
Proof.
  revert g. induction ks as [|k ks IH]; intros g W Hks.
  { apply runs_ret. split_and!; try done. intros o i. rewrite elem_of_nil. tauto. }
  cbn [disconnect_outputs]. pose proof W as [Ow M].
  destruct (Hks k) as ((x & Hx) & Hid); [left|].
  destruct (heap g !! p) as [st|] eqn:Est; [|unfold get_output in Hx; cbn in Hx; by rewrite Est in Hx].
  gread.
  assert (outputs st !! k = Some x) as -> by (unfold get_output in Hx; cbn in Hx; by rewrite Est in Hx).
  eapply runs_step; [reflexivity|].
  eapply runs_bind with (Q := λ _ g', unlinked g g' (mk_ref p k)).
  { apply whenS_runs; intros Hm.
    - unfold output_ref. eapply runs_step; [|by eapply DisconnectOutput_runs].
      by run_bind (dcheck_out_run _ _ _ Ow Hx).
    - apply unlinked_refl; [done|]. intros i. by eapply not_linked. }
  intros _ g1 U. pose proof U as (W1 & E1 & L1). eapply runs_mono.
  { apply IH; [done|]. intros k' Hk'. destruct (Hks k') as ((x' & Hx') & Hid'); [by right|].
    split; [by eapply skel_output|by eapply idle_unlinked]. }
  intros [] g2 (W2 & E2 & L2). split_and!; [done|congruence|].
  intros o i. rewrite L2, L1, elem_of_cons. destruct o as [q n]. cbn.
  assert (mk_ref q n ≠ mk_ref p k ↔ ¬ (q = p ∧ n = k)) as ->; [|tauto].
  split; [intros Hn [-> ->]; done|intros Hn [= -> ->]; tauto].
Qed.

(** The graph without the stage at [p]. *)
Definition drop_stage p g : Graph P :=
  mk_graph (delete p (heap g)) (next g) (remove_all p (stages g)) (remove_all p (sources g))
    (remove_all p (sinks g)).

Lemma elem_of_remove_all p q l : q ∈ remove_all p l ↔ q ∈ l ∧ q ≠ p.
Proof. unfold remove_all. rewrite list_elem_of_filter. tauto. Qed.

Lemma drop_stage_wf g p :
  wf g → (∀ o i, linked g o i → stage_ o ≠ p ∧ stage_ i ≠ p) →
  wf (drop_stage p g) ∧ ∀ o i, linked (drop_stage p g) o i ↔ linked g o i.
Proof.
  intros [Ow M] Hn. set (g' := drop_stage p g).
  assert (∀ i, get_input g' i = if decide (stage_ i = p) then None else get_input g i) as Gi.
  { intros i. unfold get_input, g'. cbn. case_decide as E; [by rewrite E, lookup_delete_eq|].
    by rewrite lookup_delete_ne. }
  assert (∀ o, get_output g' o = if decide (stage_ o = p) then None else get_output g o) as Go.
  { intros i. unfold get_output, g'. cbn. case_decide as E; [by rewrite E, lookup_delete_eq|].
    by rewrite lookup_delete_ne. }
  split; [split; split|].
  - apply (owned_next g Ow).
  - intros q st. cbn. intros [_ Hq]%lookup_delete_Some. by eapply (owned_addr g Ow).
  - intros q. subst g'. cbn. rewrite elem_of_remove_all, (owned_stages g Ow), lookup_delete_is_Some.
    naive_solver.
  - apply NoDup_filter, (owned_nodup g Ow).
  - intros q. cbn. rewrite !elem_of_remove_all. intros [Hq ?]. by apply (owned_sources g Ow) in Hq.
  - intros q. cbn. rewrite !elem_of_remove_all. intros [Hq ?]. by apply (owned_sinks g Ow) in Hq.
  - intros o x. rewrite Go. case_decide; [done|]. intros Hx Hm.
    rewrite Gi, decide_False; [by eapply matched_out|]. apply (Hn o). split; eauto.
  - intros i y. rewrite Gi. case_decide; [done|]. intros Hx Hm.
    rewrite Go, decide_False; [by eapply matched_in|]. eapply (Hn _ i). by apply in_linked.
  - intros i y. rewrite Gi. case_decide; [done|]. by apply matched_prepared.
  - intros o i. unfold linked. rewrite Go. case_decide as E; [|done].
    split; [by intros (_ & x & ? & _)|]. intros Hl. by destruct (Hn o i).
Qed.

(** Nothing prepared is connected to the part at [p]. *)
Definition removable g p : Prop :=
  (∀ k y, get_input g (mk_ref p k) = Some y → prepared y = false) ∧ ∀ k, idle g (mk_ref p k).

(** [g'] is [g] without the part at [p] and its connections. *)
Definition removed g g' p : Prop :=
  wf g' ∧ skel g' = drop_stage p (skel g) ∧
  ∀ o i, linked g' o i ↔ linked g o i ∧ stage_ o ≠ p ∧ stage_ i ≠ p.

Lemma skel_lengths g g' p st st' :
  skel g' = skel g → heap g !! p = Some st → heap g' !! p = Some st' →
  length (inputs st') = length (inputs st) ∧ length (outputs st') = length (outputs st).
Proof.
  intros [= Hh _ _ _ _] Hst Hst'. apply (f_equal (lookup p)) in Hh.
  rewrite !lookup_fmap, Hst, Hst' in Hh. injection Hh as _ Hi Ho _ _ _.
  apply (f_equal length) in Hi. apply (f_equal length) in Ho.
  rewrite !length_fmap in Hi. rewrite !length_fmap in Ho. done.
Qed.

Lemma RemovePart_runs g p st :
  wf g → heap g !! p = Some st → removable g p → runs (RemovePart p) g (λ _ g', removed g g' p).
Proof.
  intros W Hst [Ri Ro]. pose proof W as [Ow M]. unfold RemovePart.
  pose proof (owned_addr g Ow _ _ Hst) as Hp.
  apply runs_dcheck; [by apply negb_true_iff, Z.eqb_neq; lia|].
  gread. eapply runs_bind.
  { apply disconnect_inputs_runs; [done|]. intros k [_ Hk]%elem_of_seq.
    destruct (lookup_lt_is_Some_2 (inputs st) k) as [y Hy]; [lia|].
    assert (get_input g (mk_ref p k) = Some y) by (unfold get_input; cbn; by rewrite Hst). eauto. }
  intros [] g1 (W1 & E1 & L1).
  destruct (proj2 (skel_is_Some _ _ p E1) (mk_is_Some _ _ Hst)) as [st1 Hst1].
  destruct (skel_lengths _ _ _ _ _ E1 Hst Hst1) as [El1 El2].
  gread. eapply runs_bind.
  { apply disconnect_outputs_runs; [done|]. intros k [_ Hk]%elem_of_seq.
    destruct (lookup_lt_is_Some_2 (outputs st1) k) as [x Hx]; [lia|]. split.
    - exists x. unfold get_output. cbn. by rewrite Hst1.
    - intros i y [Hl _]%L1 Hy. destruct (skel_input g1 g i y (eq_sym E1) Hy) as (y0 & Hy0 & <-).
      by eapply Ro. }
  intros [] g2 (W2 & E2 & L2).
  destruct (proj2 (skel_is_Some _ _ p E2) (mk_is_Some _ _ Hst1)) as [st2 Hst2].
  gread. apply runs_mod, runs_mod, runs_mod_last.
  assert (∀ o i, linked g2 o i ↔ linked g o i ∧ stage_ o ≠ p ∧ stage_ i ≠ p) as L.
  { intros o i. rewrite L2, L1. split; [|tauto]. intros [[Hl Hi] Ho]. split; [done|].
    destruct (linked_in g o i M Hl) as (y & Hy & _). destruct Hl as (_ & x & Hx & _).
    unfold get_input in Hy. unfold get_output in Hx. split.
    - intros E. apply Ho. split; [done|]. rewrite E, Hst in Hx. apply elem_of_seq.
      apply lookup_lt_Some in Hx. lia.
    - intros E. apply Hi. split; [done|]. rewrite E, Hst in Hy. apply elem_of_seq.
      apply lookup_lt_Some in Hy. lia. }
  destruct (drop_stage_wf g2 p W2) as [W3 L3]; [intros o i [_ ?]%L; tauto|].
  match goal with |- removed _ ?x _ => replace x with (drop_stage p g2) end.
  2:{ unfold drop_stage, set_heap, set_lists. cbn. f_equal. by rewrite delete_alter_eq. }
  split_and!; [done| |intros o i; by rewrite L3, L].
  transitivity (drop_stage p (skel g2)); [|congruence].
  unfold skel, drop_stage, set_heap. cbn. by rewrite fmap_delete.
Qed.

(** *** Removing everything connected to a part *)

Lemma part_valid_wf g p st : owned g → heap g !! p = Some st → part_valid p = true.
Proof.
  intros Ow Hst. pose proof (owned_addr g Ow _ _ Hst). apply negb_true_iff, Z.eqb_neq. lia.
Qed.

Lemma part_input_at_run g p st k :
  owned g → heap g !! p = Some st → (k < length (inputs st))%nat →
  part_input_at p k g = Ok (mk_ref p k, g).
Proof.
  intros Ow Hst Hk. unfold part_input_at. pose proof (part_valid_wf _ _ _ Ow Hst) as Hv.
  destruct (lookup_lt_is_Some_2 _ _ Hk) as [y Hy].
  assert (get_input g (mk_ref p k) = Some y) as Hgy by (unfold get_input; cbn; by rewrite Hst).
  run_bind (dcheckS_true _ _ Hv).
  rewrite (prog_bind_run _ _ _ tt g).
  - unfold input_ref. by run_bind (dcheck_in_run _ _ _ Ow Hgy).
  - apply dcheckG_run. run_bind (stage_deref_run _ _ _ Hst).
    by rewrite bool_decide_eq_true_2.
Qed.

Lemma part_output_at_run g p st k :
  owned g → heap g !! p = Some st → (k < length (outputs st))%nat →
  part_output_at p k g = Ok (mk_ref p k, g).
Proof.
  intros Ow Hst Hk. unfold part_output_at. pose proof (part_valid_wf _ _ _ Ow Hst) as Hv.
  destruct (lookup_lt_is_Some_2 _ _ Hk) as [y Hy].
  assert (get_output g (mk_ref p k) = Some y) as Hgy by (unfold get_output; cbn; by rewrite Hst).
  run_bind (dcheckS_true _ _ Hv).
  rewrite (prog_bind_run _ _ _ tt g).
  - unfold output_ref. by run_bind (dcheck_out_run _ _ _ Ow Hgy).
  - apply dcheckG_run. run_bind (stage_deref_run _ _ _ Hst).
    by rewrite bool_decide_eq_true_2.
Qed.

Lemma part_refs_run (at_ : nat → prog (Graph P) Ref) p ks g :
  (∀ k, k ∈ ks → at_ k g = Ok (mk_ref p k, g)) →
  part_refs at_ ks g = Ok (replicate (length ks) p, g).
Proof.
  induction ks as [|k ks IH]; intros Hk; [done|]. cbn [part_refs].
  run_bind (Hk k ltac:(left)).
  run_bind (IH ltac:(intros; apply Hk; by right)). done.
Qed.

(** The round that removes [p] queues [p] itself once per connector: the next round
    dereferences the stage that was just deleted. *)
Lemma remove_loop_dangling g p st fuel :
  wf g → heap g !! p = Some st → removable g p →
  (0 < length (inputs st) + length (outputs st))%nat →
  remove_loop (S (S fuel)) [p] g = Fault UndefinedBehaviour.
Proof.
  intros W Hst Hr Hn. pose proof W as [Ow M]. cbn [remove_loop].
  pose proof (part_valid_wf _ _ _ Ow Hst) as Hv.
  assert (part_input_count p g = Ok (length (inputs st), g)) as Ei.
  { unfold part_input_count. run_bind (dcheckS_true _ _ Hv).
    by run_bind (stage_deref_run _ _ _ Hst). }
  assert (part_output_count p g = Ok (length (outputs st), g)) as Eo.
  { unfold part_output_count. run_bind (dcheckS_true _ _ Hv).
    by run_bind (stage_deref_run _ _ _ Hst). }
  run_bind Ei. erewrite prog_bind_run.
  2:{ apply (part_refs_run _ p). intros k [_ Hk]%elem_of_seq. by eapply part_input_at_run. }
  run_bind Eo. erewrite prog_bind_run.
  2:{ apply (part_refs_run _ p). intros k [_ Hk]%elem_of_seq. by eapply part_output_at_run. }
  destruct (RemovePart_runs g p st W Hst Hr) as ([] & g' & Hrun & W' & E' & _).
  run_bind Hrun. rewrite !length_seq. cbn [app].
  destruct (replicate (length (inputs st)) p ++ replicate (length (outputs st)) p) as [|q l] eqn:El.
  { apply (f_equal length) in El. rewrite length_app, !length_replicate in El. cbn in El. lia. }
  assert (q = p) as ->.
  { assert (q ∈ replicate (length (inputs st) + length (outputs st)) p) as Hq.
    { rewrite replicate_add, El. left. }
    by apply elem_of_replicate in Hq as [-> _]. }
  assert (heap g' !! p = None) as Hp.
  { apply eq_None_not_Some. intros Hs.
    assert (is_Some (heap (skel g') !! p)) as [? Hs'] by (cbn; by rewrite lookup_fmap, fmap_is_Some).
    rewrite E' in Hs'. cbn in Hs'. by rewrite lookup_delete_eq in Hs'. }
  unfold part_input_count at 1. unfold mbind at 1, prog_bind at 1.
  run_bind (dcheckS_true _ _ Hv).
  unfold mbind at 1, prog_bind at 1, deref. by rewrite Hp.
Qed.

(** *** Connecting parts with one connector, and resetting *)

Lemma part_input_run g p st :
  owned g → heap g !! p = Some st → length (inputs st) = 1%nat →
  part_input p g = Ok (mk_ref p 0, g) ∧ is_Some (get_input g (mk_ref p 0)).
Proof.
  intros Ow Hst Hl. unfold part_input. pose proof (part_valid_wf _ _ _ Ow Hst) as Hv.
  destruct (lookup_lt_is_Some_2 (inputs st) 0) as [y Hy]; [lia|].
  assert (get_input g (mk_ref p 0) = Some y) as Hgy by (unfold get_input; cbn; by rewrite Hst).
  split; [|by exists y]. run_bind (dcheckS_true _ _ Hv).
  rewrite (prog_bind_run _ _ _ tt g).
  - unfold input_ref. by run_bind (dcheck_in_run _ _ _ Ow Hgy).
  - apply dcheckG_run. run_bind (stage_deref_run _ _ _ Hst).
    by rewrite bool_decide_eq_true_2.
Qed.

Lemma part_output_run g p st :
  owned g → heap g !! p = Some st → length (outputs st) = 1%nat →
  part_output p g = Ok (mk_ref p 0, g) ∧ is_Some (get_output g (mk_ref p 0)).
Proof.
  intros Ow Hst Hl. unfold part_output. pose proof (part_valid_wf _ _ _ Ow Hst) as Hv.
  destruct (lookup_lt_is_Some_2 (outputs st) 0) as [y Hy]; [lia|].
  assert (get_output g (mk_ref p 0) = Some y) as Hgy by (unfold get_output; cbn; by rewrite Hst).
  split; [|by exists y]. run_bind (dcheckS_true _ _ Hv).
  rewrite (prog_bind_run _ _ _ tt g).
  - unfold output_ref. by run_bind (dcheck_out_run _ _ _ Ow Hgy).
  - apply dcheckG_run. run_bind (stage_deref_run _ _ _ Hst).
    by rewrite bool_decide_eq_true_2.
Qed.

Lemma ConnectOutputToPart_runs g o x p st y :
  wf g → get_output g o = Some x → idle g o → heap g !! p = Some st →
  inputs st = [y] → prepared y = false →
  runs (ConnectOutputToPart o p) g (λ q g', q = p ∧ relinked g g' o (mk_ref p 0)).
Proof.
  intros W Hx Hid Hst Hin Hp. pose proof W as [Ow M]. unfold ConnectOutputToPart. gread.
  apply runs_dcheck; [by eapply part_valid_wf|].
  destruct (part_input_run g p st Ow Hst) as [E _]; [by rewrite Hin|].
  eapply runs_step; [exact E|]. eapply runs_bind.
  - eapply Connect_runs; eauto. unfold get_input. cbn. by rewrite Hst; cbn; rewrite Hin.
  - intros q g' [_ R]. by apply runs_ret.
Qed.

Lemma delete_stages_runs l g :
  NoDup l → stages g = l → (∀ p, p ∈ l ↔ is_Some (heap g !! p)) →
  runs (delete_stages l) g (λ _ g', g' = mk_graph ∅ (next g) [] (sources g) (sinks g)).
Proof.
  revert g. induction l as [|p l IH]; intros g Hnd Hs Hl; cbn [delete_stages].
  { apply runs_ret. destruct g as [h n ss so si]. cbn in *. subst. f_equal. apply map_eq.
    intros q. rewrite lookup_empty. apply eq_None_not_Some. intros Hq%Hl.
    by apply elem_of_nil in Hq. }
  apply NoDup_cons in Hnd as [Hp Hnd]. apply runs_mod.
  destruct (proj1 (Hl p) ltac:(left)) as [st Hst].
  gread. apply runs_mod. eapply runs_mono.
  - apply IH; [done|done|]. intros q. cbn. rewrite lookup_delete_is_Some, <- Hl, elem_of_cons.
    split; [|naive_solver]. intros Hq. split; [|by right]. by intros ->.
  - done.
Qed.

Lemma graph_Reset_runs g :
  wf g → runs Reset g (λ _ g', g' = mk_graph ∅ (next g) [] [] []).
Proof.
  intros [Ow M]. unfold Reset. apply runs_mod, runs_get. eapply runs_mono.
  - apply delete_stages_runs; [apply (owned_nodup g Ow)|done|apply (owned_stages g Ow)].
  - by intros [] g' ->.
Qed.

End Runs.

(** ** Properties *)

Lemma wf_new {P} : wf (new_graph : Graph P).
Proof.
  split; split; try done; try (by intros o x; unfold get_output, get_input; cbn; rewrite lookup_empty).
  - intros p. cbn. rewrite lookup_empty, elem_of_nil. split; [done|by intros []].
  - apply NoDup_nil_2.
Qed.

(** C28. The graph's operations implement changes of a matching between outputs and
    inputs: from a well-formed graph, adding a detached stage, connecting,
    disconnecting and removing parts that are not prepared all return (no [DCHECK]
    or [CHECK] fails, no dangling reference is followed), keep the graph well formed,
    replace or remove exactly the connections of the connectors named, leave
    everything else about the stages alone, and [Reset] frees every stage. *)
Theorem graph_edits_refine {P} `{Build} (g : Graph P) :
  wf g →
  (∀ st, detached st → runs (Add st) g (λ p g',
     wf g' ∧ heap g !! p = None ∧ heap g' = <[p := set_callback true st]> (heap g) ∧
     ∀ o i, linked g' o i ↔ linked g o i)) ∧
  (∀ o i x y, get_output g o = Some x → get_input g i = Some y →
     idle g o → prepared y = false →
     runs (Connect o i) g (λ p g', p = stage_ i ∧ relinked g g' o i) ∧
     runs (DisconnectOutput o) g (λ _ g', unlinked g g' o) ∧
     runs (DisconnectInput i) g (λ _ g', unlinked_in g g' i)) ∧
  (∀ p, is_Some (heap g !! p) → removable g p → runs (RemovePart p) g (λ _ g', removed g g' p)) ∧
  runs Reset g (λ _ g', g' = mk_graph ∅ (next g) [] [] []).
Proof.
  intros W. split_and!.
  - intros st Hst. by apply Add_runs.
  - intros o i x y Hx Hy Hid Hp. split_and!.
    + by eapply Connect_runs.
    + by eapply DisconnectOutput_runs.
    + by eapply DisconnectInput_runs.
  - intros p [st Hst] Hr. by eapply RemovePart_runs.
  - by apply graph_Reset_runs.
Qed.

(** A source connected to a sink. *)
Definition small_graph : Graph unit :=
  let i := mk_input (mk_ref 1 0) false None in
  let o := mk_output (mk_ref 2 0) kNegative None in
  mk_graph {[1 := mk_stage tt [] [o] true false false; 2 := mk_stage tt [i] [] true false false]}
    3 [1; 2] [1] [2].

Lemma small_graph_run :
  (p ← Add (new_stage tt 0 1); q ← Add (new_stage tt 1 0);
   @ConnectOutputToPart _ debug_build (mk_ref p 0) q) new_graph = Ok (2, small_graph).
Proof. vm_compute. reflexivity. Qed.

Lemma wf_small : wf small_graph.
Proof.
  destruct (Add_runs new_graph (new_stage tt 0 1) wf_new (new_stage_detached _ _ _))
    as (p & g1 & H1 & W1 & _).
  destruct (Add_runs g1 (new_stage tt 1 0) W1 (new_stage_detached _ _ _)) as (q & g2 & H2 & W2 & _).
  vm_compute in H1. injection H1 as <- <-. vm_compute in H2. injection H2 as <- <-.
  destruct (@ConnectOutputToPart_runs unit debug_build _ (mk_ref 1 0) new_output 2
    (set_callback true (new_stage tt 1 0)) new_input W2) as (r & g3 & H3 & _ & W3 & _).
  1-5: vm_compute; try done.
  - intros i y (_ & x & [= <-] & <-). done.
  - vm_compute in H3. injection H3 as <- <-. exact W3.
Qed.

Lemma graph_edits_refine_witness :
  runs (@Connect _ debug_build (mk_ref 1 0) (mk_ref 2 0)) small_graph (λ p g',
    p = 2 ∧ relinked small_graph g' (mk_ref 1 0) (mk_ref 2 0)) ∧
  runs (@RemovePart _ debug_build 2) small_graph (λ _ g', removed small_graph g' 2) ∧
  runs (@Reset unit) small_graph (λ _ g', g' = mk_graph ∅ 3 [] [] []).
Proof.
  assert (∀ o, idle small_graph o) as Hid.
  { intros o i y _ Hy. unfold get_input in Hy. destruct i as [p k]. cbn in Hy.
    apply bind_Some in Hy as (st & Hst & Hk).
    apply lookup_insert_Some in Hst as [[<- <-]|[_ Hst]]; [done|].
    apply lookup_singleton_Some in Hst as [<- <-]. destruct k; [by injection Hk as <-|done]. }
  destruct (@graph_edits_refine unit debug_build small_graph wf_small) as (_ & HC & HR & HX).
  split_and!; [|apply HR|exact HX].
  - eapply HC; [reflexivity|reflexivity|apply Hid|reflexivity].
  - by eexists.
  - split; [|intros k; apply Hid]. intros [|k] y Hy; [by injection Hy as <-|done].
Defined.

(** [RemovePartsConnectedToPart] uses a stage after deleting it: it queues
    [part.input(i).part()], which is the part itself and not the part at the other
    end of the connection, so for every part with a connector that may be removed the
    second round dereferences the deleted stage. *)
Lemma RemovePartsConnectedToPart_dangling {P} `{Build} (g : Graph P) p st fuel :
  wf g → heap g !! p = Some st → removable g p →
  (0 < length (inputs st) + length (outputs st))%nat →
  RemovePartsConnectedToPart (S (S fuel)) p g = Fault UndefinedBehaviour.
Proof.
  intros W Hst Hr Hn. unfold RemovePartsConnectedToPart.
  run_bind (dcheckS_true _ _ (part_valid_wf _ _ _ (proj1 W) Hst)).
  by eapply remove_loop_dangling.
Qed.

Lemma RemovePartsConnectedToPart_dangling_witness :
  @RemovePartsConnectedToPart _ release_build 2 2 small_graph = Fault UndefinedBehaviour.
Proof.
  refine (@RemovePartsConnectedToPart_dangling _ release_build small_graph 2
            (mk_stage tt [mk_input (mk_ref 1 0) false None] [] true false false) 0 wf_small
            _ _ _); [reflexivity| |cbn; lia].
  split.
  - intros [|k] y Hy; [by injection Hy as <-|done].
  - intros k i y (_ & x & Hx & _). unfold get_output in Hx. by destruct k.
Defined.

End Graph.
