(* ===== verification/ConversionPipeline.v ===== *)
(** Conversion pipelines (services/media/framework/util/conversion_pipeline_builder.cc):
    the transforms that turn a stream of one type into a stream of a type that a
    consumer accepts, added to the graph behind an output.

    Decoders come from FFmpeg: [decoder_create] is what [Decoder::Create] gives for a
    type, the output type of the decoder made or nothing.  A vector of
    [unique_ptr<StreamTypeSet>] is a list of options, and following a null element is
    undefined behaviour.  [NOTREACHED()] is a [DCHECK] of false. *)

From S2P Require Import Prelude StreamTypes Graph.

Module ConversionPipeline.
Import StreamTypes Graph.

(** The parts a pipeline is made of. *)
Inductive Part :=
  | Decoder (output_stream_type : StreamType)
  | Reformatter (in_format out_format : SampleFormat)
  | OtherPart (id : Z).

(** Stages host a [shared_ptr] to a part. *)
Abbreviation G := (Graph (option Part)).

(** [AddResult] *)
Inductive AddResult := kFailed | kProgressed | kFinished.

Section WithBuild.
Context `{Build} (decoder_create : StreamType → option StreamType).
Implicit Types (a : AudioData) (s : AudioSetData) (sets : list (option StreamTypeSet)).

(** [Score] *)
Definition Score a s : outcome Z :=
  let score := 1 in
  score ←
    (if bool_decide (sample_format a = set_sample_format s)
        || bool_decide (set_sample_format s = FAny)
     then Ok (score + 10)
     else
       match set_sample_format s with
       | FUnsigned8 => Ok score
       | FSigned16 => Ok (score + 1)
       | FSigned24In32 => Ok (score + 2)
       | FFloat => Ok (score + 3)
       | FAny => _ ← dcheck false; Ok score
       end);
  if Range_contains (set_channels s) (channels a) then
    let score := score + 10 in
    if Range_contains (set_frames_per_second s) (frames_per_second a) then
      let score := score + 50 in Ok score
    else Ok 0
  else Ok 0.

(** [FindBestLpcm]: the loop, with [best] and [best_score]. *)
Fixpoint find_best_loop a sets (best : option StreamTypeSet) (best_score : Z) :
    outcome (option StreamTypeSet) :=
  match sets with
  | [] => Ok best
  | None :: _ => Fault UndefinedBehaviour
  | Some ts :: sets =>
      if bool_decide (set_medium ts = MAudio) && IncludesEncoding ts kAudioEncodingLpcm then
        match set_audio ts with
        | None => Fault UndefinedBehaviour
        | Some s =>
            score ← Score a s;
            if best_score <? score then find_best_loop a sets (Some ts) score
            else find_best_loop a sets best best_score
        end
      else find_best_loop a sets best best_score
  end.
Definition FindBestLpcm a sets : outcome (option StreamTypeSet) := find_best_loop a sets None 0.

(** The search of [AddTransformsForCompressedAudio] for a set that contains the type. *)
Fixpoint find_match a sets : outcome bool :=
  match sets with
  | [] => Ok false
  | None :: _ => Fault UndefinedBehaviour
  | Some ts :: sets =>
      if bool_decide (set_medium ts = MAudio) then
        match set_audio ts with
        | None => Fault UndefinedBehaviour
        | Some s => if AudioStreamTypeSet_contains s a then Ok true else find_match a sets
        end
      else find_match a sets
  end.

(** [LpcmReformatter::Create], with the constructor of [LpcmReformatterImpl]. *)
Definition LpcmReformatter_Create (t : StreamType) a s : outcome (option Part) :=
  let make (i o : SampleFormat) : outcome (option Part) :=
    _ ← dcheck (bool_decide (encoding t = kAudioEncodingLpcm));
    _ ← dcheck (bool_decide (encoding_parameters t = None));
    Ok (Some (Reformatter i o)) in
  match sample_format a with
  | FUnsigned8 =>
      match set_sample_format s with
      | FUnsigned8 | FAny => make FUnsigned8 FUnsigned8
      | FSigned16 => make FUnsigned8 FSigned16
      | FSigned24In32 => make FUnsigned8 FSigned24In32
      | FFloat => make FUnsigned8 FFloat
      end
  | FSigned16 =>
      match set_sample_format s with
      | FUnsigned8 => make FSigned16 FUnsigned8
      | FSigned16 | FAny => make FSigned16 FSigned16
      | FSigned24In32 => make FSigned16 FSigned24In32
      | FFloat => make FSigned16 FFloat
      end
  | FSigned24In32 =>
      match set_sample_format s with
      | FUnsigned8 => make FSigned24In32 FUnsigned8
      | FSigned16 => make FSigned24In32 FSigned16
      | FSigned24In32 | FAny => make FSigned24In32 FSigned24In32
      | FFloat => make FSigned24In32 FFloat
      end
  | FFloat =>
      match set_sample_format s with
      | FUnsigned8 => make FFloat FUnsigned8
      | FSigned16 => make FFloat FSigned16
      | FSigned24In32 => make FFloat FSigned24In32
      | FFloat | FAny => make FFloat FFloat
      end
  | FAny => _ ← dcheck false; Ok None
  end.

(** [Graph::Add] of a transform: a [TransformStage] has one input and one output. *)
Definition AddTransform (t : option Part) : prog G Z :=
  _ ← dcheckS (bool_decide (is_Some t));
  Add (new_stage t 1 1).

(** [*output = graph->ConnectOutputToPart( *output, graph->Add(part)).output()] *)
Definition append_part (output : Ref) (t : option Part) : prog G Ref :=
  p ← AddTransform t;
  q ← ConnectOutputToPart output p;
  part_output q.

(** The results of the functions below: the result, [*output] and [*out_type]. *)
Abbreviation transforms := (prog G (AddResult * Ref * option StreamType)).

(** [AddTransformsForCompressedAudio] *)
Definition AddTransformsForCompressedAudio (in_type : StreamType) a sets (output : Ref) :
    transforms :=
  matching ← liftO (find_match a sets);
  if (matching : bool) then
    out_type ← liftO (StreamType_Clone in_type);
    mret (kFinished, output, Some out_type)
  else
    best ← liftO (FindBestLpcm a sets);
    match best with
    | None => mret (kFailed, output, None)
    | Some best =>
        _ ← dcheckS (bool_decide (set_medium best = MAudio));
        _ ← dcheckS (IncludesEncoding best kAudioEncodingLpcm);
        match decoder_create in_type with
        | None => mret (kFailed, output, None)
        | Some out_type =>
            output ← append_part output (Some (Decoder out_type));
            mret (kProgressed, output, Some out_type)
        end
    end.

(** [AddTransformsForLpcm], for one output type set. *)
Definition AddTransformsForLpcm_set (in_type : StreamType) a s (output : Ref) : transforms :=
  output ←
    (if negb (bool_decide (sample_format a = set_sample_format s))
        && negb (bool_decide (set_sample_format s = FAny))
     then part ← liftO (LpcmReformatter_Create in_type a s); append_part output part
     else mret output);
  if negb (Range_contains (set_channels s) (channels a)) then
    _ ← dcheckS false; mret (kFailed, output, None)
  else if negb (Range_contains (set_frames_per_second s) (frames_per_second a)) then
    _ ← dcheckS false; mret (kFailed, output, None)
  else
    out_type ← liftO (AudioStreamType_Create kAudioEncodingLpcm None
      (if bool_decide (set_sample_format s = FAny) then sample_format a else set_sample_format s)
      (channels a) (frames_per_second a));
    mret (kFinished, output, Some out_type).

(** [AddTransformsForLpcm], for a vector of output type sets. *)
Definition AddTransformsForLpcm (in_type : StreamType) a sets (output : Ref) : transforms :=
  best ← liftO (FindBestLpcm a sets);
  match best with
  | None => _ ← dcheckS false; mret (kFailed, output, None)
  | Some best =>
      _ ← dcheckS (bool_decide (set_medium best = MAudio));
      match set_audio best with
      | None => failS UndefinedBehaviour
      | Some s => AddTransformsForLpcm_set in_type a s output
      end
  end.

(** [AddTransforms] *)
Definition AddTransforms (in_type : StreamType) sets (output : Ref) : transforms :=
  match medium in_type with
  | MAudio =>
      match audio in_type with
      | None => failS UndefinedBehaviour
      | Some a =>
          if bool_decide (encoding in_type = kAudioEncodingLpcm)
          then AddTransformsForLpcm in_type a sets output
          else AddTransformsForCompressedAudio in_type a sets output
      end
  | _ => _ ← dcheckS false; mret (kFailed, output, None)
  end.

(** [BuildConversionPipeline]: the loop, with [out] and [type_to_convert]; it returns
    the result, [*output] and [*out_type]. *)
Fixpoint build_loop (fuel : nat) (type_to_convert : StreamType) sets (output out : Ref) :
    prog G (bool * Ref * option StreamType) :=
  match fuel with
  | O => failS OutOfFuel
  | S fuel =>
      '(result, out, converted_type) ← AddTransforms type_to_convert sets out;
      match result with
      | kFailed =>
          _ ← RemovePartsConnectedToOutput (S (S fuel)) output;
          mret (false, output, None)
      | kProgressed =>
          match converted_type with
          | Some t => build_loop fuel t sets output out
          | None => failS UndefinedBehaviour
          end
      | kFinished => mret (true, out, converted_type)
      end
  end.
Definition BuildConversionPipeline (fuel : nat) (in_type : StreamType) sets (output : Ref) :
    prog G (bool * Ref * option StreamType) :=
  build_loop fuel in_type sets output output.

(** ** Specification *)

(** The score of a set for a type, 0 when the set is no LPCM target for it. *)
Definition format_score a s : Z :=
  if bool_decide (sample_format a = set_sample_format s)
     || bool_decide (set_sample_format s = FAny) then 10
  else match set_sample_format s with
       | FSigned16 => 1 | FSigned24In32 => 2 | FFloat => 3 | _ => 0 end.
Definition in_ranges a s : bool :=
  Range_contains (set_channels s) (channels a)
  && Range_contains (set_frames_per_second s) (frames_per_second a).
Definition lpcm_score a (ts : StreamTypeSet) : Z :=
  match set_audio ts with
  | Some s =>
      if bool_decide (set_medium ts = MAudio) && IncludesEncoding ts kAudioEncodingLpcm
         && in_ranges a s
      then 61 + format_score a s else 0
  | None => 0
  end.

(** The vector has no null pointer, and audio sets are [AudioStreamTypeSet]s. *)
Definition proper (o : option StreamTypeSet) : Prop :=
  ∃ ts, o = Some ts ∧ (set_medium ts = MAudio → is_Some (set_audio ts)).

(** A set of the greatest positive score, or none if no set has one. *)
Definition best_for a sets (r : option StreamTypeSet) : Prop :=
  match r with
  | None => ∀ ts, Some ts ∈ sets → lpcm_score a ts = 0
  | Some ts => Some ts ∈ sets ∧ 0 < lpcm_score a ts ∧
      ∀ ts', Some ts' ∈ sets → lpcm_score a ts' ≤ lpcm_score a ts
  end.

Lemma format_score_nonneg a s : 0 ≤ format_score a s.
Proof. unfold format_score. repeat case_match; lia. Qed.

Lemma lpcm_score_nonneg a ts : 0 ≤ lpcm_score a ts.
Proof.
  unfold lpcm_score. destruct (set_audio ts) as [s|]; [|done].
  pose proof (format_score_nonneg a s). case_match; lia.
Qed.

Lemma Score_run a s : Score a s = Ok (if in_ranges a s then 61 + format_score a s else 0).
Proof.
  unfold Score, in_ranges, format_score.
  destruct (Range_contains (set_channels s) (channels a)),
    (Range_contains (set_frames_per_second s) (frames_per_second a)); cbn [andb].
  all: destruct (bool_decide (sample_format a = set_sample_format s)),
    (bool_decide_reflect (set_sample_format s = FAny)) as [|Hn]; cbn [orb]; try reflexivity.
  all: destruct (set_sample_format s); done.
Qed.

Lemma find_best_loop_run a sets best bs :
  Forall proper sets → 0 ≤ bs →
  ∃ r, find_best_loop a sets best bs = Ok r ∧
    ((r = best ∧ ∀ ts, Some ts ∈ sets → lpcm_score a ts ≤ bs) ∨
     (∃ ts, r = Some ts ∧ Some ts ∈ sets ∧ bs < lpcm_score a ts ∧
        ∀ ts', Some ts' ∈ sets → lpcm_score a ts' ≤ lpcm_score a ts)).
Proof.
  intros Hs. revert best bs. induction Hs as [|o sets (ts & -> & Hts) Hs IH]; intros best bs Hb.
  { exists best. split; [done|]. left. split; [done|]. intros ts Hts. by apply elem_of_nil in Hts. }
  assert (find_best_loop a (Some ts :: sets) best bs =
          if bs <? lpcm_score a ts then find_best_loop a sets (Some ts) (lpcm_score a ts)
          else find_best_loop a sets best bs) as ->.
  { cbn [find_best_loop]. unfold lpcm_score.
    destruct (bool_decide_reflect (set_medium ts = MAudio)) as [Em|Em]; cbn [andb].
    2:{ destruct (set_audio ts); by rewrite (proj2 (Z.ltb_ge bs 0)) by lia. }
    destruct (Hts Em) as [s ->].
    destruct (IncludesEncoding ts kAudioEncodingLpcm); cbn [andb].
    - by rewrite Score_run.
    - by rewrite (proj2 (Z.ltb_ge bs 0)) by lia. }
  destruct (Z.ltb_spec bs (lpcm_score a ts)) as [Hlt|Hge].
  - destruct (IH (Some ts) (lpcm_score a ts)) as (r & -> & Hr); [apply lpcm_score_nonneg|].
    exists r. split; [done|]. right. destruct Hr as [[-> Hr]|(ts' & -> & Hin & Hlt' & Hr)].
    + exists ts. split_and!; [done|left|done|]. intros ts' [[= ->]|Hin]%elem_of_cons; [done|auto].
    + exists ts'. split_and!; [done|by right|lia|].
      intros ts'' [[= ->]|Hin']%elem_of_cons; [lia|auto].
  - destruct (IH best bs Hb) as (r & -> & Hr). exists r. split; [done|].
    destruct Hr as [[-> Hr]|(ts' & -> & Hin & Hlt' & Hr)].
    + left. split; [done|]. intros ts' [[= ->]|Hin]%elem_of_cons; [done|auto].
    + right. exists ts'. split_and!; [done|by right|done|].
      intros ts'' [[= ->]|Hin']%elem_of_cons; [lia|auto].
Qed.

Lemma FindBestLpcm_run a sets :
  Forall proper sets → ∃ r, FindBestLpcm a sets = Ok r ∧ best_for a sets r.
Proof.
  intros Hs. destruct (find_best_loop_run a sets None 0 Hs ltac:(done)) as (r & E & Hr).
  exists r. split; [done|]. destruct Hr as [[-> Hr]|(ts & -> & Hin & Hlt & Hr)]; [|done].
  intros ts Hts. pose proof (lpcm_score_nonneg a ts). specialize (Hr ts Hts). lia.
Qed.

(** A set contains the type, in the sense of [AudioStreamTypeSet::contains]. *)
Definition has_match a sets : Prop :=
  ∃ ts s, Some ts ∈ sets ∧ set_medium ts = MAudio ∧ set_audio ts = Some s ∧
    AudioStreamTypeSet_contains s a = true.

Lemma find_match_run a sets :
  Forall proper sets → ∃ b : bool, find_match a sets = Ok b ∧ (b = true ↔ has_match a sets).
Proof.
  induction 1 as [|o sets (ts & -> & Hts) Hs (b & Eb & Hb)]; cbn [find_match].
  { exists false. split; [done|]. split; [done|]. intros (ts & s & Hin & _).
    by apply elem_of_nil in Hin. }
  assert (has_match a sets → has_match a (Some ts :: sets)) as Hw.
  { intros (ts' & s & Hin & ?). exists ts', s. split; [by right|done]. }
  destruct (bool_decide_reflect (set_medium ts = MAudio)) as [Em|Em].
  - destruct (Hts Em) as [s Es]. rewrite Es. destruct (AudioStreamTypeSet_contains s a) eqn:Ec.
    + exists true. split; [done|]. split; [|done]. intros _. exists ts, s. by split_and!; [left|..].
    + exists b. split; [done|]. rewrite Hb. split; [done|].
      intros (ts' & s' & [[= ->]|Hin]%elem_of_cons & ? & Es' & Ec'); [congruence|].
      by exists ts', s'.
  - exists b. split; [done|]. rewrite Hb. split; [done|].
    intros (ts' & s' & [[= ->]|Hin]%elem_of_cons & ? & Es' & Ec'); [done|]. by exists ts', s'.
Qed.

(** ** Appending parts *)

(** [g'] is [g] with stages hosting [parts] added and connected in sequence behind
    output [o]; [o'] is the output of the last. *)
Inductive appended (g : G) (o : Ref) : list Part → G → Ref → Prop :=
  | appended_nil : appended g o [] g o
  | appended_cons part parts p g1 g2 g' o' :
      heap g !! p = None →
      heap g1 = <[p := set_callback true (new_stage (Some part) 1 1)]> (heap g) →
      (∀ o i, linked g1 o i ↔ linked g o i) →
      relinked g1 g2 o (mk_ref p 0) →
      appended g2 (mk_ref p 0) parts g' o' →
      appended g o (part :: parts) g' o'.

(** [o] is an unconnected output. *)
Definition open_output (g : G) (o : Ref) : Prop :=
  is_Some (get_output g o) ∧ ∀ i, ¬ linked g o i.

Lemma append_part_runs g o part :
  wf g → open_output g o →
  runs (append_part o (Some part)) g (λ o' g',
    wf g' ∧ open_output g' o' ∧ ∀ ps g'' o'', appended g' o' ps g'' o'' →
      appended g o (part :: ps) g'' o'').
Proof.
  intros W [[x Hx] Hfree]. unfold append_part, AddTransform.
  eapply runs_bind.
  { apply runs_dcheck; [done|]. apply (Add_runs g _ W), new_stage_detached. }
  intros p g1 (W1 & Hp & Eh & L1). pose proof W1 as [Ow1 M1].
  assert (stage_ o ≠ p) as Hop by (intros E; unfold get_output in Hx; by rewrite E, Hp in Hx).
  assert (get_output g1 o = Some x) as Hx1.
  { unfold get_output. by rewrite Eh, lookup_insert_ne. }
  assert (heap g1 !! p = Some (set_callback true (new_stage (Some part) 1 1))) as Hst1.
  { by rewrite Eh, lookup_insert_eq. }
  eapply runs_bind.
  { eapply ConnectOutputToPart_runs; [done|exact Hx1| |exact Hst1|reflexivity|reflexivity].
    intros i y Hl. apply L1 in Hl. by destruct (Hfree i). }
  intros q g2 [-> R]. pose proof R as ([Ow2 M2] & E2 & L2).
  destruct (proj2 (skel_is_Some _ _ p E2) (mk_is_Some _ _ Hst1)) as [st2 Hst2].
  destruct (skel_lengths _ _ _ _ _ E2 Hst1 Hst2) as [_ El].
  destruct (part_output_run g2 p st2 Ow2 Hst2) as [Er Ho']; [by rewrite El|].
  exists (mk_ref p 0), g2. split; [exact Er|]. split_and!; [by split|split; [done|]|].
  - intros i Hl. apply L2 in Hl as [[E _]|(_ & _ & Hl)]; [by destruct Hop; rewrite <- E|].
    apply L1 in Hl as (_ & x' & Hx' & _). unfold get_output in Hx'. cbn in Hx'. by rewrite Hp in Hx'.
  - intros ps g'' o'' Ha. by eapply appended_cons.
Qed.

(** Connections present before are kept. *)
Lemma appended_links g o ps g' o' o1 i1 :
  wf g → open_output g o → appended g o ps g' o' → linked g o1 i1 → linked g' o1 i1.
Proof.
  intros W Hop Ha. induction Ha as [|g o part parts p g1 g2 g' o' Hp Eh L1 R Ha IH]; [done|].
  intros Hl. pose proof R as (W2 & E2 & L2). destruct Hop as [[x Hx] Hfree].
  destruct (linked_in g o1 i1 (proj2 W) Hl) as (y & Hy & _).
  apply IH; [done| |].
  - split.
    + eapply skel_output; [exact E2|]. unfold get_output. cbn. by rewrite Eh, lookup_insert_eq.
    + intros i Hl2. apply L2 in Hl2 as [[E _]|(_ & _ & Hl2)].
      * rewrite <- E in Hx. unfold get_output in Hx. cbn in Hx. by rewrite Hp in Hx.
      * apply L1 in Hl2 as (_ & x' & Hx' & _). unfold get_output in Hx'. cbn in Hx'.
        by rewrite Hp in Hx'.
  - apply L2. right. split_and!; [| |by apply L1].
    + intros ->. by destruct (Hfree i1).
    + intros ->. unfold get_input in Hy. cbn in Hy. by rewrite Hp in Hy.
Qed.

(** ** Specification of a conversion *)

(** The LPCM type a set turns an LPCM type into, and the parts it takes. *)
Definition lpcm_format a s : SampleFormat :=
  if bool_decide (set_sample_format s = FAny) then sample_format a else set_sample_format s.
Definition lpcm_out a s (t : StreamType) : Prop :=
  ∃ size, SampleSizeFromFormat (lpcm_format a s) = Ok size ∧
    t = mk_type MAudio kAudioEncodingLpcm None
          (DAudio (mk_audio (lpcm_format a s) (channels a) (frames_per_second a) size)).
Definition reformat a s : list Part :=
  if bool_decide (sample_format a = lpcm_format a s) then []
  else [Reformatter (sample_format a) (lpcm_format a s)].

(** The conversion of a type: the parts to add and the type they produce. *)
Inductive converts sets : StreamType → list Part → StreamType → Prop :=
  | converts_lpcm t a ts s t' :
      encoding t = kAudioEncodingLpcm → audio t = Some a →
      best_for a sets (Some ts) → set_audio ts = Some s → lpcm_out a s t' →
      converts sets t (reformat a s) t'
  | converts_none t a :
      encoding t ≠ kAudioEncodingLpcm → audio t = Some a → has_match a sets →
      converts sets t [] t
  | converts_decode t a ts d ps t' :
      encoding t ≠ kAudioEncodingLpcm → audio t = Some a → ¬ has_match a sets →
      best_for a sets (Some ts) → decoder_create t = Some d → converts sets d ps t' →
      converts sets t (Decoder d :: ps) t'.

(** An audio type made by [AudioStreamType::Create]; LPCM types have no parameters. *)
Definition audio_ok (t : StreamType) : Prop :=
  is_Some (audio t) ∧ type_ok t ∧
  (encoding t = kAudioEncodingLpcm → encoding_parameters t = None).

Lemma audio_ok_inv t :
  audio_ok t → ∃ a, audio t = Some a ∧ medium t = MAudio ∧ sample_format a ≠ FAny ∧
    StreamType_Clone t = Ok t.
Proof.
  intros ([a Ha] & Hok & _). exists a. pose proof (StreamType_Clone_ok t Hok) as Hc.
  pose proof Ha as Ha'. unfold audio in Ha'. unfold type_ok in Hok.
  destruct (sub t); simplify_eq. destruct Hok as [Hm Hs]. split_and!; [done|done| |done].
  by intros E; rewrite E in Hs.
Qed.

Lemma lpcm_format_size a s :
  sample_format a ≠ FAny → ∃ n, SampleSizeFromFormat (lpcm_format a s) = Ok n.
Proof.
  unfold lpcm_format. intros Ha. case_bool_decide as E.
  - destruct (sample_format a); try done; eauto.
  - destruct (set_sample_format s); try done; eauto.
Qed.

Lemma reformatter_run t a s :
  encoding t = kAudioEncodingLpcm → encoding_parameters t = None → sample_format a ≠ FAny →
  set_sample_format s ≠ FAny → sample_format a ≠ set_sample_format s →
  LpcmReformatter_Create t a s = Ok (Some (Reformatter (sample_format a) (set_sample_format s))).
Proof.
  intros He Hp Ha Hs Hne. unfold LpcmReformatter_Create. rewrite He, Hp. clear He Hp.
  destruct (sample_format a), (set_sample_format s); try done.
  all: unfold dcheck; rewrite !bool_decide_eq_true_2 by done; cbn [negb].
  all: by rewrite andb_false_r.
Qed.

(** ** Behaviour of the steps *)

Lemma liftO_run {S A} (m : outcome A) v (s : S) : m = Ok v → liftO m s = Ok (v, s).
Proof. by intros ->. Qed.

Lemma best_in_ranges a sets ts s :
  best_for a sets (Some ts) → set_audio ts = Some s → set_medium ts = MAudio ∧
    IncludesEncoding ts kAudioEncodingLpcm = true ∧ in_ranges a s = true.
Proof.
  intros (_ & Hpos & _) Es. unfold lpcm_score in Hpos. rewrite Es in Hpos.
  case_match eqn:E; [|lia]. by apply andb_true_iff in E as [[?%bool_decide_eq_true_1 ?]%andb_true_iff ?].
Qed.

Lemma best_audio a sets ts :
  best_for a sets (Some ts) → ∃ s, set_audio ts = Some s.
Proof.
  intros (_ & Hpos & _). unfold lpcm_score in Hpos. destruct (set_audio ts) as [s|]; [eauto|lia].
Qed.

Lemma AddTransforms_lpcm_refused t a sets o g :
  audio_ok t → encoding t = kAudioEncodingLpcm → audio t = Some a →
  FindBestLpcm a sets = Ok None →
  AddTransforms t sets o g =
    if dcheck_is_on then Fault DCheckFailed else Ok (kFailed, o, None, g).
Proof.
  intros Hok He Ha Hb. destruct (audio_ok_inv t Hok) as (a' & Ha' & Hm & _). simplify_eq.
  unfold AddTransforms, AddTransformsForLpcm. rewrite Hm, Ha, bool_decide_eq_true_2 by done.
  run_bind (liftO_run _ _ _ Hb).
  unfold mbind, prog_bind, dcheckS, liftO, dcheck. by destruct dcheck_is_on.
Qed.

Lemma AddTransforms_lpcm t a sets ts s o g :
  audio_ok t → encoding t = kAudioEncodingLpcm → audio t = Some a →
  FindBestLpcm a sets = Ok (Some ts) → best_for a sets (Some ts) → set_audio ts = Some s →
  wf g → open_output g o →
  runs (AddTransforms t sets o) g (λ r g', ∃ o' t',
    r = (kFinished, o', Some t') ∧ lpcm_out a s t' ∧ appended g o (reformat a s) g' o').
Proof.
  intros Hok He Ha Hb Hbest Es W Hop. destruct (audio_ok_inv t Hok) as (a' & Ha' & Hm & Hf & _).
  simplify_eq. destruct Hok as (_ & _ & Hpar). specialize (Hpar He).
  destruct (best_in_ranges _ _ _ _ Hbest Es) as (Hts & _ & [Rc Rf]%andb_true_iff).
  destruct (lpcm_format_size a s Hf) as [size Hsize].
  unfold AddTransforms, AddTransformsForLpcm. rewrite Hm, Ha, bool_decide_eq_true_2 by done.
  eapply runs_step; [by apply liftO_run|]. apply runs_dcheck; [by apply bool_decide_eq_true_2|].
  rewrite Es. unfold AddTransformsForLpcm_set.
  eapply runs_bind with (Q := λ o' g', appended g o (reformat a s) g' o').
  - unfold reformat, lpcm_format. case_bool_decide as E1; case_bool_decide as E2; cbn [negb andb].
    + rewrite bool_decide_eq_true_2 by done. apply runs_ret. constructor.
    + rewrite bool_decide_eq_true_2 by done. apply runs_ret. constructor.
    + rewrite bool_decide_eq_true_2 by done. apply runs_ret. constructor.
    + rewrite bool_decide_eq_false_2 by done.
      eapply runs_step; [by apply liftO_run, reformatter_run|].
      eapply runs_mono; [by apply append_part_runs|]. intros o' g' (_ & _ & Ha''). apply Ha''. constructor.
  - intros o' g' Happ. rewrite Rc, Rf. cbn [negb].
    eapply runs_step; [apply liftO_run; unfold AudioStreamType_Create; fold (lpcm_format a s);
      rewrite Hsize; reflexivity|].
    apply runs_ret. eexists o', _. split_and!; [done|by eexists|done].
Qed.

Lemma AddTransforms_same t a sets o g :
  audio_ok t → encoding t ≠ kAudioEncodingLpcm → audio t = Some a →
  find_match a sets = Ok true →
  AddTransforms t sets o g = Ok (kFinished, o, Some t, g).
Proof.
  intros Hok He Ha Hb. destruct (audio_ok_inv t Hok) as (a' & Ha' & Hm & _ & Hc). simplify_eq.
  unfold AddTransforms, AddTransformsForCompressedAudio.
  rewrite Hm, Ha, bool_decide_eq_false_2 by done.
  run_bind (liftO_run _ _ _ Hb).
  by run_bind (liftO_run _ _ _ Hc).
Qed.

Lemma AddTransforms_refused t a sets r o g :
  audio_ok t → encoding t ≠ kAudioEncodingLpcm → audio t = Some a →
  find_match a sets = Ok false → FindBestLpcm a sets = Ok r → best_for a sets r →
  r = None ∨ decoder_create t = None →
  AddTransforms t sets o g = Ok (kFailed, o, None, g).
Proof.
  intros Hok He Ha Hb Hr Hbest Hor. destruct (audio_ok_inv t Hok) as (a' & Ha' & Hm & _). simplify_eq.
  unfold AddTransforms, AddTransformsForCompressedAudio.
  rewrite Hm, Ha, bool_decide_eq_false_2 by done.
  run_bind (liftO_run _ _ _ Hb).
  run_bind (liftO_run _ _ _ Hr).
  destruct r as [ts|]; [|done]. destruct Hor as [?|Hd]; [done|].
  destruct (best_audio _ _ _ Hbest) as [s Es].
  destruct (best_in_ranges _ _ _ _ Hbest Es) as (Hts & Hl & _).
  run_bind (dcheckS_true g _ (bool_decide_eq_true_2 _ Hts)).
  run_bind (dcheckS_true g _ Hl). by rewrite Hd.
Qed.

Lemma AddTransforms_decode t a sets ts d o g :
  audio_ok t → encoding t ≠ kAudioEncodingLpcm → audio t = Some a →
  find_match a sets = Ok false → FindBestLpcm a sets = Ok (Some ts) → best_for a sets (Some ts) →
  decoder_create t = Some d → wf g → open_output g o →
  runs (AddTransforms t sets o) g (λ r g', ∃ o',
    r = (kProgressed, o', Some d) ∧ wf g' ∧ open_output g' o' ∧
    ∀ ps g'' o'', appended g' o' ps g'' o'' → appended g o (Decoder d :: ps) g'' o'').
Proof.
  intros Hok He Ha Hb Hr Hbest Hd W Hop. destruct (audio_ok_inv t Hok) as (a' & Ha' & Hm & _).
  simplify_eq. unfold AddTransforms, AddTransformsForCompressedAudio.
  rewrite Hm, Ha, bool_decide_eq_false_2 by done.
  destruct (best_audio _ _ _ Hbest) as [s Es].
  destruct (best_in_ranges _ _ _ _ Hbest Es) as (Hts & Hl & _).
  eapply runs_step; [by apply liftO_run|]. cbv iota. eapply runs_step; [by apply liftO_run|].
  apply runs_dcheck; [by apply bool_decide_eq_true_2|]. apply runs_dcheck; [done|]. rewrite Hd.
  eapply runs_bind; [by apply append_part_runs|]. intros o' g' (? & ? & ?).
  apply runs_ret. by exists o'.
Qed.

(** ** Undoing a pipeline *)

Lemma RemoveParts_open fuel g o :
  wf g → open_output g o → RemovePartsConnectedToOutput fuel o g = Ok (tt, g).
Proof.
  intros [Ow M] [[x Hx] Hfree]. unfold RemovePartsConnectedToOutput.
  run_bind (dcheck_out_run _ _ _ Ow Hx).
  run_bind (output_connected_run _ _ _ Ow Hx).
  destruct (ref_bool (omate x)) eqn:E; [|done]. destruct (Hfree (omate x)). split; eauto.
Qed.

Lemma RemoveParts_appended fuel g o part g' o' :
  wf g → open_output g o → appended g o [part] g' o' →
  RemovePartsConnectedToOutput (S (S fuel)) o g' = Fault UndefinedBehaviour.
Proof.
  intros W [[x Hx] Hfree] Ha. inversion Ha as [|? ? p g1 g2 ? ? Hp Eh L1 R Ha']; subst.
  inversion Ha'; subst. destruct R as (W2 & E2 & L2). pose proof W2 as [Ow2 M2].
  assert (heap g1 !! p = Some (set_callback true (new_stage (Some part) 1 1))) as Hst1.
  { by rewrite Eh, lookup_insert_eq. }
  assert (linked g' o (mk_ref p 0)) as Hl by (apply L2; by left).
  assert (∀ k y, get_input g' (mk_ref p k) = Some y → prepared y = false) as Hin.
  { intros k y Hy. destruct (skel_input g' g1 _ y (eq_sym E2) Hy) as (y1 & Hy1 & <-).
    unfold get_input in Hy1. cbn in Hy1. rewrite Hst1 in Hy1. by destruct k; simplify_eq/=. }
  pose proof Hl as (_ & x2 & Hx2 & Hm). unfold RemovePartsConnectedToOutput.
  run_bind (dcheck_out_run _ _ _ Ow2 Hx2).
  run_bind (output_connected_run _ _ _ Ow2 Hx2). rewrite Hm.
  rewrite (proj1 Hl). cbn [negb].
  run_bind (output_mate_run _ _ _ Ow2 Hx2). rewrite Hm. cbv zeta. cbn [ref_part stage_].
  destruct (DisconnectOutput_runs g' o x2 W2 Hx2) as ([] & g3 & H3 & W3 & E3 & L3).
  { intros i y Hl' Hy. rewrite (linked_fun _ _ _ _ Hl' Hl) in Hy. by eapply Hin. }
  run_bind H3. unfold RemovePartsConnectedToPart.
  destruct (proj2 (skel_is_Some g1 g3 p ltac:(congruence)) (mk_is_Some _ _ Hst1)) as [st3 Hst3].
  destruct (skel_lengths g1 g3 p _ st3 ltac:(congruence) Hst1 Hst3) as [Eli Elo].
  run_bind (dcheckS_true _ _ (part_valid_wf _ _ _ (proj1 W3) Hst3)).
  eapply remove_loop_dangling; [done|exact Hst3| |rewrite Eli; cbn; lia]. split.
  - intros k y Hy. destruct (skel_input g3 g' _ y (eq_sym E3) Hy) as (y1 & Hy1 & <-). by eapply Hin.
  - intros k i y Hl3. apply L3 in Hl3 as [Hl3 _]. apply L2 in Hl3 as [[E _]|(_ & _ & Hl3)].
    + unfold get_output in Hx. rewrite <- E in Hx. cbn in Hx. by rewrite Hp in Hx.
    + apply L1 in Hl3 as (_ & x' & Hx' & _). unfold get_output in Hx'. cbn in Hx'.
      by rewrite Hp in Hx'.
Qed.

(** ** The four ways a conversion can go *)

(** The type is one a set accepts. *)
Definition accepted sets (t : StreamType) : Prop :=
  ∃ ts s a, Some ts ∈ sets ∧ set_medium ts = MAudio ∧ set_audio ts = Some s ∧ audio t = Some a ∧
    ((encoding t = kAudioEncodingLpcm ∧ IncludesEncoding ts kAudioEncodingLpcm = true ∧
      (set_sample_format s = FAny ∨ set_sample_format s = sample_format a) ∧
      in_ranges a s = true) ∨
     AudioStreamTypeSet_contains s a = true).

(** A compressed type nothing can be made of, an LPCM type no set takes, and a
    compressed type whose decoder produces LPCM that no set takes. *)
Definition refused sets (t : StreamType) : Prop :=
  encoding t ≠ kAudioEncodingLpcm ∧ ∃ a, audio t = Some a ∧ ¬ has_match a sets ∧
    (best_for a sets None ∨ decoder_create t = None).
Definition lpcm_refused sets (t : StreamType) : Prop :=
  encoding t = kAudioEncodingLpcm ∧ ∃ a, audio t = Some a ∧ best_for a sets None.
Definition dead_end sets (t : StreamType) : Prop :=
  encoding t ≠ kAudioEncodingLpcm ∧ ∃ a ts d, audio t = Some a ∧ ¬ has_match a sets ∧
    best_for a sets (Some ts) ∧ decoder_create t = Some d ∧ lpcm_refused sets d.

Lemma converts_accepted sets t ps t' : converts sets t ps t' → accepted sets t'.
Proof.
  induction 1 as [t a ts s t' He Ha Hb Es (size & Hsz & ->)|t a He Ha (ts & s & Hin & Hm & Es & Hc)|];
    [| |done].
  - destruct (best_in_ranges _ _ _ _ Hb Es) as (Hm & Hl & Hr).
    eexists ts, s, _. split_and!; [apply Hb|done|done|reflexivity|]. left.
    split_and!; [done|done| |done]. cbn. unfold lpcm_format. case_bool_decide; auto.
  - exists ts, s, a. split_and!; try done. by right.
Qed.

Lemma lpcm_verdict fuel t sets o o0 g :
  audio_ok t → encoding t = kAudioEncodingLpcm → Forall proper sets → wf g → open_output g o →
  (∃ ps t', converts sets t ps t' ∧ runs (build_loop (S fuel) t sets o0 o) g (λ r g',
     ∃ o', r = (true, o', Some t') ∧ appended g o ps g' o')) ∨
  (lpcm_refused sets t ∧ AddTransforms t sets o g =
     if dcheck_is_on then Fault DCheckFailed else Ok (kFailed, o, None, g)).
Proof.
  intros Hok He Hs W Hop. destruct (audio_ok_inv t Hok) as (a & Ha & _).
  destruct (FindBestLpcm_run a sets Hs) as ([ts|] & Hr & Hbest).
  - left. destruct (best_audio _ _ _ Hbest) as [s Es].
    destruct (AddTransforms_lpcm t a sets ts s o g Hok He Ha Hr Hbest Es W Hop)
      as (r & g' & Hrun & o' & t' & -> & Hout & Happ).
    exists (reformat a s), t'. split; [by eapply converts_lpcm|]. cbn [build_loop].
    eapply runs_step; [exact Hrun|]. cbv iota beta. apply runs_ret. eauto.
  - right. split; [by split; [|exists a]|]. by eapply AddTransforms_lpcm_refused.
Qed.

Lemma build_failed fuel t sets o out g g' out' :
  AddTransforms t sets out g = Ok (kFailed, out', None, g') →
  build_loop (S fuel) t sets o out g =
    (_ ← RemovePartsConnectedToOutput (S (S fuel)) o; mret (false, o, None)) g'.
Proof. intros E. cbn [build_loop]. by run_bind E. Qed.

Lemma appended_wf g o ps g' o' : wf g → appended g o ps g' o' → wf g'.
Proof. intros W Ha. induction Ha as [|???????????? R ? IH]; [done|]. apply IH, R. Qed.

Lemma succeeded sets t ps t' g o (m : prog G (bool * Ref * option StreamType)) :
  wf g → open_output g o → converts sets t ps t' →
  runs m g (λ r g', ∃ o', r = (true, o', Some t') ∧ appended g o ps g' o') →
  ∃ ps t', converts sets t ps t' ∧ accepted sets t' ∧ runs m g (λ r g',
    ∃ o', r = (true, o', Some t') ∧ wf g' ∧ appended g o ps g' o' ∧
      ∀ o1 i1, linked g o1 i1 → linked g' o1 i1).
Proof.
  intros W Hop Hc Hrun. exists ps, t'. split_and!; [done|by eapply converts_accepted|].
  eapply runs_mono; [exact Hrun|]. intros r g' (o' & -> & Ha). exists o'.
  split_and!; [done|by eapply appended_wf|done|]. intros o1 i1. by eapply appended_links.
Qed.

Lemma build_dead_end fuel t d sets o o1 g g1 :
  wf g → open_output g o →
  AddTransforms t sets o g = Ok (kProgressed, o1, Some d, g1) →
  appended g o [Decoder d] g1 o1 →
  AddTransforms d sets o1 g1 =
    (if dcheck_is_on then Fault DCheckFailed else Ok (kFailed, o1, None, g1)) →
  build_loop (S (S fuel)) t sets o o g =
    if dcheck_is_on then Fault DCheckFailed else Fault UndefinedBehaviour.
Proof.
  intros W Hop Hrun Happ E.
  transitivity (build_loop (S fuel) d sets o o1 g1).
  { cbn [build_loop]. by run_bind Hrun. }
  destruct dcheck_is_on eqn:Hdc.
  - cbn [build_loop]. unfold mbind at 1, prog_bind at 1. by rewrite E.
  - rewrite (build_failed _ _ _ _ _ _ _ _ E). unfold mbind, prog_bind.
    by rewrite (RemoveParts_appended _ g o (Decoder d) g1 o1).
Qed.

(** [BuildConversionPipeline] in full, on an audio type and an open output of a well-formed
    graph, with a decoder library whose decoders produce LPCM: it ends within two rounds, in
    one of four ways, the last of which undoes the pipeline through a dangling pointer. *)
Lemma BuildConversionPipeline_run fuel t sets o g :
  (∀ t d, decoder_create t = Some d → audio_ok d ∧ encoding d = kAudioEncodingLpcm) →
  audio_ok t → Forall proper sets → wf g → open_output g o →
  let build := BuildConversionPipeline (S (S fuel)) t sets o in
  (∃ ps t', converts sets t ps t' ∧ accepted sets t' ∧ runs build g (λ r g',
     ∃ o', r = (true, o', Some t') ∧ wf g' ∧ appended g o ps g' o' ∧
       ∀ o1 i1, linked g o1 i1 → linked g' o1 i1)) ∨
  (refused sets t ∧ build g = Ok (false, o, None, g)) ∨
  (lpcm_refused sets t ∧ build g =
     if dcheck_is_on then Fault DCheckFailed else Ok (false, o, None, g)) ∨
  (dead_end sets t ∧ build g =
     if dcheck_is_on then Fault DCheckFailed else Fault UndefinedBehaviour).
Proof.
  intros Hdec Hok Hs W Hop. cbv zeta. unfold BuildConversionPipeline.
  destruct (decide (encoding t = kAudioEncodingLpcm)) as [He|He].
  { destruct (lpcm_verdict (S fuel) t sets o o g Hok He Hs W Hop) as [(ps & t' & Hc & Hr)|[Hr E]].
    - left. by eapply succeeded.
    - right; right; left. split; [done|]. destruct dcheck_is_on eqn:Hd.
      + cbn [build_loop]. unfold mbind, prog_bind. by rewrite E.
      + rewrite (build_failed _ _ _ _ _ _ _ _ E).
        by run_bind (RemoveParts_open _ _ _ W Hop). }
  destruct (audio_ok_inv t Hok) as (a & Ha & _).
  destruct (find_match_run a sets Hs) as ([|] & Em & Hm).
  { left. eapply succeeded; [done|done|eapply converts_none; [done|done|by apply Hm]|].
    cbn [build_loop].
    eapply runs_step; [by eapply AddTransforms_same|]. apply runs_ret. exists o. by split; [|constructor]. }
  assert (¬ has_match a sets) as Hnm by (rewrite <- Hm; done).
  destruct (FindBestLpcm_run a sets Hs) as (r & Hr & Hbest).
  destruct (decide (r = None ∨ decoder_create t = None)) as [Hor|Hnor].
  { right; left. split; [split; [done|]|].
    - exists a. split_and!; [done|done|]. destruct Hor as [->|?]; [by left|by right].
    - rewrite (build_failed _ _ _ _ _ _ _ _
        (AddTransforms_refused t a sets r o g Hok He Ha Em Hr Hbest Hor)).
      by run_bind (RemoveParts_open _ _ _ W Hop). }
  destruct r as [ts|]; [|tauto]. destruct (decoder_create t) as [d|] eqn:Hd; [|tauto].
  destruct (Hdec t d Hd) as [Hokd Hed].
  destruct (AddTransforms_decode t a sets ts d o g Hok He Ha Em Hr Hbest Hd W Hop)
    as (r1 & g1 & Hrun & o1 & -> & W1 & Hop1 & Happ).
  destruct (lpcm_verdict fuel d sets o1 o g1 Hokd Hed Hs W1 Hop1) as [(ps & t' & Hc & Hr2)|[Hr2 E]].
  - left. eapply succeeded; [done|done|by eapply converts_decode|]. cbn [build_loop] in *.
    eapply runs_step; [exact Hrun|]. cbv iota beta. eapply runs_mono; [exact Hr2|].
    intros r g' (o' & -> & Ha'). exists o'. split; [done|]. by apply Happ.
  - right; right; right. split.
    { split; [done|]. exists a, ts, d. by split_and!. }
    eapply build_dead_end; [exact W|exact Hop|exact Hrun|apply Happ; constructor|exact E].
Qed.

(** C29. [BuildConversionPipeline], on an audio type and an open output of a well-formed
    graph, with a decoder library whose decoders produce LPCM, always ends within two
    rounds, in one of three ways, unless the only way leads through a decoder whose output
    no set takes ([dead_end], where undoing the pipeline fails, see
    [BuildConversionPipeline_run]).  Either the transforms of a conversion to a type
    that the sets accept are appended behind the output, in order, with all other
    connections kept; or the type is a compressed one that cannot be converted and
    the call returns false with the graph unchanged; or it is an LPCM type that no
    set takes, and a release build returns false with the graph unchanged (a debug build
    stops at the [NOTREACHED] that the code has there). *)
Theorem BuildConversionPipeline_spec fuel t sets o g :
  (∀ t d, decoder_create t = Some d → audio_ok d ∧ encoding d = kAudioEncodingLpcm) →
  audio_ok t → Forall proper sets → wf g → open_output g o → ¬ dead_end sets t →
  let build := BuildConversionPipeline (S (S fuel)) t sets o in
  (∃ ps t', converts sets t ps t' ∧ accepted sets t' ∧ runs build g (λ r g',
     ∃ o', r = (true, o', Some t') ∧ wf g' ∧ appended g o ps g' o' ∧
       ∀ o1 i1, linked g o1 i1 → linked g' o1 i1)) ∨
  (refused sets t ∧ build g = Ok (false, o, None, g)) ∨
  (lpcm_refused sets t ∧ (dcheck_is_on = false → build g = Ok (false, o, None, g))).
Proof.
  intros Hdec Hok Hs W Hop Hd.
  destruct (BuildConversionPipeline_run fuel t sets o g Hdec Hok Hs W Hop) as [Hc|[Hr|[[Hl E]|[Hdead _]]]];
    [by left|by right; left| |done].
  right; right. split; [done|]. intros Hb. by rewrite E, Hb.
Qed.

End WithBuild.

(** A graph with one source, a decoder library whose decoders all produce 48 kHz
    stereo, a compressed type, and a consumer of floating point LPCM. *)
Definition source_graph : G :=
  mk_graph {[1 := mk_stage None [] [new_output] true false false]} 2 [1] [1] [].
Definition stereo_decoder (t : StreamType) : option StreamType := Some stereo.
Definition mp3 : StreamType := mk_type MAudio "mp3" None (DAudio (mk_audio FSigned16 2 48000 2)).
Definition float_set : StreamTypeSet :=
  mk_set MAudio ["lpcm"] (SAudio (mk_audio_set FFloat (mk_range 1 2) (mk_range 8000 96000))).

Lemma wf_source : wf source_graph.
Proof.
  destruct (Add_runs new_graph (new_stage (None : option Part) 0 1) wf_new (new_stage_detached _ _ _))
    as (p & g1 & H1 & W1 & _).
  vm_compute in H1. injection H1 as <- <-. exact W1.
Qed.

(** What the decoders produce is taken by the consumer. *)
Lemma stereo_accepted : ¬ dead_end stereo_decoder [Some float_set] mp3.
Proof.
  intros (_ & a & ts & d & _ & _ & _ & [= <-] & _ & a' & [= <-] & Hnone).
  specialize (Hnone float_set (list_elem_of_here _ _)). vm_compute in Hnone. discriminate.
Defined.

Lemma BuildConversionPipeline_spec_witness :
  ∃ ps t', converts stereo_decoder [Some float_set] mp3 ps t' ∧ accepted [Some float_set] t' ∧
    runs (@BuildConversionPipeline debug_build stereo_decoder 2 mp3 [Some float_set] (mk_ref 1 0))
      source_graph (λ r g', ∃ o', r = (true, o', Some t') ∧ wf g' ∧
        appended source_graph (mk_ref 1 0) ps g' o' ∧
        ∀ o1 i1, linked source_graph o1 i1 → linked g' o1 i1).
Proof.
  destruct (@BuildConversionPipeline_spec debug_build stereo_decoder 0 mp3 [Some float_set]
    (mk_ref 1 0) source_graph) as [Hc|[[_ Hc]|[[He _] _]]].
  - intros t d [= <-]. split; [|done]. by split_and!; [eexists|..].
  - by split_and!; [eexists|..].
  - constructor; [|constructor]. exists float_set. split; [done|]. intros _. by eexists.
  - apply wf_source.
  - split; [by eexists|]. intros i (Hi & x & [= <-] & <-). done.
  - apply stereo_accepted.
  - exact Hc.
  - vm_compute in Hc. discriminate.
  - vm_compute in He. discriminate.
Defined.

(** The pipeline of the example: a decoder and a reformatter behind the source. *)
Example pipeline_example :
  match @BuildConversionPipeline debug_build stereo_decoder 2 mp3 [Some float_set] (mk_ref 1 0)
          source_graph with
  | Ok (true, o', Some t', g') =>
      o' = mk_ref 3 0 ∧ stages g' = [1; 2; 3] ∧
      (hosted <$> heap g' !! 2) = Some (Some (Decoder stereo)) ∧
      (hosted <$> heap g' !! 3) = Some (Some (Reformatter FSigned16 FFloat)) ∧
      t' = mk_type MAudio "lpcm" None (DAudio (mk_audio FFloat 2 48000 4))
  | _ => False
  end.
Proof. vm_compute. repeat split. Qed.

(** A decoder whose output no set takes: the failing call deletes the decoder's stage
    and then reads it. *)
Example dead_end_example :
  @BuildConversionPipeline release_build
    (λ _, Some (mk_type MAudio "lpcm" None (DAudio (mk_audio FSigned16 6 48000 2)))) 2 mp3
    [Some float_set] (mk_ref 1 0) source_graph = Fault UndefinedBehaviour.
Proof. vm_compute. reflexivity. Qed.

End ConversionPipeline.
