(* ===== verification/Lpcm.v ===== *)
(** LPCM samples: the buffer operations of services/media/framework/util/lpcm_util.cc
    and the sample format conversions of services/media/framework/parts/lpcm_reformatter.cc.

    A buffer is the list of its samples, and access beyond its end is undefined
    behaviour.  A sample is an integer of its format's type; a [float] sample is its
    32-bit pattern, and what the hardware computes on such patterns (addition, and the
    conversions from and to the integer formats) is the parameter [FloatUnit].  The
    shifts of negative values are those of two's complement. *)

From S2P Require Import Prelude StreamTypes.

Module Lpcm.
Import StreamTypes.

(** Floating point arithmetic on bit patterns. *)
Class FloatUnit := {
  float_add : Z → Z → Z;
  float_of : SampleFormat → Z → Z;
  float_to : SampleFormat → Z → Z;
}.

(** Conversion to a signed integer of [w] bits. *)
Definition swrap (w z : Z) : Z := (z + 2 ^ (w - 1)) mod 2 ^ w - 2 ^ (w - 1).

(** The values of a sample of each format. *)
Definition sample_ok (f : SampleFormat) (v : Z) : Prop :=
  match f with
  | FUnsigned8 => 0 ≤ v < 2 ^ 8
  | FSigned16 => - 2 ^ 15 ≤ v < 2 ^ 15
  | FSigned24In32 => - 2 ^ 31 ≤ v < 2 ^ 31
  | FFloat => 0 ≤ v < 2 ^ 32
  | FAny => False
  end.

Section WithBuild.
Context `{Build} `{FloatUnit}.
Implicit Types (inp out : list Z).

(** ** Buffers *)

(** A [memset], or a loop that stores [v] in the first [n] samples. *)
Definition store_all (n : nat) (v : Z) out : outcome (list Z) :=
  if decide (n ≤ length out)%nat then Ok (replicate n v ++ drop n out)
  else Fault UndefinedBehaviour.

(** [LpcmUtilImpl<T>::Silence] *)
Definition Silence (a : AudioData) out (frame_count : Z) : outcome (list Z) :=
  match sample_format a with
  | FUnsigned8 => store_all (Z.to_nat (u64 (frame_count * bytes_per_frame a))) 128 out
  | FSigned16 => store_all (Z.to_nat (u64 (frame_count * bytes_per_frame a) / 2)) 0 out
  | FSigned24In32 => store_all (Z.to_nat (u64 (frame_count * bytes_per_frame a) / 4)) 0 out
  | FFloat | FAny => store_all (Z.to_nat (u64 (frame_count * channels a))) 0 out
  end.

(** [LpcmUtilImpl<T>::Copy]: [memcpy] of [min_buffer_size] bytes. *)
Definition Copy (a : AudioData) inp out (frame_count : Z) : outcome (list Z) :=
  if sample_size a =? 0 then Fault UndefinedBehaviour
  else
    let n := Z.to_nat (min_buffer_size a frame_count / sample_size a) in
    if decide (n ≤ length inp ∧ n ≤ length out)%nat then Ok (take n inp ++ drop n out)
    else Fault UndefinedBehaviour.

(** One addition of [LpcmUtilImpl<T>::Mix]. *)
Definition mix_sample (f : SampleFormat) (o i : Z) : outcome Z :=
  match f with
  | FUnsigned8 => Ok (u8 (o + i - 128))
  | FSigned16 => Ok (swrap 16 (o + i))
  | FSigned24In32 =>
      let z := o + i in
      if (- 2 ^ 31 <=? z) && (z <? 2 ^ 31) then Ok z
      else if signed_wraps then Ok (swrap 32 z) else Fault UndefinedBehaviour
  | FFloat | FAny => Ok (float_add o i)
  end.

(** The loop of [Mix]: [n] samples from the front of both buffers. *)
Fixpoint mix_loop (f : SampleFormat) (n : nat) inp out : outcome (list Z) :=
  match n with
  | O => Ok out
  | S n =>
      match inp, out with
      | i :: inp, o :: out =>
          v ← mix_sample f o i; rest ← mix_loop f n inp out; Ok (v :: rest)
      | _, _ => Fault UndefinedBehaviour
      end
  end.
Definition Mix (a : AudioData) inp out (frame_count : Z) : outcome (list Z) :=
  mix_loop (sample_format a) (Z.to_nat (u64 (frame_count * channels a))) inp out.

(** The inner loops of [Interleave] and of [TransformPacket]: [n] samples from [i] on,
    [istep] apart, converted and stored from [o] on, [ostep] apart. *)
Fixpoint copy_samples (convert : Z → Z) (n : nat) inp (i istep : nat) out (o ostep : nat) :
    outcome (list Z) :=
  match n with
  | O => Ok out
  | S n =>
      match inp !! i with
      | None => Fault UndefinedBehaviour
      | Some v =>
          if decide (o < length out)%nat then
            copy_samples convert n inp (i + istep) istep (<[o := convert v]> out) (o + ostep) ostep
          else Fault UndefinedBehaviour
      end
  end.

(** The outer loops: [channels] rounds, the start moving by [istart] and by one. *)
Fixpoint copy_channels (convert : Z → Z) (channels frames : nat) inp (i istep istart : nat)
    out (o ostep : nat) : outcome (list Z) :=
  match channels with
  | O => Ok out
  | S channels =>
      out ← copy_samples convert frames inp i istep out o ostep;
      copy_channels convert channels frames inp (i + istart) istep istart out (S o) ostep
  end.

(** [LpcmUtilImpl<T>::Interleave]; the pointers are not null. *)
Definition Interleave (a : AudioData) inp (in_byte_count : Z) out (frame_count : Z) :
    outcome (list Z) :=
  _ ← dcheck (negb (in_byte_count =? 0));
  _ ← dcheck (negb (frame_count =? 0));
  _ ← dcheck (negb (channels a =? 0));
  if bytes_per_frame a =? 0 then Fault UndefinedBehaviour
  else
    _ ← dcheck (in_byte_count mod bytes_per_frame a =? 0);
    _ ← dcheck (u64 (frame_count * bytes_per_frame a) <=? in_byte_count);
    let in_channel_stride := in_byte_count / bytes_per_frame a in
    copy_channels id (Z.to_nat (channels a)) (Z.to_nat frame_count)
      inp 0 1 (Z.to_nat in_channel_stride) out 0 (Z.to_nat (channels a)).

(** ** Sample conversion *)

(** [Clamp(val, min, max)], and its use for 24-bit samples. *)
Definition Clamp (val min max : Z) : Z :=
  if max <? val then max else if val <? min then min else val.
Definition Clamp_s32 (val : Z) : Z := Clamp val (Z.shiftl 1 23) (- Z.shiftl 1 23).

(** [CopySample], for samples of format [i] stored in format [o]. *)
Definition CopySample (i o : SampleFormat) (v : Z) : Z :=
  match i, o with
  | FSigned16, FUnsigned8 => u8 (Z.lxor (Z.shiftr v 8) 128)
  | FSigned24In32, FUnsigned8 => u8 (Z.lxor (Z.shiftr (Clamp_s32 v) 16) 128)
  | FUnsigned8, FSigned16 => swrap 16 (Z.shiftl (Z.lxor v 128) 8)
  | FSigned24In32, FSigned16 => swrap 16 (Z.shiftr (Clamp_s32 v) 8)
  | FUnsigned8, FSigned24In32 => Z.shiftl (Z.lxor v 128) 16
  | FSigned16, FSigned24In32 => Z.shiftl v 8
  | FFloat, (FUnsigned8 | FSigned16 | FSigned24In32) => float_to o v
  | FUnsigned8, FFloat => float_of FUnsigned8 v
  | FSigned16, FFloat => float_of FSigned16 v
  | FSigned24In32, FFloat => float_of FSigned24In32 (Clamp_s32 v)
  | _, _ => v
  end.

(** [LpcmReformatterImpl<TIn, TOut>]: the input type and the output type its
    constructor makes. *)
Record Reformatter := mk_reformatter { in_type : AudioData; out_type : AudioData }.
Definition Reformatter_new (t : StreamType) (a : AudioData) (s : AudioSetData) :
    outcome Reformatter :=
  let f := if bool_decide (set_sample_format s = FAny) then sample_format a
           else set_sample_format s in
  size ← SampleSizeFromFormat f;
  _ ← dcheck (bool_decide (encoding t = kAudioEncodingLpcm));
  _ ← dcheck (bool_decide (encoding_parameters t = None));
  Ok (mk_reformatter a (mk_audio f (channels a) (frames_per_second a) size)).

(** [Packet]: a payload is the samples of the buffer, null for an empty packet. *)
Record Packet := mk_packet {
  pts : Z;
  end_of_stream : bool;
  psize : Z;
  payload : option (list Z);
}.

(** [Packet::Create], with the constructor; a payload comes with its allocator. *)
Definition Packet_Create (pts : Z) (end_of_stream : bool) (size : Z) (payload : option (list Z)) :
    outcome Packet :=
  _ ← dcheck (Bool.eqb (size =? 0) (bool_decide (payload = None)));
  Ok (mk_packet pts end_of_stream size payload).

(** [TransformPacket]: the allocator either gives a buffer of the size asked for,
    whose content is arbitrary, or nothing.  The result is whether the input packet
    was consumed, and the output packet if one was made. *)
Definition TransformPacket (r : Reformatter) (input : Packet) (allocate : Z → option (list Z)) :
    outcome (bool * option Packet) :=
  let in_size := psize input in
  if in_size =? 0 then
    output ← Packet_Create (pts input) (end_of_stream input) 0 None;
    Ok (true, Some output)
  else
    frame_count ← frame_count (in_type r) in_size;
    let out_size := min_buffer_size (out_type r) frame_count in
    match allocate out_size with
    | None => Ok (false, None)
    | Some buffer =>
        inp ← match payload input with Some inp => Ok inp | None => Fault UndefinedBehaviour end;
        out ← copy_channels (CopySample (sample_format (in_type r)) (sample_format (out_type r)))
                (Z.to_nat (channels (in_type r))) (Z.to_nat frame_count)
                inp 0 (Z.to_nat (channels (in_type r))) 1
                buffer 0 (Z.to_nat (channels (out_type r)));
        output ← Packet_Create (pts input) (end_of_stream input) out_size (Some out);
        Ok (true, Some output)
    end.

(** ** Copying loops *)

Lemma copy_samples_run convert n inp i istep out o ostep :
  (0 < ostep)%nat →
  (∀ f, (f < n)%nat → (i + f * istep < length inp ∧ o + f * ostep < length out)%nat) →
  ∃ out', copy_samples convert n inp i istep out o ostep = Ok out' ∧ length out' = length out ∧
    (∀ f, (f < n)%nat → out' !! (o + f * ostep)%nat = convert <$> inp !! (i + f * istep)%nat) ∧
    (∀ k, (∀ f, (f < n)%nat → k ≠ (o + f * ostep)%nat) → out' !! k = out !! k).
Proof.
  intros Hstep. revert i out o. induction n as [|n IH]; intros i out o Hb.
  { exists out. split_and!; try done. lia. }
  destruct (Hb 0%nat) as [Hi Ho]; [lia|]. rewrite !Nat.add_0_r in Hi, Ho. cbn [copy_samples].
  destruct (lookup_lt_is_Some_2 inp i Hi) as [v Hv]. rewrite Hv, decide_True by done.
  destruct (IH (i + istep)%nat (<[o := convert v]> out) (o + ostep)%nat)
    as (out' & -> & Hl & Hhit & Hmiss).
  { intros f Hf. rewrite length_insert. destruct (Hb (S f)); lia. }
  rewrite length_insert in Hl. exists out'. split_and!; [done|done| |].
  - intros [|f] Hf.
    + rewrite !Nat.add_0_r, Hv, Hmiss; [by rewrite list_lookup_insert_eq by done|]. nia.
    + specialize (Hhit f ltac:(lia)). by rewrite <- !Nat.add_assoc in Hhit.
  - intros k Hk. rewrite Hmiss.
    + apply list_lookup_insert_ne. specialize (Hk 0%nat). lia.
    + intros f Hf. specialize (Hk (S f)). lia.
Qed.

Lemma stride_inj (m c c' f f' : nat) :
  (c < m)%nat → (c' < m)%nat → (c + f * m = c' + f' * m)%nat → c = c' ∧ f = f'.
Proof.
  intros Hc Hc' E. assert (f = f'); [|lia].
  destruct (Nat.lt_total f f') as [|[|]]; [|done|]; nia.
Qed.

Lemma copy_channels_run convert C n inp i istep istart out o ostep :
  (C ≤ ostep)%nat →
  (∀ c f, (c < C)%nat → (f < n)%nat →
     (i + c * istart + f * istep < length inp ∧ o + c + f * ostep < length out)%nat) →
  ∃ out', copy_channels convert C n inp i istep istart out o ostep = Ok out' ∧
    length out' = length out ∧
    (∀ c f, (c < C)%nat → (f < n)%nat →
       out' !! (o + c + f * ostep)%nat = convert <$> inp !! (i + c * istart + f * istep)%nat) ∧
    (∀ k, (∀ c f, (c < C)%nat → (f < n)%nat → k ≠ (o + c + f * ostep)%nat) → out' !! k = out !! k).
Proof.
  revert i out o. induction C as [|C IH]; intros i out o HC Hb.
  { exists out. split_and!; try done. lia. }
  cbn [copy_channels].
  destruct (copy_samples_run convert n inp i istep out o ostep)
    as (out1 & -> & Hl1 & Hhit1 & Hmiss1); [lia| |].
  { intros f Hf. destruct (Hb 0%nat f); lia. }
  cbn [mbind outcome_bind].
  destruct (IH (i + istart)%nat out1 (S o)) as (out' & -> & Hl & Hhit & Hmiss); [lia| |].
  { intros c f Hc Hf. rewrite Hl1. destruct (Hb (S c) f); lia. }
  exists out'. split_and!; [done|lia| |].
  - intros [|c] f Hc Hf.
    + rewrite Hmiss; [replace (i + 0 * istart)%nat with i by lia; by rewrite Nat.add_0_r, Hhit1|].
      intros c' f' Hc' Hf' E. destruct (stride_inj ostep 0 (S c') f f'); lia.
    + specialize (Hhit c f ltac:(lia) Hf). rewrite <- Nat.add_succ_comm.
      rewrite Hhit. do 2 f_equal. lia.
  - intros k Hk. rewrite Hmiss; [apply Hmiss1|].
    + intros f Hf. specialize (Hk 0%nat f). lia.
    + intros c f Hc Hf. specialize (Hk (S c) f). lia.
Qed.

(** Every index below [n * C] is [c + f * C] for one channel [c] and frame [f]. *)
Lemma stride_split (k C n : nat) :
  (k < n * C)%nat → ∃ c f, (c < C)%nat ∧ (f < n)%nat ∧ k = (c + f * C)%nat.
Proof.
  intros Hk. exists (k mod C)%nat, (k / C)%nat. destruct (decide (C = 0)%nat); [lia|].
  pose proof (Nat.div_mod_eq k C). pose proof (Nat.mod_upper_bound k C).
  split_and!; [lia| |lia]. apply Nat.Div0.div_lt_upper_bound. lia.
Qed.

(** ** Properties *)

(** The sizes of [a] fit: a frame is [C] samples of [z] bytes. *)
Definition frame_ok (a : AudioData) (C : nat) (z : Z) : Prop :=
  channels a = Z.of_nat C ∧ sample_size a = z ∧ (0 < C)%nat ∧ 0 < z ∧ z * Z.of_nat C < 2 ^ 32.

Lemma frame_ok_bytes a C z : frame_ok a C z → bytes_per_frame a = z * Z.of_nat C.
Proof.
  intros (Hc & Hs & HC & Hz & Hlt). unfold bytes_per_frame. rewrite Hc, Hs.
  apply uwrap_small. unfold is_u. nia.
Qed.

(** [Interleave], on a planar buffer of [stride] frames per channel, stores sample
    [f] of channel [c] at position [f * channels + c] for every one of the
    [frame_count] frames, whatever empty space follows the samples of each channel, and
    leaves the rest of the output buffer alone. *)
Lemma Interleave_spec a C z n stride inp out :
  frame_ok a C z → (0 < n ≤ stride)%nat → Z.of_nat stride * (z * Z.of_nat C) < 2 ^ 64 →
  length inp = (stride * C)%nat → (n * C ≤ length out)%nat →
  ∃ out', Interleave a inp (Z.of_nat stride * (z * Z.of_nat C)) out (Z.of_nat n) = Ok out' ∧
    length out' = length out ∧
    (∀ c f, (c < C)%nat → (f < n)%nat → out' !! (c + f * C)%nat = inp !! (c * stride + f)%nat) ∧
    (∀ k, (n * C ≤ k)%nat → out' !! k = out !! k).
Proof.
  intros Ha Hn Hfit Hin Hout. pose proof (frame_ok_bytes a C z Ha) as Hb.
  destruct Ha as (Hc & Hs & HC & Hz & Hlt).
  destruct (copy_channels_run id C n inp 0 1 stride out 0 C) as (out' & Hrun & Hl & Hhit & Hmiss);
    [done|intros c f Hc' Hf; nia|].
  exists out'. unfold Interleave. rewrite Hb, Hc.
  rewrite (dcheck_nonzero (Z.of_nat stride * _)), (dcheck_nonzero (Z.of_nat n)),
    (dcheck_nonzero (Z.of_nat C)) by nia. cbn [mbind outcome_bind].
  rewrite (proj2 (Z.eqb_neq (z * Z.of_nat C) 0)) by nia. rewrite Z.mod_mul, Z.div_mul by nia.
  rewrite uwrap_small by (unfold is_u; nia). rewrite (dcheck_true (0 =? 0)) by done.
  cbn [mbind outcome_bind]. rewrite (dcheck_true (_ <=? _)) by (apply Z.leb_le; nia).
  cbn [mbind outcome_bind]. rewrite !Nat2Z.id. split_and!; [done|done| |].
  - intros c f Hcc Hf. specialize (Hhit c f Hcc Hf). cbn [Nat.add] in Hhit. rewrite Hhit.
    by rewrite Nat.mul_1_r, option_fmap_id.
  - intros k Hk. apply Hmiss. intros c f Hcc Hf. cbn [Nat.add]. nia.
Qed.

(** Converting in place: the loops of [TransformPacket] map [convert] over the input. *)
Lemma reformat_run convert C n inp out :
  length inp = (n * C)%nat → length out = (n * C)%nat →
  copy_channels convert C n inp 0 C 1 out 0 C = Ok (convert <$> inp).
Proof.
  intros Hin Hl.
  destruct (copy_channels_run convert C n inp 0 C 1 out 0 C) as (out' & -> & Hlo & Hhit & _);
    [done|intros c f Hc' Hf; nia|].
  f_equal. apply list_eq. intros k. rewrite list_lookup_fmap.
  destruct (decide (k < n * C)%nat) as [Hk|Hk].
  - destruct (stride_split k C n Hk) as (c & f & Hc & Hf & ->).
    specialize (Hhit c f Hc Hf). cbn [Nat.add] in Hhit. by rewrite Nat.mul_1_r in Hhit.
  - rewrite !lookup_ge_None_2; [done|lia|lia].
Qed.

(** C35. [TransformPacket] of a reformatter: an empty packet gives an empty packet;
    without a buffer the input is kept and nothing is produced; otherwise the output
    packet has the time and end-of-stream mark of the input and every sample of it
    converted by [CopySample], in the same order, with no access outside either
    buffer. *)
Theorem TransformPacket_spec r C z zo n inp t eos allocate :
  frame_ok (in_type r) C z → frame_ok (out_type r) C zo →
  length inp = (n * C)%nat → Z.of_nat n * (z * Z.of_nat C) < 2 ^ 64 →
  (∀ size buffer, allocate size = Some buffer → size = zo * Z.of_nat (length buffer)) →
  Z.of_nat n * (zo * Z.of_nat C) < 2 ^ 64 →
  let input := mk_packet t eos (Z.of_nat n * (z * Z.of_nat C))
                 (if decide (n = 0%nat) then None else Some inp) in
  let out_size := Z.of_nat n * (zo * Z.of_nat C) in
  TransformPacket r input allocate =
    if decide (n = 0%nat) then Ok (true, Some (mk_packet t eos 0 None))
    else match allocate out_size with
         | None => Ok (false, None)
         | Some _ => Ok (true, Some (mk_packet t eos out_size
                       (Some (CopySample (sample_format (in_type r))
                                (sample_format (out_type r)) <$> inp))))
         end.
Proof.
  intros Hi Ho Hin Hfi Halloc Hfo. pose proof (frame_ok_bytes _ _ _ Hi) as Hbi.
  pose proof (frame_ok_bytes _ _ _ Ho) as Hbo.
  destruct Hi as (Hci & Hsi & HC & Hz & Hlt). destruct Ho as (Hco & Hso & _ & Hzo & Hlto).
  cbv zeta. unfold TransformPacket. cbn [psize payload pts end_of_stream]. case_decide as Hn.
  { subst n. cbn [Z.of_nat]. rewrite Z.mul_0_l. unfold Packet_Create. by rewrite dcheck_true. }
  rewrite (proj2 (Z.eqb_neq _ 0)) by nia. unfold frame_count. rewrite Hbi.
  rewrite dcheck_nonzero by nia. cbn [mbind outcome_bind].
  rewrite (proj2 (Z.eqb_neq (z * Z.of_nat C) 0)) by nia. rewrite Z.mod_mul, Z.div_mul by nia.
  rewrite dcheck_true by done. cbn [mbind outcome_bind].
  unfold min_buffer_size. rewrite Hbo, uwrap_small by (unfold is_u; nia).
  destruct (allocate _) as [buffer|] eqn:Ea; [|done]. apply Halloc in Ea.
  assert (length buffer = (n * C)%nat) as Hl by nia. rewrite Hci, Hco, !Nat2Z.id.
  cbn [mbind outcome_bind]. rewrite (reformat_run _ C n inp buffer) by done.
  cbn [mbind outcome_bind]. unfold Packet_Create. rewrite dcheck_true; [done|].
  rewrite (proj2 (Z.eqb_neq _ 0)) by nia. done.
Qed.

(** A reformatter made for an LPCM type keeps the channels, so both frames have the
    same number of samples. *)
Lemma Reformatter_new_frames t a s r C z :
  frame_ok a C z → Z.of_nat C * 4 < 2 ^ 32 → Reformatter_new t a s = Ok r →
  frame_ok (in_type r) C z ∧ ∃ zo, frame_ok (out_type r) C zo.
Proof.
  intros Hf HC. unfold Reformatter_new.
  set (f := if bool_decide (set_sample_format s = FAny) then _ else _).
  destruct (SampleSizeFromFormat f) as [size|] eqn:E; [|done]. cbn [mbind outcome_bind].
  intros (_ & _ & (_ & _ & [= <-])%outcome_bind_Ok)%outcome_bind_Ok. cbn.
  split; [done|]. exists size. destruct Hf as (Hc & _ & HC0 & _).
  assert (0 < size ≤ 4) by (destruct f; cbn in E; simplify_eq; lia).
  unfold frame_ok. cbn. split_and!; try done; nia.
Qed.

(** Facts about bytes, by enumeration. *)
Lemma byte_cases (P : Z → Prop) `{∀ z, Decision (P z)} lo :
  forallb (λ z, bool_decide (P z)) (seqZ lo 256) = true → ∀ v, lo ≤ v < lo + 256 → P v.
Proof.
  intros Hf v Hv. rewrite forallb_forall in Hf. apply (bool_decide_eq_true_1 (P v)), Hf.
  apply list_elem_of_In, elem_of_seqZ. lia.
Qed.

Lemma u8_to_s16 v : sample_ok FUnsigned8 v → CopySample FUnsigned8 FSigned16 v = (v - 128) * 256.
Proof.
  intros Hv. cbn in Hv.
  apply (byte_cases (λ v, CopySample FUnsigned8 FSigned16 v = (v - 128) * 256) 0); [|lia].
  by vm_compute.
Qed.

Lemma u8_to_s24 v :
  sample_ok FUnsigned8 v →
  CopySample FUnsigned8 FSigned24In32 v = (if v <? 128 then v + 128 else v - 128) * 65536.
Proof.
  intros Hv. cbn in Hv. apply (byte_cases (λ v, CopySample FUnsigned8 FSigned24In32 v =
    (if v <? 128 then v + 128 else v - 128) * 65536) 0); [|lia].
  by vm_compute.
Qed.

Lemma s16_to_u8 v : sample_ok FSigned16 v → CopySample FSigned16 FUnsigned8 v = v / 256 + 128.
Proof.
  intros Hv. cbn [sample_ok] in Hv. cbn [CopySample]. rewrite Z.shiftr_div_pow2 by lia.
  change (2 ^ 8) with 256.
  apply (byte_cases (λ w, u8 (Z.lxor w 128) = w + 128) (-128)); [by vm_compute|].
  pose proof (Z.div_mod v 256 ltac:(lia)). pose proof (Z.mod_pos_bound v 256 ltac:(lia)). lia.
Qed.

Lemma Clamp_s32_cases v : Clamp_s32 v = - 2 ^ 23 ∨ Clamp_s32 v = 2 ^ 23.
Proof.
  unfold Clamp_s32, Clamp. change (Z.shiftl 1 23) with (2 ^ 23).
  destruct (Z.ltb_spec (- 2 ^ 23) v); [by left|]. destruct (Z.ltb_spec v (2 ^ 23)); [by right|lia].
Qed.

(** The integer sample conversions: from unsigned 8-bit samples to signed 16-bit
    ones the value is rescaled and converting back is the identity, from 16 bits down
    to 8 the low byte is dropped, from 16 bits to 24 the value is scaled up.  But every
    24-bit sample is converted to the same value, the smallest of the output format,
    since [Clamp] is called with its bounds exchanged; and 8-bit samples of the lower
    half become positive 24-bit samples. *)
Lemma CopySample_spec v :
  (sample_ok FUnsigned8 v →
     CopySample FUnsigned8 FSigned16 v = (v - 128) * 256 ∧
     CopySample FSigned16 FUnsigned8 (CopySample FUnsigned8 FSigned16 v) = v ∧
     CopySample FUnsigned8 FSigned24In32 v = (if v <? 128 then v + 128 else v - 128) * 65536) ∧
  (sample_ok FSigned16 v →
     CopySample FSigned16 FUnsigned8 v = v / 256 + 128 ∧
     CopySample FSigned16 FSigned24In32 v = v * 256) ∧
  CopySample FSigned24In32 FUnsigned8 v = 0 ∧
  CopySample FSigned24In32 FSigned16 v = - 2 ^ 15.
Proof.
  split_and!.
  - intros Hv. rewrite u8_to_s16, u8_to_s24 by done. cbn in Hv. split_and!; [done| |done].
    rewrite s16_to_u8 by (cbn; lia). rewrite Z.div_mul by lia. lia.
  - intros Hv. rewrite s16_to_u8 by done. split; [done|]. cbn [CopySample].
    by rewrite Z.shiftl_mul_pow2 by lia.
  - cbn [CopySample]. by destruct (Clamp_s32_cases v) as [-> | ->].
  - cbn [CopySample]. by destruct (Clamp_s32_cases v) as [-> | ->].
Qed.

(** Mixing silence in changes nothing. *)
Lemma mix_silence f n out :
  (f = FUnsigned8 ∨ f = FSigned16 ∨ f = FSigned24In32) → Forall (sample_ok f) out →
  (n ≤ length out)%nat →
  mix_loop f n (replicate n (if decide (f = FUnsigned8) then 128 else 0)) out = Ok out.
Proof.
  intros Hf Hout. revert n. induction Hout as [|o out Ho Hout IH]; intros [|n] Hn; try done.
  { cbn in Hn. lia. }
  cbn [mix_loop replicate]. cbn in Hn. rewrite (IH n) by lia.
  assert (mix_sample f o (if decide (f = FUnsigned8) then 128 else 0) = Ok o) as ->; [|done].
  destruct Hf as [-> | [-> | ->]]; cbn [decide mix_sample SampleFormat_eq_dec]; cbn in Ho.
  - case_decide; [|done]. f_equal. rewrite uwrap_small; unfold is_u; lia.
  - case_decide; [done|]. f_equal. unfold swrap. rewrite Z.mod_small; lia.
  - case_decide; [done|]. rewrite Z.add_0_r.
    rewrite (proj2 (Z.leb_le _ _)), (proj2 (Z.ltb_lt _ _)) by lia. done.
Qed.

End WithBuild.

(** ** Examples *)

Definition no_float : FloatUnit := {| float_add := Z.add; float_of _ v := v; float_to _ v := v |}.
Definition s16_stereo : AudioData := mk_audio FSigned16 2 48000 2.

Lemma Interleave_spec_witness :
  ∃ out', @Interleave debug_build s16_stereo [1; 2; 3; 10; 20; 30] 12 [0; 0; 0; 0; 7] 2 = Ok out' ∧
    length out' = 5%nat ∧
    (∀ c f, (c < 2)%nat → (f < 2)%nat →
       out' !! (c + f * 2)%nat = [1; 2; 3; 10; 20; 30] !! (c * 3 + f)%nat) ∧
    (∀ k, (4 ≤ k)%nat → out' !! k = [0; 0; 0; 0; 7] !! k).
Proof.
  refine (@Interleave_spec debug_build s16_stereo 2 2 2 3 [1; 2; 3; 10; 20; 30] [0; 0; 0; 0; 7]
            _ _ _ _ _); [repeat split; cbn; lia|lia|cbn; lia|done|cbn; lia].
Defined.

Lemma TransformPacket_spec_witness :
  @TransformPacket debug_build no_float
    (mk_reformatter (mk_audio FUnsigned8 1 8000 1) (mk_audio FSigned16 1 8000 2))
    (mk_packet 77 true 3 (Some [0; 128; 255]))
    (λ n, if n =? 6 then Some (replicate 3 0) else None)
  = Ok (true, Some (mk_packet 77 true 6 (Some [-32768; 0; 32512]))).
Proof.
  refine (@TransformPacket_spec debug_build no_float
    (mk_reformatter (mk_audio FUnsigned8 1 8000 1) (mk_audio FSigned16 1 8000 2))
    1 1 2 3 [0; 128; 255] 77 true (λ n, if n =? 6 then Some (replicate 3 0) else None) _ _ _ _ _ _).
  all: try (repeat split; cbn; lia).
  intros size buffer. destruct (Z.eqb_spec size 6) as [-> |]; [by intros [= <-]|done].
Defined.

Lemma CopySample_spec_witness :
  @CopySample no_float FSigned16 FUnsigned8 (@CopySample no_float FUnsigned8 FSigned16 200) = 200.
Proof. apply (@CopySample_spec no_float 200). cbn. lia. Defined.

End Lpcm.
