(* ===== verification/Engine.v ===== *)
(** The engine of the media framework (services/media/framework/engine.cc) and the
    stages it operates (services/media/framework/stages).

    The engine works off two backlogs of stages: a stage goes to the supply backlog when
    one of its inputs gets a packet and to the demand backlog when the demand on one of
    its outputs changes; [Stage::Update] moves packets and demand between the stage and
    its neighbours.  Stages live in the heap of [Graph]; what kind of stage it is, with
    the members of its class, is its [hosted] value.

    The parts that stages host and the payload allocators are objects of abstract classes;
    they are the class [Parts], whose operations change the state [World] of everything
    outside the engine.  Parts do not call back into the engine while they are called (the
    engine's lock forbids it); their callbacks are operations of their own
    ([supply_function] and the like).  Locks are left out: every operation here runs with
    the engine's lock taken. *)

From S2P Require Import Prelude Packet Graph.

Module Engine.
Import Packet Graph.

(** ** Parts *)

(** The virtual functions of [PayloadAllocator], [Part], [Transform], [ActiveSource],
    [ActiveSink], [MultistreamSource], [ActiveMultistreamSource] and
    [ActiveMultistreamSink]; parts and allocators are known by their addresses. *)
Class Parts := {
  World : Type;
  GetDefault : Z;
  AllocatePayloadBuffer : Z → Z → World → bool * World;
  ReleasePayloadBuffer : Z → Packet → World → World;
  part_Flush : Z → World → World;
  TransformPacket : Z → Packet → bool → Z → World → bool * option Packet * World;
  can_accept_allocator : Z → bool;
  set_allocator : Z → option Z → World → World;
  SetDownstreamDemand : Z → Demand → World → World;
  sink_allocator : Z → option Z;
  SupplyPacket : Z → Packet → World → Demand * World;
  PullPacket : Z → World → option Packet * nat * World;
  RequestPacket : Z → World → World;
  SupplyPacketTo : Z → nat → Packet → World → Demand * World;
}.

(** ** State *)

(** [ActiveMultistreamSinkStage::StageInput], less the connector, which is in the
    stage's [inputs]. *)
Record StageInput := mk_stage_input { allocated_ : bool; input_demand_ : Demand }.

(** The classes derived from [Stage], with the part each one hosts. *)
Inductive Host :=
  | TransformStage (transform : Z) (allocator_ : option Z) (input_packet_is_new_ : bool)
  | ActiveSourceStage (source : Z) (prepared_ : bool) (packets_ : list Packet)
  | ActiveSinkStage (sink : Z) (sink_demand_ : Demand)
  | MultistreamSourceStage (source : Z) (cached_packet_ : option Packet)
      (cached_packet_output_index_ ended_streams_ : nat)
  | ActiveMultistreamSourceStage (source : Z) (cached_packet_ : option Packet)
      (cached_packet_output_index_ ended_streams_ : nat) (packet_request_outstanding_ : bool)
  | ActiveMultistreamSinkStage (sink : Z) (stage_inputs : list StageInput)
      (unallocated_inputs_ : list nat) (pending_inputs_ : list nat).

(** [Engine], with the graph it operates and the parts. *)
Record engine {PT : Parts} := mk_engine {
  graph : Graph Host;
  supply_backlog_ : list Z;
  demand_backlog_ : list Z;
  packets_produced_ : bool;
  world : World;
}.
Arguments engine : clear implicits.

Section WithParts.
Context `{PT : Parts} `{BD : Build}.
Local Abbreviation M := (prog (engine PT)).
Implicit Types (p : Z) (e : engine PT) (k : nat).

Definition set_graph (g : Graph Host) e : engine PT :=
  mk_engine _ g (supply_backlog_ e) (demand_backlog_ e) (packets_produced_ e) (world e).
Definition set_world (w : World) e : engine PT :=
  mk_engine _ (graph e) (supply_backlog_ e) (demand_backlog_ e) (packets_produced_ e) w.
Definition set_produced (b : bool) e : engine PT :=
  mk_engine _ (graph e) (supply_backlog_ e) (demand_backlog_ e) b (world e).

(** Running an operation of the graph, or of the parts. *)
Definition onG {A} (m : prog (Graph Host) A) : M A := λ e,
  '(a, g) ← m (graph e); Ok (a, set_graph g e).
Definition onW {A} (f : World → A * World) : M A := λ e,
  let '(a, w) := f (world e) in Ok (a, set_world w e).
Definition effW (f : World → World) : M unit := modS (λ e, set_world (f (world e)) e).

(** [PacketDeleter] *)
Definition release (x : Packet) : M unit :=
  match payload x, packet_allocator x with
  | Some _, Some a => effW (ReleasePayloadBuffer a x)
  | _, _ => mret tt
  end.
Definition release_opt (x : option Packet) : M unit :=
  match x with Some x => release x | None => mret tt end.

(** The members of the stage at an address. *)
Definition host p : M Host := st ← onG (deref p); mret (hosted st).
Definition set_hosted (h : Host) (st : Stage Host) : Stage Host :=
  mk_stage h (inputs st) (outputs st) (update_callback st) (in_supply_backlog st) (in_demand_backlog st).
Definition set_backlog_flags (supply demand : bool) (st : Stage Host) : Stage Host :=
  mk_stage (hosted st) (inputs st) (outputs st) (update_callback st) supply demand.
Definition alter_stage p (f : Stage Host → Stage Host) e : engine PT :=
  set_graph (set_heap (alter f p (heap (graph e))) (graph e)) e.
Definition set_host p (h : Host) : M unit := modS (alter_stage p (set_hosted h)).

(** The connectors of a stage, as its own methods reach them. *)
Definition own_input p k : M Input :=
  st ← onG (deref p); match inputs st !! k with Some x => mret x | None => failS UndefinedBehaviour end.
Definition own_output p k : M Output :=
  st ← onG (deref p); match outputs st !! k with Some x => mret x | None => failS UndefinedBehaviour end.
Definition put_input (i : Ref) (x : Input) : M unit := modS (λ e, set_graph (set_input i x (graph e)) e).
Definition put_output (o : Ref) (x : Output) : M unit := modS (λ e, set_graph (set_output o x (graph e)) e).

(** ** Backlogs *)

(** [Engine::PushToSupplyBacklog], [PushToDemandBacklog]; the demand backlog is a stack,
    whose top comes first. *)
Definition PushToSupplyBacklog p : M unit :=
  _ ← dcheckS (negb (p =? 0));
  _ ← modS (set_produced true);
  st ← onG (deref p);
  whenS (negb (in_supply_backlog st))
    (_ ← modS (λ e, mk_engine _ (graph e) (supply_backlog_ e ++ [p]) (demand_backlog_ e) (packets_produced_ e) (world e));
     modS (alter_stage p (λ st, set_backlog_flags true (in_demand_backlog st) st))).
Definition PushToDemandBacklog p : M unit :=
  _ ← dcheckS (negb (p =? 0));
  st ← onG (deref p);
  whenS (negb (in_demand_backlog st))
    (_ ← modS (λ e, mk_engine _ (graph e) (supply_backlog_ e) (p :: demand_backlog_ e) (packets_produced_ e) (world e));
     modS (alter_stage p (λ st, set_backlog_flags (in_supply_backlog st) true st))).

(** [Engine::PopFromSupplyBacklog], [PopFromDemandBacklog] *)
Definition PopFromSupplyBacklog : M (option Z) :=
  e ← getS;
  match supply_backlog_ e with
  | [] => mret None
  | p :: rest =>
      _ ← modS (λ e, mk_engine _ (graph e) rest (demand_backlog_ e) (packets_produced_ e) (world e));
      st ← onG (deref p);
      _ ← dcheckS (in_supply_backlog st);
      _ ← modS (alter_stage p (λ st, set_backlog_flags false (in_demand_backlog st) st));
      mret (Some p)
  end.
Definition PopFromDemandBacklog : M (option Z) :=
  e ← getS;
  match demand_backlog_ e with
  | [] => mret None
  | p :: rest =>
      _ ← modS (λ e, mk_engine _ (graph e) (supply_backlog_ e) rest (packets_produced_ e) (world e));
      st ← onG (deref p);
      _ ← dcheckS (in_demand_backlog st);
      _ ← modS (alter_stage p (λ st, set_backlog_flags (in_supply_backlog st) false st));
      mret (Some p)
  end.

(** ** Connectors *)

(** [Input::actual_mate], [Output::actual_mate] *)
Definition Input_actual_mate (x : Input) : M Output :=
  _ ← onG (dcheckG (output_valid (imate x))); onG (output_actual (imate x)).
Definition Output_actual_mate (x : Output) : M Input :=
  _ ← onG (dcheckG (input_valid (omate x))); onG (input_actual (omate x)).

(** [Output::UpdateDemandFromInput], on the output [o] *)
Definition UpdateDemandFromInput (o : Ref) (demand : Demand) : M bool :=
  y ← onG (output_actual o);
  if decide (demand_ y = demand) then mret false
  else _ ← put_output o (mk_output (omate y) demand (copy_allocator y)); mret true.

(** [Input::SetDemand], on input [k] of the stage [p] *)
Definition SetDemand p k (demand : Demand) : M unit :=
  x ← own_input p k;
  _ ← dcheckS (ref_bool (imate x));
  _ ← Input_actual_mate x;
  changed ← UpdateDemandFromInput (imate x) demand;
  whenS changed (PushToDemandBacklog (stage_ (imate x))).

(** [Input::SupplyPacketFromOutput]; the pointer that is assigned to releases what it held. *)
Definition SupplyPacketFromOutput (i : Ref) (x : Packet) : M bool :=
  y ← onG (input_actual i);
  _ ← dcheckS (bool_decide (packet_from_upstream y = None));
  _ ← put_input i (mk_input (imate y) (prepared y) (Some x));
  _ ← release_opt (packet_from_upstream y);
  mret true.

(** [Input::Flush], [Output::Flush], [Output::SetCopyAllocator] *)
Definition Input_Flush p k : M unit :=
  x ← own_input p k;
  _ ← put_input (mk_ref p k) (mk_input (imate x) (prepared x) None);
  release_opt (packet_from_upstream x).
Definition Output_Flush p k : M unit :=
  x ← own_output p k; put_output (mk_ref p k) (mk_output (omate x) kNegative (copy_allocator x)).
Definition SetCopyAllocator p k (a : option Z) : M unit :=
  x ← own_output p k;
  _ ← dcheckS (ref_bool (omate x));
  put_output (mk_ref p k) (mk_output (omate x) (demand_ x) a).

(** Taking the packet out of an input: [std::move(input_.packet_from_upstream())]. *)
Definition take_packet p k : M (option Packet) :=
  x ← own_input p k;
  _ ← put_input (mk_ref p k) (mk_input (imate x) (prepared x) None);
  mret (packet_from_upstream x).

(** [Output::demand] *)
Definition Output_demand p k : M Demand :=
  x ← own_output p k;
  _ ← dcheckS (ref_bool (omate x));
  if decide (demand_ x = kNegative) then mret kNegative
  else
    y ← Output_actual_mate x;
    if decide (packet_from_upstream y = None) then mret (demand_ x) else mret kNegative.

(** The first part of [Output::SupplyPacket]: the packet that is handed on, which is a
    copy when the input insists on an allocator; none when the allocator is starved. *)
Definition copied (allocator : option Z) (x : Packet) : M (option Packet) :=
  match allocator with
  | None => mret (Some x)
  | Some a =>
      if size x =? 0 then
        c ← liftO (Create (pts x) (end_of_stream x) 0 None (Some a));
        _ ← release x; mret (Some c)
      else
        ok ← onW (AllocatePayloadBuffer a (size x));
        if negb ok then _ ← release x; mret None
        else
          match payload x with
          | None => failS UndefinedBehaviour
          | Some bytes =>
              c ← liftO (Create (pts x) (end_of_stream x) (size x) (Some bytes) (Some a));
              _ ← release x; mret (Some c)
          end
  end.

(** [Output::SupplyPacket] *)
Definition Output_SupplyPacket p k (x : Packet) : M unit :=
  y ← own_output p k;
  _ ← dcheckS (ref_bool (omate y));
  c ← copied (copy_allocator y) x;
  match c with
  | None => mret tt
  | Some c =>
      _ ← Output_actual_mate y;
      supplied ← SupplyPacketFromOutput (omate y) c;
      whenS supplied (PushToSupplyBacklog (stage_ (omate y)))
  end.

(** [HasPositiveDemand], over the indices of the outputs *)
Fixpoint HasPositiveDemand p (ks : list nat) : M bool :=
  match ks with
  | [] => mret false
  | k :: ks =>
      d ← Output_demand p k;
      if decide (d = kPositive) then mret true else HasPositiveDemand p ks
  end.
Definition output_count p : M nat := st ← onG (deref p); mret (length (outputs st)).
Definition input_count p : M nat := st ← onG (deref p); mret (length (inputs st)).

(** ** Updating stages *)

(** [TransformStage::Update] *)
Definition TransformStage_Update p transform (allocator_ : option Z) (is_new : bool) : M unit :=
  _ ← dcheckS (bool_decide (is_Some allocator_));
  x ← own_input p 0;
  _ ← match packet_from_upstream x with
      | None => mret tt
      | Some input =>
          demand ← Output_demand p 0;
          if decide (demand = kNegative) then mret tt
          else
            output ←
              ('(done, output) ← onW (TransformPacket transform input is_new (default 0 allocator_));
               _ ← (if done : bool then
                      _ ← take_packet p 0;
                      _ ← release input;
                      set_host p (TransformStage transform allocator_ true)
                    else set_host p (TransformStage transform allocator_ false));
               mret output);
            match output with Some output => Output_SupplyPacket p 0 output | None => mret tt end
      end;
  demand ← Output_demand p 0;
  SetDemand p 0 demand.

(** [ActiveSourceStage::Update] *)
Definition ActiveSourceStage_Update p source (prepared_ : bool) (packets_ : list Packet) : M unit :=
  demand ← Output_demand p 0;
  _ ← effW (SetDownstreamDemand source demand);
  match packets_ with
  | x :: rest =>
      if decide (demand = kNegative) then mret tt
      else
        _ ← Output_SupplyPacket p 0 x;
        set_host p (ActiveSourceStage source prepared_ rest)
  | [] => mret tt
  end.

(** [ActiveSinkStage::Update] *)
Definition ActiveSinkStage_Update p sink (sink_demand_ : Demand) : M unit :=
  x ← take_packet p 0;
  demand ←
    match x with
    | None => mret sink_demand_
    | Some x => d ← onW (SupplyPacket sink x); _ ← set_host p (ActiveSinkStage sink d); mret d
    end;
  SetDemand p 0 demand.

(** The loop of [MultistreamSourceStage::Update] *)
Fixpoint multistream_loop (fuel : nat) p : M unit :=
  match fuel with
  | O => failS OutOfFuel
  | S fuel =>
      h ← host p;
      match h with
      | MultistreamSourceStage source cached index ended =>
          n ← output_count p;
          cached ←
            match cached with
            | None => mret None
            | Some x =>
                positive ← HasPositiveDemand p (seq 0 n);
                if negb positive then mret (Some x)
                else
                  _ ← dcheckS (bool_decide (index < n)%nat);
                  d ← Output_demand p index;
                  if decide (d = kNegative) then mret (Some x)
                  else
                    _ ← Output_SupplyPacket p index x;
                    _ ← set_host p (MultistreamSourceStage source None index ended);
                    mret None
            end;
          match cached with
          | Some _ => mret tt
          | None =>
              if bool_decide (ended = n) then mret tt
              else
                '(pulled, index) ← onW (PullPacket source);
                _ ← dcheckS (bool_decide (is_Some pulled));
                _ ← dcheckS (bool_decide (index < n)%nat);
                match pulled with
                | None => failS UndefinedBehaviour
                | Some x =>
                    _ ← set_host p (MultistreamSourceStage source (Some x) index
                                      (if end_of_stream x then S ended else ended));
                    multistream_loop fuel p
                end
          end
      | _ => failS UndefinedBehaviour
      end
  end.

(** [ActiveMultistreamSourceStage::Update] *)
Definition ActiveMultistreamSourceStage_Update p source (cached : option Packet) (index ended : nat)
    (outstanding : bool) : M unit :=
  cached ←
    match cached with
    | None => mret None
    | Some x =>
        d ← Output_demand p index;
        if decide (d = kNegative) then mret (Some x)
        else _ ← Output_SupplyPacket p index x; mret None
    end;
  outstanding ←
    match cached with
    | Some _ => mret outstanding
    | None =>
        n ← output_count p;
        positive ← HasPositiveDemand p (seq 0 n);
        if positive && negb outstanding then _ ← effW (RequestPacket source); mret true
        else mret outstanding
    end;
  set_host p (ActiveMultistreamSourceStage source cached index ended outstanding).

(** The loop of [ActiveMultistreamSinkStage::Update]; [iter] is the position in the list
    of pending inputs, which advances or has the element under it erased, except after a
    packet was taken and demand remains. *)
Fixpoint sink_loop (fuel : nat) p sink (iter : nat) : M unit :=
  match fuel with
  | O => failS OutOfFuel
  | S fuel =>
      h ← host p;
      match h with
      | ActiveMultistreamSinkStage _ ins unallocated pending =>
          match pending !! iter with
          | None => mret tt
          | Some k =>
              _ ← dcheckS (bool_decide (k < length ins)%nat);
              match ins !! k with
              | None => failS UndefinedBehaviour
              | Some si =>
                  iter ←
                    (x ← take_packet p k;
                     '(d, iter) ←
                       match x with
                       | None => mret (input_demand_ si, S iter)
                       | Some x =>
                           d ← onW (SupplyPacketTo sink k x);
                           let ins := <[k := mk_stage_input (allocated_ si) d]> ins in
                           let pending := if decide (d = kNegative) then delete iter pending else pending in
                           _ ← set_host p (ActiveMultistreamSinkStage sink ins unallocated pending);
                           mret (d, iter)
                       end;
                     _ ← SetDemand p k d;
                     mret iter);
                  sink_loop fuel p sink iter
              end
          end
      | _ => failS UndefinedBehaviour
      end
  end.

(** [Stage::Update]; the loop over pending inputs visits each at most twice. *)
Definition stage_Update (fuel : nat) p : M unit :=
  h ← host p;
  match h with
  | TransformStage t a n => TransformStage_Update p t a n
  | ActiveSourceStage s r ps => ActiveSourceStage_Update p s r ps
  | ActiveSinkStage s d => ActiveSinkStage_Update p s d
  | MultistreamSourceStage _ _ _ _ => multistream_loop fuel p
  | ActiveMultistreamSourceStage s c i n o => ActiveMultistreamSourceStage_Update p s c i n o
  | ActiveMultistreamSinkStage s _ _ pending => sink_loop (S (2 * length pending)) p s 0
  end.

(** ** The engine *)

(** [Engine::Update], of one stage *)
Definition UpdateStage (fuel : nat) p : M unit :=
  _ ← dcheckS (negb (p =? 0));
  _ ← modS (set_produced false);
  _ ← stage_Update fuel p;
  e ← getS;
  whenS (packets_produced_ e) (PushToDemandBacklog p).

(** [Engine::Update], of the backlogs *)
Fixpoint UpdateAll (fuel : nat) : M unit :=
  match fuel with
  | O => failS OutOfFuel
  | S fuel' =>
      s ← PopFromSupplyBacklog;
      match s with
      | Some p => _ ← UpdateStage fuel' p; UpdateAll fuel'
      | None =>
          s ← PopFromDemandBacklog;
          match s with
          | Some p => _ ← UpdateStage fuel' p; UpdateAll fuel'
          | None => mret tt
          end
      end
  end.

(** [Engine::RequestUpdate], with [Stage::RequestUpdate], which calls it back. *)
Definition RequestUpdate (fuel : nat) p : M unit :=
  _ ← dcheckS (negb (p =? 0)); _ ← UpdateStage fuel p; UpdateAll fuel.
Definition stage_RequestUpdate (fuel : nat) p : M unit :=
  st ← onG (deref p);
  _ ← dcheckS (update_callback st);
  if update_callback st then RequestUpdate fuel p else failS UndefinedBehaviour.

(** ** Callbacks of the parts *)

(** [ActiveSourceStage]'s supply function *)
Definition source_supply (fuel : nat) p (x : Packet) : M unit :=
  h ← host p;
  match h with
  | ActiveSourceStage s r ps =>
      _ ← set_host p (ActiveSourceStage s r (ps ++ [x]));
      whenS (bool_decide (ps = []) && r) (stage_RequestUpdate fuel p)
  | _ => failS UndefinedBehaviour
  end.

(** [ActiveSinkStage]'s demand function *)
Definition sink_demand (fuel : nat) p (demand : Demand) : M unit :=
  h ← host p;
  match h with
  | ActiveSinkStage s d =>
      if decide (d = demand) then mret tt
      else _ ← set_host p (ActiveSinkStage s demand); stage_RequestUpdate fuel p
  | _ => failS UndefinedBehaviour
  end.

(** [ActiveMultistreamSourceStage]'s supply function *)
Definition multistream_supply (fuel : nat) p (index : nat) (packet : option Packet) : M unit :=
  h ← host p;
  match h with
  | ActiveMultistreamSourceStage s c _ ended outstanding =>
      n ← output_count p;
      _ ← dcheckS (bool_decide (c = None));
      _ ← dcheckS (bool_decide (index < n)%nat);
      _ ← dcheckS (bool_decide (is_Some packet));
      _ ← dcheckS outstanding;
      match packet with
      | None => failS UndefinedBehaviour
      | Some x =>
          _ ← release_opt c;
          _ ← set_host p (ActiveMultistreamSourceStage s (Some x) index
                            (if end_of_stream x then S ended else ended) false);
          d ← Output_demand p index;
          whenS (negb (bool_decide (d = kNegative))) (stage_RequestUpdate fuel p)
      end
  | _ => failS UndefinedBehaviour
  end.

(** [ActiveMultistreamSinkStage::UpdateDemand] *)
Definition UpdateDemand (fuel : nat) p k (demand : Demand) : M unit :=
  h ← host p;
  match h with
  | ActiveMultistreamSinkStage s ins unallocated pending =>
      _ ← dcheckS (bool_decide (k < length ins)%nat);
      _ ← dcheckS (negb (bool_decide (demand = kNegative)));
      match ins !! k with
      | None => failS UndefinedBehaviour
      | Some si =>
          _ ← set_host p (ActiveMultistreamSinkStage s (<[k := mk_stage_input (allocated_ si) demand]> ins)
                            unallocated (pending ++ [k]));
          stage_RequestUpdate fuel p
      end
  | _ => failS UndefinedBehaviour
  end.

(** [AllocateInput]; the set of unallocated indices is kept in order. *)
Definition AllocateInput p : M nat :=
  h ← host p;
  match h with
  | ActiveMultistreamSinkStage s ins [] pending =>
      let k := length ins in
      _ ← modS (alter_stage p (map_inputs (λ l, l ++ [new_input])));
      _ ← set_host p (ActiveMultistreamSinkStage s (ins ++ [mk_stage_input true kNegative]) [] pending);
      mret k
  | ActiveMultistreamSinkStage s ins (k :: unallocated) pending =>
      match ins !! k with
      | None => failS UndefinedBehaviour
      | Some si =>
          _ ← dcheckS (negb (allocated_ si));
          _ ← set_host p (ActiveMultistreamSinkStage s (<[k := mk_stage_input true (input_demand_ si)]> ins)
                            unallocated pending);
          mret k
      end
  | _ => failS UndefinedBehaviour
  end.

(** [ReleaseInput]: the loop that drops unallocated inputs from the end, which runs over
    the list backwards, and the whole. *)
Fixpoint insert_sorted k (l : list nat) : list nat :=
  match l with
  | [] => [k]
  | j :: l' => if (k <? j)%nat then k :: l else if (k =? j)%nat then l else j :: insert_sorted k l'
  end.
Fixpoint drop_unallocated (rev_ins : list StageInput) : list StageInput :=
  match rev_ins with
  | si :: ((_ :: _) as rest) => if allocated_ si then rev_ins else drop_unallocated rest
  | _ => rev_ins
  end.
Definition ReleaseInput p k : M nat :=
  h ← host p;
  match h with
  | ActiveMultistreamSinkStage s ins unallocated pending =>
      _ ← dcheckS (bool_decide (k < length ins)%nat);
      x ← own_input p k;
      match ins !! k with
      | None => failS UndefinedBehaviour
      | Some si =>
          _ ← dcheckS (allocated_ si);
          _ ← dcheckS (negb (ref_bool (imate x)));
          let ins := <[k := mk_stage_input false (input_demand_ si)]> ins in
          if negb (k =? 0)%nat && (k =? length ins - 1)%nat then
            let ins' := reverse (drop_unallocated (reverse ins)) in
            _ ← set_host p (ActiveMultistreamSinkStage s ins'
                              (filter (λ j, (j < length ins' ∨ length ins ≤ j)%nat) unallocated) pending);
            _ ← modS (alter_stage p (map_inputs (take (length ins'))));
            mret (length ins')
          else
            _ ← set_host p (ActiveMultistreamSinkStage s ins (insert_sorted k unallocated) pending);
            mret (length ins)
      end
  | _ => failS UndefinedBehaviour
  end.

(** The constructors of the stages.  Two members start uninitialised: the index of a
    cached packet that does not exist, and the index is an argument here.  The multistream
    sink allocates and releases its first input. *)
Definition new_TransformStage t : Stage Host := new_stage (TransformStage t None true) 1 1.
Definition new_ActiveSourceStage s : Stage Host := new_stage (ActiveSourceStage s false []) 0 1.
Definition new_ActiveSinkStage s : Stage Host := new_stage (ActiveSinkStage s kNegative) 1 0.
Definition new_MultistreamSourceStage s stream_count index : Stage Host :=
  new_stage (MultistreamSourceStage s None index 0) 0 stream_count.
Definition new_ActiveMultistreamSourceStage s stream_count index : Stage Host :=
  new_stage (ActiveMultistreamSourceStage s None index 0 false) 0 stream_count.
Definition construct_ActiveMultistreamSinkStage p sink : M unit :=
  _ ← modS (λ e, set_graph (set_heap (<[p := new_stage (ActiveMultistreamSinkStage sink [] [] []) 0 0]>
                                       (heap (graph e))) (graph e)) e);
  k ← AllocateInput p;
  _ ← ReleaseInput p k;
  mret tt.

(** ** Preparing and flushing *)

(** [Stage::PrepareInput], by class: the allocator that the upstream output must use. *)
Definition TransformStage_PrepareInput k : M (option Z) := _ ← dcheckS (k =? 0)%nat; mret None.
Definition ActiveSinkStage_PrepareInput sink k : M (option Z) :=
  _ ← dcheckS (k =? 0)%nat; mret (sink_allocator sink).
Definition ActiveMultistreamSinkStage_PrepareInput k : M (option Z) := mret None.
Definition stage_PrepareInput p k : M (option Z) :=
  h ← host p;
  match h with
  | TransformStage _ _ _ => TransformStage_PrepareInput k
  | ActiveSinkStage s _ => ActiveSinkStage_PrepareInput s k
  | ActiveMultistreamSinkStage _ _ _ _ => ActiveMultistreamSinkStage_PrepareInput k
  | _ => failS CheckFailed
  end.

(** [Stage::PrepareOutput]: the inputs that become ready to be prepared. *)
Definition TransformStage_PrepareOutput p t n k (allocator : option Z) : M (list nat) :=
  _ ← dcheckS (k =? 0)%nat;
  _ ← set_host p (TransformStage t (Some (default GetDefault allocator)) n);
  mret [0%nat].
Definition ActiveSourceStage_PrepareOutput p s ps k (allocator : option Z) : M (list nat) :=
  _ ← dcheckS (k =? 0)%nat;
  _ ← (if can_accept_allocator s then effW (set_allocator s (Some (default GetDefault allocator)))
       else match allocator with Some a => SetCopyAllocator p 0 (Some a) | None => mret tt end);
  _ ← set_host p (ActiveSourceStage s true ps);
  mret [].
Definition MultistreamSourceStage_PrepareOutput p k (allocator : option Z) : M (list nat) :=
  n ← output_count p;
  _ ← dcheckS (bool_decide (k < n)%nat);
  _ ← match allocator with Some a => SetCopyAllocator p k (Some a) | None => mret tt end;
  mret [].
Definition ActiveMultistreamSourceStage_PrepareOutput p k (allocator : option Z) : M (list nat) :=
  n ← output_count p;
  _ ← dcheckS (bool_decide (k < n)%nat);
  _ ← match allocator with Some a => SetCopyAllocator p k (Some a) | None => mret tt end;
  mret [].
Definition stage_PrepareOutput p k (allocator : option Z) : M (list nat) :=
  h ← host p;
  match h with
  | TransformStage t _ n => TransformStage_PrepareOutput p t n k allocator
  | ActiveSourceStage s _ ps => ActiveSourceStage_PrepareOutput p s ps k allocator
  | MultistreamSourceStage _ _ _ _ => MultistreamSourceStage_PrepareOutput p k allocator
  | ActiveMultistreamSourceStage _ _ _ _ _ => ActiveMultistreamSourceStage_PrepareOutput p k allocator
  | ActiveSinkStage _ _ | ActiveMultistreamSinkStage _ _ _ _ => failS CheckFailed
  end.

(** [Stage::UnprepareInput], which no class overrides, and [Stage::UnprepareOutput], whose
    default the sinks keep. *)
Definition stage_UnprepareInput p k : M unit := _ ← host p; mret tt.
Definition TransformStage_UnprepareOutput p t n : M (list nat) :=
  _ ← set_host p (TransformStage t None n); mret [0%nat].
Definition ActiveSourceStage_UnprepareOutput p s k : M (list nat) :=
  _ ← dcheckS (k =? 0)%nat;
  _ ← effW (set_allocator s None);
  _ ← SetCopyAllocator p 0 None;
  mret [].
Definition MultistreamSourceStage_UnprepareOutput p k : M (list nat) :=
  n ← output_count p;
  _ ← dcheckS (bool_decide (k < n)%nat);
  _ ← SetCopyAllocator p k None;
  mret [].
Definition ActiveMultistreamSourceStage_UnprepareOutput p k : M (list nat) :=
  n ← output_count p;
  _ ← dcheckS (bool_decide (k < n)%nat);
  _ ← SetCopyAllocator p k None;
  mret [].
Definition stage_UnprepareOutput p k : M (list nat) :=
  h ← host p;
  match h with
  | TransformStage t _ n => TransformStage_UnprepareOutput p t n
  | ActiveSourceStage s _ _ => ActiveSourceStage_UnprepareOutput p s k
  | MultistreamSourceStage _ _ _ _ => MultistreamSourceStage_UnprepareOutput p k
  | ActiveMultistreamSourceStage _ _ _ _ _ => ActiveMultistreamSourceStage_UnprepareOutput p k
  | ActiveSinkStage _ _ | ActiveMultistreamSinkStage _ _ _ _ => mret []
  end.

(** [Stage::FlushInput]: the outputs that become ready to be flushed. *)
Definition TransformStage_FlushInput p k : M (list nat) :=
  _ ← dcheckS (k =? 0)%nat; _ ← Input_Flush p 0; mret [0%nat].
Definition ActiveSinkStage_FlushInput p sink : M (list nat) :=
  _ ← Input_Flush p 0;
  _ ← effW (part_Flush sink);
  _ ← set_host p (ActiveSinkStage sink kNegative);
  mret [].
Definition ActiveMultistreamSinkStage_FlushInput p sink (ins : list StageInput) unallocated (pending : list nat) k : M (list nat) :=
  _ ← effW (part_Flush sink);
  match ins !! k with
  | None => failS UndefinedBehaviour
  | Some si =>
      let ins := <[k := mk_stage_input (allocated_ si) kNegative]> ins in
      _ ← set_host p (ActiveMultistreamSinkStage sink ins unallocated pending);
      _ ← Input_Flush p k;
      _ ← set_host p (ActiveMultistreamSinkStage sink ins unallocated (filter (λ j, j ≠ k) pending));
      mret []
  end.
Definition stage_FlushInput p k : M (list nat) :=
  h ← host p;
  match h with
  | TransformStage _ _ _ => TransformStage_FlushInput p k
  | ActiveSinkStage s _ => ActiveSinkStage_FlushInput p s
  | ActiveMultistreamSinkStage s ins unallocated pending =>
      ActiveMultistreamSinkStage_FlushInput p s ins unallocated pending k
  | _ => failS CheckFailed
  end.

(** [Stage::FlushOutput] *)
Fixpoint release_all (xs : list Packet) : M unit :=
  match xs with [] => mret tt | x :: xs => _ ← release x; release_all xs end.
Definition TransformStage_FlushOutput p t a k : M unit :=
  _ ← dcheckS (k =? 0)%nat;
  _ ← Output_Flush p 0;
  _ ← effW (part_Flush t);
  set_host p (TransformStage t a true).
Definition ActiveSourceStage_FlushOutput p s r ps : M unit :=
  _ ← Output_Flush p 0;
  _ ← effW (part_Flush s);
  _ ← release_all ps;
  set_host p (ActiveSourceStage s r []).
Definition MultistreamSourceStage_FlushOutput p s c k : M unit :=
  n ← output_count p;
  _ ← dcheckS (bool_decide (k < n)%nat);
  _ ← Output_Flush p k;
  _ ← effW (part_Flush s);
  _ ← release_opt c;
  set_host p (MultistreamSourceStage s None 0 0).
Definition ActiveMultistreamSourceStage_FlushOutput p s c k : M unit :=
  n ← output_count p;
  _ ← dcheckS (bool_decide (k < n)%nat);
  _ ← Output_Flush p k;
  _ ← release_opt c;
  set_host p (ActiveMultistreamSourceStage s None 0 0 false).
Definition stage_FlushOutput p k : M unit :=
  h ← host p;
  match h with
  | TransformStage t a _ => TransformStage_FlushOutput p t a k
  | ActiveSourceStage s r ps => ActiveSourceStage_FlushOutput p s r ps
  | MultistreamSourceStage s c _ _ => MultistreamSourceStage_FlushOutput p s c k
  | ActiveMultistreamSourceStage s c _ _ _ => ActiveMultistreamSourceStage_FlushOutput p s c k
  | ActiveSinkStage _ _ | ActiveMultistreamSinkStage _ _ _ _ => failS CheckFailed
  end.

(** References to connectors of a stage, as the callbacks of a visit make them. *)
Fixpoint make_refs (mk : Z → nat → prog (Graph Host) Ref) p (ks : list nat) : M (list Ref) :=
  match ks with
  | [] => mret []
  | k :: ks => r ← onG (mk p k); rs ← make_refs mk p ks; mret (r :: rs)
  end.

(** [Engine::VisitUpstream], [VisitDownstream] *)
Fixpoint VisitUpstream (fuel : nat) (visitor : Ref → Ref → M (list nat)) (backlog : list Ref) : M unit :=
  match backlog with
  | [] => mret tt
  | input :: backlog =>
      match fuel with
      | O => failS OutOfFuel
      | S fuel =>
          _ ← onG (dcheckG (input_valid input));
          _ ← onG (dcheckG (input_connected input));
          output ← onG (input_mate input);
          ks ← visitor input output;
          rs ← make_refs input_ref (stage_ output) ks;
          VisitUpstream fuel visitor (backlog ++ rs)
      end
  end.
Fixpoint VisitDownstream (fuel : nat) (visitor : Ref → Ref → M (list nat)) (backlog : list Ref) : M unit :=
  match backlog with
  | [] => mret tt
  | output :: backlog =>
      match fuel with
      | O => failS OutOfFuel
      | S fuel =>
          _ ← onG (dcheckG (output_valid output));
          _ ← onG (dcheckG (output_connected output));
          input ← onG (output_mate output);
          ks ← visitor output input;
          rs ← make_refs output_ref (stage_ input) ks;
          VisitDownstream fuel visitor (backlog ++ rs)
      end
  end.

(** [Engine::PrepareInput], [UnprepareInput], [FlushOutput] with their visitors. *)
Definition prepare_visitor (input output : Ref) : M (list nat) :=
  _ ← onG (dcheckG (x ← input_actual input; mret (negb (prepared x))));
  allocator ← stage_PrepareInput (stage_ input) (index_ input);
  x ← onG (input_actual input);
  _ ← put_input input (mk_input (imate x) true (packet_from_upstream x));
  stage_PrepareOutput (stage_ output) (index_ output) allocator.
Definition unprepare_visitor (input output : Ref) : M (list nat) :=
  _ ← onG (dcheckG (x ← input_actual input; mret (prepared x)));
  _ ← stage_UnprepareInput (stage_ input) (index_ input);
  stage_UnprepareOutput (stage_ output) (index_ output).
Definition flush_visitor (output input : Ref) : M (list nat) :=
  _ ← onG (dcheckG (x ← input_actual input; mret (prepared x)));
  _ ← stage_FlushOutput (stage_ output) (index_ output);
  stage_FlushInput (stage_ input) (index_ input).
Definition PrepareInput (fuel : nat) (input : Ref) : M unit := VisitUpstream fuel prepare_visitor [input].
Definition UnprepareInput (fuel : nat) (input : Ref) : M unit := VisitUpstream fuel unprepare_visitor [input].
Definition FlushOutput (fuel : nat) (output : Ref) : M unit :=
  connected ← onG (output_connected output);
  if negb connected then mret tt else VisitDownstream fuel flush_visitor [output].

(** [Graph::Prepare], [PrepareInput], [FlushOutput], [FlushAllOutputs] *)
Fixpoint prepare_inputs (fuel : nat) p (ks : list nat) : M unit :=
  match ks with
  | [] => mret tt
  | k :: ks => i ← onG (input_ref p k); _ ← PrepareInput fuel i; prepare_inputs fuel p ks
  end.
Fixpoint prepare_sinks (fuel : nat) (ps : list Z) : M unit :=
  match ps with
  | [] => mret tt
  | p :: ps => n ← input_count p; _ ← prepare_inputs fuel p (seq 0 n); prepare_sinks fuel ps
  end.
Definition Graph_Prepare (fuel : nat) : M unit := e ← getS; prepare_sinks fuel (sinks (graph e)).
Definition Graph_PrepareInput (fuel : nat) (input : Ref) : M unit :=
  _ ← onG (dcheckG (input_valid input)); PrepareInput fuel input.
Definition Graph_FlushOutput (fuel : nat) (output : Ref) : M unit :=
  _ ← dcheckS (ref_bool output); FlushOutput fuel output.
Fixpoint flush_outputs (fuel : nat) p (ks : list nat) : M unit :=
  match ks with
  | [] => mret tt
  | k :: ks => o ← onG (part_output_at p k); _ ← Graph_FlushOutput fuel o; flush_outputs fuel p ks
  end.
Definition FlushAllOutputs (fuel : nat) p : M unit :=
  _ ← dcheckS (part_valid p);
  n ← onG (part_output_count p);
  flush_outputs fuel p (seq 0 n).

End WithParts.

End Engine.
