(* ===== verification/EngineState.v ===== *)
(** The state of [Engine] as its theorems see it: the structure of the graph that updates
    leave alone, the invariant of stages and backlogs, and the runs of the connectors'
    operations as changes of the heap. *)

From S2P Require Import Prelude Packet Graph Engine.

Module EngineState.
Import Packet Graph Engine.

(** ** Links *)

(** What connects a stage with others and with the engine. *)
Definition links (st : Stage Host) : list (Ref * bool) * list Ref * bool :=
  ((λ x, (imate x, prepared x)) <$> inputs st, omate <$> outputs st, update_callback st).

Definition same_links (g' g : Graph Host) : Prop :=
  links <$> heap g' = links <$> heap g ∧ next g' = next g ∧ stages g' = stages g ∧
  sources g' = sources g ∧ sinks g' = sinks g.

#[export] Instance same_links_refl : Reflexive same_links.
Proof. done. Qed.
#[export] Instance same_links_trans : Transitive same_links.
Proof. intros g1 g2 g3 (? & ? & ? & ? & ?) (? & ? & ? & ? & ?). split_and!; congruence. Qed.

Lemma same_links_at g' g p : same_links g' g → links <$> heap g' !! p = links <$> heap g !! p.
Proof. intros [E _]. by rewrite <- !lookup_fmap, E. Qed.

Lemma same_links_live g' g p : same_links g' g → is_Some (heap g' !! p) ↔ is_Some (heap g !! p).
Proof.
  intros E. apply (same_links_at _ _ p) in E.
  destruct (heap g' !! p), (heap g !! p); try done; split; intros []; try done; by eexists.
Qed.

Lemma same_links_in g' g i :
  same_links g' g →
  (λ x, (imate x, prepared x)) <$> get_input g' i = (λ x, (imate x, prepared x)) <$> get_input g i.
Proof.
  intros E. apply (same_links_at _ _ (stage_ i)) in E. unfold get_input.
  destruct (heap g' !! stage_ i) as [st'|], (heap g !! stage_ i) as [st|]; try done.
  cbn in E |- *. injection E as E _ _. by rewrite <- !list_lookup_fmap, E.
Qed.

Lemma same_links_out g' g o :
  same_links g' g → omate <$> get_output g' o = omate <$> get_output g o.
Proof.
  intros E. apply (same_links_at _ _ (stage_ o)) in E. unfold get_output.
  destruct (heap g' !! stage_ o) as [st'|], (heap g !! stage_ o) as [st|]; try done.
  cbn in E |- *. injection E as _ E _. by rewrite <- !list_lookup_fmap, E.
Qed.

Lemma same_links_get_in g' g i x' :
  same_links g' g → get_input g' i = Some x' →
  ∃ x, get_input g i = Some x ∧ imate x = imate x' ∧ prepared x = prepared x'.
Proof.
  intros E Hx. apply (same_links_in _ _ i) in E. rewrite Hx in E.
  destruct (get_input g i) as [x|]; [|done]. injection E as E1 E2. by exists x.
Qed.

Lemma same_links_get_out g' g o x' :
  same_links g' g → get_output g' o = Some x' → ∃ x, get_output g o = Some x ∧ omate x = omate x'.
Proof.
  intros E Hx. apply (same_links_out _ _ o) in E. rewrite Hx in E.
  destruct (get_output g o) as [x|]; [|done]. injection E as E1. by exists x.
Qed.

Lemma same_links_sym g' g : same_links g' g → same_links g g'.
Proof. intros (? & ? & ? & ? & ?). split_and!; congruence. Qed.

Lemma same_links_wf g' g : same_links g' g → wf g → wf g'.
Proof.
  intros E [Ow Ma]. pose proof (same_links_sym _ _ E) as E'. split.
  - destruct Ow as [H1 H2 H3 H4 H5 H6]. destruct E as (Eh & En & Es & Eso & Esi).
    assert (∀ p, is_Some (heap g' !! p) ↔ is_Some (heap g !! p)) as Hl by (intros; by apply same_links_live).
    split; rewrite ?En, ?Es, ?Eso, ?Esi; try done.
    + intros p st' Hst'. destruct (proj1 (Hl p)) as [st Hst]; [by eexists|]. by eapply H2.
    + intros p. by rewrite Hl.
  - split.
    + intros o x' Hx' Hc. destruct (same_links_get_out _ _ _ _ E Hx') as (x & Hx & Em).
      destruct (matched_out _ Ma o x Hx) as (y & Hy & Ey); [congruence|].
      destruct (same_links_get_in _ _ _ _ E' Hy) as (y' & Hy' & Ey' & _). exists y'. split; congruence.
    + intros i y' Hy' Hc. destruct (same_links_get_in _ _ _ _ E Hy') as (y & Hy & Em & _).
      destruct (matched_in _ Ma i y Hy) as (x & Hx & Ex); [congruence|].
      destruct (same_links_get_out _ _ _ _ E' Hx) as (x' & Hx' & Ex'). exists x'. split; congruence.
    + intros i y' Hy' Hp. destruct (same_links_get_in _ _ _ _ E Hy') as (y & Hy & Em & Ep).
      rewrite <- Em. by eapply matched_prepared; [|done|congruence].
Qed.

Lemma same_links_alter f p g :
  (∀ st, heap g !! p = Some st → links (f st) = links st) → same_links (set_heap (alter f p (heap g)) g) g.
Proof.
  intros Hf. split_and!; try done. cbn. apply map_eq. intros q. rewrite !lookup_fmap.
  destruct (decide (q = p)) as [->|Hq]; [|by rewrite lookup_alter_ne].
  rewrite lookup_alter_eq. destruct (heap g !! p) as [st|]; cbn; [|done]. f_equal. by apply Hf.
Qed.

(** ** Changes of the state *)

Section WithParts.
Context `{PT : Parts}.
Implicit Types (e : engine PT) (p : Z) (i o : Ref).

Definition inp e i : option Input := get_input (graph e) i.
Definition outp e o : option Output := get_output (graph e) o.
Definition stg e p : option (Stage Host) := heap (graph e) !! p.
Definition hst e p : option Host := hosted <$> stg e p.

Definition with_packet (x : option Packet) (y : Input) : Input := mk_input (imate y) (prepared y) x.
Definition with_demand (d : Demand) (y : Output) : Output := mk_output (omate y) d (copy_allocator y).

(** The packet of an input, the demand of an output, the class of a stage. *)
Definition put_packet i (x : option Packet) e : engine PT :=
  alter_stage (stage_ i) (map_inputs (alter (with_packet x) (index_ i))) e.
Definition put_demand o (d : Demand) e : engine PT :=
  alter_stage (stage_ o) (map_outputs (alter (with_demand d) (index_ o))) e.
Definition put_host p (h : Host) e : engine PT := alter_stage p (set_hosted h) e.
Definition push_supply p e : engine PT :=
  let e := set_produced true e in
  if decide (p ∈ supply_backlog_ e) then e
  else alter_stage p (λ st, set_backlog_flags true (in_demand_backlog st) st)
         (mk_engine _ (graph e) (supply_backlog_ e ++ [p]) (demand_backlog_ e) (packets_produced_ e) (world e)).
Definition push_demand p e : engine PT :=
  if decide (p ∈ demand_backlog_ e) then e
  else alter_stage p (λ st, set_backlog_flags (in_supply_backlog st) true st)
         (mk_engine _ (graph e) (supply_backlog_ e) (p :: demand_backlog_ e) (packets_produced_ e) (world e)).

Lemma stg_alter p f e q : stg (alter_stage p f e) q = if decide (q = p) then f <$> stg e p else stg e q.
Proof.
  unfold stg, alter_stage. cbn. case_decide as Hq; [subst|by rewrite lookup_alter_ne].
  by rewrite lookup_alter_eq.
Qed.

Lemma inp_stg e i : inp e i = stg e (stage_ i) ≫= λ st, inputs st !! index_ i.
Proof. done. Qed.
Lemma outp_stg e o : outp e o = stg e (stage_ o) ≫= λ st, outputs st !! index_ o.
Proof. done. Qed.

Lemma inp_at e p st k : stg e p = Some st → inp e (mk_ref p k) = inputs st !! k.
Proof. intros E. rewrite inp_stg. cbn [stage_ index_]. by rewrite E. Qed.
Lemma outp_at e p st k : stg e p = Some st → outp e (mk_ref p k) = outputs st !! k.
Proof. intros E. rewrite outp_stg. cbn [stage_ index_]. by rewrite E. Qed.

Lemma inp_alter p f e i :
  (∀ st, inputs (f st) = inputs st) → inp (alter_stage p f e) i = inp e i.
Proof.
  intros Hf. rewrite !inp_stg, stg_alter. case_decide as Hp; [rewrite Hp|done].
  destruct (stg e p); cbn; [by rewrite Hf|done].
Qed.
Lemma outp_alter p f e o :
  (∀ st, outputs (f st) = outputs st) → outp (alter_stage p f e) o = outp e o.
Proof.
  intros Hf. rewrite !outp_stg, stg_alter. case_decide as Hp; [rewrite Hp|done].
  destruct (stg e p); cbn; [by rewrite Hf|done].
Qed.
Lemma hst_alter p f e q :
  (∀ st, hosted (f st) = hosted st) → hst (alter_stage p f e) q = hst e q.
Proof.
  intros Hf. unfold hst. rewrite stg_alter. case_decide as Hp; [rewrite Hp|done].
  destruct (stg e p); cbn; [by rewrite Hf|done].
Qed.

Lemma inp_put_packet i x e j :
  inp (put_packet i x e) j = if decide (j = i) then with_packet x <$> inp e i else inp e j.
Proof.
  unfold put_packet. rewrite inp_stg, stg_alter. case_decide as Hs.
  - destruct (decide (j = i)) as [->|Hne].
    + rewrite inp_stg. destruct (stg e (stage_ i)) as [st|]; cbn; [|done]. by rewrite list_lookup_alter_eq.
    + rewrite inp_stg, Hs. destruct (stg e (stage_ i)) as [st|]; cbn; [|done].
      rewrite list_lookup_alter_ne; [done|]. intros Hi. apply Hne. destruct i, j; cbn in *; by subst.
  - rewrite decide_False by (intros ->; done). done.
Qed.
Lemma outp_put_demand o d e j :
  outp (put_demand o d e) j = if decide (j = o) then with_demand d <$> outp e o else outp e j.
Proof.
  unfold put_demand. rewrite outp_stg, stg_alter. case_decide as Hs.
  - destruct (decide (j = o)) as [->|Hne].
    + rewrite outp_stg. destruct (stg e (stage_ o)) as [st|]; cbn; [|done]. by rewrite list_lookup_alter_eq.
    + rewrite outp_stg, Hs. destruct (stg e (stage_ o)) as [st|]; cbn; [|done].
      rewrite list_lookup_alter_ne; [done|]. intros Hi. apply Hne. destruct o, j; cbn in *; by subst.
  - rewrite decide_False by (intros ->; done). done.
Qed.
Lemma hst_put_host p h e q : hst (put_host p h e) q = if decide (q = p) then (λ _, h) <$> stg e p else hst e q.
Proof.
  unfold hst, put_host. rewrite stg_alter. case_decide; [|done]. by destruct (stg e p).
Qed.

Lemma outp_put_packet i x e o : outp (put_packet i x e) o = outp e o.
Proof. by apply outp_alter. Qed.
Lemma hst_put_packet i x e p : hst (put_packet i x e) p = hst e p.
Proof. by apply hst_alter. Qed.
Lemma inp_put_demand o d e i : inp (put_demand o d e) i = inp e i.
Proof. by apply inp_alter. Qed.
Lemma hst_put_demand o d e p : hst (put_demand o d e) p = hst e p.
Proof. by apply hst_alter. Qed.
Lemma inp_put_host p h e i : inp (put_host p h e) i = inp e i.
Proof. by apply inp_alter. Qed.
Lemma outp_put_host p h e o : outp (put_host p h e) o = outp e o.
Proof. by apply outp_alter. Qed.

Lemma inp_push_supply p e i : inp (push_supply p e) i = inp e i.
Proof. unfold push_supply. case_decide; [done|]. by rewrite inp_alter. Qed.
Lemma outp_push_supply p e o : outp (push_supply p e) o = outp e o.
Proof. unfold push_supply. case_decide; [done|]. by rewrite outp_alter. Qed.
Lemma hst_push_supply p e q : hst (push_supply p e) q = hst e q.
Proof. unfold push_supply. case_decide; [done|]. by rewrite hst_alter. Qed.
Lemma inp_push_demand p e i : inp (push_demand p e) i = inp e i.
Proof. unfold push_demand. case_decide; [done|]. by rewrite inp_alter. Qed.
Lemma outp_push_demand p e o : outp (push_demand p e) o = outp e o.
Proof. unfold push_demand. case_decide; [done|]. by rewrite outp_alter. Qed.
Lemma hst_push_demand p e q : hst (push_demand p e) q = hst e q.
Proof. unfold push_demand. case_decide; [done|]. by rewrite hst_alter. Qed.

End WithParts.

Create Rewrite HintDb engine_obs.
#[export] Hint Rewrite @inp_put_packet @outp_put_packet @hst_put_packet @inp_put_demand @outp_put_demand
  @hst_put_demand @inp_put_host @outp_put_host @hst_put_host @inp_push_supply @outp_push_supply
  @hst_push_supply @inp_push_demand @outp_push_demand @hst_push_demand : engine_obs.

(** ** The parts' contract *)

(** The constructor's check of a packet. *)
Definition packet_ok (x : Packet) : Prop := (size x =? 0) = bool_decide (payload x = None).

(** What the engine relies on: sources and transforms make well-formed packets; a
    multistream source gives a packet as long as a stream is open and closes the stream
    whose last packet it gives; and the parts make finitely many packets, bounded by
    [work].  No other operation opens or closes a stream. *)
Class PartLaws `{PT : Parts} := {
  work : World → nat;
  streams : Z → nat;
  open_streams : Z → World → nat;
  world_le (w' w : World) : Prop :=
    (work w' ≤ work w)%nat ∧ ∀ s, open_streams s w' = open_streams s w;
  allocate_law a n w : world_le (AllocatePayloadBuffer a n w).2 w;
  release_law a x w : world_le (ReleasePayloadBuffer a x w) w;
  transform_law t x b a w :
    world_le (TransformPacket t x b a w).2 w ∧
    ∀ y, (TransformPacket t x b a w).1.2 = Some y →
      packet_ok y ∧ (work (TransformPacket t x b a w).2 < work w)%nat;
  downstream_law s d w : world_le (SetDownstreamDemand s d w) w;
  supply_law s x w : world_le (SupplyPacket s x w).2 w;
  request_law s w : world_le (RequestPacket s w) w;
  supply_to_law s k x w : world_le (SupplyPacketTo s k x w).2 w;
  pull_law s w :
    (0 < open_streams s w)%nat →
    ∃ x k w', PullPacket s w = (Some x, k, w') ∧ packet_ok x ∧ (k < streams s)%nat ∧
      (work w' < work w)%nat ∧
      (open_streams s w' + (if end_of_stream x then 1 else 0) = open_streams s w)%nat ∧
      ∀ s', s' ≠ s → open_streams s' w' = open_streams s' w;
}.
Arguments world_le {PT PartLaws} : rename.

Section WithLaws.
Context `{PT : Parts, PL : !PartLaws, BD : Build}.
Implicit Types (e : engine PT) (p : Z) (i o : Ref).

#[export] Instance world_le_refl : Reflexive world_le.
Proof. by split. Qed.
#[export] Instance world_le_trans : Transitive world_le.
Proof. intros w1 w2 w3 [? H1] [? H2]. split; [lia|]. intros s. by rewrite H1, H2. Qed.

(** ** The invariant *)

Definition wired_in (x : Input) : Prop := ref_bool (imate x) = true.
Definition wired_out (x : Output) : Prop := ref_bool (omate x) = true.

(** A stage that is ready to be updated. *)
Definition stage_ok (w : World) (st : Stage Host) : Prop :=
  match hosted st with
  | TransformStage _ a _ =>
      length (inputs st) = 1%nat ∧ length (outputs st) = 1%nat ∧ is_Some a ∧
      Forall wired_in (inputs st) ∧ Forall wired_out (outputs st)
  | ActiveSourceStage _ _ ps =>
      inputs st = [] ∧ length (outputs st) = 1%nat ∧ Forall wired_out (outputs st) ∧ Forall packet_ok ps
  | ActiveSinkStage _ _ => length (inputs st) = 1%nat ∧ Forall wired_in (inputs st)
  | MultistreamSourceStage s c k n =>
      inputs st = [] ∧ Forall wired_out (outputs st) ∧ streams s = length (outputs st) ∧
      (n + open_streams s w = length (outputs st))%nat ∧
      ∀ x, c = Some x → packet_ok x ∧ (k < length (outputs st))%nat
  | ActiveMultistreamSourceStage s c k _ _ =>
      inputs st = [] ∧ Forall wired_out (outputs st) ∧ ∀ x, c = Some x → packet_ok x ∧ (k < length (outputs st))%nat
  | ActiveMultistreamSinkStage _ ins _ pending =>
      length ins = length (inputs st) ∧
      ∀ k, k ∈ pending → ∃ x, inputs st !! k = Some x ∧ wired_in x
  end.

(** The multistream source that a stage hosts; no two stages share one. *)
Definition msource (h : Host) : option Z :=
  match h with MultistreamSourceStage s _ _ _ => Some s | _ => None end.

(** The graph is well formed, its stages are ready, and their flags agree with the backlogs. *)
Record Inv e : Prop := {
  inv_wf : wf (graph e);
  inv_stage : ∀ p st, stg e p = Some st → stage_ok (world e) st;
  inv_flags : ∀ p st, stg e p = Some st →
    in_supply_backlog st = bool_decide (p ∈ supply_backlog_ e) ∧
    in_demand_backlog st = bool_decide (p ∈ demand_backlog_ e);
  inv_live : ∀ p, p ∈ supply_backlog_ e ∨ p ∈ demand_backlog_ e → is_Some (stg e p);
  inv_nodup : NoDup (supply_backlog_ e) ∧ NoDup (demand_backlog_ e);
  inv_sources : ∀ p p' s, hst e p ≫= msource = Some s → hst e p' ≫= msource = Some s → p = p';
}.

(** The demand that an output reports. *)
Definition eff_demand e (x : Output) : Demand :=
  if decide (demand_ x = kNegative) then kNegative
  else match inp e (omate x) with
       | Some y => if decide (packet_from_upstream y = None) then demand_ x else kNegative
       | None => kNegative
       end.

(** ** Runs of the connectors' operations *)

Lemma onG_run {A} (m : prog (Graph Host) A) a e : m (graph e) = Ok (a, graph e) → onG m e = Ok (a, e).
Proof. intros E. unfold onG. rewrite E. by destruct e. Qed.

Lemma deref_onG p e st : stg e p = Some st → onG (deref p) e = Ok (st, e).
Proof. intros E. by apply onG_run, stage_deref_run. Qed.

Lemma inp_live e i x : inp e i = Some x → ∃ st, stg e (stage_ i) = Some st ∧ inputs st !! index_ i = Some x.
Proof. rewrite inp_stg. destruct (stg e (stage_ i)) as [st|]; [|done]. intros E. by exists st. Qed.
Lemma outp_live e o x : outp e o = Some x → ∃ st, stg e (stage_ o) = Some st ∧ outputs st !! index_ o = Some x.
Proof. rewrite outp_stg. destruct (stg e (stage_ o)) as [st|]; [|done]. intros E. by exists st. Qed.

Lemma own_input_run p k e x : inp e (mk_ref p k) = Some x → own_input p k e = Ok (x, e).
Proof.
  intros (st & Hst & Hx)%inp_live. cbn in Hst, Hx. unfold own_input. run_bind (deref_onG _ _ _ Hst). by rewrite Hx.
Qed.
Lemma own_output_run p k e x : outp e (mk_ref p k) = Some x → own_output p k e = Ok (x, e).
Proof.
  intros (st & Hst & Hx)%outp_live. cbn in Hst, Hx. unfold own_output. run_bind (deref_onG _ _ _ Hst). by rewrite Hx.
Qed.
Lemma host_run p e h : hst e p = Some h → host p e = Ok (h, e).
Proof.
  unfold hst. destruct (stg e p) as [st|] eqn:E; [|done]. intros [= <-]. unfold host.
  by run_bind (deref_onG _ _ _ E).
Qed.
Lemma output_count_run p e st : stg e p = Some st → output_count p e = Ok (length (outputs st), e).
Proof. intros E. unfold output_count. by run_bind (deref_onG _ _ _ E). Qed.

(** The other end of a connection. *)
Lemma mate_of_input e i x :
  Inv e → inp e i = Some x → wired_in x → ∃ y, outp e (imate x) = Some y ∧ omate y = i.
Proof. intros [[_ Ma] _ _ _ _ _] Hx Hw. by apply (matched_in _ Ma i x). Qed.
Lemma mate_of_output e o y :
  Inv e → outp e o = Some y → wired_out y → ∃ x, inp e (omate y) = Some x ∧ imate x = o.
Proof. intros [[_ Ma] _ _ _ _ _] Hx Hw. by apply (matched_out _ Ma o y). Qed.

Lemma Input_actual_mate_run e x y :
  Inv e → outp e (imate x) = Some y → Input_actual_mate x e = Ok (y, e).
Proof.
  intros [[Ow _] _ _ _ _ _] Hy. unfold Input_actual_mate.
  run_bind (onG_run _ _ _ (dcheck_out_run _ _ _ Ow Hy)). by apply onG_run, output_actual_run.
Qed.
Lemma Output_actual_mate_run e x y :
  Inv e → inp e (omate x) = Some y → Output_actual_mate x e = Ok (y, e).
Proof.
  intros [[Ow _] _ _ _ _ _] Hy. unfold Output_actual_mate.
  run_bind (onG_run _ _ _ (dcheck_in_run _ _ _ Ow Hy)). by apply onG_run, input_actual_run.
Qed.

Lemma Output_demand_run p k e x :
  Inv e → outp e (mk_ref p k) = Some x → wired_out x → Output_demand p k e = Ok (eff_demand e x, e).
Proof.
  intros I Hx Hw. unfold Output_demand. run_bind (own_output_run _ _ _ _ Hx).
  run_bind (dcheckS_true e _ Hw). unfold eff_demand. case_decide as Hn; [done|].
  destruct (mate_of_output _ _ _ I Hx Hw) as (y & Hy & _). run_bind (Output_actual_mate_run _ _ _ I Hy).
  rewrite Hy. by case_decide.
Qed.

(** Writing a connector through a reference. *)
Lemma alter_stage_ext p f f' e :
  (∀ st, stg e p = Some st → f st = f' st) → alter_stage p f e = alter_stage p f' e.
Proof. intros Hf. unfold alter_stage. by rewrite (alter_ext f f') by exact Hf. Qed.

Lemma list_alter_at {A} (f : A → A) (l : list A) k x : l !! k = Some x → <[k := f x]> l = alter f k l.
Proof.
  intros Hx. apply list_eq. intros j. destruct (decide (j = k)) as [->|Hj].
  - rewrite list_lookup_insert_eq by (by eapply lookup_lt_Some). by rewrite list_lookup_alter_eq, Hx.
  - by rewrite list_lookup_insert_ne, list_lookup_alter_ne.
Qed.

Lemma put_input_run i x y e :
  inp e i = Some y → put_input i (mk_input (imate y) (prepared y) x) e = Ok (tt, put_packet i x e).
Proof.
  intros (st & Hst & Hy)%inp_live. unfold put_input, modS, put_packet. do 2 f_equal.
  unfold set_input. apply (alter_stage_ext (stage_ i)). intros st' Hst'. simplify_eq.
  unfold map_inputs. f_equal. by rewrite <- (list_alter_at (with_packet x)  _ _ _ Hy).
Qed.
Lemma put_output_run o d y e :
  outp e o = Some y → put_output o (mk_output (omate y) d (copy_allocator y)) e = Ok (tt, put_demand o d e).
Proof.
  intros (st & Hst & Hy)%outp_live. unfold put_output, modS, put_demand. do 2 f_equal.
  unfold set_output. apply (alter_stage_ext (stage_ o)). intros st' Hst'. simplify_eq.
  unfold map_outputs. f_equal. by rewrite <- (list_alter_at (with_demand d)  _ _ _ Hy).
Qed.

Lemma set_host_run p h e : set_host p h e = Ok (tt, put_host p h e).
Proof. done. Qed.

Lemma take_packet_run p k e x :
  inp e (mk_ref p k) = Some x → take_packet p k e = Ok (packet_from_upstream x, put_packet (mk_ref p k) None e).
Proof.
  intros Hx. unfold take_packet. run_bind (own_input_run _ _ _ _ Hx). by run_bind (put_input_run _ None _ _ Hx).
Qed.

Lemma PushToDemandBacklog_run p e st :
  p ≠ 0 → stg e p = Some st → in_demand_backlog st = bool_decide (p ∈ demand_backlog_ e) →
  PushToDemandBacklog p e = Ok (tt, push_demand p e).
Proof.
  intros Hp Hst Hf. unfold PushToDemandBacklog, push_demand.
  run_bind (dcheckS_true e _ (proj2 (negb_true_iff _) (proj2 (Z.eqb_neq _ _) Hp))).
  run_bind (deref_onG _ _ _ Hst). rewrite Hf. by case_bool_decide; [rewrite decide_True|rewrite decide_False].
Qed.
Lemma PushToSupplyBacklog_run p e st :
  p ≠ 0 → stg e p = Some st → in_supply_backlog st = bool_decide (p ∈ supply_backlog_ e) →
  PushToSupplyBacklog p e = Ok (tt, push_supply p e).
Proof.
  intros Hp Hst Hf. unfold PushToSupplyBacklog, push_supply.
  run_bind (dcheckS_true e _ (proj2 (negb_true_iff _) (proj2 (Z.eqb_neq _ _) Hp))).
  run_bind (eq_refl : modS (set_produced true) e = Ok (tt, set_produced true e)).
  assert (stg (set_produced true e) p = Some st) as Hst' by done.
  run_bind (deref_onG _ _ _ Hst'). rewrite Hf. by case_bool_decide; [rewrite decide_True|rewrite decide_False].
Qed.

Lemma ref_nonnull i : ref_bool i = true → stage_ i ≠ 0.
Proof. unfold ref_bool. intros H%negb_true_iff%Z.eqb_neq. done. Qed.

Lemma links_inputs st' st k x' :
  links st' = links st → inputs st' !! k = Some x' → ∃ x, inputs st !! k = Some x ∧ imate x = imate x'.
Proof.
  intros [= E _ _] Hx. apply (f_equal (λ l, l !! k)) in E. rewrite !list_lookup_fmap, Hx in E.
  destruct (inputs st !! k) as [x|]; [|done]. injection E as E _. by exists x.
Qed.

Lemma links_wired st' st :
  links st' = links st →
  length (inputs st') = length (inputs st) ∧ length (outputs st') = length (outputs st) ∧
  (Forall wired_in (inputs st) → Forall wired_in (inputs st')) ∧
  (Forall wired_out (outputs st) → Forall wired_out (outputs st')).
Proof.
  intros [= E1 E2 _]. split_and!.
  - apply (f_equal length) in E1. by rewrite !length_fmap in E1.
  - apply (f_equal length) in E2. by rewrite !length_fmap in E2.
  - intros H. assert (Forall (λ q, ref_bool q.1 = true) ((λ x, (imate x, prepared x)) <$> inputs st')) as Hf
      by (rewrite E1; by apply Forall_fmap).
    by apply Forall_fmap in Hf.
  - intros H. assert (Forall (λ q, ref_bool q = true) (omate <$> outputs st')) as Hf
      by (rewrite E2; by apply Forall_fmap).
    by apply Forall_fmap in Hf.
Qed.

Lemma stage_ok_links w st' st :
  hosted st' = hosted st → links st' = links st → stage_ok w st → stage_ok w st'.
Proof.
  intros Eh El. destruct (links_wired _ _ El) as (E1 & E2 & F1 & F2).
  assert (inputs st = [] → inputs st' = []) as E0 by (intros E; rewrite E in E1; by apply nil_length_inv). unfold stage_ok. rewrite Eh, E1, E2.
  destruct (hosted st); try tauto. intros [Hl Hp]. split; [done|]. intros k Hk.
  destruct (Hp k Hk) as (x & Hx & Hw). destruct (links_inputs st st' k x) as (x' & Hx' & Ex); [done..|].
  exists x'. split; [done|]. unfold wired_in. by rewrite Ex.
Qed.

Lemma Inv_alter_world p f w' e :
  Inv e →
  (∀ q st, q ≠ p → stg e q = Some st → stage_ok w' st) →
  (∀ st, stg e p = Some st → links (f st) = links st ∧ in_supply_backlog (f st) = in_supply_backlog st ∧
     in_demand_backlog (f st) = in_demand_backlog st ∧ msource (hosted (f st)) = msource (hosted st) ∧
     stage_ok w' (f st)) →
  Inv (alter_stage p f (set_world w' e)).
Proof.
  intros [W H1 H2 H3 H4 H5] Hq Hf. change (Inv (set_world w' (alter_stage p f e))).
  assert (∀ q st, stg (alter_stage p f e) q = Some st → ∃ st0, stg e q = Some st0 ∧
    (q ≠ p ∧ st = st0 ∨ q = p ∧ st = f st0)) as Hcase.
  { intros q st. rewrite stg_alter. destruct (decide (q = p)) as [->|]; [|eauto].
    destruct (stg e p); [|done]. intros [= <-]. eauto. }
  split; try done.
  - eapply same_links_wf, W. apply same_links_alter. intros st Hst. by apply Hf.
  - intros q st (st0 & Hst0 & [[Hne ->]|[-> ->]])%Hcase; [by eapply Hq|by apply Hf].
  - intros q st (st0 & Hst0 & [[Hne ->]|[-> ->]])%Hcase; [by eapply H2|].
    destruct (Hf _ Hst0) as (_ & -> & -> & _). by apply H2.
  - intros q Hin. destruct (H3 q Hin) as [st Hst]. change (is_Some (stg (alter_stage p f e) q)).
    rewrite stg_alter. case_decide; [subst|by eexists]. rewrite Hst. by eexists.
  - assert (∀ q, hst (set_world w' (alter_stage p f e)) q ≫= msource = hst e q ≫= msource) as Hm.
    { intros q. change (hst (alter_stage p f e) q ≫= msource = hst e q ≫= msource).
      unfold hst. rewrite stg_alter. destruct (decide (q = p)) as [->|]; [|done].
      destruct (stg e p) as [st|] eqn:E; [|done]. cbn. by apply Hf. }
    intros q q' s. rewrite !Hm. apply H5.
Qed.

Lemma Inv_alter p f e :
  Inv e →
  (∀ st, stg e p = Some st → links (f st) = links st ∧ in_supply_backlog (f st) = in_supply_backlog st ∧
     in_demand_backlog (f st) = in_demand_backlog st ∧ msource (hosted (f st)) = msource (hosted st) ∧
     stage_ok (world e) (f st)) →
  Inv (alter_stage p f e).
Proof.
  intros I Hf. assert (set_world (world e) e = e) as E by (by destruct e). rewrite <- E.
  apply Inv_alter_world; [done| |done]. intros q st _ Hst. by eapply inv_stage.
Qed.

(** A multistream source is asked for a packet. *)
Lemma Inv_pull p h s w' e st :
  Inv e → stg e p = Some st → msource (hosted st) = Some s → msource h = Some s →
  (∀ s', s' ≠ s → open_streams s' w' = open_streams s' (world e)) → stage_ok w' (set_hosted h st) →
  Inv (put_host p h (set_world w' e)).
Proof.
  intros I Hst Hs Hh Ho Hok. apply Inv_alter_world; [done| |].
  - intros q st' Hq Hst'. pose proof (inv_stage _ I _ _ Hst') as Hok'. unfold stage_ok in *.
    destruct (hosted st') as [| | |s' c k n| |] eqn:E; try done. rewrite Ho; [done|]. intros ->. apply Hq.
    apply (inv_sources _ I q p s); unfold hst; [rewrite Hst'; cbn; by rewrite E|by rewrite Hst].
  - intros st' Hst'. simplify_eq. split_and!; try done. cbn. congruence.
Qed.

Lemma map_inputs_links f st :
  (∀ y, imate (f y) = imate y ∧ prepared (f y) = prepared y) → ∀ k, links (map_inputs (alter f k) st) = links st.
Proof.
  intros Hf k. unfold links. cbn. do 2 f_equal. apply list_eq. intros j. rewrite !list_lookup_fmap.
  destruct (decide (j = k)) as [->|]; [|by rewrite list_lookup_alter_ne].
  rewrite list_lookup_alter_eq. destruct (inputs st !! k) as [y|]; [|done]. cbn. by destruct (Hf y) as [-> ->].
Qed.
Lemma map_outputs_links f st :
  (∀ y, omate (f y) = omate y) → ∀ k, links (map_outputs (alter f k) st) = links st.
Proof.
  intros Hf k. unfold links. cbn. do 2 f_equal. apply list_eq. intros j. rewrite !list_lookup_fmap.
  destruct (decide (j = k)) as [->|]; [|by rewrite list_lookup_alter_ne].
  rewrite list_lookup_alter_eq. destruct (outputs st !! k) as [y|]; [|done]. cbn. by rewrite Hf.
Qed.

Lemma Inv_put_packet i x e : Inv e → Inv (put_packet i x e).
Proof.
  intros I. apply Inv_alter; [done|]. intros st Hst.
  assert (links (map_inputs (alter (with_packet x) (index_ i)) st) = links st) as El by (apply map_inputs_links; intros y; by split).
  split_and!; try done. apply (stage_ok_links _ _ st); [done..|]. by eapply inv_stage.
Qed.
Lemma Inv_put_demand o d e : Inv e → Inv (put_demand o d e).
Proof.
  intros I. apply Inv_alter; [done|]. intros st Hst.
  assert (links (map_outputs (alter (with_demand d) (index_ o)) st) = links st) as El by (apply map_outputs_links; by intros y).
  split_and!; try done. apply (stage_ok_links _ _ st); [done..|]. by eapply inv_stage.
Qed.
Lemma Inv_put_host p h e :
  Inv e →
  (∀ st, stg e p = Some st → msource h = msource (hosted st) ∧ stage_ok (world e) (set_hosted h st)) →
  Inv (put_host p h e).
Proof. intros I Hh. apply Inv_alter; [done|]. intros st Hst. by destruct (Hh st Hst). Qed.

Lemma stage_ok_world w' w st : world_le w' w → stage_ok w st → stage_ok w' st.
Proof. intros [_ Hw]. unfold stage_ok. destruct (hosted st); [done..| |done|done]. by rewrite Hw. Qed.
Lemma Inv_set_world w' e : world_le w' (world e) → Inv e → Inv (set_world w' e).
Proof.
  intros Hw [W H1 H2 H3 H4 H5]. split; try done. intros p st Hst. cbn. eapply stage_ok_world; [done|]. by eapply H1.
Qed.
Lemma Inv_set_produced b e : Inv e → Inv (set_produced b e).
Proof. intros [W H1 H2 H3 H4 H5]. by split. Qed.

(** Changing backlogs together with the flag of one stage. *)
Lemma Inv_backlogs p f sb db b e :
  Inv e →
  (∀ st, links (f st) = links st ∧ hosted (f st) = hosted st) →
  (∀ st, stg e p = Some st → in_supply_backlog (f st) = bool_decide (p ∈ sb) ∧
     in_demand_backlog (f st) = bool_decide (p ∈ db)) →
  (∀ q, q ≠ p → (q ∈ sb ↔ q ∈ supply_backlog_ e) ∧ (q ∈ db ↔ q ∈ demand_backlog_ e)) →
  is_Some (stg e p) → NoDup sb ∧ NoDup db →
  Inv (alter_stage p f (mk_engine _ (graph e) sb db b (world e))).
Proof.
  intros [W H1 H2 H3 H4 H5] Hf Hp Hq Hlive Hnd. set (e1 := mk_engine _ _ _ _ _ _).
  assert (∀ q st, stg (alter_stage p f e1) q = Some st → ∃ st0, stg e q = Some st0 ∧
    (q ≠ p ∧ st = st0 ∨ q = p ∧ st = f st0)) as Hcase.
  { intros q st. rewrite stg_alter. destruct (decide (q = p)) as [->|Hne]; [|eauto].
    change (stg e1 p) with (stg e p).
    destruct (stg e p) as [st1|]; [|done]. cbn. intros Hs. injection Hs as <-. exists st1. auto. }
  split.
  - eapply same_links_wf, W. apply (same_links_alter f p (graph e)). intros st Hst. by apply Hf.
  - intros q st (st0 & Hst0 & [[_ ->]|[-> ->]])%Hcase; [by eapply H1|].
    apply (stage_ok_links _ _ st0); [by apply Hf..|]. by eapply H1.
  - intros q st (st0 & Hst0 & [[Hne ->]|[-> ->]])%Hcase; cbn; [|by apply Hp].
    destruct (H2 _ _ Hst0) as [-> ->]. destruct (Hq q Hne) as [E1 E2].
    split; apply bool_decide_ext; by symmetry.
  - cbn. intros q Hin. rewrite stg_alter. destruct (decide (q = p)) as [->|Hqp].
    + change (stg e1 p) with (stg e p). by apply fmap_is_Some.
    + apply H3. destruct (Hq q Hqp) as [E1 E2]. by rewrite <- E1, <- E2.
  - done.
  - assert (∀ q, hst (alter_stage p f e1) q = hst e q) as Hm.
    { intros q. rewrite hst_alter; [done|]. intros st. apply Hf. }
    intros q q' s. rewrite !Hm. apply H5.
Qed.

Lemma Inv_push_supply p e : Inv e → is_Some (stg e p) → Inv (push_supply p e).
Proof.
  intros I Hp. unfold push_supply. case_decide as Hin; [by apply Inv_set_produced|]. cbn.
  pose proof I as [_ _ H2 _ [Hn1 Hn2] _].
  apply (Inv_backlogs p _ _ _ _ (set_produced true e)); [by apply Inv_set_produced|by intros| |..].
  - intros st Hst. cbn. rewrite bool_decide_eq_true_2 by set_solver. split; [done|]. by apply H2.
  - intros q Hq. cbn. set_solver.
  - done.
  - cbn in *. split; [|done]. apply NoDup_app. split_and!; [done|set_solver|apply NoDup_singleton].
Qed.
Lemma Inv_push_demand p e : Inv e → is_Some (stg e p) → Inv (push_demand p e).
Proof.
  intros I Hp. unfold push_demand. case_decide as Hin; [done|].
  pose proof I as [_ _ H2 _ [Hn1 Hn2] _].
  apply (Inv_backlogs p _ _ _ _ e); [done|by intros| |..].
  - intros st Hst. cbn. rewrite (bool_decide_eq_true_2 (_ ∈ _ :: _)) by set_solver. split; [|done]. by apply H2.
  - intros q Hq. cbn. set_solver.
  - done.
  - split; [done|]. by constructor.
Qed.

(** [SetDemand] as a change of the state. *)
Definition demanded o (d : Demand) e : engine PT :=
  if decide (demand_ <$> outp e o = Some d) then e else push_demand (stage_ o) (put_demand o d e).

Lemma outp_stage_live e o y : outp e o = Some y → is_Some (stg e (stage_ o)).
Proof. intros (st & Hst & _)%outp_live. by eexists. Qed.
Lemma inp_stage_live e i x : inp e i = Some x → is_Some (stg e (stage_ i)).
Proof. intros (st & Hst & _)%inp_live. by eexists. Qed.

Lemma push_demand_run p e :
  Inv e → p ≠ 0 → is_Some (stg e p) → PushToDemandBacklog p e = Ok (tt, push_demand p e).
Proof. intros I Hp [st Hst]. eapply PushToDemandBacklog_run; [done..|]. by apply (inv_flags _ I). Qed.
Lemma push_supply_run p e :
  Inv e → p ≠ 0 → is_Some (stg e p) → PushToSupplyBacklog p e = Ok (tt, push_supply p e).
Proof. intros I Hp [st Hst]. eapply PushToSupplyBacklog_run; [done..|]. by apply (inv_flags _ I). Qed.

Lemma stg_put_demand_live o d e p : is_Some (stg e p) → is_Some (stg (put_demand o d e) p).
Proof.
  intros Hp. unfold put_demand. rewrite stg_alter. destruct (decide (p = stage_ o)) as [->|]; [|done].
  by apply fmap_is_Some.
Qed.
Lemma stg_put_packet_live i x e p : is_Some (stg e p) → is_Some (stg (put_packet i x e) p).
Proof.
  intros Hp. unfold put_packet. rewrite stg_alter. destruct (decide (p = stage_ i)) as [->|]; [|done].
  by apply fmap_is_Some.
Qed.

Lemma UpdateDemandFromInput_run o d e y :
  Inv e → outp e o = Some y →
  UpdateDemandFromInput o d e =
    if decide (demand_ y = d) then Ok (false, e) else Ok (true, put_demand o d e).
Proof.
  intros I Hy. pose proof I as [[Ow _] _ _ _ _ _]. unfold UpdateDemandFromInput.
  run_bind (onG_run _ _ _ (output_actual_run _ _ _ Ow Hy)). case_decide; [done|].
  by run_bind (put_output_run _ d _ _ Hy).
Qed.

Lemma SetDemand_run p k d e x :
  Inv e → inp e (mk_ref p k) = Some x → wired_in x → SetDemand p k d e = Ok (tt, demanded (imate x) d e).
Proof.
  intros I Hx Hw. destruct (mate_of_input _ _ _ I Hx Hw) as (y & Hy & _).
  unfold SetDemand. run_bind (own_input_run _ _ _ _ Hx). run_bind (dcheckS_true e _ Hw).
  run_bind (Input_actual_mate_run _ _ _ I Hy). unfold demanded. rewrite Hy. cbn [fmap option_fmap option_map].
  pose proof (UpdateDemandFromInput_run (imate x) d e y I Hy) as E.
  destruct (decide (demand_ y = d)) as [<-|Hne].
  - rewrite decide_True by done. by run_bind E.
  - rewrite decide_False by congruence. run_bind E.
    apply push_demand_run; [by apply Inv_put_demand|by apply ref_nonnull|].
    apply stg_put_demand_live. by eapply outp_stage_live.
Qed.

Lemma Inv_demanded p k d e x :
  Inv e → inp e (mk_ref p k) = Some x → wired_in x → Inv (demanded (imate x) d e).
Proof.
  intros I Hx Hw. unfold demanded. case_decide; [done|].
  destruct (mate_of_input _ _ _ I Hx Hw) as (y & Hy & _).
  apply Inv_push_demand; [by apply Inv_put_demand|]. apply stg_put_demand_live. by eapply outp_stage_live.
Qed.

(** [SupplyPacket] as a change of the state: the packet [c] that is handed on. *)
Definition supplied (y : Output) (c : Packet) e : engine PT :=
  push_supply (stage_ (omate y)) (put_packet (omate y) (Some c) e).

Lemma release_run x e : ∃ w', release x e = Ok (tt, set_world w' e) ∧ world_le w' (world e).
Proof.
  unfold release. destruct (payload x), (packet_allocator x) as [a|].
  1: { eexists. split; [done|]. apply release_law. }
  all: exists (world e); split; [by destruct e|done].
Qed.

Lemma Packet_Create_run x a bytes :
  (size x =? 0) = bool_decide (bytes = None) →
  Create (pts x) (end_of_stream x) (size x) bytes (Some a) =
    Ok (mk_packet (pts x) (end_of_stream x) (size x) bytes (Some a)).
Proof.
  intros E. unfold Create, new_packet. rewrite (dcheck_true (bool_decide (bytes = None ∨ _))) by (apply bool_decide_eq_true_2; by right).
  cbn [mbind outcome_bind]. rewrite dcheck_true; [done|]. rewrite E. apply eqb_reflx.
Qed.

Definition starved (a : option Z) (x : Packet) (w : World) : Prop :=
  ∃ a', a = Some a' ∧ (AllocatePayloadBuffer a' (size x) w).1 = false.

(** Copying keeps what the packet says and its bytes. *)
Definition same_packet (c x : Packet) : Prop :=
  pts c = pts x ∧ end_of_stream c = end_of_stream x ∧ size c = size x ∧ payload c = payload x.

Lemma copied_run a x e :
  packet_ok x →
  ∃ c w', copied a x e = Ok (c, set_world w' e) ∧ world_le w' (world e) ∧
    (∀ x', c = Some x' → same_packet x' x) ∧ (c = None → starved a x (world e)).
Proof.
  intros Hx. unfold copied. destruct a as [a|].
  2: { exists (Some x), (world e). split; [by destruct e|]. split; [done|]. split; [|done]. by intros ? [= <-]. }
  unfold packet_ok in Hx. destruct (size x =? 0) eqn:Ez.
  - apply Z.eqb_eq in Ez. symmetry in Hx. apply bool_decide_eq_true in Hx.
    pose proof (Packet_Create_run x a None ltac:(by rewrite Ez)) as E. rewrite Ez in E.
    destruct (release_run x e) as (w' & Er & Hw). eexists _, w'. unfold liftO. rewrite E.
    unfold mbind at 1, prog_bind at 1. cbn beta iota. run_bind Er. split; [done|]. split; [done|].
    split; [|done]. intros ? [= <-]. by split_and!.
  - pose proof (allocate_law a (size x) (world e)) as Ha. unfold onW, mbind at 1, prog_bind at 1.
    destruct (AllocatePayloadBuffer a (size x) (world e)) as [[|] w] eqn:Eal; cbn beta iota in Ha |- *;
      cbn [negb].
    + symmetry in Hx. apply bool_decide_eq_false in Hx. destruct (payload x) as [bytes|] eqn:Ep; [|done].
      pose proof (Packet_Create_run x a (Some bytes) ltac:(by rewrite Ez)) as E. unfold liftO. rewrite E.
      unfold mbind at 1, prog_bind at 1. cbn beta iota.
      destruct (release_run x (set_world w e)) as (w' & Er & Hw). run_bind Er. eexists _, w'.
      split; [done|]. split; [by etransitivity|]. split; [|done]. intros ? [= <-]. by split_and!.
    + destruct (release_run x (set_world w e)) as (w' & Er & Hw). run_bind Er. exists None, w'.
      split; [done|]. split; [by etransitivity|]. split; [done|]. intros _. exists a. by rewrite Eal.
Qed.

Lemma SupplyPacketFromOutput_run i c e z :
  Inv e → inp e i = Some z → packet_from_upstream z = None →
  SupplyPacketFromOutput i c e = Ok (true, put_packet i (Some c) e).
Proof.
  intros I Hz Hn. pose proof I as [[Ow _] _ _ _ _ _]. unfold SupplyPacketFromOutput.
  run_bind (onG_run _ _ _ (input_actual_run _ _ _ Ow Hz)).
  run_bind (dcheckS_true e _ (bool_decide_eq_true_2 _ Hn)).
  run_bind (put_input_run _ (Some c) _ _ Hz). by rewrite Hn.
Qed.

Lemma Output_SupplyPacket_run p k x e y :
  Inv e → outp e (mk_ref p k) = Some y → wired_out y → eff_demand e y ≠ kNegative → packet_ok x →
  ∃ w', world_le w' (world e) ∧
    ((∃ c, same_packet c x ∧ Output_SupplyPacket p k x e = Ok (tt, supplied y c (set_world w' e))) ∨
     starved (copy_allocator y) x (world e) ∧ Output_SupplyPacket p k x e = Ok (tt, set_world w' e)).
Proof.
  intros I Hy Hw Hd Hx. unfold Output_SupplyPacket. run_bind (own_output_run _ _ _ _ Hy).
  run_bind (dcheckS_true e _ Hw). destruct (copied_run (copy_allocator y) x e Hx) as (c & w' & Ec & Hle & Hc & Hn).
  run_bind Ec. exists w'. split; [done|]. destruct c as [c|]; [left|right; by split; [apply Hn|]].
  exists c. split; [by apply Hc|]. destruct (mate_of_output _ _ _ I Hy Hw) as (z & Hz & _).
  assert (Inv (set_world w' e)) as I' by (by apply Inv_set_world).
  run_bind (Output_actual_mate_run (set_world w' e) y z I' Hz).
  assert (packet_from_upstream z = None) as Hnone.
  { unfold eff_demand in Hd. case_decide; [done|]. rewrite Hz in Hd. by case_decide. }
  run_bind (SupplyPacketFromOutput_run (omate y) c (set_world w' e) z I' Hz Hnone).
  apply push_supply_run; [by apply Inv_put_packet|by apply ref_nonnull|].
  apply stg_put_packet_live. by eapply inp_stage_live.
Qed.

Lemma Inv_supplied p k y c e :
  Inv e → outp e (mk_ref p k) = Some y → wired_out y → Inv (supplied y c e).
Proof.
  intros I Hy Hw. destruct (mate_of_output _ _ _ I Hy Hw) as (z & Hz & _).
  apply Inv_push_supply; [by apply Inv_put_packet|]. apply stg_put_packet_live. by eapply inp_stage_live.
Qed.

(** Whether some output of a stage has positive demand. *)
Lemma HasPositiveDemand_run p e st ks :
  Inv e → stg e p = Some st → Forall wired_out (outputs st) → Forall (λ k, k < length (outputs st))%nat ks →
  ∃ b, HasPositiveDemand p ks e = Ok (b, e) ∧
    (b = true ↔ ∃ k y, k ∈ ks ∧ outp e (mk_ref p k) = Some y ∧ eff_demand e y = kPositive).
Proof.
  intros I Hst Hw. induction 1 as [|k ks Hk Hks IH].
  - exists false. split; [done|]. split; [done|]. intros (k & y & Hk & _). by apply elem_of_nil in Hk.
  - destruct (lookup_lt_is_Some_2 _ _ Hk) as [y Hy].
    assert (outp e (mk_ref p k) = Some y) as Ho by (by rewrite (outp_at _ _ _ _ Hst)).
    pose proof (proj1 (Forall_lookup _ _) Hw _ _ Hy) as Hwy.
    cbn [HasPositiveDemand]. run_bind (Output_demand_run _ _ _ _ I Ho Hwy).
    destruct (decide (eff_demand e y = kPositive)) as [Hp|Hp].
    + exists true. split; [done|]. split; [|done]. intros _. exists k, y. split; [set_solver|done].
    + destruct IH as (b & E & Hb). exists b. split; [done|]. rewrite Hb. split.
      * intros (k' & y' & Hk' & Hy'). exists k', y'. split; [set_solver|done].
      * intros (k' & y' & Hk' & Hy' & Hd'). apply elem_of_cons in Hk' as [->|Hk']; [simplify_eq|].
        by exists k', y'.
Qed.

End WithLaws.

End EngineState.
