(* ===== verification/EngineMeasure.v ===== *)
(** Measures for the termination of the engine's work list: the packets that are still to
    be moved, and the ranks of the stages in the backlogs. *)

From S2P Require Import Prelude Packet Graph Engine EngineState.

Module EngineMeasure.
Import Packet Graph Engine EngineState.

Definition count {A} (x : option A) : nat := match x with Some _ => 1 | None => 0 end.

(** Packets that a source stage holds. *)
Definition held (h : Host) : nat :=
  match h with
  | ActiveSourceStage _ _ ps => length ps
  | MultistreamSourceStage _ c _ _ => count c
  | ActiveMultistreamSourceStage _ c _ _ _ => count c
  | _ => 0
  end.
Definition holds (x : Input) : nat := count (packet_from_upstream x).
Definition load (st : Stage Host) : nat := 2 * held (hosted st) + sum_list (holds <$> inputs st).

Lemma sum_list_alter {A} (f : A → nat) (g : A → A) (l : list A) k x :
  l !! k = Some x → (sum_list (f <$> alter g k l) + f x = sum_list (f <$> l) + f (g x))%nat.
Proof.
  revert k. induction l as [|y l IH]; intros [|k] Hk; try done; cbn in *.
  - injection Hk as ->. lia.
  - specialize (IH k Hk). cbn in IH. lia.
Qed.

Lemma sum_list_point {A} `{EqDecision A} (f g : A → nat) (l : list A) a :
  NoDup l → a ∈ l → (∀ b, b ≠ a → f b = g b) →
  (sum_list (f <$> l) + g a = sum_list (g <$> l) + f a)%nat.
Proof.
  intros Hn Ha Hfg. assert (∀ l', a ∉ l' → sum_list (f <$> l') = sum_list (g <$> l')) as Hout.
  { induction l' as [|b l' IH]; intros Hin; [done|]. cbn. rewrite IH by set_solver.
    by rewrite Hfg by set_solver. }
  induction Hn as [|b l Hb Hn IH]; [by apply elem_of_nil in Ha|]. cbn.
  destruct (decide (a = b)) as [->|Hab].
  - rewrite (Hout l Hb). lia.
  - rewrite (Hfg b) by congruence. specialize (IH ltac:(set_solver)). lia.
Qed.

Lemma sum_list_submseteq {A} (f : A → nat) (l k : list A) :
  l ⊆+ k → (sum_list (f <$> l) ≤ sum_list (f <$> k))%nat.
Proof. induction 1; cbn; lia. Qed.

Section WithLaws.
Context `{PT : Parts, PL : !PartLaws, BD : Build}.
Implicit Types (e : engine PT) (p : Z) (i o : Ref).

Definition loads e : nat := sum_list ((λ q, from_option load 0%nat (stg e q)) <$> stages (graph e)).
Definition packets_left e : nat := 3 * work (world e) + loads e.

Lemma loads_alter p f e st :
  Inv e → stg e p = Some st → (loads (alter_stage p f e) + load st = loads e + load (f st))%nat.
Proof.
  intros [[Ow _] _ _ _ _ _] Hst. unfold loads.
  pose proof (sum_list_point (λ q, from_option load 0%nat (stg (alter_stage p f e) q))
    (λ q, from_option load 0%nat (stg e q)) (stages (graph e)) p) as H. cbn beta in H.
  rewrite Hst in H. rewrite stg_alter, decide_True, Hst in H by done. cbn in H. apply H.
  - apply (owned_nodup _ Ow).
  - apply (owned_stages _ Ow). by eexists.
  - intros q Hq. by rewrite stg_alter, decide_False.
Qed.

Lemma loads_same p f e :
  Inv e → (∀ st, stg e p = Some st → load (f st) = load st) → loads (alter_stage p f e) = loads e.
Proof.
  intros I Hf. destruct (stg e p) as [st|] eqn:E.
  - pose proof (loads_alter p f e st I E). rewrite (Hf st) in H by done. lia.
  - unfold loads. f_equal. apply list_fmap_ext. intros _ q _. rewrite stg_alter.
    destruct (decide (q = p)) as [->|]; [by rewrite E|done].
Qed.

Lemma left_packet i z e x :
  Inv e → inp e i = Some x →
  (packets_left (put_packet i z e) + holds x = packets_left e + count z)%nat.
Proof.
  intros I (st & Hst & Hx)%inp_live. unfold packets_left, put_packet.
  pose proof (loads_alter _ (map_inputs (alter (with_packet z) (index_ i))) _ _ I Hst) as E.
  unfold load in E. cbn in E. pose proof (sum_list_alter holds (with_packet z) _ _ _ Hx) as E'.
  unfold holds at 4 in E'. cbn in E' |- *. lia.
Qed.
Lemma left_demand o d e : Inv e → packets_left (put_demand o d e) = packets_left e.
Proof. intros I. unfold packets_left, put_demand. by rewrite loads_same. Qed.
Lemma left_push_supply p e : Inv e → packets_left (push_supply p e) = packets_left e.
Proof.
  intros I. unfold packets_left, push_supply. case_decide; [done|]. cbn. f_equal.
  set (e1 := mk_engine _ _ _ _ _ _). change (loads e) with (loads e1). unfold loads. f_equal.
  apply list_fmap_ext. intros _ q _. rewrite stg_alter. destruct (decide (q = p)) as [->|]; [|done].
  by destruct (stg e1 p).
Qed.
Lemma left_push_demand p e : Inv e → packets_left (push_demand p e) = packets_left e.
Proof.
  intros I. unfold packets_left, push_demand. case_decide; [done|]. cbn. f_equal.
  set (e1 := mk_engine _ _ _ _ _ _). change (loads e) with (loads e1). unfold loads. f_equal.
  apply list_fmap_ext. intros _ q _. rewrite stg_alter. destruct (decide (q = p)) as [->|]; [|done].
  by destruct (stg e1 p).
Qed.
Lemma left_host p h e st :
  Inv e → stg e p = Some st →
  (packets_left (put_host p h e) + 2 * held (hosted st) = packets_left e + 2 * held h)%nat.
Proof.
  intros I Hst. unfold packets_left, put_host.
  pose proof (loads_alter p (set_hosted h) e st I Hst) as E. unfold load in E. cbn in E |- *. lia.
Qed.
Lemma left_world w' e : (packets_left (set_world w' e) + 3 * work (world e) = packets_left e + 3 * work w')%nat.
Proof. unfold packets_left. cbn. change (loads (set_world w' e)) with (loads e). lia. Qed.

Lemma left_demanded o d e : Inv e → packets_left (demanded o d e) = packets_left e.
Proof.
  intros I. unfold demanded. case_decide; [done|].
  by rewrite left_push_demand, left_demand by (done || by apply Inv_put_demand).
Qed.

Lemma left_supplied y z e x :
  Inv e → inp e (omate y) = Some x → packet_from_upstream x = None →
  packets_left (supplied y z e) = S (packets_left e).
Proof.
  intros I Hx Hn. unfold supplied. rewrite left_push_supply by (by apply Inv_put_packet).
  pose proof (left_packet _ (Some z) _ _ I Hx) as E. unfold holds in E. rewrite Hn in E. cbn [count] in E. lia.
Qed.

(** ** Links are kept *)

Lemma links_put_packet i z e : same_links (graph (put_packet i z e)) (graph e).
Proof. apply same_links_alter. intros st _. apply map_inputs_links. intros y. by split. Qed.
Lemma links_put_demand o d e : same_links (graph (put_demand o d e)) (graph e).
Proof. apply same_links_alter. intros st _. by apply map_outputs_links. Qed.
Lemma links_put_host p h e : same_links (graph (put_host p h e)) (graph e).
Proof. by apply same_links_alter. Qed.
Lemma links_push_supply p e : same_links (graph (push_supply p e)) (graph e).
Proof. unfold push_supply. case_decide; [done|]. by apply (same_links_alter _ _ (graph e)). Qed.
Lemma links_push_demand p e : same_links (graph (push_demand p e)) (graph e).
Proof. unfold push_demand. case_decide; [done|]. by apply (same_links_alter _ _ (graph e)). Qed.
Lemma links_demanded o d e : same_links (graph (demanded o d e)) (graph e).
Proof.
  unfold demanded. case_decide; [done|]. etransitivity; [apply links_push_demand|apply links_put_demand].
Qed.
Lemma links_supplied y z e : same_links (graph (supplied y z e)) (graph e).
Proof. unfold supplied. etransitivity; [apply links_push_supply|apply links_put_packet]. Qed.

(** ** Progress *)

(** The stages upstream of a stage. *)
Definition upstream e p : list Z :=
  match stg e p with Some st => (λ x, stage_ (imate x)) <$> inputs st | None => [] end.

Lemma upstream_links e' e p : same_links (graph e') (graph e) → upstream e' p = upstream e p.
Proof.
  intros E. apply (same_links_at _ _ p) in E. unfold upstream, stg.
  destruct (heap (graph e') !! p) as [st'|], (heap (graph e) !! p) as [st|]; try done.
  injection E as E _ _. apply (f_equal (fmap (λ q, stage_ q.1))) in E. by rewrite <- !list_fmap_compose in E.
Qed.

(** A change that moves no packet: it only adds stages upstream to the demand backlog. *)
Definition quiet p e' e : Prop :=
  (packets_left e' ≤ packets_left e)%nat ∧
  (supply_backlog_ e' = supply_backlog_ e ∧ packets_produced_ e' = packets_produced_ e) ∧
  ∃ ups, demand_backlog_ e' = ups ++ demand_backlog_ e ∧ ups ⊆ upstream e p.
Definition progress p e' e : Prop :=
  same_links (graph e') (graph e) ∧ ((packets_left e' < packets_left e)%nat ∨ quiet p e' e).

Lemma quiet_intro p e' e :
  (packets_left e' ≤ packets_left e)%nat → supply_backlog_ e' = supply_backlog_ e →
  packets_produced_ e' = packets_produced_ e → demand_backlog_ e' = demand_backlog_ e → quiet p e' e.
Proof. intros ? ? ? E. split_and!; try done. exists []. rewrite E. by split; [|set_solver]. Qed.

Lemma quiet_refl p e : quiet p e e.
Proof. by apply quiet_intro. Qed.

Lemma quiet_trans p e2 e1 e : same_links (graph e1) (graph e) → quiet p e1 e → quiet p e2 e1 → quiet p e2 e.
Proof.
  intros L (H1 & [Hs1 Hp1] & ups1 & Hd1 & Hu1) (H2 & [Hs2 Hp2] & ups2 & Hd2 & Hu2).
  split_and!; [lia|congruence..|].
  exists (ups2 ++ ups1). rewrite Hd2, Hd1, (assoc_L (++)). split; [done|].
  rewrite (upstream_links _ _ p L) in Hu2. set_solver.
Qed.

Lemma progress_refl p e : progress p e e.
Proof. split; [done|right; apply quiet_refl]. Qed.

Lemma progress_trans p e2 e1 e : progress p e1 e → progress p e2 e1 → progress p e2 e.
Proof.
  intros [L1 H1] [L2 H2]. split; [by etransitivity|].
  destruct H1 as [H1|Q1], H2 as [H2|Q2]; [left; lia|left; destruct Q2; lia|left; destruct Q1; lia|].
  right. by eapply quiet_trans.
Qed.

Lemma progress_demanded p k d e x :
  Inv e → inp e (mk_ref p k) = Some x → progress p (demanded (imate x) d e) e.
Proof.
  intros I Hx. split; [apply links_demanded|]. right.
  split; [by rewrite left_demanded|]. unfold demanded. case_decide; [by destruct (quiet_refl p e)|].
  split; [unfold push_demand; by case_decide|]. unfold push_demand. case_decide.
  - exists []. by split; [|set_solver].
  - exists [stage_ (imate x)]. split; [done|]. unfold upstream. apply inp_live in Hx as (st & Hst & Hx).
    cbn [stage_ index_] in Hst, Hx. rewrite Hst. intros q ->%list_elem_of_singleton.
    apply list_elem_of_fmap. exists x. split; [done|]. by eapply list_elem_of_lookup_2.
Qed.

Lemma progress_world p w' e : world_le w' (world e) → progress p (set_world w' e) e.
Proof.
  intros [Hw _]. split; [done|]. right. pose proof (left_world w' e). apply quiet_intro; [lia|done..].
Qed.

End WithLaws.

End EngineMeasure.
