(* ===== verification/EngineSpec.v ===== *)
(** The engine reaches a state of rest.

    [Good c e] is the invariant while the stage [c] is being updated ([None] between
    updates).  Besides the structure [Inv] it says, for parts that do their share
    ([live]), that
    - a stage that holds a packet for which demand was signalled is in the supply backlog,
      and the stage that supplied it is in the demand backlog;
    - a stage that is in no backlog is settled: it has nothing it could do;
    - a multistream sink has its inputs with demand among the pending ones.
    The operations of the connectors keep it, and every update makes progress: it moves a
    packet, of which there are finitely many, or adds to the demand backlog only stages
    upstream of the one updated. *)

From S2P Require Import Prelude Packet Graph Engine EngineState.

Module EngineSpec.
Import Packet Graph Engine EngineState.

Section WithLaws.
Context `{PT : Parts, PL : !PartLaws, BD : Build}.
Implicit Types (e : engine PT) (p : Z) (i o : Ref) (c : option Z).

(** ** The invariant *)

(** A connection whose input holds a packet although demand is signalled. *)
Definition loaded e o (y : Output) (x : Input) : Prop :=
  outp e o = Some y ∧ wired_out y ∧ inp e (omate y) = Some x ∧
  packet_from_upstream x ≠ None ∧ demand_ y ≠ kNegative.

(** Some output of a stage has positive demand. *)
Definition positive e p : Prop := ∃ k y, outp e (mk_ref p k) = Some y ∧ eff_demand e y = kPositive.

(** A stage with nothing to do. *)
Definition settled e p (h : Host) : Prop :=
  match h with
  | TransformStage _ _ _ =>
      ∀ x y, inp e (mk_ref p 0) = Some x → outp e (mk_ref p 0) = Some y →
        (packet_from_upstream x = None ∨ eff_demand e y = kNegative) ∧
        demand_ <$> outp e (imate x) = Some (eff_demand e y)
  | ActiveSourceStage _ _ ps =>
      ps = [] ∨ ∀ y, outp e (mk_ref p 0) = Some y → eff_demand e y = kNegative
  | ActiveSinkStage _ d =>
      ∀ x, inp e (mk_ref p 0) = Some x →
        packet_from_upstream x = None ∧ demand_ <$> outp e (imate x) = Some d
  | MultistreamSourceStage _ None _ n => ∀ st, stg e p = Some st → n = length (outputs st)
  | MultistreamSourceStage _ (Some _) k _ =>
      ¬ positive e p ∨ ∀ y, outp e (mk_ref p k) = Some y → eff_demand e y = kNegative
  | ActiveMultistreamSourceStage _ (Some _) k _ _ =>
      ∀ y, outp e (mk_ref p k) = Some y → eff_demand e y = kNegative
  | ActiveMultistreamSourceStage _ None _ _ outstanding => outstanding = true ∨ ¬ positive e p
  | ActiveMultistreamSinkStage _ ins _ pending =>
      ∀ k x, k ∈ pending → inp e (mk_ref p k) = Some x →
        packet_from_upstream x = None ∧ demand_ <$> outp e (imate x) = input_demand_ <$> ins !! k
  end.

(** The inputs of a multistream sink for which demand is signalled are pending. *)
Definition pending_ok e p (h : Host) : Prop :=
  match h with
  | ActiveMultistreamSinkStage _ ins _ pending =>
      ∀ k x y, inp e (mk_ref p k) = Some x → wired_in x → outp e (imate x) = Some y →
        demand_ y ≠ kNegative → k ∈ pending ∧ input_demand_ <$> ins !! k = Some (demand_ y)
  | _ => True
  end.

Record Live c e : Prop := {
  live_supply : ∀ o y x, loaded e o y x →
    stage_ (omate y) ∈ supply_backlog_ e ∨ c = Some (stage_ (omate y));
  live_demand : ∀ o y x, loaded e o y x →
    stage_ o ∈ demand_backlog_ e ∨ (c = Some (stage_ o) ∧ packets_produced_ e = true);
  live_settled : ∀ p h, hst e p = Some h → c ≠ Some p →
    p ∈ supply_backlog_ e ∨ p ∈ demand_backlog_ e ∨ settled e p h;
  live_pending : ∀ p h, hst e p = Some h → c ≠ Some p → pending_ok e p h;
}.

Variable live : Prop.
Definition Good c e : Prop := Inv e ∧ (live → Live c e).

(** ** Settled stages stay settled *)

(** What a stage can see of the state is the same. *)
Record same_view e' e p : Prop := {
  view_in : ∀ k, inp e' (mk_ref p k) = inp e (mk_ref p k);
  view_out : ∀ k, outp e' (mk_ref p k) = outp e (mk_ref p k);
  view_down : ∀ k y, outp e (mk_ref p k) = Some y → demand_ y = kNegative ∨
    packet_from_upstream <$> inp e' (omate y) = packet_from_upstream <$> inp e (omate y);
  view_up : ∀ k x, inp e (mk_ref p k) = Some x →
    demand_ <$> outp e' (imate x) = demand_ <$> outp e (imate x);
  view_count : length <$> (outputs <$> stg e' p) = length <$> (outputs <$> stg e p);
}.

Lemma eff_demand_view e' e p k y :
  same_view e' e p → outp e (mk_ref p k) = Some y → eff_demand e' y = eff_demand e y.
Proof.
  intros V Hy. unfold eff_demand. destruct (view_down _ _ _ V k y Hy) as [->|E]; [done|].
  case_decide; [done|]. destruct (inp e' (omate y)), (inp e (omate y)); try done. by injection E as ->.
Qed.

Lemma positive_view e' e p : same_view e' e p → positive e' p ↔ positive e p.
Proof.
  intros V. split; intros (k & y & Hy & Hd); exists k, y.
  - rewrite (view_out _ _ _ V) in Hy. split; [done|]. by rewrite <- (eff_demand_view _ _ _ _ _ V Hy).
  - split; [by rewrite (view_out _ _ _ V)|]. by rewrite (eff_demand_view _ _ _ _ _ V Hy).
Qed.

Lemma settled_view e' e p h : same_view e' e p → settled e p h → settled e' p h.
Proof.
  intros V. assert (∀ k, (∀ y, outp e (mk_ref p k) = Some y → eff_demand e y = kNegative) →
    ∀ y, outp e' (mk_ref p k) = Some y → eff_demand e' y = kNegative) as Hneg.
  { intros k H y Hy. rewrite (view_out _ _ _ V) in Hy. rewrite (eff_demand_view _ _ _ _ _ V Hy). by apply H. }
  pose proof (positive_view _ _ _ V) as Hpos.
  destruct h as [t a n|s r ps|s d|s [x|] k n|s [x|] k n b|s ins ua pending]; cbn.
  - intros H x y Hx Hy. rewrite (view_in _ _ _ V) in Hx. rewrite (view_out _ _ _ V) in Hy.
    rewrite (eff_demand_view _ _ _ _ _ V Hy), (view_up _ _ _ V 0%nat x Hx). by apply H.
  - intros [->|H]; [by left|right]. by apply Hneg.
  - intros H x Hx. rewrite (view_in _ _ _ V) in Hx. rewrite (view_up _ _ _ V 0%nat x Hx). by apply H.
  - intros [H|H]; [left; by rewrite Hpos|right; by apply Hneg].
  - intros H st' Hst'. pose proof (view_count _ _ _ V) as E. rewrite Hst' in E.
    destruct (stg e p) as [st|]; [|done]. injection E as ->. by apply H.
  - intros H. by apply Hneg.
  - intros [->|H]; [by left|right; by rewrite Hpos].
  - intros H k x Hk Hx. rewrite (view_in _ _ _ V) in Hx. rewrite (view_up _ _ _ V k x Hx). by apply H.
Qed.

Lemma pending_view e' e p h :
  (∀ k, inp e' (mk_ref p k) = inp e (mk_ref p k)) →
  (∀ k x, inp e (mk_ref p k) = Some x → wired_in x → demand_ <$> outp e' (imate x) = demand_ <$> outp e (imate x)) →
  pending_ok e p h → pending_ok e' p h.
Proof.
  intros Hi Ho. destruct h; cbn; try done. intros H k x y Hx Hw Hy. rewrite Hi in Hx.
  specialize (Ho k x Hx Hw). rewrite Hy in Ho. destruct (outp e (imate x)) as [y'|] eqn:E; [|done].
  injection Ho as ->. by eapply H.
Qed.

(** ** The connectors' operations keep the invariant *)

Lemma mate_inj e o o' y y' :
  Inv e → outp e o = Some y → outp e o' = Some y' → wired_out y → omate y' = omate y → o' = o.
Proof.
  intros I Hy Hy' Hw E. destruct (mate_of_output _ _ _ I Hy Hw) as (x & Hx & <-).
  destruct (mate_of_output e o' y' I Hy') as (x' & Hx' & <-); [unfold wired_out; by rewrite E|].
  rewrite E in Hx'. congruence.
Qed.

Lemma mate_inj_in e i i' x x' :
  Inv e → inp e i = Some x → inp e i' = Some x' → wired_in x → imate x' = imate x → i' = i.
Proof.
  intros I Hx Hx' Hw E. destruct (mate_of_input _ _ _ I Hx Hw) as (y & Hy & <-).
  destruct (mate_of_input e i' x' I Hx') as (y' & Hy' & <-); [unfold wired_in; by rewrite E|].
  rewrite E in Hy'. congruence.
Qed.

Lemma elem_push_supply p e q : q ∈ supply_backlog_ (push_supply p e) ↔ q = p ∨ q ∈ supply_backlog_ e.
Proof. unfold push_supply. case_decide as H; cbn in *; set_solver. Qed.
Lemma elem_push_demand p e q : q ∈ demand_backlog_ (push_demand p e) ↔ q = p ∨ q ∈ demand_backlog_ e.
Proof. unfold push_demand. case_decide as H; cbn in *; set_solver. Qed.
Lemma demand_push_supply p e : demand_backlog_ (push_supply p e) = demand_backlog_ e.
Proof. unfold push_supply. by case_decide. Qed.
Lemma supply_push_demand p e : supply_backlog_ (push_demand p e) = supply_backlog_ e.
Proof. unfold push_demand. by case_decide. Qed.
Lemma produced_push_supply p e : packets_produced_ (push_supply p e) = true.
Proof. unfold push_supply. by case_decide. Qed.
Lemma produced_push_demand p e : packets_produced_ (push_demand p e) = packets_produced_ e.
Proof. unfold push_demand. by case_decide. Qed.
Lemma count_alter q f e p :
  (∀ st, outputs (f st) = outputs st) ∨ p ≠ q →
  length <$> (outputs <$> stg (alter_stage q f e) p) = length <$> (outputs <$> stg e p).
Proof.
  intros H. rewrite stg_alter. destruct (decide (p = q)) as [->|]; [|done].
  destruct (stg e q); cbn; [|done]. destruct H as [H|H]; [by rewrite H|done].
Qed.
Lemma count_push_supply q e p :
  length <$> (outputs <$> stg (push_supply q e) p) = length <$> (outputs <$> stg e p).
Proof. unfold push_supply. case_decide; [done|]. rewrite count_alter; [done|by left]. Qed.
Lemma count_push_demand q e p :
  length <$> (outputs <$> stg (push_demand q e) p) = length <$> (outputs <$> stg e p).
Proof. unfold push_demand. case_decide; [done|]. rewrite count_alter; [done|by left]. Qed.

(** The stage takes the packet of one of its inputs. *)
Lemma Good_take p k e : Good (Some p) e → Good (Some p) (put_packet (mk_ref p k) None e).
Proof.
  intros [I HL]. split; [by apply Inv_put_packet|]. intros Hlive. destruct (HL Hlive) as [H1 H2 H3 H4].
  set (e' := put_packet _ _ e).
  assert (∀ o y x, loaded e' o y x → loaded e o y x) as Hld.
  { intros o y x (Hy & Hw & Hx & Hp & Hd). unfold e' in Hy, Hx. rewrite outp_put_packet in Hy.
    rewrite inp_put_packet in Hx. case_decide; [|done]. destruct (inp e _); [|done]. by injection Hx as <-. }
  split.
  - intros o y x Hl. by apply (H1 o y x), Hld.
  - intros o y x Hl. by apply (H2 o y x), Hld.
  - intros q h Hh Hne. unfold e' in Hh. rewrite hst_put_packet in Hh.
    destruct (H3 q h Hh Hne) as [Hq|[Hq|Hs]]; [by left|by right; left|].
    destruct (decide (q ∈ demand_backlog_ e)) as [Hq|Hq]; [by right; left|]. right; right.
    eapply settled_view, Hs. split; intros; unfold e'.
    + rewrite inp_put_packet, decide_False by congruence. done.
    + by rewrite outp_put_packet.
    + rewrite inp_put_packet. destruct (decide (omate y = mk_ref p k)) as [Em|]; [|by right].
      destruct (inp e (mk_ref p k)) as [x|] eqn:Ex; [|right; by rewrite Em, Ex].
      destruct (decide (demand_ y = kNegative)) as [|Hd]; [by left|right].
      destruct (packet_from_upstream x) as [z|] eqn:Ez; [|rewrite Em, Ex; cbn; by rewrite Ez].
      exfalso. destruct (decide (wired_out y)) as [Hw|Hw].
      * destruct (H2 (mk_ref q k0) y x) as [?|[[= ->] _]]; [|done..].
        split_and!; [done|done|by rewrite Em|congruence|done].
      * apply Hw. unfold wired_out. rewrite Em. by eapply (owned_in (graph e)); [apply I|].
    + by rewrite outp_put_packet.
    + unfold put_packet. by rewrite count_alter by (by left).
  - intros q h Hh Hne. unfold e' in Hh. rewrite hst_put_packet in Hh. eapply pending_view, H4; [| |done..].
    + intros k'. unfold e'. rewrite inp_put_packet, decide_False by congruence. done.
    + intros. unfold e'. by rewrite outp_put_packet.
Qed.

(** The stage signals demand through one of its inputs. *)
Lemma Good_demanded p k d e x :
  Good (Some p) e → inp e (mk_ref p k) = Some x → wired_in x → Good (Some p) (demanded (imate x) d e).
Proof.
  intros [I HL] Hx Hw. split; [by eapply Inv_demanded|]. intros Hlive. destruct (HL Hlive) as [H1 H2 H3 H4].
  destruct (mate_of_input _ _ _ I Hx Hw) as (y & Hy & Em). unfold demanded. case_decide as Hd; [by split|].
  set (o := imate x) in *. set (e' := push_demand _ _).
  assert (∀ i, inp e' i = inp e i) as Ei by (intros; unfold e'; by rewrite inp_push_demand, inp_put_demand).
  assert (∀ q, hst e' q = hst e q) as Eh by (intros; unfold e'; by rewrite hst_push_demand, hst_put_demand).
  assert (∀ o', o' ≠ o → outp e' o' = outp e o') as Eo.
  { intros o' Hne. unfold e'. by rewrite outp_push_demand, outp_put_demand, decide_False. }
  assert (outp e' o = Some (with_demand d y)) as Eoo.
  { unfold e'. by rewrite outp_push_demand, outp_put_demand, decide_True, Hy. }
  assert (supply_backlog_ e' = supply_backlog_ e) as Es by (unfold e'; by rewrite supply_push_demand).
  assert (∀ q, q ∈ demand_backlog_ e' ↔ q = stage_ o ∨ q ∈ demand_backlog_ e) as Ed
    by (intros; unfold e'; by rewrite elem_push_demand).
  assert (packets_produced_ e' = packets_produced_ e) as Ep by (unfold e'; by rewrite produced_push_demand).
  assert (∀ q, length <$> (outputs <$> stg e' q) = length <$> (outputs <$> stg e q)) as Ec.
  { intros q. unfold e'. rewrite count_push_demand. unfold put_demand. rewrite stg_alter.
    destruct (decide (q = stage_ o)) as [->|]; [|done]. destruct (stg e (stage_ o)); cbn; [|done].
    by rewrite length_alter. }
  assert (∀ q k' x', q ≠ p → inp e (mk_ref q k') = Some x' → outp e' (imate x') = outp e (imate x')) as Eup.
  { intros q k' x' Hq Hx'. apply Eo. intros E. pose proof (mate_inj_in e _ _ x x' I Hx Hx' Hw E). congruence. }
  clearbody e'. split.
  - intros o' y' x' (Hy' & Hw' & Hx' & Hp' & Hd'). rewrite Ei in Hx'. rewrite Es.
    destruct (decide (o' = o)) as [->|Hne]; [right; rewrite Eoo in Hy'; injection Hy' as <-; cbn; by rewrite Em|].
    rewrite Eo in Hy' by done. by apply (H1 o' y' x').
  - intros o' y' x' (Hy' & Hw' & Hx' & Hp' & Hd'). rewrite Ei in Hx'. rewrite Ed, Ep.
    destruct (decide (o' = o)) as [->|Hne]; [by left; left|].
    rewrite Eo in Hy' by done. destruct (H2 o' y' x') as [?|?]; [done|by left; right|by right].
  - intros q h Hh Hne. rewrite Eh in Hh. rewrite Es, Ed.
    destruct (H3 q h Hh Hne) as [Hq|[Hq|Hs]]; [by left|by right; left; right|].
    destruct (decide (q = stage_ o)) as [->|Hqo]; [by right; left; left|]. right; right.
    eapply settled_view, Hs. split; intros; [done|apply Eo|right; by rewrite Ei| |].
    + intros E. apply Hqo. by rewrite <- E.
    + erewrite Eup; [done| |done]. congruence.
    + apply Ec.
  - intros q h Hh Hne. rewrite Eh in Hh. eapply pending_view, H4; [by intros| |done..].
    intros k' x' Hx' _. erewrite Eup; [done| |done]. congruence.
Qed.

(** The stage supplies a packet through one of its outputs. *)
Lemma Good_supplied p k y (z : Packet) e :
  Good (Some p) e → outp e (mk_ref p k) = Some y → wired_out y → Good (Some p) (supplied y z e).
Proof.
  intros [I HL] Hy Hw. split; [by eapply Inv_supplied|]. intros Hlive. destruct (HL Hlive) as [H1 H2 H3 H4].
  destruct (mate_of_output _ _ _ I Hy Hw) as (x & Hx & Em). unfold supplied.
  set (i := omate y) in *. set (e' := push_supply _ _).
  assert (∀ o, outp e' o = outp e o) as Eo by (intros; unfold e'; by rewrite outp_push_supply, outp_put_packet).
  assert (∀ q, hst e' q = hst e q) as Eh by (intros; unfold e'; by rewrite hst_push_supply, hst_put_packet).
  assert (∀ i', i' ≠ i → inp e' i' = inp e i') as Ei.
  { intros i' Hne. unfold e'. by rewrite inp_push_supply, inp_put_packet, decide_False. }
  assert (inp e' i = Some (with_packet (Some z) x)) as Eii.
  { unfold e'. by rewrite inp_push_supply, inp_put_packet, decide_True, Hx. }
  assert (∀ q, q ∈ supply_backlog_ e' ↔ q = stage_ i ∨ q ∈ supply_backlog_ e) as Es
    by (intros; unfold e'; by rewrite elem_push_supply).
  assert (demand_backlog_ e' = demand_backlog_ e) as Ed by (unfold e'; by rewrite demand_push_supply).
  assert (packets_produced_ e' = true) as Ep by (unfold e'; by rewrite produced_push_supply).
  assert (∀ q, length <$> (outputs <$> stg e' q) = length <$> (outputs <$> stg e q)) as Ec.
  { intros q. unfold e'. rewrite count_push_supply. unfold put_packet. rewrite count_alter; [done|by left]. }
  assert (∀ o' y', outp e o' = Some y' → omate y' = i → o' = mk_ref p k) as Hinj.
  { intros o' y' Hy' E. by apply (mate_inj e _ _ y y'). }
  clearbody e'. split.
  - intros o' y' x' (Hy' & Hw' & Hx' & Hp' & Hd'). rewrite Eo in Hy'. rewrite Es.
    destruct (decide (omate y' = i)) as [Ei'|Hne]; [by left; left; rewrite Ei'|].
    rewrite Ei in Hx' by done. destruct (H1 o' y' x') as [?|?]; [done|by left; right|by right].
  - intros o' y' x' (Hy' & Hw' & Hx' & Hp' & Hd'). rewrite Eo in Hy'. rewrite Ed, Ep.
    destruct (decide (omate y' = i)) as [Ei'|Hne].
    + right. by rewrite (Hinj o' y').
    + rewrite Ei in Hx' by done. destruct (H2 o' y' x') as [?|[? _]]; [done|by left|by right].
  - intros q h Hh Hne. rewrite Eh in Hh. rewrite Es, Ed.
    destruct (H3 q h Hh Hne) as [Hq|[Hq|Hs]]; [by left; right|by right; left|].
    destruct (decide (q = stage_ i)) as [->|Hqi]; [by left; left|]. right; right.
    eapply settled_view, Hs. split; intros; [apply Ei|done| |by rewrite Eo|apply Ec].
    + intros E. apply Hqi. by rewrite <- E.
    + right. rewrite Ei; [done|]. intros E. pose proof (Hinj _ _ H E). congruence.
  - intros q h Hh Hne. rewrite Eh in Hh. destruct (decide (q = stage_ i)) as [->|Hqi].
    + pose proof (H4 _ _ Hh Hne) as Hp. destruct h; try done. intros k' x' y' Hx' Hw' Hy' Hd'.
      rewrite Eo in Hy'. destruct (decide (mk_ref (stage_ i) k' = i)) as [Ek|Ek].
      * rewrite Ek in *. assert (imate x' = imate x) as Exx.
        { rewrite Eii in Hx'. by injection Hx' as <-. }
        eapply (Hp k' x y'); [by rewrite Ek|unfold wired_in; by rewrite <- Exx|by rewrite <- Exx|done].
      * rewrite Ei in Hx' by done. by eapply Hp.
    + eapply pending_view, H4; [|by intros; rewrite Eo|done..].
      intros k'. apply Ei. intros E. apply Hqi. by rewrite <- E.
Qed.

(** The stage changes its own members, or its part is called. *)
Lemma Live_host p h e : Live (Some p) e → Live (Some p) (put_host p h e).
Proof.
  intros [H1 H2 H3 H4]. set (e' := put_host p h e).
  assert (∀ o y x, loaded e' o y x → loaded e o y x) as Hld.
  { intros o y x. unfold loaded, e'. by rewrite outp_put_host, inp_put_host. }
  assert (∀ q, q ≠ p → same_view e' e q) as V.
  { intros q Hq. split; intros; unfold e'; rewrite ?inp_put_host, ?outp_put_host; try done; [by right|].
    by apply count_alter; right. }
  split.
  - intros o y x Hl. by apply (H1 o y x), Hld.
  - intros o y x Hl. by apply (H2 o y x), Hld.
  - intros q h' Hq Hne. unfold e' in Hq. rewrite hst_put_host, decide_False in Hq by congruence.
    destruct (H3 q h' Hq Hne) as [?|[?|?]]; [by left|by right; left|]. right; right.
    eapply settled_view; [|done]. apply V. congruence.
  - intros q h' Hq Hne. unfold e' in Hq. rewrite hst_put_host, decide_False in Hq by congruence.
    eapply pending_view, (H4 q h' Hq Hne); intros; unfold e'; by rewrite ?inp_put_host, ?outp_put_host.
Qed.

Lemma Good_host p h e :
  Good (Some p) e →
  (∀ st, stg e p = Some st → msource h = msource (hosted st) ∧ stage_ok (world e) (set_hosted h st)) →
  Good (Some p) (put_host p h e).
Proof. intros [I HL] Hh. split; [by apply Inv_put_host|]. intros Hlive. by apply Live_host, HL. Qed.

Lemma Live_obs c e' e :
  graph e' = graph e → supply_backlog_ e' = supply_backlog_ e → demand_backlog_ e' = demand_backlog_ e →
  packets_produced_ e' = packets_produced_ e → Live c e → Live c e'.
Proof.
  destruct e' as [g sb db b w'], e as [g0 sb0 db0 b0 w]. cbn. intros -> -> -> -> [H1 H2 H3 H4].
  split; [exact H1|exact H2| |exact H4]. intros p h Hh Hne.
  destruct (H3 p h Hh Hne) as [?|[?|?]]; [by left|by right; left|right; right]. by destruct h.
Qed.

Lemma Good_world c w' e : Good c e → world_le w' (world e) → Good c (set_world w' e).
Proof.
  intros [I HL] Hw. split; [by apply Inv_set_world|]. intros Hlive. by eapply Live_obs; [..|apply HL].
Qed.

Lemma Good_pull p h s w' e st :
  Good (Some p) e → stg e p = Some st → msource (hosted st) = Some s → msource h = Some s →
  (∀ s', s' ≠ s → open_streams s' w' = open_streams s' (world e)) → stage_ok w' (set_hosted h st) →
  Good (Some p) (put_host p h (set_world w' e)).
Proof.
  intros [I HL] Hst Hs Hh Ho Hok. split; [by eapply Inv_pull|]. intros Hlive.
  apply Live_host. by eapply Live_obs; [..|apply HL].
Qed.

(** ** Beginning and ending an update *)

(** States that differ only in backlogs, flags and the parts. *)
Record same_obs e' e : Prop := {
  obs_in : ∀ i, inp e' i = inp e i;
  obs_out : ∀ o, outp e' o = outp e o;
  obs_host : ∀ q, hst e' q = hst e q;
  obs_count : ∀ q, length <$> (outputs <$> stg e' q) = length <$> (outputs <$> stg e q);
}.

Lemma obs_loaded e' e o y x : same_obs e' e → loaded e' o y x → loaded e o y x.
Proof. intros [E1 E2 _ _]. unfold loaded. by rewrite E1, E2. Qed.
Lemma obs_settled e' e p h : same_obs e' e → settled e p h → settled e' p h.
Proof. intros [E1 E2 _ E4]. apply settled_view. split; intros; rewrite ?E1, ?E2; try done. by right. Qed.
Lemma obs_pending e' e p h : same_obs e' e → pending_ok e p h → pending_ok e' p h.
Proof. intros [E1 E2 _ _]. apply pending_view; intros; by rewrite ?E1, ?E2. Qed.

Lemma obs_flags p b1 b2 sb db b w e :
  same_obs (alter_stage p (λ st, set_backlog_flags (b1 st) (b2 st) st) (mk_engine _ (graph e) sb db b w)) e.
Proof. split; intros; [by rewrite inp_alter|by rewrite outp_alter|by rewrite hst_alter|by rewrite count_alter by (by left)]. Qed.

(** The state in which the stage at the front of a backlog is updated. *)
Definition popped_supply p rest e : engine PT :=
  alter_stage p (λ st, set_backlog_flags false (in_demand_backlog st) st)
    (mk_engine _ (graph e) rest (demand_backlog_ e) (packets_produced_ e) (world e)).
Definition popped_demand p rest e : engine PT :=
  alter_stage p (λ st, set_backlog_flags (in_supply_backlog st) false st)
    (mk_engine _ (graph e) (supply_backlog_ e) rest (packets_produced_ e) (world e)).

Lemma PopFromSupplyBacklog_run p rest e :
  Inv e → supply_backlog_ e = p :: rest → PopFromSupplyBacklog e = Ok (Some p, popped_supply p rest e).
Proof.
  intros I Hs. unfold PopFromSupplyBacklog. run_bind (eq_refl : getS e = Ok (e, e)). rewrite Hs.
  run_bind (eq_refl : modS _ e = Ok (tt, mk_engine _ (graph e) rest (demand_backlog_ e) (packets_produced_ e) (world e))).
  set (e1 := mk_engine _ _ _ _ _ _). destruct (inv_live _ I p) as [st Hst]; [left; rewrite Hs; set_solver|].
  assert (stg e1 p = Some st) as Hst1 by done. run_bind (deref_onG _ _ _ Hst1).
  destruct (inv_flags _ I p st Hst) as [Hf _].
  rewrite Hs, bool_decide_eq_true_2 in Hf by set_solver. by run_bind (dcheckS_true e1 _ Hf).
Qed.
Lemma PopFromDemandBacklog_run p rest e :
  Inv e → demand_backlog_ e = p :: rest → PopFromDemandBacklog e = Ok (Some p, popped_demand p rest e).
Proof.
  intros I Hs. unfold PopFromDemandBacklog. run_bind (eq_refl : getS e = Ok (e, e)). rewrite Hs.
  run_bind (eq_refl : modS _ e = Ok (tt, mk_engine _ (graph e) (supply_backlog_ e) rest (packets_produced_ e) (world e))).
  set (e1 := mk_engine _ _ _ _ _ _). destruct (inv_live _ I p) as [st Hst]; [right; rewrite Hs; set_solver|].
  assert (stg e1 p = Some st) as Hst1 by done. run_bind (deref_onG _ _ _ Hst1).
  destruct (inv_flags _ I p st Hst) as [_ Hf].
  rewrite Hs, bool_decide_eq_true_2 in Hf by set_solver. by run_bind (dcheckS_true e1 _ Hf).
Qed.

Lemma Inv_popped_supply p rest e : Inv e → supply_backlog_ e = p :: rest → Inv (popped_supply p rest e).
Proof.
  intros I Hs. pose proof I as [_ _ H2 _ [Hn1 Hn2] _]. rewrite Hs in Hn1. apply NoDup_cons in Hn1 as [Hp Hn1].
  apply (Inv_backlogs p _ _ _ _ e); [done|done| | |apply (inv_live _ I); left; rewrite Hs; set_solver|done].
  - intros st Hst. cbn. rewrite bool_decide_eq_false_2 by done. split; [done|]. by apply H2.
  - intros q Hq. rewrite Hs. set_solver.
Qed.
Lemma Inv_popped_demand p rest e : Inv e → demand_backlog_ e = p :: rest → Inv (popped_demand p rest e).
Proof.
  intros I Hs. pose proof I as [_ _ H2 _ [Hn1 Hn2] _]. rewrite Hs in Hn2. apply NoDup_cons in Hn2 as [Hp Hn2].
  apply (Inv_backlogs p _ _ _ _ e); [done|done| | |apply (inv_live _ I); right; rewrite Hs; set_solver|done].
  - intros st Hst. cbn. rewrite (bool_decide_eq_false_2 (p ∈ rest)) by done. split; [|done]. by apply H2.
  - intros q Hq. rewrite Hs. set_solver.
Qed.

Lemma Good_popped_supply p rest e :
  Good None e → supply_backlog_ e = p :: rest → Good (Some p) (set_produced false (popped_supply p rest e)).
Proof.
  intros [I HL] Hs. split; [by apply Inv_set_produced, Inv_popped_supply|]. intros Hlive.
  destruct (HL Hlive) as [H1 H2 H3 H4].
  assert (same_obs (set_produced false (popped_supply p rest e)) e) as V
    by exact (obs_flags p (λ _, false) in_demand_backlog rest _ false (world e) e).
  split.
  - intros o y x Hl. destruct (H1 o y x) as [Hin|?]; [by eapply obs_loaded|cbn|done].
    rewrite Hs in Hin. apply elem_of_cons in Hin as [->|?]; [by right|by left].
  - intros o y x Hl. destruct (H2 o y x) as [?|[? _]]; [by eapply obs_loaded|by left|done].
  - intros q h Hh Hne. rewrite (obs_host _ _ V) in Hh.
    destruct (H3 q h Hh) as [Hin|[?|?]]; [done|cbn|by right; left|right; right; by eapply obs_settled].
    rewrite Hs in Hin. left. apply elem_of_cons in Hin as [->|?]; done.
  - intros q h Hh Hne. rewrite (obs_host _ _ V) in Hh. by eapply obs_pending, H4.
Qed.

(** When the supply backlog is empty no packet waits for a stage upstream of it. *)
Lemma Good_popped_demand p rest e :
  Good None e → supply_backlog_ e = [] → demand_backlog_ e = p :: rest →
  Good (Some p) (set_produced false (popped_demand p rest e)).
Proof.
  intros [I HL] Hs Hd. split; [by apply Inv_set_produced, Inv_popped_demand|]. intros Hlive.
  destruct (HL Hlive) as [H1 H2 H3 H4].
  assert (same_obs (set_produced false (popped_demand p rest e)) e) as V
    by exact (obs_flags p in_supply_backlog (λ _, false) _ rest false (world e) e).
  assert (∀ o y x, ¬ loaded e o y x) as Hno.
  { intros o y x Hl. destruct (H1 o y x Hl) as [Hin|?]; [|done]. rewrite Hs in Hin. by apply elem_of_nil in Hin. }
  split.
  - intros o y x Hl. exfalso. by eapply Hno, obs_loaded.
  - intros o y x Hl. exfalso. by eapply Hno, obs_loaded.
  - intros q h Hh Hne. rewrite (obs_host _ _ V) in Hh.
    destruct (H3 q h Hh) as [?|[Hin|?]]; [done|by left|cbn|right; right; by eapply obs_settled].
    rewrite Hd in Hin. right; left. apply elem_of_cons in Hin as [->|?]; done.
  - intros q h Hh Hne. rewrite (obs_host _ _ V) in Hh. by eapply obs_pending, H4.
Qed.

(** What a stage leaves behind when its update is over. *)
Record Finished p e : Prop := {
  fin_consumed : ∀ o y x, loaded e o y x → stage_ (omate y) ≠ p;
  fin_settled : packets_produced_ e = true ∨ ∀ h, hst e p = Some h → settled e p h;
  fin_pending : ∀ h, hst e p = Some h → pending_ok e p h;
}.

Lemma Good_end p e :
  Good (Some p) e → (live → Finished p e) → is_Some (stg e p) →
  Good None (if packets_produced_ e then push_demand p e else e).
Proof.
  intros [I HL] HF Hp. split; [destruct (packets_produced_ e); [by apply Inv_push_demand|done]|].
  intros Hlive. destruct (HL Hlive) as [H1 H2 H3 H4], (HF Hlive) as [F1 F2 F3].
  set (e' := if packets_produced_ e then _ else _).
  assert (same_obs e' e) as V.
  { unfold e'. destruct (packets_produced_ e); [|by split]. unfold push_demand. case_decide; [by split|].
    exact (obs_flags p in_supply_backlog (λ _, true) _ _ _ (world e) e). }
  assert (supply_backlog_ e' = supply_backlog_ e) as Es.
  { unfold e'. destruct (packets_produced_ e); [by rewrite supply_push_demand|done]. }
  assert (∀ q, q ∈ demand_backlog_ e' ↔ q ∈ demand_backlog_ e ∨ q = p ∧ packets_produced_ e = true) as Ed.
  { intros q. unfold e'. destruct (packets_produced_ e); [rewrite elem_push_demand|]; naive_solver. }
  clearbody e'. split.
  - intros o y x Hl%(obs_loaded _ _ _ _ _ V). rewrite Es.
    destruct (H1 o y x Hl) as [?|[= E]]; [by left|]. exfalso. by eapply F1.
  - intros o y x Hl%(obs_loaded _ _ _ _ _ V). left. rewrite Ed.
    destruct (H2 o y x Hl) as [?|[[= ->] ?]]; [by left|by right].
  - intros q h Hh _. rewrite (obs_host _ _ V) in Hh. rewrite Es, Ed. destruct (decide (q = p)) as [->|Hne].
    + destruct F2 as [?|F2]; [by right; left; right|right; right]. eapply obs_settled; [done|]. by apply F2.
    + destruct (H3 q h Hh) as [?|[?|?]]; [congruence|by left|by right; left; left|right; right; by eapply obs_settled].
  - intros q h Hh _. rewrite (obs_host _ _ V) in Hh. eapply obs_pending; [done|].
    destruct (decide (q = p)) as [->|Hne]; [by apply F3|apply H4; congruence].
Qed.

End WithLaws.

End EngineSpec.
