(* ===== verification/EngineUpdate.v ===== *)
(** Updates of the stages: each kind of stage, from a state in which its update begins,
    runs without a fault, keeps the invariant, makes progress, and leaves the stage with
    nothing to do. *)

From S2P Require Import Prelude Packet Graph Engine EngineState EngineMeasure EngineSpec.

Module EngineUpdate.
Import Packet Graph Engine EngineState EngineMeasure EngineSpec.

Section WithLaws.
Context `{PT : Parts, PL : !PartLaws, BD : Build}.
Implicit Types (e : engine PT) (p : Z) (i o : Ref).

(** Parts that do their share: a transform that asks for its input again has made a packet,
    and allocators are not starved. *)
Definition cooperative : Prop :=
  (∀ t x b a w, (TransformPacket t x b a w).1 ≠ (false, None)) ∧
  (∀ a n w, (AllocatePayloadBuffer a n w).1 = true).

Context (live : Prop) (Hcoop : live → cooperative).

Definition updated p e e' : Prop :=
  Good live (Some p) e' ∧ progress p e' e ∧ (live → Finished p e').

(** ** Observations *)

Lemma hst_stg e p h : hst e p = Some h → ∃ st, stg e p = Some st ∧ hosted st = h.
Proof. unfold hst. destruct (stg e p) as [st|]; [|done]. intros [= <-]. by exists st. Qed.

Lemma single_input e p st :
  stg e p = Some st → length (inputs st) = 1%nat →
  ∃ x, inp e (mk_ref p 0) = Some x ∧ inputs st = [x] ∧ ∀ k, k ≠ 0%nat → inp e (mk_ref p k) = None.
Proof.
  intros Hst Hl. destruct (inputs st) as [|x [|]] eqn:E; try done. exists x.
  rewrite (inp_at _ _ _ _ Hst), E. split_and!; try done. intros [|k] Hk; [done|].
  by rewrite (inp_at _ _ _ _ Hst), E.
Qed.
Lemma single_output e p st :
  stg e p = Some st → length (outputs st) = 1%nat → ∃ y, outp e (mk_ref p 0) = Some y ∧ outputs st = [y].
Proof.
  intros Hst Hl. destruct (outputs st) as [|y [|]] eqn:E; try done. exists y.
  by rewrite (outp_at _ _ _ _ Hst), E.
Qed.

Lemma inp_demanded o d e i : inp (demanded o d e) i = inp e i.
Proof. unfold demanded. case_decide; [done|]. by rewrite inp_push_demand, inp_put_demand. Qed.
Lemma hst_demanded o d e p : hst (demanded o d e) p = hst e p.
Proof. unfold demanded. case_decide; [done|]. by rewrite hst_push_demand, hst_put_demand. Qed.
Lemma outp_demanded o d e o' :
  outp (demanded o d e) o' = if decide (o' = o) then with_demand d <$> outp e o else outp e o'.
Proof.
  unfold demanded. case_decide as Hd.
  - destruct (decide (o' = o)) as [->|]; [|done]. destruct (outp e o) as [[m d' a]|] eqn:E; cbn in *; [|done].
    by injection Hd as ->.
  - by rewrite outp_push_demand, outp_put_demand.
Qed.
Lemma demand_demanded o d e y : outp e o = Some y → demand_ <$> outp (demanded o d e) o = Some d.
Proof. intros Hy. by rewrite outp_demanded, decide_True, Hy. Qed.
Lemma produced_demanded o d e : packets_produced_ (demanded o d e) = packets_produced_ e.
Proof. unfold demanded. case_decide; [done|]. by rewrite produced_push_demand. Qed.

Lemma onW_run {A} (f : World → A * World) e : onW f e = Ok ((f (world e)).1, set_world (f (world e)).2 e).
Proof. unfold onW. by destruct (f (world e)). Qed.

(** No connection into a stage is loaded when all its inputs are empty. *)
Lemma none_loaded e p :
  (∀ k x, inp e (mk_ref p k) = Some x → packet_from_upstream x = None) →
  ∀ o y x, loaded e o y x → stage_ (omate y) ≠ p.
Proof.
  intros H o y x (_ & _ & Hx & Hp & _) E. apply Hp, (H (index_ (omate y))). rewrite <- E. by destruct (omate y).
Qed.

(** Taking a packet moves it; a stage that takes none has changed nothing. *)
Lemma progress_take p k e x :
  Inv e → inp e (mk_ref p k) = Some x → progress p (put_packet (mk_ref p k) None e) e.
Proof.
  intros I Hx. split; [apply links_put_packet|]. right. pose proof (left_packet _ None _ _ I Hx) as E.
  cbn [count] in E. apply quiet_intro; [lia|done..].
Qed.

Lemma progress_host p h e st :
  Inv e → stg e p = Some st → (held h ≤ held (hosted st))%nat → progress p (put_host p h e) e.
Proof.
  intros I Hst Hh. split; [apply links_put_host|]. right. pose proof (left_host p h e st I Hst).
  apply quiet_intro; [lia|done..].
Qed.

(** ** Sinks *)

Lemma ActiveSinkStage_updated p s d e :
  Good live (Some p) e → hst e p = Some (ActiveSinkStage s d) →
  runs (ActiveSinkStage_Update p s d) e (λ _ e', updated p e e').
Proof.
  intros G Hh. pose proof G as [I _]. destruct (hst_stg _ _ _ Hh) as (st & Hst & Est).
  pose proof (inv_stage _ I _ _ Hst) as Hok. unfold stage_ok in Hok. rewrite Est in Hok.
  destruct Hok as (Hl & Hw). destruct (single_input _ _ _ Hst Hl) as (x & Hx & Ei & Hone).
  rewrite Ei in Hw. rewrite Forall_singleton in Hw.
  unfold ActiveSinkStage_Update. eapply runs_step; [by apply take_packet_run|].
  set (e1 := put_packet (mk_ref p 0) None e).
  assert (Good live (Some p) e1) as G1 by (by apply Good_take).
  assert (inp e1 (mk_ref p 0) = Some (with_packet None x)) as Hx1
    by (unfold e1; by rewrite inp_put_packet, decide_True, Hx).
  assert (progress p e1 e) as P1 by (by eapply progress_take).
  eapply (runs_bind _ _ _ (λ d' e2, Good live (Some p) e2 ∧ progress p e2 e ∧
    hst e2 p = Some (ActiveSinkStage s d') ∧ (∀ i, inp e2 i = inp e1 i))).
  { destruct (packet_from_upstream x) as [z|].
    - eapply runs_step; [apply onW_run|]. eapply runs_step; [apply set_host_run|]. apply runs_ret.
      set (r := SupplyPacket s z (world e1)). pose proof (supply_law s z (world e1) : world_le r.2 _) as Hle.
      assert (Good live (Some p) (set_world r.2 e1)) as G2 by (by apply Good_world).
      assert (∃ st1, stg (set_world r.2 e1) p = Some st1 ∧ hosted st1 = ActiveSinkStage s d) as (st1 & Hst1 & Eh1).
      { apply hst_stg. change (hst (set_world r.2 e1) p) with (hst e1 p). unfold e1. by rewrite hst_put_packet. }
      split_and!.
      + apply Good_host; [done|]. intros st2 Hst2. rewrite Hst1 in Hst2. injection Hst2 as <-. rewrite Eh1.
        split; [done|]. pose proof (inv_stage _ (proj1 G2) _ _ Hst1) as Hok. unfold stage_ok in Hok |- *.
        by rewrite Eh1 in Hok.
      + eapply progress_trans; [exact P1|]. eapply progress_trans; [by apply (progress_world p r.2)|].
        eapply progress_host; [apply G2|done|]. by rewrite Eh1.
      + by rewrite hst_put_host, decide_True, Hst1.
      + intros i. by rewrite inp_put_host.
    - apply runs_ret. split_and!; [done..|unfold e1; by rewrite hst_put_packet|done]. }
  intros d' e2 (G2 & P2 & Hh2 & Hi2). rewrite <- Hi2 in Hx1.
  eexists _, _. split; [eapply SetDemand_run; [apply G2|done|exact Hw]|].
  destruct (mate_of_input e2 (mk_ref p 0) _ (proj1 G2) Hx1 Hw) as (u & Hu & _).
  split_and!.
  - by eapply Good_demanded.
  - eapply progress_trans; [done|]. by eapply (progress_demanded p 0); [apply G2|].
  - intros Hlv. split.
    + apply none_loaded. intros k y. rewrite inp_demanded, Hi2. unfold e1. rewrite inp_put_packet.
      case_decide; [rewrite Hx; by intros [= <-]|]. rewrite Hone; [done|congruence].
    + right. intros h. rewrite hst_demanded, Hh2. intros [= <-]. intros y. rewrite inp_demanded, Hx1.
      intros [= <-]. split; [done|]. by eapply demand_demanded.
    + intros h. rewrite hst_demanded, Hh2. by intros [= <-].
Qed.

(** ** Supplying *)

Record after_supply (y : Output) e e' : Prop := {
  as_links : same_links (graph e') (graph e);
  as_left : (packets_left e' ≤ S (packets_left e))%nat;
  as_world : world_le (world e') (world e);
  as_in : ∀ i, i ≠ omate y → inp e' i = inp e i;
  as_out : ∀ o, outp e' o = outp e o;
  as_host : ∀ q, hst e' q = hst e q;
  as_live : live → packets_produced_ e' = true ∧ eff_demand e' y = kNegative;
}.

Lemma eff_demand_holding e y x :
  inp e (omate y) = Some x → packet_from_upstream x ≠ None → eff_demand e y = kNegative.
Proof. intros Hx Hp. unfold eff_demand. case_decide; [done|]. rewrite Hx. by case_decide. Qed.

Lemma supply_runs p k x e y :
  Good live (Some p) e → outp e (mk_ref p k) = Some y → wired_out y → eff_demand e y ≠ kNegative → packet_ok x →
  runs (Output_SupplyPacket p k x) e (λ _ e', Good live (Some p) e' ∧ after_supply y e e').
Proof.
  intros G Hy Hw Hd Hx. pose proof G as [I _].
  destruct (Output_SupplyPacket_run p k x e y I Hy Hw Hd Hx) as (w' & Hle & [(c & _ & E)|(Hst & E)]);
    eexists _, _; (split; [exact E|]); pose proof (left_world w' e) as Hlw; destruct Hle as [Hle Ho].
  - assert (Good live (Some p) (set_world w' e)) as G1 by (by apply Good_world).
    destruct (mate_of_output _ _ _ I Hy Hw) as (z & Hz & _).
    assert (packet_from_upstream z = None) as Hn.
    { unfold eff_demand in Hd. case_decide; [done|]. rewrite Hz in Hd. by case_decide. }
    split; [by eapply Good_supplied|]. split.
    + apply (links_supplied _ _ (set_world w' e)).
    + rewrite (left_supplied y c (set_world w' e) z (proj1 G1) Hz Hn). lia.
    + assert (world (supplied y c (set_world w' e)) = w') as -> by (unfold supplied, push_supply; case_decide; reflexivity).
      by split.
    + intros i Hi. unfold supplied. by rewrite inp_push_supply, inp_put_packet, decide_False.
    + intros o. unfold supplied. by rewrite outp_push_supply, outp_put_packet.
    + intros q. unfold supplied. by rewrite hst_push_supply, hst_put_packet.
    + intros _. split; [apply produced_push_supply|].
      eapply (eff_demand_holding _ _ (with_packet (Some c) z)); [|done].
      unfold supplied. rewrite inp_push_supply, inp_put_packet, decide_True by done.
      change (inp (set_world w' e) (omate y)) with (inp e (omate y)). by rewrite Hz.
  - split; [by apply Good_world|]. split; try done; [lia|].
    intros Hlv. destruct (Hcoop Hlv) as [_ Ha]. destruct Hst as (a & _ & Hs). by rewrite Ha in Hs.
Qed.

(** The stage itself after a change that keeps the links. *)
Lemma stage_after e e' p st h :
  same_links (graph e') (graph e) → stg e p = Some st → hst e' p = Some h →
  ∃ st', stg e' p = Some st' ∧ hosted st' = h ∧ links st' = links st.
Proof.
  intros L Hst Hh. destruct (hst_stg _ _ _ Hh) as (st' & Hst' & E). exists st'. split_and!; [done..|].
  apply (same_links_at _ _ p) in L. unfold stg in *. rewrite Hst, Hst' in L. by apply (inj Some) in L.
Qed.

Lemma no_inputs e p st : stg e p = Some st → inputs st = [] → ∀ k x, inp e (mk_ref p k) = Some x → False.
Proof. intros Hst Hn k x. by rewrite (inp_at _ _ _ _ Hst), Hn. Qed.

(** A source stage that has produced something is finished. *)
Lemma source_finished e' e p st h :
  same_links (graph e') (graph e) → stg e p = Some st → inputs st = [] → hst e' p = Some h →
  packets_produced_ e' = true ∨ settled e' p h → pending_ok e' p h → Finished p e'.
Proof.
  intros L Hst Hn Hh Hs Hp. destruct (stage_after _ _ _ _ _ L Hst Hh) as (st' & Hst' & _ & El).
  assert (inputs st' = []) as Hn'.
  { destruct (links_wired _ _ El) as (E & _). rewrite Hn in E. by apply nil_length_inv. }
  split.
  - apply none_loaded. intros k x Hx. exfalso. by eapply no_inputs.
  - destruct Hs as [|Hs]; [by left|right]. rewrite Hh. by intros ? [= <-].
  - rewrite Hh. by intros ? [= <-].
Qed.

(** ** Sources *)

Lemma ActiveSourceStage_updated p s r ps e :
  Good live (Some p) e → hst e p = Some (ActiveSourceStage s r ps) →
  runs (ActiveSourceStage_Update p s r ps) e (λ _ e', updated p e e').
Proof.
  intros G Hh. pose proof G as [I _]. destruct (hst_stg _ _ _ Hh) as (st & Hst & Est).
  pose proof (inv_stage _ I _ _ Hst) as Hok. unfold stage_ok in Hok. rewrite Est in Hok.
  destruct Hok as (Hni & Hl & Hw & Hps). destruct (single_output _ _ _ Hst Hl) as (y & Hy & Ey).
  rewrite Ey in Hw. rewrite Forall_singleton in Hw.
  unfold ActiveSourceStage_Update. eapply runs_step; [by apply Output_demand_run|]. apply runs_mod.
  set (d := eff_demand e y). set (e1 := set_world _ e).
  assert (world_le (world e1) (world e)) as Hle by apply downstream_law.
  assert (Good live (Some p) e1) as G1 by (by apply Good_world).
  assert (progress p e1 e) as P1 by (by apply progress_world).
  destruct ps as [|x rest].
  { apply runs_ret. split_and!; [done..|]. intros _.
    apply (source_finished e1 e p st (ActiveSourceStage s r [])); try done. right. by left. }
  destruct (decide (d = kNegative)) as [Hd|Hd].
  { apply runs_ret. split_and!; [done..|]. intros _.
    apply (source_finished e1 e p st (ActiveSourceStage s r (x :: rest))); try done. right. right. intros y' Hy'.
    change (outp e1) with (outp e) in Hy'. simplify_eq. done. }
  apply Forall_cons in Hps as [Hx Hrest].
  eapply runs_bind; [by apply (supply_runs p 0 x e1 y)|]. intros _ e2 [G2 A].
  eexists _, _. split; [apply set_host_run|].
  assert (hst e2 p = Some (ActiveSourceStage s r (x :: rest))) as Hh2 by (by rewrite (as_host _ _ _ A)).
  destruct (stage_after e e2 p st _ (as_links _ _ _ A) Hst Hh2) as (st2 & Hst2 & Eh2 & El2).
  assert (same_links (graph (put_host p (ActiveSourceStage s r rest) e2)) (graph e)) as L.
  { etransitivity; [apply links_put_host|]. apply (as_links _ _ _ A). }
  split_and!.
  - apply Good_host; [done|]. intros st' Hst'. rewrite Hst2 in Hst'. injection Hst' as <-. rewrite Eh2.
    split; [done|]. pose proof (inv_stage _ (proj1 G2) _ _ Hst2) as Hok. unfold stage_ok in Hok |- *.
    rewrite Eh2 in Hok. cbn. naive_solver.
  - split; [done|]. left. pose proof (left_host p (ActiveSourceStage s r rest) e2 st2 (proj1 G2) Hst2) as E.
    rewrite Eh2 in E. cbn [held length] in E. pose proof (as_left _ _ _ A).
    pose proof (left_world (world e1) e) as E1. change (set_world (world e1) e) with e1 in E1. destruct Hle. lia.
  - intros Hlv. apply (source_finished _ e p st (ActiveSourceStage s r rest)); try done.
    + by rewrite hst_put_host, decide_True, Hst2.
    + left. by apply (as_live _ _ _ A).
Qed.

Lemma positive_run p e st :
  Inv e → stg e p = Some st → Forall wired_out (outputs st) →
  ∃ b, HasPositiveDemand p (seq 0 (length (outputs st))) e = Ok (b, e) ∧ (b = true ↔ positive e p).
Proof.
  intros I Hst Hw. destruct (HasPositiveDemand_run p e st (seq 0 (length (outputs st))) I Hst Hw) as (b & E & Hb).
  { apply Forall_forall. intros k Hk%elem_of_seq. lia. }
  exists b. split; [done|]. rewrite Hb. split.
  - intros (k & y & _ & Hy). by exists k, y.
  - intros (k & y & Hy & Hd). exists k, y. split; [|done]. apply elem_of_seq.
    rewrite (outp_at _ _ _ _ Hst) in Hy. apply lookup_lt_Some in Hy. lia.
Qed.

(** The cached packet is supplied, or there is a reason to keep it. *)
Lemma multistream_supply_step p s c k m e st :
  Good live (Some p) e → stg e p = Some st → hosted st = MultistreamSourceStage s c k m →
  runs
    (match c with
     | None => mret None
     | Some x =>
         positive ← HasPositiveDemand p (seq 0 (length (outputs st)));
         if negb positive then mret (Some x)
         else
           _ ← dcheckS (bool_decide (k < length (outputs st))%nat);
           d ← Output_demand p k;
           if decide (d = kNegative) then mret (Some x)
           else
             _ ← Output_SupplyPacket p k x;
             _ ← set_host p (MultistreamSourceStage s None k m);
             mret None
     end) e
    (λ c' e', Good live (Some p) e' ∧ progress p e' e ∧ (work (world e') ≤ work (world e))%nat ∧
       hst e' p = Some (MultistreamSourceStage s c' k m) ∧
       (is_Some c' → settled e' p (MultistreamSourceStage s c' k m))).
Proof.
  intros G Hst Est. pose proof G as [I _]. pose proof (inv_stage _ I _ _ Hst) as Hok. unfold stage_ok in Hok.
  rewrite Est in Hok. destruct Hok as (Hni & Hw & Hs & Hm & Hc).
  assert (hst e p = Some (MultistreamSourceStage s c k m)) as Hh by (unfold hst; rewrite Hst; cbn; by rewrite Est).
  assert (progress p e e) as P0 by (apply progress_refl).
  destruct c as [x|]; [|apply runs_ret; split_and!; [done..|by intros [??]]].
  destruct (Hc x eq_refl) as [Hx Hk]. destruct (positive_run p e st I Hst Hw) as (b & E & Hb).
  eapply runs_step; [exact E|]. destruct b; cbn [negb].
  2: { apply runs_ret. split_and!; try done. intros _. left. by rewrite <- Hb. }
  apply runs_dcheck; [by apply bool_decide_eq_true_2|].
  destruct (lookup_lt_is_Some_2 _ _ Hk) as [y Hy].
  assert (outp e (mk_ref p k) = Some y) as Ho by (by rewrite (outp_at _ _ _ _ Hst)).
  pose proof (proj1 (Forall_lookup _ _) Hw _ _ Hy) as Hwy.
  eapply runs_step; [by apply Output_demand_run|]. destruct (decide (eff_demand e y = kNegative)) as [Hd|Hd].
  { apply runs_ret. split_and!; try done. intros _. right. intros y' Hy'. by simplify_eq. }
  eapply runs_bind; [by apply (supply_runs p k x e y)|]. intros _ e2 [G2 A].
  assert (hst e2 p = Some (MultistreamSourceStage s (Some x) k m)) as Hh2 by (by rewrite (as_host _ _ _ A)).
  destruct (stage_after e e2 p st _ (as_links _ _ _ A) Hst Hh2) as (st2 & Hst2 & Eh2 & El2).
  eapply runs_step; [apply set_host_run|]. apply runs_ret. destruct (as_world _ _ _ A) as [Hle _]. split_and!.
  - apply Good_host; [done|]. intros st' Hst'. rewrite Hst2 in Hst'. injection Hst' as <-. rewrite Eh2.
    split; [done|]. pose proof (inv_stage _ (proj1 G2) _ _ Hst2) as Hok. unfold stage_ok in Hok |- *.
    rewrite Eh2 in Hok. cbn. naive_solver.
  - split; [etransitivity; [apply links_put_host|apply (as_links _ _ _ A)]|]. left.
    pose proof (left_host p (MultistreamSourceStage s None k m) e2 st2 (proj1 G2) Hst2) as E2.
    rewrite Eh2 in E2. cbn [held count] in E2. pose proof (as_left _ _ _ A). lia.
  - done.
  - by rewrite hst_put_host, decide_True, Hst2.
  - by intros [??].
Qed.

Lemma multistream_updated fuel p s c k m e :
  (work (world e) < fuel)%nat → Good live (Some p) e → hst e p = Some (MultistreamSourceStage s c k m) →
  runs (multistream_loop fuel p) e (λ _ e', updated p e e').
Proof.
  revert c k m e. induction fuel as [|fuel IH]; intros c k m e Hfuel G Hh; [lia|].
  destruct (hst_stg _ _ _ Hh) as (st & Hst & Est). cbn [multistream_loop].
  eapply runs_step; [by apply host_run|]. eapply runs_step; [by apply output_count_run|].
  eapply runs_bind; [by apply (multistream_supply_step p s c k m e st)|].
  intros c' e1 (G1 & P1 & Hle & Hh1 & Hs1). pose proof (proj1 P1) as L1.
  pose proof (inv_stage _ (proj1 G) _ _ Hst) as Hok. unfold stage_ok in Hok. rewrite Est in Hok.
  destruct Hok as (Hni & _). destruct (stage_after e e1 p st _ L1 Hst Hh1) as (st1 & Hst1 & Eh1 & El1).
  destruct c' as [x|].
  { apply runs_ret. split_and!; [done..|]. intros _. eapply (source_finished e1 e p st); try done.
    right. by apply Hs1. }
  pose proof (inv_stage _ (proj1 G1) _ _ Hst1) as Hok1. unfold stage_ok in Hok1. rewrite Eh1 in Hok1.
  destruct Hok1 as (Hni1 & Hw1 & Hstr & Hm & _). destruct (links_wired _ _ El1) as (_ & Elen & _).
  destruct (decide (m = length (outputs st))) as [Em|Em].
  { rewrite bool_decide_eq_true_2 by done. apply runs_ret. split_and!; [done..|]. intros _.
    eapply (source_finished e1 e p st); try done. right. intros st' Hst'. simplify_eq. congruence. }
  rewrite bool_decide_eq_false_2 by done.
  destruct (pull_law s (world e1) ltac:(lia)) as (x & k' & w' & E & Hx & Hk' & Hwork & Hopen & Hother).
  eapply runs_step; [unfold onW; rewrite E; reflexivity|]. cbn beta iota.
  apply runs_dcheck; [by apply bool_decide_eq_true_2|].
  apply runs_dcheck; [apply bool_decide_eq_true_2; lia|].
  eapply runs_step; [apply set_host_run|].
  set (h := MultistreamSourceStage s (Some x) k' (if end_of_stream x then S m else m)).
  set (e2 := put_host p h (set_world w' e1)).
  assert (Good live (Some p) e2) as G2.
  { eapply (Good_pull live p h s w' e1 st1); [done..|by rewrite Eh1|done|done|].
    unfold stage_ok. cbn. split_and!; try done.
    - destruct (end_of_stream x); lia.
    - intros x' [= <-]. split; [done|lia]. }
  assert (progress p e2 e1) as P2.
  { split; [apply (links_put_host p h (set_world w' e1))|]. left.
    pose proof (left_host p h e1 st1 (proj1 G1) Hst1) as El. rewrite Eh1 in El. cbn [held count h] in El.
    pose proof (left_world w' (put_host p h e1)) as Ew.
    change (set_world w' (put_host p h e1)) with e2 in Ew. change (world (put_host p h e1)) with (world e1) in Ew.
    lia. }
  eapply runs_mono; [apply (IH (Some x) k' (if end_of_stream x then S m else m) e2)|].
  - change (world e2) with w'. lia.
  - done.
  - unfold e2. rewrite hst_put_host, decide_True by done.
    change (stg (set_world w' e1) p) with (stg e1 p). by rewrite Hst1.
  - intros _ e3 (G3 & P3 & F3). split_and!; [done| |done].
    eapply progress_trans; [exact P1|]. by eapply progress_trans.
Qed.

(** The two steps of the update of an active multistream source: supplying the cached
    packet, and asking for another one. *)
Record cached_step p s k m (b : bool) (c : option Packet) e (c' : option Packet) e1 : Prop := {
  cs_good : Good live (Some p) e1;
  cs_links : same_links (graph e1) (graph e);
  cs_host : hst e1 p = Some (ActiveMultistreamSourceStage s c k m b);
  cs_left : (packets_left e1 + 2 * count c' + (if decide (c' = c) then 0 else 1) ≤ packets_left e + 2 * count c)%nat;
  cs_quiet : c' = c → quiet p e1 e;
  cs_cached : c' = c ∨ c' = None ∧ (live → packets_produced_ e1 = true);
  cs_demand : is_Some c' → ∀ y, outp e1 (mk_ref p k) = Some y → eff_demand e1 y = kNegative;
}.

Lemma cached_step_runs p s c k m b e st :
  Good live (Some p) e → stg e p = Some st → hosted st = ActiveMultistreamSourceStage s c k m b →
  runs
    (match c with
     | None => mret None
     | Some x =>
         d ← Output_demand p k;
         if decide (d = kNegative) then mret (Some x)
         else _ ← Output_SupplyPacket p k x; mret None
     end) e (cached_step p s k m b c e).
Proof.
  intros G Hst Est. pose proof G as [I _].
  assert (hst e p = Some (ActiveMultistreamSourceStage s c k m b)) as Hh by (unfold hst; rewrite Hst; cbn; by rewrite Est).
  pose proof (inv_stage _ I _ _ Hst) as Hok. unfold stage_ok in Hok. rewrite Est in Hok.
  destruct Hok as (Hni & Hw & Hc). destruct c as [x|]; [|apply runs_ret; split; try done].
  2: { rewrite decide_True by done. lia. } 2: { intros _. apply quiet_refl. } 2: { by left. }
  destruct (Hc x eq_refl) as [Hx Hk]. destruct (lookup_lt_is_Some_2 _ _ Hk) as [y Hy].
  assert (outp e (mk_ref p k) = Some y) as Ho by (by rewrite (outp_at _ _ _ _ Hst)).
  pose proof (proj1 (Forall_lookup _ _) Hw _ _ Hy) as Hwy.
  eapply runs_step; [by apply Output_demand_run|]. destruct (decide (eff_demand e y = kNegative)) as [Hd|Hd].
  { apply runs_ret. split; try done; [rewrite decide_True by done; lia|intros _; apply quiet_refl|by left|].
    intros _ y' Hy'. by simplify_eq. }
  eapply runs_bind; [by apply (supply_runs p k x e y)|]. intros _ e2 [G2 A]. apply runs_ret.
  split; try done; [apply (as_links _ _ _ A)|by rewrite (as_host _ _ _ A)| |].
  - rewrite decide_False by done. pose proof (as_left _ _ _ A). cbn [count]. lia.
  - right. split; [done|]. intros Hlv. by apply (as_live _ _ _ A).
Qed.

Record request_step p (c : option Packet) e (b' : bool) e' : Prop := {
  rs_good : Good live (Some p) e';
  rs_links : same_links (graph e') (graph e);
  rs_host : hst e' p = hst e p;
  rs_quiet : quiet p e' e;
  rs_same : is_Some c → e' = e;
  rs_settled : c = None → b' = true ∨ ¬ positive e' p;
}.

Lemma request_step_runs p s (c : option Packet) b e st :
  Good live (Some p) e → stg e p = Some st → Forall wired_out (outputs st) →
  runs
    (match c with
     | Some _ => mret b
     | None =>
         n ← output_count p;
         positive ← HasPositiveDemand p (seq 0 n);
         if positive && negb b then _ ← effW (RequestPacket s); mret true else mret b
     end) e (request_step p c e).
Proof.
  intros G Hst Hw. pose proof (quiet_refl p e) as Q. destruct c as [x|]; [apply runs_ret; by split|].
  eapply runs_step; [by apply output_count_run|].
  destruct (positive_run p e st (proj1 G) Hst Hw) as (ps & E & Hps). eapply runs_step; [exact E|].
  destruct ps; cbn [andb]; [destruct b; cbn [negb]|].
  - apply runs_ret. split; try done. intros _. by left.
  - eapply runs_step; [reflexivity|]. apply runs_ret.
    pose proof (request_law s (world e)) as Hle. split; try done.
    + by apply Good_world.
    + apply (progress_world p) in Hle as [_ [Hlt|Hq]]; [|exact Hq]. apply quiet_intro; [lia|done..].
    + intros _. by left.
  - apply runs_ret. split; try done. intros _. right. by rewrite <- Hps.
Qed.

Lemma ActiveMultistreamSourceStage_updated p s c k m b e :
  Good live (Some p) e → hst e p = Some (ActiveMultistreamSourceStage s c k m b) →
  runs (ActiveMultistreamSourceStage_Update p s c k m b) e (λ _ e', updated p e e').
Proof.
  intros G Hh. destruct (hst_stg _ _ _ Hh) as (st & Hst & Est).
  pose proof (inv_stage _ (proj1 G) _ _ Hst) as Hok. unfold stage_ok in Hok. rewrite Est in Hok.
  destruct Hok as (Hni & _). unfold ActiveMultistreamSourceStage_Update.
  eapply runs_bind; [by eapply cached_step_runs|]. intros c' e1 [G1 L1 Hh1 Hleft1 Hq1 Hc1 Hd1].
  destruct (stage_after e e1 p st _ L1 Hst Hh1) as (st1 & Hst1 & Eh1 & El1).
  pose proof (inv_stage _ (proj1 G1) _ _ Hst1) as Hok1. unfold stage_ok in Hok1. rewrite Eh1 in Hok1.
  eapply runs_bind; [apply (request_step_runs p s c' b e1 st1); [done..|by apply Hok1]|].
  intros b' e2 [G2 L2 Hh2 Q2 Heq2 Hb2]. eexists _, _. split; [apply set_host_run|].
  rewrite Hh1 in Hh2. destruct (stage_after e1 e2 p st1 _ L2 Hst1 Hh2) as (st2 & Hst2 & Eh2 & El2).
  set (h := ActiveMultistreamSourceStage s c' k m b').
  assert (same_links (graph (put_host p h e2)) (graph e)) as L by (etransitivity; [apply links_put_host|by etransitivity]).
  assert (same_view (put_host p h e2) e2 p) as V.
  { split; intros; rewrite ?inp_put_host, ?outp_put_host; try done; [by right|]. apply count_alter. by left. }
  split_and!.
  - apply Good_host; [done|]. intros st' Hst'. simplify_eq. rewrite Eh2. split; [done|].
    pose proof (inv_stage _ (proj1 G2) _ _ Hst2) as Hok. unfold stage_ok in Hok |- *. rewrite Eh2 in Hok. cbn.
    destruct Hok as (? & ? & Hcc). split_and!; [done..|]. intros x Hx. apply Hcc.
    destruct Hc1 as [<-|[-> _]]; done.
  - split; [done|]. pose proof (left_host p h e2 st2 (proj1 G2) Hst2) as E. rewrite Eh2 in E. cbn [held h] in E.
    destruct (decide (c' = c)) as [->|]; [right|left; destruct Q2; lia].
    destruct (quiet_trans _ _ _ _ L1 (Hq1 eq_refl) Q2) as (? & [? ?] & ?). split_and!; [lia|done..].
  - intros Hlv. eapply (source_finished _ e p st h); try done; [by rewrite hst_put_host, decide_True, Hst2|].
    destruct c' as [x|]; right.
    + cbn. intros y Hy. rewrite (Heq2 ltac:(by eexists)) in *. rewrite outp_put_host in Hy.
      rewrite (eff_demand_view _ _ _ _ _ V Hy). by eapply Hd1.
    + destruct (Hb2 eq_refl) as [->|Hn]; [by left|]. right. by rewrite (positive_view _ _ _ V).
Qed.

(** ** Transforms *)

(** The last part of a transform's update: its demand is passed on upstream. *)
Lemma transform_tail p t a n e x y :
  Good live (Some p) e → hst e p = Some (TransformStage t a n) →
  inp e (mk_ref p 0) = Some x → outp e (mk_ref p 0) = Some y → wired_in x → wired_out y →
  (∀ k, k ≠ 0%nat → inp e (mk_ref p k) = None) → stage_ (imate x) ≠ p →
  (live → packet_from_upstream x = None ∨ eff_demand e y = kNegative) →
  runs (demand ← Output_demand p 0; SetDemand p 0 demand) e (λ _ e', updated p e e').
Proof.
  intros G Hh Hx Hy Hwx Hwy Hone Hns Hdone. pose proof G as [I _].
  eapply runs_step; [by apply Output_demand_run|]. eexists _, _. split; [by eapply SetDemand_run|].
  set (d := eff_demand e y). destruct (mate_of_input _ _ _ I Hx Hwx) as (u & Hu & Eu).
  split_and!; [by eapply Good_demanded|by eapply (progress_demanded p 0)|]. intros Hlv.
  assert (outp (demanded (imate x) d e) (mk_ref p 0) = Some y) as Hy'.
  { rewrite outp_demanded, decide_False; [done|]. intros E. apply Hns. by rewrite <- E. }
  assert (eff_demand (demanded (imate x) d e) y = d) as Ed by (unfold d, eff_demand; by rewrite inp_demanded).
  split.
  - intros o y' x' (Ho & Hw & Hi & Hp & Hd) E. rewrite inp_demanded in Hi.
    assert (omate y' = mk_ref p 0) as Em.
    { destruct (omate y') as [q k]. cbn in E. subst q. destruct (decide (k = 0%nat)) as [->|Hk]; [done|].
      by rewrite Hone in Hi. }
    rewrite Em, Hx in Hi. injection Hi as <-. destruct (Hdone Hlv) as [?|Hneg]; [done|].
    assert (o = imate x) as ->.
    { destruct (mate_of_output (demanded (imate x) d e) o y') as (x2 & Hx2 & <-);
        [by eapply (Inv_demanded p 0)|done..|]. rewrite inp_demanded, Em in Hx2. congruence. }
    pose proof (demand_demanded (imate x) d e u Hu) as Hdd. rewrite Ho in Hdd. cbn in Hdd.
    injection Hdd as Hdd. unfold d in Hdd. congruence.
  - right. intros h. rewrite hst_demanded, Hh. intros [= <-]. intros x' y'. rewrite inp_demanded, Hy', Hx.
    intros [= <-] [= <-]. rewrite Ed. split; [by apply Hdone|]. by eapply demand_demanded.
  - intros h. rewrite hst_demanded, Hh. by intros [= <-].
Qed.

(** The state after the transform was called and, if it is done, its input taken. *)
Record transformed p t a e x (done : bool) (output : option Packet) e' : Prop := {
  tr_good : Good live (Some p) e';
  tr_links : same_links (graph e') (graph e);
  tr_host : hst e' p = Some (TransformStage t a done);
  tr_left : (packets_left e' + (if done then 1 else 0) + 3 * count output ≤ packets_left e)%nat;
  tr_quiet : supply_backlog_ e' = supply_backlog_ e ∧ packets_produced_ e' = packets_produced_ e ∧
    demand_backlog_ e' = demand_backlog_ e;
  tr_in : ∀ i, i ≠ mk_ref p 0 → inp e' i = inp e i;
  tr_input : inp e' (mk_ref p 0) = Some (if done then with_packet None x else x);
  tr_out : ∀ o, outp e' o = outp e o;
  tr_ok : ∀ z, output = Some z → packet_ok z;
  tr_live : live → done = true ∨ is_Some output;
}.

Lemma transform_call p t a n e st x z (w := world e) (r := TransformPacket t z n (default 0 a) w) :
  Good live (Some p) e → stg e p = Some st → hosted st = TransformStage t a n →
  inp e (mk_ref p 0) = Some x → packet_from_upstream x = Some z →
  runs
    ('(done, output) ← onW (TransformPacket t z n (default 0 a));
     _ ← (if done : bool then
            _ ← take_packet p 0; _ ← release z; set_host p (TransformStage t a true)
          else set_host p (TransformStage t a false));
     mret output) e
    (λ output e', transformed p t a e x r.1.1 output e').
Proof.
  intros G Hst Est Hx Hz. pose proof (transform_law t z n (default 0 a) w) as [Hle Hout].
  pose proof (λ Hlv, proj1 (Hcoop Hlv) t z n (default 0 a) w) as Hc. fold r in Hle, Hout, Hc.
  eapply runs_step; [apply onW_run|]. fold w r. destruct r as [[done output] w1]. cbn [fst snd] in *.
  set (e1 := set_world w1 e). assert (Good live (Some p) e1) as G1 by (by apply Good_world).
  pose proof (left_world w1 e) as Hlw. fold e1 w in Hlw.
  assert (3 * work w1 + 3 * count output ≤ 3 * work w)%nat as Hwk.
  { destruct Hle as [Hle _]. destruct output as [y|]; cbn [count]; [|lia]. destruct (Hout y eq_refl). lia. }
  assert (live → done = true ∨ is_Some output) as Hlv.
  { intros Hl. specialize (Hc Hl). destruct done; [by left|right]. destruct output; [by eexists|done]. }
  assert (∀ b e2, Good live (Some p) e2 → same_links (graph e2) (graph e) → hst e2 p = hst e p →
    ∃ st2, stg e2 p = Some st2 ∧ hosted st2 = TransformStage t a n ∧
      Good live (Some p) (put_host p (TransformStage t a b) e2)) as Hhost.
  { intros b e2 G2 L2 Hh2. assert (hst e2 p = Some (TransformStage t a n)) as Hh
      by (rewrite Hh2; unfold hst; rewrite Hst; cbn; by rewrite Est).
    destruct (stage_after e e2 p st _ L2 Hst Hh) as (st2 & Hst2 & Eh2 & _). exists st2. split_and!; [done..|].
    apply Good_host; [done|]. intros st' Hst'. simplify_eq. rewrite Eh2. split; [done|].
    pose proof (inv_stage _ (proj1 G2) _ _ Hst2) as Hok. unfold stage_ok in Hok |- *. by rewrite Eh2 in Hok. }
  destruct done.
  - eapply runs_bind with (Q := λ _ e', transformed p t a e x true output e'); [|intros _ e' T; by apply runs_ret].
    eapply runs_step; [by apply (take_packet_run p 0 e1 x)|]. set (e2 := put_packet (mk_ref p 0) None e1).
    destruct (release_run z e2) as (w3 & Er & Hw3). eapply runs_step; [exact Er|]. set (e3 := set_world w3 e2).
    assert (Good live (Some p) e3) as G3 by (apply Good_world; [by apply Good_take|done]).
    assert (same_links (graph e3) (graph e)) as L3 by apply (links_put_packet (mk_ref p 0) None e1).
    assert (hst e3 p = hst e p) as Hh3 by apply (hst_put_packet (mk_ref p 0) None e1 p).
    destruct (Hhost true e3 G3 L3 Hh3) as (st3 & Hst3 & Eh3 & G4).
    eexists _, _. split; [apply set_host_run|]. split; try done.
    + etransitivity; [apply links_put_host|done].
    + by rewrite hst_put_host, decide_True, Hst3.
    + pose proof (left_host p (TransformStage t a true) e3 st3 (proj1 G3) Hst3) as E1. rewrite Eh3 in E1.
      cbn [held] in E1. pose proof (left_world w3 e2) as E2. fold e3 in E2.
      pose proof (left_packet (mk_ref p 0) None e1 x (proj1 G1) Hx) as E3. fold e2 in E3.
      unfold holds in E3. rewrite Hz in E3. cbn [count] in E3. destruct Hw3 as [Hw3 _].
      change (world e2) with w1 in *. lia.
    + intros i Hi. rewrite inp_put_host. change (inp e2 i = inp e i). unfold e2.
      by rewrite inp_put_packet, decide_False.
    + rewrite inp_put_host. change (inp e2 (mk_ref p 0) = Some (with_packet None x)). unfold e2.
      rewrite inp_put_packet, decide_True by done. change (inp e1 (mk_ref p 0)) with (inp e (mk_ref p 0)). by rewrite Hx.
    + intros o. rewrite outp_put_host. change (outp e2 o = outp e o). unfold e2. by rewrite outp_put_packet.
    + by intros y ->; destruct (Hout y eq_refl).
  - eapply runs_step; [apply set_host_run|]. apply runs_ret.
    destruct (Hhost false e1 G1) as (st1 & Hst1 & Eh1 & G2); [done..|]. split; try done.
    + apply (links_put_host p _ e1).
    + by rewrite hst_put_host, decide_True, Hst1.
    + pose proof (left_host p (TransformStage t a false) e1 st1 (proj1 G1) Hst1) as E1. rewrite Eh1 in E1.
      cbn [held] in E1. lia.
    + intros i Hi. by rewrite inp_put_host.
    + by rewrite inp_put_host.
    + intros o. by rewrite outp_put_host.
    + by intros y ->; destruct (Hout y eq_refl).
Qed.

Lemma TransformStage_updated p t a n e :
  Good live (Some p) e → hst e p = Some (TransformStage t a n) → p ∉ upstream e p →
  runs (TransformStage_Update p t a n) e (λ _ e', updated p e e').
Proof.
  intros G Hh Hns. pose proof G as [I _]. destruct (hst_stg _ _ _ Hh) as (st & Hst & Est).
  pose proof (inv_stage _ I _ _ Hst) as Hok. unfold stage_ok in Hok. rewrite Est in Hok.
  destruct Hok as (Hl1 & Hl2 & Ha & Hw1 & Hw2).
  destruct (single_input _ _ _ Hst Hl1) as (x & Hx & Ex & Hone), (single_output _ _ _ Hst Hl2) as (y & Hy & Ey).
  rewrite Ex in Hw1. rewrite Ey in Hw2. rewrite Forall_singleton in Hw1. rewrite Forall_singleton in Hw2.
  assert (stage_ (imate x) ≠ p) as Hnx.
  { intros E. apply Hns. unfold upstream. rewrite Hst, Ex. cbn. rewrite E. set_solver. }
  assert (omate y ≠ mk_ref p 0) as Hny.
  { intros E. destruct (mate_of_output _ _ _ I Hy Hw2) as (x' & Hx' & Em). rewrite E in Hx'. simplify_eq.
    apply Hnx. by rewrite Em. }
  unfold TransformStage_Update. apply runs_dcheck; [by apply bool_decide_eq_true_2|].
  eapply runs_step; [by apply own_input_run|]. destruct (packet_from_upstream x) as [z|] eqn:Hz.
  2: { eapply runs_step; [reflexivity|]. eapply transform_tail; try done. intros _. by left. }
  eapply (runs_bind _ _ _ (λ _ e1, ∃ x1 n1, Good live (Some p) e1 ∧ progress p e1 e ∧
    hst e1 p = Some (TransformStage t a n1) ∧ inp e1 (mk_ref p 0) = Some x1 ∧ imate x1 = imate x ∧
    outp e1 (mk_ref p 0) = Some y ∧ (∀ k, k ≠ 0%nat → inp e1 (mk_ref p k) = None) ∧
    (live → packet_from_upstream x1 = None ∨ eff_demand e1 y = kNegative))).
  2: { intros _ e1 (x1 & n1 & G1 & P1 & Hh1 & Hx1 & Em & Hy1 & Hone1 & Hd1).
       eapply runs_mono; [eapply (transform_tail p t a n1 e1 x1 y); try done|].
       - unfold wired_in. by rewrite Em.
       - by rewrite Em.
       - intros _ e2 (G2 & P2 & F2). split_and!; [done| |done]. by eapply progress_trans. }
  eapply runs_step; [by apply Output_demand_run|]. destruct (decide (eff_demand e y = kNegative)) as [Hd|Hd].
  { apply runs_ret. exists x, n. split_and!; try done; [apply progress_refl|]. intros _. by right. }
  eapply runs_bind; [by apply (transform_call p t a n e st x z)|].
  set (done := (TransformPacket t z n (default 0 a) (world e)).1.1). intros output e1 T.
  set (x1 := if done then with_packet None x else x). assert (imate x1 = imate x) as Em1 by (unfold x1; by destruct done).
  assert (∀ k, k ≠ 0%nat → inp e1 (mk_ref p k) = None) as Hone1.
  { intros k Hk. rewrite (tr_in _ _ _ _ _ _ _ _ T) by congruence. by apply Hone. }
  pose proof (tr_left _ _ _ _ _ _ _ _ T) as Hleft. destruct output as [c|].
  - assert (eff_demand e1 y = eff_demand e y) as Ed.
    { unfold eff_demand. by rewrite (tr_in _ _ _ _ _ _ _ _ T). }
    eapply runs_mono; [apply (supply_runs p 0 c e1 y)|].
    + apply T.
    + by rewrite (tr_out _ _ _ _ _ _ _ _ T).
    + done.
    + by rewrite Ed.
    + by apply (tr_ok _ _ _ _ _ _ _ _ T).
    + intros _ e2 [G2 A]. exists x1, done. split_and!; try done.
      * split; [etransitivity; [apply (as_links _ _ _ A)|apply T]|]. left. pose proof (as_left _ _ _ A).
        cbn [count] in Hleft. lia.
      * rewrite (as_host _ _ _ A). apply T.
      * rewrite (as_in _ _ _ A) by done. apply T.
      * rewrite (as_out _ _ _ A), (tr_out _ _ _ _ _ _ _ _ T). done.
      * intros k Hk. destruct (decide (mk_ref p k = omate y)) as [E|E]; [|rewrite (as_in _ _ _ A); by auto].
        destruct (mate_of_output _ _ _ I Hy Hw2) as (x' & Hx' & _). rewrite <- E, Hone in Hx'; done.
      * intros Hlv. right. by apply (as_live _ _ _ A).
  - apply runs_ret. exists x1, done. split_and!; try done; [apply T| |apply T|apply T| |].
    + split; [apply T|]. destruct (tr_quiet _ _ _ _ _ _ _ _ T) as (? & ? & ?). right. cbn [count] in Hleft.
      apply quiet_intro; [lia|done..].
    + by rewrite (tr_out _ _ _ _ _ _ _ _ T).
    + intros Hlv. left. destruct (tr_live _ _ _ _ _ _ _ _ T Hlv) as [Hdn|[??]]; [|done].
      unfold x1. by rewrite Hdn.
Qed.

(** ** Multistream sinks *)

(** One round of the loop over the pending inputs. *)
Record sink_round p k x (d : Demand) (h : Host) e e' : Prop := {
  sr_good : Good live (Some p) e';
  sr_progress : progress p e' e;
  sr_host : hst e' p = Some h;
  sr_input : inp e' (mk_ref p k) = Some (with_packet None x);
  sr_in : ∀ i, i ≠ mk_ref p k → inp e' i = inp e i;
  sr_demand : demand_ <$> outp e' (imate x) = Some d;
  sr_out : ∀ o, o ≠ imate x → outp e' o = outp e o;
}.

Lemma sink_round_end p k x d h e e1 :
  Good live (Some p) e1 → progress p e1 e → hst e1 p = Some h →
  inp e1 (mk_ref p k) = Some (with_packet None x) → wired_in x →
  (∀ i, i ≠ mk_ref p k → inp e1 i = inp e i) → (∀ o, outp e1 o = outp e o) →
  runs (SetDemand p k d) e1 (λ _ e', sink_round p k x d h e e').
Proof.
  intros G P Hh Hx Hw Hi Ho. eexists _, _. split; [eapply SetDemand_run; [apply G|done|exact Hw]|].
  destruct (mate_of_input e1 (mk_ref p k) _ (proj1 G) Hx Hw) as (u & Hu & _). cbn in Hu. split.
  - by eapply (Good_demanded live p k d e1 (with_packet None x)).
  - eapply progress_trans; [exact P|]. by eapply (progress_demanded p k d e1 (with_packet None x)); [apply G|].
  - by rewrite hst_demanded.
  - by rewrite inp_demanded.
  - intros i Hne. rewrite inp_demanded. by apply Hi.
  - by eapply demand_demanded.
  - intros o Hne. rewrite outp_demanded, decide_False by done. apply Ho.
Qed.

Definition after_take p s k (si : StageInput) ins ua pending (iter : nat) (x : Input) (w : World) : Demand * Host :=
  match packet_from_upstream x with
  | None => (input_demand_ si, ActiveMultistreamSinkStage s ins ua pending)
  | Some z =>
      let d := (SupplyPacketTo s k z w).1 in
      (d, ActiveMultistreamSinkStage s (<[k := mk_stage_input (allocated_ si) d]> ins) ua
            (if decide (d = kNegative) then delete iter pending else pending))
  end.

Lemma sink_round_runs p s ins ua pending iter k si x e st (r := after_take p s k si ins ua pending iter x (world e)) :
  Good live (Some p) e → stg e p = Some st → hosted st = ActiveMultistreamSinkStage s ins ua pending →
  pending !! iter = Some k → ins !! k = Some si → inp e (mk_ref p k) = Some x → wired_in x →
  runs
    (x ← take_packet p k;
     '(d, iter) ←
       match x with
       | None => mret (input_demand_ si, S iter)
       | Some x =>
           d ← onW (SupplyPacketTo s k x);
           let ins := <[k := mk_stage_input (allocated_ si) d]> ins in
           let pending := if decide (d = kNegative) then delete iter pending else pending in
           _ ← set_host p (ActiveMultistreamSinkStage s ins ua pending);
           mret (d, iter)
       end;
     _ ← SetDemand p k d;
     mret iter) e
    (λ iter' e', iter' = (if packet_from_upstream x is None then S iter else iter) ∧ sink_round p k x r.1 r.2 e e').
Proof.
  intros G Hst Est Hp Hsi Hx Hw. pose proof G as [I _].
  eapply runs_step; [by apply take_packet_run|]. set (e1 := put_packet (mk_ref p k) None e).
  assert (Good live (Some p) e1) as G1 by (by apply Good_take).
  assert (progress p e1 e) as P1 by (by eapply progress_take).
  assert (inp e1 (mk_ref p k) = Some (with_packet None x)) as Hx1
    by (unfold e1; by rewrite inp_put_packet, decide_True, Hx).
  assert (∀ i, i ≠ mk_ref p k → inp e1 i = inp e i) as Hi1
    by (intros i Hi; unfold e1; by rewrite inp_put_packet, decide_False).
  assert (∀ o, outp e1 o = outp e o) as Ho1 by (intros o; unfold e1; by rewrite outp_put_packet).
  assert (hst e1 p = Some (ActiveMultistreamSinkStage s ins ua pending)) as Hh1
    by (unfold e1; rewrite hst_put_packet; unfold hst; rewrite Hst; cbn; by rewrite Est).
  unfold r, after_take. destruct (packet_from_upstream x) as [z|].
  2: { eapply runs_step; [reflexivity|]. cbn beta iota. eapply runs_bind with (Q := λ _ e', sink_round p k x (input_demand_ si)
         (ActiveMultistreamSinkStage s ins ua pending) e e');
         [by apply sink_round_end|]. intros _ e2 R. by apply runs_ret. }
  set (q := SupplyPacketTo s k z (world e1)). pose proof (supply_to_law s k z (world e1) : world_le q.2 _) as Hle.
  set (h := ActiveMultistreamSinkStage s (<[k := mk_stage_input (allocated_ si) q.1]> ins) ua
              (if decide (q.1 = kNegative) then delete iter pending else pending)).
  set (e2 := put_host p h (set_world q.2 e1)).
  eapply (runs_step _ _ _ (q.1, iter) e2).
  { by run_bind (onW_run (SupplyPacketTo s k z) e1). }
  cbn beta iota.
  assert (Good live (Some p) (set_world q.2 e1)) as G2 by (by apply Good_world).
  destruct (hst_stg (set_world q.2 e1) p _ Hh1) as (st1 & Hst1 & Eh1).
  eapply runs_bind with (Q := λ _ e', sink_round p k x q.1 h e e'); [|intros _ e3 R; by apply runs_ret].
  apply sink_round_end; try done.
  - apply Good_host; [done|]. intros st' Hst'. rewrite Hst1 in Hst'. injection Hst' as <-. rewrite Eh1.
    split; [done|]. pose proof (inv_stage _ (proj1 G2) _ _ Hst1) as Hok. unfold stage_ok in Hok |- *.
    rewrite Eh1 in Hok. cbn. destruct Hok as [Hl Hpe]. rewrite length_insert. split; [done|].
    intros j Hj. apply Hpe. case_decide; [|done]. apply list_elem_of_lookup in Hj as [i' Hi'].
    rewrite list_lookup_delete in Hi'. case_decide; by eapply list_elem_of_lookup_2.
  - eapply progress_trans; [exact P1|]. eapply progress_trans; [by apply (progress_world p q.2)|].
    eapply progress_host; [apply G2|done|]. by rewrite Eh1.
  - unfold e2. by rewrite hst_put_host, decide_True, Hst1.
  - unfold e2. by rewrite inp_put_host.
  - intros i Hi. unfold e2. rewrite inp_put_host. by apply Hi1.
  - intros o. unfold e2. rewrite outp_put_host. apply Ho1.
Qed.

(** The inputs with demand are pending, and those before the position are served. *)
Record served p (iter : nat) (ins : list StageInput) (pending : list nat) e : Prop := {
  sv_pending : ∀ k x y, inp e (mk_ref p k) = Some x → wired_in x → outp e (imate x) = Some y →
    demand_ y ≠ kNegative → k ∈ pending;
  sv_done : ∀ j k x, (j < iter)%nat → pending !! j = Some k → inp e (mk_ref p k) = Some x →
    packet_from_upstream x = None ∧ demand_ <$> outp e (imate x) = input_demand_ <$> ins !! k;
}.

Lemma served_finished p s ins ua pending iter e :
  Inv e → hst e p = Some (ActiveMultistreamSinkStage s ins ua pending) → (length pending ≤ iter)%nat →
  served p iter ins pending e → Finished p e.
Proof.
  intros I Hh Hlen [H1 H2].
  assert (∀ k, k ∈ pending → ∃ j, (j < iter)%nat ∧ pending !! j = Some k) as Hin.
  { intros k [j Hj]%list_elem_of_lookup. exists j. split; [|done]. apply lookup_lt_Some in Hj. lia. }
  split.
  - intros o y x (Ho & Hw & Hx & Hp & Hd) E. destruct (omate y) as [q k] eqn:Em. cbn in E. subst q.
    destruct (mate_of_output _ _ _ I Ho Hw) as (x' & Hx' & Ex). rewrite Em, Hx in Hx'. injection Hx' as <-.
    assert (ref_bool o = true) as Hro by (by apply (owned_out (graph e) o y); [apply I|]).
    destruct (Hin k) as (j & Hj & Hjk).
    { eapply (H1 k x y); [done|unfold wired_in; by rewrite Ex|by rewrite Ex|done]. }
    destruct (H2 j k x Hj Hjk Hx). done.
  - right. rewrite Hh. intros h [= <-]. intros k x Hk Hx. destruct (Hin k Hk) as (j & Hj & Hjk). by eapply H2.
  - rewrite Hh. intros h [= <-]. intros k x y Hx Hw Hy Hd.
    assert (k ∈ pending) as Hk by (by eapply H1). split; [done|]. destruct (Hin k Hk) as (j & Hj & Hjk).
    destruct (H2 j k x Hj Hjk Hx) as [_ E]. rewrite <- E, Hy. done.
Qed.

(** A round keeps [served], for the lists it leaves. *)
Lemma served_take p s ins ua pending iter k si x e e' (r := after_take p s k si ins ua pending iter x (world e)) :
  Inv e → pending !! iter = Some k → ins !! k = Some si → inp e (mk_ref p k) = Some x → wired_in x →
  served p iter ins pending e → sink_round p k x r.1 r.2 e e' →
  ∃ ins' pending', r.2 = ActiveMultistreamSinkStage s ins' ua pending' ∧
    served p (if packet_from_upstream x is None then S iter else iter) ins' pending' e'.
Proof.
  intros I Hp Hsi Hx Hw [H1 H2] R.
  pose proof (sr_demand _ _ _ _ _ _ _ R) as Hd.
  assert (∀ k' x', inp e' (mk_ref p k') = Some x' → k' ≠ k → inp e (mk_ref p k') = Some x') as Hi'
    by (intros k' x' Hx' Hk; by rewrite (sr_in _ _ _ _ _ _ _ R) in Hx' by congruence).
  assert (∀ k' x', inp e' (mk_ref p k') = Some x' → k' ≠ k → outp e' (imate x') = outp e (imate x')) as Ho'.
  { intros k' x' Hx' Hk. apply (sr_out _ _ _ _ _ _ _ R). intros E.
    pose proof (mate_inj_in e _ _ x x' I Hx (Hi' _ _ Hx' Hk) Hw E). congruence. }
  assert (∀ x', inp e' (mk_ref p k) = Some x' → imate x' = imate x ∧ packet_from_upstream x' = None) as Hk'
    by (intros x'; rewrite (sr_input _ _ _ _ _ _ _ R); by intros [= <-]).
  assert (k ∈ pending) as Hkin by (by eapply list_elem_of_lookup_2).
  unfold r, after_take in *. destruct (packet_from_upstream x) as [z|] eqn:Hz; cbn in Hd.
  - set (d := (SupplyPacketTo s k z (world e)).1) in *. eexists _, _. split; [done|]. split.
    + intros k' x' y Hx' Hw' Hy Hdy. destruct (decide (k' = k)) as [->|Hk].
      * destruct (Hk' _ Hx') as [Em _]. rewrite Em in Hy. rewrite Hy in Hd. injection Hd as Hd.
        by rewrite decide_False by congruence.
      * assert (k' ∈ pending) as Hin.
        { eapply (H1 k' x' y); [by apply Hi'|done|by rewrite <- (Ho' _ _ Hx' Hk)|done]. }
        case_decide; [|done]. apply list_elem_of_lookup in Hin as [j Hj].
        assert (j ≠ iter) as Hne by congruence. apply list_elem_of_lookup.
        destruct (decide (j < iter)%nat) as [Hlt|Hge]; [exists j|exists (pred j)].
        -- by rewrite list_lookup_delete_lt.
        -- rewrite list_lookup_delete_ge by lia. by replace (S (pred j)) with j by lia.
    + intros j k' x' Hj Hjk Hx'.
      assert (pending !! j = Some k') as Hjk'.
      { case_decide; [|done]. by rewrite list_lookup_delete_lt in Hjk. }
      destruct (decide (k' = k)) as [->|Hk].
      * exfalso. destruct (H2 j k x Hj Hjk' Hx). congruence.
      * rewrite list_lookup_insert_ne by done. rewrite (Ho' _ _ Hx' Hk).
        apply (H2 j k' x' Hj Hjk'). by apply Hi'.
  - eexists _, _. split; [done|]. split.
    + intros k' x' y Hx' Hw' Hy Hdy. destruct (decide (k' = k)) as [->|Hk]; [done|].
      eapply (H1 k' x' y); [by apply Hi'|done|by rewrite <- (Ho' _ _ Hx' Hk)|done].
    + intros j k' x' Hj Hjk Hx'. destruct (decide (k' = k)) as [->|Hk].
      * destruct (Hk' _ Hx') as [-> Hpn]. split; [done|]. by rewrite Hd, Hsi.
      * rewrite (Ho' _ _ Hx' Hk). apply (H2 j k' x'); [|done|by apply Hi'].
        destruct (decide (j = iter)) as [->|]; [congruence|lia].
Qed.

(** One if the input under the position is empty, so that the next round advances. *)
Definition empty_at p (pending : list nat) (iter : nat) e : nat :=
  match pending !! iter ≫= λ k, inp e (mk_ref p k) with
  | Some x => if packet_from_upstream x is None then 1 else 0
  | None => 0
  end.

Lemma sink_loop_updated fuel p s ins ua pending iter e :
  Good live (Some p) e → hst e p = Some (ActiveMultistreamSinkStage s ins ua pending) →
  (live → served p iter ins pending e) →
  (1 + 2 * (length pending - iter) ≤ fuel + empty_at p pending iter e)%nat →
  runs (sink_loop fuel p s iter) e (λ _ e', updated p e e').
Proof.
  revert ins pending iter e. induction fuel as [|fuel IH]; intros ins pending iter e G Hh Hsv Hfuel.
  { exfalso. unfold empty_at in Hfuel. destruct (pending !! iter) as [k|] eqn:E; cbn in Hfuel; [|lia].
    apply lookup_lt_Some in E. destruct (inp e _) as [y|]; [destruct (packet_from_upstream y)|]; lia. }
  destruct (hst_stg _ _ _ Hh) as (st & Hst & Est). cbn [sink_loop].
  eapply runs_step; [by apply host_run|]. cbn beta iota.
  destruct (pending !! iter) as [k|] eqn:Hk.
  2: { apply runs_ret. apply lookup_ge_None in Hk. split_and!; [done|apply progress_refl|].
       intros Hlv. eapply served_finished; [apply G|done|exact Hk|by apply Hsv]. }
  pose proof (inv_stage _ (proj1 G) _ _ Hst) as Hok. unfold stage_ok in Hok. rewrite Est in Hok.
  destruct Hok as [Hl Hpe]. destruct (Hpe k) as (x & Hx & Hw); [by eapply list_elem_of_lookup_2|].
  rewrite <- (inp_at _ _ _ _ Hst) in Hx.
  assert (k < length ins)%nat as Hkl.
  { rewrite Hl. rewrite (inp_at _ _ _ _ Hst) in Hx. by apply lookup_lt_Some in Hx. }
  destruct (lookup_lt_is_Some_2 _ _ Hkl) as [si Hsi]. apply runs_dcheck; [by apply bool_decide_eq_true_2|].
  rewrite Hsi. eapply runs_bind; [by eapply (sink_round_runs p s ins ua pending iter k si x e st)|].
  intros iter' e' [-> R]. set (r := after_take p s k si ins ua pending iter x (world e)) in *.
  assert (∃ ins' pending', r.2 = ActiveMultistreamSinkStage s ins' ua pending' ∧
    (live → served p (if packet_from_upstream x is None then S iter else iter) ins' pending' e') ∧
    (1 + 2 * (length pending' - (if packet_from_upstream x is None then S iter else iter)) ≤
       fuel + empty_at p pending' (if packet_from_upstream x is None then S iter else iter) e')%nat)
    as (ins' & pending' & Er & Hsv' & Hfuel').
  { pose proof (λ Hlv, served_take p s ins ua pending iter k si x e e' (proj1 G) Hk Hsi Hx Hw (Hsv Hlv) R) as Hst'.
    pose proof (sr_input _ _ _ _ _ _ _ R) as Hin'. apply lookup_lt_Some in Hk as Hlt.
    unfold empty_at in Hfuel. rewrite Hk in Hfuel. cbn in Hfuel. rewrite Hx in Hfuel.
    unfold r, after_take in *. destruct (packet_from_upstream x) as [z|]; cbn [snd] in *.
    - eexists _, _. split; [done|]. split; [intros Hlv; by destruct (Hst' Hlv) as (? & ? & [= -> ->] & ?)|].
      case_decide as Hd; [rewrite length_delete by (by eexists); lia|].
      unfold empty_at. rewrite Hk. cbn. rewrite Hin'. cbn. lia.
    - eexists _, _. split; [done|]. split; [intros Hlv; by destruct (Hst' Hlv) as (? & ? & [= -> ->] & ?)|]. lia. }
  eapply runs_mono; [apply (IH ins' pending'); [apply R| |done|done]|].
  - rewrite (sr_host _ _ _ _ _ _ _ R). by rewrite Er.
  - intros _ e2 (G2 & P2 & F2). split_and!; [done| |done]. eapply progress_trans; [apply R|done].
Qed.

End WithLaws.

End EngineUpdate.
