(* ===== verification/EngineRun.v ===== *)
(** The engine's work list ends, and leaves the graph at rest.

    Stages have ranks that grow downstream.  An update that moves no packet only adds
    stages of smaller rank to the demand backlog, so the packets that are left, and then
    the ranks in the backlogs, decrease until both backlogs are empty. *)

From S2P Require Import Prelude Packet Graph Engine EngineState EngineMeasure EngineSpec EngineUpdate.

Module EngineRun.
Import Packet Graph Engine EngineState EngineMeasure EngineSpec EngineUpdate.

Section WithLaws.
Context `{PT : Parts, PL : !PartLaws, BD : Build}.
Implicit Types (e : engine PT) (p : Z) (i o : Ref).

(** ** Ranks *)

Context (rank : Z → nat).
Definition weight (l : list Z) : nat := sum_list (rank <$> l).

(** Every stage outranks all the stages upstream of it together. *)
Definition acyclic e : Prop := ∀ p, is_Some (stg e p) → (weight (upstream e p) < rank p)%nat.

Definition total_rank e : nat := weight (stages (graph e)).
Definition measure e : nat :=
  packets_left e * (2 * total_rank e + 1) + weight (supply_backlog_ e) + weight (demand_backlog_ e).
(** Enough fuel for the work list. *)
Definition budget e : nat := packets_left e * (2 * total_rank e + 2) + 2 * total_rank e + 3.

Lemma weight_app l k : weight (l ++ k) = (weight l + weight k)%nat.
Proof. unfold weight. induction l as [|x l IH]; cbn in *; lia. Qed.
Lemma weight_in p l : p ∈ l → (rank p ≤ weight l)%nat.
Proof. unfold weight. induction 1; cbn; lia. Qed.
Lemma weight_subset l k : NoDup l → l ⊆ k → (weight l ≤ weight k)%nat.
Proof. intros Hn Hs. apply sum_list_submseteq. by apply NoDup_submseteq. Qed.

Lemma stage_listed e p : Inv e → is_Some (stg e p) → p ∈ stages (graph e).
Proof. intros [[Ow _] _ _ _ _ _] Hp. by apply (owned_stages _ Ow). Qed.

Lemma weight_backlogs e :
  Inv e → (weight (supply_backlog_ e) ≤ total_rank e)%nat ∧ (weight (demand_backlog_ e) ≤ total_rank e)%nat.
Proof.
  intros I. pose proof (inv_live _ I) as Hl. destruct (inv_nodup _ I) as [Hs Hd].
  split; apply weight_subset; try done; intros q Hq; apply stage_listed; auto.
Qed.

Lemma acyclic_links e' e : same_links (graph e') (graph e) → acyclic e → acyclic e'.
Proof.
  intros L A p Hp. rewrite (upstream_links _ _ p L). apply A. by apply (same_links_live _ _ p) in L as <-.
Qed.
Lemma total_rank_links e' e : same_links (graph e') (graph e) → total_rank e' = total_rank e.
Proof. intros (_ & _ & E & _). unfold total_rank. by rewrite E. Qed.
Lemma acyclic_self e p : acyclic e → is_Some (stg e p) → p ∉ upstream e p.
Proof. intros A Hp Hin%weight_in. specialize (A p Hp). lia. Qed.

Context (live : Prop) (Hcoop : live → cooperative).

(** ** One stage *)

(** Inputs for which demand is signalled are pending, whatever demand was promised. *)
Definition weak_pending e p : Prop :=
  ∀ s ins ua pending k x y, hst e p = Some (ActiveMultistreamSinkStage s ins ua pending) →
    inp e (mk_ref p k) = Some x → wired_in x → outp e (imate x) = Some y → demand_ y ≠ kNegative → k ∈ pending.

Lemma weak_pending_ok e p : (∀ h, hst e p = Some h → pending_ok e p h) → weak_pending e p.
Proof. intros H s ins ua pending k x y Hh Hx Hw Hy Hd. by destruct (H _ Hh k x y). Qed.

Lemma stage_Update_updated fuel p e :
  Good live (Some p) e → is_Some (stg e p) → p ∉ upstream e p → (work (world e) < fuel)%nat →
  (live → weak_pending e p) →
  runs (stage_Update fuel p) e (λ _ e', updated live p e e').
Proof.
  intros G [st Hst] Hns Hfuel Hwp. assert (hst e p = Some (hosted st)) as Hh by (unfold hst; by rewrite Hst).
  unfold stage_Update. eapply runs_step; [by apply host_run|].
  destruct (hosted st) as [t a n|s r ps|s d|s c k n|s c k n b|s ins ua pending].
  - by apply TransformStage_updated.
  - by apply ActiveSourceStage_updated.
  - by apply ActiveSinkStage_updated.
  - by eapply multistream_updated.
  - by apply ActiveMultistreamSourceStage_updated.
  - eapply sink_loop_updated; [done..| |].
    + intros Hlv. split; [|intros; lia]. intros. by eapply (Hwp Hlv).
    + lia.
Qed.

(** What an update of a stage from the work list does. *)
Record stepped p e e' : Prop := {
  st_good : Good live None e';
  st_links : same_links (graph e') (graph e);
  st_progress : (packets_left e' < packets_left e)%nat ∨
    (packets_left e' ≤ packets_left e)%nat ∧ supply_backlog_ e' = supply_backlog_ e ∧
    ∃ ups, demand_backlog_ e' = ups ++ demand_backlog_ e ∧ ups ⊆ upstream e p;
}.

Lemma UpdateStage_stepped fuel p e :
  Good live (Some p) (set_produced false e) → is_Some (stg e p) → acyclic e → (work (world e) < fuel)%nat →
  (live → weak_pending e p) →
  runs (UpdateStage fuel p) e (λ _ e', stepped p e e').
Proof.
  intros G Hp A Hfuel Hwp. unfold UpdateStage.
  assert (p ≠ 0) as Hp0.
  { destruct Hp as [st Hst]. pose proof (inv_wf _ (proj1 G)) as [Ow _]. pose proof (owned_addr _ Ow p st Hst). lia. }
  apply runs_dcheck; [by apply negb_true_iff, Z.eqb_neq|]. apply runs_mod.
  eapply runs_bind; [apply (stage_Update_updated fuel p (set_produced false e)); try done|].
  { by apply (acyclic_self e). }
  intros _ e1 (G1 & [L1 P1] & F1). apply runs_get.
  assert (is_Some (stg e1 p)) as Hp1 by (by apply (same_links_live _ _ p L1)).
  pose proof (Good_end live p e1 G1 F1 Hp1) as G2.
  assert (runs (whenS (packets_produced_ e1) (PushToDemandBacklog p)) e1
    (λ _ e', e' = if packets_produced_ e1 then push_demand p e1 else e1)) as Hend.
  { destruct (packets_produced_ e1); [|by apply runs_ret]. eexists _, _.
    split; [by apply push_demand_run; [apply G1|done..]|done]. }
  eapply runs_mono; [exact Hend|]. intros _ e2 ->.
  assert (same_links (graph (if packets_produced_ e1 then push_demand p e1 else e1)) (graph e)) as L2.
  { etransitivity; [|exact L1]. destruct (packets_produced_ e1); [apply links_push_demand|done]. }
  split; [done..|]. destruct P1 as [Hlt|(Hle & [Hs Hpr] & Hu)].
  - left. destruct (packets_produced_ e1); [rewrite left_push_demand by apply G1|]; exact Hlt.
  - right. cbn in Hpr. by rewrite Hpr.
Qed.

(** ** The work list *)

Lemma stepped_measure p e e' w :
  acyclic e → is_Some (stg e p) → Inv e' → stepped p e e' →
  (weight (supply_backlog_ e) + weight (demand_backlog_ e) + rank p ≤ w)%nat →
  (packets_left e * (2 * total_rank e + 1) + w > measure e')%nat ∧ (packets_left e' ≤ packets_left e)%nat.
Proof.
  intros A Hp I [_ L P] Hw. unfold measure. rewrite (total_rank_links _ _ L).
  destruct (weight_backlogs _ I) as [H1 H2]. rewrite (total_rank_links _ _ L) in H1, H2.
  destruct P as [Hlt|(Hle & Hs & ups & Hd & Hu)]; [split; [nia|lia]|]. split; [|done].
  assert (weight ups < rank p)%nat as Hups.
  { eapply Nat.le_lt_trans; [|by apply A]. apply weight_subset; [|done].
    destruct (inv_nodup _ I) as [_ Hn]. rewrite Hd in Hn. by apply NoDup_app in Hn as [? _]. }
  rewrite Hs, Hd, weight_app. nia.
Qed.

Lemma Live_None_pending e p : (live → Live None e) → live → weak_pending e p.
Proof. intros HL Hlv. apply weak_pending_ok. intros h Hh. by apply (live_pending _ _ (HL Hlv)). Qed.

Lemma left_popped_supply p rest e : Inv e → packets_left (popped_supply p rest e) = packets_left e.
Proof.
  intros I. unfold packets_left, popped_supply. cbn. f_equal. unfold loads. cbn. f_equal.
  apply list_fmap_ext. intros _ q _. rewrite stg_alter. destruct (decide (q = p)) as [->|]; [|done].
  unfold stg. cbn. by destruct (heap (graph e) !! p).
Qed.
Lemma left_popped_demand p rest e : Inv e → packets_left (popped_demand p rest e) = packets_left e.
Proof.
  intros I. unfold packets_left, popped_demand. cbn. f_equal. unfold loads. cbn. f_equal.
  apply list_fmap_ext. intros _ q _. rewrite stg_alter. destruct (decide (q = p)) as [->|]; [|done].
  unfold stg. cbn. by destruct (heap (graph e) !! p).
Qed.

Lemma links_alter_flags p f sb db b e :
  (∀ st, links (f st) = links st) →
  same_links (graph (alter_stage p f (mk_engine _ (graph e) sb db b (world e)))) (graph e).
Proof. intros Hf. by apply (same_links_alter f p (graph e)). Qed.

Lemma UpdateAll_runs fuel e :
  Good live None e → acyclic e → (measure e + packets_left e + 2 ≤ fuel)%nat →
  runs (UpdateAll fuel) e (λ _ e', Good live None e' ∧ same_links (graph e') (graph e) ∧
    supply_backlog_ e' = [] ∧ demand_backlog_ e' = []).
Proof.
  revert e. induction fuel as [|fuel IH]; intros e G A Hfuel; [lia|]. cbn [UpdateAll].
  assert (∀ p e1, Good live (Some p) (set_produced false e1) → same_links (graph e1) (graph e) →
    packets_left e1 = packets_left e → is_Some (stg e1 p) → (live → weak_pending e1 p) →
    (weight (supply_backlog_ e1) + weight (demand_backlog_ e1) + rank p ≤
       weight (supply_backlog_ e) + weight (demand_backlog_ e))%nat →
    runs (_ ← UpdateStage fuel p; UpdateAll fuel) e1 (λ _ e', Good live None e' ∧
      same_links (graph e') (graph e) ∧ supply_backlog_ e' = [] ∧ demand_backlog_ e' = [])) as Hstep.
  { intros p e1 G1 L1 Eleft Hp1 Hwp Hw. pose proof (acyclic_links _ _ L1 A) as A1.
    eapply runs_bind; [apply UpdateStage_stepped; try done|].
    { assert (3 * work (world e1) ≤ packets_left e1)%nat by (unfold packets_left; lia). lia. }
    intros u e2 T. pose proof (st_links _ _ _ T) as L2.
    destruct (stepped_measure p e1 e2 _ A1 Hp1 (proj1 (st_good _ _ _ T)) T Hw) as [Hm Hl].
    rewrite (total_rank_links _ _ L1), Eleft in Hm.
    eapply runs_mono; [apply IH|].
    - apply T.
    - by apply (acyclic_links _ _ L2).
    - unfold measure in Hfuel at 1. lia.
    - intros _ e3 (G3 & L3 & ? & ?). split_and!; try done. etransitivity; [exact L3|]. by etransitivity. }
  destruct (supply_backlog_ e) as [|p rest] eqn:Es.
  - eapply (runs_step _ _ _ None e); [unfold PopFromSupplyBacklog, mbind, prog_bind, getS; by rewrite Es|].
    cbn beta iota. destruct (demand_backlog_ e) as [|p rest] eqn:Ed.
    + eapply (runs_step _ _ _ None e); [unfold PopFromDemandBacklog, mbind, prog_bind, getS; by rewrite Ed|].
      by apply runs_ret.
    + eapply runs_step; [apply PopFromDemandBacklog_run; [apply G|done]|]. cbn beta iota.
      assert (same_links (graph (popped_demand p rest e)) (graph e)) as L by (by apply links_alter_flags).
      apply Hstep.
      * by apply Good_popped_demand.
      * done.
      * apply left_popped_demand, G.
      * apply (same_links_live _ _ p L), (inv_live _ (proj1 G)). right. rewrite Ed. set_solver.
      * intros Hlv. pose proof (Live_None_pending e p (proj2 G) Hlv) as Hwp.
        intros s ins ua pending k x y. unfold popped_demand. rewrite hst_alter, inp_alter, outp_alter by done. apply Hwp.
      * cbn. rewrite Es. unfold weight. cbn. lia.
  - eapply runs_step; [apply PopFromSupplyBacklog_run; [apply G|done]|]. cbn beta iota.
    assert (same_links (graph (popped_supply p rest e)) (graph e)) as L by (by apply links_alter_flags).
    apply Hstep.
    + by apply Good_popped_supply.
    + done.
    + apply left_popped_supply, G.
    + apply (same_links_live _ _ p L), (inv_live _ (proj1 G)). left. rewrite Es. set_solver.
    + intros Hlv. pose proof (Live_None_pending e p (proj2 G) Hlv) as Hwp.
      intros s ins ua pending k x y. unfold popped_supply. rewrite hst_alter, inp_alter, outp_alter by done. apply Hwp.
    + cbn. unfold weight. cbn. lia.
Qed.

Lemma measure_budget e :
  Inv e → (measure e + packets_left e + 2 < budget e)%nat.
Proof. intros I. unfold measure, budget. destruct (weight_backlogs _ I). nia. Qed.

(** [RequestUpdate] from a state in which the stage [p] is about to be updated. *)
Lemma RequestUpdate_runs fuel p e :
  Good live (Some p) (set_produced false e) → is_Some (stg e p) → acyclic e → (live → weak_pending e p) →
  (budget e ≤ fuel)%nat →
  runs (RequestUpdate fuel p) e (λ _ e', Good live None e' ∧ same_links (graph e') (graph e) ∧
    supply_backlog_ e' = [] ∧ demand_backlog_ e' = []).
Proof.
  intros G Hp A Hwp Hfuel. unfold RequestUpdate.
  assert (p ≠ 0) as Hp0.
  { destruct Hp as [st Hst]. pose proof (inv_wf _ (proj1 G)) as [Ow _]. pose proof (owned_addr _ Ow p st Hst). lia. }
  apply runs_dcheck; [by apply negb_true_iff, Z.eqb_neq|].
  eapply runs_bind; [apply UpdateStage_stepped; try done|].
  { assert (3 * work (world e) ≤ packets_left e)%nat by (unfold packets_left; lia). unfold budget in Hfuel. nia. }
  intros u e1 T. pose proof (st_links _ _ _ T) as L. pose proof (proj1 (st_good _ _ _ T)) as I1.
  assert (packets_left e1 ≤ packets_left e)%nat as Hl by (destruct (st_progress _ _ _ T) as [?|[? _]]; lia).
  eapply runs_mono; [apply UpdateAll_runs|].
  - apply T.
  - by apply (acyclic_links _ _ L).
  - pose proof (measure_budget e1 I1) as Hm. unfold budget in Hm, Hfuel. rewrite (total_rank_links _ _ L) in Hm. nia.
  - intros _ e2 (G2 & L2 & ? & ?). split_and!; try done. by etransitivity.
Qed.

End WithLaws.

(** ** States of rest *)

Section Rest.
Context `{PT : Parts, PL : !PartLaws, BD : Build}.
Implicit Types (e : engine PT) (p : Z) (i o : Ref).

(** Both backlogs are empty, every stage has done what it can, and stages and parts are
    set up for the next callback. *)
Record at_rest (rank : Z → nat) e : Prop := {
  rest_inv : Inv e;
  rest_backlogs : supply_backlog_ e = [] ∧ demand_backlog_ e = [];
  rest_loaded : ∀ o y x, ¬ loaded e o y x;
  rest_settled : ∀ q h, hst e q = Some h → settled e q h;
  rest_pending : ∀ q h, hst e q = Some h → pending_ok e q h;
  rest_acyclic : acyclic rank e;
  rest_callback : ∀ q st, stg e q = Some st → update_callback st = true;
}.

Lemma Good_rest rank e' e :
  at_rest rank e → Good True None e' → same_links (graph e') (graph e) →
  supply_backlog_ e' = [] → demand_backlog_ e' = [] → at_rest rank e'.
Proof.
  intros R [I HL] L Hs Hd. destruct (HL Logic.I) as [H1 H2 H3 H4]. split; try done.
  - intros o y x Hl. destruct (H1 o y x Hl) as [Hin|?]; [|done]. rewrite Hs in Hin. by apply elem_of_nil in Hin.
  - intros q h Hh. destruct (H3 q h Hh) as [Hin|[Hin|?]]; [done|..|done].
    + rewrite Hs in Hin. by apply elem_of_nil in Hin.
    + rewrite Hd in Hin. by apply elem_of_nil in Hin.
  - intros q h Hh. by apply H4.
  - by eapply acyclic_links, (rest_acyclic _ _ R).
  - intros q st' Hst'. apply (same_links_at _ _ q) in L. unfold stg in *. rewrite Hst' in L.
    destruct (heap (graph e) !! q) as [st|] eqn:E; [|done]. injection L as _ _ ->.
    by apply (rest_callback _ _ R q).
Qed.

(** The fuel that a callback needs: one more packet may be there. *)
Definition callback_budget (rank : Z → nat) e : nat := budget rank e + 2 * (2 * total_rank rank e + 2).

(** A callback changes the members of one stage and asks for an update. *)
Lemma event_Good rank e p h st :
  at_rest rank e → stg e p = Some st → msource h = msource (hosted st) → stage_ok (world e) (set_hosted h st) →
  Good True (Some p) (set_produced false (put_host p h e)).
Proof.
  intros R Hst Hm Hok. destruct (rest_backlogs _ _ R) as [Hs Hd].
  assert (Good True (Some p) (set_produced false e)) as G.
  { split; [apply Inv_set_produced, R|]. intros _. split.
    - intros o y x Hl. by destruct (rest_loaded _ _ R o y x).
    - intros o y x Hl. by destruct (rest_loaded _ _ R o y x).
    - intros q h' Hh _. right; right. eapply (obs_settled _ e); [by split|]. by apply (rest_settled _ _ R).
    - intros q h' Hh _. eapply (obs_pending _ e); [by split|]. by apply (rest_pending _ _ R). }
  apply (Good_host True p h _ G). intros st' Hst'. change (stg e p = Some st') in Hst'. by simplify_eq.
Qed.

Lemma event_runs rank fuel e p h st :
  cooperative → at_rest rank e → stg e p = Some st → msource h = msource (hosted st) →
  stage_ok (world e) (set_hosted h st) → weak_pending (put_host p h e) p → (held h ≤ S (held (hosted st)))%nat →
  (callback_budget rank e ≤ fuel)%nat →
  runs (stage_RequestUpdate fuel p) (put_host p h e) (λ _ e', at_rest rank e').
Proof.
  intros Hcoop R Hst Hm Hok Hwp Hheld Hfuel. set (e1 := put_host p h e).
  assert (stg e1 p = Some (set_hosted h st)) as Hst1.
  { unfold e1, put_host. by rewrite stg_alter, decide_True, Hst. }
  pose proof (links_put_host p h e : same_links (graph e1) (graph e)) as L.
  pose proof (rest_callback _ _ R p st Hst) as Hcb. unfold stage_RequestUpdate.
  eapply runs_step; [by apply deref_onG|]. cbn [update_callback set_hosted]. rewrite Hcb.
  apply runs_dcheck; [done|]. eapply runs_mono; [apply (RequestUpdate_runs rank True)|].
  - done.
  - by eapply event_Good.
  - by eexists.
  - eapply acyclic_links, (rest_acyclic _ _ R). done.
  - done.
  - pose proof (left_host p h e st (rest_inv _ _ R) Hst) as E. fold e1 in E. unfold callback_budget, budget in *.
    rewrite (total_rank_links rank _ _ L). nia.
  - intros _ e2 (G2 & L2 & ? & ?). eapply Good_rest; try done. by etransitivity.
Qed.

Lemma rest_put_host rank e p h st :
  at_rest rank e → stg e p = Some st → msource h = msource (hosted st) → stage_ok (world e) (set_hosted h st) →
  settled e p h → pending_ok e p h → at_rest rank (put_host p h e).
Proof.
  intros R Hst Hm Hok Hs Hp. destruct R as [I [Rs Rd] Rl Rse Rp Ra Rc].
  assert (∀ o, outp (put_host p h e) o = outp e o) as Eo by (intros; by rewrite outp_put_host).
  assert (∀ i, inp (put_host p h e) i = inp e i) as Ei by (intros; by rewrite inp_put_host).
  assert (∀ q, same_view (put_host p h e) e q) as V.
  { intros q. split; intros; rewrite ?Eo, ?Ei; try done; [by right|]. apply count_alter. by left. }
  split; try done.
  - apply Inv_put_host; [done|]. intros st' Hst'. by simplify_eq.
  - intros o y x. unfold loaded. rewrite Eo, Ei. apply Rl.
  - intros q h' Hh. eapply settled_view; [apply V|]. rewrite hst_put_host in Hh. case_decide; [|by apply Rse].
    subst. rewrite Hst in Hh. by injection Hh as <-.
  - intros q h' Hh. apply (pending_view _ e); [intros; by rewrite Ei|intros; by rewrite Eo|]. rewrite hst_put_host in Hh.
    case_decide; [|by apply Rp]. subst. rewrite Hst in Hh. by injection Hh as <-.
  - eapply acyclic_links, Ra. apply links_put_host.
  - intros q st'. unfold put_host. rewrite stg_alter. case_decide; [|apply Rc]. subst. rewrite Hst.
    intros [= <-]. exact (Rc _ st Hst).
Qed.

Lemma not_sink_pending e p h :
  hst e p = Some h → (∀ s ins ua pending, h ≠ ActiveMultistreamSinkStage s ins ua pending) → weak_pending e p.
Proof. intros Hh Hn s ins ua pending k x y Hh'. rewrite Hh in Hh'. injection Hh' as ->. by destruct (Hn s ins ua pending). Qed.

Lemma source_supply_runs rank fuel e p s r ps x :
  cooperative → at_rest rank e → hst e p = Some (ActiveSourceStage s r ps) → r = true → packet_ok x →
  (callback_budget rank e ≤ fuel)%nat → runs (source_supply fuel p x) e (λ _ e', at_rest rank e').
Proof.
  intros Hc R Hh -> Hx Hfuel. destruct (hst_stg _ _ _ Hh) as (st & Hst & Est). unfold source_supply.
  eapply runs_step; [by apply host_run|]. eapply runs_step; [apply set_host_run|].
  set (h := ActiveSourceStage s true (ps ++ [x])).
  pose proof (inv_stage _ (rest_inv _ _ R) _ _ Hst) as Hok. unfold stage_ok in Hok. rewrite Est in Hok.
  assert (stage_ok (world e) (set_hosted h st)) as Hok'.
  { unfold stage_ok. cbn. destruct Hok as (? & ? & ? & ?). split_and!; [done..|]. apply Forall_app. by split; [|constructor]. }
  assert (hst (put_host p h e) p = Some h) as Hh' by (by rewrite hst_put_host, decide_True, Hst).
  destruct (decide (ps = [])) as [->|Hps].
  - rewrite bool_decide_eq_true_2 by done. eapply event_runs; try done; [by rewrite Est|by eapply not_sink_pending|].
    rewrite Est. cbn. lia.
  - rewrite bool_decide_eq_false_2 by done. apply runs_ret. eapply rest_put_host; try done; [by rewrite Est|].
    right. intros y Hy. destruct (rest_settled _ _ R _ _ Hh) as [?|H]; [done|by apply H].
Qed.

Lemma sink_demand_runs rank fuel e p s d d' :
  cooperative → at_rest rank e → hst e p = Some (ActiveSinkStage s d) →
  (callback_budget rank e ≤ fuel)%nat → runs (sink_demand fuel p d') e (λ _ e', at_rest rank e').
Proof.
  intros Hc R Hh Hfuel. destruct (hst_stg _ _ _ Hh) as (st & Hst & Est). unfold sink_demand.
  eapply runs_step; [by apply host_run|]. cbn beta iota. case_decide; [by apply runs_ret|].
  eapply runs_step; [apply set_host_run|].
  pose proof (inv_stage _ (rest_inv _ _ R) _ _ Hst) as Hok. unfold stage_ok in Hok. rewrite Est in Hok.
  eapply event_runs; try done; [by rewrite Est| |cbn; lia].
  eapply (not_sink_pending _ _ (ActiveSinkStage s d')); [|done]. by rewrite hst_put_host, decide_True, Hst.
Qed.

Lemma multistream_supply_runs rank fuel e p s k0 n k x st :
  cooperative → at_rest rank e → stg e p = Some st → hosted st = ActiveMultistreamSourceStage s None k0 n true →
  (k < length (outputs st))%nat → packet_ok x → (callback_budget rank e ≤ fuel)%nat →
  runs (multistream_supply fuel p k (Some x)) e (λ _ e', at_rest rank e').
Proof.
  intros Hc R Hst Est Hk Hx Hfuel. pose proof (rest_inv _ _ R) as I.
  assert (hst e p = Some (ActiveMultistreamSourceStage s None k0 n true)) as Hh by (unfold hst; rewrite Hst; cbn; by rewrite Est).
  pose proof (inv_stage _ I _ _ Hst) as Hok. unfold stage_ok in Hok. rewrite Est in Hok. destruct Hok as (Hni & Hw & _).
  unfold multistream_supply. eapply runs_step; [by apply host_run|]. eapply runs_step; [by apply output_count_run|].
  apply runs_dcheck; [done|]. apply runs_dcheck; [by apply bool_decide_eq_true_2|].
  apply runs_dcheck; [done|]. apply runs_dcheck; [done|]. cbn [release_opt].
  eapply runs_step; [reflexivity|]. eapply runs_step; [apply set_host_run|].
  set (h := ActiveMultistreamSourceStage s (Some x) k (if end_of_stream x then S n else n) false).
  assert (stage_ok (world e) (set_hosted h st)) as Hok'.
  { unfold stage_ok. cbn. split_and!; [done..|]. by intros ? [= <-]. }
  assert (Inv (put_host p h e)) as I'.
  { apply Inv_put_host; [done|]. intros st' Hst'. simplify_eq. by rewrite Est. }
  destruct (lookup_lt_is_Some_2 _ _ Hk) as [y Hy].
  assert (outp (put_host p h e) (mk_ref p k) = Some y) as Ho by (by rewrite outp_put_host, (outp_at _ _ _ _ Hst)).
  pose proof (proj1 (Forall_lookup _ _) Hw _ _ Hy) as Hwy.
  eapply runs_step; [by apply Output_demand_run|]. case_bool_decide as Hd; cbn [negb whenS].
  - apply runs_ret. eapply rest_put_host; try done; [by rewrite Est|]. intros y' Hy'.
    rewrite outp_put_host in Ho. simplify_eq. unfold eff_demand in *. by rewrite inp_put_host in Hd.
  - eapply event_runs; try done; [by rewrite Est| |rewrite Est; cbn; lia].
    eapply (not_sink_pending _ _ h); [|done]. by rewrite hst_put_host, decide_True, Hst.
Qed.

Lemma UpdateDemand_runs rank fuel e p s ins ua pending k d x :
  cooperative → at_rest rank e → hst e p = Some (ActiveMultistreamSinkStage s ins ua pending) →
  inp e (mk_ref p k) = Some x → wired_in x → d ≠ kNegative → (callback_budget rank e ≤ fuel)%nat →
  runs (UpdateDemand fuel p k d) e (λ _ e', at_rest rank e').
Proof.
  intros Hc R Hh Hx Hw Hd Hfuel. destruct (hst_stg _ _ _ Hh) as (st & Hst & Est).
  pose proof (inv_stage _ (rest_inv _ _ R) _ _ Hst) as Hok. unfold stage_ok in Hok. rewrite Est in Hok.
  destruct Hok as [Hl Hpe]. pose proof Hx as Hxk. rewrite (inp_at _ _ _ _ Hst) in Hxk.
  assert (k < length ins)%nat as Hk by (rewrite Hl; by apply lookup_lt_Some in Hxk).
  destruct (lookup_lt_is_Some_2 _ _ Hk) as [si Hsi]. unfold UpdateDemand.
  eapply runs_step; [by apply host_run|]. apply runs_dcheck; [by apply bool_decide_eq_true_2|].
  apply runs_dcheck; [by rewrite bool_decide_eq_false_2|]. rewrite Hsi. eapply runs_step; [apply set_host_run|].
  eapply event_runs; try done; [by rewrite Est| | |cbn; lia].
  - unfold stage_ok. cbn. rewrite length_insert. split; [done|]. intros j [Hj|Hj]%elem_of_app; [by apply Hpe|].
    apply list_elem_of_singleton in Hj as ->. by exists x.
  - intros s' ins' ua' pending' j x' y Hh'. rewrite inp_put_host, outp_put_host. intros Hx' Hw' Hy Hdy.
    rewrite hst_put_host, decide_True, Hst in Hh' by done. injection Hh' as <- <- <- <-. apply elem_of_app. left.
    by eapply (rest_pending _ _ R _ _ Hh j x' y).
Qed.

(** ** Properties *)

(** C4. Whenever a stage asks for an update, the engine works its backlogs off and returns:
    in a graph whose stages are connected and prepared, without cycles, and with parts that
    make finitely many packets, no check fails, nothing undefined happens, in particular no
    input is given a second packet, and both backlogs end empty, with the connections of
    the graph as they were. *)
Theorem RequestUpdate_terminates rank e p fuel :
  Inv e → acyclic rank e → is_Some (stg e p) → (budget rank e ≤ fuel)%nat →
  runs (RequestUpdate fuel p) e (λ _ e', Inv e' ∧ same_links (graph e') (graph e) ∧
    supply_backlog_ e' = [] ∧ demand_backlog_ e' = []).
Proof.
  intros I A Hp Hfuel. eapply runs_mono; [apply (RequestUpdate_runs rank False)|].
  all: try done.
  - split; [|done]. by apply Inv_set_produced.
  - intros _ e' ([? _] & ? & ? & ?). by split_and!.
Qed.

(** C3. With parts that do their share, every callback of a part takes the graph from a state
    of rest to a state of rest: when the engine returns, every stage has nothing left to do,
    so no packet waits that the stage downstream would accept, and no demand is left
    unsignalled, whatever packet was supplied or demand was changed. *)
Theorem callbacks_return_to_rest rank fuel e p :
  cooperative → at_rest rank e → (callback_budget rank e ≤ fuel)%nat →
  (∀ s ps x, hst e p = Some (ActiveSourceStage s true ps) → packet_ok x →
     runs (source_supply fuel p x) e (λ _ e', at_rest rank e')) ∧
  (∀ s d d', hst e p = Some (ActiveSinkStage s d) →
     runs (sink_demand fuel p d') e (λ _ e', at_rest rank e')) ∧
  (∀ st s k0 n k x, stg e p = Some st → hosted st = ActiveMultistreamSourceStage s None k0 n true →
     (k < length (outputs st))%nat → packet_ok x →
     runs (multistream_supply fuel p k (Some x)) e (λ _ e', at_rest rank e')) ∧
  (∀ s ins ua pending k d x, hst e p = Some (ActiveMultistreamSinkStage s ins ua pending) →
     inp e (mk_ref p k) = Some x → wired_in x → d ≠ kNegative →
     runs (UpdateDemand fuel p k d) e (λ _ e', at_rest rank e')).
Proof.
  intros Hc R Hfuel. split_and!; intros.
  - by eapply source_supply_runs.
  - by eapply sink_demand_runs.
  - by eapply multistream_supply_runs.
  - by eapply UpdateDemand_runs.
Qed.

End Rest.

End EngineRun.
