(* ===== verification/EnginePrepare.v ===== *)
(** Preparing, unpreparing and flushing a subgraph.

    Only transforms report further connectors to visit, one each, so a visit follows a
    path: upstream from an input through transforms to a source, or downstream from an
    output through transforms to a sink. *)

From S2P Require Import Prelude Packet Graph Engine EngineState EngineMeasure EngineSpec EngineUpdate EngineRun.

Module EnginePrepare.
Import Packet Graph Engine EngineState EngineMeasure EngineSpec EngineUpdate EngineRun.

Section Structure.
Context `{PT : Parts}.
Implicit Types (e : engine PT) (p : Z) (i o : Ref) (k : nat).

(** ** Changes that keep the connections *)

(** The same connectors, connected to the same mates, the same update callbacks and the
    same backlogs. *)
Definition mates (st : Stage Host) : list Ref * list Ref := (imate <$> inputs st, omate <$> outputs st).
Definition flags (st : Stage Host) : bool * bool * bool := (update_callback st, in_supply_backlog st, in_demand_backlog st).

Record same_mates e' e : Prop := {
  sm_mates : ∀ p, mates <$> stg e' p = mates <$> stg e p;
  sm_flags : ∀ p, flags <$> stg e' p = flags <$> stg e p;
  sm_backlogs : supply_backlog_ e' = supply_backlog_ e ∧ demand_backlog_ e' = demand_backlog_ e ∧
    packets_produced_ e' = packets_produced_ e;
  sm_lists : next (graph e') = next (graph e) ∧ stages (graph e') = stages (graph e) ∧
    sources (graph e') = sources (graph e) ∧ sinks (graph e') = sinks (graph e);
  sm_prepared : ∀ i x, inp e' i = Some x → prepared x = true → wired_in x;
}.

Lemma mates_in e' e i x' :
  (∀ p, mates <$> stg e' p = mates <$> stg e p) → inp e' i = Some x' → ∃ x, inp e i = Some x ∧ imate x = imate x'.
Proof.
  intros E. specialize (E (stage_ i)). rewrite !inp_stg. destruct (stg e' (stage_ i)) as [st'|]; [|done].
  destruct (stg e (stage_ i)) as [st|]; [|done]. injection E as E _. cbn. intros Hx.
  apply (f_equal (λ l, l !! index_ i)) in E. rewrite !list_lookup_fmap, Hx in E.
  destruct (inputs st !! index_ i) as [x|]; [|done]. injection E as E. by exists x.
Qed.
Lemma mates_out e' e o y' :
  (∀ p, mates <$> stg e' p = mates <$> stg e p) → outp e' o = Some y' → ∃ y, outp e o = Some y ∧ omate y = omate y'.
Proof.
  intros E. specialize (E (stage_ o)). rewrite !outp_stg. destruct (stg e' (stage_ o)) as [st'|]; [|done].
  destruct (stg e (stage_ o)) as [st|]; [|done]. injection E as _ E. cbn. intros Hx.
  apply (f_equal (λ l, l !! index_ o)) in E. rewrite !list_lookup_fmap, Hx in E.
  destruct (outputs st !! index_ o) as [x|]; [|done]. injection E as E. by exists x.
Qed.

Lemma same_mates_wf e' e : same_mates e' e → wf (graph e) → wf (graph e').
Proof.
  intros [E _ _ (En & Es & Eso & Esi) Hp] [Ow Ma]. assert (∀ p, mates <$> stg e p = mates <$> stg e' p) as E' by done.
  split.
  - destruct Ow as [H1 H2 H3 H4 H5 H6].
    assert (∀ p, is_Some (heap (graph e') !! p) ↔ is_Some (heap (graph e) !! p)) as Hl.
    { intros p. specialize (E p). unfold stg in E. destruct (heap (graph e') !! p), (heap (graph e) !! p); try done;
        split; intros []; try done; by eexists. }
    split; rewrite ?En, ?Es, ?Eso, ?Esi; try done.
    + intros p st' Hst'. destruct (proj1 (Hl p)) as [st Hst]; [by eexists|]. by eapply H2.
    + intros p. by rewrite Hl.
  - split; [| |exact Hp].
    + intros o x' Hx' Hc. destruct (mates_out _ _ _ _ E Hx') as (x & Hx & Em).
      destruct (matched_out _ Ma o x Hx) as (y & Hy & Ey); [congruence|].
      destruct (mates_in _ _ _ _ E' Hy) as (y' & Hy' & Ey'). exists y'. split; [rewrite <- Em; exact Hy'|congruence].
    + intros i y' Hy' Hc. destruct (mates_in _ _ _ _ E Hy') as (y & Hy & Em).
      destruct (matched_in _ Ma i y Hy) as (x & Hx & Ex); [congruence|].
      destruct (mates_out _ _ _ _ E' Hx) as (x' & Hx' & Ex'). exists x'. split; [rewrite <- Em; exact Hx'|congruence].
Qed.

Lemma same_mates_refl e : wf (graph e) → same_mates e e.
Proof. intros [_ Ma]. split; try done. intros i x Hx Hp. by eapply (matched_prepared _ Ma i). Qed.
Lemma same_mates_world w e : wf (graph e) → same_mates (set_world w e) e.
Proof. intros W. by destruct (same_mates_refl e W). Qed.
Lemma same_mates_trans e2 e1 e : same_mates e1 e → same_mates e2 e1 → same_mates e2 e.
Proof.
  intros [E1 F1 (?&?&?) (?&?&?&?) _] [E2 F2 (?&?&?) (?&?&?&?) Hp].
  split; [intros p; by rewrite E2|intros p; by rewrite F2|split_and!; congruence|split_and!; congruence|done].
Qed.

Lemma same_mates_alter p f e :
  wf (graph e) →
  (∀ st, flags (f st) = flags st) →
  (∀ st, stg e p = Some st → mates (f st) = mates st ∧ ∀ x, x ∈ inputs (f st) → prepared x = true → wired_in x) →
  same_mates (alter_stage p f e) e.
Proof.
  intros [_ Ma] Hg Hf. split; [| |done|done|].
  - intros q. rewrite stg_alter. destruct (decide (q = p)) as [->|]; [|done].
    destruct (stg e p) as [st|]; [|done]. cbn. f_equal. by apply Hf.
  - intros q. rewrite stg_alter. destruct (decide (q = p)) as [->|]; [|done].
    destruct (stg e p) as [st|]; [|done]. cbn. f_equal. apply Hg.
  - intros i x. rewrite inp_stg, stg_alter. destruct (decide (stage_ i = p)) as [<-|].
    + destruct (stg e (stage_ i)) as [st|] eqn:E; [|done]. cbn. intros Hx.
      destruct (Hf st eq_refl) as [_ H]. apply H. by eapply list_elem_of_lookup_2.
    + rewrite <- inp_stg. intros Hx Hp. by eapply (matched_prepared _ Ma i).
Qed.

Lemma stage_inputs_wired e p st x :
  wf (graph e) → stg e p = Some st → x ∈ inputs st → prepared x = true → wired_in x.
Proof.
  intros [_ Ma] Hst [k Hk]%list_elem_of_lookup Hp. eapply (matched_prepared _ Ma (mk_ref p k)); [|done].
  by rewrite <- (inp_at _ _ _ _ Hst) in Hk.
Qed.

Lemma same_mates_host p h e : wf (graph e) → same_mates (put_host p h e) e.
Proof.
  intros W. apply same_mates_alter; [done..|]. intros st Hst. split; [done|]. intros x Hx. by eapply stage_inputs_wired.
Qed.

Definition with_copy (a : option Z) (y : Output) : Output := mk_output (omate y) (demand_ y) a.
Definition with_prepared (y : Input) : Input := mk_input (imate y) true (packet_from_upstream y).
Definition put_copy o (a : option Z) e : engine PT :=
  alter_stage (stage_ o) (map_outputs (alter (with_copy a) (index_ o))) e.
Definition put_prepared i e : engine PT :=
  alter_stage (stage_ i) (map_inputs (alter with_prepared (index_ i))) e.

Lemma outputs_mates f k (l : list Output) : (∀ y, omate (f y) = omate y) → omate <$> alter f k l = omate <$> l.
Proof.
  intros Hf. apply list_eq. intros j. rewrite !list_lookup_fmap. destruct (decide (j = k)) as [->|].
  - rewrite list_lookup_alter_eq. destruct (l !! k); cbn; [by rewrite Hf|done].
  - by rewrite list_lookup_alter_ne.
Qed.
Lemma inputs_mates f k (l : list Input) : (∀ y, imate (f y) = imate y) → imate <$> alter f k l = imate <$> l.
Proof.
  intros Hf. apply list_eq. intros j. rewrite !list_lookup_fmap. destruct (decide (j = k)) as [->|].
  - rewrite list_lookup_alter_eq. destruct (l !! k); cbn; [by rewrite Hf|done].
  - by rewrite list_lookup_alter_ne.
Qed.

Lemma same_mates_copy o a e : wf (graph e) → same_mates (put_copy o a e) e.
Proof.
  intros W. apply same_mates_alter; [done..|]. intros st Hst. split.
  - unfold mates. cbn. f_equal. by apply outputs_mates.
  - intros x Hx. by eapply stage_inputs_wired.
Qed.
Lemma same_mates_demand o d e : wf (graph e) → same_mates (put_demand o d e) e.
Proof.
  intros W. apply same_mates_alter; [done..|]. intros st Hst. split.
  - unfold mates. cbn. f_equal. by apply outputs_mates.
  - intros x Hx. by eapply stage_inputs_wired.
Qed.
Lemma same_mates_prepared i e x : wf (graph e) → inp e i = Some x → wired_in x → same_mates (put_prepared i e) e.
Proof.
  intros W Hx Hw. apply same_mates_alter; [done..|]. intros st Hst. split.
  - unfold mates. cbn. f_equal. by apply inputs_mates.
  - intros x' [j Hj]%list_elem_of_lookup Hp. cbn in Hj. destruct (decide (j = index_ i)) as [->|Hne].
    + rewrite list_lookup_alter_eq in Hj. rewrite inp_stg, Hst in Hx. cbn in Hx. rewrite Hx in Hj. by injection Hj as <-.
    + rewrite list_lookup_alter_ne in Hj by done. eapply stage_inputs_wired; [done..| |done].
      by eapply list_elem_of_lookup_2.
Qed.
Lemma same_mates_packet i z e : wf (graph e) → same_mates (put_packet i z e) e.
Proof.
  intros W. apply same_mates_alter; [done..|]. intros st Hst. split.
  - unfold mates. cbn. f_equal. by apply inputs_mates.
  - intros x' [j Hj]%list_elem_of_lookup. cbn in Hj. destruct (decide (j = index_ i)) as [->|Hne].
    + rewrite list_lookup_alter_eq in Hj. destruct (inputs st !! index_ i) as [x|] eqn:E; [|done].
      injection Hj as <-. intros Hp. eapply (stage_inputs_wired e _ st x); [done..| |done]. by eapply list_elem_of_lookup_2.
    + rewrite list_lookup_alter_ne in Hj by done. eapply stage_inputs_wired; [done..|]. by eapply list_elem_of_lookup_2.
Qed.

(** Observations of the two new changes. *)
Lemma outp_put_copy o a e j : outp (put_copy o a e) j = if decide (j = o) then with_copy a <$> outp e o else outp e j.
Proof.
  unfold put_copy. rewrite outp_stg, stg_alter. case_decide as Hs.
  - destruct (decide (j = o)) as [->|Hne].
    + rewrite outp_stg. destruct (stg e (stage_ o)) as [st|]; cbn; [|done]. by rewrite list_lookup_alter_eq.
    + rewrite outp_stg, Hs. destruct (stg e (stage_ o)) as [st|]; cbn; [|done].
      rewrite list_lookup_alter_ne; [done|]. intros Hi. apply Hne. destruct o, j; cbn in *; by subst.
  - rewrite decide_False by (intros ->; done). done.
Qed.
Lemma inp_put_prepared i e j : inp (put_prepared i e) j = if decide (j = i) then with_prepared <$> inp e i else inp e j.
Proof.
  unfold put_prepared. rewrite inp_stg, stg_alter. case_decide as Hs.
  - destruct (decide (j = i)) as [->|Hne].
    + rewrite inp_stg. destruct (stg e (stage_ i)) as [st|]; cbn; [|done]. by rewrite list_lookup_alter_eq.
    + rewrite inp_stg, Hs. destruct (stg e (stage_ i)) as [st|]; cbn; [|done].
      rewrite list_lookup_alter_ne; [done|]. intros Hi. apply Hne. destruct i, j; cbn in *; by subst.
  - rewrite decide_False by (intros ->; done). done.
Qed.

End Structure.

(** ** Preparing *)

Section Prepare.
Context `{PT : Parts, BD : Build}.
Implicit Types (e : engine PT) (p : Z) (i o : Ref) (k : nat).

Lemma put_prepared_run i x e :
  inp e i = Some x → put_input i (mk_input (imate x) true (packet_from_upstream x)) e = Ok (tt, put_prepared i e).
Proof.
  intros (st & Hst & Hy)%inp_live. unfold put_input, modS, put_prepared. do 2 f_equal.
  unfold set_input. apply (alter_stage_ext (stage_ i)). intros st' Hst'. simplify_eq.
  unfold map_inputs. f_equal. by rewrite <- (list_alter_at with_prepared _ _ _ Hy).
Qed.

Lemma SetCopyAllocator_run p k a e y :
  outp e (mk_ref p k) = Some y → wired_out y → SetCopyAllocator p k a e = Ok (tt, put_copy (mk_ref p k) a e).
Proof.
  intros Ho Hw. unfold SetCopyAllocator. run_bind (own_output_run _ _ _ _ Ho). run_bind (dcheckS_true e _ Hw).
  apply outp_live in Ho as (st & Hst & Hy). unfold put_output, modS, put_copy. do 2 f_equal.
  unfold set_output. apply (alter_stage_ext p). intros st' Hst'. cbn [stage_] in Hst. simplify_eq.
  unfold map_outputs. f_equal. by rewrite <- (list_alter_at (with_copy a) _ _ _ Hy).
Qed.

(** The stages at which an input is prepared, and those at which an output is. *)
Definition takes_packets (h : Host) k : Prop :=
  match h with
  | TransformStage _ _ _ | ActiveSinkStage _ _ => k = 0%nat
  | ActiveMultistreamSinkStage _ _ _ _ => True
  | _ => False
  end.
Definition makes_packets (h : Host) k : Prop :=
  match h with
  | TransformStage _ _ _ | ActiveSourceStage _ _ _ => k = 0%nat
  | MultistreamSourceStage _ _ _ _ | ActiveMultistreamSourceStage _ _ _ _ _ => True
  | _ => False
  end.
Definition is_transform (h : Host) : bool := match h with TransformStage _ _ _ => true | _ => false end.

(** The inputs from one upstream to a source. *)
Inductive upstream_path e : Ref → list Ref → Prop :=
  | path_source i x h :
      inp e i = Some x → wired_in x → hst e (stage_ (imate x)) = Some h →
      makes_packets h (index_ (imate x)) → is_transform h = false → upstream_path e i [i]
  | path_transform i x h js (j := mk_ref (stage_ (imate x)) 0) :
      inp e i = Some x → wired_in x → hst e (stage_ (imate x)) = Some h →
      makes_packets h (index_ (imate x)) → is_transform h = true → is_Some (inp e j) →
      upstream_path e j js → upstream_path e i (i :: js).

(** The allocator that the stage of an input insists on, and what telling it to the output
    upstream changes: transforms keep it, sources that take allocators are given it (the
    default if there is none), and the outputs of others copy packets to it. *)
Definition wanted e i : option Z :=
  match hst e (stage_ i) with Some (ActiveSinkStage s _) => sink_allocator s | _ => None end.
Definition told_host (w : option Z) (h : Host) : Host :=
  match h with
  | TransformStage t _ n => TransformStage t (Some (default GetDefault w)) n
  | ActiveSourceStage s _ ps => ActiveSourceStage s true ps
  | _ => h
  end.
Definition takes_allocator (h : Host) : bool :=
  match h with TransformStage _ _ _ => true | ActiveSourceStage s _ _ => can_accept_allocator s | _ => false end.
Definition told_output (w : option Z) (h : Host) (y : Output) : Output :=
  match w with Some a => if takes_allocator h then y else with_copy (Some a) y | None => y end.
Definition told_world (w : option Z) (h : Host) (x : World) : World :=
  match h with
  | ActiveSourceStage s _ _ => if can_accept_allocator s then set_allocator s (Some (default GetDefault w)) x else x
  | _ => x
  end.

(** The stage that feeds an input, and the parts told of allocators from one input up. *)
Definition feeder e i : option Host := x ← inp e i; hst e (stage_ (imate x)).
Definition told_parts e (ks : list Ref) (x : World) : World :=
  foldl (λ x i, match feeder e i with Some h => told_world (wanted e i) h x | None => x end) x ks.

Definition provided e e' i : Prop :=
  ∀ x h, inp e i = Some x → hst e (stage_ (imate x)) = Some h →
    hst e' (stage_ (imate x)) = Some (told_host (wanted e i) h) ∧
    outp e' (imate x) = told_output (wanted e i) h <$> outp e (imate x).

(** What preparing the inputs in a list changes. *)
Record prepares (ks : list Ref) e e' : Prop := {
  pr_mates : same_mates e' e;
  pr_in : ∀ j, inp e' j = if decide (j ∈ ks) then with_prepared <$> inp e j else inp e j;
  pr_host : ∀ p, (∀ i x, i ∈ ks → inp e i = Some x → stage_ (imate x) ≠ p) → hst e' p = hst e p;
  pr_out : ∀ o, (∀ i x, i ∈ ks → inp e i = Some x → imate x ≠ o) → outp e' o = outp e o;
  pr_provided : ∀ i, i ∈ ks → provided e e' i;
  pr_world : world e' = told_parts e ks (world e);
}.

Lemma stage_PrepareInput_run i hi e :
  hst e (stage_ i) = Some hi → takes_packets hi (index_ i) →
  stage_PrepareInput (stage_ i) (index_ i) e = Ok (wanted e i, e).
Proof.
  intros Hh Ht. unfold stage_PrepareInput, TransformStage_PrepareInput, ActiveSinkStage_PrepareInput, ActiveMultistreamSinkStage_PrepareInput, wanted. run_bind (host_run _ _ _ Hh). rewrite Hh.
  destruct hi; try done; cbn in Ht; rewrite Ht; by run_bind (dcheckS_true e (0 =? 0)%nat eq_refl).
Qed.

(** [PrepareOutput], by its effect on the stage and the output. *)
Record outputs_prepared o (w : option Z) h e e' : Prop := {
  op_mates : same_mates e' e;
  op_in : ∀ j, inp e' j = inp e j;
  op_host : ∀ p, p ≠ stage_ o → hst e' p = hst e p;
  op_out : ∀ o', o' ≠ o → outp e' o' = outp e o';
  op_told_host : hst e' (stage_ o) = Some (told_host w h);
  op_told_output : outp e' o = told_output w h <$> outp e o;
  op_world : world e' = told_world w h (world e);
}.

Lemma hst_put_copy o a e p : hst (put_copy o a e) p = hst e p.
Proof. by apply hst_alter. Qed.
Lemma inp_put_copy o a e i : inp (put_copy o a e) i = inp e i.
Proof. by apply inp_alter. Qed.
Lemma outp_put_prepared i e o : outp (put_prepared i e) o = outp e o.
Proof. by apply outp_alter. Qed.
Lemma hst_put_prepared i e p : hst (put_prepared i e) p = hst e p.
Proof. by apply hst_alter. Qed.
Lemma hst_put_host_live p h h0 e : hst e p = Some h0 → hst (put_host p h e) p = Some h.
Proof. unfold hst. unfold put_host. rewrite stg_alter, decide_True by done. by destruct (stg e p). Qed.

(** The optional copy allocator. *)
Definition with_wanted (w : option Z) (y : Output) : Output :=
  match w with Some a => with_copy (Some a) y | None => y end.
Lemma copy_step p k w e y :
  wf (graph e) → outp e (mk_ref p k) = Some y → wired_out y →
  runs (match w with Some a => SetCopyAllocator p k (Some a) | None => mret tt end) e
    (λ _ e', same_mates e' e ∧ (∀ j, inp e' j = inp e j) ∧ (∀ q, hst e' q = hst e q) ∧
       (∀ o', o' ≠ mk_ref p k → outp e' o' = outp e o') ∧
       outp e' (mk_ref p k) = with_wanted w <$> outp e (mk_ref p k) ∧ world e' = world e).
Proof.
  intros W Hy Hw. destruct w as [a|].
  - eexists _, _. split; [by eapply SetCopyAllocator_run|]. split_and!; [| | | | |done].
    + by apply same_mates_copy.
    + intros j. by rewrite inp_put_copy.
    + intros q. by rewrite hst_put_copy.
    + intros o' Ho. by rewrite outp_put_copy, decide_False.
    + by rewrite outp_put_copy, decide_True.
  - apply runs_ret. split_and!; try done; [by apply same_mates_refl|by rewrite Hy].
Qed.

Lemma stage_PrepareOutput_runs o w h e y :
  wf (graph e) → hst e (stage_ o) = Some h → makes_packets h (index_ o) → outp e o = Some y → wired_out y →
  runs (stage_PrepareOutput (stage_ o) (index_ o) w) e
    (λ ks e', ks = (if is_transform h then [0%nat] else []) ∧ outputs_prepared o w h e e').
Proof.
  intros W Hh Hm Hy Hw. destruct o as [p k]. cbn [stage_ index_] in *. unfold stage_PrepareOutput, TransformStage_PrepareOutput, ActiveSourceStage_PrepareOutput, MultistreamSourceStage_PrepareOutput, ActiveMultistreamSourceStage_PrepareOutput.
  eapply runs_step; [by apply host_run|]. destruct h as [t a n|s r ps|s d|s c m n|s c m n b|s ins ua pending]; try done.
  - cbn in Hm. subst k. apply runs_dcheck; [done|]. eapply runs_step; [apply set_host_run|]. apply runs_ret.
    split; [done|]. split; try done.
    + by apply same_mates_host.
    + intros j. by rewrite inp_put_host.
    + intros q Hq. by rewrite hst_put_host, decide_False.
    + intros o' _. by rewrite outp_put_host.
    + by eapply hst_put_host_live.
    + rewrite outp_put_host, Hy. by destruct w.
  - cbn in Hm. subst k. apply runs_dcheck; [done|].
    eapply runs_bind with (Q := λ _ e', same_mates e' e ∧ (∀ j, inp e' j = inp e j) ∧ (∀ q, hst e' q = hst e q) ∧
      (∀ o', o' ≠ mk_ref p 0 → outp e' o' = outp e o') ∧
      outp e' (mk_ref p 0) = told_output w (ActiveSourceStage s r ps) <$> outp e (mk_ref p 0) ∧
      world e' = told_world w (ActiveSourceStage s r ps) (world e)).
    { unfold told_output, told_world. cbn [takes_allocator]. destruct (can_accept_allocator s).
      - eexists _, _. split; [reflexivity|]. split_and!; try done; [by apply same_mates_world|].
        rewrite Hy. change (outp e (mk_ref p 0) = (λ y, match w with Some _ | _ => y end) <$> Some y). rewrite Hy. by destruct w.
      - by eapply (copy_step p 0 w). }
    intros _ e1 (M & Hi & Hhs & Ho & Hc & Hwd). eapply runs_step; [apply set_host_run|]. apply runs_ret.
    split; [done|]. pose proof (same_mates_wf _ _ M W) as W1. split; try done.
    + eapply same_mates_trans; [exact M|]. by apply same_mates_host.
    + intros j. by rewrite inp_put_host.
    + intros q Hq. by rewrite hst_put_host, decide_False.
    + intros o' Hne. rewrite outp_put_host. by apply Ho.
    + eapply hst_put_host_live; by rewrite Hhs.
    + by rewrite outp_put_host.
  - apply outp_live in Hy as Hlive. destruct Hlive as (st & Hst & Hk). cbn in Hst, Hk.
    eapply runs_step; [by apply output_count_run|]. apply runs_dcheck; [apply bool_decide_eq_true_2; by eapply lookup_lt_Some|].
    eapply runs_bind; [by eapply (copy_step p k w)|]. intros _ e1 (M & Hi & Hhs & Ho & Hc & Hwd). apply runs_ret.
    split; [done|]. split; try done. by rewrite Hhs.
  - apply outp_live in Hy as Hlive. destruct Hlive as (st & Hst & Hk). cbn in Hst, Hk.
    eapply runs_step; [by apply output_count_run|]. apply runs_dcheck; [apply bool_decide_eq_true_2; by eapply lookup_lt_Some|].
    eapply runs_bind; [by eapply (copy_step p k w)|]. intros _ e1 (M & Hi & Hhs & Ho & Hc & Hwd). apply runs_ret.
    split; [done|]. split; try done. by rewrite Hhs.
Qed.

Lemma inp_ref e i x : wf (graph e) → inp e i = Some x → ref_bool i = true.
Proof.
  intros [Ow _] (st & Hst & _)%inp_live. pose proof (owned_addr _ Ow _ _ Hst).
  unfold ref_bool. apply negb_true_iff, Z.eqb_neq. lia.
Qed.

Lemma outp_ref e o y : wf (graph e) → outp e o = Some y → ref_bool o = true.
Proof.
  intros [Ow _] (st & Hst & _)%outp_live. pose proof (owned_addr _ Ow _ _ Hst).
  unfold ref_bool. apply negb_true_iff, Z.eqb_neq. lia.
Qed.

(** The visitor prepares one input and the output it is connected to. *)
Lemma prepare_visitor_runs i x hi h e :
  wf (graph e) → inp e i = Some x → wired_in x → prepared x = false →
  hst e (stage_ i) = Some hi → takes_packets hi (index_ i) →
  hst e (stage_ (imate x)) = Some h → makes_packets h (index_ (imate x)) →
  runs (prepare_visitor i (imate x)) e
    (λ ks e', ks = (if is_transform h then [0%nat] else []) ∧ prepares [i] e e').
Proof.
  intros W Hx Hw Hp Hhi Ht Hh Hm. pose proof W as [Ow _]. unfold prepare_visitor.
  eapply runs_step.
  { apply onG_run. apply dcheckG_run. run_bind (input_actual_run _ _ _ Ow Hx). by rewrite Hp. }
  eapply runs_step; [by apply (stage_PrepareInput_run i hi)|].
  eapply runs_step; [apply onG_run; by apply input_actual_run|].
  eapply runs_step; [by apply put_prepared_run|].
  pose proof (same_mates_prepared i e x W Hx Hw) as M1. pose proof (same_mates_wf _ _ M1 W) as W1.
  destruct (matched_in _ (proj2 W) i x Hx Hw) as (y & Hy & Ey).
  eapply runs_mono.
  { apply (stage_PrepareOutput_runs (imate x) (wanted e i) h (put_prepared i e) y); try done.
    - by rewrite hst_put_prepared.
    - by rewrite outp_put_prepared.
    - unfold wired_out. rewrite Ey. by apply (inp_ref e i x). }
  intros ks e2 [-> [M2 Hi2 Hh2 Ho2 Hth Hto Hwd]]. split; [done|]. split.
  - by eapply same_mates_trans.
  - intros j. rewrite Hi2, inp_put_prepared. destruct (decide (j = i)) as [->|Hne].
    + by rewrite (decide_True (P := i ∈ [i])) by apply list_elem_of_here.
    + by rewrite (decide_False (P := j ∈ [i])) by (by intros ?%list_elem_of_singleton).
  - intros p Hne. rewrite Hh2, hst_put_prepared; [done|]. intros ->. by apply (Hne i x (list_elem_of_here _ _)).
  - intros o Hne. rewrite Ho2, outp_put_prepared; [done|]. intros ->. by apply (Hne i x (list_elem_of_here _ _)).
  - intros j ->%list_elem_of_singleton x' h' Hx' Hh'. simplify_eq. by rewrite outp_put_prepared in Hto.
  - rewrite Hwd. unfold told_parts, feeder. cbn [foldl]. by rewrite Hx; cbn; rewrite Hh.
Qed.

Lemma foldl_ext_in {A B} (f g : A → B → A) (a : A) (l : list B) :
  (∀ a b, b ∈ l → f a b = g a b) → foldl f a l = foldl g a l.
Proof.
  revert a. induction l as [|b l IH]; intros a Hf; [done|]. cbn.
  rewrite (Hf a b) by apply list_elem_of_here. apply IH. intros a' b' Hb. by apply Hf, list_elem_of_further.
Qed.

(** A path through [i] and on, from what each half prepares. *)
Lemma prepares_cons i x ks e e1 e2 :
  inp e i = Some x →
  (∀ j z, j ∈ ks → inp e j = Some z → stage_ (imate z) ≠ stage_ (imate x)) →
  (∀ j, j ∈ ks → wanted e1 j = wanted e j) →
  prepares [i] e e1 → prepares ks e1 e2 → prepares (i :: ks) e e2.
Proof.
  intros Hx Hd Hw [M1 I1 H1 O1 P1 W1] [M2 I2 H2 O2 P2 W2].
  assert (∀ j z1, inp e1 j = Some z1 → ∃ z, inp e j = Some z ∧ imate z = imate z1) as Hback.
  { intros j z1. rewrite I1. case_decide; [|by eauto]. destruct (inp e j) as [z|]; [|done].
    cbn. intros [= <-]. by exists z. }
  split.
  - by eapply same_mates_trans.
  - intros j. rewrite I2, I1. destruct (decide (j = i)) as [->|Hne].
    + rewrite (decide_True (P := i ∈ [i])), (decide_True (P := i ∈ i :: ks)) by apply list_elem_of_here.
      case_decide; [|done]. by destruct (inp e i).
    + rewrite (decide_False (P := j ∈ [i])) by (by intros ?%list_elem_of_singleton).
      destruct (decide (j ∈ ks)) as [Hj|Hj]; [by rewrite decide_True by (by apply list_elem_of_further)|].
      rewrite decide_False; [done|]. by intros [|]%elem_of_cons.
  - intros p Hp. rewrite H2, H1; [done| |].
    + intros j z ->%list_elem_of_singleton. apply Hp, list_elem_of_here.
    + intros j z1 Hj (z & Hz & <-)%Hback. eapply Hp; [|exact Hz]. by apply list_elem_of_further.
  - intros o Hp. rewrite O2, O1; [done| |].
    + intros j z ->%list_elem_of_singleton. apply Hp, list_elem_of_here.
    + intros j z1 Hj (z & Hz & <-)%Hback. eapply Hp; [|exact Hz]. by apply list_elem_of_further.
  - intros j [->|Hj]%elem_of_cons z h Hz Hh.
    + simplify_eq. specialize (P1 i (list_elem_of_here _ _) x h Hx Hh). rewrite H2, O2; [exact P1| |];
        intros j z1 Hj (z & Hz' & Em)%Hback Heq; apply (Hd j z Hj Hz'); congruence.
    + assert (∃ z1, inp e1 j = Some z1 ∧ imate z1 = imate z) as (z1 & Hz1 & Em).
      { rewrite I1, Hz. case_decide; by eexists. }
      assert (∀ i' x', i' ∈ [i] → inp e i' = Some x' → stage_ (imate x') ≠ stage_ (imate z)) as Hne.
      { intros i' x' ->%list_elem_of_singleton. rewrite Hx. intros [= <-]. by apply not_eq_sym, (Hd j z). }
      specialize (P2 j Hj z1 h Hz1). rewrite Em, Hw, H1, O1 in P2 by (try done; intros ? ? Hin Hx' E; by eapply Hne; [..|rewrite E]).
      by apply P2.
  - rewrite W2, W1. unfold told_parts. cbn [foldl]. apply foldl_ext_in. intros w j Hj. rewrite Hw by done.
    assert (feeder e1 j = feeder e j) as ->; [|done]. unfold feeder.
    destruct (inp e j) as [z|] eqn:Hz; rewrite I1, Hz; [|by case_decide].
    assert (hst e1 (stage_ (imate z)) = hst e (stage_ (imate z))) as E.
    { apply H1. intros i' x' ->%list_elem_of_singleton. rewrite Hx. intros [= <-]. by apply not_eq_sym, (Hd j z). }
    by case_decide; cbn; rewrite E.
Qed.

(** Ranks that grow downstream. *)
Definition ranked (rank : Z → nat) e : Prop :=
  ∀ i x, inp e i = Some x → wired_in x → (rank (stage_ (imate x)) < rank (stage_ i))%nat.

Lemma path_ranks rank e i ks :
  ranked rank e → upstream_path e i ks →
  ∀ j z, j ∈ ks → inp e j = Some z →
    (rank (stage_ j) ≤ rank (stage_ i))%nat ∧ (rank (stage_ (imate z)) < rank (stage_ i))%nat.
Proof.
  intros R. induction 1 as [i x h Hx Hw _ _ _|i x h js j0 Hx Hw _ _ _ _ Hp IH]; intros j z.
  - intros ->%list_elem_of_singleton Hz. simplify_eq. split; [done|]. by apply R.
  - pose proof (R i x Hx Hw) as Hr. intros [->|Hj]%elem_of_cons Hz; [by simplify_eq|].
    destruct (IH j z Hj Hz) as [H1 H2]. cbn [j0 stage_] in *. lia.
Qed.

Lemma path_same e e1 i ks :
  upstream_path e i ks →
  (∀ j z, j ∈ ks → inp e j = Some z → ∃ z1, inp e1 j = Some z1 ∧ imate z1 = imate z) →
  (∀ j z, j ∈ ks → inp e j = Some z → hst e1 (stage_ (imate z)) = hst e (stage_ (imate z))) →
  upstream_path e1 i ks.
Proof.
  induction 1 as [i x h Hx Hw Hh Hm Ht|i x h js j0 Hx Hw Hh Hm Ht Hj0 Hp IH]; intros Hi Hs.
  - destruct (Hi i x (list_elem_of_here _ _) Hx) as (x1 & Hx1 & Em).
    pose proof (Hs i x (list_elem_of_here _ _) Hx) as Hh1. rewrite <- Em in *.
    eapply path_source; [done| |by rewrite Hh1|done..]. unfold wired_in in *. congruence.
  - destruct (Hi i x (list_elem_of_here _ _) Hx) as (x1 & Hx1 & Em).
    pose proof (Hs i x (list_elem_of_here _ _) Hx) as Hh1.
    eapply path_transform; rewrite ?Em; [done| |by rewrite Hh1|done|done| |].
    + unfold wired_in in *. congruence.
    + destruct Hj0 as [z Hz]. assert (j0 ∈ js) as Hin by (inversion Hp; apply list_elem_of_here).
      destruct (Hi j0 z (list_elem_of_further _ _ _ Hin) Hz) as (z1 & Hz1 & _). by exists z1.
    + apply IH; intros j z Hj; [apply Hi|apply Hs]; by apply list_elem_of_further.
Qed.

Lemma input_ref_run e i y : wf (graph e) → inp e i = Some y → onG (input_ref (stage_ i) (index_ i)) e = Ok (i, e).
Proof.
  intros [Ow _] Hy. apply onG_run. unfold input_ref. destruct i as [p k].
  by run_bind (dcheck_in_run _ _ _ Ow Hy).
Qed.

(** A visit of a path, one input at a time. *)
Lemma VisitUpstream_runs fuel (visitor : Ref → Ref → prog (engine PT) (list nat)) i x e Q R :
  wf (graph e) → inp e i = Some x → wired_in x → runs (visitor i (imate x)) e Q →
  (∀ ks e', Q ks e' → runs (rs ← make_refs input_ref (stage_ (imate x)) ks; VisitUpstream fuel visitor rs) e' R) →
  runs (VisitUpstream (S fuel) visitor [i]) e R.
Proof.
  intros [Ow _] Hx Hw Hv Hk. cbn [VisitUpstream].
  eapply runs_step; [by apply onG_run; eapply dcheck_in_run|].
  eapply runs_step; [apply onG_run, dcheckG_run; rewrite (input_connected_run _ _ _ Ow Hx); by rewrite Hw|].
  eapply runs_step; [by apply onG_run; eapply input_mate_run|].
  by eapply runs_bind.
Qed.

Lemma prepares_back ks e e1 j z1 :
  prepares ks e e1 → inp e1 j = Some z1 → ∃ z, inp e j = Some z ∧ imate z = imate z1.
Proof.
  intros P. rewrite (pr_in _ _ _ P). case_decide; [|by eauto]. destruct (inp e j) as [z|]; [|done].
  cbn. intros [= <-]. by exists z.
Qed.
Lemma prepares_forth ks e e1 j z :
  prepares ks e e1 → inp e j = Some z → ∃ z1, inp e1 j = Some z1 ∧ imate z1 = imate z ∧ (j ∉ ks → z1 = z).
Proof. intros P Hz. rewrite (pr_in _ _ _ P), Hz. case_decide; eexists; split_and!; done. Qed.

Lemma path_inputs e i ks : upstream_path e i ks → ∀ j, j ∈ ks → is_Some (inp e j).
Proof.
  induction 1 as [i x h Hx _ _ _ _|i x h js j0 Hx _ _ _ _ _ _ IH]; intros j.
  - intros ->%list_elem_of_singleton. by exists x.
  - intros [->|Hj]%elem_of_cons; [by exists x|by apply IH].
Qed.
Lemma make_refs_one e i y :
  wf (graph e) → inp e i = Some y → make_refs input_ref (stage_ i) [index_ i] e = Ok ([i], e).
Proof. intros W Hy. cbn [make_refs]. by run_bind (input_ref_run _ _ _ W Hy). Qed.

(** A path goes on from a transform as if its first input had not been prepared. *)
Lemma path_goes_on rank i x h js e e1 (j0 := mk_ref (stage_ (imate x)) 0) :
  ranked rank e → inp e i = Some x → wired_in x → hst e (stage_ (imate x)) = Some h → is_transform h = true →
  upstream_path e j0 js → prepares [i] e e1 →
  ranked rank e1 ∧ upstream_path e1 j0 js ∧ (∃ h1, hst e1 (stage_ j0) = Some h1 ∧ takes_packets h1 (index_ j0)) ∧
  (∀ j z, j ∈ js → inp e j = Some z → inp e1 j = Some z ∧ stage_ (imate z) ≠ stage_ (imate x)) ∧
  (∀ j, j ∈ js → is_Some (inp e j) → wanted e1 j = wanted e j).
Proof.
  intros R Hx Hw Hh Ht Hp P. pose proof (R i x Hx Hw) as Hr.
  pose proof (path_ranks rank e j0 js R Hp) as Hranks. cbn [j0 stage_] in Hranks.
  destruct (pr_provided _ _ _ P i (list_elem_of_here _ _) x h Hx Hh) as [Hpr _].
  destruct h as [t a n|?|?|?|?|?]; try done. cbn [is_transform] in Ht.
  assert (∀ j z, j ∈ js → inp e j = Some z → inp e1 j = Some z ∧ stage_ (imate z) ≠ stage_ (imate x)) as Hfar.
  { intros j z Hj Hz. destruct (Hranks j z Hj Hz) as [H1 H2]. split; [|intros E; rewrite E in H2; lia].
    rewrite (pr_in _ _ _ P), decide_False; [done|]. intros ->%list_elem_of_singleton. lia. }
  assert (∀ p, p ≠ stage_ (imate x) → hst e1 p = hst e p) as Hhost.
  { intros p Hne. apply (pr_host _ _ _ P). intros i' x' ->%list_elem_of_singleton. congruence. }
  split_and!; [| | |done|].
  - intros j z1 Hz1 Hw1. destruct (prepares_back _ _ _ _ _ P Hz1) as (z & Hz & Em). rewrite <- Em.
    apply R; [done|]. unfold wired_in in *. congruence.
  - apply (path_same e); [done| |].
    + intros j z Hj Hz. exists z. by destruct (Hfar j z Hj Hz).
    + intros j z Hj Hz. apply Hhost. by destruct (Hfar j z Hj Hz).
  - eexists. split; [exact Hpr|]. done.
  - intros j Hj [z Hz]. unfold wanted. destruct (decide (stage_ j = stage_ (imate x))) as [E|Hne]; [|by rewrite Hhost].
    by rewrite E, Hpr, Hh.
Qed.

Lemma PrepareInput_runs rank ks : ∀ fuel i hi e,
  wf (graph e) → ranked rank e → hst e (stage_ i) = Some hi → takes_packets hi (index_ i) →
  upstream_path e i ks → (∀ j x, j ∈ ks → inp e j = Some x → prepared x = false) →
  (length ks ≤ fuel)%nat →
  runs (PrepareInput fuel i) e (λ _ e', prepares ks e e').
Proof.
  unfold PrepareInput. induction ks as [|i' js IH]; intros fuel i hi e W R Hhi Ht Hpath Hpre Hf; [by inversion Hpath|].
  destruct fuel as [|fuel]; [cbn in Hf; lia|].
  inversion Hpath as [i0 x h Hx Hw Hh Hm Htr|i0 x h js' j0 Hx Hw Hh Hm Htr Hj0 Hp]; subst;
    (eapply (VisitUpstream_runs fuel prepare_visitor i' x);
     [done..|eapply (prepare_visitor_runs i' x hi h); try done; apply (Hpre i'); [apply list_elem_of_here|done]|]);
    intros ? e1 [-> P1]; rewrite Htr.
  - eapply runs_step; [done|]. destruct fuel; by apply runs_ret.
  - destruct (path_goes_on rank i' x h js e e1 R Hx Hw Hh Htr Hp P1) as (R1 & Hp1 & (h1 & Hh1 & Ht1) & Hfar & Hwant).
    pose proof (same_mates_wf _ _ (pr_mates _ _ _ P1) W) as W1.
    destruct Hj0 as [z0 Hz0]. destruct (prepares_forth _ _ _ _ _ P1 Hz0) as (z1 & Hz1 & _).
    eapply runs_step; [by apply (make_refs_one e1 j0 z1)|].
    eapply runs_mono; [eapply (IH fuel j0 h1 e1); try done|].
    + intros j y Hj Hy. destruct (prepares_back _ _ _ _ _ P1 Hy) as (z & Hz & _).
      destruct (Hfar j z Hj Hz) as [E _]. simplify_eq. eapply Hpre; [by apply list_elem_of_further|done].
    + cbn in Hf. lia.
    + intros ? e2 P2. eapply prepares_cons; [exact Hx| | |exact P1|exact P2].
      * intros j z Hj Hz. by apply (Hfar j z Hj Hz).
      * intros j Hj. apply Hwant; [done|]. by eapply path_inputs.
Qed.

(** ** Unpreparing *)

(** Unpreparing an output of the stage [p]: inputs stay as they are. *)
Record unprepares p e e' : Prop := {
  un_mates : same_mates e' e;
  un_in : ∀ j, inp e' j = inp e j;
  un_host : ∀ q, q ≠ p → hst e' q = hst e q;
}.

Lemma unprepare_copy p k e y :
  wf (graph e) → outp e (mk_ref p k) = Some y → wired_out y →
  runs (SetCopyAllocator p k None) e (λ _ e', unprepares p e e').
Proof.
  intros W Hy Hw. eexists _, _. split; [by eapply SetCopyAllocator_run|]. split.
  - by apply same_mates_copy.
  - intros j. by rewrite inp_put_copy.
  - intros q _. by rewrite hst_put_copy.
Qed.

Lemma stage_UnprepareOutput_runs o h e y :
  wf (graph e) → hst e (stage_ o) = Some h → makes_packets h (index_ o) → outp e o = Some y → wired_out y →
  runs (stage_UnprepareOutput (stage_ o) (index_ o)) e
    (λ ks e', ks = (if is_transform h then [0%nat] else []) ∧ unprepares (stage_ o) e e').
Proof.
  intros W Hh Hm Hy Hw. destruct o as [p k]. cbn [stage_ index_] in *. unfold stage_UnprepareOutput, TransformStage_UnprepareOutput, ActiveSourceStage_UnprepareOutput, MultistreamSourceStage_UnprepareOutput, ActiveMultistreamSourceStage_UnprepareOutput.
  eapply runs_step; [by apply host_run|]. destruct h as [t a n|s r ps|s d|s c m n|s c m n b|s ins ua pending]; try done.
  - eapply runs_step; [apply set_host_run|]. apply runs_ret. split; [done|]. split.
    + by apply same_mates_host.
    + intros j. by rewrite inp_put_host.
    + intros q Hq. by rewrite hst_put_host, decide_False.
  - cbn in Hm. subst k. apply runs_dcheck; [done|]. eapply runs_step; [done|].
    set (w' := set_allocator s None (world e)). pose proof (same_mates_world w' e W) as M.
    eapply runs_bind; [eapply (unprepare_copy p 0 (set_world w' e) y); [by eapply same_mates_wf|done..]|].
    intros _ e1 [M1 Hi Hh1]. apply runs_ret. split; [done|]. split; [by eapply same_mates_trans|exact Hi|exact Hh1].
  - apply outp_live in Hy as Hlive. destruct Hlive as (st & Hst & Hk). cbn in Hst, Hk.
    eapply runs_step; [by apply output_count_run|]. apply runs_dcheck; [apply bool_decide_eq_true_2; by eapply lookup_lt_Some|].
    eapply runs_bind; [by eapply (unprepare_copy p k)|]. intros ? e1 U. by apply runs_ret.
  - apply outp_live in Hy as Hlive. destruct Hlive as (st & Hst & Hk). cbn in Hst, Hk.
    eapply runs_step; [by apply output_count_run|]. apply runs_dcheck; [apply bool_decide_eq_true_2; by eapply lookup_lt_Some|].
    eapply runs_bind; [by eapply (unprepare_copy p k)|]. intros ? e1 U. by apply runs_ret.
Qed.

Lemma unprepare_visitor_runs i x hi h e :
  wf (graph e) → inp e i = Some x → wired_in x → prepared x = true → hst e (stage_ i) = Some hi →
  hst e (stage_ (imate x)) = Some h → makes_packets h (index_ (imate x)) →
  runs (unprepare_visitor i (imate x)) e
    (λ ks e', ks = (if is_transform h then [0%nat] else []) ∧ unprepares (stage_ (imate x)) e e').
Proof.
  intros W Hx Hw Hp Hhi Hh Hm. pose proof W as [Ow Ma]. unfold unprepare_visitor.
  eapply runs_step.
  { apply onG_run. apply dcheckG_run. run_bind (input_actual_run _ _ _ Ow Hx). by rewrite Hp. }
  eapply runs_step; [unfold stage_UnprepareInput; by run_bind (host_run _ _ _ Hhi)|].
  destruct (matched_in _ Ma i x Hx Hw) as (y & Hy & Ey).
  eapply stage_UnprepareOutput_runs; [done..|]. unfold wired_out. rewrite Ey. by apply (inp_ref e i x).
Qed.

Lemma UnprepareInput_runs rank ks : ∀ fuel i e,
  wf (graph e) → ranked rank e → upstream_path e i ks →
  (∀ j x, j ∈ ks → inp e j = Some x → prepared x = true) → (length ks ≤ fuel)%nat →
  runs (UnprepareInput fuel i) e (λ _ e', same_mates e' e ∧ ∀ j, inp e' j = inp e j).
Proof.
  unfold UnprepareInput. induction ks as [|i' js IH]; intros fuel i e W R Hpath Hpre Hf; [by inversion Hpath|].
  destruct fuel as [|fuel]; [cbn in Hf; lia|].
  inversion Hpath as [i0 x h Hx Hw Hh Hm Htr|i0 x h js' j0 Hx Hw Hh Hm Htr Hj0 Hp]; subst;
    pose proof (inp_live _ _ _ Hx) as (sti & Hsti & _);
    (eapply (VisitUpstream_runs fuel unprepare_visitor i' x);
     [done..|eapply (unprepare_visitor_runs i' x (hosted sti) h); try done;
       [apply (Hpre i'); [apply list_elem_of_here|done]|unfold hst; by rewrite Hsti]|]);
    intros ? e1 [-> U]; rewrite Htr; destruct U as [M Hi Hhs]; pose proof (same_mates_wf _ _ M W) as W1.
  - eapply runs_step; [done|]. destruct fuel; by apply runs_ret.
  - destruct Hj0 as [z0 Hz0]. pose proof Hz0 as Hz1. rewrite <- Hi in Hz1.
    eapply runs_step; [by apply (make_refs_one e1 j0 z0)|].
    pose proof (R i' x Hx Hw) as Hr. pose proof (path_ranks rank e j0 js R Hp) as Hranks. cbn [j0 stage_] in Hranks.
    eapply runs_mono; [apply (IH fuel j0 e1); try done|].
    + intros j z Hz. rewrite Hi in Hz. by apply R.
    + apply (path_same e); [done| |].
      * intros j z _ Hz. exists z. by rewrite Hi.
      * intros j z Hj Hz. apply Hhs. intros E. destruct (Hranks j z Hj Hz) as [_ H2]. rewrite E in H2. lia.
    + intros j z Hj. rewrite Hi. apply Hpre. by apply list_elem_of_further.
    + cbn in Hf. lia.
    + intros _ e2 [M2 Hi2]. split; [by eapply same_mates_trans|]. intros j. by rewrite Hi2.
Qed.

Lemma prog_bind_fault {S A B} (m : prog S A) (k : A → prog S B) s f : m s = Fault f → (m ≫= k) s = Fault f.
Proof. unfold mbind, prog_bind. by intros ->. Qed.
Lemma onG_fault {A} (m : prog (Graph Host) A) e f : m (graph e) = Fault f → onG m e = Fault f.
Proof. unfold onG. by intros ->. Qed.
Lemma dcheckG_fault (m : prog (Graph Host) bool) g :
  dcheck_is_on = true → m g = Ok (false, g) → dcheckG m g = Fault DCheckFailed.
Proof. intros Hd Hm. unfold dcheckG. rewrite Hd. run_bind Hm. unfold dcheckS, liftO, dcheck. by rewrite Hd. Qed.

(** A prepared input is not disconnected, nor prepared again. *)
Lemma DisconnectInput_refused i x e :
  wf (graph e) → inp e i = Some x → prepared x = true → onG (DisconnectInput i) e = Fault CheckFailed.
Proof.
  intros [Ow Ma] Hx Hp. pose proof (matched_prepared _ Ma i x Hx Hp) as Hw. unfold onG, DisconnectInput.
  destruct (matched_in _ Ma i x Hx Hw) as (y & Hy & _).
  run_bind (dcheck_in_run _ _ _ Ow Hx). run_bind (input_connected_run _ _ _ Ow Hx). rewrite Hw. cbn [negb].
  run_bind (input_mate_run _ _ _ Ow Hx). run_bind (output_actual_run _ _ _ Ow Hy).
  run_bind (input_actual_run _ _ _ Ow Hx). by rewrite Hp.
Qed.
Lemma PrepareInput_refused fuel i x e :
  dcheck_is_on = true → wf (graph e) → inp e i = Some x → prepared x = true →
  PrepareInput (S fuel) i e = Fault DCheckFailed.
Proof.
  intros Hd [Ow Ma] Hx Hp. pose proof (matched_prepared _ Ma i x Hx Hp) as Hw. unfold PrepareInput. cbn [VisitUpstream].
  run_bind (onG_run _ _ _ (dcheck_in_run _ _ _ Ow Hx)).
  run_bind (onG_run _ _ _ (dcheckG_run _ _ (eq_trans (input_connected_run _ _ _ Ow Hx) (f_equal (λ b, Ok (b, _)) Hw)))).
  run_bind (onG_run _ _ _ (input_mate_run _ _ _ Ow Hx)).
  assert (prepare_visitor i (imate x) e = Fault DCheckFailed) as Hv.
  { unfold prepare_visitor. apply prog_bind_fault, onG_fault, dcheckG_fault; [done|].
    run_bind (input_actual_run _ _ _ Ow Hx). by rewrite Hp. }
  by apply prog_bind_fault.
Qed.

(** ** Flushing *)

(** What flushing does to the stages at the ends of a connection. *)
Definition flushed_output (h : Host) : Host :=
  match h with
  | TransformStage t a _ => TransformStage t a true
  | ActiveSourceStage s r _ => ActiveSourceStage s r []
  | MultistreamSourceStage s _ _ _ => MultistreamSourceStage s None 0 0
  | ActiveMultistreamSourceStage s _ _ _ _ => ActiveMultistreamSourceStage s None 0 0 false
  | _ => h
  end.
Definition flushed_input k (h : Host) : Host :=
  match h with
  | ActiveSinkStage s _ => ActiveSinkStage s kNegative
  | ActiveMultistreamSinkStage s ins ua pending =>
      ActiveMultistreamSinkStage s (alter (λ si, mk_stage_input (allocated_ si) kNegative) k ins) ua
        (filter (λ j, j ≠ k) pending)
  | _ => h
  end.
Definition accepts_flush (h : Host) k : Prop :=
  match h with
  | TransformStage _ _ _ | ActiveSinkStage _ _ => k = 0%nat
  | ActiveMultistreamSinkStage _ ins _ _ => (k < length ins)%nat
  | _ => False
  end.

(** What flushing does outside the engine: packets that are dropped go back to their
    allocators, and the parts at the ends of a connection are told to flush. *)
Definition dropped (x : Packet) (w : World) : World :=
  match payload x, packet_allocator x with Some _, Some a => ReleasePayloadBuffer a x w | _, _ => w end.
Definition dropped_opt (x : option Packet) (w : World) : World := match x with Some x => dropped x w | None => w end.
Definition dropped_all (xs : list Packet) (w : World) : World := foldl (λ w x, dropped x w) w xs.
Definition flushed_output_world (h : Host) (w : World) : World :=
  match h with
  | TransformStage t _ _ => part_Flush t w
  | ActiveSourceStage s _ ps => dropped_all ps (part_Flush s w)
  | MultistreamSourceStage s c _ _ => dropped_opt c (part_Flush s w)
  | ActiveMultistreamSourceStage _ c _ _ _ => dropped_opt c w
  | _ => w
  end.
Definition flushed_input_world (h : Host) (x : option Packet) (w : World) : World :=
  match h with
  | TransformStage _ _ _ => dropped_opt x w
  | ActiveSinkStage s _ => part_Flush s (dropped_opt x w)
  | ActiveMultistreamSinkStage s _ _ _ => dropped_opt x (part_Flush s w)
  | _ => w
  end.
(** The connection from one output to one input, and a list of them in order. *)
Definition flushed_link e (l : Ref * Ref) (w : World) : World :=
  let w := match hst e (stage_ l.1) with Some h => flushed_output_world h w | None => w end in
  match hst e (stage_ l.2) with
  | Some h => flushed_input_world h (inp e l.2 ≫= packet_from_upstream) w
  | None => w
  end.
Definition flushed_parts e (ks js : list Ref) (w : World) : World :=
  foldl (λ w l, flushed_link e l w) w (zip ks js).

Lemma release_exact x e : release x e = Ok (tt, set_world (dropped x (world e)) e).
Proof. unfold release, dropped. destruct (payload x), (packet_allocator x); by destruct e. Qed.
Lemma release_opt_run x e : release_opt x e = Ok (tt, set_world (dropped_opt x (world e)) e).
Proof. destruct x as [x|]; [apply release_exact|by destruct e]. Qed.
Lemma release_all_run xs e : release_all xs e = Ok (tt, set_world (dropped_all xs (world e)) e).
Proof.
  revert e. induction xs as [|x xs IH]; intros e; [by destruct e|].
  cbn [release_all]. run_bind (release_exact x e). by rewrite IH.
Qed.

Lemma Output_Flush_run p k e y :
  outp e (mk_ref p k) = Some y → Output_Flush p k e = Ok (tt, put_demand (mk_ref p k) kNegative e).
Proof. intros Hy. unfold Output_Flush. run_bind (own_output_run _ _ _ _ Hy). by apply put_output_run. Qed.
Lemma Input_Flush_run p k e x :
  inp e (mk_ref p k) = Some x →
  Input_Flush p k e =
    Ok (tt, set_world (dropped_opt (packet_from_upstream x) (world e)) (put_packet (mk_ref p k) None e)).
Proof.
  intros Hx. unfold Input_Flush. run_bind (own_input_run _ _ _ _ Hx). run_bind (put_input_run _ None _ _ Hx).
  exact (release_opt_run _ (put_packet _ None e)).
Qed.

Lemma stage_FlushOutput_runs o h e y :
  hst e (stage_ o) = Some h → makes_packets h (index_ o) → outp e o = Some y →
  runs (stage_FlushOutput (stage_ o) (index_ o)) e
    (λ _ e', e' = put_host (stage_ o) (flushed_output h)
       (set_world (flushed_output_world h (world e)) (put_demand o kNegative e))).
Proof.
  intros Hh Hm Hy. destruct o as [p k]. cbn [stage_ index_] in *. unfold stage_FlushOutput, TransformStage_FlushOutput, ActiveSourceStage_FlushOutput, MultistreamSourceStage_FlushOutput, ActiveMultistreamSourceStage_FlushOutput.
  eapply runs_step; [by apply host_run|].
  apply outp_live in Hy as Hlive. destruct Hlive as (st & Hst & Hk). cbn in Hst, Hk.
  destruct h as [t a n|s r ps|s d|s c m n|s c m n b|s ins ua pending]; try done; cbn in Hm.
  - subst k. apply runs_dcheck; [done|]. eapply runs_step; [by eapply Output_Flush_run|].
    eapply runs_step; [done|]. by eexists _, _.
  - subst k. eapply runs_step; [by eapply Output_Flush_run|]. eapply runs_step; [done|].
    eapply runs_step; [apply release_all_run|]. by eexists _, _.
  - eapply runs_step; [by apply output_count_run|].
    apply runs_dcheck; [apply bool_decide_eq_true_2; by eapply lookup_lt_Some|].
    eapply runs_step; [by eapply Output_Flush_run|]. eapply runs_step; [done|].
    eapply runs_step; [apply release_opt_run|]. by eexists _, _.
  - eapply runs_step; [by apply output_count_run|].
    apply runs_dcheck; [apply bool_decide_eq_true_2; by eapply lookup_lt_Some|].
    eapply runs_step; [by eapply Output_Flush_run|].
    eapply runs_step; [apply release_opt_run|]. by eexists _, _.
Qed.

Lemma put_host_same p h e : hst e p = Some h → put_host p h e = e.
Proof.
  unfold hst, stg, put_host, alter_stage. cbn. destruct e as [[hp nx ss so si] s d b w]. cbn.
  intros Hh. unfold set_heap, set_graph. cbn. do 2 f_equal. apply alter_id. intros st Hst. rewrite Hst in Hh. cbn in Hh.
  injection Hh as <-. by destruct st.
Qed.
Lemma put_host_packet p k h1 h z w w' e :
  put_host p h (set_world w' (put_packet (mk_ref p k) z (put_host p h1 (set_world w e)))) =
    set_world w' (put_host p h (put_packet (mk_ref p k) z e)).
Proof.
  unfold put_host, put_packet, alter_stage, set_heap, set_graph, set_world. cbn. do 2 f_equal. apply map_eq. intros q.
  destruct (decide (q = p)) as [->|Hne]; [|by rewrite !lookup_alter_ne].
  rewrite !lookup_alter_eq. by destruct (heap (graph e) !! p).
Qed.

(** The order in which the sinks flush their input, their part and themselves matters to
    the parts only. *)
Lemma stage_FlushInput_runs i h e x :
  hst e (stage_ i) = Some h → accepts_flush h (index_ i) → inp e i = Some x →
  runs (stage_FlushInput (stage_ i) (index_ i)) e
    (λ ks e', ks = (if is_transform h then [0%nat] else []) ∧
       e' = set_world (flushed_input_world h (packet_from_upstream x) (world e))
              (put_host (stage_ i) (flushed_input (index_ i) h) (put_packet i None e))).
Proof.
  intros Hh Hm Hx. destruct i as [p k]. cbn [stage_ index_] in *. unfold stage_FlushInput, TransformStage_FlushInput, ActiveSinkStage_FlushInput, ActiveMultistreamSinkStage_FlushInput.
  eapply runs_step; [by apply host_run|].
  destruct h as [t a n|s r ps|s d|s c m n|s c m n b|s ins ua pending]; try done; cbn in Hm.
  - subst k. apply runs_dcheck; [done|].
    eapply runs_step; [by apply Input_Flush_run|]. apply runs_ret. split; [done|].
    cbn [flushed_input]. rewrite put_host_same; [done|by rewrite hst_put_packet].
  - subst k. eapply runs_step; [by apply Input_Flush_run|].
    eapply runs_step; [done|]. eapply runs_step; [apply set_host_run|]. by apply runs_ret.
  - eapply runs_step; [done|]. destruct (lookup_lt_is_Some_2 _ _ Hm) as [si Hsi]. rewrite Hsi.
    eapply runs_step; [apply set_host_run|].
    eapply runs_step; [apply (Input_Flush_run p k _ x); exact (eq_trans (inp_put_host _ _ _ _) Hx)|].
    eapply runs_step; [apply set_host_run|]. apply runs_ret. split; [done|].
    rewrite (list_alter_at (λ si, mk_stage_input (allocated_ si) kNegative) _ _ _ Hsi). apply put_host_packet.
Qed.

(** The connections from one output downstream to a sink: outputs, and the inputs they feed. *)
Inductive downstream_path e : Ref → list Ref → list Ref → Prop :=
  | flow_sink o y h (i := omate y) :
      outp e o = Some y → wired_out y → hst e (stage_ i) = Some h → accepts_flush h (index_ i) →
      is_transform h = false → downstream_path e o [o] [i]
  | flow_transform o y h ks js (i := omate y) (o1 := mk_ref (stage_ i) 0) :
      outp e o = Some y → wired_out y → hst e (stage_ i) = Some h → accepts_flush h (index_ i) →
      is_transform h = true → downstream_path e o1 ks js → downstream_path e o (o :: ks) (i :: js).

(** What flushing the outputs [ks] and the inputs [js] that they feed changes. *)
Record flushes (ks js : list Ref) e e' : Prop := {
  fl_mates : same_mates e' e;
  fl_in : ∀ j, inp e' j = if decide (j ∈ js) then with_packet None <$> inp e j else inp e j;
  fl_out : ∀ o, outp e' o = if decide (o ∈ ks) then with_demand kNegative <$> outp e o else outp e o;
  fl_source : ∀ o h, o ∈ ks → hst e (stage_ o) = Some h → hst e' (stage_ o) = Some (flushed_output h);
  fl_sink : ∀ i h, i ∈ js → hst e (stage_ i) = Some h → stage_ i ∉ (stage_ <$> ks) →
    hst e' (stage_ i) = Some (flushed_input (index_ i) h);
  fl_host : ∀ p, p ∉ (stage_ <$> ks) → p ∉ (stage_ <$> js) → hst e' p = hst e p;
}.

(** The output's end, and then the input's. *)
Lemma flushed_source o h w e e1 :
  wf (graph e) → hst e (stage_ o) = Some h →
  e1 = put_host (stage_ o) (flushed_output h) (set_world w (put_demand o kNegative e)) →
  flushes [o] [] e e1.
Proof.
  intros W Hh ->. split.
  - pose proof (same_mates_demand o kNegative e W) as Md. pose proof (same_mates_wf _ _ Md W) as Wd.
    pose proof (same_mates_world w _ Wd) as Mw. pose proof (same_mates_wf _ _ Mw Wd) as Ww.
    eapply same_mates_trans; [exact Md|]. eapply same_mates_trans; [exact Mw|]. by apply same_mates_host.
  - intros j. rewrite decide_False by apply not_elem_of_nil. rewrite inp_put_host. apply (inp_put_demand o kNegative e j).
  - intros j. rewrite outp_put_host. rewrite (outp_put_demand o kNegative e j : outp (set_world _ _) j = _).
    destruct (decide (j = o)) as [->|Hne]; [by rewrite decide_True by apply list_elem_of_here|].
    by rewrite decide_False by (by intros ?%list_elem_of_singleton).
  - intros o' h' ->%list_elem_of_singleton Hh'. assert (h' = h) as -> by congruence.
    eapply hst_put_host_live. exact (eq_trans (hst_put_demand _ _ _ _) Hh').
  - intros i h' []%not_elem_of_nil.
  - intros p Hp _. rewrite hst_put_host, decide_False; [apply (hst_put_demand o kNegative e p)|].
    intros ->. apply Hp, list_elem_of_here.
Qed.
Lemma flushed_sink i hi w e e1 :
  wf (graph e) → hst e (stage_ i) = Some hi →
  e1 = set_world w (put_host (stage_ i) (flushed_input (index_ i) hi) (put_packet i None e)) →
  flushes [] [i] e e1.
Proof.
  intros W Hh ->. pose proof (same_mates_packet i None e W) as Md. pose proof (same_mates_wf _ _ Md W) as Wd.
  pose proof (same_mates_host (stage_ i) (flushed_input (index_ i) hi) _ Wd) as Mh. split.
  - eapply same_mates_trans; [exact Md|]. eapply same_mates_trans; [exact Mh|]. apply same_mates_world.
    by eapply same_mates_wf.
  - intros j. etransitivity; [apply (inp_put_host _ _ (put_packet i None e))|]. rewrite inp_put_packet.
    destruct (decide (j = i)) as [->|Hne]; [by rewrite decide_True by apply list_elem_of_here|].
    by rewrite decide_False by (by intros ?%list_elem_of_singleton).
  - intros j. rewrite decide_False by apply not_elem_of_nil.
    etransitivity; [apply (outp_put_host _ _ (put_packet i None e))|]. apply outp_put_packet.
  - intros o h' []%not_elem_of_nil.
  - intros i' h' ->%list_elem_of_singleton Hh' _. assert (h' = hi) as -> by congruence.
    apply (hst_put_host_live _ _ hi (put_packet i None e)). by rewrite hst_put_packet.
  - intros p _ Hp. change (hst (put_host (stage_ i) (flushed_input (index_ i) hi)
      (put_packet i None e)) p = hst e p). rewrite hst_put_host, decide_False; [apply hst_put_packet|].
    intros ->. apply Hp, list_elem_of_here.
Qed.

(** Flushing one group of connections and then another that lies downstream of it. *)
Lemma flushes_app ks1 js1 ks2 js2 e e1 e2 :
  (∀ o1, o1 ∈ ks1 → (stage_ o1 ∉ (stage_ <$> ks2)) ∧ (stage_ o1 ∉ (stage_ <$> js2))) →
  (∀ i, i ∈ js1 → stage_ i ∉ (stage_ <$> js2)) →
  (∀ o h, o ∈ ks2 → hst e (stage_ o) = Some h → hst e1 (stage_ o) = Some h) →
  flushes ks1 js1 e e1 → flushes ks2 js2 e1 e2 → flushes (ks1 ++ ks2) (js1 ++ js2) e e2.
Proof.
  intros Hk Hj Ho [M1 I1 O1 S1 T1 H1] [M2 I2 O2 S2 T2 H2]. split.
  - by eapply same_mates_trans.
  - intros j. rewrite I2, I1. rewrite (decide_ext (j ∈ (js1 ++ js2)) (j ∈ js1 ∨ j ∈ js2)) by apply elem_of_app.
    repeat case_decide; try tauto. by destruct (inp e j).
  - intros o. rewrite O2, O1. rewrite (decide_ext (o ∈ (ks1 ++ ks2)) (o ∈ ks1 ∨ o ∈ ks2)) by apply elem_of_app.
    repeat case_decide; try tauto. by destruct (outp e o).
  - intros o h [Hin|Hin]%elem_of_app Hh.
    + destruct (Hk o Hin). rewrite H2 by done. by apply S1.
    + apply S2; [done|]. by apply Ho.
  - intros i h [Hin|Hin]%elem_of_app Hh Ht.
    + rewrite fmap_app, not_elem_of_app in Ht. destruct Ht. rewrite H2; [by apply T1|done|by apply Hj].
    + rewrite fmap_app, not_elem_of_app in Ht. destruct Ht. apply T2; [done| |done]. rewrite H1; [done..|].
      intros (j & E & Hj1)%list_elem_of_fmap. apply (Hj j Hj1). rewrite <- E. by apply list_elem_of_fmap_2.
  - intros p. rewrite !fmap_app, !not_elem_of_app. intros [??] [??]. rewrite H2 by done. by apply H1.
Qed.

Lemma flush_visitor_runs o y h hi e (i := omate y) :
  wf (graph e) → outp e o = Some y → wired_out y → stage_ o ≠ stage_ i →
  hst e (stage_ o) = Some h → makes_packets h (index_ o) → hst e (stage_ i) = Some hi → accepts_flush hi (index_ i) →
  (∀ x, inp e i = Some x → prepared x = true) →
  runs (flush_visitor o i) e
    (λ ks e', ks = (if is_transform hi then [0%nat] else []) ∧ flushes [o] [i] e e' ∧
       world e' = flushed_link e (o, i) (world e)).
Proof.
  intros W Hy Hw Hne Hh Hm Hhi Ha Hp. pose proof W as [Ow Ma]. unfold flush_visitor.
  destruct (matched_out _ Ma o y Hy Hw) as (x & Hx & Ex).
  eapply runs_step.
  { apply onG_run. apply dcheckG_run. run_bind (input_actual_run _ _ _ Ow Hx). by rewrite (Hp x Hx). }
  eapply runs_bind; [by eapply stage_FlushOutput_runs|]. intros ? e1 E1.
  pose proof (flushed_source o h _ e e1 W Hh E1) as F1. pose proof (same_mates_wf _ _ (fl_mates _ _ _ _ F1) W) as W1.
  assert (hst e1 (stage_ i) = Some hi) as Hhi1.
  { rewrite (fl_host _ _ _ _ F1); [done| |apply not_elem_of_nil]. intros E%list_elem_of_singleton. by apply Hne. }
  assert (inp e1 i = Some x) as Hx1 by (rewrite (fl_in _ _ _ _ F1), decide_False by apply not_elem_of_nil; done).
  eapply runs_mono; [by apply (stage_FlushInput_runs i hi e1 x)|].
  intros ks e2 [-> E2]. split; [done|]. split.
  2: { rewrite E2, E1. unfold flushed_link. cbn [fst snd]. change (inp e (omate y) = Some x) in Hx.
       fold i in Hx. by rewrite Hh, Hhi, Hx. }
  apply (flushes_app [o] [] [] [i] e e1 e2); [| | |done|by eapply flushed_sink].
  - intros o1 ->%list_elem_of_singleton. split; [apply not_elem_of_nil|]. intros E%list_elem_of_singleton. by apply Hne.
  - intros i1 []%not_elem_of_nil.
  - intros o1 ? []%not_elem_of_nil.
Qed.

Lemma flow_ranks rank e o ks js :
  wf (graph e) → ranked rank e → downstream_path e o ks js →
  (∀ o1, o1 ∈ ks → (rank (stage_ o) ≤ rank (stage_ o1))%nat) ∧
  (∀ i, i ∈ js → (rank (stage_ o) < rank (stage_ i))%nat).
Proof.
  intros W R. pose proof W as [_ Ma]. induction 1 as [o y h i Hy Hw _ _ _|o y h ks js i o1 Hy Hw _ _ _ _ [IH1 IH2]];
    (assert (rank (stage_ o) < rank (stage_ i))%nat as Hr by
       (destruct (matched_out _ Ma o y Hy Hw) as (x & Hx & Ex);
        rewrite <- Ex; apply R; [done|]; unfold wired_in; rewrite Ex; by apply (outp_ref e o y))).
  - by split; intros ? ->%list_elem_of_singleton.
  - cbn [o1 stage_] in *. split; intros o2 [->|Hin]%elem_of_cons; [done| |done|].
    + specialize (IH1 o2 Hin). lia.
    + specialize (IH2 o2 Hin). lia.
Qed.

Lemma flow_same e e1 o ks js :
  downstream_path e o ks js →
  (∀ o1 y, o1 ∈ ks → outp e o1 = Some y → ∃ y1, outp e1 o1 = Some y1 ∧ omate y1 = omate y) →
  (∀ i, i ∈ js → hst e1 (stage_ i) = hst e (stage_ i)) →
  downstream_path e1 o ks js.
Proof.
  induction 1 as [o y h i Hy Hw Hh Ha Ht|o y h ks js i o1 Hy Hw Hh Ha Ht Hp IH]; intros Ho Hs;
    destruct (Ho o y (list_elem_of_here _ _) Hy) as (y1 & Hy1 & Em);
    pose proof (Hs i (list_elem_of_here _ _)) as Hh1; rewrite Hh in Hh1; subst i; rewrite <- Em.
  - eapply flow_sink; rewrite ?Em; [done| |done..]. unfold wired_out in *. congruence.
  - eapply flow_transform; rewrite ?Em; [done| |done|done|done|].
    + unfold wired_out in *. congruence.
    + apply IH; [intros o2 y2 Ho2; apply Ho|intros i2 Hi2; apply Hs]; by apply list_elem_of_further.
Qed.

Lemma VisitDownstream_runs fuel (visitor : Ref → Ref → prog (engine PT) (list nat)) o y e Q R :
  wf (graph e) → outp e o = Some y → wired_out y → runs (visitor o (omate y)) e Q →
  (∀ ks e', Q ks e' → runs (rs ← make_refs output_ref (stage_ (omate y)) ks; VisitDownstream fuel visitor rs) e' R) →
  runs (VisitDownstream (S fuel) visitor [o]) e R.
Proof.
  intros [Ow _] Hy Hw Hv Hk. cbn [VisitDownstream].
  eapply runs_step; [by apply onG_run; eapply dcheck_out_run|].
  eapply runs_step; [apply onG_run, dcheckG_run; rewrite (output_connected_run _ _ _ Ow Hy); by rewrite Hw|].
  eapply runs_step; [by apply onG_run; eapply output_mate_run|].
  by eapply runs_bind.
Qed.
Lemma make_output_refs_one e o y :
  wf (graph e) → outp e o = Some y → make_refs output_ref (stage_ o) [index_ o] e = Ok ([o], e).
Proof.
  intros [Ow _] Hy. destruct o as [p k]. cbn [make_refs stage_ index_].
  assert (onG (output_ref p k) e = Ok (mk_ref p k, e)) as Hr.
  { apply onG_run. unfold output_ref. by run_bind (dcheck_out_run _ _ _ Ow Hy). }
  by run_bind Hr.
Qed.

(** A flow goes on from a transform as it was. *)
Lemma flow_goes_on rank o y h ks js e e1 (i := omate y) (o1 := mk_ref (stage_ i) 0) :
  wf (graph e) → ranked rank e → outp e o = Some y → wired_out y →
  hst e (stage_ i) = Some h → is_transform h = true → downstream_path e o1 ks js → flushes [o] [i] e e1 →
  ranked rank e1 ∧ downstream_path e1 o1 ks js ∧ hst e1 (stage_ o1) = Some h ∧
  (∀ p, p ≠ stage_ o → p ≠ stage_ i → hst e1 p = hst e p) ∧
  (∀ j, j ∈ js → stage_ j ≠ stage_ o ∧ stage_ j ≠ stage_ i) ∧ (∀ o2, o2 ∈ ks → stage_ o2 ≠ stage_ o) ∧
  (∀ j, j ∈ js → inp e1 j = inp e j).
Proof.
  intros W R Hy Hw Hh Ht Hp F. pose proof W as [_ Ma].
  destruct (matched_out _ Ma o y Hy Hw) as (x & Hx & Ex).
  assert (rank (stage_ o) < rank (stage_ i))%nat as Hr.
  { rewrite <- Ex. apply R; [done|]. unfold wired_in. rewrite Ex. by apply (outp_ref e o y). }
  destruct (flow_ranks rank e o1 ks js W R Hp) as [Hr1 Hr2]. cbn [o1 stage_] in Hr1, Hr2.
  assert (∀ p, p ≠ stage_ o → p ≠ stage_ i → hst e1 p = hst e p) as Hhost.
  { intros p H1 H2. apply (fl_host _ _ _ _ F); by intros ?%list_elem_of_singleton. }
  assert (∀ j, j ∈ js → stage_ j ≠ stage_ o ∧ stage_ j ≠ stage_ i) as Hj.
  { intros j Hin%Hr2. split; intros E; rewrite E in Hin; lia. }
  assert (hst e1 (stage_ o1) = Some h) as Hh1.
  { change (hst e1 (stage_ i) = Some h). rewrite (fl_sink _ _ _ _ F i h (list_elem_of_here _ _) Hh); [by destruct h|].
    intros E%list_elem_of_singleton. rewrite E in Hr. lia. }
  split_and!; try done.
  - intros j x1. rewrite (fl_in _ _ _ _ F). case_decide; [|by apply R].
    destruct (inp e j) as [x0|] eqn:E; [|done]. cbn. intros [= <-] Hw1. by apply (R j x0).
  - apply (flow_same e); [done| |].
    + intros o2 y2 _ Hy2. rewrite (fl_out _ _ _ _ F), Hy2. case_decide; by eexists.
    + intros j Hin. destruct (Hj j Hin). by apply Hhost.
  - intros o2 Hin%Hr1 E. rewrite E in Hin. lia.
  - intros j Hin. rewrite (fl_in _ _ _ _ F), decide_False; [done|]. intros ->%list_elem_of_singleton.
    by destruct (Hj i Hin).
Qed.

(** The connections further down have the same effect before and after the first is flushed. *)
Lemma flushed_parts_same e e1 ks js w :
  (∀ o, o ∈ ks → hst e1 (stage_ o) = hst e (stage_ o)) →
  (∀ j, j ∈ js → hst e1 (stage_ j) = hst e (stage_ j) ∧ inp e1 j = inp e j) →
  flushed_parts e1 ks js w = flushed_parts e ks js w.
Proof.
  intros Ho Hj. unfold flushed_parts. apply foldl_ext_in. intros w' [o j] Hin. unfold flushed_link. cbn [fst snd].
  destruct (Hj j) as [-> ->]; [by eapply elem_of_zip_r|]. by rewrite Ho by (by eapply elem_of_zip_l).
Qed.

Lemma FlushOutput_visits rank ks : ∀ js fuel o h e,
  wf (graph e) → ranked rank e → hst e (stage_ o) = Some h → makes_packets h (index_ o) →
  downstream_path e o ks js → (∀ i x, i ∈ js → inp e i = Some x → prepared x = true) →
  (length ks ≤ fuel)%nat →
  runs (VisitDownstream fuel flush_visitor [o]) e
    (λ _ e', flushes ks js e e' ∧ world e' = flushed_parts e ks js (world e)).
Proof.
  induction ks as [|o' ks IH]; intros js fuel o h e W R Hho Hm Hpath Hpre Hf; [by inversion Hpath|].
  destruct fuel as [|fuel]; [cbn in Hf; lia|].
  inversion Hpath as [o0 y hi i Hy Hw Hhi Ha Ht|o0 y hi ks' js' i o1 Hy Hw Hhi Ha Ht Hp]; subst;
    (assert (stage_ o' ≠ stage_ i) as Hne by
       (intros E; destruct (flow_ranks rank e o' _ _ W R Hpath) as [_ Hr];
        specialize (Hr i (list_elem_of_here _ _)); rewrite E in Hr; lia));
    (eapply (VisitDownstream_runs fuel flush_visitor o' y);
     [done..|eapply (flush_visitor_runs o' y h hi); try done; intros x0; apply Hpre; apply list_elem_of_here|]);
    intros ? e1 (-> & F & Hwd); rewrite Ht.
  - eapply runs_step; [done|]. destruct fuel; by apply runs_ret.
  - destruct (flow_goes_on rank o' y hi ks js' e e1 W R Hy Hw Hhi Ht Hp F) as (R1 & Hp1 & Hh1 & Hhost & Hj & Hk & Hin).
    pose proof (same_mates_wf _ _ (fl_mates _ _ _ _ F) W) as W1.
    assert (∃ z, outp e1 o1 = Some z) as [z Hz] by (inversion Hp1; by eexists).
    assert (∀ o2, o2 ∈ ks → hst e1 (stage_ o2) = hst e (stage_ o2)) as Hks.
    { intros o2 Ho2. destruct (decide (stage_ o2 = stage_ i)) as [E|Hn]; [|rewrite Hhost; auto].
      rewrite E in *. etransitivity; [exact Hh1|congruence]. }
    eapply runs_step; [by apply (make_output_refs_one e1 o1 z)|].
    eapply runs_mono; [eapply (IH js' fuel o1 hi e1); try done|].
    + by destruct hi.
    + intros j x1 Hj1. rewrite (Hin j Hj1). eapply Hpre. by apply list_elem_of_further.
    + cbn in Hf. lia.
    + intros ? e2 [F2 Hwd2]. split.
      * apply (flushes_app [o'] [i] ks js' e e1 e2); [| | |done|done].
        -- intros ? ->%list_elem_of_singleton. split; intros (j & E & Hj1)%list_elem_of_fmap;
             [by apply (Hk j Hj1)|by destruct (Hj j Hj1)].
        -- intros ? ->%list_elem_of_singleton (j & E & Hj1)%list_elem_of_fmap. by destruct (Hj j Hj1).
        -- intros o2 h2 Ho2 Hh2. by rewrite Hks.
      * rewrite Hwd2, Hwd. etransitivity; [apply (flushed_parts_same e e1); [done|]|done].
        intros j Hj1. split; [|by apply Hin]. apply Hhost; by apply Hj.
Qed.

(** ** Properties *)

(** C22. Preparing an input prepares everything upstream of it: when the inputs from [i] up
    to a source are connected and not prepared yet, [PrepareInput] returns without a failed
    check, exactly those inputs become prepared, and the stage and the output that feed each
    of them, and no others, are told the allocator that the input insists on: a transform
    keeps it, the default if there is none; a source that takes allocators is given it, or
    the default, by a call of [set_allocator], in the order of the visit; and an output that
    cannot use the allocator copies packets to it.  No other part is called, and links,
    backlogs and the other members of stages stay as they are. *)
Theorem PrepareInput_spec rank fuel i ks hi e :
  wf (graph e) → ranked rank e → hst e (stage_ i) = Some hi → takes_packets hi (index_ i) →
  upstream_path e i ks → (∀ j x, j ∈ ks → inp e j = Some x → prepared x = false) →
  (length ks ≤ fuel)%nat →
  runs (PrepareInput fuel i) e (λ _ e', prepares ks e e' ∧ wf (graph e')).
Proof.
  intros W R Hh Ht Hp Hpre Hf. eapply runs_mono; [by eapply PrepareInput_runs|].
  intros ? e' P. split; [done|]. eapply same_mates_wf; [apply P|done].
Qed.

(** Unpreparing does not undo preparing: [UnprepareInput] returns, but no input's
    prepared flag has changed, so the graph still refuses to disconnect the input, and
    preparing it again fails its check. *)
Lemma unprepare_defect rank fuel i x ks e :
  wf (graph e) → ranked rank e → upstream_path e i ks → inp e i = Some x →
  (∀ j x, j ∈ ks → inp e j = Some x → prepared x = true) → (length ks ≤ fuel)%nat →
  runs (UnprepareInput fuel i) e (λ _ e',
    inp e' i = Some x ∧ onG (DisconnectInput i) e' = Fault CheckFailed ∧
    (dcheck_is_on = true → PrepareInput fuel i e' = Fault DCheckFailed)).
Proof.
  intros W R Hp Hx Hpre Hf. assert (i ∈ ks) as Hin by (inversion Hp; apply list_elem_of_here).
  pose proof (Hpre i x Hin Hx) as Hpx.
  assert (∃ f, fuel = S f) as [f ->] by (destruct ks, fuel; [set_solver|set_solver|cbn in Hf; lia|by eexists]).
  eapply runs_mono; [by eapply UnprepareInput_runs|]. intros _ e' [M Hi].
  pose proof (same_mates_wf _ _ M W) as W'. rewrite <- Hi in Hx. split_and!; [done|..].
  - by eapply DisconnectInput_refused.
  - intros Hd. by eapply PrepareInput_refused.
Qed.

(** C23. Flushing an output flushes everything downstream of it, and nothing else: when the
    connections from [o] down to a sink are prepared, [Graph::FlushOutput] returns without
    a failed check; the outputs on the way have no demand, the inputs they feed hold no
    packet, sources have dropped the packets they queued, transforms start their next
    packet afresh, and the sink has no demand and no pending update of the input.  Outside
    the engine, connection by connection, the parts at both ends are told to flush and the
    dropped packets go back to their allocators, in the order of the code (the part of an
    [ActiveMultistreamSourceStage] is not told, and a transform is told once, for its
    output).  Links, backlogs, callbacks and every other stage stay as they are. *)
Theorem FlushOutput_spec rank fuel o ks js h e :
  wf (graph e) → ranked rank e → hst e (stage_ o) = Some h → makes_packets h (index_ o) →
  downstream_path e o ks js → (∀ i x, i ∈ js → inp e i = Some x → prepared x = true) →
  (length ks ≤ fuel)%nat →
  runs (Graph_FlushOutput fuel o) e
    (λ _ e', flushes ks js e e' ∧ world e' = flushed_parts e ks js (world e) ∧ wf (graph e')).
Proof.
  intros W R Hh Hm Hp Hpre Hf.
  assert (∃ y, outp e o = Some y ∧ wired_out y) as (y & Hy & Hw) by (inversion Hp; by eexists).
  unfold Graph_FlushOutput, FlushOutput. apply runs_dcheck; [by eapply outp_ref|].
  eapply runs_step; [apply onG_run, (output_connected_run _ _ _ (proj1 W) Hy)|]. rewrite Hw.
  eapply runs_mono; [by eapply FlushOutput_visits|].
  intros ? e' [F Hwd]. split_and!; [done..|]. eapply same_mates_wf; [apply F|done].
Qed.

(** Flushing an output of an active multistream source forgets the packet it has asked
    its source for: after the flush, the source's answer to that request fails the stage's
    check that a request is outstanding. *)
Lemma flush_outstanding_defect fuel p k j s c n m y x e :
  dcheck_is_on = true → hst e p = Some (ActiveMultistreamSourceStage s c n m true) →
  outp e (mk_ref p k) = Some y → is_Some (outp e (mk_ref p j)) →
  runs (stage_FlushOutput p k) e (λ _ e', multistream_supply fuel p j (Some x) e' = Fault DCheckFailed).
Proof.
  intros Hd Hh Hy [z Hz]. eapply runs_mono; [by eapply (stage_FlushOutput_runs (mk_ref p k))|].
  intros _ e' ->. set (e' := put_host _ _ _).
  assert (hst e' p = Some (ActiveMultistreamSourceStage s None 0 0 false)) as Hh'.
  { apply (hst_put_host_live p _ (ActiveMultistreamSourceStage s c n m true)).
    exact (eq_trans (hst_put_demand _ _ _ _) Hh). }
  assert (∃ z, outp e' (mk_ref p j) = Some z) as (z' & (st & Hst & Hj)%outp_live).
  { subst e'. rewrite outp_put_host. destruct (decide (mk_ref p j = mk_ref p k)) as [E|Hne].
    - eexists. etransitivity; [apply outp_put_demand|]. by rewrite decide_True, Hy.
    - eexists. etransitivity; [apply outp_put_demand|]. by rewrite decide_False, Hz. }
  cbn [stage_ index_] in *. unfold multistream_supply. run_bind (host_run _ _ _ Hh').
  run_bind (output_count_run _ _ _ Hst). run_bind (dcheckS_true e' _ (bool_decide_eq_true_2 (@None Packet = None) eq_refl)).
  run_bind (dcheckS_true e' (bool_decide (j < length (outputs st))%nat)
    (bool_decide_eq_true_2 _ (lookup_lt_Some _ _ _ Hj))).
  run_bind (dcheckS_true e' (bool_decide (is_Some (Some x))) (bool_decide_eq_true_2 _ (ex_intro _ x eq_refl))).
  unfold dcheckS, dcheck. by rewrite Hd.
Qed.

End Prepare.

End EnginePrepare.
