(* ===== verification/EngineInputs.v ===== *)
(** The inputs of a multistream sink (active_multistream_sink_stage.cc): which of them are
    allocated, and what allocating and releasing them keeps. *)

From S2P Require Import Prelude Packet Graph Engine EngineState.

Module EngineInputs.
Import Packet Graph Engine EngineState.

(** ** The set of allocated inputs *)

Definition taken (ins : list StageInput) (k : nat) : Prop := ∃ si, ins !! k = Some si ∧ allocated_ si = true.

(** There is always an input; the free ones are listed in increasing order; the last input
    is allocated, unless it is the only one. *)
Record slots_ok (ins : list StageInput) (unallocated : list nat) : Prop := {
  slots_some : ins ≠ [];
  slots_sorted : Sorted.StronglySorted lt unallocated;
  slots_free : ∀ k, k ∈ unallocated ↔ ∃ si, ins !! k = Some si ∧ allocated_ si = false;
  slots_last : length ins = 1%nat ∨ taken ins (length ins - 1);
}.

Lemma taken_lt ins k : taken ins k → (k < length ins)%nat.
Proof. intros (si & H & _). by apply lookup_lt_Some in H. Qed.
Lemma taken_or_free ins ua k : slots_ok ins ua → (k < length ins)%nat → taken ins k ∨ k ∈ ua.
Proof.
  intros S [si Hsi]%lookup_lt_is_Some_2. destruct (allocated_ si) eqn:E; [left; by exists si|].
  right. apply (slots_free _ _ S). by exists si.
Qed.
Lemma taken_not_free ins ua k : slots_ok ins ua → taken ins k → k ∉ ua.
Proof. intros S (si & Hsi & Ha) (si' & Hsi' & Ha')%(slots_free _ _ S). congruence. Qed.

Lemma taken_insert ins k j a d :
  (k < length ins)%nat → taken (<[k := mk_stage_input a d]> ins) j ↔ (if decide (j = k) then a = true else taken ins j).
Proof.
  intros Hk. unfold taken. destruct (decide (j = k)) as [->|Hne].
  - rewrite list_lookup_insert_eq by done. split; [by intros (si & [= <-] & ?)|intros ->; by eexists].
  - by rewrite list_lookup_insert_ne.
Qed.

(** *** Allocation *)

Lemma slots_append ins d :
  slots_ok ins [] → slots_ok (ins ++ [mk_stage_input true d]) [] ∧
  ∀ j, taken (ins ++ [mk_stage_input true d]) j ↔ taken ins j ∨ j = length ins.
Proof.
  intros S. split.
  - split.
    + by destruct ins.
    + constructor.
    + intros k. split; [by intros ?%elem_of_nil|]. intros (si & Hsi & Ha). apply lookup_app_Some in Hsi as [Hsi|[_ Hsi]].
      * apply (slots_free _ _ S). by exists si.
      * by apply list_lookup_singleton_Some in Hsi as [_ <-].
    + right. exists (mk_stage_input true d). split; [|done]. rewrite length_app. cbn. by rewrite Nat.add_sub, list_lookup_middle.
  - intros j. unfold taken. split.
    + intros (si & [Hsi|[Hj Hsi]]%lookup_app_Some & Ha); [left; by exists si|].
      apply list_lookup_singleton_Some in Hsi as [Hj' _]. right. lia.
    + intros [(si & Hsi & Ha)| ->]; [exists si; split; [by apply lookup_app_l_Some|done]|].
      eexists. by rewrite list_lookup_middle.
Qed.

Lemma slots_reuse ins k ua d :
  slots_ok ins (k :: ua) → slots_ok (<[k := mk_stage_input true d]> ins) ua ∧
  ∀ j, taken (<[k := mk_stage_input true d]> ins) j ↔ taken ins j ∨ j = k.
Proof.
  intros S. pose proof (proj1 (slots_free _ _ S k) (list_elem_of_here _ _)) as (si & Hsi & Ha).
  pose proof (lookup_lt_Some _ _ _ Hsi) as Hk.
  pose proof (Sorted.StronglySorted_inv (slots_sorted _ _ S)) as [Hs Hlt]. rewrite Forall_forall in Hlt.
  assert (∀ j, taken (<[k := mk_stage_input true d]> ins) j ↔ taken ins j ∨ j = k) as Ht.
  { intros j. rewrite taken_insert by done. case_decide as E; [naive_solver|]. tauto. }
  split; [|done]. split.
  - intros E%(f_equal length). rewrite length_insert in E. cbn in E. lia.
  - done.
  - intros j. destruct (decide (j = k)) as [->|Hne].
    + rewrite list_lookup_insert_eq by done. split; [intros Hin%Hlt; lia|]. by intros (? & [= <-] & ?).
    + rewrite list_lookup_insert_ne by done. rewrite <- (slots_free _ _ S), elem_of_cons. naive_solver.
  - rewrite length_insert. destruct (slots_last _ _ S) as [H|H]; [by left|]. right. apply Ht. by left.
Qed.

(** *** Release *)

Definition trimmed (ins : list StageInput) : list StageInput := reverse (drop_unallocated (reverse ins)).

Lemma drop_app x l :
  drop_unallocated (reverse (l ++ [x])) =
    match reverse l with [] => [x] | _ :: _ => if allocated_ x then x :: reverse l else drop_unallocated (reverse l) end.
Proof. rewrite reverse_app. cbn. by destruct (reverse l). Qed.

(** Dropping free inputs from the end keeps a prefix, in which the last input is allocated
    or is the only one. *)
Lemma trimmed_spec ins :
  ins ≠ [] →
  ∃ n, trimmed ins = take n ins ∧ (0 < n ≤ length ins)%nat ∧ (n = 1%nat ∨ taken ins (n - 1)) ∧
    ∀ j, (n ≤ j)%nat → ¬ taken ins j.
Proof.
  unfold trimmed. induction ins as [|x l IH] using rev_ind; [done|]. intros _. rewrite drop_app.
  destruct (reverse l) as [|y r] eqn:E.
  - apply (f_equal reverse) in E. rewrite reverse_involutive in E. subst l. exists 1%nat. cbn. split_and!; auto.
    intros j Hj [si [Hsi _]]. apply lookup_lt_Some in Hsi. cbn in Hsi. lia.
  - rewrite <- E in *. assert (l ≠ []) as Hl by (intros ->; done). destruct (allocated_ x) eqn:Ex.
    + exists (length (l ++ [x])). rewrite length_app. cbn [length]. split_and!.
      * rewrite <- reverse_snoc, reverse_involutive.
        by rewrite take_ge by (rewrite length_app; cbn; lia).
      * lia.
      * lia.
      * right. rewrite Nat.add_sub. exists x. by rewrite list_lookup_middle.
      * intros j Hj H%taken_lt. rewrite length_app in H. cbn in H. lia.
    + destruct (IH Hl) as (n & Hn & Hlen & Hlast & Hfree). exists n. rewrite Hn, length_app. cbn [length]. split_and!; [|lia..| |].
      * by rewrite take_app_le by lia.
      * destruct Hlast as [H|(si & H & Ha)]; [by left|right]. exists si. split; [by apply lookup_app_l_Some|done].
      * intros j Hj (si & [Hsi|[Hj' Hsi]]%lookup_app_Some & Ha); [by apply (Hfree j Hj); exists si|].
        apply list_lookup_singleton_Some in Hsi as [_ <-]. congruence.
Qed.

Lemma StronglySorted_filter_lt (P : nat → Prop) `{!∀ j, Decision (P j)} l :
  Sorted.StronglySorted lt l → Sorted.StronglySorted lt (filter P l).
Proof.
  induction 1 as [|x l Hs IH Hf]; [constructor|]. rewrite filter_cons. case_decide; [|done].
  constructor; [done|]. rewrite Forall_forall in *. intros j [_ Hj]%list_elem_of_filter. by apply Hf.
Qed.

Lemma slots_trim ins ua k si :
  slots_ok ins ua → ins !! k = Some si → allocated_ si = true → k = (length ins - 1)%nat → k ≠ 0%nat →
  let ins' := <[k := mk_stage_input false (input_demand_ si)]> ins in
  let n := length (trimmed ins') in
  slots_ok (trimmed ins') (filter (λ j, (j < n ∨ length ins' ≤ j)%nat) ua) ∧ (n ≤ length ins)%nat ∧
  ∀ j, taken (trimmed ins') j ↔ taken ins j ∧ j ≠ k.
Proof.
  intros S Hsi Ha Hk Hk0 ins' n. pose proof (lookup_lt_Some _ _ _ Hsi) as Hlt.
  assert (ins' ≠ []) as Hne by (intros E%(f_equal length); subst ins'; rewrite length_insert in E; cbn in E; lia).
  destruct (trimmed_spec ins' Hne) as (m & Hm & Hlen & Hlast & Hfree).
  assert (length ins' = length ins) as Hl by apply length_insert.
  assert (n = m) as Hn by (subst n; rewrite Hm, length_take; lia). rewrite Hm, Hn.
  assert (∀ j, taken ins' j ↔ taken ins j ∧ j ≠ k) as Ht.
  { intros j. subst ins'. rewrite taken_insert by done. case_decide; naive_solver. }
  assert (∀ j, taken (take m ins') j ↔ taken ins j ∧ j ≠ k) as Ht'.
  { intros j. rewrite <- Ht. unfold taken. destruct (decide (j < m)%nat) as [Hj|Hj].
    - by rewrite lookup_take_lt.
    - rewrite lookup_take_ge by lia. split; [by intros (? & ? & ?)|]. intros H. destruct (Hfree j); [lia|exact H]. }
  assert (k ∉ ua) as Hkua by (apply (taken_not_free ins); [done|by exists si]).
  assert (m ≤ k)%nat as Hmk.
  { destruct (decide (m ≤ k)%nat) as [|Hgt]; [done|]. destruct Hlast as [H|H]; [lia|].
    replace (m - 1)%nat with k in H by lia. by apply Ht in H as [_ []]. }
  split; [|split; [lia|done]]. split.
  - intros E%(f_equal length). rewrite length_take in E. cbn in E. lia.
  - by apply StronglySorted_filter_lt, (slots_sorted _ _ S).
  - intros j. rewrite list_elem_of_filter. split.
    + intros [Hj Hin]. pose proof (proj1 (slots_free _ _ S j) Hin) as (sj & Hsj & Haj).
      exists sj. split; [|done]. pose proof (lookup_lt_Some _ _ _ Hsj). rewrite lookup_take_lt by lia.
      subst ins'. rewrite list_lookup_insert_ne; [done|]. by intros ->.
    + intros (sj & Hsj & Haj). apply lookup_take_Some in Hsj as [Hsj Hj]. split; [by left|].
      apply (slots_free _ _ S). exists sj. split; [|done]. subst ins'. destruct (decide (j = k)) as [->|Hjk].
      * lia.
      * by rewrite list_lookup_insert_ne in Hsj.
  - rewrite length_take. rewrite Nat.min_l by lia. destruct Hlast as [H|(sj & H & Haj)]; [by left|right].
    exists sj. split; [|done]. by rewrite lookup_take_lt by lia.
Qed.

Lemma insert_sorted_in k l j : j ∈ insert_sorted k l ↔ j = k ∨ j ∈ l.
Proof.
  induction l as [|x l IH]; cbn [insert_sorted]; [apply elem_of_cons|]. destruct (Nat.ltb_spec k x); [apply elem_of_cons|].
  destruct (Nat.eqb_spec k x) as [->|]; rewrite !elem_of_cons; [|rewrite IH]; tauto.
Qed.
Lemma insert_sorted_sorted k l : Sorted.StronglySorted lt l → Sorted.StronglySorted lt (insert_sorted k l).
Proof.
  induction 1 as [|x l Hs IH Hf]; cbn [insert_sorted]; [by repeat constructor|]. destruct (Nat.ltb_spec k x) as [Hlt|Hge].
  - constructor; [by constructor|]. constructor; [done|]. eapply Forall_impl; [exact Hf|]. cbn. lia.
  - destruct (Nat.eqb_spec k x) as [->|Hne]; [by constructor|]. constructor; [done|].
    rewrite Forall_forall in *. intros j [->|Hj]%insert_sorted_in; [lia|by apply Hf].
Qed.

Lemma slots_free_inner ins ua k si :
  slots_ok ins ua → ins !! k = Some si → allocated_ si = true → (k = 0%nat ∨ k ≠ (length ins - 1)%nat) →
  let ins' := <[k := mk_stage_input false (input_demand_ si)]> ins in
  slots_ok ins' (insert_sorted k ua) ∧ ∀ j, taken ins' j ↔ taken ins j ∧ j ≠ k.
Proof.
  intros S Hsi Ha Hk ins'. pose proof (lookup_lt_Some _ _ _ Hsi) as Hlt.
  assert (∀ j, taken ins' j ↔ taken ins j ∧ j ≠ k) as Ht.
  { intros j. subst ins'. rewrite taken_insert by done. case_decide; naive_solver. }
  split; [|done]. split.
  - intros E%(f_equal length). subst ins'. rewrite length_insert in E. cbn in E. lia.
  - apply insert_sorted_sorted, (slots_sorted _ _ S).
  - intros j. rewrite insert_sorted_in. subst ins'. destruct (decide (j = k)) as [->|Hne].
    + rewrite list_lookup_insert_eq by done. split; [intros _; by eexists|by left].
    + rewrite list_lookup_insert_ne by done. rewrite <- (slots_free _ _ S). naive_solver.
  - subst ins'. rewrite length_insert. destruct (slots_last _ _ S) as [H|H]; [by left|].
    destruct (decide (length ins = 1%nat)) as [|Hl]; [by left|]. right. apply Ht. split; [done|lia].
Qed.

(** ** The operations *)

Section Operations.
Context `{PT : Parts, BD : Build}.
Implicit Types (e : engine PT) (p : Z) (k : nat).

(** A multistream sink whose inputs are [ins], with a connector each. *)
Definition sink_at e p s ins ua pending : Prop :=
  ∃ st, stg e p = Some st ∧ hosted st = ActiveMultistreamSinkStage s ins ua pending ∧
    length (inputs st) = length ins ∧ slots_ok ins ua.

Lemma sink_host e p s ins ua pending :
  sink_at e p s ins ua pending → hst e p = Some (ActiveMultistreamSinkStage s ins ua pending).
Proof. intros (st & Hst & Hh & _). unfold hst. by rewrite Hst, <- Hh. Qed.

Lemma sink_at_put e p s ins ua pending ins' ua' f :
  sink_at e p s ins ua pending → slots_ok ins' ua' →
  (∀ st, stg e p = Some st → length (f (inputs st)) = length ins') →
  sink_at (put_host p (ActiveMultistreamSinkStage s ins' ua' pending) (alter_stage p (map_inputs f) e)) p s ins' ua' pending.
Proof.
  intros (st & Hst & Hh & Hl & S) S' Hf. eexists. split; [|split; [|split; [|done]]].
  - unfold put_host. rewrite !stg_alter, !decide_True by done. by rewrite Hst.
  - done.
  - cbn. by apply Hf.
Qed.
Lemma alter_after_host p h f e :
  alter_stage p (map_inputs f) (put_host p h e) = put_host p h (alter_stage p (map_inputs f) e).
Proof.
  unfold put_host, alter_stage, set_graph, set_heap. cbn. do 2 f_equal. apply map_eq. intros q.
  destruct (decide (q = p)) as [->|Hne]; [|by rewrite !lookup_alter_ne].
  rewrite !lookup_alter_eq. by destruct (heap (graph e) !! p).
Qed.
Lemma sink_at_host e p s ins ua pending ins' ua' :
  sink_at e p s ins ua pending → slots_ok ins' ua' → length ins' = length ins →
  sink_at (put_host p (ActiveMultistreamSinkStage s ins' ua' pending) e) p s ins' ua' pending.
Proof.
  intros (st & Hst & Hh & Hl & S) S' Hl'. eexists. split; [|split; [|split; [|done]]].
  - unfold put_host. rewrite stg_alter, decide_True by done. by rewrite Hst.
  - done.
  - cbn. lia.
Qed.

Lemma AllocateInput_runs e p s ins ua pending :
  sink_at e p s ins ua pending →
  runs (AllocateInput p) e (λ k e', ¬ taken ins k ∧ (∀ j, (j < k)%nat → taken ins j) ∧
    ∃ ins' ua', sink_at e' p s ins' ua' pending ∧ ∀ j, taken ins' j ↔ taken ins j ∨ j = k).
Proof.
  intros Hs. pose proof Hs as (st & Hst & Hh & Hl & S). unfold AllocateInput.
  eapply runs_step; [by apply host_run, (sink_host e p s ins ua pending)|]. destruct ua as [|k ua].
  - apply runs_mod. eapply runs_step; [apply set_host_run|]. apply runs_ret.
    destruct (slots_append ins kNegative S) as [S' Ht]. split_and!.
    + intros H%taken_lt. lia.
    + intros j Hj. destruct (taken_or_free _ _ _ S Hj) as [|?%elem_of_nil]; done.
    + eexists _, _. split; [|exact Ht]. eapply (sink_at_put e p s ins []); [done..|].
      intros st' Hst'. simplify_eq. rewrite !length_app. cbn. lia.
  - pose proof (proj1 (slots_free _ _ S k) (list_elem_of_here _ _)) as (si & Hsi & Ha). rewrite Hsi.
    apply runs_dcheck; [by rewrite Ha|]. eapply runs_step; [apply set_host_run|]. apply runs_ret.
    destruct (slots_reuse ins k ua (input_demand_ si) S) as [S' Ht]. split_and!.
    + intros (si' & Hsi' & Ha'). congruence.
    + intros j Hj. destruct (taken_or_free _ _ j S) as [|[->|Hin]%elem_of_cons]; [|done|lia|].
      * apply lookup_lt_Some in Hsi. lia.
      * pose proof (slots_sorted _ _ S) as [_ Hf]%Sorted.StronglySorted_inv.
        rewrite Forall_forall in Hf. specialize (Hf j Hin). lia.
    + eexists _, _. split; [|exact Ht]. eapply (sink_at_host e p s ins (k :: ua)); [done..|]. apply length_insert.
Qed.

Lemma ReleaseInput_runs e p s ins ua pending k x :
  sink_at e p s ins ua pending → taken ins k → inp e (mk_ref p k) = Some x → ref_bool (imate x) = false →
  runs (ReleaseInput p k) e (λ n e', ∃ ins' ua', n = length ins' ∧ sink_at e' p s ins' ua' pending ∧
    ∀ j, taken ins' j ↔ taken ins j ∧ j ≠ k).
Proof.
  intros Hs (si & Hsi & Ha) Hx Hc. pose proof Hs as (st & Hst & Hh & Hl & S). unfold ReleaseInput.
  pose proof (lookup_lt_Some _ _ _ Hsi) as Hlt.
  eapply runs_step; [by apply host_run, (sink_host e p s ins ua pending)|].
  apply runs_dcheck; [by apply bool_decide_eq_true_2|]. eapply runs_step; [by eapply own_input_run|]. rewrite Hsi.
  apply runs_dcheck; [done|]. apply runs_dcheck; [by rewrite Hc|]. cbn zeta. rewrite length_insert.
  destruct (negb (k =? 0)%nat && (k =? length ins - 1)%nat) eqn:Eb.
  - apply andb_true_iff in Eb as [Hk0%negb_true_iff%Nat.eqb_neq Hk%Nat.eqb_eq].
    destruct (slots_trim ins ua k si S Hsi Ha Hk Hk0) as (S' & Hn & Ht). unfold trimmed in *. rewrite length_insert in S'.
    eapply runs_step; [apply set_host_run|]. apply runs_mod. apply runs_ret.
    eexists _, _. split; [done|]. split; [|exact Ht]. rewrite alter_after_host.
    eapply (sink_at_put e p s ins ua); [done..|]. intros st' Hst'. simplify_eq. rewrite length_take. lia.
  - eapply runs_step; [apply set_host_run|]. apply runs_ret.
    assert (k = 0%nat ∨ k ≠ (length ins - 1)%nat) as Hk.
    { apply andb_false_iff in Eb as [E|E]; [left; by apply negb_false_iff, Nat.eqb_eq in E|right; by apply Nat.eqb_neq]. }
    destruct (slots_free_inner ins ua k si S Hsi Ha Hk) as [S' Ht].
    eexists _, _. split; [by rewrite length_insert|]. split; [|exact Ht].
    eapply (sink_at_host e p s ins ua); [done..|]. apply length_insert.
Qed.

Lemma construct_sink_runs p s e :
  runs (construct_ActiveMultistreamSinkStage p s) e (λ _ e', sink_at e' p s [mk_stage_input false kNegative] [0%nat] []).
Proof.
  unfold construct_ActiveMultistreamSinkStage. apply runs_mod. set (e0 := set_graph _ e).
  assert (stg e0 p = Some (new_stage (ActiveMultistreamSinkStage s [] [] []) 0 0)) as Hst by apply lookup_insert_eq.
  eapply runs_step.
  { unfold AllocateInput. run_bind (host_run p e0 _ (f_equal (fmap hosted) Hst)). reflexivity. }
  set (e1 := alter_stage p (set_hosted _) _).
  assert (stg e1 p = Some (mk_stage (ActiveMultistreamSinkStage s [mk_stage_input true kNegative] [] [])
    [new_input] [] false false false)) as Hst1.
  { subst e1. rewrite !stg_alter, !decide_True by done. by rewrite Hst. }
  assert (inp e1 (mk_ref p 0) = Some new_input) as Hx by (rewrite inp_stg; cbn [stage_ index_]; by rewrite Hst1).
  eapply runs_bind with (Q := λ _ e', e' = put_host p (ActiveMultistreamSinkStage s [mk_stage_input false kNegative] [0%nat] []) e1).
  { unfold ReleaseInput. eapply runs_step; [exact (host_run p e1 _ (f_equal (fmap hosted) Hst1))|].
    apply runs_dcheck; [done|]. eapply runs_step; [exact (own_input_run _ _ _ _ Hx)|].
    apply runs_dcheck; [done|]. apply runs_dcheck; [done|]. eapply runs_step; [apply set_host_run|]. by apply runs_ret. }
  intros ? e2 ->. unfold put_host.
  apply runs_ret. eexists. split; [rewrite stg_alter, decide_True by done; by rewrite Hst1|].
  split_and!; [done..|]. split; [done|repeat constructor| |by left].
  intros k. rewrite list_elem_of_singleton. split; [intros ->; by eexists|].
  intros (si & Hsi%list_lookup_singleton_Some & _). by destruct Hsi.
Qed.

(** ** Properties *)

(** C24. The inputs of a multistream sink are a set of slots: the stage starts with one
    free input and always has an input; [AllocateInput] hands out the smallest input that
    is not allocated, adding one when there is none, and [ReleaseInput] frees exactly the
    input it is given and returns a size that is large enough for the inputs that are still
    allocated; the number of connectors follows. *)
Theorem input_slots p s :
  (∀ e, runs (construct_ActiveMultistreamSinkStage p s) e (λ _ e',
     sink_at e' p s [mk_stage_input false kNegative] [0%nat] [])) ∧
  (∀ e ins ua pending, sink_at e p s ins ua pending →
     runs (AllocateInput p) e (λ k e', ¬ taken ins k ∧ (∀ j, (j < k)%nat → taken ins j) ∧
       ∃ ins' ua', sink_at e' p s ins' ua' pending ∧ ∀ j, taken ins' j ↔ taken ins j ∨ j = k)) ∧
  (∀ e ins ua pending k x, sink_at e p s ins ua pending → taken ins k →
     inp e (mk_ref p k) = Some x → ref_bool (imate x) = false →
     runs (ReleaseInput p k) e (λ n e', ∃ ins' ua', sink_at e' p s ins' ua' pending ∧
       (∀ j, taken ins' j ↔ taken ins j ∧ j ≠ k) ∧ (∀ j, taken ins' j → (j < n)%nat) ∧
       (n = 1%nat ∨ taken ins' (n - 1)))).
Proof.
  split_and!.
  - intros e. apply construct_sink_runs.
  - intros e ins ua pending. apply AllocateInput_runs.
  - intros e ins ua pending k x Hs Ht Hx Hc. eapply runs_mono; [by eapply ReleaseInput_runs|].
    intros n e' (ins' & ua' & -> & Hs' & Ht'). exists ins', ua'. split_and!; try done; [intros j; apply taken_lt|].
    destruct Hs' as (st & _ & _ & _ & S). apply (slots_last _ _ S).
Qed.

(** Releasing an input leaves it in the list of pending inputs: when the sink has asked
    for packets on the last input and then releases it, the next update of the stage fails
    its check of the index, or reads past the end of the inputs. *)
Lemma release_pending_defect fuel p s ins ua pending k x e :
  sink_at e p s ins ua (k :: pending) → taken ins k → k = (length ins - 1)%nat → k ≠ 0%nat →
  inp e (mk_ref p k) = Some x → ref_bool (imate x) = false →
  runs (ReleaseInput p k) e (λ _ e',
    stage_Update fuel p e' = Fault (if dcheck_is_on then DCheckFailed else UndefinedBehaviour)).
Proof.
  intros Hs Ht Hk Hk0 Hx Hc. eapply runs_mono; [by eapply ReleaseInput_runs|].
  intros n e' (ins' & ua' & -> & Hs' & Ht').
  assert (length ins' ≤ k)%nat as Hlen.
  { destruct Hs' as (st & _ & _ & _ & S). destruct (slots_last _ _ S) as [H|H]; [lia|].
    apply Ht' in H as [H%taken_lt Hne]. lia. }
  pose proof (host_run _ _ _ (sink_host _ _ _ _ _ _ Hs')) as Hh. unfold stage_Update. run_bind Hh.
  cbn [sink_loop length Nat.mul Nat.add]. run_bind Hh. cbn [lookup list_lookup].
  rewrite lookup_ge_None_2 by done. rewrite bool_decide_eq_false_2 by lia.
  unfold mbind, prog_bind, dcheckS, dcheck, liftO. by destruct dcheck_is_on.
Qed.

End Operations.

End EngineInputs.
