(* ===== verification/EngineExample.v ===== *)
(** A source, a transform and a sink connected in a row: the concrete graph and parts at
    which the theorems about the engine are applied, and runs of the engine on it. *)

From S2P Require Import Prelude Packet Graph Engine EngineState EngineMeasure EngineSpec EngineUpdate EngineRun EnginePrepare EngineInputs.

Module EngineExample.
Import Packet Graph Engine EngineState EngineMeasure EngineSpec EngineUpdate EngineRun EnginePrepare EngineInputs.

(** Parts whose state is the number of packets that transforms may still make and the
    packets that sinks have received; transforms pass packets on, or, when [stalls], ask for
    their input again without having made a packet. *)
Definition demo_parts (stalls : bool) : Parts := {|
  World := nat * list (Z * Packet);
  GetDefault := 1;
  AllocatePayloadBuffer _ _ w := (true, w);
  ReleasePayloadBuffer _ _ w := w;
  part_Flush _ w := w;
  TransformPacket _ x _ _ w :=
    if stalls then (false, None, w)
    else match w.1 with O => (true, None, w) | S n => (true, Some (mk_packet (pts x) (end_of_stream x) 0 None None), (n, w.2)) end;
  can_accept_allocator _ := true;
  set_allocator _ _ w := w;
  SetDownstreamDemand _ _ w := w;
  sink_allocator _ := None;
  SupplyPacket s x w := (kPositive, (w.1, w.2 ++ [(s, x)]));
  PullPacket _ w := (None, 0%nat, w);
  RequestPacket _ w := w;
  SupplyPacketTo s _ x w := (kPositive, (w.1, w.2 ++ [(s, x)]));
|}.

#[export] Instance demo_laws stalls : @PartLaws (demo_parts stalls).
Proof.
  refine (@Build_PartLaws (demo_parts stalls) (λ w, w.1) (λ _, 0%nat) (λ _ _, 0%nat) _ _ _ _ _ _ _ _);
    try (by intros; split).
  - intros t x b a [n l]. cbn. destruct stalls; [by split|]. destruct n; cbn; [by split|].
    split; [split; [lia|done]|]. intros y [= <-]. split; [done|lia].
  - intros s w Hlt. lia.
Defined.

Lemma demo_cooperative : @cooperative (demo_parts false).
Proof. split; [|done]. intros t x b a [n l]. cbn. by destruct n. Qed.

(** The stages at 1, 2 and 3, with positive demand everywhere. *)
Definition demo_source (ps : list Packet) : Stage Host :=
  mk_stage (ActiveSourceStage 11 true ps) [] [mk_output (mk_ref 2 0) kPositive None] true false false.
Definition demo_transform (x : option Packet) : Stage Host :=
  mk_stage (TransformStage 12 (Some 1) true) [mk_input (mk_ref 1 0) true x]
    [mk_output (mk_ref 3 0) kPositive None] true false false.
Definition demo_sink : Stage Host :=
  mk_stage (ActiveSinkStage 13 kPositive) [mk_input (mk_ref 2 0) true None] [] true false false.
Definition demo_heap : gmap Z (Stage Host) := {[1 := demo_source []; 2 := demo_transform None; 3 := demo_sink]}.
Definition demo_engine stalls : engine (demo_parts stalls) :=
  mk_engine (demo_parts stalls) (mk_graph demo_heap 4 [1; 2; 3] [1] [3]) [] [] false (5%nat, []).
Definition demo_rank (p : Z) : nat := Z.to_nat p.

Lemma demo_stg stalls p st :
  stg (demo_engine stalls) p = Some st →
  p = 1 ∧ st = demo_source [] ∨ p = 2 ∧ st = demo_transform None ∨ p = 3 ∧ st = demo_sink.
Proof.
  unfold stg. cbn. unfold demo_heap. rewrite !lookup_insert_Some, lookup_singleton_Some. naive_solver.
Qed.

Lemma demo_in stalls i x :
  inp (demo_engine stalls) i = Some x →
  i = mk_ref 2 0 ∧ x = mk_input (mk_ref 1 0) true None ∨ i = mk_ref 3 0 ∧ x = mk_input (mk_ref 2 0) true None.
Proof.
  rewrite inp_stg. destruct i as [p k]. cbn [stage_ index_].
  destruct (stg (demo_engine stalls) p) as [st|] eqn:E; [|done].
  apply demo_stg in E as [[-> ->]|[[-> ->]|[-> ->]]]; destruct k as [|k]; cbn; try done; intros [= <-]; auto.
Qed.
Lemma demo_out stalls o y :
  outp (demo_engine stalls) o = Some y →
  o = mk_ref 1 0 ∧ y = mk_output (mk_ref 2 0) kPositive None ∨ o = mk_ref 2 0 ∧ y = mk_output (mk_ref 3 0) kPositive None.
Proof.
  rewrite outp_stg. destruct o as [p k]. cbn [stage_ index_].
  destruct (stg (demo_engine stalls) p) as [st|] eqn:E; [|done].
  apply demo_stg in E as [[-> ->]|[[-> ->]|[-> ->]]]; destruct k as [|k]; cbn; try done; intros [= <-]; auto.
Qed.

Lemma demo_Inv stalls : Inv (demo_engine stalls).
Proof.
  split.
  - split; split; cbn.
    + done.
    + intros p st E. apply (demo_stg stalls) in E. naive_solver lia.
    + intros p. split.
      * rewrite !elem_of_cons, elem_of_nil. intros [->|[->|[->|[]]]]; by eexists.
      * intros [st E]. apply (demo_stg stalls) in E. set_solver.
    + by apply (bool_decide_unpack _).
    + set_solver.
    + set_solver.
    + intros o y E _. apply (demo_out stalls) in E as [[-> ->]|[-> ->]]; by eexists.
    + intros i x E _. apply (demo_in stalls) in E as [[-> ->]|[-> ->]]; by eexists.
    + intros i x E _. by apply (demo_in stalls) in E as [[-> ->]|[-> ->]].
  - intros p st E. apply demo_stg in E as [[-> ->]|[[-> ->]|[-> ->]]]; unfold stage_ok; cbn; split_and!;
      try done; repeat constructor.
  - intros p st E. by apply demo_stg in E as [[-> ->]|[[-> ->]|[-> ->]]].
  - intros p [Hp|Hp]; by apply elem_of_nil in Hp.
  - split; apply NoDup_nil_2.
  - intros p p' s. unfold hst. destruct (stg (demo_engine stalls) p) as [st|] eqn:E; [|done].
    by apply demo_stg in E as [[-> ->]|[[-> ->]|[-> ->]]].
Qed.

Lemma demo_at_rest stalls : at_rest demo_rank (demo_engine stalls).
Proof.
  split; [apply demo_Inv|done|..].
  - intros o y x (E & _ & E' & Hp & _). by apply demo_in in E' as [[_ ->]|[_ ->]].
  - intros q h. unfold hst. destruct (stg (demo_engine stalls) q) as [st|] eqn:E; [|done]. intros [= <-].
    apply demo_stg in E as [[-> ->]|[[-> ->]|[-> ->]]]; cbn.
    + by left.
    + intros x y [[_ ->]|[? _]]%demo_in [[? _]|[_ ->]]%demo_out; try done. split; [by left|done].
    + by intros x [[? _]|[_ ->]]%demo_in.
  - intros q h. unfold hst. destruct (stg (demo_engine stalls) q) as [st|] eqn:E; [|done]. intros [= <-].
    by apply demo_stg in E as [[-> ->]|[[-> ->]|[-> ->]]].
  - intros p [st E]. unfold upstream. rewrite E.
    apply demo_stg in E as [[-> ->]|[[-> ->]|[-> ->]]]; vm_compute; lia.
  - intros q st E. by apply demo_stg in E as [[-> ->]|[[-> ->]|[-> ->]]].
Qed.

Definition demo_packet : Packet := mk_packet 7 false 0 None None.

Lemma RequestUpdate_terminates_witness :
  runs (@RequestUpdate (demo_parts true) debug_build 300 2) (demo_engine true)
    (λ _ e', Inv e' ∧ supply_backlog_ e' = [] ∧ demand_backlog_ e' = []).
Proof.
  eapply runs_mono.
  - eapply (@RequestUpdate_terminates (demo_parts true) _ debug_build demo_rank); [apply demo_Inv|..].
    + apply (rest_acyclic _ _ (demo_at_rest true)).
    + by eexists.
    + apply Nat.leb_le. by vm_compute.
  - intros _ e' (? & _ & ?). by split.
Defined.

Lemma callbacks_return_to_rest_witness :
  runs (@source_supply (demo_parts false) debug_build 300 1 demo_packet) (demo_engine false)
    (λ _ e', at_rest demo_rank e').
Proof.
  destruct (@callbacks_return_to_rest (demo_parts false) _ debug_build demo_rank 300 (demo_engine false) 1
    demo_cooperative (demo_at_rest false)) as (H & _); [by apply Nat.leb_le|].
  exact (H 11 [] demo_packet eq_refl eq_refl).
Defined.

(** The same graph before it is prepared. *)
Definition fresh_heap : gmap Z (Stage Host) := {[
  1 := mk_stage (ActiveSourceStage 11 false []) [] [mk_output (mk_ref 2 0) kNegative None] true false false;
  2 := mk_stage (TransformStage 12 None true) [mk_input (mk_ref 1 0) false None]
         [mk_output (mk_ref 3 0) kNegative None] true false false;
  3 := mk_stage (ActiveSinkStage 13 kNegative) [mk_input (mk_ref 2 0) false None] [] true false false]}.
Definition fresh_engine : engine (demo_parts false) :=
  mk_engine (demo_parts false) (mk_graph fresh_heap 4 [1; 2; 3] [1] [3]) [] [] false (5%nat, []).

Lemma fresh_cases p :
  p = 1 ∨ p = 2 ∨ p = 3 ∨ stg fresh_engine p = None ∧ stg (demo_engine false) p = None.
Proof.
  unfold stg. cbn. unfold fresh_heap, demo_heap. rewrite !lookup_insert_None, !lookup_singleton_None. lia.
Qed.
Lemma fresh_unprepared i x : inp fresh_engine i = Some x → prepared x = false.
Proof.
  rewrite inp_stg. destruct (fresh_cases (stage_ i)) as [->|[->|[->|[-> _]]]]; [| | |done];
    destruct (index_ i); cbn; try done; by intros [= <-].
Qed.
Lemma fresh_mates : same_mates fresh_engine (demo_engine false).
Proof.
  split; [| |done|done|].
  - intros p. by destruct (fresh_cases p) as [->|[->|[->|[-> ->]]]].
  - intros p. by destruct (fresh_cases p) as [->|[->|[->|[-> ->]]]].
  - intros i x Hx Hp. by rewrite (fresh_unprepared i x Hx) in Hp.
Qed.
Lemma demo_wf stalls : wf (graph (demo_engine stalls)).
Proof. apply demo_Inv. Qed.
Lemma fresh_wf : wf (graph fresh_engine).
Proof. eapply same_mates_wf; [apply fresh_mates|apply demo_wf]. Qed.
Lemma demo_ranked : ranked demo_rank (demo_engine false).
Proof. intros i x [[-> ->]|[-> ->]]%demo_in _; apply Nat.ltb_lt; reflexivity. Qed.
Lemma fresh_ranked : ranked demo_rank fresh_engine.
Proof.
  intros i x Hx Hw. destruct (mates_in _ _ _ _ (sm_mates _ _ fresh_mates) Hx) as (y & Hy & Em).
  rewrite <- Em. apply (demo_ranked i y); [done|]. unfold wired_in in *. congruence.
Qed.

Definition demo_inputs : list Ref := [mk_ref 3 0; mk_ref 2 0].
Lemma fresh_path : upstream_path fresh_engine (mk_ref 3 0) demo_inputs.
Proof.
  eapply (path_transform _ _ _ (TransformStage 12 None true)); [reflexivity..|by eexists|].
  by eapply (path_source _ _ _ (ActiveSourceStage 11 false [])); [reflexivity..|].
Qed.
Lemma demo_path : upstream_path (demo_engine false) (mk_ref 3 0) demo_inputs.
Proof.
  eapply (path_transform _ _ _ (TransformStage 12 (Some 1) true)); [reflexivity..|by eexists|].
  by eapply (path_source _ _ _ (ActiveSourceStage 11 true [])); [reflexivity..|].
Qed.
Lemma demo_flow : downstream_path (demo_engine false) (mk_ref 1 0) [mk_ref 1 0; mk_ref 2 0] [mk_ref 2 0; mk_ref 3 0].
Proof.
  eapply (flow_transform _ _ (mk_output (mk_ref 2 0) kPositive None) (TransformStage 12 (Some 1) true)); [reflexivity..|].
  by eapply (flow_sink _ _ (mk_output (mk_ref 3 0) kPositive None) (ActiveSinkStage 13 kPositive)); [reflexivity..|].
Qed.
Lemma demo_prepared i x : inp (demo_engine false) i = Some x → prepared x = true.
Proof. by intros [[_ ->]|[_ ->]]%demo_in. Qed.

Lemma PrepareInput_spec_witness :
  runs (@PrepareInput (demo_parts false) debug_build 2 (mk_ref 3 0)) fresh_engine
    (λ _ e', prepares demo_inputs fresh_engine e' ∧ wf (graph e')).
Proof.
  apply (@PrepareInput_spec (demo_parts false) debug_build demo_rank 2 (mk_ref 3 0) demo_inputs
    (ActiveSinkStage 13 kNegative) fresh_engine fresh_wf fresh_ranked eq_refl eq_refl fresh_path).
  - intros j x _. apply fresh_unprepared.
  - apply Nat.leb_le. reflexivity.
Defined.

Lemma unprepare_defect_witness :
  runs (@UnprepareInput (demo_parts false) debug_build 2 (mk_ref 3 0)) (demo_engine false) (λ _ e',
    inp e' (mk_ref 3 0) = Some (mk_input (mk_ref 2 0) true None) ∧
    onG (@DisconnectInput Host debug_build (mk_ref 3 0)) e' = Fault CheckFailed ∧
    (true = true → @PrepareInput (demo_parts false) debug_build 2 (mk_ref 3 0) e' = Fault DCheckFailed)).
Proof.
  apply (@unprepare_defect (demo_parts false) debug_build demo_rank 2 (mk_ref 3 0) (mk_input (mk_ref 2 0) true None)
    demo_inputs (demo_engine false) (demo_wf false) demo_ranked demo_path eq_refl).
  - intros j x _. apply demo_prepared.
  - apply Nat.leb_le. reflexivity.
Defined.

Lemma FlushOutput_spec_witness :
  runs (@Graph_FlushOutput (demo_parts false) debug_build 2 (mk_ref 1 0)) (demo_engine false)
    (λ _ e', flushes [mk_ref 1 0; mk_ref 2 0] [mk_ref 2 0; mk_ref 3 0] (demo_engine false) e' ∧
       world e' = flushed_parts (demo_engine false) [mk_ref 1 0; mk_ref 2 0] [mk_ref 2 0; mk_ref 3 0]
         (world (demo_engine false)) ∧ wf (graph e')).
Proof.
  apply (@FlushOutput_spec (demo_parts false) debug_build demo_rank 2 (mk_ref 1 0) [mk_ref 1 0; mk_ref 2 0]
    [mk_ref 2 0; mk_ref 3 0] (ActiveSourceStage 11 true []) (demo_engine false) (demo_wf false) demo_ranked
    eq_refl eq_refl demo_flow).
  - intros j x _. apply demo_prepared.
  - apply Nat.leb_le. reflexivity.
Defined.

(** A multistream source that waits for the packet that it has asked for. *)
Definition waiting_engine : engine (demo_parts false) :=
  mk_engine (demo_parts false) (mk_graph {[1 := mk_stage (ActiveMultistreamSourceStage 11 None 0 0 true) []
    [mk_output (mk_ref 2 0) kPositive None] true false false]} 2 [1] [1] []) [] [] false (5%nat, []).
Lemma flush_outstanding_defect_witness :
  runs (@stage_FlushOutput (demo_parts false) debug_build 1 0) waiting_engine (λ _ e',
    @multistream_supply (demo_parts false) debug_build 300 1 0 (Some demo_packet) e' = Fault DCheckFailed).
Proof.
  apply (@flush_outstanding_defect (demo_parts false) debug_build 300 1 0 0 11 None 0 0
    (mk_output (mk_ref 2 0) kPositive None) demo_packet waiting_engine eq_refl eq_refl eq_refl).
  by exists (mk_output (mk_ref 2 0) kPositive None).
Defined.

(** A multistream sink with two allocated inputs, the second of which is pending. *)
Definition slots : list StageInput := [mk_stage_input true kNegative; mk_stage_input true kPositive].
Definition slots_engine : engine (demo_parts false) :=
  mk_engine (demo_parts false) (mk_graph {[1 := mk_stage (ActiveMultistreamSinkStage 13 slots [] [1%nat])
    [new_input; new_input] [] true false false]} 2 [1] [] [1]) [] [] false (5%nat, []).
Lemma slots_at : sink_at slots_engine 1 13 slots [] [1%nat].
Proof.
  eexists. split; [reflexivity|]. split; [reflexivity|]. split; [reflexivity|]. split.
  - done.
  - constructor.
  - intros k. split; [by intros ?%elem_of_nil|]. intros (si & Hsi & Ha). by destruct k as [|[|k]]; simplify_eq/=.
  - right. by eexists.
Qed.

Lemma input_slots_witness :
  runs (@AllocateInput (demo_parts false) debug_build 1) slots_engine (λ k e', ¬ taken slots k ∧
    (∀ j, (j < k)%nat → taken slots j) ∧
    ∃ ins' ua', sink_at e' 1 13 ins' ua' [1%nat] ∧ ∀ j, taken ins' j ↔ taken slots j ∨ j = k).
Proof.
  destruct (@input_slots (demo_parts false) debug_build 1 13) as (_ & H & _).
  exact (H slots_engine slots [] [1%nat] slots_at).
Defined.

Lemma release_pending_defect_witness :
  runs (@ReleaseInput (demo_parts false) debug_build 1 1) slots_engine (λ _ e',
    @stage_Update (demo_parts false) debug_build 9 1 e' = Fault DCheckFailed).
Proof.
  apply (@release_pending_defect (demo_parts false) debug_build 9 1 13 slots [] [] 1 new_input slots_engine slots_at).
  - by exists (mk_stage_input true kPositive).
  - reflexivity.
  - discriminate.
  - reflexivity.
  - reflexivity.
Defined.

(** What a run leaves: the parts, the packets in the inputs of transform and sink, the
    demand on the outputs of source and transform, and the backlogs. *)
Definition demo_view {stalls} (r : outcome (unit * engine (demo_parts stalls))) :=
  match r with
  | Ok (_, e) =>
      Some (world e, packet_from_upstream <$> inp e (mk_ref 2 0), packet_from_upstream <$> inp e (mk_ref 3 0),
            demand_ <$> outp e (mk_ref 1 0), demand_ <$> outp e (mk_ref 2 0), supply_backlog_ e, demand_backlog_ e)
  | Fault _ => None
  end.

(** The packet goes through the transform to the sink. *)
Lemma demo_run :
  demo_view (@source_supply (demo_parts false) debug_build 300 1 demo_packet (demo_engine false)) =
    Some ((4%nat, [(13, demo_packet)]), Some None, Some None, Some kPositive, Some kPositive, [], []).
Proof. by vm_compute. Qed.

(** A transform that asks for its input again without having made a packet is not called
    again: the engine stops with the packet in the transform's input and demand downstream. *)
Lemma transform_stall_defect :
  demo_view (@source_supply (demo_parts true) debug_build 300 1 demo_packet (demo_engine true)) =
    Some ((5%nat, []), Some (Some demo_packet), Some None, Some kPositive, Some kPositive, [], []).
Proof. by vm_compute. Qed.

End EngineExample.
