(* ===== verification/Mixer.v ===== *)
(** The mixers of the audio server (services/media/audio/gain.h and
    services/media/audio/platform/generic: mixer.cc, mixers/mixer_utils.h,
    mixers/no_op.cc, mixers/point_sampler.cc, mixers/linear_sampler.cc) and the output
    formatter (output_formatter.cc).

    A mixer reads 8-bit or 16-bit samples from a source buffer at positions given in
    fractions of a frame, scales them and stores them in, or adds them to, a buffer of
    32-bit samples.  Buffers are lists of samples; access beyond their end is undefined
    behaviour.  The template parameters (sample format, channel counts, kind of
    scaling, whether to accumulate) are arguments of the definitions. *)

From S2P Require Import Prelude LinearTransform StreamTypes TypeConversions Lpcm.

Module Mixer.
Import LinearTransform TypeConversions.
Import Lpcm (swrap).

(** ** Gain *)

(** [Gain::FRACTIONAL_BITS], [UNITY], [MuteThreshold] *)
Definition FRACTIONAL_BITS : Z := 28.
Definition UNITY : Z := Z.shiftl 1 FRACTIONAL_BITS.
Definition MuteThreshold (bit_count : Z) : Z := u32 (Z.shiftl 1 (FRACTIONAL_BITS - bit_count) - 1).

(** [AudioTrackImpl::PTS_FRACTIONAL_BITS], [Mixer::FRAC_ONE], [FRAC_MASK] *)
Definition PTS_FRACTIONAL_BITS : Z := 12.
Definition FRAC_ONE : Z := Z.shiftl 1 PTS_FRACTIONAL_BITS.
Definition FRAC_MASK : Z := FRAC_ONE - 1.

(** ** Utilities *)

(** [ScalerType] *)
Inductive ScalerType := MUTED | LT_UNITY | EQ_UNITY | GT_UNITY.

#[export] Instance ScalerType_eq_dec : EqDecision ScalerType.
Proof. solve_decision. Defined.

(** The template parameters of a sampler: destination channels, source sample type
    (8-bit unsigned, or else 16-bit signed), source channels. *)
Record config := mk_config { DChCount : nat; src_u8 : bool; SChCount : nat }.

Section WithBuild.
Context `{Build}.
Implicit Types (c : config) (st : ScalerType) (src dst : list Z).

(** A 32-bit signed result. *)
Definition s32 (z : Z) : outcome Z :=
  if (- 2 ^ 31 <=? z) && (z <? 2 ^ 31) then Ok z
  else if signed_wraps then Ok (swrap 32 z) else Fault UndefinedBehaviour.

Definition load (l : list Z) (i : Z) : outcome Z :=
  if i <? 0 then Fault UndefinedBehaviour
  else match l !! Z.to_nat i with Some v => Ok v | None => Fault UndefinedBehaviour end.

(** [SampleNormalizer<SType>::Read] *)
Definition Normalize (u8_samples : bool) (v : Z) : Z :=
  if u8_samples then Z.shiftl v 8 - 0x8000 else v.

(** [SampleScaler<ScaleType>::Scale] *)
Definition Scale st (val scale : Z) : Z :=
  match st with
  | MUTED => 0
  | LT_UNITY => swrap 32 (Z.shiftr (val * scale) FRACTIONAL_BITS)
  | EQ_UNITY => val
  | GT_UNITY =>
      let val := swrap 32 (Z.shiftr (val * scale) FRACTIONAL_BITS) in
      if 0x7fff <? val then 0x7fff else if val <? -0x8000 then -0x8000 else val
  end.

(** [SrcReader<SType, SChCount, DChCount>::DstPerSrc] and [Read] *)
Definition DstPerSrc c : nat :=
  if decide (SChCount c = 2%nat ∧ DChCount c = 1%nat) then 1
  else (DChCount c / SChCount c)%nat.
Definition Read c src (i : Z) : outcome Z :=
  if decide (SChCount c = 2%nat ∧ DChCount c = 1%nat) then
    a ← load src i; b ← load src (i + 1);
    Ok (Z.shiftr (Normalize (src_u8 c) a + Normalize (src_u8 c) b) 1)
  else a ← load src i; Ok (Normalize (src_u8 c) a).

(** [DstMixer<ScaleType, DoAccumulate>::Mix] *)
Definition DstMix st (accumulate : bool) (dst sample scale : Z) : outcome Z :=
  if accumulate then s32 (Scale st sample scale + dst) else Ok (Scale st sample scale).

(** One output frame: the loop over the destination channels that both samplers have,
    with [sample d] the sample of channel [d]. *)
Fixpoint mix_frame st accumulate scale (sample : nat → outcome Z) (base : Z) (ds : list nat) dst :
    outcome (list Z) :=
  match ds with
  | [] => Ok dst
  | d :: ds =>
      s ← sample d;
      o ← load dst (base + Z.of_nat d);
      v ← DstMix st accumulate o s scale;
      mix_frame st accumulate scale sample base ds (<[Z.to_nat (base + Z.of_nat d) := v]> dst)
  end.

(** The state of a mixing loop: destination buffer, [doff] and [soff]. *)
Record cursor := mk_cursor { buf : list Z; doff : Z; soff : Z }.

(** [doff += 1; soff += frac_step_size]: the offset is added as unsigned. *)
Definition advance_soff (soff step : Z) : Z := swrap 32 (u32 (soff + step)).

(** The number of frames that a muted mix skips, and the cursor after them. *)
Definition skip_frames (dst_frames src_end step : Z) (k : cursor) : outcome cursor :=
  if step =? 0 then Fault UndefinedBehaviour
  else
    let src_avail := u32 (u32 (src_end - soff k) + step - 1) / step in
    let dst_avail := u32 (dst_frames - doff k) in
    let avail := Z.min src_avail dst_avail in
    Ok (mk_cursor (buf k) (u32 (doff k + avail)) (swrap 32 (u32 (soff k + u32 (avail * step))))).

(** ** The point sampler *)

(** The loop of [PointSamplerImpl::Mix]. *)
Fixpoint point_loop (fuel : nat) c st accumulate scale src (dst_frames frac_src_frames step : Z)
    (k : cursor) : outcome cursor :=
  if (doff k <? dst_frames) && (soff k <? frac_src_frames) then
    match fuel with
    | O => Fault OutOfFuel
    | S fuel =>
        let src_iter := u32 (Z.shiftr (soff k) PTS_FRACTIONAL_BITS * Z.of_nat (SChCount c)) in
        dst ← mix_frame st accumulate scale
                (λ d, Read c src (src_iter + Z.of_nat (d / DstPerSrc c)))
                (doff k * Z.of_nat (DChCount c)) (seq 0 (DChCount c)) (buf k);
        point_loop fuel c st accumulate scale src dst_frames frac_src_frames step
          (mk_cursor dst (u32 (doff k + 1)) (advance_soff (soff k) step))
    end
  else Ok k.

(** [PointSamplerImpl::Mix<ScaleType, DoAccumulate>] *)
Definition point_mix c st accumulate scale src (dst_frames frac_src_frames step : Z) (k : cursor) :
    outcome (bool * cursor) :=
  _ ← dcheck (frac_src_frames <=? 2 ^ 31 - 1);
  _ ← dcheck (soff k <? swrap 32 frac_src_frames);
  _ ← dcheck (0 <=? soff k);
  k ← match st with
      | MUTED =>
          if doff k <? dst_frames then skip_frames dst_frames frac_src_frames step k else Ok k
      | _ =>
          point_loop (Z.to_nat (dst_frames - doff k)) c st accumulate scale src dst_frames
            (swrap 32 frac_src_frames) step k
      end;
  Ok (swrap 32 frac_src_frames <=? soff k, k).

(** The dispatch on the amplitude that both samplers have. *)
Definition select_scaler {A} (amplitude_scale : Z) (accumulate : bool)
    (mix : ScalerType → bool → A) : A :=
  if amplitude_scale =? UNITY then mix EQ_UNITY accumulate
  else if amplitude_scale <? MuteThreshold 15 then mix MUTED false
  else if amplitude_scale <? UNITY then mix LT_UNITY accumulate
  else mix GT_UNITY accumulate.

(** [PointSamplerImpl::Mix] *)
Definition PointSampler_Mix c dst_frames src frac_src_frames step amplitude_scale accumulate
    (k : cursor) : outcome (bool * cursor) :=
  select_scaler amplitude_scale accumulate (λ st acc,
    point_mix c st acc amplitude_scale src dst_frames frac_src_frames step k).

(** ** The linear sampler *)

(** [LinearSamplerImpl::Interpolate] *)
Definition Interpolate (A B alpha : Z) : outcome Z :=
  x ← s32 (A * swrap 32 (FRAC_ONE - alpha));
  y ← s32 (B * swrap 32 alpha);
  z ← s32 (x + y);
  Ok (Z.shiftr z PTS_FRACTIONAL_BITS).

(** The first loop, for positions between the previous buffer and this one; its body
    runs at least once. *)
Fixpoint linear_head (fuel : nat) c st accumulate scale (filter : list Z) (dst_frames step : Z)
    (k : cursor) : outcome cursor :=
  match fuel with
  | O => Fault OutOfFuel
  | S fuel =>
      dst ← mix_frame st accumulate scale
              (λ d, a ← load filter (Z.of_nat (DChCount c + d)); b ← load filter (Z.of_nat d);
                    Interpolate a b (u32 (- soff k)))
              (doff k * Z.of_nat (DChCount c)) (seq 0 (DChCount c)) (buf k);
      let k := mk_cursor dst (u32 (doff k + 1)) (advance_soff (soff k) step) in
      if (doff k <? dst_frames) && (soff k <? 0)
      then linear_head fuel c st accumulate scale filter dst_frames step k
      else Ok k
  end.

(** The second loop, for positions between two frames of this buffer. *)
Fixpoint linear_body (fuel : nat) c st accumulate scale src (dst_frames send step : Z)
    (k : cursor) : outcome cursor :=
  if (doff k <? dst_frames) && (soff k <? send) then
    match fuel with
    | O => Fault OutOfFuel
    | S fuel =>
        let S := u32 (Z.shiftr (soff k) PTS_FRACTIONAL_BITS * Z.of_nat (SChCount c)) in
        dst ← mix_frame st accumulate scale
                (λ d, s1 ← Read c src (S + Z.of_nat (d / DstPerSrc c));
                      s2 ← Read c src (S + Z.of_nat (d / DstPerSrc c) + Z.of_nat (SChCount c));
                      Interpolate s1 s2 (Z.land (soff k) FRAC_MASK))
                (doff k * Z.of_nat (DChCount c)) (seq 0 (DChCount c)) (buf k);
        linear_body fuel c st accumulate scale src dst_frames send step
          (mk_cursor dst (u32 (doff k + 1)) (advance_soff (soff k) step))
    end
  else Ok k.

(** One frame of the source as the destination's channels read it. *)
Fixpoint read_frame c src (S : Z) (ds : list nat) : outcome (list Z) :=
  match ds with
  | [] => Ok []
  | d :: ds =>
      v ← Read c src (S + Z.of_nat (d / DstPerSrc c)); vs ← read_frame c src S ds; Ok (v :: vs)
  end.

(** [LinearSamplerImpl::Mix<ScaleType, DoAccumulate>] up to the end of both loops, or
    the skipping of their frames, with [filter_data_]. *)
Definition linear_main c st accumulate scale src (dst_frames send step : Z) (filter : list Z)
    (k : cursor) : outcome (cursor * list Z) :=
  let fuel := Z.to_nat (dst_frames - doff k) in
  match st with
  | MUTED =>
      if (doff k <? dst_frames) && (soff k <? send)
      then k ← skip_frames dst_frames send step k; Ok (k, filter)
      else Ok (k, filter)
  | _ =>
      '(k, filter) ←
        (if soff k <? 0 then
           first ← read_frame c src 0 (seq 0 (DChCount c));
           let filter := take (DChCount c) filter ++ first in
           k ← linear_head (Nat.max 1 fuel) c st accumulate scale filter dst_frames step k;
           Ok (k, filter)
         else Ok (k, filter));
      k ← linear_body fuel c st accumulate scale src dst_frames send step k;
      Ok (k, filter)
  end.

(** Its rest: the final frame, and the frame kept for the next buffer. *)
Definition linear_finish c st accumulate scale src (dst_frames send step : Z) (filter : list Z)
    (k : cursor) : outcome (bool * cursor * list Z) :=
  k ←
    (if (doff k <? dst_frames) && (soff k =? send) then
       dst ← match st with
             | MUTED => Ok (buf k)
             | _ =>
                 let S := u32 (Z.shiftr (soff k) PTS_FRACTIONAL_BITS * Z.of_nat (SChCount c)) in
                 mix_frame st accumulate scale
                   (λ d, Read c src (S + Z.of_nat (d / DstPerSrc c)))
                   (doff k * Z.of_nat (DChCount c)) (seq 0 (DChCount c)) (buf k)
             end;
       Ok (mk_cursor dst (u32 (doff k + 1)) (advance_soff (soff k) step))
     else Ok k);
  if send <=? soff k then
    let S := u32 (Z.shiftr send PTS_FRACTIONAL_BITS * Z.of_nat (SChCount c)) in
    last ← read_frame c src S (seq 0 (DChCount c));
    Ok (doff k <? dst_frames, k, last ++ drop (DChCount c) filter)
  else Ok (false, k, filter).

(** [LinearSamplerImpl::Mix<ScaleType, DoAccumulate>] *)
Definition linear_mix c st accumulate scale src (dst_frames frac_src_frames step : Z)
    (filter : list Z) (k : cursor) : outcome (bool * cursor * list Z) :=
  let send := swrap 32 (u32 (frac_src_frames - FRAC_ONE)) in
  _ ← dcheck (doff k <? dst_frames);
  _ ← dcheck (FRAC_ONE <=? frac_src_frames);
  _ ← dcheck (frac_src_frames <=? 2 ^ 31 - 1);
  _ ← dcheck ((0 <=? soff k) || (u32 (- soff k) <? FRAC_ONE));
  '(k, filter) ← linear_main c st accumulate scale src dst_frames send step filter k;
  linear_finish c st accumulate scale src dst_frames send step filter k.

(** [LinearSamplerImpl::Mix] and [Reset] *)
Definition LinearSampler_Mix c dst_frames src frac_src_frames step amplitude_scale accumulate
    (filter : list Z) (k : cursor) : outcome (bool * cursor * list Z) :=
  select_scaler amplitude_scale accumulate (λ st acc,
    linear_mix c st acc amplitude_scale src dst_frames frac_src_frames step filter k).
Definition LinearSampler_Reset c : list Z := replicate (2 * DChCount c) 0.

(** ** Selection of a mixer *)

(** A mixer object. *)
Inductive mixer := NoOp | PointSampler (c : config) | LinearSampler (c : config) (filter : list Z).

(** [Mixer::pos_filter_width], [neg_filter_width]: the constructors' arguments. *)
Definition pos_filter_width (m : mixer) : Z :=
  match m with NoOp => 0 | PointSampler _ => 0 | LinearSampler _ _ => FRAC_ONE - 1 end.
Definition neg_filter_width (m : mixer) : Z :=
  match m with NoOp => 0 | PointSampler _ => FRAC_ONE - 1 | LinearSampler _ _ => FRAC_ONE - 1 end.

(** [SelectPSM], [SelectLSM] with [PointSampler::Select] and [LinearSampler::Select]:
    the same selection of template arguments. *)
Definition select_config (src_format dst_format : AudioMediaTypeDetails) : option config :=
  d ← match d_channels dst_format with 1 => Some 1%nat | 2 => Some 2%nat | _ => None end;
  u ← match d_sample_format src_format with
      | UNSIGNED_8 => Some true | SIGNED_16 => Some false | _ => None end;
  s ← match d_channels src_format with 1 => Some 1%nat | 2 => Some 2%nat | _ => None end;
  Some (mk_config d u s).
Definition PointSampler_Select src_format dst_format : option mixer :=
  PointSampler <$> select_config src_format dst_format.
Definition LinearSampler_Select src_format dst_format : option mixer :=
  (λ c, LinearSampler c (LinearSampler_Reset c)) <$> select_config src_format dst_format.

(** [Mixer::Select]; a missing destination format is [None]. *)
Definition Mixer_Select (src_format : AudioMediaTypeDetails)
    (optional_dst_format : option AudioMediaTypeDetails) : outcome (option mixer) :=
  match optional_dst_format with
  | None => Ok (Some NoOp)
  | Some dst_format =>
      src_to_dst ← ratio_new (d_frames_per_second src_format) (d_frames_per_second dst_format);
      if numerator src_to_dst =? 1 then Ok (PointSampler_Select src_format dst_format)
      else Ok (LinearSampler_Select src_format dst_format)
  end.

(** The virtual [Mix] and [Reset]. *)
Definition Mix (m : mixer) dst_frames src frac_src_frames step amplitude_scale accumulate
    (k : cursor) : outcome (bool * cursor * mixer) :=
  match m with
  | NoOp => Ok (false, k, NoOp)
  | PointSampler c =>
      '(r, k) ← PointSampler_Mix c dst_frames src frac_src_frames step amplitude_scale accumulate k;
      Ok (r, k, PointSampler c)
  | LinearSampler c filter =>
      '(r, k, filter) ←
        LinearSampler_Mix c dst_frames src frac_src_frames step amplitude_scale accumulate filter k;
      Ok (r, k, LinearSampler c filter)
  end.
Definition Mixer_Reset (m : mixer) : mixer :=
  match m with LinearSampler c _ => LinearSampler c (LinearSampler_Reset c) | _ => m end.

(** ** The output formatter *)

(** [OutputFormatter]: [sizeof(DType)] tells the destination types apart. *)
Record OutputFormatter := mk_formatter {
  of_channels : Z;
  bytes_per_sample : Z;
  of_bytes_per_frame : Z;
}.
Definition OutputFormatter_new (bytes channels : Z) : OutputFormatter :=
  mk_formatter channels bytes (u32 (bytes * channels)).

(** [OutputFormatter::Select] with [SelectOF] *)
Definition OutputFormatter_Select (format : AudioMediaTypeDetails) : option OutputFormatter :=
  bytes ← match d_sample_format format with
          | UNSIGNED_8 => Some 1 | SIGNED_16 => Some 2 | _ => None end;
  match d_channels format with
  | 1 => Some (OutputFormatter_new bytes 1)
  | 2 => Some (OutputFormatter_new bytes 2)
  | _ => None
  end.

(** [DstConverter<DType>::Convert] *)
Definition Convert (bytes sample : Z) : Z :=
  if bytes =? 1 then u8 (Z.shiftr sample 8 + 0x80) else swrap 16 sample.

(** One sample of [OutputFormatterImpl::ProduceOutput]. *)
Definition produce_sample (bytes val : Z) : Z :=
  if 0x7fff <? val then Convert bytes 0x7fff
  else if val <? -0x8000 then Convert bytes (-0x8000)
  else Convert bytes val.

(** [ProduceOutput], [FillWithSilence] *)
Definition ProduceOutput (f : OutputFormatter) (source dest : list Z) (frames : Z) :
    outcome (list Z) :=
  let n := Z.to_nat (frames * of_channels f) in
  if decide (n ≤ length source ∧ n ≤ length dest)%nat
  then Ok ((produce_sample (bytes_per_sample f) <$> take n source) ++ drop n dest)
  else Fault UndefinedBehaviour.
Definition FillWithSilence (f : OutputFormatter) (dest : list Z) (frames : Z) : outcome (list Z) :=
  let n := Z.to_nat (u32 (frames * of_channels f)) in
  if decide (n ≤ length dest)%nat
  then Ok (replicate n (if bytes_per_sample f =? 1 then 0x80 else 0) ++ drop n dest)
  else Fault UndefinedBehaviour.

End WithBuild.

End Mixer.
