(* ===== verification/MixerSpec.v ===== *)
(** Theorems about the mixers of [Mixer].

    Sampling is specified by a signal: a function from positions, in fractions of a
    frame, to samples.  [steps] says how many output frames a call produces,
    [rendered] that these frames hold the signal's samples, scaled, and that all other
    frames of the buffer are as before.  The point sampler's signal holds each frame
    until the next, the linear sampler's interpolates, starting from the last frame of
    the previous buffer. *)

From S2P Require Import Prelude LinearTransform StreamTypes TypeConversions Lpcm Mixer.

Module MixerSpec.
Import LinearTransform TypeConversions Mixer.
Import Lpcm (swrap).

Definition is_s16 (z : Z) : Prop := -0x8000 ≤ z ≤ 0x7fff.

Lemma swrap_small w z : 0 < w → - 2 ^ (w - 1) ≤ z < 2 ^ (w - 1) → swrap w z = z.
Proof.
  intros Hw Hz. unfold swrap. replace (2 ^ w) with (2 * 2 ^ (w - 1)).
  - rewrite Z.mod_small; lia.
  - rewrite <- Z.pow_succ_r by lia. f_equal. lia.
Qed.

Lemma swrap32_small z : - 2 ^ 31 ≤ z < 2 ^ 31 → swrap 32 z = z.
Proof. intros Hz. by apply swrap_small. Qed.

Lemma u32_small z : 0 ≤ z < 2 ^ 32 → u32 z = z.
Proof. intros Hz. by apply uwrap_small. Qed.

(** ** Scaling *)

Definition clamp16 (z : Z) : Z := Z.max (-0x8000) (Z.min 0x7fff z).

(** What scaling a sample by an amplitude is meant to compute, for every amplitude. *)
Definition scaled (amplitude s : Z) : Z := clamp16 (s * amplitude / UNITY).

(** The kind of scaling that the dispatch chooses. *)
Definition scaler_for (amplitude : Z) : ScalerType := select_scaler amplitude true (λ st _, st).
Definition muted (amplitude : Z) : bool := amplitude <? MuteThreshold 15.

Lemma clamp16_range z : is_s16 (clamp16 z).
Proof. unfold clamp16, is_s16. lia. Qed.

Lemma scale_shift s a :
  is_s16 s → is_u 32 a →
  swrap 32 (Z.shiftr (s * a) FRACTIONAL_BITS) = s * a / UNITY ∧ - 2 ^ 20 ≤ s * a / UNITY < 2 ^ 20.
Proof.
  unfold is_s16, is_u. intros Hs Ha. rewrite Z.shiftr_div_pow2 by (unfold FRACTIONAL_BITS; lia).
  change (2 ^ FRACTIONAL_BITS) with UNITY.
  assert (- 2 ^ 20 ≤ s * a / UNITY < 2 ^ 20).
  { change UNITY with (2 ^ 28). split.
    - apply Z.div_le_lower_bound; nia.
    - apply Z.div_lt_upper_bound; nia. }
  split; [apply swrap32_small; lia|done].
Qed.

(** The scaling that is chosen agrees with the definition for all amplitudes but the
    muted ones, and those scale every sample to 0 or -1. *)
Lemma scaler_equiv s a :
  is_s16 s → is_u 32 a →
  if muted a then scaler_for a = MUTED ∧ -1 ≤ scaled a s ≤ 0
  else Scale (scaler_for a) s a = scaled a s.
Proof.
  intros Hs Ha. destruct (scale_shift s a Hs Ha) as [Es Hr].
  unfold muted, scaler_for, select_scaler, scaled. unfold is_s16 in Hs. unfold is_u in Ha.
  change (MuteThreshold 15) with 8191. change UNITY with (2 ^ 28) in *.
  destruct (Z.eqb_spec a (2 ^ 28)) as [-> |Hne].
  { rewrite (proj2 (Z.ltb_ge _ _)) by lia. cbn [Scale]. rewrite Z.div_mul by lia.
    unfold clamp16. lia. }
  destruct (Z.ltb_spec a 8191) as [Hm|Hm].
  { split; [done|]. assert (-1 ≤ s * a / 2 ^ 28 ≤ 0); [|unfold clamp16; lia].
    split; [apply Z.div_le_lower_bound; nia|].
    assert (s * a / 2 ^ 28 < 1); [|lia]. apply Z.div_lt_upper_bound; nia. }
  destruct (Z.ltb_spec a (2 ^ 28)) as [Hl|Hl]; cbn [Scale]; rewrite Es.
  - assert (-0x8000 ≤ s * a / 2 ^ 28 ≤ 0x7fff); [|unfold clamp16; lia].
    split; [apply Z.div_le_lower_bound; nia|].
    assert (s * a / 2 ^ 28 < 0x8000); [|lia]. apply Z.div_lt_upper_bound; nia.
  - unfold clamp16. destruct (Z.ltb_spec 0x7fff (s * a / 2 ^ 28)); [lia|].
    destruct (Z.ltb_spec (s * a / 2 ^ 28) (-0x8000)); lia.
Qed.

(** ** Reading the source *)

(** The channel counts for which samplers are instantiated. *)
Definition config_ok (c : config) : Prop :=
  (SChCount c = 1 ∨ SChCount c = 2)%nat ∧ (DChCount c = 1 ∨ DChCount c = 2)%nat.

Definition sample_of (c : config) (src : list Z) (i : nat) : Z :=
  Normalize (src_u8 c) (default 0 (src !! i)).

(** Frame [f] of the source as channel [d] of the destination reads it: mono is
    copied to both channels, stereo is averaged into one. *)
Definition frame (c : config) (src : list Z) (f : Z) (d : nat) : Z :=
  let i := (Z.to_nat f * SChCount c)%nat in
  if decide (SChCount c = 2 ∧ DChCount c = 1)%nat
  then (sample_of c src i + sample_of c src (S i)) / 2
  else sample_of c src (if decide (SChCount c = 1)%nat then i else i + d)%nat.

(** Source samples are of the format's type. *)
Definition src_ok (c : config) (src : list Z) : Prop :=
  Forall (λ v, if src_u8 c then 0 ≤ v < 256 else is_s16 v) src.

(** A buffer of [n] frames. *)
Definition source (c : config) (src : list Z) (n : nat) : Prop :=
  config_ok c ∧ src_ok c src ∧ length src = (n * SChCount c)%nat.

Lemma sample_of_s16 c src i : src_ok c src → (i < length src)%nat → is_s16 (sample_of c src i).
Proof.
  intros Hs Hi. unfold sample_of. destruct (lookup_lt_is_Some_2 src i Hi) as [v Hv]. rewrite Hv.
  unfold src_ok in Hs. rewrite Forall_lookup in Hs. specialize (Hs i v Hv). cbn.
  unfold Normalize, is_s16 in *. destruct (src_u8 c); [|done].
  rewrite Z.shiftl_mul_pow2 by lia. lia.
Qed.

Lemma frame_s16 c src n f d :
  source c src n → 0 ≤ f < Z.of_nat n → (d < DChCount c)%nat → is_s16 (frame c src f d).
Proof.
  intros (Hc & Hs & Hl) Hf Hd. unfold frame.
  assert ((Z.to_nat f < n)%nat) as Hn by lia.
  assert (∀ j, (j < SChCount c)%nat → is_s16 (sample_of c src (Z.to_nat f * SChCount c + j))) as Hj.
  { intros j Hj. apply sample_of_s16; [done|]. nia. }
  case_decide as E.
  - destruct E as [E1 E2]. pose proof (Hj 0%nat ltac:(lia)) as H0. pose proof (Hj 1%nat ltac:(lia)) as H1.
    rewrite Nat.add_0_r in H0. rewrite Nat.add_1_r in H1. unfold is_s16 in *.
    pose proof (Z.div_mod (sample_of c src (Z.to_nat f * SChCount c)
      + sample_of c src (S (Z.to_nat f * SChCount c))) 2 ltac:(lia)).
    pose proof (Z.mod_pos_bound (sample_of c src (Z.to_nat f * SChCount c)
      + sample_of c src (S (Z.to_nat f * SChCount c))) 2 ltac:(lia)). lia.
  - case_decide as E1.
    + specialize (Hj 0%nat ltac:(lia)). by rewrite Nat.add_0_r in Hj.
    + apply Hj. destruct Hc as [Hc1 Hc2]. lia.
Qed.

Lemma load_run l i v : l !! i = Some v → load l (Z.of_nat i) = Ok v.
Proof.
  intros Hv. unfold load. rewrite (proj2 (Z.ltb_ge _ _)) by lia. by rewrite Nat2Z.id, Hv.
Qed.

Lemma load_sample c src i :
  (i < length src)%nat →
  ∃ v, load src (Z.of_nat i) = Ok v ∧ Normalize (src_u8 c) v = sample_of c src i.
Proof.
  intros Hi. destruct (lookup_lt_is_Some_2 src i Hi) as [v Hv]. exists v.
  split; [by apply load_run|]. unfold sample_of. by rewrite Hv.
Qed.

Lemma Read_run c src n f d :
  source c src n → 0 ≤ f < Z.of_nat n → (d < DChCount c)%nat →
  Read c src (f * Z.of_nat (SChCount c) + Z.of_nat (d / DstPerSrc c)) = Ok (frame c src f d).
Proof.
  intros ([Hs Hd'] & Hok & Hl) Hf Hd. unfold Read, frame, DstPerSrc. case_decide as E.
  - destruct E as [E1 E2]. rewrite E1 in *. replace (d / 1)%nat with 0%nat by (rewrite Nat.div_1_r; lia).
    destruct (load_sample c src (Z.to_nat f * 2)) as (a & La & Ea); [nia|].
    destruct (load_sample c src (S (Z.to_nat f * 2))) as (b & Lb & Eb); [nia|].
    replace (f * Z.of_nat 2 + Z.of_nat 0) with (Z.of_nat (Z.to_nat f * 2)) by lia. rewrite La.
    cbn [mbind outcome_bind].
    replace (Z.of_nat (Z.to_nat f * 2) + 1) with (Z.of_nat (S (Z.to_nat f * 2))) by lia. rewrite Lb.
    cbn [mbind outcome_bind]. rewrite Ea, Eb, Z.shiftr_div_pow2 by lia. done.
  - assert (d / (DChCount c / SChCount c) = if decide (SChCount c = 1) then 0 else d)%nat as ->.
    { case_decide as E1.
      - rewrite E1, Nat.div_1_r. apply Nat.div_small. lia.
      - assert (SChCount c = 2 ∧ DChCount c = 2)%nat as [-> ->] by lia. cbn [Nat.div].
        by rewrite Nat.div_1_r. }
    set (i := (if decide (SChCount c = 1)%nat then Z.to_nat f * SChCount c
               else Z.to_nat f * SChCount c + d)%nat).
    destruct (load_sample c src i) as (a & La & Ea).
    { subst i. case_decide; nia. }
    replace (f * Z.of_nat (SChCount c) + _) with (Z.of_nat i) by (subst i; case_decide; nia).
    rewrite La. cbn [mbind outcome_bind]. by rewrite Ea.
Qed.

(** ** Rendering *)

(** What mixing a sample into a buffer is meant to store. *)
Definition put (accumulate : bool) (amplitude o s : Z) : Z :=
  if accumulate then scaled amplitude s + o else scaled amplitude s.

(** The frames [doff], ..., [doff + N - 1] of a buffer of [D] channels, rendered from a
    signal at the positions [soff], [soff + step], ... *)
Definition render (D : nat) (store : Z → Z → Z) (sig : Z → nat → Z) (doff soff step N : Z)
    (dst : list Z) : list Z :=
  imap (λ i o,
    let f := Z.of_nat (i / D) in
    if (doff <=? f) && (f <? doff + N) then store o (sig (soff + (f - doff) * step) (i mod D)%nat)
    else o) dst.

(** The number of frames that fit: up to the end of the destination and for positions
    before [src_end]. *)
Definition avail (dst_frames src_end step doff soff : Z) : Z :=
  Z.max 0 (Z.min (dst_frames - doff) ((src_end - soff + step - 1) / step)).

(** Room for one more sample in the accumulated frames from [doff] on. *)
Definition headroom (D : nat) (accumulate : bool) (doff : Z) (dst : list Z) : Prop :=
  accumulate = true → ∀ i o, doff * Z.of_nat D ≤ Z.of_nat i → dst !! i = Some o →
  - 2 ^ 31 + 2 ^ 15 ≤ o < 2 ^ 31 - 2 ^ 15.

Lemma length_render D store sig doff soff step N dst :
  length (render D store sig doff soff step N dst) = length dst.
Proof. apply length_imap. Qed.

Lemma lookup_render D store sig doff soff step N dst i :
  render D store sig doff soff step N dst !! i =
    (λ o, if decide (doff ≤ Z.of_nat (i / D) < doff + N)
          then store o (sig (soff + (Z.of_nat (i / D) - doff) * step) (i mod D)%nat) else o)
      <$> dst !! i.
Proof.
  unfold render. rewrite list_lookup_imap. destruct (dst !! i); [|done]. cbn. f_equal.
  case_decide as E; [by rewrite (proj2 (Z.leb_le _ _)), (proj2 (Z.ltb_lt _ _)) by lia|].
  by destruct (Z.leb_spec doff (Z.of_nat (i / D))), (Z.ltb_spec (Z.of_nat (i / D)) (doff + N));
    [lia|..].
Qed.

Lemma render_nil D store sig doff soff step N dst :
  N ≤ 0 → render D store sig doff soff step N dst = dst.
Proof.
  intros HN. apply list_eq. intros i. rewrite lookup_render. destruct (dst !! i); [|done].
  cbn. rewrite decide_False by lia. done.
Qed.

Lemma render_app D store sig doff soff step N M dst :
  0 ≤ N → 0 ≤ M →
  render D store sig (doff + N) (soff + N * step) step M (render D store sig doff soff step N dst)
  = render D store sig doff soff step (N + M) dst.
Proof.
  intros HN HM. apply list_eq. intros i. rewrite !lookup_render.
  destruct (dst !! i) as [o|]; [|done]. cbn. f_equal.
  repeat case_decide; try lia; try done. f_equal. f_equal. lia.
Qed.

Lemma render_ext D store sig sig' doff soff step N dst :
  D ≠ 0%nat →
  (∀ j d, 0 ≤ j < N → (d < D)%nat → sig (soff + j * step) d = sig' (soff + j * step) d) →
  render D store sig doff soff step N dst = render D store sig' doff soff step N dst.
Proof.
  intros HD Hs. apply list_eq. intros i. rewrite !lookup_render.
  destruct (dst !! i); [|done]. cbn. case_decide; [|done]. f_equal. f_equal.
  apply Hs; [lia|]. by apply Nat.mod_upper_bound.
Qed.

Lemma headroom_render D acc store sig doff soff step N dst :
  D ≠ 0%nat → 0 ≤ N → headroom D acc doff dst →
  headroom D acc (doff + N) (render D store sig doff soff step N dst).
Proof.
  intros HD HN Hh Ha i o Hi. rewrite lookup_render. intros Ho.
  apply fmap_Some in Ho as (o' & Ho' & ->).
  assert (doff + N ≤ Z.of_nat (i / D)).
  { rewrite Nat2Z.inj_div. apply Z.div_le_lower_bound; lia. }
  rewrite decide_False by lia. apply (Hh Ha i o'); [nia|done].
Qed.

(** *** Counting frames *)

Lemma avail_unique dst_frames src_end step doff soff n :
  0 < step →
  (n = avail dst_frames src_end step doff soff ↔
   0 ≤ n ∧ (0 < n → n ≤ dst_frames - doff ∧ soff + (n - 1) * step < src_end) ∧
   (dst_frames ≤ doff + n ∨ src_end ≤ soff + n * step)).
Proof.
  intros Hs. unfold avail.
  pose proof (Z.div_mod (src_end - soff + step - 1) step ltac:(lia)).
  pose proof (Z.mod_pos_bound (src_end - soff + step - 1) step Hs).
  set (q := (src_end - soff + step - 1) / step) in *. split; [intros ->|intros (H1 & H2 & H3)].
  - split_and!; [lia|intros; split; nia|].
    destruct (Z.le_gt_cases dst_frames (doff + Z.max 0 (Z.min (dst_frames - doff) q))); [by left|right].
    nia.
  - destruct (Z.eq_dec n 0) as [-> |Hn]; [destruct H3; [lia|nia]|].
    destruct (H2 ltac:(lia)) as [H4 H5]. assert (n ≤ q) by nia.
    destruct H3 as [H3|H3]; [lia|]. assert (q ≤ n) by nia. lia.
Qed.

Lemma avail_bounds dst_frames src_end step doff soff :
  0 < step →
  let n := avail dst_frames src_end step doff soff in
  0 ≤ n ∧ (doff ≤ dst_frames → doff + n ≤ dst_frames) ∧
  (soff ≤ src_end → soff + n * step < src_end + step) ∧
  (∀ j, 0 ≤ j < n → soff + j * step < src_end) ∧
  (dst_frames ≤ doff + n ∨ src_end ≤ soff + n * step).
Proof.
  intros Hs n. destruct (proj1 (avail_unique dst_frames src_end step doff soff n Hs) eq_refl)
    as (H1 & H2 & H3).
  assert (n = 0 ∨ 0 < n) as [Hn|Hn] by lia; [rewrite Hn in *|destruct (H2 Hn)];
    (split_and!; [lia|lia|nia| |done]); intros j Hj; nia.
Qed.

Lemma avail_step dst_frames src_end step doff soff :
  0 < step → doff < dst_frames → soff < src_end →
  avail dst_frames src_end step doff soff
  = 1 + avail dst_frames src_end step (doff + 1) (soff + step).
Proof.
  intros Hs Hd Hf. symmetry. apply avail_unique; [done|].
  destruct (proj1 (avail_unique dst_frames src_end step (doff + 1) (soff + step) _ Hs) eq_refl)
    as (H1 & H2 & H3). set (m := avail _ _ _ (doff + 1) _) in *.
  split_and!; [lia| |destruct H3; [left|right]; lia].
  intros _. assert (m = 0 ∨ 0 < m) as [-> |Hm] by lia; [lia|]. specialize (H2 Hm). split; lia.
Qed.

Lemma avail_none dst_frames src_end step doff soff :
  0 < step → dst_frames ≤ doff ∨ src_end ≤ soff → avail dst_frames src_end step doff soff = 0.
Proof. intros Hs Hd. symmetry. apply avail_unique; [done|]. lia. Qed.

(** Stopping at an earlier position first does not change the number of frames. *)
Lemma avail_split dst_frames e1 e2 step doff soff :
  0 < step → e1 ≤ e2 →
  let n := avail dst_frames e1 step doff soff in
  avail dst_frames e2 step doff soff
  = n + avail dst_frames e2 step (doff + n) (soff + n * step).
Proof.
  intros Hs He n. symmetry. apply avail_unique; [done|].
  destruct (proj1 (avail_unique dst_frames e1 step doff soff n Hs) eq_refl) as (H1 & H2 & _).
  destruct (proj1 (avail_unique dst_frames e2 step (doff + n) (soff + n * step) _ Hs) eq_refl)
    as (H3 & H4 & H5). set (m := avail _ _ _ (doff + n) _) in *.
  split_and!; [lia| |destruct H5; [left|right]; lia].
  intros Hnm. assert (m = 0 ∨ 0 < m) as [Hm|Hm] by lia.
  - rewrite Hm, Z.add_0_r in *. specialize (H2 Hnm). lia.
  - specialize (H4 Hm). split; nia.
Qed.

(** ** One frame *)

Section WithBuild.
Context `{Build}.

Lemma s32_run z : - 2 ^ 31 ≤ z < 2 ^ 31 → s32 z = Ok z.
Proof. intros Hz. unfold s32. by rewrite (proj2 (Z.leb_le _ _)), (proj2 (Z.ltb_lt _ _)) by lia. Qed.

Lemma swrap_u32 z : - 2 ^ 31 ≤ z < 2 ^ 31 → swrap 32 (u32 z) = z.
Proof.
  intros Hz. unfold swrap, u32, uwrap. rewrite Z.add_mod_idemp_l by lia.
  rewrite Z.mod_small; lia.
Qed.

(** The kind of scaling implements the scaling by [a]. *)
Definition scales (st : ScalerType) (a : Z) : Prop := ∀ s, is_s16 s → Scale st s a = scaled a s.

Lemma select_scaler_run {A} a acc (mix : ScalerType → bool → A) :
  is_u 32 a →
  (muted a = true ∧ select_scaler a acc mix = mix MUTED false) ∨
  (muted a = false ∧ ∃ st, st ≠ MUTED ∧ scales st a ∧ select_scaler a acc mix = mix st acc).
Proof.
  intros Ha. pose proof (λ s Hs, scaler_equiv s a Hs Ha) as He.
  unfold muted, select_scaler, scaler_for, select_scaler in *.
  change (MuteThreshold 15) with 8191 in *. change UNITY with (2 ^ 28) in *.
  destruct (Z.eqb_spec a (2 ^ 28)) as [-> |Hne].
  { right. split; [done|]. exists EQ_UNITY. split_and!; [done|exact He|done]. }
  destruct (Z.ltb_spec a 8191); [by left|].
  right. split; [done|]. destruct (Z.ltb_spec a (2 ^ 28));
    eexists; (split_and!; [..|done]); first [exact He|done].
Qed.

Lemma DstMix_run st acc a o s :
  scales st a → is_s16 s → (acc = true → - 2 ^ 31 + 2 ^ 15 ≤ o < 2 ^ 31 - 2 ^ 15) →
  DstMix st acc o s a = Ok (put acc a o s).
Proof.
  intros Hst Hs Ho. unfold DstMix, put. rewrite (Hst s Hs). destruct acc; [|done].
  apply s32_run. pose proof (clamp16_range (s * a / UNITY)) as Hc. specialize (Ho eq_refl).
  unfold scaled, is_s16 in *. lia.
Qed.

Lemma mix_frame_seq st acc a sample sg b n :
  scales st a → ∀ j dst,
  (∀ d, (j ≤ d < j + n)%nat → sample d = Ok (sg d) ∧ is_s16 (sg d)) →
  (b + j + n ≤ length dst)%nat →
  (acc = true → ∀ i o, (b + j ≤ i)%nat → dst !! i = Some o → - 2 ^ 31 + 2 ^ 15 ≤ o < 2 ^ 31 - 2 ^ 15) →
  mix_frame st acc a sample (Z.of_nat b) (seq j n) dst
  = Ok (imap (λ i o, if decide (b + j ≤ i < b + j + n)%nat then put acc a o (sg (i - b)%nat) else o) dst).
Proof.
  intros Hst. induction n as [|n IH]; intros j dst Hsm Hl Hh; cbn [seq mix_frame].
  { f_equal. apply list_eq. intros i. rewrite list_lookup_imap. destruct (dst !! i); [|done].
    cbn. by rewrite decide_False by lia. }
  destruct (Hsm j ltac:(lia)) as [Hj Hjs]. rewrite Hj. cbn [mbind outcome_bind].
  destruct (lookup_lt_is_Some_2 dst (b + j)) as [o Ho]; [lia|].
  rewrite <- Nat2Z.inj_add. rewrite (load_run _ _ _ Ho). cbn [mbind outcome_bind].
  rewrite (DstMix_run _ _ _ _ _ Hst Hjs) by (intros Ha; apply (Hh Ha (b + j)%nat); [lia|done]).
  cbn [mbind outcome_bind]. rewrite Nat2Z.id, IH.
  - f_equal. apply list_eq. intros i. rewrite !list_lookup_imap.
    destruct (decide (i = b + j)%nat) as [-> |Hi].
    + rewrite list_lookup_insert_eq by lia. rewrite Ho. cbn.
      rewrite decide_False, decide_True by lia. do 2 f_equal. f_equal. lia.
    + rewrite list_lookup_insert_ne by done. destruct (dst !! i); [|done]. cbn. f_equal.
      repeat case_decide; try lia; done.
  - intros d Hd. apply Hsm. lia.
  - rewrite length_insert. lia.
  - intros Ha i o' Hi. rewrite list_lookup_insert_ne by lia. apply (Hh Ha). lia.
Qed.

Lemma frame_index i f D :
  (D ≠ 0 → f * D ≤ i < f * D + D → i / D = f ∧ i mod D = i - f * D)%nat.
Proof.
  intros HD Hi. assert (i = D * f + (i - f * D))%nat as E by lia. split.
  - symmetry. apply (Nat.div_unique _ _ _ (i - f * D)%nat); lia.
  - symmetry. apply (Nat.mod_unique _ _ f); lia.
Qed.

Lemma mix_frame_run D st acc a sample sig (doff soff step : Z) dst :
  scales st a → D ≠ 0%nat → 0 ≤ doff →
  (∀ d, (d < D)%nat → sample d = Ok (sig soff d) ∧ is_s16 (sig soff d)) →
  (doff + 1) * Z.of_nat D ≤ Z.of_nat (length dst) →
  headroom D acc doff dst →
  mix_frame st acc a sample (doff * Z.of_nat D) (seq 0 D) dst
  = Ok (render D (put acc a) sig doff soff step 1 dst).
Proof.
  intros Hst HD Hd Hs Hl Hh.
  replace (doff * Z.of_nat D) with (Z.of_nat (Z.to_nat doff * D)) by lia.
  rewrite (mix_frame_seq st acc a sample (sig soff) _ _ Hst).
  - f_equal. apply list_eq. intros i. rewrite lookup_render, list_lookup_imap.
    destruct (dst !! i) as [o|]; [|done]. cbn. f_equal. rewrite Nat.add_0_r. case_decide as E.
    + destruct (frame_index i (Z.to_nat doff) D HD E) as [-> ->].
      rewrite decide_True by lia. do 2 f_equal. rewrite Z2Nat.id by done. lia.
    + rewrite decide_False; [done|]. intros E'. apply E.
      pose proof (Nat.div_mod_eq i D). pose proof (Nat.mod_upper_bound i D HD).
      assert (i / D = Z.to_nat doff)%nat as E2 by lia. rewrite E2 in *. lia.
  - intros d Hd'. apply Hs. lia.
  - nia.
  - intros Ha i o Hi. apply (Hh Ha). lia.
Qed.

(** ** The point sampler *)

(** A sequence of frames, held until the next. *)
Definition held (c : config) (src : list Z) (s : Z) (d : nat) : Z := frame c src (s / FRAC_ONE) d.

(** The call's arguments fit each other: the destination has its frames, the offset
    lies before the end, and the position after the last step is a 32-bit integer. *)
Definition args_ok (c : config) (dst_frames src_end step : Z) (k : cursor) : Prop :=
  is_u 32 dst_frames ∧ 0 ≤ doff k ∧ dst_frames * Z.of_nat (DChCount c) ≤ Z.of_nat (length (buf k)) ∧
  0 < step ∧ - FRAC_ONE < soff k ∧ 0 ≤ src_end ∧ src_end + step ≤ 2 ^ 31.

Lemma config_D c : config_ok c → DChCount c ≠ 0%nat.
Proof. intros [_ Hd]. lia. Qed.

Lemma advance_run soff step src_end :
  - FRAC_ONE < soff → soff < src_end → 0 < step → src_end + step ≤ 2 ^ 31 →
  advance_soff soff step = soff + step.
Proof. intros. unfold advance_soff. apply swrap_u32. change FRAC_ONE with 4096 in *. lia. Qed.

(** The position of a frame in the source, as the samplers compute it. *)
Lemma src_position c src n s :
  source c src n → 0 ≤ s < Z.of_nat n * FRAC_ONE → Z.of_nat n * FRAC_ONE ≤ 2 ^ 31 →
  u32 (Z.shiftr s PTS_FRACTIONAL_BITS * Z.of_nat (SChCount c)) = s / FRAC_ONE * Z.of_nat (SChCount c)
  ∧ 0 ≤ s / FRAC_ONE < Z.of_nat n.
Proof.
  intros ([Hs _] & _ & _) Hsn Hn. rewrite Z.shiftr_div_pow2 by (unfold PTS_FRACTIONAL_BITS; lia).
  change (2 ^ PTS_FRACTIONAL_BITS) with FRAC_ONE. change FRAC_ONE with 4096 in *.
  assert (0 ≤ s / 4096 < Z.of_nat n).
  { split; [apply Z.div_pos; lia|apply Z.div_lt_upper_bound; lia]. }
  split; [|done]. unfold u32, uwrap. apply Z.mod_small. nia.
Qed.

(** The loops of both samplers advance like this. *)
Lemma cursor_step D store sig dst_frames src_end step k :
  0 < step → doff k < dst_frames → soff k < src_end →
  let n := avail dst_frames src_end step (doff k + 1) (soff k + step) in
  mk_cursor (render D store sig (doff k + 1) (soff k + step) step n
              (render D store sig (doff k) (soff k) step 1 (buf k)))
    (doff k + 1 + n) (soff k + step + n * step)
  = let n := avail dst_frames src_end step (doff k) (soff k) in
    mk_cursor (render D store sig (doff k) (soff k) step n (buf k)) (doff k + n) (soff k + n * step).
Proof.
  intros Hs Hd Hf n. cbn zeta. rewrite (avail_step dst_frames src_end step (doff k) (soff k)) by done.
  destruct (avail_bounds dst_frames src_end step (doff k + 1) (soff k + step) Hs) as [Hn _].
  fold n in Hn |- *. rewrite <- (render_app D store sig (doff k) (soff k) step 1 n) by lia.
  f_equal; [f_equal; lia|lia|lia].
Qed.

Lemma args_ok_step c dst_frames src_end step store sig k :
  args_ok c dst_frames src_end step k → doff k < dst_frames → soff k < src_end →
  args_ok c dst_frames src_end step
    (mk_cursor (render (DChCount c) store sig (doff k) (soff k) step 1 (buf k)) (doff k + 1) (soff k + step)).
Proof.
  intros (? & ? & ? & ? & ? & ? & ?) ? ?. unfold args_ok. cbn. rewrite length_render.
  split_and!; try done; lia.
Qed.

Lemma args_ok_room c dst_frames src_end step k :
  args_ok c dst_frames src_end step k → doff k < dst_frames →
  (doff k + 1) * Z.of_nat (DChCount c) ≤ Z.of_nat (length (buf k)) ∧ u32 (doff k + 1) = doff k + 1.
Proof.
  intros (Hu & ? & ? & ? & ? & ? & ?) ?. split; [nia|]. unfold u32, uwrap.
  unfold is_u in Hu. apply Z.mod_small. lia.
Qed.

(** The cursor after all frames that fit. *)
Definition moved (D : nat) store sig (dst_frames src_end step : Z) (k : cursor) : cursor :=
  let n := avail dst_frames src_end step (doff k) (soff k) in
  mk_cursor (render D store sig (doff k) (soff k) step n (buf k)) (doff k + n) (soff k + n * step).

Lemma moved_none D store sig dst_frames src_end step k :
  0 < step → dst_frames ≤ doff k ∨ src_end ≤ soff k →
  moved D store sig dst_frames src_end step k = k.
Proof.
  intros Hs Hd. unfold moved. rewrite avail_none by done. rewrite render_nil by lia.
  destruct k; cbn. f_equal; lia.
Qed.

Lemma moved_step D store sig dst_frames src_end step k :
  0 < step → doff k < dst_frames → soff k < src_end →
  moved D store sig dst_frames src_end step
    (mk_cursor (render D store sig (doff k) (soff k) step 1 (buf k)) (doff k + 1) (soff k + step))
  = moved D store sig dst_frames src_end step k.
Proof. intros. unfold moved. cbn [buf doff soff]. by apply cursor_step. Qed.

Lemma moved_split D store sig dst_frames e1 e2 step k :
  0 < step → e1 ≤ e2 →
  moved D store sig dst_frames e2 step (moved D store sig dst_frames e1 step k)
  = moved D store sig dst_frames e2 step k.
Proof.
  intros Hs He. unfold moved. cbn [buf doff soff].
  rewrite (avail_split dst_frames e1 e2 step (doff k) (soff k)) by done. cbn zeta.
  set (n := avail dst_frames e1 step (doff k) (soff k)).
  destruct (avail_bounds dst_frames e1 step (doff k) (soff k) Hs) as [Hn _]. fold n in Hn.
  destruct (avail_bounds dst_frames e2 step (doff k + n) (soff k + n * step) Hs) as [Hm _].
  rewrite render_app by done. f_equal; lia.
Qed.

Lemma ltb_and a b c d : (a <? b) && (c <? d) = true ↔ a < b ∧ c < d.
Proof. by rewrite andb_true_iff, !Z.ltb_lt. Qed.

Lemma point_loop_run c src n st acc a dst_frames step :
  source c src n → scales st a →
  let F := Z.of_nat n * FRAC_ONE in
  ∀ fuel k, args_ok c dst_frames F step k → 0 ≤ soff k → headroom (DChCount c) acc (doff k) (buf k) →
  (Z.to_nat (dst_frames - doff k) ≤ fuel)%nat →
  point_loop fuel c st acc a src dst_frames F step k
  = Ok (moved (DChCount c) (put acc a) (held c src) dst_frames F step k).
Proof.
  intros Hsrc Hst F. pose proof (config_D c (proj1 Hsrc)) as HD.
  induction fuel as [|fuel IH]; intros k Ha Hs0 Hh Hf; cbn [point_loop];
    pose proof Ha as (_ & _ & _ & Hstep & Hlow & _ & Hmax);
    destruct ((doff k <? dst_frames) && (soff k <? F)) eqn:E;
    try (apply andb_false_iff in E; rewrite !Z.ltb_ge in E; by rewrite moved_none);
    apply ltb_and in E as [E1 E2]; [lia|].
  destruct (src_position c src n (soff k) Hsrc) as [-> Hp]; [lia|lia|].
  destruct (args_ok_room _ _ _ _ _ Ha E1) as [Hr Hu].
  rewrite (mix_frame_run (DChCount c) st acc a _ (held c src) (doff k) (soff k) step); try done.
  - cbn [mbind outcome_bind]. rewrite Hu, (advance_run _ _ F) by done.
    rewrite IH; cbn [doff soff buf]; [by rewrite moved_step| | | |lia].
    + by apply args_ok_step.
    + lia.
    + by apply headroom_render.
  - apply Ha.
  - intros d Hd. split; [by apply (Read_run c src n)|]. by apply (frame_s16 c src n).
Qed.

(** A muted mix moves the cursor as if it had rendered. *)
Lemma skip_frames_run c dst_frames src_end step k D store sig :
  args_ok c dst_frames src_end step k → doff k < dst_frames → soff k < src_end →
  let k' := moved D store sig dst_frames src_end step k in
  skip_frames dst_frames src_end step k = Ok (mk_cursor (buf k) (doff k') (soff k')).
Proof.
  intros (Hu & Hd0 & _ & Hs & Hlow & He & Hmax) Hd Hf k'. unfold skip_frames.
  rewrite (proj2 (Z.eqb_neq _ _)) by lia. change FRAC_ONE with 4096 in *. unfold is_u in Hu.
  assert (Z.min (u32 (u32 (src_end - soff k) + step - 1) / step) (u32 (dst_frames - doff k))
          = avail dst_frames src_end step (doff k) (soff k)) as ->.
  { unfold avail. rewrite (u32_small (src_end - soff k)), (u32_small (dst_frames - doff k)) by lia.
    rewrite u32_small by lia. rewrite Z.max_r; [lia|]. apply Z.min_glb; [lia|].
    apply Z.div_pos; lia. }
  destruct (avail_bounds dst_frames src_end step (doff k) (soff k) Hs) as (H1 & H2 & H3 & _).
  subst k'. unfold moved. cbn [doff soff]. set (m := avail _ _ _ _ _) in *.
  do 2 f_equal; [apply u32_small; lia|].
  unfold u32 at 2, u32 at 1, uwrap. rewrite Z.add_mod_idemp_r by lia.
  change (((soff k + m * step) `mod` 2 ^ 32)) with (u32 (soff k + m * step)).
  apply swrap_u32. nia.
Qed.

(** Muted calls move only the offsets. *)
Definition mixed (a : Z) (k k' : cursor) : cursor :=
  if muted a then mk_cursor (buf k) (doff k') (soff k') else k'.

(** Point sampling equals the reference rendering. *)
Lemma PointSampler_Mix_run c src n dst_frames step a acc k :
  source c src n → is_u 32 a → let F := Z.of_nat n * FRAC_ONE in
  args_ok c dst_frames F step k → 0 ≤ soff k < F → headroom (DChCount c) acc (doff k) (buf k) →
  let k' := moved (DChCount c) (put acc a) (held c src) dst_frames F step k in
  PointSampler_Mix c dst_frames src F step a acc k
  = Ok (F <=? soff k', mixed a k k').
Proof.
  intros Hsrc Ha F Hk Hso Hh k'. unfold PointSampler_Mix, mixed.
  assert (swrap 32 F = F) as HF.
  { apply swrap32_small. destruct Hk as (_ & _ & _ & ? & _ & _ & ?). lia. }
  assert (F ≤ 2 ^ 31 - 1) as HF1 by (destruct Hk as (_ & _ & _ & ? & _ & _ & ?); lia).
  destruct (select_scaler_run a acc (λ st acc, point_mix c st acc a src dst_frames F step k) Ha)
    as [[-> ->]|(-> & st & Hne & Hst & ->)]; unfold point_mix; rewrite HF, !dcheck_true by lia;
    cbn [mbind outcome_bind].
  - destruct (Z.ltb_spec (doff k) dst_frames) as [Hd|Hd].
    + rewrite (skip_frames_run c _ _ _ _ (DChCount c) (put acc a) (held c src)) by (done || lia). done.
    + cbn [mbind outcome_bind]. subst k'. rewrite moved_none by (try apply Hk; lia). by destruct k.
  - assert (point_loop (Z.to_nat (dst_frames - doff k)) c st acc a src dst_frames F step k = Ok k') as E.
    { apply point_loop_run; try done; lia. }
    destruct st; [done|..]; rewrite E; done.
Qed.

(** ** The linear sampler *)

(** The weighted mean of two samples. *)
Definition interp (A B alpha : Z) : Z := (A * (FRAC_ONE - alpha) + B * alpha) / FRAC_ONE.

(** The frames of a stream: those of the current buffer, and before them the last one
    of the previous buffer. *)
Definition stream_frame (c : config) (prev src : list Z) (f : Z) (d : nat) : Z :=
  if f <? 0 then default 0 (prev !! d) else frame c src f d.

(** Straight lines between the frames of the stream. *)
Definition interpolated (c : config) (prev src : list Z) (s : Z) (d : nat) : Z :=
  interp (stream_frame c prev src (s / FRAC_ONE) d) (stream_frame c prev src (s / FRAC_ONE + 1) d)
    (s mod FRAC_ONE).

(** The filter's state: a frame of samples, and room for a second one. *)
Definition filter_ok (c : config) (filter : list Z) : Prop :=
  length filter = (2 * DChCount c)%nat ∧ Forall is_s16 (take (DChCount c) filter).

Lemma interp_between A B alpha :
  0 ≤ alpha ≤ FRAC_ONE → Z.min A B ≤ interp A B alpha ≤ Z.max A B.
Proof.
  change FRAC_ONE with 4096. intros Ha. unfold interp. change FRAC_ONE with 4096. split.
  - apply Z.div_le_lower_bound; nia.
  - apply Z.div_le_upper_bound; nia.
Qed.

Lemma interp_s16 A B alpha :
  is_s16 A → is_s16 B → 0 ≤ alpha ≤ FRAC_ONE → is_s16 (interp A B alpha).
Proof. intros HA HB Ha. pose proof (interp_between A B alpha Ha). unfold is_s16 in *. lia. Qed.

Lemma interp_sym A B alpha : interp A B (FRAC_ONE - alpha) = interp B A alpha.
Proof. unfold interp. f_equal. lia. Qed.

Lemma interp_0 A B : interp A B 0 = A.
Proof. unfold interp. replace (A * _ + _) with (A * FRAC_ONE) by lia. by apply Z.div_mul. Qed.

Lemma Interpolate_run A B alpha :
  is_s16 A → is_s16 B → 0 ≤ alpha ≤ FRAC_ONE → Interpolate A B alpha = Ok (interp A B alpha).
Proof.
  intros HA HB Ha. unfold Interpolate, interp. change FRAC_ONE with 4096 in *.
  unfold is_s16 in *. rewrite (swrap32_small (4096 - alpha)), (swrap32_small alpha) by lia.
  rewrite (s32_run (A * (4096 - alpha))) by nia. cbn [mbind outcome_bind].
  rewrite (s32_run (B * alpha)) by nia. cbn [mbind outcome_bind].
  rewrite s32_run by nia. cbn [mbind outcome_bind].
  by rewrite Z.shiftr_div_pow2 by (unfold PTS_FRACTIONAL_BITS; lia).
Qed.

Lemma read_frame_run c src n f ds :
  source c src n → 0 ≤ f < Z.of_nat n → Forall (λ d, (d < DChCount c)%nat) ds →
  read_frame c src (f * Z.of_nat (SChCount c)) ds = Ok (frame c src f <$> ds).
Proof.
  intros Hsrc Hf. induction 1 as [|d ds Hd _ IH]; [done|]. cbn [read_frame].
  rewrite (Read_run c src n) by done. cbn [mbind outcome_bind]. by rewrite IH.
Qed.

Lemma channels c : Forall (λ d, (d < DChCount c)%nat) (seq 0 (DChCount c)).
Proof. apply Forall_seq. lia. Qed.

Lemma linear_head_run c src n st acc a prev dst_frames step :
  source c src n → (0 < n)%nat → scales st a → length prev = DChCount c → Forall is_s16 prev →
  let filter := prev ++ (frame c src 0 <$> seq 0 (DChCount c)) in
  ∀ fuel k, args_ok c dst_frames 0 step k → soff k < 0 → doff k < dst_frames →
  headroom (DChCount c) acc (doff k) (buf k) → (Z.to_nat (dst_frames - doff k) ≤ fuel)%nat →
  linear_head fuel c st acc a filter dst_frames step k
  = Ok (moved (DChCount c) (put acc a) (interpolated c prev src) dst_frames 0 step k).
Proof.
  intros Hsrc Hn Hst Hlp Hp filter. pose proof (config_D c (proj1 Hsrc)) as HD.
  induction fuel as [|fuel IH]; intros k Ha Hs0 Hd0 Hh Hf; cbn [linear_head]; [lia|].
  pose proof Ha as (_ & Hd & _ & Hstep & Hlow & _ & Hmax).
  destruct (args_ok_room _ _ _ _ _ Ha Hd0) as [Hr Hu].
  rewrite (mix_frame_run (DChCount c) st acc a _ (interpolated c prev src) (doff k) (soff k) step);
    try done.
  - cbn [mbind outcome_bind]. rewrite Hu, (advance_run _ _ 0) by done. cbn [doff soff buf].
    destruct ((doff k + 1 <? dst_frames) && (soff k + step <? 0)) eqn:E.
    + apply ltb_and in E as [E1 E2]. rewrite IH; cbn [doff soff buf]; [by rewrite moved_step|..].
      * by apply args_ok_step.
      * lia.
      * lia.
      * by apply headroom_render.
      * lia.
    + apply andb_false_iff in E. rewrite !Z.ltb_ge in E.
      by rewrite <- (moved_step _ _ _ _ _ _ k), moved_none by (done || lia).
  - intros d Hd'. destruct (lookup_lt_is_Some_2 prev d) as [p Hpd]; [lia|].
    assert (is_s16 p) by (by apply (Forall_lookup_1 _ _ _ _ Hp Hpd)).
    pose proof (frame_s16 c src n 0 d Hsrc ltac:(lia) Hd') as Hf0.
    change FRAC_ONE with 4096 in *.
    assert (soff k / 4096 = -1 ∧ soff k mod 4096 = 4096 - - soff k) as [Eq Em].
    { split; [symmetry; apply (Z.div_unique _ _ _ (soff k + 4096)); lia|].
      symmetry. apply (Z.mod_unique _ _ (-1)); lia. }
    assert (interpolated c prev src (soff k) d = interp (frame c src 0 d) p (- soff k)) as ->.
    { unfold interpolated. change FRAC_ONE with 4096. rewrite Eq, Em.
      unfold stream_frame. cbn. rewrite Hpd. cbn [default from_option].
      change 4096 with FRAC_ONE. apply interp_sym. }
    split; [|apply interp_s16; (done || change FRAC_ONE with 4096; lia)].
    rewrite (load_run filter (DChCount c + d) (frame c src 0 d)).
    2:{ subst filter. rewrite lookup_app_r by lia. replace (_ - _)%nat with d by lia.
        rewrite list_lookup_fmap, lookup_seq_lt by done. done. }
    cbn [mbind outcome_bind]. rewrite (load_run filter _ p) by (subst filter; by apply lookup_app_l_Some).
    cbn [mbind outcome_bind]. rewrite u32_small by lia.
    apply Interpolate_run; (done || change FRAC_ONE with 4096; lia).
Qed.

Lemma linear_body_run c src n st acc a prev dst_frames step :
  source c src n → (0 < n)%nat → scales st a → Z.of_nat n * FRAC_ONE ≤ 2 ^ 31 →
  let send := (Z.of_nat n - 1) * FRAC_ONE in
  ∀ fuel k, args_ok c dst_frames send step k → 0 ≤ soff k ∨ dst_frames ≤ doff k →
  headroom (DChCount c) acc (doff k) (buf k) → (Z.to_nat (dst_frames - doff k) ≤ fuel)%nat →
  linear_body fuel c st acc a src dst_frames send step k
  = Ok (moved (DChCount c) (put acc a) (interpolated c prev src) dst_frames send step k).
Proof.
  intros Hsrc Hn Hst Hmax send. pose proof (config_D c (proj1 Hsrc)) as HD.
  induction fuel as [|fuel IH]; intros k Ha Hs0 Hh Hf; cbn [linear_body];
    pose proof Ha as (_ & _ & _ & Hstep & Hlow & _ & Hm);
    destruct ((doff k <? dst_frames) && (soff k <? send)) eqn:E;
    try (apply andb_false_iff in E; rewrite !Z.ltb_ge in E; by rewrite moved_none);
    apply ltb_and in E as [E1 E2]; [lia|].
  destruct Hs0 as [Hs0|?]; [|lia].
  destruct (src_position c src n (soff k) Hsrc) as [-> Hp];
    [subst send; change FRAC_ONE with 4096 in *; lia|done|].
  assert (0 ≤ soff k / FRAC_ONE + 1 < Z.of_nat n) as Hp2.
  { subst send. split; [lia|]. assert (soff k / FRAC_ONE < Z.of_nat n - 1); [|lia].
    apply Z.div_lt_upper_bound; [done|lia]. }
  destruct (args_ok_room _ _ _ _ _ Ha E1) as [Hr Hu].
  rewrite (mix_frame_run (DChCount c) st acc a _ (interpolated c prev src) (doff k) (soff k) step);
    try done.
  - cbn [mbind outcome_bind]. rewrite Hu, (advance_run _ _ send) by done.
    rewrite IH; cbn [doff soff buf]; [by rewrite moved_step| | | |lia].
    + by apply args_ok_step.
    + lia.
    + by apply headroom_render.
  - apply Ha.
  - intros d Hd. pose proof (frame_s16 c src n _ d Hsrc Hp Hd). pose proof (frame_s16 c src n _ d Hsrc Hp2 Hd).
    assert (0 ≤ soff k mod FRAC_ONE ≤ FRAC_ONE) as Hmod.
    { pose proof (Z.mod_pos_bound (soff k) FRAC_ONE ltac:(done)). lia. }
    unfold interpolated, stream_frame. rewrite !(proj2 (Z.ltb_ge _ _)) by lia.
    split; [|by apply interp_s16].
    rewrite (Read_run c src n) by done. cbn [mbind outcome_bind].
    replace (_ + _ + Z.of_nat (SChCount c))
      with ((soff k / FRAC_ONE + 1) * Z.of_nat (SChCount c) + Z.of_nat (d / DstPerSrc c)) by lia.
    rewrite (Read_run c src n) by done. cbn [mbind outcome_bind].
    change FRAC_MASK with (Z.ones PTS_FRACTIONAL_BITS).
    rewrite Z.land_ones by (unfold PTS_FRACTIONAL_BITS; lia). by apply Interpolate_run.
Qed.

(** The final frame is sampled when the position hits it. *)
Lemma moved_last D store sig dst_frames send step k :
  0 < step → send ≤ soff k ∨ dst_frames ≤ doff k →
  moved D store sig dst_frames (send + 1) step k
  = if (doff k <? dst_frames) && (soff k =? send)
    then mk_cursor (render D store sig (doff k) (soff k) step 1 (buf k)) (doff k + 1) (soff k + step)
    else k.
Proof.
  intros Hs Hk. destruct (Z.ltb_spec (doff k) dst_frames), (Z.eqb_spec (soff k) send); cbn [andb];
    try (apply moved_none; lia).
  rewrite <- moved_step by lia. by rewrite moved_none by (cbn; lia).
Qed.

Lemma args_ok_moved c dst_frames e1 e2 step store sig k :
  args_ok c dst_frames e2 step k → e1 ≤ e2 → doff k ≤ dst_frames →
  args_ok c dst_frames e2 step (moved (DChCount c) store sig dst_frames e1 step k).
Proof.
  intros (? & ? & ? & Hs & ? & ? & ?) He Hd. unfold args_ok, moved. cbn [buf doff soff].
  destruct (avail_bounds dst_frames e1 step (doff k) (soff k) Hs) as (? & ? & _).
  rewrite length_render. split_and!; try done; nia.
Qed.

Lemma args_ok_le c dst_frames e1 e2 step k :
  args_ok c dst_frames e2 step k → 0 ≤ e1 ≤ e2 → args_ok c dst_frames e1 step k.
Proof. intros (? & ? & ? & Hs & ? & ? & ?) He. split_and!; try done; lia. Qed.

Lemma headroom_moved c acc a dst_frames src_end step sig k :
  config_ok c → 0 < step → headroom (DChCount c) acc (doff k) (buf k) →
  let k' := moved (DChCount c) (put acc a) sig dst_frames src_end step k in
  headroom (DChCount c) acc (doff k') (buf k').
Proof.
  intros Hc Hs Hh. cbn. apply headroom_render; [by apply config_D| |done].
  apply (avail_bounds _ _ _ _ _ Hs).
Qed.

Lemma moved_stop D store sig dst_frames src_end step k :
  0 < step → let k' := moved D store sig dst_frames src_end step k in
  src_end ≤ soff k' ∨ dst_frames ≤ doff k'.
Proof.
  intros Hs. cbn. destruct (avail_bounds dst_frames src_end step (doff k) (soff k) Hs)
    as (_ & _ & _ & _ & H1). lia.
Qed.

(** What the filter keeps: only its first frame is read before it is written. *)
Definition keeps (c : config) (filter filter' : list Z) : Prop :=
  length filter' = length filter ∧ take (DChCount c) filter' = take (DChCount c) filter.

Lemma linear_main_run c src n st acc a filter dst_frames step k :
  source c src n → (0 < n)%nat → scales st a ∧ st ≠ MUTED ∨ st = MUTED → filter_ok c filter →
  Z.of_nat n * FRAC_ONE ≤ 2 ^ 31 → let send := (Z.of_nat n - 1) * FRAC_ONE in
  args_ok c dst_frames send step k → doff k < dst_frames → headroom (DChCount c) acc (doff k) (buf k) →
  let sig := interpolated c (take (DChCount c) filter) src in
  let k' := moved (DChCount c) (put acc a) sig dst_frames send step k in
  ∃ filter', keeps c filter filter' ∧
  linear_main c st acc a src dst_frames send step filter k
  = Ok (if decide (st = MUTED) then mk_cursor (buf k) (doff k') (soff k') else k', filter').
Proof.
  intros Hsrc Hn Hst [Hl Hp] Hm send Hk Hd Hh sig k'.
  pose proof Hk as (_ & Hd0 & _ & Hstep & Hlow & Hs0 & Hmax).
  unfold linear_main. destruct Hst as [[Hst Hne]| ->].
  2:{ exists filter. split; [done|]. destruct ((doff k <? dst_frames) && (soff k <? send)) eqn:E.
      - apply ltb_and in E as [E1 E2]. by rewrite (skip_frames_run c _ _ _ _ (DChCount c) (put acc a) sig).
      - apply andb_false_iff in E. rewrite !Z.ltb_ge in E. subst k'. rewrite moved_none by done.
        by destruct k. }
  assert (∃ filter', keeps c filter filter' ∧
    (if soff k <? 0 then
       first ← read_frame c src 0 (seq 0 (DChCount c));
       let filter := take (DChCount c) filter ++ first in
       k ← linear_head (Nat.max 1 (Z.to_nat (dst_frames - doff k))) c st acc a filter dst_frames step k;
       Ok (k, filter)
     else Ok (k, filter)) = Ok (moved (DChCount c) (put acc a) sig dst_frames 0 step k, filter'))
    as (filter' & Hf & E).
  { destruct (Z.ltb_spec (soff k) 0) as [Hneg|Hpos].
    - change 0 with (0 * Z.of_nat (SChCount c)) at 1.
      rewrite (read_frame_run c src n) by (done || lia || apply channels). cbn [mbind outcome_bind].
      rewrite (linear_head_run c src n); try done; try lia.
      + cbn [mbind outcome_bind]. eexists. split; [|done]. unfold keeps.
        rewrite take_app_le, take_take, length_app, length_fmap, length_seq, length_take by
          (rewrite length_take; lia).
        rewrite Nat.min_id. split; [lia|done].
      + rewrite length_take. lia.
      + apply (args_ok_le _ _ _ send); [done|lia].
    - exists filter. split; [done|]. by rewrite moved_none by (done || lia). }
  exists filter'. split; [done|]. rewrite decide_False by done.
  cbn zeta in E |- *. destruct st; [done|..]; rewrite E; cbn [mbind outcome_bind];
    (rewrite (linear_body_run c src n _ acc a (take (DChCount c) filter)); try done;
     [by rewrite moved_split | apply args_ok_moved; (done || lia)
     | by apply moved_stop
     | apply headroom_moved; [apply Hsrc|done|done]
     | cbn; destruct (avail_bounds dst_frames 0 step (doff k) (soff k) Hstep); lia]).
Qed.

(** The frame that the filter holds after a call. *)
Definition keeps_last (c : config) (src : list Z) (n : nat) (done_ : bool) (filter filter' : list Z) : Prop :=
  length filter' = length filter ∧
  take (DChCount c) filter' =
    if done_ then frame c src (Z.of_nat n - 1) <$> seq 0 (DChCount c) else take (DChCount c) filter.

Lemma interpolated_last c prev src n d :
  (0 < n)%nat →
  interpolated c prev src ((Z.of_nat n - 1) * FRAC_ONE) d = frame c src (Z.of_nat n - 1) d.
Proof.
  intros Hn. unfold interpolated. rewrite Z.div_mul, Z.mod_mul, interp_0 by done.
  unfold stream_frame. by rewrite (proj2 (Z.ltb_ge _ _)) by lia.
Qed.

Lemma linear_finish_run c src n st acc a prev filter dst_frames step k :
  source c src n → (0 < n)%nat → scales st a ∧ st ≠ MUTED ∨ st = MUTED →
  length filter = (2 * DChCount c)%nat → Z.of_nat n * FRAC_ONE ≤ 2 ^ 31 →
  let send := (Z.of_nat n - 1) * FRAC_ONE in
  args_ok c dst_frames (send + 1) step k → send ≤ soff k ∨ dst_frames ≤ doff k →
  headroom (DChCount c) acc (doff k) (buf k) →
  let k' := moved (DChCount c) (put acc a) (interpolated c prev src) dst_frames (send + 1) step k in
  ∃ filter', keeps_last c src n (send <=? soff k') filter filter' ∧
  linear_finish c st acc a src dst_frames send step filter k
  = Ok ((send <=? soff k') && (doff k' <? dst_frames),
        if decide (st = MUTED) then mk_cursor (buf k) (doff k') (soff k') else k', filter').
Proof.
  intros Hsrc Hn Hst Hl Hm send Hk Hse Hh k'.
  pose proof Hk as (_ & Hd0 & _ & Hstep & Hlow & Hs0 & Hmax).
  destruct (src_position c src n send Hsrc) as [Hpos _];
    [subst send; change FRAC_ONE with 4096 in *; lia|done|].
  replace (send / FRAC_ONE) with (Z.of_nat n - 1) in Hpos by (subst send; by rewrite Z.div_mul).
  set (k2 := if decide (st = MUTED) then mk_cursor (buf k) (doff k') (soff k') else k').
  assert (soff k2 = soff k' ∧ doff k2 = doff k') as [Es Ed] by (subst k2; by case_decide).
  unfold linear_finish.
  match goal with |- context [mbind _ (if ?b then ?t else Ok k)] =>
    assert ((if b then t else Ok k) = Ok k2) as -> end.
  { unfold k2, k'. rewrite moved_last by done.
    destruct ((doff k <? dst_frames) && (soff k =? send)) eqn:E.
    2:{ by case_decide; destruct k. }
    apply andb_true_iff in E as [E1 E2]. apply Z.ltb_lt in E1. apply Z.eqb_eq in E2.
    destruct (args_ok_room _ _ _ _ _ Hk E1) as [Hr Hu].
    rewrite Hu, (advance_run _ _ (send + 1)) by (done || lia).
    destruct Hst as [[Hst Hne]| ->]; [|done]. rewrite decide_False by done.
    destruct st; [done|..]; rewrite E2, Hpos;
      (rewrite (mix_frame_run (DChCount c) _ acc a _ (interpolated c prev src) (doff k) send step);
       try done; [by apply config_D, Hsrc|]);
      (intros d Hd; unfold send; rewrite interpolated_last by done;
       split; [by apply (Read_run c src n); (done || lia)|by apply (frame_s16 c src n); (done || lia)]). }
  cbn [mbind outcome_bind]. rewrite Es, Ed. destruct (Z.leb_spec send (soff k')).
  - rewrite Hpos, (read_frame_run c src n) by (done || lia || apply channels). cbn [mbind outcome_bind].
    eexists. split; [|done]. split.
    + rewrite length_app, length_drop, length_fmap, length_seq. lia.
    + by rewrite take_app_length' by (by rewrite length_fmap, length_seq).
  - by exists filter.
Qed.

Lemma linear_mix_run c src n st acc a filter dst_frames step k :
  source c src n → (0 < n)%nat → scales st a ∧ st ≠ MUTED ∨ st = MUTED → filter_ok c filter →
  let F := Z.of_nat n * FRAC_ONE in let send := (Z.of_nat n - 1) * FRAC_ONE in
  args_ok c dst_frames F step k → doff k < dst_frames → headroom (DChCount c) acc (doff k) (buf k) →
  let sig := interpolated c (take (DChCount c) filter) src in
  let k' := moved (DChCount c) (put acc a) sig dst_frames (send + 1) step k in
  ∃ filter', keeps_last c src n (send <=? soff k') filter filter' ∧
  linear_mix c st acc a src dst_frames F step filter k
  = Ok ((send <=? soff k') && (doff k' <? dst_frames),
        if decide (st = MUTED) then mk_cursor (buf k) (doff k') (soff k') else k', filter').
Proof.
  intros Hsrc Hn Hst Hfil F send Hk Hd Hh sig k'.
  pose proof Hk as (_ & Hd0 & _ & Hstep & Hlow & Hs0 & Hmax).
  assert (F = send + FRAC_ONE ∧ 0 ≤ send) as [EF Hsend]
    by (subst F send; change FRAC_ONE with 4096; lia).
  assert (FRAC_ONE = 4096) as E1 by done.
  assert (args_ok c dst_frames (send + 1) step k) as Hk1 by (apply (args_ok_le _ _ _ F); [done|lia]).
  assert (args_ok c dst_frames send step k) as Hk0 by (apply (args_ok_le _ _ _ F); [done|lia]).
  unfold linear_mix. rewrite (dcheck_true (doff k <? dst_frames)), (dcheck_true (FRAC_ONE <=? F)),
    (dcheck_true (F <=? 2 ^ 31 - 1)) by lia. cbn [mbind outcome_bind]. rewrite dcheck_true.
  2:{ destruct (Z.leb_spec 0 (soff k)); [done|]. rewrite u32_small by lia. apply Z.ltb_lt. lia. }
  replace (F - FRAC_ONE) with send by lia. rewrite swrap_u32 by lia. cbn [mbind outcome_bind].
  pose proof (linear_main_run c src n st acc a filter dst_frames step k Hsrc Hn Hst Hfil
    ltac:(lia) Hk0 Hd Hh) as (f1 & [Hl1 Ht1] & E). cbn zeta in E. fold send sig in E.
  set (k1 := moved (DChCount c) (put acc a) sig dst_frames send step k) in E.
  assert (k' = moved (DChCount c) (put acc a) sig dst_frames (send + 1) step k1) as Ek
    by (symmetry; apply moved_split; [done|lia]).
  assert (args_ok c dst_frames (send + 1) step k1) as Ha1 by (apply args_ok_moved; [done|lia|lia]).
  pose proof (moved_stop (DChCount c) (put acc a) sig dst_frames send step k Hstep) as Hstop.
  rewrite E. cbn [mbind outcome_bind]. case_decide as Em.
  - pose proof (linear_finish_run c src n st acc a (take (DChCount c) filter) f1 dst_frames step
      (mk_cursor (buf k) (doff k1) (soff k1)) Hsrc Hn Hst ltac:(rewrite Hl1; apply Hfil) ltac:(lia))
      as (f2 & [Hl2 Ht2] & E2).
    + destruct Ha1 as (? & ? & _ & ? & ? & ? & ?), Hk as (? & ? & ? & ?). by split_and!.
    + done.
    + intros Hacc i o Hi. apply (Hh Hacc). cbn in Hi.
      destruct (avail_bounds dst_frames send step (doff k) (soff k) Hstep). nia.
    + rewrite decide_True in E2 by done. exists f2. rewrite Ek. split; [|exact E2].
      split; [by rewrite Hl2|]. by rewrite Ht2, Ht1.
  - pose proof (linear_finish_run c src n st acc a (take (DChCount c) filter) f1 dst_frames step
      k1 Hsrc Hn Hst ltac:(rewrite Hl1; apply Hfil) ltac:(lia) Ha1 Hstop
      ltac:(apply headroom_moved; [apply Hsrc|done|done])) as (f2 & [Hl2 Ht2] & E2).
    rewrite decide_False in E2 by done. exists f2. rewrite Ek. split; [|exact E2].
    split; [by rewrite Hl2|]. by rewrite Ht2, Ht1.
Qed.

(** Linear sampling equals the reference rendering. *)
Lemma LinearSampler_Mix_run c src n dst_frames step a acc filter k :
  source c src n → (0 < n)%nat → is_u 32 a → filter_ok c filter →
  let F := Z.of_nat n * FRAC_ONE in let send := (Z.of_nat n - 1) * FRAC_ONE in
  args_ok c dst_frames F step k → doff k < dst_frames → headroom (DChCount c) acc (doff k) (buf k) →
  let sig := interpolated c (take (DChCount c) filter) src in
  let k' := moved (DChCount c) (put acc a) sig dst_frames (send + 1) step k in
  ∃ filter',
    LinearSampler_Mix c dst_frames src F step a acc filter k
    = Ok ((send <=? soff k') && (doff k' <? dst_frames),
          mixed a k k', filter') ∧
    keeps_last c src n (send <=? soff k') filter filter' ∧ filter_ok c filter'.
Proof.
  intros Hsrc Hn Ha Hfil F send Hk Hd Hh sig k'. unfold LinearSampler_Mix, mixed.
  assert (∀ filter', keeps_last c src n (send <=? soff k') filter filter' → filter_ok c filter') as Hfok.
  { intros f [Hl Ht]. destruct Hfil as [Hl' Hf']. split; [by rewrite Hl|]. rewrite Ht.
    destruct (send <=? soff k'); [|done]. apply Forall_fmap, (Forall_impl _ _ _ (channels c)).
    intros d Hd'. apply (frame_s16 c src n); [done|lia|done]. }
  destruct (select_scaler_run a acc
    (λ st acc, linear_mix c st acc a src dst_frames F step filter k) Ha)
    as [[-> ->]|(-> & st & Hne & Hst & ->)].
  - destruct (linear_mix_run c src n MUTED false a filter dst_frames step k Hsrc Hn (or_intror eq_refl)
      Hfil Hk Hd ltac:(done)) as (f & Hf & E). exists f. split; [exact E|]. by split; [|apply Hfok].
  - destruct (linear_mix_run c src n st acc a filter dst_frames step k Hsrc Hn (or_introl (conj Hst Hne))
      Hfil Hk Hd Hh) as (f & Hf & E). rewrite decide_False in E by done.
    exists f. split; [exact E|]. by split; [|apply Hfok].
Qed.

(** ** Mixers *)

(** The signal that a mixer samples, and the end of the positions it can sample. *)
Definition signal (m : mixer) (src : list Z) : Z → nat → Z :=
  match m with
  | NoOp => λ _ _, 0
  | PointSampler c => held c src
  | LinearSampler c filter => interpolated c (take (DChCount c) filter) src
  end.
Definition signal_end (m : mixer) (n : nat) : Z :=
  match m with
  | NoOp => 0
  | PointSampler _ => Z.of_nat n * FRAC_ONE
  | LinearSampler _ _ => (Z.of_nat n - 1) * FRAC_ONE + 1
  end.

Definition mixer_config (m : mixer) : option config :=
  match m with NoOp => None | PointSampler c | LinearSampler c _ => Some c end.
Definition mixer_ok (m : mixer) : Prop :=
  match m with NoOp => True | PointSampler c => config_ok c
          | LinearSampler c filter => config_ok c ∧ filter_ok c filter end.

(** What a caller guarantees: the point sampler starts inside the buffer, the linear
    sampler may start up to a frame before it. *)
Definition starts (m : mixer) (n : nat) (dst_frames : Z) (k : cursor) : Prop :=
  match m with
  | NoOp => True
  | PointSampler _ => 0 ≤ soff k < Z.of_nat n * FRAC_ONE
  | LinearSampler _ _ => (0 < n)%nat ∧ doff k < dst_frames
  end.

(** Whether a mixer reports that it needs the next buffer. *)
Definition used_up (m : mixer) (n : nat) (dst_frames : Z) (k : cursor) : bool :=
  (signal_end m n <=? soff k) &&
  match m with LinearSampler _ _ => doff k <? dst_frames | _ => true end.

Lemma last_position m c filter n dst_frames k :
  m = LinearSampler c filter → signal_end m n ≤ soff k ∨ dst_frames ≤ doff k →
  ((Z.of_nat n - 1) * FRAC_ONE <=? soff k) && (doff k <? dst_frames) = used_up m n dst_frames k.
Proof.
  intros -> Hk. unfold used_up. cbn [signal_end] in *. destruct (Z.ltb_spec (doff k) dst_frames).
  - rewrite !(proj2 (Z.leb_le _ _)) by lia. done.
  - by rewrite !andb_false_r.
Qed.

(** The mixer after a buffer that is used up. *)
Definition after (m : mixer) (src : list Z) (n : nat) (m' : mixer) : Prop :=
  match m, m' with
  | PointSampler c, PointSampler c' => c = c'
  | LinearSampler c f, LinearSampler c' f' => c = c' ∧ keeps_last c src n true f f'
  | _, _ => False
  end.

(** The result of [Mix] in full, a muted mix included. *)
Lemma Mix_run m c src n dst_frames step a acc k :
  mixer_config m = Some c → mixer_ok m → source c src n → is_u 32 a → starts m n dst_frames k →
  args_ok c dst_frames (Z.of_nat n * FRAC_ONE) step k → headroom (DChCount c) acc (doff k) (buf k) →
  let k' := moved (DChCount c) (put acc a) (signal m src) dst_frames (signal_end m n) step k in
  ∃ m', Mix m dst_frames src (Z.of_nat n * FRAC_ONE) step a acc k
        = Ok (used_up m n dst_frames k', mixed a k k', m') ∧
    mixer_ok m' ∧ mixer_config m' = Some c ∧ pos_filter_width m' = pos_filter_width m ∧
    (used_up m n dst_frames k' = true → after m src n m').
Proof.
  intros Hc Hm Hsrc Ha Hst Hk Hh. destruct m as [|c'|c' filter]; [done|..]; injection Hc as ->.
  - cbn [Mix]. rewrite (PointSampler_Mix_run c src n) by done. eexists.
    split_and!; [|done..]. unfold used_up. by rewrite andb_true_r.
  - cbn [Mix]. destruct Hst as [Hn Hd], Hm as [_ Hf].
    destruct (LinearSampler_Mix_run c src n dst_frames step a acc filter k) as (f & -> & Hkl & Hfo);
      [done..|].
    eexists. rewrite (last_position (LinearSampler c filter) c filter)
      by (done || apply moved_stop, Hk). split; [done|]. split; [by split; [apply Hsrc|]|].
    split_and!; try done. intros [Hu _]%andb_true_iff. split; [done|]. cbn [signal_end] in Hu.
    by rewrite (proj2 (Z.leb_le _ _)) in Hkl by (cbn in *; lia).
Qed.

(** C21. Mixing equals the reference rendering, for an amplitude above the mute threshold,
    and for one below it when the mix accumulates (a muted mix that does not accumulate
    leaves the destination as it is, see [Mix_run]): with arguments that fit each other, a
    mixer returns without a fault; it has rendered, from the signal it stands for, all
    frames up to the end of the destination or of the positions it can sample, and left
    every other frame alone; it reports whether the buffer is used up; a muted mixer
    moves the offsets in the same way and adds nothing; and the mixer remains well
    formed. *)
Theorem Mix_spec m c src n dst_frames step a acc k :
  MuteThreshold 15 < a ∨ (a < MuteThreshold 15 ∧ acc = true) →
  mixer_config m = Some c → mixer_ok m → source c src n → is_u 32 a → starts m n dst_frames k →
  args_ok c dst_frames (Z.of_nat n * FRAC_ONE) step k → headroom (DChCount c) acc (doff k) (buf k) →
  let k' := moved (DChCount c) (put acc a) (signal m src) dst_frames (signal_end m n) step k in
  ∃ r m',
    Mix m dst_frames src (Z.of_nat n * FRAC_ONE) step a acc k = Ok (r, mixed a k k', m') ∧
    r = used_up m n dst_frames k' ∧ mixer_ok m' ∧ mixer_config m' = Some c.
Proof.
  intros _ Hc Hm Hsrc Ha Hst Hk Hh k'.
  destruct (Mix_run m c src n dst_frames step a acc k) as (m' & E & Hm' & Hc' & _); try done.
  by exists (used_up m n dst_frames k'), m'.
Qed.

(** ** Consecutive buffers *)

Lemma sample_of_app c src1 src2 i :
  sample_of c (src1 ++ src2) i =
    if decide (i < length src1)%nat then sample_of c src1 i else sample_of c src2 (i - length src1).
Proof.
  unfold sample_of. case_decide; [by rewrite lookup_app_l|]. by rewrite lookup_app_r by lia.
Qed.

Lemma frame_app c src1 src2 n1 n2 f d :
  source c src1 n1 → source c src2 n2 → 0 ≤ f → (d < DChCount c)%nat →
  frame c (src1 ++ src2) f d =
    if decide (f < Z.of_nat n1) then frame c src1 f d else frame c src2 (f - Z.of_nat n1) d.
Proof.
  intros ([Hs Hd'] & _ & Hl1) _ Hf Hd. unfold frame. rewrite !sample_of_app, Hl1.
  assert (Z.to_nat (f - Z.of_nat n1) = Z.to_nat f - n1)%nat as -> by lia.
  case_decide; repeat case_decide; try nia; do 2 f_equal; try nia; f_equal; nia.
Qed.

Lemma source_app c src1 src2 n1 n2 :
  source c src1 n1 → source c src2 n2 → source c (src1 ++ src2) (n1 + n2).
Proof.
  intros (Hc & Ho1 & Hl1) (_ & Ho2 & Hl2). split_and!; [done|by apply Forall_app|].
  rewrite length_app. lia.
Qed.

(** The signal of two buffers, the second of which starts with the last frame of the
    first one in its filter, is the signal of their concatenation. *)
Lemma interpolated_app c prev last src1 src2 n1 n2 s d :
  source c src1 n1 → source c src2 n2 → (0 < n1)%nat → (d < DChCount c)%nat → - FRAC_ONE < s →
  last = frame c src1 (Z.of_nat n1 - 1) <$> seq 0 (DChCount c) →
  interpolated c prev (src1 ++ src2) s d =
    if decide (s ≤ (Z.of_nat n1 - 1) * FRAC_ONE) then interpolated c prev src1 s d
    else interpolated c last src2 (s - Z.of_nat n1 * FRAC_ONE) d.
Proof.
  intros H1 H2 Hn Hd Hs ->. set (o := FRAC_ONE) in *. assert (o = 4096) as Eo by done.
  assert (∀ f, -1 ≤ f → stream_frame c prev (src1 ++ src2) f d =
    if decide (f < Z.of_nat n1) then stream_frame c prev src1 f d
    else stream_frame c (frame c src1 (Z.of_nat n1 - 1) <$> seq 0 (DChCount c)) src2 (f - Z.of_nat n1) d) as Hsf.
  { intros f Hf. unfold stream_frame. destruct (Z.ltb_spec f 0); [by rewrite decide_True by lia|].
    rewrite (frame_app c src1 src2 n1 n2) by done. case_decide; [done|].
    by rewrite (proj2 (Z.ltb_ge _ _)) by lia. }
  unfold interpolated. fold o. pose proof (Z.div_mod s o ltac:(lia)) as Hdm.
  pose proof (Z.mod_pos_bound s o ltac:(lia)) as Hmb.
  assert (-1 ≤ s / o) by (apply Z.div_le_lower_bound; lia).
  rewrite !Hsf by lia. destruct (decide (s ≤ (Z.of_nat n1 - 1) * o)) as [E|E].
  - rewrite decide_True by nia. case_decide; [done|].
    assert (s mod o = 0) as -> by nia. by rewrite !interp_0.
  - set (last := frame c src1 (Z.of_nat n1 - 1) <$> seq 0 (DChCount c)).
    rewrite (Zminus_mod s), Z.mod_mul, Z.sub_0_r, Z.mod_mod by lia.
    replace (s - Z.of_nat n1 * o) with (s + - Z.of_nat n1 * o) by lia.
    rewrite Z.div_add by lia. rewrite (decide_False (P := (s / o + 1 < Z.of_nat n1))) by nia.
    replace (s / o + - Z.of_nat n1) with (s / o - Z.of_nat n1) by lia.
    replace (s / o - Z.of_nat n1 + 1) with (s / o + 1 - Z.of_nat n1) by lia.
    case_decide; [|done]. f_equal. assert (s / o = Z.of_nat n1 - 1) as -> by nia. subst last.
    unfold stream_frame. rewrite (proj2 (Z.ltb_ge _ _)), (proj2 (Z.ltb_lt _ _)) by lia.
    by rewrite list_lookup_fmap, lookup_seq_lt by done.
Qed.

(** The cursor relative to the next buffer. *)
Definition rebase (off : Z) (k : cursor) : cursor := mk_cursor (buf k) (doff k) (soff k - off).

Lemma moved_ext D store sig sig' dst_frames src_end step k :
  0 < step → D ≠ 0%nat →
  (∀ s d, soff k ≤ s < src_end → (d < D)%nat → sig s d = sig' s d) →
  moved D store sig dst_frames src_end step k = moved D store sig' dst_frames src_end step k.
Proof.
  intros Hs HD He. unfold moved. f_equal. apply render_ext; [done|]. intros j d Hj Hd.
  destruct (avail_bounds dst_frames src_end step (doff k) (soff k) Hs) as (_ & _ & _ & Hb & _).
  apply He; [|done]. specialize (Hb j Hj). nia.
Qed.

Lemma moved_rebase D store sig sig' dst_frames src_end step off k :
  0 < step → D ≠ 0%nat →
  (∀ s d, soff k ≤ s < src_end → (d < D)%nat → sig s d = sig' (s - off) d) →
  rebase off (moved D store sig dst_frames src_end step k)
  = moved D store sig' dst_frames (src_end - off) step (rebase off k).
Proof.
  intros Hs HD He. rewrite (moved_ext D store sig (λ s, sig' (s - off))) by done.
  unfold rebase, moved. cbn [buf doff soff].
  assert (avail dst_frames (src_end - off) step (doff k) (soff k - off)
          = avail dst_frames src_end step (doff k) (soff k)) as ->.
  { unfold avail. do 3 f_equal. f_equal. lia. }
  f_equal; [|lia]. unfold render. apply imap_ext. intros i o _. cbn.
  destruct (_ && _); [|done]. f_equal. f_equal. lia.
Qed.

Lemma moved_app c prev src1 src2 n1 n2 dst_frames step acc a k :
  source c src1 n1 → source c src2 n2 → (0 < n1)%nat → (0 < n2)%nat → 0 < step → - FRAC_ONE < soff k →
  let F1 := Z.of_nat n1 * FRAC_ONE in let D := DChCount c in
  let last := frame c src1 (Z.of_nat n1 - 1) <$> seq 0 D in
  let k1 := moved D (put acc a) (interpolated c prev src1) dst_frames ((Z.of_nat n1 - 1) * FRAC_ONE + 1) step k in
  let k12 := moved D (put acc a) (interpolated c prev (src1 ++ src2)) dst_frames
               ((Z.of_nat (n1 + n2) - 1) * FRAC_ONE + 1) step k in
  if (doff k1 <? dst_frames) then
    (Z.of_nat n1 - 1) * FRAC_ONE < soff k1 ∧
    k12 = rebase (- F1) (moved D (put acc a) (interpolated c last src2) dst_frames
                           ((Z.of_nat n2 - 1) * FRAC_ONE + 1) step (rebase F1 k1))
  else k12 = k1.
Proof.
  intros H1 H2 Hn1 Hn2 Hs Hlow F1 D last k1 k12. pose proof (config_D c (proj1 H1)) as HD.
  set (e1 := (Z.of_nat n1 - 1) * FRAC_ONE) in *. assert (FRAC_ONE = 4096) as Eo by done.
  assert (k12 = moved D (put acc a) (interpolated c prev (src1 ++ src2)) dst_frames
                  ((Z.of_nat (n1 + n2) - 1) * FRAC_ONE + 1) step k1) as ->.
  { subst k12 k1. rewrite <- (moved_split _ _ _ _ (e1 + 1)) by (done || subst e1; lia). f_equal.
    apply moved_ext; [done..|]. intros s d Hs' Hd.
    rewrite (interpolated_app c prev last src1 src2 n1 n2) by (done || lia).
    by rewrite decide_True by (subst e1; lia). }
  destruct (moved_stop D (put acc a) (interpolated c prev src1) dst_frames (e1 + 1) step k Hs) as [Hst|Hst];
    fold k1 in Hst; destruct (Z.ltb_spec (doff k1) dst_frames); try lia; try (apply moved_none; [done|by left]).
  split; [lia|]. set (k2 := moved _ _ _ _ _ _ k1).
  assert (k2 = rebase (- F1) (rebase F1 k2)) as ->.
  { unfold rebase. destruct k2; cbn. f_equal. lia. }
  f_equal. subst k2. rewrite (moved_rebase _ _ _ (interpolated c last src2)); [|done..|].
  - do 2 f_equal. subst F1. lia.
  - intros s d Hs' Hd. rewrite (interpolated_app c prev last src1 src2 n1 n2) by (done || lia).
    by rewrite decide_False by (subst e1; lia).
Qed.

Lemma mixed_offsets a k k' : doff (mixed a k k') = doff k' ∧ soff (mixed a k k') = soff k'.
Proof. unfold mixed. by destruct (muted a). Qed.

(** The next call's arguments. *)
Lemma next_args c a acc sig dst_frames src_end e1 step off k :
  config_ok c → args_ok c dst_frames src_end step k → doff k ≤ dst_frames → off ≤ src_end →
  headroom (DChCount c) acc (doff k) (buf k) →
  let k1 := moved (DChCount c) (put acc a) sig dst_frames e1 step k in
  off - FRAC_ONE < soff k1 → 0 ≤ off →
  args_ok c dst_frames (src_end - off) step (rebase off (mixed a k k1)) ∧
  headroom (DChCount c) acc (doff (mixed a k k1)) (buf (mixed a k k1)).
Proof.
  intros Hc (Hu & Hd0 & Hlen & Hstep & Hlow & He & Hmax) Hd Hoff Hh k1 Hs1 Hoff0.
  destruct (avail_bounds dst_frames e1 step (doff k) (soff k) Hstep) as (Hn & _). split.
  - unfold args_ok, rebase. cbn [buf doff soff]. destruct (mixed_offsets a k k1) as [-> ->].
    assert (length (buf (mixed a k k1)) = length (buf k)) as ->.
    { unfold mixed. destruct (muted a); [done|]. apply length_render. }
    split_and!; try done; try lia. cbn. lia.
  - unfold mixed. destruct (muted a); cbn.
    + intros Hacc i o Hi. apply (Hh Hacc). nia.
    + by apply headroom_moved.
Qed.

Lemma mixed_rebase a k k1 off D store sig dst_frames src_end step :
  let k2 := moved D store sig dst_frames src_end step (rebase off (mixed a k k1)) in
  let k12 := rebase (- off) (moved D store sig dst_frames src_end step (rebase off k1)) in
  mixed a k k12 = rebase (- off) (mixed a (rebase off (mixed a k k1)) k2) ∧
  doff k12 = doff k2 ∧ soff k12 = soff k2 + off.
Proof.
  cbn. unfold mixed. destruct (muted a); cbn; split_and!; try done; try lia.
Qed.

Lemma keeps_last_app c src1 src2 n1 n2 filter f1 f f2 :
  source c src1 n1 → source c src2 n2 → (0 < n2)%nat →
  keeps_last c (src1 ++ src2) (n1 + n2) true filter f → keeps_last c src2 n2 true f1 f2 →
  take (DChCount c) f = take (DChCount c) f2.
Proof.
  intros H1 H2 Hn [_ ->] [_ ->]. apply list_fmap_ext. intros i d Hd.
  apply lookup_seq in Hd as [-> Hd]. rewrite (frame_app c src1 src2 n1 n2) by (done || lia).
  rewrite decide_False by lia. f_equal. lia.
Qed.

(** C26. Linear sampling has no seams: mixing one buffer and then, where the first call
    reports that it is used up, the next one, with the position made relative to it, has
    the effect of mixing their concatenation in one call. *)
Theorem linear_gapless c src1 src2 n1 n2 dst_frames step a acc filter k :
  source c src1 n1 → source c src2 n2 → (0 < n1)%nat → (0 < n2)%nat → is_u 32 a → filter_ok c filter →
  let F1 := Z.of_nat n1 * FRAC_ONE in let F2 := Z.of_nat n2 * FRAC_ONE in
  args_ok c dst_frames (F1 + F2) step k → doff k < dst_frames →
  headroom (DChCount c) acc (doff k) (buf k) →
  ∃ r1 k1 f1,
    LinearSampler_Mix c dst_frames src1 F1 step a acc filter k = Ok (r1, k1, f1) ∧
    if r1 then
      ∃ r k2 f2 f, LinearSampler_Mix c dst_frames src2 F2 step a acc f1 (rebase F1 k1) = Ok (r, k2, f2) ∧
        LinearSampler_Mix c dst_frames (src1 ++ src2) (F1 + F2) step a acc filter k
        = Ok (r, rebase (- F1) k2, f) ∧
        (r = true → take (DChCount c) f = take (DChCount c) f2)
    else ∃ f, LinearSampler_Mix c dst_frames (src1 ++ src2) (F1 + F2) step a acc filter k = Ok (false, k1, f).
Proof.
  intros H1 H2 Hn1 Hn2 Ha Hf F1 F2 Hk Hd Hh.
  pose proof Hk as (_ & _ & _ & Hstep & Hlow & _ & Hmax).
  assert (FRAC_ONE = 4096) as Eo by done.
  assert (0 < F1 ∧ 0 < F2) as [HF1 HF2] by (subst F1 F2; rewrite Eo; lia).
  pose proof (moved_app c (take (DChCount c) filter) src1 src2 n1 n2 dst_frames step acc a k
    H1 H2 Hn1 Hn2 Hstep Hlow) as Happ. cbn zeta in Happ.
  destruct (LinearSampler_Mix_run c src1 n1 dst_frames step a acc filter k) as (f1 & E1 & Hk1 & Hf1);
    try done; [apply (args_ok_le _ _ _ (F1 + F2)); [done|lia]|].
  destruct (LinearSampler_Mix_run c (src1 ++ src2) (n1 + n2) dst_frames step a acc filter k)
    as (f & E & Hkf & _); try done; [by apply source_app|lia| |].
  { by rewrite Nat2Z.inj_add, Z.mul_add_distr_r. }
  replace (Z.of_nat (n1 + n2) * FRAC_ONE) with (F1 + F2) in E by (subst F1 F2; lia).
  cbn zeta in E1, E. fold F1 in E1. rewrite E, E1. clear E E1.
  set (k1 := moved _ _ _ dst_frames ((Z.of_nat n1 - 1) * FRAC_ONE + 1) step k) in *.
  set (k12 := moved _ _ _ dst_frames ((Z.of_nat (n1 + n2) - 1) * FRAC_ONE + 1) step k) in *.
  eexists _, _, f1. split; [done|]. destruct (Z.ltb_spec (doff k1) dst_frames) as [Hd1|Hd1].
  2:{ rewrite andb_false_r, Happ. exists f. do 3 f_equal. rewrite (proj2 (Z.ltb_ge _ _)) by done.
      apply andb_false_r. }
  destruct Happ as [Hs1 Ek]. rewrite (proj2 (Z.leb_le _ _)) in Hk1 |- * by lia. cbn [andb].
  destruct (next_args c a acc (interpolated c (take (DChCount c) filter) src1) dst_frames (F1 + F2)
    ((Z.of_nat n1 - 1) * FRAC_ONE + 1) step F1 k) as [Ha2 Hh2]; try done; try lia; [apply H1|fold k1; subst F1; lia|].
  fold k1 in Ha2, Hh2. replace (F1 + F2 - F1) with F2 in Ha2 by lia.
  destruct (mixed_offsets a k k1) as [Ed Es].
  destruct (LinearSampler_Mix_run c src2 n2 dst_frames step a acc f1 (rebase F1 (mixed a k k1)))
    as (f2 & E2 & Hk2 & _); [done..|by cbn; rewrite Ed|done|].
  cbn zeta in E2. rewrite (proj2 Hk1) in E2, Hk2. fold F2 in E2. rewrite E2. clear E2.
  destruct (mixed_rebase a k k1 F1 (DChCount c) (put acc a)
    (interpolated c (frame c src1 (Z.of_nat n1 - 1) <$> seq 0 (DChCount c)) src2) dst_frames
    ((Z.of_nat n2 - 1) * FRAC_ONE + 1) step) as (Em & Edd & Ess).
  fold F1 in Ek. rewrite <- Ek in Em, Edd, Ess.
  set (k2 := moved _ _ _ _ _ step (rebase F1 (mixed a k k1))) in *.
  assert (((Z.of_nat (n1 + n2) - 1) * FRAC_ONE <=? soff k12) = ((Z.of_nat n2 - 1) * FRAC_ONE <=? soff k2))
    as Er by (apply eq_true_iff_eq; rewrite !Z.leb_le, Ess, Nat2Z.inj_add; unfold F1; lia).
  rewrite Er in Hkf |- *. eexists _, _, f2, f. split; [done|]. split; [by rewrite Edd, Em|].
  intros [Hr _]%andb_true_iff. rewrite Hr in Hkf, Hk2. exact (keeps_last_app c src1 src2 n1 n2 _ _ _ _ H1 H2 Hn2 Hkf Hk2).
Qed.

(** ** Selection *)

Definition supported (src_format dst_format : AudioMediaTypeDetails) : Prop :=
  (d_sample_format src_format = UNSIGNED_8 ∨ d_sample_format src_format = SIGNED_16) ∧
  (d_channels src_format = 1 ∨ d_channels src_format = 2) ∧
  (d_channels dst_format = 1 ∨ d_channels dst_format = 2).

Lemma select_config_run src_format dst_format :
  match select_config src_format dst_format with
  | Some c => supported src_format dst_format ∧ config_ok c ∧
      Z.of_nat (SChCount c) = d_channels src_format ∧ Z.of_nat (DChCount c) = d_channels dst_format ∧
      (src_u8 c = true ↔ d_sample_format src_format = UNSIGNED_8)
  | None => ¬ supported src_format dst_format
  end.
Proof.
  destruct src_format as [sf sc sr], dst_format as [df dc dr]. unfold select_config, supported, config_ok.
  cbn [d_sample_format d_channels].
  assert (∀ ch, (ch = 1 ∧ match ch with 1 => Some 1%nat | 2 => Some 2%nat | _ => None end = Some 1%nat) ∨
    (ch = 2 ∧ match ch with 1 => Some 1%nat | 2 => Some 2%nat | _ => None end = Some 2%nat) ∨
    (ch ≠ 1 ∧ ch ≠ 2 ∧ match ch with 1 => Some 1%nat | 2 => Some 2%nat | _ => None end = None)) as Hch.
  { intros [|[q|[q|q|]|]|q]; auto with lia. }
  destruct (Hch dc) as [[Ed ->]|[[Ed ->]|(Ed1 & Ed2 & ->)]]; cbn [mbind option_bind];
    [..|by intros (_ & _ & [?|?])];
    destruct sf; cbn [mbind option_bind]; try (intros [[?|?] _]; done);
    destruct (Hch sc) as [[Es ->]|[[Es ->]|(Es1 & Es2 & ->)]]; cbn [mbind option_bind];
    try (by intros (_ & [?|?] & _)); subst; cbn; split_and!; auto; split; congruence.
Qed.

Lemma Reset_filter_ok c : filter_ok c (LinearSampler_Reset c).
Proof.
  unfold filter_ok, LinearSampler_Reset. rewrite length_replicate, take_replicate. split; [done|].
  apply Forall_replicate. unfold is_s16. lia.
Qed.

(** The selection in full; the sampler is the point sampler exactly when the output's rate
    is a multiple of the source's, the reverse of what the comment in mixer.cc says. *)
Lemma Mixer_Select_run src_format dst_format :
  let ss := d_frames_per_second src_format in let ds := d_frames_per_second dst_format in
  0 < ss < 2 ^ 32 → 0 < ds < 2 ^ 32 →
  ∃ om, Mixer_Select src_format (Some dst_format) = Ok om ∧
    match om with
    | None => ¬ supported src_format dst_format
    | Some m =>
        supported src_format dst_format ∧ mixer_ok m ∧ Mixer_Reset m = m ∧
        ∃ c, mixer_config m = Some c ∧
          Z.of_nat (SChCount c) = d_channels src_format ∧ Z.of_nat (DChCount c) = d_channels dst_format ∧
          (src_u8 c = true ↔ d_sample_format src_format = UNSIGNED_8) ∧
          ((m = PointSampler c ∧ (ss | ds)) ∨ (m = LinearSampler c (LinearSampler_Reset c) ∧ ¬ (ss | ds)))
    end.
Proof.
  intros ss ds Hss Hds. unfold Mixer_Select. fold ss ds.
  pose proof (select_config_run src_format dst_format) as Hc.
  destruct (ratio_new_spec ss ds) as (r & -> & (Hn0 & _ & Hr0 & Hg) & Heq); [unfold is_u; lia..|].
  cbn [mbind outcome_bind].
  assert (numerator r = 1 ↔ (ss | ds)) as Hdiv.
  { split.
    - intros E. rewrite E in Heq. exists (denominator r). lia.
    - intros [q Eq]. rewrite Eq in Heq. assert (denominator r = numerator r * q) as Ed by nia.
      rewrite Ed, Z.gcd_mul_diag_l in Hg by (unfold is_u in Hn0; lia). done. }
  unfold PointSampler_Select, LinearSampler_Select.
  destruct (Z.eqb_spec (numerator r) 1) as [E|E]; eexists; (split; [done|]);
    (destruct (select_config src_format dst_format) as [c|]; [|done]); cbn;
    destruct Hc as (Hsup & Hok & Hs & Hd & Hu8);
    (split; [done|]); (split; [first [done|split; [done|apply Reset_filter_ok]]|]); (split; [done|]);
    exists c; split_and!; try done; rewrite <- Hdiv; auto.
Qed.

(** C38. The choice of a mixer: with both formats at hand a mixer is selected exactly
    for 8-bit and 16-bit sources of one or two channels and outputs of one or two
    channels; it is well formed, reads and writes the formats' channel counts and sample
    type, and is a point sampler or a linear sampler with a silent filter: the point
    sampler when the rates are equal, the linear sampler when neither rate is a multiple of
    the other.  Without a destination format it is the mixer that does nothing. *)
Theorem Mixer_Select_spec src_format dst_format :
  let ss := d_frames_per_second src_format in let ds := d_frames_per_second dst_format in
  0 < ss < 2 ^ 32 → 0 < ds < 2 ^ 32 →
  Mixer_Select src_format None = Ok (Some NoOp) ∧
  ∃ om, Mixer_Select src_format (Some dst_format) = Ok om ∧
    match om with
    | None => ¬ supported src_format dst_format
    | Some m =>
        supported src_format dst_format ∧ mixer_ok m ∧ Mixer_Reset m = m ∧
        ∃ c, mixer_config m = Some c ∧
          Z.of_nat (SChCount c) = d_channels src_format ∧ Z.of_nat (DChCount c) = d_channels dst_format ∧
          (src_u8 c = true ↔ d_sample_format src_format = UNSIGNED_8) ∧
          (m = PointSampler c ∨ m = LinearSampler c (LinearSampler_Reset c)) ∧
          (ss = ds → m = PointSampler c) ∧
          (¬ (ss | ds) → ¬ (ds | ss) → m = LinearSampler c (LinearSampler_Reset c))
    end.
Proof.
  intros ss ds Hss Hds. split; [done|].
  destruct (Mixer_Select_run src_format dst_format Hss Hds) as (om & E & Hom). exists om. split; [done|].
  destruct om as [m|]; [|done]. destruct Hom as (H1 & H2 & H3 & c & H4 & H5 & H6 & H7 & H8).
  split_and!; [done..|]. exists c. split_and!; [done..| | |]; fold ss ds in H8.
  - naive_solver.
  - intros Eq. destruct H8 as [[-> _]|[_ Hn]]; [done|]. destruct Hn. by rewrite Eq.
  - intros Hn _. naive_solver.
Qed.

(** ** Output *)

(** The samples of an output format. *)
Definition out_ok (bytes v : Z) : Prop := if bytes =? 1 then 0 ≤ v < 256 else is_s16 v.

Lemma produce_sample_run bytes v :
  produce_sample bytes v = (if bytes =? 1 then clamp16 v / 256 + 128 else clamp16 v).
Proof.
  assert (∀ x, is_s16 x → Convert bytes x = if bytes =? 1 then x / 256 + 128 else x) as Hc.
  { intros x Hx. unfold Convert. rewrite Z.shiftr_div_pow2 by lia. unfold is_s16 in Hx.
    destruct (bytes =? 1); [|apply swrap_small; lia]. apply uwrap_small. unfold is_u.
    change (2 ^ 8) with 256. assert (-128 ≤ x / 256 < 128); [|lia].
    split; [apply Z.div_le_lower_bound; lia|apply Z.div_lt_upper_bound; lia]. }
  unfold produce_sample, clamp16. unfold is_s16 in Hc.
  destruct (Z.ltb_spec 0x7fff v); [rewrite Hc by lia; by replace (Z.max _ _) with 0x7fff by lia|].
  destruct (Z.ltb_spec v (-0x8000)); rewrite Hc by lia;
    [by replace (Z.max _ _) with (-0x8000) by lia|]. by replace (Z.max _ _) with v by lia.
Qed.

(** C39. Output formatting: the intermediate samples are clipped to 16 bits and stored
    in the output's format, leaving what lies behind them; silence of both formats is
    what a zero sample becomes; and samples that are already in range come out as they
    came in, both the 16-bit ones and the 8-bit ones that were widened on input. *)
Theorem ProduceOutput_spec format f frames source dest :
  OutputFormatter_Select format = Some f → is_u 32 frames → frames * of_channels f < 2 ^ 32 →
  let n := Z.to_nat (frames * of_channels f) in
  let bytes := bytes_per_sample f in
  let out v := if bytes =? 1 then clamp16 v / 256 + 128 else clamp16 v in
  (n ≤ length source)%nat → (n ≤ length dest)%nat →
  ProduceOutput f source dest frames = Ok (map out (take n source) ++ drop n dest) ∧
  FillWithSilence f dest frames = Ok (replicate n (out 0) ++ drop n dest) ∧
  of_channels f = d_channels format ∧ of_bytes_per_frame f = bytes * of_channels f ∧
  (∀ v, out_ok bytes (out v)) ∧
  (∀ v, if bytes =? 1 then 0 ≤ v < 256 → out (Normalize true v) = v
        else is_s16 v → out (Normalize false v) = v).
Proof.
  intros Hf Hfr Hmax n bytes out Hs Hd.
  assert (of_channels f = d_channels format ∧ of_bytes_per_frame f = bytes * of_channels f ∧
    (bytes = 1 ∨ bytes = 2)) as (Hch & Hbf & Hb).
  { unfold OutputFormatter_Select in Hf. subst bytes.
    destruct (d_sample_format format); try discriminate; cbn in Hf;
      destruct (d_channels format) as [|[q|[q|q|]|]|q]; try discriminate Hf; injection Hf as <-; auto. }
  split_and!; try done.
  - unfold ProduceOutput. fold n bytes. rewrite decide_True by done. do 2 f_equal. apply list_fmap_ext.
    intros i v _. apply produce_sample_run.
  - unfold FillWithSilence. fold bytes. rewrite u32_small.
    2:{ rewrite Hch in *. unfold is_u in Hfr. clear -Hfr Hmax Hf.
        unfold OutputFormatter_Select in Hf. destruct (d_sample_format format); try discriminate; cbn in Hf;
        destruct (d_channels format) as [|[q|[q|q|]|]|q]; try discriminate Hf; lia. }
    fold n. rewrite decide_True by done. by destruct Hb as [-> | ->].
  - intros v. subst out. unfold out_ok. cbn. pose proof (clamp16_range v) as Hr. unfold is_s16 in *.
    destruct (bytes =? 1); [|done]. assert (-128 ≤ clamp16 v / 256 < 128); [|lia].
    split; [apply Z.div_le_lower_bound; lia|apply Z.div_lt_upper_bound; lia].
  - intros v. subst out. cbn. destruct (bytes =? 1); intros Hv; unfold Normalize, is_s16, clamp16 in *; [|lia].
    rewrite Z.shiftl_mul_pow2 by lia. replace (Z.max _ _) with ((v - 128) * 256) by lia.
    rewrite Z.div_mul; lia.
Qed.

End WithBuild.

(** ** Witnesses *)

Definition mono : config := mk_config 1 false 1.
Definition tone : list Z := [100; 200; 300].
Definition silence : cursor := mk_cursor [0; 0; 0; 0; 0; 0] 0 (-1024).

Lemma mono_source : source mono tone 3.
Proof. split_and!; [by split; left| |done]. repeat constructor; cbn; unfold is_s16; lia. Defined.

Lemma mono_source2 : source mono [400] 1.
Proof. split_and!; [by split; left| |done]. repeat constructor; cbn; unfold is_s16; lia. Defined.

Lemma silent_filter : filter_ok mono [0; 0].
Proof. split; [done|]. repeat constructor; unfold is_s16; cbn; lia. Defined.

Lemma silence_headroom D acc d : headroom D acc d (buf silence).
Proof.
  intros _ i o _ Hi. cbn in Hi. do 6 (destruct i as [|i]; [injection Hi as <-; lia|]). done.
Defined.

Lemma silence_args F : 0 ≤ F ≤ 2 ^ 20 → args_ok mono 6 F 2048 silence.
Proof. intros HF. split_and!; cbn; try lia; try done. Defined.

Lemma unity_audible acc : MuteThreshold 15 < UNITY ∨ (UNITY < MuteThreshold 15 ∧ acc = true).
Proof. by left. Defined.

(** The interpolated samples between a silent frame and the tone. *)
Lemma Mix_spec_witness :
  ∃ r m', @Mix debug_build (LinearSampler mono [0; 0]) 6 tone 12288 2048 UNITY false silence
    = Ok (r, mk_cursor [75; 125; 175; 225; 275; 0] 5 9216, m') ∧
    r = true ∧ mixer_ok m' ∧ mixer_config m' = Some mono.
Proof.
  destruct (@Mix_spec debug_build (LinearSampler mono [0; 0]) mono tone 3 6 2048 UNITY false silence
    (unity_audible false)
    eq_refl (conj (proj1 mono_source) silent_filter) mono_source ltac:(by vm_compute)
    ltac:(split; [lia|done]) (silence_args 12288 ltac:(lia)) (silence_headroom 1 false 0))
    as (r & m' & E & Hr & Hm & Hc).
  exists r, m'. split; [|split; [|by split]].
  - etransitivity; [exact E|]. vm_compute. reflexivity.
  - rewrite Hr. vm_compute. reflexivity.
Defined.

Lemma linear_gapless_witness :
  ∃ r1 k1 f1,
    @LinearSampler_Mix debug_build mono 6 tone 12288 2048 UNITY false [0; 0] silence = Ok (r1, k1, f1) ∧
    if r1 then
      ∃ r k2 f2 f, @LinearSampler_Mix debug_build mono 6 [400] 4096 2048 UNITY false f1 (rebase 12288 k1)
        = Ok (r, k2, f2) ∧
        @LinearSampler_Mix debug_build mono 6 (tone ++ [400]) 16384 2048 UNITY false [0; 0] silence
        = Ok (r, rebase (- 12288) k2, f) ∧ (r = true → take 1 f = take 1 f2)
    else ∃ f, @LinearSampler_Mix debug_build mono 6 (tone ++ [400]) 16384 2048 UNITY false [0; 0] silence
              = Ok (false, k1, f).
Proof.
  exact (@linear_gapless debug_build mono tone [400] 3 1 6 2048 UNITY false [0; 0] silence
    mono_source mono_source2 ltac:(lia) ltac:(lia) ltac:(by vm_compute) silent_filter
    (silence_args 16384 ltac:(lia)) eq_refl (silence_headroom 1 false 0)).
Defined.

Lemma Mixer_Select_spec_witness :
  let s := mk_audio_details SIGNED_16 1 44100 in let d := mk_audio_details SIGNED_16 2 48000 in
  Mixer_Select s None = Ok (Some NoOp) ∧
  Mixer_Select s (Some d) = Ok (Some (LinearSampler (mk_config 2 false 1) [0; 0; 0; 0])).
Proof.
  cbn zeta.
  destruct (Mixer_Select_spec (mk_audio_details SIGNED_16 1 44100) (mk_audio_details SIGNED_16 2 48000)
    ltac:(cbn; lia) ltac:(cbn; lia)) as (H1 & om & H2 & H3).
  split; [exact H1|]. rewrite H2. do 2 f_equal. destruct om as [m|]; [|destruct H3; repeat split; auto].
  destruct H3 as (_ & _ & _ & c & _ & Hs & Hd & Hu & _ & _ & Hl).
  rewrite Hl by (intros Hx%Z.mod_divide; vm_compute in Hx; discriminate).
  destruct c as [dc u8 sc]. cbn in Hs, Hd, Hu. destruct u8; [discriminate (proj1 Hu eq_refl)|].
  assert (dc = 2%nat) as -> by lia. assert (sc = 1%nat) as -> by lia. reflexivity.
Defined.

Lemma ProduceOutput_spec_witness :
  ProduceOutput (OutputFormatter_new 1 2) [40000; -1; 0; -40000] [0; 0; 0; 0; 7] 2
    = Ok [255; 127; 128; 0; 7] ∧
  FillWithSilence (OutputFormatter_new 1 2) [0; 0; 0; 0; 7] 2 = Ok [128; 128; 128; 128; 7].
Proof.
  destruct (ProduceOutput_spec (mk_audio_details UNSIGNED_8 2 48000) (OutputFormatter_new 1 2) 2
    [40000; -1; 0; -40000] [0; 0; 0; 0; 7] eq_refl ltac:(by vm_compute) ltac:(by vm_compute)
    ltac:(cbn; lia) ltac:(cbn; lia)) as (H1 & H2 & _).
  split; [exact H1|exact H2].
Defined.

End MixerSpec.
