(* ===== verification/MediaPipe.v ===== *)
(** Media pipes: [MediaPipeBase] (services/media/common/media_pipe_base.cc), the
    receiving end of a connection through which packets in shared memory arrive, and
    [AudioPipe] (services/media/audio/audio_pipe.cc), which turns them into audio
    packets with timestamps.

    A pipe is a state of type [pipe D], where [D] are the members of the derived
    class; the virtual methods are the class [PipeClient].  What leaves the pipe
    (callbacks that are run, packets handed to the owner) is appended to its log, so
    that the order of effects is part of the model.  Shared memory of the system is
    used through [MojoSystem], as in [SharedBuffer]. *)

From S2P Require Import Prelude LinearTransform StreamTypes SharedBuffer Mixer.

Module MediaPipe.
Import LinearTransform SharedBuffer.
Import Mixer (PTS_FRACTIONAL_BITS, FRAC_ONE).

(** ** Packets *)

(** [MediaConsumer::SendResult] *)
Inductive SendResult := CONSUMED | FLUSHED.

(** [MediaPacketRegion], [MediaPacket]: references may be null; the end-of-stream flag
    is not read here. *)
Record MediaPacketRegion := mk_region { offset : Z; length_ : Z }.
Record MediaPacket := mk_packet {
  pts : Z;
  payload : option MediaPacketRegion;
  extra_payload : option (list (option MediaPacketRegion));
}.

Definition kNoTimestamp : Z := 0x7fffffffffffffff.
Definition kMaxBufferLen : Z := 0x3FFFFFFFFFFFFFFF.

(** [MediaPipeBase::MappedSharedBuffer] *)
Record mapped_buffer := mk_mapped { size : Z; base : Z }.

(** [MediaPipeBase::MediaPacketState]; the callback is a token. *)
Record MediaPacketState := mk_packet_state {
  packet_ : MediaPacket;
  state_buffer : mapped_buffer;
  cbk_ : nat;
  result_ : SendResult;
}.

(** [MediaPacketState::SetResult]: only the first result is kept. *)
Definition SetResult (result : SendResult) (st : MediaPacketState) : MediaPacketState :=
  match result_ st with
  | CONSUMED => mk_packet_state (packet_ st) (state_buffer st) (cbk_ st) result
  | FLUSHED => st
  end.

(** [AudioPacketRef::Region], [AudioPacketRef] *)
Record Region := mk_audio_region { r_base : Z; frac_frame_len : Z }.
Record AudioPacketRef := mk_audio_packet {
  state_ : MediaPacketState;
  regions : list Region;
  start_pts : Z;
  end_pts : Z;
}.

(** What leaves a pipe. *)
Inductive emission :=
  | BufferSet (cbk : nat)
  | SendDone (cbk : nat) (result : SendResult)
  | PrimeDone (cbk : nat)
  | FlushForwarded (cbk : nat)
  | Delivered (p : AudioPacketRef).

(** ** The base class *)

Record pipe (D : Type) := mk_pipe {
  bound : bool;
  buffer_ : option mapped_buffer;
  members : D;
  log : list emission;
}.
Arguments mk_pipe {D}.
Arguments bound {D}.
Arguments buffer_ {D}.
Arguments members {D}.
Arguments log {D}.

(** The methods that derived classes implement. *)
Class PipeClient (D : Type) := {
  OnPacketReceived : MediaPacketState → prog (pipe D) unit;
  OnPrimeRequested : nat → prog (pipe D) unit;
  OnFlushRequested : nat → prog (pipe D) bool;
}.

Section Base.
Context {D : Type} `{BD : Build}.

Definition emit (e : emission) : prog (pipe D) unit :=
  modS (λ s, mk_pipe (bound s) (buffer_ s) (members s) (log s ++ [e])).
Definition set_members (d : D) : prog (pipe D) unit :=
  modS (λ s, mk_pipe (bound s) (buffer_ s) d (log s)).

(** [Reset], which is also the handler of connection errors *)
Definition Reset : prog (pipe D) unit :=
  modS (λ s, mk_pipe false None (members s) (log s)).

(** [Init], [IsInitialized] *)
Inductive MojoResult := MOJO_RESULT_OK | MOJO_RESULT_ALREADY_EXISTS.
Definition IsInitialized (s : pipe D) : bool := bound s.
Definition Init : prog (pipe D) MojoResult :=
  λ s, if IsInitialized s then Ok (MOJO_RESULT_ALREADY_EXISTS, s)
       else Ok (MOJO_RESULT_OK, mk_pipe true (buffer_ s) (members s) (log s)).

(** [MappedSharedBuffer::Create] *)
Definition Create `{MojoSystem} (h : handle) (sz : Z) : outcome (option mapped_buffer) :=
  let '(ok, p) := map_buffer h 0 sz in
  _ ← (if (ok : bool) then Ok tt else dcheck (p =? 0));
  Ok (if p =? 0 then None else Some (mk_mapped sz p)).

(** [SetBuffer] *)
Definition SetBuffer `{MojoSystem} (h : handle) (cbk : nat) : prog (pipe D) unit :=
  _ ← dcheckS (is_valid h);
  s ← getS;
  match buffer_ s with
  | Some _ => Reset
  | None =>
      let '(ok, num_bytes) := get_buffer_information h in
      if negb ok then Reset
      else if (num_bytes =? 0) || (kMaxBufferLen <? num_bytes) then Reset
      else
        ob ← liftO (Create h num_bytes);
        match ob with
        | None => Reset
        | Some b =>
            _ ← modS (λ s, mk_pipe (bound s) (Some b) (members s) (log s));
            emit (BufferSet cbk)
        end
  end.

(** The loop of [SendPacket] over the payload and the extra payload: whether every
    region is present and lies in the buffer. *)
Fixpoint regions_in_range (sz : Z) (rs : list (option MediaPacketRegion)) : bool :=
  match rs with
  | [] => true
  | None :: _ => false
  | Some r :: rs =>
      if (sz <? offset r) || (u64 (sz - offset r) <? length_ r) then false
      else regions_in_range sz rs
  end.

Definition all_regions (p : MediaPacket) : list (option MediaPacketRegion) :=
  payload p :: default [] (extra_payload p).

Context `{PC : PipeClient D}.

(** [SendPacket] *)
Definition SendPacket (packet : MediaPacket) (cbk : nat) : prog (pipe D) unit :=
  s ← getS;
  match buffer_ s with
  | None => Reset
  | Some b =>
      _ ← dcheckS (negb (size b =? 0));
      if negb (regions_in_range (size b) (all_regions packet)) then Reset
      else OnPacketReceived (mk_packet_state packet b cbk CONSUMED)
  end.

(** [Prime], [Flush] *)
Definition Prime (cbk : nat) : prog (pipe D) unit := OnPrimeRequested cbk.
Definition Flush (cbk : nat) : prog (pipe D) unit :=
  s ← getS;
  match buffer_ s with
  | None => Reset
  | Some _ => ok ← OnFlushRequested cbk; if negb ok then Reset else mret tt
  end.

End Base.

(** ** The audio pipe *)

(** The members of [AudioPipe], with what it reads from its owner. *)
Record audio := mk_audio {
  bytes_per_frame : Z;
  frame_to_media_ratio : ratio;
  next_pts_known_ : bool;
  next_pts_ : Z;
  prime_callback_ : option nat;
}.

Definition set_next_pts (p : Z) (a : audio) : audio :=
  mk_audio (bytes_per_frame a) (frame_to_media_ratio a) true p (prime_callback_ a).
Definition forget_next_pts (a : audio) : audio :=
  mk_audio (bytes_per_frame a) (frame_to_media_ratio a) false (next_pts_ a) (prime_callback_ a).
Definition set_prime (c : option nat) (a : audio) : audio :=
  mk_audio (bytes_per_frame a) (frame_to_media_ratio a) (next_pts_known_ a) (next_pts_ a) c.

Definition kMaxFrames : Z := Z.shiftr max_u32 PTS_FRACTIONAL_BITS.

(** The loop over the regions in [OnPacketReceived]: the audio regions and the number
    of frames, or [None] for a region that is refused. *)
Fixpoint audio_regions (frame_size base : Z) (frame_count : Z) (rs : list (option MediaPacketRegion)) :
    outcome (option (list Region * Z)) :=
  match rs with
  | [] => Ok (Some ([], frame_count))
  | None :: _ => Fault UndefinedBehaviour
  | Some r :: rs =>
      if (1 <? frame_size) && negb (length_ r mod frame_size =? 0) then Ok None
      else if frame_size =? 0 then Fault UndefinedBehaviour
      else
        let frame_count := u32 (frame_count + length_ r / frame_size) in
        if kMaxFrames <? frame_count then Ok None
        else
          rest ← audio_regions frame_size base frame_count rs;
          match rest with
          | None => Ok None
          | Some (rest, n) =>
              Ok (Some (mk_audio_region (base + offset r)
                          (u32 (Z.shiftl frame_count PTS_FRACTIONAL_BITS)) :: rest, n))
          end
  end.

Section Audio.
Context `{BD : Build}.

(** [int64_t] addition *)
Definition pts_add (a b : Z) : prog (pipe audio) Z := liftO (s64 (a + b)).

(** The state object is destroyed, which runs the callback. *)
Definition drop_state (st : MediaPacketState) : prog (pipe audio) unit :=
  emit (SendDone (cbk_ st) (result_ st)).

(** [AudioPipe::OnPacketReceived]: the timestamp of the first frame, or [None] when
    it overflows. *)
Definition packet_start (p : MediaPacket) : prog (pipe audio) (option Z) :=
  s ← getS;
  if negb (pts p =? kNoTimestamp) then
    '(ok, o) ← liftO (DoForwardTransform (transform_new_ratio 0 (frame_to_media_ratio (members s)) 0)
                        (pts p));
    mret (if (ok : bool) then o else None)
  else mret (Some (if next_pts_known_ (members s) then next_pts_ (members s) else 0)).

Definition audio_OnPacketReceived (st : MediaPacketState) : prog (pipe audio) unit :=
  _ ← dcheckS (bool_decide (is_Some (payload (packet_ st))));
  s ← getS;
  let frame_size := bytes_per_frame (members s) in
  _ ← dcheckS (negb (frame_size =? 0));
  rs ← liftO (audio_regions frame_size (base (state_buffer st)) 0 (all_regions (packet_ st)));
  match rs with
  | None => _ ← Reset; drop_state st
  | Some (rs, frame_count) =>
      start ← packet_start (packet_ st);
      match start with
      | None => _ ← Reset; drop_state st
      | Some start =>
          next ← pts_add start (Z.shiftl frame_count PTS_FRACTIONAL_BITS);
          s ← getS;
          _ ← set_members (set_next_pts next (members s));
          _ ← emit (Delivered (mk_audio_packet st rs start next));
          s ← getS;
          match prime_callback_ (members s) with
          | None => mret tt
          | Some c => _ ← emit (PrimeDone c); set_members (set_prime None (members s))
          end
      end
  end.

(** [AudioPipe::OnPrimeRequested] *)
Definition audio_OnPrimeRequested (cbk : nat) : prog (pipe audio) unit :=
  s ← getS;
  _ ← match prime_callback_ (members s) with Some c => emit (PrimeDone c) | None => mret tt end;
  set_members (set_prime (Some cbk) (members s)).

(** [AudioPipe::OnFlushRequested] with the owner's, which flushes the outputs and runs
    the callback. *)
Definition audio_OnFlushRequested (cbk : nat) : prog (pipe audio) bool :=
  s ← getS;
  _ ← set_members (forget_next_pts (members s));
  _ ← emit (FlushForwarded cbk);
  mret true.

#[export] Instance AudioPipe : PipeClient audio := {|
  OnPacketReceived := audio_OnPacketReceived;
  OnPrimeRequested := audio_OnPrimeRequested;
  OnFlushRequested := audio_OnFlushRequested;
|}.

(** ** What the audio pipe does with a packet *)

(** The regions of a packet that are present. *)
Definition present (p : MediaPacket) : list MediaPacketRegion := omap id (all_regions p).
Definition region_ok (r : MediaPacketRegion) : Prop := is_u 64 (offset r) ∧ is_u 64 (length_ r).
Definition region_frames (fs : Z) (r : MediaPacketRegion) : Z := length_ r / fs.

(** Frame counts as the pipe accumulates them, one for each region. *)
Fixpoint running (fs n : Z) (rs : list MediaPacketRegion) : list Z :=
  match rs with
  | [] => []
  | r :: rs => let n := u32 (n + region_frames fs r) in n :: running fs n rs
  end.

(** The frames of some regions. *)
Definition total_frames (fs : Z) (rs : list MediaPacketRegion) : Z :=
  foldr (λ r n, region_frames fs r + n) 0 rs.
Lemma total_frames_cons fs r rs : total_frames fs (r :: rs) = region_frames fs r + total_frames fs rs.
Proof. done. Qed.

Lemma in_range_present sz rs :
  regions_in_range sz rs = true → rs = Some <$> omap id rs.
Proof.
  induction rs as [|[r|] rs IH]; cbn; [done| |done]. intros E.
  destruct (_ || _); [done|]. by rewrite <- IH.
Qed.

Lemma in_range_bounds sz rs r :
  regions_in_range sz rs = true → is_u 64 sz → Some r ∈ rs → region_ok r →
  offset r + length_ r ≤ sz.
Proof.
  intros E Hsz Hin [Ho Hl]. induction rs as [|[x|] rs IH]; cbn in E; [set_solver| |done].
  destruct (_ || _) eqn:F; [done|]. apply orb_false_iff in F as [F1%Z.ltb_ge F2%Z.ltb_ge].
  apply elem_of_cons in Hin as [[= <-]|Hin]; [|by apply IH].
  unfold is_u in *. rewrite uwrap_small in F2 by (unfold is_u; lia). lia.
Qed.

(** The region is there and lies in the buffer. *)
Definition inside (sz : Z) (o : option MediaPacketRegion) : bool :=
  match o with Some r => offset r + length_ r <=? sz | None => false end.
Lemma regions_in_range_inside sz rs :
  is_u 64 sz → Forall region_ok (omap id rs) → regions_in_range sz rs = forallb (inside sz) rs.
Proof.
  intros Hsz. induction rs as [|[r|] rs IH]; [done| |done].
  intros [[Ho Hl] Hrs]%Forall_cons. cbn [regions_in_range forallb inside]. rewrite <- IH by done.
  unfold is_u in *. destruct (Z.ltb_spec sz (offset r)); cbn [orb].
  - by rewrite (proj2 (Z.leb_gt _ _)) by lia.
  - rewrite uwrap_small by (unfold is_u; lia). destruct (Z.ltb_spec (sz - offset r) (length_ r)).
    + by rewrite (proj2 (Z.leb_gt _ _)) by lia.
    + by rewrite (proj2 (Z.leb_le _ _)) by lia.
Qed.

Lemma total_frames_nonneg fs rs : 0 < fs → Forall region_ok rs → 0 ≤ total_frames fs rs.
Proof.
  intros Hfs. induction 1 as [|r rs [_ Hl] _ IH]; [done|]. rewrite total_frames_cons. unfold is_u in Hl.
  assert (0 ≤ region_frames fs r) by (apply Z.div_pos; lia). lia.
Qed.
(** Running totals below 2^32 do not wrap, and the last is the largest. *)
Lemma running_total fs rs : 0 < fs → Forall region_ok rs → ∀ n,
  0 ≤ n → n + total_frames fs rs < 2 ^ 32 →
  default n (last (running fs n rs)) = n + total_frames fs rs ∧
  (rs ≠ [] → forallb (λ n, n <=? kMaxFrames) (running fs n rs) = (n + total_frames fs rs <=? kMaxFrames)) ∧
  (∀ r, rs = [r] → running fs n rs = [n + region_frames fs r]).
Proof.
  intros Hfs. induction 1 as [|r rs [_ Hl] Hrs IH]; intros n Hn; rewrite ?total_frames_cons; cbn [running].
  - intros _. cbn. split_and!; [lia|done|done].
  - intros Hlt. pose proof (total_frames_nonneg fs rs Hfs Hrs). unfold is_u in Hl.
    assert (0 ≤ region_frames fs r) by (apply Z.div_pos; lia).
    rewrite uwrap_small by (unfold is_u; lia). cbv zeta.
    destruct (IH (n + region_frames fs r) ltac:(lia) ltac:(lia)) as (El & Ef & _). split_and!.
    + rewrite last_cons. destruct (last (running _ _ rs)) as [m|]; cbn in El |- *; lia.
    + intros _. cbn [forallb]. destruct (decide (rs = [])) as [->|Hne].
      * cbn [running forallb]. rewrite andb_true_r. f_equal. cbn. lia.
      * rewrite Ef by done. rewrite Z.add_assoc.
        destruct (Z.leb_spec (n + region_frames fs r + total_frames fs rs) kMaxFrames).
        -- by rewrite (proj2 (Z.leb_le _ _)) by lia.
        -- by rewrite andb_false_r.
    + intros r' [= -> ->]. done.
Qed.

Lemma audio_regions_run fs b rs : 0 < fs → ∀ n,
  audio_regions fs b n (Some <$> rs) =
    Ok (if forallb (λ r, length_ r mod fs =? 0) rs && forallb (λ n, n <=? kMaxFrames) (running fs n rs)
        then Some (zip_with (λ r n, mk_audio_region (b + offset r) (u32 (Z.shiftl n PTS_FRACTIONAL_BITS)))
                     rs (running fs n rs),
                   default n (last (running fs n rs)))
        else None).
Proof.
  intros Hfs. induction rs as [|r rs IH]; intros n; [done|]. cbn [fmap list_fmap audio_regions running forallb].
  assert (((1 <? fs) && negb (length_ r mod fs =? 0)) = negb (length_ r mod fs =? 0)) as ->.
  { destruct (Z.ltb_spec 1 fs); [done|]. assert (fs = 1) as -> by lia. by rewrite Z.mod_1_r. }
  destruct (length_ r mod fs =? 0) eqn:E1; cbn [negb andb]; [|done].
  rewrite (proj2 (Z.eqb_neq fs 0)) by lia. fold (region_frames fs r).
  set (n' := u32 (n + region_frames fs r)). destruct (Z.ltb_spec kMaxFrames n') as [E2|E2].
  { rewrite (proj2 (Z.leb_gt _ _)) by lia. by rewrite andb_false_r. }
  rewrite (proj2 (Z.leb_le _ _)) by lia. cbn [andb]. rewrite IH. cbn [mbind outcome_bind].
  destruct (_ && _); [|done]. cbn [zip_with]. do 3 f_equal. rewrite last_cons.
  by destruct (last (running fs n' rs)).
Qed.

(** Timestamps: the packet's own, in fractions of frames, or the end of the one before. *)
Definition starts_at (a : audio) (p : MediaPacket) : Z :=
  if pts p =? kNoTimestamp then (if next_pts_known_ a then next_pts_ a else 0)
  else exact_forward (transform_new_ratio 0 (frame_to_media_ratio a) 0) (pts p).

Definition ratio_ok (r : ratio) : Prop :=
  is_u 32 (numerator r) ∧ is_u 32 (denominator r) ∧ denominator r ≠ 0.

Lemma packet_start_run p s :
  ratio_ok (frame_to_media_ratio (members s)) → is_s64 (pts p) → pts p ≠ min_s64 →
  - 2 ^ 62 ≤ starts_at (members s) p ≤ 2 ^ 62 →
  packet_start p s = Ok (Some (starts_at (members s) p), s).
Proof.
  intros (Hn & Hd & Hd0) Hp Hp0 Hs. unfold packet_start, starts_at, mbind, prog_bind, getS in *.
  destruct (pts p =? kNoTimestamp); cbn [negb]; [done|]. unfold liftO.
  unfold DoForwardTransform, transform_new_ratio, exact_forward in *. cbn [scale a_zero b_zero] in *.
  rewrite (proj2 (Z.eqb_neq _ _)) by done.
  erewrite linear_transform_complete; try done; unfold is_s64, min_s64, max_s64 in *; lia.
Qed.

Lemma finish_zero_ok neg m : 2 ^ 63 ≤ m → finish neg m 0 = Ok (false, None).
Proof.
  intros Hm. unfold finish. rewrite (proj2 (Z.leb_le _ _)) by done. destruct neg; [|done]. cbn.
  by rewrite (proj2 (Z.leb_le _ _)) by lia.
Qed.
(** A timestamp that overflows in fractions of frames is reported. *)
Lemma packet_start_overflow p s :
  ratio_ok (frame_to_media_ratio (members s)) → is_s64 (pts p) → pts p ≠ min_s64 → pts p ≠ kNoTimestamp →
  ¬ is_s64 (starts_at (members s) p) → packet_start p s = Ok (None, s).
Proof.
  intros (Hn & Hd & Hd0) Hp Hp0 Hk Hs. unfold packet_start, starts_at, mbind, prog_bind, getS in *.
  rewrite (proj2 (Z.eqb_neq _ _)) in * by done. cbn [negb]. unfold liftO.
  unfold DoForwardTransform, transform_new_ratio, exact_forward in *. cbn [scale a_zero b_zero] in *.
  rewrite (proj2 (Z.eqb_neq _ _)) by done. unfold is_u in Hn, Hd.
  erewrite linear_transform_exact; [|done..].
  rewrite exact_value_rounded in Hs by lia. rewrite Z.sub_0_r in *. unfold is_s64, min_s64, max_s64 in *.
  replace (in_s64 _) with true by (unfold in_s64, min_s64, max_s64; lia). cbn [orb].
  set (m := rounded (Z.abs (pts p)) (numerator (frame_to_media_ratio (members s)))
    (denominator (frame_to_media_ratio (members s))) (pts p <? 0)).
  assert (0 ≤ m) as Hm by (apply rounded_nonneg; lia).
  assert (2 ^ 63 ≤ m).
  { destruct (Z.ltb_spec (pts p) 0) as [Hl|Hl].
    - assert (m = rounded (0 - pts p) (numerator (frame_to_media_ratio (members s)))
        (denominator (frame_to_media_ratio (members s))) true) as Em by (unfold m; by rewrite Z.abs_neq by lia).
      rewrite <- Em in Hs. lia.
    - assert (m = rounded (pts p) (numerator (frame_to_media_ratio (members s)))
        (denominator (frame_to_media_ratio (members s))) false) as Em by (unfold m; by rewrite Z.abs_eq by lia).
      rewrite <- Em in Hs. lia. }
  by destruct (m <? 2 ^ 64); [rewrite finish_zero_ok|].
Qed.

(** The packet that is delivered, as the code makes it. *)
Definition audio_packet (a : audio) (b : mapped_buffer) (p : MediaPacket) (cbk : nat) : AudioPacketRef :=
  let fs := bytes_per_frame a in let ns := running fs 0 (present p) in
  mk_audio_packet (mk_packet_state p b cbk CONSUMED)
    (zip_with (λ r n, mk_audio_region (base b + offset r) (n * FRAC_ONE)) (present p) ns)
    (starts_at a p) (starts_at a p + default 0 (last ns) * FRAC_ONE).

Definition audio_ok (a : audio) : Prop := 0 < bytes_per_frame a ∧ ratio_ok (frame_to_media_ratio a).

Lemma kMaxFrames_shift n :
  0 ≤ n → (n <=? kMaxFrames) = true → u32 (Z.shiftl n PTS_FRACTIONAL_BITS) = n * FRAC_ONE.
Proof.
  intros Hn Hm%Z.leb_le. rewrite Z.shiftl_mul_pow2 by (unfold PTS_FRACTIONAL_BITS; lia).
  change (2 ^ PTS_FRACTIONAL_BITS) with FRAC_ONE. apply uwrap_small.
  change kMaxFrames with (2 ^ 20 - 1) in Hm. change FRAC_ONE with 4096. unfold is_u. lia.
Qed.

Lemma running_bounds fs n rs :
  Forall (λ n, 0 ≤ n) (running fs n rs).
Proof.
  revert n. induction rs as [|r rs IH]; intros n; cbn; [done|]. constructor; [|done].
  apply Z.mod_pos_bound. lia.
Qed.

Lemma zip_regions b rs fs n :
  forallb (λ n, n <=? kMaxFrames) (running fs n rs) = true →
  zip_with (λ r n, mk_audio_region (b + offset r) (u32 (Z.shiftl n PTS_FRACTIONAL_BITS))) rs (running fs n rs)
  = zip_with (λ r n, mk_audio_region (b + offset r) (n * FRAC_ONE)) rs (running fs n rs).
Proof.
  intros Hm. pose proof (running_bounds fs n rs) as Hb. revert Hm Hb.
  generalize (running fs n rs) as ns. induction rs as [|r rs IH]; intros [|m ns]; cbn [zip_with forallb]; [done..|].
  intros [Hm Hms]%andb_true_iff [Hb Hbs]%Forall_cons. rewrite kMaxFrames_shift by done. by rewrite IH.
Qed.

Lemma last_running_bounds fs rs :
  forallb (λ n, n <=? kMaxFrames) (running fs 0 rs) = true →
  0 ≤ default 0 (last (running fs 0 rs)) ≤ kMaxFrames.
Proof.
  intros Hm. pose proof (running_bounds fs 0 rs) as Hb. destruct (last (running fs 0 rs)) as [n|] eqn:E; [|done].
  apply last_Some in E as [l E]. rewrite E in *. rewrite forallb_app in Hm. cbn in *.
  apply andb_true_iff in Hm as [_ Hm]. apply Forall_app in Hb as [_ Hb].
  apply Forall_cons in Hb as [Hb _]. lia.
Qed.

(** The connection is closed and nothing is delivered. *)
Definition refused (s s' : pipe audio) : Prop :=
  bound s' = false ∧ buffer_ s' = None ∧ members s' = members s ∧ ∀ q, Delivered q ∈ log s' → Delivered q ∈ log s.

(** [SendPacket] in the code's terms. *)
Lemma SendPacket_run s b p cbk :
  buffer_ s = Some b → 0 < size b ≤ kMaxBufferLen → audio_ok (members s) →
  is_s64 (pts p) → pts p ≠ min_s64 → - 2 ^ 62 ≤ starts_at (members s) p ≤ 2 ^ 62 →
  let a := members s in
  let d := audio_packet a b p cbk in
  runs (SendPacket p cbk) s (λ _ s',
    if regions_in_range (size b) (all_regions p) &&
       (forallb (λ r, length_ r mod bytes_per_frame a =? 0) (present p) &&
        forallb (λ n, n <=? kMaxFrames) (running (bytes_per_frame a) 0 (present p))) then
      s' = mk_pipe (bound s) (Some b) (set_prime None (set_next_pts (end_pts d) a))
             (log s ++ Delivered d :: match prime_callback_ a with Some c => [PrimeDone c] | None => [] end)
    else refused s s').
Proof.
  intros Hb Hsz [Hfs Hr] Hp Hp0 Hst a d. unfold SendPacket. apply runs_get. rewrite Hb.
  apply runs_dcheck; [apply negb_true_iff, Z.eqb_neq; lia|].
  destruct (regions_in_range (size b) (all_regions p)) eqn:Er; cbn [negb andb].
  2:{ apply runs_mod_last. by split_and!. }
  cbn [OnPacketReceived AudioPipe]. unfold audio_OnPacketReceived. cbn [packet_ state_buffer].
  apply runs_dcheck.
  { apply bool_decide_eq_true_2. cbn in Er. by destruct (payload p). }
  apply runs_get. apply runs_dcheck; [apply negb_true_iff, Z.eqb_neq; lia|]. fold a.
  eapply runs_step.
  { rewrite (in_range_present _ _ Er), audio_regions_run by done. done. }
  fold (present p). destruct (forallb _ (present p) && _) eqn:Ea.
  2:{ apply runs_mod. apply runs_mod_last. split_and!; try done. set_solver. }
  apply andb_true_iff in Ea as [_ Ea]. pose proof (last_running_bounds _ _ Ea) as Hl.
  eapply runs_step; [by apply packet_start_run|].
  eapply (runs_step _ _ _ (end_pts d)).
  { unfold pts_add, liftO. rewrite Z.shiftl_mul_pow2 by (unfold PTS_FRACTIONAL_BITS; lia).
    rewrite s64_ok; [done|]. change kMaxFrames with (2 ^ 20 - 1) in Hl. fold a.
    change (2 ^ PTS_FRACTIONAL_BITS) with 4096. unfold is_s64, min_s64, max_s64.
    subst a. lia. }
  apply runs_get. apply runs_mod. apply runs_mod. apply runs_get. cbn [members].
  assert (prime_callback_ (set_next_pts (end_pts d) (members s)) = prime_callback_ a) as -> by done.
  rewrite zip_regions by done. rewrite Hb.
  destruct (prime_callback_ a) as [c|] eqn:Ep.
  - apply runs_mod. apply runs_mod_last. cbn. by rewrite <- app_assoc.
  - apply runs_ret. f_equal. unfold set_prime, set_next_pts. cbn. subst a. by rewrite Ep.
Qed.

Lemma SendPacket_overflow s b p cbk :
  buffer_ s = Some b → 0 < size b ≤ kMaxBufferLen → audio_ok (members s) →
  is_s64 (pts p) → pts p ≠ min_s64 → pts p ≠ kNoTimestamp → ¬ is_s64 (starts_at (members s) p) →
  runs (SendPacket p cbk) s (λ _ s', refused s s').
Proof.
  intros Hb Hsz [Hfs Hr] Hp Hp0 Hk Hst. unfold SendPacket. apply runs_get. rewrite Hb.
  apply runs_dcheck; [apply negb_true_iff, Z.eqb_neq; lia|].
  destruct (regions_in_range (size b) (all_regions p)) eqn:Er; cbn [negb].
  2:{ apply runs_mod_last. by split_and!. }
  cbn [OnPacketReceived AudioPipe]. unfold audio_OnPacketReceived. cbn [packet_ state_buffer].
  apply runs_dcheck; [apply bool_decide_eq_true_2; cbn in Er; by destruct (payload p)|].
  apply runs_get. apply runs_dcheck; [apply negb_true_iff, Z.eqb_neq; lia|].
  eapply runs_step.
  { rewrite (in_range_present _ _ Er), audio_regions_run by done. done. }
  destruct (forallb _ _ && _); [|apply runs_mod; apply runs_mod_last; split_and!; try done; set_solver].
  eapply runs_step; [by apply packet_start_overflow|].
  apply runs_mod; apply runs_mod_last; split_and!; try done; set_solver.
Qed.

Lemma zip_bases b fs n rs :
  r_base <$> zip_with (λ r n, mk_audio_region (b + offset r) (n * FRAC_ONE)) rs (running fs n rs) = (λ r, b + offset r) <$> rs.
Proof. revert n. induction rs as [|r rs IH]; intros n; [done|]. cbn. f_equal. apply IH. Qed.

(** ** What a packet is to do *)

(** The packets that the pipe is to accept: regions are there, lie in the buffer and hold
    whole frames, there are no more frames than the limit, and the timestamp can be
    represented in fractions of frames. *)
Definition acceptable (a : audio) (sz : Z) (p : MediaPacket) : bool :=
  forallb (inside sz) (all_regions p) &&
  forallb (λ r, length_ r mod bytes_per_frame a =? 0) (present p) &&
  (total_frames (bytes_per_frame a) (present p) <=? kMaxFrames) && in_s64 (starts_at a p).
(** What is to be delivered for one: its regions in order, the only one at its length, and
    the time that it covers. *)
Record delivers (a : audio) (b : mapped_buffer) (p : MediaPacket) (cbk : nat) (d : AudioPacketRef) : Prop := {
  dl_state : state_ d = mk_packet_state p b cbk CONSUMED;
  dl_bases : r_base <$> regions d = (λ r, base b + offset r) <$> present p;
  dl_length : ∀ r, present p = [r] → frac_frame_len <$> regions d = [region_frames (bytes_per_frame a) r * FRAC_ONE];
  dl_start : start_pts d = starts_at a p;
  dl_end : end_pts d = starts_at a p + total_frames (bytes_per_frame a) (present p) * FRAC_ONE;
}.

(** C37. Sending a packet of less than 2^32 frames to an audio pipe whose buffer is set, with
    a timestamp that is at most 2^62 fractions of frames from 0 or overflows: an acceptable packet
    is delivered to the owner, once, with the timestamp it carries converted to
    fractions of frames or else the end of the packet before it, and its end, one frame
    count later, becomes the timestamp expected next; its regions are handed on in order,
    a payload of one region with its length (see [audio_regions_defect] for the lengths of
    several); a pending prime request is then answered.  A packet that is not acceptable
    closes the connection and nothing is delivered. *)
Theorem SendPacket_spec s b p cbk (a := members s) :
  buffer_ s = Some b → 0 < size b ≤ kMaxBufferLen → audio_ok a →
  Forall region_ok (present p) → total_frames (bytes_per_frame a) (present p) < 2 ^ 32 →
  is_s64 (pts p) → pts p ≠ min_s64 →
  - 2 ^ 62 ≤ starts_at a p ≤ 2 ^ 62 ∨ (pts p ≠ kNoTimestamp ∧ ¬ is_s64 (starts_at a p)) →
  runs (SendPacket p cbk) s (λ _ s',
    if acceptable a (size b) p then
      ∃ d, delivers a b p cbk d ∧
        s' = mk_pipe (bound s) (Some b) (set_prime None (set_next_pts (end_pts d) a))
               (log s ++ Delivered d :: match prime_callback_ a with Some c => [PrimeDone c] | None => [] end)
    else refused s s').
Proof.
  intros Hb Hsz Ha Hrs Htot Hp Hp0 Hst. unfold acceptable. pose proof Ha as [Hfs _].
  assert (is_u 64 (size b)) as Hu by (unfold is_u, kMaxBufferLen in *; lia).
  rewrite <- regions_in_range_inside by done. destruct Hst as [Hst|[Hk Hst]].
  2:{ replace (in_s64 _) with false; [rewrite andb_false_r; by eapply SendPacket_overflow|].
      symmetry. apply not_true_iff_false. by rewrite in_s64_spec. }
  replace (in_s64 _) with true by (symmetry; apply in_s64_spec; unfold is_s64, min_s64, max_s64; lia).
  rewrite andb_true_r. eapply runs_mono; [by apply (SendPacket_run s b p cbk)|]. intros ? s'. cbv beta zeta. fold a.
  destruct (regions_in_range (size b) (all_regions p)) eqn:Er; cbn [andb]; [|done].
  destruct (running_total (bytes_per_frame a) (present p) Hfs Hrs 0) as (El & Ef & E1); [done|done|].
  rewrite Z.add_0_l in El, Ef. rewrite Ef.
  2:{ unfold present. cbn in Er |- *. destruct (payload p); [done|done]. }
  case_match; [|done]. intros ->. eexists. split; [|done]. split; try done.
  - apply zip_bases.
  - intros r E. unfold audio_packet. cbn [regions]. rewrite (E1 r E), E. cbn. by rewrite Z.add_0_l.
  - unfold audio_packet. cbn [end_pts]. by rewrite El.
Qed.

(** The audio region of a packet with one region lies in the mapped buffer. *)
Lemma single_region_in_buffer a b p cbk d r :
  audio_ok a → all_regions p = [Some r] → region_ok r → acceptable a (size b) p = true →
  delivers a b p cbk d →
  ∃ q, regions d = [q] ∧ base b ≤ r_base q ∧
    r_base q + frac_frame_len q / FRAC_ONE * bytes_per_frame a ≤ base b + size b ∧
    end_pts d - start_pts d = frac_frame_len q.
Proof.
  intros [Hfs _] Hall [Ho Hl] Hacc [_ Hbase Hlen Hs He].
  assert (present p = [r]) as Hpr by (unfold present; by rewrite Hall).
  specialize (Hlen r Hpr). rewrite Hpr in *. unfold acceptable in Hacc. rewrite Hall in Hacc.
  repeat (apply andb_true_iff in Hacc as [Hacc _]). cbn in Hacc. apply Z.leb_le in Hacc.
  destruct (regions d) as [|q [|]]; try done. injection Hbase as Hq. injection Hlen as Hf.
  exists q. split; [done|]. rewrite Hq, Hf, Z.div_mul by done. unfold is_u in Ho.
  assert (region_frames (bytes_per_frame a) r * bytes_per_frame a ≤ length_ r).
  { rewrite Z.mul_comm. by apply Z.mul_div_le. }
  rewrite He, Hs. cbn. split_and!; lia.
Qed.

(** Regions beyond the first are given the running total of frames instead of their
    own count, so that an acceptable packet can yield a region that ends behind the
    mapped buffer; and a packet may be as long as [2^20 - 1] frames, although a region
    of [2^19] frames is already too long for the mixers' signed positions. *)
Lemma audio_regions_defect :
  let a := mk_audio 1 (mk_ratio 4096 1) false 0 None in
  (let b := mk_mapped 8 1000 in
   let p := mk_packet 0 (Some (mk_region 0 4)) (Some [Some (mk_region 4 4)]) in
   let d := audio_packet a b p 0 in
   acceptable a (size b) p = true ∧
   ∃ q, regions d !! 1%nat = Some q ∧
     base b + size b < r_base q + frac_frame_len q / FRAC_ONE * bytes_per_frame a) ∧
  (let b := mk_mapped (2 ^ 19) 1000 in
   let p := mk_packet 0 (Some (mk_region 0 (2 ^ 19))) None in
   acceptable a (size b) p = true ∧
   ∃ q, regions (audio_packet a b p 0) = [q] ∧ 2 ^ 31 - 1 < frac_frame_len q).
Proof.
  cbn zeta. split; (split; [vm_compute; reflexivity|]).
  - exists (mk_audio_region 1004 32768). by vm_compute.
  - exists (mk_audio_region 1000 (2 ^ 31)). by vm_compute.
Qed.

(** The pipe of the witnesses: a track of one-byte frames, a buffer of 64 bytes. *)
Definition small_pipe : pipe audio :=
  mk_pipe true (Some (mk_mapped 64 1000)) (mk_audio 1 (mk_ratio 4096 1) true 8192 (Some 5%nat)) [].
Definition small_packet : MediaPacket := mk_packet kNoTimestamp (Some (mk_region 16 4)) None.


End Audio.

Lemma SendPacket_spec_witness :
  @runs _ _ (@SendPacket _ debug_build (@AudioPipe debug_build) small_packet 7) small_pipe (λ _ s',
    ∃ d, delivers (members small_pipe) (mk_mapped 64 1000) small_packet 7 d ∧
      s' = mk_pipe true (Some (mk_mapped 64 1000)) (mk_audio 1 (mk_ratio 4096 1) true (end_pts d) None)
             [Delivered d; PrimeDone 5]).
Proof.
  exact (@SendPacket_spec debug_build small_pipe (mk_mapped 64 1000) small_packet 7 eq_refl
    ltac:(by vm_compute) ltac:(by vm_compute) ltac:(by repeat constructor) ltac:(by vm_compute) ltac:(by vm_compute)
    ltac:(by vm_compute) ltac:(left; by vm_compute)).
Defined.

End MediaPipe.
