(* ===== verification/StandardOutput.v ===== *)
(** The mixing of audio outputs (services/media/audio/platform/generic:
    standard_output_base.cc, throttle_output.cc) and the queues between tracks and
    outputs (services/media/audio/audio_track_to_output_link.cc).

    An output wakes up, asks its implementation for mix jobs and, for each job, mixes
    the pending packets of every linked track into an intermediate buffer, which is
    then clipped into the output's format.  The sampling positions come from the
    composition of two linear transforms: local time to track frames, and local time
    to output frames.

    One wake-up is a sequential program over the output's members.  Tracks enter
    through what the output reads of them, and the samples of packets through the
    contents of memory, [mem], from an address on.  Pushing and flushing by the server's
    thread are operations on a link of their own; they take the locks that a wake-up
    holds while it looks at the front of a queue. *)

From S2P Require Import Prelude LinearTransform StreamTypes TypeConversions Lpcm Mixer MediaPipe.

Module StandardOutput.
Import LinearTransform TypeConversions Mixer MediaPipe.
Import Lpcm (swrap).

(** ** State *)

(** [MixJob], without the pointer to the output's memory. *)
Record MixJob := mk_job {
  buf_frames : Z;
  start_pts_of : Z;
  local_to_output_gen : Z;
  accumulate : bool;
  local_to_output : option transform;
  frames_produced : Z;
}.
Definition INVALID_GENERATION : Z := 0.

Definition set_frames_produced (n : Z) (j : MixJob) : MixJob :=
  mk_job (buf_frames j) (start_pts_of j) (local_to_output_gen j) (accumulate j) (local_to_output j) n.
Definition set_accumulate (j : MixJob) : MixJob :=
  mk_job (buf_frames j) (start_pts_of j) (local_to_output_gen j) true (local_to_output j) (frames_produced j).

(** [TrackBookkeeping] *)
Record TrackBookkeeping := mk_info {
  lt_to_track_frames : transform;
  out_frames_to_track_frames : transform;
  lt_to_track_frames_gen : Z;
  out_frames_to_track_frames_gen : Z;
  step_size : Z;
  amplitude_scale : Z;
  the_mixer : mixer;
}.
Definition set_mixer (m : mixer) (i : TrackBookkeeping) : TrackBookkeeping :=
  mk_info (lt_to_track_frames i) (out_frames_to_track_frames i) (lt_to_track_frames_gen i)
    (out_frames_to_track_frames_gen i) (step_size i) (amplitude_scale i) m.
Definition set_amplitude (a : Z) (i : TrackBookkeeping) : TrackBookkeeping :=
  mk_info (lt_to_track_frames i) (out_frames_to_track_frames i) (lt_to_track_frames_gen i)
    (out_frames_to_track_frames_gen i) (step_size i) a (the_mixer i).

(** What an output reads of a track: its rate transform with its generation, its ratio
    and its format. *)
Record track := mk_track {
  rate_trans : transform;
  rate_gen : Z;
  FractionalFrameToMediaTimeRatio : ratio;
  Format : AudioMediaTypeDetails;
}.

(** [AudioTrackToOutputLink]: a track that is gone is [None]. *)
Record link := mk_link {
  GetTrack : option track;
  output_bookkeeping : TrackBookkeeping;
  pending_queue_ : list AudioPacketRef;
  flushed_ : bool;
  gain_ : Z;
}.

(** ** Queues *)

(** [PushToPendingQueue], [FlushPendingQueue] with [ReleaseQueue]: the link, and the
    packets that are released, in order, with their result. *)
Definition PushToPendingQueue (pkt : AudioPacketRef) (l : link) : link :=
  mk_link (GetTrack l) (output_bookkeeping l) (pending_queue_ l ++ [pkt]) (flushed_ l) (gain_ l).
Definition ReleaseQueue (q : list AudioPacketRef) : list AudioPacketRef :=
  (λ p, mk_audio_packet (SetResult FLUSHED (state_ p)) (regions p) (start_pts p) (end_pts p)) <$> q.
Definition FlushPendingQueue (l : link) : link * list AudioPacketRef :=
  (mk_link (GetTrack l) (output_bookkeeping l) [] true (gain_ l), ReleaseQueue (pending_queue_ l)).

(** [LockPendingQueueFront]: the front, whether there was a flush, and the link. *)
Definition LockPendingQueueFront (l : link) : option AudioPacketRef * bool * link :=
  (head (pending_queue_ l), flushed_ l,
   mk_link (GetTrack l) (output_bookkeeping l) (pending_queue_ l) false (gain_ l)).

(** [UnlockPendingQueueFront] *)
Definition UnlockPendingQueueFront (pkt : option AudioPacketRef) (release_packet : bool) (l : link) : link :=
  match pkt with
  | Some _ =>
      if release_packet
      then mk_link (GetTrack l) (output_bookkeeping l) (tail (pending_queue_ l)) (flushed_ l) (gain_ l)
      else l
  | None => l
  end.

Definition set_info (i : TrackBookkeeping) (l : link) : link :=
  mk_link (GetTrack l) i (pending_queue_ l) (flushed_ l) (gain_ l).

Section WithBuild.
Context `{BD : Build}.
Implicit Types (info : TrackBookkeeping) (job : MixJob).

(** ** Transforms *)

(** A transform whose result is used whether it succeeded or not: a [DCHECK] of
    success, and an uninitialized variable if nothing was stored. *)
Definition transform_checked (t : transform) (x : Z) : outcome Z :=
  '(good, o) ← DoForwardTransform t x;
  _ ← dcheck good;
  match o with Some v => Ok v | None => Fault UndefinedBehaviour end.

(** [TrackBookkeeping::UpdateTrackTrans] *)
Definition UpdateTrackTrans (t : track) info : outcome TrackBookkeeping :=
  if lt_to_track_frames_gen info =? rate_gen t then Ok info
  else
    let tmp := rate_trans t in
    let scale_trans := transform_new_ratio 0 (FractionalFrameToMediaTimeRatio t) 0 in
    '(good, o) ← DoForwardTransform scale_trans (b_zero tmp);
    _ ← dcheck good;
    let b := default (b_zero (lt_to_track_frames info)) o in
    '(good, r) ← ratio_compose (scale scale_trans) (scale tmp);
    _ ← dcheck good;
    Ok (mk_info (mk_transform r (a_zero tmp) b) (out_frames_to_track_frames info) (rate_gen t)
          INVALID_GENERATION (step_size info) (amplitude_scale info) (the_mixer info)).

(** [TrackBookkeeping::UpdateOutputTrans] *)
Definition UpdateOutputTrans job info : outcome TrackBookkeeping :=
  _ ← dcheck (bool_decide (is_Some (local_to_output job)));
  _ ← dcheck (negb (local_to_output_gen job =? INVALID_GENERATION));
  if out_frames_to_track_frames_gen info =? local_to_output_gen job then Ok info
  else
    _ ← dcheck (negb (lt_to_track_frames_gen info =? 0));
    match local_to_output job with
    | None => Fault UndefinedBehaviour
    | Some lo =>
        let lt := lt_to_track_frames info in
        intermediate ← s64 (a_zero lo - a_zero lt);
        track_frame_offset ← transform_checked (transform_new_ratio 0 (scale lt) 0) intermediate;
        b ← s64 (b_zero lt + track_frame_offset);
        tmp_ratio ← ratio_new (denominator (scale lo)) (numerator (scale lo));
        '(good, r) ← ratio_compose tmp_ratio (scale lt);
        _ ← dcheck good;
        _ ← dcheck (negb (denominator r =? 0));
        step ← (if numerator r =? 0 then Ok 0
                else
                  tmp_step_size ← transform_checked (transform_new_ratio 0 r 0) 1;
                  _ ← dcheck (0 <=? tmp_step_size);
                  _ ← dcheck (tmp_step_size <=? max_u32);
                  Ok (u32 tmp_step_size));
        Ok (mk_info lt (mk_transform r (b_zero lo) b) (lt_to_track_frames_gen info)
              (local_to_output_gen job) step (amplitude_scale info) (the_mixer info))
    end.

(** [SetupMix] *)
Definition SetupMix job info : outcome (bool * TrackBookkeeping * MixJob) :=
  info ← UpdateOutputTrans job info;
  Ok (true, info, set_frames_produced 0 job).

(** ** Mixing a packet *)

Section Memory.
Context (mem : Z → list Z).

(** The loop of [ProcessMix] over the regions: [true] when all were consumed. *)
Fixpoint mix_regions (rs : list Region) (frames_left step amplitude : Z) (acc : bool) (m : mixer)
    (k : cursor) : outcome (bool * mixer * cursor) :=
  match rs with
  | [] => Ok (true, m, k)
  | r :: rs =>
      _ ← dcheck (frac_frame_len r <=? 2 ^ 31 - 1);
      if swrap 32 (frac_frame_len r) <=? soff k then
        mix_regions rs frames_left step amplitude acc m
          (mk_cursor (buf k) (doff k) (swrap 32 (u32 (soff k - frac_frame_len r))))
      else
        '(consumed_source, k, m) ←
          Mix m frames_left (mem (r_base r)) (frac_frame_len r) step amplitude acc k;
        _ ← dcheck (doff k <=? frames_left);
        if negb consumed_source then
          _ ← dcheck (doff k =? frames_left);
          Ok (false, m, k)
        else
          mix_regions rs frames_left step amplitude acc m
            (mk_cursor (buf k) (doff k) (swrap 32 (u32 (soff k - frac_frame_len r))))
  end.

(** [int64_t] positions of the first and the last sample, and where in the output and
    in the packet mixing starts: [inl] is an early return of [ProcessMix]. *)
Definition sampling_window job info (packet : AudioPacketRef) (frames_left : Z) :
    outcome (bool + Z * Z) :=
  let m := the_mixer info in
  x ← s64 (start_pts_of job + frames_produced job);
  first_sample_ftf ← transform_checked (out_frames_to_track_frames info) x;
  _ ← dcheck (negb (frames_left =? 0));
  d ← s64 (u32 (frames_left - 1) * step_size info);
  final_sample_ftf ← s64 (first_sample_ftf + d);
  if end_pts packet =? start_pts packet then Ok (inl true)
  else
    len ← s64 (end_pts packet - start_pts packet);
    _ ← dcheck (FRAC_ONE <=? len);
    final_pts ← s64 (end_pts packet - FRAC_ONE);
    lo ← s64 (first_sample_ftf - neg_filter_width m);
    if final_pts <? lo then Ok (inl true)
    else
      hi ← s64 (final_sample_ftf + pos_filter_width m);
      if hi <? start_pts packet then Ok (inl false)
      else
        input_offset_64 ← s64 (first_sample_ftf - start_pts packet);
        first_sample_pos_window_edge ← s64 (first_sample_ftf + pos_filter_width m);
        '(output_offset_64, input_offset_64) ←
          (if first_sample_pos_window_edge <? start_pts packet then
             gap ← s64 (start_pts packet - first_sample_pos_window_edge);
             gap ← s64 (gap + step_size info);
             gap ← s64 (gap - 1);
             let output_offset_64 := Z.quot gap (step_size info) in
             adv ← s64 (output_offset_64 * step_size info);
             input_offset_64 ← s64 (input_offset_64 + adv);
             Ok (output_offset_64, input_offset_64)
           else Ok (0, input_offset_64));
        _ ← dcheck (0 <=? output_offset_64);
        _ ← dcheck (output_offset_64 <? frames_left);
        _ ← dcheck (input_offset_64 <=? 2 ^ 31 - 1);
        _ ← dcheck (- 2 ^ 31 <=? input_offset_64);
        Ok (inr (u32 output_offset_64, swrap 32 input_offset_64)).

(** [ProcessMix]: whether the packet is used up, the bookkeeping, the job and the
    intermediate buffer. *)
Definition ProcessMix (channels : Z) info (packet : AudioPacketRef) job (mix_buf : list Z) :
    outcome (bool * TrackBookkeeping * MixJob * list Z) :=
  _ ← dcheck (negb (buf_frames job =? 0));
  _ ← dcheck (frames_produced job <=? buf_frames job);
  if step_size info =? 0 then Ok (false, info, job, mix_buf)
  else if buf_frames job <=? frames_produced job then Ok (false, info, job, mix_buf)
  else
    let frames_left := u32 (buf_frames job - frames_produced job) in
    let buf_at := Z.to_nat (u32 (frames_produced job * channels)) in
    w ← sampling_window job info packet frames_left;
    match w with
    | inl r => Ok (r, info, job, mix_buf)
    | inr (output_offset, frac_input_offset) =>
        '(consumed, m, k) ←
          mix_regions (regions packet) frames_left (step_size info) (amplitude_scale info)
            (accumulate job) (the_mixer info)
            (mk_cursor (drop buf_at mix_buf) output_offset frac_input_offset);
        let mix_buf := take buf_at mix_buf ++ buf k in
        let info := set_mixer m info in
        if negb consumed then Ok (false, info, job, mix_buf)
        else
          let n := u32 (frames_produced job + doff k) in
          _ ← dcheck (n <=? buf_frames job);
          Ok (true, info, set_frames_produced n job, mix_buf)
    end.

(** ** Trimming *)

(** [SetupTrim] with the new threshold, [ProcessTrim] *)
Definition SetupTrim (now : Z) info : outcome (bool * option Z) :=
  DoForwardTransform (lt_to_track_frames info) now.
Definition ProcessTrim (trim_threshold : Z) (pkt : AudioPacketRef) : bool :=
  negb (trim_threshold <? end_pts pkt).

(** ** All tracks of an output *)

(** The members that a pass over the tracks changes. *)
Record pass := mk_pass { p_job : MixJob; p_buf : list Z; trim_threshold_ : option Z }.

(** The two tasks: [setup_mix_] with [process_mix_], and [setup_trim_] with
    [process_trim_]. *)
Inductive task := MixTask (channels : Z) | TrimTask (now : Z).

Definition setup (k : task) (s : pass) info : outcome (bool * TrackBookkeeping * pass) :=
  match k with
  | MixTask _ =>
      '(ok, info, job) ← SetupMix (p_job s) info;
      Ok (ok, info, mk_pass job (p_buf s) (trim_threshold_ s))
  | TrimTask now =>
      '(ok, o) ← SetupTrim now info;
      Ok (ok, info, mk_pass (p_job s) (p_buf s) (match o with Some t => Some t | None => trim_threshold_ s end))
  end.
Definition process (k : task) (s : pass) info (pkt : AudioPacketRef) :
    outcome (bool * TrackBookkeeping * pass) :=
  match k with
  | MixTask channels =>
      '(r, info, job, b) ← ProcessMix channels info pkt (p_job s) (p_buf s);
      Ok (r, info, mk_pass job b (trim_threshold_ s))
  | TrimTask _ =>
      match trim_threshold_ s with
      | None => Fault UndefinedBehaviour
      | Some t => Ok (ProcessTrim t pkt, info, s)
      end
  end.

(** The loop over a track's queue; it ends with the queue, since every further turn
    has taken a packet from it. *)
Fixpoint track_loop (fuel : nat) (k : task) (setup_done : bool) (s : pass) (l : link) :
    outcome (pass * link) :=
  match fuel with
  | O => Fault OutOfFuel
  | S fuel =>
      let '(pkt_ref, was_flushed, l) := LockPendingQueueFront l in
      let l := if was_flushed
               then set_info (set_mixer (Mixer_Reset (the_mixer (output_bookkeeping l))) (output_bookkeeping l)) l
               else l in
      match pkt_ref with
      | None => Ok (s, UnlockPendingQueueFront None false l)
      | Some pkt =>
          '(setup_done, info, s) ←
            (if setup_done : bool then Ok (true, output_bookkeeping l, s)
             else setup k s (output_bookkeeping l));
          let l := set_info info l in
          if negb setup_done then Ok (s, UnlockPendingQueueFront (Some pkt) false l)
          else
            let info := set_amplitude (gain_ l) info in
            '(more, info, s) ← process k s info pkt;
            let l := set_info info l in
            if negb more then Ok (s, UnlockPendingQueueFront (Some pkt) false l)
            else track_loop fuel k true s (UnlockPendingQueueFront (Some pkt) true l)
      end
  end.

(** [ForeachTrack]; links whose track is gone are erased.  A shutdown that another
    thread begins is noticed before the track with number [stop]. *)
Fixpoint ForeachTrack (k : task) (stop : option nat) (s : pass) (links : list link) :
    outcome (pass * list link) :=
  match links with
  | [] => Ok (s, [])
  | l :: links' =>
      if decide (stop = Some 0%nat) then Ok (s, links)
      else
        let stop := pred <$> stop in
        match GetTrack l with
        | None => ForeachTrack k stop s links'
        | Some t =>
            info ← UpdateTrackTrans t (output_bookkeeping l);
            '(s, l) ← track_loop (S (length (pending_queue_ l))) k false s (set_info info l);
            '(s, rest) ←
              ForeachTrack k stop (mk_pass (set_accumulate (p_job s)) (p_buf s) (trim_threshold_ s)) links';
            Ok (s, l :: rest)
        end
  end.

(** ** Waking up *)

Definition MAX_TRIM_PERIOD : Z := 10000000.

(** The members of an output. *)
Record output := mk_output {
  output_formatter_ : option OutputFormatter;
  mix_buf_ : option (list Z);
  mix_buf_frames_ : Z;
  links_ : list link;
  next_sched_time_ : Z;
  next_sched_time_known_ : bool;
  dest : list Z;
}.

(** What the implementation of an output adds, with members of its own:
    [StartMixJob], which may set the next scheduled time, with the memory to be filled,
    and [FinishMixJob]. *)
Class OutputImpl (I : Type) := {
  StartMixJob : Z → I → output → option (MixJob * list Z) * I * output;
  FinishMixJob : MixJob → I → output → outcome (bool * I * output);
}.

Definition SetNextSchedTime (t : Z) (o : output) : output :=
  mk_output (output_formatter_ o) (mix_buf_ o) (mix_buf_frames_ o) (links_ o) t true (dest o).

(** The body of one mix job: clear the intermediate buffer, mix, produce the output. *)
Definition run_job (stop : option nat) (job : MixJob) (memory : list Z) (o : output) : outcome output :=
  _ ← dcheck (bool_decide (is_Some (mix_buf_ o)));
  _ ← dcheck (bool_decide (is_Some (output_formatter_ o)));
  _ ← dcheck (buf_frames job <=? mix_buf_frames_ o);
  match mix_buf_ o, output_formatter_ o with
  | Some b, Some f =>
      let n := Z.to_nat (buf_frames job * of_channels f) in
      if decide (length b < n)%nat then Fault UndefinedBehaviour
      else
        let b := replicate n 0 ++ drop n b in
        '(s, links) ← ForeachTrack (MixTask (of_channels f)) stop (mk_pass job b None) (links_ o);
        d ← ProduceOutput f (p_buf s) memory (buf_frames job);
        Ok (mk_output (output_formatter_ o) (Some (p_buf s)) (mix_buf_frames_ o) links
              (next_sched_time_ o) (next_sched_time_known_ o) (dest o ++ d))
  | _, _ => Fault UndefinedBehaviour
  end.

Context {Impl : Type} `{OI : OutputImpl Impl}.

(** The [do] loop of [Process]: whether something was mixed. *)
Fixpoint mix_loop (fuel : nat) (now : Z) (stop : option nat) (mixed : bool) (i : Impl) (o : output) :
    outcome (bool * Impl * output) :=
  match fuel with
  | O => Fault OutOfFuel
  | S fuel =>
      match StartMixJob now i o with
      | (None, i, o) => Ok (mixed, i, o)
      | (Some (job, memory), i, o) =>
          o ← run_job stop job memory o;
          '(again, i, o) ← FinishMixJob job i o;
          if again : bool then mix_loop fuel now stop true i o else Ok (true, i, o)
      end
  end.

(** [Process]: the time of the next callback, or [None] when the output shuts itself
    down.  The pass that trims reads the clock again. *)
Definition Process (fuel : nat) (now trim_now : Z) (stop : option nat) (i : Impl) (o : output) :
    outcome (option Z * Impl * output) :=
  _ ← dcheck (next_sched_time_known_ o);
  '(mixed, i, o) ←
    (if next_sched_time_ o <=? now then
       mix_loop fuel now stop false i
         (mk_output (output_formatter_ o) (mix_buf_ o) (mix_buf_frames_ o) (links_ o)
            (next_sched_time_ o) false (dest o))
     else Ok (false, i, o));
  if negb (next_sched_time_known_ o) then Ok (None, i, o)
  else
    o ← (if mixed : bool then Ok o
         else
           '(_, links) ← ForeachTrack (TrimTask trim_now) stop
                           (mk_pass (mk_job 0 0 0 false None 0) [] None) (links_ o);
           Ok (mk_output (output_formatter_ o) (mix_buf_ o) (mix_buf_frames_ o) links
                 (next_sched_time_ o) (next_sched_time_known_ o) (dest o)));
    max_sched_time ← s64 (now + MAX_TRIM_PERIOD);
    Ok (Some (if max_sched_time <? next_sched_time_ o then max_sched_time else next_sched_time_ o), i, o).

End Memory.

(** [SetupMixBuffer] *)
Definition SetupMixBuffer (max_mix_frames : Z) (fresh : Z → Z) (o : output) : outcome output :=
  match output_formatter_ o with
  | None => Fault UndefinedBehaviour
  | Some f =>
      _ ← dcheck (0 <? of_channels f);
      _ ← dcheck (0 <? max_mix_frames);
      if of_channels f =? 0 then Fault UndefinedBehaviour
      else
        _ ← dcheck (max_mix_frames <=? max_u32 / of_channels f);
        let n := u32 (max_mix_frames * of_channels f) in
        Ok (mk_output (output_formatter_ o) (Some (map fresh (seqZ 0 n))) max_mix_frames (links_ o)
              (next_sched_time_ o) (next_sched_time_known_ o) (dest o))
  end.

(** [MediaResult], [InitializeLink] with the bookkeeping it allocates. *)
Inductive MediaResult := OK | INVALID_ARGUMENT | UNSUPPORTED_CONFIG.
Definition InitializeLink (format : option AudioMediaTypeDetails) (l : link) (uninit : Z * Z) :
    outcome (MediaResult * link) :=
  match GetTrack l with
  | None => Ok (INVALID_ARGUMENT, l)
  | Some t =>
      om ← Mixer_Select (Format t) format;
      match om with
      | None => Ok (UNSUPPORTED_CONFIG, l)
      | Some m =>
          Ok (OK, set_info (mk_info transform_default transform_default 0 INVALID_GENERATION
                              uninit.1 uninit.2 m) l)
      end
  end.

End WithBuild.

(** ** The throttle output *)

Definition TRIM_PERIOD : Z := 10000000.

(** [ThrottleOutput], whose member is [last_sched_time_]: no job is ever started. *)
Definition Throttle_next (last_sched_time process_start : Z) : Z :=
  let last := last_sched_time + TRIM_PERIOD in
  if last <? process_start then process_start + TRIM_PERIOD else last.
Definition Throttle `{Build} : OutputImpl Z := {|
  StartMixJob process_start last_sched_time o :=
    let last := Throttle_next last_sched_time process_start in (None, last, SetNextSchedTime last o);
  FinishMixJob _ last_sched_time o := _ ← dcheck false; Ok (false, last_sched_time, o);
|}.

End StandardOutput.
