(* ===== verification/StandardOutputSpec.v ===== *)
(** Theorems about the outputs of [StandardOutput].

    A packet contributes to a mix job the samples of its own signal, at the positions
    that the output's transform assigns to the output's frames ([contribution]).
    [ProcessMix] computes exactly this, over all regions of the packet. *)

From S2P Require Import Prelude LinearTransform StreamTypes TypeConversions Lpcm Mixer MixerSpec MediaPipe StandardOutput.

Module StandardOutputSpec.
Import LinearTransform TypeConversions Mixer MixerSpec MediaPipe StandardOutput.
Import Lpcm (swrap).

(** ** The signal of several regions *)

Section Signals.
Context (m : mixer) (c : config) (Hm : mixer_config m = Some c).

(** The positions that a mixer can start from. *)
Definition reaches (s : Z) : Prop := - pos_filter_width m ≤ s.

Lemma signal_end_le n : (0 < n)%nat → signal_end m n ≤ Z.of_nat n * FRAC_ONE.
Proof. intros Hn. change FRAC_ONE with 4096. destruct m; cbn; change FRAC_ONE with 4096; lia. Qed.

Lemma signal_end_add n1 n2 : signal_end m (n1 + n2) = Z.of_nat n1 * FRAC_ONE + signal_end m n2.
Proof. destruct m; [done|..]; cbn [signal_end]; change FRAC_ONE with 4096; lia. Qed.

(** A buffer's signal does not depend on what follows it. *)
Lemma signal_first src1 src2 n1 n2 s d :
  source c src1 n1 → source c src2 n2 → (0 < n1)%nat → (d < DChCount c)%nat →
  reaches s → s < signal_end m n1 → signal m (src1 ++ src2) s d = signal m src1 s d.
Proof.
  intros H1 H2 Hn Hd Hs He. unfold reaches in Hs. destruct m as [|c'|c' f]; [done|..]; injection Hm as ->;
    cbn [signal signal_end pos_filter_width] in *; change FRAC_ONE with 4096 in *.
  - unfold held. change FRAC_ONE with 4096. rewrite (frame_app c src1 src2 n1 n2); try done.
    + rewrite decide_True; [done|]. apply Z.div_lt_upper_bound; lia.
    + apply Z.div_pos; lia.
  - erewrite (interpolated_app c _ _ src1 src2 n1 n2); try done; change FRAC_ONE with 4096; [|lia].
    by rewrite decide_True by lia.
Qed.

(** What follows it continues its signal, whether the mixer has gone through the first
    buffer or the position has jumped over it. *)
Lemma signal_next src1 src2 n1 n2 s d m' :
  source c src1 n1 → source c src2 n2 → (0 < n1)%nat → (d < DChCount c)%nat →
  (signal_end m n1 ≤ s ∧ reaches s ∧ after m src1 n1 m') ∨ (Z.of_nat n1 * FRAC_ONE ≤ s ∧ m' = m) →
  signal m (src1 ++ src2) s d = signal m' src2 (s - Z.of_nat n1 * FRAC_ONE) d.
Proof.
  intros H1 H2 Hn Hd Hs. unfold reaches in Hs. destruct m as [|c'|c' f]; [done|..]; injection Hm as ->;
    cbn [signal signal_end pos_filter_width] in *; change FRAC_ONE with 4096 in *.
  - assert (Z.of_nat n1 * 4096 ≤ s ∧ m' = PointSampler c) as [Hle ->].
    { destruct Hs as [(Hs & _ & Ha)|Hs]; [|done]. split; [done|]. destruct m'; [done| |done]. by rewrite Ha. }
    cbn [signal]. unfold held. change FRAC_ONE with 4096.
    rewrite (frame_app c src1 src2 n1 n2); try done; [|apply Z.div_pos; lia].
    assert (Z.of_nat n1 ≤ s / 4096) by (apply Z.div_le_lower_bound; lia).
    rewrite decide_False by lia. f_equal.
    replace (s - Z.of_nat n1 * 4096) with (s + - Z.of_nat n1 * 4096) by lia.
    rewrite Z.div_add; lia.
  - erewrite (interpolated_app c _ _ src1 src2 n1 n2); try done; change FRAC_ONE with 4096; [|lia].
    rewrite decide_False by lia. destruct Hs as [(Hs & _ & Ha)|[Hs ->]].
    + destruct m' as [| |c' f']; [done..|]. destruct Ha as [<- [_ Ha]]. cbn [signal]. by rewrite Ha.
    + cbn [signal]. unfold interpolated, stream_frame. change FRAC_ONE with 4096.
      assert (0 ≤ (s - Z.of_nat n1 * 4096) / 4096) by (apply Z.div_pos; lia).
      by rewrite !(proj2 (Z.ltb_ge _ _)) by lia.
Qed.

(** Mixing a buffer and then the next one. *)
Lemma rebase_back off k : rebase (- off) (rebase off k) = k.
Proof. destruct k; unfold rebase; cbn. f_equal. lia. Qed.

Lemma moved_shift store src1 src2 n1 n2 m' dst_frames step k :
  source c src1 n1 → source c src2 n2 → (0 < n1)%nat → 0 < step →
  (signal_end m n1 ≤ soff k ∧ reaches (soff k) ∧ after m src1 n1 m') ∨
    (Z.of_nat n1 * FRAC_ONE ≤ soff k ∧ m' = m) →
  let F1 := Z.of_nat n1 * FRAC_ONE in
  moved (DChCount c) store (signal m (src1 ++ src2)) dst_frames (signal_end m (n1 + n2)) step k
  = rebase (- F1) (moved (DChCount c) store (signal m' src2) dst_frames (signal_end m n2) step (rebase F1 k)).
Proof.
  intros H1 H2 Hn Hs Hk F1. set (K := moved _ _ _ _ _ _ k). rewrite <- (rebase_back F1 K). f_equal.
  subst K. rewrite (moved_rebase _ _ _ (signal m' src2)); [|done|by apply config_D, H1|].
  - f_equal. rewrite signal_end_add. subst F1. lia.
  - intros s d Hsd Hd. apply (signal_next src1 src2 n1 n2); try done.
    destruct Hk as [(Hk1 & Hk2 & Hk3)|[Hk1 Hk2]]; [left|right]; split_and?; try done; try lia.
    unfold reaches in *. lia.
Qed.

Lemma moved_first store src1 src2 n1 n2 dst_frames step k :
  source c src1 n1 → source c src2 n2 → (0 < n1)%nat → 0 < step → reaches (soff k) →
  let k1 := moved (DChCount c) store (signal m src1) dst_frames (signal_end m n1) step k in
  moved (DChCount c) store (signal m (src1 ++ src2)) dst_frames (signal_end m (n1 + n2)) step k
  = moved (DChCount c) store (signal m (src1 ++ src2)) dst_frames (signal_end m (n1 + n2)) step k1.
Proof.
  intros H1 H2 Hn Hs Hk k1. subst k1.
  rewrite <- (moved_split _ _ _ _ (signal_end m n1) (signal_end m (n1 + n2))); [|done|].
  - f_equal. apply moved_ext; [done|by apply config_D, H1|]. intros s d Hsd Hd.
    apply (signal_first src1 src2 n1 n2); try done; [|lia]. unfold reaches in *. lia.
  - destruct m; [done|..]; cbn [signal_end]; change FRAC_ONE with 4096; lia.
Qed.

End Signals.

(** ** The regions of a packet *)

Section WithBuild.
Context `{BD : Build} (mem : Z → list Z).

(** A region holds [n] frames of samples. *)
Definition holds (c : config) (r : Region) (n : nat) : Prop :=
  (0 < n)%nat ∧ frac_frame_len r = Z.of_nat n * FRAC_ONE ∧ source c (mem (r_base r)) n.

(** All samples of a packet. *)
Definition samples (rs : list Region) : list Z := mjoin ((λ r, mem (r_base r)) <$> rs).

Lemma samples_source c rs ns :
  config_ok c → Forall2 (holds c) rs ns → source c (samples rs) (sum_list ns).
Proof.
  intros Hc. induction 1 as [|r n rs ns Hr _ IH].
  { split_and!; [done|by apply Forall_nil|done]. }
  change (samples (r :: rs)) with (mem (r_base r) ++ samples rs). change (sum_list (n :: ns)) with (n + sum_list ns)%nat.
  apply source_app; [apply Hr|done].
Qed.

(** Where mixing can start: the linear sampler insists on room in the destination. *)
Definition room (m : mixer) (frames_left : Z) (k : cursor) : Prop :=
  match m with LinearSampler _ _ => doff k < frames_left | _ => doff k ≤ frames_left end.

Lemma room_le m frames_left k : room m frames_left k → doff k ≤ frames_left.
Proof. destruct m; cbn; lia. Qed.

Lemma after_same m src n m' :
  after m src n m' → (∀ k, signal_end m' k = signal_end m k) ∧ pos_filter_width m' = pos_filter_width m ∧
  (∀ f k, room m f k ↔ room m' f k).
Proof. by destruct m, m'. Qed.

Lemma used_up_cases m n dst_frames k :
  m ≠ NoOp → signal_end m n ≤ soff k ∨ dst_frames ≤ doff k → doff k ≤ dst_frames →
  if used_up m n dst_frames k then signal_end m n ≤ soff k ∧ room m dst_frames k else doff k = dst_frames.
Proof.
  intros Hm Hs Hd. unfold used_up, room. destruct m as [|c|c f]; [done|..]; set (e := signal_end _ n) in *.
  - rewrite andb_true_r. destruct (Z.leb_spec e (soff k)); [split|]; lia.
  - destruct (Z.leb_spec e (soff k)), (Z.ltb_spec (doff k) dst_frames); cbn [andb]; [split|..]; lia.
Qed.

Lemma mixed_rebased a k k1 off D store sig dst_frames src_end step :
  let K := rebase (- off) (moved D store sig dst_frames src_end step (rebase off k1)) in
  let K' := moved D store sig dst_frames src_end step (rebase off (mixed a k k1)) in
  buf (mixed a k K) = buf (mixed a (rebase off (mixed a k k1)) K') ∧ doff K = doff K' ∧ soff K = soff K' + off.
Proof.
  cbn. destruct (mixed_rebase a k k1 off D store sig dst_frames src_end step) as (E & Ed & Es).
  cbn zeta in *. split_and!; [by rewrite E|done|done].
Qed.

Lemma signal_end_width m c n :
  mixer_config m = Some c → signal_end m n = Z.of_nat n * FRAC_ONE - pos_filter_width m.
Proof. destruct m; [done|..]; intros _; cbn; change FRAC_ONE with 4096; lia. Qed.

Lemma pos_filter_width_bounds m : 0 ≤ pos_filter_width m < FRAC_ONE.
Proof. destruct m; cbn; change FRAC_ONE with 4096; lia. Qed.

Lemma moved_soff D store sig dst_frames src_end step k :
  0 < step →
  let k' := moved D store sig dst_frames src_end step k in
  soff k ≤ soff k' ∧ (soff k' = soff k ∨ soff k' < src_end + step).
Proof.
  intros Hs. cbn. destruct (avail_bounds dst_frames src_end step (doff k) (soff k) Hs) as (Hn & _ & Hb & _).
  split; [nia|]. destruct (Z.le_gt_cases (soff k) src_end); [right; by apply Hb|].
  left. rewrite avail_none by (done || lia). lia.
Qed.

Lemma moved_doff D store sig dst_frames src_end step k :
  0 < step → doff k ≤ dst_frames →
  doff k ≤ doff (moved D store sig dst_frames src_end step k) ≤ dst_frames.
Proof.
  intros Hs Hd. cbn. destruct (avail_bounds dst_frames src_end step (doff k) (soff k) Hs) as (Hn & Hb & _). lia.
Qed.

Lemma mix_regions_run c a acc frames_left step :
  is_u 32 a → ∀ rs ns m k,
  Forall2 (holds c) rs ns → config_ok c → mixer_config m = Some c → mixer_ok m →
  reaches m (soff k) → room m frames_left k →
  args_ok c frames_left (Z.of_nat (sum_list ns) * FRAC_ONE) step k →
  headroom (DChCount c) acc (doff k) (buf k) → - 2 ^ 31 ≤ soff k < 2 ^ 31 →
  let K := moved (DChCount c) (put acc a) (signal m (samples rs)) frames_left
             (signal_end m (sum_list ns)) step k in
  ∃ b m' s', mix_regions mem rs frames_left step a acc m k
             = Ok (b, m', mk_cursor (buf (mixed a k K)) (doff K) s') ∧
    mixer_ok m' ∧ mixer_config m' = Some c ∧ pos_filter_width m' = pos_filter_width m ∧
    if b then signal_end m (sum_list ns) ≤ soff K else doff K = frames_left.
Proof.
  intros Ha rs. induction rs as [|r rs IH]; intros ns m k Hh Hc Hm Hok Hs Hr Hk Hhr Hsr K;
    pose proof Hk as (Hu & Hd0 & Hlen & Hstep & Hlow & HF & Hmax).
  { apply Forall2_nil_inv_l in Hh as ->. cbn [mix_regions]. exists true, m, (soff k).
    assert (signal_end m 0 ≤ soff k) as He.
    { unfold reaches in Hs. destruct m; [done|..]; cbn in *; change FRAC_ONE with 4096 in *; lia. }
    subst K. cbn [sum_list]. rewrite moved_none by (done || by right).
    split_and!; try done. unfold mixed. by destruct (muted a), k. }
  apply Forall2_cons_inv_l in Hh as (n & ns' & (Hn & Hrl & Hsrc) & Hh & ->).
  change (samples (r :: rs)) with (mem (r_base r) ++ samples rs) in K.
  change (sum_list (n :: ns')) with (n + sum_list ns')%nat in *. cbn [mix_regions].
  pose proof (samples_source c rs ns' Hc Hh) as Hsrc2. rewrite Hrl.
  set (F1 := Z.of_nat n * FRAC_ONE) in *.
  assert (0 < F1 ∧ F1 + Z.of_nat (sum_list ns') * FRAC_ONE + step ≤ 2 ^ 31
          ∧ 0 ≤ Z.of_nat (sum_list ns') * FRAC_ONE) as (HF1 & HF2 & HF3).
  { subst F1. change FRAC_ONE with 4096 in *. lia. }
  rewrite dcheck_true by lia. cbn [mbind outcome_bind]. rewrite (swrap32_small F1) by lia.
  destruct (Z.leb_spec F1 (soff k)) as [Hskip|Hmix].
  - rewrite swrap_u32 by lia. fold (rebase F1 k).
    destruct (IH ns' m (rebase F1 k)) as (b & m' & s' & -> & Hm' & Hc' & Hp' & Hb); try done.
    + unfold reaches, rebase. cbn. pose proof (pos_filter_width_bounds m). lia.
    + unfold args_ok, rebase. cbn. change FRAC_ONE with 4096 in *. split_and!; try done; lia.
    + unfold rebase. cbn. lia.
    + assert (K = rebase (- F1) (moved (DChCount c) (put acc a) (signal m (samples rs)) frames_left
                (signal_end m (sum_list ns')) step (rebase F1 k))) as ->
        by (apply (moved_shift m c); [done..|by right]).
      exists b, m', s'. split; [unfold mixed; by destruct (muted a)|]. split_and!; try done.
      rewrite (signal_end_add m c) by done. destruct b; cbn in *; lia.
  - destruct (Mix_run m c (mem (r_base r)) n frames_left step a acc k) as (m1 & E & Hm1 & Hc1 & Hp1 & Haft);
      try done.
    { unfold starts, room, reaches in *. destruct m; [done|..]; cbn in *; [lia|split; [done|lia]]. }
    { apply (args_ok_le _ _ _ (Z.of_nat (n + sum_list ns') * FRAC_ONE)); [done|].
      subst F1. change FRAC_ONE with 4096 in *. lia. }
    fold F1 in E. rewrite E. cbn [mbind outcome_bind]. clear E.
    set (k1 := moved _ _ (signal m (mem (r_base r))) _ _ _ k) in *.
    destruct (mixed_offsets a k k1) as [Ed Es]. rewrite Ed, Es.
    pose proof (room_le _ _ _ Hr) as Hdk.
    pose proof (moved_doff (DChCount c) (put acc a) (signal m (mem (r_base r))) frames_left
      (signal_end m n) step k Hstep Hdk) as Hd1. fold k1 in Hd1.
    rewrite (dcheck_true (doff k1 <=? frames_left)) by lia. cbn [mbind outcome_bind].
    pose proof (used_up_cases m n frames_left k1 ltac:(by destruct m)
      (moved_stop _ _ _ _ _ _ _ Hstep) ltac:(lia)) as Hu1.
    pose proof (moved_first m c Hm (put acc a) _ (samples rs) n (sum_list ns') frames_left step k
      Hsrc Hsrc2 Hn Hstep Hs) as EK. cbn zeta in EK. fold k1 K in EK.
    destruct (used_up m n frames_left k1); cbn [negb].
    + destruct Hu1 as [Hu1 Hr1]. specialize (Haft eq_refl).
      destruct (after_same m _ _ _ Haft) as (Hend & _ & Hroom).
      pose proof (signal_end_width m c n Hm) as Hw. fold F1 in Hw.
      pose proof (pos_filter_width_bounds m) as Hpw. assert (FRAC_ONE = 4096) as Eo by done.
      destruct (moved_soff (DChCount c) (put acc a) (signal m (mem (r_base r))) frames_left
        (signal_end m n) step k Hstep) as [Hs1 Hs2]. fold k1 in Hs1, Hs2.
      destruct (next_args c a acc (signal m (mem (r_base r))) frames_left
        (Z.of_nat (n + sum_list ns') * FRAC_ONE) (signal_end m n) step F1 k) as [Ha2 Hh2]; try done.
      { subst F1. change FRAC_ONE with 4096. lia. }
      { fold k1. lia. }
      { lia. }
      fold k1 in Ha2, Hh2.
      replace (Z.of_nat (n + sum_list ns') * FRAC_ONE - F1) with (Z.of_nat (sum_list ns') * FRAC_ONE) in Ha2
        by (subst F1; lia).
      rewrite swrap_u32 by lia. rewrite <- Ed, <- Es. fold (rebase F1 (mixed a k k1)).
      destruct (IH ns' m1 (rebase F1 (mixed a k k1))) as (b & m' & s' & -> & Hm' & Hc' & Hp' & Hb); try done.
      * unfold reaches, rebase. cbn [soff]. rewrite Es, Hp1. lia.
      * apply Hroom. unfold room, rebase in *. cbn [doff]. by rewrite Ed.
      * unfold rebase. cbn [soff]. rewrite Es. lia.
      * rewrite (moved_shift m c Hm (put acc a) _ (samples rs) n (sum_list ns') m1 frames_left step k1) in EK;
          try done; [|left; split_and!; [done|unfold reaches in *; lia|done]].
        fold F1 in EK. rewrite Hend in Hb |- *.
        destruct (mixed_rebased a k k1 F1 (DChCount c) (put acc a) (signal m1 (samples rs)) frames_left
          (signal_end m (sum_list ns')) step) as (E1 & E2 & E3). cbn zeta in E1, E2, E3.
        rewrite <- EK in E1, E2, E3. exists b, m', s'. rewrite E1, E2. split_and!; try done.
        { by rewrite Hp'. }
        rewrite (signal_end_add m c) by done. fold F1. destruct b; lia.
    + rewrite dcheck_true by lia. cbn [mbind outcome_bind].
      rewrite moved_none in EK by (done || left; lia).
      exists false, m1, (soff k1). rewrite EK. split_and!; try done. unfold mixed. by destruct (muted a).
Qed.

(** ** Where a packet meets a job *)

(** A job and a packet of [N] frames whose times stay clear of the limits of 64 bits;
    [p0] is the position, in the track's fractional frames, of the job's next frame. *)
Record meets (job : MixJob) (info : TrackBookkeeping) (packet : AudioPacketRef) (N : nat) (p0 : Z) : Prop := {
  meets_frames : 0 ≤ frames_produced job < buf_frames job ∧ buf_frames job < 2 ^ 31;
  meets_step : 0 < step_size info < 2 ^ 31;
  meets_pts : is_s64 (start_pts_of job + frames_produced job);
  meets_first : DoForwardTransform (out_frames_to_track_frames info)
                  (start_pts_of job + frames_produced job) = Ok (true, Some p0);
  meets_p0 : - 2 ^ 61 ≤ p0 ≤ 2 ^ 61;
  meets_start : - 2 ^ 61 ≤ start_pts packet ≤ 2 ^ 61;
  meets_length : end_pts packet = start_pts packet + Z.of_nat N * FRAC_ONE ∧ Z.of_nat N * FRAC_ONE < 2 ^ 31;
}.

(** The position of the job's frame [j], counted from the next one, relative to the
    packet; and the positions at which the packet can be sampled. *)
Definition position (info : TrackBookkeeping) (packet : AudioPacketRef) (p0 j : Z) : Z :=
  p0 + j * step_size info - start_pts packet.
Definition in_packet (m : mixer) (N : nat) (s : Z) : bool :=
  (- pos_filter_width m <=? s) && (s <? signal_end m N).

Lemma in_packet_true m N s : in_packet m N s = true ↔ - pos_filter_width m ≤ s < signal_end m N.
Proof. unfold in_packet. rewrite andb_true_iff, Z.leb_le, Z.ltb_lt. done. Qed.

Lemma transform_checked_run t x v : DoForwardTransform t x = Ok (true, Some v) → transform_checked t x = Ok v.
Proof. intros E. unfold transform_checked. rewrite E. cbn [mbind outcome_bind]. by rewrite dcheck_true. Qed.

Lemma ceil_div x y : 0 < y → 0 ≤ x → let q := Z.quot (x + y - 1) y in x ≤ q * y < x + y ∧ 0 ≤ q.
Proof.
  intros Hy Hx. cbn. rewrite Z.quot_div_nonneg by lia.
  pose proof (Z.div_mod (x + y - 1) y ltac:(lia)). pose proof (Z.mod_pos_bound (x + y - 1) y Hy).
  split; [nia|apply Z.div_pos; lia].
Qed.

Lemma sampling_window_run job info packet N p0 c :
  mixer_config (the_mixer info) = Some c → meets job info packet N p0 →
  let m := the_mixer info in
  let fl := buf_frames job - frames_produced job in
  ∃ w, sampling_window job info packet fl = Ok w ∧
    match w with
    | inl b => (∀ j, 0 ≤ j < fl → in_packet m N (position info packet p0 j) = false) ∧
               (b = true → N = 0%nat ∨ signal_end m N ≤ position info packet p0 0) ∧
               (b = false → ∀ j, 0 ≤ j < fl → position info packet p0 j < - pos_filter_width m)
    | inr (o, s) => (0 < N)%nat ∧ 0 ≤ o < fl ∧ s = position info packet p0 o ∧
                    - pos_filter_width m ≤ s < 2 ^ 31 ∧
                    ∀ j, 0 ≤ j < o → position info packet p0 j < - pos_filter_width m
    end.
Proof.
  intros Hc [[Hfp Hbf] Hst Hpts Hfirst Hp0 Hstart [Hend HN]] m fl.
  pose proof (signal_end_width m c N Hc) as Hw. pose proof (pos_filter_width_bounds m) as Hpw.
  assert (neg_filter_width m = 4095) as Hneg by (subst m; by destruct (the_mixer info)).
  assert (FRAC_ONE = 4096) as Eo by done.
  unfold sampling_window. fold m. rewrite Hneg, Eo in *. rewrite (s64_ok _ Hpts). cbn [mbind outcome_bind].
  rewrite (transform_checked_run _ _ _ Hfirst). cbn [mbind outcome_bind].
  rewrite (dcheck_true (negb (fl =? 0))) by lia. cbn [mbind outcome_bind].
  rewrite u32_small by lia.
  assert (0 ≤ (fl - 1) * step_size info < 2 ^ 62) as Hprod by nia.
  rewrite !s64_ok by (unfold is_s64, min_s64, max_s64; lia). cbn [mbind outcome_bind].
  rewrite (s64_ok (p0 + (fl - 1) * step_size info)) by (unfold is_s64, min_s64, max_s64; lia).
  cbn [mbind outcome_bind]. set (st := step_size info) in *. set (P := pos_filter_width m) in *.
  assert (∀ j, 0 ≤ j < fl → 0 ≤ j * st ≤ (fl - 1) * st) as Hj by (intros j Hj; nia).
  destruct (Z.eqb_spec (end_pts packet) (start_pts packet)) as [E|E].
  { eexists. split; [done|]. assert (N = 0%nat) as -> by lia. split; [|split; [by left|done]].
    intros j _. apply not_true_iff_false. rewrite in_packet_true. fold P. lia. }
  rewrite (dcheck_true (4096 <=? end_pts packet - start_pts packet)) by lia. cbn [mbind outcome_bind].
  destruct (Z.ltb_spec (end_pts packet - 4096) (p0 - 4095)) as [E2|E2].
  { eexists. split; [done|]. unfold position. fold st. split; [|split; [right; lia|done]].
    intros j Hj1. specialize (Hj j Hj1). apply not_true_iff_false. rewrite in_packet_true. fold P. lia. }
  rewrite (s64_ok (p0 + (fl - 1) * st + P)) by (unfold is_s64, min_s64, max_s64; lia).
  cbn [mbind outcome_bind].
  destruct (Z.ltb_spec (p0 + (fl - 1) * st + P) (start_pts packet)) as [E3|E3].
  { eexists. split; [done|]. unfold position. fold st.
    split; [|split; [done|intros _ j Hj1; specialize (Hj j Hj1); lia]].
    intros j Hj1. specialize (Hj j Hj1). apply not_true_iff_false. rewrite in_packet_true. fold P. lia. }
  set (gap := start_pts packet - (p0 + P)).
  assert (∃ o, (if p0 + P <? start_pts packet
     then g ← s64 gap; g ← s64 (g + st); g ← s64 (g - 1); adv ← s64 (Z.quot g st * st);
          i ← s64 (p0 - start_pts packet + adv); Ok (Z.quot g st, i)
     else Ok (0, p0 - start_pts packet)) = Ok (o, position info packet p0 o) ∧
     0 ≤ o < fl ∧ - P ≤ position info packet p0 o < 2 ^ 31 ∧
     ∀ j, 0 ≤ j < o → position info packet p0 j < - P) as (o & -> & Ho & Hs & Hbefore).
  { unfold position. fold st. destruct (Z.ltb_spec (p0 + P) (start_pts packet)) as [E4|E4].
    - destruct (ceil_div gap st ltac:(lia) ltac:(lia)) as [Hq Hq0]. cbn zeta in Hq, Hq0.
      set (q := Z.quot (gap + st - 1) st) in *.
      rewrite s64_ok by (unfold is_s64, min_s64, max_s64; lia). cbn [mbind outcome_bind].
      rewrite s64_ok by (unfold is_s64, min_s64, max_s64; lia). cbn [mbind outcome_bind].
      rewrite s64_ok by (unfold is_s64, min_s64, max_s64; lia). cbn [mbind outcome_bind]. fold q.
      rewrite s64_ok by (unfold is_s64, min_s64, max_s64; lia). cbn [mbind outcome_bind].
      rewrite s64_ok by (unfold is_s64, min_s64, max_s64; lia). cbn [mbind outcome_bind].
      exists q. split; [do 2 f_equal; lia|]. split_and!; [done|nia|lia|lia|]. intros j Hj1. nia.
    - exists 0. split; [do 2 f_equal; lia|]. split_and!; lia. }
  cbn [mbind outcome_bind]. rewrite !dcheck_true by lia. cbn [mbind outcome_bind].
  eexists. split; [done|]. rewrite u32_small, swrap32_small by lia. split_and!; try done; lia.
Qed.

(** ** The contribution of a packet *)

(** The intermediate buffer after a packet: the job's remaining frames whose position
    lies in the packet are mixed with the packet's signal there, others are kept. *)
Definition contribution (D : nat) (info : TrackBookkeeping) (job : MixJob) (packet : AudioPacketRef)
    (N : nat) (p0 : Z) (mix_buf : list Z) : list Z :=
  let m := the_mixer info in
  imap (λ i v,
    let f := Z.of_nat (i / D) in
    let s := position info packet p0 (f - frames_produced job) in
    if (frames_produced job <=? f) && (f <? buf_frames job) && in_packet m N s
       && negb (muted (amplitude_scale info))
    then put (accumulate job) (amplitude_scale info) v (signal m (samples (regions packet)) s (i mod D)%nat)
    else v) mix_buf.

Lemma lookup_contribution D info job packet N p0 mix_buf i :
  contribution D info job packet N p0 mix_buf !! i =
    (λ v, let f := Z.of_nat (i / D) in
          let s := position info packet p0 (f - frames_produced job) in
          if (frames_produced job <=? f) && (f <? buf_frames job) && in_packet (the_mixer info) N s
             && negb (muted (amplitude_scale info))
          then put (accumulate job) (amplitude_scale info) v
                 (signal (the_mixer info) (samples (regions packet)) s (i mod D)%nat)
          else v) <$> mix_buf !! i.
Proof. unfold contribution. by rewrite list_lookup_imap. Qed.

Lemma contribution_none D info job packet N p0 mix_buf :
  (∀ j, 0 ≤ j < buf_frames job - frames_produced job →
        in_packet (the_mixer info) N (position info packet p0 j) = false) ∨
  muted (amplitude_scale info) = true →
  contribution D info job packet N p0 mix_buf = mix_buf.
Proof.
  intros Hn. apply list_eq. intros i. rewrite lookup_contribution. destruct (mix_buf !! i); [|done].
  cbn. f_equal. destruct (Z.leb_spec (frames_produced job) (Z.of_nat (i / D))); [|done].
  destruct (Z.ltb_spec (Z.of_nat (i / D)) (buf_frames job)); [|done]. cbn [andb].
  destruct Hn as [Hn| ->]; [rewrite Hn by lia; done|]. by rewrite andb_false_r.
Qed.

(** The frames that the mixer renders are those whose position lies in the packet. *)
Lemma rendered_window fl e step o s P j :
  0 < step → 0 ≤ o < fl → - P ≤ s → (∀ j, 0 ≤ j < o → s + (j - o) * step < - P) →
  o ≤ j < o + avail fl e step o s ↔ 0 ≤ j < fl ∧ - P ≤ s + (j - o) * step < e.
Proof.
  intros Hs Ho HP Hb. destruct (avail_bounds fl e step o s Hs) as (Hn & Hd & _ & Hin & Hstop).
  set (n := avail fl e step o s) in *. split.
  - intros Hj. specialize (Hin (j - o) ltac:(lia)). nia.
  - intros [Hj Hp]. assert (o ≤ j). { apply Z.nlt_ge. intros Hlt. specialize (Hb j). lia. }
    split; [done|]. destruct Hstop as [?|?]; [lia|]. nia.
Qed.

Lemma frame_shift i f D :
  D ≠ 0%nat → (f * D ≤ i)%nat →
  ((i - f * D) / D = i / D - f ∧ (i - f * D) mod D = i mod D ∧ f ≤ i / D)%nat.
Proof.
  intros HD Hi. assert (i = (i - f * D) + f * D)%nat as E by lia. rewrite E at 2 4 5.
  rewrite Nat.div_add, Nat.Div0.mod_add by done. lia.
Qed.

Lemma contribution_render D info job packet N p0 mix_buf o :
  let m := the_mixer info in let fp := frames_produced job in
  let at_ := Z.to_nat (fp * Z.of_nat D) in let s := position info packet p0 o in
  let step := step_size info in
  let fl := buf_frames job - fp in
  let n := avail fl (signal_end m N) step o s in
  D ≠ 0%nat → 0 ≤ fp → 0 < step → 0 ≤ o < fl → - pos_filter_width m ≤ s →
  (∀ j, 0 ≤ j < o → position info packet p0 j < - pos_filter_width m) →
  muted (amplitude_scale info) = false →
  take at_ mix_buf ++
    render D (put (accumulate job) (amplitude_scale info)) (signal m (samples (regions packet))) o s step n
      (drop at_ mix_buf)
  = contribution D info job packet N p0 mix_buf.
Proof.
  intros m fp at_ s step fl n HD Hfp Hst Ho Hs Hb Hmu. apply list_eq. intros i.
  rewrite lookup_contribution. fold m fp. cbn zeta. rewrite Hmu. cbn [negb]. rewrite andb_true_r.
  assert (at_ = Z.to_nat fp * D)%nat as Eat by (subst at_; lia).
  destruct (decide (i < at_)%nat) as [Hi|Hi].
  - destruct (decide (i < length mix_buf)%nat) as [Hl|Hl].
    + rewrite lookup_app_l, lookup_take_lt by (rewrite ?length_take; lia).
      destruct (mix_buf !! i); [|done]. cbn.
      assert (i / D < Z.to_nat fp)%nat by (apply Nat.Div0.div_lt_upper_bound; lia).
      by rewrite (proj2 (Z.leb_gt _ _)) by lia.
    + rewrite (lookup_ge_None_2 mix_buf), lookup_ge_None_2; [done| |lia].
      rewrite length_app, length_take, length_render, length_drop. lia.
  - destruct (decide (at_ ≤ length mix_buf)%nat) as [Hl|Hl].
    2:{ rewrite (lookup_ge_None_2 mix_buf), lookup_ge_None_2; [done| |lia].
        rewrite length_app, length_take, length_render, length_drop. lia. }
    rewrite lookup_app_r by (rewrite length_take; lia). rewrite length_take, Nat.min_l by lia.
    rewrite lookup_render, lookup_drop. replace (at_ + (i - at_))%nat with i by lia.
    destruct (mix_buf !! i) as [v|]; [|done]. cbn. f_equal. rewrite Eat.
    destruct (frame_shift i (Z.to_nat fp) D HD ltac:(lia)) as (-> & -> & Hif).
    set (f := (i / D)%nat) in *. rewrite Nat2Z.inj_sub, Z2Nat.id by lia.
    pose proof (rendered_window fl (signal_end m N) step o s (pos_filter_width m) (Z.of_nat f - fp)
      Hst Ho Hs) as Hw. fold n in Hw.
    assert (∀ j, s + (j - o) * step = position info packet p0 j) as Hpos
      by (intros j; subst s step; unfold position; lia).
    rewrite !Hpos in Hw |- *. specialize (Hw ltac:(intros j Hj; rewrite Hpos; by apply Hb)).
    case_decide as E.
    + apply Hw in E as [E1 E2]. rewrite (proj2 (Z.leb_le _ _)), (proj2 (Z.ltb_lt _ _)) by lia.
      by rewrite (proj2 (in_packet_true _ _ _)).
    + destruct (Z.leb_spec fp (Z.of_nat f)); [|done]. destruct (Z.ltb_spec (Z.of_nat f) (buf_frames job)); [|done].
      cbn [andb]. destruct (in_packet m N _) eqn:E3; [|done]. apply in_packet_true in E3.
      exfalso. apply E, Hw. lia.
Qed.

(** A track's mixer and a packet whose regions hold samples of the mixer's format. *)
Record playable (c : config) (info : TrackBookkeeping) (packet : AudioPacketRef) (ns : list nat) : Prop := {
  playable_config : mixer_config (the_mixer info) = Some c ∧ config_ok c;
  playable_mixer : mixer_ok (the_mixer info);
  playable_gain : is_u 32 (amplitude_scale info);
  playable_regions : Forall2 (holds c) (regions packet) ns;
  playable_step : Z.of_nat (sum_list ns) * FRAC_ONE + step_size info ≤ 2 ^ 31;
}.

(** The intermediate buffer has the job's frames, and room for the sums. *)
Definition buffer_ok (c : config) (job : MixJob) (mix_buf : list Z) : Prop :=
  buf_frames job * Z.of_nat (DChCount c) ≤ Z.of_nat (length mix_buf) ∧
  buf_frames job * Z.of_nat (DChCount c) < 2 ^ 32 ∧
  headroom (DChCount c) (accumulate job) (frames_produced job) mix_buf.

Lemma headroom_drop D acc fp o mb :
  0 ≤ fp → 0 ≤ o → headroom D acc fp mb → headroom D acc o (drop (Z.to_nat (fp * Z.of_nat D)) mb).
Proof.
  intros Hf Ho Hh Ha i v Hi. rewrite lookup_drop. apply (Hh Ha). nia.
Qed.

(** C25. Mixing a packet into a job: [ProcessMix] returns without a fault and adds the
    packet's contribution to the intermediate buffer.  If it reports the packet as used
    up, the positions of the frames that remain lie behind the packet (or the packet is
    empty); if it holds on to the packet, none of the job's frames lies behind it. *)
Theorem ProcessMix_spec c info packet job mix_buf ns p0 :
  playable c info packet ns → meets job info packet (sum_list ns) p0 → buffer_ok c job mix_buf →
  let D := DChCount c in let N := sum_list ns in let m := the_mixer info in
  let fp := frames_produced job in
  ∃ b m' fp',
    ProcessMix mem (Z.of_nat D) info packet job mix_buf
    = Ok (b, set_mixer m' info, set_frames_produced fp' job, contribution D info job packet N p0 mix_buf) ∧
    mixer_ok m' ∧ mixer_config m' = Some c ∧ fp ≤ fp' ≤ buf_frames job ∧
    if b then N = 0%nat ∨ signal_end m N ≤ position info packet p0 (fp' - fp)
    else fp' = fp ∧ ∀ j, 0 ≤ j < buf_frames job - fp → position info packet p0 j < signal_end m N.
Proof.
  intros [[Hc Hcok] Hm Hg Hr Hstep] Hmeet (Hlen & Hmax & Hh) D N m fp.
  pose proof Hmeet as [[Hfp Hbf] Hst _ _ _ _ _]. pose proof (config_D c Hcok) as HD. fold D in HD.
  destruct (sampling_window_run job info packet N p0 c Hc Hmeet) as (w & Ew & Hw). fold m fp in Ew, Hw.
  unfold ProcessMix. fold fp. rewrite (dcheck_true (negb _)), (dcheck_true (_ <=? _)) by lia.
  cbn [mbind outcome_bind]. rewrite (proj2 (Z.eqb_neq _ _)), (proj2 (Z.leb_gt _ _)) by lia.
  rewrite (u32_small (buf_frames job - fp)), (u32_small (fp * Z.of_nat D)) by (fold D in Hmax; nia).
  rewrite Ew. cbn [mbind outcome_bind].
  pose proof (signal_end_width m c N Hc) as Hwid. pose proof (pos_filter_width_bounds m) as Hpw.
  destruct w as [b|[o s]].
  - destruct Hw as (Hn & Hb & Hb'). rewrite contribution_none by (by left).
    exists b, m, fp. split; [by destruct info, job|]. split_and!; try done; [lia|].
    destruct b; [rewrite Z.sub_diag; by apply Hb|]. split; [done|].
    intros j Hj. specialize (Hb' eq_refl j Hj). change FRAC_ONE with 4096 in *. lia.
  - destruct Hw as (HN & Ho & -> & Hs & Hbefore). assert (FRAC_ONE = 4096) as Eo by done.
    set (s := position info packet p0 o) in *. set (k := mk_cursor (drop (Z.to_nat (fp * Z.of_nat D)) mix_buf) o s).
    destruct (mix_regions_run c (amplitude_scale info) (accumulate job) (buf_frames job - fp)
      (step_size info) Hg (regions packet) ns m k) as (b & m' & s' & E & Hm' & Hc' & Hp' & Hb); try done.
    + unfold reaches. cbn. lia.
    + unfold room. cbn. destruct m; lia.
    + split_and!; cbn [k buf doff soff]; try lia.
      * unfold is_u. lia.
      * rewrite length_drop, Z.mul_sub_distr_r. fold D in Hlen |- *. assert (0 ≤ fp * Z.of_nat D) by nia. lia.
    + apply headroom_drop; [lia|cbn; lia|done].
    + cbn. change FRAC_ONE with 4096 in *. lia.
    + fold m. rewrite E. cbn [mbind outcome_bind]. clear E.
      set (K := moved _ _ _ _ _ _ k) in *. fold N in Hb, K |- *. fold D m in K |- *.
      pose proof (moved_doff D (put (accumulate job) (amplitude_scale info)) (signal m (samples (regions packet)))
        (buf_frames job - fp) (signal_end m N) (step_size info) k ltac:(lia) ltac:(cbn; lia)) as Hd.
      fold K in Hd. cbn [k doff] in Hd. cbn [buf doff].
      assert (take (Z.to_nat (fp * Z.of_nat D)) mix_buf ++ buf (mixed (amplitude_scale info) k K)
        = contribution D info job packet N p0 mix_buf) as ->.
      { unfold mixed. destruct (muted (amplitude_scale info)) eqn:Emu.
        - rewrite contribution_none by (by right). apply take_drop.
        - subst K. unfold moved. cbn [k buf doff soff]. apply contribution_render; try done; fold m s; lia. }
      destruct b; cbn [negb].
      * rewrite u32_small by lia. rewrite dcheck_true by lia. cbn [mbind outcome_bind].
        exists true, m', (fp + doff K). split_and!; try done; [lia|lia|]. right.
        replace (position info packet p0 (fp + doff K - fp)) with (soff K); [done|].
        unfold K, moved, position in *. cbn [doff soff k]. lia.
      * exists false, m', fp. split; [by destruct job|]. split_and!; try done; [lia|].
        intros j Hj. destruct (rendered_window (buf_frames job - fp) (signal_end m N) (step_size info) o s
          (pos_filter_width m) j) as [Hrw _]; try lia.
        { intros i Hi. specialize (Hbefore i Hi). subst s. unfold position in *. lia. }
        destruct (Z.lt_ge_cases j o) as [Hlt|Hge]; [specialize (Hbefore j ltac:(lia)); lia|].
        cbn [K k moved doff soff] in Hb. specialize (Hrw ltac:(lia)). subst s. unfold position in *. lia.
Qed.

(** ** Transforms *)

(** The transforms of a job and a track can be composed: nothing overflows. *)
Record composable (lo lt : transform) : Prop := {
  comp_lo : transform_ok lo ∧ ratio_wf (scale lo) ∧ numerator (scale lo) ≠ 0;
  comp_lt : transform_ok lt ∧ ratio_wf (scale lt) ∧ numerator (scale lt) ≠ 0;
  comp_offset : Z.abs (a_zero lo - a_zero lt) ≤ max_s64;
  comp_position : is_s64 (exact_forward lt (a_zero lo)) ∧
                  min_s64 < exact_forward lt (a_zero lo) - b_zero lt ≤ max_s64;
  comp_ratio :
    let n := denominator (scale lo) * numerator (scale lt) in
    let d := numerator (scale lo) * denominator (scale lt) in
    n / Z.gcd n d < 2 ^ 31 ∧ d / Z.gcd n d < 2 ^ 32;
}.

Lemma scale_only r x :
  is_u 32 (numerator r) → is_u 32 (denominator r) → denominator r ≠ 0 → is_s64 x → x ≠ min_s64 →
  min_s64 < x * numerator r / denominator r ≤ max_s64 →
  transform_checked (transform_new_ratio 0 r 0) x = Ok (x * numerator r / denominator r).
Proof.
  intros Hn Hd Hd0 Hx Hx0 Hr. apply transform_checked_run. unfold DoForwardTransform.
  cbn [scale transform_new_ratio a_zero b_zero]. rewrite (proj2 (Z.eqb_neq _ _)) by done.
  assert (exact_value x 0 (numerator r) (denominator r) 0 = x * numerator r / denominator r) as E.
  { unfold exact_value. rewrite Z.sub_0_r. lia. }
  erewrite linear_transform_complete; try done; rewrite ?E; try done;
    unfold is_s64, min_s64, max_s64 in *; lia.
Qed.

(** Composing transforms for a new job: the output's frame at which the job's
    transform is anchored is sent to the track's position at the same local time, the
    ratio is exactly the track's rate over the output's, in lowest terms, and the step
    is its integer part; the generation of the job is recorded. *)
Lemma UpdateOutputTrans_spec job info lo :
  let lt := lt_to_track_frames info in
  local_to_output job = Some lo → local_to_output_gen job ≠ 0 → lt_to_track_frames_gen info ≠ 0 →
  out_frames_to_track_frames_gen info ≠ local_to_output_gen job → composable lo lt →
  ∃ r, ratio_wf r ∧
    numerator r * (numerator (scale lo) * denominator (scale lt))
      = denominator (scale lo) * numerator (scale lt) * denominator r ∧
    UpdateOutputTrans job info =
      Ok (mk_info lt (mk_transform r (b_zero lo) (exact_forward lt (a_zero lo)))
            (lt_to_track_frames_gen info) (local_to_output_gen job) (numerator r / denominator r)
            (amplitude_scale info) (the_mixer info)).
Proof.
  intros lt Hlo Hg Hg' Hne [(Hok & Hwf & Hn0) (Hok' & Hwf' & Hn0') Hoff [Hpos Hpos'] [Hf1 Hf2]].
  pose proof Hwf as (Hu1 & Hu2 & Hd0 & Hgcd). pose proof Hwf' as (Hu1' & Hu2' & Hd0' & Hgcd').
  destruct (ratio_compose_exact (mk_ratio (denominator (scale lo)) (numerator (scale lo))) (scale lt))
    as (r & Er & (Hr1 & Hr2 & Hr0 & Hrg) & Heq); try done.
  { split_and!; try done. by rewrite Z.gcd_comm. }
  cbn [numerator denominator] in Heq. exists r. split; [done|]. split; [done|].
  unfold UpdateOutputTrans. rewrite Hlo. fold lt.
  rewrite (dcheck_true (bool_decide _)), (dcheck_true (negb (local_to_output_gen job =? _)))
    by (first [by apply bool_decide_eq_true_2 | by apply negb_true_iff, Z.eqb_neq]).
  cbn [mbind outcome_bind]. rewrite (proj2 (Z.eqb_neq _ _) Hne).
  rewrite (dcheck_true (negb _)) by (by apply negb_true_iff, Z.eqb_neq). cbn [mbind outcome_bind].
  unfold exact_forward, exact_value in Hpos, Hpos'.
  set (v := (a_zero lo - a_zero lt) * numerator (scale lt) / denominator (scale lt)) in *.
  rewrite s64_ok by (unfold is_s64, min_s64, max_s64 in *; lia). cbn [mbind outcome_bind].
  rewrite scale_only by (try done; fold v; unfold is_s64, min_s64, max_s64 in *; lia). fold v.
  cbn [mbind outcome_bind]. rewrite s64_ok by (by rewrite Z.add_comm). cbn [mbind outcome_bind].
  rewrite ratio_new_coprime by (done || by rewrite Z.gcd_comm). cbn [mbind outcome_bind]. rewrite Er.
  cbn [mbind outcome_bind]. rewrite !dcheck_true by (first [done | by apply negb_true_iff, Z.eqb_neq]).
  cbn [mbind outcome_bind]. rewrite (Z.add_comm (b_zero lt) v).
  change (v + b_zero lt) with (exact_forward lt (a_zero lo)).
  unfold is_u in Hr1, Hr2. destruct (Z.eqb_spec (numerator r) 0) as [E0|E0].
  { cbn [mbind outcome_bind]. by rewrite E0, Z.div_0_l. }
  assert (0 ≤ 1 * numerator r / denominator r < 2 ^ 32) as Hq.
  { rewrite Z.mul_1_l. split; [apply Z.div_pos; lia|]. apply Z.div_lt_upper_bound; nia. }
  rewrite scale_only by (done || unfold is_s64, min_s64, max_s64; lia). cbn [mbind outcome_bind].
  rewrite Z.mul_1_l in *. rewrite !dcheck_true by (unfold max_u32; lia). cbn [mbind outcome_bind].
  by rewrite u32_small.
Qed.

(** ** Trimming *)

(** A queue without the packets at its front that have ended. *)
Fixpoint trimmed (t : Z) (q : list AudioPacketRef) : list AudioPacketRef :=
  match q with
  | [] => []
  | p :: q' => if end_pts p <=? t then trimmed t q' else q
  end.

(** What trimming does to a link: its queue is trimmed, flushes are noted. *)
Definition trims (t : Z) (l l' : link) : Prop :=
  pending_queue_ l' = trimmed t (pending_queue_ l) ∧ GetTrack l' = GetTrack l ∧ gain_ l' = gain_ l ∧
  flushed_ l' = false.

(** The loop ends: each further turn has taken a packet from the queue. *)
Lemma track_loop_trim now t : ∀ fuel (ready : bool) s l,
  (length (pending_queue_ l) < fuel)%nat →
  (if ready then trim_threshold_ s = Some t
   else DoForwardTransform (lt_to_track_frames (output_bookkeeping l)) now = Ok (true, Some t)) →
  ∃ s' l', track_loop mem fuel (TrimTask now) ready s l = Ok (s', l') ∧ trims t l l'.
Proof.
  induction fuel as [|fuel IH]; intros ready s l Hl Hr; [lia|]. cbn [track_loop LockPendingQueueFront].
  set (l1 := mk_link (GetTrack l) (output_bookkeeping l) (pending_queue_ l) false (gain_ l)).
  set (l2 := if flushed_ l then _ else l1).
  assert (pending_queue_ l2 = pending_queue_ l ∧ GetTrack l2 = GetTrack l ∧ gain_ l2 = gain_ l ∧
    flushed_ l2 = false ∧ lt_to_track_frames (output_bookkeeping l2) = lt_to_track_frames (output_bookkeeping l))
    as (Hq & Ht & Hg & Hf & Hlt) by (unfold l2; by destruct (flushed_ l)).
  destruct (pending_queue_ l) as [|p q] eqn:Eq; cbn [head].
  { exists s, l2. split; [done|]. split_and!; try done. by rewrite Hq, Eq. }
  assert (∃ info s1, (if ready then Ok (true, output_bookkeeping l2, s)
    else setup (TrimTask now) s (output_bookkeeping l2)) = Ok (true, info, s1) ∧ trim_threshold_ s1 = Some t)
    as (info & s1 & -> & Hs1).
  { destruct ready; [by eexists _, _|]. cbn [setup]. unfold SetupTrim. rewrite Hlt, Hr. by eexists _, _. }
  cbn [mbind outcome_bind negb process]. rewrite Hs1. cbn [mbind outcome_bind]. unfold ProcessTrim.
  rewrite <- Z.leb_antisym. destruct (end_pts p <=? t) eqn:Ep; cbn [negb].
  - set (l3 := UnlockPendingQueueFront (Some p) true _).
    assert (pending_queue_ l3 = q ∧ GetTrack l3 = GetTrack l ∧ gain_ l3 = gain_ l ∧ flushed_ l3 = false)
      as (Hq3 & Ht3 & Hg3 & Hf3) by (unfold l3; cbn; by rewrite Hq).
    destruct (IH true s1 l3) as (s' & l' & -> & (H1 & H2 & H3 & H4)); [rewrite Hq3; cbn in Hl; lia|done|].
    exists s', l'. split; [done|]. split_and!; try done; [|by rewrite H2|by rewrite H3].
    rewrite H1, Hq3, Eq. cbn. by rewrite Ep.
  - eexists _, _. split; [done|]. split_and!; try done. cbn. rewrite Hq, Eq. cbn. by rewrite Ep.
Qed.

(** A link whose track's transform can be applied to the time of trimming. *)
Definition trimmable (now : Z) (l : link) (t : Z) : Prop :=
  ∃ tr info, GetTrack l = Some tr ∧ UpdateTrackTrans tr (output_bookkeeping l) = Ok info ∧
    DoForwardTransform (lt_to_track_frames info) now = Ok (true, Some t).

Lemma ForeachTrack_trim now : ∀ links ts s,
  Forall2 (trimmable now) (filter (λ l, is_Some (GetTrack l)) links) ts →
  ∃ s' links', ForeachTrack mem (TrimTask now) None s links = Ok (s', links') ∧
    Forall3 (λ l t l', trims t l l') (filter (λ l, is_Some (GetTrack l)) links) ts links'.
Proof.
  induction links as [|l links IH]; intros ts s Hl; cbn [ForeachTrack].
  { apply Forall2_nil_inv_l in Hl as ->. exists s, []. split; [done|constructor]. }
  rewrite decide_False by done. cbn [fmap option_fmap option_map]. rewrite filter_cons in Hl |- *.
  destruct (GetTrack l) as [tr|] eqn:Et.
  2:{ rewrite decide_False in Hl |- * by (intros []; done). by apply IH. }
  rewrite decide_True in Hl |- * by done.
  apply Forall2_cons_inv_l in Hl as (t & ts' & (tr' & info & Et' & Ei & Eo) & Hl & ->).
  rewrite Et in Et'. injection Et' as <-. rewrite Ei. cbn [mbind outcome_bind].
  destruct (track_loop_trim now t (S (length (pending_queue_ l))) false s (set_info info l))
    as (s1 & l1 & -> & (H1 & H2)); [cbn; lia|done|]. cbn [mbind outcome_bind].
  destruct (IH ts' (mk_pass (set_accumulate (p_job s1)) (p_buf s1) (trim_threshold_ s1)) Hl)
    as (s' & links' & -> & Hls). cbn [mbind outcome_bind].
  eexists _, _. split; [done|]. constructor; [|done]. by split.
Qed.

(** Back-pressure: the throttle output, whenever it is woken, asks to
    be called again within ten milliseconds, and drops from the front of each track's
    queue exactly the packets whose end lies at or before the present, releasing links
    whose track is gone. *)
Lemma Throttle_Process_spec fuel now trim_now last o ts :
  (0 < fuel)%nat → next_sched_time_known_ o = true →
  - 2 ^ 62 ≤ now ≤ 2 ^ 62 →
  Forall2 (trimmable trim_now) (filter (λ l, is_Some (GetTrack l)) (links_ o)) ts →
  ∃ when last' o', @Process BD mem Z Throttle fuel now trim_now None last o = Ok (Some when, last', o') ∧
    when ≤ now + MAX_TRIM_PERIOD ∧
    Forall3 (λ l t l', trims t l l') (filter (λ l, is_Some (GetTrack l)) (links_ o)) ts (links_ o') ∧
    mix_buf_ o' = mix_buf_ o ∧ dest o' = dest o.
Proof.
  intros Hf Hk Hnow Hl. destruct fuel as [|fuel]; [lia|]. unfold Process.
  rewrite dcheck_true by done. cbn [mbind outcome_bind].
  match goal with |- context [mbind _ ?c] => assert (∃ last' t,
    c = Ok (false, last', mk_output (output_formatter_ o) (mix_buf_ o) (mix_buf_frames_ o) (links_ o) t true (dest o)))
    as (last' & t & ->) end.
  { destruct (_ <=? now); [by eexists _, _|]. exists last, (next_sched_time_ o). destruct o; cbn in *. by subst. }
  cbn [mbind outcome_bind next_sched_time_known_ negb links_].
  destruct (ForeachTrack_trim trim_now (links_ o) ts (mk_pass (mk_job 0 0 0 false None 0) [] None) Hl)
    as (s' & links' & -> & Hls). cbn [mbind outcome_bind].
  rewrite s64_ok by (unfold is_s64, min_s64, max_s64, MAX_TRIM_PERIOD; lia). cbn [mbind outcome_bind].
  eexists _, _, _. split; [done|]. split_and!; try done. cbn. destruct (Z.ltb_spec (now + MAX_TRIM_PERIOD) t); lia.
Qed.

End WithBuild.

(** ** Witnesses *)

Definition a_state : MediaPacketState :=
  mk_packet_state (mk_packet 0 (Some (mk_region 0 6)) None) (mk_mapped 64 1000) 0 CONSUMED.
Definition a_packet : AudioPacketRef := mk_audio_packet a_state [mk_audio_region 1000 12288] 4096 16384.
Definition a_info : TrackBookkeeping :=
  mk_info transform_default (mk_transform (mk_ratio 4096 1) 0 0) 1 1 4096 UNITY (PointSampler mono).
Definition a_job : MixJob := mk_job 6 0 1 false (Some transform_default) 0.
Definition a_memory (_ : Z) : list Z := tone.

Lemma a_playable : playable a_memory mono a_info a_packet [3%nat].
Proof.
  split; cbn.
  - split; [done|apply mono_source].
  - apply mono_source.
  - by vm_compute.
  - constructor; [|constructor]. split_and!; [lia|done|apply mono_source].
  - by vm_compute.
Defined.

Lemma a_meets : @meets debug_build a_job a_info a_packet 3 0.
Proof. split; by vm_compute. Defined.

Lemma ProcessMix_spec_witness :
  ∃ b m' fp',
    @ProcessMix debug_build a_memory 1 a_info a_packet a_job [0; 0; 0; 0; 0; 0]
    = Ok (b, set_mixer m' a_info, set_frames_produced fp' a_job, [0; 100; 200; 300; 0; 0]) ∧
    mixer_ok m' ∧ 0 ≤ fp' ≤ 6.
Proof.
  destruct (@ProcessMix_spec debug_build a_memory mono a_info a_packet a_job [0; 0; 0; 0; 0; 0] [3%nat] 0
    a_playable a_meets) as (b & m' & fp' & E & Hm & _ & Hfp & _).
  - split_and!; cbn; [lia|lia|done].
  - exists b, m', fp'. split; [|split; [exact Hm|exact Hfp]].
    etransitivity; [exact E|]. vm_compute. reflexivity.
Defined.

Lemma UpdateOutputTrans_spec_witness :
  let lt := mk_transform (mk_ratio 4096 3) 10 100 in let lo := mk_transform (mk_ratio 2 3) 16 7 in
  ∃ r, ratio_wf r ∧ numerator r * (2 * 3) = 3 * 4096 * denominator r ∧
    @UpdateOutputTrans debug_build (mk_job 6 0 5 false (Some lo) 0)
      (mk_info lt transform_default 1 0 0 UNITY NoOp)
    = Ok (mk_info lt (mk_transform r 7 8292) 1 5 (numerator r / denominator r) UNITY NoOp).
Proof.
  exact (@UpdateOutputTrans_spec debug_build
    (mk_job 6 0 5 false (Some (mk_transform (mk_ratio 2 3) 16 7)) 0)
    (mk_info (mk_transform (mk_ratio 4096 3) 10 100) transform_default 1 0 0 UNITY NoOp)
    (mk_transform (mk_ratio 2 3) 16 7) eq_refl ltac:(done) ltac:(done) ltac:(done)
    ltac:(split; split_and?; by vm_compute)).
Defined.

Definition a_link : link :=
  mk_link (Some (mk_track transform_default 1 (mk_ratio 4096 1) (mk_audio_details SIGNED_16 1 48000)))
    (mk_info transform_default transform_default 0 0 0 UNITY (PointSampler mono))
    [a_packet; mk_audio_packet a_state [] 16384 20480] false UNITY.

Lemma Throttle_Process_spec_witness :
  ∃ when last' o', @Process debug_build a_memory Z (@Throttle debug_build) 1 50 4 None 0
      (mk_output None None 0 [a_link] 20 true []) = Ok (Some when, last', o') ∧
    when ≤ 50 + MAX_TRIM_PERIOD ∧
    Forall3 (λ l t l', trims t l l') [a_link] [16384] (links_ o') ∧ mix_buf_ o' = None ∧ dest o' = [].
Proof.
  apply (@Throttle_Process_spec debug_build a_memory 1 50 4 0 (mk_output None None 0 [a_link] 20 true []) [16384]);
    [lia|done|lia|].
  constructor; [|constructor]. eexists _, _. split; [done|]. split; [vm_compute; reflexivity|]. by vm_compute.
Defined.

End StandardOutputSpec.
