(* ===== verification/AudioReturn.v ===== *)
(** The order in which packets are returned: the part of the proof about the audio server
    that does not depend on its operations.

    Links of a track hold what is left of the packets received for it.  A packet that nothing
    holds any more is done with, and packets are done with in the order of their arrival. *)

From stdpp Require Import gmap.
From S2P Require Import Prelude.
Local Open Scope nat_scope.

Module AudioReturn.

(** The packets of a track, among those received. *)
Definition of_track (t : nat) (R : list (nat * nat)) : list nat := (filter (λ x, x.1 = t) R).*2.

(** What refers to a packet: the links [l], with the packets [H l] each, and the main thread,
    with the packets [D]. *)
Definition refd (H : nat → list nat) (D : list nat) (p : nat) : Prop := (∃ l, p ∈ H l) ∨ p ∈ D.

(** [T] gives the track of a link, [R] the packets received and [done] those done with. *)
Record ordered (H : nat → list nat) (T : nat → nat) (D : list nat) (R : list (nat * nat)) (done : list nat) : Prop := {
  ord_fresh : NoDup R.*2;
  ord_suffix l : H l `suffix_of` of_track (T l) R;
  ord_main p : p ∈ D → ∃ t, last (of_track t R) = Some p;
  ord_once : NoDup done;
  ord_received p : p ∈ done → p ∈ R.*2;
  ord_done t : ∃ k : nat, filter (λ p, (t, p) ∈ R) done = take k (of_track t R) ∧
    ∀ i p, of_track t R !! i = Some p → k ≤ i ↔ refd H D p;
}.

Definition upd (H : nat → list nat) (l : nat) (q : list nat) : nat → list nat := λ l', if decide (l' = l) then q else H l'.

Lemma elem_of_track t (R : list (nat * nat)) p : p ∈ of_track t R ↔ (t, p) ∈ R.
Proof.
  unfold of_track. rewrite list_elem_of_fmap. split.
  - intros ([t' p'] & -> & [Ht Hin]%list_elem_of_filter). cbn in *. by subst.
  - intros Hin. exists (t, p). split; [done|]. by apply list_elem_of_filter.
Qed.
Lemma track_unique (R : list (nat * nat)) t t' p : NoDup R.*2 → (t, p) ∈ R → (t', p) ∈ R → t = t'.
Proof.
  induction R as [|[s q] R IH]; cbn; [set_solver|]. intros [Hq Hnd]%NoDup_cons [E|H]%elem_of_cons [E'|H']%elem_of_cons.
  - congruence.
  - simplify_eq. destruct Hq. apply list_elem_of_fmap. by exists (t', q).
  - simplify_eq. destruct Hq. apply list_elem_of_fmap. by exists (t, q).
  - by apply IH.
Qed.
Lemma NoDup_of_track t (R : list (nat * nat)) : NoDup R.*2 → NoDup (of_track t R).
Proof.
  unfold of_track. induction R as [|[s q] R IH]; [by constructor|]. rewrite fmap_cons. intros [Hq Hnd]%NoDup_cons.
  rewrite filter_cons. destruct (decide _); cbn; [|by apply IH]. constructor; [|by apply IH].
  intros ([t' p'] & E & [_ Hin]%list_elem_of_filter)%list_elem_of_fmap. cbn in E. subst p'.
  destruct Hq. apply list_elem_of_fmap. by exists (t', q).
Qed.

(** A suffix that has a later part of the list has what follows. *)
Lemma suffix_reaches (q R : list nat) i j x p :
  NoDup R → q `suffix_of` R → R !! i = Some x → x ∈ q → R !! j = Some p → i ≤ j → p ∈ q.
Proof.
  intros Hnd [pre ->] Hi [n Hn]%list_elem_of_lookup Hj Hij.
  assert ((pre ++ q) !! (length pre + n)%nat = Some x) as Hx.
  { rewrite lookup_app_r by lia. by replace (length pre + n - length pre)%nat with n by lia. }
  pose proof (NoDup_lookup _ _ _ _ Hnd Hi Hx) as ->.
  rewrite lookup_app_r in Hj by lia. by eapply list_elem_of_lookup_2.
Qed.

Lemma filter_ext_in {A} (P Q : A → Prop) `{∀ x, Decision (P x), ∀ x, Decision (Q x)} (l : list A) :
  (∀ x, x ∈ l → P x ↔ Q x) → filter P l = filter Q l.
Proof.
  induction l as [|x l IH]; [done|]. intros Hl. rewrite !filter_cons, IH by (intros; apply Hl; by right).
  destruct (decide (P x)) as [HP|HP], (decide (Q x)) as [HQ|HQ]; try done; exfalso; rewrite Hl in HP; try done; by left.
Qed.

Section Ordered.
Context {H : nat → list nat} {T : nat → nat} {D : list nat} {R : list (nat * nat)} {done : list nat}.
Hypothesis Hord : ordered H T D R done.

Lemma holder_track l p : p ∈ H l → (T l, p) ∈ R.
Proof. intros Hp. apply elem_of_track. eapply elem_of_suffix; [done|]. apply Hord. Qed.

(** The first packet of a track that is referred to is followed by packets that are. *)
Lemma first_referenced t i j x p :
  of_track t R !! i = Some x → refd H D x → of_track t R !! j = Some p → i < j →
  ∃ l, T l = t ∧ x ∈ H l ∧ p ∈ H l.
Proof.
  intros Hi Hx Hj Hij. pose proof (NoDup_of_track t R (ord_fresh _ _ _ _ _ Hord)) as Hnd. destruct Hx as [[l Hl]|Hd].
  - assert (T l = t) as <-.
    { eapply track_unique; [apply Hord|by apply holder_track|]. apply elem_of_track. by eapply list_elem_of_lookup_2. }
    exists l. split_and!; [done..|]. eapply suffix_reaches; [exact Hnd|apply Hord|exact Hi|done|exact Hj|lia].
  - exfalso. destruct (ord_main _ _ _ _ _ Hord x Hd) as [t' Hlast]. rewrite last_lookup in Hlast.
    assert (t' = t) as ->.
    { eapply track_unique; [apply Hord| |]; apply elem_of_track; by eapply list_elem_of_lookup_2. }
    pose proof (NoDup_lookup _ _ _ _ Hnd Hi Hlast). apply lookup_lt_Some in Hj. lia.
Qed.

(** A packet that is referred to no more, and that every referred to packet before it would
    keep, is the next to be done with. *)
Lemma done_next H' D' t i p :
  of_track t R !! i = Some p → refd H D p → ¬ refd H' D' p →
  (∀ x, x ≠ p → refd H D x ↔ refd H' D' x) →
  (∀ j x, j < i → of_track t R !! j = Some x → ¬ refd H D x) →
  NoDup (done ++ [p]) ∧ (∀ x, x ∈ done ++ [p] → x ∈ R.*2) ∧
  ∀ t', ∃ k, filter (λ x, (t', x) ∈ R) (done ++ [p]) = take k (of_track t' R) ∧
    ∀ j x, of_track t' R !! j = Some x → k ≤ j ↔ refd H' D' x.
Proof.
  intros Hi Hr Hn Hother Hbefore. pose proof (NoDup_of_track t R (ord_fresh _ _ _ _ _ Hord)) as Hnd.
  assert ((t, p) ∈ R) as HpR by (apply elem_of_track; by eapply list_elem_of_lookup_2).
  destruct (ord_done _ _ _ _ _ Hord t) as (k & Ek & Hk).
  assert (k = i) as ->.
  { pose proof (proj2 (Hk i p Hi) Hr). destruct (decide (k = i)) as [|Hne]; [done|exfalso].
    pose proof (lookup_lt_Some _ _ _ Hi). destruct (lookup_lt_is_Some_2 (of_track t R) k ltac:(lia)) as [x Hx].
    eapply (Hbefore k x); [lia|done|]. by apply (Hk k x Hx). }
  assert (p ∉ done) as Hnot.
  { intros Hin. assert (p ∈ take i (of_track t R)) as [j Hj]%list_elem_of_lookup by (rewrite <-Ek; by apply list_elem_of_filter).
    apply lookup_take_Some in Hj as [Hj Hlt]. pose proof (NoDup_lookup _ _ _ _ Hnd Hi Hj). lia. }
  split_and!.
  - apply NoDup_app. split_and!; [apply Hord| |by apply NoDup_singleton]. intros x Hx ->%list_elem_of_singleton. done.
  - intros x [Hx| ->%list_elem_of_singleton]%elem_of_app; [by apply Hord|]. apply list_elem_of_fmap. by exists (t, p).
  - intros t'. destruct (decide (t' = t)) as [->|Hne].
    + exists (S i). split.
      * rewrite filter_app, Ek, filter_cons_True, filter_nil by done. by rewrite (take_S_r _ _ p).
      * intros j x Hj. destruct (decide (x = p)) as [->|Hx].
        { pose proof (NoDup_lookup _ _ _ _ Hnd Hi Hj). split; [lia|done]. }
        rewrite <-Hother, <-(Hk j x Hj) by done. assert (j ≠ i) by congruence. lia.
    + destruct (ord_done _ _ _ _ _ Hord t') as (k' & Ek' & Hk'). exists k'. split.
      * rewrite filter_app, Ek', filter_cons_False, filter_nil, app_nil_r; [done|].
        intros Hin. apply Hne. eapply track_unique; [apply Hord|exact Hin|exact HpR].
      * intros j x Hj. rewrite (Hk' j x Hj). apply Hother. intros ->. apply Hne.
        eapply track_unique; [apply Hord| |exact HpR]. apply elem_of_track. by eapply list_elem_of_lookup_2.
Qed.

(** A link lets go of its first packet. *)
Lemma pop_ordered l p q D' :
  H l = p :: q → D' = D →
  (refd (upd H l q) D p → ordered (upd H l q) T D' R done) ∧
  (¬ refd (upd H l q) D p → ordered (upd H l q) T D' R (done ++ [p])).
Proof.
  intros El ->. set (H' := upd H l q).
  assert (refd H D p) as Hp by (left; exists l; rewrite El; by left).
  assert (∀ x, x ≠ p → refd H D x ↔ refd H' D x) as Hother.
  { intros x Hx. unfold refd, H', upd. split; (intros [[l' Hl']|Hd]; [left; exists l'|by right]).
    - destruct (decide (l' = l)) as [->|]; [|done]. rewrite El in Hl'. by apply elem_of_cons in Hl' as [->|].
    - destruct (decide (l' = l)) as [->|]; [|done]. rewrite El. by right. }
  assert (∀ l', H' l' `suffix_of` of_track (T l') R) as Hsuf.
  { intros l'. unfold H', upd. destruct (decide (l' = l)) as [->|]; [|apply Hord].
    etrans; [|apply (ord_suffix _ _ _ _ _ Hord l)]. rewrite El. by exists [p]. }
  split; intros Hr.
  - split; try apply Hord; [exact Hsuf|]. intros t. destruct (ord_done _ _ _ _ _ Hord t) as (k & Ek & Hk).
    exists k. split; [done|]. intros i x Hx. rewrite (Hk i x Hx). destruct (decide (x = p)) as [->|]; [done|by apply Hother].
  - destruct (ord_suffix _ _ _ _ _ Hord l) as [pre E]. rewrite El in E.
    assert (of_track (T l) R !! length pre = Some p) as Hi by (rewrite E; by apply list_lookup_middle).
    destruct (done_next H' D (T l) (length pre) p Hi Hp Hr Hother) as (H1 & H2 & H3).
    { intros j x Hj Hx Hrx. destruct (first_referenced _ _ _ _ _ Hx Hrx Hi Hj) as (l' & Et & Hxl & Hpl).
      apply Hr. left. exists l'. unfold H', upd. destruct (decide (l' = l)) as [->|]; [|done]. exfalso.
      pose proof (NoDup_of_track (T l) R (ord_fresh _ _ _ _ _ Hord)) as Hnd.
      rewrite El in Hxl. rewrite E in Hx, Hnd. rewrite lookup_app_l in Hx by lia.
      apply NoDup_app in Hnd as (_ & Hdis & _). eapply Hdis; [by eapply list_elem_of_lookup_2|done]. }
    split; try apply Hord; done.
Qed.

(** The main thread lets go of the packet that it has. *)
Lemma drop_ordered p :
  D = [p] →
  (refd H [] p → ordered H T [] R done) ∧ (¬ refd H [] p → ordered H T [] R (done ++ [p])).
Proof.
  intros ED.
  assert (refd H D p) as Hp by (right; rewrite ED; by left).
  assert (∀ x, x ≠ p → refd H D x ↔ refd H [] x) as Hother.
  { intros x Hx. unfold refd. rewrite ED, list_elem_of_singleton. split; (intros [|Hd]; [by left|]); [done|by apply elem_of_nil in Hd]. }
  split; intros Hr.
  - split; try apply Hord; [by intros ? ?%elem_of_nil|]. intros t. destruct (ord_done _ _ _ _ _ Hord t) as (k & Ek & Hk).
    exists k. split; [done|]. intros i x Hx. rewrite (Hk i x Hx). destruct (decide (x = p)) as [->|]; [done|by apply Hother].
  - destruct (ord_main _ _ _ _ _ Hord p) as [t Hl]; [rewrite ED; by left|]. rewrite last_lookup in Hl.
    destruct (done_next H [] t _ p Hl Hp Hr Hother) as (H1 & H2 & H3).
    { intros j x Hj Hx Hrx. destruct (first_referenced _ _ _ _ _ Hx Hrx Hl Hj) as (l' & _ & _ & Hpl). apply Hr. left. by exists l'. }
    split; try apply Hord; try done. by intros ? ?%elem_of_nil.
Qed.

(** A packet is received for the links [ls] of its track, the others of which are empty. *)
Lemma receive_ordered t p (ls : list nat) :
  D = [] → p ∉ R.*2 → (∀ l, l ∈ ls → T l = t) → (∀ l, T l = t → l ∉ ls → H l = []) →
  ordered (λ l, if bool_decide (l ∈ ls) then H l ++ [p] else H l) T [p] (R ++ [(t, p)]) done.
Proof.
  intros ED Hp Hls Hno.
  assert (∀ t', of_track t' (R ++ [(t, p)]) = if decide (t' = t) then of_track t R ++ [p] else of_track t' R) as Eo.
  { intros t'. unfold of_track. rewrite filter_app, fmap_app. destruct (decide (t' = t)) as [->|Hne].
    - by rewrite filter_cons_True.
    - rewrite filter_cons_False by (cbn; congruence). by rewrite filter_nil, app_nil_r. }
  assert (∀ x, x ∈ done → x ≠ p) as Hdp by (intros x Hx ->; by apply Hp, Hord).
  assert (∀ l, p ∉ H l) as Hpl.
  { intros l Hl. apply holder_track in Hl. apply Hp, list_elem_of_fmap. by exists (T l, p). }
  split.
  - rewrite fmap_app. apply NoDup_app. split_and!; [apply Hord| |by apply NoDup_singleton].
    intros x Hx ->%list_elem_of_singleton. done.
  - intros l. rewrite Eo. case_bool_decide as Hl.
    + rewrite (Hls l Hl), decide_True by done. destruct (ord_suffix _ _ _ _ _ Hord l) as [pre E]. rewrite (Hls l Hl) in E.
      exists pre. by rewrite E, app_assoc.
    + destruct (decide (T l = t)) as [Et|]; [rewrite (Hno l Et Hl); apply suffix_nil|apply Hord].
  - intros x ->%list_elem_of_singleton. exists t. by rewrite Eo, decide_True, last_snoc.
  - apply Hord.
  - intros x Hx. rewrite fmap_app. apply elem_of_app. left. by apply Hord.
  - intros t'. destruct (ord_done _ _ _ _ _ Hord t') as (k & Ek & Hk).
    assert (filter (λ x, (t', x) ∈ R ++ [(t, p)]) done = filter (λ x, (t', x) ∈ R) done) as ->.
    { apply filter_ext_in. intros x Hx. rewrite elem_of_app, list_elem_of_singleton. split; [|by left].
      intros [|[= -> ->]]; [done|]. by destruct (Hdp p Hx). }
    set (H' := λ l : nat, if bool_decide (l ∈ ls) then H l ++ [p] else H l). assert (∀ x, x ≠ p → refd H D x ↔ refd H' [p] x) as Hother.
    { intros x Hx. unfold refd, H'. rewrite ED, elem_of_nil, list_elem_of_singleton. split; intros [[l Hl]|]; try done; left; exists l.
      - case_bool_decide; [apply elem_of_app; by left|done].
      - case_bool_decide; [|done]. apply elem_of_app in Hl as [|?%list_elem_of_singleton]; done. }
    rewrite Eo. destruct (decide (t' = t)) as [->|Hne].
    + set (n := length (of_track t R)). exists (k `min` n). split.
      * rewrite Ek, take_app_le by (unfold n; lia). destruct (decide (k ≤ n)); [by replace (k `min` n) with k by lia|].
        replace (k `min` n) with n by lia. rewrite !take_ge by (unfold n in *; lia). done.
      * intros i x Hx. destruct (decide (i < n)) as [Hi|Hi].
        { rewrite lookup_app_l in Hx by done. rewrite <-Hother; [rewrite <-(Hk i x Hx); lia|]. intros ->. apply Hp.
          apply list_elem_of_fmap. exists (t, p). split; [done|]. apply elem_of_track. by eapply list_elem_of_lookup_2. }
        { rewrite lookup_app_r in Hx by (fold n; lia). apply list_lookup_singleton_Some in Hx as [Ei <-].
          split; [intros _; right; by left|intros _; fold n in Ei; lia]. }
    + exists k. split; [done|]. intros i x Hx. rewrite (Hk i x Hx). apply Hother. intros ->. apply Hp.
      apply list_elem_of_fmap. exists (t', p). split; [done|]. apply elem_of_track. by eapply list_elem_of_lookup_2.
Qed.

End Ordered.
End AudioReturn.
