(* ===== verification/AudioServer.v ===== *)
(** The audio server (services/media/audio: audio_server_impl.cc, audio_output_manager.cc,
    audio_output.cc, audio_track_impl.cc, audio_track_to_output_link.cc).

    Clients create tracks, configure them and send packets; the server links a track to every
    output, and the outputs mix on threads of a pool.  A packet is returned to its client,
    on the main thread, once the queues of all links have let go of it.

    The main thread runs one handler at a time, as the list of its remaining steps; a step
    takes the locks that it needs, and waits for them.  Processing of an output is the
    sequence of calls that it makes, between which the main thread and other outputs run.
    Objects are known by numbers, and those that are held by pointer live as long as
    something refers to them.  Amplitudes are left out: they are floating point. *)

From stdpp Require Import gmap strings.
From S2P Require Import Prelude LinearTransform StreamTypes TypeConversions MediaPipe.
Local Open Scope Z_scope.

Module AudioServer.
Import LinearTransform StreamTypes TypeConversions.
Import MediaPipe (SendResult, CONSUMED, FLUSHED).

(** ** Configuration of a track *)

Section Configuration.
Context `{BD : Build} `{MB : MojoBindings}.

Definition PTS_FRACTIONAL_BITS : Z := 12.
Definition kSupportedAudioTypeSets : list AudioMediaTypeSetDetails :=
  [mk_audio_set_details UNSIGNED_8 1 2 1000 48000; mk_audio_set_details SIGNED_16 1 2 1000 48000].

(** [AudioTrackImpl::Describe] *)
Definition Describe : list MediaTypeSet :=
  map (λ s, mk_media_type_set AUDIO (set_details_audio s) (strings_from [kAudioEncodingLpcm])) kSupportedAudioTypeSets.

Record AudioTrackConfiguration := mk_configuration {
  media_type : MediaType; audio_frame_ratio : Z; media_time_ratio : Z }.

#[export] Instance sample_format_eq_dec : EqDecision AudioSampleFormat.
Proof. solve_decision. Defined.
#[export] Instance medium_eq_dec : EqDecision MediaTypeMedium.
Proof. solve_decision. Defined.
Definition compatible (cfg : AudioMediaTypeDetails) (cfg_set : AudioMediaTypeSetDetails) : bool :=
  bool_decide (d_sample_format cfg = sd_sample_format cfg_set) &&
  (min_channels cfg_set <=? d_channels cfg) && (d_channels cfg <=? max_channels cfg_set) &&
  (min_frames_per_second cfg_set <=? d_frames_per_second cfg) && (d_frames_per_second cfg <=? max_frames_per_second cfg_set).

Record configured := mk_configured { format_ : AudioMediaTypeDetails; frame_to_media_ratio_ : ratio; bytes_per_frame_ : Z }.

(** The part of [Configure] that decides: [None] when it shuts the track down. *)
Definition check_configuration (c : AudioTrackConfiguration) : outcome (option configured) :=
  match mt_details (media_type c) with
  | details_audio cfg =>
      if negb (bool_decide (mt_medium (media_type c) = AUDIO)) ||
         negb (bool_decide (mt_encoding (media_type c) = kAudioEncodingLpcm)) then Ok None
      else if negb (existsb (compatible cfg) kSupportedAudioTypeSets) then Ok None
      else
        let numerator := u32 (audio_frame_ratio c) in
        let denominator := u32 (media_time_ratio c) in
        if (numerator <? 1) || (denominator <? 1) then Ok None
        else
          frac_scale ← ratio_new (Z.shiftl 1 PTS_FRACTIONAL_BITS) 1;
          frame_scale ← ratio_new numerator denominator;
          '(no_loss, r) ← ratio_compose frac_scale frame_scale;
          if negb (no_loss : bool) then Ok None
          else
            b ← match d_sample_format cfg with
                | UNSIGNED_8 => Ok 1
                | SIGNED_16 => Ok 2
                | SIGNED_24_IN_32 => Ok 4
                | _ => _ ← dcheck false; Ok 2
                end;
            Ok (Some (mk_configured cfg r (u32 (b * d_channels cfg))))
  | _ => Ok None
  end.

End Configuration.

(** ** The objects *)

(** A link, a track and an output, as the server sees them; [m_link] and [m_front] are the
    track that processing of an output holds and the front that it has locked. *)
Record link := mk_link { track_ : nat; output_ : nat; pending_queue_ : list nat; flushed_ : bool }.
Record track := mk_track { bound : bool; pipe_ : bool; rate_control_ : bool; config_ : option configured; outputs_ : list nat }.
Record mixer := mk_mixer { m_link : option nat; m_front : option (option nat) }.
Record output := mk_output {
  links_ : list nat; shutting_down_ : bool; shut_down_ : bool; task_runner_ : bool; weak_self_ : bool;
  thunks : nat; processing : option mixer }.

Definition no_link : link := mk_link 0 0 [] false.
Definition no_track : track := mk_track false false false None [].
Definition no_output : output := mk_output [] false false false false 0 None.

(** Closures that wait in the main message loop, and the steps of its handlers. *)
Inductive MediaResult := OK | SHUTTING_DOWN | NOT_FOUND | INVALID_ARGUMENT | UNSUPPORTED_CONFIG.
#[export] Instance MediaResult_eq_dec : EqDecision MediaResult.
Proof. solve_decision. Defined.
Inductive task := DoPacketCleanup | FinishShutdownSelf (weak_output : option nat).
Inductive micro :=
  | MPush (l p : nat) | MDrop (p : nat) | MFlush (l : nat) | MReply (c : nat)
  | MLink (t o : nat) (initialized : MediaResult) | MTracks
  | MShutdown (o : nat) | MSync (o : nat) | MUnlink (l : nat) | MClear (o : nat) | MErase (o : nat)
  | MOutputs | MPoolDown | MCleanup | MReturn (p : nat).
#[export] Instance task_eq_dec : EqDecision task.
Proof. solve_decision. Defined.

(** The server with its output manager, the objects, and what has happened: packets
    received with their track, packets that were flushed, packets returned with their result
    and flushes answered. *)
Record world := mk_world {
  tracks : gmap nat track;
  outputs : gmap nat output;
  links : gmap nat link;
  next_link : nat;
  managed : list nat;
  thread_pool_ : bool;
  tracks_ : list nat;
  server_down : bool;
  cleanup_queue_ : list nat;
  cleanup_scheduled_ : bool;
  posted : list task;
  todo : list micro;
  received : list (nat * nat);
  flushed : list nat;
  returned : list (nat * SendResult);
  replied : list nat;
}.
Implicit Types w : world.

Definition tr w t : track := default no_track (tracks w !! t).
Definition out w o : output := default no_output (outputs w !! o).
Definition lk w l : link := default no_link (links w !! l).

Definition set_tracks v w := mk_world v (outputs w) (links w) (next_link w) (managed w) (thread_pool_ w) (tracks_ w)
  (server_down w) (cleanup_queue_ w) (cleanup_scheduled_ w) (posted w) (todo w) (received w) (flushed w) (returned w) (replied w).
Definition set_outputs v w := mk_world (tracks w) v (links w) (next_link w) (managed w) (thread_pool_ w) (tracks_ w)
  (server_down w) (cleanup_queue_ w) (cleanup_scheduled_ w) (posted w) (todo w) (received w) (flushed w) (returned w) (replied w).
Definition set_links v w := mk_world (tracks w) (outputs w) v (next_link w) (managed w) (thread_pool_ w) (tracks_ w)
  (server_down w) (cleanup_queue_ w) (cleanup_scheduled_ w) (posted w) (todo w) (received w) (flushed w) (returned w) (replied w).
Definition add_link x w := mk_world (tracks w) (outputs w) (<[next_link w := x]> (links w)) (S (next_link w)) (managed w)
  (thread_pool_ w) (tracks_ w) (server_down w) (cleanup_queue_ w) (cleanup_scheduled_ w) (posted w) (todo w) (received w)
  (flushed w) (returned w) (replied w).
Definition set_managed v w := mk_world (tracks w) (outputs w) (links w) (next_link w) v (thread_pool_ w) (tracks_ w)
  (server_down w) (cleanup_queue_ w) (cleanup_scheduled_ w) (posted w) (todo w) (received w) (flushed w) (returned w) (replied w).
Definition set_pool v w := mk_world (tracks w) (outputs w) (links w) (next_link w) (managed w) v (tracks_ w)
  (server_down w) (cleanup_queue_ w) (cleanup_scheduled_ w) (posted w) (todo w) (received w) (flushed w) (returned w) (replied w).
Definition set_tracks_ v w := mk_world (tracks w) (outputs w) (links w) (next_link w) (managed w) (thread_pool_ w) v
  (server_down w) (cleanup_queue_ w) (cleanup_scheduled_ w) (posted w) (todo w) (received w) (flushed w) (returned w) (replied w).
Definition set_server_down w := mk_world (tracks w) (outputs w) (links w) (next_link w) (managed w) (thread_pool_ w) (tracks_ w)
  true (cleanup_queue_ w) (cleanup_scheduled_ w) (posted w) (todo w) (received w) (flushed w) (returned w) (replied w).
Definition set_cleanup q b w := mk_world (tracks w) (outputs w) (links w) (next_link w) (managed w) (thread_pool_ w) (tracks_ w)
  (server_down w) q b (posted w) (todo w) (received w) (flushed w) (returned w) (replied w).
Definition set_posted v w := mk_world (tracks w) (outputs w) (links w) (next_link w) (managed w) (thread_pool_ w) (tracks_ w)
  (server_down w) (cleanup_queue_ w) (cleanup_scheduled_ w) v (todo w) (received w) (flushed w) (returned w) (replied w).
Definition set_todo v w := mk_world (tracks w) (outputs w) (links w) (next_link w) (managed w) (thread_pool_ w) (tracks_ w)
  (server_down w) (cleanup_queue_ w) (cleanup_scheduled_ w) (posted w) v (received w) (flushed w) (returned w) (replied w).
Definition add_received t p w := mk_world (tracks w) (outputs w) (links w) (next_link w) (managed w) (thread_pool_ w) (tracks_ w)
  (server_down w) (cleanup_queue_ w) (cleanup_scheduled_ w) (posted w) (todo w) (received w ++ [(t, p)]) (flushed w) (returned w)
  (replied w).
Definition add_flushed p w := mk_world (tracks w) (outputs w) (links w) (next_link w) (managed w) (thread_pool_ w) (tracks_ w)
  (server_down w) (cleanup_queue_ w) (cleanup_scheduled_ w) (posted w) (todo w) (received w) (p :: flushed w) (returned w)
  (replied w).
Definition add_returned x w := mk_world (tracks w) (outputs w) (links w) (next_link w) (managed w) (thread_pool_ w) (tracks_ w)
  (server_down w) (cleanup_queue_ w) (cleanup_scheduled_ w) (posted w) (todo w) (received w) (flushed w) (returned w ++ [x])
  (replied w).
Definition add_replied c w := mk_world (tracks w) (outputs w) (links w) (next_link w) (managed w) (thread_pool_ w) (tracks_ w)
  (server_down w) (cleanup_queue_ w) (cleanup_scheduled_ w) (posted w) (todo w) (received w) (flushed w) (returned w)
  (replied w ++ [c]).

Definition upd_track t (f : track → track) w := set_tracks (<[t := f (tr w t)]> (tracks w)) w.
Definition upd_output o (f : output → output) w := set_outputs (<[o := f (out w o)]> (outputs w)) w.
Definition upd_link l (f : link → link) w := set_links (<[l := f (lk w l)]> (links w)) w.

Definition set_track_outputs v (x : track) := mk_track (bound x) (pipe_ x) (rate_control_ x) (config_ x) v.
Definition set_output_links v (x : output) :=
  mk_output v (shutting_down_ x) (shut_down_ x) (task_runner_ x) (weak_self_ x) (thunks x) (processing x).
Definition set_thunks v (x : output) :=
  mk_output (links_ x) (shutting_down_ x) (shut_down_ x) (task_runner_ x) (weak_self_ x) v (processing x).
Definition set_processing v (x : output) :=
  mk_output (links_ x) (shutting_down_ x) (shut_down_ x) (task_runner_ x) (weak_self_ x) (thunks x) v.
Definition set_queue v (x : link) := mk_link (track_ x) (output_ x) v (flushed_ x).

(** ** Pointers

    What holds a packet: a queue, a front that is locked, or a step that is to come. *)
Definition step_holds (p : nat) (m : micro) : bool :=
  match m with MPush _ q | MDrop q => bool_decide (q = p) | _ => false end.
Definition front_of (x : output) : option nat := m ← processing x; f ← m_front m; f.
Definition referenced (p : nat) w : bool :=
  bool_decide (map_Exists (λ _ x, p ∈ pending_queue_ x) (links w)) || existsb (step_holds p) (todo w) ||
  bool_decide (map_Exists (λ _ x, front_of x = Some p) (outputs w)).

(** What holds a link is the sets of its track and of its output. *)
Definition link_held (l : nat) w : bool :=
  bool_decide (l ∈ outputs_ (tr w (track_ (lk w l)))) || bool_decide (l ∈ links_ (out w (output_ (lk w l)))).

(** [GetTrack] of a link: what holds a track is the server's set and processing of outputs. *)
Definition visits (t : nat) w (x : output) : Prop :=
  match m ← processing x; m_link m with Some l => track_ (lk w l) = t | None => False end.
#[export] Instance visits_dec t w x : Decision (visits t w x).
Proof. unfold visits. destruct (processing x ≫= _); apply _. Defined.
Definition alive (t : nat) w : bool :=
  bool_decide (t ∈ tracks_ w) || bool_decide (map_Exists (λ _ x, visits t w x) (outputs w)).

(** The flush lock of a link. *)
Definition locks_front (l : nat) (x : output) : Prop :=
  match processing x with Some (mk_mixer (Some l') (Some _)) => l' = l | _ => False end.
#[export] Instance locks_front_dec l x : Decision (locks_front l x).
Proof. unfold locks_front. destruct (processing x) as [[[l'|] [f|]]|]; apply _. Defined.
Definition flush_lock_held (l : nat) w : bool := bool_decide (map_Exists (λ _ x, locks_front l x) (outputs w)).

Section Operations.
Context `{BD : Build}.

(** The next steps of the handler that runs. *)
Definition push (steps : list micro) : prog world unit := modS (λ w, set_todo (steps ++ todo w) w).

(** ** Packets *)

Definition ScheduleMessageLoopTask (k : task) : prog world unit := modS (λ w, set_posted (posted w ++ [k]) w).
Definition SchedulePacketCleanup (p : nat) : prog world unit :=
  _ ← modS (λ w, set_cleanup (cleanup_queue_ w ++ [p]) (cleanup_scheduled_ w) w);
  w ← getS;
  whenS (negb (cleanup_scheduled_ w) && negb (server_down w))
    (_ ← ScheduleMessageLoopTask DoPacketCleanup; modS (λ w, set_cleanup (cleanup_queue_ w) true w)).

(** A pointer to a packet is reset: the last one destroys it. *)
Definition drop_packet (p : nat) : prog world unit :=
  w ← getS; if referenced p w then mret tt else SchedulePacketCleanup p.
Fixpoint ReleaseQueue (queue : list nat) : prog world unit :=
  match queue with
  | [] => mret tt
  | p :: rest => _ ← modS (add_flushed p); _ ← drop_packet p; ReleaseQueue rest
  end.

(** ** Links *)

Definition PushToPendingQueue (l p : nat) : prog world unit :=
  modS (upd_link l (λ x, set_queue (pending_queue_ x ++ [p]) x)).
Definition FlushPendingQueue (l : nat) : prog world unit :=
  w ← getS;
  _ ← modS (upd_link l (λ x, mk_link (track_ x) (output_ x) [] true));
  ReleaseQueue (pending_queue_ (lk w l)).
Definition LockPendingQueueFront (o l : nat) : prog world bool :=
  w ← getS;
  _ ← dcheckS (negb (flush_lock_held l w));
  _ ← modS (upd_output o (set_processing (Some (mk_mixer (Some l) (Some (head (pending_queue_ (lk w l))))))));
  _ ← modS (upd_link l (λ x, mk_link (track_ x) (output_ x) (pending_queue_ x) false));
  mret (flushed_ (lk w l)).
Definition UnlockPendingQueueFront (o l : nat) (pkt : option nat) (release_packet : bool) : prog world unit :=
  w ← getS;
  _ ← dcheckS (match pkt with None => true | Some _ => bool_decide (head (pending_queue_ (lk w l)) = pkt) end);
  _ ← modS (upd_output o (set_processing (Some (mk_mixer (Some l) None))));
  match pkt with
  | Some p =>
      whenS release_packet
        (_ ← modS (upd_link l (λ x, set_queue (tail (pending_queue_ x)) x)); drop_packet p)
  | None => mret tt
  end.

(** A pointer to a link is reset: the last one runs [~AudioTrackToOutputLink]. *)
Definition drop_link (l : nat) : prog world unit :=
  w ← getS;
  if link_held l w then mret tt
  else _ ← modS (upd_link l (set_queue [])); ReleaseQueue (pending_queue_ (lk w l)).
Fixpoint drop_links (ls : list nat) : prog world unit :=
  match ls with [] => mret tt | l :: rest => _ ← drop_link l; drop_links rest end.

(** ** Outputs *)

Definition AddTrackLink (o l : nat) (initialized : MediaResult) : prog world MediaResult :=
  if decide (initialized = OK) then
    w ← getS;
    if shutting_down_ (out w o) then mret SHUTTING_DOWN
    else
      _ ← dcheckS (bool_decide (l ∉ links_ (out w o)));
      _ ← modS (upd_output o (λ x, set_output_links (links_ x ++ [l]) x));
      mret OK
  else mret initialized.
Definition remove_one (l : nat) (ls : list nat) : list nat := filter (λ l', l' ≠ l) ls.
Definition RemoveTrackLink (o l : nat) : prog world MediaResult :=
  w ← getS;
  if shutting_down_ (out w o) then mret SHUTTING_DOWN
  else if bool_decide (l ∈ links_ (out w o)) then
    _ ← modS (upd_output o (λ x, set_output_links (remove_one l (links_ x)) x));
    _ ← drop_link l;
    mret OK
  else mret NOT_FOUND.

Definition BeginShutdown (o : nat) : prog world bool :=
  w ← getS;
  if shutting_down_ (out w o) then mret true
  else
    _ ← modS (upd_output o (λ x, mk_output (links_ x) true (shut_down_ x) false (weak_self_ x) (thunks x) (processing x)));
    mret false.
Definition ScheduleCallback (o : nat) : prog world unit :=
  w ← getS;
  if shutting_down_ (out w o) then dcheckS (negb (task_runner_ (out w o)))
  else _ ← dcheckS (task_runner_ (out w o)); modS (upd_output o (λ x, set_thunks (S (thunks x)) x)).
Definition ShutdownSelf (o : nat) : prog world unit :=
  begun ← BeginShutdown o;
  if (begun : bool) then mret tt
  else w ← getS; ScheduleMessageLoopTask (FinishShutdownSelf (if weak_self_ (out w o) then Some o else None)).
Definition ProcessThunk (o : nat) : prog world unit :=
  w ← getS;
  whenS (negb (shutting_down_ (out w o))) (modS (upd_output o (set_processing (Some (mk_mixer None None))))).
Definition AudioOutput_Init (o : nat) (res : MediaResult) : prog world MediaResult :=
  if decide (res = OK) then
    _ ← modS (upd_output o (λ x, mk_output (links_ x) (shutting_down_ x) (shut_down_ x) true true (S (thunks x)) (processing x)));
    mret OK
  else _ ← ShutdownSelf o; mret res.

(** ** Tracks *)

Definition AddOutput (t l : nat) : prog world unit :=
  w ← getS;
  _ ← dcheckS (bool_decide (l ∉ outputs_ (tr w t)));
  modS (upd_track t (λ x, set_track_outputs (outputs_ x ++ [l]) x)).
Definition RemoveOutput (t l : nat) : prog world unit :=
  w ← getS;
  if bool_decide (l ∈ outputs_ (tr w t)) then
    _ ← modS (upd_track t (λ x, set_track_outputs (remove_one l (outputs_ x)) x));
    drop_link l
  else dcheckS false.
Definition RemoveTrack (t : nat) : prog world unit :=
  w ← getS;
  _ ← dcheckS (bool_decide (t ∈ tracks_ w));
  modS (set_tracks_ (remove_one t (tracks_ w))).
Definition Track_Shutdown (t : nat) : prog world unit :=
  w ← getS;
  if negb (bound (tr w t)) then
    _ ← dcheckS (negb (pipe_ (tr w t)));
    _ ← dcheckS (negb (rate_control_ (tr w t)));
    dcheckS (bool_decide (outputs_ (tr w t) = []))
  else
    _ ← modS (upd_track t (λ x, mk_track false false false (config_ x) []));
    _ ← drop_links (outputs_ (tr w t));
    RemoveTrack t.

(** [SelectOutputsForTrack], with what [InitializeLink] of each output says. *)
Definition SelectOutputsForTrack (t : nat) (initialized : nat → MediaResult) : prog world unit :=
  w ← getS; push (map (λ o, MLink t o (initialized o)) (managed w)).
Definition link_track (t o : nat) (initialized : MediaResult) : prog world unit :=
  w ← getS;
  let l := next_link w in
  _ ← modS (add_link (mk_link t o [] true));
  res ← AddTrackLink o l initialized;
  if decide (res = OK) then AddOutput t l else drop_link l.
Definition Configure (t : nat) (configuration : AudioTrackConfiguration) (initialized : nat → MediaResult) : prog world unit :=
  w ← getS;
  if pipe_ (tr w t) then Track_Shutdown t
  else
    c ← liftO (check_configuration configuration);
    match c with
    | None => Track_Shutdown t
    | Some c =>
        _ ← modS (upd_track t (λ x, mk_track (bound x) true (rate_control_ x) (Some c) (outputs_ x)));
        SelectOutputsForTrack t initialized
    end.
Definition set_rate_control b (x : track) := mk_track (bound x) (pipe_ x) b (config_ x) (outputs_ x).
Definition RateControl_Bind (t : nat) : prog world bool := _ ← modS (upd_track t (set_rate_control true)); mret true.
Definition GetRateControl (t : nat) : prog world unit :=
  ok ← RateControl_Bind t; if negb (ok : bool) then Track_Shutdown t else mret tt.
Definition SetGain (t : nat) (at_least_max : bool) : prog world unit :=
  if at_least_max then Track_Shutdown t else mret tt.
Definition OnPacketReceived (t p : nat) : prog world unit :=
  w ← getS;
  _ ← modS (add_received t p);
  push (map (λ l, MPush l p) (outputs_ (tr w t)) ++ [MDrop p]).
Definition OnFlushRequested (t cbk : nat) : prog world unit :=
  w ← getS; push (map MFlush (outputs_ (tr w t)) ++ [MReply cbk]).

(** ** The output manager and the server *)

(** [~AudioOutput] *)
Definition destroy_output (o : nat) : prog world unit :=
  w ← getS; dcheckS (negb (task_runner_ (out w o)) && shutting_down_ (out w o)).
Definition ShutdownOutput (o : nat) : prog world unit :=
  w ← getS;
  _ ← dcheckS (thread_pool_ w);
  if bool_decide (o ∈ managed w) then push [MShutdown o; MErase o] else mret tt.
(** [FinishShutdownSelf]: an output is held by the manager, and while it processes. *)
Definition run_FinishShutdownSelf (weak_output : option nat) : prog world unit :=
  w ← getS;
  match weak_output with
  | Some o =>
      if bool_decide (o ∈ managed w) || bool_decide (is_Some (processing (out w o))) then ShutdownOutput o else mret tt
  | None => mret tt
  end.
Fixpoint init_outputs (n : nat) (results : list MediaResult) : prog world unit :=
  match results with
  | [] => mret tt
  | r :: rest =>
      res ← AudioOutput_Init n r;
      _ ← (if decide (res = OK) then mret tt
           else _ ← modS (λ w, set_managed (remove_one n (managed w)) w); destroy_output n);
      init_outputs (S n) rest
  end.
(** [AudioOutputManager::Init], with what the [Init] of each output created says. *)
Definition Manager_Init (results : list MediaResult) : prog world unit :=
  _ ← modS (set_pool true);
  _ ← modS (λ w, set_managed (seq 0 (length results)) w);
  init_outputs 0 results.
Definition Manager_Shutdown : prog world unit :=
  w ← getS;
  if negb (thread_pool_ w) then dcheckS (bool_decide (managed w = []))
  else push (map MShutdown (managed w) ++ [MPoolDown]).
Fixpoint destroy_outputs (os : list nat) : prog world unit :=
  match os with [] => mret tt | o :: rest => _ ← destroy_output o; destroy_outputs rest end.

Definition CreateTrack (t : nat) : prog world unit :=
  _ ← modS (upd_track t (λ _, mk_track true false false None []));
  modS (λ w, set_tracks_ (tracks_ w ++ [t]) w).
Definition run_DoPacketCleanup : prog world unit :=
  w ← getS; _ ← modS (set_cleanup [] false); push (map MReturn (cleanup_queue_ w)).
Definition Server_Shutdown : prog world unit :=
  _ ← modS set_server_down; push [MTracks; MOutputs; MCleanup].
(** The callback of a packet. *)
Definition return_packet (p : nat) : prog world unit := modS (λ w,
  add_returned (p, if bool_decide (p ∈ flushed w) then FLUSHED else CONSUMED) w).

(** A step of a handler. *)
Definition exec (m : micro) : prog world unit :=
  match m with
  | MPush l p => PushToPendingQueue l p
  | MDrop p => drop_packet p
  | MFlush l => FlushPendingQueue l
  | MReply c => modS (add_replied c)
  | MLink t o initialized => link_track t o initialized
  | MTracks =>
      w ← getS;
      match tracks_ w with
      | [] => mret tt
      | t :: _ =>
          _ ← Track_Shutdown t;
          w' ← getS;
          _ ← dcheckS (length (tracks_ w') <? length (tracks_ w))%nat;
          push [MTracks]
      end
  | MShutdown o =>
      w ← getS; if shut_down_ (out w o) then mret tt else _ ← BeginShutdown o; push [MSync o]
  | MSync o => w ← getS; push (map MUnlink (links_ (out w o)) ++ [MClear o])
  | MUnlink l =>
      w ← getS; let t := track_ (lk w l) in if alive t w then RemoveOutput t l else mret tt
  | MClear o =>
      w ← getS;
      _ ← modS (upd_output o (set_output_links []));
      _ ← drop_links (links_ (out w o));
      modS (upd_output o (λ x, mk_output (links_ x) (shutting_down_ x) true (task_runner_ x) (weak_self_ x) (thunks x) (processing x)))
  | MErase o => _ ← modS (λ w, set_managed (remove_one o (managed w)) w); destroy_output o
  | MOutputs => Manager_Shutdown
  | MPoolDown => w ← getS; _ ← modS (set_managed []); _ ← destroy_outputs (managed w); modS (set_pool false)
  | MCleanup => run_DoPacketCleanup
  | MReturn p => return_packet p
  end.

(** ** What may happen next *)

(** Calls from clients, closures that run, and the end of the server; calls while an output
    processes. *)
Inductive event :=
  | ECreateTrack (t : nat) | EConfigure (t : nat) (configuration : AudioTrackConfiguration) (initialized : nat → MediaResult)
  | EGetRateControl (t : nat) | ERateControlGone (t : nat) | ESetGain (t : nat) (at_least_max : bool) | EGone (t : nat)
  | EPacket (t p : nat) | EFlush (t cbk : nat) | ERun | EShutdown.
Inductive call :=
  | CBegin | CVisit (l : nat) | CLock | CUnlock (release_packet : bool) | CLeave | CSchedule | CShutdownSelf | CEnd.
Inductive action := Event (e : event) | Step | Mix (o : nat) (c : call).

Definition handle (e : event) : prog world unit :=
  match e with
  | ECreateTrack t => CreateTrack t
  | EConfigure t configuration initialized => Configure t configuration initialized
  | EGetRateControl t => GetRateControl t
  | ERateControlGone t => modS (upd_track t (set_rate_control false))
  | ESetGain t at_least_max => SetGain t at_least_max
  | EGone t => Track_Shutdown t
  | EPacket t p => OnPacketReceived t p
  | EFlush t cbk => OnFlushRequested t cbk
  | ERun =>
      w ← getS;
      match posted w with
      | [] => mret tt
      | k :: rest =>
          _ ← modS (set_posted rest);
          match k with DoPacketCleanup => run_DoPacketCleanup | FinishShutdownSelf weak => run_FinishShutdownSelf weak end
      end
  | EShutdown => Server_Shutdown
  end.
Definition mix (o : nat) (c : call) : prog world unit :=
  w ← getS;
  match c with
  | CBegin => _ ← modS (upd_output o (λ x, set_thunks (pred (thunks x)) x)); ProcessThunk o
  | CVisit l =>
      if alive (track_ (lk w l)) w then modS (upd_output o (set_processing (Some (mk_mixer (Some l) None))))
      else _ ← modS (upd_output o (λ x, set_output_links (remove_one l (links_ x)) x)); drop_link l
  | CLock => match processing (out w o) with Some (mk_mixer (Some l) _) => _ ← LockPendingQueueFront o l; mret tt | _ => mret tt end
  | CUnlock release_packet =>
      match processing (out w o) with
      | Some (mk_mixer (Some l) (Some f)) => UnlockPendingQueueFront o l f release_packet
      | _ => mret tt
      end
  | CLeave => modS (upd_output o (set_processing (Some (mk_mixer None None))))
  | CSchedule => ScheduleCallback o
  | CShutdownSelf => ShutdownSelf o
  | CEnd => modS (upd_output o (set_processing None))
  end.
Definition act (a : action) : prog world unit :=
  match a with
  | Event e => handle e
  | Step => w ← getS; match todo w with [] => mret tt | m :: rest => _ ← modS (set_todo rest); exec m end
  | Mix o c => mix o c
  end.

End Operations.

(** A step waits for the locks that it takes. *)
Definition waits (m : micro) w : Prop :=
  match m with
  | MFlush l => flush_lock_held l w = true
  | MSync o | MLink _ o _ => processing (out w o) ≠ None
  | _ => False
  end.
(** The bindings of a track that is shut down are closed, a packet comes through the pipe of a
    configured track, and after the end of the server only its own steps remain. *)
Definition event_enabled (e : event) w : Prop :=
  todo w = [] ∧ server_down w = false ∧
  match e with
  | ECreateTrack t => tracks w !! t = None
  | EPacket t p => bound (tr w t) = true ∧ pipe_ (tr w t) = true ∧ p ∉ (received w).*2
  | EFlush t _ => bound (tr w t) = true ∧ pipe_ (tr w t) = true
  | EConfigure t c _ => bound (tr w t) = true ∧ is_u 32 (audio_frame_ratio c) ∧ is_u 32 (media_time_ratio c)
  | EGetRateControl t | ERateControlGone t | ESetGain t _ | EGone t => bound (tr w t) = true
  | ERun | EShutdown => True
  end.
Definition call_enabled (o : nat) (c : call) w : Prop :=
  let x := out w o in
  match c with
  | CBegin => processing x = None ∧ (0 < thunks x)%nat
  | CVisit l => processing x = Some (mk_mixer None None) ∧ l ∈ links_ x
  | CLock => ∃ l, processing x = Some (mk_mixer (Some l) None)
  | CUnlock _ => ∃ l f, processing x = Some (mk_mixer (Some l) (Some f))
  | CLeave => ∃ l, processing x = Some (mk_mixer (Some l) None)
  | CSchedule | CShutdownSelf => processing x ≠ None
  | CEnd => processing x = Some (mk_mixer None None)
  end.
Definition enabled (a : action) w : Prop :=
  match a with
  | Event e => event_enabled e w
  | Step => ∃ m rest, todo w = m :: rest ∧ ¬ waits m w
  | Mix o c => call_enabled o c w
  end.

Definition empty_world : world := mk_world ∅ ∅ ∅ 0 [] false [] false [] false [] [] [] [] [] [].

End AudioServer.
