(* ===== verification/AudioServerSpec.v ===== *)
(** The audio server keeps its clients' packets: however clients, outputs and shutdowns are
    interleaved, each packet is returned once, in the order of its track, and none is left
    when the server is down. *)

From stdpp Require Import gmap.
From S2P Require Import Prelude LinearTransform StreamTypes TypeConversions AudioReturn AudioServer.
Import LinearTransform StreamTypes TypeConversions AudioReturn AudioServer.
Local Open Scope nat_scope.

Module AudioServerSpec.
Section Spec.
Context `{BD : Build}.
Implicit Types (w : world) (l o t p : nat).

(** ** What the state says *)

Definition returns (ms : list micro) : list nat := omap (λ m, match m with MReturn p => Some p | _ => None end) ms.
Definition pushes l (ms : list micro) : list nat :=
  omap (λ m, match m with MPush l' p => if decide (l' = l) then Some p else None | _ => None end) ms.
Definition drops (ms : list micro) : list nat := omap (λ m, match m with MDrop p => Some p | _ => None end) ms.

(** The packets that a link has or is about to have, and those that are done with. *)
Definition held w l : list nat := pending_queue_ (lk w l) ++ pushes l (todo w).
Definition track_of w l : nat := track_ (lk w l).
Definition done_list w : list nat := (returned w).*1 ++ returns (todo w) ++ cleanup_queue_ w.
Definition returns_in_order w : Prop := ordered (held w) (track_of w) (drops (todo w)) (received w) (done_list w).

(** Sets and flags agree. *)
Record objects w : Prop := {
  ob_links o l : l ∈ links_ (out w o) → output_ (lk w l) = o ∧ l < next_link w;
  ob_outs t l : l ∈ outputs_ (tr w t) → track_of w l = t ∧ l < next_link w;
  ob_fresh l : next_link w ≤ l → links w !! l = None;
  ob_known o l : l ∈ links_ (out w o) → is_Some (tracks w !! track_of w l);
  ob_nodup_links o : NoDup (links_ (out w o));
  ob_nodup_outs t : NoDup (outputs_ (tr w t));
  ob_nodup_tracks : NoDup (tracks_ w);
  ob_bound t : t ∈ tracks_ w ↔ bound (tr w t) = true;
  ob_unbound t : bound (tr w t) = false → pipe_ (tr w t) = false ∧ rate_control_ (tr w t) = false ∧ outputs_ (tr w t) = [];
  ob_mixer o l f : processing (out w o) = Some (mk_mixer (Some l) f) → l ∈ links_ (out w o);
  ob_front o l p : processing (out w o) = Some (mk_mixer (Some l) (Some (Some p))) → head (pending_queue_ (lk w l)) = Some p;
  ob_linked o f : processing (out w o) ≠ Some (mk_mixer None (Some f));
  ob_stopped o : shutting_down_ (out w o) = true → task_runner_ (out w o) = false;
  ob_running o : shutting_down_ (out w o) = false → o ∈ managed w ∨ processing (out w o) ≠ None ∨ 0 < thunks (out w o) →
    task_runner_ (out w o) = true;
  ob_shut o : shut_down_ (out w o) = true → shutting_down_ (out w o) = true ∧ links_ (out w o) = [] ∧ processing (out w o) = None;
  ob_unmanaged o : o ∉ managed w → links_ (out w o) = [];
  ob_pool : server_down w = false → thread_pool_ w = true;
  ob_closed : thread_pool_ w = false → managed w = [];
}.
(** A link that nothing holds has no packets; an output's link to a track that is not shut
    down is among the track's, unless the output is about to clear its links. *)
Definition free_empty w : Prop := ∀ l, link_held l w = false → pending_queue_ (lk w l) = [].
Definition both_sides w : Prop := ∀ o l, l ∈ links_ (out w o) → bound (tr w (track_of w l)) = true →
  l ∈ outputs_ (tr w (track_of w l)) ∨ MClear o ∈ todo w.
(** Packets that wait for their return are not forgotten. *)
Definition scheduled w : Prop :=
  (cleanup_scheduled_ w = true → DoPacketCleanup ∈ posted w) ∧
  (server_down w = false → cleanup_queue_ w ≠ [] → cleanup_scheduled_ w = true).

(** How far the shutdown of an output is. *)
Inductive plan w o : list micro → Prop :=
  | plan_todo : plan w o [MShutdown o]
  | plan_wait : shutting_down_ (out w o) = true → plan w o [MSync o]
  | plan_unlink ls :
      shutting_down_ (out w o) = true → processing (out w o) = None → NoDup ls →
      (∀ l, l ∈ ls → l ∈ links_ (out w o) ∧
        (bound (tr w (track_of w l)) = true → l ∈ outputs_ (tr w (track_of w l)))) →
      plan w o (map MUnlink ls ++ [MClear o])
  | plan_done : shut_down_ (out w o) = true → plan w o [].
(** How far the main thread is. *)
Inductive shape w : list micro → Prop :=
  | sh_idle : server_down w = false → shape w []
  | sh_packet t p ls :
      server_down w = false → NoDup ls → (∀ l, l ∈ ls → l ∈ outputs_ (tr w t)) →
      shape w (map (λ l, MPush l p) ls ++ [MDrop p])
  | sh_flush t ls c : server_down w = false → (∀ l, l ∈ ls → l ∈ outputs_ (tr w t)) → shape w (map MFlush ls ++ [MReply c])
  | sh_link t os f : server_down w = false → bound (tr w t) = true → (∀ o, o ∈ os → o ∈ managed w) →
      shape w (map (λ o, MLink t o (f o)) os)
  | sh_output o ms : server_down w = false → plan w o ms → shape w (ms ++ [MErase o])
  | sh_return ps : server_down w = false → shape w (map MReturn ps)
  | sh_tracks : server_down w = true → thread_pool_ w = true → shape w [MTracks; MOutputs; MCleanup]
  | sh_outputs : server_down w = true → thread_pool_ w = true → tracks_ w = [] → shape w [MOutputs; MCleanup]
  | sh_shutdown o os ms : server_down w = true → thread_pool_ w = true → tracks_ w = [] → plan w o ms →
      (∀ o', o' ∈ managed w → shut_down_ (out w o') = true ∨ o' = o ∨ o' ∈ os) →
      shape w (ms ++ map MShutdown os ++ [MPoolDown; MCleanup])
  | sh_pool : server_down w = true → thread_pool_ w = true → tracks_ w = [] →
      (∀ o, o ∈ managed w → shut_down_ (out w o) = true) → shape w [MPoolDown; MCleanup]
  | sh_cleanup : server_down w = true → tracks_ w = [] → managed w = [] → shape w [MCleanup]
  | sh_last ps : server_down w = true → tracks_ w = [] → managed w = [] → cleanup_queue_ w = [] → shape w (map MReturn ps).

Record base w : Prop := {
  inv_objects : objects w;
  inv_free : free_empty w;
  inv_both : both_sides w;
  inv_order : returns_in_order w;
  inv_scheduled : scheduled w;
}.
Definition inv w : Prop := base w ∧ shape w (todo w).

(** ** References *)

Lemma ordered_ext (H H' : nat → list nat) (T T' : nat → nat) D R done :
  ordered H T D R done → (∀ l, H' l = H l) → (∀ l, T' l = T l ∨ H l = []) → ordered H' T' D R done.
Proof.
  intros [O1 O2 O3 O4 O5 O6] EH ET. split; try done.
  - intros l. rewrite EH. destruct (ET l) as [->| ->]; [apply O2|apply suffix_nil].
  - intros t. destruct (O6 t) as (k & Ek & Hk). exists k. split; [done|]. intros i p Hp. rewrite (Hk i p Hp).
    unfold refd. by setoid_rewrite EH.
Qed.

Lemma pushes_app l ms ms' : pushes l (ms ++ ms') = pushes l ms ++ pushes l ms'.
Proof. apply omap_app. Qed.
Lemma steps_hold p (ms : list micro) : existsb (step_holds p) ms = true ↔ (∃ l, p ∈ pushes l ms) ∨ p ∈ drops ms.
Proof.
  induction ms as [|m ms IH].
  - split; [done|]. intros [[l []%elem_of_nil]|[]%elem_of_nil].
  - cbn [existsb]. rewrite orb_true_iff, IH. split.
    + intros [Hm|[[l Hl]|Hd]].
      * destruct m; try done; apply bool_decide_eq_true in Hm as ->.
        { left. exists l. cbn. rewrite decide_True by done. by left. }
        { right. cbn. by left. }
      * left. exists l. cbn. destruct m; try done. destruct (decide _); [by right|done].
      * right. cbn. destruct m; try done. by right.
    + intros [[l Hl]|Hd].
      * cbn in Hl. destruct m as [l' q| | | | | | | | | | | | | |]; try (right; left; by exists l).
        destruct (decide _); [|right; left; by exists l]. apply elem_of_cons in Hl as [->|]; [|right; left; by exists l].
        left. cbn. by rewrite bool_decide_true.
      * cbn in Hd. destruct m; try (by right; right). apply elem_of_cons in Hd as [->|]; [|by right; right].
        left. cbn. by rewrite bool_decide_true.
Qed.

Lemma queue_exists p w : map_Exists (λ _ x, p ∈ pending_queue_ x) (links w) ↔ ∃ l, p ∈ pending_queue_ (lk w l).
Proof.
  unfold map_Exists, lk. split.
  - intros (l & x & E & Hp). exists l. by rewrite E.
  - intros [l Hp]. destruct (links w !! l) as [x|] eqn:E; [by exists l, x|by apply elem_of_nil in Hp].
Qed.

(** Fronts that are locked are in their queues. *)
Definition fronts w : Prop := ∀ o l p, processing (out w o) = Some (mk_mixer (Some l) (Some (Some p))) →
  l ∈ links_ (out w o) ∧ output_ (lk w l) = o ∧ head (pending_queue_ (lk w l)) = Some p.
Lemma objects_fronts w : objects w → fronts w.
Proof.
  intros Ho o l p E. pose proof (ob_mixer w Ho o l _ E) as Hl. split_and!; [done|by apply (ob_links w Ho)|by eapply (ob_front w Ho)].
Qed.

Lemma front_of_Some x p : front_of x = Some p ↔ ∃ lo, processing x = Some (mk_mixer lo (Some (Some p))).
Proof.
  unfold front_of. split.
  - destruct (processing x) as [[lo [[q|]|]]|]; cbn; intros E; try done. simplify_eq. by exists lo.
  - intros [lo ->]. done.
Qed.

Definition linked_fronts w : Prop := ∀ o f, processing (out w o) ≠ Some (mk_mixer None (Some f)).

Lemma referenced_spec p w : fronts w → linked_fronts w →
  referenced p w = true ↔ refd (held w) (drops (todo w)) p.
Proof.
  intros Hf Hlf. unfold referenced. rewrite !orb_true_iff, steps_hold, !bool_decide_eq_true, queue_exists. unfold refd, held. split.
  - intros [[[l Hl]|[[l Hl]|Hd]]|(o & x & E & Hx)].
    + left. exists l. apply elem_of_app. by left.
    + left. exists l. apply elem_of_app. by right.
    + by right.
    + apply front_of_Some in Hx as [[l|] Hx].
      * assert (processing (out w o) = Some (mk_mixer (Some l) (Some (Some p)))) as Hp by (unfold out; by rewrite E).
        apply Hf in Hp as (_ & _ & Hp). left. exists l. apply elem_of_app. left. apply head_Some_elem_of in Hp. done.
      * exfalso. apply (Hlf o (Some p)). unfold out. by rewrite E.
  - intros [[l [Hl|Hl]%elem_of_app]|Hd]; left; [left; by exists l|right; left; by exists l|by right; right].
Qed.

(** ** Letting go of packets *)

(** Only what is on its way back to clients changes. *)
Definition cleaned w w' : Prop := ∃ q b ps fl,
  w' = mk_world (tracks w) (outputs w) (links w) (next_link w) (managed w) (thread_pool_ w) (tracks_ w) (server_down w) q b ps
    (todo w) (received w) fl (returned w) (replied w).
Lemma cleaned_refl w : cleaned w w.
Proof. exists (cleanup_queue_ w), (cleanup_scheduled_ w), (posted w), (flushed w). by destruct w. Qed.
Lemma cleaned_trans w w' w'' : cleaned w w' → cleaned w' w'' → cleaned w w''.
Proof. intros (q & b & ps & fl & ->) (q' & b' & ps' & fl' & ->). by exists q', b', ps', fl'. Qed.

Lemma SchedulePacketCleanup_runs p w :
  scheduled w →
  runs (SchedulePacketCleanup p) w (λ _ w', cleaned w w' ∧ scheduled w' ∧ cleanup_queue_ w' = cleanup_queue_ w ++ [p]).
Proof.
  intros [S1 S2]. unfold SchedulePacketCleanup. apply runs_mod, runs_get. cbn [cleanup_scheduled_ server_down set_cleanup].
  destruct (cleanup_scheduled_ w) eqn:Eb, (server_down w) eqn:Ed; cbn [negb andb whenS].
  4: { apply runs_mod, runs_mod_last. split_and!; [by eexists _, _, _, _| |done]. split; [|done]. intros _. cbn.
       apply elem_of_app. right. by left. }
  all: apply runs_ret; split_and!; [by eexists _, _, _, _| |done]; split; cbn; rewrite ?Eb, ?Ed; auto; done.
Qed.

Lemma drop_packet_runs p w :
  scheduled w → fronts w → linked_fronts w →
  runs (drop_packet p) w (λ _ w', cleaned w w' ∧ scheduled w' ∧
    (refd (held w) (drops (todo w)) p ∧ cleanup_queue_ w' = cleanup_queue_ w ∨
     ¬ refd (held w) (drops (todo w)) p ∧ cleanup_queue_ w' = cleanup_queue_ w ++ [p])).
Proof.
  intros Hs Hf Hl. unfold drop_packet. apply runs_get. destruct (referenced p w) eqn:E.
  - apply runs_ret. split_and!; [apply cleaned_refl|done|]. left. split; [|done]. by apply referenced_spec.
  - eapply runs_mono; [by apply SchedulePacketCleanup_runs|]. cbn beta. intros _ w' (H1 & H2 & H3). split_and!; [done..|].
    right. split; [|done]. rewrite <-referenced_spec by done. by rewrite E.
Qed.

Lemma done_list_cleaned w w' k : cleaned w w' → cleanup_queue_ w' = cleanup_queue_ w ++ k → done_list w' = done_list w ++ k.
Proof. intros (q & b & ps & fl & ->) Eq. unfold done_list. cbn in *. by rewrite Eq, !app_assoc. Qed.

(** A queue that was taken from a link is released. *)
Lemma ReleaseQueue_runs l q w :
  fronts w → linked_fronts w → scheduled w → held w l = [] →
  ordered (upd (held w) l q) (track_of w) (drops (todo w)) (received w) (done_list w) →
  runs (ReleaseQueue q) w (λ _ w', cleaned w w' ∧ scheduled w' ∧ returns_in_order w').
Proof.
  revert w. induction q as [|p q IH]; intros w Hf Hlf Hs Hl Hord; cbn [ReleaseQueue].
  - apply runs_ret. split_and!; [apply cleaned_refl|done|]. eapply ordered_ext; [exact Hord| |by left].
    intros l'. unfold upd. by destruct (decide (l' = l)) as [->|].
  - apply runs_mod. set (w1 := add_flushed p w).
    eapply runs_bind; [by apply (drop_packet_runs p w1)|]. cbn beta. intros _ w2 (Hc & Hs2 & Hcase).
    assert (∀ l', held w2 l' = held w l') as Eh by (intros l'; destruct Hc as (? & ? & ? & ? & ->); done).
    eapply runs_mono; [apply (IH w2)|cbn beta].
    1-3: destruct Hc as (? & ? & ? & ? & ->); done.
    { by rewrite Eh. }
    2: { intros _ w3 (Hc3 & Hs3 & Ho3). split_and!; try done. eapply cleaned_trans; [|exact Hc3].
         eapply cleaned_trans; [|exact Hc]. exists (cleanup_queue_ w), (cleanup_scheduled_ w), (posted w), (p :: flushed w). done. }
    assert (refd (upd (upd (held w) l (p :: q)) l q) (drops (todo w)) p ↔ refd (held w1) (drops (todo w1)) p) as Hiff.
    { assert (NoDup (p :: q)) as [Hpq _]%NoDup_cons.
      { pose proof (ord_suffix _ _ _ _ _ Hord l) as [pre E]. unfold upd in E. rewrite decide_True in E by done.
        pose proof (NoDup_of_track (track_of w l) _ (ord_fresh _ _ _ _ _ Hord)) as Hnd. rewrite E in Hnd.
        by apply NoDup_app in Hnd as (_ & _ & ?). }
      unfold refd. split; (intros [[l' Hl']|]; [left; exists l'|by right]).
      - unfold upd in Hl'. destruct (decide (l' = l)) as [->|]; done.
      - unfold upd. change (held w1 l') with (held w l') in Hl'. destruct (decide (l' = l)) as [->|]; [|done].
        rewrite Hl in Hl'. by apply elem_of_nil in Hl'. }
    destruct (pop_ordered Hord l p q (drops (todo w))) as [Hkeep Hlast]; [unfold upd; by rewrite decide_True|done|].
    assert (∀ k, ordered (upd (upd (held w) l (p :: q)) l q) (track_of w) (drops (todo w)) (received w) (done_list w ++ k) →
      cleanup_queue_ w2 = cleanup_queue_ w1 ++ k →
      ordered (upd (held w2) l q) (track_of w2) (drops (todo w2)) (received w2) (done_list w2)) as Hgo.
    { intros k Ho Ek. assert (done_list w2 = done_list w ++ k) as -> by (by apply (done_list_cleaned w1)).
      assert (drops (todo w2) = drops (todo w) ∧ received w2 = received w ∧ ∀ l', track_of w2 l' = track_of w l') as (-> & -> & ET)
        by (destruct Hc as (? & ? & ? & ? & ->); done).
      eapply ordered_ext; [exact Ho| |intros l'; left; apply ET]. intros l'. unfold upd. by destruct (decide _). }
    destruct Hcase as [[Hr Eq]|[Hr Eq]].
    + apply (Hgo []); [rewrite app_nil_r; by apply Hkeep, Hiff|by rewrite app_nil_r].
    + apply (Hgo [p]); [|done]. apply Hlast. by rewrite Hiff.
Qed.

(** ** Letting go of links *)

(** Links that nothing holds lose their packets. *)
Definition emptied w w' : Prop := ∃ ls q b ps fl,
  w' = mk_world (tracks w) (outputs w) ls (next_link w) (managed w) (thread_pool_ w) (tracks_ w) (server_down w) q b ps
    (todo w) (received w) fl (returned w) (replied w) ∧
  (∀ l, next_link w ≤ l → links w !! l = None → ls !! l = None) ∧
  ∀ l, track_ (lk w' l) = track_ (lk w l) ∧ output_ (lk w' l) = output_ (lk w l) ∧
    (pending_queue_ (lk w' l) = pending_queue_ (lk w l) ∨ pending_queue_ (lk w' l) = [] ∧ link_held l w = false).
Lemma emptied_refl w : emptied w w.
Proof. exists (links w), (cleanup_queue_ w), (cleanup_scheduled_ w), (posted w), (flushed w). split; [by destruct w|]. split; [done|]. intros l. by split_and!; [| |left]. Qed.
Lemma emptied_held w w' l : emptied w w' → link_held l w' = link_held l w.
Proof.
  intros (ls & q & b & ps & fl & E & _ & H). destruct (H l) as (Et & Eo & _). unfold link_held. rewrite Et, Eo. by subst w'.
Qed.
Lemma emptied_trans w w' w'' : emptied w w' → emptied w' w'' → emptied w w''.
Proof.
  intros H1 H2. pose proof (λ l, emptied_held _ _ l H1) as Eh.
  destruct H1 as (ls & q & b & ps & fl & E & Hf & Hl), H2 as (ls' & q' & b' & ps' & fl' & E' & Hf' & Hl').
  exists ls', q', b', ps', fl'. subst w'. split; [exact E'|]. split; [by auto|]. intros l.
  destruct (Hl l) as (H1 & H2 & H3), (Hl' l) as (H4 & H5 & H6). split_and!; [congruence..|].
  destruct H6 as [->|[-> H6]]; [done|]. right. split; [done|]. by rewrite <-Eh.
Qed.
Lemma cleaned_emptied w w' : cleaned w w' → emptied w w'.
Proof. intros (q & b & ps & fl & ->). eexists _, _, _, _, _. split; [done|]. split; [done|]. intros l. by split_and!; [| |left]. Qed.

Lemma lk_upd_link l l' f w : lk (upd_link l f w) l' = if decide (l' = l) then f (lk w l) else lk w l'.
Proof.
  unfold lk, upd_link. cbn [set_links links]. destruct (decide (l' = l)) as [->|]; [by rewrite lookup_insert_eq|].
  by rewrite lookup_insert_ne.
Qed.

Lemma emptied_fronts w w' : emptied w w' → fronts w → fronts w'.
Proof.
  intros Hem Hf o l p Hp. pose proof (emptied_held _ _ l Hem) as Hh. destruct Hem as (ls & q & b & ps & fl & E & _ & Hl).
  assert (out w' o = out w o) as Eo by (by subst w'). rewrite Eo in *. destruct (Hf o l p Hp) as (H1 & H2 & H3).
  destruct (Hl l) as (_ & E2 & [->|[_ Hno]]); [by rewrite E2|].
  exfalso. unfold link_held in Hno. rewrite H2, (bool_decide_eq_true_2 (l ∈ links_ _)) in Hno by done. by rewrite orb_true_r in Hno.
Qed.

Lemma drop_link_runs l w :
  fronts w → linked_fronts w → scheduled w → returns_in_order w → pushes l (todo w) = [] → l < next_link w →
  runs (drop_link l) w (λ _ w', emptied w w' ∧ scheduled w' ∧ returns_in_order w' ∧
    (link_held l w = false → pending_queue_ (lk w' l) = [])).
Proof.
  intros Hf Hlf Hs Hord Hp Hl. unfold drop_link. apply runs_get. destruct (link_held l w) eqn:Eh.
  - apply runs_ret. by split_and!; [apply emptied_refl| | |].
  - apply runs_mod. set (w1 := upd_link l (set_queue []) w).
    assert (emptied w w1) as He.
    { eexists _, (cleanup_queue_ w), (cleanup_scheduled_ w), (posted w), (flushed w). split; [done|]. split.
      - intros l' Hl' E. cbn. rewrite lookup_insert_ne by lia. done.
      - intros l'. unfold w1. rewrite lk_upd_link. destruct (decide (l' = l)) as [->|]; split_and!; auto. }
    pose proof (emptied_fronts _ _ He Hf) as Hf1.
    assert (∀ l', held w1 l' = if decide (l' = l) then [] else held w l') as Eheld.
    { intros l'. unfold held, w1. rewrite lk_upd_link. destruct (decide (l' = l)) as [->|]; [|done]. exact Hp. }
    eapply runs_mono; [apply (ReleaseQueue_runs l _ w1)|cbn beta]; try done.
    + by rewrite Eheld, decide_True.
    + eapply ordered_ext; [exact Hord| |].
      * intros l'. unfold upd. rewrite Eheld. destruct (decide (l' = l)) as [->|]; [|done].
        unfold held. by rewrite Hp, app_nil_r.
      * intros l'. left. unfold track_of, w1. rewrite lk_upd_link. by destruct (decide (l' = l)) as [->|].
    + intros _ w' (Hc & Hs' & Ho'). split_and!; try done.
      * eapply emptied_trans; [exact He|by apply cleaned_emptied].
      * intros _. destruct Hc as (? & ? & ? & ? & ->). change (lk _ l) with (lk w1 l). unfold w1. by rewrite lk_upd_link, decide_True.
Qed.

Lemma drop_links_runs ls w :
  fronts w → linked_fronts w → scheduled w → returns_in_order w → (∀ l, l ∈ ls → pushes l (todo w) = [] ∧ l < next_link w) →
  runs (drop_links ls) w (λ _ w', emptied w w' ∧ scheduled w' ∧ returns_in_order w' ∧
    ∀ l, l ∈ ls → link_held l w = false → pending_queue_ (lk w' l) = []).
Proof.
  revert w. induction ls as [|l ls IH]; intros w Hf Hlf Hs Hord Hls; cbn [drop_links].
  - apply runs_ret. split_and!; [apply emptied_refl|done..|]. by intros l ?%elem_of_nil.
  - destruct (Hls l) as [Hp Hl]; [by left|]. eapply runs_bind; [by apply drop_link_runs|]. cbn beta.
    intros _ w1 (He & Hs1 & Ho1 & Hq1).
    eapply runs_mono; [apply (IH w1)|cbn beta]; try done.
    + by eapply emptied_fronts.
    + destruct He as (? & ? & ? & ? & ? & -> & _). done.
    + intros l' Hl'. destruct (Hls l') as [? ?]; [by right|]. destruct He as (? & ? & ? & ? & ? & -> & _). done.
    + intros _ w2 (He2 & Hs2 & Ho2 & Hq2). split_and!; [by eapply emptied_trans|done|done|].
      intros l' Hl' Hh. pose proof (emptied_held _ _ l' He) as Eh. apply elem_of_cons in Hl' as [->|Hl'].
      * destruct He2 as (? & ? & ? & ? & ? & _ & _ & Hall). destruct (Hall l) as (_ & _ & [->|[-> _]]); [by apply Hq1|done].
      * apply Hq2; [done|]. by rewrite Eh.
Qed.

Lemma tr_upd_track t t' f w : tr (upd_track t f w) t' = if decide (t' = t) then f (tr w t) else tr w t'.
Proof.
  unfold tr, upd_track. cbn [set_tracks tracks]. destruct (decide (t' = t)) as [->|]; [by rewrite lookup_insert_eq|].
  by rewrite lookup_insert_ne.
Qed.
Lemma out_upd_output o o' f w : out (upd_output o f w) o' = if decide (o' = o) then f (out w o) else out w o'.
Proof.
  unfold out, upd_output. cbn [set_outputs outputs]. destruct (decide (o' = o)) as [->|]; [by rewrite lookup_insert_eq|].
  by rewrite lookup_insert_ne.
Qed.

(** What is kept when links lose their packets. *)
Lemma emptied_objects w w' : emptied w w' → objects w → objects w'.
Proof.
  intros Hem Ho. pose proof (emptied_fronts _ _ Hem (objects_fronts _ Ho)) as Hf.
  destruct Hem as (ls & q & b & ps & fl & E & Hfresh & Hl).
  assert (∀ o, out w' o = out w o) as Eo by (by subst w').
  assert (∀ t, tr w' t = tr w t) as Et by (by subst w').
  assert (tracks w' = tracks w ∧ next_link w' = next_link w ∧ managed w' = managed w ∧ thread_pool_ w' = thread_pool_ w ∧
    tracks_ w' = tracks_ w ∧ server_down w' = server_down w) as (E1 & E2 & E3 & E4 & E5 & E6) by (by subst w').
  assert (links w' = ls) as El by (by subst w').
  assert (∀ l, track_ (lk w' l) = track_ (lk w l)) as Etrack by apply Hl.
  assert (∀ l, output_ (lk w' l) = output_ (lk w l)) as Eoutput by apply Hl.
  destruct Ho. split; intros *; unfold track_of; rewrite ?Eo, ?Et, ?E1, ?E2, ?E3, ?E4, ?E5, ?E6, ?Etrack, ?Eoutput; eauto.
  - rewrite El. eauto.
  - intros Hp. rewrite <-(Eo o) in Hp. by destruct (Hf o l p Hp) as (_ & _ & ?).
Qed.
Lemma emptied_both w w' : emptied w w' → both_sides w → both_sides w'.
Proof.
  intros (ls & q & b & ps & fl & E & _ & Hl) Hb o l. unfold track_of. destruct (Hl l) as (-> & _).
  subst w'. apply (Hb o l).
Qed.
Lemma emptied_free w w' : emptied w w' → free_empty w → free_empty w'.
Proof.
  intros Hem Hfr l. rewrite (emptied_held _ _ l Hem). destruct Hem as (ls & q & b & ps & fl & E & _ & Hl).
  intros Hh. destruct (Hl l) as (_ & _ & [->|[-> _]]); [by apply Hfr|done].
Qed.
Lemma emptied_plan w w' o ms : emptied w w' → plan w o ms → plan w' o ms.
Proof.
  intros (ls & q & b & ps & fl & E & _ & Hl) [|Hd|us Hd Hp Hnd Hus|Hd]; subst w'; [constructor|by constructor| |by constructor].
  apply plan_unlink; try done. intros l Hin. unfold track_of. destruct (Hl l) as (-> & _). by apply Hus.
Qed.

(** The parts of the invariant that concern what waits. *)
Lemma returns_todo w ms :
  returns ms = returns (todo w) → drops ms = drops (todo w) → (∀ l, pushes l ms = pushes l (todo w)) →
  returns_in_order w → returns_in_order (set_todo ms w).
Proof.
  intros E1 E2 E3 Ho. unfold returns_in_order. unfold done_list. cbn [todo set_todo returned cleanup_queue_ received]. rewrite E1, E2.
  eapply ordered_ext; [exact Ho| |by left]. intros l. unfold held. cbn [todo set_todo]. by rewrite E3.
Qed.

(** ** Clients *)

Lemma CreateTrack_inv t w :
  inv w → todo w = [] → server_down w = false → tracks w !! t = None → runs (CreateTrack t) w (λ _ w', inv w').
Proof.
  intros [[Ho Hfr Hb Hor Hs] Hsh] Etodo Ed Ht. unfold CreateTrack. apply runs_mod, runs_mod_last.
  set (w' := set_tracks_ _ _). assert (tr w t = no_track) as Etr by (unfold tr; by rewrite Ht).
  assert (t ∉ tracks_ w) as Hnt by (rewrite (ob_bound w Ho), Etr; done).
  assert (∀ t', tr w' t' = if decide (t' = t) then mk_track true false false None [] else tr w t') as Etr'.
  { intros t'. change (tr w' t') with (tr (upd_track t (λ _, mk_track true false false None []) w) t'). by rewrite tr_upd_track. }
  assert (∀ o l, l ∈ links_ (out w o) → track_of w l ≠ t) as Hk.
  { intros o l Hl E. destruct (ob_known w Ho o l Hl) as [x Hx]. by rewrite E, Ht in Hx. }
  split; [split|].
  - destruct Ho. split; try done; intros *; rewrite ?Etr'; try (destruct (decide _) as [->|]); cbn; eauto.
    + by intros ?%elem_of_nil.
    + intros Hl. change (track_of w' l) with (track_of w l). rewrite lookup_insert_ne by (pose proof (Hk o l Hl); congruence). eauto.
    + constructor.
    + apply NoDup_app. split_and!; [done| |by apply NoDup_singleton]. intros x Hx ->%list_elem_of_singleton. done.
    + split; [done|]. intros _. apply elem_of_app. right. by left.
    + rewrite elem_of_app, list_elem_of_singleton, ob_bound0. split; [by intros [|]|by left].
  - intros l. unfold link_held. rewrite Etr'. change (out w' (output_ (lk w' l))) with (out w (output_ (lk w l))).
    change (lk w' l) with (lk w l). intros Hh. apply Hfr. unfold link_held. destruct (decide (track_ (lk w l) = t)) as [->|]; [|done].
    by rewrite Etr.
  - intros o l Hl. change (track_of w' l) with (track_of w l). rewrite Etr', decide_False by (by eapply Hk). apply (Hb o l Hl).
  - exact Hor.
  - exact Hs.
  - change (todo w') with (todo w). rewrite Etodo. by constructor.
Qed.

(** A step that changes what a track knows of itself. *)
Lemma track_state_inv t (f : track → track) w :
  inv w → todo w = [] → server_down w = false → bound (tr w t) = true →
  (∀ x, bound (f x) = bound x) → (∀ x, outputs_ (f x) = outputs_ x) → inv (upd_track t f w).
Proof.
  intros [[Ho Hfr Hb Hor Hs] Hsh] Etodo Ed Ht Hfb Hfo. set (w' := upd_track t f w).
  assert (∀ t', bound (tr w' t') = bound (tr w t')) as Eb.
  { intros t'. unfold w'. rewrite tr_upd_track. destruct (decide _) as [->|]; auto. }
  assert (∀ t', outputs_ (tr w' t') = outputs_ (tr w t')) as Eo.
  { intros t'. unfold w'. rewrite tr_upd_track. destruct (decide _) as [->|]; auto. }
  split; [split; try done|].
  - destruct Ho. split; try done; intros *; rewrite ?Eb, ?Eo; eauto.
    + intros Hl. cbn. change (track_of w' l) with (track_of w l). destruct (ob_known0 o l Hl) as [x Hx].
      destruct (decide (track_of w l = t)) as [->|]; [rewrite lookup_insert_eq|rewrite lookup_insert_ne by done]; eauto.
    + unfold w'. rewrite tr_upd_track. destruct (decide _) as [->|]; [by rewrite Ht|]. by apply ob_unbound0.
  - intros l. unfold link_held. rewrite Eo. apply (Hfr l).
  - intros o l Hl. rewrite Eb, Eo. apply (Hb o l Hl).
  - change (todo w') with (todo w). rewrite Etodo. by constructor.
Qed.

Lemma elem_of_remove_one l l' ls : l' ∈ remove_one l ls ↔ l' ∈ ls ∧ l' ≠ l.
Proof. unfold remove_one. rewrite list_elem_of_filter. naive_solver. Qed.
Lemma NoDup_remove_one l ls : NoDup ls → NoDup (remove_one l ls).
Proof. apply NoDup_filter. Qed.

(** What the steps of a handler on tracks leave alone. *)
Definition same_outputs w w' : Prop :=
  outputs w' = outputs w ∧ todo w' = todo w ∧ managed w' = managed w ∧ thread_pool_ w' = thread_pool_ w ∧ server_down w' = server_down w ∧
  received w' = received w.

Lemma Track_Shutdown_runs t w :
  base w → (∀ l, pushes l (todo w) = []) → bound (tr w t) = true →
  runs (Track_Shutdown t) w (λ _ w', base w' ∧ same_outputs w w' ∧ tracks_ w' = remove_one t (tracks_ w)).
Proof.
  intros [Ho Hfr Hb Hor Hs] Hp Ht. unfold Track_Shutdown. apply runs_get. rewrite Ht. cbn [negb]. apply runs_mod.
  set (f := λ x : track, mk_track false false false (config_ x) []). set (w1 := upd_track t f w).
  assert (∀ t', tr w1 t' = if decide (t' = t) then f (tr w t) else tr w t') as Etr by (intros; apply tr_upd_track).
  assert (fronts w1 ∧ linked_fronts w1) as [Hf Hlf] by (split; [exact (objects_fronts _ Ho)|exact (ob_linked _ Ho)]).
  eapply runs_bind; [apply drop_links_runs; [done..| |]|cbn beta].
  { exact Hor. }
  { intros l Hl. split; [apply Hp|]. by apply (ob_outs w Ho t). }
  intros _ w2 (He & Hs2 & Ho2 & Hq). unfold RemoveTrack. apply runs_get, runs_dcheck.
  { apply bool_decide_eq_true_2. destruct He as (? & ? & ? & ? & ? & -> & _). by apply (ob_bound w Ho). }
  assert (tracks_ w2 = tracks_ w) as Etr2 by (destruct He as (? & ? & ? & ? & ? & -> & _); done). rewrite Etr2.
  set (v := remove_one t (tracks_ w)).
  assert (emptied (set_tracks_ v w1) (set_tracks_ v w2)) as He'.
  { destruct He as (ls & q & b & ps & fl & -> & H1 & H2). by exists ls, q, b, ps, fl. }
  assert (objects (set_tracks_ v w1)) as Ho1.
  { destruct Ho. split; try done; intros *; change (tr (set_tracks_ v w1)) with (tr w1); rewrite ?Etr;
      try (destruct (decide _) as [->|]); cbn; eauto.
    - by intros ?%elem_of_nil.
    - intros Hl. change (track_of (set_tracks_ v w1) l) with (track_of w l).
      destruct (decide (track_of w l = t)) as [->|]; [rewrite lookup_insert_eq|rewrite lookup_insert_ne by done]; eauto.
    - constructor.
    - by apply NoDup_remove_one.
    - unfold v. rewrite elem_of_remove_one. naive_solver.
    - unfold v. rewrite elem_of_remove_one, ob_bound0. naive_solver. }
  apply runs_mod_last. split; [|split; [|done]].
  2: { destruct He as (? & ? & ? & ? & ? & -> & _). done. }
  split.
  - by apply (emptied_objects _ _ He').
  - intros l Hl. change (lk (set_tracks_ v w2) l) with (lk w2 l). change (link_held l w2 = false) in Hl.
    rewrite (emptied_held _ _ l He) in Hl. destruct (decide (l ∈ outputs_ (tr w t))) as [Hin|Hin]; [by apply Hq|].
    assert (link_held l w = false) as Hold.
    { unfold link_held in *. rewrite Etr in Hl. destruct (decide _) as [E|]; [|exact Hl]. cbn in Hl.
      change (track_ (lk w l) = t) in E. rewrite E. rewrite (bool_decide_eq_false_2 _ Hin). exact Hl. }
    destruct He as (? & ? & ? & ? & ? & _ & _ & Hall). destruct (Hall l) as (_ & _ & [->|[-> _]]); [by apply Hfr|done].
  - apply (emptied_both _ _ He'). intros o l Hl. change (track_of (set_tracks_ v w1) l) with (track_of w l).
    change (tr (set_tracks_ v w1)) with (tr w1). rewrite Etr. destruct (decide _); [done|]. apply (Hb o l Hl).
  - exact Ho2.
  - exact Hs2.
Qed.

(** ** Configuration *)

Section Config.
Local Open Scope Z_scope.

(** The audio types that tracks support. *)
Definition supported (cfg : AudioMediaTypeDetails) : Prop :=
  (d_sample_format cfg = UNSIGNED_8 ∨ d_sample_format cfg = SIGNED_16) ∧ 1 ≤ d_channels cfg ≤ 2 ∧
  1000 ≤ d_frames_per_second cfg ≤ 48000.
Lemma compatible_supported cfg : existsb (compatible cfg) kSupportedAudioTypeSets = true ↔ supported cfg.
Proof.
  unfold supported, compatible. cbn [existsb kSupportedAudioTypeSets min_channels max_channels min_frames_per_second
    max_frames_per_second sd_sample_format].
  rewrite orb_false_r, orb_true_iff, !andb_true_iff, !bool_decide_eq_true, !Z.leb_le. intuition lia.
Qed.
Definition requests (c : AudioTrackConfiguration) (cfg : AudioMediaTypeDetails) : Prop :=
  mt_details (media_type c) = details_audio cfg ∧ mt_medium (media_type c) = AUDIO ∧
  mt_encoding (media_type c) = kAudioEncodingLpcm ∧ supported cfg ∧ 0 < audio_frame_ratio c ∧ 0 < media_time_ratio c.

(** The ratio of fractional frames to media time, in lowest terms, and when it can be kept. *)
Definition frac_gcd (c : AudioTrackConfiguration) : Z := Z.gcd (2 ^ 12 * audio_frame_ratio c) (media_time_ratio c).
Definition frac_ratio (c : AudioTrackConfiguration) : ratio :=
  mk_ratio (2 ^ 12 * audio_frame_ratio c / frac_gcd c) (media_time_ratio c / frac_gcd c).
Definition ratio_fits (c : AudioTrackConfiguration) : Prop := numerator (frac_ratio c) < 2 ^ 31.

(** What a track keeps of a configuration that it accepts. *)
Definition accepts (c : AudioTrackConfiguration) (k : configured) : Prop :=
  requests c (format_ k) ∧ ratio_fits c ∧ frame_to_media_ratio_ k = frac_ratio c ∧
  bytes_per_frame_ k = (if decide (d_sample_format (format_ k) = UNSIGNED_8) then 1 else 2) * d_channels (format_ k).

Lemma clzl_lossy n d : 0 < n < 2 ^ 44 → 0 < d < 2 ^ 32 →
  (clzl (Z.lor (u64 (Z.shiftl n 1)) d) <? 32) = (2 ^ 31 <=? n).
Proof.
  intros Hn Hd. rewrite Z.shiftl_mul_pow2 by lia. change (2 ^ 1) with 2. rewrite uwrap_small by (unfold is_u; lia).
  unfold clzl. rewrite Z.log2_lor by lia. pose proof (Z.log2_lt_pow2 d 32 ltac:(lia)).
  pose proof (Z.log2_lt_pow2 (n * 2) 32 ltac:(lia)).
  destruct (Z.leb_spec (2 ^ 31) n); [apply Z.ltb_lt|apply Z.ltb_ge]; lia.
Qed.

Lemma check_ratio c :
  is_u 32 (audio_frame_ratio c) → is_u 32 (media_time_ratio c) → 0 < audio_frame_ratio c → 0 < media_time_ratio c →
  ∃ fs r, ratio_new (audio_frame_ratio c) (media_time_ratio c) = Ok fs ∧
    ratio_compose (mk_ratio (2 ^ 12) 1) fs = Ok (negb (2 ^ 31 <=? numerator (frac_ratio c)), r) ∧
    (ratio_fits c → r = frac_ratio c).
Proof.
  intros Hn Hd Hn0 Hd0. destruct (ratio_new_spec _ _ Hn Hd ltac:(lia)) as (fs & Efs & (Hfn & Hfd & Hfd0 & Hg) & Heq).
  unfold is_u in *. exists fs. destruct fs as [nb db]. cbn [numerator denominator] in *.
  assert (0 < nb) by nia. set (G := Z.gcd (2 ^ 12 * nb) db). assert (0 < G) by (pose proof (Z.gcd_nonneg (2 ^ 12 * nb) db); pose proof (Z.gcd_eq_0_r (2 ^ 12 * nb) db); lia).
  assert (frac_ratio c = mk_ratio (2 ^ 12 * nb / G) (db / G)) as Er.
  { unfold frac_ratio, frac_gcd. assert (∃ g, 0 < g ∧ audio_frame_ratio c = g * nb ∧ media_time_ratio c = g * db) as (g & Hgp & -> & ->).
    { assert (db | media_time_ratio c) as [g Eg].
      { apply (Z.gauss db nb); [|by rewrite Z.gcd_comm]. exists (audio_frame_ratio c). lia. }
      exists g. split_and!; nia. }
    replace (2 ^ 12 * (g * nb)) with (g * (2 ^ 12 * nb)) by ring.
    rewrite Z.gcd_mul_mono_l_nonneg by lia. fold G. f_equal; rewrite Z.div_mul_cancel_l by lia; done. }
  unfold ratio_compose. cbn [numerator denominator]. rewrite !(uwrap_small 64) by (unfold is_u; nia). rewrite Z.mul_1_l.
  rewrite (proj2 (Z.eqb_neq (2 ^ 12 * nb) 0)), (proj2 (Z.eqb_neq db 0)) by lia. cbn [orb].
  rewrite reduce_internal_gcd by (done || unfold is_u; nia). fold G. cbn [mbind outcome_bind].
  assert (G <= db) by (apply Z.divide_pos_le; [lia|apply Z.gcd_divide_r]).
  assert (G <= 2 ^ 12 * nb) by (apply Z.divide_pos_le; [lia|apply Z.gcd_divide_l]).
  assert (0 < 2 ^ 12 * nb / G < 2 ^ 44) by (split; [apply Z.div_str_pos; lia|apply Z.div_lt_upper_bound; nia]).
  assert (0 < db / G < 2 ^ 32) by (split; [apply Z.div_str_pos; lia|apply Z.div_lt_upper_bound; nia]).
  rewrite clzl_lossy by lia. unfold ratio_fits. rewrite Er. cbn [numerator]. eexists. split; [done|]. split; [done|].
  intros Hfit. rewrite (proj2 (Z.leb_gt _ _) Hfit). rewrite !uwrap_small by (unfold is_u; lia). done.
Qed.

(** [Configure] accepts exactly the supported types whose ratio, scaled to fractions of a
    frame, can be kept, and keeps it in lowest terms. *)
Lemma check_configuration_runs c :
  is_u 32 (audio_frame_ratio c) → is_u 32 (media_time_ratio c) →
  ∃ r, check_configuration c = Ok r ∧
    ∀ k, r = Some k ↔ accepts c k.
Proof.
  intros Hn Hd. unfold check_configuration, accepts, requests.
  assert (∀ P : configured → Prop, (∀ k, ¬ P k) → ∀ k, None = Some k ↔ P k) as Hno by (intros P HP k; split; [done|intros Hk; by destruct (HP k)]).
  destruct (mt_details (media_type c)) as [cfg| | |];
    [|exists None; split; [done|apply Hno; intros k ((? & _) & _); done]..].
  destruct (bool_decide_reflect (mt_medium (media_type c) = AUDIO)) as [Hm|Hm];
    [|exists None; split; [done|apply Hno; intros k ((_ & ? & _) & _); done]].
  destruct (bool_decide_reflect (mt_encoding (media_type c) = kAudioEncodingLpcm)) as [He|He];
    [|exists None; split; [done|apply Hno; intros k ((_ & _ & ? & _) & _); done]]. cbn [negb orb].
  destruct (existsb (compatible cfg) kSupportedAudioTypeSets) eqn:Es;
    [apply compatible_supported in Es|exists None; split; [done|]]; cbn [negb].
  2: { apply Hno. intros k ((E & _ & _ & Hs & _) & _). injection E as ->. apply compatible_supported in Hs. congruence. }
  rewrite !(uwrap_small 32) by done. unfold is_u in Hn, Hd.
  destruct (Z.ltb_spec (audio_frame_ratio c) 1) as [H1|H1];
    [exists None; split; [done|apply Hno; intros k ((_ & _ & _ & _ & ? & _) & _); lia]|].
  destruct (Z.ltb_spec (media_time_ratio c) 1) as [H2|H2];
    [exists None; split; [done|apply Hno; intros k ((_ & _ & _ & _ & _ & ?) & _); lia]|]. cbn [orb].
  destruct (check_ratio c Hn Hd ltac:(lia) ltac:(lia)) as (fs & r & Efs & Ec & Hr).
  change (ratio_new (Z.shiftl 1 PTS_FRACTIONAL_BITS) 1) with (Ok (mk_ratio (2 ^ 12) 1)). rewrite Efs. cbn [mbind outcome_bind].
  rewrite Ec. cbn [mbind outcome_bind]. unfold ratio_fits in *. destruct (Z.leb_spec (2 ^ 31) (numerator (frac_ratio c))) as [Hl|Hl]; cbn [negb].
  { exists None. split; [done|]. apply Hno. intros k (_ & ? & _). lia. }
  destruct Es as (Hf & Hc & Hr').
  set (n := (if decide (d_sample_format cfg = UNSIGNED_8) then 1 else 2) * d_channels cfg).
  assert (u32 n = n) as En by (apply uwrap_small; unfold is_u, n; destruct (decide _); lia).
  exists (Some (mk_configured cfg r (u32 n))). split.
  { unfold n. destruct Hf as [-> | ->]; reflexivity. }
  rewrite En. intros [f r' b]. cbn [format_ frame_to_media_ratio_ bytes_per_frame_]. split.
  - intros [= <- <- <-]. split_and!; try done; try lia. by apply Hr.
  - intros ((E & _) & _ & -> & ->). injection E as <-. by rewrite Hr.
Qed.
End Config.

Lemma push_todo ms w : push ms w = Ok (tt, set_todo (ms ++ todo w) w).
Proof. done. Qed.

(** Planning steps that neither move nor return packets. *)
Lemma plan_base ms w :
  base w → returns ms = [] → drops ms = [] → (∀ l, pushes l ms = []) →
  returns (todo w) = [] → drops (todo w) = [] → (∀ l, pushes l (todo w) = []) →
  (∀ o, MClear o ∈ todo w → MClear o ∈ ms) → base (set_todo ms w).
Proof.
  intros [H1 H2 H3 H4 H5] E1 E2 E3 F1 F2 F3 Hc. split; try done.
  - destruct H1. by split.
  - intros o l Hl Hb. destruct (H3 o l Hl Hb) as [|Hin]; [by left|]. right. by apply Hc.
  - apply returns_todo; [by rewrite F1|by rewrite F2|intros l; by rewrite E3, F3|done].
Qed.

(** [Shutdown] of a track in a handler of its client. *)
Lemma Track_Shutdown_inv t w :
  inv w → todo w = [] → server_down w = false → bound (tr w t) = true → runs (Track_Shutdown t) w (λ _ w', inv w').
Proof.
  intros [Hb Hsh] Et Ed Ht. eapply runs_mono; [apply Track_Shutdown_runs; [done|by rewrite Et|done]|]. cbn beta.
  intros _ w' (Hb' & (_ & Et' & _ & _ & Ed' & _) & _). split; [done|]. rewrite Et', Et. constructor. by rewrite Ed'.
Qed.

Lemma omap_map_nil {A B C} (f : A → B) (g : B → option C) (xs : list A) : (∀ x, g (f x) = None) → omap g (map f xs) = [].
Proof. intros Hg. induction xs as [|x xs IH]; cbn; [done|]. by rewrite Hg. Qed.
Lemma pushes_map_nil {A} (f : A → micro) l xs :
  (∀ x, match f x with MPush _ _ => False | _ => True end) → pushes l (map f xs) = [].
Proof. intros Hf. apply omap_map_nil. intros x. specialize (Hf x). by destruct (f x). Qed.
Lemma drops_map_nil {A} (f : A → micro) xs : (∀ x, match f x with MDrop _ => False | _ => True end) → drops (map f xs) = [].
Proof. intros Hf. apply omap_map_nil. intros x. specialize (Hf x). by destruct (f x). Qed.
Lemma returns_map_nil {A} (f : A → micro) xs : (∀ x, match f x with MReturn _ => False | _ => True end) → returns (map f xs) = [].
Proof. intros Hf. apply omap_map_nil. intros x. specialize (Hf x). by destruct (f x). Qed.

Lemma Configure_inv t c f w :
  inv w → todo w = [] → server_down w = false → bound (tr w t) = true →
  is_u 32 (audio_frame_ratio c) → is_u 32 (media_time_ratio c) →
  runs (Configure t c f) w (λ _ w', inv w').
Proof.
  intros Hinv Et Ed Ht Hn Hd. unfold Configure. apply runs_get. destruct (pipe_ (tr w t)); [by apply Track_Shutdown_inv|].
  destruct (check_configuration_runs c Hn Hd) as (r & Er & _). eapply runs_step; [unfold liftO; by rewrite Er|].
  destruct r as [k|]; [|by apply Track_Shutdown_inv]. apply runs_mod.
  set (g := λ x : track, _). set (w1 := upd_track t g w).
  assert (inv w1) as [Hb1 _] by (by apply track_state_inv).
  unfold SelectOutputsForTrack. apply runs_get, runs_mod_last. change (todo w1) with (todo w). rewrite Et, app_nil_r. split.
  - apply plan_base; try done; cbn; rewrite ?Et; try done.
    + by apply returns_map_nil.
    + by apply drops_map_nil.
    + intros l. by apply pushes_map_nil.
    + by intros o ?%elem_of_nil.
  - cbn [todo set_todo]. apply sh_link; [done| |done]. change (tr (set_todo _ w1) t) with (tr w1 t). unfold w1.
    by rewrite tr_upd_track, decide_True.
Qed.

Lemma pushes_packet l p ls ms : NoDup ls → pushes l ms = [] →
  pushes l (map (λ l, MPush l p) ls ++ ms) = if bool_decide (l ∈ ls) then [p] else [].
Proof.
  intros Hnd Hms. rewrite pushes_app, Hms, app_nil_r. induction ls as [|l' ls IH]; [done|].
  apply NoDup_cons in Hnd as [Hl' Hnd]. cbn. destruct (decide (l' = l)) as [->|Hne].
  - rewrite (bool_decide_eq_true_2 (l ∈ l :: ls)) by (by left). f_equal. specialize (IH Hnd). unfold pushes in IH. rewrite IH.
    by rewrite bool_decide_eq_false_2.
  - specialize (IH Hnd). unfold pushes in IH. rewrite IH.
    assert (bool_decide (l ∈ l' :: ls) = bool_decide (l ∈ ls)) as -> by (apply bool_decide_ext; rewrite elem_of_cons; naive_solver). done.
Qed.

Lemma OnPacketReceived_inv t p w :
  inv w → todo w = [] → server_down w = false → bound (tr w t) = true → p ∉ (received w).*2 →
  runs (OnPacketReceived t p) w (λ _ w', inv w').
Proof.
  intros [[Ho Hfr Hb Hor Hs] Hsh] Et Ed Ht Hp. unfold OnPacketReceived. apply runs_get, runs_mod, runs_mod_last.
  cbn [todo add_received]. rewrite Et, app_nil_r. set (ls := outputs_ (tr w t)). set (w' := set_todo _ _).
  pose proof (ob_nodup_outs w Ho t) as Hnd.
  assert (∀ l, held w' l = if bool_decide (l ∈ ls) then held w l ++ [p] else held w l) as Eh.
  { intros l. unfold held. cbn [todo w' set_todo]. rewrite Et, pushes_packet by done.
    change (lk w' l) with (lk w l). case_bool_decide; [by rewrite <-app_assoc|done]. }
  split; [split|].
  - destruct Ho. by split.
  - exact Hfr.
  - intros o l Hl Hbd. destruct (Hb o l Hl Hbd) as [|Hin]; [by left|]. rewrite Et in Hin. by apply elem_of_nil in Hin.
  - unfold returns_in_order. cbn [todo w' set_todo]. unfold drops. rewrite omap_app, omap_map_nil by done.
    unfold done_list. cbn [todo w' set_todo returned cleanup_queue_ add_received received]. unfold returns. rewrite omap_app, omap_map_nil by done.
    cbn [omap list_omap app].
    assert ((returned w).*1 ++ cleanup_queue_ w = done_list w) as -> by (unfold done_list; by rewrite Et).
    eapply ordered_ext; [eapply (receive_ordered Hor t p ls)| |by left].
    + by rewrite Et.
    + done.
    + intros l Hl. by apply (ob_outs w Ho).
    + intros l El Hl. unfold held. rewrite Et. cbn. rewrite app_nil_r. apply Hfr. unfold link_held. change (track_ (lk w l) = t) in El.
      rewrite El, (bool_decide_eq_false_2 _ Hl). apply bool_decide_eq_false_2. intros Hin.
      destruct (Hb _ l Hin) as [Hx|Hx]; unfold track_of in *; rewrite ?El, ?Et in *; [done..|by apply elem_of_nil in Hx].
    + exact Eh.
  - exact Hs.
  - cbn [todo w' set_todo]. by apply (sh_packet _ t).
Qed.

Lemma OnFlushRequested_inv t c w :
  inv w → todo w = [] → server_down w = false → runs (OnFlushRequested t c) w (λ _ w', inv w').
Proof.
  intros [Hb Hsh] Et Ed. unfold OnFlushRequested. apply runs_get, runs_mod_last. rewrite Et, app_nil_r. split.
  - apply plan_base; rewrite ?Et; try done.
    + unfold returns. by rewrite omap_app, omap_map_nil.
    + unfold drops. by rewrite omap_app, omap_map_nil.
    + intros l. by rewrite pushes_app, pushes_map_nil.
    + by intros o ?%elem_of_nil.
  - by apply (sh_flush _ t).
Qed.

Lemma returns_of_returns ps : returns (map MReturn ps) = ps.
Proof. unfold returns. induction ps as [|p ps IH]; [done|]. cbn. by f_equal. Qed.

(** [DoPacketCleanup], when nothing else is to be done. *)
Lemma run_DoPacketCleanup_base w :
  objects w → free_empty w → both_sides w → returns_in_order w → todo w = [] →
  base (set_todo (map MReturn (cleanup_queue_ w)) (set_cleanup [] false w)).
Proof.
  intros Ho Hfr Hb Hor Et. split; try done.
  - destruct Ho. by split.
  - intros o l Hl Hbd. destruct (Hb o l Hl Hbd) as [|Hin]; [by left|]. rewrite Et in Hin. by apply elem_of_nil in Hin.
  - unfold returns_in_order. unfold done_list. cbn [todo set_todo set_cleanup returned cleanup_queue_ received].
    rewrite returns_of_returns, app_nil_r, drops_map_nil by done.
    assert ((returned w).*1 ++ cleanup_queue_ w = done_list w) as -> by (unfold done_list; by rewrite Et).
    assert (drops (todo w) = []) as Edr by (by rewrite Et). unfold returns_in_order in Hor. rewrite Edr in Hor.
    eapply ordered_ext; [exact Hor| |by left]. intros l. unfold held. cbn [todo set_todo]. rewrite pushes_map_nil by done. by rewrite Et.
Qed.

Lemma ShutdownOutput_inv o w :
  inv w → todo w = [] → server_down w = false → runs (ShutdownOutput o) w (λ _ w', inv w').
Proof.
  intros [Hb Hsh] Et Ed. unfold ShutdownOutput. apply runs_get, runs_dcheck; [by apply (ob_pool _ (inv_objects _ Hb))|].
  case_bool_decide; [|by apply runs_ret]. apply runs_mod_last. rewrite Et. split.
  - apply plan_base; rewrite ?Et; try done. by intros ? ?%elem_of_nil.
  - apply (sh_output _ o [MShutdown o]); [done|constructor].
Qed.

Lemma ERun_inv w : inv w → todo w = [] → server_down w = false → runs (handle ERun) w (λ _ w', inv w').
Proof.
  intros Hinv Et Ed. cbn [handle]. apply runs_get. destruct (posted w) as [|k rest] eqn:Ep; [by apply runs_ret|].
  apply runs_mod. set (w1 := set_posted rest w). destruct Hinv as [[Ho Hfr Hb Hor Hs] Hsh].
  assert (objects w1) as Ho1 by (destruct Ho; by split). destruct k as [|weak].
  - unfold run_DoPacketCleanup. apply runs_get, runs_mod, runs_mod_last. cbn [todo set_cleanup set_posted w1]. rewrite Et, app_nil_r. split.
    + by apply (run_DoPacketCleanup_base w1).
    + by apply sh_return.
  - assert (inv w1) as Hinv1.
    { split; [split; try done|change (todo w1) with (todo w); rewrite Et; by constructor].
      destruct Hs as [S1 S2]. split; [|done]. intros Hsch. cbn. specialize (S1 Hsch). rewrite Ep in S1.
      by apply elem_of_cons in S1 as [|]. }
    unfold run_FinishShutdownSelf. apply runs_get. destruct weak as [o|]; [|by apply runs_ret].
    destruct (_ || _); [by apply ShutdownOutput_inv|by apply runs_ret].
Qed.

Lemma Server_Shutdown_inv w : inv w → todo w = [] → server_down w = false → runs Server_Shutdown w (λ _ w', inv w').
Proof.
  intros [[Ho Hfr Hb Hor Hs] Hsh] Et Ed. unfold Server_Shutdown. apply runs_mod, runs_mod_last. cbn [todo set_server_down].
  rewrite Et, app_nil_r. split.
  - apply (plan_base _ (set_server_down w)); cbn [todo set_server_down]; rewrite ?Et; try done; [|by intros ? ?%elem_of_nil].
    split; try done. { destruct Ho; by split. } destruct Hs as [S1 S2]. split; [done|]. by intros.
  - apply sh_tracks; [done|]. by apply (ob_pool _ Ho).
Qed.

(** Every call of a client, and every closure, keeps the invariant. *)
Lemma event_inv e w : inv w → event_enabled e w → runs (handle e) w (λ _ w', inv w').
Proof.
  intros Hinv (Et & Ed & He). destruct e; cbn [handle].
  - by apply CreateTrack_inv.
  - destruct He as (? & ? & ?). by apply Configure_inv.
  - unfold GetRateControl, RateControl_Bind. eapply runs_step; [done|]. apply runs_ret. by apply track_state_inv.
  - apply runs_mod_last. by apply track_state_inv.
  - unfold SetGain. destruct at_least_max; [by apply Track_Shutdown_inv|by apply runs_ret].
  - by apply Track_Shutdown_inv.
  - destruct He as (? & ? & ?). by apply OnPacketReceived_inv.
  - by apply OnFlushRequested_inv.
  - by apply ERun_inv.
  - by apply Server_Shutdown_inv.
Qed.

(** ** Processing of outputs *)

(** What processing leaves to the main thread. *)
Record mixed w w' : Prop := {
  mx_tr t : tr w' t = tr w t;
  mx_track l : track_of w' l = track_of w l;
  mx_server : server_down w' = server_down w ∧ thread_pool_ w' = thread_pool_ w ∧ tracks_ w' = tracks_ w ∧ managed w' = managed w ∧
    todo w' = todo w;
  mx_down o : shutting_down_ (out w o) = true → shutting_down_ (out w' o) = true;
  mx_shut o : shut_down_ (out w o) = true → shut_down_ (out w' o) = true;
  mx_still o : shutting_down_ (out w o) = true → processing (out w o) = None →
    processing (out w' o) = None ∧ links_ (out w' o) = links_ (out w o);
  mx_quiet : managed w = [] → cleanup_queue_ w' = cleanup_queue_ w;
}.
Lemma mixed_plan w w' o ms : mixed w w' → plan w o ms → plan w' o ms.
Proof.
  intros M [|Hd|us Hd Hp Hnd Hus|Hd]; [constructor|constructor; by apply M| |constructor; by apply M].
  destruct (mx_still _ _ M o Hd Hp) as [Hp' El]. apply plan_unlink; [by apply M|done|done|].
  intros l Hl. rewrite El, (mx_track _ _ M), (mx_tr _ _ M). by apply Hus.
Qed.
Lemma mixed_shape w w' ms : mixed w w' → shape w ms → shape w' ms.
Proof.
  intros M Hsh. destruct (mx_server _ _ M) as (E1 & E2 & E3 & E4 & _). destruct Hsh; try (constructor; rewrite ?E1, ?E2, ?E3, ?E4; done).
  - apply (sh_packet w' t); rewrite ?E1; try done. intros l. rewrite (mx_tr _ _ M). auto.
  - apply (sh_flush w' t); rewrite ?E1; try done. intros l. rewrite (mx_tr _ _ M). auto.
  - apply (sh_link w' t); rewrite ?E1, ?E4; try done. by rewrite (mx_tr _ _ M).
  - apply sh_output; [by rewrite E1|by eapply mixed_plan].
  - apply sh_shutdown with (o := o); rewrite ?E1, ?E2, ?E3, ?E4; try done; [by eapply mixed_plan|].
    intros o' Ho'. destruct (H3 o' Ho') as [|]; [left; by apply M|by right].
  - apply sh_pool; rewrite ?E1, ?E2, ?E3, ?E4; try done. intros o' Ho'. by apply M, H2.
  - apply sh_last; rewrite ?E1, ?E3, ?E4; try done. by rewrite (mx_quiet _ _ M).
Qed.

(** A step that changes one output only, and neither its links nor its front. *)
Lemma output_state_base o (f : output → output) w :
  base w → links_ (f (out w o)) = links_ (out w o) →
  (∀ l m, processing (f (out w o)) = Some (mk_mixer (Some l) m) → l ∈ links_ (out w o)) →
  (∀ l p, processing (f (out w o)) = Some (mk_mixer (Some l) (Some (Some p))) → head (pending_queue_ (lk w l)) = Some p) →
  (∀ m, processing (f (out w o)) ≠ Some (mk_mixer None (Some m))) →
  (shutting_down_ (f (out w o)) = true → task_runner_ (f (out w o)) = false) →
  (shutting_down_ (f (out w o)) = false → o ∈ managed w ∨ processing (f (out w o)) ≠ None ∨ 0 < thunks (f (out w o)) →
    task_runner_ (f (out w o)) = true) →
  (shut_down_ (f (out w o)) = true → shutting_down_ (f (out w o)) = true ∧ links_ (out w o) = [] ∧ processing (f (out w o)) = None) →
  base (upd_output o f w).
Proof.
  intros [Ho Hfr Hb Hor Hs] El F1 F2 F3 F4 F5 F6. set (w' := upd_output o f w).
  assert (∀ o', links_ (out w' o') = links_ (out w o')) as Elinks.
  { intros o'. unfold w'. rewrite out_upd_output. by destruct (decide _) as [->|]. }
  split; try done.
  - destruct Ho. split; try done; intros *; rewrite ?Elinks; eauto; unfold w'; rewrite out_upd_output;
      (destruct (decide _) as [->|]); eauto; rewrite ?El; eauto.
  - intros l. unfold link_held. rewrite Elinks. apply (Hfr l).
  - intros o' l. rewrite Elinks. apply (Hb o' l).
Qed.

End Spec.
End AudioServerSpec.
