(* ===== verification/AudioServerRun.v ===== *)
(** Processing and the main thread's steps keep the invariant of the audio server, and what
    follows for packets and shutdown. *)

From stdpp Require Import gmap.
From S2P Require Import Prelude TypeConversions AudioReturn AudioServer AudioServerSpec.
Import AudioReturn AudioServer AudioServerSpec.
Local Open Scope nat_scope.

Module AudioServerRun.
Section Run.
Context `{BD : Build}.
Implicit Types (w : world) (l o t p : nat).

(** ** Calls while an output processes *)

Lemma output_state_mixed o (f : output → output) w :
  (shutting_down_ (out w o) = true → shutting_down_ (f (out w o)) = true) →
  (shut_down_ (out w o) = true → shut_down_ (f (out w o)) = true) →
  (shutting_down_ (out w o) = true → processing (out w o) = None →
    processing (f (out w o)) = None ∧ links_ (f (out w o)) = links_ (out w o)) →
  mixed w (upd_output o f w).
Proof. intros H1 H2 H3. split; try done; intros o'; rewrite out_upd_output; destruct (decide _) as [->|]; auto. Qed.

Lemma inv_mixed w w' : inv w → mixed w w' → base w' → inv w'.
Proof.
  intros [_ Hsh] M Hb. split; [done|]. destruct (mx_server _ _ M) as (_ & _ & _ & _ & ->). by eapply mixed_shape.
Qed.

Lemma begin_inv o w : inv w → call_enabled o CBegin w → runs (mix o CBegin) w (λ _ w', inv w').
Proof.
  intros Hinv [Hpr Hth]. pose proof Hinv as [Hb Hsh]. pose proof (inv_objects _ Hb) as Ho. unfold mix. apply runs_get, runs_mod.
  set (f := λ x : output, set_thunks (pred (thunks x)) x). set (w1 := upd_output o f w).
  assert (base w1) as Hb1.
  { apply output_state_base; cbn; try done; rewrite ?Hpr; try done; [apply (ob_stopped _ Ho)| |intros Hsd; by destruct (ob_shut _ Ho o Hsd) as (? & ? & ?)].
    intros Hd _. apply (ob_running _ Ho); [done|]. by right; right. }
  assert (mixed w w1) as M1 by (by apply output_state_mixed).
  assert (out w1 o = f (out w o)) as Eo by (unfold w1; by rewrite out_upd_output, decide_True).
  unfold ProcessThunk. apply runs_get. rewrite Eo. cbn [f set_thunks shutting_down_].
  destruct (shutting_down_ (out w o)) eqn:Ed; cbn [negb whenS]; [apply runs_ret; by eapply inv_mixed|].
  apply runs_mod_last. eapply inv_mixed; [by eapply inv_mixed| |].
  - apply output_state_mixed; rewrite Eo; cbn; by rewrite ?Ed.
  - apply output_state_base; rewrite ?Eo; cbn; rewrite ?Ed; try done.
    + intros _ _. apply (ob_running _ Ho); [done|]. by right; right.
    + intros Hs. destruct (ob_shut _ Ho o Hs) as (E & _). congruence.
Qed.

(** Steps of processing that only note where it is. *)
Lemma processing_inv o m w :
  inv w → processing (out w o) ≠ None →
  (∀ l f, m = Some (mk_mixer (Some l) f) → l ∈ links_ (out w o)) →
  (∀ l p, m = Some (mk_mixer (Some l) (Some (Some p))) → head (pending_queue_ (lk w l)) = Some p) →
  (∀ f, m ≠ Some (mk_mixer None (Some f))) →
  inv (upd_output o (set_processing m) w).
Proof.
  intros Hinv Hpr F1 F2 F3. pose proof Hinv as [Hb Hsh]. pose proof (inv_objects _ Hb) as Ho. eapply inv_mixed; [done| |].
  - apply output_state_mixed; cbn; try done.
  - apply output_state_base; cbn; try done; [apply (ob_stopped _ Ho)| |].
    + intros Hd _. apply (ob_running _ Ho); [done|]. by right; left.
    + intros Hs. destruct (ob_shut _ Ho o Hs) as (? & ? & ?). done.
Qed.

Lemma shape_pushes w ms l p : shape w ms → p ∈ pushes l ms → ∃ t, l ∈ outputs_ (tr w t).
Proof.
  assert (∀ {A} (f : A → micro) xs, (∀ x, match f x with MPush _ _ => False | _ => True end) → p ∉ pushes l (map f xs)) as Hno.
  { intros A f xs Hf. rewrite pushes_map_nil by done. by intros ?%elem_of_nil. }
  assert (∀ o ms', plan w o ms' → pushes l ms' = []) as Hplan.
  { intros o ms' [| |us|]; try done. by rewrite pushes_app, pushes_map_nil. }
  intros Hsh Hp. destruct Hsh; try (by apply elem_of_nil in Hp); try (by apply Hno in Hp);
    try (rewrite pushes_app in Hp; apply elem_of_app in Hp as [Hp|Hp]);
    try (by apply elem_of_nil in Hp); try (by apply Hno in Hp); try (by erewrite Hplan in Hp by done; apply elem_of_nil in Hp).
  - exists t. apply H1. unfold pushes in Hp. apply list_elem_of_omap in Hp as (m & Hm & E).
    apply list_elem_of_fmap in Hm as (l' & -> & Hl'). destruct (decide (l' = l)) as [->|]; done.
  - rewrite pushes_app in Hp. apply elem_of_app in Hp as [Hp|Hp]; [by apply Hno in Hp|by apply elem_of_nil in Hp].
Qed.
Lemma unbound_pushes w l : inv w → bound (tr w (track_of w l)) = false → pushes l (todo w) = [].
Proof.
  intros [Hb Hsh] Hub. destruct (pushes l (todo w)) as [|p ps] eqn:E; [done|exfalso].
  destruct (shape_pushes w _ l p Hsh) as [t Ht]; [rewrite E; by left|].
  destruct (ob_outs _ (inv_objects _ Hb) t l Ht) as [<- _].
  destruct (ob_unbound _ (inv_objects _ Hb) _ Hub) as (_ & _ & En). rewrite En in Ht. by apply elem_of_nil in Ht.
Qed.

Lemma visit_inv o l w : inv w → call_enabled o (CVisit l) w → runs (mix o (CVisit l)) w (λ _ w', inv w').
Proof.
  intros Hinv [Hpr Hl]. pose proof Hinv as [Hb Hsh]. pose proof Hb as [Ho Hfr Hbo Hor Hs]. unfold mix. apply runs_get.
  destruct (alive (track_ (lk w l)) w) eqn:Ea.
  - apply runs_mod_last. apply processing_inv; rewrite ?Hpr; try done. by intros ? ? [= <- <-].
  - apply runs_mod. set (f := λ x : output, set_output_links (remove_one l (links_ x)) x). set (w1 := upd_output o f w).
    assert (bound (tr w (track_of w l)) = false) as Hub.
    { unfold alive in Ea. apply orb_false_iff in Ea as [Ea%bool_decide_eq_false _].
      destruct (bound (tr w (track_of w l))) eqn:E; [|done]. by apply (ob_bound _ Ho) in E. }
    assert (∀ o', out w1 o' = if decide (o' = o) then f (out w o) else out w o') as Eo by (intros; apply out_upd_output).
    assert (∀ o' l', l' ∈ links_ (out w1 o') ↔ l' ∈ links_ (out w o') ∧ l' ≠ l) as Elinks.
    { intros o' l'. rewrite Eo. destruct (decide _) as [->|Hne]; cbn; [apply elem_of_remove_one|].
      split; [|by intros [? ?]]. intros Hl'. split; [done|]. intros ->.
      destruct (ob_links _ Ho o l Hl) as [E1 _], (ob_links _ Ho o' l Hl') as [E2 _]. congruence. }
    assert (objects w1) as Ho1.
    { destruct Ho. split; try done; intros *; rewrite ?Elinks; try (intros [? ?]); eauto; rewrite Eo;
        (destruct (decide _) as [->|]); cbn; eauto.
      - by apply NoDup_remove_one.
      - by rewrite Hpr.
      - intros Hm. pose proof (ob_mixer0 _ _ _ Hm) as Hin. split; [done|]. intros ->.
        destruct (ob_links0 o l Hl) as [E1 _], (ob_links0 _ l Hin) as [E2 _]. congruence.
      - intros Hsd. destruct (ob_shut0 o Hsd) as (? & ? & ?). congruence.
      - intros Hm. rewrite ob_unmanaged0 in Hl by done. by apply elem_of_nil in Hl. }
    assert (∀ l', l' ≠ l → link_held l' w1 = link_held l' w) as Eheld.
    { intros l' Hne. unfold link_held. f_equal. apply bool_decide_ext. rewrite Elinks. naive_solver. }
    assert (link_held l w1 = false) as Hlh.
    { unfold link_held. apply orb_false_iff. split; apply bool_decide_eq_false_2.
      - change (l ∉ outputs_ (tr w (track_of w l))). destruct (ob_unbound _ Ho _ Hub) as (_ & _ & ->). by intros ?%elem_of_nil.
      - rewrite Elinks. by intros []. }
    eapply runs_mono; [apply drop_link_runs; [by apply objects_fronts|exact (ob_linked _ Ho1)|done|exact Hor| |]|cbn beta].
    { by apply (unbound_pushes w). }
    { by apply (ob_links _ Ho o). }
    intros _ w2 (He & Hs2 & Hor2 & Hq). eapply inv_mixed; [done| |split].
    + assert (∀ o', out w2 o' = out w1 o') as Eo2 by (destruct He as (? & ? & ? & ? & ? & -> & _); done).
      assert (managed w ≠ []) as Hm.
      { intros Hm. rewrite (ob_unmanaged _ Ho) in Hl by (rewrite Hm; by intros ?%elem_of_nil). by apply elem_of_nil in Hl. }
      split; try (intros o'; rewrite Eo2, Eo; destruct (decide _) as [->|]; cbn; congruence || done).
      * destruct He as (? & ? & ? & ? & ? & -> & _). done.
      * intros l'. destruct He as (? & ? & ? & ? & ? & _ & _ & Hall). by destruct (Hall l') as (? & _).
      * destruct He as (? & ? & ? & ? & ? & -> & _). by split_and!.
      * done.
    + by eapply emptied_objects.
    + intros l' Hl'. rewrite (emptied_held _ _ _ He) in Hl'. destruct (decide (l' = l)) as [->|Hne]; [by apply Hq|].
      rewrite Eheld in Hl' by done. destruct He as (? & ? & ? & ? & ? & _ & _ & Hall).
      destruct (Hall l') as (_ & _ & [->|[-> _]]); [by apply (Hfr l')|done].
    + eapply emptied_both; [done|]. intros o' l' [Hin _]%Elinks. apply (Hbo o' l' Hin).
    + done.
    + done.
Qed.

(** A step that changes one link's flag. *)
Lemma link_flag_inv l b w :
  inv w → l < next_link w → inv (upd_link l (λ x, mk_link (track_ x) (output_ x) (pending_queue_ x) b) w).
Proof.
  intros [[Ho Hfr Hbo Hor Hs] Hsh] Hl. set (f := λ x : link, _). set (w1 := upd_link l f w).
  assert (∀ l', track_ (lk w1 l') = track_ (lk w l') ∧ output_ (lk w1 l') = output_ (lk w l') ∧
    pending_queue_ (lk w1 l') = pending_queue_ (lk w l')) as El.
  { intros l'. unfold w1. rewrite lk_upd_link. by destruct (decide _) as [->|]. }
  assert (emptied w w1) as He.
  { eexists _, _, _, _, _. split; [done|]. split; [intros l' Hl' E; cbn; by rewrite lookup_insert_ne by lia|].
    intros l'. destruct (El l') as (? & ? & ?). split_and!; auto. }
  eapply inv_mixed; [done| |split].
  - split; try done. intros l'. apply El.
  - by eapply emptied_objects.
  - by eapply emptied_free.
  - by eapply emptied_both.
  - eapply ordered_ext; [exact Hor| |intros l'; left; apply El]. intros l'. unfold held. by destruct (El l') as (_ & _ & ->).
  - exact Hs.
Qed.

Lemma lock_inv o w : inv w → call_enabled o CLock w → runs (mix o CLock) w (λ _ w', inv w').
Proof.
  intros Hinv [l Hpr]. pose proof Hinv as [Hb Hsh]. pose proof (inv_objects _ Hb) as Ho. unfold mix. apply runs_get. rewrite Hpr.
  pose proof (ob_mixer _ Ho o l _ Hpr) as Hl. destruct (ob_links _ Ho o l Hl) as [Eo Hlt].
  assert (flush_lock_held l w = false) as Hfree.
  { apply bool_decide_eq_false_2. intros (o' & x & Ex & Hx). assert (out w o' = x) as E by (unfold out; by rewrite Ex).
    unfold locks_front in Hx. rewrite <-E in Hx. destruct (processing (out w o')) as [[[l'|] [f|]]|] eqn:Ep; try done. subst l'.
    pose proof (ob_mixer _ Ho o' l _ Ep) as Hl'. destruct (ob_links _ Ho o' l Hl') as [Eo' _]. congruence. }
  eapply runs_bind with (Q := λ _ w', inv w'); [|intros; by apply runs_ret]. unfold LockPendingQueueFront.
  apply runs_get, runs_dcheck; [by rewrite Hfree|]. apply runs_mod, runs_mod, runs_ret. apply link_flag_inv; [|done].
  apply processing_inv; rewrite ?Hpr; try done; [by intros ? ? [= <- <-]|]. by intros ? ? [= <- ->].
Qed.

(** A packet is taken from the front of a queue. *)
Lemma pop_inv l p q w :
  inv w → pending_queue_ (lk w l) = p :: q → l ∈ links_ (out w (output_ (lk w l))) →
  (∀ o f, processing (out w o) ≠ Some (mk_mixer (Some l) (Some f))) →
  runs (_ ← modS (upd_link l (λ x, set_queue (tail (pending_queue_ x)) x)); drop_packet p) w (λ _ w', inv w').
Proof.
  intros Hinv Eq Hl Hno. pose proof Hinv as [[Ho Hfr Hbo Hor Hs] Hsh]. apply runs_mod.
  set (f := λ x : link, _). set (w1 := upd_link l f w). destruct (ob_links _ Ho _ l Hl) as [_ Hlt].
  assert (∀ l', lk w1 l' = if decide (l' = l) then set_queue q (lk w l) else lk w l') as El.
  { intros l'. unfold w1. rewrite lk_upd_link. destruct (decide _); [|done]. unfold f. by rewrite Eq. }
  assert (objects w1) as Ho1.
  { destruct Ho. split; try done; intros *; unfold track_of; rewrite ?El; try (destruct (decide _) as [->|]); cbn; eauto.
    - intros Hl'. rewrite lookup_insert_ne by lia. eauto.
    - intros Hp. by destruct (Hno o (Some p0)). }
  assert (∀ l', track_of w1 l' = track_of w l') as Et by (intros l'; unfold track_of; rewrite El; by destruct (decide _) as [->|]).
  assert (∀ l', output_ (lk w1 l') = output_ (lk w l')) as Eou by (intros l'; rewrite El; by destruct (decide _) as [->|]).
  assert (free_empty w1) as Hfr1.
  { intros l' Hh. assert (link_held l' w = false) as Hh'.
    { unfold link_held in *. pose proof (Et l') as E1. unfold track_of in E1. by rewrite E1, (Eou l') in Hh. }
    rewrite El. destruct (decide _) as [->|]; [|by apply Hfr]. exfalso. rewrite Hfr in Eq; done. }
  assert (both_sides w1) as Hb1 by (intros o' l' Hl'; rewrite Et; apply (Hbo o' l' Hl')).
  eapply runs_mono; [apply (drop_packet_runs p w1); [done|by apply objects_fronts|exact (ob_linked _ Ho1)]|]. cbn beta.
  intros _ w2 (Hc & Hs2 & Hcase). pose proof (cleaned_emptied _ _ Hc) as He.
  assert (∀ l', held w1 l' = upd (held w) l (q ++ pushes l (todo w)) l') as Eh.
  { intros l'. unfold held, upd. rewrite El. by destruct (decide _) as [->|]. }
  assert (refd (held w1) (drops (todo w)) p ↔ refd (upd (held w) l (q ++ pushes l (todo w))) (drops (todo w)) p) as Hiff
    by (unfold refd; by setoid_rewrite Eh).
  destruct (pop_ordered Hor l p (q ++ pushes l (todo w)) (drops (todo w))) as [Hkeep Hlast]; [unfold held; by rewrite Eq|done|].
  assert (∀ k, ordered (upd (held w) l (q ++ pushes l (todo w))) (track_of w) (drops (todo w)) (received w) (done_list w ++ k) →
    cleanup_queue_ w2 = cleanup_queue_ w1 ++ k → returns_in_order w2) as Hgo.
  { intros k Hk Ek. unfold returns_in_order. rewrite (done_list_cleaned w1 w2 k Hc Ek).
    destruct Hc as (? & ? & ? & ? & ->). eapply ordered_ext; [exact Hk|exact Eh|intros l'; left; apply Et]. }
  eapply inv_mixed; [done| |split; [by eapply emptied_objects|by eapply emptied_free|by eapply emptied_both| |done]].
  - destruct Hc as (cq & b & ps & fl & ->). split; try done.
    intros Hm. exfalso. rewrite (ob_unmanaged _ Ho) in Hl by (rewrite Hm; by intros ?%elem_of_nil). by apply elem_of_nil in Hl.
  - destruct Hcase as [[Hr E]|[Hr E]]; [apply (Hgo [])|apply (Hgo [p])]; rewrite ?app_nil_r; auto.
    + by apply Hkeep, Hiff.
    + apply Hlast. by rewrite <-Hiff.
Qed.

Lemma unlock_inv o b w : inv w → call_enabled o (CUnlock b) w → runs (mix o (CUnlock b)) w (λ _ w', inv w').
Proof.
  intros Hinv (l & f & Hpr). pose proof Hinv as [Hb Hsh]. pose proof (inv_objects _ Hb) as Ho. unfold mix. apply runs_get. rewrite Hpr.
  pose proof (ob_mixer _ Ho o l _ Hpr) as Hl. destruct (ob_links _ Ho o l Hl) as [Eo Hlt].
  unfold UnlockPendingQueueFront. apply runs_get. apply runs_dcheck.
  { destruct f as [p|]; [|done]. apply bool_decide_eq_true_2. by apply (ob_front _ Ho o l p). }
  apply runs_mod. set (w1 := upd_output o _ w).
  assert (inv w1) as Hinv1 by (apply processing_inv; rewrite ?Hpr; try done; by intros ? ? [= <- <-]).
  destruct f as [p|]; [|by apply runs_ret]. destruct b; [|by apply runs_ret]. cbn [whenS].
  pose proof (ob_front _ Ho o l p Hpr) as Hhead. destruct (pending_queue_ (lk w l)) as [|p' q] eqn:Eq; [done|]. injection Hhead as ->.
  apply (pop_inv l p q); [done|exact Eq| |].
  - change (lk w1 l) with (lk w l). rewrite Eo. unfold w1. by rewrite out_upd_output, decide_True.
  - intros o' f'. unfold w1. rewrite out_upd_output. destruct (decide _) as [->|Hne]; [done|]. intros Hp'.
    pose proof (ob_mixer _ Ho o' l _ Hp') as Hl'. destruct (ob_links _ Ho o' l Hl') as [Eo' _]. congruence.
Qed.

Lemma BeginShutdown_runs o w :
  base w → runs (BeginShutdown o) w (λ b w', base w' ∧ mixed w w' ∧ shutting_down_ (out w' o) = true ∧ received w' = received w ∧
    ∀ o', links_ (out w' o') = links_ (out w o') ∧ processing (out w' o') = processing (out w o')).
Proof.
  intros Hb. pose proof (inv_objects _ Hb) as Ho. unfold BeginShutdown. apply runs_get.
  destruct (shutting_down_ (out w o)) eqn:Ed; [apply runs_ret; by split_and!; [done|split|..]|].
  apply runs_mod, runs_ret. set (f := λ x : output, _).
  assert (mixed w (upd_output o f w)) as M by (apply output_state_mixed; cbn; rewrite ?Ed; done).
  split_and!; [|done|by rewrite out_upd_output, decide_True|done|].
  2: { intros o'. rewrite out_upd_output. by destruct (decide _) as [->|]. }
  apply output_state_base; cbn; try done; [apply (ob_mixer _ Ho)|apply (ob_front _ Ho)|apply (ob_linked _ Ho)|].
  intros Hs. by destruct (ob_shut _ Ho o Hs) as (? & ? & ?).
Qed.
Lemma ShutdownSelf_inv o w : inv w → runs (ShutdownSelf o) w (λ _ w', inv w').
Proof.
  intros Hinv. unfold ShutdownSelf. eapply runs_bind; [apply BeginShutdown_runs, Hinv|]. cbn beta.
  intros b w1 (Hb1 & M & _). assert (inv w1) as Hinv1 by (by eapply inv_mixed).
  destruct b; [by apply runs_ret|]. apply runs_get, runs_mod_last. destruct Hinv1 as [[Ho Hfr Hbo Hor [S1 S2]] Hsh].
  split; [split; try done|].
  - destruct Ho. by split.
  - split; [|done]. intros Hs. apply elem_of_app. left. by apply S1.
  - eapply mixed_shape; [|exact Hsh]. by split.
Qed.

Lemma call_inv o c w : inv w → call_enabled o c w → runs (mix o c) w (λ _ w', inv w').
Proof.
  intros Hinv Hc. destruct c; [by apply begin_inv|by apply visit_inv|by apply lock_inv|by apply unlock_inv|..];
    pose proof Hinv as [Hb Hsh]; pose proof (inv_objects _ Hb) as Ho; unfold mix; apply runs_get.
  - destruct Hc as [l Hpr]. apply runs_mod_last. by apply processing_inv; rewrite ?Hpr.
  - unfold ScheduleCallback. apply runs_get. destruct (shutting_down_ (out w o)) eqn:Ed.
    + exists tt, w. split; [|done]. apply dcheckS_true. by rewrite (ob_stopped _ Ho).
    + assert (task_runner_ (out w o) = true) as Et by (apply (ob_running _ Ho); [done|by right; left]).
      apply runs_dcheck; [done|]. apply runs_mod_last. eapply inv_mixed; [done|by apply output_state_mixed|].
      apply output_state_base; cbn; try done; [apply (ob_mixer _ Ho)|apply (ob_front _ Ho)|apply (ob_linked _ Ho)|by rewrite Ed|].
      apply (ob_shut _ Ho).
  - by apply ShutdownSelf_inv.
  - apply runs_mod_last. cbn in Hc. by apply processing_inv; rewrite ?Hc.
Qed.

(** ** Steps of the main thread *)

Lemma objects_todo ms w : objects w → objects (set_todo ms w).
Proof. intros []. by split. Qed.
(** A step that is planned or dropped, and neither moves nor returns packets. *)
Lemma todo_base ms w :
  base w → returns ms = returns (todo w) → drops ms = drops (todo w) → (∀ l, pushes l ms = pushes l (todo w)) →
  (∀ o, MClear o ∈ todo w → MClear o ∈ ms) → base (set_todo ms w).
Proof.
  intros [H1 H2 H3 H4 H5] E1 E2 E3 Hc. split; try done; [by apply objects_todo| |by apply returns_todo].
  intros o l Hl Hb. destruct (H3 o l Hl Hb) as [|Hin]; [by left|]. right. by apply Hc.
Qed.

Lemma push_step l p t ls w :
  inv w → todo w = MPush l p :: map (λ l, MPush l p) ls ++ [MDrop p] → NoDup (l :: ls) →
  (∀ l', l' ∈ l :: ls → l' ∈ outputs_ (tr w t)) → server_down w = false →
  runs (PushToPendingQueue l p) (set_todo (map (λ l, MPush l p) ls ++ [MDrop p]) w) (λ _ w', inv w').
Proof.
  intros [[Ho Hfr Hbo Hor Hs] Hsh] Et [Hl Hnd]%NoDup_cons Hls Ed. apply runs_mod_last.
  set (rest := map _ _ ++ _) in *. set (f := λ x : link, _). set (w1 := upd_link l f (set_todo rest w)).
  destruct (ob_outs _ Ho t l) as [Etr Hlt]; [apply Hls; by left|].
  assert (∀ l', lk w1 l' = if decide (l' = l) then set_queue (pending_queue_ (lk w l) ++ [p]) (lk w l) else lk w l') as El
    by (intros l'; unfold w1; by rewrite lk_upd_link).
  assert (∀ l', track_of w1 l' = track_of w l') as Et' by (intros l'; unfold track_of; rewrite El; by destruct (decide _) as [->|]).
  assert (∀ l', output_ (lk w1 l') = output_ (lk w l')) as Eou by (intros l'; rewrite El; by destruct (decide _) as [->|]).
  split; [split|].
  - destruct Ho. split; try done; intros *; rewrite ?Et', ?Eou; eauto.
    + intros Hl'. cbn in Hl' |- *. rewrite lookup_insert_ne by lia. eauto.
    + intros Hp. specialize (ob_front0 _ _ _ Hp). rewrite El. destruct (decide _) as [->|]; [|done]. cbn.
      by destruct (pending_queue_ (lk w l)).
  - intros l' Hh. rewrite El. destruct (decide (l' = l)) as [->|Hne].
    + exfalso. unfold link_held in Hh. pose proof (Et' l) as E1. unfold track_of in E1, Etr.
      rewrite E1, Etr, bool_decide_eq_true_2 in Hh; [done|]. apply Hls. by left.
    + apply Hfr. unfold link_held in *. pose proof (Et' l') as E1. unfold track_of in E1. by rewrite E1, Eou in Hh.
  - intros o' l' Hl' Hb. rewrite Et' in *. destruct (Hbo o' l' Hl' Hb) as [|Hin]; [by left|]. right. rewrite Et in Hin.
    by apply elem_of_cons in Hin as [|].
  - unfold returns_in_order in *. unfold done_list in *. rewrite Et in Hor. eapply ordered_ext; [exact Hor| |intros l'; left; apply Et'].
    intros l'. unfold held. rewrite El, Et. cbn [todo w1 upd_link set_links set_todo].
    change (MPush l p :: rest) with ([MPush l p] ++ rest). rewrite pushes_app. unfold rest. rewrite pushes_packet by done.
    destruct (decide (l' = l)) as [->|Hne]; cbn.
    + rewrite decide_True, bool_decide_eq_false_2 by done. by rewrite app_nil_r.
    + by rewrite decide_False by congruence.
  - exact Hs.
  - apply (sh_packet _ t); [done..|]. intros l' Hl'. apply Hls. by right.
Qed.

Lemma drop_step p w :
  inv w → todo w = [MDrop p] → server_down w = false → runs (drop_packet p) (set_todo [] w) (λ _ w', inv w').
Proof.
  intros [[Ho Hfr Hbo Hor Hs] Hsh] Et Ed. set (w1 := set_todo [] w).
  assert (objects w1) as Ho1 by (by apply objects_todo).
  assert (both_sides w1) as Hb1.
  { intros o l Hl Hb. destruct (Hbo o l Hl Hb) as [|Hin]; [by left|]. rewrite Et in Hin. by apply list_elem_of_singleton in Hin. }
  eapply runs_mono; [apply (drop_packet_runs p w1); [done|by apply objects_fronts|exact (ob_linked _ Ho1)]|]. cbn beta.
  intros _ w2 (Hc & Hs2 & Hcase). pose proof (cleaned_emptied _ _ Hc) as He.
  unfold returns_in_order in Hor. rewrite Et in Hor. destruct (drop_ordered Hor p eq_refl) as [Hkeep Hlast].
  assert (∀ l, held w1 l = held w l) as Eh by (intros l; unfold held; by rewrite Et).
  assert (refd (held w1) (drops (todo w1)) p ↔ refd (held w) [] p) as Hiff by (unfold refd; by setoid_rewrite Eh).
  assert (∀ k, ordered (held w) (track_of w) [] (received w) (done_list w ++ k) →
    cleanup_queue_ w2 = cleanup_queue_ w1 ++ k → returns_in_order w2) as Hgo.
  { intros k Hk Ek. unfold returns_in_order. rewrite (done_list_cleaned w1 w2 k Hc Ek).
    assert (done_list w1 = done_list w) as -> by (unfold done_list; by rewrite Et).
    destruct Hc as (? & ? & ? & ? & ->). eapply ordered_ext; [exact Hk|exact Eh|by left]. }
  split; [split; [by eapply emptied_objects|by eapply emptied_free|by eapply emptied_both| |done]|].
  - destruct Hcase as [[Hr E]|[Hr E]]; [apply (Hgo [])|apply (Hgo [p])]; rewrite ?app_nil_r; auto.
    + by apply Hkeep, Hiff.
    + apply Hlast. by rewrite <-Hiff.
  - destruct Hc as (? & ? & ? & ? & ->). by constructor.
Qed.

Lemma flush_step l t ls c w :
  inv w → todo w = MFlush l :: map MFlush ls ++ [MReply c] → flush_lock_held l w = false → server_down w = false →
  (∀ l', l' ∈ l :: ls → l' ∈ outputs_ (tr w t)) →
  runs (FlushPendingQueue l) (set_todo (map MFlush ls ++ [MReply c]) w) (λ _ w', inv w').
Proof.
  intros [[Ho Hfr Hbo Hor Hs] Hsh] Et Hlock Ed Hls. set (rest := map _ _ ++ _) in *. unfold FlushPendingQueue.
  apply runs_get, runs_mod. set (f := λ x : link, _). set (w1 := upd_link l f (set_todo rest w)).
  change (pending_queue_ (lk (set_todo rest w) l)) with (pending_queue_ (lk w l)).
  destruct (ob_outs _ Ho t l) as [Etr Hlt]; [apply Hls; by left|].
  assert (∀ l', lk w1 l' = if decide (l' = l) then f (lk w l) else lk w l') as El by (intros l'; unfold w1; by rewrite lk_upd_link).
  assert (∀ l', track_of w1 l' = track_of w l') as Et' by (intros l'; unfold track_of; rewrite El; by destruct (decide _) as [->|]).
  assert (∀ l', output_ (lk w1 l') = output_ (lk w l')) as Eou by (intros l'; rewrite El; by destruct (decide _) as [->|]).
  assert (∀ o g, processing (out w o) ≠ Some (mk_mixer (Some l) (Some g))) as Hno.
  { intros o g Hp. apply bool_decide_eq_false in Hlock. apply Hlock. destruct (outputs w !! o) as [x|] eqn:Ex.
    - exists o, x. split; [done|]. unfold locks_front. assert (out w o = x) as <- by (unfold out; by rewrite Ex). by rewrite Hp.
    - unfold out in Hp. by rewrite Ex in Hp. }
  assert (objects w1) as Ho1.
  { destruct Ho. split; try done; intros *; rewrite ?Et', ?Eou; eauto.
    - intros Hl'. cbn in Hl' |- *. rewrite lookup_insert_ne by lia. eauto.
    - intros Hp. rewrite El. destruct (decide _) as [->|]; [|by eapply ob_front0]. by destruct (Hno o (Some p)). }
  assert (∀ l', pushes l' rest = [] ∧ pushes l' (todo w) = []) as Hnp.
  { intros l'. rewrite Et. unfold rest. change (MFlush l :: ?r) with ([MFlush l] ++ r). by rewrite !pushes_app, pushes_map_nil. }
  eapply runs_mono; [apply (ReleaseQueue_runs l _ w1); [by apply objects_fronts|exact (ob_linked _ Ho1)|done| |]|cbn beta].
  - unfold held. rewrite El, decide_True by done. by destruct (Hnp l).
  - assert (drops (todo w1) = drops (todo w) ∧ returns (todo w1) = returns (todo w)) as [E1 E2].
    { cbn [todo w1 upd_link set_links set_todo]. rewrite Et. unfold rest, drops, returns. cbn. by rewrite !omap_app, !omap_map_nil. }
    unfold returns_in_order in Hor. rewrite E1. unfold done_list in *. rewrite E2.
    eapply ordered_ext; [exact Hor| |intros l'; left; apply Et']. intros l'. unfold upd, held. rewrite El.
    destruct (Hnp l') as [Hn1 Hn2]. cbn [todo w1 upd_link set_links set_todo]. rewrite Hn1, Hn2, !app_nil_r.
    by destruct (decide _) as [->|].
  - intros _ w2 (Hc & Hs2 & Ho2). pose proof (cleaned_emptied _ _ Hc) as He. split; [split|].
    + by eapply emptied_objects.
    + eapply emptied_free; [done|]. intros l' Hh. rewrite El. destruct (decide _) as [->|]; [done|]. apply Hfr.
      unfold link_held in *. pose proof (Et' l') as E1. unfold track_of in E1. by rewrite E1, Eou in Hh.
    + eapply emptied_both; [done|]. intros o' l' Hl' Hb. rewrite Et' in *. destruct (Hbo o' l' Hl' Hb) as [|Hin]; [by left|].
      right. rewrite Et in Hin. by apply elem_of_cons in Hin as [|].
    + done.
    + done.
    + destruct Hc as (? & ? & ? & ? & ->). apply (sh_flush _ t); [done|]. intros l' Hl'. apply Hls. by right.
Qed.

(** A new link, which nothing holds yet. *)
Lemma add_link_base t o w :
  base w → (∀ l, pushes l (todo w) = []) → base (add_link (mk_link t o [] true) w) ∧
  ∀ l, lk (add_link (mk_link t o [] true) w) l = if decide (l = next_link w) then mk_link t o [] true else lk w l.
Proof.
  intros [Ho Hfr Hbo Hor Hs] Hp. set (w1 := add_link _ w).
  assert (∀ l, lk w1 l = if decide (l = next_link w) then mk_link t o [] true else lk w l) as El.
  { intros l. unfold lk, w1. cbn. destruct (decide _) as [->|]; [by rewrite lookup_insert_eq|by rewrite lookup_insert_ne]. }
  assert (∀ l, l ≠ next_link w → lk w1 l = lk w l) as Eold by (intros l Hl; by rewrite El, decide_False).
  assert (∀ o' l, l ∈ links_ (out w o') → l ≠ next_link w) as Hln by (intros o' l Hl; destruct (ob_links _ Ho o' l Hl); lia).
  assert (∀ t' l, l ∈ outputs_ (tr w t') → l ≠ next_link w) as Hon by (intros t' l Hl; destruct (ob_outs _ Ho t' l Hl); lia).
  split; [split|done].
  - destruct Ho. split; try done; intros *; cbn [next_link w1 add_link links].
    + intros Hl. rewrite Eold by (by eapply Hln). destruct (ob_links0 _ _ Hl). split; [done|lia].
    + intros Hl. unfold track_of. rewrite Eold by (by eapply Hon). destruct (ob_outs0 _ _ Hl). split; [done|lia].
    + intros Hl. rewrite lookup_insert_ne by lia. apply ob_fresh0. lia.
    + intros Hl. unfold track_of. rewrite Eold by (by eapply Hln). by eapply ob_known0.
    + intros Hpr. rewrite Eold; [by eapply ob_front0|]. eapply Hln, ob_mixer0, Hpr.
  - intros l Hh. rewrite El. destruct (decide _) as [->|]; [done|]. apply Hfr. unfold link_held in *. by rewrite Eold in Hh.
  - intros o' l Hl. unfold track_of. rewrite Eold by (by eapply Hln). apply (Hbo o' l Hl).
  - assert (lk w (next_link w) = no_link) as En by (unfold lk; by rewrite (ob_fresh _ Ho)).
    eapply ordered_ext; [exact Hor| |].
    + intros l. unfold held. rewrite El. destruct (decide _) as [->|]; [|done]. by rewrite En.
    + intros l. unfold track_of. rewrite El. destruct (decide _) as [->|]; [|by left]. right. unfold held. by rewrite En, Hp.
  - done.
Qed.

(** It joins the sets of its output and its track. *)
Lemma join_base t o l w :
  base w → lk w l = mk_link t o [] true → l < next_link w → o ∈ managed w → bound (tr w t) = true →
  shutting_down_ (out w o) = false → (∀ o', l ∉ links_ (out w o')) → (∀ t', l ∉ outputs_ (tr w t')) →
  base (upd_track t (λ x, set_track_outputs (outputs_ x ++ [l]) x) (upd_output o (λ x, set_output_links (links_ x ++ [l]) x) w)).
Proof.
  intros [Ho Hfr Hbo Hor Hs] El Hlt Hm Ht Hd Hlo Hlt'. set (w1 := upd_track _ _ _).
  assert (∀ o', out w1 o' = if decide (o' = o) then set_output_links (links_ (out w o) ++ [l]) (out w o) else out w o') as Eo
    by (intros o'; change (out w1 o') with (out (upd_output o (λ x, set_output_links (links_ x ++ [l]) x) w) o'); by rewrite out_upd_output).
  assert (∀ t', tr w1 t' = if decide (t' = t) then set_track_outputs (outputs_ (tr w t) ++ [l]) (tr w t) else tr w t') as Et
    by (intros t'; unfold w1; by rewrite tr_upd_track).
  assert (∀ o' l', l' ∈ links_ (out w1 o') ↔ l' ∈ links_ (out w o') ∨ o' = o ∧ l' = l) as Elinks.
  { intros o' l'. rewrite Eo. destruct (decide _) as [->|]; cbn; [rewrite elem_of_app, list_elem_of_singleton|]; naive_solver. }
  assert (∀ t' l', l' ∈ outputs_ (tr w1 t') ↔ l' ∈ outputs_ (tr w t') ∨ t' = t ∧ l' = l) as Eouts.
  { intros t' l'. rewrite Et. destruct (decide _) as [->|]; cbn; [rewrite elem_of_app, list_elem_of_singleton|]; naive_solver. }
  assert (track_of w l = t) as Etl by (unfold track_of; by rewrite El).
  assert (∀ xs : list nat, NoDup xs → l ∉ xs → NoDup (xs ++ [l])) as Hnd.
  { intros xs Hx Hnin. apply NoDup_app. split_and!; [done| |by apply NoDup_singleton]. by intros x Hx' ->%list_elem_of_singleton. }
  split.
  - destruct Ho. split; try done; intros *; change (track_of w1) with (track_of w); change (lk w1) with (lk w); rewrite ?Elinks, ?Eouts;
      try rewrite Eo; try rewrite Et; try (destruct (decide _) as [->|]); cbn; eauto.
    + intros [Hl|[-> ->]]; [by apply ob_links0|by rewrite El].
    + intros [Hl|[-> ->]]; [by apply ob_outs0|done].
    + assert (is_Some (tracks w !! t)) as [x Hx] by (unfold tr in Ht; destruct (tracks w !! t); [done|by cbn in Ht]).
      intros Hl. assert (track_of w l0 = t ∨ is_Some (tracks w !! track_of w l0)) as [->|Hk]
        by (destruct Hl as [Hl|[_ ->]]; [right; by eapply ob_known0|by left]); [by rewrite lookup_insert_eq|].
      destruct (decide (track_of w l0 = t)) as [->|]; [by rewrite lookup_insert_eq|by rewrite lookup_insert_ne].
    + rewrite Ht. done.
    + intros Hsd. destruct (ob_shut0 o Hsd) as (? & _). congruence.
    + intros Hnm. done.
  - intros l' Hh. change (lk w1) with (lk w). apply Hfr. unfold link_held in *. change (lk w1) with (lk w) in Hh.
    apply orb_false_iff in Hh as [H1%bool_decide_eq_false H2%bool_decide_eq_false]. rewrite Eouts in H1. rewrite Elinks in H2.
    apply orb_false_iff; split; apply bool_decide_eq_false_2; naive_solver.
  - intros o' l'. change (track_of w1) with (track_of w). rewrite Elinks, Eouts. intros [Hl|[-> ->]]; [|by left; right].
    rewrite Et. intros Hb. destruct (Hbo o' l' Hl) as [|]; [|by left; left|by right]. by destruct (decide _) as [<-|].
  - exact Hor.
  - exact Hs.
Qed.

Lemma link_step t o r os f w :
  inv w → todo w = MLink t o r :: map (λ o, MLink t o (f o)) os → server_down w = false →
  bound (tr w t) = true → (∀ o', o' ∈ o :: os → o' ∈ managed w) →
  runs (link_track t o r) (set_todo (map (λ o, MLink t o (f o)) os) w) (λ _ w', inv w').
Proof.
  intros [Hb Hsh] Et Ed Ht Hos. set (rest := map _ os) in *. set (w0 := set_todo rest w).
  assert (∀ l, pushes l rest = []) as Hnp by (intros l; unfold rest; by apply pushes_map_nil).
  assert (base w0) as Hb0.
  { apply todo_base; rewrite ?Et; try done. intros o' Hin. by apply elem_of_cons in Hin as [|]. }
  unfold link_track. apply runs_get, runs_mod. destruct (add_link_base t o w0 Hb0 Hnp) as [Hb1 El]. set (w1 := add_link _ w0) in *.
  pose proof (inv_objects _ Hb0) as Ho0. set (l := next_link w0) in *.
  assert (∀ o', l ∉ links_ (out w1 o')) as Hlo by (intros o' Hin; destruct (ob_links _ Ho0 o' l Hin); lia).
  assert (∀ t', l ∉ outputs_ (tr w1 t')) as Hlt by (intros t' Hin; destruct (ob_outs _ Ho0 t' l Hin); lia).
  assert (lk w1 l = mk_link t o [] true) as Ell by (by rewrite El, decide_True).
  eapply runs_bind with (Q := λ res w', res = OK ∧ shutting_down_ (out w1 o) = false ∧
    w' = upd_output o (λ x, set_output_links (links_ x ++ [l]) x) w1 ∨ res ≠ OK ∧ w' = w1).
  { unfold AddTrackLink. destruct (decide (r = OK)) as [->|Hr]; [|apply runs_ret; by right]. apply runs_get.
    destruct (shutting_down_ (out w1 o)) eqn:Es; [apply runs_ret; by right|]. apply runs_dcheck; [by apply bool_decide_eq_true_2|].
    apply runs_mod, runs_ret. by left. }
  intros res w2 [(-> & Hd & ->)|[Hr ->]].
  - rewrite decide_True by done. unfold AddOutput. apply runs_get, runs_dcheck; [apply bool_decide_eq_true_2, Hlt|]. apply runs_mod_last.
    split; [apply join_base; try done; [unfold l; cbn; lia|apply Hos; by left]|].
    apply (sh_link _ t); [done| |intros o' Ho'; apply Hos; by right]. rewrite tr_upd_track, decide_True by done. exact Ht.
  - rewrite decide_False by done. pose proof Hb1 as [Ho1 Hfr1 Hbo1 Hor1 Hs1].
    eapply runs_mono; [apply drop_link_runs; [by apply objects_fronts|exact (ob_linked _ Ho1)|done|done|apply Hnp|cbn; lia]|]. cbn beta.
    intros _ w2 (He & Hs2 & Ho2 & _). split; [split; [by eapply emptied_objects|by eapply emptied_free|by eapply emptied_both|done|done]|].
    destruct He as (? & ? & ? & ? & ? & -> & _). apply (sh_link _ t); [done|exact Ht|]. intros o' Ho'. apply Hos. by right.
Qed.

(** ** Shutdown of an output *)

(** The main thread would unlink a track that is shut down, and that another output still
    processes. *)
Definition racy (m : micro) w : Prop :=
  match m with
  | MUnlink l => dcheck_is_on = true ∧ alive (track_of w l) w = true ∧ bound (tr w (track_of w l)) = false
  | _ => False
  end.
(** What the shutdown of an output leaves to the rest of its handler. *)
Record unlinks w w' : Prop := {
  un_bound t : bound (tr w' t) = bound (tr w t);
  un_server : server_down w' = server_down w ∧ thread_pool_ w' = thread_pool_ w ∧ tracks_ w' = tracks_ w ∧ managed w' = managed w;
  un_shut o : shut_down_ (out w o) = true → shut_down_ (out w' o) = true;
  un_links o : length (links_ (out w' o)) ≤ length (links_ (out w o));
  un_processing o : processing (out w' o) = processing (out w o);
  un_received : received w' = received w;
}.

(** What is left of the end of the server, in steps. *)
Definition micro_weight w (m : micro) : nat :=
  match m with
  | MTracks => 1 + length (tracks_ w)
  | MOutputs => 2 + sum_list_with (λ o, 4 + length (links_ (out w o))) (managed w)
  | MShutdown o => 4 + length (links_ (out w o))
  | MSync o => 3 + length (links_ (out w o))
  | MCleanup => 1 + length (received w)
  | _ => 1
  end.
Definition weight w (ms : list micro) : nat := sum_list_with (micro_weight w) ms.
Lemma steps_weight_app w ms ms' : weight w (ms ++ ms') = weight w ms + weight w ms'.
Proof. apply sum_list_with_app. Qed.
Lemma weight_mono w w' ms : (∀ m, m ∈ ms → micro_weight w' m ≤ micro_weight w m) → weight w' ms ≤ weight w ms.
Proof.
  induction ms as [|m ms IH]; intros H; [done|]. cbn. pose proof (H m ltac:(by left)).
  pose proof (IH (λ m' Hm, H m' (list_elem_of_further _ _ _ Hm))). unfold weight in *. lia.
Qed.
(** A step after the end of the server, which leaves less to do. *)
Definition ended w w' : Prop :=
  weight w' (todo w') < weight w (todo w) ∧ server_down w' = server_down w ∧ ∀ o, processing (out w' o) = processing (out w o).
Definition plain (ms : list micro) : Prop :=
  returns ms = [] ∧ drops ms = [] ∧ (∀ l, pushes l ms = []) ∧ ∀ o, MClear o ∉ ms.

Lemma plain_app ms k : returns ms = [] → drops ms = [] → (∀ l, pushes l ms = []) → plain k →
  returns (ms ++ k) = [] ∧ drops (ms ++ k) = [] ∧ ∀ l, pushes l (ms ++ k) = [].
Proof.
  intros E1 E2 E3 (F1 & F2 & F3 & _). unfold returns, drops in *. rewrite !omap_app, E1, E2, F1, F2. split_and!; try done.
  intros l. by rewrite pushes_app, E3, F3.
Qed.
Lemma plan_plain w o ms k : plan w o ms → plain k →
  returns (ms ++ k) = [] ∧ drops (ms ++ k) = [] ∧ ∀ l, pushes l (ms ++ k) = [].
Proof.
  intros Hp Hk. destruct Hp; apply plain_app; try done.
  - unfold returns. by rewrite omap_app, omap_map_nil.
  - unfold drops. by rewrite omap_app, omap_map_nil.
  - intros l. by rewrite pushes_app, pushes_map_nil.
Qed.

Lemma weight_shutdowns w os : weight w (map MShutdown os) = sum_list_with (λ o, 4 + length (links_ (out w o))) os.
Proof. unfold weight. induction os as [|o os IH]; [done|]. cbn [map sum_list_with micro_weight]. by rewrite IH. Qed.
Lemma weight_returns w ps : weight w (map MReturn ps) = length ps.
Proof. unfold weight. induction ps as [|p ps IH]; [done|]. cbn [map sum_list_with micro_weight]. by rewrite IH. Qed.
Lemma weight_unlinks w ls : weight w (map MUnlink ls) = length ls.
Proof. induction ls as [|l ls IH]; [done|]. cbn. by f_equal. Qed.

Lemma shutdown_step o k w :
  base w → todo w = MShutdown o :: k → plain k →
  runs (exec (MShutdown o)) (set_todo k w) (λ _ w', base w' ∧ unlinks w w' ∧ ∃ ms, todo w' = ms ++ k ∧ plan w' o ms ∧
    weight w' ms < weight w [MShutdown o]).
Proof.
  intros Hb Et Hk. pose proof Hk as (K1 & K2 & K3 & K4). cbn [exec]. set (w0 := set_todo k w).
  assert (base w0) as Hb0.
  { apply todo_base; rewrite ?Et; try done. intros o' Hin. by apply elem_of_cons in Hin as [|]. }
  apply runs_get. change (out w0) with (out w). destruct (shut_down_ (out w o)) eqn:Es.
  - apply runs_ret. split_and!; [done|by split|]. exists []. split_and!; [done|by constructor|cbn; lia].
  - eapply runs_bind; [by apply BeginShutdown_runs|]. cbn beta. intros b w1 (Hb1 & M & Hd & Erec & Eout). apply runs_mod_last.
    destruct (mx_server _ _ M) as (E1 & E2 & E3 & E4 & E5). split_and!.
    + apply todo_base; rewrite ?E5; try done. intros o' Hin. by right.
    + split; [intros t; exact (f_equal bound (mx_tr _ _ M t))|by split_and!|..].
      * intros o' Ho'. by apply (mx_shut _ _ M).
      * intros o'. apply Nat.eq_le_incl. exact (f_equal length (proj1 (Eout o'))).
      * intros o'. exact (proj2 (Eout o')).
      * done.
    + exists [MSync o]. split_and!; [cbn; by rewrite E5|by constructor|]. cbn. destruct (Eout o) as [E _].
      change (out (set_todo _ w1)) with (out w1). rewrite E. change (out w0) with (out w). lia.
Qed.

Lemma sync_step o k w :
  base w → todo w = MSync o :: k → plain k → processing (out w o) = None → shutting_down_ (out w o) = true →
  runs (exec (MSync o)) (set_todo k w) (λ _ w', base w' ∧ unlinks w w' ∧ ∃ ms, todo w' = ms ++ k ∧ plan w' o ms ∧
    weight w' ms < weight w [MSync o]).
Proof.
  intros Hb Et Hk Hp Hd. pose proof Hk as (K1 & K2 & K3 & K4). cbn [exec]. apply runs_get, runs_mod_last.
  cbn [todo set_todo]. set (ms := map MUnlink _ ++ [MClear o]).
  assert (plan w o ms) as Hplan.
  { apply plan_unlink; [done|done|apply (ob_nodup_links _ (inv_objects _ Hb))|]. intros l Hl. split; [done|]. intros Hbd.
    destruct (inv_both _ Hb o l Hl Hbd) as [|Hin]; [done|]. rewrite Et in Hin. apply elem_of_cons in Hin as [|Hin]; [done|].
    by apply K4 in Hin. }
  destruct (plan_plain _ _ _ _ Hplan Hk) as (P1 & P2 & P3). change (set_todo (ms ++ k) (set_todo k w)) with (set_todo (ms ++ k) w). split_and!.
  - apply todo_base; rewrite ?Et; [done|exact (eq_trans P1 (eq_sym K1))|exact (eq_trans P2 (eq_sym K2))| |].
    + intros l. exact (eq_trans (P3 l) (eq_sym (K3 l))).
    + intros o' Hin. apply elem_of_cons in Hin as [|Hin]; [done|]. by apply K4 in Hin.
  - by split.
  - exists ms. split_and!; [done|inversion Hplan; by constructor|]. unfold ms. rewrite steps_weight_app, weight_unlinks. change (out (set_todo k w)) with (out w). cbn. lia.
Qed.

(** A track that is not shut down loses a link that its output is about to clear. *)
Lemma unlink_base o l t w :
  base w → l ∈ links_ (out w o) → track_of w l = t → bound (tr w t) = true → MClear o ∈ todo w →
  let w1 := upd_track t (λ x, set_track_outputs (remove_one l (outputs_ x)) x) w in
  base w1 ∧ (∀ t', bound (tr w1 t') = bound (tr w t')) ∧
  ∀ t' l', l' ≠ l → l' ∈ outputs_ (tr w1 t') ↔ l' ∈ outputs_ (tr w t').
Proof.
  intros [Ho Hfr Hbo Hor Hs] Hl Etl Ht Hin w1. destruct (ob_links _ Ho o l Hl) as [Eol _].
  assert (∀ t', tr w1 t' = if decide (t' = t) then set_track_outputs (remove_one l (outputs_ (tr w t))) (tr w t) else tr w t') as Et
    by (intros t'; unfold w1; by rewrite tr_upd_track).
  assert (∀ t' l', l' ∈ outputs_ (tr w1 t') ↔ l' ∈ outputs_ (tr w t') ∧ ¬ (t' = t ∧ l' = l)) as Eo.
  { intros t' l'. rewrite Et. destruct (decide _) as [->|]; cbn; [rewrite elem_of_remove_one|]; naive_solver. }
  assert (∀ t', bound (tr w1 t') = bound (tr w t')) as Eb by (intros t'; rewrite Et; by destruct (decide _) as [->|]).
  split_and!; [|done|intros t' l' Hne; rewrite Eo; naive_solver]. split.
  - destruct Ho. split; try done; intros *; change (track_of w1) with (track_of w); rewrite ?Eo, ?Eb; try (intros [? ?]); eauto.
    + intros Hl'. destruct (ob_known0 _ _ Hl') as [x Hx].
      destruct (decide (track_of w l0 = t)) as [E|]; cbn; [rewrite E, lookup_insert_eq; by eexists|rewrite lookup_insert_ne by done; by eexists].
    + rewrite Et. destruct (decide _) as [->|]; cbn; [by apply NoDup_remove_one|eauto].
    + rewrite Et. destruct (decide _) as [->|]; [by rewrite Ht|]. apply ob_unbound0.
  - intros l' Hh. change (lk w1) with (lk w). apply Hfr. unfold link_held in *. change (lk w1) with (lk w) in Hh.
    change (out w1) with (out w) in Hh. apply orb_false_iff in Hh as [H1%bool_decide_eq_false H2%bool_decide_eq_false]. rewrite Eo in H1.
    apply orb_false_iff; split; apply bool_decide_eq_false_2; [|done]. intros Hin'. apply H1. split; [done|]. intros [_ ->].
    apply H2. by rewrite Eol.
  - intros o' l' Hl'. change (track_of w1) with (track_of w). rewrite Eb, Eo. intros Hb.
    destruct (decide (l' = l)) as [->|Hne]; [|destruct (Hbo o' l' Hl' Hb); [left; naive_solver|by right]].
    right. destruct (ob_links _ Ho o' l Hl') as [<- _]. by rewrite Eol.
  - exact Hor.
  - exact Hs.
Qed.

Lemma unlink_step o l ls k w :
  base w → todo w = MUnlink l :: (map MUnlink ls ++ [MClear o]) ++ k → plain k →
  shutting_down_ (out w o) = true → processing (out w o) = None → NoDup (l :: ls) →
  (∀ l', l' ∈ l :: ls → l' ∈ links_ (out w o) ∧ (bound (tr w (track_of w l')) = true → l' ∈ outputs_ (tr w (track_of w l')))) →
  ¬ racy (MUnlink l) w →
  runs (exec (MUnlink l)) (set_todo ((map MUnlink ls ++ [MClear o]) ++ k) w)
    (λ _ w', base w' ∧ unlinks w w' ∧ ∃ ms, todo w' = ms ++ k ∧ plan w' o ms ∧
      weight w' ms < weight w (map MUnlink (l :: ls) ++ [MClear o])).
Proof.
  intros Hb Et Hk Hd Hp [Hnl Hnd]%NoDup_cons Hls Hrace. set (ms := map MUnlink ls ++ [MClear o]) in *. set (w0 := set_todo (ms ++ k) w).
  assert (base w0) as Hb0.
  { apply todo_base; rewrite ?Et; try done. intros o' Hin. by apply elem_of_cons in Hin as [|]. }
  assert (MClear o ∈ todo w0) as Hin by (cbn; apply elem_of_app; left; apply elem_of_app; right; by left).
  destruct (Hls l) as [Hl Hout]; [by left|]. cbn [exec]. apply runs_get.
  change (track_ (lk w0 l)) with (track_of w l). change (alive (track_of w l) w0) with (alive (track_of w l) w).
  assert (runs (mret tt) w0 (λ _ w', base w' ∧ unlinks w w' ∧ ∃ ms', todo w' = ms' ++ k ∧ plan w' o ms' ∧
    weight w' ms' < weight w (map MUnlink (l :: ls) ++ [MClear o])) ∨ bound (tr w (track_of w l)) = true) as Hskip.
  { destruct (bound (tr w (track_of w l))) eqn:E; [by right|left]. apply runs_ret. split_and!; [done|by split|].
    exists ms. split_and!; [done| |unfold ms; rewrite !steps_weight_app, !weight_unlinks; cbn; lia].
    apply plan_unlink; [done..|]. intros l' Hl'. apply Hls. by right. }
  destruct (alive (track_of w l) w) eqn:Ea.
  - unfold RemoveOutput. apply runs_get. change (tr w0) with (tr w).
    destruct (bound (tr w (track_of w l))) eqn:Hbd.
    2: { destruct (ob_unbound _ (inv_objects _ Hb) _ Hbd) as (_ & _ & ->). rewrite bool_decide_eq_false_2 by (by intros ?%elem_of_nil).
         destruct Hskip as [Hskip|]; [|done]. destruct dcheck_is_on eqn:Edc; [by destruct Hrace|].
         assert (∀ Q : unit → world → Prop, runs (mret tt) w0 Q → runs (dcheckS false) w0 Q) as Hgo; [|by apply Hgo].
         intros Q (a & w' & E & HQ). exists a, w'. split; [|done]. unfold dcheckS, dcheck, liftO. by rewrite Edc. }
    rewrite bool_decide_eq_true_2 by auto. apply runs_mod.
    destruct (unlink_base o l (track_of w l) w0 Hb0 Hl eq_refl Hbd Hin) as (Hb1 & Eb & Eouts). set (w1 := upd_track _ _ w0) in *.
    unfold drop_link. apply runs_get. assert (link_held l w1 = true) as ->.
    { unfold link_held. apply orb_true_iff. right. apply bool_decide_eq_true_2.
      change (l ∈ links_ (out w (output_ (lk w l)))). by destruct (ob_links _ (inv_objects _ Hb) o l Hl) as [-> _]. }
    apply runs_ret. split_and!; [done|by split; [exact Eb|..]|]. exists ms.
    split_and!; [done| |unfold ms; rewrite !steps_weight_app, !weight_unlinks; cbn; lia]. apply plan_unlink; [done..|].
    intros l' Hl'. destruct (Hls l') as [Hin' Hout']; [by right|]. split; [done|]. change (track_of w1 l') with (track_of w l').
    rewrite Eb, Eouts by congruence. exact Hout'.
  - destruct Hskip as [Hskip|Hbd]; [exact Hskip|]. exfalso. unfold alive in Ea.
    apply (ob_bound _ (inv_objects _ Hb)) in Hbd. by rewrite bool_decide_eq_true_2 in Ea.
Qed.

Lemma clear_step o k w :
  base w → todo w = MClear o :: k → plain k → shutting_down_ (out w o) = true → processing (out w o) = None →
  runs (exec (MClear o)) (set_todo k w) (λ _ w', base w' ∧ unlinks w w' ∧ ∃ ms, todo w' = ms ++ k ∧ plan w' o ms ∧
    weight w' ms < weight w [MClear o]).
Proof.
  intros [Ho Hfr Hbo Hor Hs] Et (K1 & K2 & K3 & K4) Hd Hp. cbn [exec]. apply runs_get, runs_mod.
  set (w1 := upd_output o _ (set_todo k w)). change (out (set_todo k w) o) with (out w o).
  assert (∀ o', out w1 o' = if decide (o' = o) then set_output_links [] (out w o) else out w o') as Eo
    by (intros o'; unfold w1; by rewrite out_upd_output).
  assert (∀ o' l, l ∈ links_ (out w1 o') ↔ o' ≠ o ∧ l ∈ links_ (out w o')) as Elinks.
  { intros o' l. rewrite Eo. destruct (decide _) as [->|]; cbn; [|naive_solver]. split; [by intros ?%elem_of_nil|by intros []]. }
  assert (objects w1) as Ho1.
  { destruct Ho. split; try done; intros *; rewrite ?Elinks; try (intros [? ?]); eauto; rewrite Eo;
      (destruct (decide _) as [->|]); cbn; eauto.
    - constructor.
    - by rewrite Hp. }
  assert (returns_in_order w1) as Hor1.
  { apply (returns_todo w k); rewrite ?Et; done. }
  eapply runs_bind; [apply drop_links_runs; [by apply objects_fronts|exact (ob_linked _ Ho1)|done|done|]|cbn beta].
  { intros l Hl. split; [apply K3|]. by apply (ob_links _ Ho o). }
  intros _ w2 (He & Hs2 & Hor2 & Hq). apply runs_mod_last.
  assert (∀ o', out w2 o' = out w1 o') as Eo2 by (destruct He as (? & ? & ? & ? & ? & -> & _); done).
  assert (base w2) as Hb2.
  { split; [by eapply emptied_objects| | |done|done].
    - intros l Hh. rewrite (emptied_held _ _ _ He) in Hh. destruct (decide (l ∈ links_ (out w o))) as [Hin|Hin]; [by apply Hq|].
      assert (link_held l w = false) as Hh'.
      { unfold link_held in *. change (lk w1) with (lk w) in Hh. change (tr w1) with (tr w) in Hh.
        apply orb_false_iff in Hh as [H1 H2%bool_decide_eq_false]. apply orb_false_iff. split; [done|]. apply bool_decide_eq_false_2.
        intros Hl. apply H2, Elinks. split; [|done]. intros E. by rewrite E in Hl. }
      destruct He as (? & ? & ? & ? & ? & _ & _ & Hall). destruct (Hall l) as (_ & _ & [->|[-> _]]); [by apply Hfr|done].
    - eapply emptied_both; [done|]. intros o' l [Hne Hl]%Elinks Hb. destruct (Hbo o' l Hl Hb) as [|Hin]; [by left|].
      rewrite Et in Hin. apply elem_of_cons in Hin as [[= ->]|Hin]; [done|by apply K4 in Hin]. }
  pose proof (inv_objects _ Hb2) as Ho2.
  assert (out w2 o = set_output_links [] (out w o)) as Eoo by (by rewrite Eo2, Eo, decide_True).
  split_and!.
  - apply output_state_base; [done|rewrite ?Eoo; cbn; try done..]; rewrite ?Hp, ?Hd; try done. intros _. by apply (ob_stopped _ Ho).
  - destruct He as (? & ? & ? & ? & ? & E & _). split.
    + intros t. by rewrite E.
    + by rewrite E.
    + intros o' Ho'. rewrite out_upd_output. destruct (decide _) as [->|]; [done|]. by rewrite Eo2, Eo, decide_False.
    + intros o'. rewrite out_upd_output. destruct (decide _) as [->|]; [rewrite Eoo; cbn; lia|by rewrite Eo2, Eo, decide_False].
    + intros o'. rewrite out_upd_output. destruct (decide _) as [->|]; [by rewrite Eoo|by rewrite Eo2, Eo, decide_False].
    + by rewrite E.
  - exists []. split_and!; [by destruct He as (? & ? & ? & ? & ? & -> & _)| |cbn; lia]. constructor. by rewrite out_upd_output, decide_True.
Qed.

(** One step of the shutdown of an output. *)
Lemma plan_step o m ms k w :
  base w → todo w = m :: ms ++ k → plain k → plan w o (m :: ms) → ¬ waits m w → ¬ racy m w →
  runs (exec m) (set_todo (ms ++ k) w) (λ _ w', base w' ∧ unlinks w w' ∧ ∃ ms', todo w' = ms' ++ k ∧ plan w' o ms' ∧
    weight w' ms' < weight w (m :: ms)).
Proof.
  intros Hb Et Hk Hplan Hw Hr. inversion Hplan as [E|Hd E|us Hd Hp Hnd Hus E|]; subst.
  - by apply shutdown_step.
  - apply sync_step; try done. by destruct (decide (processing (out w o) = None)).
  - destruct us as [|l us]; cbn in E; injection E as <- <-; [by apply clear_step|by apply unlink_step].
Qed.

(** ** The other steps *)

Lemma destroy_output_run o w :
  base w → shut_down_ (out w o) = true → destroy_output o w = Ok (tt, w).
Proof.
  intros Hb Hs. destruct (ob_shut _ (inv_objects _ Hb) o Hs) as (Hd & _). unfold destroy_output. erewrite prog_bind_run by done.
  apply dcheckS_true. by rewrite (ob_stopped _ (inv_objects _ Hb) o Hd), Hd.
Qed.

(** The manager forgets outputs that are shut down. *)
Lemma forget_base os w :
  base w → (∀ o, o ∈ os → o ∈ managed w) → (∀ o, o ∈ managed w → o ∉ os → shut_down_ (out w o) = true) →
  base (set_managed os w).
Proof.
  intros [Ho Hfr Hbo Hor Hs] Hsub Hshut. split; try done. destruct Ho. split; try done; intros *; cbn.
  - intros Hd [Hm|Hx]; apply ob_running0; auto.
  - intros Hm. destruct (decide (o ∈ managed w)) as [Hin|Hin]; [|by apply ob_unmanaged0].
    by destruct (ob_shut0 o (Hshut o Hin Hm)) as (_ & ? & _).
  - intros Hc. destruct os as [|o os]; [done|]. exfalso. specialize (Hsub o ltac:(by left)). rewrite ob_closed0 in Hsub by done.
    by apply elem_of_nil in Hsub.
Qed.

Lemma erase_step o w :
  inv w → todo w = [MErase o] → shut_down_ (out w o) = true → server_down w = false →
  runs (exec (MErase o)) (set_todo [] w) (λ _ w', inv w').
Proof.
  intros [Hb Hsh] Et Hs Ed. cbn [exec]. apply runs_mod.
  assert (base (set_managed (remove_one o (managed w)) (set_todo [] w))) as Hb1.
  { apply (forget_base _ (set_todo [] w)).
    - apply todo_base; rewrite ?Et; try done. by intros o' ?%list_elem_of_singleton.
    - intros o' Ho'. by apply elem_of_remove_one in Ho' as [? _].
    - intros o' Ho' Hn. rewrite elem_of_remove_one in Hn. destruct (decide (o' = o)) as [->|]; [done|]. by destruct Hn. }
  eexists _, _. split; [by apply (destroy_output_run o _ Hb1)|]. split; [done|by constructor].
Qed.

Lemma tracks_step w :
  inv w → todo w = [MTracks; MOutputs; MCleanup] → server_down w = true → thread_pool_ w = true →
  runs (exec MTracks) (set_todo [MOutputs; MCleanup] w) (λ _ w', inv w' ∧ ended w w').
Proof.
  intros [Hb Hsh] Et Ed Ep. cbn [exec]. apply runs_get. set (w0 := set_todo [MOutputs; MCleanup] w).
  assert (base w0) as Hb0.
  { apply todo_base; rewrite ?Et; try done. intros o Hin. by apply elem_of_cons in Hin as [|]. }
  change (tracks_ w0) with (tracks_ w). destruct (tracks_ w) as [|t ts] eqn:Etr.
  - apply runs_ret. split; [split; [done|by apply sh_outputs]|]. split_and!; [|done..]. rewrite Et. change (weight w [MOutputs; MCleanup] < 1 + length (tracks_ w) + weight w [MOutputs; MCleanup]). lia.
  - eapply runs_bind; [apply Track_Shutdown_runs; [done|done|]|cbn beta].
    { apply (ob_bound _ (inv_objects _ Hb0)). change (tracks_ w0) with (tracks_ w). rewrite Etr. by left. }
    intros _ w1 (Hb1 & (Eo1 & Et1 & Em1 & Ep1 & Ed1 & Er1) & Etr1).
    assert (length (tracks_ w1) < length (tracks_ w)) as Hlt.
    { rewrite Etr1. change (tracks_ w0) with (tracks_ w). rewrite Etr. unfold remove_one.
      rewrite filter_cons_False by (intros []; done). cbn. pose proof (length_filter (λ l', l' ≠ t) ts). lia. }
    apply runs_get, runs_dcheck; [apply Nat.ltb_lt; by rewrite <-?Etr|].
    assert (∀ o, out w1 o = out w o) as Eout by (intros o; unfold out; by rewrite Eo1).
    apply runs_mod_last. rewrite Et1. split; [split|split_and!].
    + apply todo_base; rewrite ?Et1; try done. intros o Hin. by right.
    + apply sh_tracks; [exact (eq_trans Ed1 Ed)|exact (eq_trans Ep1 Ep)].
    + assert (weight (set_todo ([MTracks] ++ todo w0) w1) [MOutputs; MCleanup] = weight w [MOutputs; MCleanup]) as Hw.
      { unfold weight. cbn [sum_list_with micro_weight]. unfold out.
        cbn [outputs managed received set_todo]. by rewrite Eo1, Em1, Er1. }
      rewrite Et. change (1 + length (tracks_ w1) + weight (set_todo ([MTracks] ++ todo w0) w1) [MOutputs; MCleanup] <
        1 + length (tracks_ w) + weight w [MOutputs; MCleanup]). lia.
    + done.
    + exact (λ o, f_equal processing (Eout o)).
Qed.

Lemma outputs_step w :
  inv w → todo w = [MOutputs; MCleanup] → server_down w = true → thread_pool_ w = true → tracks_ w = [] →
  runs (exec MOutputs) (set_todo [MCleanup] w) (λ _ w', inv w' ∧ ended w w').
Proof.
  intros [Hb Hsh] Et Ed Ep Etr. cbn [exec]. unfold Manager_Shutdown. apply runs_get.
  change (thread_pool_ (set_todo [MCleanup] w)) with (thread_pool_ w). rewrite Ep. cbn [negb]. apply runs_mod_last.
  cbn [todo set_todo managed]. rewrite <-app_assoc. cbn [app]. split; [split|].
  - change (base (set_todo (map MShutdown (managed w) ++ [MPoolDown; MCleanup]) w)). apply todo_base; rewrite ?Et; try done.
    + unfold returns. by rewrite omap_app, omap_map_nil.
    + unfold drops. by rewrite omap_app, omap_map_nil.
    + intros l. by rewrite pushes_app, pushes_map_nil.
    + intros o Hin. repeat (apply elem_of_cons in Hin as [|Hin]; [done|]). by apply elem_of_nil in Hin.
  - cbn [todo set_todo]. destruct (managed w) as [|o os] eqn:Em.
    + apply sh_pool; try done. intros o. cbn. rewrite Em. by intros ?%elem_of_nil.
    + apply (sh_shutdown _ o os [MShutdown o]); try done; [constructor|]. intros o'. cbn. rewrite Em.
      intros [|]%elem_of_cons; [right; by left|by right; right].
  - split_and!; [|done..]. rewrite Et. cbn [todo set_todo]. rewrite steps_weight_app, weight_shutdowns. cbn.
    change (out (set_todo _ _)) with (out w). lia.
Qed.

Lemma destroy_outputs_run os w :
  base w → (∀ o, o ∈ os → shut_down_ (out w o) = true) → destroy_outputs os w = Ok (tt, w).
Proof.
  intros Hb. induction os as [|o os IH]; intros Hs; cbn; [done|]. erewrite prog_bind_run; [apply IH; intros; apply Hs; by right|].
  apply destroy_output_run; [done|]. apply Hs. by left.
Qed.

Lemma pool_step w :
  inv w → todo w = [MPoolDown; MCleanup] → server_down w = true → tracks_ w = [] →
  (∀ o, o ∈ managed w → shut_down_ (out w o) = true) →
  runs (exec MPoolDown) (set_todo [MCleanup] w) (λ _ w', inv w' ∧ ended w w').
Proof.
  intros [Hb Hsh] Et Ed Etr Hs. cbn [exec]. apply runs_get, runs_mod. set (w1 := set_managed [] _).
  assert (base w1) as Hb1.
  { apply forget_base; [|by intros o ?%elem_of_nil|by intros o Hm _; apply Hs].
    apply todo_base; rewrite ?Et; try done. intros o Hin. by apply elem_of_cons in Hin as [|]. }
  eapply runs_step; [apply destroy_outputs_run; [done|exact Hs]|]. apply runs_mod_last. split; [split|].
  - destruct Hb1 as [Ho Hfr Hbo Hor Hsch]. split; try done. destruct Ho. split; try done. by cbn; rewrite Ed.
  - by apply sh_cleanup.
  - split_and!; [|done..]. rewrite Et. cbn. lia.
Qed.

Lemma cleanup_step w :
  inv w → todo w = [MCleanup] → server_down w = true → tracks_ w = [] → managed w = [] →
  runs (exec MCleanup) (set_todo [] w) (λ _ w', inv w' ∧ ended w w').
Proof.
  intros [[Ho Hfr Hbo Hor Hs] Hsh] Et Ed Etr Em. cbn [exec]. unfold run_DoPacketCleanup. apply runs_get, runs_mod, runs_mod_last.
  cbn [todo set_todo set_cleanup]. rewrite app_nil_r.
  assert (length (cleanup_queue_ w) ≤ length (received w)) as Hlen.
  { rewrite <-(length_fmap snd (received w)). apply submseteq_length, NoDup_submseteq.
    - pose proof (ord_once _ _ _ _ _ Hor) as Hnd. unfold done_list in Hnd. apply NoDup_app in Hnd as (_ & _ & Hnd).
      by apply NoDup_app in Hnd as (_ & _ & Hnd).
    - intros p Hp. apply (ord_received _ _ _ _ _ Hor). unfold done_list. rewrite !elem_of_app. auto. }
  split; [split; [|by apply sh_last]|split_and!; [|done..]].
  2: { rewrite Et. cbn [todo set_todo]. rewrite weight_returns. cbn. lia. }
  apply (run_DoPacketCleanup_base (set_todo [] w)); try done.
  - by apply objects_todo.
  - intros o l Hl Hb. destruct (Hbo o l Hl Hb) as [|Hin]; [by left|]. rewrite Et in Hin. by apply list_elem_of_singleton in Hin.
  - apply (returns_todo w []); by rewrite ?Et.
Qed.

Lemma return_step p ps w :
  inv w → todo w = MReturn p :: map MReturn ps →
  runs (exec (MReturn p)) (set_todo (map MReturn ps) w)
    (λ _ w', base w' ∧ mixed (set_todo (map MReturn ps) w) w' ∧ ended w w').
Proof.
  intros [[Ho Hfr Hbo Hor Hs] Hsh] Et. cbn [exec]. apply runs_mod_last. set (w1 := add_returned _ _).
  split; [split; try done|split; [by split|]].
  4: { split_and!; [|done..]. rewrite Et. change (MReturn p :: ?k) with (map MReturn (p :: ps)).
       cbn [todo w1 add_returned set_todo]. rewrite !weight_returns. cbn. lia. }
  - destruct Ho. by split.
  - intros o l Hl Hb. destruct (Hbo o l Hl Hb) as [|Hin]; [by left|]. rewrite Et in Hin. right. by apply elem_of_cons in Hin as [|].
  - unfold returns_in_order in *. rewrite Et in Hor. cbn [todo w1 add_returned set_todo]. rewrite drops_map_nil by done.
    assert (drops (MReturn p :: map MReturn ps) = []) as Edr by (apply (drops_map_nil MReturn (p :: ps)); done). rewrite Edr in Hor.
    assert (done_list w1 = done_list w) as ->.
    { unfold done_list. rewrite Et. cbn [todo w1 add_returned set_todo returned cleanup_queue_]. rewrite fmap_app.
      change (MReturn p :: map MReturn ps) with (map MReturn (p :: ps)). rewrite !returns_of_returns. cbn. by rewrite <-app_assoc. }
    eapply ordered_ext; [exact Hor| |by left]. intros l. unfold held. rewrite Et. cbn [todo w1 add_returned set_todo].
    rewrite pushes_map_nil by done. change (MReturn p :: map MReturn ps) with (map MReturn (p :: ps)). by rewrite pushes_map_nil.
Qed.

Lemma reply_step c w :
  inv w → todo w = [MReply c] → server_down w = false → runs (exec (MReply c)) (set_todo [] w) (λ _ w', inv w').
Proof.
  intros [Hb Hsh] Et Ed. cbn [exec]. apply runs_mod_last.
  assert (base (set_todo [] w)) as [Ho Hfr Hbo Hor Hs].
  { apply todo_base; rewrite ?Et; try done. by intros o' ?%list_elem_of_singleton. }
  split; [split; try done; destruct Ho; by split|by constructor].
Qed.

(** ** Every step *)

Lemma erase_plain o : plain [MErase o].
Proof. split_and!; try done. by intros o' ?%list_elem_of_singleton. Qed.
Lemma end_plain os : plain (map MShutdown os ++ [MPoolDown; MCleanup]).
Proof.
  split_and!.
  - unfold returns. by rewrite omap_app, omap_map_nil.
  - unfold drops. by rewrite omap_app, omap_map_nil.
  - intros l. by rewrite pushes_app, pushes_map_nil.
  - intros o [Hin|Hin]%elem_of_app; [by apply list_elem_of_fmap in Hin as (? & ? & _)|].
    repeat (apply elem_of_cons in Hin as [|Hin]; [done|]). by apply elem_of_nil in Hin.
Qed.

Lemma output_step o m ms w :
  inv w → todo w = m :: ms ++ [MErase o] → plan w o (m :: ms) → server_down w = false → ¬ waits m w → ¬ racy m w →
  runs (exec m) (set_todo (ms ++ [MErase o]) w) (λ _ w', inv w').
Proof.
  intros [Hb _] Et Hp Ed Hw Hr. eapply runs_mono; [by eapply plan_step; try apply erase_plain|]. cbn beta.
  intros _ w' (Hb' & U & ms' & Et' & Hp' & _). split; [done|]. rewrite Et'. apply sh_output; [|done].
  by destruct (un_server _ _ U) as (-> & _).
Qed.
Lemma shutdown_plan_step o os m ms w :
  inv w → todo w = m :: ms ++ map MShutdown os ++ [MPoolDown; MCleanup] → plan w o (m :: ms) →
  server_down w = true → thread_pool_ w = true → tracks_ w = [] →
  (∀ o', o' ∈ managed w → shut_down_ (out w o') = true ∨ o' = o ∨ o' ∈ os) → ¬ waits m w → ¬ racy m w →
  runs (exec m) (set_todo (ms ++ map MShutdown os ++ [MPoolDown; MCleanup]) w) (λ _ w', inv w' ∧ ended w w').
Proof.
  intros [Hb _] Et Hp Ed Epl Etr Hm Hw Hr. eapply runs_mono; [by eapply plan_step; try apply end_plain|]. cbn beta.
  intros _ w' (Hb' & U & ms' & Et' & Hp' & Hlt). destruct (un_server _ _ U) as (E1 & E2 & E3 & E4).
  split; [split; [done|]|split_and!; [|done|apply U]]; rewrite Et'.
  2: { rewrite Et. change (m :: ms ++ ?k) with ((m :: ms) ++ k). rewrite !(steps_weight_app _ _ (map MShutdown os ++ _)).
       assert (weight w' (map MShutdown os ++ [MPoolDown; MCleanup]) ≤ weight w (map MShutdown os ++ [MPoolDown; MCleanup])); [|lia].
       apply weight_mono. intros m' [(o' & -> & _)%list_elem_of_fmap|Hm']%elem_of_app; [cbn; pose proof (un_links _ _ U o'); lia|].
       repeat (apply elem_of_cons in Hm' as [->|Hm']; [cbn; try rewrite (un_received _ _ U); lia|]). by apply elem_of_nil in Hm'. }
  apply (sh_shutdown _ o); rewrite ?E1, ?E2, ?E3, ?E4; try done. intros o' Ho'. destruct (Hm o' Ho') as [|]; [left; by apply U|by right].
Qed.

(** The shutdown of one output after another. *)
Lemma shape_next w :
  shape w (todo w) → ∀ o os, todo w = map MShutdown os ++ [MPoolDown; MCleanup] → plan w o [] →
  (∀ o', o' ∈ managed w → shut_down_ (out w o') = true ∨ o' = o ∨ o' ∈ os) →
  match os with
  | [] => ∀ o', o' ∈ managed w → shut_down_ (out w o') = true
  | o1 :: os' => ∀ o', o' ∈ managed w → shut_down_ (out w o') = true ∨ o' = o1 ∨ o' ∈ os'
  end.
Proof.
  intros _ o os _ Hp Hm. assert (shut_down_ (out w o) = true) as Hs.
  { remember [] as ms eqn:E. destruct Hp as [| |us|]; try done. by destruct us. }
  destruct os as [|o1 os]; intros o' Ho'; destruct (Hm o' Ho') as [|[->|Hin]]; auto.
  - by apply elem_of_nil in Hin.
  - apply elem_of_cons in Hin as [|]; auto.
Qed.

Lemma step_inv m rest w :
  inv w → todo w = m :: rest → ¬ waits m w → ¬ racy m w →
  runs (exec m) (set_todo rest w) (λ _ w', inv w' ∧ (server_down w = true → ended w w')).
Proof.
  intros Hinv Et Hw Hr. pose proof Hinv as [Hb Hsh]. rewrite Et in Hsh. set (Q := λ (_ : unit) w', inv w' ∧ _).
  assert (∀ f w0, server_down w = false → runs f w0 (λ _ w', inv w') → runs f w0 Q) as Hup.
  { intros f w0 Ed H. eapply runs_mono; [exact H|]. intros ? w' Hi. split; [done|]. by rewrite Ed. }
  assert (∀ f w0, runs f w0 (λ _ w', inv w' ∧ ended w w') → runs f w0 Q) as Hdown.
  { intros f w0 H. eapply runs_mono; [exact H|]. by intros ? w' []. }
  remember (m :: rest) as k eqn:E.
  destruct Hsh as [|t p ls Ed Hnd Hls|t ls c Ed Hls|t os f Ed Ht Hos|o ms Ed Hp|ps Ed|Ed Epl|Ed Epl Etr
    |o os ms Ed Epl Etr Hp Hm|Ed Epl Etr Hm|Ed Etr Em|ps Ed Etr Em Ec]; [done|..].
  - apply Hup; [done|]. destruct ls as [|l ls]; cbn in E; injection E as <- <-; [by apply drop_step|by apply (push_step _ _ t)].
  - apply Hup; [done|]. destruct ls as [|l ls]; cbn in E; injection E as <- <-; [by apply reply_step|]. apply (flush_step _ t); try done.
    cbn in Hw. by destruct (flush_lock_held l w).
  - apply Hup; [done|]. destruct os as [|o os]; cbn in E; [done|]; injection E as <- <-. by apply link_step.
  - apply Hup; [done|]. destruct ms as [|m' ms]; cbn in E; injection E as <- <-; [|by apply output_step].
    apply erase_step; try done. clear -Hp. remember [] as ms eqn:E'. destruct Hp as [| |us|]; try done. by destruct us.
  - apply Hup; [done|]. destruct ps as [|p ps]; cbn in E; [done|]; injection E as <- <-.
    eapply runs_mono; [by apply return_step|]. cbn beta. intros _ w' (Hb' & M & _). split; [done|].
    destruct (mx_server _ _ M) as (E1 & _ & _ & _ & ->). by apply sh_return; rewrite E1.
  - injection E as <- <-. by apply Hdown, tracks_step.
  - injection E as <- <-. by apply Hdown, outputs_step.
  - apply Hdown. destruct ms as [|m' ms]; cbn in E.
    + pose proof (shape_next w (proj2 Hinv) o os Et Hp Hm) as Hnext.
      destruct os as [|o1 os]; cbn in E; injection E as <- <-; [by apply pool_step|].
      apply (shutdown_plan_step o1 os _ []); try done. constructor.
    + injection E as <- <-. by apply (shutdown_plan_step o).
  - injection E as <- <-. by apply Hdown, pool_step.
  - injection E as <- <-. by apply Hdown, cleanup_step.
  - apply Hdown. destruct ps as [|p ps]; cbn in E; [done|]; injection E as <- <-.
    eapply runs_mono; [by apply return_step|]. cbn beta. intros _ w' (Hb' & M & He). split; [split; [done|]|done].
    destruct (mx_server _ _ M) as (E1 & E2 & E3 & E4 & ->). apply sh_last; rewrite ?E1, ?E3, ?E4; try done.
    by rewrite (mx_quiet _ _ M).
Qed.

(** Every action, but one race, keeps the invariant. *)
Definition no_race (a : action) w : Prop := a = Step → ∀ m rest, todo w = m :: rest → ¬ racy m w.
Lemma act_inv a w : inv w → enabled a w → no_race a w → runs (act a) w (λ _ w', inv w').
Proof.
  intros Hinv Ha Hr. destruct a as [e| |o c]; [by apply event_inv| |by apply call_inv].
  destruct Ha as (m & rest & Et & Hw). cbn [act]. apply runs_get. rewrite Et. apply runs_mod.
  eapply runs_mono; [apply step_inv; try done; by apply (Hr eq_refl m rest)|]. by intros _ w' [].
Qed.
(** The race: a check fails. *)
Lemma race_result m rest w :
  inv w → todo w = m :: rest → racy m w →
  act Step w = Fault DCheckFailed.
Proof.
  intros [Hb _] Et Hr. destruct m as [| | | | | | | |l| | | | | |]; try done. destruct Hr as (Hdc & Ha & Hbd).
  cbn [act]. erewrite prog_bind_run by done. rewrite Et. erewrite prog_bind_run by done. cbn [exec]. erewrite prog_bind_run by done.
  change (alive (track_ (lk (set_todo rest w) l)) (set_todo rest w)) with (alive (track_of w l) w). rewrite Ha.
  unfold RemoveOutput. erewrite prog_bind_run by done. change (tr (set_todo rest w) (track_ (lk (set_todo rest w) l))) with (tr w (track_of w l)).
  destruct (ob_unbound _ (inv_objects _ Hb) _ Hbd) as (_ & _ & ->). rewrite bool_decide_eq_false_2 by (by intros ?%elem_of_nil).
  unfold dcheckS, dcheck, liftO. by rewrite Hdc.
Qed.

End Run.
End AudioServerRun.
