(* ===== verification/AudioSession.v ===== *)
(** What the audio server does for its clients from its start to its end: every packet comes
    back once, in order; nothing fails but one race; and the end leaves nothing behind. *)

From stdpp Require Import gmap.
From S2P Require Import Prelude LinearTransform StreamTypes TypeConversions MediaPipe AudioReturn AudioServer AudioServerSpec AudioServerRun.
Import LinearTransform StreamTypes TypeConversions AudioReturn AudioServer AudioServerSpec AudioServerRun.
Import MediaPipe (SendResult, CONSUMED, FLUSHED).
Local Open Scope nat_scope.

Module AudioSession.
Section Session.
Context `{BD : Build}.
Implicit Types (w : world) (l o t p : nat).

(** ** The start *)

(** Outputs below [n] are started, or failed and were let go of. *)
Record starting (n : nat) w : Prop := {
  st_world : ∃ outs m ps, w = mk_world ∅ outs ∅ 0 m true [] false [] false ps [] [] [] [] [];
  st_some o : is_Some (outputs w !! o) ↔ o < n;
  st_output o : links_ (out w o) = [] ∧ shut_down_ (out w o) = false ∧ processing (out w o) = None;
  st_runner o : o < n → task_runner_ (out w o) = negb (shutting_down_ (out w o));
}.

Lemma starting_next n w (f : output → output) m ps :
  starting n w → let x := f (out w n) in
  links_ x = [] → shut_down_ x = false → processing x = None → task_runner_ x = negb (shutting_down_ x) →
  starting (S n) (set_managed m (set_posted ps (upd_output n f w))).
Proof.
  intros [Hw H2 H3 H4] x F1 F2 F3 F4. set (w1 := set_managed _ _).
  assert (∀ o, out w1 o = if decide (o = n) then f (out w n) else out w o) as Eo by (intros o; exact (out_upd_output n o f w)).
  split.
  - destruct Hw as (outs & m0 & ps0 & ->). by eexists _, _, _.
  - intros o. change (outputs w1) with (<[n := x]> (outputs w)). destruct (decide (o = n)) as [->|Hne].
    + rewrite lookup_insert_eq. split; [lia|by eexists].
    + rewrite lookup_insert_ne by done. rewrite (H2 o). lia.
  - intros o. rewrite Eo. destruct (decide _) as [->|]; [done|apply H3].
  - intros o Ho. rewrite Eo. destruct (decide _) as [->|]; [done|]. apply H4. lia.
Qed.

Definition begun (x : output) : output :=
  mk_output (links_ x) true (shut_down_ x) false (weak_self_ x) (thunks x) (processing x).
Lemma ShutdownSelf_run o w :
  shutting_down_ (out w o) = false → weak_self_ (out w o) = false →
  ShutdownSelf o w = Ok (tt, set_posted (posted w ++ [FinishShutdownSelf None]) (upd_output o begun w)).
Proof.
  intros Hd Hw. unfold ShutdownSelf, BeginShutdown. erewrite prog_bind_run; cycle 1.
  { erewrite prog_bind_run by done. rewrite Hd. by erewrite prog_bind_run by done. }
  cbv iota beta. erewrite prog_bind_run by done. rewrite out_upd_output, decide_True by done. cbn [weak_self_ begun].
  unfold begun. cbn. by rewrite Hw.
Qed.

Lemma init_outputs_runs rs n w :
  starting n w → runs (init_outputs n rs) w (λ _ w', starting (n + length rs) w' ∧ ∀ o, o ∈ managed w' → o ∈ managed w).
Proof.
  revert n w. induction rs as [|r rs IH]; intros n w Hst; cbn [init_outputs].
  { apply runs_ret. split; [by rewrite Nat.add_0_r|done]. }
  assert (out w n = no_output) as En.
  { unfold out. destruct (outputs w !! n) eqn:E; [|done]. assert (n < n) by (apply (st_some _ _ Hst); by eexists). lia. }
  assert (∀ w1, starting (S n) w1 → (∀ o, o ∈ managed w1 → o ∈ managed w) →
    runs (init_outputs (S n) rs) w1 (λ _ w', starting (n + length (r :: rs)) w' ∧ ∀ o, o ∈ managed w' → o ∈ managed w)) as Hgo.
  { intros w1 Hst1 Hm. eapply runs_mono; [by apply IH|]. cbn beta. intros _ w' [Hst' Hm'].
    split; [by replace (n + length (r :: rs)) with (S n + length rs) by (cbn; lia)|auto]. }
  unfold AudioOutput_Init. destruct (decide (r = OK)) as [->|Hr].
  - eapply runs_step; [done|]. rewrite decide_True by done. eapply runs_step; [done|]. apply Hgo; [|done].
    apply (starting_next n w _ (managed w) (posted w) Hst); by rewrite En.
  - set (w1 := set_posted (posted w ++ [FinishShutdownSelf None]) (upd_output n begun w)).
    assert (starting (S n) (set_managed (remove_one n (managed w)) w1)) as Hst1 by (apply (starting_next n w _ _ _ Hst); by rewrite En).
    apply runs_step with (a := r) (s' := w1).
    { erewrite prog_bind_run; [|apply ShutdownSelf_run; by rewrite En]. done. }
    rewrite decide_False by done. eapply runs_step; [erewrite prog_bind_run by done|].
    { unfold destroy_output. erewrite prog_bind_run by done. apply dcheckS_true.
      change (out (set_managed _ w1) n) with (out (upd_output n begun w) n). by rewrite out_upd_output, decide_True. }
    apply Hgo; [exact Hst1|]. intros o Ho. cbn in Ho. by apply elem_of_remove_one in Ho as [? _].
Qed.

Lemma started_inv n w : starting n w → (∀ o, o ∈ managed w → o < n) → inv w.
Proof.
  intros [(outs & m & ps & ->) H2 H3 H4] Hm. set (w := mk_world _ _ _ _ _ _ _ _ _ _ _ _ _ _ _ _) in *.
  assert (∀ l, lk w l = no_link) as El by (intros l; unfold lk; cbn; by rewrite lookup_empty).
  assert (∀ t, tr w t = no_track) as Et by (intros t; unfold tr; cbn; by rewrite lookup_empty).
  assert (∀ o, out w o = no_output ∨ o < n) as Eo.
  { intros o. destruct (outs !! o) eqn:E; [right; apply H2; by eexists|left]. unfold out. cbn. by rewrite E. }
  assert (∀ o, links_ (out w o) = []) as E1 by apply H3. assert (∀ o, shut_down_ (out w o) = false) as E2 by apply H3.
  assert (∀ o, processing (out w o) = None) as E3 by apply H3.
  split; [|by constructor]. split.
  - split; intros *; rewrite ?Et, ?E1, ?E2, ?E3; cbn; try done; try (by intros ?%elem_of_nil).
    1-3: by constructor.
    + split; [by intros ?%elem_of_nil|done].
    + destruct (Eo o) as [E|Hlt]; [by rewrite E|]. intros Hd. by rewrite H4, Hd.
    + intros Hd Hor. assert (o < n) as Hlt.
      { destruct (Eo o) as [E|]; [|done]. destruct Hor as [Ho|[|Ho]]; [by apply Hm|done|]. rewrite E in Ho. by apply Nat.nlt_0_r in Ho. }
      by rewrite H4, Hd.
  - intros l _. by rewrite El.
  - intros o l. rewrite E1. by intros ?%elem_of_nil.
  - split.
    + constructor.
    + intros l. unfold held. rewrite El. apply suffix_nil.
    + by intros p ?%elem_of_nil.
    + constructor.
    + by intros p ?%elem_of_nil.
    + intros t. exists 0. split; [done|]. intros i p Hp. by apply list_elem_of_lookup_2, elem_of_nil in Hp.
  - by split.
Qed.

Lemma Manager_Init_inv results : runs (Manager_Init results) empty_world (λ _ w, inv w).
Proof.
  unfold Manager_Init. apply runs_mod, runs_mod. set (w0 := set_managed _ _).
  eapply runs_mono; [apply (init_outputs_runs results 0 w0)|cbn beta].
  - split; [by eexists _, _, _|..].
    + intros o. cbn. rewrite lookup_empty. split; [by intros []|lia].
    + intros o. unfold out. cbn. by rewrite lookup_empty.
    + lia.
  - intros _ w [Hst Hm]. apply (started_inv _ _ Hst). intros o Ho. apply Hm in Ho. cbn in Ho. apply elem_of_seq in Ho. lia.
Qed.

(** ** Reachable states *)

Definition step w w' : Prop := ∃ a, enabled a w ∧ act a w = Ok (tt, w').
Definition reachable w : Prop := ∃ results w0, Manager_Init results empty_world = Ok (tt, w0) ∧ rtc step w0 w.
(** Steps of the main thread only. *)
Definition main_step w w' : Prop := enabled Step w ∧ act Step w = Ok (tt, w').

Lemma runs_det {S A} (m : prog S A) s a s' Q : runs m s Q → m s = Ok (a, s') → Q a s'.
Proof. intros (a' & s'' & E & HQ) E'. rewrite E in E'. by injection E' as <- <-. Qed.

Definition failed {A} (r : outcome A) : bool := match r with Ok _ => false | Fault _ => true end.
Lemma failed_ok {A} (r : outcome A) x : r = Ok x → failed r = false.
Proof. by intros ->. Qed.

Definition races w : Prop := ∃ m rest, todo w = m :: rest ∧ racy m w.
Lemma racy_dec m w : racy m w ∨ ¬ racy m w.
Proof.
  destruct m as [| | | | | | | |l| | | | | |]; try (by right; intros []). cbn.
  destruct dcheck_is_on, (alive (track_of w l) w), (bound (tr w (track_of w l))); naive_solver.
Qed.
Lemma races_dec w : races w ∨ ¬ races w.
Proof.
  destruct (todo w) as [|m rest] eqn:E; [right; by intros (m & rest & E' & _); rewrite E in E'|].
  destruct (racy_dec m w) as [H|H]; [left; by exists m, rest|]. right. intros (m' & rest' & E' & H'). rewrite E in E'. by simplify_eq.
Qed.

(** An enabled action runs, but for the race, in which a check fails. *)
Lemma act_cases a w :
  inv w → enabled a w → runs (act a) w (λ _ w', inv w') ∨ a = Step ∧ races w ∧ act a w = Fault DCheckFailed.
Proof.
  intros Hi Ha. destruct a as [e| |o c].
  - left. by apply act_inv.
  - destruct (races_dec w) as [(m & rest & E & Hr)|Hr].
    + right. split_and!; [done|by exists m, rest|by apply (race_result m rest)].
    + left. apply act_inv; [done..|]. intros _ m rest E Hm. apply Hr. by exists m, rest.
  - left. by apply act_inv.
Qed.
Lemma step_keeps w w' : inv w → step w w' → inv w'.
Proof.
  intros Hi (a & Ha & E). destruct (act_cases a w Hi Ha) as [H|(_ & _ & E')]; [|by rewrite E in E'].
  by apply (runs_det _ _ _ _ _ H E).
Qed.
Lemma reachable_inv w : reachable w → inv w.
Proof.
  intros (rs & w0 & E & Hsteps). assert (inv w0) as Hi by (by apply (runs_det _ _ _ _ _ (Manager_Init_inv rs) E)). clear E.
  induction Hsteps as [|w w1 w2 H _ IH]; [done|]. by eapply IH, step_keeps.
Qed.

(** ** Where the packets are *)

(** What still has a packet: the queue of a link that is held, the main thread that hands it
    to links, or the list of those that wait for their return. *)
Inductive kept w (p : nat) : Prop :=
  | kept_queue l : link_held l w = true → p ∈ pending_queue_ (lk w l) → kept w p
  | kept_main : (∃ l, MPush l p ∈ todo w) ∨ MDrop p ∈ todo w → kept w p
  | kept_returning : MReturn p ∈ todo w → kept w p
  | kept_waiting : p ∈ cleanup_queue_ w → DoPacketCleanup ∈ posted w ∨ server_down w = true → kept w p.

Lemma elem_of_returns p ms : p ∈ returns ms ↔ MReturn p ∈ ms.
Proof.
  unfold returns. rewrite list_elem_of_omap. split; [|intros H; by exists (MReturn p)].
  intros (m & Hm & E). destruct m; naive_solver.
Qed.
Lemma elem_of_drops p ms : p ∈ drops ms ↔ MDrop p ∈ ms.
Proof.
  unfold drops. rewrite list_elem_of_omap. split; [|intros H; by exists (MDrop p)].
  intros (m & Hm & E). destruct m; naive_solver.
Qed.
Lemma elem_of_pushes l p ms : p ∈ pushes l ms ↔ MPush l p ∈ ms.
Proof.
  unfold pushes. rewrite list_elem_of_omap. split.
  - intros (m & Hm & E). destruct m as [l' q| | | | | | | | | | | | | |]; try done. destruct (decide (l' = l)); naive_solver.
  - intros H. exists (MPush l p). split; [done|]. by rewrite decide_True.
Qed.

Lemma refd_kept w p : base w → refd (held w) (drops (todo w)) p → kept w p.
Proof.
  intros Hb [[l [Hl|Hl]%elem_of_app]|Hd].
  - destruct (link_held l w) eqn:E; [by eapply kept_queue|]. rewrite (inv_free _ Hb l E) in Hl. by apply elem_of_nil in Hl.
  - apply kept_main. left. exists l. by apply elem_of_pushes.
  - apply kept_main. right. by apply elem_of_drops.
Qed.

Lemma packet_kept w t p : base w → (t, p) ∈ received w → p ∈ (returned w).*1 ∨ kept w p.
Proof.
  intros Hb Hp. pose proof (inv_order _ Hb) as Hor. apply elem_of_track in Hp as Hp'. apply list_elem_of_lookup in Hp' as [i Hi].
  destruct (ord_done _ _ _ _ _ Hor t) as (k & Ek & Hk). destruct (decide (k ≤ i)) as [Hle|Hlt].
  - right. apply refd_kept; [done|]. by apply (Hk i p Hi).
  - assert (p ∈ done_list w) as Hd.
    { assert (p ∈ filter (λ p, (t, p) ∈ received w) (done_list w)) as [_ ?]%list_elem_of_filter; [|done].
      rewrite Ek. apply list_elem_of_lookup. exists i. apply lookup_take_Some. split; [done|lia]. }
    unfold done_list in Hd. rewrite !elem_of_app in Hd. destruct Hd as [Hd|[Hd|Hd]]; [by left|right..].
    + apply kept_returning. by apply elem_of_returns.
    + apply kept_waiting; [done|]. destruct (inv_scheduled _ Hb) as [S1 S2]. destruct (server_down w); [by right|left].
      apply S1, S2; [done|]. intros E. rewrite E in Hd. by apply elem_of_nil in Hd.
Qed.

(** Packets that came back for a track are the first that it received. *)
Lemma returned_prefix w t : base w → filter (λ p, (t, p) ∈ received w) (returned w).*1 `prefix_of` of_track t (received w).
Proof.
  intros Hb. destruct (ord_done _ _ _ _ _ (inv_order _ Hb) t) as (k & Ek & _). unfold done_list in Ek. rewrite filter_app in Ek.
  trans (take k (of_track t (received w))); [|apply prefix_take]. rewrite <-Ek. by eexists.
Qed.

(** ** The end *)

Definition quiet w : Prop := ∀ o, processing (out w o) = None.

Lemma quiet_check w : bool_decide (map_Forall (λ _ x, ¬ is_Some (processing x)) (outputs w)) = true → quiet w.
Proof.
  intros H%bool_decide_eq_true o. unfold out. destruct (outputs w !! o) as [x|] eqn:E; [|done]. cbn. specialize (H o x E).
  cbn in H. apply eq_None_not_Some. exact H.
Qed.

(** While no output processes, the main thread neither waits nor races. *)
Lemma quiet_goes_on m rest w : inv w → quiet w → todo w = m :: rest → ¬ waits m w ∧ ¬ racy m w.
Proof.
  intros [Hb _] Hq Et. assert (∀ l, flush_lock_held l w = false) as Hfl.
  { intros l. apply bool_decide_eq_false_2. intros (o & x & Ex & Hx). pose proof (Hq o) as Hp. unfold out in Hp. rewrite Ex in Hp.
    unfold locks_front in Hx. cbn in Hp. by rewrite Hp in Hx. }
  assert (∀ t, alive t w = true → bound (tr w t) = true) as Hal.
  { intros t Ha. apply (ob_bound _ (inv_objects _ Hb)). unfold alive in Ha.
    apply orb_true_iff in Ha as [Ha%bool_decide_eq_true|Ha%bool_decide_eq_true]; [done|].
    destruct Ha as (o & x & Ex & Hx). pose proof (Hq o) as Hp. unfold out in Hp. rewrite Ex in Hp. cbn in Hp.
    unfold visits in Hx. by rewrite Hp in Hx. }
  destruct m as [| |l| |t o r| | |o|l| | | | | |]; split; cbn; try (by intros []); rewrite ?Hfl, ?Hq; try done.
  intros (_ & Ha & Hbd). by rewrite Hal in Hbd.
Qed.

Lemma main_step_ends m rest w :
  inv w → server_down w = true → quiet w → todo w = m :: rest →
  ∃ w', main_step w w' ∧ inv w' ∧ server_down w' = true ∧ quiet w' ∧ weight w' (todo w') < weight w (todo w).
Proof.
  intros Hi Hd Hq Et. destruct (quiet_goes_on m rest w Hi Hq Et) as [Hw Hr].
  destruct (step_inv m rest w Hi Et Hw Hr) as ([] & w' & E & Hi' & He). destruct (He Hd) as (Hlt & Hd' & Hp).
  exists w'. split_and!; [|done|by rewrite Hd'| |done].
  - split; [by exists m, rest|]. cbn [act]. erewrite prog_bind_run by done. rewrite Et. by erewrite prog_bind_run by done.
  - intros o. by rewrite Hp.
Qed.

Lemma shutdown_ends n w :
  weight w (todo w) ≤ n → inv w → server_down w = true → quiet w →
  ∃ k w', k ≤ weight w (todo w) ∧ nsteps main_step k w w' ∧ inv w' ∧ server_down w' = true ∧ todo w' = [].
Proof.
  revert w. induction n as [|n IH]; intros w Hle Hi Hd Hq; destruct (todo w) as [|m rest] eqn:Et.
  1, 3: exists 0, w; split_and!; try done; by constructor.
  all: destruct (main_step_ends m rest w Hi Hd Hq Et) as (w1 & H1 & Hi1 & Hd1 & Hq1 & Hlt); rewrite Et in Hlt; try lia.
  destruct (IH w1) as (k & w' & Hk & Hs & Hrest); [lia|done..|].
  exists (S k), w'. split_and!; [lia|by eapply nsteps_l|apply Hrest..].
Qed.

(** What is left then. *)
Lemma all_returned w t :
  inv w → server_down w = true → todo w = [] →
  tracks_ w = [] ∧ managed w = [] ∧ cleanup_queue_ w = [] ∧
  filter (λ p, (t, p) ∈ received w) (returned w).*1 = of_track t (received w).
Proof.
  intros [Hb Hsh] Hd Et. assert (tracks_ w = [] ∧ managed w = [] ∧ cleanup_queue_ w = []) as (E1 & E2 & E3).
  { rewrite Et in Hsh. clear Hb. remember [] as ms eqn:E in Hsh. destruct Hsh as [|? ? ls|? ls|? os|? ms|ps| | |? ? ms| | |ps]; try congruence;
      try (by destruct ls); [by destruct ms, os|done]. }
  split_and!; [done..|]. pose proof (inv_objects _ Hb) as Ho.
  assert (∀ l, pending_queue_ (lk w l) = []) as Hq.
  { intros l. apply (inv_free _ Hb). unfold link_held. rewrite (ob_unmanaged _ Ho) by (rewrite E2; by intros ?%elem_of_nil).
    assert (bound (tr w (track_ (lk w l))) = false) as Hbd.
    { apply not_true_iff_false. rewrite <-(ob_bound _ Ho), E1. by intros ?%elem_of_nil. }
    destruct (ob_unbound _ Ho _ Hbd) as (_ & _ & ->). rewrite !bool_decide_eq_false_2; [done|by intros ?%elem_of_nil..]. }
  destruct (ord_done _ _ _ _ _ (inv_order _ Hb) t) as (k & Ek & Hk). unfold done_list in Ek. rewrite Et, E3, !app_nil_r in Ek.
  rewrite Ek. apply take_ge. destruct (decide (length (of_track t (received w)) ≤ k)) as [|Hlt]; [done|exfalso].
  destruct (lookup_lt_is_Some_2 (of_track t (received w)) k) as [p Hp]; [lia|].
  destruct (proj1 (Hk k p Hp) (le_n k)) as [[l Hl]|Hl].
  - unfold held in Hl. rewrite Hq, Et in Hl. by apply elem_of_nil in Hl.
  - rewrite Et in Hl. by apply elem_of_nil in Hl.
Qed.

(** ** Traces *)

Definition is_nil {A} (xs : list A) : bool := match xs with [] => true | _ => false end.
Definition waitsb (m : micro) w : bool :=
  match m with
  | MFlush l => flush_lock_held l w
  | MSync o | MLink _ o _ => negb (bool_decide (processing (out w o) = None))
  | _ => false
  end.
Definition small (x : Z) : bool := (0 <=? x)%Z && (x <? 2 ^ 32)%Z.
Definition allows (a : action) w : bool :=
  match a with
  | Event e =>
      is_nil (todo w) && negb (server_down w) &&
      match e with
      | ECreateTrack t => bool_decide (tracks w !! t = None)
      | EPacket t p => bound (tr w t) && pipe_ (tr w t) && bool_decide (p ∉ (received w).*2)
      | EFlush t _ => bound (tr w t) && pipe_ (tr w t)
      | EConfigure t c _ => bound (tr w t) && small (audio_frame_ratio c) && small (media_time_ratio c)
      | EGetRateControl t | ERateControlGone t | ESetGain t _ | EGone t => bound (tr w t)
      | ERun | EShutdown => true
      end
  | Step => match todo w with m :: _ => negb (waitsb m w) | [] => false end
  | Mix o c =>
      let x := out w o in
      match c, processing x with
      | CBegin, None => 0 <? thunks x
      | CVisit l, Some (mk_mixer None None) => bool_decide (l ∈ links_ x)
      | (CLock | CLeave), Some (mk_mixer (Some _) None) => true
      | CUnlock _, Some (mk_mixer (Some _) (Some _)) => true
      | (CSchedule | CShutdownSelf), Some _ => true
      | CEnd, Some (mk_mixer None None) => true
      | _, _ => false
      end
  end.
Lemma waitsb_spec m w : waits m w → waitsb m w = true.
Proof. destruct m; try done; cbn; (destruct (bool_decide_reflect (processing (out w o) = None)); done). Qed.
Lemma small_is_u x : small x = true → is_u 32 x.
Proof. unfold small, is_u. rewrite andb_true_iff, Z.leb_le, Z.ltb_lt. lia. Qed.
Lemma allows_enabled a w : allows a w = true → enabled a w.
Proof.
  destruct a as [e| |o c]; cbn [allows enabled].
  - rewrite !andb_true_iff, negb_true_iff. intros [[Ht Hd] He]. split; [by destruct (todo w)|]. split; [done|].
    destruct e; try done; rewrite ?andb_true_iff in He; destruct_and?; rewrite ?bool_decide_eq_true in *;
      split_and?; auto using small_is_u.
  - destruct (todo w) as [|m rest]; [done|]. rewrite negb_true_iff. intros Hw. exists m, rest. split; [done|].
    intros H%waitsb_spec. congruence.
  - unfold call_enabled. destruct c, (processing (out w o)) as [[[l'|] [f'|]]|]; try done; rewrite ?bool_decide_eq_true, ?Nat.ltb_lt; eauto.
Qed.

Fixpoint play (acts : list action) w : option world :=
  match acts with
  | [] => Some w
  | a :: rest => if allows a w then match act a w with Ok (_, w') => play rest w' | _ => None end else None
  end.
Lemma play_steps acts w w' : play acts w = Some w' → rtc step w w'.
Proof.
  revert w. induction acts as [|a acts IH]; intros w; cbn; [intros [= ->]; constructor|].
  destruct (allows a w) eqn:Ea; [|done]. destruct (act a w) as [[[] w1]|] eqn:E; try done. intros H.
  eapply rtc_l; [|by apply IH]. exists a. split; [by apply allows_enabled|done].
Qed.
Definition started results : world := match Manager_Init results empty_world with Ok (_, w) => w | _ => empty_world end.
Definition played results (acts : list action) : world := default empty_world (play acts (started results)).
Lemma played_reachable results acts :
  match play acts (started results) with Some _ => true | None => false end = true → reachable (played results acts).
Proof.
  unfold played. destruct (play acts (started results)) as [w|] eqn:E; [intros _|done]. exists results, (started results). split.
  - destruct (Manager_Init_inv results) as ([] & w0 & E0 & _). unfold started. by rewrite E0.
  - by apply (play_steps acts).
Qed.

(** ** What holds of the server *)

(** C9. Whatever clients, outputs and the main thread do: for each track the packets that came
    back are the first ones that it received, in that order; none came back twice or without
    having been received; and a packet that did not come back yet is in the queue of a link
    that a track or an output holds, in the hands of the main thread, or in the list that
    waits for its return, for which a clean-up is posted. *)
Theorem audio_packets w :
  reachable w →
  (∀ t, filter (λ p, (t, p) ∈ received w) (returned w).*1 `prefix_of` of_track t (received w)) ∧
  NoDup (returned w).*1 ∧ (∀ p, p ∈ (returned w).*1 → p ∈ (received w).*2) ∧
  ∀ t p, (t, p) ∈ received w → p ∈ (returned w).*1 ∨ kept w p.
Proof.
  intros [Hb _]%reachable_inv. pose proof (inv_order _ Hb) as Hor. split_and!.
  - intros t. by apply returned_prefix.
  - pose proof (ord_once _ _ _ _ _ Hor) as Hnd. by apply NoDup_app in Hnd as (? & _).
  - intros p Hp. apply (ord_received _ _ _ _ _ Hor), elem_of_app. by left.
  - intros t p. by apply packet_kept.
Qed.

(** C10. Every action that may happen runs without a failed check, in every state that can be
    reached; but one: the main thread, which shuts an output down, unlinks a track that has
    been shut down while another output still processes it, and the check in
    [AudioTrackImpl::RemoveOutput] fails.  It takes an output that processes. *)
Theorem audio_server_safe a w :
  reachable w → enabled a w →
  (∃ w', act a w = Ok (tt, w') ∧ reachable w') ∨
  a = Step ∧ races w ∧ act a w = Fault DCheckFailed ∧ ∃ o, processing (out w o) ≠ None.
Proof.
  intros Hre Ha. pose proof (reachable_inv w Hre) as Hi. destruct (act_cases a w Hi Ha) as [([] & w' & E & _)|(-> & Hr & E)].
  - left. exists w'. split; [done|]. destruct Hre as (rs & w0 & E0 & Hs). exists rs, w0. split; [done|].
    eapply rtc_r; [exact Hs|]. by exists a.
  - right. split_and!; [done..|]. destruct Hr as (m & rest & Et & Hr). destruct m as [| | | | | | | |l| | | | | |]; try done.
    destruct Hr as (_ & Hal & Hbd). unfold alive in Hal. apply orb_true_iff in Hal as [Hal%bool_decide_eq_true|Hal%bool_decide_eq_true].
    + apply (ob_bound _ (inv_objects _ (proj1 Hi))) in Hal. congruence.
    + destruct Hal as (o & x & Ex & Hx). exists o. unfold out. rewrite Ex. cbn. unfold visits in Hx. by destruct (processing x).
Qed.

(** C11. The end of the server: once it has begun and no output processes, the main thread
    alone, in as many steps as it has still to do at most, reaches the end of its handler;
    then no track and no output is left, the list of packets that wait is empty as
    [~AudioServerImpl] checks, and every packet received was returned, in order. *)
Theorem audio_shutdown w :
  reachable w → server_down w = true → quiet w →
  ∃ n w', n ≤ weight w (todo w) ∧ nsteps main_step n w w' ∧ todo w' = [] ∧ tracks_ w' = [] ∧ managed w' = [] ∧
    cleanup_queue_ w' = [] ∧ ∀ t, filter (λ p, (t, p) ∈ received w') (returned w').*1 = of_track t (received w').
Proof.
  intros Hi%reachable_inv Hd Hq. destruct (shutdown_ends _ w (le_n _) Hi Hd Hq) as (n & w' & Hn & Hs & Hi' & Hd' & Et').
  pose proof (λ t, all_returned w' t Hi' Hd' Et') as H. exists n, w'. split_and!; [done..| | | |intros t; apply H]; apply (H 0).
Qed.


End Session.

(** ** A session with two outputs *)

Section Example.
#[local] Existing Instance debug_build.
Local Open Scope list_scope.

Definition stereo : AudioTrackConfiguration :=
  mk_configuration (mk_media_type AUDIO (details_audio (mk_audio_details SIGNED_16 2 48000)) kAudioEncodingLpcm None) 48000 1000000.
Definition visit o l : list action := [Mix o CBegin; Mix o (CVisit l); Mix o CLock; Mix o (CUnlock true); Mix o CLeave; Mix o CSchedule; Mix o CEnd].
Definition connect : list action :=
  [Event (ECreateTrack 0); Event (EConfigure 0 stereo (λ _, OK)); Step; Step; Event (EPacket 0 7); Step; Step; Step;
   Event (EPacket 0 8); Step; Step; Step].
(** Both outputs mix the first packet, which is returned while the second one waits. *)
Definition mixed_one : list action := connect ++ visit 0 0 ++ visit 1 1 ++ [Event ERun; Step].
(** The server is shut down then. *)
Definition ending : list action := mixed_one ++ [Event EShutdown].
(** The first output shuts itself down, while the second one processes a track that its
    client has closed. *)
Definition racing : list action :=
  connect ++ [Mix 1 CBegin; Mix 1 (CVisit 1); Mix 0 CBegin; Mix 0 CShutdownSelf; Mix 0 CEnd; Event (EGone 0); Event ERun; Step; Step].

Example mixed_one_returned : returned (played [OK; OK] mixed_one) = [(7, CONSUMED)] ∧
  pending_queue_ (lk (played [OK; OK] mixed_one) 0) = [8].
Proof. split; vm_compute; reflexivity. Qed.
Example ending_weight : weight (played [OK; OK] ending) (todo (played [OK; OK] ending)) = 17.
Proof. vm_compute. reflexivity. Qed.
Example ending_returns :
  returned (played [OK; OK] (ending ++ repeat Step 14)) = [(7, CONSUMED); (8, FLUSHED)].
Proof. vm_compute. reflexivity. Qed.

Lemma audio_packets_witness :
  filter (λ p, (0, p) ∈ received (played [OK; OK] mixed_one)) (returned (played [OK; OK] mixed_one)).*1 `prefix_of` [7; 8] ∧
  kept (played [OK; OK] mixed_one) 8.
Proof.
  destruct (audio_packets (played [OK; OK] mixed_one)) as (Hp & _ & _ & Hk).
  { apply (played_reachable [OK; OK] mixed_one). by vm_compute. }
  split; [exact (Hp 0)|]. destruct (Hk 0 8) as [Hr|]; [by vm_compute; right; left| |done].
  assert (bool_decide (8 ∈ (returned (played [OK; OK] mixed_one)).*1) = false) as H%bool_decide_eq_false by (by vm_compute). done.
Defined.
Lemma audio_server_safe_witness :
  races (played [OK; OK] racing) ∧ act Step (played [OK; OK] racing) = Fault DCheckFailed.
Proof.
  assert (enabled Step (played [OK; OK] racing)) as Ha by (apply allows_enabled; by vm_compute).
  assert (reachable (played [OK; OK] racing)) as Hre by (apply played_reachable; by vm_compute).
  destruct (audio_server_safe Step (played [OK; OK] racing) Hre Ha) as [(w' & E & _)|(_ & Hr & E & _)]; [exfalso|split; [exact Hr|exact E]].
  apply failed_ok in E. assert (failed (act Step (played [OK; OK] racing)) = true) as H by (vm_compute; reflexivity).
  exact (eq_true_false_abs _ H E).
Defined.
Lemma audio_shutdown_witness :
  ∃ n w', n ≤ 17 ∧ nsteps main_step n (played [OK; OK] ending) w' ∧ todo w' = [] ∧ managed w' = [].
Proof.
  destruct (audio_shutdown (played [OK; OK] ending)) as (n & w' & Hn & Hs & Et & _ & Em & _).
  - apply played_reachable. by vm_compute.
  - by vm_compute.
  - apply quiet_check. by vm_compute.
  - exists n, w'. split_and!; [|done..]. eapply Nat.le_trans; [exact Hn|]. apply Nat.leb_le. by vm_compute.
Defined.

End Example.
End AudioSession.
