(* ===== verification/CircularBuffer.v ===== *)
(** [CircularBufferMediaPipeAdapter] (mojo/services/media/common/cpp): the producer's
    side of a media pipe, which hands out packets in a circular shared buffer, sends
    them to the consumer and reclaims their space in the order they come back.

    Methods are programs over the adapter's members.  What leaves the adapter (calls
    on the pipe, posted tasks, the user's callbacks) is appended to a log.  The results
    of the system's shared buffer calls are arguments of [Init].  The read and write
    pointers, the flush generation and the sequence number have no initial value in the
    source; they are arguments of [construct]. *)

From S2P Require Import Prelude LinearTransform StreamTypes SharedBuffer Mixer MediaPipe.

Module CircularBuffer.
Import MediaPipe.

(** ** State *)

(** [MediaResult]; [FLUSHED_] is the result, [FLUSHED] the outcome of a sent packet. *)
Inductive MediaResult :=
  | OK | UNKNOWN_ERROR | INTERNAL_ERROR | NOT_IMPLEMENTED | UNSUPPORTED_OPERATION | UNSUPPORTED_CONFIG
  | INVALID_ARGUMENT | INSUFFICIENT_RESOURCES | BAD_STATE | BUF_OVERFLOW | FLUSHED_ | BUSY | PROTOCOL_ERROR
  | ALREADY_EXISTS | NOT_FOUND | SHUTTING_DOWN | CONNECTION_LOST.

#[export] Instance MediaResult_eq_dec : EqDecision MediaResult.
Proof. solve_decision. Defined.

(** [PacketState]; the user's callback is a token, or null. *)
Record PacketState := mk_state { post_consume_rd_ : Z; seq_num_ : Z; user_cbk : option nat }.

(** [MappedPacket] *)
Record MappedPacket := mk_mapped_packet {
  mp_packet : option MediaPacket;
  data_ : option Z * option Z;
  lengths_ : Z * Z;
  cancel_wr_ : Z;
  mp_flush_generation : Z;
}.
Definition MappedPacket_Reset (p : MappedPacket) : MappedPacket :=
  mk_mapped_packet None (None, None) (0, 0) 0 (mp_flush_generation p).

(** What leaves the adapter. *)
Inductive effect :=
  | PipeSetBuffer
  | PipeSendPacket (p : MediaPacket) (seq : Z)
  | PipeFlush
  | PostSignal
  | UserCallback (cbk : nat) (r : SendResult)
  | SignalCallback (r : MediaResult).

Record adapter := mk_adapter {
  pipe_bound : bool;
  signal_cbk_ : bool;
  flush_in_progress_ : bool;
  fault_cbk_made_ : bool;
  cbk_scheduled_ : bool;
  hi_water_mark_ : Z;
  lo_water_mark_ : Z;
  signalled_ : bool;
  internal_state_ : MediaResult;
  handle_valid : bool;
  cb_buffer_ : option Z;
  buffer_size_ : Z;
  rd_ : Z;
  wr_ : Z;
  flush_generation_ : Z;
  seq_num_gen_ : Z;
  in_flight_queue_ : list PacketState;
  effects : list effect;
}.

Definition set_signalled (b : bool) (s : adapter) : adapter :=
  mk_adapter (pipe_bound s) (signal_cbk_ s) (flush_in_progress_ s) (fault_cbk_made_ s) (cbk_scheduled_ s)
    (hi_water_mark_ s) (lo_water_mark_ s) b (internal_state_ s) (handle_valid s) (cb_buffer_ s)
    (buffer_size_ s) (rd_ s) (wr_ s) (flush_generation_ s) (seq_num_gen_ s) (in_flight_queue_ s) (effects s).
Definition set_callbacks (cbk fault_made scheduled : bool) (s : adapter) : adapter :=
  mk_adapter (pipe_bound s) cbk (flush_in_progress_ s) fault_made scheduled
    (hi_water_mark_ s) (lo_water_mark_ s) (signalled_ s) (internal_state_ s) (handle_valid s) (cb_buffer_ s)
    (buffer_size_ s) (rd_ s) (wr_ s) (flush_generation_ s) (seq_num_gen_ s) (in_flight_queue_ s) (effects s).
Definition set_marks (hi lo : Z) (s : adapter) : adapter :=
  mk_adapter (pipe_bound s) (signal_cbk_ s) (flush_in_progress_ s) (fault_cbk_made_ s) (cbk_scheduled_ s)
    hi lo (signalled_ s) (internal_state_ s) (handle_valid s) (cb_buffer_ s)
    (buffer_size_ s) (rd_ s) (wr_ s) (flush_generation_ s) (seq_num_gen_ s) (in_flight_queue_ s) (effects s).
Definition set_state (r : MediaResult) (s : adapter) : adapter :=
  mk_adapter (pipe_bound s) (signal_cbk_ s) (flush_in_progress_ s) (fault_cbk_made_ s) (cbk_scheduled_ s)
    (hi_water_mark_ s) (lo_water_mark_ s) (signalled_ s) r (handle_valid s) (cb_buffer_ s)
    (buffer_size_ s) (rd_ s) (wr_ s) (flush_generation_ s) (seq_num_gen_ s) (in_flight_queue_ s) (effects s).
Definition set_buffer (handle : bool) (b : option Z) (size : Z) (s : adapter) : adapter :=
  mk_adapter (pipe_bound s) (signal_cbk_ s) (flush_in_progress_ s) (fault_cbk_made_ s) (cbk_scheduled_ s)
    (hi_water_mark_ s) (lo_water_mark_ s) (signalled_ s) (internal_state_ s) handle b
    size (rd_ s) (wr_ s) (flush_generation_ s) (seq_num_gen_ s) (in_flight_queue_ s) (effects s).
Definition set_pointers (rd wr : Z) (s : adapter) : adapter :=
  mk_adapter (pipe_bound s) (signal_cbk_ s) (flush_in_progress_ s) (fault_cbk_made_ s) (cbk_scheduled_ s)
    (hi_water_mark_ s) (lo_water_mark_ s) (signalled_ s) (internal_state_ s) (handle_valid s) (cb_buffer_ s)
    (buffer_size_ s) rd wr (flush_generation_ s) (seq_num_gen_ s) (in_flight_queue_ s) (effects s).
Definition set_flush (in_progress : bool) (generation : Z) (s : adapter) : adapter :=
  mk_adapter (pipe_bound s) (signal_cbk_ s) in_progress (fault_cbk_made_ s) (cbk_scheduled_ s)
    (hi_water_mark_ s) (lo_water_mark_ s) (signalled_ s) (internal_state_ s) (handle_valid s) (cb_buffer_ s)
    (buffer_size_ s) (rd_ s) (wr_ s) generation (seq_num_gen_ s) (in_flight_queue_ s) (effects s).
Definition set_queue (seq : Z) (q : list PacketState) (s : adapter) : adapter :=
  mk_adapter (pipe_bound s) (signal_cbk_ s) (flush_in_progress_ s) (fault_cbk_made_ s) (cbk_scheduled_ s)
    (hi_water_mark_ s) (lo_water_mark_ s) (signalled_ s) (internal_state_ s) (handle_valid s) (cb_buffer_ s)
    (buffer_size_ s) (rd_ s) (wr_ s) (flush_generation_ s) seq q (effects s).
Definition unbind (s : adapter) : adapter :=
  mk_adapter false (signal_cbk_ s) (flush_in_progress_ s) (fault_cbk_made_ s) (cbk_scheduled_ s)
    (hi_water_mark_ s) (lo_water_mark_ s) (signalled_ s) (internal_state_ s) (handle_valid s) (cb_buffer_ s)
    (buffer_size_ s) (rd_ s) (wr_ s) (flush_generation_ s) (seq_num_gen_ s) (in_flight_queue_ s) (effects s).
Definition add_effect (e : effect) (s : adapter) : adapter :=
  mk_adapter (pipe_bound s) (signal_cbk_ s) (flush_in_progress_ s) (fault_cbk_made_ s) (cbk_scheduled_ s)
    (hi_water_mark_ s) (lo_water_mark_ s) (signalled_ s) (internal_state_ s) (handle_valid s) (cb_buffer_ s)
    (buffer_size_ s) (rd_ s) (wr_ s) (flush_generation_ s) (seq_num_gen_ s) (in_flight_queue_ s) (effects s ++ [e]).

(** The constructor; four members keep what was in memory. *)
Definition construct (rd wr generation seq : Z) : adapter :=
  mk_adapter true false false false false 0 0 false OK false None 0 rd wr generation seq [] [].

Definition Faulted (s : adapter) : bool := bool_decide (internal_state_ s ≠ OK).
Definition Busy (s : adapter) : bool := flush_in_progress_ s.

(** [GetPending], [GetBufferSize] *)
Definition GetPending (s : adapter) : Z :=
  match cb_buffer_ s with
  | None => 0
  | Some _ => u64 (u64 (wr_ s - rd_ s) + (if wr_ s <? rd_ s then buffer_size_ s else 0))
  end.

Definition AboveHiWater (s : adapter) : bool := hi_water_mark_ s <=? GetPending s.
Definition BelowLoWater (s : adapter) : bool := GetPending s <? lo_water_mark_ s.

Section WithBuild.
Context `{BD : Build}.
Local Abbreviation M := (prog adapter).

Definition GetBufferSize : M Z :=
  s ← getS;
  match cb_buffer_ s with
  | None => mret 0
  | Some _ => _ ← dcheckS (negb (buffer_size_ s =? 0)); mret (u64 (buffer_size_ s - 1))
  end.

(** ** Signalling and faults *)

(** [UpdateSignalled] *)
Definition signal_level (s : adapter) : bool :=
  if Faulted s then true
  else if Busy s then false
  else
    let pending := GetPending s in
    if negb (signalled_ s) && (pending <? lo_water_mark_ s) then true
    else if signalled_ s && (hi_water_mark_ s <=? pending) then false
    else signalled_ s.
Definition UpdateSignalled : M unit :=
  _ ← modS (λ s, set_signalled (signal_level s) s);
  s ← getS;
  whenS (signalled_ s && negb (cbk_scheduled_ s) && negb (fault_cbk_made_ s))
    (_ ← modS (add_effect PostSignal); modS (λ s, set_callbacks (signal_cbk_ s) (fault_cbk_made_ s) true s)).

(** [Cleanup]; unmapping succeeds. *)
Definition Cleanup : M unit :=
  modS (λ s,
    set_state SHUTTING_DOWN
      (set_callbacks false (fault_cbk_made_ s) (cbk_scheduled_ s)
        (set_queue (seq_num_gen_ s) []
          (set_pointers 0 0 (set_buffer false None (buffer_size_ s) (unbind s)))))).

(** The destructor. *)
Definition destroy : M unit := Cleanup.

(** [Fault], which is also what a connection error leads to. *)
Definition Fault_ (reason : MediaResult) : M unit :=
  s ← getS;
  _ ← whenS (bool_decide (internal_state_ s = OK)) (_ ← modS (set_state reason); Cleanup);
  UpdateSignalled.

(** [HandleSignalCallback] *)
Definition HandleSignalCallback : M unit :=
  s ← getS;
  _ ← dcheckS (cbk_scheduled_ s);
  _ ← modS (λ s, set_callbacks (signal_cbk_ s) (fault_cbk_made_ s) false s);
  s ← getS;
  if fault_cbk_made_ s || negb (signalled_ s) then mret tt
  else if signal_cbk_ s then
    _ ← whenS (Faulted s) (modS (λ s, set_callbacks (signal_cbk_ s) true (cbk_scheduled_ s) s));
    modS (add_effect (SignalCallback (internal_state_ s)))
  else mret tt.

(** [SetSignalCallback]: whether a callback is given. *)
Definition SetSignalCallback (cbk : bool) : M unit :=
  _ ← modS (λ s, set_callbacks cbk (fault_cbk_made_ s) (cbk_scheduled_ s) s);
  whenS cbk UpdateSignalled.

(** [SetWatermarks] *)
Definition SetWatermarks (hi_water_mark lo_water_mark : Z) : M unit :=
  _ ← dcheckS (lo_water_mark <=? hi_water_mark);
  if hi_water_mark <? lo_water_mark then mret tt
  else _ ← modS (set_marks hi_water_mark lo_water_mark); UpdateSignalled.

(** [Init], with the results of creating, mapping and duplicating a shared buffer.  A call
    on a pipe that is not bound is undefined. *)
Definition Init_ (size : Z) (created : bool) (mapping : option Z) (duplicated : bool) : M unit :=
  s ← getS;
  if handle_valid s then
    if negb (buffer_size_ s =? size) then Fault_ BAD_STATE else mret tt
  else if negb created then Fault_ INSUFFICIENT_RESOURCES
  else
    _ ← modS (λ s, set_buffer true (cb_buffer_ s) size s);
    match mapping with
    | None => Fault_ UNKNOWN_ERROR
    | Some b =>
        _ ← modS (λ s, set_buffer true (Some b) size s);
        if negb duplicated then Fault_ UNKNOWN_ERROR
        else if pipe_bound s then modS (add_effect PipeSetBuffer)
        else failS UndefinedBehaviour
    end.

(** ** Packets *)

(** Where an allocation starts, and whether the space check refuses its end. *)
Definition alloc_start (s : adapter) (size : Z) (no_wrap : bool) : Z :=
  if no_wrap && (rd_ s <? wr_ s) && (u64 (buffer_size_ s - wr_ s) <? size) then 0 else wr_ s.
Definition no_space (s : adapter) (alloc_end : Z) : bool :=
  let non_mod_wr := u64 (wr_ s + (if wr_ s <? rd_ s then buffer_size_ s else 0)) in
  (rd_ s <=? alloc_end) && (alloc_end <? non_mod_wr).

(** The packet of [CreateMediaPacket] and its mapping. *)
Definition make_packet (s : adapter) (size start : Z) : MappedPacket :=
  let b := default 0 (cb_buffer_ s) in
  if buffer_size_ s <? u64 (start + size) then
    let l1 := u64 (buffer_size_ s - start) in
    mk_mapped_packet
      (Some (mk_packet kNoTimestamp (Some (mk_region start l1)) (Some [Some (mk_region 0 (u64 (size - l1)))])))
      (Some (b + start), Some b) (l1, u64 (size - l1)) (wr_ s) (flush_generation_ s)
  else
    mk_mapped_packet (Some (mk_packet kNoTimestamp (Some (mk_region start size)) (Some [])))
      (Some (b + start), None) (size, 0) (wr_ s) (flush_generation_ s).

(** [CreateMediaPacket] *)
Definition CreateMediaPacket (size : Z) (no_wrap : bool) : M (MediaResult * option MappedPacket) :=
  s ← getS;
  if Faulted s then mret (BAD_STATE, None)
  else if Busy s then mret (BUSY, None)
  else
    _ ← dcheckS (negb (buffer_size_ s =? 0));
    if u64 (buffer_size_ s - 1) <? size then mret (INSUFFICIENT_RESOURCES, None)
    else
      let start := alloc_start s size no_wrap in
      let alloc_end := u64 (start + size) in
      _ ← dcheckS (wr_ s <? buffer_size_ s);
      _ ← dcheckS (rd_ s <? buffer_size_ s);
      _ ← dcheckS (rd_ s <=? u64 (wr_ s + (if wr_ s <? rd_ s then buffer_size_ s else 0)));
      if no_space s alloc_end then mret (INSUFFICIENT_RESOURCES, None)
      else
        _ ← dcheckS (negb (buffer_size_ s <? alloc_end) || (u64 (buffer_size_ s - start) <? size));
        if buffer_size_ s =? 0 then failS UndefinedBehaviour
        else
          _ ← modS (set_pointers (rd_ s) (alloc_end mod buffer_size_ s));
          _ ← UpdateSignalled;
          mret (OK, Some (make_packet s size start)).

(** The read pointer after a packet is consumed. *)
Definition packet_end (p : MediaPacket) : outcome Z :=
  match payload p, extra_payload p with
  | Some r1, Some [] => Ok (u64 (offset r1 + length_ r1))
  | Some _, Some (Some r2 :: _) => Ok (u64 (offset r2 + length_ r2))
  | _, _ => Fault UndefinedBehaviour
  end.

(** [SendMediaPacket]: the result, and the packet as it is left behind. *)
Definition SendMediaPacket (p : MappedPacket) (cbk : option nat) : M (MediaResult * MappedPacket) :=
  _ ← dcheckS (bool_decide (is_Some (mp_packet p)));
  match mp_packet p with
  | None => mret (INVALID_ARGUMENT, p)
  | Some mp =>
      _ ← dcheckS (bool_decide (is_Some (extra_payload mp)));
      _ ← dcheckS (bool_decide (length (default [] (extra_payload mp)) ≤ 1)%nat);
      post_consume_rd ← liftO (packet_end mp);
      s ← getS;
      _ ← whenS (negb (pipe_bound s)) (Fault_ CONNECTION_LOST);
      s ← getS;
      if Faulted s || negb (mp_flush_generation p =? flush_generation_ s)
      then mret (FLUSHED_, MappedPacket_Reset p)
      else
        _ ← dcheckS (negb (Busy s));
        _ ← dcheckS (post_consume_rd <=? buffer_size_ s);
        let post_consume_rd := if post_consume_rd =? buffer_size_ s then 0 else post_consume_rd in
        let seq := seq_num_gen_ s in
        _ ← modS (set_queue (u32 (seq + 1)) (in_flight_queue_ s ++ [mk_state post_consume_rd seq cbk]));
        _ ← modS (add_effect (PipeSendPacket mp seq));
        mret (OK, MappedPacket_Reset p)
  end.

(** [CancelMediaPacket] *)
Definition CancelMediaPacket (p : MappedPacket) : M (MediaResult * MappedPacket) :=
  _ ← dcheckS (bool_decide (is_Some (mp_packet p)));
  match mp_packet p with
  | None => mret (INVALID_ARGUMENT, p)
  | Some _ =>
      s ← getS;
      if Faulted s || negb (mp_flush_generation p =? flush_generation_ s)
      then mret (FLUSHED_, MappedPacket_Reset p)
      else
        _ ← dcheckS (negb (Busy s));
        _ ← modS (set_pointers (rd_ s) (cancel_wr_ p));
        _ ← UpdateSignalled;
        mret (OK, MappedPacket_Reset p)
  end.

(** [Flush] *)
Definition Flush_ : M MediaResult :=
  s ← getS;
  if Faulted s then mret INTERNAL_ERROR
  else if Busy s then mret BUSY
  else
    _ ← modS (set_queue (seq_num_gen_ s) []);
    _ ← modS (set_pointers 0 0);
    _ ← modS (set_flush true (u32 (flush_generation_ s + 1)));
    if pipe_bound s then _ ← modS (add_effect PipeFlush); mret OK
    else failS UndefinedBehaviour.

(** ** Callbacks of the pipe *)

(** [HandleSendPacket] *)
Definition HandleSendPacket (seq_num : Z) (result : SendResult) : M unit :=
  s ← getS;
  cbk ←
    match in_flight_queue_ s with
    | [] => _ ← Fault_ UNKNOWN_ERROR; mret None
    | f :: q =>
        if negb (seq_num_ f =? seq_num) then _ ← Fault_ UNKNOWN_ERROR; mret None
        else
          _ ← modS (set_queue (seq_num_gen_ s) q);
          let new_rd := post_consume_rd_ f in
          if flush_in_progress_ s then mret (user_cbk f)
          else
            let new_rd_non_modulo := u64 (new_rd + (if new_rd <? rd_ s then buffer_size_ s else 0)) in
            let wr_non_modulo := u64 (wr_ s + (if wr_ s <? rd_ s then buffer_size_ s else 0)) in
            if negb ((rd_ s <=? new_rd_non_modulo) && (new_rd_non_modulo <=? wr_non_modulo))
            then _ ← Fault_ UNKNOWN_ERROR; mret (user_cbk f)
            else
              _ ← modS (set_pointers new_rd (wr_ s));
              _ ← UpdateSignalled;
              mret (user_cbk f)
    end;
  match cbk with
  | Some c => modS (add_effect (UserCallback c result))
  | None => mret tt
  end.

(** [HandleFlush]; taking the front of an empty queue is undefined. *)
Definition HandleFlush : M unit :=
  s ← getS;
  if Faulted s then mret tt
  else if negb (flush_in_progress_ s) then Fault_ PROTOCOL_ERROR
  else
    _ ← modS (set_pointers 0 0);
    match in_flight_queue_ s with
    | [] => failS UndefinedBehaviour
    | _ :: q =>
        _ ← modS (set_queue (seq_num_gen_ s) q);
        _ ← modS (set_flush false (flush_generation_ s));
        UpdateSignalled
    end.

End WithBuild.

End CircularBuffer.
