(* ===== verification/CircularBufferSpec.v ===== *)
(** Theorems about [CircularBuffer].

    Abstractly the adapter is a queue of packet sizes: packets are created at its end,
    sent in order and consumed from its front, and the bytes of the buffer that are in
    use are one circular interval, from the read pointer over the sizes in the queue.
    [Inv] relates the adapter to such a queue.  For clients that only ask for packets
    that fit, every operation returns and simulates the operation on the queue; what
    happens to other clients, and when the pipe is flushed, is stated by the theorems
    on defects. *)

From S2P Require Import Prelude LinearTransform StreamTypes SharedBuffer Mixer MediaPipe CircularBuffer.

Module CircularBufferSpec.
Import MediaPipe CircularBuffer.

(** ** Circular arithmetic *)

Section Circle.
Context (B : Z) (HB : 0 < B).

Definition pos (r n : Z) : Z := (r + n) mod B.

Lemma pos_range r n : 0 ≤ pos r n < B.
Proof. by apply Z.mod_pos_bound. Qed.

Lemma pos_pos r a b : pos (pos r a) b = pos r (a + b).
Proof. unfold pos. rewrite Z.add_mod_idemp_l by lia. f_equal. lia. Qed.

Lemma pos_0 r : 0 ≤ r < B → pos r 0 = r.
Proof. intros Hr. unfold pos. rewrite Z.add_0_r. by apply Z.mod_small. Qed.

(** Unrolling a position once around the circle. *)
Lemma pos_unroll r n : 0 ≤ r < B → 0 ≤ n < B → pos r n + (if pos r n <? r then B else 0) = r + n.
Proof.
  intros Hr Hn. unfold pos. destruct (Z.lt_ge_cases (r + n) B) as [Hlt|Hge].
  - rewrite Z.mod_small by lia. rewrite (proj2 (Z.ltb_ge _ _)) by lia. lia.
  - assert ((r + n) mod B = r + n - B) as ->.
    { symmetry. apply (Z.mod_unique _ _ 1); lia. }
    rewrite (proj2 (Z.ltb_lt _ _)) by lia. lia.
Qed.

(** Positions less than a turn apart are different. *)
Lemma pos_inj r a b : 0 ≤ r < B → 0 ≤ a < B → 0 ≤ b < B → pos r a = pos r b → a = b.
Proof.
  intros Hr Ha Hb E. pose proof (pos_unroll r a Hr Ha). pose proof (pos_unroll r b Hr Hb).
  rewrite E in *. lia.
Qed.

(** Where consecutive packets end. *)
Fixpoint ends (r : Z) (sizes : list Z) : list Z :=
  match sizes with [] => [] | z :: zs => pos r z :: ends (pos r z) zs end.

Definition total (sizes : list Z) : Z := foldr Z.add 0 sizes.

Lemma total_app l k : total (l ++ k) = total l + total k.
Proof. unfold total. induction l as [|z l IH]; cbn; [lia|]. rewrite IH. lia. Qed.

Lemma total_nonneg l : Forall (λ z, 0 ≤ z) l → 0 ≤ total l.
Proof. unfold total. induction 1; cbn; lia. Qed.

Lemma ends_app r l k : ends r (l ++ k) = ends r l ++ ends (pos r (total l)) k.
Proof.
  revert r. induction l as [|z l IH]; intros r; cbn [app ends].
  - destruct k as [|z k]; [done|]. cbn. rewrite pos_pos. by rewrite Z.add_0_l.
  - rewrite IH. by rewrite pos_pos.
Qed.

End Circle.

(** ** The invariant *)

(** A packet that the client has created: where it starts, its size, what it will be
    reported to end at, and that it belongs to the current generation. *)
Record created (B start size gen : Z) (p : MappedPacket) : Prop := {
  created_end : ∃ mp e, mp_packet p = Some mp ∧ packet_end mp = Ok e ∧ 0 ≤ e ≤ B ∧
                  (if e =? B then 0 else e) = pos B start size ∧
                  is_Some (extra_payload mp) ∧ (length (default [] (extra_payload mp)) ≤ 1)%nat;
  created_cancel : cancel_wr_ p = start;
  created_gen : mp_flush_generation p = gen;
}.

(** Packets created one after the other from a position on. *)
Fixpoint chain (B r gen : Z) (ps : list (Z * MappedPacket)) : Prop :=
  match ps with
  | [] => True
  | (z, p) :: ps => created B r z gen p ∧ chain B (pos B r z) gen ps
  end.

Definition sizes (ps : list (Z * MappedPacket)) : list Z := ps.*1.

(** The signal follows the water marks. *)
Definition level_ok (s : adapter) : Prop :=
  lo_water_mark_ s ≤ hi_water_mark_ s →
  (GetPending s < lo_water_mark_ s → signalled_ s = true) ∧
  (hi_water_mark_ s ≤ GetPending s → signalled_ s = false).

(** The adapter [s], with a buffer of [B] bytes, implements the queue of the packets
    sent, [outs], and the packets created but not sent, [unsent]. *)
Record core (B : Z) (outs : list Z) (unsent : list (Z * MappedPacket)) (s : adapter) : Prop := {
  core_size : 0 < B ≤ 2 ^ 62 ∧ buffer_size_ s = B ∧ is_Some (cb_buffer_ s);
  core_state : internal_state_ s = OK ∧ flush_in_progress_ s = false ∧ pipe_bound s = true;
  core_rd : 0 ≤ rd_ s < B;
  core_nonneg : Forall (λ z, 0 ≤ z) (outs ++ sizes unsent);
  core_total : total (outs ++ sizes unsent) < B;
  core_wr : wr_ s = pos B (rd_ s) (total (outs ++ sizes unsent));
  core_queue : post_consume_rd_ <$> in_flight_queue_ s = ends B (rd_ s) outs;
  core_chain : chain B (pos B (rd_ s) (total outs)) (flush_generation_ s) unsent;
}.
Definition Inv (B : Z) outs unsent s : Prop := core B outs unsent s ∧ level_ok s.

Lemma GetPending_total B outs unsent s :
  core B outs unsent s → GetPending s = total (outs ++ sizes unsent).
Proof.
  intros [[HB [Hsz [b Hb]]] _ Hrd Hnn Htot Hwr _ _]. unfold GetPending. rewrite Hb, Hwr, Hsz.
  pose proof (total_nonneg _ Hnn) as H0. set (t := total _) in *.
  pose proof (pos_unroll B (rd_ s) t Hrd ltac:(lia)) as Hu. pose proof (pos_range B ltac:(lia) (rd_ s) t).
  destruct (pos B (rd_ s) t <? rd_ s) eqn:E in Hu |- *; rewrite ?E.
  - unfold uwrap. rewrite Z.add_mod_idemp_l by lia. rewrite Z.mod_small; lia.
  - apply Z.ltb_ge in E. rewrite (uwrap_small 64 (_ - _)) by (unfold is_u; lia). rewrite uwrap_small; [lia|].
    unfold is_u. lia.
Qed.

(** ** Signalling *)

Definition updated (s : adapter) : adapter :=
  let s := set_signalled (signal_level s) s in
  if signalled_ s && negb (cbk_scheduled_ s) && negb (fault_cbk_made_ s)
  then set_callbacks (signal_cbk_ s) (fault_cbk_made_ s) true (add_effect PostSignal s) else s.

Section WithBuild.
Context `{BD : Build}.

Lemma UpdateSignalled_run s : UpdateSignalled s = Ok (tt, updated s).
Proof.
  unfold UpdateSignalled, updated, mbind, prog_bind, modS, getS, whenS. cbn beta iota.
  set (s1 := set_signalled _ s). by destruct (_ && _ && _).
Qed.

Lemma updated_core B outs unsent s : core B outs unsent s → core B outs unsent (updated s).
Proof.
  intros [H1 H2 H3 H4 H5 H6 H7 H8]. unfold updated. destruct (_ && _ && _); by constructor.
Qed.

Lemma updated_level B outs unsent s : core B outs unsent s → level_ok (updated s).
Proof.
  intros Hc. pose proof Hc as [_ (Hst & Hb & _) _ _ _ _ _ _].
  assert (GetPending (updated s) = GetPending s ∧ lo_water_mark_ (updated s) = lo_water_mark_ s ∧
    hi_water_mark_ (updated s) = hi_water_mark_ s ∧ signalled_ (updated s) = signal_level s) as (E1 & E2 & E3 & E4)
    by (unfold updated; destruct (_ && _ && _); done).
  intros Hm. rewrite E1, E2, E3, E4 in *. unfold signal_level, Faulted, Busy. rewrite Hst, Hb.
  rewrite bool_decide_eq_false_2 by (by intros []).
  destruct (signalled_ s); cbn [negb andb];
    destruct (Z.ltb_spec (GetPending s) (lo_water_mark_ s)), (Z.leb_spec (hi_water_mark_ s) (GetPending s));
    split; intros; first [done|lia].
Qed.

Lemma updated_Inv B outs unsent s : core B outs unsent s → Inv B outs unsent (updated s).
Proof. intros Hc. split; [by apply updated_core|by eapply updated_level]. Qed.

(** ** Operations on the queue *)

Lemma chain_app B (HB : 0 < B) r gen l k :
  0 ≤ r < B →
  chain B r gen (l ++ k) ↔ chain B r gen l ∧ chain B (pos B r (total (sizes l))) gen k.
Proof.
  revert r. induction l as [|[z p] l IH]; intros r Hr; cbn [app chain].
  - rewrite pos_0 by done. naive_solver.
  - rewrite IH by (by apply pos_range). unfold sizes, total. cbn. rewrite pos_pos by done. naive_solver.
Qed.

(** The bytes of a created packet. *)
Definition covers (p : MappedPacket) (x : Z) : Prop :=
  ∃ mp r, mp_packet p = Some mp ∧ Some r ∈ all_regions mp ∧ offset r ≤ x < offset r + length_ r.

Lemma make_packet_covers B s z x :
  buffer_size_ s = B → 0 < B ≤ 2 ^ 62 → 0 ≤ wr_ s < B → 0 ≤ z < B →
  covers (make_packet s z (wr_ s)) x ↔ ∃ j, 0 ≤ j < z ∧ x = pos B (wr_ s) j.
Proof.
  intros Hsz HB Hw Hz. unfold covers, make_packet. rewrite Hsz.
  rewrite (uwrap_small 64 (wr_ s + z)) by (unfold is_u; lia).
  assert (∀ j, 0 ≤ j < z → pos B (wr_ s) j = if wr_ s + j <? B then wr_ s + j else wr_ s + j - B) as Hpos.
  { intros j Hj. unfold pos. destruct (Z.ltb_spec (wr_ s + j) B); [apply Z.mod_small; lia|].
    symmetry. apply (Z.mod_unique _ _ 1); lia. }
  destruct (Z.ltb_spec B (wr_ s + z)) as [Hlt|Hge].
  - rewrite (uwrap_small 64 (B - wr_ s)) by (unfold is_u; lia).
    rewrite (uwrap_small 64 (z - (B - wr_ s))) by (unfold is_u; lia).
    unfold all_regions. cbn [mp_packet payload extra_payload default from_option]. split.
    + intros (mp & r & [= <-] & Hr & Hx). cbn in Hr. rewrite !elem_of_cons, elem_of_nil in Hr.
      destruct Hr as [[= ->]|[[= ->]|[]]]; cbn in Hx.
      * exists (x - wr_ s). split; [lia|]. rewrite Hpos, (proj2 (Z.ltb_lt _ _)) by lia. lia.
      * exists (x + B - wr_ s). split; [lia|]. rewrite Hpos, (proj2 (Z.ltb_ge _ _)) by lia. lia.
    + intros (j & Hj & ->). rewrite Hpos by done. eexists. destruct (Z.ltb_spec (wr_ s + j) B).
      * exists (mk_region (wr_ s) (B - wr_ s)). split; [done|]. split; [set_solver|]. cbn. lia.
      * exists (mk_region 0 (z - (B - wr_ s))). split; [done|]. split; [set_solver|]. cbn. lia.
  - unfold all_regions. cbn [mp_packet payload extra_payload default from_option]. split.
    + intros (mp & r & [= <-] & Hr & Hx). cbn in Hr. apply list_elem_of_singleton in Hr as [= ->]. cbn in Hx.
      exists (x - wr_ s). split; [lia|]. rewrite Hpos, (proj2 (Z.ltb_lt _ _)) by lia. lia.
    + intros (j & Hj & ->). rewrite Hpos, (proj2 (Z.ltb_lt _ _)) by lia.
      exists (mk_packet kNoTimestamp (Some (mk_region (wr_ s) z)) (Some [])), (mk_region (wr_ s) z).
      split; [done|]. split; [set_solver|]. cbn. lia.
Qed.

Lemma make_packet_created B s z :
  buffer_size_ s = B → 0 < B ≤ 2 ^ 62 → 0 ≤ wr_ s < B → 0 ≤ z < B →
  created B (wr_ s) z (flush_generation_ s) (make_packet s z (wr_ s)).
Proof.
  intros Hsz HB Hw Hz. unfold make_packet. rewrite Hsz.
  rewrite (uwrap_small 64 (wr_ s + z)) by (unfold is_u; lia).
  destruct (Z.ltb_spec B (wr_ s + z)) as [Hlt|Hge]; split; try done;
    eexists _, _; (split; [done|]); (split; [done|]).
  - cbn [offset length_]. rewrite (uwrap_small 64 (B - wr_ s)) by (unfold is_u; lia).
    rewrite (uwrap_small 64 (z - (B - wr_ s))), (uwrap_small 64 (0 + _)) by (unfold is_u; lia).
    split; [lia|]. rewrite (proj2 (Z.eqb_neq _ _)) by lia. split; [|by split; [|cbn; lia]].
    unfold pos. apply (Z.mod_unique _ _ 1); lia.
  - cbn [offset length_]. rewrite (uwrap_small 64) by (unfold is_u; lia). split; [lia|].
    split; [|by split; [|cbn; lia]]. unfold pos. destruct (Z.eqb_spec (wr_ s + z) B) as [->|?].
    + by rewrite Z.mod_same by lia.
    + by rewrite Z.mod_small by lia.
Qed.

Lemma not_faulted s : internal_state_ s = OK → Faulted s = false.
Proof. intros E. unfold Faulted. rewrite E. by apply bool_decide_eq_false_2; intros []. Qed.

Lemma core_wr_range B outs unsent s : core B outs unsent s → 0 ≤ wr_ s < B.
Proof. intros [[? _] _ _ _ _ -> _ _]. apply pos_range. lia. Qed.

(** [CreateMediaPacket] past its checks: on an adapter in its normal state, a packet that
    the space check does not refuse. *)
Lemma Create_unfold_gen B s z :
  0 < B ≤ 2 ^ 62 → buffer_size_ s = B → internal_state_ s = OK → flush_in_progress_ s = false →
  0 ≤ rd_ s < B → 0 ≤ wr_ s < B → 0 ≤ z < B → no_space s (wr_ s + z) = false →
  CreateMediaPacket z false s =
    Ok (OK, Some (make_packet s z (wr_ s)), updated (set_pointers (rd_ s) (pos B (wr_ s) z) s)).
Proof.
  intros HB Hsz Hst Hbusy Hrd Hw Hz Hns.
  unfold CreateMediaPacket, mbind, prog_bind, getS. cbn beta iota.
  rewrite not_faulted by done. unfold Busy. rewrite Hbusy, Hsz.
  rewrite (dcheckS_true s (negb (B =? 0))) by (apply negb_true_iff, Z.eqb_neq; lia). cbn beta iota.
  rewrite (uwrap_small 64 (B - 1)) by (unfold is_u; lia). rewrite (proj2 (Z.ltb_ge (B - 1) z)) by lia.
  unfold alloc_start. cbn [andb]. rewrite (uwrap_small 64 (wr_ s + z)) by (unfold is_u; lia).
  rewrite (dcheckS_true s (wr_ s <? B)), (dcheckS_true s (rd_ s <? B)) by lia. cbn beta iota.
  rewrite (dcheckS_true s (rd_ s <=? _)).
  2:{ destruct (Z.ltb_spec (wr_ s) (rd_ s)); rewrite uwrap_small by (unfold is_u; lia); lia. }
  cbn beta iota. rewrite Hns. rewrite (uwrap_small 64 (B - wr_ s)) by (unfold is_u; lia).
  rewrite (dcheckS_true s (_ || _)).
  2:{ destruct (Z.ltb_spec B (wr_ s + z)); [|done]. apply orb_true_iff. right. apply Z.ltb_lt. lia. }
  cbn beta iota. rewrite (proj2 (Z.eqb_neq B 0)) by lia. unfold modS. cbn beta iota.
  by rewrite UpdateSignalled_run.
Qed.

Lemma Create_unfold B outs unsent s z :
  core B outs unsent s → 0 ≤ z < B → no_space s (wr_ s + z) = false →
  CreateMediaPacket z false s =
    Ok (OK, Some (make_packet s z (wr_ s)), updated (set_pointers (rd_ s) (pos B (wr_ s) z) s)).
Proof.
  intros Hc Hz Hns. pose proof (core_wr_range _ _ _ _ Hc) as Hw.
  pose proof Hc as [[HB [Hsz _]] (Hst & Hbusy & _) Hrd _ _ _ _ _]. by apply Create_unfold_gen.
Qed.

Lemma no_space_room B outs unsent s z :
  core B outs unsent s → 0 ≤ z → total (outs ++ sizes unsent) + z < B → no_space s (wr_ s + z) = false.
Proof.
  intros Hc Hz Ht. pose proof (core_wr_range _ _ _ _ Hc) as Hw.
  pose proof Hc as [[HB [Hsz _]] _ Hrd Hnn _ Hwr _ _]. pose proof (total_nonneg _ Hnn) as H0.
  set (t := total _) in *. pose proof (pos_unroll B (rd_ s) t Hrd ltac:(lia)) as Hu. rewrite <- Hwr in Hu.
  unfold no_space. rewrite Hsz. destruct (Z.ltb_spec (wr_ s) (rd_ s)) as [E|E].
  - rewrite (proj2 (Z.leb_gt _ _)) by lia. done.
  - rewrite (proj2 (Z.ltb_ge (wr_ s + z) _)); [apply andb_false_r|].
    rewrite uwrap_small by (unfold is_u; lia). lia.
Qed.

Lemma create_core B outs unsent s z :
  core B outs unsent s → 0 ≤ z → total (outs ++ sizes unsent) + z < B →
  core B outs (unsent ++ [(z, make_packet s z (wr_ s))]) (set_pointers (rd_ s) (pos B (wr_ s) z) s).
Proof.
  intros Hc Hz Ht. pose proof (core_wr_range _ _ _ _ Hc) as Hw.
  pose proof Hc as [[HB [Hsz Hb]] Hst Hrd Hnn _ Hwr Hq Hch].
  assert (sizes (unsent ++ [(z, make_packet s z (wr_ s))]) = sizes unsent ++ [z]) as Es
    by (unfold sizes; by rewrite fmap_app).
  pose proof (total_nonneg _ Hnn) as H0.
  split; cbn; try done; rewrite ?Es, ?app_assoc.
  - apply Forall_app. split; [done|]. by constructor.
  - rewrite total_app. cbn. lia.
  - rewrite Hwr, pos_pos by lia. rewrite (total_app (outs ++ sizes unsent)). cbn. f_equal. lia.
  - apply chain_app; [lia|apply pos_range; lia|]. split; [done|]. rewrite pos_pos, <- total_app, <- Hwr by lia.
    cbn. split; [|done]. by apply make_packet_created; try lia.
Qed.

Lemma Create_run B outs unsent s z :
  Inv B outs unsent s → 0 ≤ z → total (outs ++ sizes unsent) + z < B →
  ∃ p s', CreateMediaPacket z false s = Ok (OK, Some p, s') ∧ Inv B outs (unsent ++ [(z, p)]) s' ∧
    (∀ x, covers p x ↔ ∃ j, 0 ≤ j < z ∧ x = pos B (wr_ s) j).
Proof.
  intros [Hc _] Hz Ht. pose proof (core_wr_range _ _ _ _ Hc) as Hw.
  pose proof Hc as [[HB [Hsz Hb]] Hst Hrd Hnn _ Hwr Hq Hch]. pose proof (total_nonneg _ Hnn) as H0.
  eexists _, _. split; [apply (Create_unfold B outs unsent); [done|lia|by eapply no_space_room]|].
  split; [by apply updated_Inv, create_core|]. intros x. apply make_packet_covers; try done; lia.
Qed.

Lemma Send_run B outs z p rest s cbk :
  Inv B outs ((z, p) :: rest) s →
  ∃ mp seq s', SendMediaPacket p cbk s = Ok (OK, MappedPacket_Reset p, s') ∧ Inv B (outs ++ [z]) rest s' ∧
    mp_packet p = Some mp ∧ effects s' = effects s ++ [PipeSendPacket mp seq].
Proof.
  intros [[[HB [Hsz Hb]] (Hst & Hbusy & Hbound) Hrd Hnn Ht Hwr Hq [[(mp & e & Hmp & He & Her & Hpos & Hx & Hl) Hcan Hgen] Hch]] Hlev].
  unfold SendMediaPacket. unfold mbind, prog_bind at 1. rewrite Hmp.
  rewrite dcheckS_true by (by apply bool_decide_eq_true_2). cbn beta iota.
  unfold prog_bind. rewrite (dcheckS_true s (bool_decide _)) by (by apply bool_decide_eq_true_2). cbn beta iota.
  rewrite (dcheckS_true s (bool_decide _)) by (by apply bool_decide_eq_true_2). cbn beta iota.
  unfold liftO at 1. rewrite He. cbn beta iota. unfold getS at 1. cbn beta iota. rewrite Hbound.
  unfold whenS at 1. cbn [negb]. unfold getS at 1, mret, prog_ret. cbn beta iota.
  rewrite not_faulted, Hgen, Z.eqb_refl by done. cbn [negb orb]. unfold Busy. rewrite Hbusy.
  rewrite (dcheckS_true s (negb false)), (dcheckS_true s (e <=? _)) by (done || lia). cbn beta iota.
  unfold modS. cbn beta iota. eexists mp, _, _. split; [done|]. split; [|by split].
  rewrite Hsz, Hpos. rewrite pos_pos in * by lia.
  assert (sizes ((z, p) :: rest) = z :: sizes rest) as Es by done. rewrite Es in *.
  split; [split|done]; cbn; rewrite <- ?app_assoc; try done.
  - rewrite fmap_app, Hq. cbn. rewrite ends_app by lia. cbn. by rewrite pos_pos by lia.
  - rewrite total_app. cbn. by rewrite Z.add_0_r.
Qed.

Lemma Cancel_run B outs rest z p s :
  Inv B outs (rest ++ [(z, p)]) s →
  ∃ s', CancelMediaPacket p s = Ok (OK, MappedPacket_Reset p, s') ∧ Inv B outs rest s'.
Proof.
  intros [[[HB [Hsz Hb]] (Hst & Hbusy & Hbound) Hrd Hnn Ht Hwr Hq Hch] _].
  apply chain_app in Hch as [Hch [[(mp & e & Hmp & _) Hcan Hgen] _]]; [|lia|apply pos_range; lia].
  assert (sizes (rest ++ [(z, p)]) = sizes rest ++ [z]) as Es by (unfold sizes; by rewrite fmap_app).
  rewrite Es, app_assoc in *. apply Forall_app in Hnn as [Hnn Hz]. inversion_clear Hz.
  rewrite total_app in Ht. cbn in Ht.
  unfold CancelMediaPacket. unfold mbind, prog_bind at 1. rewrite Hmp.
  rewrite dcheckS_true by (by apply bool_decide_eq_true_2). cbn beta iota.
  unfold prog_bind, getS. cbn beta iota. rewrite not_faulted, Hgen, Z.eqb_refl by done. cbn [negb orb].
  unfold Busy. rewrite Hbusy, (dcheckS_true s (negb false)) by done. unfold modS. cbn beta iota.
  rewrite UpdateSignalled_run. eexists. split; [done|]. apply updated_Inv.
  split; cbn; try done; [lia|]. rewrite Hcan, pos_pos by lia. by rewrite <- total_app.
Qed.

(** The check on the returned packet's end accepts the end of the oldest packet. *)
Lemma returned_in_pending B outs unsent s z (new_rd := pos B (rd_ s) z) :
  core B (z :: outs) unsent s →
  let new_rd_non_modulo := u64 (new_rd + (if new_rd <? rd_ s then buffer_size_ s else 0)) in
  let wr_non_modulo := u64 (wr_ s + (if wr_ s <? rd_ s then buffer_size_ s else 0)) in
  (rd_ s <=? new_rd_non_modulo) && (new_rd_non_modulo <=? wr_non_modulo) = true.
Proof.
  intros [[HB [Hsz _]] _ Hrd Hnn Ht Hwr _ _]. cbn zeta. rewrite Hsz.
  cbn [app] in *. inversion_clear Hnn as [|? ? Hz Hnn']. pose proof (total_nonneg _ Hnn') as H0.
  change (total (z :: outs ++ sizes unsent)) with (z + total (outs ++ sizes unsent)) in *.
  set (t := total _) in *.
  pose proof (pos_unroll B (rd_ s) z Hrd ltac:(lia)) as Hu1.
  pose proof (pos_unroll B (rd_ s) (z + t) Hrd ltac:(lia)) as Hu2. rewrite <- Hwr in Hu2. fold new_rd in Hu1.
  rewrite Hu1, Hu2, !uwrap_small by (unfold is_u; lia).
  apply andb_true_iff. split; apply Z.leb_le; lia.
Qed.

Lemma Consume_run B z outs unsent s :
  Inv B (z :: outs) unsent s →
  ∃ f q, in_flight_queue_ s = f :: q ∧ ∀ r, ∃ s', HandleSendPacket (seq_num_ f) r s = Ok (tt, s') ∧
    Inv B outs unsent s' ∧ rd_ s' = pos B (rd_ s) z ∧ wr_ s' = wr_ s ∧ in_flight_queue_ s' = q.
Proof.
  intros [Hc _]. pose proof (returned_in_pending _ _ _ _ _ Hc) as Hret.
  destruct Hc as [[HB [Hsz Hb]] (Hst & Hbusy & Hbound) Hrd Hnn Ht Hwr Hq Hch].
  destruct (in_flight_queue_ s) as [|f q] eqn:Ef; [done|]. injection Hq as Hf Hq.
  cbn [app] in *. inversion_clear Hnn as [|? ? Hz Hnn']. pose proof (total_nonneg _ Hnn') as H0.
  change (total (z :: outs)) with (z + total outs) in *.
  change (total (z :: outs ++ sizes unsent)) with (z + total (outs ++ sizes unsent)) in *.
  assert (core B outs unsent (set_pointers (pos B (rd_ s) z) (wr_ s) (set_queue (seq_num_gen_ s) q s))) as Hc'.
  { split; cbn; try done; [apply pos_range; lia|lia| |]; by rewrite pos_pos by lia. }
  exists f, q. split; [done|]. intros r. unfold HandleSendPacket, mbind, prog_bind, getS. cbn beta iota.
  rewrite Ef, Z.eqb_refl, Hbusy. cbn [negb]. unfold modS. cbn beta iota. rewrite Hf, Hret. cbn [negb].
  rewrite UpdateSignalled_run. unfold mret, prog_ret. pose proof (updated_Inv _ _ _ _ Hc') as Hi.
  set (s1 := set_pointers _ _ _) in *.
  assert (rd_ (updated s1) = rd_ s1 ∧ wr_ (updated s1) = wr_ s1 ∧ in_flight_queue_ (updated s1) = q) as (E1 & E2 & E3)
    by (unfold updated; destruct (_ && _ && _); done).
  destruct (user_cbk f); eexists; (split; [done|]); (split; [|done]); [|done].
  destruct Hi as [[] Hl]. split; [by constructor|done].
Qed.

Lemma Watermarks_run B outs unsent s hi lo :
  Inv B outs unsent s → lo ≤ hi →
  ∃ s', SetWatermarks hi lo s = Ok (tt, s') ∧ Inv B outs unsent s' ∧ hi_water_mark_ s' = hi ∧ lo_water_mark_ s' = lo.
Proof.
  intros [Hc _] Hm. unfold SetWatermarks, mbind, prog_bind. rewrite dcheckS_true by lia. cbn beta iota.
  rewrite (proj2 (Z.ltb_ge hi lo)) by lia. unfold modS. cbn beta iota. rewrite UpdateSignalled_run.
  eexists. split; [done|]. split; [|by unfold updated; destruct (_ && _ && _)].
  apply updated_Inv. by destruct Hc; constructor.
Qed.

(** ** Runs of a client *)

(** A client keeps the packets it has created in a list, sends the oldest one and
    cancels the newest one; the other end of the pipe returns packets in the order it
    received them. *)
Inductive op :=
  | OpCreate (size : Z) | OpSend (cbk : option nat) | OpCancel
  | OpReturn (r : SendResult) | OpMarks (hi lo : Z).

Definition client_step (o : op) (st : adapter * list MappedPacket) : outcome (adapter * list MappedPacket) :=
  let '(s, held) := st in
  match o with
  | OpCreate z =>
      '((_, p), s) ← CreateMediaPacket z false s; Ok (s, held ++ option_list p)
  | OpSend cbk =>
      match held with
      | [] => Ok st
      | p :: held => '(_, s) ← SendMediaPacket p cbk s; Ok (s, held)
      end
  | OpCancel =>
      match last held with
      | None => Ok st
      | Some p => '(_, s) ← CancelMediaPacket p s; Ok (s, removelast held)
      end
  | OpReturn r =>
      match in_flight_queue_ s with
      | [] => Ok st
      | f :: _ => '(_, s) ← HandleSendPacket (seq_num_ f) r s; Ok (s, held)
      end
  | OpMarks hi lo => '(_, s) ← SetWatermarks hi lo s; Ok (s, held)
  end.
Fixpoint client_run (ops : list op) (st : adapter * list MappedPacket) : outcome (adapter * list MappedPacket) :=
  match ops with [] => Ok st | o :: ops => st ← client_step o st; client_run ops st end.

(** The specification: the sizes of the packets sent and of the packets created. *)
Definition queue : Type := list Z * list Z.
Definition queue_step (B : Z) (o : op) (q : queue) : option queue :=
  let '(outs, held) := q in
  match o with
  | OpCreate z => if (0 <=? z) && (total (outs ++ held) + z <? B) then Some (outs, held ++ [z]) else None
  | OpSend _ => match held with [] => None | z :: held => Some (outs ++ [z], held) end
  | OpCancel => match last held with None => None | Some _ => Some (outs, removelast held) end
  | OpReturn _ => match outs with [] => None | _ :: outs => Some (outs, held) end
  | OpMarks hi lo => if lo <=? hi then Some q else None
  end.
Fixpoint queue_run (B : Z) (ops : list op) (q : queue) : option queue :=
  match ops with [] => Some q | o :: ops => q ← queue_step B o q; queue_run B ops q end.

Definition related (B : Z) (q : queue) (st : adapter * list MappedPacket) : Prop :=
  ∃ unsent, Inv B q.1 unsent st.1 ∧ sizes unsent = q.2 ∧ unsent.*2 = st.2.

Lemma last_snoc_inv {A} (l : list A) x : last l = Some x → l = removelast l ++ [x].
Proof.
  intros Hl. destruct (exists_last (l := l)) as (l' & y & ->); [by intros ->|].
  rewrite last_snoc in Hl. injection Hl as ->. by rewrite removelast_last.
Qed.

Lemma client_step_simulates B o q q' st :
  related B q st → queue_step B o q = Some q' → ∃ st', client_step o st = Ok st' ∧ related B q' st'.
Proof.
  destruct q as [outs held], st as [s ps]. intros (unsent & Hi & Es & Ep) Hq.
  cbn [fst snd] in *. subst held ps.
  destruct o as [z|cbk| |r|hi lo]; cbn [queue_step client_step] in *.
  - destruct (Z.leb_spec 0 z), (Z.ltb_spec (total (outs ++ sizes unsent) + z) B); simplify_eq/=.
    destruct (Create_run B outs unsent s z) as (p & s' & E & Hi' & _); [done..|].
    rewrite E. eexists. split; [done|]. exists (unsent ++ [(z, p)]).
    unfold sizes. by rewrite !fmap_app.
  - destruct unsent as [|[z p] rest]; simplify_eq/=.
    destruct (Send_run B outs z p rest s cbk Hi) as (mp & seq & s' & E & Hi' & _).
    rewrite E. eexists. split; [done|]. by exists rest.
  - destruct (last (sizes unsent)) as [z|] eqn:El; simplify_eq/=.
    unfold sizes in El. rewrite fmap_last in El. destruct (last unsent) as [[z' p]|] eqn:El'; simplify_eq/=.
    apply last_snoc_inv in El'. set (rest := removelast unsent) in *. clearbody rest. subst unsent.
    destruct (Cancel_run B outs rest z p s Hi) as (s' & E & Hi').
    rewrite fmap_app. cbn [fmap list_fmap snd]. rewrite last_snoc, E. eexists. split; [done|].
    exists rest. cbn [fst snd]. unfold sizes. rewrite fmap_app. cbn [fmap list_fmap fst]. by rewrite !removelast_last.
  - destruct outs as [|z outs]; simplify_eq/=.
    destruct (Consume_run B z outs unsent s Hi) as (f & q & Ef & Hrun). rewrite Ef.
    destruct (Hrun r) as (s' & E & Hi' & _). rewrite E. eexists. split; [done|]. by exists unsent.
  - destruct (Z.leb_spec lo hi); simplify_eq/=.
    destruct (Watermarks_run B outs unsent s hi lo Hi) as (s' & E & Hi' & _); [done|].
    rewrite E. eexists. split; [done|]. by exists unsent.
Qed.

Lemma client_run_simulates B ops q q' st :
  related B q st → queue_run B ops q = Some q' → ∃ st', client_run ops st = Ok st' ∧ related B q' st'.
Proof.
  revert q st. induction ops as [|o ops IH]; intros q st Hr Hq; cbn [queue_run client_run] in *.
  - injection Hq as <-. by exists st.
  - destruct (queue_step B o q) as [q1|] eqn:Eq; [|done].
    destruct (client_step_simulates _ _ _ _ _ Hr Eq) as (st1 & E1 & Hr1). rewrite E1. by apply (IH q1).
Qed.

Lemma Init_run B b gen seq :
  0 < B ≤ 2 ^ 62 →
  ∃ s, Init_ B true (Some b) true (construct 0 0 gen seq) = Ok (tt, s) ∧ related B ([], []) (s, []).
Proof.
  intros HB. eexists. split; [done|]. exists []. split; [|done].
  split; [|by intros _; cbn; split; intros ?; (done || lia)].
  split; cbn; try done; lia.
Qed.

(** ** What a full buffer and a flush do *)

(** The write pointer is not behind the read pointer: the space check never refuses. *)
Lemma no_space_ahead s e : 0 ≤ rd_ s ≤ wr_ s → wr_ s < 2 ^ 64 → wr_ s ≤ e → no_space s e = false.
Proof.
  intros H1 H2 H3. unfold no_space. rewrite (proj2 (Z.ltb_ge (wr_ s) _)) by lia.
  rewrite uwrap_small by (unfold is_u; lia). rewrite (proj2 (Z.ltb_ge e _)) by lia. apply andb_false_r.
Qed.

Lemma Fault_run reason s :
  internal_state_ s = OK →
  ∃ s', Fault_ reason s = Ok (tt, s') ∧ internal_state_ s' = SHUTTING_DOWN ∧ signal_cbk_ s' = false ∧
    in_flight_queue_ s' = [] ∧ pipe_bound s' = false ∧ signalled_ s' = true.
Proof.
  intros Hs. unfold Fault_, mbind, prog_bind, getS. cbn beta iota.
  rewrite Hs, bool_decide_eq_true_2 by done. unfold whenS, Cleanup, modS. cbn beta iota.
  rewrite UpdateSignalled_run. eexists. split; [done|]. unfold updated. by destruct (_ && _ && _).
Qed.

(** ** Properties *)

(** C27. With read and write pointers that start at 0 (the source leaves them unset), a buffer
    of [B] bytes, and a client without a signal callback, whatever sequence of packets is
    created without [no_wrap] when they leave a byte of the buffer free, sent from the oldest
    on, cancelled from the newest on and returned in order, and of water marks set, with no
    flush ([flush_defect]): the adapter runs without a fault and behaves as a queue.  The
    bytes pending are the sizes of the packets in the queue, the client holds the packets it
    has not sent, one entry is in flight per packet sent, and the adapter is signalled below
    the low water mark and not at the high one. *)
Theorem adapter_simulates_queue B b gen seq ops q :
  0 < B ≤ 2 ^ 62 → queue_run B ops ([], []) = Some q →
  ∃ s0 s held, Init_ B true (Some b) true (construct 0 0 gen seq) = Ok (tt, s0) ∧
    client_run ops (s0, []) = Ok (s, held) ∧ internal_state_ s = OK ∧
    GetPending s = total (q.1 ++ q.2) ∧ length held = length q.2 ∧
    post_consume_rd_ <$> in_flight_queue_ s = ends B (rd_ s) q.1 ∧ level_ok s.
Proof.
  intros HB Hq. destruct (Init_run B b gen seq HB) as (s0 & E0 & Hr0).
  destruct (client_run_simulates _ _ _ _ _ Hr0 Hq) as ([s held] & E & unsent & [Hc Hl] & Hs & Hh).
  exists s0, s, held. split; [done|]. split; [done|]. cbn [fst snd] in *.
  rewrite <- Hs, <- Hh, (GetPending_total _ _ _ _ Hc). unfold sizes. rewrite !length_fmap.
  by destruct Hc as [_ (? & _) _ _ _ _ ? _].
Qed.

(** A packet that fits beside the pending bytes is created; its one or two regions are
    exactly the next bytes of the circle from the write pointer on, inside the buffer, and
    none of them is a byte of a packet that is still pending. *)
Lemma created_packet_disjoint B outs unsent s z :
  Inv B outs unsent s → 0 ≤ z → GetPending s + z < B →
  ∃ p s', CreateMediaPacket z false s = Ok (OK, Some p, s') ∧ GetPending s' = GetPending s + z ∧
    (∀ x, covers p x ↔ ∃ j, 0 ≤ j < z ∧ x = pos B (wr_ s) j) ∧
    (∀ x, covers p x → 0 ≤ x < B ∧ ∀ i, 0 ≤ i < GetPending s → x ≠ pos B (rd_ s) i).
Proof.
  intros Hi Hz Ht. pose proof Hi as [Hc _]. rewrite (GetPending_total _ _ _ _ Hc) in *.
  destruct (Create_run B outs unsent s z Hi Hz Ht) as (p & s' & E & [Hc' _] & Hcov).
  exists p, s'. split; [done|]. rewrite (GetPending_total _ _ _ _ Hc'). split.
  { unfold sizes. rewrite fmap_app, app_assoc, total_app. cbn. lia. }
  split; [done|]. destruct Hc as [[HB _] _ Hrd _ _ Hwr _ _].
  intros x (j & Hj & ->)%Hcov. split; [apply pos_range; lia|]. intros i Hi' Heq.
  rewrite Hwr, pos_pos in Heq by lia. apply pos_inj in Heq; lia.
Qed.

(** The space check does not protect the pending bytes: unless the write pointer has
    wrapped behind the read pointer, no request of up to [B - 1] bytes is ever refused, and
    one of more than the free bytes gets a packet that covers the oldest pending byte. *)
Lemma space_check_defect B s z :
  0 < B ≤ 2 ^ 62 → buffer_size_ s = B → is_Some (cb_buffer_ s) → internal_state_ s = OK →
  flush_in_progress_ s = false → 0 ≤ rd_ s ≤ wr_ s → wr_ s < B → 0 ≤ z < B →
  ∃ p s', CreateMediaPacket z false s = Ok (OK, Some p, s') ∧
    (B - GetPending s < z → covers p (rd_ s)).
Proof.
  intros HB Hsz [b Hb] Hst Hbusy Hrd Hw Hz. eexists _, _. split.
  { apply (Create_unfold_gen B); try done; [lia..|]. apply no_space_ahead; lia. }
  intros Hover. apply (make_packet_covers B); [done|lia..|]. revert Hover. unfold GetPending.
  rewrite Hb, (proj2 (Z.ltb_ge _ _)), Z.add_0_r by lia. rewrite !uwrap_small by (rewrite ?uwrap_small; unfold is_u; lia).
  intros Hover. exists (B - (wr_ s - rd_ s)). split; [lia|]. unfold pos.
  apply (Z.mod_unique _ _ 1); lia.
Qed.

(** A flush cannot complete: on every adapter that is neither faulted nor busy [Flush]
    succeeds, and then the flush's completion pops the queue that [Flush] has emptied, which
    is undefined, while the return of any packet sent before the flush puts the adapter in
    its final state, in which the user's signal callback is gone and every request is refused. *)
Lemma flush_defect s :
  Faulted s = false → Busy s = false → pipe_bound s = true →
  ∃ s1, Flush_ s = Ok (OK, s1) ∧ HandleFlush s1 = Fault UndefinedBehaviour ∧
    ∀ seq r, ∃ s2, HandleSendPacket seq r s1 = Ok (tt, s2) ∧ internal_state_ s2 = SHUTTING_DOWN ∧
      signal_cbk_ s2 = false ∧ pipe_bound s2 = false ∧
      (∀ z no_wrap, CreateMediaPacket z no_wrap s2 = Ok (BAD_STATE, None, s2)) ∧
      Flush_ s2 = Ok (INTERNAL_ERROR, s2).
Proof.
  intros Hf Hb Hp. unfold Flush_ at 1, mbind, prog_bind, getS. cbn beta iota. rewrite Hf, Hb, Hp.
  assert (internal_state_ s = OK) as Hok.
  { unfold Faulted in Hf. apply bool_decide_eq_false in Hf. by destruct (decide (internal_state_ s = OK)). }
  unfold modS, mret, prog_ret. cbn beta iota. eexists. split; [done|]. set (s1 := add_effect _ _).
  assert (internal_state_ s1 = OK) as Hok1 by done. split.
  - unfold HandleFlush, mbind, prog_bind, getS. by rewrite not_faulted.
  - intros seq r. destruct (Fault_run UNKNOWN_ERROR s1 Hok1) as (s2 & E & H1 & H2 & H3 & H4 & _).
    exists s2. unfold HandleSendPacket, mbind, prog_bind, getS. cbn beta iota.
    assert (in_flight_queue_ s1 = []) as -> by done. cbn beta iota. rewrite E. split; [done|].
    split; [done|]. split; [done|]. split; [done|].
    assert (Faulted s2 = true) as Hf2 by (unfold Faulted; rewrite H1; by apply bool_decide_eq_true_2).
    unfold CreateMediaPacket, Flush_, mbind, prog_bind, getS. cbn beta iota. by rewrite Hf2.
Qed.

End WithBuild.

(** ** Examples *)

Definition ops_ex : list op :=
  [OpMarks 12 8; OpCreate 10; OpSend None; OpCreate 4; OpReturn CONSUMED; OpCreate 9; OpSend (Some 3%nat);
   OpCancel; OpCreate 11].

Lemma adapter_simulates_queue_witness :
  ∃ s0 s held, Init_ 16 true (Some 4096) true (construct 0 0 7 0) = Ok (tt, s0) ∧
    @client_run debug_build ops_ex (s0, []) = Ok (s, held) ∧ GetPending s = 15 ∧ length held = 1%nat.
Proof.
  destruct (@adapter_simulates_queue debug_build 16 4096 7 0 ops_ex ([4], [11]) ltac:(lia) eq_refl)
    as (s0 & s & held & E0 & E & _ & Hp & Hl & _).
  exists s0, s, held. by rewrite Hp, Hl.
Defined.

(** Ten of sixteen bytes are in flight, from byte 12 on. *)
Definition adapter_ex : adapter :=
  mk_adapter true true false false false 12 8 false OK true (Some 4096) 16 12 6 7 1
    [mk_state 6 0 (Some 3%nat)] [].

Lemma created_packet_disjoint_witness :
  ∃ p s', @CreateMediaPacket debug_build 5 false adapter_ex = Ok (OK, Some p, s') ∧ GetPending s' = 15 ∧
    ∀ x, covers p x → ∀ i, 0 ≤ i < 10 → x ≠ pos 16 12 i.
Proof.
  destruct (@created_packet_disjoint debug_build 16 [10] [] adapter_ex 5) as (p & s' & E & Hg & _ & Hd); [|lia|done|].
  - split; [|by intros _; vm_compute; split].
    split; cbn; try done; try lia. by repeat constructor.
  - exists p, s'. split; [done|]. split; [by rewrite Hg|]. intros x Hx. by apply Hd.
Defined.

(** Ten of sixteen bytes are in flight, from the start of the buffer on. *)
Lemma space_check_defect_witness :
  ∃ p s', @CreateMediaPacket debug_build 8 false (set_pointers 0 10 adapter_ex) = Ok (OK, Some p, s') ∧ covers p 0.
Proof.
  destruct (@space_check_defect debug_build 16 (set_pointers 0 10 adapter_ex) 8) as (p & s' & E & Hc);
    try done; try (cbn; lia); [].
  exists p, s'. split; [done|]. by apply Hc.
Defined.

Lemma flush_defect_witness :
  ∃ s1, Flush_ adapter_ex = Ok (OK, s1) ∧ HandleFlush s1 = Fault UndefinedBehaviour.
Proof.
  destruct (@flush_defect debug_build adapter_ex eq_refl eq_refl eq_refl) as (s1 & E & Hu & _). by exists s1.
Defined.

(** A packet that must not wrap does, when the buffer is empty at byte 10 of 16; and one
    that starts again at the front of the buffer covers the pending bytes 2 to 9. *)
Lemma no_wrap_defect :
  (∃ p s', @CreateMediaPacket debug_build 8 true (set_pointers 10 10 adapter_ex) = Ok (OK, Some p, s') ∧
     lengths_ p = (6, 2)) ∧
  (∃ p s', @CreateMediaPacket debug_build 12 true (set_pointers 2 10 adapter_ex) = Ok (OK, Some p, s') ∧
     ∀ x, 2 ≤ x < 10 → covers p x).
Proof.
  split; eexists _, _; (split; [vm_compute; reflexivity|]); [done|].
  intros x Hx. eexists _, _. split; [done|]. split; [by apply list_elem_of_singleton|]. cbn. lia.
Qed.

End CircularBufferSpec.
