(* ===== verification/Transport.v ===== *)
(** Streams across the interface boundary
    (services/media/framework_mojo/mojo_producer.cc, mojo_consumer.cc, mojo_allocator.cc).

    A producer is the sink of one graph: it sends each packet's place in the shared buffer to
    a consumer, which is the source of another graph.  Both map the buffer; a packet's
    payload is a pointer into the owner's mapping, 0 being null.  What an object asks of
    others is recorded: tasks posted, messages sent, demand and status signalled.  Handlers
    run one at a time, on the message loop or with the lock. *)

From S2P Require Import Prelude MediaStates Graph SharedBuffer.
Import MediaStates.

Module Transport.

(** ** Packets *)

Definition kUnknownPts : Z := min_s64.
Record Packet := mk_packet { pts : Z; end_of_stream : bool; size : Z; payload : Z; from_allocator : bool }.
#[export] Instance Packet_eq_dec : EqDecision Packet.
Proof. solve_decision. Defined.

(** [MediaPacketRegion] and [MediaPacket] of the interface; neither side uses [extra_payload]. *)
Record MediaPacketRegion := mk_region { offset : Z; length_ : Z }.
Record MediaPacket := mk_media_packet { media_pts : Z; media_end_of_stream : bool; media_payload : MediaPacketRegion }.

Section Packets.
Context `{BD : Build}.

(** The constructor of [Packet] and its factories. *)
Definition new_packet (pts : Z) (eos : bool) (size payload : Z) (allocator : bool) : outcome Packet :=
  _ ← dcheck (Bool.eqb (size =? 0) (payload =? 0)); Ok (mk_packet pts eos size payload allocator).
Definition CreatePacket (pts : Z) (eos : bool) (size payload : Z) (allocator : bool) : outcome Packet :=
  _ ← dcheck ((payload =? 0) || allocator); new_packet pts eos size payload allocator.
Definition CreateEndOfStream (pts : Z) : outcome Packet := new_packet pts true 0 0 false.

End Packets.

(** ** The producer *)

Section Producer.
Context {St : Type} `{RA : RegionAllocator St} `{MS : SharedBuffer.MojoSystem} `{BD : Build}.
Abbreviation Allocator := (@SharedBuffer.state St MS).

(** [MojoAllocator] *)
Definition AllocatePayloadBuffer (size : Z) : prog Allocator Z := SharedBuffer.AllocateRegion size.
Definition ReleasePayloadBuffer (size buffer : Z) : prog Allocator unit := SharedBuffer.ReleaseRegion size buffer.

(** [PacketImpl::Release] of a packet that this allocator may have to be told about. *)
Definition ReleasePacket (packet : Packet) : prog Allocator unit :=
  if negb (payload packet =? 0) && from_allocator packet then ReleasePayloadBuffer (size packet) (payload packet)
  else mret tt.

(** Messages to the consumer; a callback of the client is known by its number. *)
Inductive message :=
  | MsgSetBuffer (buffer : option SharedBuffer.handle) (callback : nat) | MsgPrime (callback : nat) | MsgFlush (callback : nat)
  | MsgSendPacket (packet : MediaPacket) (packet_raw_ptr : Packet).

Record MojoProducer := mk_producer {
  mojo_allocator_ : Allocator;
  consumer_ : bool;
  status_callback_ : bool;
  demand_callback_ : bool;
  state_ : MediaState;
  end_of_stream_ : bool;
  first_pts_since_flush_ : Z;
  max_pushes_outstanding_ : Z;
  current_pushes_outstanding_ : Z;
  posted : list (Packet * MediaPacket);
  messages : list message;
  demands : list Graph.Demand;
  statuses : list MediaState;
  callbacks_run : list nat;
}.

Definition set_allocator v p := mk_producer v (consumer_ p) (status_callback_ p) (demand_callback_ p) (state_ p) (end_of_stream_ p)
  (first_pts_since_flush_ p) (max_pushes_outstanding_ p) (current_pushes_outstanding_ p) (posted p) (messages p) (demands p)
  (statuses p) (callbacks_run p).
Definition set_consumer v p := mk_producer (mojo_allocator_ p) v (status_callback_ p) (demand_callback_ p) (state_ p) (end_of_stream_ p)
  (first_pts_since_flush_ p) (max_pushes_outstanding_ p) (current_pushes_outstanding_ p) (posted p) (messages p) (demands p)
  (statuses p) (callbacks_run p).
Definition set_status_callback v p := mk_producer (mojo_allocator_ p) (consumer_ p) v (demand_callback_ p) (state_ p) (end_of_stream_ p)
  (first_pts_since_flush_ p) (max_pushes_outstanding_ p) (current_pushes_outstanding_ p) (posted p) (messages p) (demands p)
  (statuses p) (callbacks_run p).
Definition set_demand_callback v p := mk_producer (mojo_allocator_ p) (consumer_ p) (status_callback_ p) v (state_ p) (end_of_stream_ p)
  (first_pts_since_flush_ p) (max_pushes_outstanding_ p) (current_pushes_outstanding_ p) (posted p) (messages p) (demands p)
  (statuses p) (callbacks_run p).
Definition set_end_of_stream v p := mk_producer (mojo_allocator_ p) (consumer_ p) (status_callback_ p) (demand_callback_ p) (state_ p) v
  (first_pts_since_flush_ p) (max_pushes_outstanding_ p) (current_pushes_outstanding_ p) (posted p) (messages p) (demands p)
  (statuses p) (callbacks_run p).
Definition set_first_pts v p := mk_producer (mojo_allocator_ p) (consumer_ p) (status_callback_ p) (demand_callback_ p) (state_ p)
  (end_of_stream_ p) v (max_pushes_outstanding_ p) (current_pushes_outstanding_ p) (posted p) (messages p) (demands p)
  (statuses p) (callbacks_run p).
Definition set_max v p := mk_producer (mojo_allocator_ p) (consumer_ p) (status_callback_ p) (demand_callback_ p) (state_ p)
  (end_of_stream_ p) (first_pts_since_flush_ p) v (current_pushes_outstanding_ p) (posted p) (messages p) (demands p)
  (statuses p) (callbacks_run p).
Definition set_current v p := mk_producer (mojo_allocator_ p) (consumer_ p) (status_callback_ p) (demand_callback_ p) (state_ p)
  (end_of_stream_ p) (first_pts_since_flush_ p) (max_pushes_outstanding_ p) v (posted p) (messages p) (demands p)
  (statuses p) (callbacks_run p).
Definition set_posted v p := mk_producer (mojo_allocator_ p) (consumer_ p) (status_callback_ p) (demand_callback_ p) (state_ p)
  (end_of_stream_ p) (first_pts_since_flush_ p) (max_pushes_outstanding_ p) (current_pushes_outstanding_ p) v (messages p) (demands p)
  (statuses p) (callbacks_run p).
Definition add_message m p := mk_producer (mojo_allocator_ p) (consumer_ p) (status_callback_ p) (demand_callback_ p) (state_ p)
  (end_of_stream_ p) (first_pts_since_flush_ p) (max_pushes_outstanding_ p) (current_pushes_outstanding_ p) (posted p)
  (messages p ++ [m]) (demands p) (statuses p) (callbacks_run p).
Definition add_demand d p := mk_producer (mojo_allocator_ p) (consumer_ p) (status_callback_ p) (demand_callback_ p) (state_ p)
  (end_of_stream_ p) (first_pts_since_flush_ p) (max_pushes_outstanding_ p) (current_pushes_outstanding_ p) (posted p)
  (messages p) (d :: demands p) (statuses p) (callbacks_run p).
Definition add_run c p := mk_producer (mojo_allocator_ p) (consumer_ p) (status_callback_ p) (demand_callback_ p) (state_ p)
  (end_of_stream_ p) (first_pts_since_flush_ p) (max_pushes_outstanding_ p) (current_pushes_outstanding_ p) (posted p)
  (messages p) (demands p) (statuses p) (c :: callbacks_run p).

(** [MojoProducer()], with an allocator that was constructed. *)
Definition new_producer (allocator : Allocator) : MojoProducer :=
  mk_producer allocator false false false UNPREPARED false kUnknownPts 0 0 [] [] [] [] [].

Definition with_allocator {A} (m : prog Allocator A) : prog MojoProducer A := λ p,
  match m (mojo_allocator_ p) with
  | Ok (a, s) => Ok (a, set_allocator s p)
  | Fault f => Fault f
  end.

(** A message needs a consumer. *)
Definition send (m : message) : prog MojoProducer unit :=
  p ← getS; if consumer_ p then modS (add_message m) else failS UndefinedBehaviour.
Definition signal_demand (d : Graph.Demand) : prog MojoProducer unit :=
  p ← getS; _ ← dcheckS (demand_callback_ p); modS (add_demand d).

Definition SetState (state : MediaState) : prog MojoProducer unit := modS (λ p,
  if decide (state_ p = state) then p
  else mk_producer (mojo_allocator_ p) (consumer_ p) (status_callback_ p) (demand_callback_ p) state (end_of_stream_ p)
    (first_pts_since_flush_ p) (max_pushes_outstanding_ p) (current_pushes_outstanding_ p) (posted p) (messages p) (demands p)
    (if status_callback_ p then state :: statuses p else statuses p) (callbacks_run p)).

Definition demand_of (p : MojoProducer) : Graph.Demand :=
  if current_pushes_outstanding_ p <? max_pushes_outstanding_ p then Graph.kPositive else Graph.kNegative.

Definition buffer_size : Z := 2048 * 1024.
Definition init_allocator : prog MojoProducer unit :=
  p ← getS;
  if negb (SharedBuffer.initialized (mojo_allocator_ p)) then with_allocator (SharedBuffer.InitNew buffer_size) else mret tt.

Definition PrimeConnection (callback : nat) : prog MojoProducer unit :=
  p ← getS;
  demand ← (if consumer_ p then _ ← modS (set_max 3); readS demand_of
            else _ ← init_allocator; mret Graph.kNeutral);
  _ ← signal_demand demand;
  _ ← SetState PAUSED;
  p ← getS;
  if consumer_ p then send (MsgPrime callback) else modS (add_run callback).

Definition FlushConnection (callback : nat) : prog MojoProducer unit :=
  _ ← modS (set_max 0);
  _ ← signal_demand Graph.kNegative;
  p ← getS;
  _ ← (if consumer_ p then send (MsgFlush callback) else modS (add_run callback));
  _ ← modS (set_first_pts kUnknownPts);
  modS (set_end_of_stream false).

Definition SetStatusCallback (set : bool) : prog MojoProducer unit := modS (set_status_callback set).
Definition GetFirstPtsSinceFlush : prog MojoProducer Z := readS first_pts_since_flush_.
Definition SetDemandCallback (set : bool) : prog MojoProducer unit := modS (set_demand_callback set).

Definition CreateMediaPacket (packet : Packet) : prog MojoProducer MediaPacket :=
  offset ← (if size packet =? 0 then mret 0 else with_allocator (SharedBuffer.OffsetFromPtr (payload packet)));
  mret (mk_media_packet (pts packet) (end_of_stream packet) (mk_region offset (size packet))).

Definition SupplyPacket (packet : Packet) : prog MojoProducer Graph.Demand :=
  p ← getS;
  _ ← whenS (first_pts_since_flush_ p =? kUnknownPts) (modS (set_first_pts (pts packet)));
  if negb (consumer_ p) then
    if end_of_stream packet then
      _ ← modS (set_end_of_stream true);
      _ ← SetState ENDED;
      _ ← with_allocator (ReleasePacket packet);
      mret Graph.kNegative
    else
      _ ← with_allocator (ReleasePacket packet);
      mret Graph.kNeutral
  else
    _ ← dcheckS (current_pushes_outstanding_ p <? max_pushes_outstanding_ p);
    _ ← dcheckS (negb (end_of_stream_ p));
    _ ← modS (λ p, set_current (u32 (current_pushes_outstanding_ p + 1)) p);
    demand ← (if end_of_stream packet then
                _ ← modS (set_end_of_stream true);
                _ ← modS (set_max 0);
                mret Graph.kNegative
              else readS demand_of);
    media_packet ← CreateMediaPacket packet;
    _ ← modS (λ p, set_posted (posted p ++ [(packet, media_packet)]) p);
    mret demand.

Definition Connect (callback : nat) : prog MojoProducer unit :=
  _ ← modS (set_consumer true);
  _ ← init_allocator;
  buffer ← with_allocator SharedBuffer.GetDuplicateHandle;
  send (MsgSetBuffer buffer callback).
Definition Disconnect : prog MojoProducer unit :=
  _ ← signal_demand Graph.kNegative;
  _ ← SetState UNPREPARED;
  modS (set_consumer false).

(** [SendPacket], which runs as a posted task, and the callback of its message. *)
Definition SendPacket (packet_raw_ptr : Packet) (media_packet : MediaPacket) : prog MojoProducer unit :=
  send (MsgSendPacket media_packet packet_raw_ptr).
Definition PacketConsumed (packet : Packet) : prog MojoProducer unit :=
  _ ← modS (λ p, set_current (u32 (current_pushes_outstanding_ p - 1)) p);
  demand ← readS demand_of;
  _ ← signal_demand demand;
  p ← getS;
  _ ← whenS (end_of_stream_ p && end_of_stream packet) (SetState ENDED);
  with_allocator (ReleasePacket packet).
Definition run_task : prog MojoProducer unit :=
  p ← getS;
  match posted p with
  | [] => mret tt
  | (packet, media_packet) :: rest => _ ← modS (set_posted rest); SendPacket packet media_packet
  end.

End Producer.

(** ** The consumer *)

Section Consumer.
Context `{MS : SharedBuffer.MojoSystem} `{BD : Build}.

(** A [MappedSharedBuffer] has no allocator: its [OnInit] does nothing. *)
#[export] Instance no_allocator : RegionAllocator unit := {|
  ra_construct _ := Ok tt;
  ra_reset _ := mret tt;
  ra_allocate _ := failS UndefinedBehaviour;
  ra_release _ _ := failS UndefinedBehaviour;
  ra_inv _ := True;
  ra_size _ := 0;
  ra_live _ := [];
|}.
Abbreviation MappedSharedBuffer := (@SharedBuffer.state unit MS).

(** [MojoConsumer::PacketImpl], with the callback that its release runs; callbacks are
    values of a type. *)
Context {C : Type}.
Record PacketImpl := mk_impl { impl_packet : Packet; callback_ : C }.

Record MojoConsumer := mk_consumer {
  buffer_ : MappedSharedBuffer;
  prime_requested_callback_ : bool;
  flush_requested_callback_ : bool;
  supply_callback_ : bool;
  supplied : list PacketImpl;
  primes_requested : list nat;
  flushes_requested : list nat;
  replies : list nat;
  released : list C;
}.
Definition new_consumer (buffer : MappedSharedBuffer) : MojoConsumer := mk_consumer buffer false false false [] [] [] [] [].

Definition SetPrimeRequestedCallback (set : bool) : prog MojoConsumer unit := modS (λ c,
  mk_consumer (buffer_ c) set (flush_requested_callback_ c) (supply_callback_ c) (supplied c) (primes_requested c)
    (flushes_requested c) (replies c) (released c)).
Definition SetFlushRequestedCallback (set : bool) : prog MojoConsumer unit := modS (λ c,
  mk_consumer (buffer_ c) (prime_requested_callback_ c) set (supply_callback_ c) (supplied c) (primes_requested c)
    (flushes_requested c) (replies c) (released c)).
Definition SetSupplyCallback (set : bool) : prog MojoConsumer unit := modS (λ c,
  mk_consumer (buffer_ c) (prime_requested_callback_ c) (flush_requested_callback_ c) set (supplied c) (primes_requested c)
    (flushes_requested c) (replies c) (released c)).
Definition set_buffer b c := mk_consumer b (prime_requested_callback_ c) (flush_requested_callback_ c) (supply_callback_ c)
  (supplied c) (primes_requested c) (flushes_requested c) (replies c) (released c).
Definition add_reply n c := mk_consumer (buffer_ c) (prime_requested_callback_ c) (flush_requested_callback_ c)
  (supply_callback_ c) (supplied c) (primes_requested c) (flushes_requested c) (replies c ++ [n]) (released c).

Definition with_buffer {A} (m : prog MappedSharedBuffer A) : prog MojoConsumer A := λ c,
  match m (buffer_ c) with
  | Ok (a, b) => Ok (a, set_buffer b c)
  | Fault f => Fault f
  end.

Definition SetBuffer (buffer : SharedBuffer.handle) (callback : nat) : prog MojoConsumer unit :=
  _ ← with_buffer (SharedBuffer.InitFromHandle buffer); modS (add_reply callback).

(** The constructor of [PacketImpl], and [Release], which posts the callback. *)
Definition CreatePacketImpl (media_packet : MediaPacket) (callback : C) : prog MojoConsumer PacketImpl :=
  let region := media_payload media_packet in
  payload ← (if length_ region =? 0 then mret 0 else with_buffer (SharedBuffer.PtrFromOffset (offset region)));
  packet ← liftO (new_packet (media_pts media_packet) (media_end_of_stream media_packet) (length_ region) payload false);
  mret (mk_impl packet callback).
Definition ReleaseImpl (impl : PacketImpl) : prog MojoConsumer unit := modS (λ c,
  mk_consumer (buffer_ c) (prime_requested_callback_ c) (flush_requested_callback_ c) (supply_callback_ c) (supplied c)
    (primes_requested c) (flushes_requested c) (replies c) (released c ++ [callback_ impl])).

Definition ConsumerSendPacket (media_packet : MediaPacket) (callback : C) : prog MojoConsumer unit :=
  c ← getS;
  _ ← dcheckS (supply_callback_ c);
  impl ← CreatePacketImpl media_packet callback;
  modS (λ c, mk_consumer (buffer_ c) (prime_requested_callback_ c) (flush_requested_callback_ c) (supply_callback_ c)
    (supplied c ++ [impl]) (primes_requested c) (flushes_requested c) (replies c) (released c)).
Definition Prime (callback : nat) : prog MojoConsumer unit :=
  c ← getS;
  if prime_requested_callback_ c then modS (λ c,
    mk_consumer (buffer_ c) (prime_requested_callback_ c) (flush_requested_callback_ c) (supply_callback_ c) (supplied c)
      (primes_requested c ++ [callback]) (flushes_requested c) (replies c) (released c))
  else modS (add_reply callback).
Definition MediaConsumerFlush (callback : nat) : prog MojoConsumer unit :=
  c ← getS;
  if flush_requested_callback_ c then modS (λ c,
    mk_consumer (buffer_ c) (prime_requested_callback_ c) (flush_requested_callback_ c) (supply_callback_ c) (supplied c)
      (primes_requested c) (flushes_requested c ++ [callback]) (replies c) (released c))
  else modS (add_reply callback).
Definition Flush (callback : nat) : prog MojoConsumer unit := MediaConsumerFlush callback.

(** [can_accept_allocator] *)
Definition can_accept_allocator : bool := false.

End Consumer.
End Transport.
