(* ===== verification/TransportSpec.v ===== *)
(** A producer and a consumer together: whatever the order of posted tasks, messages,
    releases and replies, packets arrive in order and intact, at most three are on their
    way, no byte of the shared buffer is in two of them, and each packet's memory is returned
    to the allocator after the consumer's side has released it. *)

From S2P Require Import Prelude MediaStates Graph FifoAllocator SharedBuffer Transport.
Import MediaStates Transport.

Module TransportSpec.
Section Spec.
Context {St : Type} `{RA : RegionAllocator St} `{RL : !RegionAllocatorLaws St}
  `{MS : SharedBuffer.MojoSystem} `{BD : Build}.
Abbreviation Producer := (@MojoProducer St MS).
Abbreviation Consumer := (@MojoConsumer MS Packet).

(** ** The system

    The producer's graph supplies packets when the last demand that it was given is
    positive, with payloads from the producer's allocator; the consumer's graph holds the
    packets it was supplied with until it releases them, in any order. *)
Record system := mk_system {
  producer : Producer;
  consumer : Consumer;
  held : list (@PacketImpl Packet);
  last_demand : Graph.Demand;
  primed : bool;
  history : list Packet;
}.
Implicit Types (s : system) (p : Producer) (c : Consumer).

Definition set_messages v p : Producer := mk_producer (mojo_allocator_ p) (consumer_ p) (status_callback_ p) (demand_callback_ p)
  (state_ p) (end_of_stream_ p) (first_pts_since_flush_ p) (max_pushes_outstanding_ p) (current_pushes_outstanding_ p) (posted p)
  v (demands p) (statuses p) (callbacks_run p).
Definition set_released v c : Consumer := mk_consumer (buffer_ c) (prime_requested_callback_ c) (flush_requested_callback_ c)
  (supply_callback_ c) (supplied c) (primes_requested c) (flushes_requested c) (replies c) v.

(** An operation of the producer, whose last signal becomes the demand. *)
Definition with_producer {A} (m : prog Producer A) : prog system A := λ s,
  match m (producer s) with
  | Ok (a, p) => Ok (a, mk_system p (consumer s) (held s) (last_demand s) (primed s) (history s))
  | Fault f => Fault f
  end.
Definition with_consumer {A} (m : prog Consumer A) : prog system A := λ s,
  match m (consumer s) with
  | Ok (a, c) => Ok (a, mk_system (producer s) c (held s) (last_demand s) (primed s) (history s))
  | Fault f => Fault f
  end.
Definition signalled : prog system unit := modS (λ s,
  mk_system (producer s) (consumer s) (held s) (default (last_demand s) (head (demands (producer s)))) (primed s) (history s)).
Definition set_primed b : prog system unit := modS (λ s,
  mk_system (producer s) (consumer s) (held s) (last_demand s) b (history s)).

Definition supply (packet : Packet) : prog system unit :=
  d ← with_producer (SupplyPacket packet);
  modS (λ s, mk_system (producer s) (consumer s) (held s) d (primed s) (history s ++ [packet])).

Inductive action :=
  | Supply (n pts : Z) | SupplyEnd (pts : Z) | RunTask | Deliver | Release (k : nat) | Reply
  | DoPrime (callback : nat) | DoFlush (callback : nat).

Definition act (a : action) : prog system unit :=
  match a with
  | Supply n t =>
      ptr ← with_producer (with_allocator (AllocatePayloadBuffer n));
      if ptr =? 0 then mret tt else packet ← liftO (CreatePacket t false n ptr true); supply packet
  | SupplyEnd t => packet ← liftO (CreateEndOfStream t); supply packet
  | RunTask => with_producer run_task
  | Deliver =>
      s ← getS;
      match messages (producer s) with
      | [] => mret tt
      | m :: rest =>
          _ ← with_producer (modS (set_messages rest));
          match m with
          | MsgSetBuffer (Some h) n => with_consumer (SetBuffer h n)
          | MsgSetBuffer None _ => failS UndefinedBehaviour
          | MsgPrime n => with_consumer (Prime n)
          | MsgFlush n => with_consumer (Flush n)
          | MsgSendPacket media_packet raw =>
              _ ← with_consumer (ConsumerSendPacket media_packet raw);
              modS (λ s, mk_system (producer s) (consumer s) (held s ++ option_list (last (supplied (consumer s))))
                           (last_demand s) (primed s) (history s))
          end
      end
  | Release k =>
      s ← getS;
      match held s !! k with
      | None => mret tt
      | Some impl =>
          _ ← modS (λ s, mk_system (producer s) (consumer s) (delete k (held s)) (last_demand s) (primed s) (history s));
          with_consumer (ReleaseImpl impl)
      end
  | Reply =>
      s ← getS;
      match released (consumer s) with
      | [] => mret tt
      | raw :: rest =>
          _ ← with_consumer (modS (set_released rest));
          _ ← with_producer (PacketConsumed raw);
          signalled
      end
  | DoPrime n => _ ← with_producer (PrimeConnection n); _ ← set_primed true; signalled
  | DoFlush n => _ ← with_producer (FlushConnection n); _ ← set_primed false; signalled
  end.

(** The graph supplies only on positive demand, and priming follows a flush. *)
Definition allowed (a : action) s : Prop :=
  match a with
  | Supply n _ => 0 < n ∧ last_demand s = Graph.kPositive
  | SupplyEnd _ => last_demand s = Graph.kPositive
  | DoPrime _ => primed s = false
  | _ => True
  end.

(** ** Where packets are *)

Definition base s : Z := SharedBuffer.buffer_ptr_ (mojo_allocator_ (producer s)).
Definition sent_of (m : message) : list Packet := match m with MsgSendPacket _ raw => [raw] | _ => [] end.
Definition sent (ms : list message) : list Packet := concat (map sent_of ms).
Definition outstanding s : list Packet :=
  map fst (posted (producer s)) ++ sent (messages (producer s)) ++ map callback_ (held s) ++ released (consumer s).

(** The memory of a packet, and the packet as the consumer's side sees it. *)
Definition region (packet : Packet) : list (Z * Z) := if payload packet =? 0 then [] else [(payload packet, size packet)].
Definition regions (packets : list Packet) : list (Z * Z) := concat (map region packets).
Definition media_of (b : Z) (packet : Packet) : MediaPacket :=
  mk_media_packet (pts packet) (end_of_stream packet)
    (mk_region (if size packet =? 0 then 0 else payload packet - b) (size packet)).
Definition arrival (b b' : Z) (packet : Packet) : Packet :=
  mk_packet (pts packet) (end_of_stream packet) (size packet) (if payload packet =? 0 then 0 else payload packet - b + b') false.

(** A packet without payload, or with one in the buffer at [b] of [z] bytes. *)
Definition in_buffer (b z : Z) (packet : Packet) : Prop :=
  size packet = 0 ∧ payload packet = 0 ∨
  0 < size packet ∧ b ≤ payload packet ∧ payload packet + size packet ≤ b + z ∧ 0 < payload packet ∧ from_allocator packet = true.
Definition carries (b : Z) (m : message) : Prop :=
  match m with
  | MsgSetBuffer _ _ => False
  | MsgSendPacket media raw => media = media_of b raw
  | _ => True
  end.

(** The producer's part, with [b] and [z] the place and size of its mapping and [n] packets
    outstanding. *)
Record producer_ok (b z : Z) (n : nat) p : Prop := {
  po_consumer : consumer_ p = true;
  po_callback : demand_callback_ p = true;
  po_ready : SharedBuffer.ready (mojo_allocator_ p);
  po_base : SharedBuffer.buffer_ptr_ (mojo_allocator_ p) = b;
  po_size : SharedBuffer.size_ (mojo_allocator_ p) = z;
  po_current : current_pushes_outstanding_ p = Z.of_nat n;
  po_bound : (n ≤ 3)%nat;
  po_posted : Forall (λ x, x.2 = media_of b x.1) (posted p);
  po_messages : Forall (carries b) (messages p);
}.
Record consumer_ok (z : Z) c : Prop := {
  co_supply : supply_callback_ c = true;
  co_mapped : 0 < SharedBuffer.buffer_ptr_ (buffer_ c);
  co_fits : SharedBuffer.buffer_ptr_ (buffer_ c) + z ≤ 2 ^ 64;
  co_size : SharedBuffer.size_ (buffer_ c) = z;
}.
Record ok (extra : list Packet) (b z b' : Z) s : Prop := {
  ok_producer : producer_ok b z (length (outstanding s)) (producer s);
  ok_consumer : consumer_ok z (consumer s);
  ok_base : SharedBuffer.buffer_ptr_ (buffer_ (consumer s)) = b';
  ok_packets : Forall (in_buffer b z) (outstanding s);
  ok_memory : SharedBuffer.live_ptrs (mojo_allocator_ (producer s)) ≡ₚ regions (extra ++ outstanding s);
  ok_held : Forall (λ h, impl_packet h = arrival b b' (callback_ h)) (held s);
  ok_order : map impl_packet (supplied (consumer s)) ++
      map (arrival b b') (sent (messages (producer s)) ++ map fst (posted (producer s))) = map (arrival b b') (history s);
  ok_demand : last_demand s = demand_of (producer s);
  ok_primed : max_pushes_outstanding_ (producer s) =
      if primed s && negb (end_of_stream_ (producer s)) then 3 else 0;
  ok_unprimed : primed s = false → end_of_stream_ (producer s) = false;
  ok_disjoint : ForallOrdPairs FifoAllocator.disjoint (regions (extra ++ outstanding s));
}.

Lemma disjoint_Permutation l l' :
  l ≡ₚ l' → ForallOrdPairs FifoAllocator.disjoint l → ForallOrdPairs FifoAllocator.disjoint l'.
Proof.
  induction 1 as [|x l l' Hl IH|x y l|l l' l'' _ IH1 _ IH2]; auto; inversion_clear 1.
  - constructor; [by rewrite <-Hl|by apply IH].
  - inversion_clear H1. inversion_clear H0. constructor; [|by constructor].
    constructor; [|done]. unfold FifoAllocator.disjoint in *. lia.
Qed.
#[export] Instance disjoint_Proper : Proper ((≡ₚ) ==> iff) (ForallOrdPairs FifoAllocator.disjoint).
Proof. intros l l' H. by split; apply disjoint_Permutation. Qed.
Lemma regions_app l l' : regions (l ++ l') = regions l ++ regions l'.
Proof. unfold regions. by rewrite map_app, concat_app. Qed.
#[export] Instance regions_Permutation : Proper ((≡ₚ) ==> (≡ₚ)) regions.
Proof. intros l l' H. unfold regions. by rewrite H. Qed.
Lemma sent_app ms ms' : sent (ms ++ ms') = sent ms ++ sent ms'.
Proof. unfold sent. by rewrite map_app, concat_app. Qed.

(** ** The producer's operations *)

(** Operations leave this alone. *)
Definition same_places p p' : Prop := posted p' = posted p ∧ messages p' = messages p.

Lemma SetState_same m p :
  runs (SetState m) p (λ _ p', (∀ b z n, producer_ok b z n p → producer_ok b z n p') ∧ same_places p p' ∧
    demands p' = demands p ∧ mojo_allocator_ p' = mojo_allocator_ p ∧ end_of_stream_ p' = end_of_stream_ p ∧
    max_pushes_outstanding_ p' = max_pushes_outstanding_ p ∧ current_pushes_outstanding_ p' = current_pushes_outstanding_ p ∧
    consumer_ p' = consumer_ p ∧ demand_callback_ p' = demand_callback_ p).
Proof.
  apply runs_mod_last. destruct (decide (state_ p = m)) as [Hm|Hm]; split_and!; try done.
  intros b z n [H1 H2 H3 H4 H5 H6 H7 H8 H9]. by split.
Qed.

Lemma CreateMediaPacket_run b z n p packet :
  producer_ok b z n p → in_buffer b z packet → CreateMediaPacket packet p = Ok (media_of b packet, p).
Proof.
  intros Hp [[Hs Hpl]|(Hs & Hlo & Hhi & _)]; unfold CreateMediaPacket, media_of.
  - rewrite Hs. done.
  - rewrite (proj2 (Z.eqb_neq (size packet) 0)) by lia.
    assert (E : with_allocator (SharedBuffer.OffsetFromPtr (payload packet)) p = Ok (payload packet - b, p)).
    { unfold with_allocator. pose proof (SharedBuffer.OffsetFromPtr_run (mojo_allocator_ p) (payload packet - b)) as E.
      rewrite (po_base _ _ _ _ Hp), (po_size _ _ _ _ Hp) in E. replace (b + (payload packet - b)) with (payload packet) in E by lia.
      rewrite E by (apply Hp || lia). by destruct p. }
    by rewrite (prog_bind_run _ _ _ _ _ E).
Qed.

Lemma SupplyPacket_runs b z n p packet :
  producer_ok b z n p → in_buffer b z packet → Z.of_nat n < max_pushes_outstanding_ p ≤ 3 → end_of_stream_ p = false →
  runs (SupplyPacket packet) p (λ d p', d = demand_of p' ∧ producer_ok b z (S n) p' ∧
    posted p' = posted p ++ [(packet, media_of b packet)] ∧ messages p' = messages p ∧
    mojo_allocator_ p' = mojo_allocator_ p ∧ end_of_stream_ p' = end_of_stream packet ∧
    max_pushes_outstanding_ p' = if end_of_stream packet then 0 else max_pushes_outstanding_ p).
Proof.
  intros Hp Hb Hn He. unfold SupplyPacket. apply runs_get.
  eapply runs_bind with (Q := λ _ p1, producer_ok b z n p1 ∧ same_places p p1 ∧ mojo_allocator_ p1 = mojo_allocator_ p ∧
    end_of_stream_ p1 = false ∧ max_pushes_outstanding_ p1 = max_pushes_outstanding_ p ∧ consumer_ p1 = consumer_ p).
  { destruct Hp as [H1 H2 H3 H4 H5 H6 H7 H8 H9]. destruct (first_pts_since_flush_ p =? kUnknownPts); cbn [whenS].
    - apply runs_mod_last. split_and!; try done.
    - apply runs_ret. split_and!; try done. }
  intros ? p1 (Hp1 & [Epo Ems] & Ea & Ee & Em & Ec).
  rewrite (po_consumer _ _ _ _ Hp). cbn [negb].
  apply runs_dcheck; [rewrite (po_current _ _ _ _ Hp); apply Z.ltb_lt; lia|]. apply runs_dcheck; [by rewrite He|].
  apply runs_mod. set (p2 := set_current _ p1).
  assert (producer_ok b z (S n) p2) as Hp2.
  { destruct Hp1 as [H1 H2 H3 H4 H5 H6 H7 H8 H9]. split; try done; [|lia]. cbn. rewrite H6, uwrap_small by (unfold is_u; lia). lia. }
  eapply runs_bind with (Q := λ d p3, d = demand_of p3 ∧ producer_ok b z (S n) p3 ∧ same_places p2 p3 ∧
    mojo_allocator_ p3 = mojo_allocator_ p2 ∧ end_of_stream_ p3 = end_of_stream packet ∧
    max_pushes_outstanding_ p3 = if end_of_stream packet then 0 else max_pushes_outstanding_ p2).
  { destruct (end_of_stream packet).
    - apply runs_mod, runs_mod, runs_ret. destruct Hp2 as [H1 H2 H3 H4 H5 H6 H7 H8 H9]. split_and!; try done.
      unfold demand_of. cbn. cbn in H6. rewrite H6. by rewrite (proj2 (Z.ltb_ge _ _)) by lia.
    - eexists (demand_of p2), p2. split; [done|]. by split_and!. }
  intros d p3 (Ed & Hp3 & [Epo3 Ems3] & Ea3 & Ee3 & Em3).
  eapply runs_step; [by eapply CreateMediaPacket_run|]. apply runs_mod, runs_ret.
  split_and!; try done.
  - destruct Hp3 as [H1 H2 H3 H4 H5 H6 H7 H8 H9]. split; try done. cbn. apply Forall_app_2; [done|]. by constructor.
  - cbn. rewrite Epo3. cbn. by rewrite Epo.
  - cbn. rewrite Ems3. by cbn.
  - cbn. rewrite Ea3. by cbn.
  - cbn. rewrite Em3. cbn. by rewrite Em.
Qed.

Lemma ReleasePacket_runs b z n p packet live :
  producer_ok b z n p → in_buffer b z packet → SharedBuffer.live_ptrs (mojo_allocator_ p) ≡ₚ region packet ++ live →
  runs (with_allocator (ReleasePacket packet)) p (λ _ p', producer_ok b z n p' ∧ same_places p p' ∧ demands p' = demands p ∧
    end_of_stream_ p' = end_of_stream_ p ∧ max_pushes_outstanding_ p' = max_pushes_outstanding_ p ∧
    SharedBuffer.live_ptrs (mojo_allocator_ p') ≡ₚ live).
Proof.
  intros Hp Hb Hl. pose proof Hp as [H1 H2 H3 H4 H5 H6 H7 H8 H9]. unfold ReleasePacket, region in *.
  destruct Hb as [[Hs Hpl]|(Hs & Hlo & Hhi & _ & Hfa)].
  - rewrite Hpl in *. cbn [negb andb Z.eqb] in *. exists tt, p. split; [unfold with_allocator; by destruct p|]. by split_and!.
  - pose proof (SharedBuffer.ready_mapped _ H3). rewrite (proj2 (Z.eqb_neq (payload packet) 0)) in * by lia. rewrite Hfa.
    cbn [negb andb]. destruct (SharedBuffer.ReleaseRegion_ptr_runs (mojo_allocator_ p) (payload packet) (size packet))
      as ([] & a & E & Hr & Eb & Ez & Elive); [done| |lia|lia|].
    { rewrite Hl. by left. }
    exists tt, (set_allocator a p). split; [unfold with_allocator, ReleasePayloadBuffer; by rewrite E|].
    split_and!; try done.
    + split; cbn; congruence || done.
    + cbn. rewrite Hl in Elive. by apply Permutation_cons_inv in Elive.
Qed.

Lemma PacketConsumed_runs b z n p packet live :
  producer_ok b z (S n) p → in_buffer b z packet → SharedBuffer.live_ptrs (mojo_allocator_ p) ≡ₚ region packet ++ live →
  runs (PacketConsumed packet) p (λ _ p', producer_ok b z n p' ∧ same_places p p' ∧
    head (demands p') = Some (demand_of p') ∧ end_of_stream_ p' = end_of_stream_ p ∧
    max_pushes_outstanding_ p' = max_pushes_outstanding_ p ∧ SharedBuffer.live_ptrs (mojo_allocator_ p') ≡ₚ live).
Proof.
  intros Hp Hb Hl. unfold PacketConsumed. apply runs_mod. set (p1 := set_current _ p).
  assert (producer_ok b z n p1) as Hp1.
  { destruct Hp as [H1 H2 H3 H4 H5 H6 H7 H8 H9]. split; try done; [|lia]. cbn. rewrite H6, uwrap_small by (unfold is_u; lia). lia. }
  apply runs_step with (a := demand_of p1) (s' := p1); [done|].
  eapply runs_bind with (Q := λ _ p2, p2 = add_demand (demand_of p1) p1).
  { unfold signal_demand. apply runs_get, runs_dcheck; [apply Hp1|]. by apply runs_mod_last. }
  intros ? p2 ->. set (p2 := add_demand _ p1). apply runs_get.
  assert (producer_ok b z n p2) as Hp2 by (destruct Hp1; by split).
  eapply runs_bind with (Q := λ _ p3, producer_ok b z n p3 ∧ same_places p p3 ∧ demands p3 = demands p2 ∧
    mojo_allocator_ p3 = mojo_allocator_ p ∧ end_of_stream_ p3 = end_of_stream_ p ∧
    max_pushes_outstanding_ p3 = max_pushes_outstanding_ p).
  { destruct (end_of_stream_ p2 && end_of_stream packet); cbn [whenS].
    - eapply runs_mono; [apply SetState_same|]. intros ? p3 (Hok & Hsame & Ed & Ea & Ee & Em & _). split_and!; auto; apply Hsame.
    - by apply runs_ret. }
  intros ? p3 (Hp3 & [Epo Ems] & Ed & Ea & Ee & Em).
  eapply runs_mono; [eapply ReleasePacket_runs; [done|done|by rewrite Ea]|]. cbn beta.
  intros ? p4 (Hp4 & [Epo4 Ems4] & Ed4 & Ee4 & Em4 & Hlive). split_and!; try done.
  - split; congruence.
  - rewrite Ed4, Ed. cbn. f_equal. unfold demand_of. cbn.
    rewrite (po_current _ _ _ _ Hp4), Em4, Em. pose proof (po_current _ _ _ _ Hp1) as E. cbn in E. by rewrite E.
  - congruence.
  - congruence.
Qed.

Lemma AllocatePayloadBuffer_runs b z n p m :
  producer_ok b z n p → 0 < m →
  runs (with_allocator (AllocatePayloadBuffer m)) p (λ ptr p', ptr = 0 ∧ p' = p ∨
    producer_ok b z n p' ∧ same_places p p' ∧ end_of_stream_ p' = end_of_stream_ p ∧
    max_pushes_outstanding_ p' = max_pushes_outstanding_ p ∧
    0 < ptr ∧ b ≤ ptr ∧ ptr + m ≤ b + z ∧
    Forall (FifoAllocator.disjoint (ptr, m)) (SharedBuffer.live_ptrs (mojo_allocator_ p)) ∧
    SharedBuffer.live_ptrs (mojo_allocator_ p') ≡ₚ (ptr, m) :: SharedBuffer.live_ptrs (mojo_allocator_ p)).
Proof.
  intros [H1 H2 H3 H4 H5 H6 H7 H8 H9] Hm. pose proof (SharedBuffer.ready_mapped _ H3).
  destruct (SharedBuffer.AllocateRegion_ptr_runs (mojo_allocator_ p) m) as (ptr & a & E & Hr & Eb & Ez & Hcase); [done..|].
  exists ptr, (set_allocator a p). split; [unfold with_allocator, AllocatePayloadBuffer; by rewrite E|].
  destruct Hcase as [(Hlo & Hhi & Hd & Hlive)|(-> & -> & _)].
  - right. split_and!; try done; try lia. split; cbn; congruence || done.
  - left. split; [done|]. by destruct p.
Qed.

Lemma signal_demand_runs d p : demand_callback_ p = true → signal_demand d p = Ok (tt, add_demand d p).
Proof. intros H. unfold signal_demand. erewrite prog_bind_run by done. rewrite H. by erewrite prog_bind_run by by apply dcheckS_true. Qed.

Lemma PrimeConnection_runs b z n p k :
  producer_ok b z n p →
  runs (PrimeConnection k) p (λ _ p', producer_ok b z n p' ∧ posted p' = posted p ∧ messages p' = messages p ++ [MsgPrime k] ∧
    head (demands p') = Some (demand_of p') ∧ mojo_allocator_ p' = mojo_allocator_ p ∧
    end_of_stream_ p' = end_of_stream_ p ∧ max_pushes_outstanding_ p' = 3).
Proof.
  intros Hp. pose proof Hp as [H1 H2 H3 H4 H5 H6 H7 H8 H9]. unfold PrimeConnection. apply runs_get. rewrite H1.
  set (p1 := set_max 3 p).
  eapply runs_step with (a := demand_of p1) (s' := p1); [done|].
  eapply runs_step; [by apply signal_demand_runs|]. set (p2 := add_demand _ p1).
  eapply runs_bind; [apply SetState_same|]. cbn beta.
  intros ? p3 (Hok & [Epo Ems] & Ed & Ea & Ee & Em & Ecur & Ec & _). apply runs_get. rewrite Ec. cbn [p2 p1 add_demand set_max consumer_].
  rewrite H1. unfold send. apply runs_get. rewrite Ec. cbn [p2 p1 add_demand set_max consumer_]. rewrite H1. apply runs_mod_last.
  assert (producer_ok b z n p3) as Hp3 by (apply Hok; by split).
  cbn in Epo, Ems, Ed, Ea, Ee, Em, Ecur. split_and!; cbn; try congruence.
  - destruct Hp3. split; try done. cbn. apply Forall_app_2; [done|]. by constructor.
  - rewrite Ed. cbn. f_equal. unfold demand_of. cbn. by rewrite Ecur, Em.
Qed.

Lemma FlushConnection_runs b z n p k :
  producer_ok b z n p →
  runs (FlushConnection k) p (λ _ p', producer_ok b z n p' ∧ posted p' = posted p ∧ messages p' = messages p ++ [MsgFlush k] ∧
    head (demands p') = Some (demand_of p') ∧ mojo_allocator_ p' = mojo_allocator_ p ∧
    end_of_stream_ p' = false ∧ max_pushes_outstanding_ p' = 0).
Proof.
  intros [H1 H2 H3 H4 H5 H6 H7 H8 H9]. unfold FlushConnection. apply runs_mod.
  eapply runs_step; [by apply signal_demand_runs|]. apply runs_get. cbn [add_demand set_max consumer_]. rewrite H1.
  eapply runs_step; [unfold send; erewrite prog_bind_run by done; cbn [add_demand set_max consumer_]; by rewrite H1|].
  apply runs_mod, runs_mod_last. split_and!; try done.
  - split; try done. cbn. apply Forall_app_2; [done|]. by constructor.
  - cbn. f_equal. unfold demand_of. cbn. by rewrite (proj2 (Z.ltb_ge _ _)) by lia.
Qed.

Lemma run_task_runs b z n p :
  producer_ok b z n p →
  runs run_task p (λ _ p', producer_ok b z n p' ∧ mojo_allocator_ p' = mojo_allocator_ p ∧ demand_of p' = demand_of p ∧
    end_of_stream_ p' = end_of_stream_ p ∧ max_pushes_outstanding_ p' = max_pushes_outstanding_ p ∧
    match posted p with
    | [] => p' = p
    | (packet, media) :: rest => posted p' = rest ∧ messages p' = messages p ++ [MsgSendPacket media packet]
    end).
Proof.
  intros Hp. pose proof Hp as [H1 H2 H3 H4 H5 H6 H7 H8 H9]. unfold run_task. apply runs_get.
  destruct (posted p) as [|[packet media] rest] eqn:E; [by apply runs_ret; split_and!|].
  apply runs_mod. unfold SendPacket, send. apply runs_get. cbn [set_posted consumer_]. rewrite H1. apply runs_mod_last.
  inversion_clear H8. split_and!; try done. split; try done. cbn. apply Forall_app_2; [done|]. by constructor.
Qed.

(** ** The consumer's operations *)

Lemma consumer_PtrFromOffset z c o :
  consumer_ok z c → 0 ≤ o < z →
  with_buffer (SharedBuffer.PtrFromOffset o) c = Ok (SharedBuffer.buffer_ptr_ (buffer_ c) + o, c).
Proof.
  intros [H1 H2 H3 H4] Ho. unfold with_buffer, SharedBuffer.PtrFromOffset. erewrite prog_bind_run by done.
  unfold SharedBuffer.initialized. erewrite prog_bind_run by (apply dcheckS_true; lia).
  assert (o ≠ FifoAllocator.kNullOffset) by (unfold FifoAllocator.kNullOffset, max_u64; lia).
  rewrite (proj2 (Z.eqb_neq o _)) by done. erewrite prog_bind_run by (apply dcheckS_true; lia).
  rewrite uwrap_small by (unfold is_u; lia). by destruct c.
Qed.

Lemma new_packet_ok t e n ptr a : (n = 0 ↔ ptr = 0) → new_packet t e n ptr a = Ok (mk_packet t e n ptr a).
Proof.
  intros H. unfold new_packet. rewrite dcheck_true; [done|]. apply Bool.eqb_true_iff, eq_true_iff_eq. by rewrite !Z.eqb_eq.
Qed.

(** A packet sent arrives. *)
Lemma ConsumerSendPacket_runs b z c packet :
  consumer_ok z c → in_buffer b z packet →
  runs (ConsumerSendPacket (media_of b packet) packet) c (λ _ c', consumer_ok z c' ∧ buffer_ c' = buffer_ c ∧
    released c' = released c ∧
    supplied c' = supplied c ++ [mk_impl (arrival b (SharedBuffer.buffer_ptr_ (buffer_ c)) packet) packet]).
Proof.
  intros Hc Hb. pose proof Hc as [H1 H2 H3 H4]. unfold ConsumerSendPacket. apply runs_get, runs_dcheck; [done|].
  eapply runs_step with (a := mk_impl (arrival b (SharedBuffer.buffer_ptr_ (buffer_ c)) packet) packet) (s' := c).
  - unfold CreatePacketImpl, arrival, media_of. cbn [media_payload length_ media_pts media_end_of_stream offset].
    destruct Hb as [[Hs Hpl]|(Hs & Hlo & Hhi & Hp & _)].
    + rewrite Hs, Hpl. cbn [Z.eqb]. erewrite prog_bind_run by done. by rewrite new_packet_ok.
    + rewrite (proj2 (Z.eqb_neq (size packet) 0)), (proj2 (Z.eqb_neq (payload packet) 0))
by lia.
      erewrite prog_bind_run by (apply (consumer_PtrFromOffset z); [done|lia]).
      by rewrite new_packet_ok, (Z.add_comm (payload packet - b)) by lia.
  - apply runs_mod_last. split_and!; try done.
Qed.

(** ** The system's actions *)

Definition set_producer p s := mk_system p (consumer s) (held s) (last_demand s) (primed s) (history s).
Definition replace_consumer c s := mk_system (producer s) c (held s) (last_demand s) (primed s) (history s).
Lemma runs_with_producer {A} (m : prog Producer A) s Q :
  runs m (producer s) (λ a p, Q a (set_producer p s)) → runs (with_producer m) s Q.
Proof. intros (a & p & E & HQ). eexists a, _. split; [unfold with_producer; by rewrite E|done]. Qed.
Lemma runs_with_consumer {A} (m : prog Consumer A) s Q :
  runs m (consumer s) (λ a c, Q a (replace_consumer c s)) → runs (with_consumer m) s Q.
Proof. intros (a & c & E & HQ). eexists a, _. split; [unfold with_consumer; by rewrite E|done]. Qed.
Lemma runs_producer_bind {A B} (m : prog Producer A) (k : A → prog system B) s Q R :
  runs m (producer s) Q → (∀ a p, Q a p → runs (k a) (set_producer p s) R) → runs (with_producer m ≫= k) s R.
Proof.
  intros (a & p & E & HQ) Hk. eapply runs_step; [unfold with_producer; by rewrite E|]. by apply Hk.
Qed.
Lemma runs_consumer_bind {A B} (m : prog Consumer A) (k : A → prog system B) s Q R :
  runs m (consumer s) Q → (∀ a c, Q a c → runs (k a) (replace_consumer c s) R) → runs (with_consumer m ≫= k) s R.
Proof.
  intros (a & c & E & HQ) Hk. eapply runs_step; [unfold with_consumer; by rewrite E|]. by apply Hk.
Qed.

Lemma positive_demand extra b z b' s :
  ok extra b z b' s → last_demand s = Graph.kPositive →
  primed s = true ∧ end_of_stream_ (producer s) = false ∧ max_pushes_outstanding_ (producer s) = 3 ∧ (length (outstanding s) < 3)%nat.
Proof.
  intros [Hp _ _ _ _ _ _ Hd Hm _ _] E. rewrite Hd in E. unfold demand_of in E.
  rewrite (po_current _ _ _ _ Hp), Hm in E. destruct (primed s), (end_of_stream_ (producer s)); cbn [andb negb] in *;
    destruct (Z.ltb_spec (Z.of_nat (length (outstanding s))) 0), (Z.ltb_spec (Z.of_nat (length (outstanding s))) 3); try done; try lia.
Qed.

Lemma supply_ok b z b' s packet :
  ok [packet] b z b' s → in_buffer b z packet → last_demand s = Graph.kPositive →
  runs (supply packet) s (λ _ s', ok [] b z b' s').
Proof.
  intros Hok Hb Hd. destruct (positive_demand _ _ _ _ _ Hok Hd) as (Ep & Ee & Em & Hlt).
  destruct Hok as [H1 H2 H3 H4 H5 H6 H7 H8 H9 H10 H11]. unfold supply.
  eapply runs_producer_bind; [eapply SupplyPacket_runs; [done..|lia|done]|]. cbn beta.
  intros d p' (-> & Hp & Epo & Ems & Ea & Ee' & Em'). apply runs_mod_last.
  assert (outstanding (set_producer p' s) ≡ₚ packet :: outstanding s) as Ho.
  { unfold outstanding. cbn. rewrite Epo, Ems, map_app. cbn. rewrite <-app_assoc. symmetry. apply Permutation_middle. }
  split; cbn; try done.
  - change (outstanding _) with (outstanding (set_producer p' s)). by rewrite Ho.
  - change (outstanding _) with (outstanding (set_producer p' s)). rewrite Ho. by constructor.
  - change (outstanding _) with (outstanding (set_producer p' s)). by rewrite Ho, Ea, H5.
  - rewrite Epo, Ems, !map_app, <-H7. cbn. by rewrite !map_app, <-!app_assoc.
  - rewrite Em', Ee', Ep, Em. by destruct (end_of_stream packet).
  - by rewrite Ep.
  - change (outstanding _) with (outstanding (set_producer p' s)). by rewrite Ho.
Qed.

Lemma Supply_ok b z b' s n t : ok [] b z b' s → 0 < n → last_demand s = Graph.kPositive →
  runs (act (Supply n t)) s (λ _ s', ok [] b z b' s').
Proof.
  intros Hok Hn Hd. pose proof Hok as [H1 H2 H3 H4 H5 H6 H7 H8 H9 H10 H11]. cbn [act].
  eapply runs_producer_bind; [by eapply AllocatePayloadBuffer_runs|]. cbn beta.
  intros ptr p [[-> ->]|(Hp & [Epo Ems] & Ee & Em & Hpos & Hlo & Hhi & Hdis & Hlive)].
  - apply runs_ret. by destruct s.
  - rewrite (proj2 (Z.eqb_neq ptr 0)) by lia.
    eapply runs_step; [unfold liftO, CreatePacket; rewrite orb_true_r, dcheck_true by done; cbn; rewrite new_packet_ok by lia; done|].
    assert (outstanding (set_producer p s) = outstanding s) as Ho by (unfold outstanding; cbn; by rewrite Epo, Ems).
    apply (supply_ok b z b'); [|right; cbn; by split_and!|done].
    split; rewrite ?Ho; cbn; try done.
    + rewrite Hlive, H5. unfold region. cbn [payload size]. by rewrite (proj2 (Z.eqb_neq ptr 0)) by lia.
    + by rewrite Epo, Ems.
    + rewrite H8. unfold demand_of. by rewrite (po_current _ _ _ _ Hp), (po_current _ _ _ _ H1), Em.
    + by rewrite Em, Ee.
    + by rewrite Ee.
    + unfold region. cbn [payload size]. rewrite (proj2 (Z.eqb_neq ptr 0)) by lia. cbn. constructor; [by rewrite <-H5|done].
Qed.

Lemma SupplyEnd_ok b z b' s t : ok [] b z b' s → last_demand s = Graph.kPositive →
  runs (act (SupplyEnd t)) s (λ _ s', ok [] b z b' s').
Proof.
  intros Hok Hd. cbn [act]. eapply runs_step; [unfold liftO, CreateEndOfStream; by rewrite new_packet_ok|].
  apply supply_ok; [|by left|done]. destruct Hok as [H1 H2 H3 H4 H5 H6 H7 H8 H9 H10 H11]. by split.
Qed.

Lemma RunTask_ok b z b' s : ok [] b z b' s → runs (act RunTask) s (λ _ s', ok [] b z b' s').
Proof.
  intros Hok. pose proof Hok as [H1 H2 H3 H4 H5 H6 H7 H8 H9 H10 H11]. cbn [act]. apply runs_with_producer.
  eapply runs_mono; [by eapply run_task_runs|]. cbn beta. intros ? p (Hp & Ea & Ed & Ee & Em & Hcase).
  destruct (posted (producer s)) as [|[packet media] rest] eqn:E; [subst p; by destruct s|].
  destruct Hcase as [Epo Ems].
  assert (outstanding (set_producer p s) ≡ₚ outstanding s) as Ho.
  { unfold outstanding. cbn. rewrite Epo, Ems, E, sent_app. cbn.
    rewrite <-app_assoc, !(app_assoc (map fst rest)). symmetry. apply (Permutation_middle (map fst rest ++ _)). }
  split; cbn; try done.
  - by rewrite Ho.
  - by rewrite Ho.
  - by rewrite Ho, Ea, H5.
  - rewrite Ems, Epo, sent_app. cbn. by rewrite <-app_assoc.
  - by rewrite Ed.
  - by rewrite Em, Ee.
  - by rewrite Ee.
  - by rewrite Ho.
Qed.

Lemma Release_ok b z b' s k : ok [] b z b' s → runs (act (Release k)) s (λ _ s', ok [] b z b' s').
Proof.
  intros [H1 H2 H3 H4 H5 H6 H7 H8 H9 H10 H11]. cbn [act]. apply runs_get.
  destruct (held s !! k) as [impl|] eqn:E; [|by apply runs_ret].
  apply runs_mod, runs_with_consumer, runs_mod_last. unfold replace_consumer. cbn. set (s' := mk_system _ _ _ _ _ _).
  assert (outstanding s' ≡ₚ outstanding s) as Ho.
  { unfold outstanding. cbn. apply Permutation_app_head, Permutation_app_head.
    pose proof (Permutation_map callback_ (delete_Permutation _ _ _ E)) as Hm. rewrite Hm. cbn.
    rewrite app_assoc. apply Permutation_app_comm. }
  split; try done.
  - by rewrite Ho.
  - destruct H2. by split.
  - by rewrite Ho.
  - by rewrite Ho.
  - cbn. by apply Forall_delete.
  - by rewrite Ho.
Qed.

Lemma Reply_ok b z b' s : ok [] b z b' s → runs (act Reply) s (λ _ s', ok [] b z b' s').
Proof.
  intros [H1 H2 H3 H4 H5 H6 H7 H8 H9 H10 H11]. cbn [act]. apply runs_get.
  destruct (released (consumer s)) as [|raw rest] eqn:E; [by apply runs_ret|].
  eapply runs_consumer_bind with (Q := λ _ c, c = set_released rest (consumer s)); [by apply runs_mod_last|]. intros ? c ->.
  set (s' := replace_consumer _ s).
  assert (outstanding s ≡ₚ raw :: outstanding s') as Ho.
  { unfold outstanding. cbn. rewrite E, !app_assoc. symmetry. apply Permutation_middle. }
  rewrite Ho in H1, H4, H5. cbn [length] in H1. inversion_clear H4.
  eapply runs_producer_bind; [eapply (PacketConsumed_runs b z (length (outstanding s')) _ raw); [done..|exact H5]|].
  cbn beta. intros ? p (Hp & [Epo Ems] & Ed & Ee & Em & Hlive). apply runs_mod_last.
  assert (outstanding (set_producer p s') = outstanding s') as Ho' by (unfold outstanding; cbn; by rewrite Epo, Ems).
  split; try (change (outstanding _) with (outstanding (set_producer p s')); rewrite Ho'); cbn; try done.
  - destruct H2. by split.
  - by rewrite Epo, Ems.
  - by rewrite Ed.
  - by rewrite Em, Ee.
  - by rewrite Ee.
  - cbn in H11. rewrite Ho in H11. cbn in H11. unfold region at 1 in H11. destruct (_ =? _); [done|by inversion_clear H11].
Qed.

(** A message without a packet is taken. *)
Lemma taken_ok b z b' s m rest c :
  ok [] b z b' s → messages (producer s) = m :: rest → sent_of m = [] →
  consumer_ok z c → buffer_ c = buffer_ (consumer s) → supplied c = supplied (consumer s) → released c = released (consumer s) →
  ok [] b z b' (replace_consumer c (set_producer (set_messages rest (producer s)) s)).
Proof.
  intros [H1 H2 H3 H4 H5 H6 H7 H8 H9 H10 H11] E Em Hc Eb Es Er. set (s' := replace_consumer _ _).
  assert (sent (messages (producer s)) = sent rest) as Esent by (rewrite E; unfold sent; cbn; by rewrite Em).
  assert (outstanding s' = outstanding s) as Ho by (unfold outstanding; cbn; by rewrite Esent, Er).
  split; rewrite ?Ho; try done.
  - destruct H1 as [P1 P2 P3 P4 P5 P6 P7 P8 P9]. split; try done. rewrite E in P9. by inversion_clear P9.
  - cbn. congruence.
  - cbn. by rewrite Es, <-H7, Esent.
Qed.

Lemma Deliver_ok b z b' s : ok [] b z b' s → runs (act Deliver) s (λ _ s', ok [] b z b' s').
Proof.
  intros Hok. pose proof Hok as [H1 H2 H3 H4 H5 H6 H7 H8 H9 H10 H11]. pose proof H2 as [C1 C2 C3 C4].
  pose proof (po_messages _ _ _ _ H1) as Hcar. cbn [act]. apply runs_get.
  destruct (messages (producer s)) as [|m rest] eqn:E; [by apply runs_ret|]. inversion_clear Hcar.
  eapply runs_producer_bind with (Q := λ _ p, p = set_messages rest (producer s)); [by apply runs_mod_last|]. intros ? p ->.
  destruct m as [? k|k|k|media raw]; [done| | |].
  - apply runs_with_consumer. cbn. unfold Prime. apply runs_get.
    destruct (prime_requested_callback_ (consumer s)); apply runs_mod_last; eapply taken_ok; by try done.
  - apply runs_with_consumer. cbn. unfold Flush, MediaConsumerFlush. apply runs_get.
    destruct (flush_requested_callback_ (consumer s)); apply runs_mod_last; eapply taken_ok; by try done.
  - cbn in H. subst media. cbn in H7.
    assert (in_buffer b z raw) as Hraw.
    { rewrite Forall_forall in H4. apply H4. unfold outstanding. rewrite E. apply elem_of_app. right. by left. }
    eapply runs_consumer_bind; [by eapply (ConsumerSendPacket_runs b z)|]. cbn beta.
    intros ? c (Hc & Eb & Er & Es). apply runs_mod_last. cbn in Eb, Er, Es. unfold replace_consumer. cbn [consumer]. rewrite Es, last_snoc. cbn [option_list].
    set (s' := mk_system _ _ _ _ _ _).
    assert (outstanding s' ≡ₚ outstanding s) as Ho.
    { unfold outstanding. cbn. rewrite E, Er, map_app. cbn. apply Permutation_app_head.
      rewrite <-app_assoc, !(app_assoc (sent rest)). symmetry. apply Permutation_middle. }
    split; try done; try (by rewrite Ho).
    + rewrite Ho. destruct H1 as [P1 P2 P3 P4 P5 P6 P7 P8 P9]. by split.
    + cbn. congruence.
    + cbn. apply Forall_app_2; [done|]. constructor; [|done]. cbn. by rewrite H3.
    + cbn. rewrite Es, map_app, <-app_assoc. cbn. by rewrite H3.
Qed.

Lemma connection_ok b z b' s p m flag :
  ok [] b z b' s → producer_ok b z (length (outstanding s)) p → posted p = posted (producer s) →
  messages p = messages (producer s) ++ [m] → sent_of m = [] → head (demands p) = Some (demand_of p) →
  mojo_allocator_ p = mojo_allocator_ (producer s) → end_of_stream_ p = false →
  max_pushes_outstanding_ p = (if flag : bool then 3 else 0) →
  runs (_ ← set_primed flag; signalled) (set_producer p s) (λ _ s', ok [] b z b' s').
Proof.
  intros [H1 H2 H3 H4 H5 H6 H7 H8 H9 H10 H11] Hp Epo Ems Em Ed Ea Ee Emax.
  unfold set_primed, signalled. apply runs_mod, runs_mod_last. cbn. set (s' := mk_system _ _ _ _ _ _).
  assert (sent (messages p) = sent (messages (producer s))) as Es by (rewrite Ems, sent_app; unfold sent; cbn; by rewrite Em, !app_nil_r).
  assert (outstanding s' = outstanding s) as Ho by (unfold outstanding; cbn; by rewrite Epo, Es).
  split; rewrite ?Ho; cbn; try done.
  - by rewrite Ea.
  - by rewrite Es, Epo.
  - by rewrite Ed.
  - by rewrite Emax, Ee, andb_true_r.
Qed.

Lemma DoPrime_ok b z b' s k : ok [] b z b' s → primed s = false → runs (act (DoPrime k)) s (λ _ s', ok [] b z b' s').
Proof.
  intros Hok Hpr. cbn [act]. eapply runs_producer_bind; [eapply PrimeConnection_runs, Hok|]. cbn beta.
  intros ? p (Hp & Epo & Ems & Ed & Ea & Ee & Emax). eapply connection_ok; try done. by rewrite Ee, (ok_unprimed _ _ _ _ _ Hok).
Qed.
Lemma DoFlush_ok b z b' s k : ok [] b z b' s → runs (act (DoFlush k)) s (λ _ s', ok [] b z b' s').
Proof.
  intros Hok. cbn [act]. eapply runs_producer_bind; [eapply FlushConnection_runs, Hok|]. cbn beta.
  intros ? p (Hp & Epo & Ems & Ed & Ea & Ee & Emax). by eapply connection_ok.
Qed.

Lemma act_ok b z b' s a : ok [] b z b' s → allowed a s → runs (act a) s (λ _ s', ok [] b z b' s').
Proof.
  intros Hok Ha. destruct a; cbn in Ha; destruct_and?; auto using Supply_ok, SupplyEnd_ok, RunTask_ok, Deliver_ok,
    Release_ok, Reply_ok, DoPrime_ok, DoFlush_ok.
Qed.

(** ** Draining *)

(** How far what is outstanding is from its release. *)
Definition weight s : nat :=
  4 * length (posted (producer s)) + 3 * length (messages (producer s)) + 2 * length (held s) + length (released (consumer s)).
(** Some step that is not the graphs' choice of what to supply. *)
Definition internal (a : action) : Prop := a = RunTask ∨ a = Deliver ∨ a = Release 0 ∨ a = Reply.
Definition nearer s s' : Prop := (weight s' < weight s)%nat ∧ history s' = history s ∧ primed s' = primed s.

Lemma RunTask_nearer b z b' s : ok [] b z b' s → posted (producer s) ≠ [] → runs (act RunTask) s (λ _ s', nearer s s').
Proof.
  intros Hok Hne. cbn [act]. apply runs_with_producer.
  eapply runs_mono; [eapply run_task_runs, Hok|]. cbn beta. intros ? p (_ & _ & _ & _ & _ & Hcase).
  unfold nearer, weight. destruct (posted (producer s)) as [|[packet media] rest]; [done|]. destruct Hcase as [Epo Ems].
  cbn. rewrite Epo, Ems, length_app. cbn. split_and!; try done. lia.
Qed.
Lemma Deliver_nearer b z b' s : ok [] b z b' s → messages (producer s) ≠ [] → runs (act Deliver) s (λ _ s', nearer s s').
Proof.
  intros [H1 H2 _ H4 _ _ _ _ _ _ _] Hne. pose proof (po_messages _ _ _ _ H1) as Hcar. cbn [act]. apply runs_get.
  destruct (messages (producer s)) as [|m rest] eqn:E; [done|]. inversion_clear Hcar.
  eapply runs_producer_bind with (Q := λ _ p, p = set_messages rest (producer s)); [by apply runs_mod_last|]. intros ? p ->.
  unfold nearer, weight. destruct m as [? k|k|k|media raw]; [done| | |].
  - apply runs_with_consumer. cbn. unfold Prime. apply runs_get.
    destruct (prime_requested_callback_ (consumer s)); apply runs_mod_last; cbn; rewrite E; cbn; split_and!; try done; lia.
  - apply runs_with_consumer. cbn. unfold Flush, MediaConsumerFlush. apply runs_get.
    destruct (flush_requested_callback_ (consumer s)); apply runs_mod_last; cbn; rewrite E; cbn; split_and!; try done; lia.
  - cbn in H. subst media.
    assert (in_buffer b z raw) as Hraw.
    { rewrite Forall_forall in H4. apply H4. unfold outstanding. rewrite E. apply elem_of_app. right. by left. }
    eapply runs_consumer_bind; [by eapply (ConsumerSendPacket_runs b z)|]. cbn beta.
    intros ? c (Hc & Eb & Er & Es). apply runs_mod_last. cbn in Er, Es. cbn. rewrite E, Er, Es, last_snoc, length_app. cbn.
    split_and!; try done. lia.
Qed.
Lemma Release_nearer s : held s ≠ [] → runs (act (Release 0)) s (λ _ s', nearer s s').
Proof.
  intros Hne. cbn [act]. apply runs_get. destruct (held s) as [|impl rest] eqn:E; [done|]. cbn [lookup list_lookup].
  apply runs_mod, runs_with_consumer, runs_mod_last. unfold nearer, weight. cbn. rewrite E, length_app. cbn.
  split_and!; try done. lia.
Qed.
Lemma Reply_nearer b z b' s : ok [] b z b' s → released (consumer s) ≠ [] → runs (act Reply) s (λ _ s', nearer s s').
Proof.
  intros [H1 H2 H3 H4 H5 H6 H7 H8 H9 H10 H11] Hne. cbn [act]. apply runs_get.
  destruct (released (consumer s)) as [|raw rest] eqn:E; [done|].
  eapply runs_consumer_bind with (Q := λ _ c, c = set_released rest (consumer s)); [by apply runs_mod_last|]. intros ? c ->.
  set (s' := replace_consumer _ s).
  assert (outstanding s ≡ₚ raw :: outstanding s') as Ho.
  { unfold outstanding. cbn. rewrite E, !app_assoc. symmetry. apply Permutation_middle. }
  rewrite Ho in H1, H4, H5. inversion_clear H4.
  eapply runs_producer_bind; [eapply (PacketConsumed_runs b z (length (outstanding s')) _ raw); [done..|exact H5]|].
  cbn beta. intros ? p (_ & [Epo Ems] & _). apply runs_mod_last. unfold nearer, weight. cbn. rewrite Epo, Ems, E. cbn.
  split_and!; try done. lia.
Qed.

Lemma runs_both {A} (m : prog system A) s (Q R : A → system → Prop) : runs m s Q → runs m s R → runs m s (λ a s', Q a s' ∧ R a s').
Proof. intros (a & s' & E & HQ) (a' & s'' & E' & HR). rewrite E in E'. injection E' as <- <-. by exists a, s'. Qed.

(** Steps of the system, and those of them that drain it. *)
Definition step s s' : Prop := ∃ a, allowed a s ∧ act a s = Ok (tt, s').
Definition drain s s' : Prop := ∃ a, internal a ∧ act a s = Ok (tt, s').

Lemma progress b z b' s : ok [] b z b' s → (0 < weight s)%nat → ∃ s', drain s s' ∧ ok [] b z b' s' ∧ nearer s s'.
Proof.
  intros Hok Hw.
  assert (∀ a, internal a → allowed a s → runs (act a) s (λ _ s', nearer s s') → ∃ s', drain s s' ∧ ok [] b z b' s' ∧ nearer s s') as Hgo.
  { intros a Hi Ha Hn. destruct (runs_both _ _ _ _ (act_ok _ _ _ _ _ Hok Ha) Hn) as ([] & s' & E & H1 & H2).
    exists s'. split; [by exists a|done]. }
  destruct (posted (producer s)) eqn:E1.
  2: { apply (Hgo RunTask); [by left|done|]. eapply RunTask_nearer; [done|by rewrite E1]. }
  destruct (messages (producer s)) eqn:E2.
  2: { apply (Hgo Deliver); [by right; left|done|]. eapply Deliver_nearer; [done|by rewrite E2]. }
  destruct (held s) eqn:E3.
  2: { apply (Hgo (Release 0)); [by right; right; left|done|]. apply Release_nearer. by rewrite E3. }
  destruct (released (consumer s)) eqn:E4.
  2: { apply (Hgo Reply); [by right; right; right|done|]. eapply Reply_nearer; [done|by rewrite E4]. }
  unfold weight in Hw. rewrite E1, E2, E3, E4 in Hw. cbn in Hw. lia.
Qed.

Lemma drains b z b' s : ok [] b z b' s →
  ∃ s', rtc drain s s' ∧ ok [] b z b' s' ∧ weight s' = 0%nat ∧ history s' = history s ∧ primed s' = primed s.
Proof.
  remember (weight s) as n eqn:En. revert s En. induction n as [n IH] using (well_founded_induction lt_wf). intros s -> Hok.
  destruct (decide (weight s = 0)%nat) as [E|E]; [by exists s; split_and!|].
  destruct (progress _ _ _ _ Hok) as (s1 & Hd & Hok1 & Hw & Eh & Ep); [lia|].
  destruct (IH (weight s1) Hw s1 eq_refl Hok1) as (s' & Hr & Hok' & E' & Eh' & Ep'). exists s'.
  split_and!; [by eapply rtc_l|done|done|congruence..].
Qed.

Lemma weight_zero s : weight s = 0%nat → outstanding s = [] ∧ messages (producer s) = [] ∧ posted (producer s) = [].
Proof.
  unfold weight, outstanding. destruct (posted (producer s)), (messages (producer s)), (held s), (released (consumer s)); cbn; try lia.
  intros _. by split_and!.
Qed.

(** ** Where it starts

    The producer is connected, with an allocator that has [z] bytes and no allocation; the
    consumer has mapped the buffer and supplies a graph. *)
Record start (z : Z) s : Prop := {
  start_connected : consumer_ (producer s) = true;
  start_callback : demand_callback_ (producer s) = true;
  start_ready : SharedBuffer.ready (mojo_allocator_ (producer s));
  start_size : SharedBuffer.size_ (mojo_allocator_ (producer s)) = z;
  start_live : SharedBuffer.live_ptrs (mojo_allocator_ (producer s)) = [];
  start_current : current_pushes_outstanding_ (producer s) = 0;
  start_max : max_pushes_outstanding_ (producer s) = 0;
  start_stream : end_of_stream_ (producer s) = false;
  start_posted : posted (producer s) = [];
  start_messages : messages (producer s) = [];
  start_consumer : consumer_ok z (consumer s);
  start_supplied : supplied (consumer s) = [];
  start_released : released (consumer s) = [];
  start_held : held s = [];
  start_demand : last_demand s = Graph.kNegative;
  start_primed : primed s = false;
  start_history : history s = [];
}.
Definition mapping s : Z := SharedBuffer.buffer_ptr_ (buffer_ (consumer s)).

Lemma start_ok z s : start z s → ok [] (base s) z (mapping s) s.
Proof.
  intros [A1 A2 A3 A4 A5 A6 A7 A8 A9 A10 A11 A12 A13 A14 A15 A16 A17].
  assert (outstanding s = []) as Ho by (unfold outstanding; by rewrite A9, A10, A13, A14).
  split; rewrite ?Ho; try done.
  - split; try done; rewrite ?A9, ?A10; try done. cbn. lia.
  - by rewrite A5.
  - by rewrite A14.
  - by rewrite A12, A10, A9, A17.
  - unfold demand_of. by rewrite A15, A6, A7.
  - by rewrite A16, A7.
  - constructor.
Qed.
Lemma step_ok b z b' s s' : ok [] b z b' s → step s s' → ok [] b z b' s'.
Proof.
  intros Hok (a & Ha & E). destruct (act_ok _ _ _ _ _ Hok Ha) as ([] & s1 & E1 & H1). congruence.
Qed.
Lemma reachable_ok z s0 s : start z s0 → rtc step s0 s → ok [] (base s0) z (mapping s0) s.
Proof.
  intros H0 Hr. pose proof (start_ok z s0 H0) as Hok. revert Hok. generalize (base s0), (mapping s0). clear H0.
  induction Hr; eauto using step_ok.
Qed.

(** C7. However supplies, tasks, messages, releases, replies, primes and flushes are
    interleaved, no step of the two objects fails; every packet supplied arrives at most
    once, in order and intact, its payload at the same place of the consumer's mapping; the
    producer counts exactly the packets on their way, at most three, whose payloads are
    disjoint and are all that its allocator has given out; and the demand it last signalled
    is positive exactly when it may be supplied. *)
Theorem transport_delivers z s0 s :
  start z s0 → rtc step s0 s →
  (∀ a, allowed a s → ∃ s', act a s = Ok (tt, s')) ∧
  map impl_packet (supplied (consumer s)) ++
    map (arrival (base s0) (mapping s0)) (sent (messages (producer s)) ++ map fst (posted (producer s))) =
    map (arrival (base s0) (mapping s0)) (history s) ∧
  current_pushes_outstanding_ (producer s) = Z.of_nat (length (outstanding s)) ∧ (length (outstanding s) ≤ 3)%nat ∧
  SharedBuffer.live_ptrs (mojo_allocator_ (producer s)) ≡ₚ regions (outstanding s) ∧
  ForallOrdPairs FifoAllocator.disjoint (regions (outstanding s)) ∧
  (last_demand s = Graph.kPositive ↔
    primed s = true ∧ end_of_stream_ (producer s) = false ∧ (length (outstanding s) < 3)%nat).
Proof.
  intros H0 Hr. pose proof (reachable_ok _ _ _ H0 Hr) as Hok. pose proof Hok as [H1 H2 H3 H4 H5 H6 H7 H8 H9 H10 H11].
  split_and!; try done; [|by apply H1..|].
  - intros a Ha. destruct (act_ok _ _ _ _ _ Hok Ha) as ([] & s' & E & _). by exists s'.
  - split; [intros Hd; by destruct (positive_demand _ _ _ _ _ Hok Hd) as (? & ? & _ & ?)|].
    intros (Ep & Ee & Hlt). rewrite H8. unfold demand_of. rewrite (po_current _ _ _ _ H1), H9, Ep, Ee. cbn.
    by rewrite (proj2 (Z.ltb_lt _ _)) by lia.
Qed.

(** C8. From any state, posting, delivering, releasing and replying alone bring the system
    to one where everything supplied has arrived, the allocator has every byte back, and
    a primed stream that has not ended is asked for more: the count of outstanding pushes
    never wedges the stream. *)
Theorem transport_drains z s0 s :
  start z s0 → rtc step s0 s →
  ∃ s', rtc drain s s' ∧ history s' = history s ∧ outstanding s' = [] ∧
    map impl_packet (supplied (consumer s')) = map (arrival (base s0) (mapping s0)) (history s) ∧
    SharedBuffer.live_ptrs (mojo_allocator_ (producer s')) = [] ∧
    (primed s = true → end_of_stream_ (producer s') = false → last_demand s' = Graph.kPositive).
Proof.
  intros H0 Hr. pose proof (reachable_ok _ _ _ H0 Hr) as Hok.
  destruct (drains _ _ _ _ Hok) as (s' & Hd & [H1 H2 H3 H4 H5 H6 H7 H8 H9 H10 H11] & Ew & Eh & Ep).
  destruct (weight_zero _ Ew) as (Eo & Em & Epo). exists s'. split_and!; try done.
  - rewrite <-Eh, <-H7, Em, Epo. by rewrite app_nil_r.
  - rewrite Eo in H5. by apply Permutation_nil_r in H5.
  - intros Epr Ee. rewrite H8. unfold demand_of. rewrite (po_current _ _ _ _ H1), H9, Ep, Epr, Ee, Eo. done.
Qed.

(** How it comes about: a producer with nothing in its allocator connects to a consumer that
    supplies a graph, and the consumer is told of the buffer. *)
Definition connection (p : Producer) (c : Consumer) (k : nat) : outcome system :=
  '(_, p') ← Connect k p;
  '(_, s) ← act Deliver (mk_system p' c [] Graph.kNegative false []);
  Ok s.
Lemma connection_starts `{ML : !SharedBuffer.MojoSystemLaws} (a : @SharedBuffer.state St MS) (buffer : @SharedBuffer.state unit MS) k :
  ra_inv (SharedBuffer.fifo_allocator_ a) → SharedBuffer.buffer_ptr_ a = 0 →
  ∃ z s, connection (set_demand_callback true (new_producer a))
    (mk_consumer buffer false false true [] [] [] [] []) k = Ok s ∧ buffer_size ≤ z ∧ start z s.
Proof.
  intros Ha Hb. set (p0 := set_consumer true (set_demand_callback true (new_producer a))).
  destruct (SharedBuffer.InitNew_runs a buffer_size Ha) as ([] & a' & Ea & Hr & Hl & Hz & Eb & Ei); [done|].
  pose proof (SharedBuffer.ready_mapped _ Hr) as Hm.
  destruct (SharedBuffer.duplicate_buffer_ok (SharedBuffer.new_shared_buffer buffer_size)) as [Ev Ei'].
  set (h := SharedBuffer.duplicate_buffer (SharedBuffer.new_shared_buffer buffer_size)) in *.
  assert (Connect k (set_demand_callback true (new_producer a)) =
    Ok (tt, add_message (MsgSetBuffer (Some h) k) (set_allocator a' p0))) as Ec.
  { unfold Connect. erewrite prog_bind_run by done. unfold init_allocator, SharedBuffer.initialized.
    rewrite (prog_bind_run _ _ _ tt (set_allocator a' p0));
      [|erewrite prog_bind_run by done; cbn; rewrite Hb; cbn; unfold with_allocator; cbn; by rewrite Ea].
    rewrite (prog_bind_run _ _ _ (Some h) (set_allocator a' p0)); [done|].
    unfold with_allocator, SharedBuffer.GetDuplicateHandle. cbn [mojo_allocator_ set_allocator].
    erewrite prog_bind_run by done. unfold SharedBuffer.initialized. erewrite prog_bind_run by (apply dcheckS_true; lia).
    by rewrite Eb. }
  destruct (SharedBuffer.InitInternal_runs (St := unit) (λ _, True) (SharedBuffer.mk_state (SharedBuffer.size_ buffer) None (Some h)
    (SharedBuffer.buffer_ptr_ buffer) (SharedBuffer.fifo_allocator_ buffer)) h (SharedBuffer.size_ a'))
    as ([] & b' & Es & Esz & Hp & Hf & _); [by rewrite Ev, SharedBuffer.new_shared_buffer_ok|congruence|unfold buffer_size in Hz; lia|by eexists _, _|].
  assert (SharedBuffer.InitFromHandle h buffer = Ok (tt, b')) as Eh.
  { unfold SharedBuffer.InitFromHandle. erewrite prog_bind_run by (apply dcheckS_true; by rewrite Ev, SharedBuffer.new_shared_buffer_ok).
    by erewrite prog_bind_run by done. }
  set (c := mk_consumer buffer _ _ _ _ _ _ _ _).
  assert (SetBuffer h k c = Ok (tt, add_reply k (set_buffer b' c))) as Eset.
  { unfold SetBuffer. rewrite (prog_bind_run _ _ _ tt (set_buffer b' c)); [done|]. unfold with_buffer. cbn. by rewrite Eh. }
  set (p1 := add_message _ _) in Ec. set (s2 := replace_consumer (add_reply k (set_buffer b' c))
    (mk_system (set_messages [] p1) c [] Graph.kNegative false [])).
  assert (act Deliver (mk_system p1 c [] Graph.kNegative false []) = Ok (tt, s2)) as Ed.
  { cbn [act]. erewrite prog_bind_run by done. cbn [messages producer p1 add_message app set_allocator p0 set_consumer
      set_demand_callback new_producer]. erewrite prog_bind_run by done. unfold with_consumer. cbn [consumer]. by rewrite Eset. }
  exists (SharedBuffer.size_ a'), s2. split_and!.
  - unfold connection. rewrite Ec. cbn [mbind outcome_bind]. by rewrite Ed.
  - lia.
  - by split.
Qed.

(** ** Outside the protocol *)

(** A task posted before [Disconnect] uses the consumer after it is gone. *)
Lemma posted_task_after_Disconnect p packet media rest :
  demand_callback_ p = true → posted p = (packet, media) :: rest →
  runs Disconnect p (λ _ p', run_task p' = Fault UndefinedBehaviour).
Proof.
  intros Hc Hp. unfold Disconnect. eapply runs_step; [by apply signal_demand_runs|].
  eapply runs_bind; [apply SetState_same|]. cbn beta. intros ? p1 (_ & [Epo _] & _). apply runs_mod_last.
  unfold run_task. erewrite prog_bind_run by done. cbn in *. by rewrite Epo, Hp.
Qed.

(** A sequence of allowed actions. *)
#[local] Existing Instance Graph.Demand_eq_dec.
#[export] Instance allowed_dec a s : Decision (allowed a s).
Proof. destruct a; cbn; apply _. Defined.
Fixpoint steps (l : list action) s : option system :=
  match l with
  | [] => Some s
  | a :: l' => if decide (allowed a s) then match act a s with Ok (_, s') => steps l' s' | Fault _ => None end else None
  end.
Lemma steps_rtc l s s' : steps l s = Some s' → rtc step s s'.
Proof.
  revert s. induction l as [|a l IH]; cbn; intros s E; [by simplify_eq|].
  destruct (decide (allowed a s)) as [Ha|]; [|done]. destruct (act a s) as [[[] s1]|] eqn:E1; [|done].
  eapply rtc_l; [by exists a|]. by apply IH.
Qed.

Lemma steps_default l s : match steps l s with Some _ => true | None => false end = true → rtc step s (default s (steps l s)).
Proof. destruct (steps l s) eqn:E; [intros _; by apply (steps_rtc l)|done]. Qed.

End Spec.

(** ** A stream over 100 bytes of shared memory *)

Section Example.
#[local] Existing Instance debug_build.
#[local] Existing Instance SharedBuffer.sample_system.

Definition sample_producer : @MojoProducer FifoAllocator.state SharedBuffer.sample_system :=
  set_demand_callback true (set_consumer true (new_producer SharedBuffer.sample)).
Definition sample_consumer : @MojoConsumer SharedBuffer.sample_system Packet :=
  mk_consumer (SharedBuffer.mk_state 100 (Some 100) None 8192 ()) false false true [] [] [] [] [].
Definition sample_stream := mk_system sample_producer sample_consumer [] Graph.kNegative false [].

Lemma sample_start : start 100 sample_stream.
Proof. split; try done. apply SharedBuffer.sample_ready. Qed.

(** Three packets are supplied, the first of them is consumed, and the stream is ended. *)
Definition sample_actions : list action :=
  [DoPrime 1; Supply 30 5; Supply 40 6; Deliver; RunTask; Deliver; Supply 20 7; RunTask; Release 0; Deliver; Reply; SupplyEnd 8].
Definition sample_reached := default sample_stream (steps sample_actions sample_stream).

Example sample_arrives :
  map impl_packet (supplied (consumer sample_reached)) =
    [mk_packet 5 false 30 8192 false; mk_packet 6 false 40 8222 false] ∧
  map fst (posted (producer sample_reached)) = [mk_packet 7 false 20 4166 true; mk_packet 8 true 0 0 false].
Proof. vm_compute. done. Qed.
Lemma sample_run : rtc step sample_stream sample_reached.
Proof. apply (steps_default sample_actions). by vm_compute. Qed.

Lemma transport_delivers_witness :
  current_pushes_outstanding_ (producer sample_reached) = 3 ∧ last_demand sample_reached = Graph.kNegative.
Proof.
  destruct (transport_delivers 100 _ _ sample_start sample_run) as (_ & _ & E & _).
  split; [rewrite E|]; by vm_compute.
Defined.
Lemma transport_drains_witness :
  ∃ s', rtc drain sample_reached s' ∧ outstanding s' = [] ∧ length (supplied (consumer s')) = 4%nat.
Proof.
  destruct (transport_drains 100 _ _ sample_start sample_run) as (s' & Hd & _ & Ho & E & _).
  exists s'. split_and!; [done..|]. apply (f_equal length) in E. rewrite !length_map in E. rewrite E. by vm_compute.
Defined.

(** A producer primed before it is connected may be supplied, and once it is connected it
    may not be: its demand, neutral, was never taken back. *)
Definition unbound_producer : @MojoProducer FifoAllocator.state SharedBuffer.sample_system :=
  set_demand_callback true (new_producer SharedBuffer.sample).
Definition connected_primed : prog (@MojoProducer FifoAllocator.state SharedBuffer.sample_system) Graph.Demand :=
  _ ← PrimeConnection 1; _ ← Connect 2; SupplyPacket (mk_packet 0 false 10 4096 true).
Example unbound_supplied :
  runs (_ ← PrimeConnection 1; SupplyPacket (mk_packet 0 true 0 0 false)) unbound_producer
    (λ d p, d = Graph.kNegative ∧ demands p = [Graph.kNeutral] ∧ state_ p = ENDED).
Proof. eexists _, _. split; [reflexivity|done]. Qed.
Example connected_unsupplied : connected_primed unbound_producer = Fault DCheckFailed.
Proof. reflexivity. Qed.

End Example.
End TransportSpec.
