(* ===== verification/MediaSink.v ===== *)
(** The media sink of the factory service
    (services/media/factory_service/media_sink_impl.cc and .h, audio_track_controller.cc).

    A sink joins a consumer, from which packets come, through a pipeline of conversions to a
    producer, which sends them to an audio track; playing and pausing it sets the rate of the
    track's rate control.  The producer is that of [Transport] and the pipeline that of
    [ConversionPipeline]; preparing and flushing the graph, calls of the audio track and of
    its rate control are recorded.  What the producer reports in a call is delivered when
    the call returns: nothing that the producer does after a report bears on it. *)

From stdpp Require Import strings.
From S2P Require Import Prelude MediaStates StreamTypes TypeConversions Graph ConversionPipeline LinearTransform RateControl Incident Publisher SharedBuffer Transport.
Local Open Scope Z_scope.

Module MediaSink.
Import MediaStates LinearTransform Incident Publisher.

(** ** Rates *)

(** An unsigned 32-bit integer converted to [float]: 24 bits, rounded to the nearest with
    ties to even. *)
Definition float32 (n : Z) : Z :=
  if n <? 2 ^ 24 then n
  else
    let e := Z.log2 n - 23 in
    let q := n / 2 ^ e in
    let r := n mod 2 ^ e in
    (if (2 ^ (e - 1) <? r) || ((r =? 2 ^ (e - 1)) && Z.odd q) then q + 1 else q) * 2 ^ e.
(** [static_cast<uint32_t>(frames_per_second * rate)], for a rate of 0.0f or 1.0f, which are
    written 0 and 1. *)
Definition frames_at_rate (frames_per_second rate : Z) : outcome Z :=
  let x := float32 frames_per_second * rate in
  if x <=? max_u32 then Ok x else Fault UndefinedBehaviour.

(** [LocalDuration::period], and 30 milliseconds in it. *)
Definition period_num : Z := 1.
Definition period_den : Z := 1000000000.
Definition kLeadTime : Z := 30000000.

(** ** The sink's data *)

(** Calls of objects that the sink holds. *)
Inductive call :=
  | Graph_Prepare | Graph_FlushOutput (output : Graph.Ref)
  | Track_Describe | Track_Configure (media_type : option TypeConversions.MediaType) | Track_GetRateControl
  | RateControl_SetCurrentQuad (q : RateControl.quad).
(** The closures of [ready_]. *)
Inductive consequence := RunPrime (callback : nat) | RunFlush (output : Graph.Ref) (callback : nat).
(** The callback of [GetSupportedMediaTypes] with what it captured, and that of [Connect]. *)
Inductive continuation :=
  | OnSupportedTypes (consumer_ref producer_ref : Z) (captured_stream_type : option StreamTypes.StreamType)
  | OnConnected.
Record MediaSinkStatus := mk_status { status_state : MediaState; timeline_transform : option RateControl.quad }.

Section Sink.
Context {St : Type} `{RA : RegionAllocator St} `{MS : SharedBuffer.MojoSystem} `{MB : TypeConversions.MojoBindings} `{BD : Build}.
Context (decoder_create : StreamTypes.StreamType → option StreamTypes.StreamType).
Abbreviation Producer := (@Transport.MojoProducer St MS).

(** After the members: the output that the flush callback captured, the time of the event
    being handled, the callback that is awaited, calls, and status replies. *)
Record MediaSinkImpl := mk_sink {
  ready_ : Incident consequence;
  graph_ : ConversionPipeline.G;
  producer_ : Producer;
  rate_control_ : bool;
  rate_ : Z;
  target_rate_ : Z;
  producer_state_ : MediaState;
  transform_ : transform;
  status_transform_ : option RateControl.quad;
  frames_per_second_ : Z;
  flushed_ : bool;
  status_publisher_ : MojoPublisher nat;
  consumer_output : Graph.Ref;
  local_now : Z;
  awaits : option continuation;
  calls : list call;
  replies : list (nat * Z * MediaSinkStatus);
}.

Definition set_ready v s := mk_sink v (graph_ s) (producer_ s) (rate_control_ s) (rate_ s) (target_rate_ s) (producer_state_ s)
  (transform_ s) (status_transform_ s) (frames_per_second_ s) (flushed_ s) (status_publisher_ s) (consumer_output s)
  (local_now s) (awaits s) (calls s) (replies s).
Definition set_graph v s := mk_sink (ready_ s) v (producer_ s) (rate_control_ s) (rate_ s) (target_rate_ s) (producer_state_ s)
  (transform_ s) (status_transform_ s) (frames_per_second_ s) (flushed_ s) (status_publisher_ s) (consumer_output s)
  (local_now s) (awaits s) (calls s) (replies s).
Definition set_producer v s := mk_sink (ready_ s) (graph_ s) v (rate_control_ s) (rate_ s) (target_rate_ s) (producer_state_ s)
  (transform_ s) (status_transform_ s) (frames_per_second_ s) (flushed_ s) (status_publisher_ s) (consumer_output s)
  (local_now s) (awaits s) (calls s) (replies s).
Definition set_rates rc r t s := mk_sink (ready_ s) (graph_ s) (producer_ s) rc r t (producer_state_ s)
  (transform_ s) (status_transform_ s) (frames_per_second_ s) (flushed_ s) (status_publisher_ s) (consumer_output s)
  (local_now s) (awaits s) (calls s) (replies s).
Definition set_producer_state v s := mk_sink (ready_ s) (graph_ s) (producer_ s) (rate_control_ s) (rate_ s) (target_rate_ s) v
  (transform_ s) (status_transform_ s) (frames_per_second_ s) (flushed_ s) (status_publisher_ s) (consumer_output s)
  (local_now s) (awaits s) (calls s) (replies s).
Definition set_transforms t st s := mk_sink (ready_ s) (graph_ s) (producer_ s) (rate_control_ s) (rate_ s) (target_rate_ s)
  (producer_state_ s) t st (frames_per_second_ s) (flushed_ s) (status_publisher_ s) (consumer_output s)
  (local_now s) (awaits s) (calls s) (replies s).
Definition set_frames_per_second v s := mk_sink (ready_ s) (graph_ s) (producer_ s) (rate_control_ s) (rate_ s) (target_rate_ s)
  (producer_state_ s) (transform_ s) (status_transform_ s) v (flushed_ s) (status_publisher_ s) (consumer_output s)
  (local_now s) (awaits s) (calls s) (replies s).
Definition set_flushed v s := mk_sink (ready_ s) (graph_ s) (producer_ s) (rate_control_ s) (rate_ s) (target_rate_ s)
  (producer_state_ s) (transform_ s) (status_transform_ s) (frames_per_second_ s) v (status_publisher_ s) (consumer_output s)
  (local_now s) (awaits s) (calls s) (replies s).
Definition set_publisher v s := mk_sink (ready_ s) (graph_ s) (producer_ s) (rate_control_ s) (rate_ s) (target_rate_ s)
  (producer_state_ s) (transform_ s) (status_transform_ s) (frames_per_second_ s) (flushed_ s) v (consumer_output s)
  (local_now s) (awaits s) (calls s) (replies s).
Definition set_output v s := mk_sink (ready_ s) (graph_ s) (producer_ s) (rate_control_ s) (rate_ s) (target_rate_ s)
  (producer_state_ s) (transform_ s) (status_transform_ s) (frames_per_second_ s) (flushed_ s) (status_publisher_ s) v
  (local_now s) (awaits s) (calls s) (replies s).
Definition set_now v s := mk_sink (ready_ s) (graph_ s) (producer_ s) (rate_control_ s) (rate_ s) (target_rate_ s)
  (producer_state_ s) (transform_ s) (status_transform_ s) (frames_per_second_ s) (flushed_ s) (status_publisher_ s)
  (consumer_output s) v (awaits s) (calls s) (replies s).
Definition set_awaits v s := mk_sink (ready_ s) (graph_ s) (producer_ s) (rate_control_ s) (rate_ s) (target_rate_ s)
  (producer_state_ s) (transform_ s) (status_transform_ s) (frames_per_second_ s) (flushed_ s) (status_publisher_ s)
  (consumer_output s) (local_now s) v (calls s) (replies s).
Definition add_call c s := mk_sink (ready_ s) (graph_ s) (producer_ s) (rate_control_ s) (rate_ s) (target_rate_ s)
  (producer_state_ s) (transform_ s) (status_transform_ s) (frames_per_second_ s) (flushed_ s) (status_publisher_ s)
  (consumer_output s) (local_now s) (awaits s) (calls s ++ [c]) (replies s).
Definition add_reply r s := mk_sink (ready_ s) (graph_ s) (producer_ s) (rate_control_ s) (rate_ s) (target_rate_ s)
  (producer_state_ s) (transform_ s) (status_transform_ s) (frames_per_second_ s) (flushed_ s) (status_publisher_ s)
  (consumer_output s) (local_now s) (awaits s) (calls s) (replies s ++ [r]).
Implicit Types s : MediaSinkImpl.

Abbreviation sink A := (prog MediaSinkImpl A).

(** ** Status *)

(** The callback runner. *)
Definition status_of s : MediaSinkStatus :=
  mk_status (if bool_decide (producer_state_ s = PAUSED) && negb (rate_ s =? 0) then PLAYING else producer_state_ s)
    (status_transform_ s).
Definition run_callback (callback : nat) (version : Z) : sink unit :=
  modS (λ s, add_reply (callback, version, status_of s) s).
Definition SendUpdates : sink unit := Publisher.SendUpdates run_callback status_publisher_ set_publisher.
Definition GetStatus (version_last_seen : Z) (callback : nat) : sink unit :=
  Publisher.Get run_callback status_publisher_ set_publisher version_last_seen callback.

(** ** The rate *)

(** What a transform stored through its out parameter; in a build that does not check
    success, a variable that was not stored to is read. *)
Definition stored (r : bool * option Z) : sink Z :=
  _ ← dcheckS r.1;
  match r.2 with Some x => mret x | None => failS UndefinedBehaviour end.

Definition StartMediaTime (start_local_time : Z) : sink Z :=
  s ← getS;
  let first_pts := Transport.first_pts_since_flush_ (producer_ s) in
  if flushed_ s && negb (first_pts =? Transport.kUnknownPts) then mret first_pts
  else r ← liftO (DoForwardTransform (transform_ s) start_local_time); stored r.

(** The quad that clients see, with media time in the unit of local time. *)
Definition StatusQuad (frames_per_second start_media_time start_local_time : Z) (rate_frames_per_tick local_seconds_per_tick : ratio) :
    sink RateControl.quad :=
  frame_rate_frames_per_second ← liftO (ratio_new frames_per_second 1);
  '(success, frame_rate_frames_per_tick) ← liftO (ratio_compose local_seconds_per_tick frame_rate_frames_per_second);
  _ ← dcheckS success;
  let local_to_presentation := transform_new_ratio 0 frame_rate_frames_per_tick 0 in
  r ← liftO (DoReverseTransform local_to_presentation start_media_time);
  reference_offset ← stored r;
  r ← liftO (DoReverseTransform local_to_presentation (numerator rate_frames_per_tick));
  presentation_delta ← stored r;
  reduced ← liftO (ratio_reduce (mk_ratio (u32 presentation_delta) (denominator rate_frames_per_tick)));
  mret (RateControl.mk_quad reference_offset start_local_time (numerator reduced) (denominator reduced)).

(** [MaybeSetRate], from the test of the rate control on. *)
Definition SetRate : sink unit :=
  s ← getS;
  frames ← liftO (frames_at_rate (frames_per_second_ s) (target_rate_ s));
  rate_frames_per_second ← liftO (ratio_new frames 1);
  local_seconds_per_tick ← liftO (ratio_new period_num period_den);
  '(success, rate_frames_per_tick) ← liftO (ratio_compose local_seconds_per_tick rate_frames_per_second);
  _ ← dcheckS success;
  start_local_time ← liftO (s64 (local_now s + kLeadTime));
  start_media_time ← StartMediaTime start_local_time;
  _ ← modS (set_flushed false);
  _ ← modS (λ s, set_transforms (transform_new_ratio start_local_time rate_frames_per_tick start_media_time) (status_transform_ s) s);
  _ ← modS (add_call (RateControl_SetCurrentQuad
    (RateControl.mk_quad start_media_time start_local_time (numerator rate_frames_per_tick) (denominator rate_frames_per_tick))));
  q ← StatusQuad (frames_per_second_ s) start_media_time start_local_time rate_frames_per_tick local_seconds_per_tick;
  _ ← modS (λ s, set_transforms (transform_ s) (Some q) s);
  _ ← modS (λ s, set_rates (rate_control_ s) (target_rate_ s) (target_rate_ s) s);
  SendUpdates.
Definition MaybeSetRate : sink unit :=
  s ← getS;
  if (MediaState_value (producer_state_ s) <? MediaState_value PAUSED) || (rate_ s =? target_rate_ s) then mret tt
  else if negb (rate_control_ s) then
    _ ← modS (λ s, set_rates (rate_control_ s) (target_rate_ s) (target_rate_ s) s); SendUpdates
  else SetRate.
Definition Play : sink unit := _ ← modS (λ s, set_rates (rate_control_ s) (rate_ s) 1 s); MaybeSetRate.
Definition Pause : sink unit := _ ← modS (λ s, set_rates (rate_control_ s) (rate_ s) 0 s); MaybeSetRate.

(** ** The producer *)

(** The status callback, for the states that a call of the producer has reported. *)
Definition OnProducerStatus (state : MediaState) : sink unit :=
  _ ← modS (set_producer_state state);
  _ ← SendUpdates;
  if decide (state = ENDED) then Pause else mret tt.
Fixpoint run_statuses (states : list MediaState) : sink unit :=
  match states with [] => mret tt | state :: rest => _ ← OnProducerStatus state; run_statuses rest end.
Definition clear_statuses (p : Producer) : Producer :=
  Transport.mk_producer (Transport.mojo_allocator_ p) (Transport.consumer_ p) (Transport.status_callback_ p)
    (Transport.demand_callback_ p) (Transport.state_ p) (Transport.end_of_stream_ p) (Transport.first_pts_since_flush_ p)
    (Transport.max_pushes_outstanding_ p) (Transport.current_pushes_outstanding_ p) (Transport.posted p)
    (Transport.messages p) (Transport.demands p) [] (Transport.callbacks_run p).
Definition producer_call {A} (m : prog Producer A) : sink (list MediaState) := λ s,
  match m (producer_ s) with
  | Ok (_, p) => Ok (rev (Transport.statuses p), set_producer (clear_statuses p) s)
  | Fault f => Fault f
  end.
Definition with_producer {A} (m : prog Producer A) : sink unit :=
  states ← producer_call m; run_statuses states.

(** The closures that wait for the sink to be ready. *)
Definition run_consequence (c : consequence) : sink unit :=
  match c with
  | RunPrime callback => with_producer (Transport.PrimeConnection callback)
  | RunFlush output callback =>
      _ ← modS (add_call (Graph_FlushOutput output));
      _ ← with_producer (Transport.FlushConnection callback);
      modS (set_flushed true)
  end.
Definition ready_when : consequence → sink unit := When run_consequence ready_ set_ready.
Definition ready_occur : sink unit := Occur run_consequence ready_ set_ready.
(** The callbacks that the sink gives the consumer. *)
Definition OnPrimeRequested (callback : nat) : sink unit := ready_when (RunPrime callback).
Definition OnFlushRequested (callback : nat) : sink unit := s ← getS; ready_when (RunFlush (consumer_output s) callback).

(** ** Construction *)

Definition with_graph {A} (m : prog ConversionPipeline.G A) : sink A := λ s,
  match m (graph_ s) with Ok (a, g) => Ok (a, set_graph g s) | Fault f => Fault f end.

(** The members' initial values; the stage that hosts the producer sets its demand callback.
    For another destination the owner is to release the sink, which asks for a shared pointer
    to it while it is being constructed, when there is none. *)
Definition new_sink (allocator : @SharedBuffer.state St MS) : MediaSinkImpl :=
  mk_sink new_incident Graph.new_graph (Transport.new_producer allocator) false 0 0 UNPREPARED
    (mk_transform (mk_ratio 0 1) 0 0) None 0 true new_publisher Graph.null_ref 0 None [] [].
Definition MediaSinkImpl_construct (destination_url : option string) (media_type : option TypeConversions.MediaType) : sink unit :=
  _ ← dcheckS (bool_decide (is_Some destination_url));
  _ ← dcheckS (bool_decide (is_Some media_type));
  _ ← SetCallbackRunner status_publisher_ set_publisher;
  consumer_ref ← with_graph (Graph.Add (Graph.new_stage (Some (ConversionPipeline.OtherPart 1)) 0 1));
  producer_ref ← with_graph (Graph.Add (Graph.new_stage (Some (ConversionPipeline.OtherPart 2)) 1 0));
  _ ← with_producer (Transport.SetDemandCallback true);
  output ← with_graph (Graph.part_output consumer_ref);
  _ ← modS (set_output output);
  _ ← with_producer (Transport.SetStatusCallback true);
  if bool_decide (destination_url = Some "nowhere"%string) then
    _ ← with_graph (Graph.ConnectParts consumer_ref producer_ref);
    _ ← modS (add_call Graph_Prepare);
    ready_occur
  else if negb (bool_decide (destination_url = Some "mojo:audio_server"%string)) then failS UndefinedBehaviour
  else
    captured_stream_type ← liftO (TypeConversions.MediaType_To media_type);
    _ ← modS (add_call Track_Describe);
    modS (set_awaits (Some (OnSupportedTypes consumer_ref producer_ref captured_stream_type))).

(** [AudioTrackController::Configure], which calls back at once. *)
Definition Configure (stream_type : option StreamTypes.StreamType) (callback : sink unit) : sink unit :=
  media_type ← liftO (TypeConversions.MediaType_From stream_type);
  _ ← modS (add_call (Track_Configure media_type));
  _ ← modS (add_call Track_GetRateControl);
  callback.
Definition OnConfigured : sink unit :=
  _ ← modS (λ s, set_rates true (rate_ s) (target_rate_ s) s);
  _ ← with_producer (Transport.Connect 0);
  modS (set_awaits (Some OnConnected)).
Definition SupportedTypes (consumer_ref producer_ref : Z) (captured_stream_type : option StreamTypes.StreamType)
    (supported_stream_types : list (option StreamTypes.StreamTypeSet)) : sink unit :=
  out ← with_graph (Graph.part_output consumer_ref);
  match captured_stream_type with
  | None => failS UndefinedBehaviour
  | Some stream_type =>
      '(result, out, producer_stream_type) ← with_graph
        (ConversionPipeline.BuildConversionPipeline decoder_create 2 stream_type supported_stream_types out);
      if negb result then _ ← modS (set_producer_state FAULT); SendUpdates
      else
        _ ← with_graph (Graph.ConnectOutputToPart out producer_ref);
        match producer_stream_type with
        | None => failS UndefinedBehaviour
        | Some t =>
            _ ← match StreamTypes.medium t with
                | StreamTypes.MAudio =>
                    match StreamTypes.audio t with
                    | Some a => modS (set_frames_per_second (StreamTypes.frames_per_second a))
                    | None => failS UndefinedBehaviour
                    end
                | _ => failS Aborted
                end;
            Configure producer_stream_type OnConfigured
        end
  end.
Definition Connected : sink unit :=
  _ ← modS (add_call Graph_Prepare);
  _ ← ready_occur;
  MaybeSetRate.

(** ** Events *)

(** Calls of clients, requests that the consumer passes on, what the graph and the audio
    track make the producer do, and the callbacks that the sink awaits. *)
Inductive event :=
  | EPlay | EPause | EGetStatus (version_last_seen : Z) (callback : nat)
  | EPrimeRequested (callback : nat) | EFlushRequested (callback : nat)
  | ESupplyPacket (packet : Transport.Packet) | EProducerTask | EPacketConsumed (packet : Transport.Packet)
  | ESupportedTypes (supported_stream_types : list (option StreamTypes.StreamTypeSet)) | EConnected.
Definition handle_event (e : event) : sink unit :=
  match e with
  | EPlay => Play
  | EPause => Pause
  | EGetStatus version_last_seen callback => GetStatus version_last_seen callback
  | EPrimeRequested callback => OnPrimeRequested callback
  | EFlushRequested callback => OnFlushRequested callback
  | ESupplyPacket packet => with_producer (Transport.SupplyPacket packet)
  | EProducerTask => with_producer Transport.run_task
  | EPacketConsumed packet => with_producer (Transport.PacketConsumed packet)
  | ESupportedTypes types =>
      s ← getS;
      match awaits s with
      | Some (OnSupportedTypes c p t) => _ ← modS (set_awaits None); SupportedTypes c p t types
      | _ => mret tt
      end
  | EConnected =>
      s ← getS;
      match awaits s with
      | Some OnConnected => _ ← modS (set_awaits None); Connected
      | _ => mret tt
      end
  end.
Definition handle (now : Z) (e : event) : sink unit := _ ← modS (set_now now); handle_event e.

End Sink.
End MediaSink.
