(* ===== verification/MediaSinkSpec.v ===== *)
(** What a media sink does to the timeline (see [MediaSink]): the rates it sets, the
    continuity of media time, and the status that clients see. *)

From S2P Require Import Prelude MediaStates StreamTypes TypeConversions Graph ConversionPipeline LinearTransform RateControl Incident Publisher SharedBuffer Transport MediaSink.
Local Open Scope Z_scope.

Module MediaSinkSpec.
Import MediaStates LinearTransform Incident Publisher MediaSink.

(** ** Rates *)

(** A scale of [frames] per second in frames per tick of local time. *)
Definition is_tick (frames : Z) (r : ratio) : Prop := ratio_wf r ∧ numerator r * period_den = frames * denominator r.

Lemma tick_ratio frames :
  0 ≤ frames < 2 ^ 24 →
  ∃ r, ratio_new frames 1 = Ok (mk_ratio frames 1) ∧ ratio_new period_num period_den = Ok (mk_ratio 1 period_den) ∧
    ratio_compose (mk_ratio 1 period_den) (mk_ratio frames 1) = Ok (true, r) ∧ is_tick frames r.
Proof.
  intros Hf. unfold period_den.
  assert (ratio_new frames 1 = Ok (mk_ratio frames 1)) as E1.
  { apply ratio_new_coprime; [unfold is_u; lia..|apply Z.gcd_1_r]. }
  assert (ratio_new period_num 1000000000 = Ok (mk_ratio 1 1000000000)) as E2 by (vm_compute; reflexivity).
  destruct (Z.eq_dec frames 0) as [->|Hf0].
  { exists (mk_ratio 0 1). split_and!; [done..|]. by split; [split_and!; vm_compute|]. }
  destruct (ratio_compose_exact (mk_ratio 1 1000000000) (mk_ratio frames 1)) as (r & E & Hw & Hr); cbn [numerator denominator] in *.
  - split_and!; by vm_compute.
  - split_and!; cbn; [unfold is_u; lia|by vm_compute|done|apply Z.gcd_1_r].
  - done.
  - done.
  - destruct (reduced_facts (1 * frames) (1000000000 * 1)) as (_ & _ & _ & _ & ? & ?); lia.
  - destruct (reduced_facts (1 * frames) (1000000000 * 1)) as (_ & _ & _ & _ & ? & ?); lia.
  - exists r. split_and!; [done..|]. split; [done|]. unfold period_den. lia.
Qed.

Lemma is_tick_0 r : is_tick 0 r → r = mk_ratio 0 1.
Proof.
  intros [(Hn & Hd & Hd0 & Hg) E]. destruct r as [n d]. cbn in *. unfold is_u, period_den in *.
  assert (n = 0) as -> by lia. rewrite Z.gcd_0_l, Z.abs_eq in Hg by lia. by subst.
Qed.
Lemma is_tick_pos frames r : 0 < frames → is_tick frames r → 0 < numerator r ∧ 0 < denominator r.
Proof.
  intros Hf [(Hn & Hd & Hd0 & Hg) E]. unfold is_u, period_den in *. assert (0 < denominator r) by lia. split; [|done]. nia.
Qed.
Lemma float32_small n : n < 2 ^ 24 → float32 n = n.
Proof. intros Hn. unfold float32. by rewrite (proj2 (Z.ltb_lt _ _) Hn). Qed.

(** ** Media time *)

(** Media times that playing from a time stamp in range leads to by time [t], and the line of
    a transform for frames of a rate. *)
Definition kHorizon : Z := 2 ^ 61.
Definition in_time (fps m t : Z) : Prop := 0 ≤ m ∧ m * period_den ≤ fps * (kHorizon + t).
Definition on_line (fps rate : Z) (t : transform) : Prop :=
  is_tick (fps * rate) (scale t) ∧ 0 ≤ a_zero t < kHorizon ∧ in_time fps (b_zero t) (a_zero t).

Lemma in_time_bound fps m t : 0 < fps < 2 ^ 24 → 0 ≤ t < kHorizon → in_time fps m t → 0 ≤ m < 2 ^ 62.
Proof.
  unfold in_time, kHorizon, period_den. intros Hf Ht [Hm0 Hm]. split; [done|].
  assert (fps * (2 ^ 61 + t) ≤ 2 ^ 24 * (2 ^ 61 + 2 ^ 61)) by (apply Z.mul_le_mono_nonneg; lia). lia.
Qed.

Section Sink.
Context `{BD : Build}.

Lemma forward_in_time fps rate tr t :
  0 < fps < 2 ^ 24 → rate = 0 ∨ rate = 1 → on_line fps rate tr → a_zero tr ≤ t < kHorizon →
  DoForwardTransform tr t = Ok (true, Some (exact_forward tr t)) ∧ in_time fps (exact_forward tr t) t.
Proof.
  intros Hf Hr ([(Hn & Hd & Hd0 & _) E] & Ha & Hm0 & Hm) Ht. destruct tr as [[n d] t0 m0]. cbn in *.
  unfold is_u, in_time, kHorizon, period_den in *. change (2 ^ 61) with 2305843009213693952 in *. change (2 ^ 24) with 16777216 in *.
  set (x := (t - t0) * n / d). assert (d * x ≤ (t - t0) * n) by (apply Z.mul_div_le; lia).
  assert (0 ≤ x) by (apply Z.div_pos; nia).
  assert (x * 1000000000 ≤ fps * (t - t0)).
  { apply (Z.mul_le_mono_pos_l _ _ d); [lia|]. assert (0 ≤ fps * rate ≤ fps) by nia.
    assert (d * x * 1000000000 ≤ (t - t0) * (n * 1000000000)) by nia. rewrite E in *.
    assert ((t - t0) * (fps * rate * d) ≤ (t - t0) * (fps * d)) by (apply Z.mul_le_mono_nonneg_l; nia). lia. }
  assert (exact_forward (mk_transform (mk_ratio n d) t0 m0) t = x + m0) as -> by done.
  assert (0 ≤ x + m0) by lia. assert ((x + m0) * 1000000000 ≤ fps * (2305843009213693952 + t)) by nia.
  assert (in_time fps (x + m0) t) as Hi by done.
  pose proof (in_time_bound fps (x + m0) t ltac:(lia) ltac:(unfold kHorizon; lia) Hi).
  split; [|done]. unfold DoForwardTransform. cbn [scale denominator numerator a_zero b_zero].
  rewrite (proj2 (Z.eqb_neq d 0)) by done.
  apply (linear_transform_complete t t0 n d false m0 n d); try done; unfold exact_value, is_s64, min_s64, max_s64; fold x; lia.
Qed.

(** Media time in the unit of local time. *)
Lemma presentation fps r m t :
  0 < fps < 2 ^ 24 → is_tick fps r → 0 ≤ t < kHorizon → in_time fps m t →
  DoReverseTransform (transform_new_ratio 0 r 0) m = Ok (true, Some (m * period_den / fps)) ∧
  is_s64 (m * period_den / fps).
Proof.
  intros Hf Hr Ht [Hm0 Hm]. pose proof (is_tick_pos _ _ (proj1 Hf) Hr) as [Hn0 Hd0].
  destruct Hr as [(Hn & Hd & _ & _) E]. destruct r as [n d]. cbn in *.
  unfold is_u, kHorizon, period_den in *. change (2 ^ 61) with 2305843009213693952 in *. change (2 ^ 24) with 16777216 in *.
  assert (m * d / n = m * 1000000000 / fps) as <-.
  { rewrite <- (Z.div_mul_cancel_r (m * d) n fps), <- (Z.div_mul_cancel_r (m * 1000000000) fps n) by lia.
    f_equal; nia. }
  assert (0 ≤ m * d / n) by (apply Z.div_pos; nia).
  assert (m * d / n ≤ 4611686018427387904).
  { apply Z.div_le_upper_bound; [lia|]. apply (Z.mul_le_mono_pos_r _ _ fps); [lia|].
    assert (m * d * fps = (m * 1000000000) * n) by nia. assert ((m * 1000000000) * n ≤ fps * (2305843009213693952 + t) * n) by nia. nia. }
  assert (exact_value m 0 d n 0 = m * d / n) as Ev by (unfold exact_value; rewrite Z.sub_0_r; lia).
  split; [|unfold is_s64, min_s64, max_s64; lia]. unfold DoReverseTransform, transform_new_ratio. cbn [scale denominator numerator a_zero b_zero].
  rewrite (proj2 (Z.eqb_neq n 0)) by lia. rewrite <- Ev.
  apply (linear_transform_complete m 0 n d true 0 d n); try done; try rewrite Ev; unfold is_s64, is_u, min_s64, max_s64; cbn; try nia.
Qed.

End Sink.

(** ** The log of calls *)

Definition quad_line (q : RateControl.quad) : transform :=
  mk_transform (mk_ratio (RateControl.reference_delta q) (RateControl.target_delta q)) (RateControl.target_offset q) (RateControl.reference_offset q).
(** The line that media time is on: that of the last quad, unless the graph was flushed since. *)
Definition next_line (line : option transform) (c : call) : option transform :=
  match c with
  | RateControl_SetCurrentQuad q => Some (quad_line q)
  | Graph_FlushOutput _ => None
  | _ => line
  end.
Definition line_after : list call → option transform := foldl next_line None.
Definition next_quad (last : option RateControl.quad) (c : call) : option RateControl.quad :=
  match c with RateControl_SetCurrentQuad q => Some q | _ => last end.
Definition last_quad : list call → option RateControl.quad := foldl next_quad None.
(** Every quad begins on the line that media time is on. *)
Definition starts_on (line : option transform) (c : call) : Prop :=
  match c, line with
  | RateControl_SetCurrentQuad q, Some t => RateControl.reference_offset q = exact_forward t (RateControl.target_offset q)
  | _, _ => True
  end.
Fixpoint continuous (line : option transform) (cs : list call) : Prop :=
  match cs with [] => True | c :: cs => starts_on line c ∧ continuous (next_line line c) cs end.
Lemma continuous_app line cs c : continuous line (cs ++ [c]) ↔ continuous line cs ∧ starts_on (foldl next_line line cs) c.
Proof. revert line. induction cs as [|c' cs IH]; intros line; cbn; [tauto|]. rewrite IH. tauto. Qed.
Lemma line_after_app cs c : line_after (cs ++ [c]) = next_line (line_after cs) c.
Proof. unfold line_after. by rewrite foldl_app. Qed.
Lemma last_quad_app cs c : last_quad (cs ++ [c]) = next_quad (last_quad cs) c.
Proof. unfold last_quad. by rewrite foldl_app. Qed.

(** A quad runs at the rate of the stream, or stands still. *)
Definition quad_rate (fps : Z) (c : call) : Prop :=
  match c with
  | RateControl_SetCurrentQuad q => is_tick fps (scale (quad_line q)) ∨ is_tick 0 (scale (quad_line q))
  | _ => True
  end.
(** The quad of the status describes the same line, with media time in local units. *)
Definition status_quad (fps rate : Z) (t : transform) : RateControl.quad :=
  RateControl.mk_quad (b_zero t * period_den / fps) (a_zero t) rate 1.

(** ** Setting the rate *)

Section SetRate.
Context {St : Type} `{RA : RegionAllocator St} `{MS : SharedBuffer.MojoSystem} `{BD : Build}.
Abbreviation Sink := (@MediaSinkImpl St MS).
Implicit Types s : Sink.

(** What reports to clients change. *)
Definition reported (pub : MojoPublisher nat) rs s : Sink :=
  mk_sink (ready_ s) (graph_ s) (producer_ s) (rate_control_ s) (rate_ s) (target_rate_ s) (producer_state_ s)
    (transform_ s) (status_transform_ s) (frames_per_second_ s) (flushed_ s) pub (consumer_output s)
    (local_now s) (awaits s) (calls s) rs.
Definition has_runner s : Prop := has_callback_runner (status_publisher_ s) = true.

Lemma run_pending_reports cs s :
  ∃ rs, run_pending run_callback status_publisher_ cs s = Ok (tt, reported (status_publisher_ s) rs s).
Proof.
  revert s. induction cs as [|c cs IH]; intros s; cbn [run_pending].
  { exists (replies s). by destruct s. }
  destruct (IH (add_reply (c, version_ (status_publisher_ s), status_of s) s)) as [rs E]. exists rs. exact E.
Qed.
Lemma SendUpdates_reports s :
  has_runner s → ∃ pub rs, SendUpdates s = Ok (tt, reported pub rs s) ∧ has_callback_runner pub = true.
Proof.
  intros Hr. unfold SendUpdates, Publisher.SendUpdates, dcheckS. unfold has_runner in Hr. unfold mbind, prog_bind, getS, modS, liftO. rewrite Hr. cbn.
  assert (dcheck true = Ok tt) as -> by (unfold dcheck; by destruct dcheck_is_on). cbn.
  edestruct run_pending_reports as [rs E]. eexists _, rs. split; [exact E|]. done.
Qed.
Lemma GetStatus_reports v cb s :
  has_runner s → ∃ pub rs, GetStatus v cb s = Ok (tt, reported pub rs s) ∧ has_callback_runner pub = true.
Proof.
  intros Hr. unfold GetStatus, Publisher.Get, dcheckS. unfold has_runner in Hr. unfold mbind, prog_bind, getS, modS, liftO. rewrite Hr. cbn.
  assert (dcheck true = Ok tt) as -> by (unfold dcheck; by destruct dcheck_is_on). cbn.
  destruct (v <? _).
  - exists (status_publisher_ s), (replies s ++ [(cb, version_ (status_publisher_ s), status_of s)]). split; [reflexivity|done].
  - eexists _, (replies s). split; [reflexivity|exact Hr].
Qed.

(** Time stamps that packets may have; the first one since a flush may be unknown. *)
Definition pts_ok (fps p : Z) : Prop := p = Transport.kUnknownPts ∨ 0 ≤ p ∧ p * period_den ≤ fps * kHorizon.
Definition first_pts s : Z := Transport.first_pts_since_flush_ (producer_ s).
Definition start_media s (t : Z) : Z :=
  if flushed_ s && negb (first_pts s =? Transport.kUnknownPts) then first_pts s else exact_forward (transform_ s) t.

Lemma runs_lift {A B} (m : outcome A) a (k : A → prog Sink B) s Q :
  m = Ok a → runs (k a) s Q → runs (liftO m ≫= k) s Q.
Proof. intros E. apply runs_step. unfold liftO. by rewrite E. Qed.
Lemma stored_ok x s : stored (true, Some x) s = Ok (x, s).
Proof.
  unfold stored, dcheckS, mbind, prog_bind, liftO. cbn [fst snd].
  assert (dcheck true = Ok tt) as -> by (unfold dcheck; by destruct dcheck_is_on). done.
Qed.
Lemma runs_stored {B} x (k : Z → prog Sink B) s Q : runs (k x) s Q → runs (stored (true, Some x) ≫= k) s Q.
Proof. apply runs_step, stored_ok. Qed.

Lemma StartMediaTime_run s rate t :
  0 < frames_per_second_ s < 2 ^ 24 → rate = 0 ∨ rate = 1 → on_line (frames_per_second_ s) rate (transform_ s) →
  pts_ok (frames_per_second_ s) (first_pts s) → a_zero (transform_ s) ≤ t < kHorizon →
  StartMediaTime t s = Ok (start_media s t, s) ∧ in_time (frames_per_second_ s) (start_media s t) t.
Proof.
  intros Hf Hr Hl Hp Ht. pose proof (proj1 (proj2 Hl)) as Ha.
  destruct (forward_in_time _ _ _ _ Hf Hr Hl Ht) as [E Hi]. unfold StartMediaTime, start_media, mbind, prog_bind, getS, liftO.
  fold (first_pts s). destruct (flushed_ s && negb (first_pts s =? Transport.kUnknownPts)) eqn:Eb.
  - split; [done|]. apply andb_true_iff in Eb as [_ Hk%negb_true_iff%Z.eqb_neq]. destruct Hp as [|[Hp0 Hp]]; [done|].
    split; [done|]. unfold kHorizon in *. nia.
  - rewrite E. split; [apply stored_ok|done].
Qed.

(** The status quad in any build and any state. *)
Lemma StatusQuad_run s fps rate r t m :
  0 < fps < 2 ^ 24 → rate = 0 ∨ rate = 1 → is_tick (fps * rate) r → 0 ≤ t < kHorizon → in_time fps m t →
  StatusQuad fps m t r (mk_ratio 1 period_den) s = Ok (status_quad fps rate (transform_new_ratio t r m), s).
Proof.
  intros Hf Hr Hk Ht Hm. destruct (tick_ratio fps) as (f & E1 & _ & E2 & Hft); [lia|].
  cut (runs (StatusQuad fps m t r (mk_ratio 1 period_den)) s (λ q s', q = status_quad fps rate (transform_new_ratio t r m) ∧ s' = s)).
  { intros (q & s' & E & -> & ->). exact E. }
  unfold StatusQuad. eapply runs_lift; [exact E1|]. eapply runs_lift; [exact E2|]. cbn. apply runs_dcheck; [done|].
  destruct (presentation fps f m t) as [Em _]; [done..|]. eapply runs_lift; [exact Em|]. apply runs_stored.
  assert (in_time fps (numerator r) t ∧ numerator r * period_den / fps = rate * denominator r ∧ is_u 32 (denominator r)
    ∧ denominator r ≠ 0 ∧ (rate = 0 → denominator r = 1)) as (Hin & Ed & Hu & Hd0 & H1).
  { pose proof Hk as [(Hn & Hd & Hd0 & _) E]. rewrite E. unfold is_u in *.
    replace (fps * rate * denominator r) with (rate * denominator r * fps) by lia. rewrite Z.div_mul by lia.
    split; [|split; [done|split; [done|split; [done|]]]].
    - split; [lia|]. rewrite E. unfold kHorizon. change (2 ^ 61) with 2305843009213693952.
      assert (0 ≤ rate * denominator r ≤ 2305843009213693952 + t) by (destruct Hr as [-> | ->]; lia). nia.
    - intros ->. rewrite Z.mul_0_r in Hk. by rewrite (is_tick_0 _ Hk). }
  destruct (presentation fps f (numerator r) t) as [En _]; [done..|]. eapply runs_lift; [exact En|]. apply runs_stored. rewrite Ed.
  assert (ratio_reduce (mk_ratio (u32 (rate * denominator r)) (denominator r)) = Ok (mk_ratio rate 1)) as Er.
  { unfold ratio_reduce. cbn [numerator denominator]. rewrite (proj2 (Z.eqb_neq _ 0)) by done. cbn [negb].
    unfold is_u in *. rewrite uwrap_small by (unfold is_u; destruct Hr as [-> | ->]; lia).
    rewrite reduce_internal_gcd by (unfold is_u; destruct Hr as [-> | ->]; lia). cbn [mbind outcome_bind]. destruct Hr as [-> | ->].
    - by rewrite H1.
    - rewrite Z.mul_1_l, Z.gcd_diag, Z.abs_eq, Z.div_same by lia. done. }
  eapply runs_lift; [exact Er|]. apply runs_ret. done.
Qed.

(** The state after the rate was set. *)
Definition rate_set (m t : Z) (r : ratio) pub rs s : Sink :=
  let tr := transform_new_ratio t r m in
  reported pub rs (set_rates (rate_control_ s) (target_rate_ s) (target_rate_ s)
    (set_transforms tr (Some (status_quad (frames_per_second_ s) (target_rate_ s) tr))
      (add_call (RateControl_SetCurrentQuad (RateControl.mk_quad m t (numerator r) (denominator r))) (set_flushed false s)))).
Lemma SetRate_run s :
  has_runner s → 0 < frames_per_second_ s < 2 ^ 24 → rate_ s = 0 ∨ rate_ s = 1 → target_rate_ s = 0 ∨ target_rate_ s = 1 →
  on_line (frames_per_second_ s) (rate_ s) (transform_ s) → pts_ok (frames_per_second_ s) (first_pts s) →
  a_zero (transform_ s) ≤ local_now s + kLeadTime < kHorizon →
  let t := local_now s + kLeadTime in
  in_time (frames_per_second_ s) (start_media s t) t ∧
  ∃ r pub rs, is_tick (frames_per_second_ s * target_rate_ s) r ∧ has_callback_runner pub = true ∧
    SetRate s = Ok (tt, rate_set (start_media s t) t r pub rs s).
Proof.
  intros Hrun Hf Hr Htr Hl Hp Ht t. pose proof (proj1 (proj2 Hl)) as Ha.
  destruct (StartMediaTime_run s (rate_ s) t Hf Hr Hl Hp Ht) as [Em Hm]. split; [exact Hm|].
  assert (frames_at_rate (frames_per_second_ s) (target_rate_ s) = Ok (frames_per_second_ s * target_rate_ s)) as Ef.
  { unfold frames_at_rate. rewrite float32_small by lia. cbv zeta. rewrite (proj2 (Z.leb_le _ _)); [done|]. unfold max_u32. nia. }
  destruct (tick_ratio (frames_per_second_ s * target_rate_ s)) as (r & E1 & E2 & E3 & Hk); [nia|].
  assert (s64 (local_now s + kLeadTime) = Ok t) as Et.
  { apply s64_ok. unfold is_s64, min_s64, max_s64, kHorizon in *. lia. }
  pose (s1 := set_transforms (transform_new_ratio t r (start_media s t))
    (Some (status_quad (frames_per_second_ s) (target_rate_ s) (transform_new_ratio t r (start_media s t))))
      (add_call (RateControl_SetCurrentQuad (RateControl.mk_quad (start_media s t) t (numerator r) (denominator r))) (set_flushed false s))).
  destruct (SendUpdates_reports (set_rates (rate_control_ s) (target_rate_ s) (target_rate_ s) s1)) as (pub & rs & Eu & Hpub); [exact Hrun|].
  exists r, pub, rs. split_and!; [done..|].
  cut (runs SetRate s (λ _ s', s' = rate_set (start_media s t) t r pub rs s)).
  { intros ([] & s' & E & ->). exact E. }
  unfold SetRate. apply runs_get. eapply runs_lift; [exact Ef|]. eapply runs_lift; [exact E1|]. eapply runs_lift; [exact E2|].
  eapply runs_lift; [exact E3|]. cbn. apply runs_dcheck; [done|]. eapply runs_lift; [exact Et|].
  eapply runs_step; [exact Em|]. do 3 apply runs_mod.
  eapply runs_step; [apply (StatusQuad_run _ _ (target_rate_ s)); [done..| |exact Hm]; unfold t; lia|].
  do 2 apply runs_mod. exists tt. eexists. split; [exact Eu|]. done.
Qed.

(** ** The invariant *)

(** A sink without a rate control has sent nothing; one with a rate control keeps to the
    timeline. *)
Record playing_ok s : Prop := {
  po_fps : 0 < frames_per_second_ s < 2 ^ 24;
  po_line : on_line (frames_per_second_ s) (rate_ s) (transform_ s);
  po_pts : pts_ok (frames_per_second_ s) (first_pts s);
  po_on : line_after (calls s) = None ∨ flushed_ s = false ∧ line_after (calls s) = Some (transform_ s);
  po_continuous : continuous None (calls s);
  po_rates : Forall (quad_rate (frames_per_second_ s)) (calls s);
  po_sent : match last_quad (calls s) with
            | Some q => quad_line q = transform_ s ∧
                status_transform_ s = Some (status_quad (frames_per_second_ s) (rate_ s) (transform_ s))
            | None => status_transform_ s = None
            end;
}.
Definition not_quad (c : call) : Prop := match c with RateControl_SetCurrentQuad _ => False | _ => True end.
Record silent s : Prop := {
  si_calls : Forall not_quad (calls s);
  si_transform : transform_ s = mk_transform (mk_ratio 0 1) 0 0;
  si_status : status_transform_ s = None;
}.
Definition is_ready s : Prop := occurred_ (ready_ s) = true.
Definition awaits_types s : Prop := ∃ c p t, awaits s = Some (OnSupportedTypes c p t).
Record sinv s : Prop := {
  sv_runner : has_runner s;
  sv_rate : rate_ s = 0 ∨ rate_ s = 1;
  sv_target : target_rate_ s = 0 ∨ target_rate_ s = 1;
  sv_statuses : Transport.statuses (producer_ s) = [];
  sv_bound : rate_control_ s = true → playing_ok s;
  sv_unbound : rate_control_ s = false → silent s;
  sv_waiting : occurred_ (ready_ s) = false → MediaState_value (producer_state_ s) < MediaState_value PAUSED ∧ rate_ s = 0;
  sv_types : awaits_types s → occurred_ (ready_ s) = false ∧ rate_control_ s = false ∧ first_pts s = Transport.kUnknownPts;
}.
Definition time_ok s : Prop := a_zero (transform_ s) ≤ local_now s + kLeadTime < kHorizon.
Definition tinv s : Prop := sinv s ∧ time_ok s.

Lemma sinv_reported pub rs s : has_callback_runner pub = true → tinv s → tinv (reported pub rs s).
Proof. intros Hp [[Hr H1 H2 H3 H4 H5 H6 H7] Ht]. split; [|exact Ht]. split; try done; intros Hb; [destruct (H4 Hb)|destruct (H5 Hb)]; by split. Qed.

(** Setting the rate puts one quad on the line. *)
Lemma rate_set_inv s r pub rs :
  let t := local_now s + kLeadTime in
  tinv s → rate_control_ s = true → is_ready s → is_tick (frames_per_second_ s * target_rate_ s) r →
  has_callback_runner pub = true → in_time (frames_per_second_ s) (start_media s t) t →
  tinv (rate_set (start_media s t) t r pub rs s).
Proof.
  intros t [[Hr H1 H2 H3 H4 H5 H6 H7] Ht] Hb Ho Hk Hp Hm. pose proof (H4 Hb) as [Pf Pl Pp Po Pc Pr Ps].
  pose proof (proj1 (proj2 Pl)). unfold time_ok in Ht. fold t in Ht.
  assert (quad_line (RateControl.mk_quad (start_media s t) t (numerator r) (denominator r)) = transform_new_ratio t r (start_media s t)) as Eq.
  { by destruct r. }
  split; [|unfold time_ok; cbn; fold t; lia]. split; try done; try (cbn; congruence).
  - intros _. split; unfold rate_set; cbn -[line_after last_quad start_media]; try done.
    + split; [done|]. cbn -[start_media]. split; [lia|done].
    + right. split; [done|]. rewrite line_after_app. cbn [next_line]. by rewrite Eq.
    + apply continuous_app. split; [done|]. fold (line_after (calls s)). cbn.
      destruct Po as [-> | [Hfl ->]]; [done|]. unfold start_media. by rewrite Hfl.
    + apply Forall_app_2; [done|]. constructor; [|done]. unfold quad_rate. rewrite Eq. destruct H2 as [E|E]; rewrite E in Hk.
      * right. by rewrite Z.mul_0_r in Hk.
      * left. by rewrite Z.mul_1_r in Hk.
    + rewrite last_quad_app. cbn -[start_media]. done.
Qed.
Lemma MaybeSetRate_inv s :
  tinv s → runs MaybeSetRate s (λ _ s', tinv s' ∧ (is_ready s → is_ready s') ∧
    (MediaState_value PAUSED ≤ MediaState_value (producer_state_ s) → rate_ s' = target_rate_ s)).
Proof.
  intros Hi. pose proof Hi as [[Hr H1 H2 H3 H4 H5 H6 H7] Ht]. unfold MaybeSetRate. apply runs_get.
  destruct (Z.ltb_spec (MediaState_value (producer_state_ s)) (MediaState_value PAUSED)) as [|Hst].
  { apply runs_ret. split_and!; [done..|]. lia. }
  destruct (Z.eqb_spec (rate_ s) (target_rate_ s)) as [E|E]; [by apply runs_ret|]. cbn [orb].
  assert (is_ready s) as Ho by (unfold is_ready; destruct (occurred_ (ready_ s)); [done|destruct H6; [done|lia]]).
  destruct (rate_control_ s) eqn:Hb; cbn [negb].
  - pose proof (H4 eq_refl) as [Pf Pl Pp Po Pc Pr Ps].
    destruct (SetRate_run s) as (Hm & r & pub & rs & Hk & Hp & Es); [done..|]. exists tt. eexists. split; [exact Es|].
    split; [by apply rate_set_inv|]. done.
  - apply runs_mod. rewrite Hb. set (s1 := set_rates _ _ _ s).
    assert (tinv s1) as Hi1.
    { split; [|exact Ht]. destruct (H5 eq_refl). split; try done; cbn; congruence. }
    destruct (SendUpdates_reports s1) as (pub & rs & E1 & Hp); [exact Hr|].
    exists tt. eexists. split; [exact E1|]. split; [by apply sinv_reported|]. done.
Qed.

End SetRate.
End MediaSinkSpec.
