(* ===== verification/MediaSinkRun.v ===== *)
(** Runs of a media sink (see [MediaSinkSpec]): what its producer may do to it, its events,
    and what holds after any of them. *)

From stdpp Require Import strings.
From S2P Require Import Prelude MediaStates StreamTypes TypeConversions Graph ConversionPipeline LinearTransform RateControl Incident Publisher FifoAllocator SharedBuffer Transport MediaSink MediaSinkSpec.
Local Open Scope Z_scope.

Module MediaSinkRun.
Import MediaStates LinearTransform Incident Publisher MediaSink MediaSinkSpec.

(** What holds after a run that returns. *)
Definition after {S A} (m : prog S A) (s : S) (Q : S → Prop) : Prop := ∀ a s', m s = Ok (a, s') → Q s'.
Lemma after_runs {S A} (m : prog S A) s Q : runs m s (λ _ s', Q s') → after m s Q.
Proof. intros (a & s' & E & HQ) b s'' E'. rewrite E in E'. by injection E' as <- <-. Qed.
Lemma after_bind {S A B} (m : prog S A) (k : A → prog S B) s Q R :
  after m s Q → (∀ a s', Q s' → after (k a) s' R) → after (m ≫= k) s R.
Proof. intros Hm Hk b s'' (a & s' & E & E')%prog_bind_Ok. by apply (Hk a s' (Hm a s' E) b). Qed.
Lemma after_mod {S B} g (k : unit → prog S B) s Q : after (k tt) (g s) Q → after (modS g ≫= k) s Q.
Proof. done. Qed.
Lemma after_get {S B} (k : S → prog S B) s Q : after (k s) s Q → after (getS ≫= k) s Q.
Proof. done. Qed.
Lemma after_mono {S A} (m : prog S A) s (Q R : S → Prop) : after m s Q → (∀ s', Q s' → R s') → after m s R.
Proof. intros Hm HQ a s' E. by apply HQ, (Hm a s'). Qed.
Lemma after_lift {S A B} (m : outcome A) (k : A → prog S B) s Q : (∀ a, after (k a) s Q) → after (liftO m ≫= k) s Q.
Proof.
  intros Hk b s'' (a & s' & E & E')%prog_bind_Ok. unfold liftO in E. destruct m; [|done]. injection E as <- <-. by eapply Hk.
Qed.

(** ** What calls of the producer keep *)

Section Producer.
Context {St : Type} `{RA : RegionAllocator St} `{MS : SharedBuffer.MojoSystem} `{BD : Build}.
Abbreviation Producer := (@Transport.MojoProducer St MS).
Context (P : Producer → Prop).

Definition keeps {A} (m : prog Producer A) : Prop := ∀ p, P p → after m p P.
Lemma keeps_bind {A B} (m : prog Producer A) (k : A → prog Producer B) : keeps m → (∀ a, keeps (k a)) → keeps (m ≫= k).
Proof. intros Hm Hk p Hp. apply (after_bind _ _ _ P); [by apply Hm|]. intros a p' Hp'. by apply Hk. Qed.
Lemma keeps_mod g : (∀ p, P p → P (g p)) → keeps (modS g).
Proof. intros Hg p Hp a p' E. injection E as <- <-. by apply Hg. Qed.
Lemma keeps_pure {A} (m : prog Producer A) : (∀ p a p', m p = Ok (a, p') → p' = p) → keeps m.
Proof. intros Hm p Hp a p' E. by rewrite (Hm p a p' E). Qed.
Lemma keeps_get : keeps getS.
Proof. apply keeps_pure. intros p a p' E. by injection E. Qed.
Lemma keeps_ret {A} (a : A) : keeps (mret a).
Proof. apply keeps_pure. intros p b p' E. by injection E. Qed.
Lemma keeps_read {A} (g : Producer → A) : keeps (readS g).
Proof. apply keeps_pure. intros p b p' E. by injection E. Qed.
Lemma keeps_fail {A} f : keeps (failS (A := A) f).
Proof. by apply keeps_pure. Qed.
Lemma keeps_dcheck b : keeps (dcheckS b).
Proof. apply keeps_pure. intros p a p'. unfold dcheckS, liftO. destruct (dcheck b); [|done]. intros E. by injection E. Qed.
Lemma keeps_if {A} (b : bool) (m n : prog Producer A) : keeps m → keeps n → keeps (if b then m else n).
Proof. by destruct b. Qed.
Lemma keeps_allocator {A} (m : prog (@SharedBuffer.state St MS) A) : (∀ v p, P p → P (Transport.set_allocator v p)) → keeps (Transport.with_allocator m).
Proof. intros Ha p Hp a p' E. unfold Transport.with_allocator in E. destruct (m _) as [[x v]|]; [|done]. injection E as <- <-. by apply Ha. Qed.
End Producer.
Create HintDb sink.
#[export] Hint Resolve keeps_get keeps_ret keeps_read keeps_fail keeps_dcheck : sink.

(** Takes a call of the producer apart; what is left are its updates of members. *)
Ltac keeps_step :=
  lazymatch goal with
  | |- keeps _ (_ ≫= _) => apply keeps_bind; [|intros ?]
  | |- keeps _ (if _ then _ else _) => apply keeps_if
  | |- keeps _ (whenS _ _) => unfold whenS
  | |- keeps _ (modS _) => apply keeps_mod
  | |- keeps _ (Transport.with_allocator _) => apply keeps_allocator
  | |- keeps _ (match ?x with _ => _ end) => destruct x
  | |- _ => solve [eauto with sink]
  end.
Ltac keeps_tac := repeat keeps_step.

Section Calls.
Context {St : Type} `{RA : RegionAllocator St} `{MS : SharedBuffer.MojoSystem} `{BD : Build}.
Abbreviation Producer := (@Transport.MojoProducer St MS).

(** The first time stamp changes only with a flush and with a packet. *)
Section FirstPts.
Context (Q : Z → Prop).
Definition pts_in (p : Producer) : Prop := Q (Transport.first_pts_since_flush_ p).
Lemma SetState_pts st : keeps pts_in (Transport.SetState st).
Proof. apply keeps_mod. intros p Hp. by destruct (decide _). Qed.
Lemma send_pts m : keeps pts_in (Transport.send m).
Proof. unfold Transport.send. by keeps_tac. Qed.
Lemma signal_pts d : keeps pts_in (Transport.signal_demand d).
Proof. unfold Transport.signal_demand. by keeps_tac. Qed.
Hint Resolve SetState_pts send_pts signal_pts : sink.
Lemma PrimeConnection_pts cb : keeps pts_in (Transport.PrimeConnection cb).
Proof. unfold Transport.PrimeConnection, Transport.init_allocator. by keeps_tac. Qed.
Lemma PacketConsumed_pts packet : keeps pts_in (Transport.PacketConsumed packet).
Proof. unfold Transport.PacketConsumed. by keeps_tac. Qed.
Lemma run_task_pts : keeps pts_in Transport.run_task.
Proof. unfold Transport.run_task, Transport.SendPacket. by keeps_tac. Qed.
Lemma SupplyPacket_pts packet : Q (Transport.pts packet) → keeps pts_in (Transport.SupplyPacket packet).
Proof. intros HQ. unfold Transport.SupplyPacket, Transport.CreateMediaPacket. by keeps_tac. Qed.
End FirstPts.

(** Calls that report nothing. *)
Definition no_report (p : Producer) : Prop := Transport.statuses p = [].
Lemma send_quiet m : keeps no_report (Transport.send m).
Proof. unfold Transport.send. by keeps_tac. Qed.
Lemma signal_quiet d : keeps no_report (Transport.signal_demand d).
Proof. unfold Transport.signal_demand. by keeps_tac. Qed.
Hint Resolve send_quiet signal_quiet : sink.
Lemma FlushConnection_quiet cb : keeps no_report (Transport.FlushConnection cb).
Proof. unfold Transport.FlushConnection. by keeps_tac. Qed.
Lemma Connect_quiet cb : keeps no_report (Transport.Connect cb).
Proof. unfold Transport.Connect, Transport.init_allocator. by keeps_tac. Qed.
Lemma FlushConnection_pts cb p : after (Transport.FlushConnection cb) p (pts_in (λ x, x = Transport.kUnknownPts)).
Proof.
  unfold Transport.FlushConnection. do 4 (eapply (after_bind _ _ _ (λ _, True)); [done|intros ? ? _]).
  apply after_mod. by intros ? ? [= <- <-].
Qed.
Lemma Connect_pts (Q : Z → Prop) cb : keeps (pts_in Q) (Transport.Connect cb).
Proof. pose proof (send_pts Q). unfold Transport.Connect, Transport.init_allocator. by keeps_tac. Qed.
End Calls.
(** ** Events *)

Section Events.
Context {St : Type} `{RA : RegionAllocator St} `{MS : SharedBuffer.MojoSystem} `{MB : TypeConversions.MojoBindings} `{BD : Build}.
Context (decoder_create : StreamTypes.StreamType → option StreamTypes.StreamType).
Abbreviation Sink := (@MediaSinkImpl St MS).
Implicit Types s : Sink.

Definition rinv s : Prop := tinv s ∧ is_ready s.
Lemma SendUpdates_inv s : tinv s → runs SendUpdates s (λ _ s', tinv s' ∧ (is_ready s → is_ready s')).
Proof.
  intros Hi. destruct (SendUpdates_reports s) as (pub & rs & E & Hp); [apply Hi|]. exists tt. eexists. split; [exact E|].
  split; [by apply sinv_reported|done].
Qed.
Lemma set_target_inv t s : t = 0 ∨ t = 1 → tinv s → tinv (set_rates (rate_control_ s) (rate_ s) t s).
Proof. intros Ht [[Hr H1 H2 H3 H4 H5 H6 H7] Hn]. split; [|exact Hn]. split; try done; intros Hb; [destruct (H4 Hb)|destruct (H5 Hb)]; by split. Qed.

(** [Play] and [Pause] return, and set the rate if the producer is prepared. *)
Lemma set_rate_inv t s :
  t = 0 ∨ t = 1 → tinv s →
  runs (_ ← modS (λ s, set_rates (rate_control_ s) (rate_ s) t s); MaybeSetRate) s (λ _ s', tinv s' ∧ (is_ready s → is_ready s') ∧
    (MediaState_value PAUSED ≤ MediaState_value (producer_state_ s) → rate_ s' = t)).
Proof. intros Ht Hi. apply runs_mod. exact (MaybeSetRate_inv _ (set_target_inv t s Ht Hi)). Qed.

Lemma OnProducerStatus_inv st s : rinv s → runs (OnProducerStatus st) s (λ _, rinv).
Proof.
  intros [[[Hr H1 H2 H3 H4 H5 H6 H7] Ht] Ho]. unfold OnProducerStatus. apply runs_mod.
  assert (tinv (set_producer_state st s)) as Hi.
  { split; [|exact Ht]. unfold is_ready in Ho. split; try done; try (cbn; congruence); intros Hb; [destruct (H4 Hb)|destruct (H5 Hb)]; by split. }
  eapply runs_bind; [by apply SendUpdates_inv|]. intros _ s1 [Hi1 Ho1]. destruct (decide (st = ENDED)).
  - eapply runs_mono; [apply (set_rate_inv 0); [by left|done]|]. intros _ s2 (Hi2 & Ho2 & _). split; [done|]. by apply Ho2, Ho1.
  - apply runs_ret. split; [done|]. by apply Ho1.
Qed.
Lemma run_statuses_inv sts s : rinv s → runs (run_statuses sts) s (λ _, rinv).
Proof.
  revert s. induction sts as [|st sts IH]; intros s Hi; cbn [run_statuses]; [by apply runs_ret|].
  eapply runs_bind; [by apply OnProducerStatus_inv|]. intros ? s1 Hi1. by apply IH.
Qed.

(** A call of the producer, once the sink is ready. *)
Definition pts_fit s (x : Z) : Prop := rate_control_ s = true → pts_ok (frames_per_second_ s) x.
Lemma set_producer_inv p s :
  rinv s → pts_fit s (Transport.first_pts_since_flush_ p) → rinv (set_producer (clear_statuses p) s).
Proof.
  intros [[[Hr H1 H2 H3 H4 H5 H6 H7] Ht] Ho] Hp. split; [|done]. split; [|exact Ht]. unfold is_ready in Ho. split; try done.
  - intros Hb. destruct (H4 Hb). split; try done. by apply Hp.
  - intros Hb. destruct (H5 Hb). by split.
  - intros Hw. destruct (H7 Hw). congruence.
Qed.
Lemma with_producer_inv {A} (m : prog (@Transport.MojoProducer St MS) A) s :
  rinv s → keeps (pts_in (pts_fit s)) m → after (with_producer m) s rinv.
Proof.
  intros Hi Hm. unfold with_producer. apply (after_bind _ _ _ rinv).
  - intros a s' E. unfold producer_call in E. destruct (m (producer_ s)) as [[x p]|] eqn:Em; [|done]. injection E as <- <-.
    apply set_producer_inv; [done|]. apply (Hm _ ltac:(intros Hb; apply (sv_bound _ (proj1 (proj1 Hi)) Hb)) _ _ Em).
  - intros sts s' Hi'. by apply after_runs, run_statuses_inv.
Qed.
(** One that reports nothing, at any time. *)
Lemma with_producer_quiet {A} (m : prog (@Transport.MojoProducer St MS) A) s (Q : Z → Prop) :
  Transport.statuses (producer_ s) = [] → keeps no_report m → after m (producer_ s) (pts_in Q) →
  after (with_producer m) s (λ s', ∃ p, s' = set_producer p s ∧ Transport.statuses p = [] ∧ Q (Transport.first_pts_since_flush_ p)).
Proof.
  intros Hs Hm HQ [] s' (sts & s1 & E & E')%prog_bind_Ok. unfold producer_call in E.
  destruct (m (producer_ s)) as [[x p]|] eqn:Em; [|done]. injection E as <- <-.
  rewrite (Hm _ Hs _ _ Em) in E'. injection E' as <-. eexists. split; [done|]. split; [done|]. exact (HQ _ _ Em).
Qed.

Lemma run_consequence_inv c s : rinv s → after (run_consequence c) s rinv.
Proof.
  intros Hi. destruct c as [cb|o cb]; cbn [run_consequence].
  { apply with_producer_inv; [done|]. apply PrimeConnection_pts. }
  apply after_mod. eapply after_bind.
  { apply (with_producer_quiet _ _ (λ x, x = Transport.kUnknownPts)); [apply Hi|apply FlushConnection_quiet|apply FlushConnection_pts]. }
  intros _ s1 (p & -> & Hst & Hp). destruct Hi as [[[Hr H1 H2 H3 H4 H5 H6 H7] Ht] Ho]. unfold is_ready in Ho.
  intros [] s' [= <-]. split; [|exact Ho]. split; [|exact Ht]. split; try done.
  - intros Hb. destruct (H4 Hb) as [Pf Pl Pp Po Pc Pr Ps]. split; try done.
    + by left.
    + left. cbn -[line_after]. by rewrite line_after_app.
    + by apply continuous_app.
    + by apply Forall_app_2; [|constructor].
    + cbn -[last_quad]. by rewrite last_quad_app.
  - intros Hb. destruct (H5 Hb). split; try done. by apply Forall_app_2; [|constructor].
  - intros Hw. destruct (H7 Hw). congruence.
Qed.
Lemma sink_run_all_inv cs s : rinv s → after (run_all run_consequence cs) s rinv.
Proof.
  revert s. induction cs as [|c cs IH]; intros s Hi; cbn [run_all]; [by intros ? ? [= <- <-]|].
  eapply after_bind; [by apply run_consequence_inv|]. intros ? s1 Hi1. by apply IH.
Qed.
Lemma ready_when_inv c s : tinv s → after (ready_when c) s tinv.
Proof.
  intros Hi. unfold ready_when, When. apply after_get. destruct (occurred_ (ready_ s)) eqn:Eo.
  { eapply after_mono; [by apply run_consequence_inv|]. by intros s' []. }
  intros [] s' [= <-]. destruct Hi as [[Hr H1 H2 H3 H4 H5 H6 H7] Ht]. split; [|exact Ht].
  split; try done; intros Hb; [destruct (H4 Hb)|destruct (H5 Hb)| |destruct (H7 Hb)]; try (by split); auto.
Qed.
Lemma ready_occur_inv s : tinv s → ¬ awaits_types s → after ready_occur s rinv.
Proof.
  intros Hi Hn. unfold ready_occur, Occur. apply after_get. destruct (occurred_ (ready_ s)) eqn:Eo.
  { by intros [] s' [= <-]. }
  apply after_mod. apply sink_run_all_inv. destruct Hi as [[Hr H1 H2 H3 H4 H5 H6 H7] Ht]. split; [|done]. split; [|exact Ht].
  split; try done; intros Hb; [destruct (H4 Hb)|destruct (H5 Hb)]; by split.
Qed.

(** ** Before there is a rate control *)

Record fresh s : Prop := {
  fr_inv : tinv s;
  fr_ready : occurred_ (ready_ s) = false;
  fr_unbound : rate_control_ s = false;
  fr_pts : first_pts s = Transport.kUnknownPts;
  fr_awaits : awaits s = None;
}.
Ltac rebuild Hi :=
  destruct Hi as [[[Hr H1 H2 H3 H4 H5 H6 H7] Ht] Ho Hb Hp Ha]; split; try done; split; try done; split; try done;
  intros Hb'; first [destruct (H5 Hb); by split | exfalso; cbn in Hb'; congruence | destruct Hb' as (? & ? & ? & ?); cbn in *; congruence].
Lemma fresh_graph g s : fresh s → fresh (set_graph g s).
Proof. intros Hi. rebuild Hi. Qed.
Lemma fresh_output o s : fresh s → fresh (set_output o s).
Proof. intros Hi. rebuild Hi. Qed.
Lemma fresh_producer p s :
  Transport.statuses p = [] → Transport.first_pts_since_flush_ p = Transport.kUnknownPts → fresh s → fresh (set_producer p s).
Proof. intros Hs Hq Hi. rebuild Hi. Qed.
Lemma fresh_frames n s : fresh s → fresh (set_frames_per_second n s).
Proof. intros Hi. rebuild Hi. Qed.
Lemma fresh_types c p t s : fresh s → tinv (set_awaits (Some (OnSupportedTypes c p t)) s).
Proof.
  intros [[[Hr H1 H2 H3 H4 H5 H6 H7] Ht] Ho Hb Hp Ha]. split; [|done]. split; try done; intros Hb'; [destruct (H4 Hb')|destruct (H5 Hb')]; by split.
Qed.
Lemma fresh_call c s : not_quad c → fresh s → fresh (add_call c s).
Proof.
  intros Hc Hi. destruct Hi as [[[Hr H1 H2 H3 H4 H5 H6 H7] Ht] Ho Hb Hp Ha]. split; try done. split; [|done]. split; try done.
  - intros Hb'. cbn in Hb'. congruence.
  - intros _. destruct (H5 Hb). split; try done. apply Forall_app_2; [done|by constructor].
Qed.

Lemma fresh_no_types s : fresh s → ¬ awaits_types s.
Proof. intros Hi (? & ? & ? & E). by rewrite (fr_awaits _ Hi) in E. Qed.

Lemma after_graph {A B} (m : prog ConversionPipeline.G A) (k : A → prog Sink B) s Q :
  (∀ a g, after (k a) (set_graph g s) Q) → after (with_graph m ≫= k) s Q.
Proof.
  intros Hk b s'' (a & s' & E & E')%prog_bind_Ok. unfold with_graph in E. destruct (m (graph_ s)) as [[x g]|]; [|done].
  injection E as <- <-. by eapply Hk.
Qed.
Lemma after_dcheck {B} b (k : unit → prog Sink B) s Q : after (k tt) s Q → after (dcheckS b ≫= k) s Q.
Proof. intros Hk. unfold dcheckS. apply after_lift. by intros []. Qed.
Lemma after_quiet {A B} (m : prog (@Transport.MojoProducer St MS) A) (k : unit → prog Sink B) s Q :
  fresh s → keeps no_report m → keeps (pts_in (λ x, x = Transport.kUnknownPts)) m →
  (∀ p, fresh (set_producer p s) → after (k tt) (set_producer p s) Q) → after (with_producer m ≫= k) s Q.
Proof.
  intros Hi Hm Hp Hk. eapply after_bind.
  - apply (with_producer_quiet _ _ (λ x, x = Transport.kUnknownPts)); [apply Hi|done|]. apply (Hp _ (fr_pts _ Hi)).
  - intros [] s' (p & -> & Hs & Hq). apply Hk. by apply fresh_producer.
Qed.

Definition started url mt allocator s : Prop := MediaSinkImpl_construct url mt (new_sink allocator) = Ok (tt, s).
Lemma construct_inv url mt allocator : after (MediaSinkImpl_construct url mt) (new_sink allocator) tinv.
Proof.
  unfold MediaSinkImpl_construct. do 2 apply after_dcheck. apply after_mod. cbv beta.
  set (s0 := set_publisher _ _). assert (fresh s0) as Hi.
  { split; try done. split; [|by vm_compute]. split; try done; try by left. }
  clearbody s0. apply after_graph. intros c g. apply after_graph. intros q g'.
  apply after_quiet; [by do 2 apply fresh_graph|by apply keeps_mod|by apply keeps_mod|]. intros p1 Hi1.
  apply after_graph. intros o g''. apply after_mod.
  apply after_quiet; [by apply fresh_output, fresh_graph|by apply keeps_mod|by apply keeps_mod|]. intros p2 Hi2.
  destruct (bool_decide _).
  - apply after_graph. intros _ g3. apply after_mod.
    pose proof (fresh_call Graph_Prepare _ I (fresh_graph g3 _ Hi2)) as Hi3.
    eapply after_mono; [apply ready_occur_inv; [apply Hi3|by apply fresh_no_types]|by intros ? []].
  - destruct (negb _); [done|]. apply after_lift. intros t. apply after_mod. intros [] s' [= <-].
    apply fresh_types. by apply (fresh_call Track_Describe).
Qed.

(** ** Binding the rate control *)

Definition fps_ok s : Prop := rate_control_ s = true → 0 < frames_per_second_ s < 2 ^ 24.
Lemma silent_log cs : Forall not_quad cs → line_after cs = None ∧ last_quad cs = None ∧ continuous None cs ∧ ∀ fps, Forall (quad_rate fps) cs.
Proof.
  induction cs as [|c cs IH] using rev_ind; intros Hq; [by split_and!; try constructor|].
  apply Forall_app in Hq as [Hq Hc]. inversion_clear Hc as [|? ? Hn _]. destruct (IH Hq) as (El & Ed & Ec & Er).
  rewrite line_after_app, last_quad_app, continuous_app, El, Ed. fold (line_after cs). rewrite El.
  split_and!; try done; try by destruct c. intros fps. apply Forall_app_2; [done|]. constructor; [by destruct c|done].
Qed.
Lemma bind_inv p s :
  fresh s → Transport.statuses p = [] → Transport.first_pts_since_flush_ p = Transport.kUnknownPts → 0 < frames_per_second_ s < 2 ^ 24 →
  tinv (set_awaits (Some OnConnected) (set_producer p (set_rates true (rate_ s) (target_rate_ s) s))).
Proof.
  intros [[[Hr H1 H2 H3 H4 H5 H6 H7] Ht] Ho Hb Hp Ha] Hs Hq Hf. destruct (H5 Hb) as [Sc St' Ss]. destruct (H6 Ho) as [Hst H0].
  destruct (silent_log _ Sc) as (El & Ed & Ec & Er). split; [|exact Ht]. split; try done; try by intros (? & ? & ? & ?).
  intros _. split; cbn -[line_after last_quad kHorizon]; try done.
  - rewrite St', H0. unfold on_line. rewrite Z.mul_0_r. split; [by split_and!; vm_compute|]. split; [by vm_compute|]. unfold in_time, kHorizon. cbn. lia.
  - by left.
  - by left.
  - by rewrite Ed.
Qed.

Lemma OnConfigured_inv s : fresh s → after OnConfigured s (λ s', fps_ok s' → tinv s').
Proof.
  intros Hi. unfold OnConfigured. apply after_mod. eapply after_bind.
  { apply (with_producer_quiet _ _ (λ x, x = Transport.kUnknownPts)); [apply Hi|apply Connect_quiet|]. apply Connect_pts, (fr_pts _ Hi). }
  intros _ s1 (p & -> & Hs & Hq) [] s' [= <-] Hf. by apply bind_inv, (Hf eq_refl).
Qed.
Lemma SupportedTypes_inv c p t types s : fresh s → after (SupportedTypes decoder_create c p t types) s (λ s', fps_ok s' → tinv s').
Proof.
  intros Hi. unfold SupportedTypes. apply after_graph. intros out g. destruct t as [t|]; [|done].
  apply after_graph. intros [[result out'] pt] g'. pose proof (fresh_graph g' _ (fresh_graph g _ Hi)) as Hi1.
  set (s1 := set_graph g' (set_graph g s)) in *. clearbody s1. destruct result; cbn [negb].
  - apply after_graph. intros _ g3. pose proof (fresh_graph g3 _ Hi1) as Hi2. set (s2 := set_graph g3 s1) in *. clearbody s2.
    destruct pt as [t'|]; [|done].
    apply (after_bind _ _ _ fresh).
    { destruct (StreamTypes.medium t'), (StreamTypes.audio t'); try done. intros [] s' [= <-]. by apply fresh_frames. }
    intros _ s3 Hi3. unfold Configure. apply after_lift. intros mt. do 2 apply after_mod.
    by apply OnConfigured_inv, (fresh_call Track_GetRateControl), (fresh_call (Track_Configure mt)).
  - apply after_mod. eapply after_mono; [apply after_runs, SendUpdates_inv|by intros s' []].
    destruct Hi1 as [[[Hr H1 H2 H3 H4 H5 H6 H7] Ht] Ho Hb Hp Ha]. split; [|exact Ht]. split; try done.
    + intros Hb'. cbn in Hb'. congruence.
    + intros _. destruct (H5 Hb). by split.
    + intros _. split; [by vm_compute|]. by apply H6.
Qed.
Lemma Connected_inv s : tinv s → ¬ awaits_types s → after Connected s tinv.
Proof.
  intros Hi Hn. unfold Connected. apply after_mod. eapply after_bind.
  - apply ready_occur_inv; [|exact Hn]. destruct Hi as [[Hr H1 H2 H3 H4 H5 H6 H7] Ht]. split; [|exact Ht]. split; try done.
    + intros Hb. destruct (H4 Hb) as [Pf Pl Pp Po Pc Pr Ps]. split; cbn -[line_after last_quad]; try done.
      * by rewrite line_after_app.
      * by apply continuous_app.
      * by apply Forall_app_2; [|constructor].
      * by rewrite last_quad_app.
    + intros Hb. destruct (H5 Hb). split; try done. by apply Forall_app_2; [|constructor].
  - intros [] s1 [Hi1 _]. eapply after_mono; [by apply after_runs, MaybeSetRate_inv|]. by intros s' (? & _).
Qed.

(** ** Steps *)

(** What may happen at time [now]: the clock does not go back, the producer is only used when
    the sink is ready, and time stamps are in range. *)
Definition allowed (now : Z) (e : event) s : Prop :=
  a_zero (transform_ s) ≤ now + kLeadTime < kHorizon ∧
  match e with
  | ESupplyPacket packet => is_ready s ∧ pts_fit s (Transport.pts packet)
  | EProducerTask | EPacketConsumed _ => is_ready s
  | _ => True
  end.
Inductive sink_step : Sink → Sink → Prop :=
  | sink_event now e s s' : allowed now e s → handle decoder_create now e s = Ok (tt, s') → fps_ok s' → sink_step s s'.

Lemma set_now_inv now s : a_zero (transform_ s) ≤ now + kLeadTime < kHorizon → tinv s → tinv (set_now now s).
Proof. intros Hn [[Hr H1 H2 H3 H4 H5 H6 H7] Ht]. split; [|exact Hn]. split; try done; intros Hb; [destruct (H4 Hb)|destruct (H5 Hb)]; by split. Qed.
Lemma set_awaits_inv s : tinv s → tinv (set_awaits None s) ∧ ¬ awaits_types (set_awaits None s).
Proof.
  intros [[Hr H1 H2 H3 H4 H5 H6 H7] Ht]. split; [|by intros (? & ? & ? & ?)]. split; [|exact Ht]. split; try done; try by intros (? & ? & ? & ?).
  all: by (intros Hb; first [destruct (H4 Hb)|destruct (H5 Hb)]; split).
Qed.
Lemma types_fresh s : tinv s → awaits_types s → fresh (set_awaits None s).
Proof. intros Hi Ha. destruct (sv_types _ (proj1 Hi) Ha) as (Ho & Hb & Hp). by destruct (set_awaits_inv s Hi). Qed.

Lemma sink_step_inv s s' : tinv s → sink_step s s' → tinv s'.
Proof.
  intros Hi Hs. destruct Hs as [now e s s' [Hn Ha] E Hf]. unfold handle in E.
  pose proof (set_now_inv now s Hn Hi) as Hi1. change (handle_event decoder_create e (set_now now s) = Ok (tt, s')) in E.
  assert (is_ready s → rinv (set_now now s)) as Hrdy by done.
  assert (pts_fit (set_now now s) = pts_fit s) as Hfit by done.
  set (s1 := set_now now s) in *. assert (awaits s1 = awaits s) as Ea by done. clearbody s1. clear Hi Hn.
  destruct e; cbn [handle_event] in E.
  - by eapply (after_runs _ _ tinv); [eapply runs_mono; [apply (set_rate_inv 1); [by right|done]|by intros ? ? []]|exact E].
  - by eapply (after_runs _ _ tinv); [eapply runs_mono; [apply (set_rate_inv 0); [by left|done]|by intros ? ? []]|exact E].
  - destruct (GetStatus_reports version_last_seen callback s1) as (pub & rs & E' & Hp); [apply Hi1|].
    rewrite E' in E. injection E as <-. by apply sinv_reported.
  - by eapply ready_when_inv.
  - by eapply (ready_when_inv (RunFlush (consumer_output s1) callback)).
  - eapply (with_producer_inv (Transport.SupplyPacket packet)); [by apply Hrdy, Ha| |exact E]. apply SupplyPacket_pts. rewrite Hfit. apply Ha.
  - eapply (with_producer_inv Transport.run_task); [by apply Hrdy| |exact E]. apply run_task_pts.
  - eapply (with_producer_inv (Transport.PacketConsumed packet)); [by apply Hrdy| |exact E]. apply PacketConsumed_pts.
  - change ((match awaits s1 with Some (OnSupportedTypes c p t) => _ ← modS (set_awaits None); SupportedTypes decoder_create c p t supported_stream_types | _ => mret tt end) s1 = Ok (tt, s')) in E.
    destruct (awaits s1) as [[c p t|]|] eqn:Et; [|by injection E as <-|by injection E as <-].
    apply (SupportedTypes_inv c p t supported_stream_types (set_awaits None s1)) in E; [by apply E|]. apply types_fresh; [done|]. by exists c, p, t.
  - change ((match awaits s1 with Some OnConnected => _ ← modS (set_awaits None); Connected | _ => mret tt end) s1 = Ok (tt, s')) in E.
    destruct (awaits s1) as [[c p t|]|] eqn:Et; [by injection E as <-| |by injection E as <-].
    destruct (set_awaits_inv s1 Hi1). by eapply Connected_inv.
Qed.
Lemma sink_steps_inv s s' : rtc sink_step s s' → tinv s → tinv s'.
Proof. induction 1 as [|s s1 s2 Hs _ IH]; [done|]. intros Hi. by eapply IH, sink_step_inv. Qed.

(** The rate control that receives a quad of a sink has the sink's transform. *)
Lemma quad_received now q fps rc :
  is_tick fps (scale (quad_line q)) → ∃ rc', RateControl.SetCurrentQuad now q rc = Ok rc' ∧ RateControl.current rc' = quad_line q.
Proof.
  intros Hk. unfold RateControl.SetCurrentQuad. pose proof Hk as [(Hn & Hd & Hd0 & Hg) _]. cbn in Hn, Hd, Hd0, Hg.
  rewrite (proj2 (Z.eqb_neq _ 0)) by done. destruct (Z.eqb_spec (RateControl.reference_delta q) 0) as [E|E]; cbn [negb].
  - rewrite E, Z.gcd_0_l in Hg. unfold is_u in Hd. eexists. split; [done|]. cbn. unfold quad_line. do 2 f_equal; [done|lia].
  - rewrite ratio_new_coprime by done. eexists. split; [done|]. done.
Qed.

(** C12. However calls of clients, requests of the consumer, packets and replies are ordered,
    while the clock does not go back: playing and pausing a sink returns, and sets its rate
    if its producer is prepared; every quad that it sends begins where the one before it had
    taken media time, unless the graph was flushed between, and runs at the rate of the
    stream or stands still; the rate control that receives the last quad has the sink's
    transform, which runs exactly if the sink plays; and the status that clients see is the
    same line, with media time rounded down to local units. *)
Theorem sink_timeline url mt allocator s0 s :
  started url mt allocator s0 → rtc sink_step s0 s →
  (∀ now (play : bool), allowed now (if play then EPlay else EPause) s →
     ∃ s', handle decoder_create now (if play then EPlay else EPause) s = Ok (tt, s') ∧
       (MediaState_value PAUSED ≤ MediaState_value (producer_state_ s) → rate_ s' = Z.b2z play)) ∧
  (rate_control_ s = true →
     continuous None (calls s) ∧ Forall (quad_rate (frames_per_second_ s)) (calls s) ∧
     is_tick (frames_per_second_ s * rate_ s) (scale (transform_ s)) ∧
     ∀ q, last_quad (calls s) = Some q →
       (∀ now rc, ∃ rc', RateControl.SetCurrentQuad now q rc = Ok rc' ∧ RateControl.current rc' = transform_ s) ∧
       status_transform_ s = Some (RateControl.mk_quad (b_zero (transform_ s) * period_den / frames_per_second_ s)
         (a_zero (transform_ s)) (rate_ s) 1)).
Proof.
  intros H0 Hs. assert (tinv s) as Hi by (eapply sink_steps_inv; [exact Hs|exact (construct_inv _ _ _ _ _ H0)]). split.
  - intros now play [Hn _]. pose proof (set_now_inv now s Hn Hi) as Hi1.
    assert (Z.b2z play = 0 ∨ Z.b2z play = 1) as Hp by (destruct play; [by right|by left]).
    destruct (set_rate_inv _ _ Hp Hi1) as ([] & s' & E & _ & _ & Hr). exists s'. split; [by destruct play|exact Hr].
  - intros Hb. destruct (sv_bound _ (proj1 Hi) Hb) as [Pf Pl Pp Po Pc Pr Ps]. split_and!; [done|done|apply Pl|].
    intros q Hq. rewrite Hq in Ps. destruct Ps as [El Es]. split; [|exact Es].
    intros now rc. rewrite <- El. apply (quad_received now q (frames_per_second_ s * rate_ s)). rewrite El. apply Pl.
Qed.

End Events.

(** ** A sink at 48000 frames per second *)

Section Example.
#[local] Existing Instance debug_build.
#[local] Existing Instance SharedBuffer.sample_system.
#[local] Existing Instance TypeConversions.sample_bindings.

Abbreviation ExampleSink := (@MediaSinkImpl FifoAllocator.state SharedBuffer.sample_system).
Definition no_decoder (t : StreamTypes.StreamType) : option StreamTypes.StreamType := None.
Definition lpcm_type : TypeConversions.MediaType :=
  TypeConversions.mk_media_type TypeConversions.AUDIO
    (TypeConversions.details_audio (TypeConversions.mk_audio_details TypeConversions.SIGNED_16 2 48000)) "lpcm" None.
Definition track_types : list (option StreamTypes.StreamTypeSet) :=
  [Some (StreamTypes.AudioStreamTypeSet_Create ["lpcm"%string] StreamTypes.FAny (StreamTypes.mk_range 1 2) (StreamTypes.mk_range 8000 96000))].
Definition run_event (s : ExampleSink) (e : Z * event) : ExampleSink :=
  match handle no_decoder e.1 e.2 s with Ok (_, s') => s' | Fault _ => s end.
Definition example_start : ExampleSink :=
  match MediaSinkImpl_construct (Some "mojo:audio_server"%string) (Some lpcm_type) (new_sink SharedBuffer.sample) with
  | Ok (_, s) => s | Fault _ => new_sink SharedBuffer.sample
  end.
Definition first_packet : Transport.Packet := Transport.mk_packet 1000 false 30 4096 true.
Definition playing_events : list (Z * event) :=
  [(0, ESupportedTypes track_types); (0, EConnected); (0, EPrimeRequested 7); (0, ESupplyPacket first_packet);
   (1000000000, EPlay); (3000000000, EPause); (4000000000, EPlay)].
Definition example_sink : ExampleSink := foldl run_event example_start playing_events.
Definition quads (s : ExampleSink) : list RateControl.quad :=
  omap (λ c, match c with RateControl_SetCurrentQuad q => Some q | _ => None end) (calls s).
Example example_quads : quads example_sink =
  [RateControl.mk_quad 1000 1030000000 3 62500; RateControl.mk_quad 97000 3030000000 0 1; RateControl.mk_quad 97000 4030000000 3 62500].
Proof. vm_compute. reflexivity. Qed.

(** A run is checked event by event. *)
Definition allowed_b (e : Z * event) (s : ExampleSink) : bool :=
  (a_zero (transform_ s) <=? e.1 + kLeadTime) && (e.1 + kLeadTime <? kHorizon) &&
  match e.2 with
  | ESupplyPacket packet =>
      occurred_ (ready_ s) && (0 <=? Transport.pts packet) &&
      (Transport.pts packet * period_den <=? frames_per_second_ s * kHorizon)
  | EProducerTask | EPacketConsumed _ => occurred_ (ready_ s)
  | _ => true
  end.
Definition fps_ok_b (s : ExampleSink) : bool :=
  negb (rate_control_ s) || ((0 <? frames_per_second_ s) && (frames_per_second_ s <? 2 ^ 24)).
Fixpoint run_ok (es : list (Z * event)) (s : ExampleSink) : bool :=
  match es with
  | [] => true
  | e :: es => allowed_b e s && is_ok (handle no_decoder e.1 e.2 s) && fps_ok_b (run_event s e) && run_ok es (run_event s e)
  end.
Lemma allowed_b_sound e s : allowed_b e s = true → allowed e.1 e.2 s.
Proof.
  destruct e as [now e]. unfold allowed_b, allowed. cbn [fst snd]. intros [[H1 H2]%andb_prop H3]%andb_prop. split; [lia|].
  destruct e; try done. apply andb_prop in H3 as [[H3 H4]%andb_prop H5]. split; [exact H3|]. intros _. right. lia.
Qed.
Lemma run_ok_steps es s : run_ok es s = true → rtc (sink_step no_decoder) s (foldl run_event s es).
Proof.
  revert s. induction es as [|e es IH]; intros s; cbn [run_ok foldl]; [constructor|].
  intros [[[Ha%allowed_b_sound Hk]%andb_prop Hf]%andb_prop Hr]%andb_prop. eapply rtc_l; [|by apply IH].
  unfold run_event in *. destruct (handle no_decoder e.1 e.2 s) as [[[] s']|] eqn:E; [|done]. apply (sink_event _ _ _ _ _ Ha E).
  intros Hb. unfold fps_ok_b in Hf. rewrite Hb in Hf. cbn [negb orb] in Hf. apply andb_prop in Hf. lia.
Qed.
Lemma example_run : started (Some "mojo:audio_server"%string) (Some lpcm_type) SharedBuffer.sample example_start.
Proof.
  assert (is_ok (MediaSinkImpl_construct (Some "mojo:audio_server"%string) (Some lpcm_type) (new_sink SharedBuffer.sample)) = true)
    as Hk by (vm_compute; reflexivity).
  unfold started, example_start. by destruct (MediaSinkImpl_construct _ _ _) as [[[] s]|].
Qed.

Lemma sink_timeline_witness :
  continuous None (calls example_sink) ∧ status_transform_ example_sink = Some (RateControl.mk_quad 2020833333 4030000000 1 1).
Proof.
  destruct (sink_timeline no_decoder _ _ _ _ _ example_run
    (run_ok_steps playing_events example_start ltac:(vm_compute; reflexivity))) as [_ Hb].
  destruct Hb as (Hc & _ & _ & Hq); [vm_compute; reflexivity|]. split; [exact Hc|].
  destruct (Hq (RateControl.mk_quad 97000 4030000000 3 62500)) as [_ E]; [vm_compute; reflexivity|].
  refine (eq_trans E _). vm_compute. reflexivity.
Defined.

(** A sink for an unknown destination cannot be refused: its owner cannot release it yet. *)
Example unknown_destination :
  match MediaSinkImpl_construct (Some "mojo:video_server"%string) (Some lpcm_type) (new_sink SharedBuffer.sample) with
  | Fault UndefinedBehaviour => true | _ => false end = true.
Proof. vm_compute. reflexivity. Qed.
(** Playing a sink that is connected but not primed does nothing, and priming it later does
    not make up for it. *)
Example play_lost :
  let s := foldl run_event example_start [(0, ESupportedTypes track_types); (0, EConnected); (0, EPlay); (0, EPrimeRequested 7)] in
  producer_state_ s = PAUSED ∧ rate_ s = 0 ∧ target_rate_ s = 1.
Proof. vm_compute. done. Qed.
(** Playing a sink before it is ready starts it at media time 0 rather than with the first
    packet, and counts as the start. *)
Example start_lost :
  let s := foldl run_event example_start
    [(0, ESupportedTypes track_types); (0, EPrimeRequested 7); (0, EPlay); (0, EConnected); (0, ESupplyPacket first_packet)] in
  quads s = [RateControl.mk_quad 0 30000000 3 62500] ∧ first_pts s = 1000 ∧ flushed_ s = false.
Proof. vm_compute. done. Qed.
End Example.
End MediaSinkRun.
