(* ===== verification/Player.v ===== *)
(** The media player of the factory service
    (services/media/factory_service/media_player_impl.cc and .h).

    The player drives a demux and, for each enabled stream, an optional decoder and a sink,
    all of them remote objects: a call is recorded in [calls], and a callback that a remote
    object will run is recorded as awaited, with the demux or with the stream it belongs to.
    [handle] runs the callback or the client's call that an [event] stands for.

    Timeline transforms and metadata are only passed on, so their types are parameters. *)

From stdpp Require Export strings.
From S2P Require Import Prelude MediaStates Incident Publisher.
Import MediaStates Incident Publisher.

Module Player.

(** ** Interface types (media_types.mojom) *)

Inductive MediaTypeMedium := AUDIO | VIDEO | TEXT | SUBPICTURE.
Record MediaType := mk_media_type { medium : MediaTypeMedium; encoding : string }.
Definition kAudioEncodingLpcm : string := "lpcm".
Definition kVideoEncodingUncompressed : string := "uncompressed_video".
Definition kInitialStatus : Z := 0.
Definition kInitialMetadata : Z := 0.

(** Takes the first occurrence of an element out of a list. *)
Fixpoint remove_one {A} `{EqDecision A} (x : A) (l : list A) : list A :=
  match l with
  | [] => []
  | y :: l => if decide (x = y) then l else y :: remove_one x l
  end.

(** ** The player's data *)

Definition kNotSeeking : Z := max_s64.
Inductive State := kWaiting | kPaused | kWaitingForSinksToPlay | kPlaying | kWaitingForSinksToPause.
#[export] Instance State_eq_dec : EqDecision State.
Proof. solve_decision. Defined.
Inductive SinkState := SinkPaused | SinkPlaying | SinkEnded | SinkPausedOrEnded | SinkPlayingOrEnded.

(** What is called when a sink is connected: the join of the stream's operations, when
    there is a decoder, or that of all streams. *)
Inductive completion := StreamJoiner | MainJoiner.

(** Callbacks that remote objects will run. *)
Inductive stream_callback := OnEncodedConnected | OnOutputType | OnSinkConnected (c : completion) | OnSinkStatus.
Inductive demux_callback := OnDescribe | OnMetadata | OnPrimed | OnFlushed | OnSought.
#[export] Instance completion_eq_dec : EqDecision completion.
Proof. solve_decision. Defined.
#[export] Instance stream_callback_eq_dec : EqDecision stream_callback.
Proof. solve_decision. Defined.
#[export] Instance demux_callback_eq_dec : EqDecision demux_callback.
Proof. solve_decision. Defined.

(** [MediaPlayerImpl::Stream], with the joiner of its preparation and the callbacks that its
    remote objects hold.  Interface pointers are bound or not. *)
Record Stream := mk_stream {
  index_ : nat;
  enabled_ : bool;
  sink_state : MediaState;
  media_type_ : MediaType;
  decoder_ : bool;
  sink_ : bool;
  encoded_producer_ : bool;
  decoded_producer_ : bool;
  joiner : CallbackJoiner unit;
  awaiting : list stream_callback;
}.
Definition new_stream (i : nat) (mt : MediaType) : Stream :=
  mk_stream i false UNPREPARED mt false false false false new_joiner [].

(** Calls of remote objects, those of a stream's objects with its index. *)
Inductive call :=
  | Factory_CreateDemux | Factory_CreateDecoder (i : nat) (mt : MediaType)
  | Factory_CreateSink (i : nat) (url : string) (mt : MediaType)
  | Demux_Describe | Demux_GetMetadata (version : Z) | Demux_GetProducer (i : nat)
  | Demux_Prime | Demux_Flush | Demux_Seek (position : Z)
  | Decoder_GetConsumer (i : nat) | Decoder_GetOutputType (i : nat) | Decoder_GetProducer (i : nat)
  | Encoded_Connect (i : nat) | Decoded_Connect (i : nat)
  | Sink_GetConsumer (i : nat) | Sink_GetStatus (i : nat) (version : Z) | Sink_Play (i : nat) | Sink_Pause (i : nat).
#[export] Instance MediaTypeMedium_eq_dec : EqDecision MediaTypeMedium.
Proof. solve_decision. Defined.
#[export] Instance MediaType_eq_dec : EqDecision MediaType.
Proof. solve_decision. Defined.
#[export] Instance call_eq_dec : EqDecision call.
Proof. solve_decision. Defined.

Section Player.
Context {T M : Type}.

(** A status as the callback runner sends it. *)
Record MediaPlayerStatus := mk_status { status_state : MediaState; status_transform : option T; status_metadata : option M }.

(** The fields that [Update] and the client's calls change. *)
Record Control := mk_control {
  state_ : State;
  flushed_ : bool;
  reported_media_state_ : MediaState;
  target_state_ : MediaState;
  target_position_ : Z;
}.
Record MediaPlayer := mk_player {
  factory_ : bool;
  streams_ : list Stream;
  control : Control;
  transform_ : option T;
  metadata_ : option M;
  status_publisher_ : MojoPublisher nat;
  callback_joiner : CallbackJoiner unit;
  demux_awaiting : list demux_callback;
  calls : list call;
  replies : list (nat * Z * MediaPlayerStatus);
}.

Definition set_factory v p := mk_player v (streams_ p) (control p) (transform_ p) (metadata_ p) (status_publisher_ p)
  (callback_joiner p) (demux_awaiting p) (calls p) (replies p).
Definition set_streams v p := mk_player (factory_ p) v (control p) (transform_ p) (metadata_ p) (status_publisher_ p)
  (callback_joiner p) (demux_awaiting p) (calls p) (replies p).
Definition set_control v p := mk_player (factory_ p) (streams_ p) v (transform_ p) (metadata_ p) (status_publisher_ p)
  (callback_joiner p) (demux_awaiting p) (calls p) (replies p).
Definition set_transform v p := mk_player (factory_ p) (streams_ p) (control p) v (metadata_ p) (status_publisher_ p)
  (callback_joiner p) (demux_awaiting p) (calls p) (replies p).
Definition set_metadata v p := mk_player (factory_ p) (streams_ p) (control p) (transform_ p) v (status_publisher_ p)
  (callback_joiner p) (demux_awaiting p) (calls p) (replies p).
Definition set_publisher v p := mk_player (factory_ p) (streams_ p) (control p) (transform_ p) (metadata_ p) v
  (callback_joiner p) (demux_awaiting p) (calls p) (replies p).
Definition set_joiner v p := mk_player (factory_ p) (streams_ p) (control p) (transform_ p) (metadata_ p) (status_publisher_ p)
  v (demux_awaiting p) (calls p) (replies p).
Definition set_demux_awaiting v p := mk_player (factory_ p) (streams_ p) (control p) (transform_ p) (metadata_ p)
  (status_publisher_ p) (callback_joiner p) v (calls p) (replies p).
Definition add_call c p := mk_player (factory_ p) (streams_ p) (control p) (transform_ p) (metadata_ p) (status_publisher_ p)
  (callback_joiner p) (demux_awaiting p) (calls p ++ [c]) (replies p).
Definition add_reply r p := mk_player (factory_ p) (streams_ p) (control p) (transform_ p) (metadata_ p) (status_publisher_ p)
  (callback_joiner p) (demux_awaiting p) (calls p) (r :: replies p).

Definition set_state v p := let c := control p in
  set_control (mk_control v (flushed_ c) (reported_media_state_ c) (target_state_ c) (target_position_ c)) p.
Definition set_flushed v p := let c := control p in
  set_control (mk_control (state_ c) v (reported_media_state_ c) (target_state_ c) (target_position_ c)) p.
Definition set_reported v p := let c := control p in
  set_control (mk_control (state_ c) (flushed_ c) v (target_state_ c) (target_position_ c)) p.
Definition set_target_state v p := let c := control p in
  set_control (mk_control (state_ c) (flushed_ c) (reported_media_state_ c) v (target_position_ c)) p.
Definition set_target_position v p := let c := control p in
  set_control (mk_control (state_ c) (flushed_ c) (reported_media_state_ c) (target_state_ c) v) p.

(** Updates of a stream's members. *)
Definition s_set_enabled s := mk_stream (index_ s) true (sink_state s) (media_type_ s) (decoder_ s) (sink_ s)
  (encoded_producer_ s) (decoded_producer_ s) (joiner s) (awaiting s).
Definition s_set_state v s := mk_stream (index_ s) (enabled_ s) v (media_type_ s) (decoder_ s) (sink_ s)
  (encoded_producer_ s) (decoded_producer_ s) (joiner s) (awaiting s).
Definition s_set_decoder s := mk_stream (index_ s) (enabled_ s) (sink_state s) (media_type_ s) true (sink_ s)
  (encoded_producer_ s) (decoded_producer_ s) (joiner s) (awaiting s).
Definition s_set_sink s := mk_stream (index_ s) (enabled_ s) (sink_state s) (media_type_ s) (decoder_ s) true
  (encoded_producer_ s) (decoded_producer_ s) (joiner s) (awaiting s).
Definition s_set_encoded v s := mk_stream (index_ s) (enabled_ s) (sink_state s) (media_type_ s) (decoder_ s) (sink_ s)
  v (decoded_producer_ s) (joiner s) (awaiting s).
Definition s_set_decoded v s := mk_stream (index_ s) (enabled_ s) (sink_state s) (media_type_ s) (decoder_ s) (sink_ s)
  (encoded_producer_ s) v (joiner s) (awaiting s).
Definition s_set_joiner v s := mk_stream (index_ s) (enabled_ s) (sink_state s) (media_type_ s) (decoder_ s) (sink_ s)
  (encoded_producer_ s) (decoded_producer_ s) v (awaiting s).
Definition s_set_awaiting v s := mk_stream (index_ s) (enabled_ s) (sink_state s) (media_type_ s) (decoder_ s) (sink_ s)
  (encoded_producer_ s) (decoded_producer_ s) (joiner s) v.

Context `{BD : Build}.
Implicit Types (p : MediaPlayer).

(** A [Stream&] or [Stream*]: the stream at an index, and a change of it. *)
Definition the_stream (i : nat) : prog MediaPlayer Stream := λ p,
  match streams_ p !! i with Some s => Ok (s, p) | None => Fault UndefinedBehaviour end.
Definition mod_stream (i : nat) (f : Stream → Stream) : prog MediaPlayer unit :=
  _ ← the_stream i; modS (λ p, set_streams (alter f i (streams_ p)) p).

(** A call through an interface pointer, with the callback that it passes. *)
Definition invoke (bound : bool) (c : call) : prog MediaPlayer unit :=
  if bound then modS (add_call c) else failS UndefinedBehaviour.
Definition await_demux (cb : demux_callback) : prog MediaPlayer unit :=
  modS (λ p, set_demux_awaiting (demux_awaiting p ++ [cb]) p).
Definition await_stream (i : nat) (cb : stream_callback) : prog MediaPlayer unit :=
  mod_stream i (λ s, s_set_awaiting (awaiting s ++ [cb]) s).

(** ** Status *)

Definition status_runner (callback : nat) (version : Z) : prog MediaPlayer unit := modS (λ p,
  add_reply (callback, version, mk_status (reported_media_state_ (control p)) (transform_ p) (metadata_ p)) p).
Definition SendUpdates_ : prog MediaPlayer unit := SendUpdates status_runner status_publisher_ set_publisher.
Definition SetReportedMediaState (media_state : MediaState) : prog MediaPlayer unit :=
  p ← getS;
  if decide (reported_media_state_ (control p) = media_state) then mret tt
  else _ ← modS (set_reported media_state); SendUpdates_.
Definition GetStatus (version_last_seen : Z) (callback : nat) : prog MediaPlayer unit :=
  Get status_runner status_publisher_ set_publisher version_last_seen callback.

(** ** Sinks *)

Fixpoint change_loop (media_state : MediaState) (streams : list Stream) : prog MediaPlayer unit :=
  match streams with
  | [] => mret tt
  | s :: streams =>
      _ ← whenS (enabled_ s)
            (invoke (sink_ s) (if decide (media_state = PAUSED) then Sink_Pause (index_ s) else Sink_Play (index_ s)));
      change_loop media_state streams
  end.
Definition ChangeSinkStates (media_state : MediaState) : prog MediaPlayer unit :=
  p ← getS; change_loop media_state (streams_ p).

Definition sink_is (k : SinkState) (m : MediaState) : bool :=
  match k with
  | SinkPaused => bool_decide (m = PAUSED)
  | SinkPlaying => bool_decide (m = PLAYING)
  | SinkEnded => bool_decide (m = ENDED)
  | SinkPausedOrEnded => bool_decide (m = PAUSED) || bool_decide (m = ENDED)
  | SinkPlayingOrEnded => bool_decide (m = PLAYING) || bool_decide (m = ENDED)
  end.
Definition AllSinksAre (k : SinkState) p : bool :=
  forallb (λ s, negb (enabled_ s) || sink_is k (sink_state s)) (streams_ p).

(** ** The state machine *)

Definition WhenFlushedAndSeeking : prog MediaPlayer unit :=
  _ ← modS (set_state kWaiting);
  p ← getS;
  _ ← dcheckS (negb (target_position_ (control p) =? kNotSeeking));
  _ ← invoke true (Demux_Seek (target_position_ (control p)));
  await_demux OnSought.
Definition WhenPausedAndSeeking : prog MediaPlayer unit :=
  p ← getS;
  if negb (flushed_ (control p)) then
    _ ← modS (set_state kWaiting);
    _ ← invoke true Demux_Flush;
    await_demux OnFlushed
  else WhenFlushedAndSeeking.

(** One round of the loop of [Update]; true when it breaks out of the switch, to go around
    again, and false when it returns. *)
Definition Update_round : prog MediaPlayer bool :=
  p ← getS;
  let c := control p in
  match state_ c with
  | kPaused =>
      if negb (target_position_ c =? kNotSeeking) then _ ← WhenPausedAndSeeking; mret true
      else if decide (target_state_ c = PLAYING) then
        if negb (flushed_ c) then
          _ ← ChangeSinkStates PLAYING;
          _ ← modS (set_state kWaitingForSinksToPlay);
          mret true
        else
          _ ← modS (set_flushed false);
          _ ← modS (set_state kWaiting);
          _ ← invoke true Demux_Prime;
          _ ← await_demux OnPrimed;
          mret false
      else mret false
  | kWaitingForSinksToPlay =>
      if AllSinksAre SinkPlayingOrEnded p then
        _ ← modS (set_state kPlaying);
        _ ← (if decide (target_state_ c = PLAYING) then SetReportedMediaState PLAYING else mret tt);
        mret false
      else mret false
  | kPlaying =>
      if negb (target_position_ c =? kNotSeeking) || bool_decide (target_state_ c = PAUSED) then
        _ ← ChangeSinkStates PAUSED;
        _ ← modS (set_state kWaitingForSinksToPause);
        mret true
      else if AllSinksAre SinkEnded p then
        _ ← modS (set_target_state ENDED);
        _ ← SetReportedMediaState ENDED;
        _ ← modS (set_state kPaused);
        mret true
      else mret false
  | kWaitingForSinksToPause =>
      if AllSinksAre SinkPausedOrEnded p then
        _ ← (if decide (target_state_ c = PAUSED) then
               SetReportedMediaState (if AllSinksAre SinkEnded p then ENDED else PAUSED)
             else mret tt);
        _ ← modS (set_state kPaused);
        mret true
      else mret false
  | kWaiting => mret false
  end.
Fixpoint Update_loop (fuel : nat) : prog MediaPlayer unit :=
  match fuel with
  | O => failS OutOfFuel
  | S fuel => again ← Update_round; if (again : bool) then Update_loop fuel else mret tt
  end.
Definition Update : prog MediaPlayer unit := Update_loop 4.

Definition Play : prog MediaPlayer unit := _ ← modS (set_target_state PLAYING); Update.
Definition Pause : prog MediaPlayer unit := _ ← modS (set_target_state PAUSED); Update.
Definition Seek (position : Z) : prog MediaPlayer unit := _ ← modS (set_target_position position); Update.

(** The callbacks of [Prime], [Flush] and [Seek]. *)
Definition Primed : prog MediaPlayer unit :=
  _ ← ChangeSinkStates PLAYING; _ ← modS (set_state kWaitingForSinksToPlay); Update.
Definition Flushed : prog MediaPlayer unit := _ ← modS (set_flushed true); WhenFlushedAndSeeking.
Definition Sought : prog MediaPlayer unit :=
  _ ← modS (set_target_position kNotSeeking); _ ← modS (set_state kPaused); Update.

(** ** Updates from remote objects *)

Definition HandleDemuxMetadataUpdates (version : Z) (metadata : option M) : prog MediaPlayer unit :=
  _ ← match metadata with
      | Some m => _ ← modS (set_metadata (Some m)); SendUpdates_
      | None => mret tt
      end;
  _ ← invoke true (Demux_GetMetadata version);
  await_demux OnMetadata.

Definition HandleSinkStatusUpdates (i : nat) (version : Z) (status : option (MediaState * option T)) : prog MediaPlayer unit :=
  _ ← match status with
      | Some (state, transform) =>
          if MediaState_value UNPREPARED <? MediaState_value state then
            s ← the_stream i;
            _ ← dcheckS (MediaState_value UNPREPARED <? MediaState_value (sink_state s));
            _ ← mod_stream i (s_set_state state);
            _ ← modS (set_transform transform);
            _ ← SendUpdates_;
            Update
          else mret tt
      | None => mret tt
      end;
  s ← the_stream i;
  _ ← invoke (sink_ s) (Sink_GetStatus i version);
  await_stream i OnSinkStatus.

(** ** Preparation *)

(** What runs when the enabled streams are prepared. *)
Definition all_joined (cb : option unit) : prog MediaPlayer unit :=
  match cb with
  | Some _ =>
      _ ← modS (set_factory false);
      _ ← SetReportedMediaState PAUSED;
      _ ← modS (set_state kPaused);
      Update
  | None => mret tt
  end.
Definition MainComplete : prog MediaPlayer unit := Complete all_joined callback_joiner set_joiner.

(** The joiner of a stream, whose callback completes a child of the main one. *)
Definition stream_joiner (i : nat) p : CallbackJoiner unit :=
  match streams_ p !! i with Some s => joiner s | None => new_joiner end.
Definition set_stream_joiner (i : nat) (j : CallbackJoiner unit) p : MediaPlayer :=
  set_streams (alter (s_set_joiner j) i (streams_ p)) p.
Definition stream_joined (cb : option unit) : prog MediaPlayer unit :=
  match cb with Some _ => MainComplete | None => mret tt end.
Definition StreamComplete (i : nat) : prog MediaPlayer unit :=
  Complete stream_joined (stream_joiner i) (set_stream_joiner i).

Definition complete (i : nat) (c : completion) : prog MediaPlayer unit :=
  match c with StreamJoiner => StreamComplete i | MainJoiner => MainComplete end.

Definition CreateSink (i : nat) (input_media_type : option MediaType) (url : string) (c : completion) : prog MediaPlayer unit :=
  match input_media_type with
  | None => _ ← dcheckS false; failS UndefinedBehaviour
  | Some mt =>
      s ← the_stream i;
      _ ← dcheckS (decoded_producer_ s);
      p ← getS;
      _ ← dcheckS (factory_ p);
      _ ← invoke (factory_ p) (Factory_CreateSink i url mt);
      _ ← mod_stream i s_set_sink;
      _ ← invoke true (Sink_GetConsumer i);
      _ ← invoke (decoded_producer_ s) (Decoded_Connect i);
      await_stream i (OnSinkConnected c)
  end.
(** The callback of [Connect] in [CreateSink]. *)
Definition SinkConnected (i : nat) (c : completion) : prog MediaPlayer unit :=
  _ ← mod_stream i (s_set_decoded false);
  s ← the_stream i;
  _ ← dcheckS (bool_decide (sink_state s = UNPREPARED));
  p ← getS;
  _ ← dcheckS (bool_decide (reported_media_state_ (control p) = UNPREPARED) ||
               bool_decide (reported_media_state_ (control p) = FAULT));
  _ ← mod_stream i (s_set_state PAUSED);
  _ ← HandleSinkStatusUpdates i kInitialStatus None;
  complete i c.

Definition PrepareStream (i : nat) (url : string) : prog MediaPlayer unit :=
  p ← getS;
  _ ← dcheckS (factory_ p);
  _ ← invoke true (Demux_GetProducer i);
  _ ← mod_stream i (s_set_encoded true);
  s ← the_stream i;
  if negb (bool_decide (encoding (media_type_ s) = kAudioEncodingLpcm)) &&
     negb (bool_decide (encoding (media_type_ s) = kVideoEncodingUncompressed)) then
    _ ← mod_stream i (s_set_joiner new_joiner);
    _ ← invoke (factory_ p) (Factory_CreateDecoder i (media_type_ s));
    _ ← mod_stream i s_set_decoder;
    _ ← invoke true (Decoder_GetConsumer i);
    _ ← Spawn (stream_joiner i) (set_stream_joiner i);
    _ ← invoke true (Encoded_Connect i);
    _ ← await_stream i OnEncodedConnected;
    _ ← Spawn (stream_joiner i) (set_stream_joiner i);
    _ ← invoke true (Decoder_GetOutputType i);
    _ ← await_stream i OnOutputType;
    WhenJoined stream_joined (stream_joiner i) (set_stream_joiner i) tt
  else
    _ ← mod_stream i (s_set_decoded (encoded_producer_ s));
    _ ← mod_stream i (s_set_encoded false);
    CreateSink i (Some (media_type_ s)) url MainJoiner.
(** The callbacks of the encoded producer's [Connect] and of [GetOutputType]. *)
Definition EncodedConnected (i : nat) : prog MediaPlayer unit :=
  _ ← mod_stream i (s_set_encoded false); StreamComplete i.
Definition OutputType (i : nat) (url : string) (output_type : option MediaType) : prog MediaPlayer unit :=
  s ← the_stream i;
  _ ← invoke (decoder_ s) (Decoder_GetProducer i);
  _ ← mod_stream i (s_set_decoded true);
  _ ← Spawn (stream_joiner i) (set_stream_joiner i);
  _ ← CreateSink i output_type url StreamJoiner;
  StreamComplete i.

Definition sink_url (m : MediaTypeMedium) : option string :=
  match m with AUDIO => Some "mojo:audio_server" | VIDEO => Some "nowhere" | _ => None end.
Fixpoint describe_loop (stream_types : list MediaType) : prog MediaPlayer unit :=
  match stream_types with
  | [] => mret tt
  | mt :: stream_types =>
      p ← getS;
      let i := length (streams_ p) in
      _ ← modS (set_streams (streams_ p ++ [new_stream i mt]));
      _ ← match sink_url (medium mt) with
          | Some url =>
              _ ← mod_stream i s_set_enabled;
              _ ← Spawn callback_joiner set_joiner;
              PrepareStream i url
          | None => mret tt
          end;
      describe_loop stream_types
  end.
Definition Described (stream_types : list MediaType) : prog MediaPlayer unit :=
  _ ← modS (set_joiner new_joiner);
  _ ← describe_loop stream_types;
  WhenJoined all_joined callback_joiner set_joiner tt.

(** The constructor, of a player without streams. *)
Definition unstarted : MediaPlayer :=
  mk_player false [] (mk_control kWaiting true UNPREPARED PAUSED kNotSeeking) None None new_publisher new_joiner [] [] [].
Definition MediaPlayerImpl (reader : bool) : prog MediaPlayer unit :=
  _ ← dcheckS reader;
  _ ← SetCallbackRunner status_publisher_ set_publisher;
  _ ← modS (set_state kWaiting);
  _ ← modS (set_factory true);
  _ ← invoke true Factory_CreateDemux;
  _ ← HandleDemuxMetadataUpdates kInitialMetadata None;
  _ ← invoke true Demux_Describe;
  await_demux OnDescribe.

(** ** Events *)

Inductive event :=
  | EvDescribed (stream_types : list MediaType) | EvMetadata (version : Z) (metadata : option M)
  | EvPrimed | EvFlushed | EvSought
  | EvEncodedConnected (i : nat) | EvOutputType (i : nat) (output_type : option MediaType)
  | EvSinkConnected (i : nat) (c : completion)
  | EvSinkStatus (i : nat) (version : Z) (status : option (MediaState * option T))
  | EvPlay | EvPause | EvSeek (position : Z) | EvGetStatus (version_last_seen : Z) (callback : nat).

(** The callback that an event runs is awaited no more. *)
Definition take_demux (cb : demux_callback) : prog MediaPlayer unit :=
  modS (λ p, set_demux_awaiting (remove_one cb (demux_awaiting p)) p).
Definition take_stream (i : nat) (cb : stream_callback) : prog MediaPlayer unit :=
  mod_stream i (λ s, s_set_awaiting (remove_one cb (awaiting s)) s).
Definition handle (e : event) : prog MediaPlayer unit :=
  match e with
  | EvDescribed types => _ ← take_demux OnDescribe; Described types
  | EvMetadata v m => _ ← take_demux OnMetadata; HandleDemuxMetadataUpdates v m
  | EvPrimed => _ ← take_demux OnPrimed; Primed
  | EvFlushed => _ ← take_demux OnFlushed; Flushed
  | EvSought => _ ← take_demux OnSought; Sought
  | EvEncodedConnected i => _ ← take_stream i OnEncodedConnected; EncodedConnected i
  | EvOutputType i t =>
      _ ← take_stream i OnOutputType;
      s ← the_stream i;
      OutputType i (default "" (sink_url (medium (media_type_ s)))) t
  | EvSinkConnected i c => _ ← take_stream i (OnSinkConnected c); SinkConnected i c
  | EvSinkStatus i v st => _ ← take_stream i OnSinkStatus; HandleSinkStatusUpdates i v st
  | EvPlay => Play
  | EvPause => Pause
  | EvSeek position => Seek position
  | EvGetStatus v cb => GetStatus v cb
  end.

(** Events that can happen: remote objects run the callbacks that they were given, and tell
    what the interface allows them to. *)
Definition stream_awaits (i : nat) (cb : stream_callback) p : Prop := ∃ s, streams_ p !! i = Some s ∧ cb ∈ awaiting s.
Definition possible (e : event) p : Prop :=
  match e with
  | EvDescribed types => OnDescribe ∈ demux_awaiting p ∧ Z.of_nat (length types) < 2 ^ 32
  | EvMetadata _ _ => OnMetadata ∈ demux_awaiting p
  | EvPrimed => OnPrimed ∈ demux_awaiting p
  | EvFlushed => OnFlushed ∈ demux_awaiting p
  | EvSought => OnSought ∈ demux_awaiting p
  | EvEncodedConnected i => stream_awaits i OnEncodedConnected p
  | EvOutputType i t => stream_awaits i OnOutputType p ∧ is_Some t
  | EvSinkConnected i c => stream_awaits i (OnSinkConnected c) p
  | EvSinkStatus i _ _ => stream_awaits i OnSinkStatus p
  | EvPlay | EvPause => True
  | EvSeek position => position ≠ kNotSeeking
  | EvGetStatus _ _ => True
  end.

End Player.
End Player.
