(* ===== verification/PlayerSpec.v ===== *)
(** The media player keeps its protocols: whatever the order of replies and client calls,
    each handler returns, the demux has at most one command to complete and is primed,
    flushed and sought in an order that it allows, and the player comes to rest where its
    targets say. *)

From S2P Require Import Prelude MediaStates Incident Publisher Player.
Import MediaStates Incident Publisher Player.
Local Open Scope Z_scope.

Module PlayerSpec.
Section Spec.
Context {T M : Type} `{BD : Build}.
Implicit Types (p : @MediaPlayer T M) (s : Stream).

(** ** The protocol of the demux *)

(** Whether the pipeline is flushed, after calls in an order that the demux allows: it is
    primed when flushed, flushed when primed, and sought when flushed. *)
Definition obeys (flushed : option bool) (c : call) : option bool :=
  match flushed, c with
  | Some true, Demux_Prime => Some false
  | Some false, Demux_Flush => Some true
  | Some true, Demux_Seek _ => Some true
  | _, (Demux_Prime | Demux_Flush | Demux_Seek _) => None
  | _, _ => flushed
  end.
Definition protocol (cs : list call) : option bool := foldl obeys (Some true) cs.

Definition neutral (c : call) : bool := match c with Demux_Prime | Demux_Flush | Demux_Seek _ => false | _ => true end.
Lemma protocol_app cs cs' : protocol (cs ++ cs') = foldl obeys (protocol cs) cs'.
Proof. apply foldl_app. Qed.
Lemma protocol_neutral cs cs' : forallb neutral cs' = true → protocol (cs ++ cs') = protocol cs.
Proof.
  rewrite protocol_app. generalize (protocol cs). induction cs' as [|c cs' IH]; intros o H; [done|].
  cbn in H. apply andb_true_iff in H as [Hc H]. cbn [foldl]. rewrite IH by done. by destruct c, o as [[]|].
Qed.

(** The commands to the demux that have not completed. *)
Definition commands p : list demux_callback := filter (λ cb, cb ≠ OnMetadata) (demux_awaiting p).

(** ** What [Update] leaves alone *)

Definition stable p p' : Prop :=
  streams_ p' = streams_ p ∧ factory_ p' = factory_ p ∧ callback_joiner p' = callback_joiner p ∧
  (has_callback_runner (status_publisher_ p) = true → has_callback_runner (status_publisher_ p') = true).

Lemma stable_refl p : stable p p.
Proof. done. Qed.
Lemma stable_trans p1 p2 p3 : stable p1 p2 → stable p2 p3 → stable p1 p3.
Proof. intros (? & ? & ? & ?) (? & ? & ? & ?). split_and!; [congruence..|auto]. Qed.

(** Publishing changes the publisher and the replies. *)
Definition published p p' : Prop :=
  ∃ pub rs, has_callback_runner pub = has_callback_runner (status_publisher_ p) ∧
    p' = mk_player (factory_ p) (streams_ p) (control p) (transform_ p) (metadata_ p) pub (callback_joiner p)
           (demux_awaiting p) (calls p) rs.

Lemma published_stable p p' : published p p' → stable p p'.
Proof. intros (pub & rs & H & ->). split_and!; cbn; congruence. Qed.

Lemma run_pending_published cbs p :
  runs (run_pending status_runner status_publisher_ cbs) p (λ _ p', published p p').
Proof.
  revert p. induction cbs as [|cb cbs IH]; intros p; cbn [run_pending].
  - apply runs_ret. destruct p. by eexists _, _.
  - apply runs_get, runs_mod. eapply runs_mono; [apply IH|]. intros ? p' (pub & rs & H & ->). by eexists _, _.
Qed.

Lemma SendUpdates_published p :
  has_callback_runner (status_publisher_ p) = true → runs SendUpdates_ p (λ _ p', published p p').
Proof.
  intros H. unfold SendUpdates_, SendUpdates. apply runs_get, runs_dcheck; [done|]. apply runs_mod, runs_get, runs_mod.
  eapply runs_mono; [apply run_pending_published|]. intros ? p' (pub & rs & Hp & ->). by eexists _, _.
Qed.

(** Reporting a state changes that as well. *)
Lemma SetReportedMediaState_published m p :
  has_callback_runner (status_publisher_ p) = true →
  runs (SetReportedMediaState m) p (λ _ p', published (set_reported m p) p').
Proof.
  intros H. unfold SetReportedMediaState. apply runs_get. destruct (decide _) as [E|E].
  - apply runs_ret. destruct p as [? ? [] ? ? ? ? ? ? ?]. cbn in *. subst. by eexists _, _.
  - apply runs_mod. by apply SendUpdates_published.
Qed.

Lemma GetStatus_published v cb p :
  has_callback_runner (status_publisher_ p) = true → runs (GetStatus v cb) p (λ _ p', published p p').
Proof.
  intros H. unfold GetStatus, Get. apply runs_get, runs_dcheck; [done|].
  destruct (Z.ltb _ _); apply runs_mod_last; destruct p; eexists _, _; (split; [|reflexivity]); done.
Qed.

(** ** Calls of sinks *)

Definition add_calls cs p := mk_player (factory_ p) (streams_ p) (control p) (transform_ p) (metadata_ p)
  (status_publisher_ p) (callback_joiner p) (demux_awaiting p) (calls p ++ cs) (replies p).

(** The calls that change the states of the enabled sinks. *)
Definition sink_calls (m : MediaState) (streams : list Stream) : list call :=
  map (λ s, if decide (m = PAUSED) then Sink_Pause (index_ s) else Sink_Play (index_ s)) (filter (λ s, enabled_ s = true) streams).

Lemma sink_calls_neutral m streams : forallb neutral (sink_calls m streams) = true.
Proof. unfold sink_calls. apply forallb_forall. intros c [s [<- _]]%in_map_iff. by destruct (decide _). Qed.

Definition sinks_bound p : Prop := Forall (λ s, enabled_ s = true → sink_ s = true) (streams_ p).

Lemma change_loop_calls m streams : ∀ p,
  Forall (λ s, enabled_ s = true → sink_ s = true) streams →
  change_loop m streams p = Ok (tt, add_calls (sink_calls m streams) p).
Proof.
  induction streams as [|s streams IH]; intros p HF; cbn [change_loop].
  - unfold add_calls. cbn. rewrite app_nil_r. by destruct p.
  - apply Forall_cons in HF as [Hs HF]. unfold sink_calls. rewrite filter_cons.
    destruct (enabled_ s) eqn:E; cbn [whenS].
    + rewrite Hs by done. unfold invoke. etrans; [exact (IH (add_call _ p) HF)|].
      destruct (decide (true = true)); [|done]. cbn [map]. unfold add_calls. cbn. by rewrite <- app_assoc.
    + etrans; [exact (IH p HF)|]. by destruct (decide (false = true)).
Qed.

Lemma ChangeSinkStates_calls m p :
  sinks_bound p → ChangeSinkStates m p = Ok (tt, add_calls (sink_calls m (streams_ p)) p).
Proof. intros H. exact (change_loop_calls m (streams_ p) p H). Qed.

(** ** [Update] *)

(** The control of a player whose streams are prepared. *)
Definition controlled p : Prop :=
  let c := control p in
  match state_ c with
  | kWaiting =>
      commands p = [OnPrimed] ∧ flushed_ c = false ∧ protocol (calls p) = Some false ∨
      commands p = [OnFlushed] ∧ flushed_ c = false ∧ target_position_ c ≠ kNotSeeking ∧ protocol (calls p) = Some true ∨
      commands p = [OnSought] ∧ flushed_ c = true ∧ protocol (calls p) = Some true
  | kPaused => commands p = [] ∧ protocol (calls p) = Some (flushed_ c)
  | _ => commands p = [] ∧ protocol (calls p) = Some (flushed_ c) ∧ flushed_ c = false
  end.

(** Nothing is left to do. *)
Definition at_rest p : Prop :=
  let c := control p in
  match state_ c with
  | kPaused => target_position_ c = kNotSeeking ∧ target_state_ c ≠ PLAYING
  | kWaitingForSinksToPlay => AllSinksAre SinkPlayingOrEnded p = false
  | kWaitingForSinksToPause => AllSinksAre SinkPausedOrEnded p = false
  | _ => True
  end.

(** A player that plays or is about to is meant to. *)
Definition aligned p : Prop :=
  let c := control p in
  state_ c = kWaitingForSinksToPlay ∨ state_ c = kPlaying ∨ commands p = [OnPrimed] → target_position_ c = kNotSeeking ∧ target_state_ c ≠ PAUSED.

(** A player that plays as it is meant to says so. *)
Definition reports p : Prop :=
  let c := control p in state_ c = kPlaying → target_state_ c = PLAYING → reported_media_state_ c = PLAYING.

Definition rank (st : State) : nat :=
  match st with kPlaying => 4 | kWaitingForSinksToPause => 3 | kPaused => 2 | _ => 1 end.

(** What rounds of [Update] do. *)
Record progress p p' : Prop := {
  pr_stable : stable p p';
  pr_controlled : controlled p';
  pr_position : target_position_ (control p') = target_position_ (control p);
  pr_target : target_state_ (control p') = target_state_ (control p) ∨
    state_ (control p) = kPlaying ∧ target_state_ (control p') = ENDED ∧ AllSinksAre SinkEnded p = true;
  pr_calls : ∃ cs, calls p' = calls p ++ cs ∧
    (commands p' = [OnSought] → commands p = [OnSought] ∨ Demux_Seek (target_position_ (control p)) ∈ cs);
  pr_aligned : state_ (control p) ≠ kWaitingForSinksToPlay ∧ state_ (control p) ≠ kWaiting ∨ aligned p → aligned p';
  pr_reported : state_ (control p) ≠ kPlaying ∨ reports p → reports p';
  pr_waiting : state_ (control p) = kWaiting → p' = p;
  pr_to_play : state_ (control p) = kWaitingForSinksToPlay →
    state_ (control p') = kWaitingForSinksToPlay ∨ state_ (control p') = kPlaying;
  pr_to_pause : state_ (control p) ≠ kPlaying → state_ (control p') = kWaitingForSinksToPause →
    state_ (control p) = kWaitingForSinksToPause;
  pr_prime : target_position_ (control p) = kNotSeeking → commands p = [] → state_ (control p') = kWaiting →
    commands p' = [OnPrimed];
}.
(** A round returns at rest, or goes around again closer to it. *)
Definition round_post p (again : bool) p' : Prop :=
  progress p p' ∧
  if again then (rank (state_ (control p')) < rank (state_ (control p)))%nat else at_rest p'.

Lemma rounds_refl p : controlled p → state_ (control p) ≠ kPlaying ∨ aligned p → progress p p.
Proof.
  intros Hc Ha. split; try done; [by left|exists []; split; [by rewrite app_nil_r|by left]| | |by left|].
  - intros [[H1 H2]|H]; [|done]. destruct Ha as [Ha|Ha]; [|done]. intros [?|[?|Em]]; [done..|].
    unfold controlled in Hc. rewrite Em in Hc. by destruct (state_ (control p)); try destruct Hc as [? ?].
  - intros [H|H]; [|done]. by intros ?.
  - intros Ep Em Ew. unfold controlled in Hc. rewrite Ew, Em in Hc. by destruct Hc as [[? ?]|[[? ?]|[? ?]]].
Qed.

Lemma rounds_trans p1 p2 p3 :
  progress p1 p2 → progress p2 p3 → state_ (control p2) ≠ kPlaying → progress p1 p3.
Proof.
  intros [S1 C1 P1 T1 (cs1 & L1 & K1) A1 R1 W1 Y1 X1 Z1] [S2 C2 P2 T2 (cs2 & L2 & K2) A2 R2 W2 Y2 X2 Z2] Hne. split; try done.
  - by eapply stable_trans.
  - by rewrite P2.
  - destruct T2 as [E|(E & _)]; [|done]. by rewrite E.
  - exists (cs1 ++ cs2). split; [by rewrite L2, L1, app_assoc|].
    intros H. destruct (K2 H) as [H2|H2]; [|right; rewrite <- P1; apply elem_of_app; by right].
    destruct (K1 H2) as [?|H1]; [by left|right]. apply elem_of_app. by left.
  - intros H. apply A2. right. by apply A1.
  - intros _. apply R2. by left.
  - intros H. pose proof (W1 H) as E. subst p2. by apply W2.
  - intros H. destruct (Y1 H) as [E|E]; [by apply Y2|done].
  - intros H E. by apply X1, X2.
  - intros Ep Em Ew. destruct (decide (state_ (control p2) = kWaiting)) as [E|E].
    + rewrite (W2 E). by apply Z1.
    + apply Z2; [by rewrite P1| |done]. unfold controlled in C1. destruct (state_ (control p2)); try done; apply C1.
Qed.

Lemma commands_snoc p cb : cb ≠ OnMetadata →
  filter (λ cb, cb ≠ OnMetadata) (demux_awaiting p ++ [cb]) = commands p ++ [cb].
Proof. intros H. unfold commands. rewrite filter_app. by rewrite filter_cons_True. Qed.

(** Reporting a state leaves the control alone but for what is reported. *)
Lemma published_round p p' m : published (set_reported m p) p' →
  stable p p' ∧ commands p' = commands p ∧ calls p' = calls p ∧ state_ (control p') = state_ (control p) ∧
  flushed_ (control p') = flushed_ (control p) ∧ target_state_ (control p') = target_state_ (control p) ∧
  target_position_ (control p') = target_position_ (control p) ∧ reported_media_state_ (control p') = m.
Proof. intros (pub & rs & H & ->). split_and!; try done. split_and!; cbn in *; congruence. Qed.

Lemma AllSinksAre_stable k p p' : streams_ p' = streams_ p → AllSinksAre k p' = AllSinksAre k p.
Proof. unfold AllSinksAre. by intros ->. Qed.

Section Rounds.
Context (p : @MediaPlayer T M) (Hrun : has_callback_runner (status_publisher_ p) = true) (Hc : controlled p).

Lemma controlled_in st : state_ (control p) = st → st = kPlaying ∨ st = kWaitingForSinksToPlay ∨ st = kWaitingForSinksToPause →
  commands p = [] ∧ protocol (calls p) = Some false ∧ flushed_ (control p) = false.
Proof.
  intros E Hst. pose proof Hc as Hc'. unfold controlled in Hc'. rewrite E in Hc'.
  destruct Hst as [-> |[-> | ->]]; destruct Hc' as (? & E1 & E2); by rewrite E2 in E1.
Qed.

(** A round that only reports a state and changes [state_]. *)
Lemma reporting_round p' (b : bool) m st :
  commands p = [] → protocol (calls p) = Some false → flushed_ (control p) = false →
  (if b then published (set_reported m p) p' else p' = p) →
  st ≠ kWaiting → st ≠ kWaitingForSinksToPause → (st = kPlaying → target_state_ (control p) = PLAYING → b = true ∧ m = PLAYING) →
  (st = kWaitingForSinksToPlay ∨ st = kPlaying → state_ (control p) = kWaitingForSinksToPlay) →
  (state_ (control p) = kWaitingForSinksToPlay → st = kPlaying) →
  progress p (set_state st p').
Proof.
  intros Ecm Epr Ef Hp Hw Hwp Hm Ha Hfrom.
  assert (stable p p' ∧ commands p' = commands p ∧ calls p' = calls p ∧
    flushed_ (control p') = flushed_ (control p) ∧ target_state_ (control p') = target_state_ (control p) ∧
    target_position_ (control p') = target_position_ (control p) ∧ (b = true → reported_media_state_ (control p') = m))
    as (Hs & Ec & El & Ef' & Et & Ep & Er).
  { destruct b; [|subst; by split_and!]. apply published_round in Hp as (Hs & ? & ? & ? & ? & ? & ? & ?).
    split_and!; try done; apply Hs. }
  split.
  - apply Hs.
  - unfold controlled. cbn. unfold commands in *. cbn. rewrite Ec, El, Ef'. by destruct st; rewrite ?Ef.
  - exact Ep.
  - by left.
  - exists []. cbn. rewrite El, app_nil_r. split; [done|]. unfold commands in *. cbn. by rewrite Ec, Ecm.
  - intros H. unfold aligned in *. unfold commands in *. cbn in *. rewrite Et, Ep, Ec, Ecm in *.
    intros [Hst|[Hst|?]]; [| |done]; (destruct H as [[H _]|H]; [destruct H; apply Ha; auto|apply H; left; apply Ha; auto]).
  - intros _. unfold reports. cbn. rewrite Et. intros -> Hpl. destruct (Hm eq_refl Hpl) as [-> ->]. by apply Er.
  - intros E. exfalso. unfold controlled in Hc. rewrite E, Ecm in Hc. by destruct Hc as [[? ?]|[[? ?]|[? ?]]].
  - intros E. cbn. destruct st; auto; specialize (Hfrom E); naive_solver.
  - intros _ E. by cbn in E.
  - intros _ _ E. by cbn in E.
Qed.

Lemma round_waiting : state_ (control p) = kWaiting → runs Update_round p (round_post p).
Proof.
  intros E. unfold Update_round. apply runs_get. cbv zeta. rewrite E. apply runs_ret.
  split; [apply rounds_refl; [done|left; congruence]|]. unfold at_rest. by rewrite E.
Qed.

Lemma round_to_play : state_ (control p) = kWaitingForSinksToPlay → runs Update_round p (round_post p).
Proof.
  intros E. unfold Update_round. apply runs_get. cbv zeta. rewrite E.
  destruct (controlled_in _ E) as (Ecm & Epr & Ef); [by right; left|].
  destruct (AllSinksAre SinkPlayingOrEnded p) eqn:EA.
  - apply runs_mod. destruct (decide (target_state_ (control p) = PLAYING)) as [Et|Et].
    + eapply runs_bind; [by apply SetReportedMediaState_published|]. cbn beta. intros ? p' Hp. apply runs_ret.
      assert (∃ p1, p' = set_state kPlaying p1 ∧ published (set_reported PLAYING p) p1) as (p1 & -> & Hp1).
      { destruct Hp as (pub & rs & H & ->). eexists (mk_player _ _ _ _ _ pub _ _ _ rs).
        split; [|eexists pub, rs; split; [exact H|reflexivity]]. done. }
      split; [|done]. by apply (reporting_round p1 true PLAYING).
    + apply runs_step with (a := tt) (s' := set_state kPlaying p); [done|]. apply runs_ret.
      split; [|done]. by apply (reporting_round p false PLAYING).
  - apply runs_ret. split; [apply rounds_refl; [done|left; congruence]|]. unfold at_rest. by rewrite E.
Qed.

Lemma round_to_pause : state_ (control p) = kWaitingForSinksToPause → runs Update_round p (round_post p).
Proof.
  intros E. unfold Update_round. apply runs_get. cbv zeta. rewrite E.
  destruct (controlled_in _ E) as (Ecm & Epr & Ef); [by right; right|].
  destruct (AllSinksAre SinkPausedOrEnded p) eqn:EA.
  - destruct (decide (target_state_ (control p) = PAUSED)) as [Et|Et].
    + eapply runs_bind; [by apply SetReportedMediaState_published|]. cbn beta. intros ? p' Hp. apply runs_mod, runs_ret.
      split; [|cbn; rewrite E; cbn; lia]. eapply (reporting_round p' true); try done; [by intros [?|?]|congruence].
    + apply runs_step with (a := tt) (s' := p); [done|]. apply runs_mod, runs_ret.
      split; [|cbn; rewrite E; cbn; lia]. eapply (reporting_round p false PAUSED); try done; [by intros [?|?]|congruence].
  - apply runs_ret. split; [apply rounds_refl; [done|left; congruence]|]. unfold at_rest. by rewrite E.
Qed.

Lemma not_waiting : commands p = [] → state_ (control p) ≠ kWaiting.
Proof. intros Ecm E. unfold controlled in Hc. rewrite E, Ecm in Hc. by destruct Hc as [[? ?]|[[? ?]|[? ?]]]. Qed.

Context (Hsinks : sinks_bound p).

(** A round that tells the sinks to change state. *)
Lemma sinks_round m st : commands p = [] → protocol (calls p) = Some false → flushed_ (control p) = false →
  state_ (control p) ≠ kWaitingForSinksToPlay →
  st = kWaitingForSinksToPlay ∧ target_position_ (control p) = kNotSeeking ∧ target_state_ (control p) ≠ PAUSED ∨
    st = kWaitingForSinksToPause ∧ state_ (control p) = kPlaying →
  progress p (set_state st (add_calls (sink_calls m (streams_ p)) p)).
Proof.
  intros Ecm Epr Ef Hne Hst. split; try done.
  - unfold controlled. cbn. rewrite protocol_neutral by apply sink_calls_neutral. rewrite Epr, Ef.
    by destruct Hst as [[-> _]|[-> _]].
  - by left.
  - eexists. split; [done|by left].
  - intros _. unfold aligned. unfold commands in *. cbn in *. rewrite Ecm. destruct Hst as [[-> H]|[-> _]]; [done|by intros [?|[?|?]]].
  - intros _. unfold reports. cbn. by destruct Hst as [[-> H]|[-> _]].
  - intros E. by apply not_waiting in Ecm.
  - intros Hnp. cbn. by destruct Hst as [[-> H]|[-> ?]].
  - intros _ _. cbn. by destruct Hst as [[-> H]|[-> _]].
Qed.

Lemma round_playing : state_ (control p) = kPlaying → runs Update_round p (round_post p).
Proof.
  intros E. unfold Update_round. apply runs_get. cbv zeta. rewrite E.
  destruct (controlled_in _ E) as (Ecm & Epr & Ef); [by left|].
  destruct (negb (target_position_ (control p) =? kNotSeeking) || bool_decide (target_state_ (control p) = PAUSED)) eqn:Eg.
  - eapply runs_step; [by apply ChangeSinkStates_calls|]. apply runs_mod, runs_ret.
    split; [apply sinks_round; [done..|congruence|auto]|]. cbn. rewrite E. cbn. lia.
  - apply orb_false_iff in Eg as [Eg1 Eg2]. apply negb_false_iff, Z.eqb_eq in Eg1. apply bool_decide_eq_false in Eg2.
    destruct (AllSinksAre SinkEnded p) eqn:EA.
    + apply runs_mod. eapply runs_bind; [by apply SetReportedMediaState_published|]. cbn beta.
      intros ? p' (Hs & Ecm' & Ecl' & Es' & Ef' & Et' & Ep' & _)%published_round. apply runs_mod, runs_ret.
      split; [|cbn; rewrite E; cbn; lia]. split.
      * apply Hs.
      * unfold controlled. cbn. unfold commands in *. cbn in *. rewrite Ecm', Ecl', Ef', Ecm. by rewrite Ef.
      * exact Ep'.
      * right. by split_and!.
      * exists []. rewrite app_nil_r. split; [exact Ecl'|]. unfold commands in *. cbn in *. by rewrite Ecm', Ecm.
      * intros _. unfold aligned. unfold commands in *. cbn in *. rewrite Ecm', Ecm. by intros [?|[?|?]].
      * done.
      * congruence.
      * congruence.
      * done.
      * done.
    + apply runs_ret. split; [apply rounds_refl; [done|by right]|]. unfold at_rest. by rewrite E.
Qed.

(** A round that sends a command to the demux. *)
Lemma command_round fl c cb : commands p = [] → protocol (calls p) = Some (flushed_ (control p)) → cb ≠ OnMetadata →
  flushed_ (control p) = true ∧ fl = false ∧ c = Demux_Prime ∧ cb = OnPrimed ∧
    target_position_ (control p) = kNotSeeking ∧ target_state_ (control p) ≠ PAUSED ∨
  flushed_ (control p) = false ∧ fl = false ∧ c = Demux_Flush ∧ cb = OnFlushed ∧ target_position_ (control p) ≠ kNotSeeking ∨
  flushed_ (control p) = true ∧ fl = true ∧ c = Demux_Seek (target_position_ (control p)) ∧ cb = OnSought ∧
    target_position_ (control p) ≠ kNotSeeking →
  state_ (control p) ≠ kWaitingForSinksToPlay →
  progress p (set_demux_awaiting (demux_awaiting p ++ [cb]) (add_call c (set_state kWaiting (set_flushed fl p)))).
Proof.
  intros Ecm Epr Hcb H Hne. split; try done.
  - unfold controlled. cbn. unfold commands. cbn. rewrite commands_snoc, Ecm, protocol_app, Epr by done.
    destruct H as [(-> & -> & -> & -> & _)|[(-> & -> & -> & -> & ?)|(-> & -> & -> & -> & ?)]]; auto 10.
  - by left.
  - eexists. split; [done|]. unfold commands at 1. cbn. rewrite commands_snoc, Ecm by done. intros Ecb. right.
    destruct H as [(_ & _ & -> & -> & _)|[(_ & _ & -> & -> & _)|(_ & _ & -> & -> & _)]]; try done. by left.
  - intros _. unfold aligned. unfold commands at 1. cbn. rewrite commands_snoc, Ecm by done. intros [?|[?|Ecb]]; [done..|].
    destruct H as [(_ & _ & _ & _ & H)|[(_ & _ & _ & -> & _)|(_ & _ & _ & -> & _)]]; done.
  - intros E. by apply not_waiting in Ecm.
  - intros Ep _ _. unfold commands. cbn. rewrite commands_snoc, Ecm by done.
    destruct H as [(_ & _ & _ & -> & _)|[(_ & _ & _ & _ & H)|H]]; [done|done|]. destruct H as (_ & _ & _ & _ & H). done.
Qed.

Lemma round_paused : state_ (control p) = kPaused → runs Update_round p (round_post p).
Proof.
  intros E. unfold Update_round. apply runs_get. cbv zeta. rewrite E. pose proof Hc as Hc'. unfold controlled in Hc'. rewrite E in Hc'.
  destruct Hc' as (Ecm & Epr).
  assert (∀ p', state_ (control p') = kWaiting → (rank (state_ (control p')) < rank (state_ (control p)))%nat) as Hrank.
  { intros p' ->. rewrite E. cbn. lia. }
  destruct (Z.eqb_spec (target_position_ (control p)) kNotSeeking) as [Ep|Ep]; cbn [negb].
  - destruct (decide _) as [Et|Et].
    + destruct (flushed_ (control p)) eqn:Ef; cbn [negb].
      * apply runs_mod, runs_mod, runs_mod, runs_mod, runs_ret. split; [|done]. apply command_round; [done|by rewrite Ef|done|left; split_and!; [done..|congruence]|congruence].
      * eapply runs_step; [by apply ChangeSinkStates_calls|]. apply runs_mod, runs_ret.
        split; [apply sinks_round; [done..|congruence|left; split_and!; [done..|congruence]]|]. cbn. rewrite E. cbn. lia.
    + apply runs_ret. split; [apply rounds_refl; [done|left; congruence]|]. unfold at_rest. by rewrite E.
  - unfold WhenPausedAndSeeking. destruct (flushed_ (control p)) eqn:Ef.
    + eapply runs_bind with (Q := λ _ p', p' = set_demux_awaiting (demux_awaiting p ++ [OnSought])
        (add_call (Demux_Seek (target_position_ (control p))) (set_state kWaiting p))).
      { apply runs_get. rewrite Ef. cbn [negb]. unfold WhenFlushedAndSeeking. apply runs_mod, runs_get, runs_dcheck.
        - cbn. by apply negb_true_iff, Z.eqb_neq.
        - apply runs_mod. by apply runs_mod_last. }
      intros ? p' ->. apply runs_ret. split; [|by apply Hrank].
      replace (set_state kWaiting p) with (set_state kWaiting (set_flushed true p)) by (destruct p as [? ? [] ? ? ? ? ? ? ?]; cbn in *; by subst).
      apply command_round; [done|by rewrite Ef|done|auto 8|congruence].
    + eapply runs_bind with (Q := λ _ p', p' = set_demux_awaiting (demux_awaiting p ++ [OnFlushed])
        (add_call Demux_Flush (set_state kWaiting p))).
      { apply runs_get. rewrite Ef. cbn [negb]. apply runs_mod, runs_mod. by apply runs_mod_last. }
      intros ? p' ->. apply runs_ret. split; [|by apply Hrank].
      replace (set_state kWaiting p) with (set_state kWaiting (set_flushed false p)) by (destruct p as [? ? [] ? ? ? ? ? ? ?]; cbn in *; by subst).
      apply command_round; [done|by rewrite Ef|done|auto 8|congruence].
Qed.

Lemma Update_round_runs : runs Update_round p (round_post p).
Proof.
  destruct (state_ (control p)) eqn:E;
    auto using round_waiting, round_paused, round_to_play, round_playing, round_to_pause.
Qed.

End Rounds.

Lemma Update_loop_runs n : ∀ p,
  has_callback_runner (status_publisher_ p) = true → controlled p → sinks_bound p →
  (rank (state_ (control p)) ≤ n)%nat →
  runs (Update_loop n) p (λ _ p', progress p p' ∧ at_rest p').
Proof.
  induction n as [|n IH]; intros p Hr Hc Hs Hn; [by destruct (state_ (control p)); cbn in Hn; lia|].
  cbn [Update_loop]. eapply runs_bind; [by apply Update_round_runs|]. intros [] p' [Hp Hb].
  - pose proof (pr_stable _ _ Hp) as (Es & _ & _ & Hr').
    eapply runs_mono; [apply IH; [auto|apply Hp| |lia]|].
    + unfold sinks_bound. by rewrite Es.
    + intros ? p'' [Hp' Hrest]. split; [|done]. eapply rounds_trans; [done..|].
      intros E. rewrite E in Hb. cbn in Hb. destruct (state_ (control p)); cbn in Hb; lia.
  - by apply runs_ret.
Qed.

(** [Update] returns, at rest. *)
Lemma Update_runs p :
  has_callback_runner (status_publisher_ p) = true → controlled p → sinks_bound p →
  runs Update p (λ _ p', progress p p' ∧ at_rest p').
Proof. intros. apply Update_loop_runs; try done. destruct (state_ (control p)); cbn; lia. Qed.

(** While something is waited for, [Update] does nothing. *)
Lemma Update_waiting p : state_ (control p) = kWaiting → Update p = Ok (tt, p).
Proof. intros E. unfold Update. cbn [Update_loop]. unfold Update_round, getS, mbind, prog_bind. cbv zeta. by rewrite E. Qed.

(** ** Streams *)

Definition prep (cb : stream_callback) : bool := match cb with OnSinkStatus => false | _ => true end.
Definition unfinished s : bool := existsb prep (awaiting s).
Definition prepared_sink s : Prop := sink_ s = true ∧ MediaState_value UNPREPARED < MediaState_value (sink_state s).
Definition enc_cb (b : bool) : list stream_callback := if b then [OnEncodedConnected] else [].

(** The stages of the preparation of a stream, by what it waits for: a sink that is fed
    directly, a decoder's output type, the decoder's sink, the decoder's input alone, or
    only the sink's status. *)
Inductive staged s : Prop :=
  | staged_disabled : enabled_ s = false → awaiting s = [] → staged s
  | staged_direct :
      enabled_ s = true → sink_ s = true → sink_state s = UNPREPARED → awaiting s = [OnSinkConnected MainJoiner] → staged s
  | staged_decoder enc :
      enabled_ s = true → decoder_ s = true → sink_state s = UNPREPARED → awaiting s = enc_cb enc ++ [OnOutputType] →
      joiner s = mk_joiner (1 + Z.b2z enc) (Some tt) → staged s
  | staged_sink enc :
      enabled_ s = true → sink_ s = true → sink_state s = UNPREPARED →
      awaiting s = enc_cb enc ++ [OnSinkConnected StreamJoiner] → joiner s = mk_joiner (1 + Z.b2z enc) (Some tt) → staged s
  | staged_input :
      enabled_ s = true → prepared_sink s → awaiting s = [OnEncodedConnected; OnSinkStatus] →
      joiner s = mk_joiner 1 (Some tt) → staged s
  | staged_ready : enabled_ s = true → prepared_sink s → awaiting s = [OnSinkStatus] → staged s.

Lemma staged_finished s : staged s → unfinished s = false → enabled_ s = true → prepared_sink s ∧ awaiting s = [OnSinkStatus].
Proof.
  unfold unfinished. intros [? Ea|? ? ? Ea|[] ? ? ? Ea|[] ? ? ? Ea|? ? Ea|? ? Ea] Hu He; rewrite Ea in Hu;
    try done; congruence.
Qed.

(** How many streams are not prepared. *)
Definition to_prepare (ss : list Stream) : nat := length (filter (λ s, unfinished s = true) ss).

Lemma to_prepare_app ss ss' : to_prepare (ss ++ ss') = (to_prepare ss + to_prepare ss')%nat.
Proof. unfold to_prepare. by rewrite filter_app, length_app. Qed.
Lemma to_prepare_one s : to_prepare [s] = if unfinished s then 1%nat else 0%nat.
Proof. unfold to_prepare. rewrite filter_cons. by destruct (unfinished s), (decide _). Qed.

Lemma to_prepare_insert ss i s s' : ss !! i = Some s →
  (to_prepare (<[i:=s']> ss) + to_prepare [s] = to_prepare ss + to_prepare [s'])%nat.
Proof.
  intros Hi. rewrite insert_take_drop by (by eapply lookup_lt_Some).
  rewrite <- (take_drop_middle ss i s Hi) at 3.
  change (s' :: drop (S i) ss) with ([s'] ++ drop (S i) ss). change (s :: drop (S i) ss) with ([s] ++ drop (S i) ss).
  rewrite !to_prepare_app. lia.
Qed.

Lemma to_prepare_zero ss : to_prepare ss = 0%nat → Forall (λ s, unfinished s = false) ss.
Proof.
  unfold to_prepare. intros H%length_zero_iff_nil. apply Forall_forall. intros s Hs.
  destruct (unfinished s) eqn:E; [|done]. assert (s ∈ filter (λ s, unfinished s = true) ss) as Hin.
  { by apply list_elem_of_filter. }
  rewrite H in Hin. by apply elem_of_nil in Hin.
Qed.

Lemma sinks_bound_staged p :
  Forall staged (streams_ p) → to_prepare (streams_ p) = 0%nat → sinks_bound p.
Proof.
  intros Hs Hz%to_prepare_zero. unfold sinks_bound. rewrite Forall_forall in *. intros s Hin He.
  by destruct (staged_finished s (Hs s Hin) (Hz s Hin) He) as [[? ?] _].
Qed.

(** ** Phases *)

Definition waiting_control (c : Control) : Prop :=
  state_ c = kWaiting ∧ flushed_ c = true ∧ reported_media_state_ c = UNPREPARED.

Inductive phase p : Prop :=
  | describing :
      factory_ p = true → streams_ p = [] → waiting_control (control p) → commands p = [OnDescribe] →
      protocol (calls p) = Some true → phase p
  | preparing :
      factory_ p = true → Forall staged (streams_ p) → waiting_control (control p) → commands p = [] →
      protocol (calls p) = Some true → (0 < to_prepare (streams_ p))%nat → Z.of_nat (length (streams_ p)) < 2 ^ 32 →
      callback_joiner p = mk_joiner (Z.of_nat (to_prepare (streams_ p))) (Some tt) → phase p
  | running :
      Forall staged (streams_ p) → to_prepare (streams_ p) = 0%nat → controlled p → at_rest p → phase p.

Record player_ok p : Prop := {
  ok_runner : has_callback_runner (status_publisher_ p) = true;
  ok_phase : phase p;
}.

(** ** One stream at a time *)

Lemma alter_insert_list {A} (f : A → A) i x (l : list A) : (i < length l)%nat → alter f i (<[i:=x]> l) = <[i:=f x]> l.
Proof.
  revert i. induction l as [|y l IH]; intros [|i] Hi; cbn in *; try lia; [done|]. f_equal. apply IH. lia.
Qed.

Definition focus (i : nat) s p : MediaPlayer := set_streams (<[i:=s]> (streams_ p)) p.

Lemma focus_self i s p : streams_ p !! i = Some s → focus i s p = p.
Proof. intros H. unfold focus. rewrite list_insert_id by done. by destruct p. Qed.
Lemma focus_lookup i s p : (i < length (streams_ p))%nat → streams_ (focus i s p) !! i = Some s.
Proof. intros H. cbn. by rewrite list_lookup_insert_eq. Qed.
Lemma focus_focus i s s' p : focus i s (focus i s' p) = focus i s p.
Proof. unfold focus, set_streams. cbn. by rewrite list_insert_insert_eq. Qed.

Section Focus.
Context (i : nat) (p : @MediaPlayer T M) (Hi : (i < length (streams_ p))%nat).

Lemma the_stream_focus s : the_stream i (focus i s p) = Ok (s, focus i s p).
Proof. unfold the_stream. by rewrite focus_lookup. Qed.
Lemma mod_stream_focus f s : mod_stream i f (focus i s p) = Ok (tt, focus i (f s) p).
Proof.
  unfold mod_stream. rewrite (prog_bind_run _ _ _ _ _ (the_stream_focus s)). unfold modS, focus, set_streams. cbn.
  do 3 f_equal. by apply alter_insert_list.
Qed.
Lemma stream_joiner_focus s : stream_joiner i (focus i s p) = joiner s.
Proof. unfold stream_joiner. by rewrite focus_lookup. Qed.
Lemma set_stream_joiner_focus j s : set_stream_joiner i j (focus i s p) = focus i (s_set_joiner j s) p.
Proof.
  unfold set_stream_joiner, focus, set_streams. cbn. f_equal. by apply alter_insert_list.
Qed.

Lemma runs_the_stream {A} (k : Stream → prog MediaPlayer A) s Q :
  runs (k s) (focus i s p) Q → runs (the_stream i ≫= k) (focus i s p) Q.
Proof. intros H. eapply runs_step; [apply the_stream_focus|done]. Qed.
Lemma runs_mod_stream {A} f (k : unit → prog MediaPlayer A) s Q :
  runs (k tt) (focus i (f s) p) Q → runs (mod_stream i f ≫= k) (focus i s p) Q.
Proof. intros H. eapply runs_step; [apply mod_stream_focus|done]. Qed.
Lemma runs_invoke {A} c (k : unit → prog MediaPlayer A) s Q :
  runs (k tt) (focus i s (add_call c p)) Q → runs (invoke true c ≫= k) (focus i s p) Q.
Proof. done. Qed.
Lemma runs_spawn {A} (k : unit → prog MediaPlayer A) s Q :
  runs (k tt) (focus i (s_set_joiner (mk_joiner (uwrap 64 (counter_ (joiner s) + 1)) (join_callback_ (joiner s))) s) p) Q →
  runs (Spawn (stream_joiner i) (set_stream_joiner i) ≫= k) (focus i s p) Q.
Proof.
  intros H. unfold Spawn. apply runs_mod. by rewrite stream_joiner_focus, set_stream_joiner_focus.
Qed.

End Focus.

(** ** Calls that the demux's protocol does not mention *)

Definition quiet p p' : Prop := ∃ cs, forallb neutral cs = true ∧ p' = add_calls cs p.
Lemma quiet_calls_refl p : quiet p p.
Proof. exists []. split; [done|]. unfold add_calls. rewrite app_nil_r. by destruct p. Qed.
Lemma quiet_call c p p' : neutral c = true → quiet p p' → quiet p (add_call c p').
Proof.
  intros Hc (cs & Hcs & ->). exists (cs ++ [c]). rewrite forallb_app, Hcs. cbn. rewrite Hc. split; [done|].
  unfold add_calls, add_call. cbn. by rewrite <- app_assoc.
Qed.
Lemma quiet_calls_trans p1 p2 p3 : quiet p1 p2 → quiet p2 p3 → quiet p1 p3.
Proof.
  intros (c1 & H1 & ->) (c2 & H2 & ->). exists (c1 ++ c2). rewrite forallb_app, H1, H2. split; [done|].
  unfold add_calls. cbn. by rewrite app_assoc.
Qed.
Lemma quiet_protocol p p' : quiet p p' → protocol (calls p') = protocol (calls p).
Proof. intros (cs & H & ->). by apply protocol_neutral. Qed.

(** ** Joining *)

(** A player with streams to prepare, whose joiner counts [n] operations. *)
Definition preparing_with (n : nat) p : Prop :=
  factory_ p = true ∧ Forall staged (streams_ p) ∧ waiting_control (control p) ∧ commands p = [] ∧
  protocol (calls p) = Some true ∧ Z.of_nat (length (streams_ p)) < 2 ^ 32 ∧
  callback_joiner p = mk_joiner (Z.of_nat n) (Some tt).

Lemma all_joined_runs p :
  has_callback_runner (status_publisher_ p) = true → Forall staged (streams_ p) → to_prepare (streams_ p) = 0%nat →
  waiting_control (control p) → commands p = [] → protocol (calls p) = Some true →
  runs (all_joined (Some tt)) p (λ _ p', player_ok p').
Proof.
  intros Hr Hs Hz (E1 & E2 & E3) Ec Ep. cbn [all_joined]. apply runs_mod.
  eapply runs_bind; [by apply SetReportedMediaState_published|]. cbn beta.
  intros ? p1 (Hst & Ec1 & El1 & _ & Ef1 & _)%published_round. apply runs_mod.
  destruct Hst as (Ess & _ & _ & Hr1). cbn in Ess, Hr1, Ef1.
  eapply runs_mono.
  - apply Update_runs.
    + by apply Hr1.
    + change (calls p1 = calls p) in El1. change (commands p1 = commands p) in Ec1.
      change (commands p1 = [] ∧ protocol (calls p1) = Some (flushed_ (control p1))).
      by rewrite Ec1, El1, Ef1, E2.
    + unfold sinks_bound. cbn. rewrite Ess. by apply sinks_bound_staged.
  - intros ? p2 [Hp Hrest]. pose proof (pr_stable _ _ Hp) as (Es2 & _ & _ & Hr2). cbn in Es2.
    split; [by apply Hr2; apply Hr1|]. apply running; [..|apply Hp|done]; by rewrite Es2, Ess.
Qed.

Lemma MainComplete_runs p :
  has_callback_runner (status_publisher_ p) = true → preparing_with (S (to_prepare (streams_ p))) p →
  runs MainComplete p (λ _ p', player_ok p').
Proof.
  intros Hr (Hf & Hs & Hw & Ec & Ep & Hl & Ej). unfold MainComplete, Complete. apply runs_get. rewrite Ej.
  apply runs_dcheck; [cbn; apply negb_true_iff, Z.eqb_neq; lia|]. apply runs_mod, runs_get. cbn. rewrite Ej. cbn [counter_ join_callback_].
  assert (to_prepare (streams_ p) ≤ length (streams_ p))%nat as Hle by apply length_filter.
  rewrite uwrap_small by (unfold is_u; lia).
  replace (Z.of_nat (S (to_prepare (streams_ p))) - 1) with (Z.of_nat (to_prepare (streams_ p))) by lia.
  destruct (Z.eqb_spec (Z.of_nat (to_prepare (streams_ p))) 0) as [E|E].
  - apply runs_mod. apply all_joined_runs; try done. change (to_prepare (streams_ p) = 0%nat). lia.
  - apply runs_ret. split; [done|]. apply preparing; try done. change (0 < to_prepare (streams_ p))%nat. lia.
Qed.

Section StreamJoin.
Context (i : nat) (p : @MediaPlayer T M) (Hi : (i < length (streams_ p))%nat).

Lemma StreamComplete_first n s Q :
  joiner s = mk_joiner (1 + n) (Some tt) → 0 < n < 2 ^ 32 →
  Q tt (focus i (s_set_joiner (mk_joiner n (Some tt)) s) p) → runs (StreamComplete i) (focus i s p) Q.
Proof.
  intros Ej Hn HQ. unfold StreamComplete, Complete. apply runs_get. rewrite stream_joiner_focus, Ej by done.
  apply runs_dcheck; [cbn [counter_]; apply negb_true_iff, Z.eqb_neq; lia|]. apply runs_mod, runs_get.
  rewrite !stream_joiner_focus, set_stream_joiner_focus, stream_joiner_focus, Ej by done. cbn [counter_ join_callback_].
  replace (1 + n - 1) with n by lia. rewrite uwrap_small by (unfold is_u; lia).
  cbn [joiner s_set_joiner counter_]. rewrite (proj2 (Z.eqb_neq n 0)) by lia. by apply runs_ret.
Qed.
Lemma StreamComplete_last s Q :
  joiner s = mk_joiner 1 (Some tt) →
  runs MainComplete (focus i (s_set_joiner (mk_joiner 0 None) s) p) Q → runs (StreamComplete i) (focus i s p) Q.
Proof.
  intros Ej HQ. unfold StreamComplete, Complete. apply runs_get. rewrite stream_joiner_focus, Ej by done.
  apply runs_dcheck; [done|]. apply runs_mod, runs_get.
  rewrite !stream_joiner_focus, set_stream_joiner_focus, stream_joiner_focus, Ej by done. cbn [counter_ join_callback_].
  change (1 - 1) with 0. change (uwrap 64 0) with 0. cbn [Z.eqb]. apply runs_mod.
  rewrite stream_joiner_focus, set_stream_joiner_focus by done. exact HQ.
Qed.

End StreamJoin.

(** ** Preparation *)

Definition connecting (c : completion) s : Stream := s_set_awaiting (awaiting s ++ [OnSinkConnected c]) (s_set_sink s).

Lemma await_stream_focus i cb s p : (i < length (streams_ p))%nat →
  await_stream i cb (focus i s p) = Ok (tt, focus i (s_set_awaiting (awaiting s ++ [cb]) s) p).
Proof. intros Hi. unfold await_stream. by rewrite mod_stream_focus. Qed.

Lemma CreateSink_runs i mt url c s p :
  (i < length (streams_ p))%nat → factory_ p = true → decoded_producer_ s = true →
  runs (CreateSink i (Some mt) url c) (focus i s p) (λ _ p', ∃ q, quiet p q ∧ p' = focus i (connecting c s) q).
Proof.
  intros Hi Hf Hd. unfold CreateSink. apply runs_the_stream; [done|]. apply runs_dcheck; [done|]. apply runs_get.
  apply runs_dcheck; [done|]. change (factory_ (focus i s p)) with (factory_ p). rewrite Hf, Hd.
  apply runs_invoke. apply runs_mod_stream; [done|]. apply runs_invoke, runs_invoke.
  eexists tt, _. split; [by apply await_stream_focus|]. eexists. split; [|done].
  by repeat (apply quiet_call; [done|]); apply quiet_calls_refl.
Qed.

Lemma PrepareStream_runs i url s p :
  (i < length (streams_ p))%nat → factory_ p = true →
  enabled_ s = true → sink_state s = UNPREPARED → awaiting s = [] →
  runs (PrepareStream i url) (focus i s p) (λ _ p', ∃ s' q, quiet p q ∧ p' = focus i s' q ∧ staged s' ∧ unfinished s' = true).
Proof.
  intros Hi Hf He Hs Ha. unfold PrepareStream. apply runs_get, runs_dcheck; [done|]. apply runs_invoke.
  apply runs_mod_stream; [done|]. apply runs_the_stream; [done|].
  change (factory_ (focus i s p)) with (factory_ p). rewrite Hf. destruct (_ && _).
  - apply runs_mod_stream; [done|]. apply runs_invoke. apply runs_mod_stream; [done|]. apply runs_invoke.
    apply runs_spawn; [done|]. apply runs_invoke. eapply runs_step; [by apply await_stream_focus|].
    apply runs_spawn; [done|]. apply runs_invoke. eapply runs_step; [by apply await_stream_focus|].
    unfold WhenJoined. apply runs_get. rewrite !stream_joiner_focus by done. cbn -[focus].
    apply runs_dcheck; [done|].
    change (u64 (u64 (0 + 1) + 1)) with 2. cbn [Z.eqb]. apply runs_mod_last.
    rewrite stream_joiner_focus, set_stream_joiner_focus by done.
    eexists _, _. split_and!; [|reflexivity| |].
    + by repeat (apply quiet_call; [done|]); apply quiet_calls_refl.
    + apply (staged_decoder _ true); cbn; try done. by rewrite Ha.
    + unfold unfinished. cbn. by rewrite Ha.
  - apply runs_mod_stream; [done|]. apply runs_mod_stream; [done|].
    eapply runs_mono; [by apply CreateSink_runs|]. intros ? p' (q & Hq & ->).
    eexists _, q. split_and!; [|reflexivity| |].
    + eapply quiet_calls_trans; [|done]. apply quiet_call; [done|apply quiet_calls_refl].
    + apply staged_direct; cbn; try done. by rewrite Ha.
    + unfold unfinished. cbn. by rewrite Ha.
Qed.

(** The player while it prepares the streams that are described. *)
Definition describing_with p : Prop :=
  factory_ p = true ∧ Forall staged (streams_ p) ∧ waiting_control (control p) ∧ commands p = [] ∧
  protocol (calls p) = Some true ∧
  callback_joiner p = mk_joiner (Z.of_nat (to_prepare (streams_ p))) None.

Lemma describe_loop_runs types : ∀ p,
  describing_with p → Z.of_nat (length (streams_ p) + length types) < 2 ^ 32 →
  has_callback_runner (status_publisher_ p) = true →
  runs (describe_loop types) p (λ _ p', describing_with p' ∧ Z.of_nat (length (streams_ p')) < 2 ^ 32 ∧
    has_callback_runner (status_publisher_ p') = true).
Proof.
  induction types as [|mt types IH]; intros p Hp Hl Hr; cbn [describe_loop].
  - apply runs_ret. split_and!; [done|cbn in Hl; lia|done].
  - pose proof Hp as (Hf & Hs & Hw & Ec & Epr & Ej). apply runs_get. apply runs_mod.
    set (p1 := set_streams (streams_ p ++ [new_stream (length (streams_ p)) mt]) p).
    set (i := length (streams_ p)).
    assert (i < length (streams_ p1))%nat as Hi by (cbn; rewrite length_app; cbn; lia).
    assert (streams_ p1 !! i = Some (new_stream i mt)) as Hlk by (cbn; apply list_lookup_middle; done).
    destruct (sink_url (medium mt)) as [url|].
    + eapply runs_bind with (Q := λ _ p', describing_with p' ∧ length (streams_ p') = S i ∧
        has_callback_runner (status_publisher_ p') = true).
      * rewrite <- (focus_self i _ p1 Hlk). apply runs_mod_stream; [done|]. unfold Spawn. apply runs_mod.
        set (j := mk_joiner _ _). change (set_joiner j (focus i ?s p1)) with (focus i s (set_joiner j p1)).
        eapply runs_mono; [by apply PrepareStream_runs|]. intros ? p' (s' & q & Hq & -> & Hs' & Hu').
        pose proof (quiet_protocol _ _ Hq) as Hpr. destruct Hq as (cs & Hcs & ->).
        assert (<[i:=s']> (streams_ p1) = streams_ p ++ [s']) as Ess.
        { cbn. unfold i. rewrite insert_app_r_alt by lia. by rewrite Nat.sub_diag. }
        assert (to_prepare (streams_ p ++ [s']) = S (to_prepare (streams_ p))) as Etp.
        { rewrite to_prepare_app, to_prepare_one, Hu'. lia. }
        split_and!; [|cbn; by rewrite length_insert, length_app, Nat.add_1_r|done].
        unfold describing_with. change (streams_ (focus i s' ?q)) with (<[i:=s']> (streams_ q)). 
        change (streams_ (add_calls cs (set_joiner j p1))) with (streams_ p1). rewrite Ess, Etp.
        split_and!; [done|by apply Forall_app_2; [|constructor]|exact Hw|exact Ec| |].
        -- change (protocol (calls (add_calls cs (set_joiner j p1))) = Some true). by rewrite Hpr.
        -- cbn. unfold j. cbn. rewrite Ej. cbn. f_equal.
           assert (to_prepare (streams_ p) ≤ length (streams_ p))%nat by apply length_filter.
           cbn in Hl. rewrite uwrap_small by (unfold is_u; lia). lia.
      * intros ? p' (Hp' & Hl' & Hr'). apply IH; [done| |done]. rewrite Hl'. cbn in Hl. unfold i. lia.
    + eapply runs_step with (a := tt) (s' := p1); [done|]. apply IH; [|cbn; rewrite length_app; cbn in *; lia|done].
      split_and!; try done.
      * apply Forall_app_2; [done|]. constructor; [by apply staged_disabled|done].
      * change (streams_ p1) with (streams_ p ++ [new_stream i mt]). rewrite to_prepare_app, to_prepare_one. cbn [unfinished existsb awaiting new_stream].
        by rewrite Nat.add_0_r.
Qed.

Lemma Described_runs types p :
  factory_ p = true → streams_ p = [] → waiting_control (control p) → commands p = [] →
  protocol (calls p) = Some true → Z.of_nat (length types) < 2 ^ 32 →
  has_callback_runner (status_publisher_ p) = true →
  runs (Described types) p (λ _ p', player_ok p').
Proof.
  intros Hf Hs Hw Ec Epr Hl Hr. unfold Described. apply runs_mod.
  eapply runs_bind.
  - apply describe_loop_runs; [|cbn; by rewrite Hs|done].
    unfold describing_with. cbn. rewrite Hs. split_and!; try done; apply Hw.
  - cbn beta. intros ? p1 ((Hf1 & Hs1 & Hw1 & Ec1 & Ep1 & Ej1) & Hl1 & Hr1). unfold WhenJoined. apply runs_get.
    rewrite Ej1. cbn [join_callback_ counter_]. apply runs_dcheck; [done|].
    destruct (Z.eqb_spec (Z.of_nat (to_prepare (streams_ p1))) 0) as [E|E].
    + apply all_joined_runs; try done. lia.
    + apply runs_mod_last. split; [done|]. apply preparing; try done.
      * change (0 < to_prepare (streams_ p1))%nat. lia.
      * cbn. by rewrite Ej1.
Qed.

(** ** Frames *)

Lemma AllSinksAre_ext k p p' : streams_ p' = streams_ p → AllSinksAre k p' = AllSinksAre k p.
Proof. unfold AllSinksAre. by intros ->. Qed.

Lemma at_rest_ext p p' : (∀ k, AllSinksAre k p' = AllSinksAre k p) → control p' = control p → at_rest p → at_rest p'.
Proof. intros Ek Ec. unfold at_rest. rewrite Ec. destruct (state_ _); by rewrite ?Ek. Qed.

Lemma controlled_ext p p' : control p' = control p → commands p' = commands p → protocol (calls p') = protocol (calls p) →
  controlled p → controlled p'.
Proof. intros Ec Em Ep. unfold controlled. by rewrite Ec, Em, Ep. Qed.

Lemma phase_ext p p' :
  factory_ p' = factory_ p → streams_ p' = streams_ p → control p' = control p → commands p' = commands p →
  protocol (calls p') = protocol (calls p) → callback_joiner p' = callback_joiner p → phase p → phase p'.
Proof.
  intros Ef Es Ec Em Ep Ej [Hf Hs Hw Hm Hp|Hf Hs Hw Hm Hp Ht Hl Hj|Hs Ht Hc Hr].
  - apply describing; by rewrite ?Ef, ?Es, ?Ec, ?Em, ?Ep.
  - apply preparing; by rewrite ?Ef, ?Es, ?Ec, ?Em, ?Ep, ?Ej.
  - apply running; rewrite ?Es; [done..| |].
    + by eapply controlled_ext.
    + eapply at_rest_ext; [|done..]. intros k. by apply AllSinksAre_ext.
Qed.

Lemma published_ok p p' : player_ok p → published p p' → player_ok p'.
Proof. intros [Hr Hp] (pub & rs & H & ->). split; [cbn; congruence|]. eapply phase_ext; [..|exact Hp]; done. Qed.

Lemma filter_remove_one {A} `{EqDecision A} (P : A → Prop) `{∀ x, Decision (P x)} x l :
  filter P (remove_one x l) = if decide (P x) then remove_one x (filter P l) else filter P l.
Proof.
  induction l as [|y l IH]; cbn [remove_one].
  - cbn. by destruct (decide (P x)).
  - destruct (decide (x = y)) as [<-|Hne].
    + rewrite filter_cons. destruct (decide (P x)); [|done]. cbn [remove_one]. by rewrite decide_True by done.
    + rewrite !filter_cons, IH. destruct (decide (P y)), (decide (P x)); try done.
      cbn [remove_one]. by rewrite decide_False by done.
Qed.

Lemma commands_take cb p : cb ≠ OnMetadata →
  commands (set_demux_awaiting (remove_one cb (demux_awaiting p)) p) = remove_one cb (commands p).
Proof. intros H. unfold commands. cbn. rewrite filter_remove_one. by rewrite decide_True by done. Qed.
Lemma commands_awaited cb p : cb ≠ OnMetadata → cb ∈ demux_awaiting p → cb ∈ commands p.
Proof. intros H1 H2. by apply list_elem_of_filter. Qed.

(** Only one phase has a given command outstanding. *)
Lemma phase_command cb p : phase p → cb ∈ commands p →
  commands p = [cb] ∧
  match cb with
  | OnDescribe => factory_ p = true ∧ streams_ p = [] ∧ waiting_control (control p) ∧ protocol (calls p) = Some true
  | OnMetadata => False
  | OnPrimed => state_ (control p) = kWaiting ∧ flushed_ (control p) = false ∧ protocol (calls p) = Some false
  | OnFlushed => state_ (control p) = kWaiting ∧ target_position_ (control p) ≠ kNotSeeking ∧ protocol (calls p) = Some true
  | OnSought => state_ (control p) = kWaiting ∧ flushed_ (control p) = true ∧ protocol (calls p) = Some true
  end ∧ (cb ≠ OnDescribe → Forall staged (streams_ p) ∧ to_prepare (streams_ p) = 0%nat).
Proof.
  intros Hp Hin. destruct Hp as [Hf Hs Hw Hm Hpr|Hf Hs Hw Hm|Hs Ht Hc Hr].
  - rewrite Hm in Hin. apply list_elem_of_singleton in Hin as ->. by rewrite Hm.
  - rewrite Hm in Hin. by apply elem_of_nil in Hin.
  - unfold controlled in Hc. destruct (state_ (control p)) eqn:E.
    + destruct Hc as [(Em & ? & ?)|[(Em & ? & ? & ?)|(Em & ? & ?)]]; rewrite Em in *;
        apply list_elem_of_singleton in Hin as ->; by split_and!.
    + destruct Hc as [Em _]. rewrite Em in Hin. by apply elem_of_nil in Hin.
    + destruct Hc as [Em _]. rewrite Em in Hin. by apply elem_of_nil in Hin.
    + destruct Hc as [Em _]. rewrite Em in Hin. by apply elem_of_nil in Hin.
    + destruct Hc as [Em _]. rewrite Em in Hin. by apply elem_of_nil in Hin.
Qed.

(** [Update] of a player whose streams are prepared. *)
Lemma Update_ok p :
  has_callback_runner (status_publisher_ p) = true → Forall staged (streams_ p) → to_prepare (streams_ p) = 0%nat →
  controlled p → runs Update p (λ _ p', player_ok p').
Proof.
  intros Hr Hs Ht Hc. eapply runs_mono; [apply Update_runs; try done; by apply sinks_bound_staged|].
  intros ? p' [Hp Hrest]. destruct (pr_stable _ _ Hp) as (Es & _ & _ & Hr'). split; [auto|].
  apply running; rewrite ?Es; try done. apply Hp.
Qed.

(** Client calls change targets. *)
Lemma retarget_ok p c :
  player_ok p → state_ c = state_ (control p) → flushed_ c = flushed_ (control p) →
  reported_media_state_ c = reported_media_state_ (control p) →
  (target_position_ (control p) ≠ kNotSeeking → target_position_ c ≠ kNotSeeking) →
  runs Update (set_control c p) (λ _ p', player_ok p').
Proof.
  intros [Hr Hp] Es Ef Er Et. destruct Hp as [Hf Hs Hw Hm Hpr|Hf Hs Hw Hm Hpr Ht Hl Hj|Hs Ht Hc Hre].
  - eexists tt, _. split; [apply Update_waiting; cbn; by rewrite Es; apply Hw|]. split; [done|].
    apply describing; try done. unfold waiting_control in *. cbn. by rewrite Es, Ef, Er.
  - eexists tt, _. split; [apply Update_waiting; cbn; by rewrite Es; apply Hw|]. split; [done|].
    apply preparing; try done. unfold waiting_control in *. cbn. by rewrite Es, Ef, Er.
  - apply Update_ok; try done. unfold controlled in *. cbn. rewrite Es, Ef.
    destruct (state_ (control p)); try done. destruct Hc as [?|[(? & ? & ? & ?)|?]]; [by left| |by right; right].
    right. left. split_and!; auto.
Qed.

(** ** Replies of the demux *)

Lemma demux_command_ok (e : prog (@MediaPlayer T M) unit) cb p :
  player_ok p → cb ∈ demux_awaiting p → cb ≠ OnMetadata → cb ≠ OnDescribe →
  (∀ p', p' = set_demux_awaiting (remove_one cb (demux_awaiting p)) p → commands p' = [] → runs e p' (λ _ p', player_ok p')) →
  runs (_ ← take_demux cb; e) p (λ _ p', player_ok p').
Proof.
  intros [Hr Hp] Hin H1 H2 He. apply runs_mod. apply He; [done|]. rewrite commands_take by done.
  destruct (phase_command cb p Hp) as [-> _]; [by apply commands_awaited|]. cbn. by rewrite decide_True by done.
Qed.

Lemma Primed_ok p : player_ok p → OnPrimed ∈ demux_awaiting p → runs (handle EvPrimed) p (λ _ p', player_ok p').
Proof.
  intros Hok Hin. apply demux_command_ok; try done. intros p' -> Hm.
  destruct Hok as [Hr Hp]. destruct (phase_command OnPrimed p Hp) as (_ & (Ew & Ef & Epr) & Hst); [by apply commands_awaited|].
  destruct (Hst ltac:(done)) as [Hs Ht]. unfold Primed.
  eapply runs_step; [by apply ChangeSinkStates_calls, sinks_bound_staged|]. apply runs_mod.
  apply Update_ok; try done. unfold controlled. cbn. rewrite protocol_neutral by apply sink_calls_neutral. by rewrite Ef.
Qed.

Lemma Flushed_ok p : player_ok p → OnFlushed ∈ demux_awaiting p → runs (handle EvFlushed) p (λ _ p', player_ok p').
Proof.
  intros Hok Hin. apply demux_command_ok; try done. intros p' -> Hm.
  destruct Hok as [Hr Hp]. destruct (phase_command OnFlushed p Hp) as (_ & (Ew & Et & Epr) & Hst); [by apply commands_awaited|].
  destruct (Hst ltac:(done)) as [Hs Ht]. unfold Flushed. apply runs_mod. unfold WhenFlushedAndSeeking.
  apply runs_mod, runs_get, runs_dcheck; [by apply negb_true_iff, Z.eqb_neq|]. apply runs_mod, runs_mod_last.
  split; [done|]. apply running; try done. right. right. split_and!; [|done|].
  - etrans; [apply (commands_snoc (set_demux_awaiting _ p)); done|]. by rewrite Hm.
  - cbn. by rewrite protocol_app, Epr.
Qed.

Lemma Sought_ok p : player_ok p → OnSought ∈ demux_awaiting p → runs (handle EvSought) p (λ _ p', player_ok p').
Proof.
  intros Hok Hin. apply demux_command_ok; try done. intros p' -> Hm.
  destruct Hok as [Hr Hp]. destruct (phase_command OnSought p Hp) as (_ & (Ew & Ef & Epr) & Hst); [by apply commands_awaited|].
  destruct (Hst ltac:(done)) as [Hs Ht]. unfold Sought. apply runs_mod, runs_mod.
  apply Update_ok; try done. unfold controlled. cbn. by rewrite Ef.
Qed.

Lemma Described_ok types p :
  player_ok p → OnDescribe ∈ demux_awaiting p → Z.of_nat (length types) < 2 ^ 32 →
  runs (handle (EvDescribed types)) p (λ _ p', player_ok p').
Proof.
  intros [Hr Hp] Hin Hl. apply runs_mod.
  destruct (phase_command OnDescribe p Hp) as (Hm & (Hf & Hs & Hw & Epr) & _); [by apply commands_awaited|].
  apply Described_runs; try done. by rewrite commands_take, Hm by done.
Qed.

Lemma Metadata_ok v m p :
  player_ok p → OnMetadata ∈ demux_awaiting p → runs (handle (EvMetadata v m)) p (λ _ p', player_ok p').
Proof.
  intros Hok Hin. apply runs_mod. unfold HandleDemuxMetadataUpdates.
  set (p1 := set_demux_awaiting _ p).
  assert (player_ok p1) as Hok1.
  { destruct Hok as [Hr Hp]. split; [done|]. eapply phase_ext; [..|exact Hp]; try done.
    unfold commands, p1. cbn. rewrite filter_remove_one. destruct (decide _); [done|done]. }
  eapply runs_bind with (Q := λ _ p', player_ok p').
  - destruct m as [m|]; [|by apply runs_ret]. apply runs_mod.
    eapply runs_mono; [apply SendUpdates_published; apply Hok1|]. intros ? p' Hp'. eapply published_ok; [|exact Hp'].
    destruct Hok1 as [Hr Hp]. split; [done|]. eapply phase_ext; [..|exact Hp]; done.
  - intros ? p2 [Hr2 Hp2]. apply runs_mod, runs_mod_last. split; [done|].
    eapply phase_ext; [..|exact Hp2]; try done.
    + unfold commands. cbn. rewrite filter_app. cbn. by rewrite app_nil_r.
    + by apply protocol_neutral.
Qed.

(** ** Replies of a stream's objects *)

Section StreamReplies.
Context (i : nat) (s : Stream) (p : @MediaPlayer T M) (Hok : player_ok p) (Hi : streams_ p !! i = Some s).

Lemma stream_index : (i < length (streams_ p))%nat.
Proof. by eapply lookup_lt_Some. Qed.

Lemma stream_staged : staged s.
Proof.
  destruct Hok as [_ [? Hs|? Hs|Hs]]; [by rewrite Hs in Hi|..]; rewrite Forall_forall in Hs;
    by apply Hs; eapply list_elem_of_lookup_2.
Qed.

Lemma staged_insert s' : Forall staged (streams_ p) → staged s' → Forall staged (<[i:=s']> (streams_ p)).
Proof. apply Forall_insert. Qed.

Lemma to_prepare_pos : unfinished s = true → (0 < to_prepare (streams_ p))%nat.
Proof.
  intros Hu. destruct (decide (to_prepare (streams_ p) = 0%nat)) as [E|]; [|lia].
  apply to_prepare_zero in E. rewrite Forall_forall in E. rewrite E in Hu; [done|]. by eapply list_elem_of_lookup_2.
Qed.

(** A stream that is not prepared is in a player that prepares. *)
Lemma unfinished_preparing : unfinished s = true → preparing_with (to_prepare (streams_ p)) p.
Proof.
  intros Hu. destruct Hok as [_ [Hf Hs|Hf Hs Hw Hm Hpr Ht Hl Hj|Hs Ht]].
  - by rewrite Hs in Hi.
  - by split_and!.
  - pose proof (to_prepare_pos Hu). lia.
Qed.

(** The stream goes on, or is done. *)
Lemma stream_goes_on s' q :
  unfinished s = true → staged s' → unfinished s' = true → quiet p q → player_ok (focus i s' q).
Proof.
  intros Hu Hs' Hu' Hq. pose proof (quiet_protocol _ _ Hq) as Hpr. destruct Hq as (cs & Hcs & ->).
  destruct (unfinished_preparing Hu) as (Hf & Hs & Hw & Hm & Ep & Hl & Hj).
  pose proof (to_prepare_insert _ _ _ s' Hi) as Ht. rewrite !to_prepare_one, Hu, Hu' in Ht. cbv match in Ht.
  split; [apply Hok|]. apply preparing; try done.
  - by apply staged_insert.
  - cbn. by rewrite protocol_neutral.
  - change (0 < to_prepare (<[i:=s']> (streams_ p)))%nat. pose proof (to_prepare_pos Hu). lia.
  - cbn. by rewrite length_insert.
  - change (callback_joiner p = mk_joiner (Z.of_nat (to_prepare (<[i:=s']> (streams_ p)))) (Some tt)). rewrite Hj. do 2 f_equal. lia.
Qed.

Lemma stream_done s' q :
  unfinished s = true → staged s' → unfinished s' = false → quiet p q →
  runs MainComplete (focus i s' q) (λ _ p', player_ok p').
Proof.
  intros Hu Hs' Hu' Hq. pose proof (quiet_protocol _ _ Hq) as Hpr. destruct Hq as (cs & Hcs & ->).
  destruct (unfinished_preparing Hu) as (Hf & Hs & Hw & Hm & Ep & Hl & Hj).
  pose proof (to_prepare_insert _ _ _ s' Hi) as Ht. rewrite !to_prepare_one, Hu, Hu' in Ht. cbv match in Ht.
  apply MainComplete_runs; [apply Hok|].
  change (streams_ (focus i s' (add_calls cs p))) with (<[i:=s']> (streams_ p)).
  split_and!; try done.
  - by apply staged_insert.
  - cbn. by rewrite protocol_neutral.
  - cbn. by rewrite length_insert.
  - change (callback_joiner p = mk_joiner (Z.of_nat (S (to_prepare (<[i:=s']> (streams_ p))))) (Some tt)). rewrite Hj. do 2 f_equal. lia.
Qed.

End StreamReplies.

(** Starts a handler with the callback taken from the stream. *)
Lemma take_stream_runs i cb s p (k : unit → prog (@MediaPlayer T M) unit) Q : streams_ p !! i = Some s →
  runs (k tt) (focus i (s_set_awaiting (remove_one cb (awaiting s)) s) p) Q →
  runs (take_stream i cb ≫= k) p Q.
Proof.
  intros Hi H. rewrite <- (focus_self i s p Hi). unfold take_stream.
  apply runs_mod_stream; [by eapply lookup_lt_Some|done].
Qed.

Lemma EncodedConnected_ok i p :
  player_ok p → stream_awaits i OnEncodedConnected p → runs (handle (EvEncodedConnected i)) p (λ _ p', player_ok p').
Proof.
  intros Hok (s & Hi & Hin). pose proof (stream_index i s p Hi) as Hlt.
  cbn [handle]. eapply take_stream_runs; [done|]. unfold EncodedConnected. apply runs_mod_stream; [done|].
  assert (unfinished s = true) as Hu.
  { unfold unfinished. apply existsb_exists. exists OnEncodedConnected. split; [by apply list_elem_of_In|done]. }
  destruct (stream_staged i s p Hok Hi) as [? Ea|? ? ? Ea|[] ? ? ? Ea Ej|[] ? ? ? Ea Ej|? ? Ea Ej|? ? Ea]; rewrite Ea in *;
    try (exfalso; set_solver).
  - eapply (StreamComplete_first _ _ Hlt 1); [done|lia|].
    eapply (stream_goes_on i s p Hok Hi); [done|by apply (staged_decoder _ false)|done|apply quiet_calls_refl].
  - eapply (StreamComplete_first _ _ Hlt 1); [done|lia|].
    eapply (stream_goes_on i s p Hok Hi); [done|by apply (staged_sink _ false)|done|apply quiet_calls_refl].
  - eapply StreamComplete_last; [done|done|].
    eapply (stream_done i s p Hok Hi); [done|by apply staged_ready|done|apply quiet_calls_refl].
Qed.

Lemma OutputType_ok i t p :
  player_ok p → stream_awaits i OnOutputType p → is_Some t → runs (handle (EvOutputType i t)) p (λ _ p', player_ok p').
Proof.
  intros Hok (s & Hi & Hin) [mt ->]. pose proof (stream_index i s p Hi) as Hlt.
  cbn [handle]. eapply take_stream_runs; [done|]. apply runs_the_stream; [done|]. unfold OutputType.
  apply runs_the_stream; [done|].
  assert (unfinished s = true) as Hu.
  { unfold unfinished. apply existsb_exists. exists OnOutputType. split; [by apply list_elem_of_In|done]. }
  assert (factory_ p = true) as Hf by by apply (unfinished_preparing i s p Hok Hi).
  destruct (stream_staged i s p Hok Hi) as [? Ea|? ? ? Ea|enc He Hd Hs Ea Ej|[] ? ? ? Ea Ej|? ? Ea Ej|? ? Ea]; rewrite Ea in *;
    try (exfalso; set_solver).
  assert (remove_one OnOutputType (enc_cb enc ++ [OnOutputType]) = enc_cb enc) as -> by by destruct enc.
  cbn [decoder_ s_set_awaiting]. rewrite Hd. apply runs_invoke, runs_mod_stream; [done|]. apply runs_spawn; [done|].
  eapply runs_bind; [by apply CreateSink_runs|]. intros ? p' (q & Hq & ->).
  assert (i < length (streams_ q))%nat as Hlq by (destruct Hq as (cs & _ & ->); done).
  apply (StreamComplete_first i q Hlq (1 + Z.b2z enc)).
  - cbn. rewrite Ej. cbn. rewrite uwrap_small; [f_equal; destruct enc; cbn; lia|]. destruct enc; unfold is_u; cbn; lia.
  - destruct enc; cbn; lia.
  - eapply (stream_goes_on i s p Hok Hi); [done| | |].
    + by apply (staged_sink _ enc).
    + unfold unfinished. cbn. by destruct enc.
    + eapply quiet_calls_trans; [|done]. by apply quiet_call, quiet_calls_refl.
Qed.

Lemma SinkConnected_ok i c p :
  player_ok p → stream_awaits i (OnSinkConnected c) p → runs (handle (EvSinkConnected i c)) p (λ _ p', player_ok p').
Proof.
  intros Hok (s & Hi & Hin). pose proof (stream_index i s p Hi) as Hlt.
  cbn [handle]. eapply take_stream_runs; [done|]. unfold SinkConnected.
  assert (unfinished s = true) as Hu.
  { unfold unfinished. apply existsb_exists. exists (OnSinkConnected c). split; [by apply list_elem_of_In|done]. }
  pose proof (unfinished_preparing i s p Hok Hi Hu) as (_ & _ & (_ & _ & Hrep) & _).
  assert (sink_state s = UNPREPARED ∧ sink_ s = true) as [Hs Hsk].
  { destruct (stream_staged i s p Hok Hi) as [? Ea|? ? ? Ea|[] ? ? ? Ea Ej|[] ? ? ? Ea Ej|? ? Ea Ej|? ? Ea]; rewrite Ea in Hin;
      try (exfalso; set_solver); done. }
  apply runs_mod_stream; [done|]. apply runs_the_stream; [done|]. apply runs_dcheck; [by apply bool_decide_eq_true|].
  apply runs_get, runs_dcheck; [cbn; by rewrite Hrep|]. apply runs_mod_stream; [done|].
  unfold HandleSinkStatusUpdates. set (s1 := s_set_state PAUSED _).
  eapply runs_bind with (Q := λ _ p', p' = focus i (s_set_awaiting (awaiting s1 ++ [OnSinkStatus]) s1)
    (add_call (Sink_GetStatus i kInitialStatus) p)).
  { eapply runs_step with (a := tt); [done|]. apply runs_the_stream; [done|]. unfold s1 at 1. cbn [sink_ s_set_state s_set_decoded s_set_awaiting].
    rewrite Hsk. apply runs_invoke. eexists tt, _. split; [by apply await_stream_focus|done]. }
  intros ? p' ->. set (q := add_call _ p). assert (quiet p q) as Hq by (by apply quiet_call, quiet_calls_refl).
  destruct (stream_staged i s p Hok Hi) as [? Ea|? ? ? Ea|[] ? ? ? Ea Ej|[] ? ? ? Ea Ej|? ? Ea Ej|? ? Ea]; rewrite Ea in *;
    try (exfalso; set_solver).
  - apply list_elem_of_singleton in Hin. injection Hin as ->. cbn [complete].
    eapply (stream_done i s p Hok Hi); [done| | |done].
    + apply staged_ready; try done; cbn. by rewrite Ea.
    + unfold unfinished. cbn. by rewrite Ea.
  - assert (c = StreamJoiner) as -> by set_solver. cbn [complete].
    eapply (StreamComplete_first i q Hlt 1); [done|lia|].
    eapply (stream_goes_on i s p Hok Hi); [done| | |done].
    + apply staged_input; try done; cbn. by rewrite Ea.
    + unfold unfinished. cbn. by rewrite Ea.
  - assert (c = StreamJoiner) as -> by set_solver. cbn [complete].
    eapply (StreamComplete_last i q Hlt); [done|].
    eapply (stream_done i s p Hok Hi); [done| | |done].
    + apply staged_ready; try done; cbn. by rewrite Ea.
    + unfold unfinished. cbn. by rewrite Ea.
Qed.

(** ** Status of sinks *)

(** A stream whose sink's status is asked for. *)
Lemma status_awaited s : staged s → OnSinkStatus ∈ awaiting s →
  enabled_ s = true ∧ prepared_sink s ∧ remove_one OnSinkStatus (awaiting s) ++ [OnSinkStatus] = awaiting s.
Proof.
  intros [? Ea|? ? ? Ea|[] ? ? ? Ea Ej|[] ? ? ? Ea Ej|? ? Ea Ej|? ? Ea] Hin; rewrite Ea in *; try (exfalso; set_solver); done.
Qed.

Lemma awaiting_same s : s_set_awaiting (awaiting s) s = s.
Proof. by destruct s. Qed.

(** A sink's new state keeps the stage. *)
Lemma staged_state s m : staged s → OnSinkStatus ∈ awaiting s → MediaState_value UNPREPARED < MediaState_value m →
  staged (s_set_state m s) ∧ unfinished (s_set_state m s) = unfinished s.
Proof.
  intros Hs Hin Hm. split; [|done].
  destruct Hs as [? Ea|? ? ? Ea|[] ? ? ? Ea Ej|[] ? ? ? Ea Ej|? [] Ea Ej|? [] Ea]; rewrite Ea in Hin; try (exfalso; set_solver).
  - by apply staged_input.
  - by apply staged_ready.
Qed.

Lemma AllSinksAre_insert k i s s' p : streams_ p !! i = Some s →
  enabled_ s' = enabled_ s → sink_state s' = sink_state s → AllSinksAre k (focus i s' p) = AllSinksAre k p.
Proof.
  intros Hi He Hs. unfold AllSinksAre, focus. cbn. revert i Hi. induction (streams_ p) as [|t ss IH]; intros [|i] Hi; [done..| |].
  - injection Hi as ->. cbn. by rewrite He, Hs.
  - cbn. f_equal. by apply IH.
Qed.

(** Asking for the next status leaves everything as it was. *)
Lemma ask_status_ok i v s p :
  streams_ p !! i = Some s → sink_ s = true → has_callback_runner (status_publisher_ p) = true →
  phase (focus i (s_set_awaiting (awaiting s ++ [OnSinkStatus]) s) p) →
  runs (s ← the_stream i; _ ← invoke (sink_ s) (Sink_GetStatus i v); await_stream i OnSinkStatus) p
    (λ _ p', player_ok p' ∧ p' = focus i (s_set_awaiting (awaiting s ++ [OnSinkStatus]) s) (add_call (Sink_GetStatus i v) p)).
Proof.
  intros Hi Hs Hr Hp. pose proof (stream_index i s p Hi) as Hlt. rewrite <- (focus_self i s p Hi) at 1.
  apply runs_the_stream; [done|]. rewrite Hs. apply runs_invoke. eexists tt, _. split; [by apply await_stream_focus|].
  split; [|done]. split; [done|]. eapply phase_ext; [..|exact Hp]; try done. cbn. by apply protocol_neutral.
Qed.

Lemma phase_focus i s p s' :
  phase p → streams_ p !! i = Some s → staged s' → unfinished s' = unfinished s →
  (at_rest p → at_rest (focus i s' p)) → phase (focus i s' p).
Proof.
  intros Hp Hi Hs' Hu Hrest. pose proof (to_prepare_insert _ _ _ s' Hi) as Ht.
  rewrite !to_prepare_one, Hu in Ht. assert (to_prepare (<[i:=s']> (streams_ p)) = to_prepare (streams_ p)) as Et by lia.
  destruct Hp as [Hf Hs|Hf Hs Hw Hm Hpr Hz Hl Hj|Hs Hz Hc Hr].
  - by rewrite Hs in Hi.
  - apply preparing; try done; change (streams_ (focus i s' p)) with (<[i:=s']> (streams_ p)); rewrite ?Et; try done.
    + by apply Forall_insert.
    + by rewrite length_insert.
  - apply running; change (streams_ (focus i s' p)) with (<[i:=s']> (streams_ p)); rewrite ?Et; try done.
    + by apply Forall_insert.
    + by apply Hrest.
Qed.

(** What a report of a sink's state starts with. *)
Definition reported_sink (i : nat) (state : MediaState) s p : MediaPlayer :=
  focus i (s_set_state state (s_set_awaiting (remove_one OnSinkStatus (awaiting s)) s)) p.

Lemma SinkStatus_ok i v st p :
  player_ok p → stream_awaits i OnSinkStatus p → runs (handle (EvSinkStatus i v st)) p (λ _ p', player_ok p').
Proof.
  intros Hok (s & Hi & Hin). pose proof (stream_index i s p Hi) as Hlt.
  pose proof (stream_staged i s p Hok Hi) as Hst. destruct (status_awaited s Hst Hin) as (He & [Hsk Hpr] & Haw).
  cbn [handle]. eapply take_stream_runs; [done|]. set (s0 := s_set_awaiting _ s). unfold HandleSinkStatusUpdates.
  assert (∀ p0 : @MediaPlayer T M, p0 = focus i s0 p →
    runs (s ← the_stream i; _ ← invoke (sink_ s) (Sink_GetStatus i v); await_stream i OnSinkStatus) p0 (λ _ p', player_ok p')) as Hask.
  { intros p0 ->. eapply runs_mono; [apply (ask_status_ok i v s0)|by intros ? ? [? _]].
    - by apply focus_lookup.
    - done.
    - apply Hok.
    - rewrite focus_focus. unfold s0. cbn [awaiting s_set_awaiting].
      change (s_set_awaiting ?l (s_set_awaiting _ s)) with (s_set_awaiting l s). rewrite Haw, awaiting_same, focus_self by done. apply Hok. }
  destruct st as [[state transform]|]; [|by apply runs_step with (a := tt) (s' := focus i s0 p); [|apply Hask]].
  destruct (MediaState_value UNPREPARED <? MediaState_value state) eqn:Em;
    [|by apply runs_step with (a := tt) (s' := focus i s0 p); [|apply Hask]]. apply Z.ltb_lt in Em.
  set (s1 := s_set_state state s0). set (s2 := s_set_awaiting (awaiting s1 ++ [OnSinkStatus]) s1).
  assert (s2 = s_set_state state s) as E2.
  { unfold s2, s1, s0. cbn [awaiting s_set_state s_set_awaiting].
    change (s_set_awaiting ?l (s_set_state ?x (s_set_awaiting _ s))) with (s_set_state x (s_set_awaiting l s)).
    by rewrite Haw, awaiting_same. }
  destruct (staged_state s state Hst Hin Em) as [Hst2 Hu2]. rewrite <- E2 in Hst2, Hu2.
  eapply runs_bind with (Q := λ _ p', has_callback_runner (status_publisher_ p') = true ∧ streams_ p' !! i = Some s1 ∧
    phase (focus i s2 p')).
  - apply runs_the_stream; [done|]. apply runs_dcheck; [by apply Z.ltb_lt|]. apply runs_mod_stream; [done|]. fold s1.
    apply runs_mod. change (set_transform transform (focus i s1 p)) with (focus i s1 (set_transform transform p)).
    set (p1 := set_transform transform p).
    eapply runs_bind; [apply SendUpdates_published; apply Hok|]. intros ? p2 (pub & rs & Hrun & ->).
    set (p2 := mk_player _ _ _ _ _ _ _ _ _ _).
    assert (has_callback_runner (status_publisher_ p2) = true) as Hr2 by (etrans; [exact Hrun|apply Hok]).
    assert (streams_ p2 = <[i:=s1]> (streams_ p)) as Es2 by done.
    destruct (decide (state_ (control p) = kWaiting)) as [Ew|Ew].
    + eexists tt, _. split; [by apply Update_waiting|]. split_and!; [done|by rewrite Es2, list_lookup_insert_eq|].
      assert (phase (focus i s2 p)) as Hp2.
      { eapply phase_focus; [apply Hok|done..|]. intros _. unfold at_rest. cbn. by rewrite Ew. }
      eapply phase_ext; [..|exact Hp2]; try done. unfold focus. cbn. by rewrite list_insert_insert_eq.
    + destruct Hok as [_ Hp]. destruct Hp as [? ? [? _]|? ? [? _]|Hs Hz Hc Hr]; [done..|].
      pose proof (to_prepare_insert _ _ _ s2 Hi) as Ht. rewrite !to_prepare_one, Hu2 in Ht.
      assert (to_prepare (<[i:=s2]> (streams_ p)) = to_prepare (streams_ p)) as Et by lia.
      eapply runs_mono.
      * apply Update_runs; [done|done|]. unfold sinks_bound. rewrite Es2.
        apply Forall_insert; [|by intros]. apply (sinks_bound_staged p Hs Hz).
      * intros ? p3 [Hpg Hrest]. destruct (pr_stable _ _ Hpg) as (Es3 & _ & _ & Hr3).
        assert (streams_ p3 !! i = Some s1) as Hi3 by by rewrite Es3, Es2, list_lookup_insert_eq.
        split_and!; [auto|done|]. apply running;
          change (streams_ (focus i s2 p3)) with (<[i:=s2]> (streams_ p3)); rewrite ?Es3, ?Es2, ?list_insert_insert_eq, ?Et; try done.
        -- by apply Forall_insert.
        -- apply Hpg.
        -- apply (at_rest_ext p3); [|done|exact Hrest]. intros k. by eapply AllSinksAre_insert.
  - intros ? p' (Hr' & Hi' & Hp'). eapply runs_mono; [by apply (ask_status_ok i v s1)|]. by intros ? ? [? _].
Qed.

(** ** Every event *)

Lemma constructed : runs (MediaPlayerImpl true) (@unstarted T M) (λ _ p, player_ok p).
Proof.
  unfold MediaPlayerImpl. apply runs_dcheck; [done|]. apply runs_mod, runs_mod, runs_mod, runs_mod.
  eapply runs_step; [reflexivity|]. apply runs_mod, runs_mod_last. split; [done|]. by apply describing.
Qed.

Lemma handle_ok e p : player_ok p → possible e p → runs (handle e) p (λ _ p', player_ok p').
Proof.
  intros Hok. destruct e; cbn [possible].
  - intros [H1 H2]. by apply Described_ok.
  - by apply Metadata_ok.
  - by apply Primed_ok.
  - by apply Flushed_ok.
  - by apply Sought_ok.
  - by apply EncodedConnected_ok.
  - intros [H1 H2]. by apply OutputType_ok.
  - by apply SinkConnected_ok.
  - by apply SinkStatus_ok.
  - intros _. apply runs_mod. by apply retarget_ok.
  - intros _. apply runs_mod. by apply retarget_ok.
  - intros Hp. apply runs_mod. by apply retarget_ok.
  - intros _. eapply runs_mono; [apply GetStatus_published; apply Hok|]. intros ? p'. by apply published_ok.
Qed.

(** The states that a player can be in. *)
Inductive reached : @MediaPlayer T M → Prop :=
  | reached_start p : MediaPlayerImpl true unstarted = Ok (tt, p) → reached p
  | reached_event e p p' : reached p → possible e p → handle e p = Ok (tt, p') → reached p'.

Lemma reached_ok p : reached p → player_ok p.
Proof.
  induction 1 as [p E|e p p' _ IH Hp E].
  - destruct constructed as ([] & p1 & E1 & H). rewrite E in E1. by injection E1 as <-.
  - destruct (handle_ok e p IH Hp) as ([] & p1 & E1 & H). rewrite E in E1. by injection E1 as <-.
Qed.

(** C5. Whatever the order of replies and client calls, the player keeps the demux's protocol
    and never gets stuck in a handler.  In every state that it can be in, its calls primed,
    flushed and sought the demux in an order that the demux allows, at most one command has
    still to complete, and it waits exactly when there is one or a stream is not prepared;
    a player that is paused is not asked to play or to seek, and one that waits for its
    sinks has one that has not got there.  And it handles every event that can happen
    ([possible]), other than a seek to the position [INT64_MAX]: [Update]'s loop ends, no
    check fails, and no unbound interface is called.  (A client may ask for that position,
    which stands for "not seeking" in the player, and a check fails later.) *)
Theorem player_protocol p :
  reached p →
  is_Some (protocol (calls p)) ∧ (length (commands p) ≤ 1)%nat ∧
  (state_ (control p) = kWaiting ↔ commands p ≠ [] ∨ (0 < to_prepare (streams_ p))%nat) ∧
  at_rest p ∧
  ∀ e, possible e p → ∃ p', handle e p = Ok (tt, p') ∧ reached p'.
Proof.
  intros Hre. pose proof (reached_ok p Hre) as Hok.
  assert (∀ e, possible e p → ∃ p', handle e p = Ok (tt, p') ∧ reached p') as Hev.
  { intros e He. destruct (handle_ok e p Hok He) as ([] & p' & E & _). exists p'. split; [done|]. by eapply reached_event. }
  destruct Hok as [_ [Hf Hs [Hw _] Hm Hpr|Hf Hs [Hw _] Hm Hpr Ht Hl Hj|Hs Ht Hc Hr]].
  - rewrite Hpr, Hm. split_and!; [done|done| |unfold at_rest; by rewrite Hw|done]. split; [by left|done].
  - rewrite Hpr, Hm. split_and!; [done|cbn; lia| |unfold at_rest; by rewrite Hw|done]. split; [by right|done].
  - rewrite Ht. unfold controlled in Hc. split_and!; [| | |done|done].
    + destruct (state_ _); naive_solver.
    + destruct (state_ _); [destruct Hc as [(-> & _)|[(-> & _)|(-> & _)]]; cbn; lia|destruct Hc as [-> _]; cbn; lia..].
    + destruct (state_ _); [|by split; [|intros [?|?]; [naive_solver|lia]]..].
      split; [|done]. intros _. left. by destruct Hc as [(-> & _)|[(-> & _)|(-> & _)]].
Qed.

End Spec.
End PlayerSpec.
