(* ===== verification/PlayerRun.v ===== *)
(** The media player gets where its client wants it.  When the demux completes its commands
    and the sinks do as they are told, a player that was at rest comes to rest again after
    any call of its client, in a number of replies that the number of streams bounds. *)

From S2P Require Import Prelude MediaStates Incident Publisher Player PlayerSpec.
Import MediaStates Incident Publisher Player PlayerSpec.
Local Open Scope Z_scope.

Module PlayerRun.
Section Run.
Context {T M : Type} `{BD : Build}.
Implicit Types (p q : @MediaPlayer T M) (s : Stream).

(** ** Remote objects that do as they are told *)

(** The sinks that have not got to the state that the player waits for. *)
Definition lags (k : SinkState) s : Prop := enabled_ s = true ∧ sink_is k (sink_state s) = false.
#[local] Instance lags_dec k s : Decision (lags k s).
Proof. unfold lags. apply _. Defined.

(** The next reply: the outstanding command completes, or the first sink that lags reports
    the state it was told to take. *)
Definition sink_reply (k : SinkState) (m : MediaState) p : option (@event T M) :=
  match list_find (lags k) (streams_ p) with
  | Some (i, _) => Some (EvSinkStatus i 0 (Some (m, None)))
  | None => None
  end.
Definition reply p : option event :=
  match state_ (control p) with
  | kWaiting =>
      match commands p with
      | [OnPrimed] => Some EvPrimed
      | [OnFlushed] => Some EvFlushed
      | [OnSought] => Some EvSought
      | _ => None
      end
  | kWaitingForSinksToPlay => sink_reply SinkPlayingOrEnded PLAYING p
  | kWaitingForSinksToPause => sink_reply SinkPausedOrEnded PAUSED p
  | _ => None
  end.
Fixpoint settle (fuel : nat) : prog MediaPlayer unit :=
  match fuel with
  | O => mret tt
  | S fuel =>
      p ← getS;
      match reply p with
      | Some e => _ ← handle e; settle fuel
      | None => mret tt
      end
  end.

(** ** How far there is to go *)

Definition lag (k : SinkState) (ss : list Stream) : nat := length (filter (lags k) ss).
Definition distance p : nat :=
  let n := length (streams_ p) in
  match state_ (control p) with
  | kWaiting =>
      match commands p with
      | [OnFlushed] => n + 4
      | [OnSought] => n + 3
      | _ => n + 2
      end
  | kWaitingForSinksToPlay => 1 + lag SinkPlayingOrEnded (streams_ p)
  | kWaitingForSinksToPause => n + 5 + lag SinkPausedOrEnded (streams_ p)
  | _ => 0
  end.

Lemma lag_le k ss : (lag k ss ≤ length ss)%nat.
Proof. apply length_filter. Qed.

Lemma lag_insert k ss i s s' : ss !! i = Some s → lags k s → ¬ lags k s' → S (lag k (<[i:=s']> ss)) = lag k ss.
Proof.
  intros Hi Hs Hs'. unfold lag. rewrite insert_take_drop by (by eapply lookup_lt_Some).
  rewrite <- (take_drop_middle ss i s Hi) at 3. rewrite !filter_app, !length_app.
  rewrite filter_cons_False, filter_cons_True by done. cbn. lia.
Qed.

Lemma lagging k p : AllSinksAre k p = false → ∃ i s, list_find (lags k) (streams_ p) = Some (i, s).
Proof.
  intros H. destruct (list_find (lags k) (streams_ p)) as [[i s]|] eqn:E; [by exists i, s|].
  apply list_find_None in E. exfalso. enough (AllSinksAre k p = true) by congruence.
  unfold AllSinksAre. apply forallb_forall. intros s Hin%list_elem_of_In. rewrite Forall_forall in E. specialize (E s Hin).
  unfold lags in E. destruct (enabled_ s), (sink_is k (sink_state s)); try done. by destruct E.
Qed.

(** ** Running players *)

Record runs_on p : Prop := {
  ro_runner : has_callback_runner (status_publisher_ p) = true;
  ro_staged : Forall staged (streams_ p);
  ro_prepared : to_prepare (streams_ p) = 0%nat;
  ro_controlled : controlled p;
  ro_rest : at_rest p;
}.

Lemma runs_on_ok p : runs_on p → player_ok p.
Proof. intros [Hr Hs Ht Hc Hre]. split; [done|]. by apply running. Qed.

(** Since the calls [cs0], the seek to [x] was made or is still to be made. *)
Definition seeks (cs0 : list call) (x : Z) p : Prop := ∃ cs, calls p = cs0 ++ cs ∧
  (Demux_Seek x ∈ cs ∨ target_position_ (control p) = x ∧ x ≠ kNotSeeking ∧ commands p ≠ [OnSought]).

Lemma seeks_more cs0 x p p' cs : seeks cs0 x p → calls p' = calls p ++ cs →
  (target_position_ (control p) = x → commands p ≠ [OnSought] →
   Demux_Seek x ∈ cs ∨ target_position_ (control p') = x ∧ commands p' ≠ [OnSought]) →
  seeks cs0 x p'.
Proof.
  intros (cs1 & E1 & H) E H'. exists (cs1 ++ cs). split; [by rewrite E, E1, app_assoc|].
  destruct H as [H|(Ex & Hx & Hne)]; [left; apply elem_of_app; by left|].
  destruct (H' Ex Hne) as [Hin|[Et Hn]]; [left; apply elem_of_app; by right|]. by right.
Qed.

(** What a reply does to a player that waits. *)
Record stepped p p' : Prop := {
  st_runs : runs_on p';
  st_length : length (streams_ p') = length (streams_ p);
  st_target : target_state_ (control p') = target_state_ (control p);
  st_distance : (distance p' < distance p)%nat;
  st_aligned : aligned p → aligned p';
  st_reports : reports p';
  st_seeks : ∀ cs0 x, seeks cs0 x p → seeks cs0 x p';
}.

(** Progress of [Update] keeps a seek. *)
Lemma progress_seeks cs0 x q p' : progress q p' → seeks cs0 x q → seeks cs0 x p'.
Proof.
  intros Hp Hs. destruct (pr_calls _ _ Hp) as (cs & El & Hcs). eapply seeks_more; [done..|]. intros Ex Hne.
  destruct (decide (commands p' = [OnSought])) as [E|E].
  - destruct (Hcs E) as [?|Hin]; [done|]. left. by rewrite <- Ex.
  - right. split; [|done]. by rewrite (pr_position _ _ Hp).
Qed.

(** A handler that ends with [Update], from a state [q] that is about to be updated. *)
Lemma updates p q :
  has_callback_runner (status_publisher_ q) = true → Forall staged (streams_ q) → to_prepare (streams_ q) = 0%nat →
  controlled q → state_ (control q) ≠ kPlaying →
  length (streams_ q) = length (streams_ p) → target_state_ (control q) = target_state_ (control p) →
  (∀ p', progress q p' → at_rest p' → (distance p' < distance p)%nat) →
  (aligned p → state_ (control q) ≠ kWaitingForSinksToPlay ∧ state_ (control q) ≠ kWaiting ∨ aligned q) →
  (∀ cs0 x, seeks cs0 x p → seeks cs0 x q) →
  runs Update q (λ _ p', stepped p p').
Proof.
  intros Hr Hs Ht Hc Hne Hl Et Hd Ha Hk.
  eapply runs_mono; [apply Update_runs; try done; by apply sinks_bound_staged|]. intros ? p' [Hp Hrest].
  destruct (pr_stable _ _ Hp) as (Es & _ & _ & Hr'). split.
  - split; rewrite ?Es; try done; [by apply Hr'|apply Hp].
  - by rewrite Es.
  - destruct (pr_target _ _ Hp) as [E|(E & _)]; [by rewrite E|done].
  - by apply Hd.
  - intros Hal. apply Hp. by apply Ha.
  - apply Hp. by left.
  - intros cs0 x Hx. eapply progress_seeks; [done|]. by apply Hk.
Qed.

(** ** Each reply *)

Lemma commands_taken cb p : cb ≠ OnMetadata → commands p = [cb] →
  commands (set_demux_awaiting (remove_one cb (demux_awaiting p)) p) = [] ∧ cb ∈ demux_awaiting p.
Proof.
  intros Hcb E. rewrite commands_take, E by done. split; [cbn; by rewrite decide_True by done|].
  assert (cb ∈ commands p) as H by (rewrite E; by left). by apply list_elem_of_filter in H as [_ H].
Qed.

Lemma waiting_cases p : runs_on p → state_ (control p) = kWaiting →
  commands p = [OnPrimed] ∧ flushed_ (control p) = false ∧ protocol (calls p) = Some false ∨
  commands p = [OnFlushed] ∧ target_position_ (control p) ≠ kNotSeeking ∧ protocol (calls p) = Some true ∨
  commands p = [OnSought] ∧ flushed_ (control p) = true ∧ protocol (calls p) = Some true.
Proof.
  intros H E. pose proof (ro_controlled _ H) as Hc. unfold controlled in Hc. rewrite E in Hc. naive_solver.
Qed.

Lemma Primed_steps p : runs_on p → state_ (control p) = kWaiting → commands p = [OnPrimed] →
  runs (handle EvPrimed) p (λ _ p', stepped p p').
Proof.
  intros Hro Ew Em. destruct (commands_taken OnPrimed p) as [Em0 _]; [done..|].
  destruct (waiting_cases p Hro Ew) as [(_ & Ef & Epr)|[[? _]|[? _]]]; [|congruence..].
  destruct Hro as [Hr Hs Ht _ _]. apply runs_mod. unfold Primed.
  eapply runs_step; [by apply ChangeSinkStates_calls, sinks_bound_staged|]. apply runs_mod.
  apply updates; try done.
  - unfold controlled. cbn. rewrite protocol_neutral by apply sink_calls_neutral. by rewrite Ef.
  - intros p' Hp Hrest. destruct (pr_stable _ _ Hp) as (Es & _). cbn in Es.
    pose proof (lag_le SinkPlayingOrEnded (streams_ p)).
    unfold distance at 2. rewrite Ew, Em. unfold distance. rewrite Es.
    destruct (pr_to_play _ _ Hp) as [-> | ->]; [done|lia|lia].
  - intros Hal. right. unfold aligned in *. intros _. cbn. apply Hal. by right; right.
  - intros cs0 x Hx. eapply seeks_more; [exact Hx|reflexivity|]. intros Ex _. right. split; [done|].
    change (commands (set_demux_awaiting (remove_one OnPrimed (demux_awaiting p)) p) ≠ [OnSought]). by rewrite Em0.
Qed.

Lemma Flushed_steps p : runs_on p → state_ (control p) = kWaiting → commands p = [OnFlushed] →
  runs (handle EvFlushed) p (λ _ p', stepped p p').
Proof.
  intros Hro Ew Em. destruct (commands_taken OnFlushed p) as [Em0 _]; [done..|].
  destruct (waiting_cases p Hro Ew) as [[? _]|[(_ & Ep & Epr)|[? _]]]; [congruence| |congruence].
  destruct Hro as [Hr Hs Ht _ _]. apply runs_mod. unfold Flushed. apply runs_mod. unfold WhenFlushedAndSeeking.
  apply runs_mod, runs_get, runs_dcheck; [by apply negb_true_iff, Z.eqb_neq|]. apply runs_mod, runs_mod_last.
  set (p' := set_demux_awaiting _ _).
  assert (commands p' = [OnSought]) as Em1.
  { etrans; [apply (commands_snoc (set_demux_awaiting _ p)); done|]. by rewrite Em0. }
  split; try done.
  - split; try done. right. right. split_and!; [done|done|]. cbn. by rewrite protocol_app, Epr.
  - unfold distance. rewrite Ew, Em, Em1. cbn. lia.
  - intros _. unfold aligned. rewrite Em1. cbn. by intros [?|[?|?]].
  - intros cs0 x Hx. eapply seeks_more; [exact Hx|reflexivity|]. intros Ex _. left. cbn. rewrite Ex. by left.
Qed.

Lemma Sought_steps p : runs_on p → state_ (control p) = kWaiting → commands p = [OnSought] →
  runs (handle EvSought) p (λ _ p', stepped p p').
Proof.
  intros Hro Ew Em. destruct (commands_taken OnSought p) as [Em0 _]; [done..|].
  destruct (waiting_cases p Hro Ew) as [[? _]|[[? _]|(_ & Ef & Epr)]]; [congruence..|].
  destruct Hro as [Hr Hs Ht _ _]. apply runs_mod. unfold Sought. apply runs_mod, runs_mod.
  apply updates; try done.
  - unfold controlled. cbn. by rewrite Ef.
  - intros p' Hp Hrest. destruct (pr_stable _ _ Hp) as (Es & _). cbn in Es.
    unfold distance at 2. rewrite Ew, Em. unfold distance. rewrite Es.
    pose proof (lag_le SinkPlayingOrEnded (streams_ p)).
    destruct (state_ (control p')) eqn:E; try lia.
    + rewrite (pr_prime _ _ Hp); [lia|done|done|done].
    + by apply (pr_to_pause _ _ Hp) in E.
  - intros Hal. left. done.
  - intros cs0 x Hx. eapply (seeks_more _ _ _ _ []); [exact Hx|by rewrite app_nil_r|]. congruence.
Qed.

(** The report of a sink that lags: the state is recorded, [Update] runs, and the next status
    is asked for. *)
Lemma SinkStatus_runs i m s p (v : Z) :
  runs_on p → streams_ p !! i = Some s → enabled_ s = true → MediaState_value UNPREPARED < MediaState_value m →
  let s2 := s_set_state m s in
  runs (handle (EvSinkStatus i v (Some (m, None)))) p (λ _ p', ∃ q p3,
    control q = control p ∧ commands q = commands p ∧ calls q = calls p ∧ progress q p3 ∧ at_rest p3 ∧
    streams_ p3 !! i = Some (s_set_awaiting [] s2) ∧ <[i:=s2]> (streams_ p3) = <[i:=s2]> (streams_ p) ∧
    has_callback_runner (status_publisher_ p3) = true ∧
    awaiting s2 = [OnSinkStatus] ∧ staged s2 ∧ unfinished s2 = unfinished s ∧
    p' = focus i s2 (add_call (Sink_GetStatus i v) p3)).
Proof.
  intros Hro Hi He Hm s2. pose proof (runs_on_ok p Hro) as Hok. pose proof (stream_index i s p Hi) as Hlt.
  pose proof (stream_staged i s p Hok Hi) as Hst.
  assert (unfinished s = false) as Hu.
  { pose proof (to_prepare_zero _ (ro_prepared _ Hro)) as HF. rewrite Forall_forall in HF. apply HF.
    by eapply list_elem_of_lookup_2. }
  destruct (staged_finished s Hst Hu He) as [[Hsk Hpr] Haw].
  cbn [handle]. eapply take_stream_runs; [done|]. rewrite Haw. cbn [remove_one]. rewrite decide_True by done.
  unfold HandleSinkStatusUpdates. rewrite (proj2 (Z.ltb_lt _ _) Hm).
  set (s1 := s_set_awaiting [] s2).
  eapply runs_bind with (Q := λ _ p3, ∃ q, control q = control p ∧ commands q = commands p ∧ calls q = calls p ∧
    progress q p3 ∧ at_rest p3 ∧ streams_ p3 = <[i:=s1]> (streams_ p) ∧ has_callback_runner (status_publisher_ p3) = true).
  - apply runs_the_stream; [done|]. apply runs_dcheck; [by apply Z.ltb_lt|]. apply runs_mod_stream; [done|].
    apply runs_mod. eapply runs_bind; [apply SendUpdates_published, Hro|]. intros ? q (pub & rs & Hrun & ->).
    set (q := mk_player _ _ _ _ _ _ _ _ _ _).
    assert (has_callback_runner (status_publisher_ q) = true) as Hrq by (etrans; [exact Hrun|apply Hro]).
    eapply runs_mono.
    + apply (Update_runs q); [done|apply Hro|]. unfold sinks_bound. change (streams_ q) with (<[i:=s1]> (streams_ p)).
      apply Forall_insert; [|by intros]. apply (sinks_bound_staged p (ro_staged _ Hro) (ro_prepared _ Hro)).
    + intros ? p3 [Hp Hrest]. exists q. destruct (pr_stable _ _ Hp) as (Es & _ & _ & Hr3).
      split_and!; try done. by apply Hr3.
  - intros ? p3 (q & Ec & Em & El & Hp & Hrest & Es & Hr3).
    assert (streams_ p3 !! i = Some s1) as Hi3 by by rewrite Es, list_lookup_insert_eq.
    pose proof (stream_index i s1 p3 Hi3) as Hlt3. rewrite <- (focus_self i s1 p3 Hi3) at 1.
    apply runs_the_stream; [done|]. cbn [sink_ s1 s2 s_set_awaiting s_set_state]. rewrite Hsk. apply runs_invoke.
    eexists tt, _. split; [by apply await_stream_focus|]. exists q, p3.
    assert (s_set_awaiting (awaiting s1 ++ [OnSinkStatus]) s1 = s2) as ->.
    { unfold s1, s2. cbn. rewrite <- Haw. by destruct s. }
    split_and!; try done.
    + by rewrite Es, list_insert_insert_eq.
    + by apply staged_ready.
Qed.

Lemma sink_steps k m i s p :
  runs_on p → list_find (lags k) (streams_ p) = Some (i, s) → sink_is k m = true →
  MediaState_value UNPREPARED < MediaState_value m →
  state_ (control p) = kWaitingForSinksToPlay ∧ k = SinkPlayingOrEnded ∨
    state_ (control p) = kWaitingForSinksToPause ∧ k = SinkPausedOrEnded →
  runs (handle (EvSinkStatus i 0 (Some (m, None)))) p (λ _ p', stepped p p').
Proof.
  intros Hro Hf Hk Hm Hst. apply list_find_Some in Hf as (Hi & Hlag & _). pose proof Hlag as [He _].
  eapply runs_mono; [by apply (SinkStatus_runs i m s p 0)|]. cbv zeta.
  intros ? p' (q & p3 & Ec & Em & El & Hp & Hrest & Hi3 & Es & Hr3 & Haw & Hst2 & Hu2 & ->).
  set (s2 := s_set_state m s) in *.
  assert (state_ (control q) ≠ kPlaying) as Hnp by (rewrite Ec; destruct Hst as [[-> _]|[-> _]]; done).
  assert (streams_ (focus i s2 (add_call (Sink_GetStatus i 0) p3)) = <[i:=s2]> (streams_ p)) as Ess by exact Es.
  assert (S (lag k (<[i:=s2]> (streams_ p))) = lag k (streams_ p)) as Elag.
  { apply (lag_insert k _ i s s2); [done|done|]. intros [_ Hn]. cbn in Hn. congruence. }
  pose proof (to_prepare_insert _ _ _ s2 Hi) as Ht. rewrite !to_prepare_one, Hu2 in Ht.
  split.
  - split; rewrite ?Ess; try done.
    + apply Forall_insert; [apply Hro|done].
    + pose proof (ro_prepared _ Hro). lia.
    + eapply controlled_ext; [..|apply Hp]; try done. cbn. by apply protocol_neutral.
    + apply (at_rest_ext p3); [|done|done]. intros k'. by eapply (AllSinksAre_insert _ _ _ _ _ Hi3).
  - by rewrite Ess, length_insert.
  - rewrite <- Ec. cbn. destruct (pr_target _ _ Hp) as [E|(E & _)]; [by rewrite E|done].
  - unfold distance. rewrite Ess, length_insert.
    change (control (focus i s2 _)) with (control p3). change (commands (focus i s2 _)) with (commands p3).
    pose proof (lag_le SinkPlayingOrEnded (<[i:=s2]> (streams_ p))) as Hle. rewrite length_insert in Hle.
    destruct Hst as [[E ->]|[E ->]]; rewrite E.
    + destruct (pr_to_play _ _ Hp) as [-> | ->]; [by rewrite Ec|lia|lia].
    + destruct (state_ (control p3)); try lia. destruct (commands p3) as [|[] [|]]; lia.
  - intros Hal. assert (aligned q) as Haq by (unfold aligned in *; by rewrite Ec, Em).
    exact (pr_aligned _ _ Hp (or_intror Haq)).
  - exact (pr_reported _ _ Hp (or_introl Hnp)).
  - intros cs0 x Hx. assert (seeks cs0 x q) as Hq by (unfold seeks in *; by rewrite Ec, Em, El).
    eapply seeks_more; [exact (progress_seeks cs0 x q p3 Hp Hq)|reflexivity|]. by right.
Qed.

(** ** Settling *)

Lemma lagging_awaits k p i s : runs_on p → list_find (lags k) (streams_ p) = Some (i, s) → stream_awaits i OnSinkStatus p.
Proof.
  intros Hro (Hi & [He _] & _)%list_find_Some. exists s. split; [done|].
  pose proof (to_prepare_zero _ (ro_prepared _ Hro)) as HF. rewrite Forall_forall in HF.
  destruct (staged_finished s) as [_ ->]; [| |done|by left].
  - by eapply stream_staged; [by apply runs_on_ok|].
  - apply HF. by eapply list_elem_of_lookup_2.
Qed.

Lemma reply_steps p e : runs_on p → reply p = Some e → possible e p ∧ runs (handle e) p (λ _ p', stepped p p').
Proof.
  intros Hro. unfold reply. destruct (state_ (control p)) eqn:E; [|done| |done|].
  - destruct (waiting_cases p Hro E) as [(Em & _)|[(Em & _)|(Em & _)]]; rewrite Em; intros [= <-]; cbn [possible].
    + split; [by apply commands_taken|by apply Primed_steps].
    + split; [by apply commands_taken|by apply Flushed_steps].
    + split; [by apply commands_taken|by apply Sought_steps].
  - unfold sink_reply. destruct (list_find _ _) as [[i s]|] eqn:Ef; intros [= <-].
    split; [by eapply lagging_awaits|]. by eapply sink_steps; [..|by left].
  - unfold sink_reply. destruct (list_find _ _) as [[i s]|] eqn:Ef; intros [= <-].
    split; [by eapply lagging_awaits|]. by eapply sink_steps; [..|by right].
Qed.

(** A player without a reply to wait for. *)
Lemma calm p : runs_on p → reply p = None → state_ (control p) = kPaused ∨ state_ (control p) = kPlaying.
Proof.
  intros Hro. pose proof (ro_rest _ Hro) as Hrest. unfold reply, at_rest in *.
  destruct (state_ (control p)) eqn:E; [|by left| |by right|].
  - by destruct (waiting_cases p Hro E) as [(Em & _)|[(Em & _)|(Em & _)]]; rewrite Em.
  - unfold sink_reply. by destruct (lagging _ _ Hrest) as (i & s & ->).
  - unfold sink_reply. by destruct (lagging _ _ Hrest) as (i & s & ->).
Qed.

Record settled p p' : Prop := {
  se_runs : runs_on p';
  se_reached : reached p → reached p';
  se_calm : reply p' = None;
  se_target : target_state_ (control p') = target_state_ (control p);
  se_aligned : aligned p → aligned p';
  se_reports : reports p → reports p';
  se_seeks : ∀ cs0 x, seeks cs0 x p → seeks cs0 x p';
}.

Lemma no_distance p : runs_on p → distance p = 0%nat → reply p = None.
Proof.
  intros Hro. unfold distance, reply. destruct (state_ (control p)); try done; try lia.
  destruct (commands p) as [|[] [|]]; lia.
Qed.

Lemma settle_runs n : ∀ p, runs_on p → (distance p ≤ n)%nat → runs (settle n) p (λ _ p', settled p p').
Proof.
  induction n as [|n IH]; intros p Hro Hn; cbn [settle].
  - apply runs_ret. split; try done. apply no_distance; [done|lia].
  - apply runs_get. destruct (reply p) as [e|] eqn:E; [|by apply runs_ret].
    destruct (reply_steps p e Hro E) as [Hpos ([] & p1 & Hh & Hst)].
    eapply runs_step; [exact Hh|]. pose proof (st_distance _ _ Hst).
    eapply runs_mono; [apply IH; [apply Hst|lia]|]. intros ? p' Hse. split; try apply Hse.
    + intros Hre. apply Hse. by eapply reached_event.
    + etrans; [apply Hse|apply Hst].
    + intros Ha. by apply Hse, Hst.
    + intros _. apply Hse, Hst.
    + intros cs0 x Hx. by apply Hse, Hst.
Qed.

(** Calls of the client that set targets, and the state that they ask for. *)
Definition client_call (e : @event T M) : option (MediaState → MediaState) :=
  match e with
  | EvPlay => Some (λ _, PLAYING)
  | EvPause => Some (λ _, PAUSED)
  | EvSeek _ => Some (λ m, m)
  | _ => None
  end.

Lemma client_call_updates e w p : client_call e = Some w → possible e p →
  ∃ q, (∀ r, handle e p = r ↔ Update q = r) ∧ streams_ q = streams_ p ∧ calls q = calls p ∧ commands q = commands p ∧
    status_publisher_ q = status_publisher_ p ∧ state_ (control q) = state_ (control p) ∧
    flushed_ (control q) = flushed_ (control p) ∧ target_state_ (control q) = w (target_state_ (control p)) ∧
    ∀ x, e = EvSeek x → target_position_ (control q) = x ∧ x ≠ kNotSeeking.
Proof.
  intros E Hpos. destruct e as [| | | | | | | | | | |x|]; try done; injection E as <-.
  - exists (set_target_state PLAYING p). by split_and!.
  - exists (set_target_state PAUSED p). by split_and!.
  - exists (set_target_position x p). split_and!; try done. by intros ? [= <-].
Qed.

(** The first update after a client's call. *)
Lemma client_call_runs e w p :
  player_ok p → state_ (control p) = kPaused ∨ state_ (control p) = kPlaying → client_call e = Some w → possible e p →
  ∃ p1, handle e p = Ok (tt, p1) ∧ runs_on p1 ∧ (distance p1 ≤ 2 * length (streams_ p) + 5)%nat ∧ aligned p1 ∧
    (state_ (control p) = kPaused → reports p1) ∧
    (target_state_ (control p1) = w (target_state_ (control p)) ∨
     target_state_ (control p1) = ENDED ∧ state_ (control p) = kPlaying ∧ AllSinksAre SinkEnded p = true) ∧
    ∀ x, e = EvSeek x → x ≠ kNotSeeking ∧ seeks (calls p) x p1.
Proof.
  intros [Hr Hph] Hst Hw Hpos.
  destruct Hph as [? ? [E _]|? ? [E _]|Hs Ht Hc Hrest]; [destruct Hst; congruence..|].
  destruct (client_call_updates e w p Hw Hpos) as (q & Hq & Es & El & Em & Ep & Est & Ef & Et & Hseek).
  assert (controlled q) as Hcq.
  { unfold controlled in *. rewrite Est, Em, El, Ef. destruct Hst as [E|E]; by rewrite E in *. }
  destruct (Update_runs q) as ([] & p1 & E1 & Hp & Hrest1).
  { by rewrite Ep. } { done. } { unfold sinks_bound. rewrite Es. by apply sinks_bound_staged. }
  destruct (pr_stable _ _ Hp) as (Es1 & _ & _ & Hr1). rewrite Es in Es1. exists p1. split_and!.
  - by apply Hq.
  - split; rewrite ?Es1; try done; [apply Hr1; by rewrite Ep|apply Hp].
  - unfold distance. rewrite Es1. pose proof (lag_le SinkPlayingOrEnded (streams_ p)).
    pose proof (lag_le SinkPausedOrEnded (streams_ p)).
    destruct (state_ (control p1)); try lia. destruct (commands p1) as [|[] [|]]; lia.
  - apply Hp. left. rewrite Est. by destruct Hst as [-> | ->].
  - intros Epa. apply Hp. left. by rewrite Est, Epa.
  - rewrite <- Et, <- Est. destruct (pr_target _ _ Hp) as [E|(E & E2 & E3)]; [by left|right].
    split_and!; [done..|]. by rewrite (AllSinksAre_ext _ q).
  - intros x Hx. destruct (Hseek x Hx) as [Ex Hxn]. split; [done|]. eapply progress_seeks; [done|].
    exists []. rewrite app_nil_r, El. split; [done|]. right. split_and!; [done..|]. rewrite Em.
    unfold controlled in Hc. destruct Hst as [E|E]; rewrite E in Hc; destruct Hc as [-> _]; done.
Qed.

(** C6. With remote objects that do as they are told, a player gets where its client wants
    it.  From any state in which a player can be paused or playing, a call to play, to pause
    or to seek is followed by at most 2n+5 replies, for n streams, after which no command is
    outstanding and no seek is wanted: a player that is meant to play plays, and says so if
    it was paused before; one that is meant to pause is paused; and the demux was sought to
    the position that was asked for.  What is meant is what the client asked for, unless
    every sink had reached the end. *)
Theorem player_converges e w p :
  reached p → state_ (control p) = kPaused ∨ state_ (control p) = kPlaying →
  client_call e = Some w → possible e p →
  ∃ p1 p', handle e p = Ok (tt, p1) ∧ settle (2 * length (streams_ p) + 5) p1 = Ok (tt, p') ∧ reached p' ∧
    commands p' = [] ∧ target_position_ (control p') = kNotSeeking ∧
    (target_state_ (control p') = w (target_state_ (control p)) ∨
     target_state_ (control p') = ENDED ∧ state_ (control p) = kPlaying ∧ AllSinksAre SinkEnded p = true) ∧
    (target_state_ (control p') = PLAYING → state_ (control p') = kPlaying ∧
       (state_ (control p) = kPaused → reported_media_state_ (control p') = PLAYING)) ∧
    (target_state_ (control p') = PAUSED → state_ (control p') = kPaused) ∧
    ∀ x, e = EvSeek x → ∃ cs, calls p' = calls p ++ cs ∧ Demux_Seek x ∈ cs.
Proof.
  intros Hre Hst Hw Hpos.
  destruct (client_call_runs e w p (reached_ok p Hre) Hst Hw Hpos) as (p1 & Eh & Hro & Hd & Hal & Hrep & Htgt & Hseek).
  destruct (settle_runs _ p1 Hro Hd) as ([] & p' & E' & Hse). exists p1, p'.
  pose proof (se_aligned _ _ Hse Hal) as Hal'. pose proof (se_runs _ _ Hse) as Hro'.
  pose proof (ro_rest _ Hro') as Hrest'. pose proof (ro_controlled _ Hro') as Hc'.
  assert (commands p' = [] ∧ target_position_ (control p') = kNotSeeking ∧
    (target_state_ (control p') = PLAYING → state_ (control p') = kPlaying) ∧
    (target_state_ (control p') = PAUSED → state_ (control p') = kPaused)) as (Hcm & Hpn & Hpl & Hpa).
  { unfold at_rest, controlled in *. destruct (calm p' Hro' (se_calm _ _ Hse)) as [E|E]; rewrite E in *.
    - destruct Hrest' as [? ?]. by split_and!; [apply Hc'|..].
    - destruct Hal' as [? ?]; [by right; left|]. by split_and!; [apply Hc'|..]. }
  split_and!; try done.
  - apply Hse. by eapply reached_event.
  - by rewrite (se_target _ _ Hse).
  - intros Htp. split; [by apply Hpl|]. intros Epa. by apply (se_reports _ _ Hse); [apply Hrep|apply Hpl|].
  - intros x Hx. destruct (Hseek x Hx) as [Hxn Hsq].
    destruct (se_seeks _ _ Hse (calls p) x Hsq) as (cs & Ecs & [Hin|(Epx & _)]); [by exists cs|congruence].
Qed.

(** ** Runs of events *)

Definition awaits (i : nat) (cb : stream_callback) p : bool :=
  match streams_ p !! i with Some s => bool_decide (cb ∈ awaiting s) | None => false end.
Definition can_happen (e : @event T M) p : bool :=
  match e with
  | EvDescribed types => bool_decide (OnDescribe ∈ demux_awaiting p) && (Z.of_nat (length types) <? 2 ^ 32)
  | EvMetadata _ _ => bool_decide (OnMetadata ∈ demux_awaiting p)
  | EvPrimed => bool_decide (OnPrimed ∈ demux_awaiting p)
  | EvFlushed => bool_decide (OnFlushed ∈ demux_awaiting p)
  | EvSought => bool_decide (OnSought ∈ demux_awaiting p)
  | EvEncodedConnected i => awaits i OnEncodedConnected p
  | EvOutputType i t => awaits i OnOutputType p && match t with Some _ => true | None => false end
  | EvSinkConnected i c => awaits i (OnSinkConnected c) p
  | EvSinkStatus i _ _ => awaits i OnSinkStatus p
  | EvPlay | EvPause | EvGetStatus _ _ => true
  | EvSeek position => negb (position =? kNotSeeking)
  end.

Lemma awaits_awaits i cb p : awaits i cb p = true → stream_awaits i cb p.
Proof.
  unfold awaits. destruct (streams_ p !! i) as [s|] eqn:E; [|done]. intros H%bool_decide_eq_true. by exists s.
Qed.
Lemma can_happen_possible e p : can_happen e p = true → possible e p.
Proof.
  destruct e; cbn; try (by intros ?%bool_decide_eq_true); try apply awaits_awaits; try done.
  - intros [?%bool_decide_eq_true ?%Z.ltb_lt]%andb_true_iff. done.
  - intros [?%awaits_awaits ?]%andb_true_iff. by destruct output_type.
  - by intros ?%negb_true_iff%Z.eqb_neq.
Qed.

Fixpoint happen (es : list event) p : option MediaPlayer :=
  match es with
  | [] => Some p
  | e :: es =>
      if can_happen e p then match handle e p with Ok (_, p') => happen es p' | Fault _ => None end else None
  end.
Lemma happen_reached es : ∀ p p', reached p → happen es p = Some p' → reached p'.
Proof.
  induction es as [|e es IH]; intros p p' Hp E; cbn [happen] in E; [by injection E as <-|].
  destruct (can_happen e p) eqn:Ec; [|done]. destruct (handle e p) as [[[] p1]|] eqn:Eh; [|done].
  eapply IH; [|exact E]. eapply reached_event; [exact Hp|by apply can_happen_possible|exact Eh].
Qed.

Definition started : option MediaPlayer :=
  match MediaPlayerImpl true (@unstarted T M) with Ok (_, p) => Some p | Fault _ => None end.
Definition after (es : list event) : option MediaPlayer := match started with Some p => happen es p | None => None end.
Lemma after_reached es p : after es = Some p → reached p.
Proof.
  unfold after, started. destruct (MediaPlayerImpl true (@unstarted T M)) as [[[] p0]|] eqn:E; [|done].
  apply happen_reached. by apply reached_start.
Qed.

End Run.

(** ** Examples *)

Section Examples.
#[local] Existing Instance debug_build.
Abbreviation Event := (@event unit unit).

Definition example_types : list MediaType := [mk_media_type AUDIO "lpcm"; mk_media_type VIDEO "h264"; mk_media_type TEXT "text"].
(** An audio stream without and a video stream with a decoder are prepared. *)
Definition preparation : list Event :=
  [EvDescribed example_types; EvOutputType 1 (Some (mk_media_type VIDEO "uncompressed_video"));
   EvSinkConnected 0 MainJoiner; EvSinkConnected 1 StreamJoiner; EvEncodedConnected 1].
Definition reports_of (m : MediaState) : list Event := [EvSinkStatus 0 1 (Some (m, None)); EvSinkStatus 1 1 (Some (m, None))].

Lemma player_protocol_witness :
  ∃ p : @MediaPlayer unit unit, after (preparation ++ [EvPlay]) = Some p ∧ commands p = [OnPrimed] ∧
    is_Some (protocol (calls p)).
Proof.
  destruct (after (preparation ++ [EvPlay])) as [p|] eqn:E; [|vm_compute in E; discriminate]. exists p.
  split; [done|]. assert (reached p) as H by (by eapply after_reached). split.
  - vm_compute in E. injection E as <-. done.
  - apply (player_protocol p H).
Defined.

Lemma player_converges_witness :
  ∃ p p1 p' : @MediaPlayer unit unit, after preparation = Some p ∧ state_ (control p) = kPaused ∧
    handle EvPlay p = Ok (tt, p1) ∧ settle (2 * length (streams_ p) + 5) p1 = Ok (tt, p') ∧ commands p' = [].
Proof.
  destruct (after preparation) as [p|] eqn:E; [|vm_compute in E; discriminate]. exists p.
  assert (reached p) as H by (by eapply after_reached).
  assert (state_ (control p) = kPaused) as Hs by (vm_compute in E; injection E as <-; done).
  destruct (player_converges EvPlay (λ _, PLAYING) p H (or_introl Hs) eq_refl Logic.I) as (p1 & p' & H1 & H2 & _ & H3 & _).
  exists p1, p'. by split_and!.
Defined.

(** Two sequences of calls after which the player stays where its client did not want it,
    with no reply to wait for, until another call or status arrives.  When the client pauses before the sinks have reported that
    they play, the player goes on playing and no sink is ever paused; when it pauses while a
    seek is under way, the player pauses but its status says that it plays. *)
Lemma pause_defects :
  (∃ p, after (preparation ++ [EvPlay; EvPrimed; EvPause] ++ reports_of PLAYING) = Some p ∧
     target_state_ (control p) = PAUSED ∧ state_ (control p) = kPlaying ∧ AllSinksAre SinkPlaying p = true ∧
     reply p = None ∧ Sink_Pause 0 ∉ calls p) ∧
  (∃ p, after (preparation ++ [EvPlay; EvPrimed] ++ reports_of PLAYING ++ [EvSeek 10] ++ reports_of PAUSED ++
                 [EvPause; EvFlushed; EvSought]) = Some p ∧
     target_state_ (control p) = PAUSED ∧ state_ (control p) = kPaused ∧ AllSinksAre SinkPaused p = true ∧
     reply p = None ∧ reported_media_state_ (control p) = PLAYING).
Proof.
  split; (eexists; split; [vm_compute; reflexivity|]); split_and!; try reflexivity.
  apply (bool_decide_unpack _). vm_compute. done.
Qed.

End Examples.
End PlayerRun.
