(* ===== verification/RelocationPacker.v ===== *)
(** The relocation packer (tools/relocation_packer/src): run-length and delta encoding of
    relative relocations, LEB128 encodings, and the packed formats built from them.

    [Xword] and [Sxword] have 64 bits for both targets; addresses have as many bits as the
    target says.  The macros of the system's elf.h are fields of the target. *)

From S2P Require Import Prelude.

Module RelocationPacker.

(** ** Targets and relocations *)

Class Target := {
  addr_bits : Z;
  kRelativeRelocationCode : Z;
  ELF_R_TYPE : Z → Z;
  ELF_R_INFO : Z → Z → Z;
}.

(** The relocation code of relative relocations is recovered from the info word. *)
Class TargetLaws `{TG : Target} := {
  addr_bits_ok : addr_bits = 32 ∨ addr_bits = 64;
  relative_type : ELF_R_TYPE (ELF_R_INFO 0 kRelativeRelocationCode) = kRelativeRelocationCode;
}.

Record Rel := mk_rel { r_offset : Z; r_info : Z }.
Record Rela := mk_rela { a_offset : Z; a_info : Z; r_addend : Z }.

#[export] Instance Rel_eq_dec : EqDecision Rel.
Proof. solve_decision. Defined.
#[export] Instance Rela_eq_dec : EqDecision Rela.
Proof. solve_decision. Defined.

(** ** Loops of encoders and decoders

    A decoder is its encoding with a cursor; each value takes at least one byte. *)

Fixpoint enqueue_all (enqueue : list Z → Z → outcome (list Z)) (encoding values : list Z) : outcome (list Z) :=
  match values with
  | [] => Ok encoding
  | value :: values => encoding ← enqueue encoding value; enqueue_all enqueue encoding values
  end.
Fixpoint dequeue_all (dequeue : list Z → nat → outcome (Z * nat)) (fuel : nat) (encoding : list Z) (cursor : nat) :
    outcome (list Z) :=
  if bool_decide (cursor < length encoding)%nat then
    match fuel with
    | O => Fault OutOfFuel
    | S fuel =>
        '(value, cursor) ← dequeue encoding cursor;
        values ← dequeue_all dequeue fuel encoding cursor;
        Ok (value :: values)
    end
  else Ok [].

(** ** Unsigned LEB128 (leb128.cc) *)

Fixpoint Enqueue_loop (fuel : nat) (value : Z) : outcome (list Z) :=
  match fuel with
  | O => Fault OutOfFuel
  | S fuel =>
      let byte := Z.land value 127 in
      let value := Z.shiftr value 7 in
      let out := Z.lor (if value =? 0 then 0 else 128) byte in
      if value =? 0 then Ok [out] else rest ← Enqueue_loop fuel value; Ok (out :: rest)
  end.
Definition Enqueue (encoding : list Z) (value : Z) : outcome (list Z) :=
  bytes ← Enqueue_loop 10 value; Ok (encoding ++ bytes).
Definition EnqueueAll (encoding values : list Z) : outcome (list Z) := enqueue_all Enqueue encoding values.

(** Shifting by the width or more is undefined. *)
Fixpoint Dequeue_loop (fuel : nat) (encoding : list Z) (cursor : nat) (value shift : Z) : outcome (Z * nat) :=
  match fuel with
  | O => Fault OutOfFuel
  | S fuel =>
      match encoding !! cursor with
      | None => Fault UndefinedBehaviour
      | Some byte =>
          if 64 <=? shift then Fault UndefinedBehaviour
          else
            let value := Z.lor value (u64 (Z.shiftl (Z.land byte 127) shift)) in
            if Z.land byte 128 =? 0 then Ok (value, S cursor)
            else Dequeue_loop fuel encoding (S cursor) value (shift + 7)
      end
  end.
Definition Dequeue (encoding : list Z) (cursor : nat) : outcome (Z * nat) := Dequeue_loop 11 encoding cursor 0 0.
Definition DequeueAll (encoding : list Z) (cursor : nat) : outcome (list Z) :=
  dequeue_all Dequeue (length encoding) encoding cursor.

(** ** Signed LEB128 (sleb128.cc) *)

Section WithBuild.
Context `{BD : Build}.

Fixpoint SEnqueue_loop (fuel : nat) (negative : bool) (value : Z) : outcome (list Z) :=
  match fuel with
  | O => Fault OutOfFuel
  | S fuel =>
      let byte := Z.land value 127 in
      let value := Z.shiftr value 7 in
      let value := if negative then Z.lor value (- Z.shiftl 1 57) else value in
      let sign_bit := negb (Z.land byte 64 =? 0) in
      if ((value =? 0) && negb sign_bit) || ((value =? -1) && sign_bit) then Ok [byte]
      else rest ← SEnqueue_loop fuel negative value; Ok (Z.lor byte 128 :: rest)
  end.
Definition SEnqueue (encoding : list Z) (value : Z) : outcome (list Z) :=
  bytes ← SEnqueue_loop 10 (value <? 0) value; Ok (encoding ++ bytes).
Definition SEnqueueAll (encoding values : list Z) : outcome (list Z) := enqueue_all SEnqueue encoding values.

Fixpoint SDequeue_loop (fuel : nat) (encoding : list Z) (cursor : nat) (value shift : Z) : outcome (Z * nat) :=
  match fuel with
  | O => Fault OutOfFuel
  | S fuel =>
      match encoding !! cursor with
      | None => Fault UndefinedBehaviour
      | Some byte =>
          if 64 <=? shift then Fault UndefinedBehaviour
          else
            part ← s64 (Z.shiftl (Z.land byte 127) shift);
            let value := Z.lor value part in
            let shift := shift + 7 in
            if Z.land byte 128 =? 0 then
              if (shift <? 64) && negb (Z.land byte 64 =? 0) then
                power ← s64 (Z.shiftl 1 shift);
                sign ← s64 (- power);
                Ok (Z.lor value sign, S cursor)
              else Ok (value, S cursor)
            else SDequeue_loop fuel encoding (S cursor) value shift
      end
  end.
Definition SDequeue (encoding : list Z) (cursor : nat) : outcome (Z * nat) := SDequeue_loop 11 encoding cursor 0 0.
Definition SDequeueAll (encoding : list Z) (cursor : nat) : outcome (list Z) :=
  dequeue_all SDequeue (length encoding) encoding cursor.

End WithBuild.

(** ** Run-length encoding (run_length_encoder.cc) *)

Section WithTarget.
Context `{TG : Target} `{BD : Build}.

Definition is_relative (info : Z) : bool := ELF_R_TYPE info =? kRelativeRelocationCode.

Fixpoint deltas_loop (relocations : list Rel) : outcome (list Z) :=
  match relocations with
  | first :: ((second :: _) as rest) =>
      _ ← check (is_relative (r_info first));
      _ ← check (is_relative (r_info second));
      _ ← check (r_offset first <? r_offset second);
      let delta := uwrap addr_bits (r_offset second - r_offset first) in
      deltas ← deltas_loop rest;
      Ok (delta :: deltas)
  | _ => Ok []
  end.
Definition GetDeltas (relocations : list Rel) : outcome (list Z) :=
  _ ← check (bool_decide (2 ≤ length relocations)%nat); deltas_loop relocations.

Fixpoint condense_loop (deltas : list Z) (count current : Z) : list Z :=
  match deltas with
  | [] => [count; current]
  | delta :: deltas =>
      if delta =? current then condense_loop deltas (u64 (count + 1)) current
      else count :: current :: condense_loop deltas 1 delta
  end.
Definition Condense (packed deltas : list Z) : outcome (list Z) :=
  _ ← check (match deltas with [] => false | _ => true end);
  match deltas with
  | [] => Fault UndefinedBehaviour
  | current :: _ => Ok (packed ++ condense_loop deltas 0 current)
  end.

(** The loops of [Uncondense]: one pair's relocations, and the pairs. *)
Fixpoint expand (count : nat) (addr delta : Z) (relocations : list Rel) : Z * list Rel :=
  match count with
  | O => (addr, relocations)
  | S count =>
      let addr := uwrap addr_bits (addr + delta) in
      expand count addr delta (relocations ++ [mk_rel addr (ELF_R_INFO 0 kRelativeRelocationCode)])
  end.
Fixpoint uncondense_loop (fuel : nat) (addr : Z) (packed : list Z) (i end_index : nat) (relocations : list Rel) :
    outcome (list Rel) :=
  if bool_decide (i < end_index)%nat then
    match fuel with
    | O => Fault OutOfFuel
    | S fuel =>
        match packed !! i, packed !! S i with
        | Some count, Some delta =>
            let delta := uwrap addr_bits delta in
            _ ← check ((0 <? count) && (0 <? delta));
            let '(addr, relocations) := expand (Z.to_nat count) addr delta relocations in
            uncondense_loop fuel addr packed (S (S i)) end_index relocations
        | _, _ => Fault UndefinedBehaviour
        end
    end
  else Ok relocations.
Definition Uncondense (addr : Z) (packed : list Z) (start_index end_index : nat) (relocations : list Rel) :
    outcome (list Rel) :=
  uncondense_loop (length packed) addr packed start_index end_index
    (relocations ++ [mk_rel addr (ELF_R_INFO 0 kRelativeRelocationCode)]).

Definition RunLength_Encode (relocations : list Rel) (packed : list Z) : outcome (list Z) :=
  match relocations with
  | first :: _ :: _ =>
      deltas ← GetDeltas relocations;
      packed ← Condense (packed ++ [0] ++ [r_offset first]) deltas;
      match packed with
      | [] => Fault Aborted
      | _ :: rest => Ok (Z.shiftr (u64 (Z.of_nat (length packed) - 2)) 1 :: rest)
      end
  | _ => Ok packed
  end.
Definition RunLength_Decode (packed : list Z) (relocations : list Rel) : outcome (list Rel) :=
  match packed with
  | pairs_count :: addr :: _ :: _ :: _ =>
      _ ← check (pairs_count <=? Z.shiftr (Z.of_nat (length packed) - 2) 1);
      Uncondense (uwrap addr_bits addr) packed 2 (Z.to_nat (u64 (2 + Z.shiftl pairs_count 1))) relocations
  | _ => Ok relocations
  end.

(** ** Delta encoding (delta_encoder.cc) *)

Fixpoint delta_encode_loop (relocations : list Rela) (offset addend : Z) : outcome (list Z) :=
  match relocations with
  | [] => Ok []
  | r :: relocations =>
      _ ← check (is_relative (a_info r));
      let d := to_s64 (uwrap addr_bits (a_offset r - offset)) in
      a ← s64 (r_addend r - addend);
      rest ← delta_encode_loop relocations (a_offset r) (r_addend r);
      Ok (d :: a :: rest)
  end.
Definition Delta_Encode (relocations : list Rela) (packed : list Z) : outcome (list Z) :=
  match relocations with
  | [] => Ok packed
  | _ =>
      rest ← delta_encode_loop relocations 0 0;
      Ok (packed ++ to_s64 (Z.of_nat (length relocations)) :: rest)
  end.

(** An address of 32 bits is added to a delta as a signed 64-bit number, one of 64 bits as
    an unsigned one.  The decoded addend is truncated to the target's width, which [r_addend] has. *)
Definition to_signed (w z : Z) : Z := (z + 2 ^ (w - 1)) mod 2 ^ w - 2 ^ (w - 1).
Fixpoint delta_decode_loop (fuel : nat) (packed : list Z) (i end_index : nat) (offset addend : Z) (relocations : list Rela) :
    outcome (list Rela) :=
  if bool_decide (i < end_index)%nat then
    match fuel with
    | O => Fault OutOfFuel
    | S fuel =>
        match packed !! i, packed !! S i with
        | Some d, Some a =>
            sum ← (if addr_bits <? 64 then s64 (offset + d) else Ok (offset + d));
            let offset := uwrap addr_bits sum in
            addend ← s64 (addend + a);
            delta_decode_loop fuel packed (S (S i)) end_index offset addend
              (relocations ++ [mk_rela offset (ELF_R_INFO 0 kRelativeRelocationCode) (to_signed addr_bits addend)])
        | _, _ => Fault UndefinedBehaviour
        end
    end
  else Ok relocations.
Definition Delta_Decode (packed : list Z) (relocations : list Rela) : outcome (list Rela) :=
  match packed with
  | pairs_count :: _ :: _ :: _ =>
      let pairs_count := u64 pairs_count in
      _ ← check (pairs_count <=? Z.shiftr (Z.of_nat (length packed) - 1) 1);
      delta_decode_loop (length packed) packed 1 (Z.to_nat (u64 (1 + Z.shiftl pairs_count 1))) 0 0 relocations
  | _ => Ok relocations
  end.

(** ** The packed formats (packer.cc) *)

(** Padding to whole words of four bytes. *)
Fixpoint pad_loop (fuel : nat) (packed : list Z) : outcome (list Z) :=
  if (length packed mod 4 =? 0)%nat then Ok packed
  else match fuel with O => Fault OutOfFuel | S fuel => pad_loop fuel (packed ++ [0]) end.
Definition pad (packed : list Z) : outcome (list Z) := pad_loop 3 packed.

Definition PackRel (relocations : list Rel) (packed : list Z) : outcome (list Z) :=
  packed_words ← RunLength_Encode relocations [];
  match packed_words with
  | [] => Ok packed
  | _ =>
      encoding ← EnqueueAll [] [65; 80; 82; 49];
      encoding ← EnqueueAll encoding packed_words;
      pad encoding
  end.
Definition UnpackRel (packed : list Z) (relocations : list Rel) : outcome (list Rel) :=
  '(a, cursor) ← Dequeue packed 0; _ ← check (a =? 65);
  '(p, cursor) ← Dequeue packed cursor; _ ← check (p =? 80);
  '(r, cursor) ← Dequeue packed cursor; _ ← check (r =? 82);
  '(one, cursor) ← Dequeue packed cursor; _ ← check (one =? 49);
  packed_words ← DequeueAll packed cursor;
  RunLength_Decode packed_words relocations.

Definition PackRela (relocations : list Rela) (packed : list Z) : outcome (list Z) :=
  packed_words ← Delta_Encode relocations [];
  match packed_words with
  | [] => Ok packed
  | _ =>
      encoded ← SEnqueueAll [] packed_words;
      pad (packed ++ [65; 80; 65; 49] ++ encoded)
  end.
(** [at] throws past the end, which stops a program built without exceptions. *)
Fixpoint expect (prefix packed : list Z) : outcome (list Z) :=
  match prefix, packed with
  | [], _ => Ok packed
  | _ :: _, [] => Fault Aborted
  | c :: prefix, byte :: packed => _ ← check (byte =? c); expect prefix packed
  end.
Definition UnpackRela (packed : list Z) (relocations : list Rela) : outcome (list Rela) :=
  stripped ← expect [65; 80; 65; 49] packed;
  packed_words ← SDequeueAll stripped 0;
  Delta_Decode packed_words relocations.

End WithTarget.
End RelocationPacker.
