(* ===== verification/RelocationSpec.v ===== *)
(** What the relocation packer promises: decoding undoes encoding, for single values, for
    sequences of words, and for the packed formats with their padding. *)

From S2P Require Import Prelude RelocationPacker.

Module RelocationSpec.
Import RelocationPacker.

Lemma bind_Ok {A B} (a : A) (k : A → outcome B) : (Ok a ≫= k) = k a.
Proof. done. Qed.

(** ** Bits of a byte *)

Lemma land_127 z : Z.land z 127 = z mod 128.
Proof. change 127 with (Z.ones 7). by rewrite Z.land_ones by lia. Qed.

Lemma shiftr_7 z : Z.shiftr z 7 = z / 128.
Proof. by rewrite Z.shiftr_div_pow2 by lia. Qed.

Lemma land_64 b : 0 ≤ b < 128 → negb (Z.land b 64 =? 0) = (64 <=? b).
Proof.
  intros Hb. change 64 with (Z.shiftl 1 6) at 1. rewrite land_shiftl_high by lia.
  rewrite Z.shiftl_mul_pow2, Z.shiftr_div_pow2 by lia. change (2 ^ 6) with 64.
  destruct (Z.leb_spec 64 b).
  - assert (b / 64 = 1) as -> by (symmetry; apply Z.div_unique with (b - 64); lia). done.
  - by rewrite Z.div_small by lia.
Qed.

Lemma continued_byte b : 0 ≤ b < 128 → Z.lor 128 b = 128 + b.
Proof. intros Hb. change 128 with (Z.shiftl 1 7) at 1. rewrite (lor_disjoint_add 1 b 7) by (unfold is_u; lia). lia. Qed.

Lemma land_128 b c : 0 ≤ b < 128 → c = 0 ∨ c = 1 → Z.land (c * 128 + b) 128 = c * 128.
Proof.
  intros Hb Hc. change 128 with (Z.shiftl 1 7) at 2. rewrite land_shiftl_high by lia.
  rewrite Z.shiftl_mul_pow2, Z.shiftr_div_pow2 by lia. change (2 ^ 7) with 128.
  rewrite Z.div_add_l, (Z.div_small b), Z.add_0_r by lia. by destruct Hc as [-> | ->].
Qed.

(** The fields of a last byte and of one that is not. *)
Lemma last_byte b : 0 ≤ b < 128 → Z.land b 127 = b ∧ (Z.land b 128 =? 0) = true.
Proof.
  intros Hb. rewrite land_127, Z.mod_small by lia. split; [done|].
  pose proof (land_128 b 0 Hb ltac:(lia)) as E. rewrite Z.mul_0_l, Z.add_0_l in E. by rewrite E.
Qed.
Lemma other_byte b : 0 ≤ b < 128 → Z.land (128 + b) 127 = b ∧ (Z.land (128 + b) 128 =? 0) = false.
Proof.
  intros Hb. rewrite land_127. split.
  - replace (128 + b) with (b + 1 * 128) by lia. rewrite Z_mod_plus_full, Z.mod_small by lia. done.
  - pose proof (land_128 b 1 Hb ltac:(lia)) as E. rewrite Z.mul_1_l in E. by rewrite E.
Qed.

(** Putting a field above the bits that are there. *)
Lemma lor_above acc b shift : 0 ≤ shift → 0 ≤ acc < 2 ^ shift → Z.lor acc (b * 2 ^ shift) = acc + b * 2 ^ shift.
Proof.
  intros Hs Ha. rewrite Z.lor_comm, <- Z.shiftl_mul_pow2, lor_disjoint_add by done.
  rewrite Z.shiftl_mul_pow2 by done. lia.
Qed.

Lemma next_byte (pre : list Z) b post : (pre ++ b :: post) !! length pre = Some b.
Proof. apply list_lookup_middle. done. Qed.

(** ** Unsigned values *)

Lemma Enqueue_loop_decodes n : ∀ v shift acc pre post fuel,
  0 ≤ v < 2 ^ (7 * Z.of_nat n) → 0 ≤ shift < 64 → v * 2 ^ shift < 2 ^ 64 → 0 ≤ acc < 2 ^ shift →
  (0 < n)%nat → (n ≤ fuel)%nat →
  ∃ bytes, Enqueue_loop n v = Ok bytes ∧ bytes ≠ [] ∧ Forall (is_u 8) bytes ∧
    Dequeue_loop fuel (pre ++ bytes ++ post) (length pre) acc shift =
      Ok (acc + v * 2 ^ shift, length (pre ++ bytes)).
Proof.
  induction n as [|n IH]; intros v shift acc pre post fuel Hv Hs Hv64 Hacc Hn Hf; [lia|].
  destruct fuel as [|fuel]; [lia|]. cbn [Enqueue_loop]. rewrite land_127, shiftr_7.
  pose proof (Z.div_mod v 128 ltac:(lia)) as Hdm. pose proof (Z.mod_pos_bound v 128 ltac:(lia)) as Hb.
  set (b := v mod 128) in *. set (v' := v / 128) in *.
  assert (0 < 2 ^ shift) as Hp by (apply Z.pow_pos_nonneg; lia).
  assert (0 ≤ v') as Hv' by (apply Z.div_pos; lia).
  assert (b * 2 ^ shift ≤ v * 2 ^ shift) as Hbv by (apply Z.mul_le_mono_nonneg_r; lia).
  assert (b * 2 ^ shift < 2 ^ 64) as Hpart by lia.
  assert (u64 (Z.shiftl b shift) = b * 2 ^ shift) as Hu.
  { rewrite Z.shiftl_mul_pow2 by lia. apply uwrap_small. unfold is_u. nia. }
  destruct (Z.eqb_spec v' 0) as [E|E].
  - rewrite Z.lor_0_l. exists [b]. split_and!; [done..| |].
    + constructor; [unfold is_u; lia|done].
    + cbn [Dequeue_loop]. cbn [app]. rewrite next_byte. rewrite (proj2 (Z.leb_gt 64 shift)) by lia.
      destruct (last_byte b Hb) as [-> ->]. rewrite Hu, lor_above by lia.
      rewrite length_app. cbn. do 2 f_equal; [lia|]. lia.
  - rewrite continued_byte by done.
    assert (2 ^ (7 * Z.of_nat (S n)) = 128 * 2 ^ (7 * Z.of_nat n)) as E7.
    { replace (7 * Z.of_nat (S n)) with (7 + 7 * Z.of_nat n) by lia. rewrite Z.pow_add_r by lia. done. }
    assert (2 ^ (shift + 7) = 128 * 2 ^ shift) as Es by (rewrite Z.pow_add_r by lia; lia).
    assert (shift + 7 < 64) as Hs7.
    { apply (Z.pow_lt_mono_r_iff 2); [lia..|]. rewrite Es. nia. }
    assert (0 < n)%nat as Hn'.
    { destruct n; [|lia]. change (2 ^ (7 * Z.of_nat 1)) with 128 in Hv. nia. }
    destruct (IH v' (shift + 7) (acc + b * 2 ^ shift) (pre ++ [128 + b]) post fuel) as (bytes & EE & Hne & Hby & ED);
      rewrite ?Es; [nia|nia|nia|nia|lia|lia|].
    rewrite EE. exists ((128 + b) :: bytes). split_and!; [done..| |].
    + constructor; [unfold is_u; lia|done].
    + cbn [Dequeue_loop]. cbn [app]. rewrite next_byte. rewrite (proj2 (Z.leb_gt 64 shift)) by lia.
      destruct (other_byte b Hb) as [-> ->]. rewrite Hu, lor_above by lia.
      rewrite <- app_assoc in ED. cbn [app] in ED. rewrite length_app in ED. cbn [length] in ED.
      rewrite Nat.add_1_r in ED. rewrite ED, Es. rewrite !length_app. cbn [length]. do 2 f_equal; [nia|lia].
Qed.

(** [bytes] stand for [v], wherever they are. *)
Definition decodes (dequeue : list Z → nat → outcome (Z * nat)) (bytes : list Z) (v : Z) : Prop :=
  bytes ≠ [] ∧ Forall (is_u 8) bytes ∧
  ∀ pre post, dequeue (pre ++ bytes ++ post) (length pre) = Ok (v, length (pre ++ bytes)).

Lemma Enqueue_decodes v :
  is_u 64 v → ∃ bytes, decodes Dequeue bytes v ∧ ∀ encoding, Enqueue encoding v = Ok (encoding ++ bytes).
Proof.
  intros Hv. unfold is_u in Hv.
  destruct (Enqueue_loop_decodes 10 v 0 0 [] [] 11) as (bytes & E & Hne & Hby & _); [lia..|].
  exists bytes. split; [split_and!; [done..|]|].
  - intros pre post. destruct (Enqueue_loop_decodes 10 v 0 0 pre post 11) as (bytes' & E' & _ & _ & ED); [lia..|].
    rewrite E in E'. injection E' as <-. unfold Dequeue. rewrite ED. do 2 f_equal. lia.
  - intros encoding. unfold Enqueue. by rewrite E.
Qed.

(** ** Sequences of values *)

Section Sequences.
Context (enqueue : list Z → Z → outcome (list Z)) (dequeue : list Z → nat → outcome (Z * nat)) (ok : Z → Prop)
  (enqueue_decodes : ∀ v, ok v → ∃ bytes, decodes dequeue bytes v ∧ ∀ encoding, enqueue encoding v = Ok (encoding ++ bytes)).

Lemma enqueue_all_decodes vs : Forall ok vs →
  ∃ bss, Forall2 (decodes dequeue) bss vs ∧
    ∀ encoding, enqueue_all enqueue encoding vs = Ok (encoding ++ concat bss).
Proof.
  induction 1 as [|v vs Hv _ (bss & HF & IH)].
  - exists []. split; [done|]. intros. cbn. by rewrite app_nil_r.
  - destruct (enqueue_decodes v Hv) as (bs & Hbs & Eb). exists (bs :: bss). split; [by constructor|].
    intros encoding. cbn. rewrite Eb. cbn. by rewrite IH, app_assoc.
Qed.

Lemma dequeue_all_decodes bss vs : Forall2 (decodes dequeue) bss vs →
  ∀ pre fuel, (length (concat bss) ≤ fuel)%nat →
  dequeue_all dequeue fuel (pre ++ concat bss) (length pre) = Ok vs.
Proof.
  induction 1 as [|bs v bss vs (Hne & _ & Hd) _ IH]; intros pre fuel Hf.
  - cbn [concat]. rewrite app_nil_r. destruct fuel; cbn [dequeue_all]; by rewrite bool_decide_false by lia.
  - cbn [concat] in *. rewrite length_app in Hf. destruct bs as [|b bs]; [done|].
    destruct fuel as [|fuel]; cbn [length] in Hf; [lia|]. cbn [dequeue_all].
    rewrite bool_decide_true by (rewrite !length_app; cbn; lia).
    rewrite (Hd pre (concat bss)), (app_assoc pre). cbn -[dequeue_all]. rewrite IH by lia. done.
Qed.

Lemma decodes_bytes bss vs : Forall2 (decodes dequeue) bss vs → Forall (is_u 8) (concat bss).
Proof. induction 1 as [|bs v bss vs (_ & Hb & _) _ IH]; cbn; [done|]. by apply Forall_app. Qed.

Lemma decodes_nonempty bss v vs more : Forall2 (decodes dequeue) bss (v :: vs) → concat bss ++ more ≠ [].
Proof. inversion_clear 1 as [|bs ? bss' ? (Hne & _) _]. cbn. by destruct bs. Qed.

(** Zero bytes decode as zeroes. *)
Lemma zeroes_decode k : decodes dequeue [0] 0 → Forall2 (decodes dequeue) (replicate k [0]) (replicate k 0).
Proof. intros H0. induction k; by constructor. Qed.

End Sequences.

Lemma concat_zeroes k : concat (replicate k [0]) = replicate k (0 : Z).
Proof. induction k; cbn; [done|]. by f_equal. Qed.

Lemma zero_decodes : decodes Dequeue [0] 0.
Proof.
  destruct (Enqueue_decodes 0) as (bytes & Hd & E); [by unfold is_u|].
  specialize (E []). vm_compute in E. injection E as <-. done.
Qed.

(** Padding ends at a whole number of words. *)
Lemma pad_loop_pads fuel : ∀ packed, ((4 - length packed mod 4) mod 4 ≤ fuel)%nat →
  ∃ k, pad_loop fuel packed = Ok (packed ++ replicate k 0) ∧ ((length packed + k) mod 4 = 0)%nat.
Proof.
  induction fuel as [|fuel IH]; intros packed Hf; cbn [pad_loop];
    pose proof (Nat.mod_upper_bound (length packed) 4 ltac:(lia)) as Hm;
    (destruct (Nat.eqb_spec (length packed mod 4) 0) as [E|E];
      [exists 0%nat; cbn [replicate]; by rewrite app_nil_r, Nat.add_0_r|]).
  - rewrite Nat.mod_small in Hf by lia. lia.
  - pose proof (Nat.div_mod (length packed) 4 ltac:(lia)) as Hdm.
    destruct (IH (packed ++ [0])) as (k & -> & Hk).
    + rewrite length_app. cbn [length]. rewrite (Nat.mod_small (4 - _)) in Hf by lia.
      destruct (decide (length packed mod 4 = 3)%nat) as [E3|E3].
      * replace (length packed + 1)%nat with (0 + (length packed / 4 + 1) * 4)%nat by lia.
        rewrite Nat.Div0.mod_add. cbn. lia.
      * replace (length packed + 1)%nat with (length packed mod 4 + 1 + (length packed / 4) * 4)%nat by lia.
        rewrite Nat.Div0.mod_add, (Nat.mod_small (_ + 1)) by lia. rewrite Nat.mod_small by lia. lia.
    + exists (S k). split; [by rewrite <- app_assoc|]. rewrite length_app in Hk. cbn [length] in Hk.
      by rewrite <- Nat.add_assoc in Hk.
Qed.

Lemma pad_pads packed : ∃ k, pad packed = Ok (packed ++ replicate k 0) ∧ ((length packed + k) mod 4 = 0)%nat.
Proof.
  apply pad_loop_pads. pose proof (Nat.mod_upper_bound (4 - length packed mod 4) 4 ltac:(lia)). lia.
Qed.

(** ** Signed values *)

Lemma lor_sign x k : 0 ≤ k → - 2 ^ k ≤ x < 0 → Z.lor x (- 2 ^ k) = x.
Proof.
  intros Hk Hx. apply Z.bits_inj'. intros n Hn. rewrite Z.lor_spec.
  assert (- 2 ^ k = Z.lnot (Z.ones k)) as -> by (rewrite Z.ones_equiv; unfold Z.lnot; lia).
  rewrite Z.lnot_spec by done. destruct (Z.ltb_spec n k).
  - rewrite Z.ones_spec_low by lia. apply orb_false_r.
  - rewrite Z.ones_spec_high by lia. rewrite orb_true_r.
    replace x with (Z.lnot (Z.lnot x)) by (unfold Z.lnot; lia). rewrite Z.lnot_spec by done.
    destruct (decide (Z.lnot x = 0)) as [->|Hne]; [by rewrite Z.bits_0|].
    rewrite (Z.bits_above_log2 (Z.lnot x) n); [done|unfold Z.lnot; lia|].
    apply Z.log2_lt_pow2; [unfold Z.lnot in *; lia|]. apply Z.lt_le_trans with (2 ^ k); [unfold Z.lnot; lia|].
    apply Z.pow_le_mono_r; lia.
Qed.

Lemma lor_minus_power acc k : 0 ≤ k → 0 ≤ acc < 2 ^ k → Z.lor acc (- 2 ^ k) = acc - 2 ^ k.
Proof.
  intros Hk Ha. replace (- 2 ^ k) with (-1 * 2 ^ k) by lia. rewrite lor_above by lia. lia.
Qed.

Section Signed.
Context `{BD : Build}.

(** The values that the decoder re-forms: in a build that does not wrap signed numbers it
    overflows for those whose encodings have bits at the sign or above. *)
Definition in_range (v : Z) : Prop := is_s64 v ∧ (signed_wraps = true ∨ - 2 ^ 55 ≤ v).

Lemma s64_wraps z : signed_wraps = true → s64 z = Ok (to_s64 z).
Proof.
  intros Hw. unfold s64. rewrite Hw. destruct (in_s64 z) eqn:E; [|done]. apply in_s64_spec in E.
  by rewrite to_s64_small.
Qed.

(** The encoder's sign extension changes nothing. *)
Lemma sign_extended v : is_s64 v → (if v <? 0 then Z.lor (v / 128) (- Z.shiftl 1 57) else v / 128) = v / 128.
Proof.
  unfold is_s64, min_s64, max_s64. intros Hv. destruct (Z.ltb_spec v 0); [|done].
  change (Z.shiftl 1 57) with (2 ^ 57). apply lor_sign; [lia|].
  pose proof (Z.div_mod v 128 ltac:(lia)). pose proof (Z.mod_pos_bound v 128 ltac:(lia)). lia.
Qed.

(** The last byte of an encoding. *)
Lemma SDequeue_last k b v acc pre post fuel :
  (k ≤ 9)%nat → in_range (v * 2 ^ (7 * Z.of_nat k)) → 0 ≤ acc < 2 ^ (7 * Z.of_nat k) → 0 ≤ b < 128 →
  v = (if 64 <=? b then b - 128 else b) →
  SDequeue_loop (S fuel) (pre ++ b :: post) (length pre) acc (7 * Z.of_nat k) =
    Ok (acc + v * 2 ^ (7 * Z.of_nat k), S (length pre)).
Proof.
  intros Hk [Hv Hr] Ha Hb Ev. cbn [SDequeue_loop]. rewrite next_byte.
  rewrite (proj2 (Z.leb_gt 64 _)) by lia. destruct (last_byte b Hb) as [-> ->]. rewrite land_64 by done.
  set (shift := 7 * Z.of_nat k) in *. rewrite !Z.shiftl_mul_pow2 by lia.
  assert (0 < 2 ^ shift) as Hp by (apply Z.pow_pos_nonneg; lia).
  assert (2 ^ (shift + 7) = 128 * 2 ^ shift) as Es by (rewrite Z.pow_add_r by lia; lia).
  unfold is_s64, min_s64, max_s64 in Hv. destruct (Z.leb_spec 64 b).
  - destruct (decide (k = 9%nat)) as [->|Hk9].
    + assert (b = 127) as -> by (change (2 ^ shift) with (2 ^ 63) in *; lia). subst v.
      destruct Hr as [Hw|Hr]; [|change (2 ^ shift) with (2 ^ 63) in *; lia].
      rewrite (s64_wraps (127 * 2 ^ shift)) by done. change (to_s64 (127 * 2 ^ shift)) with (- 2 ^ 63). rewrite ?bind_Ok; cbv beta zeta.
      rewrite lor_minus_power by (lia || exact Ha). change (shift) with 63. do 2 f_equal.
    + assert (2 ^ shift ≤ 2 ^ 56) as H56 by (apply Z.pow_le_mono_r; lia).
      rewrite (s64_ok (b * 2 ^ shift)) by (unfold is_s64, min_s64, max_s64; nia). rewrite ?bind_Ok; cbv beta zeta.
      rewrite lor_above by (lia || exact Ha). rewrite (proj2 (Z.ltb_lt _ 64)) by lia. rewrite ?bind_Ok; cbv beta zeta.
      rewrite Z.mul_1_l.
      assert (∃ p, s64 (2 ^ (shift + 7)) = Ok p ∧ s64 (- p) = Ok (- 2 ^ (shift + 7))) as (p & -> & E2).
      { destruct (decide (k = 8%nat)) as [->|].
        - assert (signed_wraps = true) as Hw.
          { destruct Hr as [?|Hr]; [done|]. change (2 ^ shift) with (2 ^ 56) in Hr. lia. }
          exists (- 2 ^ 63). split; rewrite s64_wraps by done; reflexivity.
        - exists (2 ^ (shift + 7)). assert (2 ^ (shift + 7) ≤ 2 ^ 56) by (apply Z.pow_le_mono_r; lia).
          split; apply s64_ok; unfold is_s64, min_s64, max_s64; lia. }
      rewrite ?bind_Ok; cbv beta zeta. rewrite E2. rewrite ?bind_Ok; cbv beta zeta.
      rewrite lor_minus_power by (rewrite ?Es; nia). rewrite Es. do 2 f_equal. subst v. lia.
  - subst v. rewrite (s64_ok (b * 2 ^ shift)) by (unfold is_s64, min_s64, max_s64; nia). rewrite ?bind_Ok; cbv beta zeta.
    rewrite lor_above by (lia || exact Ha). by rewrite andb_false_r.
Qed.

Lemma SEnqueue_loop_decodes n : ∀ v k acc neg pre post fuel,
  (n + k = 10)%nat → (0 < n)%nat → in_range (v * 2 ^ (7 * Z.of_nat k)) → 0 ≤ acc < 2 ^ (7 * Z.of_nat k) →
  neg = (v <? 0) → (n ≤ fuel)%nat →
  ∃ bytes, SEnqueue_loop n neg v = Ok bytes ∧ bytes ≠ [] ∧ Forall (is_u 8) bytes ∧
    SDequeue_loop fuel (pre ++ bytes ++ post) (length pre) acc (7 * Z.of_nat k) =
      Ok (acc + v * 2 ^ (7 * Z.of_nat k), length (pre ++ bytes)).
Proof.
  induction n as [|n IH]; intros v k acc neg pre post fuel Hk Hn Hv Ha -> Hf; [lia|].
  destruct fuel as [|fuel]; [lia|]. cbn [SEnqueue_loop]. rewrite land_127, shiftr_7.
  pose proof (Z.div_mod v 128 ltac:(lia)) as Hdm. pose proof (Z.mod_pos_bound v 128 ltac:(lia)) as Hb.
  assert (0 < 2 ^ (7 * Z.of_nat k)) as Hp by (apply Z.pow_pos_nonneg; lia).
  rewrite sign_extended by (destruct Hv as [Hv _]; unfold is_s64, min_s64, max_s64 in *; nia).
  rewrite land_64 by done. set (b := v mod 128) in *. set (v' := v / 128) in *.
  destruct (((v' =? 0) && negb (64 <=? b)) || ((v' =? -1) && (64 <=? b))) eqn:E.
  - exists [b]. split_and!; [done|done|constructor; [unfold is_u; lia|done]|]. cbn [app].
    rewrite length_app, Nat.add_1_r. apply SDequeue_last; [lia|done..|]. destruct (Z.leb_spec 64 b); lia.
  - assert (k ≠ 9%nat ∧ v' ≠ 0 ∨ v < -64 ∨ 64 ≤ v) as Hbig by (destruct (Z.leb_spec 64 b); lia).
    assert (v < -64 ∨ 64 ≤ v) as Hbig' by (destruct (Z.leb_spec 64 b); lia). clear Hbig.
    destruct Hv as [Hv Hr]. pose proof Hv as Hv0. unfold is_s64, min_s64, max_s64 in Hv0.
    assert (k < 9)%nat as Hk8.
    { destruct (decide (k = 9%nat)) as [->|]; [|lia]. change (2 ^ (7 * Z.of_nat 9)) with (2 ^ 63) in *. lia. }
    assert (2 ^ (7 * Z.of_nat (S k)) = 128 * 2 ^ (7 * Z.of_nat k)) as Es.
    { replace (7 * Z.of_nat (S k)) with (7 + 7 * Z.of_nat k) by lia. rewrite Z.pow_add_r by lia. done. }
    assert (2 ^ 63 = 2 ^ (63 - 7 * Z.of_nat k) * 2 ^ (7 * Z.of_nat k)) as E63.
    { rewrite <- Z.pow_add_r by lia. f_equal. lia. }
    assert (2 ^ (63 - 7 * Z.of_nat k) = 128 * 2 ^ (56 - 7 * Z.of_nat k)) as E56.
    { replace (63 - 7 * Z.of_nat k) with (7 + (56 - 7 * Z.of_nat k)) by lia. rewrite Z.pow_add_r by lia. done. }
    assert (0 < 2 ^ (56 - 7 * Z.of_nat k)) as Hp56 by (apply Z.pow_pos_nonneg; lia).
    set (u := 2 ^ (7 * Z.of_nat k)) in *. set (w := 2 ^ (56 - 7 * Z.of_nat k)) in *.
    assert (- w ≤ v' < w) as Hv' by nia.
    assert (u ≤ 2 ^ 56) as Hu by (apply Z.pow_le_mono_r; lia).
    destruct (IH v' (S k) (acc + b * u) (v <? 0) (pre ++ [128 + b]) post fuel) as (bytes & EE & Hne & Hby & ED).
    + lia.
    + lia.
    + split.
      * rewrite Es. unfold is_s64, min_s64, max_s64. nia.
      * destruct Hr as [Hr|Hr]; [by left|right]. rewrite Es. destruct (Z.ltb_spec v 0); [|nia].
        assert (k < 7)%nat as Hk7.
        { destruct (decide (k = 7 ∨ k = 8)%nat) as [Hk78|]; [|lia].
          assert (2 ^ 49 ≤ u) by (apply Z.pow_le_mono_r; lia). nia. }
        assert (2 ^ 55 = 2 ^ (48 - 7 * Z.of_nat k) * (128 * u)) as E55.
        { unfold u. change 128 with (2 ^ 7). rewrite <- !Z.pow_add_r by lia. f_equal. lia. }
        assert (0 < 2 ^ (48 - 7 * Z.of_nat k)) by (apply Z.pow_pos_nonneg; lia).
        set (x := 2 ^ (48 - 7 * Z.of_nat k)) in *. assert (- x ≤ v') by nia. nia.
    + rewrite Es. nia.
    + destruct (Z.ltb_spec v 0), (Z.ltb_spec v' 0); lia.
    + lia.
    + rewrite EE. exists ((128 + b) :: bytes). rewrite bind_Ok. split_and!; [|done| |].
      * by rewrite Z.lor_comm, continued_byte by done.
      * constructor; [unfold is_u; lia|done].
      * cbn [SDequeue_loop]. cbn [app]. rewrite next_byte. rewrite (proj2 (Z.leb_gt 64 _)) by lia.
        destruct (other_byte b Hb) as [-> ->]. rewrite Z.shiftl_mul_pow2 by lia. fold u.
        rewrite s64_ok by (unfold is_s64, min_s64, max_s64; nia). rewrite bind_Ok. cbv beta zeta.
        unfold u. rewrite lor_above by (lia || exact Ha). fold u.
        rewrite <- app_assoc in ED. cbn [app] in ED. rewrite length_app in ED. cbn [length] in ED.
        rewrite Nat.add_1_r in ED. replace (7 * Z.of_nat k + 7) with (7 * Z.of_nat (S k)) by lia.
        rewrite ED, Es. rewrite !length_app. cbn [length]. do 2 f_equal; [nia|lia].
Qed.

Lemma SEnqueue_decodes v :
  in_range v → ∃ bytes, decodes SDequeue bytes v ∧ ∀ encoding, SEnqueue encoding v = Ok (encoding ++ bytes).
Proof.
  intros Hv. assert (in_range (v * 2 ^ (7 * Z.of_nat 0))) as Hv' by (by rewrite Z.mul_1_r).
  destruct (SEnqueue_loop_decodes 10 v 0 0 (v <? 0) [] [] 11) as (bytes & E & Hne & Hby & _); [lia|lia|done..|lia|].
  exists bytes. split; [split_and!; [done..|]|].
  - intros pre post.
    destruct (SEnqueue_loop_decodes 10 v 0 0 (v <? 0) pre post 11) as (bytes' & E' & _ & _ & ED); [lia|lia|done..|lia|].
    rewrite E in E'. injection E' as <-. unfold SDequeue. change 0 with (7 * Z.of_nat 0) at 2. rewrite ED.
    do 2 f_equal. change (2 ^ (7 * Z.of_nat 0)) with 1. lia.
  - intros encoding. unfold SEnqueue. by rewrite E.
Qed.

Lemma zero_sdecodes : decodes SDequeue [0] 0.
Proof.
  split_and!; [done|by repeat constructor|]. intros pre post.
  pose proof (SDequeue_last 0 0 0 0 pre post 10) as E. change (7 * Z.of_nat 0) with 0 in E. unfold SDequeue. cbn [app]. rewrite E.
  - by rewrite length_app, Nat.add_1_r.
  - lia.
  - split; [done|by right].
  - done.
  - done.
  - done.
Qed.

End Signed.

(** ** Run lengths *)

Section RunLengths.
Context `{TG : Target} `{TL : !TargetLaws} `{BD : Build}.

Definition relative_rel (addr : Z) : Rel := mk_rel addr (ELF_R_INFO 0 kRelativeRelocationCode).
Definition relative (r : Rel) : Prop := is_u addr_bits (r_offset r) ∧ r = relative_rel (r_offset r).

Lemma relative_is_relative r : relative r → is_relative (r_info r) = true.
Proof. intros [_ ->]. unfold is_relative. cbn. rewrite relative_type. apply Z.eqb_refl. Qed.

(** The relocations at the addresses that deltas lead to. *)
Fixpoint follow (addr : Z) (deltas : list Z) : list Rel :=
  match deltas with
  | [] => []
  | d :: deltas => relative_rel (uwrap addr_bits (addr + d)) :: follow (uwrap addr_bits (addr + d)) deltas
  end.
Fixpoint arrive (addr : Z) (deltas : list Z) : Z :=
  match deltas with [] => addr | d :: deltas => arrive (uwrap addr_bits (addr + d)) deltas end.

Lemma follow_app addr ds1 ds2 : follow addr (ds1 ++ ds2) = follow addr ds1 ++ follow (arrive addr ds1) ds2.
Proof. revert addr. induction ds1 as [|d ds1 IH]; intros addr; cbn; [done|]. by rewrite IH. Qed.
Lemma expand_follows n addr d rels :
  expand n addr d rels = (arrive addr (replicate n d), rels ++ follow addr (replicate n d)).
Proof.
  revert addr rels. induction n as [|n IH]; intros addr rels; cbn; [by rewrite app_nil_r|].
  rewrite IH. by rewrite <- app_assoc.
Qed.

Lemma deltas_loop_cons r r2 rest : deltas_loop (r :: r2 :: rest) =
  (_ ← check (is_relative (r_info r)); _ ← check (is_relative (r_info r2)); _ ← check (r_offset r <? r_offset r2);
   let delta := uwrap addr_bits (r_offset r2 - r_offset r) in
   deltas ← deltas_loop (r2 :: rest); Ok (delta :: deltas)).
Proof. done. Qed.

Lemma deltas_loop_follows r rest :
  Forall relative (r :: rest) → Sorted (λ a b, r_offset a < r_offset b) (r :: rest) →
  ∃ ds, deltas_loop (r :: rest) = Ok ds ∧ follow (r_offset r) ds = rest ∧
    Forall (λ d, 0 < d < 2 ^ addr_bits) ds ∧ length ds = length rest.
Proof.
  revert r. induction rest as [|r2 rest IH]; intros r HF HS; [by exists []|].
  apply Forall_cons in HF as [Hr HF]. inversion HS as [|? ? HS' Hlt]; subst. inversion Hlt as [|? ? Hlt']; subst.
  destruct (IH r2 HF HS') as (ds & E & Ef & Hd & Hl). apply Forall_cons in HF as [Hr2 _].
  destruct addr_bits_ok as [Hb|Hb]; pose proof Hr as [Hu _]; pose proof Hr2 as [Hu2 E2]; unfold is_u in Hu, Hu2.
  all: exists ((r_offset r2 - r_offset r) :: ds); rewrite deltas_loop_cons, E.
  all: rewrite !relative_is_relative by done; rewrite (proj2 (Z.ltb_lt _ _)) by done.
  all: cbn [check]; rewrite !bind_Ok; cbv zeta.
  all: rewrite (uwrap_small _ (_ - _)) by (unfold is_u; lia).
  all: split_and!; [done| |constructor; [lia|done]|cbn; by f_equal].
  all: cbn [follow]; replace (r_offset r + _) with (r_offset r2) by lia.
  all: rewrite uwrap_small by (unfold is_u; lia); by rewrite Ef, <- E2.
Qed.

Definition flat (ps : list (Z * Z)) : list Z := concat (map (λ p, [p.1; p.2]) ps).
Definition spans (ps : list (Z * Z)) : list Z := concat (map (λ p, replicate (Z.to_nat p.1) p.2) ps).

Lemma length_flat ps : length (flat ps) = (2 * length ps)%nat.
Proof. unfold flat. induction ps as [|p ps IH]; cbn -[Nat.mul]; [done|]. rewrite IH. lia. Qed.

Lemma condense_loop_spans ds : ∀ count current,
  0 ≤ count → count + Z.of_nat (length ds) < 2 ^ 64 → 0 < count ∨ head ds = Some current →
  ∃ ps, condense_loop ds count current = flat ps ∧ spans ps = replicate (Z.to_nat count) current ++ ds ∧
    Forall (λ p, 0 < p.1 < 2 ^ 64 ∧ p.2 ∈ current :: ds) ps ∧ (0 < length ps ≤ S (length ds))%nat.
Proof.
  induction ds as [|d ds IH]; intros count current Hc Hl Hh; cbn [condense_loop length head] in *.
  - exists [(count, current)]. destruct Hh as [Hh|]; [|done]. split_and!; [done|unfold spans; cbn; by rewrite !app_nil_r|..|cbn; lia].
    + constructor; [cbn; split; [lia|left]|done].
    + cbn. lia.
  - destruct (Z.eqb_spec d current) as [->|Hne].
    + destruct (IH (count + 1) current) as (ps & E & Es & HF & Hps); [lia|lia|lia|].
      rewrite uwrap_small by (unfold is_u; lia). exists ps. split_and!; [done| | |lia|lia].
      * rewrite Es, Z2Nat.inj_add by lia. rewrite replicate_add, <- app_assoc. done.
      * eapply Forall_impl; [exact HF|]. intros p [Hp1 Hp2]. split; [done|]. by apply list_elem_of_further.
    + destruct Hh as [Hh|Hh]; [|congruence].
      destruct (IH 1 d) as (ps & E & Es & HF & Hps); [lia|lia|lia|].
      exists ((count, current) :: ps). split_and!; cbn.
      * by rewrite E.
      * unfold spans in Es. rewrite Es. done.
      * constructor; [cbn; split; [lia|left]|]. eapply Forall_impl; [exact HF|].
        intros p [Hp1 Hp2]. split; [done|]. apply list_elem_of_further. apply elem_of_cons in Hp2 as [->|?]; [left|by right].
      * lia.
      * lia.
Qed.

Lemma uncondense_loop_follows ps : ∀ addr pre post rels fuel,
  Forall (λ p, 0 < p.1 ∧ 0 < p.2 < 2 ^ addr_bits) ps → (length ps ≤ fuel)%nat →
  uncondense_loop fuel addr (pre ++ flat ps ++ post) (length pre) (length pre + 2 * length ps) rels =
    Ok (rels ++ follow addr (spans ps)).
Proof.
  induction ps as [|[c d] ps IH]; intros addr pre post rels fuel HF Hf; cbn [length].
  - destruct fuel; cbn [uncondense_loop]; rewrite bool_decide_false by lia; cbn; by rewrite app_nil_r.
  - apply Forall_cons in HF as [[Hc Hd] HF]. cbn in Hc, Hd. destruct fuel as [|fuel]; [cbn in Hf; lia|].
    cbn [uncondense_loop]. rewrite bool_decide_true by lia.
    change (flat ((c, d) :: ps)) with ([c; d] ++ flat ps). cbn [app].
    rewrite next_byte, (lookup_app_r pre) by lia. replace (S (length pre) - length pre)%nat with 1%nat by lia.
    cbn [lookup list_lookup]. rewrite (uwrap_small _ d) by (unfold is_u; lia).
    rewrite (proj2 (Z.ltb_lt 0 c)), (proj2 (Z.ltb_lt 0 d)) by lia. cbn [andb check]. rewrite bind_Ok, expand_follows.
    specialize (IH (arrive addr (replicate (Z.to_nat c) d)) (pre ++ [c; d]) post
      (rels ++ follow addr (replicate (Z.to_nat c) d)) fuel HF ltac:(cbn in Hf; lia)).
    rewrite <- app_assoc in IH. cbn [app] in IH. rewrite length_app in IH. cbn [length] in IH.
    replace (S (S (length pre))) with (length pre + 2)%nat by lia.
    replace (length pre + 2 * S (length ps))%nat with (length pre + 2 + 2 * length ps)%nat by lia.
    rewrite IH. change (spans ((c, d) :: ps)) with (replicate (Z.to_nat c) d ++ spans ps).
    by rewrite follow_app, <- app_assoc.
Qed.

Definition packable (rels : list Rel) : Prop :=
  Forall relative rels ∧ Sorted (λ a b, r_offset a < r_offset b) rels ∧
  (2 ≤ length rels)%nat ∧ Z.of_nat (length rels) < 2 ^ 62.

Lemma RunLength_Encode_words rels : packable rels →
  ∃ addr ps, RunLength_Encode rels [] = Ok (Z.of_nat (length ps) :: addr :: flat ps) ∧
    rels = relative_rel addr :: follow addr (spans ps) ∧ is_u addr_bits addr ∧
    Forall (λ p, 0 < p.1 < 2 ^ 64 ∧ 0 < p.2 < 2 ^ addr_bits) ps ∧ (0 < length ps ≤ length rels)%nat.
Proof.
  intros (HF & HS & Hl2 & Hl). destruct rels as [|r [|r2 rest]]; cbn [length] in Hl2; [lia..|].
  destruct (deltas_loop_follows r (r2 :: rest) HF HS) as (ds & E & Ef & Hd & Hlen).
  cbn [length] in *. destruct ds as [|d ds]; [done|].
  destruct (condense_loop_spans (d :: ds) 0 d) as (ps & Ec & Es & Hps & Hlps); [lia|rewrite Hlen; lia|by right|].
  exists (r_offset r), ps. apply Forall_cons in HF as [[Hu Er] _]. split_and!; [| |done| |lia|cbn [length] in *; lia].
  - unfold RunLength_Encode, GetDeltas. rewrite bool_decide_true by (cbn [length]; lia). cbn [check].
    rewrite bind_Ok, E, bind_Ok. unfold Condense. cbn [check]. rewrite !bind_Ok. cbn [app].
    rewrite Ec. cbn [length]. rewrite length_flat. rewrite shiftr1_div2. do 2 f_equal.
    rewrite uwrap_small by (unfold is_u; cbn [length] in *; lia).
    symmetry. apply Z.div_unique with 0; lia.
  - change (spans ps = d :: ds) in Es. by rewrite Es, Ef, <- Er.
  - eapply Forall_impl; [exact Hps|]. intros p [Hp1 Hp2]. split; [done|].
    rewrite Forall_forall in Hd. apply Hd. by apply elem_of_cons in Hp2 as [->|?]; [left|].
Qed.

Lemma RunLength_Decode_words addr ps zeroes out :
  is_u addr_bits addr → Forall (λ p, 0 < p.1 < 2 ^ 64 ∧ 0 < p.2 < 2 ^ addr_bits) ps →
  (0 < length ps)%nat → Z.of_nat (length ps) < 2 ^ 62 →
  RunLength_Decode (Z.of_nat (length ps) :: addr :: flat ps ++ zeroes) out =
    Ok (out ++ relative_rel addr :: follow addr (spans ps)).
Proof.
  intros Hu HF Hl Hl62. unfold RunLength_Decode. pose proof (length_flat ps) as Hlf.
  destruct (flat ps ++ zeroes) as [|x [|y post]] eqn:E.
  { apply (f_equal length) in E. rewrite length_app in E. cbn in E. lia. }
  { apply (f_equal length) in E. rewrite length_app in E. cbn in E. lia. }
  rewrite <- E. rewrite shiftr1_div2, (proj2 (Z.leb_le _ _)).
  - cbn [check]. rewrite bind_Ok. unfold Uncondense. rewrite (uwrap_small addr_bits) by done.
    rewrite Z.shiftl_mul_pow2, (uwrap_small 64) by (unfold is_u; lia).
    replace (Z.to_nat (2 + Z.of_nat (length ps) * 2 ^ 1)) with (2 + 2 * length ps)%nat by lia.
    pose proof (uncondense_loop_follows ps addr [Z.of_nat (length ps); addr] zeroes (out ++ [relative_rel addr])
      (length (Z.of_nat (length ps) :: addr :: flat ps ++ zeroes))) as EU. cbn [app length] in *.
    fold (relative_rel addr). rewrite EU; [by rewrite <- app_assoc| |].
    + eapply Forall_impl; [exact HF|]. intros p [[? ?] ?]. lia.
    + rewrite length_app. lia.
  - cbn [length]. rewrite length_app, Hlf. apply Z.div_le_lower_bound; lia.
Qed.

Lemma Enqueue_magic e : enqueue_all Enqueue e [65; 80; 82; 49] = Ok (e ++ [65; 80; 82; 49]).
Proof.
  assert (∀ e' c, c = 65 ∨ c = 80 ∨ c = 82 ∨ c = 49 → Enqueue e' c = Ok (e' ++ [c])) as E.
  { intros e' c Hc. by destruct Hc as [-> |[-> |[-> | ->]]]. }
  cbn [enqueue_all]. rewrite (E e 65), bind_Ok, (E _ 80), bind_Ok, (E _ 82), bind_Ok, (E _ 49) by lia.
  by rewrite bind_Ok, <- !app_assoc.
Qed.

Lemma UnpackRel_magic post out :
  UnpackRel (65 :: 80 :: 82 :: 49 :: post) out =
  (packed_words ← DequeueAll (65 :: 80 :: 82 :: 49 :: post) 4; RunLength_Decode packed_words out).
Proof.
  assert (∀ pre c post, c = 65 ∨ c = 80 ∨ c = 82 ∨ c = 49 →
    Dequeue (pre ++ c :: post) (length pre) = Ok (c, S (length pre))) as E.
  { intros pre c post' Hc. unfold Dequeue. cbn [Dequeue_loop]. rewrite next_byte.
    by destruct Hc as [-> |[-> |[-> | ->]]]. }
  unfold UnpackRel. pose proof (E [] 65 (80 :: 82 :: 49 :: post)) as E0.
  pose proof (E [65] 80 (82 :: 49 :: post)) as E1. pose proof (E [65; 80] 82 (49 :: post)) as E2.
  pose proof (E [65; 80; 82] 49 post) as E3. cbn [app length] in *.
  by rewrite E0, bind_Ok, E1, bind_Ok, E2, bind_Ok, E3, bind_Ok by lia.
Qed.

(** Packing relative relocations and unpacking them gives them back.  Two or more
    relocations with the relative code and strictly increasing offsets pack into a whole
    number of words, made of bytes, whatever was in the output before; unpacking that, the
    padding included, appends exactly the relocations.  Fewer than two are left alone. *)
Lemma PackRel_roundtrip rels packed0 out :
  packable rels →
  ∃ packed, PackRel rels packed0 = Ok packed ∧ (length packed mod 4 = 0)%nat ∧ Forall (is_u 8) packed ∧
    UnpackRel packed out = Ok (out ++ rels) ∧ (∃ rest, packed = [65; 80; 82; 49] ++ rest ∧ rest ≠ []) ∧
    ∀ r, PackRel [] packed0 = Ok packed0 ∧ PackRel [r] packed0 = Ok packed0.
Proof.
  intros Hv. destruct (RunLength_Encode_words rels Hv) as (addr & ps & E & -> & Hu & HF & Hl).
  destruct Hv as (_ & _ & _ & Hl62). set (words := Z.of_nat (length ps) :: addr :: flat ps) in *.
  assert (Forall (is_u 64) words) as Hw.
  { assert (is_u 64 addr) by (destruct addr_bits_ok as [Hb|Hb]; unfold is_u in *; rewrite Hb in Hu; lia).
    constructor; [unfold is_u; lia|constructor; [done|]]. unfold flat.
    apply Forall_concat, Forall_map. eapply Forall_impl; [exact HF|]. intros p [Hp1 Hp2].
    assert (is_u 64 p.2) by (destruct addr_bits_ok as [Hb|Hb]; unfold is_u in *; rewrite Hb in Hp2; lia).
    repeat constructor; cbn; unfold is_u in *; lia. }
  destruct (enqueue_all_decodes Enqueue Dequeue (is_u 64) Enqueue_decodes words Hw) as (bss & Hbss & Eb).
  set (magic := [65; 80; 82; 49]).
  assert (∀ e, enqueue_all Enqueue e magic = Ok (e ++ magic)) as Em by (intros e; apply Enqueue_magic).
  destruct (pad_pads (magic ++ concat bss)) as (k & Ep & Hk).
  exists ((magic ++ concat bss) ++ replicate k 0). split_and!.
  - unfold PackRel. rewrite E, bind_Ok. unfold words at 1. unfold EnqueueAll. rewrite Em, bind_Ok. cbn [app].
    rewrite Eb, bind_Ok. exact Ep.
  - by rewrite length_app, length_replicate.
  - repeat apply Forall_app_2; [by repeat constructor|by eapply decodes_bytes|].
    by apply Forall_replicate.
  - rewrite <- app_assoc. unfold magic. cbn [app]. rewrite UnpackRel_magic.
    pose proof (dequeue_all_decodes Dequeue (bss ++ replicate k [0]) (words ++ replicate k 0)
      (Forall2_app Hbss (zeroes_decode _ k zero_decodes)) magic) as ED.
    rewrite concat_app, concat_zeroes in ED. unfold DequeueAll.
    rewrite ED by (cbn [length]; lia). rewrite bind_Ok. unfold words.
    cbn [app]. apply RunLength_Decode_words; [done..|lia|]. cbn [length] in Hl62, Hl. lia.
  - exists (concat bss ++ replicate k 0). split; [by rewrite app_assoc|]. by eapply decodes_nonempty.
  - done.
Qed.

End RunLengths.

(** ** Deltas *)

Section Deltas.
Context `{TG : Target} `{TL : !TargetLaws} `{BD : Build}.

Definition relative_rela (r : Rela) : Prop :=
  is_u addr_bits (a_offset r) ∧ - 2 ^ (addr_bits - 1) ≤ r_addend r < 2 ^ (addr_bits - 1) ∧
  r = mk_rela (a_offset r) (ELF_R_INFO 0 kRelativeRelocationCode) (r_addend r).

(** The steps from each relocation to the next. *)
Fixpoint steps (offset addend : Z) (rels : list Rela) : list Z :=
  match rels with
  | [] => []
  | r :: rels => to_s64 (uwrap addr_bits (a_offset r - offset)) :: r_addend r - addend :: steps (a_offset r) (r_addend r) rels
  end.

Lemma length_steps offset addend rels : length (steps offset addend rels) = (2 * length rels)%nat.
Proof. revert offset addend. induction rels as [|r rels IH]; intros; cbn -[Nat.mul]; [done|]. rewrite IH. lia. Qed.

Definition rela_packable (rels : list Rela) : Prop :=
  rels ≠ [] ∧ Z.of_nat (length rels) < 2 ^ 62 ∧ Forall relative_rela rels ∧ Forall in_range (steps 0 0 rels).

Lemma delta_encode_loop_steps rels : ∀ offset addend,
  Forall relative_rela rels → Forall in_range (steps offset addend rels) →
  delta_encode_loop rels offset addend = Ok (steps offset addend rels).
Proof.
  induction rels as [|r rels IH]; intros offset addend HF HS; [done|].
  apply Forall_cons in HF as [(_ & _ & Er) HF]. cbn [steps] in HS.
  apply Forall_cons in HS as [_ HS]. apply Forall_cons in HS as [[Ha _] HS]. cbn [delta_encode_loop].
  assert (is_relative (a_info r) = true) as ->.
  { rewrite Er. unfold is_relative. cbn. rewrite relative_type. apply Z.eqb_refl. }
  cbn [check]. rewrite bind_Ok. cbv zeta. by rewrite s64_ok, bind_Ok, IH by done.
Qed.

(** Adding a step to an address, as the target does it. *)
Lemma address_step offset offset' :
  is_u addr_bits offset → is_u addr_bits offset' →
  ∃ sum, (if addr_bits <? 64 then s64 (offset + to_s64 (uwrap addr_bits (offset' - offset)))
          else Ok (offset + to_s64 (uwrap addr_bits (offset' - offset)))) = Ok sum ∧ uwrap addr_bits sum = offset'.
Proof.
  intros Ho Ho'. unfold is_u in *. pose proof (uwrap_range addr_bits (offset' - offset)) as Hu.
  destruct addr_bits_ok as [Hb|Hb]; rewrite Hb in *; cbn [Z.ltb Z.compare Pos.compare Pos.compare_cont].
  - specialize (Hu ltac:(lia)). unfold is_u in Hu.
    rewrite to_s64_small, s64_ok by (unfold is_s64, min_s64, max_s64; lia).
    eexists. split; [done|]. unfold uwrap. rewrite Zplus_mod_idemp_r.
    replace (offset + (offset' - offset)) with offset' by lia. by apply Z.mod_small.
  - eexists. split; [done|]. unfold uwrap, to_s64.
    replace (offset + (((offset' - offset) mod 2 ^ 64 + 2 ^ 63) mod 2 ^ 64 - 2 ^ 63))
      with ((offset - 2 ^ 63) + ((offset' - offset) mod 2 ^ 64 + 2 ^ 63) mod 2 ^ 64) by lia.
    rewrite Zplus_mod_idemp_r.
    replace (offset - 2 ^ 63 + ((offset' - offset) mod 2 ^ 64 + 2 ^ 63)) with (offset + (offset' - offset) mod 2 ^ 64) by lia.
    rewrite Zplus_mod_idemp_r. replace (offset + (offset' - offset)) with offset' by lia. by apply Z.mod_small.
Qed.

Lemma to_signed_small w z : 0 < w → - 2 ^ (w - 1) ≤ z < 2 ^ (w - 1) → to_signed w z = z.
Proof.
  intros Hw Hz. unfold to_signed. assert (2 ^ w = 2 * 2 ^ (w - 1)) as E.
  { replace w with (1 + (w - 1)) at 1 by lia. rewrite Z.pow_add_r by lia. done. }
  rewrite Z.mod_small by lia. lia.
Qed.

Lemma delta_decode_loop_steps rels : ∀ offset addend pre post out fuel,
  Forall relative_rela rels → is_u addr_bits offset →
  (length rels ≤ fuel)%nat →
  delta_decode_loop fuel (pre ++ steps offset addend rels ++ post) (length pre) (length pre + 2 * length rels)
    offset addend out = Ok (out ++ rels).
Proof.
  induction rels as [|r rels IH]; intros offset addend pre post out fuel HF Ho Hf; cbn [length].
  - destruct fuel; cbn [delta_decode_loop]; rewrite bool_decide_false by lia; cbn; by rewrite app_nil_r.
  - apply Forall_cons in HF as [(Hu & Ha & Er) HF]. destruct fuel as [|fuel]; [cbn in Hf; lia|].
    cbn [delta_decode_loop]. rewrite bool_decide_true by lia. cbn [steps app].
    rewrite next_byte, (lookup_app_r pre) by lia. replace (S (length pre) - length pre)%nat with 1%nat by lia.
    cbn [lookup list_lookup]. destruct (address_step offset (a_offset r) Ho Hu) as (sum & -> & Eu).
    rewrite bind_Ok. cbv zeta. rewrite Eu. replace (addend + (r_addend r - addend)) with (r_addend r) by lia.
    assert (0 < addr_bits ∧ is_s64 (r_addend r)) as [Hb Hs].
    { unfold is_s64, min_s64, max_s64. destruct addr_bits_ok as [Hb|Hb]; rewrite Hb in *; lia. }
    rewrite s64_ok, bind_Ok, to_signed_small by done. rewrite <- Er.
    specialize (IH (a_offset r) (r_addend r)
      (pre ++ [to_s64 (uwrap addr_bits (a_offset r - offset)); r_addend r - addend]) post (out ++ [r]) fuel
      HF Hu ltac:(cbn in Hf; lia)).
    rewrite <- app_assoc in IH. cbn [app] in IH. rewrite length_app in IH. cbn [length] in IH.
    replace (S (S (length pre))) with (length pre + 2)%nat by lia.
    replace (length pre + 2 * S (length rels))%nat with (length pre + 2 + 2 * length rels)%nat by lia.
    by rewrite IH, <- app_assoc.
Qed.

Lemma Delta_Decode_words rels zeroes out :
  rela_packable rels →
  Delta_Decode (Z.of_nat (length rels) :: steps 0 0 rels ++ zeroes) out = Ok (out ++ rels).
Proof.
  intros (Hne & Hl & HF & _). pose proof (length_steps 0 0 rels) as Hls.
  assert (0 < length rels)%nat as Hpos by (destruct rels; [done|cbn; lia]).
  unfold Delta_Decode. destruct (steps 0 0 rels ++ zeroes) as [|x [|y post]] eqn:E.
  { apply (f_equal length) in E. rewrite length_app in E. cbn in E. lia. }
  { apply (f_equal length) in E. rewrite length_app in E. cbn in E. lia. }
  rewrite <- E. rewrite !(uwrap_small 64 (Z.of_nat (length rels))) by (unfold is_u; lia). rewrite shiftr1_div2, (proj2 (Z.leb_le _ _)).
  - cbn [check]. rewrite bind_Ok, Z.shiftl_mul_pow2, (uwrap_small 64) by (unfold is_u; lia).
    replace (Z.to_nat (1 + Z.of_nat (length rels) * 2 ^ 1)) with (1 + 2 * length rels)%nat by lia.
    apply (delta_decode_loop_steps rels 0 0 [Z.of_nat (length rels)]); [done| |].
    + destruct addr_bits_ok as [Hb|Hb]; rewrite Hb; done.
    + cbn [length]. rewrite length_app. lia.
  - cbn [length]. rewrite length_app, Hls. apply Z.div_le_lower_bound; lia.
Qed.

(** Packing relative relocations with addends and unpacking them gives them back.  A
    nonempty list of relocations with the relative code, whose steps the signed codec can
    re-form (all 64-bit steps in a build that wraps signed numbers, steps of -2^55 and
    above in one that does not), is appended to the output as a prefix and bytes; if the output was empty,
    the result is a whole number of words, and unpacking it appends exactly the
    relocations. *)
Lemma PackRela_roundtrip rels out :
  rela_packable rels →
  ∃ packed, PackRela rels [] = Ok packed ∧ (length packed mod 4 = 0)%nat ∧ Forall (is_u 8) packed ∧
    UnpackRela packed out = Ok (out ++ rels) ∧ (∃ rest, packed = [65; 80; 65; 49] ++ rest ∧ rest ≠ []).
Proof.
  intros Hv. pose proof Hv as (Hne & Hl & HF & HS). set (words := Z.of_nat (length rels) :: steps 0 0 rels) in *.
  assert (is_s64 (Z.of_nat (length rels))) as Hls by (unfold is_s64, min_s64, max_s64; lia).
  assert (Forall in_range words) as Hw by (constructor; [split; [done|right; lia]|done]).
  destruct (enqueue_all_decodes SEnqueue SDequeue in_range SEnqueue_decodes words Hw) as (bss & Hbss & Eb).
  set (magic := [65; 80; 65; 49]). destruct (pad_pads (magic ++ concat bss)) as (k & Ep & Hk).
  exists ((magic ++ concat bss) ++ replicate k 0). split_and!.
  - unfold PackRela, Delta_Encode. destruct rels as [|r rels]; [done|].
    rewrite delta_encode_loop_steps, bind_Ok, to_s64_small by done. cbn [app]. rewrite bind_Ok.
    unfold SEnqueueAll. fold words. rewrite Eb, bind_Ok. exact Ep.
  - by rewrite length_app, length_replicate.
  - repeat apply Forall_app_2; [by repeat constructor|by eapply decodes_bytes|].
    by apply Forall_replicate.
  - rewrite <- app_assoc. unfold UnpackRela, magic. cbn [app expect Z.eqb Pos.eqb check]. rewrite !bind_Ok.
    pose proof (dequeue_all_decodes SDequeue (bss ++ replicate k [0]) (words ++ replicate k 0)
      (Forall2_app Hbss (zeroes_decode _ k zero_sdecodes)) []) as ED.
    rewrite concat_app, concat_zeroes in ED. cbn [app length] in ED. unfold SDequeueAll.
    rewrite ED, bind_Ok by lia. by apply Delta_Decode_words.
  - exists (concat bss ++ replicate k 0). split; [by rewrite app_assoc|]. by eapply decodes_nonempty.
Qed.

End Deltas.

(** ** Examples *)

(** The 64-bit target, R_AARCH64_RELATIVE being 1027. *)
Definition arm64 : Target := {|
  addr_bits := 64;
  kRelativeRelocationCode := 1027;
  ELF_R_TYPE := λ info, Z.land info (2 ^ 32 - 1);
  ELF_R_INFO := λ sym type, Z.shiftl sym 32 + type;
|}.

Lemma arm64_laws : @TargetLaws arm64.
Proof. split; [by right|done]. Qed.

(** In a build that does not wrap signed numbers, decoding a value below -2^55 overflows. *)
Lemma sleb128_overflow :
  ∃ bytes, SEnqueue [] (- 2 ^ 55 - 1) = Ok bytes ∧
    @SDequeue debug_build bytes 0 = Fault UndefinedBehaviour ∧
    @SDequeue wrapping_build bytes 0 = Ok (- 2 ^ 55 - 1, length bytes).
Proof. exists [255; 255; 255; 255; 255; 255; 255; 191; 127]. split; [|split]; vm_compute; reflexivity. Qed.

End RelocationSpec.
