(* ===== verification/ElfFile.v ===== *)
(** Packing relocations in a shared library (tools/relocation_packer/src/elf_file.cc): the
    file is cut where relocations are taken out of it, and put back.

    libelf, which is not part of the repository, holds a file as a memory image: a header, the
    table of program headers, and the sections in order, each with its header and its data;
    the reserved section at index 0, which elf_nextscn does not give, is left out.
    Pointers into the tables are indices.  The name of a section is the string that its
    header's index leads to.  The structures and constants are those of the system's elf.h;
    each structure that is read from section data consists of words of the target's width,
    stored with the low byte first. *)

From stdpp Require Import strings.
From S2P Require Import Prelude RelocationPacker.
Local Open Scope Z_scope.

Module ElfFile.
Import RelocationPacker.

(** ** elf.h *)

Definition PT_LOAD : Z := 1.
Definition PT_DYNAMIC : Z := 2.
Definition PT_GNU_STACK : Z := 0x6474e551.
Definition PF_W : Z := 2.
Definition PF_R : Z := 4.
Definition SHT_RELA : Z := 4.
Definition SHT_REL : Z := 9.
Definition DT_NULL : Z := 0.
Definition DT_RELASZ : Z := 8.
Definition DT_RELAENT : Z := 9.
Definition DT_RELSZ : Z := 18.
Definition DT_RELENT : Z := 19.
Definition DT_LOOS : Z := 0x6000000d.
Definition DT_RELACOUNT : Z := 0x6ffffff9.
Definition DT_RELCOUNT : Z := 0x6ffffffa.
Definition ET_DYN : Z := 3.
Definition ELFDATA2LSB : Z := 1.

(** [Ehdr] with the two bytes of [e_ident] that are read; [e_phnum] is the length of the table. *)
Record Ehdr := mk_ehdr { e_machine : Z; e_type : Z; e_phoff : Z; e_shoff : Z; ei_class : Z; ei_data : Z }.
Record Phdr := mk_phdr {
  p_type : Z; p_offset : Z; p_vaddr : Z; p_paddr : Z; p_filesz : Z; p_memsz : Z; p_flags : Z; p_align : Z
}.
Record Shdr := mk_shdr { sh_name : string; sh_type : Z; sh_addr : Z; sh_offset : Z; sh_size : Z; sh_addralign : Z }.
Record Elf_Data := mk_data { d_buf : option (list Z); d_off : Z; d_size : Z; d_align : Z }.
Record Elf_Scn := mk_scn { shdr : Shdr; data : list Elf_Data }.
Record Dyn := mk_dyn { d_tag : Z; d_un : Z }.
Record Elf := mk_elf { ehdr : Ehdr; phdrs : list Phdr; sections : list Elf_Scn }.

Definition set_ehdr v e := mk_elf v (phdrs e) (sections e).
Definition set_phdrs v e := mk_elf (ehdr e) v (sections e).
Definition set_sections v e := mk_elf (ehdr e) (phdrs e) v.
Definition with_offset o h := mk_shdr (sh_name h) (sh_type h) (sh_addr h) o (sh_size h) (sh_addralign h).
Definition with_size n h := mk_shdr (sh_name h) (sh_type h) (sh_addr h) (sh_offset h) n (sh_addralign h).
Definition with_p_offset o p :=
  mk_phdr (p_type p) o (p_vaddr p) (p_paddr p) (p_filesz p) (p_memsz p) (p_flags p) (p_align p).

(** The constants of the source. *)
Definition kStubIdentifier : Z := 0x4c4c554e.
Definition DT_ANDROID_REL_OFFSET : Z := DT_LOOS.
Definition DT_ANDROID_REL_SIZE : Z := DT_LOOS + 1.
Definition kPreserveAlignment : Z := 4096.
Definition kLdGnuStackSegmentAlignment : Z := 16.
Definition kGoldGnuStackSegmentAlignment : Z := 0.

(** ** Words in memory *)

Fixpoint bytes_of_word (n : nat) (w : Z) : list Z :=
  match n with O => [] | S n => w mod 256 :: bytes_of_word n (w / 256) end.
Definition word_of_bytes : list Z → Z := foldr (λ b acc, b + 256 * acc) 0.
(** [k] arrays of [n] elements that lie one after the other. *)
Definition group {A} (n k : nat) (l : list A) : list (list A) := (λ i, take n (drop (i * n) l)) <$> seq 0 k.

(** The class of a file and the type code of relocations without effect. *)
Class ElfTarget `{TG : Target} := { kMachine : Z; kFileClass : Z; kNoRelocationCode : Z; ELF_R_SYM : Z → Z }.

(** A structure of words. *)
Class Words (R : Type) := { words : nat; to_words : R → list Z; of_words : list Z → R }.
Arguments words R {_}.
(** What [PackTypedRelocations] and [UnpackTypedRelocations] ask of their type. *)
Class Relocation (R : Type) `{TG : Target} `{BD : Build} := {
  r_words :: Words R;
  r_eq_dec :: EqDecision R;
  info_of : R → Z;
  of_info : Z → R;
  PackRelativeRelocations : list R → list Z → outcome (list Z);
  UnpackRelativeRelocations : list Z → list R → outcome (list R);
}.

Section Words.
Context `{ET : ElfTarget}.

Definition word_bytes : nat := Z.to_nat (addr_bits / 8).
(** [sizeof] *)
Definition sizeof (R : Type) `{Words R} : Z := Z.of_nat (words R * word_bytes).
Definition encode_one {R} `{Words R} (r : R) : list Z := concat (bytes_of_word word_bytes <$> to_words r).
Definition encode {R} `{Words R} (rs : list R) : list Z := concat (encode_one <$> rs).
Definition decode_one {R} `{Words R} (bs : list Z) : R := of_words (word_of_bytes <$> group word_bytes (words R) bs).
Definition decode {R} `{Words R} (k : nat) (bs : list Z) : list R := decode_one <$> group (words R * word_bytes) k bs.

#[export] Instance dyn_words : Words Dyn := {|
  words := 2;
  to_words d := [d_tag d; d_un d];
  of_words l := match l with [t; u] => mk_dyn t u | _ => mk_dyn 0 0 end;
|}.
#[export] Instance rel_words : Words Rel := {|
  words := 2;
  to_words r := [r_offset r; r_info r];
  of_words l := match l with [o; i] => mk_rel o i | _ => mk_rel 0 0 end;
|}.
#[export] Instance rela_words : Words Rela := {|
  words := 3;
  to_words r := [a_offset r; a_info r; uwrap addr_bits (r_addend r)];
  of_words l := match l with [o; i; a] => mk_rela o i (to_signed addr_bits a) | _ => mk_rela 0 0 0 end;
|}.
#[export] Instance rel_relocation `{BD : Build} : Relocation Rel := {|
  info_of := r_info;
  of_info i := mk_rel 0 i;
  PackRelativeRelocations := PackRel;
  UnpackRelativeRelocations := UnpackRel;
|}.
#[export] Instance rela_relocation `{BD : Build} : Relocation Rela := {|
  info_of := a_info;
  of_info i := mk_rela 0 i 0;
  PackRelativeRelocations := PackRela;
  UnpackRelativeRelocations := UnpackRela;
|}.

End Words.

(** ** Section data *)

Section Elf.
Context `{ET : ElfTarget} `{BD : Build}.
Implicit Types (e : Elf) (h : Shdr) (p : Phdr).
Abbreviation elf A := (prog Elf A).

Definition LOG_FATAL {S A} : prog S A := failS Aborted.
Definition checkS {S} (b : bool) : prog S unit := liftO (check b).
(** A section that the caller holds, and an entry of the table of program headers. *)
Definition getscn (section : nat) : elf Elf_Scn := λ e,
  match sections e !! section with Some s => Ok (s, e) | None => Fault UndefinedBehaviour end.
Definition getphdr (i : nat) : elf Phdr := λ e,
  match phdrs e !! i with Some p => Ok (p, e) | None => Fault UndefinedBehaviour end.
Definition putphdr (i : nat) p : elf unit := modS (λ e, set_phdrs (<[i := p]> (phdrs e)) e).
Definition update_section (section : nat) (f : Elf_Scn → Elf_Scn) : elf unit :=
  modS (λ e, set_sections (alter f section (sections e)) e).

Definition GetSectionData (section : nat) : elf Elf_Data :=
  s ← getscn section;
  match data s with [d] => mret d | _ => failS CheckFailed end.
(** The data that a pointer to its buffer is read through. *)
Definition read_data (d : Elf_Data) : outcome (list Z) :=
  match d_buf d with
  | Some buf => if Z.of_nat (length buf) <? d_size d then Fault UndefinedBehaviour else Ok (take (Z.to_nat (d_size d)) buf)
  | None => if d_size d =? 0 then Ok [] else Fault UndefinedBehaviour
  end.
(** Section data as a vector of structures. *)
Definition read_vector (R : Type) `{Words R} (d : Elf_Data) : outcome (list R) :=
  bytes ← read_data d; Ok (decode (Z.to_nat (d_size d / sizeof R)) bytes).
Definition set_data (d : Elf_Data) (s : Elf_Scn) : Elf_Scn := mk_scn (shdr s) [d].
Definition RewriteSectionData (section : nat) (section_data : list Z) : elf unit :=
  d ← GetSectionData section;
  _ ← checkS (Z.of_nat (length section_data) =? d_size d);
  update_section section (set_data (mk_data (Some section_data) (d_off d) (d_size d) (d_align d))).

(** ** Holes *)

Definition beyond (hole_start hole_size o : Z) : Z := if hole_start <? o then uwrap addr_bits (o + hole_size) else o.
Definition AdjustElfHeaderForHole (hole_start hole_size : Z) : elf unit := modS (λ e,
  let h := ehdr e in
  set_ehdr (mk_ehdr (e_machine h) (e_type h) (beyond hole_start hole_size (e_phoff h)) (beyond hole_start hole_size (e_shoff h))
    (ei_class h) (ei_data h)) e).
Definition AdjustSectionHeadersForHole (hole_start hole_size : Z) : elf unit := modS (λ e,
  set_sections ((λ s, mk_scn (with_offset (beyond hole_start hole_size (sh_offset (shdr s))) (shdr s)) (data s)) <$> sections e) e).
Definition AdjustProgramHeaderOffsets (ignored_1 ignored_2 : nat) (hole_start hole_size : Z) : elf unit := modS (λ e,
  set_phdrs (imap (λ i p, if bool_decide (i = ignored_1) || bool_decide (i = ignored_2) then p
                          else with_p_offset (beyond hole_start hole_size (p_offset p)) p) (phdrs e)) e).

(** Loops that keep the last element for which a condition holds. *)
Fixpoint find_last_from {A} (f : A → bool) (i : nat) (found : option nat) (l : list A) : option nat :=
  match l with [] => found | x :: l => find_last_from f (S i) (if f x then Some i else found) l end.
Definition find_last {A} (f : A → bool) (l : list A) : option nat := find_last_from f 0 None l.
Definition found_or_fatal (o : option nat) : elf nat := match o with Some i => mret i | None => LOG_FATAL end.
Definition found_or_check (o : option nat) : elf nat := match o with Some i => mret i | None => failS CheckFailed end.

Definition is_first_load p : bool := (p_type p =? PT_LOAD) && (p_offset p =? 0) && (p_vaddr p =? 0) && (p_paddr p =? 0).
Definition FindFirstLoadSegment : elf nat := e ← getS; found_or_fatal (find_last is_first_load (phdrs e)).

Definition DeduceGnuStackSegmentAlignment : elf Z :=
  readS (λ e, if existsb (λ s, bool_decide (sh_name (shdr s) = ".note.gnu.gold-version"%string)) (sections e)
              then kGoldGnuStackSegmentAlignment else kLdGnuStackSegmentAlignment).
Definition is_unused_stack (stack_alignment : Z) p : bool :=
  (p_type p =? PT_GNU_STACK) && (p_offset p =? 0) && (p_vaddr p =? 0) && (p_paddr p =? 0) &&
  (p_filesz p =? 0) && (p_memsz p =? 0) && (p_flags p =? Z.lor PF_R PF_W) && (p_align p =? stack_alignment).
Definition FindUnusedGnuStackSegment : elf nat :=
  stack_alignment ← DeduceGnuStackSegmentAlignment;
  e ← getS; found_or_fatal (find_last (is_unused_stack stack_alignment) (phdrs e)).
Definition FindOriginalFirstLoadSegment : elf nat :=
  first ← FindFirstLoadSegment;
  first_loadable_segment ← getphdr first;
  e ← getS;
  found_or_fatal (find_last (λ p, (p_type p =? PT_LOAD) && (p_offset p =? p_filesz first_loadable_segment)) (phdrs e)).

(** The offset of a section before section headers were adjusted for the hole. *)
Definition original_offset (hole_start hole_size : Z) (s : Elf_Scn) : Z :=
  let o := sh_offset (shdr s) in if hole_start <=? o then uwrap addr_bits (o - hole_size) else o.
(** [elf_nextscn]: null after the last section. *)
Definition next_or_fatal (section : nat) : elf nat :=
  e ← getS; if bool_decide (S section < length (sections e))%nat then mret (S section) else LOG_FATAL.
Definition FindSectionContainingHole (hole_start hole_size : Z) : elf nat :=
  e ← getS;
  last_unholed_section ← found_or_fatal (find_last (λ s, original_offset hole_start hole_size s <=? hole_start) (sections e));
  next_or_fatal last_unholed_section.
Definition FindLastSectionInSegment p (hole_start hole_size : Z) : elf nat :=
  let segment_end := uwrap addr_bits (p_offset p + p_filesz p) in
  e ← getS; found_or_fatal (find_last (λ s, original_offset hole_start hole_size s <? segment_end) (sections e)).

(** ** The order of segments *)

Definition is_orderable p : bool := (p_type p =? PT_LOAD) || (p_type p =? PT_GNU_STACK).
Definition out_of_order (first second : Phdr) : bool := (p_type first =? PT_GNU_STACK) || (p_offset second <? p_offset first).
(** The inner loop moves the entry at position [j] of [orderable] forward, by swapping what
    two entries of the table hold. *)
Fixpoint sort_inner (orderable : list nat) (j : nat) (ps : list Phdr) : list Phdr :=
  match j with
  | O => ps
  | S j' =>
      match orderable !! j', orderable !! j with
      | Some a, Some b =>
          match ps !! a, ps !! b with
          | Some first, Some second =>
              if out_of_order first second then sort_inner orderable j' (<[a := second]> (<[b := first]> ps)) else ps
          | _, _ => ps
          end
      | _, _ => ps
      end
  end.
Definition orderable_positions (ps : list Phdr) : list nat :=
  List.filter (λ i, match ps !! i with Some p => is_orderable p | None => false end) (seq 0 (length ps)).
Definition sort_headers (ps : list Phdr) : list Phdr :=
  let orderable := orderable_positions ps in
  foldl (λ ps i, sort_inner orderable i ps) ps (seq 1 (length orderable - 1)).
Definition SortOrderSensitiveProgramHeaders : elf unit := modS (λ e, set_phdrs (sort_headers (phdrs e)) e).

(** ** Splitting and coalescing *)

Definition SplitProgramHeadersForHole (hole_start hole_size : Z) : elf unit :=
  _ ← checkS (hole_size <? 0);
  spliced ← FindUnusedGnuStackSegment;
  split ← FindFirstLoadSegment;
  holed_section ← FindSectionContainingHole hole_start hole_size;
  split_header ← getphdr split;
  last_section ← FindLastSectionInSegment split_header hole_start hole_size;
  split_section ← next_or_fatal holed_section;
  end_section ← next_or_fatal last_section;
  split_section_header ← getscn split_section;
  _ ← checkS (p_filesz split_header =? p_memsz split_header);
  let filesz := sh_offset (shdr split_section_header) in
  _ ← putphdr spliced (mk_phdr (p_type split_header) (p_offset split_header) (p_vaddr split_header) (p_paddr split_header)
        filesz filesz (p_flags split_header) (p_align split_header));
  end_section_header ← getscn end_section;
  _ ← checkS (p_vaddr split_header =? p_paddr split_header);
  _ ← checkS (p_filesz split_header =? p_memsz split_header);
  let rest := uwrap addr_bits (sh_offset (shdr end_section_header) - filesz) in
  let addr := sh_addr (shdr split_section_header) in
  _ ← putphdr split (mk_phdr (p_type split_header) filesz addr addr rest rest (p_flags split_header) (p_align split_header));
  _ ← AdjustProgramHeaderOffsets spliced split hole_start hole_size;
  SortOrderSensitiveProgramHeaders.

Definition CoalesceProgramHeadersForHole (hole_start hole_size : Z) : elf unit :=
  _ ← checkS (0 <? hole_size);
  spliced ← FindFirstLoadSegment;
  split ← FindOriginalFirstLoadSegment;
  split_header ← getphdr split;
  last_section ← FindLastSectionInSegment split_header hole_start hole_size;
  last_section_header ← getscn last_section;
  spliced_header ← getphdr spliced;
  _ ← checkS (p_vaddr split_header =? p_paddr split_header);
  _ ← checkS (p_filesz split_header =? p_memsz split_header);
  let size := uwrap addr_bits (sh_offset (shdr last_section_header) + sh_size (shdr last_section_header)) in
  _ ← putphdr split (mk_phdr (p_type split_header) (p_offset spliced_header) (p_vaddr spliced_header) (p_vaddr spliced_header)
        size size (p_flags split_header) (p_align split_header));
  stack_alignment ← DeduceGnuStackSegmentAlignment;
  _ ← putphdr spliced (mk_phdr PT_GNU_STACK 0 0 0 0 0 (Z.lor PF_R PF_W) stack_alignment);
  _ ← AdjustProgramHeaderOffsets spliced split hole_start hole_size;
  SortOrderSensitiveProgramHeaders.
Definition RewriteProgramHeadersForHole (hole_start hole_size : Z) : elf unit :=
  if hole_size <? 0 then SplitProgramHeadersForHole hole_start hole_size
  else if 0 <? hole_size then CoalesceProgramHeadersForHole hole_start hole_size
  else mret tt.

(** ** The dynamic section *)

Definition GetDynamicSection : elf nat :=
  e ← getS;
  dynamic_program_header ← found_or_check (find_last (λ p, p_type p =? PT_DYNAMIC) (phdrs e));
  p ← getphdr dynamic_program_header;
  found_or_check (find_last (λ s, sh_offset (shdr s) =? p_offset p) (sections e)).

(** An entry is told by its tag as a signed 32-bit number, whatever its width; the tags that
    matter are not negative. *)
Definition AdjustDynamic (sizeof_rel hole_size : Z) (dynamic : Dyn) : outcome Dyn :=
  let tag := u32 (d_tag dynamic) in
  let v := d_un dynamic in
  let v := if (tag =? DT_RELSZ) || (tag =? DT_RELASZ) then uwrap addr_bits (v + hole_size) else v in
  let v := if (tag =? DT_RELCOUNT) || (tag =? DT_RELACOUNT) then uwrap addr_bits (v + Z.quot hole_size sizeof_rel) else v in
  _ ← check (negb ((tag =? DT_RELENT) || (tag =? DT_RELAENT)) || (v =? sizeof_rel));
  Ok (mk_dyn (d_tag dynamic) v).
Fixpoint adjust_all (sizeof_rel hole_size : Z) (dynamics : list Dyn) : outcome (list Dyn) :=
  match dynamics with
  | [] => Ok []
  | dynamic :: dynamics =>
      dynamic ← AdjustDynamic sizeof_rel hole_size dynamic;
      dynamics ← adjust_all sizeof_rel hole_size dynamics;
      Ok (dynamic :: dynamics)
  end.
Definition AdjustDynamicSectionForHole (sizeof_rel : Z) (dynamic_section : nat) (hole_size : Z) : elf unit :=
  d ← GetSectionData dynamic_section;
  dynamics ← liftO (read_vector Dyn d);
  dynamics ← liftO (adjust_all sizeof_rel hole_size dynamics);
  RewriteSectionData dynamic_section (encode dynamics).

Definition is_relocations_name (name : string) : bool :=
  bool_decide (name = ".rel.dyn"%string) || bool_decide (name = ".rela.dyn"%string).
Definition ResizeSection (sizeof_rel : Z) (section : nat) (new_size : Z) : elf unit :=
  s ← getscn section;
  if sh_size (shdr s) =? new_size then mret tt
  else
    let is_relocations_resize := is_relocations_name (sh_name (shdr s)) in
    d ← GetSectionData section;
    _ ← checkS ((d_off d =? 0) && (d_size d =? sh_size (shdr s)));
    _ ← checkS (negb (d_size d =? 0) && bool_decide (is_Some (d_buf d)));
    let hole_start := sh_offset (shdr s) in
    let hole_size := new_size - d_size d in
    _ ← update_section section (λ s, mk_scn (with_size (uwrap addr_bits (sh_size (shdr s) + hole_size)) (shdr s))
          [mk_data (d_buf d) (d_off d) (u64 (d_size d + hole_size)) (d_align d)]);
    _ ← AdjustElfHeaderForHole hole_start hole_size;
    _ ← AdjustSectionHeadersForHole hole_start hole_size;
    if is_relocations_resize then
      _ ← RewriteProgramHeadersForHole hole_start hole_size;
      dynamic_section ← GetDynamicSection;
      AdjustDynamicSectionForHole sizeof_rel dynamic_section hole_size
    else mret tt.

(** Searching leaves out the last entry; an empty vector is read past its end, which throws. *)
Fixpoint find_tag (tag : Z) (i : nat) (dynamics : list Dyn) : option nat :=
  match dynamics with
  | [] => None
  | d :: rest => match rest with [] => None | _ => if d_tag d =? tag then Some i else find_tag tag (S i) rest end
  end.
Definition FindDynamicEntry (tag : Z) (dynamics : list Dyn) : outcome (option nat) :=
  match dynamics with [] => Fault Aborted | _ => Ok (find_tag tag 0 dynamics) end.
Definition AddDynamicEntry (dyn : Dyn) (dynamics : list Dyn) : outcome (list Dyn) :=
  slot ← FindDynamicEntry DT_NULL dynamics;
  match slot with
  | None => Fault Aborted
  | Some slot => Ok (<[slot := dyn]> dynamics)
  end.
(** What follows the slot moves up, over it, and the last entry stays. *)
Definition RemoveDynamicEntry (tag : Z) (dynamics : list Dyn) : outcome (list Dyn) :=
  slot ← FindDynamicEntry tag dynamics;
  match slot with
  | None => Fault CheckFailed
  | Some slot =>
      match last dynamics with
      | None => Fault Aborted
      | Some sentinel =>
          let dynamics := take slot dynamics ++ drop (S slot) dynamics ++ [sentinel] in
          _ ← check (d_tag sentinel =? DT_NULL);
          Ok dynamics
      end
  end.

End Elf.

(** ** The file *)

(** What libelf makes of the file behind a descriptor. *)
Inductive file := NotElf | NoHeader | Image (e : Elf).
Inductive RelocationsType := NONE | REL | RELA.
Record ElfFile := mk_file {
  fd_ : file;
  is_padding_relocations_ : bool;
  elf_ : option Elf;
  relocations_section_ : nat;
  dynamic_section_ : nat;
  android_relocations_section_ : nat;
  relocations_type_ : RelocationsType;
}.
Definition new_file (fd : file) : ElfFile := mk_file fd false None 0 0 0 NONE.
Definition SetPadding (flag : bool) (f : ElfFile) : ElfFile :=
  mk_file (fd_ f) flag (elf_ f) (relocations_section_ f) (dynamic_section_ f) (android_relocations_section_ f) (relocations_type_ f).
Definition set_elf v (f : ElfFile) : ElfFile :=
  mk_file (fd_ f) (is_padding_relocations_ f) v (relocations_section_ f) (dynamic_section_ f) (android_relocations_section_ f) (relocations_type_ f).
Definition set_fd v (f : ElfFile) : ElfFile :=
  mk_file v (is_padding_relocations_ f) (elf_ f) (relocations_section_ f) (dynamic_section_ f) (android_relocations_section_ f) (relocations_type_ f).

Section File.
Context `{ET : ElfTarget} `{BD : Build}.
(** The size that libelf says it has written, not positive when it fails. *)
Context (elf_update : Elf → Z).

Definition with_elf {A} (m : prog Elf A) : prog ElfFile A := λ f,
  match elf_ f with
  | Some e => match m e with Ok (a, e') => Ok (a, set_elf (Some e') f) | Fault x => Fault x end
  | None => Fault UndefinedBehaviour
  end.

Definition is_section (names : list string) (s : Elf_Scn) : bool :=
  existsb (λ name, bool_decide (sh_name (shdr s) = name)) names && (0 <? sh_size (shdr s)).
Definition preserves_alignment (s : Elf_Scn) : bool :=
  (sh_addralign (shdr s) <=? kPreserveAlignment) && forallb (λ d, d_align d <=? kPreserveAlignment) (data s).
(** The loop over program headers: there is one for the dynamic section. *)
Definition dynamic_header (ps : list Phdr) : outcome Phdr :=
  match List.filter (λ p, p_type p =? PT_DYNAMIC) ps with [p] => Ok p | _ => Fault CheckFailed end.
Definition Load : prog ElfFile bool :=
  f ← getS;
  match elf_ f with
  | Some _ => mret true
  | None =>
      match fd_ f with
      | NotElf | NoHeader => mret false
      | Image e =>
          if negb (e_machine (ehdr e) =? kMachine) then mret false
          else if negb (e_type (ehdr e) =? ET_DYN) then mret false
          else
            _ ← checkS (ei_data (ehdr e) =? ELFDATA2LSB);
            _ ← checkS (ei_class (ehdr e) =? kFileClass);
            _ ← checkS (match phdrs e with [] => false | _ => true end);
            dynamic_program_header ← liftO (dynamic_header (phdrs e));
            _ ← checkS (forallb preserves_alignment (sections e));
            match find_last (is_section [".rel.dyn"; ".rela.dyn"]%string) (sections e),
                  find_last (is_section [".android.rel.dyn"; ".android.rela.dyn"]%string) (sections e),
                  find_last (λ s, sh_offset (shdr s) =? p_offset dynamic_program_header) (sections e) with
            | Some relocations, Some android_relocations, Some dynamic =>
                let has_rel := existsb (λ s, sh_type (shdr s) =? SHT_REL) (sections e) in
                let has_rela := existsb (λ s, sh_type (shdr s) =? SHT_RELA) (sections e) in
                if eqb has_rel has_rela then mret false
                else
                  _ ← modS (λ f, mk_file (fd_ f) (is_padding_relocations_ f) (Some e) relocations dynamic android_relocations
                        (if has_rel then REL else RELA));
                  mret true
            | _, _, _ => mret false
            end
      end
  end.

Definition Flush : prog ElfFile unit :=
  f ← getS;
  match elf_ f with
  | None => failS UndefinedBehaviour
  | Some e =>
      _ ← checkS (0 <? elf_update e);
      modS (λ f, set_elf None (set_fd (Image e) f))
  end.

(** ** Packing *)

Section Typed.
Context {R : Type} `{RL : !Relocation R}.

Definition NullRelocation : R := of_info (ELF_R_INFO 0 kNoRelocationCode).
Definition PadRelocations (count : nat) (relocations : list R) : list R := relocations ++ replicate count NullRelocation.
(** The relative relocations and the others. *)
Fixpoint split_relocations (relocations : list R) : outcome (list R * list R) :=
  match relocations with
  | [] => Ok ([], [])
  | r :: relocations =>
      if ELF_R_TYPE (info_of r) =? kRelativeRelocationCode then
        _ ← check (ELF_R_SYM (info_of r) =? 0);
        '(relative, other) ← split_relocations relocations; Ok (r :: relative, other)
      else '(relative, other) ← split_relocations relocations; Ok (relative, r :: other)
  end.
Fixpoint align_loop (fuel : nat) (hole_size : Z) : outcome Z :=
  if u64 hole_size mod kPreserveAlignment =? 0 then Ok hole_size
  else match fuel with O => Fault OutOfFuel | S fuel => align_loop fuel (hole_size - sizeof R) end.
Fixpoint padding_loop (fuel : nat) (padding_bytes : Z) : outcome Z :=
  match fuel with
  | O => Fault OutOfFuel
  | S fuel =>
      let padding_bytes := padding_bytes + sizeof R in
      if padding_bytes mod kPreserveAlignment =? 0 then Ok padding_bytes else padding_loop fuel padding_bytes
  end.
(** The padding that keeps alignment, or nothing if packing brings no benefit. *)
Definition alignment_padding (relative other : nat) : outcome (option nat) :=
  let unaligned_hole_size := Z.of_nat relative * sizeof R in
  hole_size ← align_loop relative unaligned_hole_size;
  if hole_size =? 0 then Ok None
  else
    let padding_bytes := unaligned_hole_size - hole_size in
    padding_bytes ← (if (padding_bytes =? 0) && bool_decide (other = 0)%nat
                     then padding_loop (Z.to_nat kPreserveAlignment) padding_bytes else Ok padding_bytes);
    _ ← check (padding_bytes mod sizeof R =? 0);
    let padding := Z.to_nat (padding_bytes / sizeof R) in
    if bool_decide (relative ≤ padding)%nat then Ok None else Ok (Some padding).

(** The two dynamic tags of a packed file. *)
Definition describe_packed : prog ElfFile unit :=
  f ← getS;
  d ← with_elf (GetSectionData (dynamic_section_ f));
  dynamics ← liftO (read_vector Dyn d);
  s ← with_elf (getscn (android_relocations_section_ f));
  dynamics ← liftO (AddDynamicEntry (mk_dyn DT_ANDROID_REL_OFFSET (sh_offset (shdr s))) dynamics);
  dynamics ← liftO (AddDynamicEntry (mk_dyn DT_ANDROID_REL_SIZE (sh_size (shdr s))) dynamics);
  with_elf (RewriteSectionData (dynamic_section_ f) (encode dynamics)).
Definition replace_section (section : nat) (section_data : list Z) : prog Elf unit :=
  _ ← ResizeSection (sizeof R) section (Z.of_nat (length section_data));
  RewriteSectionData section section_data.

Definition PackTypedRelocations (relocations : list R) : prog ElfFile bool :=
  '(relative_relocations, other_relocations) ← liftO (split_relocations relocations);
  match relative_relocations with
  | [] => mret false
  | _ =>
      f ← getS;
      padding ← (if negb (is_padding_relocations_ f)
                 then liftO (alignment_padding (length relative_relocations) (length other_relocations))
                 else mret (Some (length relocations - length other_relocations)%nat));
      match padding with
      | None => mret false
      | Some padding =>
          let other_relocations := PadRelocations padding other_relocations in
          let initial_bytes := Z.of_nat (length relative_relocations) * sizeof R in
          packed ← liftO (PackRelativeRelocations relative_relocations []);
          match packed with
          | [] => mret false
          | _ =>
              unpacked ← liftO (UnpackRelativeRelocations packed []);
              _ ← checkS (bool_decide (unpacked = relative_relocations));
              if initial_bytes <=? Z.of_nat (length packed) then mret false
              else
                _ ← with_elf (replace_section (relocations_section_ f) (encode other_relocations));
                _ ← with_elf (replace_section (android_relocations_section_ f) packed);
                _ ← describe_packed;
                _ ← Flush;
                mret true
          end
      end
  end.

(** ** Unpacking *)

Definition forget_packed : prog ElfFile unit :=
  f ← getS;
  d ← with_elf (GetSectionData (dynamic_section_ f));
  dynamics ← liftO (read_vector Dyn d);
  dynamics ← liftO (RemoveDynamicEntry DT_ANDROID_REL_OFFSET dynamics);
  dynamics ← liftO (RemoveDynamicEntry DT_ANDROID_REL_SIZE dynamics);
  with_elf (RewriteSectionData (dynamic_section_ f) (encode dynamics)).
Definition is_none (r : R) : bool := ELF_R_TYPE (info_of r) =? kNoRelocationCode.
Definition UnpackTypedRelocations (packed : list Z) : prog ElfFile bool :=
  relative_relocations ← liftO (UnpackRelativeRelocations packed []);
  f ← getS;
  d ← with_elf (GetSectionData (relocations_section_ f));
  relocations ← liftO (read_vector R d);
  let other_relocations := List.filter (λ r, negb (is_none r)) relocations in
  let relocations := relative_relocations ++ other_relocations in
  _ ← with_elf (replace_section (relocations_section_ f) (encode relocations));
  _ ← with_elf (replace_section (android_relocations_section_ f) (bytes_of_word 4 kStubIdentifier));
  _ ← forget_packed;
  _ ← Flush;
  mret true.
End Typed.

Definition PackRelocations : prog ElfFile bool :=
  loaded ← Load;
  if negb (loaded : bool) then mret false
  else
    f ← getS;
    d ← with_elf (GetSectionData (relocations_section_ f));
    match relocations_type_ f with
    | REL => relocations ← liftO (read_vector Rel d); PackTypedRelocations relocations
    | RELA => relocations ← liftO (read_vector Rela d); PackTypedRelocations relocations
    | NONE => _ ← dcheckS false; mret false
    end.
Definition UnpackRelocations : prog ElfFile bool :=
  loaded ← Load;
  if negb (loaded : bool) then mret false
  else
    f ← getS;
    d ← with_elf (GetSectionData (android_relocations_section_ f));
    packed ← liftO (read_data d);
    if bool_decide (take 4 packed = [65; 80; 82; 49]) then
      _ ← checkS (match relocations_type_ f with REL => true | _ => false end);
      UnpackTypedRelocations (R := Rel) packed
    else if bool_decide (take 4 packed = [65; 80; 65; 49]) then
      _ ← checkS (match relocations_type_ f with RELA => true | _ => false end);
      UnpackTypedRelocations (R := Rela) packed
    else mret false.

End File.
End ElfFile.
