(* ===== verification/ElfLayout.v ===== *)
(** What the parts of [ElfFile] do: structures in section data, searches that keep the last
    match, and the order of segments. *)

From S2P Require Import Prelude RelocationPacker RelocationSpec ElfFile.
From Stdlib Require Import Sorted.
Local Open Scope Z_scope.

Module ElfLayout.
Import RelocationPacker RelocationSpec ElfFile.

(** ** Words *)

Lemma length_bytes_of_word n w : length (bytes_of_word n w) = n.
Proof. revert w. induction n as [|n IH]; intros w; cbn; [done|]. by rewrite IH. Qed.
Lemma bytes_of_word_u8 n w : Forall (is_u 8) (bytes_of_word n w).
Proof.
  revert w. induction n as [|n IH]; intros w; cbn; constructor; [|by apply IH].
  unfold is_u. change (2 ^ 8) with 256. apply Z.mod_pos_bound. lia.
Qed.
Lemma word_of_bytes_of_word n w : 0 ≤ w < 256 ^ Z.of_nat n → word_of_bytes (bytes_of_word n w) = w.
Proof.
  revert w. induction n as [|n IH]; intros w Hw.
  { cbn in *. lia. }
  rewrite Nat2Z.inj_succ, Z.pow_succ_r in Hw by lia. cbn [bytes_of_word word_of_bytes foldr]. fold (word_of_bytes (bytes_of_word n (w / 256))).
  pose proof (Z.div_mod w 256). pose proof (Z.mod_pos_bound w 256).
  rewrite IH; [lia|]. split; [apply Z.div_pos; lia|apply Z.div_lt_upper_bound; lia].
Qed.
Lemma length_concat_same {A} n (ls : list (list A)) : Forall (λ l, length l = n) ls → length (concat ls) = (length ls * n)%nat.
Proof. induction 1 as [|l ls Hl _ IH]; [done|]. cbn. rewrite length_app, IH, Hl. lia. Qed.
Lemma group_concat {A} n (ls : list (list A)) : Forall (λ l, length l = n) ls → group n (length ls) (concat ls) = ls.
Proof.
  unfold group. induction 1 as [|l ls Hl _ IH]; [done|]. cbn [length seq concat]. rewrite fmap_cons. f_equal.
  - cbn [Nat.mul]. by rewrite drop_0, take_app_length'.
  - rewrite <- IH at 2. rewrite <- seq_shift, <- list_fmap_compose. apply list_fmap_ext. intros _ i _. cbn.
    by rewrite <- drop_drop, drop_app_length'.
Qed.

Class WordsLaws (R : Type) `{Words R} `{TG : Target} := {
  fits : R → Prop;
  length_to_words r : length (to_words r) = words R;
  to_words_u r : fits r → Forall (is_u addr_bits) (to_words r);
  of_to_words r : fits r → of_words (to_words r) = r;
}.

Section Codec.
Context `{TL : TargetLaws} `{ET : !ElfTarget}.

Lemma word_bytes_bits : 256 ^ Z.of_nat word_bytes = 2 ^ addr_bits ∧ (0 < word_bytes ≤ 8)%nat.
Proof. unfold word_bytes. destruct addr_bits_ok as [E|E]; rewrite E; (split; [done|vm_compute; lia]). Qed.
Context {R : Type} `{WR : Words R} `{WL : !WordsLaws R}.
Lemma length_encode_one (r : R) : length (encode_one r) = (words R * word_bytes)%nat.
Proof.
  unfold encode_one. rewrite (length_concat_same word_bytes).
  - by rewrite length_fmap, length_to_words.
  - apply Forall_fmap, Forall_true. intros w. apply length_bytes_of_word.
Qed.
Lemma length_encode (rs : list R) : Z.of_nat (length (encode rs)) = Z.of_nat (length rs) * sizeof R.
Proof.
  unfold encode, sizeof. rewrite (length_concat_same (words R * word_bytes)).
  - rewrite length_fmap. lia.
  - apply Forall_fmap, Forall_true. apply length_encode_one.
Qed.
Lemma decode_encode_one (r : R) : fits r → decode_one (encode_one r) = r.
Proof.
  intros Hr. unfold decode_one, encode_one. rewrite <- (length_to_words r).
  rewrite <- (length_fmap (bytes_of_word word_bytes) (to_words r)) at 1. rewrite group_concat.
  - rewrite <- list_fmap_compose. rewrite <- (of_to_words r Hr) at 2. f_equal.
    rewrite <- (list_fmap_id (to_words r)) at 2. pose proof (to_words_u r Hr) as Hu. pose proof (proj1 word_bytes_bits) as Hb.
    induction Hu as [|w ws Hw _ IH]; [done|]. cbn. f_equal; [|done]. apply word_of_bytes_of_word. unfold is_u in Hw. by rewrite Hb.
  - apply Forall_fmap, Forall_true. intros w. apply length_bytes_of_word.
Qed.
Lemma decode_encode (rs : list R) : Forall fits rs → decode (length rs) (encode rs) = rs.
Proof.
  intros Hr. unfold decode, encode. rewrite <- (length_fmap encode_one rs). rewrite group_concat.
  - rewrite <- list_fmap_compose. induction Hr as [|r rs Hf _ IH]; [done|]. cbn. f_equal; [|done]. by apply decode_encode_one.
  - apply Forall_fmap, Forall_true. apply length_encode_one.
Qed.
Lemma encode_u8 (rs : list R) : Forall (is_u 8) (encode rs).
Proof.
  unfold encode. apply Forall_concat, Forall_fmap, Forall_true. intros r. unfold encode_one. cbn.
  apply Forall_concat, Forall_fmap, Forall_true. intros w. cbn. apply bytes_of_word_u8.
Qed.
Lemma encode_app (rs rs' : list R) : encode (rs ++ rs') = encode rs ++ encode rs'.
Proof. unfold encode. rewrite fmap_app. induction (encode_one <$> rs) as [|l ls IH]; cbn; [done|]. rewrite <- app_assoc. by f_equal. Qed.
(** Data that holds the encoding of a vector is read as that vector. *)
Lemma read_vector_encode (rs : list R) off align :
  (0 < words R)%nat → Forall fits rs →
  read_vector R (mk_data (Some (encode rs)) off (Z.of_nat (length (encode rs))) align) = Ok rs.
Proof.
  intros Hw Hr. unfold read_vector, read_data. cbn [d_buf d_size]. rewrite Z.ltb_irrefl, Nat2Z.id. cbn [mbind outcome_bind].
  rewrite firstn_all, length_encode. pose proof (proj2 word_bytes_bits). rewrite Z.div_mul by (unfold sizeof; nia).
  by rewrite Nat2Z.id, decode_encode.
Qed.
End Codec.

(** ** Searches *)

Lemma find_last_from_spec {A} (f : A → bool) l : ∀ k found i x,
  l !! i = Some x → f x = true → (∀ j y, (i < j)%nat → l !! j = Some y → f y = false) →
  find_last_from f k found l = Some (k + i)%nat.
Proof.
  assert (∀ l k found, (∀ j y, l !! j = Some y → f y = false) → find_last_from f k found l = found) as Hnone.
  { clear l. induction l as [|y l IH]; intros k found Hf; [done|]. cbn. rewrite (Hf O y eq_refl). apply IH. intros j z Hj. by apply (Hf (S j)). }
  induction l as [|y l IH]; intros k found i x Hi Hx Ha; [done|]. cbn. destruct i as [|i]; cbn in Hi.
  - injection Hi as ->. rewrite Hx, Hnone; [f_equal; lia|]. intros j z Hj. by apply (Ha (S j)); [lia|].
  - rewrite (IH (S k) _ i x Hi Hx); [f_equal; lia|]. intros j z Hj Hz. apply (Ha (S j)); [lia|done].
Qed.
Lemma find_last_spec {A} (f : A → bool) l i x :
  l !! i = Some x → f x = true → (∀ j y, (i < j)%nat → l !! j = Some y → f y = false) → find_last f l = Some i.
Proof. apply (find_last_from_spec f l 0 None). Qed.
(** ** Sorting *)

Section Sort.
Implicit Types (P : list nat) (ps vs : list Phdr).

(** What the table holds at some positions. *)
Definition holds P ps vs : Prop := Forall2 (λ i v, ps !! i = Some v) P vs.
(** The inner loop on the values alone. *)
Fixpoint value_inner (j : nat) vs : list Phdr :=
  match j with
  | O => vs
  | S j' =>
      match vs !! j', vs !! j with
      | Some first, Some second => if out_of_order first second then value_inner j' (<[j' := second]> (<[j := first]> vs)) else vs
      | _, _ => vs
      end
  end.
Lemma holds_insert P ps vs j i v : NoDup P → P !! j = Some i → holds P ps vs → holds P (<[i := v]> ps) (<[j := v]> vs).
Proof.
  intros HN Hj Hh. apply Forall2_same_length_lookup in Hh as [Hl Hh]. apply Forall2_same_length_lookup. rewrite length_insert. split; [done|].
  intros j' i' v' Hi' Hv'. destruct (decide (j' = j)) as [->|Hne].
  - rewrite Hj in Hi'. injection Hi' as <-. assert (∃ y, vs !! j = Some y) as [y Hy].
    { apply lookup_lt_is_Some. rewrite <- Hl. by apply lookup_lt_Some in Hj. }
    rewrite list_lookup_insert_eq in Hv' by (by apply lookup_lt_Some in Hy). injection Hv' as <-.
    apply list_lookup_insert_eq. specialize (Hh j i y Hj Hy). by apply lookup_lt_Some in Hh.
  - rewrite list_lookup_insert_ne in Hv' by done. rewrite list_lookup_insert_ne; [by apply (Hh j')|].
    intros ->. apply Hne. by apply (NoDup_lookup P j' j i').
Qed.
Lemma sort_inner_holds P j ps vs :
  NoDup P → holds P ps vs → (j < length P)%nat →
  holds P (sort_inner P j ps) (value_inner j vs) ∧ length (sort_inner P j ps) = length ps ∧
  ∀ i, i ∉ P → sort_inner P j ps !! i = ps !! i.
Proof.
  intros HN. revert ps vs. induction j as [|j IH]; intros ps vs Hh Hj; [done|]. cbn [sort_inner value_inner].
  pose proof (Forall2_length _ _ _ Hh) as Hl.
  destruct (lookup_lt_is_Some_2 P j) as [a Ha]; [lia|]. destruct (lookup_lt_is_Some_2 P (S j)) as [b Hb]; [lia|].
  destruct (lookup_lt_is_Some_2 vs j) as [first Hf]; [lia|]. destruct (lookup_lt_is_Some_2 vs (S j)) as [second Hs]; [lia|].
  rewrite Ha, Hb, Hf, Hs. rewrite (Forall2_lookup_lr _ _ _ _ _ _ Hh Ha Hf), (Forall2_lookup_lr _ _ _ _ _ _ Hh Hb Hs).
  destruct (out_of_order first second); [|done].
  destruct (IH (<[a := second]> (<[b := first]> ps)) (<[j := second]> (<[S j := first]> vs))) as (H1 & H2 & H3); [|lia|].
  - exact (holds_insert P _ _ j a second HN Ha (holds_insert P _ _ (S j) b first HN Hb Hh)).
  - split; [done|]. split; [by rewrite H2, !length_insert|]. intros i Hi. rewrite H3 by done.
    rewrite !list_lookup_insert_ne; [done| |]; intros ->; apply Hi; by eapply list_elem_of_lookup_2.
Qed.
Definition value_sort vs : list Phdr := foldl (λ vs i, value_inner i vs) vs (seq 1 (length vs - 1)).
Lemma sort_loop_holds P js : ∀ ps vs,
  NoDup P → holds P ps vs → Forall (λ j, (j < length P)%nat) js →
  let ps' := foldl (λ ps i, sort_inner P i ps) ps js in
  holds P ps' (foldl (λ vs i, value_inner i vs) vs js) ∧ length ps' = length ps ∧ ∀ i, i ∉ P → ps' !! i = ps !! i.
Proof.
  induction js as [|j js IH]; intros ps vs HN Hh Hj; cbn [foldl]; [done|].
  inversion_clear Hj as [|? ? Hj1 Hj2]. destruct (sort_inner_holds P j ps vs HN Hh Hj1) as (H1 & H2 & H3).
  destruct (IH _ _ HN H1 Hj2) as (H4 & H5 & H6). split; [done|]. split; [by rewrite H5|]. intros i Hi. by rewrite H6, H3.
Qed.
Lemma sort_headers_holds ps vs :
  let P := orderable_positions ps in
  holds P ps vs → holds P (sort_headers ps) (value_sort vs) ∧ length (sort_headers ps) = length ps ∧
  ∀ i, i ∉ P → sort_headers ps !! i = ps !! i.
Proof.
  intros P Hh. unfold sort_headers, value_sort. fold P. rewrite (Forall2_length _ _ _ Hh). apply sort_loop_holds; [|done|].
  - apply NoDup_ListNoDup, List.NoDup_filter, NoDup_ListNoDup, NoDup_seq.
  - apply Forall_forall. intros j Hj%elem_of_seq. rewrite <- (Forall2_length _ _ _ Hh) in Hj. lia.
Qed.

(** Segments that are in order, the last of which belongs in front. *)
Definition in_order vs : Prop := ∀ j a b, vs !! j = Some a → vs !! S j = Some b → out_of_order a b = false.
Lemma value_inner_stays j vs : in_order (take (S j) vs) → value_inner j vs = vs.
Proof.
  intros Ho. destruct j as [|j]; [done|]. cbn. destruct (vs !! j) as [a|] eqn:Ea; [|done]. destruct (vs !! S j) as [b|] eqn:Eb; [|done].
  rewrite (Ho j a b); [done| |]; rewrite lookup_take_lt by lia; done.
Qed.
Lemma value_inner_front xs s ys :
  Forall (λ x, out_of_order x s = true) xs → value_inner (length xs) (xs ++ s :: ys) = s :: xs ++ ys.
Proof.
  revert ys. induction xs as [|x xs IH] using rev_ind; intros ys Hx; [done|].
  apply Forall_app in Hx as [Hx Hl]. inversion_clear Hl as [|? ? Hs _].
  rewrite length_app, Nat.add_comm. cbn [length Nat.add value_inner]. rewrite <- !app_assoc. cbn [app].
  assert ((xs ++ x :: s :: ys) !! length xs = Some x) as -> by (by rewrite list_lookup_middle).
  assert ((xs ++ x :: s :: ys) !! S (length xs) = Some s) as ->.
  { rewrite lookup_app_r by lia. by replace (S (length xs) - length xs)%nat with 1%nat by lia. }
  rewrite Hs. rewrite !insert_app_r_alt by lia. replace (S (length xs) - length xs)%nat with 1%nat by lia. rewrite Nat.sub_diag. cbn.
  by rewrite IH.
Qed.
Lemma value_sort_front xs s :
  in_order xs → Forall (λ x, out_of_order x s = true) xs → value_sort (xs ++ [s]) = s :: xs.
Proof.
  intros Ho Hx. unfold value_sort. rewrite length_app. cbn [length]. replace (length xs + 1 - 1)%nat with (length xs) by lia.
  assert (∀ n, (n < length xs)%nat → foldl (λ vs i, value_inner i vs) (xs ++ [s]) (seq 1 n) = xs ++ [s]) as E.
  { induction n as [|n IH]; intros Hn; [done|]. rewrite seq_S, foldl_app, IH by lia. cbn [foldl].
    apply value_inner_stays. intros j a b Ha Hb. apply (Ho j).
    - apply lookup_take_Some in Ha as [Ha Hj]. by rewrite lookup_app_l in Ha by lia.
    - apply lookup_take_Some in Hb as [Hb Hj]. by rewrite lookup_app_l in Hb by lia. }
  destruct (length xs) as [|n] eqn:El; [by apply nil_length_inv in El as ->|].
  rewrite seq_S, foldl_app, E by lia. cbn [foldl Nat.add].
  pose proof (value_inner_front xs s [] Hx) as Ef. rewrite El, app_nil_r in Ef. exact Ef.
Qed.
(** The unused segment moves behind segments that are in order. *)
Lemma value_sort_back s xs :
  p_type s = PT_GNU_STACK → in_order xs → value_sort (s :: xs) = xs ++ [s].
Proof.
  intros Hs Ho. unfold value_sort. cbn [length]. rewrite Nat.sub_succ, Nat.sub_0_r.
  assert (∀ n, (n ≤ length xs)%nat → foldl (λ vs i, value_inner i vs) (s :: xs) (seq 1 n) = take n xs ++ s :: drop n xs) as E.
  { induction n as [|n IH]; intros Hn; [done|]. rewrite seq_S, foldl_app, IH by lia. cbn [foldl Nat.add value_inner].
    destruct (lookup_lt_is_Some_2 xs n) as [x Hx]; [lia|].
    assert (length (take n xs) = n) as El by (rewrite length_take; lia).
    assert ((take n xs ++ s :: drop n xs) !! n = Some s) as ->.
    { rewrite lookup_app_r by lia. by rewrite El, Nat.sub_diag. }
    assert ((take n xs ++ s :: drop n xs) !! S n = Some x) as ->.
    { rewrite lookup_app_r by lia. rewrite El. replace (S n - n)%nat with 1%nat by lia. change (drop n xs !! 0%nat = Some x). by rewrite lookup_drop, Nat.add_0_r. }
    assert (out_of_order s x = true) as -> by (unfold out_of_order; by rewrite Hs).
    rewrite !insert_app_r_alt by lia. rewrite El, Nat.sub_diag. replace (S n - n)%nat with 1%nat by lia. cbn [insert list_insert].
    assert (drop n xs = x :: drop (S n) xs) as -> by (by apply drop_S).
    cbn [insert list_insert]. rewrite (take_S_r _ _ _ Hx), <- app_assoc. cbn [app]. apply value_inner_stays.
    rewrite take_app_ge by lia. rewrite El. replace (S n - n)%nat with 1%nat by lia. cbn.
    rewrite <- (take_S_r _ _ _ Hx). intros j a b Ha Hb. apply (Ho j); by eapply lookup_take_Some. }
  rewrite E by done. by rewrite firstn_all, drop_all.
Qed.
End Sort.

End ElfLayout.
