(* ===== verification/ElfDynamic.v ===== *)
(** What [ElfFile] does to entries of the dynamic section: adjusting them for a hole and for
    the same hole opened again, and adding and removing the two that describe a packed file. *)

From S2P Require Import Prelude RelocationPacker RelocationSpec ElfFile ElfLayout.
Local Open Scope Z_scope.

Module ElfDynamic.
Import RelocationPacker RelocationSpec ElfFile ElfLayout.

Section Structures.
Context `{TL : TargetLaws}.

#[export] Instance dyn_laws : WordsLaws Dyn.
Proof.
  apply (Build_WordsLaws _ _ _ (λ x, is_u addr_bits (d_tag x) ∧ is_u addr_bits (d_un x))).
  - done.
  - intros x []. by do 2 (constructor; [done|]).
  - by intros [].
Defined.
#[export] Instance rel_laws : WordsLaws Rel.
Proof.
  apply (Build_WordsLaws _ _ _ (λ x, is_u addr_bits (r_offset x) ∧ is_u addr_bits (r_info x))).
  - done.
  - intros x []. by do 2 (constructor; [done|]).
  - by intros [].
Defined.
#[export] Instance rela_laws : WordsLaws Rela.
Proof.
  apply (Build_WordsLaws _ _ _ (λ x, is_u addr_bits (a_offset x) ∧ is_u addr_bits (a_info x) ∧
    - 2 ^ (addr_bits - 1) ≤ r_addend x < 2 ^ (addr_bits - 1))).
  - done.
  - intros x (Ho & Hi & _). do 2 (constructor; [done|]). constructor; [|done]. apply uwrap_range. destruct addr_bits_ok; lia.
  - intros [o i a] (_ & _ & Ha). cbn in *. f_equal. unfold to_signed, uwrap.
    assert (2 ^ addr_bits = 2 * 2 ^ (addr_bits - 1)) as E.
    { destruct addr_bits_ok as [E|E]; by rewrite E. }
    rewrite Zplus_mod_idemp_l, Z.mod_small by lia. lia.
Defined.
End Structures.

Section Dynamic.
Context `{TL : TargetLaws} `{ET : !ElfTarget}.
Implicit Types (x y : Dyn) (xs live : list Dyn).

(** ** Adjusting *)

Definition adjusted (sizeof_rel hole_size : Z) x : Dyn :=
  let tag := u32 (d_tag x) in
  mk_dyn (d_tag x)
    (if (tag =? DT_RELSZ) || (tag =? DT_RELASZ) then uwrap addr_bits (d_un x + hole_size)
     else if (tag =? DT_RELCOUNT) || (tag =? DT_RELACOUNT) then uwrap addr_bits (d_un x + Z.quot hole_size sizeof_rel)
     else d_un x).
(** The size of an entry, where it is given, is the right one. *)
Definition entry_ok (sizeof_rel : Z) x : Prop :=
  u32 (d_tag x) = DT_RELENT ∨ u32 (d_tag x) = DT_RELAENT → d_un x = sizeof_rel.
Lemma AdjustDynamic_run sizeof_rel hole_size x :
  entry_ok sizeof_rel x → AdjustDynamic sizeof_rel hole_size x = Ok (adjusted sizeof_rel hole_size x).
Proof.
  unfold entry_ok, AdjustDynamic, adjusted, DT_RELSZ, DT_RELASZ, DT_RELCOUNT, DT_RELACOUNT, DT_RELENT, DT_RELAENT.
  intros Hx. set (tag := u32 (d_tag x)) in *. cbv zeta.
  destruct (Z.eqb_spec tag 18), (Z.eqb_spec tag 8), (Z.eqb_spec tag 0x6ffffffa), (Z.eqb_spec tag 0x6ffffff9),
    (Z.eqb_spec tag 19), (Z.eqb_spec tag 9); try lia; cbn; try done; by rewrite Hx, Z.eqb_refl by lia.
Qed.
Lemma adjust_all_run sizeof_rel hole_size xs :
  Forall (entry_ok sizeof_rel) xs → adjust_all sizeof_rel hole_size xs = Ok (adjusted sizeof_rel hole_size <$> xs).
Proof. induction 1 as [|x xs Hx _ IH]; [done|]. cbn. rewrite AdjustDynamic_run, bind_Ok, IH by done. done. Qed.
Lemma adjusted_fits sizeof_rel hole_size x : fits x → fits (adjusted sizeof_rel hole_size x).
Proof.
  intros [Ht Hu]. split; [done|]. cbn. assert (0 ≤ addr_bits) by (destruct addr_bits_ok; lia).
  repeat case_match; by (done || apply uwrap_range).
Qed.
Lemma uwrap_back w v k : is_u w v → uwrap w (uwrap w (v - k) + k) = v.
Proof. intros Hv. unfold uwrap. rewrite Zplus_mod_idemp_l. replace (v - k + k) with v by lia. by apply Z.mod_small. Qed.
Lemma adjusted_back sizeof_rel hole_size x :
  0 < sizeof_rel → fits x → adjusted sizeof_rel hole_size (adjusted sizeof_rel (- hole_size) x) = x.
Proof.
  intros Hs [Ht Hu]. destruct x as [t v]. cbn in *. unfold adjusted. cbn. f_equal.
  rewrite Z.quot_opp_l, !Z.add_opp_r by lia. by repeat case_match; rewrite ?uwrap_back.
Qed.
(** Other tags are left alone. *)
Lemma adjusted_tags sizeof_rel hole_size x :
  u32 (d_tag x) ≠ DT_RELSZ → u32 (d_tag x) ≠ DT_RELASZ → u32 (d_tag x) ≠ DT_RELCOUNT → u32 (d_tag x) ≠ DT_RELACOUNT →
  adjusted sizeof_rel hole_size x = x.
Proof.
  intros H1 H2 H3 H4. unfold adjusted. destruct x. cbn in *.
  by rewrite (proj2 (Z.eqb_neq _ _) H1), (proj2 (Z.eqb_neq _ _) H2), (proj2 (Z.eqb_neq _ _) H3), (proj2 (Z.eqb_neq _ _) H4).
Qed.
Lemma adjusted_entry_ok sizeof_rel hole_size x : entry_ok sizeof_rel x → entry_ok sizeof_rel (adjusted sizeof_rel hole_size x).
Proof.
  unfold entry_ok. cbn. intros Hx Ht. specialize (Hx Ht). unfold DT_RELENT, DT_RELAENT, DT_RELSZ, DT_RELASZ, DT_RELCOUNT, DT_RELACOUNT in *.
  rewrite !(proj2 (Z.eqb_neq _ _)) by lia. done.
Qed.

(** ** Entries of a packed file *)

Definition null_dyn : Dyn := mk_dyn DT_NULL 0.
(** Entries that are in use, and [3 + n] that are not. *)
Definition table live (n : nat) : list Dyn := live ++ replicate n null_dyn.
Definition packed_tags (offset size : Z) : list Dyn := [mk_dyn DT_ANDROID_REL_OFFSET offset; mk_dyn DT_ANDROID_REL_SIZE size].
Definition in_use x : Prop := d_tag x ≠ DT_NULL ∧ d_tag x ≠ DT_ANDROID_REL_OFFSET ∧ d_tag x ≠ DT_ANDROID_REL_SIZE.

Lemma find_tag_run tag xs : ∀ x rest i,
  Forall (λ y, d_tag y ≠ tag) xs → d_tag x = tag → rest ≠ [] → find_tag tag i (xs ++ x :: rest) = Some (i + length xs)%nat.
Proof.
  induction xs as [|y xs IH]; intros x rest i Hf Hx Hr.
  - cbn. destruct rest; [done|]. rewrite Hx, Z.eqb_refl. f_equal. lia.
  - inversion_clear Hf as [|? ? Hy Hf']. cbn [app find_tag]. destruct (xs ++ x :: rest) eqn:E; [by destruct xs|]. rewrite <- E.
    rewrite (proj2 (Z.eqb_neq _ _) Hy), (IH x rest) by done. cbn. f_equal. lia.
Qed.
Lemma FindDynamicEntry_run tag xs x rest :
  Forall (λ y, d_tag y ≠ tag) xs → d_tag x = tag → rest ≠ [] → FindDynamicEntry tag (xs ++ x :: rest) = Ok (Some (length xs)).
Proof.
  intros Hf Hx Hr. unfold FindDynamicEntry. destruct (xs ++ x :: rest) eqn:E; [by destruct xs|]. rewrite <- E. by rewrite (find_tag_run tag xs x rest 0).
Qed.
(** The first entry that is not in use is taken, unless it is the last one. *)
Lemma AddDynamicEntry_run x xs n :
  Forall (λ y, d_tag y ≠ DT_NULL) xs → AddDynamicEntry x (table xs (2 + n)) = Ok (table (xs ++ [x]) (1 + n)).
Proof.
  intros Hf. unfold AddDynamicEntry, table. cbn [Nat.add replicate]. rewrite FindDynamicEntry_run, bind_Ok by done.
  rewrite insert_app_r_alt, Nat.sub_diag by lia. by rewrite <- app_assoc.
Qed.
Lemma replicate_last n : replicate (1 + n) null_dyn = replicate n null_dyn ++ [null_dyn].
Proof. induction n as [|n IH]; [done|]. cbn in *. by f_equal. Qed.
Lemma RemoveDynamicEntry_run tag xs x ys n :
  Forall (λ y, d_tag y ≠ tag) xs → d_tag x = tag →
  RemoveDynamicEntry tag (table (xs ++ x :: ys) (1 + n)) = Ok (table (xs ++ ys) (2 + n)).
Proof.
  intros Hf Hx. unfold RemoveDynamicEntry, table. rewrite <- app_assoc. cbn [app].
  rewrite FindDynamicEntry_run, bind_Ok by (done || by destruct ys). rewrite (replicate_last n) at 1.
  replace (xs ++ x :: ys ++ replicate n null_dyn ++ [null_dyn]) with ((xs ++ x :: ys ++ replicate n null_dyn) ++ [null_dyn])
    by (by rewrite <- !app_assoc; cbn; rewrite <- !app_assoc).
  rewrite last_snoc. change (check (d_tag null_dyn =? DT_NULL)) with (Ok tt). rewrite bind_Ok. f_equal.
  rewrite take_app_length, <- (app_assoc xs), drop_app_ge by lia.
  replace (S (length xs) - length xs)%nat with 1%nat by lia. cbn [drop].
  change (2 + n)%nat with (1 + (1 + n))%nat. rewrite drop_0, (replicate_last (1 + n)). f_equal. by rewrite app_assoc.
Qed.
Lemma packed_tags_run live offset size n :
  Forall in_use live →
  (xs ← AddDynamicEntry (mk_dyn DT_ANDROID_REL_OFFSET offset) (table live (3 + n));
   AddDynamicEntry (mk_dyn DT_ANDROID_REL_SIZE size) xs) = Ok (table (live ++ packed_tags offset size) (1 + n)).
Proof.
  intros Hl. rewrite (AddDynamicEntry_run _ live (1 + n)), bind_Ok.
  - change (1 + (1 + n))%nat with (2 + n)%nat. rewrite (AddDynamicEntry_run _ _ n); [by rewrite <- app_assoc|]. apply Forall_app_2; [|by repeat constructor].
    eapply Forall_impl; [exact Hl|]. by intros x [].
  - eapply Forall_impl; [exact Hl|]. by intros x [].
Qed.
Lemma forget_tags_run live offset size n :
  Forall in_use live →
  (xs ← RemoveDynamicEntry DT_ANDROID_REL_OFFSET (table (live ++ packed_tags offset size) (1 + n));
   RemoveDynamicEntry DT_ANDROID_REL_SIZE xs) = Ok (table live (3 + n)).
Proof.
  intros Hl. unfold packed_tags. rewrite RemoveDynamicEntry_run, bind_Ok; [| |done].
  - rewrite (RemoveDynamicEntry_run _ live _ [] (1 + n)), app_nil_r; [done| |done]. eapply Forall_impl; [exact Hl|]. by intros x (? & ? & ?).
  - eapply Forall_impl; [exact Hl|]. by intros x (? & ? & ?).
Qed.
Lemma table_fits live n : Forall fits live → Forall fits (table live n).
Proof. intros Hl. apply Forall_app_2; [done|]. apply Forall_replicate. unfold fits, is_u. cbn. destruct addr_bits_ok as [E|E]; by rewrite E. Qed.
Lemma table_entries sizeof_rel live n : Forall (entry_ok sizeof_rel) live → Forall (entry_ok sizeof_rel) (table live n).
Proof. intros Hl. apply Forall_app_2; [done|]. apply Forall_replicate. intros [E|E]; vm_compute in E; lia. Qed.
Lemma adjusted_table sizeof_rel hole_size live n :
  adjusted sizeof_rel hole_size <$> table live n = table (adjusted sizeof_rel hole_size <$> live) n.
Proof. unfold table. rewrite fmap_app, fmap_replicate. do 2 f_equal. Qed.
Lemma adjusted_in_use sizeof_rel hole_size live : Forall in_use live → Forall in_use (adjusted sizeof_rel hole_size <$> live).
Proof. intros Hl. by apply Forall_fmap. Qed.
Lemma adjusted_packed_tags sizeof_rel hole_size offset size :
  adjusted sizeof_rel hole_size <$> packed_tags offset size = packed_tags offset size.
Proof. unfold packed_tags. cbn [fmap list_fmap]. by rewrite !adjusted_tags. Qed.
Lemma adjusted_all_back sizeof_rel hole_size live :
  0 < sizeof_rel → Forall fits live → adjusted sizeof_rel hole_size <$> (adjusted sizeof_rel (- hole_size) <$> live) = live.
Proof.
  intros Hs Hl. induction Hl as [|x xs Hx _ IH]; [done|]. rewrite !fmap_cons, IH, adjusted_back by done. done.
Qed.

End Dynamic.
End ElfDynamic.
