(* ===== verification/ElfSegments.v ===== *)
(** Splitting and coalescing program headers (see [ElfFile]): what the table holds after a
    hole was closed, and that opening it again restores the table. *)

From S2P Require Import Prelude RelocationPacker RelocationSpec ElfFile ElfLayout.
Local Open Scope Z_scope.

Module ElfSegments.
Import RelocationPacker RelocationSpec ElfFile ElfLayout.

Lemma elem_of_orderable ps i : i ∈ orderable_positions ps ↔ ∃ p, ps !! i = Some p ∧ is_orderable p = true.
Proof.
  unfold orderable_positions. rewrite list_elem_of_In, filter_In, <- list_elem_of_In, elem_of_seq. split.
  - intros [_ Hi]. destruct (ps !! i) as [p|] eqn:E; [|done]. by exists p.
  - intros (p & E & Hp). rewrite E. split; [|done]. apply lookup_lt_Some in E. lia.
Qed.
Lemma orderable_ext ps ps' :
  length ps = length ps' → (∀ i p p', ps !! i = Some p → ps' !! i = Some p' → is_orderable p = is_orderable p') →
  orderable_positions ps = orderable_positions ps'.
Proof.
  intros Hl Ho. unfold orderable_positions. rewrite Hl. apply filter_ext_in. intros i Hi.
  apply list_elem_of_In, elem_of_seq in Hi. destruct (lookup_lt_is_Some_2 ps i) as [p E]; [lia|].
  destruct (lookup_lt_is_Some_2 ps' i) as [p' E']; [lia|]. rewrite E, E'. by apply (Ho i).
Qed.
Lemma orderable_NoDup ps : NoDup (orderable_positions ps).
Proof. apply NoDup_ListNoDup, List.NoDup_filter, NoDup_ListNoDup, NoDup_seq. Qed.
Lemma holds_cons i P ps v vs : holds (i :: P) ps (v :: vs) ↔ ps !! i = Some v ∧ holds P ps vs.
Proof. unfold holds. split; [by inversion_clear 1|intros []; by constructor]. Qed.
Lemma holds_snoc i P ps v vs : holds (P ++ [i]) ps (vs ++ [v]) ↔ holds P ps vs ∧ ps !! i = Some v.
Proof.
  unfold holds. split.
  - intros Hh. pose proof (Forall2_length _ _ _ Hh) as Hl. rewrite !length_app in Hl. cbn in Hl.
    apply Forall2_app_inv in Hh as [H1 H2]; [|lia]. by inversion_clear H2.
  - intros [H1 H2]. apply Forall2_app; [done|]. by constructor.
Qed.
(** Tables are equal if they hold the same at the positions and elsewhere. *)
Lemma table_eq P ps ps' vs :
  length ps = length ps' → holds P ps vs → holds P ps' vs → (∀ i, i ∉ P → ps !! i = ps' !! i) → ps = ps'.
Proof.
  intros _ Hh Hh' Hn. apply list_eq. intros i. destruct (decide (i ∈ P)) as [Hi|Hi]; [|by apply Hn].
  apply list_elem_of_lookup_1 in Hi as [j Hj]. destruct (Forall2_lookup_l _ _ _ _ _ Hh Hj) as (v & Hv & E).
  by rewrite E, (Forall2_lookup_lr _ _ _ _ _ _ Hh' Hj Hv).
Qed.

Section Segments.
Context `{TL : TargetLaws} `{ET : !ElfTarget} `{BD : Build}.

(** ** Offsets around the hole *)

(** [hole] bytes go from the [size] bytes at [start]; nothing else lies there. *)
Context (start size hole : Z) (Hstart : 0 ≤ start) (Hhole : 0 < hole < size) (Hsize : size < 2 ^ addr_bits).
Definition outside (o : Z) : Prop := is_u addr_bits o ∧ (o ≤ start ∨ start + size ≤ o).
Definition closed (o : Z) : Z := if start <? o then o - hole else o.
Lemma beyond_close o : outside o → beyond start (- hole) o = closed o.
Proof.
  intros [Hu Ho]. unfold beyond, closed, is_u in *. destruct (Z.ltb_spec start o); [|done].
  rewrite uwrap_small; [lia|]. unfold is_u. lia.
Qed.
Lemma beyond_open o : outside o → beyond start hole (closed o) = o.
Proof.
  intros [Hu Ho]. unfold beyond, closed, is_u in *. destruct (Z.ltb_spec start o).
  - rewrite (proj2 (Z.ltb_lt _ _)) by lia. rewrite uwrap_small; [lia|]. unfold is_u. lia.
  - by rewrite (proj2 (Z.ltb_ge _ _)) by lia.
Qed.

(** ** The table *)

Definition close_header (p : Phdr) : Phdr := with_p_offset (closed (p_offset p)) p.
(** The table of a library: its first segment has [fsz] bytes from the start of the file and
    contains the hole; other segments follow in order; the unused one is last.  The section
    after the hole is at [next] and is loaded at [addr], and that after the segment is at
    [segment_end]. *)
Context (first_position stack_position : nat) (positions : list nat) (loads : list Phdr) (fsz flags align stack_align : Z).
Context (next addr segment_end : Z).
Definition first_load : Phdr := mk_phdr PT_LOAD 0 0 0 fsz fsz flags align.
Definition unused_stack : Phdr := mk_phdr PT_GNU_STACK 0 0 0 0 0 (Z.lor PF_R PF_W) stack_align.
Record library_table (ps : list Phdr) : Prop := {
  lt_positions : orderable_positions ps = first_position :: positions ++ [stack_position];
  lt_holds : holds (orderable_positions ps) ps (first_load :: loads ++ [unused_stack]);
  lt_loads : Forall (λ p, p_type p = PT_LOAD ∧ fsz ≤ p_offset p) loads;
  lt_order : in_order loads;
  lt_outside i p : ps !! i = Some p → outside (p_offset p);
}.
Context (Hnext : start + size ≤ next < fsz) (Hend : fsz ≤ segment_end) (Hendu : is_u addr_bits segment_end).
Definition spliced_load : Phdr := mk_phdr PT_LOAD 0 0 0 (next - hole) (next - hole) flags align.
Definition split_load : Phdr := mk_phdr PT_LOAD (next - hole) addr addr (segment_end - next) (segment_end - next) flags align.
(** The table after the hole was closed. *)
Record packed_table (ps ps1 : list Phdr) : Prop := {
  pt_length : length ps1 = length ps;
  pt_holds : holds (orderable_positions ps) ps1 (spliced_load :: split_load :: (close_header <$> loads));
  pt_others i : i ∉ orderable_positions ps → ps1 !! i = close_header <$> ps !! i;
}.

Lemma loads_outside ps p : library_table ps → p ∈ loads → outside (p_offset p) ∧ next < p_offset p.
Proof.
  intros Hl Hp. apply list_elem_of_lookup_1 in Hp as [j Hj]. pose proof (lt_holds _ Hl) as Hh. rewrite (lt_positions _ Hl) in Hh.
  apply holds_cons in Hh as [_ Hh]. apply holds_snoc in Hh as [Hh _].
  destruct (Forall2_lookup_r _ _ _ _ _ Hh Hj) as (i & _ & E). pose proof (lt_loads _ Hl) as HF.
  rewrite Forall_lookup in HF. destruct (HF j p Hj). split; [by apply (lt_outside _ Hl i)|lia].
Qed.
Lemma closed_loads ps : library_table ps → Forall (λ p, p_type p = PT_LOAD ∧ next - hole < p_offset p) (close_header <$> loads).
Proof.
  intros Hl. apply Forall_fmap, Forall_forall. intros p Hp. destruct (loads_outside ps p Hl Hp) as [_ Hn].
  pose proof (lt_loads _ Hl) as HF. rewrite Forall_forall in HF. destruct (HF p Hp) as [Ht _]. cbn. split; [done|].
  unfold closed. rewrite (proj2 (Z.ltb_lt _ _)) by lia. lia.
Qed.
Lemma in_order_cons p vs :
  p_type p ≠ PT_GNU_STACK → Forall (λ q, p_offset p ≤ p_offset q) vs → in_order vs → in_order (p :: vs).
Proof.
  intros Ht Hf Ho [|j] a b Ha Hb.
  - cbn in Ha. injection Ha as <-. rewrite Forall_lookup in Hf. specialize (Hf 0%nat b Hb). unfold out_of_order.
    rewrite (proj2 (Z.eqb_neq _ _) Ht). cbn. by apply Z.ltb_ge.
  - exact (Ho j a b Ha Hb).
Qed.
Lemma closed_order ps : library_table ps → in_order (close_header <$> loads).
Proof.
  intros Hl j a b Ha Hb. rewrite list_lookup_fmap in Ha, Hb.
  destruct (loads !! j) as [p|] eqn:Ep; [|done]. destruct (loads !! S j) as [q|] eqn:Eq; [|done]. injection Ha as <-. injection Hb as <-.
  pose proof (lt_order _ Hl j p q Ep Eq) as Ho. unfold out_of_order in *. cbn. apply orb_false_iff in Ho as [Ho1 Ho2].
  rewrite Ho1. cbn. apply Z.ltb_ge. apply Z.ltb_ge in Ho2.
  destruct (loads_outside ps p Hl) as [_ ?]; [by eapply list_elem_of_lookup_2|].
  destruct (loads_outside ps q Hl) as [_ ?]; [by eapply list_elem_of_lookup_2|].
  unfold closed. rewrite !(proj2 (Z.ltb_lt start _)) by lia. lia.
Qed.

(** Headers that are not ordered belong to no loaded segment. *)
Lemma not_ordered ps i p : i ∉ orderable_positions ps → ps !! i = Some p → p_type p ≠ PT_LOAD ∧ p_type p ≠ PT_GNU_STACK.
Proof.
  intros Hi E. assert (is_orderable p = false) as Ho.
  { apply not_true_is_false. intros Ho. apply Hi, elem_of_orderable. by exists p. }
  apply orb_false_iff in Ho as [H1%Z.eqb_neq H2%Z.eqb_neq]. done.
Qed.

(** Closing the hole before the segments are ordered. *)
Definition split_unsorted (ps : list Phdr) : list Phdr :=
  imap (λ i p, if bool_decide (i = stack_position) || bool_decide (i = first_position) then p
               else with_p_offset (beyond start (- hole) (p_offset p)) p)
    (<[first_position := split_load]> (<[stack_position := spliced_load]> ps)).
Lemma split_packs ps : library_table ps → packed_table ps (sort_headers (split_unsorted ps)).
Proof.
  intros Hl. pose proof (lt_holds _ Hl) as Hh. pose proof (orderable_NoDup ps) as HN. set (P := orderable_positions ps) in *.
  pose proof (lt_positions _ Hl) as EP. fold P in EP. rewrite EP in Hh, HN.
  apply holds_cons in Hh as [Hf Hh]. apply holds_snoc in Hh as [Hh Hs].
  apply NoDup_cons in HN as [HN1 HN]. apply NoDup_app in HN as (HN2 & HN3 & _).
  assert (first_position ≠ stack_position) as Hne.
  { intros E. apply HN1. apply elem_of_app. right. rewrite E. by left. }
  assert (∀ i p, i ≠ first_position → i ≠ stack_position → ps !! i = Some p → split_unsorted ps !! i = Some (close_header p)) as Eo.
  { intros i p H1 H2 E. unfold split_unsorted. rewrite list_lookup_imap, !list_lookup_insert_ne, E by done. cbn.
    rewrite !bool_decide_eq_false_2 by done. cbn. by rewrite beyond_close by (by apply (lt_outside _ Hl i)). }
  assert (split_unsorted ps !! first_position = Some split_load) as Ef.
  { unfold split_unsorted. rewrite list_lookup_imap, list_lookup_insert_eq by (rewrite length_insert; by apply lookup_lt_Some in Hf). cbn.
    by rewrite (bool_decide_eq_true_2 (first_position = first_position)), orb_true_r. }
  assert (split_unsorted ps !! stack_position = Some spliced_load) as Es.
  { unfold split_unsorted. rewrite list_lookup_imap, list_lookup_insert_ne, list_lookup_insert_eq by (done || by apply lookup_lt_Some in Hs). cbn.
    by rewrite (bool_decide_eq_true_2 (stack_position = stack_position)). }
  assert (length (split_unsorted ps) = length ps) as El by (unfold split_unsorted; by rewrite length_imap, !length_insert).
  assert (orderable_positions (split_unsorted ps) = P) as EP'.
  { apply orderable_ext; [done|]. intros i p' p E' E. destruct (decide (i = first_position)) as [->|H1].
    { rewrite Ef in E'. rewrite Hf in E. by simplify_eq. }
    destruct (decide (i = stack_position)) as [->|H2]; [rewrite Es in E'; rewrite Hs in E; by simplify_eq|].
    rewrite (Eo i p H1 H2 E) in E'. by simplify_eq. }
  assert (holds P (split_unsorted ps) ((split_load :: (close_header <$> loads)) ++ [spliced_load])) as Hh'.
  { rewrite EP. cbn [app]. apply holds_cons. split; [done|]. apply holds_snoc. split; [|done].
    apply Forall2_fmap_r. pose proof Hh as Hh2. apply Forall2_same_length_lookup in Hh2 as [Hlen Hh2].
    apply Forall2_same_length_lookup. split; [done|]. intros j i p Hi Hp. apply Eo; [| |by apply (Hh2 j)].
    - intros ->. apply HN1, elem_of_app. left. by eapply list_elem_of_lookup_2.
    - intros ->. apply (HN3 stack_position); [by eapply list_elem_of_lookup_2|by left]. }
  pose proof (sort_headers_holds (split_unsorted ps)) as Hsort. cbv zeta in Hsort. rewrite EP' in Hsort.
  destruct (Hsort _ Hh') as (H1 & H2 & H3).
  pose proof (closed_loads ps Hl) as Hcl.
  rewrite value_sort_front in H1.
  - split; [by rewrite H2|exact H1|]. intros i Hi. rewrite H3 by done. fold P in Hi. rewrite EP in Hi.
    apply not_elem_of_cons in Hi as [Hi1 Hi2]. apply not_elem_of_app in Hi2 as [_ Hi2]. apply not_elem_of_cons in Hi2 as [Hi2 _].
    destruct (ps !! i) as [p|] eqn:E; [by apply Eo|]. apply lookup_ge_None. apply lookup_ge_None in E. lia.
  - apply in_order_cons; [done| |by eapply closed_order]. eapply Forall_impl; [exact Hcl|]. cbn. lia.
  - constructor; [unfold out_of_order; cbn; apply Z.ltb_lt; lia|]. eapply Forall_impl; [exact Hcl|].
    intros p [_ Hp]. unfold out_of_order. apply orb_true_iff. right. cbn. apply Z.ltb_lt. lia.
Qed.

(** The second position of a packed table, and opening the hole again. *)
Definition second_position : nat := match positions with [] => stack_position | i :: _ => i end.
Definition joined_unsorted (ps1 : list Phdr) : list Phdr :=
  imap (λ i p, if bool_decide (i = first_position) || bool_decide (i = second_position) then p
               else with_p_offset (beyond start hole (p_offset p)) p)
    (<[first_position := unused_stack]> (<[second_position := first_load]> ps1)).
Lemma packed_joins ps ps1 : library_table ps → packed_table ps ps1 → sort_headers (joined_unsorted ps1) = ps.
Proof.
  intros Hl [Pl Ph Po]. pose proof (lt_holds _ Hl) as Hh. pose proof (orderable_NoDup ps) as HN. set (P := orderable_positions ps) in *.
  assert (∃ others, P = first_position :: second_position :: others) as [others EP].
  { unfold P. rewrite (lt_positions _ Hl). unfold second_position. destruct positions; by eexists. }
  pose proof Ph as Ph0. rewrite EP in Ph, HN. apply holds_cons in Ph as [Hf Ph]. apply holds_cons in Ph as [Hs Ph].
  apply NoDup_cons in HN as [HN1 HN]. apply NoDup_cons in HN as [HN2 HN].
  assert (first_position ≠ second_position) as Hne by (intros E; apply HN1; rewrite E; by left).
  assert (∀ i p, i ≠ first_position → i ≠ second_position → ps1 !! i = Some (close_header p) → outside (p_offset p) →
    joined_unsorted ps1 !! i = Some p) as Eo.
  { intros i p H1 H2 E Ho. unfold joined_unsorted. rewrite list_lookup_imap, !list_lookup_insert_ne, E by done. cbn.
    rewrite !bool_decide_eq_false_2 by done. cbn. rewrite beyond_open by done. by destruct p. }
  assert (joined_unsorted ps1 !! first_position = Some unused_stack) as Ef.
  { unfold joined_unsorted. rewrite list_lookup_imap, list_lookup_insert_eq by (rewrite length_insert; by apply lookup_lt_Some in Hf). cbn.
    by rewrite (bool_decide_eq_true_2 (first_position = first_position)). }
  assert (joined_unsorted ps1 !! second_position = Some first_load) as Es.
  { unfold joined_unsorted. rewrite list_lookup_imap, list_lookup_insert_ne, list_lookup_insert_eq by (done || by apply lookup_lt_Some in Hs). cbn.
    by rewrite (bool_decide_eq_true_2 (second_position = second_position)), orb_true_r. }
  assert (length (joined_unsorted ps1) = length ps) as El by (unfold joined_unsorted; by rewrite length_imap, !length_insert).
  assert (Forall2 (λ i p, joined_unsorted ps1 !! i = Some p) others loads) as Hr.
  { apply Forall2_fmap_r in Ph. apply Forall2_same_length_lookup in Ph as [Hlen Ph].
    apply Forall2_same_length_lookup. split; [done|]. intros j i p Hi Hp. apply Eo.
    - intros ->. apply HN1. right. by eapply list_elem_of_lookup_2.
    - intros ->. apply HN2. by eapply list_elem_of_lookup_2.
    - by apply (Ph j).
    - apply (loads_outside ps p Hl). by eapply list_elem_of_lookup_2. }
  assert (holds P (joined_unsorted ps1) (unused_stack :: first_load :: loads)) as Hh'.
  { rewrite EP. apply holds_cons. split; [done|]. apply holds_cons. by split. }
  assert (∀ i, i ∉ P → joined_unsorted ps1 !! i = ps !! i) as Hoth.
  { intros i Hi. specialize (Po i Hi). destruct (ps !! i) as [p|] eqn:E.
    - rewrite EP in Hi. apply not_elem_of_cons in Hi as [Hi1 Hi2]. apply not_elem_of_cons in Hi2 as [Hi2 _].
      apply Eo; [done..|]. by apply (lt_outside _ Hl i).
    - apply lookup_ge_None. apply lookup_ge_None in E. lia. }
  assert (orderable_positions (joined_unsorted ps1) = P) as EP'.
  { apply orderable_ext; [done|]. intros i p' p E' E. destruct (decide (i ∈ P)) as [Hi|Hi]; [|rewrite Hoth in E' by done; by simplify_eq].
    pose proof Hi as Hi0. apply elem_of_orderable in Hi0 as (p0 & E0 & Hp0). rewrite E in E0. injection E0 as <-. rewrite Hp0.
    apply list_elem_of_lookup_1 in Hi as [j Hj]. destruct (Forall2_lookup_l _ _ _ _ _ Hh' Hj) as (v & Hv & Ev).
    rewrite Ev in E'. injection E' as <-. destruct j as [|[|j]]; cbn in Hv; [by simplify_eq|by simplify_eq|].
    pose proof (lt_loads _ Hl) as HF. rewrite Forall_lookup in HF. destruct (HF j v Hv) as [Ht _]. unfold is_orderable. by rewrite Ht. }
  pose proof (sort_headers_holds (joined_unsorted ps1)) as Hsort. cbv zeta in Hsort. rewrite EP' in Hsort.
  destruct (Hsort _ Hh') as (H1 & H2 & H3). rewrite value_sort_back in H1; [|done|].
  - apply (table_eq P _ _ ((first_load :: loads) ++ [unused_stack])); [lia|exact H1|exact Hh|]. intros i Hi. by rewrite H3, Hoth.
  - apply in_order_cons; [done| |by apply (lt_order _ Hl)]. eapply Forall_impl; [exact (lt_loads _ Hl)|]. cbn. intros p [_ ?]. lia.
Qed.

End Segments.
End ElfSegments.
