(* ===== verification/ElfHeaders.v ===== *)
(** Runs of the operations of [ElfFile] that split and coalesce program headers, on files
    whose sections lie in order. *)

From stdpp Require Import strings.
From S2P Require Import Prelude RelocationPacker RelocationSpec ElfFile ElfLayout ElfSegments.
Local Open Scope Z_scope.

Module ElfHeaders.
Import RelocationPacker RelocationSpec ElfFile ElfLayout ElfSegments.

Section Headers.
Context `{TL : TargetLaws} `{ET : !ElfTarget} `{BD : Build}.
Implicit Types e : Elf.

Lemma getphdr_run e i p : phdrs e !! i = Some p → getphdr i e = Ok (p, e).
Proof. intros E. unfold getphdr. by rewrite E. Qed.
Lemma getscn_run e i s : sections e !! i = Some s → getscn i e = Ok (s, e).
Proof. intros E. unfold getscn. by rewrite E. Qed.
Lemma found_or_fatal_run e o i : o = Some i → found_or_fatal o e = Ok (i, e).
Proof. by intros ->. Qed.
Lemma next_or_fatal_run e i : (S i < length (sections e))%nat → next_or_fatal i e = Ok (S i, e).
Proof. intros Hi. unfold next_or_fatal, getS, mbind, prog_bind. by rewrite bool_decide_eq_true_2. Qed.
Lemma checkS_run {S} (s : S) b : b = true → checkS b s = Ok (tt, s).
Proof. by intros ->. Qed.
Definition stack_alignment e : Z :=
  if existsb (λ s, bool_decide (sh_name (shdr s) = ".note.gnu.gold-version"%string)) (sections e)
  then kGoldGnuStackSegmentAlignment else kLdGnuStackSegmentAlignment.
Lemma Deduce_run e : DeduceGnuStackSegmentAlignment e = Ok (stack_alignment e, e).
Proof. done. Qed.

Context (start size hole : Z) (Hstart : 0 ≤ start) (Hhole : 0 < hole < size) (Hsize : size < 2 ^ addr_bits).
Context (first_position stack_position : nat) (positions : list nat) (loads : list Phdr) (fsz flags align stack_align : Z).
Context (next addr segment_end : Z).
Context (Hnext : start + size ≤ next < fsz) (Hend : fsz ≤ segment_end) (Hendu : is_u addr_bits segment_end).
Abbreviation library := (library_table start size first_position stack_position positions loads fsz flags align stack_align).
Abbreviation packed := (packed_table start hole loads flags align next addr segment_end).
Abbreviation unsorted := (split_unsorted start hole first_position stack_position flags align next addr segment_end).
Abbreviation joined := (joined_unsorted start hole first_position stack_position positions fsz flags align stack_align).

(** Section [r] is the one with the hole, and [l] the last one of the first segment.  [gap] is
    how much the sections behind the hole have moved. *)
Context (r l : nat) (Hr : (0 < r < l)%nat).
Record section_order (gap : Z) (ss : list Elf_Scn) : Prop := {
  so_before i s : ss !! i = Some s → (i < r)%nat → 0 ≤ sh_offset (shdr s) < start;
  so_at s : ss !! r = Some s → sh_offset (shdr s) = start;
  so_behind i s : ss !! i = Some s → (r < i)%nat →
    start + size ≤ sh_offset (shdr s) + gap ∧ is_u addr_bits (sh_offset (shdr s) + gap);
  so_inside i s : ss !! i = Some s → (r < i ≤ l)%nat → sh_offset (shdr s) + gap < fsz;
  so_outside i s : ss !! i = Some s → (l < i)%nat → segment_end ≤ sh_offset (shdr s) + gap;
  so_length : (S l < length ss)%nat;
}.

(** Searches of the library's table. *)
Lemma find_stack ps : library ps → find_last (is_unused_stack stack_align) ps = Some stack_position.
Proof.
  intros Hl. pose proof (lt_holds _ _ _ _ _ _ _ _ _ _ _ Hl) as Hh. pose proof (lt_positions _ _ _ _ _ _ _ _ _ _ _ Hl) as EP.
  rewrite EP in Hh. apply holds_cons in Hh as [Hf Hh]. apply holds_snoc in Hh as [Hh Hs].
  apply (find_last_spec _ _ _ _ Hs); [unfold is_unused_stack, unused_stack; cbn -[Z.eqb]; by rewrite !Z.eqb_refl|].
  intros j p Hj E. apply not_true_is_false. intros Hp. unfold is_unused_stack in Hp.
  do 7 apply andb_prop in Hp as [Hp _]. apply Z.eqb_eq in Hp.
  assert (j ∈ orderable_positions ps) as Hi.
  { apply elem_of_orderable. exists p. split; [done|]. unfold is_orderable. by rewrite Hp. }
  rewrite EP in Hi. apply elem_of_cons in Hi as [->|Hi]; [rewrite Hf in E; by simplify_eq|].
  apply elem_of_app in Hi as [Hi|Hi]; [|apply list_elem_of_singleton in Hi; lia].
  apply list_elem_of_lookup_1 in Hi as [k Hk]. destruct (Forall2_lookup_l _ _ _ _ _ Hh Hk) as (v & Hv & Ev).
  pose proof (lt_loads _ _ _ _ _ _ _ _ _ _ _ Hl) as HF. rewrite Forall_lookup in HF. destruct (HF k v Hv) as [Ht _]. rewrite Ev in E. simplify_eq.
  by rewrite Ht in Hp.
Qed.
(** A search for a loaded segment finds the one that is held in order. *)
Lemma find_held ps ps' vs (f : Phdr → bool) k i v :
  holds (orderable_positions ps) ps' vs → (∀ j p, j ∉ orderable_positions ps → ps' !! j = Some p → p_type p ≠ PT_LOAD) →
  (∀ p, f p = true → p_type p = PT_LOAD) → orderable_positions ps !! k = Some i → vs !! k = Some v → f v = true →
  (∀ k' v', k' ≠ k → vs !! k' = Some v' → f v' = false) → find_last f ps' = Some i.
Proof.
  intros Hh Hoth Hf Hi Hv Hfv Hu. apply (find_last_spec _ _ _ v); [exact (Forall2_lookup_lr _ _ _ _ _ _ Hh Hi Hv)|done|].
  intros j p Hj E. apply not_true_is_false. intros Hp. destruct (decide (j ∈ orderable_positions ps)) as [Hin|Hin].
  - apply list_elem_of_lookup_1 in Hin as [k' Hk']. destruct (Forall2_lookup_l _ _ _ _ _ Hh Hk') as (v' & Hv' & Ev').
    rewrite E in Ev'. injection Ev' as <-. destruct (decide (k' = k)) as [->|Hne].
    + rewrite Hi in Hk'. injection Hk' as <-. lia.
    + by rewrite (Hu k' p Hne Hv') in Hp.
  - by apply (Hoth j p Hin E), Hf.
Qed.
Lemma is_first_load_type p : is_first_load p = true → p_type p = PT_LOAD ∧ p_offset p = 0.
Proof.
  unfold is_first_load. intros Hp. apply andb_prop in Hp as [Hp _]. apply andb_prop in Hp as [Hp _]. apply andb_prop in Hp as [H1 H2].
  by apply Z.eqb_eq in H1, H2.
Qed.
Lemma find_first ps : library ps → find_last is_first_load ps = Some first_position.
Proof.
  intros Hl. pose proof (lt_holds _ _ _ _ _ _ _ _ _ _ _ Hl) as Hh. pose proof (lt_positions _ _ _ _ _ _ _ _ _ _ _ Hl) as EP.
  apply (find_held ps ps _ is_first_load 0 first_position (first_load fsz flags align) Hh).
  - intros j p Hj E. by destruct (not_ordered ps j p Hj E).
  - intros p Hp. by apply is_first_load_type.
  - by rewrite EP.
  - done.
  - done.
  - intros [|k] v Hk Hv; [done|]. cbn in Hv. apply not_true_is_false. intros [Ht Ho]%is_first_load_type.
    apply lookup_app_Some in Hv as [Hv|[_ Hv]].
    + pose proof (lt_loads _ _ _ _ _ _ _ _ _ _ _ Hl) as HF. rewrite Forall_lookup in HF. destruct (HF k v Hv). lia.
    + apply list_elem_of_lookup_2, list_elem_of_singleton in Hv as ->. done.
Qed.

(** Searches of the packed table. *)
Lemma packed_others ps ps1 j p : packed ps ps1 → j ∉ orderable_positions ps → ps1 !! j = Some p → p_type p ≠ PT_LOAD.
Proof.
  intros Hp Hj E. rewrite (pt_others _ _ _ _ _ _ _ _ _ _ Hp j Hj) in E. destruct (ps !! j) as [q|] eqn:Eq; [|done].
  injection E as <-. by destruct (not_ordered ps j q Hj Eq).
Qed.
Lemma packed_offsets ps k v :
  library ps → (spliced_load hole flags align next :: split_load hole flags align next addr segment_end :: (close_header start hole <$> loads)) !! S (S k) = Some v →
  next - hole < p_offset v.
Proof.
  intros Hl Hv. change ((close_header start hole <$> loads) !! k = Some v) in Hv.
  assert (Forall (λ p, p_type p = PT_LOAD ∧ next - hole < p_offset p) (close_header start hole <$> loads)) as HF by (by eapply closed_loads).
  rewrite Forall_lookup in HF. by destruct (HF k v Hv).
Qed.
Lemma find_first_packed ps ps1 : library ps → packed ps ps1 → find_last is_first_load ps1 = Some first_position.
Proof.
  intros Hl Hp. pose proof (lt_positions _ _ _ _ _ _ _ _ _ _ _ Hl) as EP.
  apply (find_held ps ps1 _ is_first_load 0 first_position (spliced_load hole flags align next) (pt_holds _ _ _ _ _ _ _ _ _ _ Hp)).
  - intros j p. by apply packed_others.
  - intros p Hf. by apply is_first_load_type.
  - by rewrite EP.
  - done.
  - done.
  - intros [|[|k]] v Hk Hv; [done| |]; apply not_true_is_false; intros [Ht Ho]%is_first_load_type.
    + injection Hv as <-. cbn in Ho. lia.
    + pose proof (packed_offsets ps k v Hl Hv). lia.
Qed.
Abbreviation second := (second_position stack_position positions).
Lemma find_original ps ps1 :
  library ps → packed ps ps1 →
  find_last (λ p, (p_type p =? PT_LOAD) && (p_offset p =? next - hole)) ps1 = Some second.
Proof.
  intros Hl Hp. pose proof (lt_positions _ _ _ _ _ _ _ _ _ _ _ Hl) as EP.
  apply (find_held ps ps1 _ _ 1 second (split_load hole flags align next addr segment_end) (pt_holds _ _ _ _ _ _ _ _ _ _ Hp)).
  - intros j p. by apply packed_others.
  - intros p Hf. apply andb_prop in Hf as [Hf _]. by apply Z.eqb_eq.
  - rewrite EP. unfold second_position. by destruct positions.
  - done.
  - cbn. by rewrite Z.eqb_refl.
  - intros [|[|k]] v Hk Hv; [|done|].
    + injection Hv as <-. apply andb_false_iff. right. unfold spliced_load. cbn [p_offset]. apply Z.eqb_neq. lia.
    + apply andb_false_iff. right. apply Z.eqb_neq. pose proof (packed_offsets ps k v Hl Hv). lia.
Qed.

(** Searches of the sections. *)
Lemma find_holed gap ss :
  gap = hole → section_order gap ss → find_last (λ s, original_offset start (- gap) s <=? start) ss = Some (r - 1)%nat.
Proof.
  intros -> Ho. pose proof (so_length _ _ Ho) as Hlen. destruct (lookup_lt_is_Some_2 ss (r - 1)) as [s Hs]; [lia|].
  pose proof (so_before _ _ Ho _ _ Hs ltac:(lia)). apply (find_last_spec _ _ _ s Hs).
  - unfold original_offset. cbv zeta. replace (start <=? sh_offset (shdr s)) with false by lia. lia.
  - intros j s' Hj Hs'. apply Z.leb_gt. unfold original_offset. destruct (decide (j = r)) as [->|].
    + rewrite (so_at _ _ Ho s' Hs'), Z.leb_refl. rewrite uwrap_small; [lia|]. unfold is_u in *. lia.
    + destruct (so_behind _ _ Ho j s' Hs' ltac:(lia)) as [Hb Hu]. rewrite (proj2 (Z.leb_le _ _)) by lia.
      replace (sh_offset (shdr s') - - hole) with (sh_offset (shdr s') + hole) by lia. rewrite uwrap_small by done. lia.
Qed.
(** The end of the first segment as the code computes it, when sections have moved by [gap]
    and the search undoes [undo] of that. *)
Lemma find_last_section gap undo e_end ss :
  section_order gap ss → 0 ≤ gap ≤ hole → 0 ≤ gap + undo ≤ hole → - hole ≤ undo ≤ hole → fsz - (gap + undo) ≤ e_end ≤ segment_end - (gap + undo) →
  find_last (λ s, original_offset start undo s <? e_end) ss = Some l.
Proof.
  intros Ho Hgap Hg Hun He. pose proof (so_length _ _ Ho) as Hlen. destruct (lookup_lt_is_Some_2 ss l) as [s Hs]; [lia|].
  assert (∀ j s', ss !! j = Some s' → (r < j)%nat → original_offset start undo s' = sh_offset (shdr s') - undo) as Eorig.
  { intros j s' Hs' Hj. destruct (so_behind _ _ Ho j s' Hs' Hj) as [Hb Hu]. unfold original_offset, is_u in *.
    rewrite (proj2 (Z.leb_le _ _)) by lia. rewrite uwrap_small; [done|]. unfold is_u. lia. }
  apply (find_last_spec _ _ _ s Hs).
  - rewrite (Eorig l s Hs) by lia. pose proof (so_inside _ _ Ho l s Hs ltac:(lia)). apply Z.ltb_lt. lia.
  - intros j s' Hj Hs'. rewrite (Eorig j s' Hs') by lia. pose proof (so_outside _ _ Ho j s' Hs' Hj). apply Z.ltb_ge. lia.
Qed.

(** ** Runs *)

(** The section after the one with the hole, and the one after the segment. *)
Record around (gap : Z) (ss : list Elf_Scn) : Prop := {
  ar_next : ∃ s, ss !! S r = Some s ∧ sh_offset (shdr s) + gap = next ∧ sh_addr (shdr s) = addr;
  ar_end : ∃ s, ss !! S l = Some s ∧ sh_offset (shdr s) + gap = segment_end;
}.
Lemma Split_run e ps :
  phdrs e = ps → library ps → stack_alignment e = stack_align → section_order hole (sections e) → around hole (sections e) →
  SplitProgramHeadersForHole start (- hole) e = Ok (tt, set_phdrs (sort_headers (unsorted ps)) e).
Proof.
  intros Eps Hl Ea Ho [(sn & Hsn & En & Eaddr) (se & Hse & Ee)]. pose proof (so_length _ _ Ho) as Hlen.
  pose proof (lt_holds _ _ _ _ _ _ _ _ _ _ _ Hl) as Hh. rewrite (lt_positions _ _ _ _ _ _ _ _ _ _ _ Hl) in Hh.
  apply holds_cons in Hh as [Hf Hh]. apply holds_snoc in Hh as [Hh Hs].
  unfold SplitProgramHeadersForHole. run_bind (checkS_run e (- hole <? 0) ltac:(lia)).
  assert (FindUnusedGnuStackSegment e = Ok (stack_position, e)) as E1.
  { unfold FindUnusedGnuStackSegment. run_bind (Deduce_run e). unfold getS, mbind, prog_bind. rewrite Ea, Eps. by apply found_or_fatal_run, find_stack. }
  assert (FindFirstLoadSegment e = Ok (first_position, e)) as E2.
  { unfold FindFirstLoadSegment, getS, mbind, prog_bind. rewrite Eps. by apply found_or_fatal_run, find_first. }
  assert (FindSectionContainingHole start (- hole) e = Ok (r, e)) as E3.
  { unfold FindSectionContainingHole. rewrite (prog_bind_run getS _ e e e eq_refl).
    run_bind (found_or_fatal_run e _ _ (find_holed hole (sections e) eq_refl Ho)).
    rewrite (next_or_fatal_run e (r - 1)) by lia. by replace (S (r - 1)) with r by lia. }
  assert (getphdr first_position e = Ok (first_load fsz flags align, e)) as E4 by (apply getphdr_run; by rewrite Eps).
  assert (uwrap addr_bits (0 + fsz) = fsz) as Efs by (unfold is_u in *; rewrite uwrap_small; [lia|unfold is_u; lia]).
  assert (FindLastSectionInSegment (first_load fsz flags align) start (- hole) e = Ok (l, e)) as E5.
  { unfold FindLastSectionInSegment. cbn [p_offset p_filesz first_load]. rewrite Efs.
    apply (found_or_fatal_run e), (find_last_section hole); [done|lia..]. }
  run_bind E1. run_bind E2. run_bind E3. run_bind E4. run_bind E5. run_bind (next_or_fatal_run e r ltac:(lia)). run_bind (next_or_fatal_run e l ltac:(lia)).
  run_bind (getscn_run e _ _ Hsn). run_bind (checkS_run e (fsz =? fsz) (Z.eqb_refl fsz)). cbn [p_type p_offset p_vaddr p_paddr p_flags p_align first_load].
  replace (sh_offset (shdr sn)) with (next - hole) by lia.
  unfold putphdr at 1. rewrite (prog_bind_run _ _ e tt _ eq_refl).
  run_bind (getscn_run (set_phdrs (<[stack_position := spliced_load hole flags align next]> (phdrs e)) e) _ _ Hse).
  run_bind (checkS_run (set_phdrs (<[stack_position := spliced_load hole flags align next]> (phdrs e)) e) _ (Z.eqb_refl 0)).
  run_bind (checkS_run (set_phdrs (<[stack_position := spliced_load hole flags align next]> (phdrs e)) e) _ (Z.eqb_refl fsz)).
  rewrite Eaddr. replace (sh_offset (shdr se) - (next - hole)) with (segment_end - next) by lia.
  rewrite (uwrap_small addr_bits (segment_end - next)) by (unfold is_u in *; lia).
  by rewrite <- Eps.
Qed.

Lemma Coalesce_run e ps ps1 :
  library ps → packed ps ps1 → phdrs e = ps1 → stack_alignment e = stack_align → section_order 0 (sections e) →
  (∃ s, sections e !! l = Some s ∧ sh_offset (shdr s) + sh_size (shdr s) = fsz) →
  CoalesceProgramHeadersForHole start hole e = Ok (tt, set_phdrs (sort_headers (joined ps1)) e).
Proof.
  intros Hl Hp Eps Ea Ho (sl & Hsl & El). pose proof (so_length _ _ Ho) as Hlen.
  pose proof (lt_positions _ _ _ _ _ _ _ _ _ _ _ Hl) as EP. pose proof (pt_holds _ _ _ _ _ _ _ _ _ _ Hp) as Hh.
  assert (∃ others, orderable_positions ps = first_position :: second :: others) as [others EP2].
  { rewrite EP. unfold second_position. destruct positions; by eexists. }
  rewrite EP2 in Hh. apply holds_cons in Hh as [Hf Hh]. apply holds_cons in Hh as [Hs _].
  unfold CoalesceProgramHeadersForHole. run_bind (checkS_run e (0 <? hole) ltac:(lia)).
  assert (FindFirstLoadSegment e = Ok (first_position, e)) as E1.
  { unfold FindFirstLoadSegment, getS, mbind, prog_bind. rewrite Eps. by eapply found_or_fatal_run, find_first_packed. }
  assert (getphdr first_position e = Ok (spliced_load hole flags align next, e)) as E2 by (apply getphdr_run; by rewrite Eps).
  assert (FindOriginalFirstLoadSegment e = Ok (second, e)) as E3.
  { unfold FindOriginalFirstLoadSegment. run_bind E1. run_bind E2. rewrite (prog_bind_run getS _ e e e eq_refl). rewrite Eps.
    by eapply found_or_fatal_run, find_original. }
  assert (getphdr second e = Ok (split_load hole flags align next addr segment_end, e)) as E4 by (apply getphdr_run; by rewrite Eps).
  assert (uwrap addr_bits (next - hole + (segment_end - next)) = segment_end - hole) as Efs.
  { unfold is_u in *. rewrite uwrap_small; [lia|unfold is_u; lia]. }
  assert (FindLastSectionInSegment (split_load hole flags align next addr segment_end) start hole e = Ok (l, e)) as E5.
  { unfold FindLastSectionInSegment. cbn [p_offset p_filesz split_load]. rewrite Efs.
    apply (found_or_fatal_run e), (find_last_section 0); [done|lia..]. }
  run_bind E1. run_bind E3. run_bind E4. run_bind E5. run_bind (getscn_run e _ _ Hsl). run_bind E2.
  run_bind (checkS_run e _ (Z.eqb_refl addr)). run_bind (checkS_run e _ (Z.eqb_refl (segment_end - next))).
  cbn [p_type p_offset p_vaddr p_paddr p_flags p_align split_load spliced_load]. rewrite El.
  rewrite (uwrap_small addr_bits fsz) by (unfold is_u in *; lia).
  unfold putphdr at 1. rewrite (prog_bind_run _ _ e tt _ eq_refl).
  run_bind (Deduce_run (set_phdrs (<[second := first_load fsz flags align]> (phdrs e)) e)).
  assert (stack_alignment (set_phdrs (<[second := first_load fsz flags align]> (phdrs e)) e) = stack_align) as -> by exact Ea.
  by rewrite <- Eps.
Qed.

End Headers.
End ElfHeaders.
