(* ===== verification/ElfImage.v ===== *)
(** Files that differ from a library in where their sections lie and in what three of them
    hold (see [ElfFile]), and what resizing a section does to one. *)

From stdpp Require Import strings.
From S2P Require Import Prelude RelocationPacker RelocationSpec ElfFile ElfLayout ElfSegments ElfHeaders.
Local Open Scope Z_scope.

Module ElfImage.
Import RelocationPacker RelocationSpec ElfFile ElfLayout ElfSegments ElfHeaders.

Lemma alter_imap {A B} (f : B → B) i (g g' : nat → A → B) l :
  (∀ x, l !! i = Some x → f (g i x) = g' i x) → (∀ j x, j ≠ i → g j x = g' j x) → alter f i (imap g l) = imap g' l.
Proof.
  intros Hf Hg. apply list_eq. intros j. destruct (decide (j = i)) as [->|Hne].
  - rewrite list_lookup_alter_eq, !list_lookup_imap. destruct (l !! i) as [x|] eqn:E; cbn; [|done]. by rewrite Hf.
  - rewrite list_lookup_alter_ne, !list_lookup_imap by done. destruct (l !! j); cbn; [|done]. by rewrite Hg.
Qed.

Section Image.
Context `{TL : TargetLaws} `{ET : !ElfTarget} `{BD : Build}.
(** The sections of the library: its relocations, packed relocations and dynamic section. *)
Context (secs : list Elf_Scn) (r a d : nat) (Hra : r ≠ a) (Hrd : r ≠ d) (Had : a ≠ d).

(** Where sections lie, the size and data of two of them, the data of the third, and the headers. *)
Record content := mk_content {
  c_off : Z → Z; c_rel : Z * Elf_Data; c_and : Z * Elf_Data; c_dyn : Elf_Data; c_ehdr : Ehdr; c_phdrs : list Phdr
}.
Definition with_off v c := mk_content v (c_rel c) (c_and c) (c_dyn c) (c_ehdr c) (c_phdrs c).
Definition with_rel v c := mk_content (c_off c) v (c_and c) (c_dyn c) (c_ehdr c) (c_phdrs c).
Definition with_and v c := mk_content (c_off c) (c_rel c) v (c_dyn c) (c_ehdr c) (c_phdrs c).
Definition with_dyn v c := mk_content (c_off c) (c_rel c) (c_and c) v (c_ehdr c) (c_phdrs c).
Definition with_ehdr v c := mk_content (c_off c) (c_rel c) (c_and c) (c_dyn c) v (c_phdrs c).
Definition with_phdrs v c := mk_content (c_off c) (c_rel c) (c_and c) (c_dyn c) (c_ehdr c) v.
Definition sec (c : content) (i : nat) (s : Elf_Scn) : Elf_Scn :=
  let h := with_offset (c_off c (sh_offset (shdr s))) (shdr s) in
  if decide (i = r) then mk_scn (with_size (c_rel c).1 h) [(c_rel c).2]
  else if decide (i = a) then mk_scn (with_size (c_and c).1 h) [(c_and c).2]
  else if decide (i = d) then mk_scn h [c_dyn c] else mk_scn h (data s).
Definition image (c : content) : Elf := mk_elf (c_ehdr c) (c_phdrs c) (imap (sec c) secs).

Lemma image_at c i s : secs !! i = Some s → sections (image c) !! i = Some (sec c i s).
Proof. intros E. cbn. by rewrite list_lookup_imap, E. Qed.
Lemma image_inv c i s : sections (image c) !! i = Some s → ∃ s0, secs !! i = Some s0 ∧ s = sec c i s0.
Proof. cbn. rewrite list_lookup_imap. destruct (secs !! i); [|done]. cbn. intros E. injection E as <-. by eexists. Qed.
Lemma sec_offset c i s : sh_offset (shdr (sec c i s)) = c_off c (sh_offset (shdr s)).
Proof. unfold sec. by repeat case_decide. Qed.
Lemma sec_name c i s : sh_name (shdr (sec c i s)) = sh_name (shdr s).
Proof. unfold sec. by repeat case_decide. Qed.
Lemma sec_addr c i s : sh_addr (shdr (sec c i s)) = sh_addr (shdr s).
Proof. unfold sec. by repeat case_decide. Qed.
Lemma sec_type c i s : sh_type (shdr (sec c i s)) = sh_type (shdr s).
Proof. unfold sec. by repeat case_decide. Qed.
Lemma sec_size c i s : i ≠ r → i ≠ a → sh_size (shdr (sec c i s)) = sh_size (shdr s).
Proof. intros H1 H2. unfold sec. by rewrite !decide_False by done; case_decide. Qed.
Lemma sec_rel c s : sec c r s = mk_scn (with_size (c_rel c).1 (with_offset (c_off c (sh_offset (shdr s))) (shdr s))) [(c_rel c).2].
Proof. unfold sec. by rewrite decide_True. Qed.
Lemma sec_and c s : sec c a s = mk_scn (with_size (c_and c).1 (with_offset (c_off c (sh_offset (shdr s))) (shdr s))) [(c_and c).2].
Proof. unfold sec. rewrite decide_False by congruence. by rewrite decide_True. Qed.
Lemma sec_dyn c s : sec c d s = mk_scn (with_offset (c_off c (sh_offset (shdr s))) (shdr s)) [c_dyn c].
Proof. unfold sec. rewrite !decide_False by congruence. by rewrite decide_True. Qed.
(** Equal places give equal files. *)
Lemma image_ext c o : (∀ i s, secs !! i = Some s → c_off c (sh_offset (shdr s)) = o (sh_offset (shdr s))) → image c = image (with_off o c).
Proof.
  intros Ho. unfold image. f_equal. apply list_eq. intros i. rewrite !list_lookup_imap.
  destruct (secs !! i) as [s|] eqn:E; cbn; [|done]. unfold sec. cbn. by rewrite (Ho i s E).
Qed.

(** ** Data *)

Context (sr sa sd : Elf_Scn) (Hsr : secs !! r = Some sr) (Hsa : secs !! a = Some sa) (Hsd : secs !! d = Some sd).
(** A section's only data, all of [bytes]. *)
Definition whole (bytes : list Z) (align : Z) : Elf_Data := mk_data (Some bytes) 0 (Z.of_nat (length bytes)) align.

Lemma data_rel c : GetSectionData r (image c) = Ok ((c_rel c).2, image c).
Proof. unfold GetSectionData. run_bind (getscn_run _ _ _ (image_at c r sr Hsr)). by rewrite sec_rel. Qed.
Lemma data_and c : GetSectionData a (image c) = Ok ((c_and c).2, image c).
Proof. unfold GetSectionData. run_bind (getscn_run _ _ _ (image_at c a sa Hsa)). by rewrite sec_and. Qed.
Lemma data_dyn c : GetSectionData d (image c) = Ok (c_dyn c, image c).
Proof. unfold GetSectionData. run_bind (getscn_run _ _ _ (image_at c d sd Hsd)). by rewrite sec_dyn. Qed.
Definition rewritten (bytes : list Z) (x : Elf_Data) : Elf_Data := mk_data (Some bytes) (d_off x) (d_size x) (d_align x).
Lemma update_image c c' i f :
  c_ehdr c = c_ehdr c' → c_phdrs c = c_phdrs c' → (∀ s, secs !! i = Some s → f (sec c i s) = sec c' i s) → (∀ j s, j ≠ i → sec c j s = sec c' j s) →
  update_section i f (image c) = Ok (tt, image c').
Proof.
  intros E1 E2 Hf Hn. unfold update_section, modS. do 2 f_equal. unfold set_sections, image. cbn. rewrite E1, E2. f_equal.
  by apply alter_imap.
Qed.
Lemma sec_with_rel v c j s : j ≠ r → sec c j s = sec (with_rel v c) j s.
Proof. intros Hj. unfold sec. by rewrite !(decide_False (P := j = r)). Qed.
Lemma sec_with_and v c j s : j ≠ a → sec c j s = sec (with_and v c) j s.
Proof. intros Hj. unfold sec. case_decide; [done|]. by rewrite !(decide_False (P := j = a)). Qed.
Lemma sec_with_dyn v c j s : j ≠ d → sec c j s = sec (with_dyn v c) j s.
Proof. intros Hj. unfold sec. do 2 (case_decide; [done|]). by rewrite !(decide_False (P := j = d)). Qed.
Lemma rewrite_rel c bytes : Z.of_nat (length bytes) = d_size (c_rel c).2 →
  RewriteSectionData r bytes (image c) = Ok (tt, image (with_rel ((c_rel c).1, rewritten bytes (c_rel c).2) c)).
Proof.
  intros El. unfold RewriteSectionData. run_bind (data_rel c). run_bind (checkS_run (image c) (Z.of_nat (length bytes) =? d_size (c_rel c).2) ltac:(by apply Z.eqb_eq)).
  apply update_image; [done..| |by apply sec_with_rel]. intros s _. by rewrite !sec_rel.
Qed.
Lemma rewrite_and c bytes : Z.of_nat (length bytes) = d_size (c_and c).2 →
  RewriteSectionData a bytes (image c) = Ok (tt, image (with_and ((c_and c).1, rewritten bytes (c_and c).2) c)).
Proof.
  intros El. unfold RewriteSectionData. run_bind (data_and c). run_bind (checkS_run (image c) (Z.of_nat (length bytes) =? d_size (c_and c).2) ltac:(by apply Z.eqb_eq)).
  apply update_image; [done..| |by apply sec_with_and]. intros s _. by rewrite !sec_and.
Qed.
Lemma rewrite_dyn c bytes : Z.of_nat (length bytes) = d_size (c_dyn c) →
  RewriteSectionData d bytes (image c) = Ok (tt, image (with_dyn (rewritten bytes (c_dyn c)) c)).
Proof.
  intros El. unfold RewriteSectionData. run_bind (data_dyn c). run_bind (checkS_run (image c) (Z.of_nat (length bytes) =? d_size (c_dyn c)) ltac:(by apply Z.eqb_eq)).
  apply update_image; [done..| |by apply sec_with_dyn]. intros s _. by rewrite !sec_dyn.
Qed.

(** ** Resizing *)

Definition move_ehdr (hole_start hole_size : Z) (h : Ehdr) : Ehdr :=
  mk_ehdr (e_machine h) (e_type h) (beyond hole_start hole_size (e_phoff h)) (beyond hole_start hole_size (e_shoff h)) (ei_class h) (ei_data h).
Definition moved (hole_start hole_size : Z) (c : content) : content :=
  with_off (λ o, beyond hole_start hole_size (c_off c o)) (with_ehdr (move_ehdr hole_start hole_size (c_ehdr c)) c).
Lemma move_run hole_start hole_size c :
  (_ ← AdjustElfHeaderForHole hole_start hole_size; AdjustSectionHeadersForHole hole_start hole_size) (image c) =
    Ok (tt, image (moved hole_start hole_size c)).
Proof.
  unfold AdjustElfHeaderForHole, AdjustSectionHeadersForHole, modS, mbind, prog_bind. do 2 f_equal. unfold image, moved, set_sections, set_ehdr. cbn. f_equal.
  apply list_eq. intros i. rewrite list_lookup_fmap, !list_lookup_imap. destruct (secs !! i); cbn; [|done]. unfold sec. cbn. by repeat case_decide.
Qed.
Lemma checks_run c al bytes : (0 < length bytes)%nat → 
  (_ ← checkS ((d_off (whole bytes al) =? 0) && (d_size (whole bytes al) =? Z.of_nat (length bytes)));
   checkS (negb (d_size (whole bytes al) =? 0) && bool_decide (is_Some (d_buf (whole bytes al))))) (image c) = Ok (tt, image c).
Proof.
  intros Hl. cbn. run_bind (checkS_run (image c) (Z.of_nat (length bytes) =? Z.of_nat (length bytes)) (Z.eqb_refl _)). apply checkS_run.
  rewrite (proj2 (Z.eqb_neq _ 0)) by lia. done.
Qed.

(** The packed relocations are resized and replaced. *)
Lemma replace_and {R} `{RL : !Relocation R} c old new al :
  is_relocations_name (sh_name (shdr sa)) = false → c_and c = (Z.of_nat (length old), whole old al) →
  (0 < length old)%nat → length old ≠ length new → Z.of_nat (length new) < 2 ^ 32 →
  replace_section (R := R) a new (image c) =
    Ok (tt, image (moved (c_off c (sh_offset (shdr sa))) (Z.of_nat (length new) - Z.of_nat (length old))
      (with_and (Z.of_nat (length new), whole new al) c))).
Proof.
  intros Hn Ec Hl Hne Hb. unfold replace_section, ResizeSection. set (h := Z.of_nat (length new) - Z.of_nat (length old)).
  pose proof (image_at c a sa Hsa) as Eat. 
  assert (Z.of_nat (length new) < 2 ^ addr_bits ∧ Z.of_nat (length new) < 2 ^ 64) as [Hb1 Hb2].
  { destruct addr_bits_ok as [E|E]; rewrite E; lia. }
  match goal with |- (?m ≫= ?k) _ = _ => assert (m (image c) = Ok (tt, image (moved (c_off c (sh_offset (shdr sa))) h
      (with_and (Z.of_nat (length new), mk_data (Some old) 0 (Z.of_nat (length new)) al) c)))) as E1 end.
  { run_bind (getscn_run _ _ _ Eat). rewrite sec_and, Ec. cbn [shdr with_size sh_size fst snd sh_name with_offset].
    rewrite (proj2 (Z.eqb_neq _ _)) by lia. run_bind (data_and c). rewrite Ec. cbn [fst snd].
    pose proof (checks_run c al old Hl) as Ek. apply prog_bind_Ok in Ek as ([] & e1 & Ek1 & Ek2). run_bind Ek1.
    assert (e1 = image c) as -> by (unfold checkS, liftO in Ek1; destruct (check _); by simplify_eq). run_bind Ek2.
    cbn [d_size whole d_buf d_off d_align sh_offset]. fold h.
    match goal with |- (update_section a ?f ≫= _) _ = _ => assert (update_section a f (image c) = Ok (tt, image
      (with_and (Z.of_nat (length new), mk_data (Some old) 0 (Z.of_nat (length new)) al) c))) as Eu end.
    { apply update_image; [done..| |by apply sec_with_and]. intros s _. rewrite !sec_and, Ec. cbn [shdr with_size sh_size fst snd].
      replace (Z.of_nat (length old) + h) with (Z.of_nat (length new)) by lia. rewrite !uwrap_small by (unfold is_u; lia). done. }
    run_bind Eu. rewrite Hn. pose proof (move_run (c_off c (sh_offset (shdr sa))) h
      (with_and (Z.of_nat (length new), mk_data (Some old) 0 (Z.of_nat (length new)) al) c)) as Em.
    apply prog_bind_Ok in Em as ([] & e2 & Em1 & Em2). run_bind Em1. by run_bind Em2. }
  run_bind E1. rewrite rewrite_and by done. done.
Qed.

(** The relocations are resized and replaced, and with them the program headers and what
    the dynamic section says of them. *)
Lemma resize_rel c old n al k :
  is_relocations_name (sh_name (shdr sr)) = true → c_rel c = (Z.of_nat (length old), whole old al) →
  (0 < length old)%nat → length old ≠ n → k = Z.of_nat n - Z.of_nat (length old) → Z.of_nat n < 2 ^ addr_bits →
  ∀ sizeof_rel,
  ResizeSection sizeof_rel r (Z.of_nat n) (image c) =
    (_ ← RewriteProgramHeadersForHole (c_off c (sh_offset (shdr sr))) k;
     dynamic_section ← GetDynamicSection;
     AdjustDynamicSectionForHole sizeof_rel dynamic_section k)
      (image (moved (c_off c (sh_offset (shdr sr))) k (with_rel (Z.of_nat n, mk_data (Some old) 0 (Z.of_nat n) al) c))).
Proof.
  intros Hn Ec Hl Hne -> Hb1 sz. unfold ResizeSection. set (h := Z.of_nat n - Z.of_nat (length old)).
  pose proof (image_at c r sr Hsr) as Eat.
  assert (Z.of_nat n < 2 ^ 64) as Hb2 by (destruct addr_bits_ok as [E|E]; rewrite E in Hb1; lia).
  run_bind (getscn_run _ _ _ Eat). rewrite sec_rel, Ec. cbn [shdr with_size sh_size fst snd sh_name with_offset].
  rewrite (proj2 (Z.eqb_neq _ _)) by lia. run_bind (data_rel c). rewrite Ec. cbn [fst snd].
  pose proof (checks_run c al old Hl) as Ek. apply prog_bind_Ok in Ek as ([] & e1 & Ek1 & Ek2). run_bind Ek1.
  assert (e1 = image c) as -> by (unfold checkS, liftO in Ek1; destruct (check _); by simplify_eq). run_bind Ek2.
  cbn [d_size whole d_buf d_off d_align sh_offset]. fold h.
  match goal with |- (update_section r ?f ≫= _) _ = _ => assert (update_section r f (image c) = Ok (tt, image
    (with_rel (Z.of_nat n, mk_data (Some old) 0 (Z.of_nat n) al) c))) as Eu end.
  { apply update_image; [done..| |by apply sec_with_rel]. intros s _. rewrite !sec_rel, Ec. cbn [shdr with_size sh_size fst snd].
    replace (Z.of_nat (length old) + h) with (Z.of_nat n) by lia. rewrite !uwrap_small by (unfold is_u; lia). done. }
  run_bind Eu. rewrite Hn. pose proof (move_run (c_off c (sh_offset (shdr sr))) h
    (with_rel (Z.of_nat n, mk_data (Some old) 0 (Z.of_nat n) al) c)) as Em.
  apply prog_bind_Ok in Em as ([] & e2 & Em1 & Em2). run_bind Em1. by run_bind Em2.
Qed.

End Image.
End ElfImage.
