(* ===== verification/ElfLibrary.v ===== *)
(** Shared libraries whose relocations can be packed (see [ElfFile]): what is asked of the
    file, where everything lies before a hole is closed, while it is closed and after it was
    opened again, and that such files load. *)

From stdpp Require Import strings.
From S2P Require Import Prelude RelocationPacker RelocationSpec ElfFile ElfLayout ElfDynamic ElfSegments ElfHeaders ElfImage.
Local Open Scope Z_scope.

Module ElfLibrary.
Import RelocationPacker RelocationSpec ElfFile ElfLayout ElfDynamic ElfSegments ElfHeaders ElfImage.

(** A library, its relocations apart: the header, the sections, the positions among them of the
    relocations, the packed relocations, the dynamic section and the last section of the
    first segment, the alignment of the data of the first three, the entries in use in the dynamic section
    and the number of spare ones, less three; and of its program headers the positions and
    what [ElfSegments] says of them. *)
Record Library := mk_library {
  l_ehdr : Ehdr; l_phdrs : list Phdr; l_sections : list Elf_Scn;
  l_relocations : nat; l_packed : nat; l_dynamic : nat; l_last : nat;
  l_rel_align : Z; l_packed_align : Z; l_dynamic_align : Z;
  l_live : list Dyn; l_spare : nat;
  l_first : nat; l_stack : nat; l_others : list nat; l_loads : list Phdr;
  l_fsz : Z; l_flags : Z; l_align : Z; l_stack_align : Z; l_next : Z; l_addr : Z; l_end : Z;
}.
Definition section_offset (L : Library) (i : nat) : Z := default 0 ((λ s, sh_offset (shdr s)) <$> l_sections L !! i).
Definition l_start (L : Library) : Z := section_offset L (l_relocations L).
Definition stub : list Z := bytes_of_word 4 kStubIdentifier.

Section Library.
Context `{TL : TargetLaws} `{ET : !ElfTarget} `{BD : Build}.
Implicit Types L : Library.

(** The file with the relocations [bytes]. *)
Definition library_content L (bytes : list Z) : content :=
  mk_content (λ o, o) (Z.of_nat (length bytes), whole bytes (l_rel_align L)) (Z.of_nat (length stub), whole stub (l_packed_align L))
    (whole (encode (table (l_live L) (3 + l_spare L))) (l_dynamic_align L)) (l_ehdr L) (l_phdrs L).
Definition library_image L (c : content) : Elf := image (l_sections L) (l_relocations L) (l_packed L) (l_dynamic L) c.
Definition library_file L (bytes : list Z) : Elf := library_image L (library_content L bytes).

Definition names_of (names : list string) (s : Elf_Scn) : bool := existsb (λ name, bool_decide (sh_name (shdr s) = name)) names.
Definition rel_names : list string := [".rel.dyn"; ".rela.dyn"]%string.
Definition packed_names : list string := [".android.rel.dyn"; ".android.rela.dyn"]%string.

(** What is asked of a library with [size] bytes of relocations, each of [sz] bytes. *)
Record library_ok L (kind : RelocationsType) (sz size : Z) : Prop := {
  (* the header *)
  ok_machine : e_machine (l_ehdr L) = kMachine;
  ok_type : e_type (l_ehdr L) = ET_DYN;
  ok_data : ei_data (l_ehdr L) = ELFDATA2LSB;
  ok_class : ei_class (l_ehdr L) = kFileClass;
  ok_phoff : outside (l_start L) size (e_phoff (l_ehdr L));
  ok_shoff : outside (l_start L) size (e_shoff (l_ehdr L));
  (* the segments *)
  ok_size : 0 < size < 2 ^ addr_bits;
  ok_start : 0 ≤ l_start L;
  ok_next : l_start L + size ≤ l_next L < l_fsz L;
  ok_end : l_fsz L ≤ l_end L ∧ is_u addr_bits (l_end L);
  ok_table : library_table (l_start L) size (l_first L) (l_stack L) (l_others L) (l_loads L) (l_fsz L) (l_flags L) (l_align L)
    (l_stack_align L) (l_phdrs L);
  ok_stack : stack_alignment (mk_elf (l_ehdr L) (l_phdrs L) (l_sections L)) = l_stack_align L;
  (* the sections *)
  ok_last : (0 < l_relocations L < l_last L)%nat ∧ (l_last L < l_packed L)%nat;
  ok_order : section_order (l_start L) size (l_fsz L) (l_end L) (l_relocations L) (l_last L) 0 (l_sections L);
  ok_around : around (l_next L) (l_addr L) (l_end L) (l_relocations L) (l_last L) 0 (l_sections L);
  ok_last_end : ∃ s, l_sections L !! l_last L = Some s ∧ sh_offset (shdr s) + sh_size (shdr s) = l_fsz L;
  ok_relocations : ∃ s, l_sections L !! l_relocations L = Some s ∧ names_of rel_names s = true;
  ok_relocations_last i s : l_sections L !! i = Some s → (l_relocations L < i)%nat → names_of rel_names s = false;
  ok_packed : ∃ s, l_sections L !! l_packed L = Some s ∧ names_of packed_names s = true;
  ok_packed_last i s : l_sections L !! i = Some s → (l_packed L < i)%nat → names_of packed_names s = false;
  ok_kind : existsb (λ s, sh_type (shdr s) =? SHT_REL) (l_sections L) = match kind with REL => true | _ => false end ∧
    existsb (λ s, sh_type (shdr s) =? SHT_RELA) (l_sections L) = match kind with RELA => true | _ => false end ∧ kind ≠ NONE;
  ok_alignment : Forall (λ s, preserves_alignment s = true) (l_sections L);
  ok_alignments : l_rel_align L ≤ kPreserveAlignment ∧ l_packed_align L ≤ kPreserveAlignment ∧ l_dynamic_align L ≤ kPreserveAlignment;
  (* the dynamic section *)
  ok_dynamic : ∃ s p, l_sections L !! l_dynamic L = Some s ∧ List.filter (λ p, p_type p =? PT_DYNAMIC) (l_phdrs L) = [p] ∧
    p_offset p = sh_offset (shdr s) ∧ sh_offset (shdr s) ≤ section_offset L (l_packed L);
  ok_dynamic_last i s : l_sections L !! i = Some s → (l_dynamic L < i)%nat → sh_offset (shdr s) ≠ section_offset L (l_dynamic L);
  ok_dynamic_other : l_dynamic L ≠ l_relocations L ∧ l_dynamic L ≠ l_packed L;
  ok_live : Forall in_use (l_live L) ∧ Forall fits (l_live L) ∧ Forall (entry_ok sz) (l_live L);
}.

(** ** Where things lie *)

Section Places.
Context L (kind : RelocationsType) (sz size hole grow : Z) (ok : library_ok L kind sz size) (Hhole : 0 < hole < size) (Hgrow : 0 ≤ grow).
Abbreviation start := (l_start L).
Abbreviation packed_at := (section_offset L (l_packed L)).
(** There is room for packed relocations that are [grow] bytes larger than the stub. *)
Record room : Prop := {
  room_sections i s : l_sections L !! i = Some s → sh_offset (shdr s) + grow < 2 ^ addr_bits;
  room_headers : e_phoff (l_ehdr L) + grow < 2 ^ addr_bits ∧ e_shoff (l_ehdr L) + grow < 2 ^ addr_bits;
}.
Context (Hroom : room).

(** With the hole closed; and then with the packed relocations in place; and with the hole
    open again. *)
Definition off1 : Z → Z := closed start hole.
Definition off2 (o : Z) : Z := beyond (off1 packed_at) grow (off1 o).
Definition off3 (o : Z) : Z := beyond packed_at grow o.
Definition place (f : Z → Z) (h : Ehdr) : Ehdr :=
  mk_ehdr (e_machine h) (e_type h) (f (e_phoff h)) (f (e_shoff h)) (ei_class h) (ei_data h).
(** Offsets of sections and tables. *)
Definition placed (o : Z) : Prop := outside start size o ∧ o + grow < 2 ^ addr_bits.

Lemma offset_at i s : l_sections L !! i = Some s → section_offset L i = sh_offset (shdr s).
Proof. intros E. unfold section_offset. by rewrite E. Qed.
Lemma section_placed i s : l_sections L !! i = Some s → placed (sh_offset (shdr s)).
Proof.
  intros E. pose proof (ok_order _ _ _ _ ok) as Ho. split; [|by eapply room_sections].
  pose proof (ok_start _ _ _ _ ok). pose proof (ok_size _ _ _ _ ok).
  destruct (decide (i < l_relocations L)%nat) as [Hi|Hi].
  { pose proof (so_before _ _ _ _ _ _ _ _ Ho i s E Hi). pose proof (room_sections Hroom i s E). split; [unfold is_u; lia|lia]. }
  destruct (decide (i = l_relocations L)) as [->|Hne].
  { rewrite (so_at _ _ _ _ _ _ _ _ Ho s E). pose proof (room_sections Hroom _ s E). rewrite (so_at _ _ _ _ _ _ _ _ Ho s E) in *.
    split; [unfold is_u; lia|lia]. }
  destruct (so_behind _ _ _ _ _ _ _ _ Ho i s E ltac:(lia)) as [Hb Hu]. rewrite Z.add_0_r in *. split; [done|lia].
Qed.
Lemma packed_section : ∃ s, l_sections L !! l_packed L = Some s ∧ sh_offset (shdr s) = packed_at.
Proof. destruct (ok_packed _ _ _ _ ok) as (s & E & _). exists s. split; [done|]. by rewrite (offset_at _ _ E). Qed.
Lemma packed_behind : placed packed_at ∧ start + size ≤ packed_at ∧ l_end L ≤ packed_at.
Proof.
  destruct packed_section as (s & E & <-). destruct (ok_last _ _ _ _ ok) as [? ?]. split; [by eapply section_placed|].
  pose proof (ok_order _ _ _ _ ok) as Ho. destruct (so_behind _ _ _ _ _ _ _ _ Ho _ s E ltac:(lia)).
  pose proof (so_outside _ _ _ _ _ _ _ _ Ho _ s E ltac:(lia)). lia.
Qed.
Lemma off1_mono o o' : placed o → placed o' → o < o' → off1 o < off1 o'.
Proof.
  intros [[_ Ho] _] [[_ Ho'] _] Hl. unfold off1, closed.
  destruct (Z.ltb_spec start o), (Z.ltb_spec start o'); lia.
Qed.
Lemma off1_ltb o o' : placed o → placed o' → (off1 o <? off1 o') = (o <? o').
Proof.
  intros Ho Ho'. destruct (Z.ltb_spec o o') as [Hl|Hl].
  - apply Z.ltb_lt. by apply off1_mono.
  - apply Z.ltb_ge. destruct (decide (o = o')) as [->|Hne]; [done|]. pose proof (off1_mono o' o Ho' Ho). lia.
Qed.
Lemma off1_range o : placed o → 0 ≤ off1 o ≤ o.
Proof.
  intros [[Hu Ho] _]. pose proof (ok_start _ _ _ _ ok). unfold off1, closed, is_u in *. destruct (Z.ltb_spec start o); lia.
Qed.
Lemma off2_eq o : placed o → off2 o = if packed_at <? o then off1 o + grow else off1 o.
Proof.
  intros Ho. unfold off2, beyond. rewrite off1_ltb by (done || apply packed_behind). destruct (_ <? _); [|done].
  pose proof (off1_range o Ho). destruct Ho as [_ Hg]. rewrite uwrap_small; [done|]. unfold is_u. lia.
Qed.
Lemma off3_eq o : placed o → off3 o = if packed_at <? o then o + grow else o.
Proof.
  intros [[Hu _] Hg]. unfold off3, beyond, is_u in *. destruct (_ <? _); [|done]. rewrite uwrap_small; [done|]. unfold is_u. lia.
Qed.
(** Opening the hole after the packed relocations were put in place. *)
Lemma off2_open o : placed o → beyond start hole (off2 o) = off3 o.
Proof.
  intros Ho. rewrite off2_eq, off3_eq by done. destruct packed_behind as (_ & Hp & _). pose proof Ho as [[Hu Hs] Hg].
  destruct (Z.ltb_spec packed_at o) as [Hl|Hl].
  - unfold off1, closed, beyond, is_u in *. rewrite (proj2 (Z.ltb_lt start o)) by lia. rewrite (proj2 (Z.ltb_lt _ _)) by lia.
    rewrite uwrap_small; [lia|]. unfold is_u. lia.
  - by apply (beyond_open start size hole).
Qed.
(** Taking the packed relocations out again. *)
Lemma off3_close o : placed o → beyond packed_at (- grow) (off3 o) = o.
Proof.
  intros Ho. rewrite off3_eq by done. destruct Ho as [[Hu _] _]. unfold beyond, is_u in *. destruct (Z.ltb_spec packed_at o) as [Hl|Hl].
  - rewrite (proj2 (Z.ltb_lt _ _)) by lia. rewrite uwrap_small; [lia|]. unfold is_u. lia.
  - by rewrite (proj2 (Z.ltb_ge _ _)) by lia.
Qed.
Lemma off2_packed : off2 packed_at = off1 packed_at.
Proof. destruct packed_behind as [Hp _]. by rewrite off2_eq, Z.ltb_irrefl. Qed.
Lemma off3_packed : off3 packed_at = packed_at.
Proof. destruct packed_behind as [Hp _]. by rewrite off3_eq, Z.ltb_irrefl. Qed.
Lemma header_placed : placed (e_phoff (l_ehdr L)) ∧ placed (e_shoff (l_ehdr L)).
Proof. destruct (room_headers Hroom). split; (split; [|done]); [apply (ok_phoff _ _ _ _ ok)|apply (ok_shoff _ _ _ _ ok)]. Qed.
Lemma place_place f g h : move_ehdr f g h = place (beyond f g) h.
Proof. done. Qed.
End Places.

(** ** Loading *)

Lemma find_last_filter {A} (f : A → bool) l x : List.filter f l = [x] → ∃ i, find_last f l = Some i ∧ l !! i = Some x.
Proof.
  assert (∀ l, List.filter f l = [] → ∀ j y, l !! j = Some y → f y = false) as Hnone.
  { intros l' Hf j y E. apply not_true_is_false. intros Hy. assert (In y (List.filter f l')) as Hin.
    { apply filter_In. split; [|done]. by eapply list_elem_of_In, list_elem_of_lookup_2. }
    by rewrite Hf in Hin. }
  intros Hf. assert (∃ i, l !! i = Some x ∧ f x = true ∧ ∀ j y, (i < j)%nat → l !! j = Some y → f y = false) as (i & Hi & Hx & Ha).
  { induction l as [|y l IH]; [done|]. cbn in Hf. destruct (f y) eqn:Ey.
    - injection Hf as -> Hf. exists O. split; [done|]. split; [done|]. intros [|j] z Hj Hz; [lia|]. by apply (Hnone l Hf j).
    - destruct (IH Hf) as (i & Hi & Hx & Ha). exists (S i). split; [done|]. split; [done|].
      intros [|j] z Hj Hz; [lia|]. apply (Ha j z); [lia|done]. }
  exists i. split; [|done]. by apply (find_last_spec f l i x).
Qed.
Lemma is_section_names names s : is_section names s = names_of names s && (0 <? sh_size (shdr s)).
Proof. done. Qed.

Section Loads.
Context L (kind : RelocationsType) (sz size : Z) (ok : library_ok L kind sz size).
Abbreviation sec := (sec (l_relocations L) (l_packed L) (l_dynamic L)).
(** What of the contents matters to loading a file. *)
Record loadable (c : content) : Prop := {
  ld_header : ∃ f, c_ehdr c = place f (l_ehdr L);
  ld_rel : 0 < (c_rel c).1 ∧ d_align (c_rel c).2 = l_rel_align L;
  ld_packed : 0 < (c_and c).1 ∧ d_align (c_and c).2 = l_packed_align L;
  ld_dyn : d_align (c_dyn c) = l_dynamic_align L;
  ld_header_at : ∃ p, List.filter (λ p, p_type p =? PT_DYNAMIC) (c_phdrs c) = [p] ∧
    p_offset p = c_off c (section_offset L (l_dynamic L));
  ld_apart i s : l_sections L !! i = Some s → (l_dynamic L < i)%nat →
    c_off c (sh_offset (shdr s)) ≠ c_off c (section_offset L (l_dynamic L));
}.
Context (c : content) (Hc : loadable c).

Lemma sections_apart : l_relocations L ≠ l_packed L ∧ l_relocations L ≠ l_dynamic L ∧ l_packed L ≠ l_dynamic L.
Proof. pose proof (ok_last _ _ _ _ ok). destruct (ok_dynamic_other _ _ _ _ ok) as (? & ?). split_and!; lia. Qed.
Lemma find_in_image (f : Elf_Scn → bool) i s :
  l_sections L !! i = Some s → f (sec c i s) = true →
  (∀ j s, l_sections L !! j = Some s → (i < j)%nat → f (sec c j s) = false) → find_last f (sections (library_image L c)) = Some i.
Proof.
  intros E Hs Ha. apply (find_last_spec _ _ _ (sec c i s)); [by apply image_at|done|]. intros j s' Hj E'.
  apply image_inv in E' as (s0 & E0 & ->). by apply Ha.
Qed.
Lemma names_sec names i s : names_of names (sec c i s) = names_of names s.
Proof. unfold names_of. by rewrite sec_name. Qed.
Lemma find_relocations : find_last (is_section rel_names) (sections (library_image L c)) = Some (l_relocations L).
Proof.
  destruct (ok_relocations _ _ _ _ ok) as (s & E & Hs). apply (find_in_image _ _ s E).
  - rewrite is_section_names, names_sec, Hs. rewrite sec_rel. cbn. destruct (ld_rel c Hc). by apply Z.ltb_lt.
  - intros j s' E' Hj. by rewrite is_section_names, names_sec, (ok_relocations_last _ _ _ _ ok j s' E' Hj).
Qed.
Lemma find_packed : find_last (is_section packed_names) (sections (library_image L c)) = Some (l_packed L).
Proof.
  destruct (ok_packed _ _ _ _ ok) as (s & E & Hs). apply (find_in_image _ _ s E).
  - rewrite is_section_names, names_sec, Hs. rewrite sec_and by apply sections_apart. cbn. destruct (ld_packed c Hc). by apply Z.ltb_lt.
  - intros j s' E' Hj. by rewrite is_section_names, names_sec, (ok_packed_last _ _ _ _ ok j s' E' Hj).
Qed.
Lemma find_dynamic o :
  o = c_off c (section_offset L (l_dynamic L)) →
  find_last (λ s, sh_offset (shdr s) =? o) (sections (library_image L c)) = Some (l_dynamic L).
Proof.
  intros ->. destruct (ok_dynamic _ _ _ _ ok) as (s & p & E & _). apply (find_in_image _ _ s E).
  - rewrite sec_offset, (offset_at _ _ _ E). apply Z.eqb_refl.
  - intros j s' E' Hj. rewrite sec_offset. apply Z.eqb_neq. by apply (ld_apart c Hc j).
Qed.
Lemma types_image t : existsb (λ s, sh_type (shdr s) =? t) (sections (library_image L c)) = existsb (λ s, sh_type (shdr s) =? t) (l_sections L).
Proof.
  apply eq_true_iff_eq. rewrite !existsb_exists. split; intros (s & Hs & Ht); apply list_elem_of_In, list_elem_of_lookup_1 in Hs as [i E].
  - apply image_inv in E as (s0 & E0 & ->). rewrite sec_type in Ht. exists s0. split; [|done]. by eapply list_elem_of_In, list_elem_of_lookup_2.
  - exists (sec c i s). rewrite sec_type. split; [|done]. eapply list_elem_of_In, list_elem_of_lookup_2. by apply image_at.
Qed.
Lemma names_image name : existsb (λ s, bool_decide (sh_name (shdr s) = name)) (sections (library_image L c)) =
  existsb (λ s, bool_decide (sh_name (shdr s) = name)) (l_sections L).
Proof.
  apply eq_true_iff_eq. rewrite !existsb_exists. split; intros (s & Hs & Ht); apply list_elem_of_In, list_elem_of_lookup_1 in Hs as [i E].
  - apply image_inv in E as (s0 & E0 & ->). rewrite sec_name in Ht. exists s0. split; [|done]. by eapply list_elem_of_In, list_elem_of_lookup_2.
  - exists (sec c i s). rewrite sec_name. split; [|done]. eapply list_elem_of_In, list_elem_of_lookup_2. by apply image_at.
Qed.
Lemma alignment_image : forallb preserves_alignment (sections (library_image L c)) = true.
Proof.
  apply forallb_forall. intros s Hs. apply list_elem_of_In, list_elem_of_lookup_1 in Hs as [i E].
  apply image_inv in E as (s0 & E0 & ->). pose proof (ok_alignment _ _ _ _ ok) as HF. rewrite Forall_lookup in HF. specialize (HF i s0 E0).
  destruct (ok_alignments _ _ _ _ ok) as (H1 & H2 & H3). destruct (ld_rel c Hc) as [_ E1]. destruct (ld_packed c Hc) as [_ E2]. pose proof (ld_dyn c Hc) as E3.
  unfold preserves_alignment in *. apply andb_prop in HF as [HF1 HF2]. unfold ElfImage.sec. repeat case_decide; cbn; rewrite HF1; cbn; rewrite ?E1, ?E2, ?E3, ?andb_true_r;
    by (done || apply Z.leb_le).
Qed.
Lemma GetDynamicSection_run : GetDynamicSection (library_image L c) = Ok (l_dynamic L, library_image L c).
Proof.
  destruct (ld_header_at c Hc) as (p & Hp & Eo). destruct (find_last_filter _ _ _ Hp) as (i & Ei & Ep).
  unfold GetDynamicSection. run_bind (eq_refl : getS (library_image L c) = Ok (library_image L c, library_image L c)).
  assert (phdrs (library_image L c) = c_phdrs c) as -> by done. rewrite Ei.
  run_bind (eq_refl : found_or_check (Some i) (library_image L c) = Ok (i, library_image L c)).
  run_bind (getphdr_run (library_image L c) i p Ep). by rewrite find_dynamic.
Qed.
(** The file as [Load] leaves it. *)
Definition loaded_file (e : Elf) : ElfFile := mk_file (Image e) false (Some e) (l_relocations L) (l_dynamic L) (l_packed L) kind.
Lemma Load_run : Load (new_file (Image (library_image L c))) = Ok (true, loaded_file (library_image L c)).
Proof.
  destruct (ld_header c Hc) as (f & Eh). destruct (ld_header_at c Hc) as (p & Hp & Eo).
  unfold Load. set (e := library_image L c). run_bind (eq_refl : getS (new_file (Image e)) = Ok (new_file (Image e), new_file (Image e))).
  cbn [elf_ new_file fd_]. assert (ehdr e = place f (l_ehdr L)) as -> by exact Eh. cbn [place e_machine e_type ei_data ei_class].
  rewrite (ok_machine _ _ _ _ ok), (ok_type _ _ _ _ ok), (ok_data _ _ _ _ ok), (ok_class _ _ _ _ ok), !Z.eqb_refl. cbn [negb].
  do 2 run_bind (checkS_run (new_file (Image e)) true eq_refl).
  assert (phdrs e = c_phdrs c) as -> by done.
  assert ((match c_phdrs c with [] => false | _ => true end) = true) as Hne by (by destruct (c_phdrs c)).
  run_bind (checkS_run (new_file (Image e)) _ Hne).
  assert (dynamic_header (c_phdrs c) = Ok p) as Ed by (unfold dynamic_header; by rewrite Hp).
  rewrite Ed. run_bind (eq_refl : liftO (Ok p) (new_file (Image e)) = Ok (p, new_file (Image e))).
  run_bind (checkS_run (new_file (Image e)) _ alignment_image).
  pose proof find_relocations as E1. pose proof find_packed as E2. pose proof (find_dynamic _ Eo) as E3. unfold rel_names, packed_names in E1, E2.
  fold e in E1, E2, E3. rewrite E1, E2, E3. unfold e. rewrite !types_image. destruct (ok_kind _ _ _ _ ok) as (-> & -> & Hk).
  unfold loaded_file. clear -Hk. by destruct kind.
Qed.
End Loads.

End Library.
End ElfLibrary.
