(* ===== verification/ElfPack.v ===== *)
(** Replacing the two sections of relocations of a library (see [ElfLibrary]): the file after
    each replacement, when the library is packed and when it is unpacked again. *)

From stdpp Require Import strings.
From S2P Require Import Prelude RelocationPacker RelocationSpec ElfFile ElfLayout ElfDynamic ElfSegments ElfHeaders ElfImage ElfLibrary.
Local Open Scope Z_scope.

Module ElfPack.
Import RelocationPacker RelocationSpec ElfFile ElfLayout ElfDynamic ElfSegments ElfHeaders ElfImage ElfLibrary.

Section Pack.
Context `{TL : TargetLaws} `{ET : !ElfTarget} `{BD : Build} {R : Type} `{RL : !Relocation R}.
Context (L : Library) (kind : RelocationsType) (size hole grow : Z).
Context (ok : library_ok L kind (sizeof R) size) (Hhole : 0 < hole < size) (Hgrow : 0 < grow) (Hroom : room L grow).
Context (Hsz : 0 < sizeof R).
Abbreviation start := (l_start L).
Abbreviation packed_at := (section_offset L (l_packed L)).
Abbreviation dynamic_at := (section_offset L (l_dynamic L)).
Abbreviation img := (library_image L).

(** The program headers of the packed file. *)
Definition packed_headers : list Phdr :=
  sort_headers (split_unsorted start hole (l_first L) (l_stack L) (l_flags L) (l_align L) (l_next L) (l_addr L) (l_end L) (l_phdrs L)).
Definition live1 : list Dyn := adjusted (sizeof R) (- hole) <$> l_live L.
Definition dynamic_data (entries : list Dyn) : Elf_Data := whole (encode entries) (l_dynamic_align L).
Definition rel_data (bytes : list Z) : Z * Elf_Data := (Z.of_nat (length bytes), whole bytes (l_rel_align L)).
Definition packed_data (bytes : list Z) : Z * Elf_Data := (Z.of_nat (length bytes), whole bytes (l_packed_align L)).
Definition tagged (live : list Dyn) : list Dyn :=
  table (live ++ packed_tags (off1 L hole packed_at) (Z.of_nat (length stub) + grow)) (1 + l_spare L).

(** The stages of packing: the relocations replaced, the packed relocations replaced, and
    the packed file. *)
Definition stage1 (others : list Z) : content :=
  mk_content (off1 L hole) (rel_data others) (packed_data stub) (dynamic_data (table live1 (3 + l_spare L)))
    (place (off1 L hole) (l_ehdr L)) packed_headers.
Definition stage2 (others packed : list Z) (entries : list Dyn) : content :=
  mk_content (off2 L hole grow) (rel_data others) (packed_data packed) (dynamic_data entries)
    (place (off2 L hole grow) (l_ehdr L)) packed_headers.
(** Unpacking: the relocations replaced. *)
Definition stage3 (all packed : list Z) : content :=
  mk_content (off3 L grow) (rel_data all) (packed_data packed) (dynamic_data (tagged (l_live L)))
    (place (off3 L grow) (l_ehdr L)) (l_phdrs L).
Definition stage4 (all : list Z) : content :=
  mk_content (λ o, o) (rel_data all) (packed_data stub) (dynamic_data (tagged (l_live L))) (l_ehdr L) (l_phdrs L).

Lemma grow_nonneg : 0 ≤ grow.
Proof. lia. Qed.
#[local] Hint Resolve grow_nonneg : core.
Abbreviation is_placed := (section_placed L kind (sizeof R) size grow ok grow_nonneg Hroom).
Lemma apart : l_relocations L ≠ l_packed L ∧ l_relocations L ≠ l_dynamic L ∧ l_packed L ≠ l_dynamic L.
Proof. by eapply sections_apart. Qed.
(** Contents that differ in how places are computed. *)
Lemma img_ext c c' :
  (∀ o, placed L size grow o → c_off c o = c_off c' o) → c_rel c = c_rel c' → c_and c = c_and c' → c_dyn c = c_dyn c' →
  c_ehdr c = c_ehdr c' → c_phdrs c = c_phdrs c' → img c = img c'.
Proof.
  intros Ho E1 E2 E3 E4 E5. unfold library_image. rewrite (image_ext _ _ _ _ c (c_off c')).
  - destruct c, c'. cbn in *. by subst.
  - intros i s E. by apply Ho, (is_placed i).
Qed.
Lemma place_ext f g : (∀ o, placed L size grow o → f o = g o) → place f (l_ehdr L) = place g (l_ehdr L).
Proof. intros Hf. destruct (header_placed L kind (sizeof R) size grow ok Hroom) as [H1 H2]. unfold place. by rewrite !Hf. Qed.

(** The header of the dynamic section in the packed file. *)
Lemma filter_dynamic ps ps' p :
  List.filter (λ p, p_type p =? PT_DYNAMIC) ps = [p] →
  Forall2 (λ q q', (p_type q =? PT_DYNAMIC) = (p_type q' =? PT_DYNAMIC) ∧ (p_type q = PT_DYNAMIC → q' = close_header start hole q)) ps ps' →
  List.filter (λ p, p_type p =? PT_DYNAMIC) ps' = [close_header start hole p].
Proof.
  intros Hf HF. change [close_header start hole p] with (close_header start hole <$> [p]). rewrite <- Hf. clear Hf p.
  induction HF as [|q q' ps ps' [H1 H2] _ IH]; [done|]. cbn. rewrite <- H1. destruct (Z.eqb_spec (p_type q) PT_DYNAMIC) as [E|E]; cbn; [|done].
  by rewrite IH, H2.
Qed.
Abbreviation lib_table := (ok_table _ _ _ _ ok).
Lemma headers_packed : packed_table start hole (l_loads L) (l_flags L) (l_align L) (l_next L) (l_addr L) (l_end L) (l_phdrs L) packed_headers.
Proof. exact (split_packs start size hole (ok_start _ _ _ _ ok) Hhole _ _ _ _ _ _ _ _ _ _ _ (ok_next _ _ _ _ ok) _ lib_table). Qed.
Lemma headers_joined :
  sort_headers (joined_unsorted start hole (l_first L) (l_stack L) (l_others L) (l_fsz L) (l_flags L) (l_align L) (l_stack_align L) packed_headers)
    = l_phdrs L.
Proof. exact (packed_joins start size hole (ok_start _ _ _ _ ok) Hhole _ _ _ _ _ _ _ _ _ _ _ (ok_next _ _ _ _ ok) _ _ lib_table headers_packed). Qed.
Lemma packed_header_at :
  ∃ p, List.filter (λ p, p_type p =? PT_DYNAMIC) packed_headers = [p] ∧ p_offset p = off1 L hole dynamic_at.
Proof.
  destruct (ok_dynamic _ _ _ _ ok) as (s & p & E & Hp & Ho & _). exists (close_header start hole p). split.
  - apply (filter_dynamic _ _ _ Hp). pose proof headers_packed as Hk. apply Forall2_same_length_lookup. split; [symmetry; apply (pt_length _ _ _ _ _ _ _ _ _ _ Hk)|].
    intros i q q' Eq Eq'. destruct (decide (i ∈ orderable_positions (l_phdrs L))) as [Hi|Hi].
    + pose proof Hi as Hi'. apply elem_of_orderable in Hi' as (q0 & E0 & Hq). rewrite Eq in E0. injection E0 as <-.
      assert (p_type q ≠ PT_DYNAMIC) as Hne by (intros Ht; unfold is_orderable in Hq; by rewrite Ht in Hq).
      apply list_elem_of_lookup_1 in Hi as [j Hj]. destruct (Forall2_lookup_l _ _ _ _ _ (pt_holds _ _ _ _ _ _ _ _ _ _ Hk) Hj) as (v & Hv & Ev).
      rewrite Eq' in Ev. injection Ev as <-. split; [|done]. assert (p_type q' = PT_LOAD) as ->; [|by apply Z.eqb_neq].
      destruct j as [|[|j]]; cbn in Hv; [by simplify_eq|by simplify_eq|].
      pose proof (closed_loads start size hole Hhole _ _ _ _ _ _ _ _ _ (ok_next _ _ _ _ ok) _ lib_table) as HF.
      rewrite Forall_lookup in HF. by destruct (HF j q' Hv).
    + pose proof (pt_others _ _ _ _ _ _ _ _ _ _ Hk i Hi) as Eo. rewrite Eq, Eq' in Eo. injection Eo as ->. by split.
  - unfold close_header, off1. cbn. by rewrite Ho, (offset_at _ _ _ E).
Qed.

(** ** The stages load *)

Lemma dynamic_placed : placed L size grow dynamic_at ∧ dynamic_at ≤ packed_at.
Proof.
  destruct (ok_dynamic _ _ _ _ ok) as (s & p & E & _ & _ & Hl). split; [|by rewrite (offset_at _ _ _ E)].
  rewrite (offset_at _ _ _ E). by apply (is_placed (l_dynamic L)).
Qed.
(** Places that keep different sections apart. *)
Definition keeps_apart (f : Z → Z) : Prop := ∀ o o', placed L size grow o → placed L size grow o' → f o = f o' → o = o'.
Lemma off1_apart : keeps_apart (off1 L hole).
Proof.
  intros o o' Ho Ho' E. destruct (Z.lt_trichotomy o o') as [Hl|[?|Hl]]; [|done|].
  - pose proof (off1_mono L size hole grow Hhole o o' Ho Ho' Hl). lia.
  - pose proof (off1_mono L size hole grow Hhole o' o Ho' Ho Hl). lia.
Qed.
Lemma off2_apart : keeps_apart (off2 L hole grow).
Proof.
  destruct (packed_behind L kind (sizeof R) size grow ok grow_nonneg Hroom) as (Hp & _).
  intros o o' Ho Ho'. rewrite !(off2_eq L kind (sizeof R) size hole grow ok Hhole grow_nonneg Hroom) by done.
  intros E. apply off1_apart; [done..|].
  destruct (Z.ltb_spec packed_at o) as [H1|H1], (Z.ltb_spec packed_at o') as [H2|H2]; try lia.
  - pose proof (off1_mono L size hole grow Hhole o' o Ho' Ho ltac:(lia)). lia.
  - pose proof (off1_mono L size hole grow Hhole o o' Ho Ho' ltac:(lia)). lia.
Qed.
Lemma off3_apart : keeps_apart (off3 L grow).
Proof.
  intros o o' Ho Ho'. rewrite !(off3_eq L size grow grow_nonneg) by done.
  destruct (Z.ltb_spec packed_at o), (Z.ltb_spec packed_at o'); lia.
Qed.
Lemma loadable_stage f rel packed entries ps :
  keeps_apart f → (0 < length rel)%nat → (0 < length packed)%nat →
  (∃ p, List.filter (λ p, p_type p =? PT_DYNAMIC) ps = [p] ∧ p_offset p = f dynamic_at) →
  loadable L (mk_content f (rel_data rel) (packed_data packed) (dynamic_data entries) (place f (l_ehdr L)) ps).
Proof.
  intros Hf Hr Hp Hd. split; cbn; [by exists f|lia|lia|done|done|]. intros i s E Hi Eq.
  apply (ok_dynamic_last _ _ _ _ ok i s E Hi). apply Hf; [by apply (is_placed i)|apply dynamic_placed|done].
Qed.
Lemma library_header_at : ∃ p, List.filter (λ p, p_type p =? PT_DYNAMIC) (l_phdrs L) = [p] ∧ p_offset p = dynamic_at.
Proof. destruct (ok_dynamic _ _ _ _ ok) as (s & p & E & Hp & Ho & _). exists p. by rewrite (offset_at _ _ _ E). Qed.
Lemma stub_length : length stub = 4%nat.
Proof. done. Qed.
Lemma library_loadable bytes : (0 < length bytes)%nat → loadable L (library_content L bytes).
Proof.
  intros Hb. assert (place (λ o, o) (l_ehdr L) = l_ehdr L) as Eh by (by destruct (l_ehdr L)).
  pose proof (loadable_stage (λ o, o) bytes stub (table (l_live L) (3 + l_spare L)) (l_phdrs L)) as Hl. rewrite Eh in Hl.
  apply Hl; [by intros ?|done|by rewrite stub_length; lia|apply library_header_at].
Qed.
(** The dynamic section lies before the packed relocations, and does not move with them. *)
Lemma off2_dynamic : off2 L hole grow dynamic_at = off1 L hole dynamic_at.
Proof.
  destruct dynamic_placed as [Hd Hl]. rewrite (off2_eq L kind (sizeof R) size hole grow ok Hhole grow_nonneg Hroom) by done.
  by rewrite (proj2 (Z.ltb_ge _ _) Hl).
Qed.
Lemma off3_dynamic : off3 L grow dynamic_at = dynamic_at.
Proof. destruct dynamic_placed as [Hd Hl]. rewrite (off3_eq L size grow grow_nonneg) by done. by rewrite (proj2 (Z.ltb_ge _ _) Hl). Qed.

(** ** The dynamic section *)

Lemma dynamic_section : ∃ s, l_sections L !! l_dynamic L = Some s.
Proof. destruct (ok_dynamic _ _ _ _ ok) as (s & p & E & _). by exists s. Qed.
Lemma entries_run c entries :
  c_dyn c = dynamic_data entries → Forall fits entries →
  GetSectionData (l_dynamic L) (img c) = Ok (dynamic_data entries, img c) ∧ read_vector Dyn (dynamic_data entries) = Ok entries.
Proof.
  intros Ec Hf. destruct dynamic_section as [s E]. destruct apart as (H1 & H2 & H3). split.
  - unfold library_image. rewrite (data_dyn _ _ _ _ H2 H3 s E). by rewrite Ec.
  - apply read_vector_encode; [cbn; lia|done].
Qed.
Lemma length_encode_eq (xs ys : list Dyn) : length xs = length ys → length (encode xs) = length (encode ys).
Proof. intros E. apply Nat2Z.inj. by rewrite !length_encode, E. Qed.
Lemma entries_rewrite c entries entries' :
  c_dyn c = dynamic_data entries → length entries' = length entries →
  RewriteSectionData (l_dynamic L) (encode entries') (img c) = Ok (tt, img (with_dyn (dynamic_data entries') c)).
Proof.
  intros Ec El. destruct dynamic_section as [s E]. destruct apart as (H1 & H2 & H3). unfold library_image.
  pose proof (length_encode_eq _ _ El) as Ee. rewrite (rewrite_dyn _ _ _ _ H2 H3 s E) by (rewrite Ec; cbn; by rewrite Ee).
  rewrite Ec. unfold rewritten, dynamic_data, whole. cbn. by rewrite Ee.
Qed.
Lemma adjust_run c entries k :
  c_dyn c = dynamic_data entries → Forall fits entries → Forall (entry_ok (sizeof R)) entries →
  AdjustDynamicSectionForHole (sizeof R) (l_dynamic L) k (img c) =
    Ok (tt, img (with_dyn (dynamic_data (adjusted (sizeof R) k <$> entries)) c)).
Proof.
  intros Ec Hf He. destruct (entries_run c entries Ec Hf) as [E1 E2]. unfold AdjustDynamicSectionForHole. run_bind E1. rewrite E2.
  run_bind (eq_refl : liftO (Ok entries) (img c) = Ok (entries, img c)). rewrite adjust_all_run by done.
  run_bind (eq_refl : liftO (Ok (adjusted (sizeof R) k <$> entries)) (img c) = Ok (adjusted (sizeof R) k <$> entries, img c)).
  apply (entries_rewrite c entries); [done|by rewrite length_fmap].
Qed.

(** ** Replacing sections *)

Lemma relocations_at : ∃ s, l_sections L !! l_relocations L = Some s ∧ sh_offset (shdr s) = start ∧
  is_relocations_name (sh_name (shdr s)) = true.
Proof.
  destruct (ok_relocations _ _ _ _ ok) as (s & E & Hn). exists s. split; [done|]. unfold l_start. rewrite (offset_at _ _ _ E). split; [done|].
  unfold names_of, rel_names, is_relocations_name in *. cbn in Hn. by rewrite orb_false_r in Hn.
Qed.
Lemma packed_name : ∃ s, l_sections L !! l_packed L = Some s ∧ sh_offset (shdr s) = packed_at ∧
  is_relocations_name (sh_name (shdr s)) = false.
Proof.
  destruct (ok_packed _ _ _ _ ok) as (s & E & Hn). exists s. split; [done|]. rewrite (offset_at _ _ _ E). split; [done|].
  unfold names_of, packed_names, is_relocations_name in *. cbn in Hn. rewrite orb_false_r in Hn.
  by apply orb_true_iff in Hn as [->%bool_decide_eq_true| ->%bool_decide_eq_true].
Qed.
Lemma replace_rel c old new k ps' entries :
  c_rel c = rel_data old → (0 < length old)%nat → length old ≠ length new → k = Z.of_nat (length new) - Z.of_nat (length old) →
  Z.of_nat (length new) < 2 ^ addr_bits → c_dyn c = dynamic_data entries → Forall fits entries → Forall (entry_ok (sizeof R)) entries →
  let moving rel := moved (c_off c start) k (with_rel rel c) in
  let resized := moving (Z.of_nat (length new), mk_data (Some old) 0 (Z.of_nat (length new)) (l_rel_align L)) in
  RewriteProgramHeadersForHole (c_off c start) k (img resized) = Ok (tt, img (with_phdrs ps' resized)) →
  loadable L (with_phdrs ps' resized) →
  replace_section (R := R) (l_relocations L) new (img c) =
    Ok (tt, img (with_dyn (dynamic_data (adjusted (sizeof R) k <$> entries)) (with_phdrs ps' (moving (rel_data new))))).
Proof.
  intros Ec Hl Hne Hk Hb Ed Hf He moving resized Hrun Hload. destruct relocations_at as (s & E & Hs & Hn). destruct apart as (H1 & H2 & H3).
  unfold replace_section.
  assert (ResizeSection (sizeof R) (l_relocations L) (Z.of_nat (length new)) (img c) =
    Ok (tt, img (with_dyn (dynamic_data (adjusted (sizeof R) k <$> entries)) (with_phdrs ps' resized)))) as E1.
  { unfold library_image. rewrite (resize_rel _ _ _ _ H1 H2 H3 s E c old (length new) (l_rel_align L) k Hn Ec Hl Hne Hk Hb). rewrite Hs.
    fold resized. fold (img resized). run_bind Hrun. run_bind (GetDynamicSection_run L kind (sizeof R) size ok _ Hload). by apply adjust_run. }
  run_bind E1. unfold library_image. by rewrite (rewrite_rel _ _ _ _ s E).
Qed.
Lemma replace_packed c old new :
  c_and c = packed_data old → (0 < length old)%nat → length old ≠ length new → Z.of_nat (length new) < 2 ^ 32 →
  replace_section (R := R) (l_packed L) new (img c) =
    Ok (tt, img (moved (c_off c packed_at) (Z.of_nat (length new) - Z.of_nat (length old)) (with_and (packed_data new) c))).
Proof.
  intros Ec Hl Hne Hb. destruct packed_name as (s & E & Hs & Hn). destruct apart as (H1 & H2 & H3). unfold library_image.
  by rewrite (replace_and _ _ _ _ H1 H2 H3 s E c old new (l_packed_align L) Hn Ec Hl Hne Hb), Hs.
Qed.
(** The entries that are used to tell how the sections of an image lie. *)
Lemma image_order f gap c :
  c_off c = f → 
  (∀ o, placed L size grow o → o < start → f o = o) → f start = start →
  (∀ o, placed L size grow o → start + size ≤ o → o ≤ f o + gap ∧ is_u addr_bits (f o + gap)) →
  (∀ o, placed L size grow o → start + size ≤ o → o < packed_at → f o + gap = o) →
  section_order start size (l_fsz L) (l_end L) (l_relocations L) (l_last L) gap (sections (img c)).
Proof.
  intros Ef H1 H2 H3 H4. pose proof (ok_order _ _ _ _ ok) as Ho. destruct (ok_last _ _ _ _ ok) as [Hr Hp].
  destruct (packed_behind L kind (sizeof R) size grow ok grow_nonneg Hroom) as (_ & Hp1 & Hp2). destruct (ok_end _ _ _ _ ok) as [He _].
  split.
  - intros i s' E Hi. apply image_inv in E as (s & E & ->). rewrite sec_offset, Ef.
    pose proof (so_before _ _ _ _ _ _ _ _ Ho i s E Hi). rewrite H1; [done|by apply (is_placed i)|lia].
  - intros s' E. apply image_inv in E as (s & E & ->). rewrite sec_offset, Ef. by rewrite (so_at _ _ _ _ _ _ _ _ Ho s E).
  - intros i s' E Hi. apply image_inv in E as (s & E & ->). rewrite sec_offset, Ef.
    destruct (so_behind _ _ _ _ _ _ _ _ Ho i s E Hi) as [Hb Hu]. rewrite Z.add_0_r in *.
    destruct (H3 (sh_offset (shdr s)) (is_placed i s E) Hb) as [H5 H6]. split; [lia|done].
  - intros i s' E Hi. apply image_inv in E as (s & E & ->). rewrite sec_offset, Ef.
    destruct (so_behind _ _ _ _ _ _ _ _ Ho i s E ltac:(lia)) as [Hb _]. pose proof (so_inside _ _ _ _ _ _ _ _ Ho i s E Hi). rewrite Z.add_0_r in *.
    rewrite H4; [done|by apply (is_placed i)|lia|lia].
  - intros i s' E Hi. apply image_inv in E as (s & E & ->). rewrite sec_offset, Ef.
    destruct (so_behind _ _ _ _ _ _ _ _ Ho i s E ltac:(lia)) as [Hb _]. pose proof (so_outside _ _ _ _ _ _ _ _ Ho i s E Hi). rewrite Z.add_0_r in *.
    destruct (H3 (sh_offset (shdr s)) (is_placed i s E) Hb) as [H5 _]. lia.
  - cbn. rewrite length_imap. apply (so_length _ _ _ _ _ _ _ _ Ho).
Qed.
Lemma image_stack c : stack_alignment (img c) = l_stack_align L.
Proof. rewrite <- (ok_stack _ _ _ _ ok). unfold stack_alignment. by rewrite (names_image L c). Qed.

(** ** Packing *)

Lemma beyond_off1 o : placed L size grow o → beyond start (- hole) o = off1 L hole o.
Proof. intros [Ho _]. by apply (beyond_close start size hole (ok_start _ _ _ _ ok) Hhole). Qed.
Lemma off1_behind o : placed L size grow o → start + size ≤ o → off1 L hole o + hole = o.
Proof. intros _ Hl. unfold off1, closed. rewrite (proj2 (Z.ltb_lt _ _)) by lia. lia. Qed.
Lemma off1_before o : o ≤ start → off1 L hole o = o.
Proof. intros Hl. unfold off1, closed. by rewrite (proj2 (Z.ltb_ge _ _)) by lia. Qed.
Lemma start_placed : placed L size grow start.
Proof. destruct relocations_at as (s & E & <- & _). by apply (is_placed (l_relocations L)). Qed.
Lemma closed_order_image c :
  c_off c = (λ o, beyond start (- hole) o) →
  section_order start size (l_fsz L) (l_end L) (l_relocations L) (l_last L) hole (sections (img c)) ∧
  around (l_next L) (l_addr L) (l_end L) (l_relocations L) (l_last L) hole (sections (img c)).
Proof.
  intros Ef. pose proof (ok_start _ _ _ _ ok). split.
  - apply (image_order _ _ _ Ef).
    + intros o Ho Hl. rewrite beyond_off1 by done. apply off1_before. lia.
    + rewrite beyond_off1 by apply start_placed. apply off1_before. lia.
    + intros o Ho Hl. rewrite beyond_off1 by done. rewrite off1_behind by done. destruct Ho as [[Hu _] _]. split; [lia|done].
    + intros o Ho Hl _. by rewrite beyond_off1, off1_behind.
  - destruct (ok_around _ _ _ _ ok) as [(s & E & Eo & Ea) (s' & E' & Eo')]. rewrite Z.add_0_r in *.
    destruct (ok_next _ _ _ _ ok) as [? ?]. destruct (ok_end _ _ _ _ ok) as [? _]. split.
    + eexists. split; [by apply image_at|]. rewrite sec_offset, sec_addr, Ef. split; [|done].
      rewrite beyond_off1 by (by apply (is_placed (S (l_relocations L)))). rewrite off1_behind; [done|by apply (is_placed (S (l_relocations L)))|lia].
    + eexists. split; [by apply image_at|]. rewrite sec_offset, Ef.
      rewrite beyond_off1 by (by apply (is_placed (S (l_last L)))). rewrite off1_behind; [done|by apply (is_placed (S (l_last L)))|lia].
Qed.
Lemma library_entries : Forall fits (table (l_live L) (3 + l_spare L)) ∧ Forall (entry_ok (sizeof R)) (table (l_live L) (3 + l_spare L)).
Proof. destruct (ok_live _ _ _ _ ok) as (_ & Hf & He). split; [by apply table_fits|by apply table_entries]. Qed.
Lemma close_run all others :
  Z.of_nat (length all) = size → Z.of_nat (length others) = size - hole →
  replace_section (R := R) (l_relocations L) others (library_file L all) = Ok (tt, img (stage1 others)).
Proof.
  intros Hall Hoth. destruct library_entries as [Hf He]. pose proof (ok_size _ _ _ _ ok).
  unfold library_file. rewrite (replace_rel (library_content L all) all others (- hole) packed_headers (table (l_live L) (3 + l_spare L)));
    [|done|lia|lia|lia|lia|done|done|done| |].
  - do 2 f_equal. apply img_ext; cbn; [apply beyond_off1|done|done| |by apply place_ext, beyond_off1|done].
    by rewrite adjusted_table.
  - cbn [c_off library_content]. match goal with |- _ (img ?c) = _ => set (resized := c) end.
    destruct (closed_order_image resized eq_refl) as [Ho Ha]. destruct (ok_last _ _ _ _ ok) as [Hr _]. destruct (ok_end _ _ _ _ ok) as [H1 H2].
    unfold RewriteProgramHeadersForHole. rewrite (proj2 (Z.ltb_lt _ _)) by lia.
    rewrite (Split_run start size hole (ok_start _ _ _ _ ok) Hhole _ _ _ _ _ _ _ _ _ _ _ (ok_next _ _ _ _ ok) H1 H2 _ _ Hr (img resized)
      (l_phdrs L) eq_refl lib_table (image_stack resized) Ho Ha). done.
  - split; cbn.
    + by eexists.
    + split; [lia|done].
    + split; [lia|done].
    + done.
    + destruct packed_header_at as (p & Hp & Eo). exists p. split; [done|]. by rewrite beyond_off1 by apply dynamic_placed.
    + intros i s E Hi Eq. apply (ok_dynamic_last _ _ _ _ ok i s E Hi).
      rewrite !beyond_off1 in Eq by (apply dynamic_placed || by apply (is_placed i)).
      apply off1_apart; [by apply (is_placed i)|apply dynamic_placed|done].
Qed.
Lemma grow_run others packed :
  Z.of_nat (length packed) = Z.of_nat (length stub) + grow → Z.of_nat (length packed) < 2 ^ 32 →
  replace_section (R := R) (l_packed L) packed (img (stage1 others)) = Ok (tt, img (stage2 others packed (table live1 (3 + l_spare L)))).
Proof.
  intros Hl Hb. pose proof stub_length. rewrite (replace_packed (stage1 others) stub packed); [|done|lia|lia|done].
  do 2 f_equal. replace (Z.of_nat (length packed) - Z.of_nat (length stub)) with grow by lia. by apply img_ext.
Qed.
Lemma live1_in_use : Forall in_use live1.
Proof. destruct (ok_live _ _ _ _ ok) as (Hu & _). by apply adjusted_in_use. Qed.
Lemma live1_fits : Forall fits live1.
Proof. destruct (ok_live _ _ _ _ ok) as (_ & Hf & _). apply Forall_fmap. eapply Forall_impl; [exact Hf|]. intros x. apply adjusted_fits. Qed.
Lemma live1_entries : Forall (entry_ok (sizeof R)) live1.
Proof. destruct (ok_live _ _ _ _ ok) as (_ & _ & He). apply Forall_fmap. eapply Forall_impl; [exact He|]. intros x. apply adjusted_entry_ok. Qed.
Lemma tags_fit : grow < 2 ^ 31 → Forall fits (packed_tags (off1 L hole packed_at) (Z.of_nat (length stub) + grow)).
Proof.
  intros Hg. destruct (packed_behind L kind (sizeof R) size grow ok grow_nonneg Hroom) as (Hp & _).
  pose proof (off1_range L kind (sizeof R) size hole grow ok Hhole packed_at Hp). destruct Hp as [[Hu _] _]. rewrite stub_length.
  unfold is_u in *. pose proof addr_bits_ok as Hw.
  do 2 (constructor; [split; cbn [d_tag d_un]; unfold is_u, DT_ANDROID_REL_OFFSET, DT_ANDROID_REL_SIZE, DT_LOOS;
    destruct Hw as [Hw|Hw]; rewrite Hw in *; lia|]). constructor.
Qed.

(** A file that is held in memory. *)
Definition held (fd : file) (e : Elf) : ElfFile := mk_file fd false (Some e) (l_relocations L) (l_dynamic L) (l_packed L) kind.
Lemma with_elf_run {A} (m : prog Elf A) fd e a e' : m e = Ok (a, e') → with_elf m (held fd e) = Ok (a, held fd e').
Proof. intros E. unfold with_elf, held. cbn. by rewrite E. Qed.
Lemma tagged_fits live : grow < 2 ^ 31 → Forall fits live → Forall fits (tagged live).
Proof. intros Hg Hf. apply table_fits, Forall_app_2; [done|by apply tags_fit]. Qed.
Lemma tagged_entries live : Forall (entry_ok (sizeof R)) live → Forall (entry_ok (sizeof R)) (tagged live).
Proof. intros He. apply table_entries, Forall_app_2; [done|]. do 2 (constructor; [intros [E|E]; vm_compute in E; lia|]). constructor. Qed.
Lemma length_tagged live : length (tagged live) = length (table live (3 + l_spare L)).
Proof. unfold tagged, table. rewrite !length_app, !length_replicate. cbn. lia. Qed.
Lemma describe_run fd others packed :
  Z.of_nat (length packed) = Z.of_nat (length stub) + grow →
  describe_packed (held fd (img (stage2 others packed (table live1 (3 + l_spare L))))) =
    Ok (tt, held fd (img (stage2 others packed (tagged live1)))).
Proof.
  intros Hl. set (c := stage2 others packed (table live1 (3 + l_spare L))). set (f := held fd (img c)).
  destruct (entries_run c _ eq_refl (table_fits _ _ live1_fits)) as [E1 E2]. destruct packed_name as (s & E & Hs & _).
  unfold describe_packed. run_bind (eq_refl : getS f = Ok (f, f)). cbn [dynamic_section_ android_relocations_section_ f held].
  run_bind (with_elf_run _ fd (img c) _ _ E1). rewrite E2. run_bind (eq_refl : liftO (Ok (table live1 (3 + l_spare L))) (held fd (img c)) = Ok (_, held fd (img c))).
  run_bind (with_elf_run _ fd (img c) _ _ (getscn_run (img c) _ _ (image_at _ _ _ _ c _ s E))). rewrite sec_offset, Hs, sec_and by apply apart.
  cbn [c_off c stage2 c_and fst shdr with_size sh_size packed_data].
  rewrite (off2_packed L kind (sizeof R) size hole grow ok Hhole grow_nonneg Hroom), Hl.
  pose proof (packed_tags_run live1 (off1 L hole packed_at) (Z.of_nat (length stub) + grow) (l_spare L) live1_in_use) as Et.
  apply outcome_bind_Ok in Et as (entries & Ea & Eb). rewrite Ea. run_bind (eq_refl : liftO (Ok entries) (held fd (img c)) = Ok (_, held fd (img c))).
  rewrite Eb. run_bind (eq_refl : liftO (Ok (tagged live1)) (held fd (img c)) = Ok (_, held fd (img c))).
  apply with_elf_run. exact (entries_rewrite c _ (tagged live1) eq_refl (length_tagged live1)).
Qed.

(** ** Unpacking *)

Lemma stage2_loadable others packed entries :
  (0 < length others)%nat → (0 < length packed)%nat → loadable L (stage2 others packed entries).
Proof.
  intros Ho Hp. apply loadable_stage; [apply off2_apart|done|done|]. rewrite off2_dynamic. apply packed_header_at.
Qed.
Lemma off2_start : off2 L hole grow start = start.
Proof.
  destruct (packed_behind L kind (sizeof R) size grow ok grow_nonneg Hroom) as (_ & Hp & _). pose proof (ok_size _ _ _ _ ok).
  rewrite (off2_eq L kind (sizeof R) size hole grow ok Hhole grow_nonneg Hroom) by apply start_placed.
  rewrite (proj2 (Z.ltb_ge _ _)) by lia. apply off1_before. lia.
Qed.
Lemma off3_before o : placed L size grow o → o ≤ packed_at → off3 L grow o = o.
Proof. intros Ho Hl. rewrite (off3_eq L size grow grow_nonneg) by done. by rewrite (proj2 (Z.ltb_ge _ _)). Qed.
Lemma opened_order c :
  c_off c = (λ o, beyond start hole (off2 L hole grow o)) →
  section_order start size (l_fsz L) (l_end L) (l_relocations L) (l_last L) 0 (sections (img c)) ∧
  (∃ s, sections (img c) !! l_last L = Some s ∧ sh_offset (shdr s) + sh_size (shdr s) = l_fsz L).
Proof.
  intros Ef. pose proof (off2_open L kind (sizeof R) size hole grow ok Hhole grow_nonneg Hroom) as Eo.
  destruct (packed_behind L kind (sizeof R) size grow ok grow_nonneg Hroom) as (_ & Hp1 & Hp2). pose proof (ok_size _ _ _ _ ok). split.
  - apply (image_order _ _ _ Ef).
    + intros o Ho Hl. rewrite Eo by done. apply off3_before; [done|lia].
    + rewrite Eo by apply start_placed. apply off3_before; [apply start_placed|lia].
    + intros o Ho Hl. rewrite Eo by done. rewrite (off3_eq L size grow grow_nonneg) by done. destruct Ho as [[Hu _] Hg]. unfold is_u in *.
      destruct (_ <? _); lia.
    + intros o Ho Hl Hl'. rewrite Eo, off3_before by (done || lia). lia.
  - destruct (ok_last_end _ _ _ _ ok) as (s & E & Es). destruct (ok_last _ _ _ _ ok) as [Hr Hp]. destruct (ok_end _ _ _ _ ok) as [He _].
    eexists. split; [by apply image_at|]. rewrite sec_offset, sec_size, Ef by lia.
    pose proof (so_inside _ _ _ _ _ _ _ _ (ok_order _ _ _ _ ok) _ s E ltac:(lia)) as Hi. rewrite Z.add_0_r in Hi.
    rewrite Eo, off3_before; [done|by apply (is_placed (l_last L))|lia|by apply (is_placed (l_last L))].
Qed.
Lemma reopened_entries : adjusted (sizeof R) hole <$> tagged live1 = tagged (l_live L).
Proof.
  destruct (ok_live _ _ _ _ ok) as (_ & Hf & _). unfold tagged. rewrite adjusted_table, fmap_app, adjusted_packed_tags.
  unfold live1. by rewrite adjusted_all_back.
Qed.
Lemma open_run others all packed :
  grow < 2 ^ 31 → (0 < length others)%nat → (0 < length packed)%nat →
  Z.of_nat (length all) = size → Z.of_nat (length others) = size - hole →
  replace_section (R := R) (l_relocations L) all (img (stage2 others packed (tagged live1))) = Ok (tt, img (stage3 all packed)).
Proof.
  intros Hg Hlo Hlp Hall Hoth. pose proof (ok_size _ _ _ _ ok).
  pose proof (off2_open L kind (sizeof R) size hole grow ok Hhole grow_nonneg Hroom) as Eo.
  rewrite (replace_rel (stage2 others packed (tagged live1)) others all hole (l_phdrs L) (tagged live1));
    [|done|lia|lia|lia|lia|done|by apply tagged_fits, live1_fits|by apply tagged_entries, live1_entries| |].
  - do 2 f_equal. cbn [c_off stage2]. rewrite off2_start. apply img_ext; cbn; [exact Eo|done|done| | |done].
    + by rewrite reopened_entries.
    + exact (place_ext (λ o, beyond start hole (off2 L hole grow o)) _ Eo).
  - cbn [c_off stage2]. rewrite off2_start. match goal with |- _ (img ?c) = _ => set (resized := c) end.
    destruct (opened_order resized eq_refl) as [Ho Hl]. destruct (ok_last _ _ _ _ ok) as [Hr _]. destruct (ok_end _ _ _ _ ok) as [H1 H2].
    unfold RewriteProgramHeadersForHole. rewrite (proj2 (Z.ltb_ge _ _)) by lia. rewrite (proj2 (Z.ltb_lt _ _)) by lia.
    rewrite (Coalesce_run start size hole (ok_start _ _ _ _ ok) Hhole _ _ _ _ _ _ _ _ _ _ _ (ok_next _ _ _ _ ok) H1 H2 _ _ Hr (img resized)
      (l_phdrs L) packed_headers lib_table headers_packed eq_refl (image_stack resized) Ho Hl).
    by rewrite headers_joined.
  - cbn [c_off stage2]. rewrite off2_start. split; cbn.
    + by exists (λ o, beyond start hole (off2 L hole grow o)).
    + split; [lia|done].
    + split; [lia|done].
    + done.
    + destruct library_header_at as (p & Hp & Ep). exists p. split; [done|]. by rewrite Eo, off3_dynamic by apply dynamic_placed.
    + intros i s E Hi Eq. apply (ok_dynamic_last _ _ _ _ ok i s E Hi).
      rewrite !Eo in Eq by (apply dynamic_placed || by apply (is_placed i)).
      apply off3_apart; [by apply (is_placed i)|apply dynamic_placed|done].
Qed.
Lemma shrink_run all packed :
  Z.of_nat (length packed) = Z.of_nat (length stub) + grow →
  replace_section (R := R) (l_packed L) stub (img (stage3 all packed)) = Ok (tt, img (stage4 all)).
Proof.
  intros Hl. pose proof stub_length. rewrite (replace_packed (stage3 all packed) packed stub); [|done|lia|lia|lia].
  replace (Z.of_nat (length stub) - Z.of_nat (length packed)) with (- grow) by lia. cbn [c_off stage3].
  rewrite (off3_packed L kind (sizeof R) size grow ok grow_nonneg Hroom). do 2 f_equal.
  pose proof (off3_close L size grow grow_nonneg) as Eo.
  assert (place (λ o, o) (l_ehdr L) = l_ehdr L) as Eh by (by destruct (l_ehdr L)).
  apply img_ext; cbn; [exact Eo|done..| |done]. rewrite <- Eh at 2.
  exact (place_ext (λ o, beyond packed_at (- grow) (off3 L grow o)) (λ o, o) Eo).
Qed.
Lemma forget_run fd all :
  grow < 2 ^ 31 → forget_packed (held fd (img (stage4 all))) = Ok (tt, held fd (library_file L all)).
Proof.
  intros Hg. set (c := stage4 all). set (f := held fd (img c)). destruct (ok_live _ _ _ _ ok) as (Hu & Hf & _).
  destruct (entries_run c _ eq_refl (tagged_fits _ Hg Hf)) as [E1 E2].
  unfold forget_packed. run_bind (eq_refl : getS f = Ok (f, f)). cbn [dynamic_section_ f held].
  run_bind (with_elf_run _ fd (img c) _ _ E1). rewrite E2. run_bind (eq_refl : liftO (Ok (tagged (l_live L))) (held fd (img c)) = Ok (_, held fd (img c))).
  pose proof (forget_tags_run (l_live L) (off1 L hole packed_at) (Z.of_nat (length stub) + grow) (l_spare L) Hu) as Et.
  apply outcome_bind_Ok in Et as (entries & Ea & Eb).
  change (RemoveDynamicEntry DT_ANDROID_REL_OFFSET (tagged (l_live L)) = Ok entries) in Ea. rewrite Ea. run_bind (eq_refl : liftO (Ok entries) (held fd (img c)) = Ok (_, held fd (img c))).
  rewrite Eb. run_bind (eq_refl : liftO (Ok (table (l_live L) (3 + l_spare L))) (held fd (img c)) = Ok (_, held fd (img c))).
  apply with_elf_run. rewrite (entries_rewrite c _ (table (l_live L) (3 + l_spare L)) eq_refl); [done|symmetry; apply length_tagged].
Qed.

End Pack.
End ElfPack.
