(* ===== verification/ElfSpec.v ===== *)
(** Packing and unpacking the relocations of a library (see [ElfFile]): how much padding keeps
    the alignment of what follows, and that unpacking a packed library gives the library
    back. *)

From stdpp Require Import strings.
From S2P Require Import Prelude RelocationPacker RelocationSpec ElfFile ElfLayout ElfDynamic ElfSegments ElfHeaders ElfImage ElfLibrary ElfPack.
Local Open Scope Z_scope.

Module ElfSpec.
Import RelocationPacker RelocationSpec ElfFile ElfLayout ElfDynamic ElfSegments ElfHeaders ElfImage ElfLibrary ElfPack.

(** ** Padding *)

Section Padding.
Context `{TL : TargetLaws} `{ET : !ElfTarget} `{BD : Build} {R : Type} `{RL : !Relocation R}.
Context (Hsz : 0 < sizeof R).

(** [m] relocations fill whole pages. *)
Definition pages (m : Z) : Prop := (m * sizeof R) mod kPreserveAlignment = 0.
Lemma align_loop_run (m : nat) : Z.of_nat m * sizeof R < 2 ^ 64 →
  ∀ fuel, (m ≤ fuel)%nat → ∃ m' : nat, align_loop (R := R) fuel (Z.of_nat m * sizeof R) = Ok (Z.of_nat m' * sizeof R) ∧
    (m' ≤ m)%nat ∧ pages (Z.of_nat m') ∧ ∀ q : nat, (m' < q ≤ m)%nat → ¬ pages (Z.of_nat q).
Proof.
  induction m as [|m IH]; intros Hb fuel Hf.
  - exists O. split; [by destruct fuel|]. split; [done|]. split; [done|]. lia.
  - assert (align_loop (R := R) fuel (Z.of_nat (S m) * sizeof R) = if bool_decide (pages (Z.of_nat (S m))) then Ok (Z.of_nat (S m) * sizeof R)
      else match fuel with O => Fault OutOfFuel | S fuel => align_loop (R := R) fuel (Z.of_nat m * sizeof R) end) as E.
    { assert (u64 (Z.of_nat (S m) * sizeof R) = Z.of_nat (S m) * sizeof R) as Eu by (apply uwrap_small; unfold is_u; nia).
      unfold pages. destruct fuel as [|fuel]; [lia|]. cbn [align_loop]. rewrite Eu.
      replace (Z.of_nat (S m) * sizeof R - sizeof R) with (Z.of_nat m * sizeof R) by lia.
      destruct (Z.eqb_spec ((Z.of_nat (S m) * sizeof R) mod kPreserveAlignment) 0) as [Ez|Ez];
        [by rewrite bool_decide_eq_true_2|by rewrite bool_decide_eq_false_2]. }
    rewrite E. case_bool_decide as Hp; [exists (S m); split; [done|]; split; [done|]; split; [done|lia]|].
    destruct fuel as [|fuel]; [lia|]. destruct (IH ltac:(nia) fuel ltac:(lia)) as (m' & E' & Hm & Hp' & Hn).
    exists m'. split; [done|]. split; [lia|]. split; [done|]. intros q Hq. destruct (decide (q = S m)) as [->|]; [done|]. apply Hn. lia.
Qed.
Lemma padding_loop_run fuel : ∀ m q : nat, (m < q ≤ m + fuel)%nat → pages (Z.of_nat q) →
  ∃ m' : nat, padding_loop (R := R) fuel (Z.of_nat m * sizeof R) = Ok (Z.of_nat m' * sizeof R) ∧
    (m < m')%nat ∧ pages (Z.of_nat m') ∧ ∀ p : nat, (m < p < m')%nat → ¬ pages (Z.of_nat p).
Proof.
  induction fuel as [|fuel IH]; intros m q Hq Hp; [lia|]. cbn [padding_loop]. cbv zeta.
  replace (Z.of_nat m * sizeof R + sizeof R) with (Z.of_nat (S m) * sizeof R) by lia.
  destruct (Z.eqb_spec ((Z.of_nat (S m) * sizeof R) mod kPreserveAlignment) 0) as [E|E].
  - exists (S m). split; [done|]. split; [lia|]. split; [done|]. lia.
  - assert (q ≠ S m) by (intros ->; done). destruct (IH (S m) q ltac:(lia) Hp) as (m' & E' & Hm & Hp' & Hn).
    exists m'. split; [done|]. split; [lia|]. split; [done|]. intros p Hpq. destruct (decide (p = S m)) as [->|]; [done|]. apply Hn. lia.
Qed.
(** Padding for [n] relative and [k] other relocations: something is taken out, something is
    left, and what is taken out fills whole pages. *)
Definition admissible (n k q : nat) : Prop := (q < n)%nat ∧ (0 < k + q)%nat ∧ pages (Z.of_nat n - Z.of_nat q).

(** The loops end, and choose the least padding there is. *)
Lemma alignment_padding_cases n k :
  Z.of_nat n * sizeof R < 2 ^ 64 →
  (∃ q, alignment_padding (R := R) n k = Ok (Some q) ∧ admissible n k q ∧ ∀ p, admissible n k p → (q ≤ p)%nat) ∨
  (alignment_padding (R := R) n k = Ok None ∧ ∀ p, ¬ admissible n k p).
Proof.
  intros Hb. destruct (align_loop_run n Hb n ltac:(done)) as (m & E & Hm & Hp & Hn). unfold alignment_padding. rewrite E, bind_Ok.
  destruct (Z.eqb_spec (Z.of_nat m * sizeof R) 0) as [E0|E0].
  { right. split; [done|]. intros p (H1 & H2 & H3). assert (m = O) as -> by nia. apply (Hn (n - p)%nat); [lia|].
    by replace (Z.of_nat (n - p)) with (Z.of_nat n - Z.of_nat p) by lia. }
  replace (Z.of_nat n * sizeof R - Z.of_nat m * sizeof R) with (Z.of_nat (n - m) * sizeof R) by nia.
  set (first := ((Z.of_nat (n - m) * sizeof R =? 0) && bool_decide (k = 0)%nat)).
  assert (∃ q : nat, (if first then padding_loop (R := R) (Z.to_nat kPreserveAlignment) (Z.of_nat (n - m) * sizeof R)
      else Ok (Z.of_nat (n - m) * sizeof R)) = Ok (Z.of_nat q * sizeof R) ∧
    (0 < k + q)%nat ∧ pages (Z.of_nat n - Z.of_nat q) ∧ ∀ p, admissible n k p → (q ≤ p)%nat) as (q & Eq & H1 & H2 & H3).
  { destruct first eqn:Ef.
    - apply andb_prop in Ef as [Ef ->%bool_decide_eq_true]. apply Z.eqb_eq in Ef. assert (m = n) as -> by nia. rewrite Nat.sub_diag.
      destruct (padding_loop_run (Z.to_nat kPreserveAlignment) 0 4096) as (q & Eq & H1 & H2 & H3).
      { unfold kPreserveAlignment. lia. }
      { unfold pages, kPreserveAlignment. change (Z.of_nat 4096) with 4096. rewrite Z.mul_comm. apply Z.mod_mul. done. }
      exists q. split; [done|]. split; [lia|]. unfold pages, kPreserveAlignment in *. split; [rewrite Z.mul_sub_distr_r; rewrite Zminus_mod, Hp, H2; done|].
      intros p (Hp1 & Hp2 & Hp3). apply Nat.nlt_ge. intros Hlt. apply (H3 p); [lia|]. unfold pages, kPreserveAlignment in Hp3.
      replace (Z.of_nat p) with (Z.of_nat n - (Z.of_nat n - Z.of_nat p)) by lia. rewrite Z.mul_sub_distr_r, Zminus_mod, Hp, Hp3. done.
    - exists (n - m)%nat. split; [done|]. split.
      + apply andb_false_iff in Ef as [Ef%Z.eqb_neq|Ef%bool_decide_eq_false]; [nia|lia].
      + split; [by replace (Z.of_nat n - Z.of_nat (n - m)) with (Z.of_nat m) by lia|].
        intros p (Hp1 & Hp2 & Hp3). apply Nat.nlt_ge. intros Hlt. apply (Hn (n - p)%nat); [lia|].
        by replace (Z.of_nat (n - p)) with (Z.of_nat n - Z.of_nat p) by lia. }
  rewrite Eq, bind_Ok, Z.mod_mul, Z.eqb_refl by lia. cbn [check]. rewrite bind_Ok, Z.div_mul, Nat2Z.id by lia. cbv zeta.
  destruct (decide (n ≤ q)%nat) as [Hq|Hq].
  - right. rewrite bool_decide_eq_true_2 by done. split; [done|]. intros p Hp'. pose proof (H3 p Hp'). destruct Hp'. lia.
  - left. exists q. rewrite bool_decide_eq_false_2 by done. split; [done|]. split; [|done]. split; [lia|done].
Qed.
End Padding.

(** ** Types of relocations *)

(** What packing a file asks of a type of relocations: words in memory, packing that is
    undone by unpacking, and that files of its kind are packed as files of this type. *)
Class RelocationLaws (R : Type) `{TG : Target} `{ET : !ElfTarget} `{BD : Build} `{RL : !Relocation R} := {
  rl_laws :: WordsLaws R;
  rl_words : (0 < words R)%nat;
  rl_kind : RelocationsType;
  packs : list R → Prop;
  null_fits : is_u addr_bits (ELF_R_INFO 0 kNoRelocationCode) → fits (NullRelocation (R := R));
  null_info : info_of (NullRelocation (R := R)) = ELF_R_INFO 0 kNoRelocationCode;
  pack_law rels : packs rels → ∃ packed,
    PackRelativeRelocations rels [] = Ok packed ∧ UnpackRelativeRelocations packed [] = Ok rels ∧
    (∃ rest, packed = match rl_kind with RELA => [65; 80; 65; 49] | _ => [65; 80; 82; 49] end ++ rest ∧ rest ≠ []);
  pack_dispatch elf_update f f' d :
    Load f = Ok (true, f') → with_elf (GetSectionData (relocations_section_ f')) f' = Ok (d, f') → relocations_type_ f' = rl_kind →
    PackRelocations elf_update f = (relocations ← liftO (read_vector R d); PackTypedRelocations (R := R) elf_update relocations) f';
  unpack_dispatch elf_update f f' d packed rest :
    Load f = Ok (true, f') → with_elf (GetSectionData (android_relocations_section_ f')) f' = Ok (d, f') → relocations_type_ f' = rl_kind →
    read_data d = Ok packed → packed = match rl_kind with RELA => [65; 80; 65; 49] | _ => [65; 80; 82; 49] end ++ rest →
    UnpackRelocations elf_update f = UnpackTypedRelocations (R := R) elf_update packed f';
}.

Section Types.
Context `{TL : TargetLaws} `{ET : !ElfTarget} `{BD : Build}.

#[export] Instance rel_type : RelocationLaws Rel.
Proof.
  refine (Build_RelocationLaws Rel _ _ _ rel_relocation rel_laws _ REL packable _ _ _ _ _).
  - cbn. lia.
  - intros Hi. split; [|done]. unfold is_u in *. cbn. destruct addr_bits_ok as [E|E]; rewrite E; lia.
  - done.
  - intros rels Hp. destruct (PackRel_roundtrip rels [] [] Hp) as (packed & E & _ & _ & E' & Hm & _). by exists packed.
  - intros upd f f' d E1 E2 Ek. unfold PackRelocations. run_bind E1. cbn [negb]. run_bind (eq_refl : getS f' = Ok (f', f')). run_bind E2. by rewrite Ek.
  - intros upd f f' d packed rest E1 E2 Ek Er ->. unfold UnpackRelocations. run_bind E1. cbn [negb]. run_bind (eq_refl : getS f' = Ok (f', f')).
    run_bind E2. rewrite Er. run_bind (eq_refl : liftO (Ok _) f' = Ok (_, f')). cbn [app take]. rewrite Ek.
    rewrite bool_decide_eq_true_2 by done. by run_bind (checkS_run f' true eq_refl).
Defined.
#[export] Instance rela_type : RelocationLaws Rela.
Proof.
  refine (Build_RelocationLaws Rela _ _ _ rela_relocation rela_laws _ RELA rela_packable _ _ _ _ _).
  - cbn. lia.
  - intros Hi. assert (0 < 2 ^ addr_bits ∧ 0 < 2 ^ (addr_bits - 1)) as [H1 H2] by (destruct addr_bits_ok as [E|E]; by rewrite E).
    split; [unfold is_u; cbn; lia|]. split; [done|]. cbn. lia.
  - done.
  - intros rels Hp. destruct (PackRela_roundtrip rels [] Hp) as (packed & E & _ & _ & E' & Hm). by exists packed.
  - intros upd f f' d E1 E2 Ek. unfold PackRelocations. run_bind E1. cbn [negb]. run_bind (eq_refl : getS f' = Ok (f', f')). run_bind E2. by rewrite Ek.
  - intros upd f f' d packed rest E1 E2 Ek Er ->. unfold UnpackRelocations. run_bind E1. cbn [negb]. run_bind (eq_refl : getS f' = Ok (f', f')).
    run_bind E2. rewrite Er. run_bind (eq_refl : liftO (Ok _) f' = Ok (_, f')). cbn [app take]. rewrite Ek.
    rewrite bool_decide_eq_false_2 by done. rewrite bool_decide_eq_true_2 by done. by run_bind (checkS_run f' true eq_refl).
Defined.
End Types.

(** ** Packing and unpacking *)

Lemma not_nil_match {A B} (l : list A) (x y : B) : l ≠ [] → match l with [] => x | _ :: _ => y end = y.
Proof. by destruct l. Qed.

Section Files.
Context `{TL : TargetLaws} `{ET : !ElfTarget} `{BD : Build} {R : Type} `{RL : !Relocation R} `{LW : !RelocationLaws R}.
Context (elf_update : Elf → Z).
Implicit Types (L : Library) (rels : list R).

Definition is_relative_code (r : R) : bool := ELF_R_TYPE (info_of r) =? kRelativeRelocationCode.
Definition relatives rels : list R := List.filter is_relative_code rels.
Definition others rels : list R := List.filter (λ r, negb (is_relative_code r)) rels.
Lemma split_relocations_run rels :
  Forall (λ r, is_relative_code r = true → ELF_R_SYM (info_of r) = 0) rels → split_relocations rels = Ok (relatives rels, others rels).
Proof.
  unfold relatives, others. induction 1 as [|r rels Hr _ IH]; [done|]. cbn [split_relocations List.filter]. unfold is_relative_code in *.
  destruct (ELF_R_TYPE (info_of r) =? kRelativeRelocationCode); cbn [negb].
  - rewrite Hr by done. cbn [Z.eqb check]. by rewrite bind_Ok, IH, bind_Ok.
  - by rewrite IH, bind_Ok.
Qed.
Lemma length_split rels : (length (relatives rels) + length (others rels) = length rels)%nat.
Proof. unfold relatives, others. induction rels as [|r rels IH]; [done|]. cbn. destruct (is_relative_code r); cbn; lia. Qed.
Lemma sizeof_positive : 0 < sizeof R.
Proof. unfold sizeof. pose proof rl_words. pose proof word_bytes_bits as [_ Hb]. nia. Qed.
Lemma Forall_sublist (P : R → Prop) f rels : Forall P rels → Forall P (List.filter f rels).
Proof. induction 1; cbn; [done|]. case_match; [by constructor|done]. Qed.

(** A library whose relocations are [rels], of which [relatives rels] are packed into
    [packed] and [padding] null ones are left in their place. *)
Record packable_library L rels (padding : nat) (packed : list Z) : Prop := {
  pl_library : library_ok L rl_kind (sizeof R) (Z.of_nat (length (encode rels)));
  pl_fits : Forall fits rels;
  pl_symbols : Forall (λ r, is_relative_code r = true → ELF_R_SYM (info_of r) = 0) rels;
  pl_some : Forall (λ r, is_none r = false) rels;
  pl_packs : packs (relatives rels);
  pl_padding : alignment_padding (R := R) (length (relatives rels)) (length (others rels)) = Ok (Some padding);
  pl_packed : PackRelativeRelocations (relatives rels) [] = Ok packed;
  pl_gain : Z.of_nat (length packed) < Z.of_nat (length (relatives rels)) * sizeof R;
  pl_room : room L (Z.of_nat (length packed) - Z.of_nat (length stub));
  pl_small : Z.of_nat (length packed) < 2 ^ 31;
  pl_null : is_u addr_bits (ELF_R_INFO 0 kNoRelocationCode) ∧ ELF_R_TYPE (ELF_R_INFO 0 kNoRelocationCode) = kNoRelocationCode;
}.
(** The library's file with these relocations. *)
Definition file_with L rels : Elf := library_file L (encode rels).
(** What is taken out of the file. *)
Definition hole_of rels (padding : nat) : Z := (Z.of_nat (length (relatives rels)) - Z.of_nat padding) * sizeof R.
Definition left_over rels (padding : nat) : list R := PadRelocations padding (others rels).
(** The packed file. *)
Definition packed_image L rels padding packed : Elf :=
  let hole := hole_of rels padding in
  library_image L (stage2 L hole (Z.of_nat (length packed) - Z.of_nat (length stub)) (encode (left_over rels padding)) packed
    (tagged L hole (Z.of_nat (length packed) - Z.of_nat (length stub)) (live1 (R := R) L hole))).
Definition closed_file L (e : Elf) : ElfFile := mk_file (Image e) false None (l_relocations L) (l_dynamic L) (l_packed L) rl_kind.

Section Run.
Context L rels padding packed (HL : packable_library L rels padding packed).
Abbreviation hole := (hole_of rels padding).
Abbreviation grow := (Z.of_nat (length packed) - Z.of_nat (length stub)).
Abbreviation size := (Z.of_nat (length (encode rels))).
Abbreviation lib := (pl_library _ _ _ _ HL).

Lemma sizes : 0 < hole < size ∧ Z.of_nat (length (encode (left_over rels padding))) = size - hole ∧ (0 < length (left_over rels padding))%nat.
Proof.
  pose proof sizeof_positive as Hs. pose proof (length_split rels) as Hl. pose proof (ok_size _ _ _ _ lib) as Hsize.
  rewrite length_encode in *. rewrite length_encode. unfold left_over, PadRelocations. rewrite length_app, length_replicate. unfold hole_of.
  assert (Z.of_nat (length (relatives rels)) * sizeof R < 2 ^ 64) as Hb.
  { destruct addr_bits_ok as [Hw|Hw]; rewrite Hw in *; nia. }
  destruct (alignment_padding_cases Hs _ (length (others rels)) Hb) as [(q & E & (H1 & H2 & H3) & _)|[E _]];
    rewrite (pl_padding _ _ _ _ HL) in E; [injection E as <-|done]. split; [nia|]. split; nia.
Qed.
Lemma packed_signature : ∃ rest, packed = match rl_kind (R := R) with RELA => [65; 80; 65; 49] | _ => [65; 80; 82; 49] end ++ rest ∧ rest ≠ [].
Proof.
  destruct (pack_law _ (pl_packs _ _ _ _ HL)) as (packed' & E & _ & Hm). rewrite (pl_packed _ _ _ _ HL) in E. by injection E as <-.
Qed.
Lemma packed_not_nil : packed ≠ [].
Proof. pose proof packed_signature as (rest & E & _). rewrite E. by destruct rl_kind. Qed.
Lemma relatives_not_nil : relatives rels ≠ [].
Proof. pose proof sizes as (Hh & _). pose proof sizeof_positive. unfold hole_of in Hh. intros E. rewrite E in Hh. cbn [length] in Hh. nia. Qed.
Lemma grow_positive : 0 < grow ∧ grow < 2 ^ 31.
Proof.
  pose proof (pl_small _ _ _ _ HL). split; [|rewrite stub_length; lia]. destruct packed_signature as (rest & -> & Hr).
  rewrite length_app, stub_length. destruct rest; [done|]. cbn [length]. destruct rl_kind; cbn [length]; lia.
Qed.
Lemma unpacks : UnpackRelativeRelocations packed [] = Ok (relatives rels).
Proof.
  destruct (pack_law _ (pl_packs _ _ _ _ HL)) as (packed' & E & E' & _). rewrite (pl_packed _ _ _ _ HL) in E. by injection E as <-.
Qed.
Context (Hupdate : ∀ e, 0 < elf_update e).
Abbreviation held := (held L (rl_kind (R := R))).
Lemma Flush_run fd e : Flush elf_update (held fd e) = Ok (tt, closed_file L e).
Proof.
  unfold Flush. run_bind (eq_refl : getS (held fd e) = Ok (held fd e, held fd e)). cbn [elf_ ElfPack.held].
  by run_bind (checkS_run (held fd e) (0 <? elf_update e) (proj2 (Z.ltb_lt _ _) (Hupdate e))).
Qed.
Lemma nonempty (rs : list R) : (0 < length rs)%nat → (0 < length (encode rs))%nat.
Proof. intros Hl. pose proof (length_encode rs). pose proof sizeof_positive. nia. Qed.
Lemma relations_some : (0 < length rels)%nat.
Proof. pose proof (ok_size _ _ _ _ lib) as Hs. rewrite length_encode in Hs. pose proof sizeof_positive. nia. Qed.
Lemma read_relocations c (rs : list R) : c_rel c = rel_data L (encode rs) → Forall fits rs →
  ∀ fd, with_elf (GetSectionData (l_relocations L)) (held fd (library_image L c)) = Ok ((rel_data L (encode rs)).2, held fd (library_image L c)) ∧
    read_vector R (rel_data L (encode rs)).2 = Ok rs.
Proof.
  intros Ec Hf fd. destruct (ok_relocations _ _ _ _ lib) as (s & E & _). split; [|by apply read_vector_encode; [apply rl_words|]].
  apply with_elf_run. unfold library_image. by rewrite (data_rel _ _ _ _ s E), Ec.
Qed.
Lemma pack_replaced fd :
  (_ ← with_elf (replace_section (R := R) (l_relocations L) (encode (left_over rels padding)));
   _ ← with_elf (replace_section (R := R) (l_packed L) packed);
   _ ← describe_packed; Flush elf_update) (held fd (library_file L (encode rels))) = Ok (tt, closed_file L (packed_image L rels padding packed)).
Proof.
  destruct sizes as (Hh & Hl & _). destruct grow_positive as [Hg Hg2]. pose proof (pl_room _ _ _ _ HL) as Hroom. pose proof (pl_small _ _ _ _ HL).
  run_bind (with_elf_run L _ _ fd _ _ _ (close_run (R := R) L _ _ hole grow lib Hh Hg Hroom (encode rels) (encode (left_over rels padding)) eq_refl Hl)).
  run_bind (with_elf_run L _ _ fd _ _ _ (grow_run (R := R) L _ _ hole grow lib Hg Hroom (encode (left_over rels padding)) packed ltac:(lia) ltac:(lia))).
  run_bind (describe_run (R := R) L _ _ hole grow lib Hh Hg Hroom fd (encode (left_over rels padding)) packed ltac:(lia)).
  by apply Flush_run.
Qed.
Lemma pack_run :
  PackRelocations elf_update (new_file (Image (library_file L (encode rels)))) = Ok (true, closed_file L (packed_image L rels padding packed)).
Proof.
  destruct sizes as (Hh & Hl & _).
  set (e := library_file L (encode rels)). pose proof (Load_run L _ _ _ lib (library_content L (encode rels))
    (library_loadable (R := R) L _ _ grow lib (proj1 grow_positive) (pl_room _ _ _ _ HL) (encode rels) (nonempty rels relations_some))) as E1.
  change (Load (new_file (Image e)) = Ok (true, held (Image e) e)) in E1.
  destruct (read_relocations (library_content L (encode rels)) rels eq_refl (pl_fits _ _ _ _ HL) (Image e)) as [E2 E3].
  rewrite (pack_dispatch elf_update _ _ _ E1 E2 eq_refl), E3. set (f := held (Image e) e).
  run_bind (eq_refl : liftO (Ok rels) f = Ok (rels, f)). unfold PackTypedRelocations.
  rewrite (split_relocations_run rels (pl_symbols _ _ _ _ HL)). run_bind (eq_refl : liftO (Ok (relatives rels, others rels)) f = Ok (_, f)).
  rewrite not_nil_match by apply relatives_not_nil. run_bind (eq_refl : getS f = Ok (f, f)). cbn [is_padding_relocations_ f ElfPack.held negb].
  rewrite (pl_padding _ _ _ _ HL). run_bind (eq_refl : liftO (Ok (Some padding)) f = Ok (_, f)).
  rewrite (pl_packed _ _ _ _ HL). run_bind (eq_refl : liftO (Ok packed) f = Ok (_, f)).
  rewrite not_nil_match by apply packed_not_nil.
  rewrite unpacks. run_bind (eq_refl : liftO (Ok (relatives rels)) f = Ok (_, f)).
  run_bind (checkS_run f _ (bool_decide_eq_true_2 (relatives rels = relatives rels) eq_refl)).
  rewrite (proj2 (Z.leb_gt _ _) (pl_gain _ _ _ _ HL)). fold (left_over rels padding).
  pose proof (pack_replaced (Image e)) as Er2. fold e f in Er2. cbn [relocations_section_ android_relocations_section_ f ElfPack.held] in *.
  apply prog_bind_Ok in Er2 as ([] & f1 & H1 & Er2). run_bind H1. apply prog_bind_Ok in Er2 as ([] & f2 & H2 & Er2). run_bind H2.
  apply prog_bind_Ok in Er2 as ([] & f3 & H3 & Er2). run_bind H3. by run_bind Er2.
Qed.
(** The relocations of the packed file, less those without effect. *)
Lemma left_over_fits : Forall fits (left_over rels padding).
Proof.
  apply Forall_app_2; [by apply Forall_sublist, (pl_fits _ _ _ _ HL)|]. apply Forall_replicate, null_fits. apply (pl_null _ _ _ _ HL).
Qed.
Lemma left_over_some : List.filter (λ r, negb (is_none r)) (left_over rels padding) = others rels.
Proof.
  destruct (pl_null _ _ _ _ HL) as [_ Hn]. unfold left_over, PadRelocations. rewrite List.filter_app.
  assert (∀ n, List.filter (λ r, negb (is_none r)) (replicate n NullRelocation : list R) = []) as Enull.
  { induction n as [|n IH]; [done|]. cbn. unfold is_none at 1. by rewrite null_info, Hn, Z.eqb_refl. }
  rewrite Enull, app_nil_r. pose proof (Forall_sublist _ (λ r, negb (is_relative_code r)) _ (pl_some _ _ _ _ HL)) as Hf. fold (others rels) in Hf.
  induction Hf as [|r rs Hr _ IH]; [done|]. cbn. by rewrite Hr, IH.
Qed.
(** The relocations, in the order in which unpacking leaves them. *)
Definition reordered : list R := relatives rels ++ others rels.
Lemma reordered_size : Z.of_nat (length (encode reordered)) = size.
Proof. unfold reordered. rewrite !length_encode, length_app, length_split. done. Qed.
Lemma unpack_replaced fd :
  (_ ← with_elf (replace_section (R := R) (l_relocations L) (encode reordered));
   _ ← with_elf (replace_section (R := R) (l_packed L) stub);
   _ ← forget_packed; Flush elf_update) (held fd (packed_image L rels padding packed)) = Ok (tt, closed_file L (library_file L (encode reordered))).
Proof.
  destruct sizes as (Hh & Hl & Hn). destruct grow_positive as [Hg Hg2]. pose proof (pl_room _ _ _ _ HL) as Hroom. pose proof (pl_small _ _ _ _ HL).
  pose proof sizeof_positive as Hs. pose proof (nonempty _ Hn). pose proof stub_length.
  run_bind (with_elf_run L _ _ fd _ _ _ (open_run (R := R) L _ _ hole grow lib Hh Hg Hroom Hs (encode (left_over rels padding)) (encode reordered) packed
    Hg2 ltac:(lia) ltac:(lia) reordered_size Hl)).
  run_bind (with_elf_run L _ _ fd _ _ _ (shrink_run (R := R) L _ _ hole grow lib Hg Hroom (encode reordered) packed ltac:(lia))).
  run_bind (forget_run (R := R) L _ _ hole grow lib Hh Hg Hroom fd (encode reordered) Hg2).
  by apply Flush_run.
Qed.
Lemma unpack_run :
  UnpackRelocations elf_update (new_file (Image (packed_image L rels padding packed))) = Ok (true, closed_file L (library_file L (encode reordered))).
Proof.
  destruct sizes as (Hh & Hl & Hn). destruct grow_positive as [Hg Hg2]. pose proof (pl_room _ _ _ _ HL) as Hroom. pose proof stub_length.
  pose proof (nonempty _ Hn). set (e := packed_image L rels padding packed).
  pose proof (Load_run L _ _ _ lib _ (stage2_loadable (R := R) L _ _ hole grow lib Hh Hg Hroom (encode (left_over rels padding)) packed
    (tagged L hole grow (live1 (R := R) L hole)) ltac:(lia) ltac:(lia))) as E1.
  set (f := held (Image e) e). change (Load (new_file (Image e)) = Ok (true, f)) in E1.
  assert (with_elf (GetSectionData (l_packed L)) f = Ok (whole packed (l_packed_align L), f)) as E2.
  { apply with_elf_run. destruct (ok_packed _ _ _ _ lib) as (s & E & _). destruct (apart (R := R) L _ _ lib) as (H1 & H2 & H3).
    unfold e, packed_image, library_image. by rewrite (data_and _ _ _ _ H1 s E). }
  destruct packed_signature as (rest & Hsig & _).
  assert (read_data (whole packed (l_packed_align L)) = Ok packed) as E3.
  { unfold read_data, whole. cbn [d_buf d_size]. by rewrite Z.ltb_irrefl, Nat2Z.id, firstn_all. }
  rewrite (unpack_dispatch elf_update _ _ _ _ _ E1 E2 eq_refl E3 Hsig). unfold UnpackTypedRelocations.
  rewrite unpacks. run_bind (eq_refl : liftO (Ok (relatives rels)) f = Ok (_, f)). run_bind (eq_refl : getS f = Ok (f, f)).
  cbn [relocations_section_ android_relocations_section_ f ElfPack.held].
  destruct (read_relocations (stage2 L hole grow (encode (left_over rels padding)) packed (tagged L hole grow (live1 (R := R) L hole)))
    (left_over rels padding) eq_refl left_over_fits (Image e)) as [E4 E5].
  run_bind E4. rewrite E5. run_bind (eq_refl : liftO (Ok (left_over rels padding)) f = Ok (_, f)). rewrite left_over_some. fold reordered. fold stub.
  pose proof (unpack_replaced (Image e)) as Er. fold e f in Er.
  apply prog_bind_Ok in Er as ([] & f1 & H1 & Er). run_bind H1. apply prog_bind_Ok in Er as ([] & f2 & H2 & Er). run_bind H2.
  apply prog_bind_Ok in Er as ([] & f3 & H3 & Er). run_bind H3. by run_bind Er.
Qed.
(** Loaded segments lie where the loader can map their pages. *)
Definition loads_aligned (ps : list Phdr) : Prop :=
  Forall (λ p, p_type p = PT_LOAD → (p_vaddr p - p_offset p) mod kPreserveAlignment = 0) ps.
Lemma hole_pages : hole mod kPreserveAlignment = 0.
Proof.
  destruct sizes as ((Hh1 & Hh2) & _). pose proof sizeof_positive as Hs. pose proof (length_split rels) as Hl. pose proof (ok_size _ _ _ _ lib) as Hsize.
  rewrite length_encode in *. assert (Z.of_nat (length (relatives rels)) * sizeof R < 2 ^ 64) as Hb.
  { destruct addr_bits_ok as [Hw|Hw]; rewrite Hw in *; nia. }
  destruct (alignment_padding_cases Hs _ (length (others rels)) Hb) as [(q & E & (H1 & H2 & H3) & _)|[E _]];
    rewrite (pl_padding _ _ _ _ HL) in E; [by injection E as <-|done].
Qed.
Lemma aligned_shift x o : (x - o) mod kPreserveAlignment = 0 → (x - (o - hole)) mod kPreserveAlignment = 0.
Proof.
  intros Ho. replace (x - (o - hole)) with ((x - o) + hole) by lia. by rewrite Zplus_mod, Ho, hole_pages.
Qed.
Lemma packed_aligned :
  loads_aligned (l_phdrs L) → (l_addr L - l_next L) mod kPreserveAlignment = 0 → loads_aligned (phdrs (packed_image L rels padding packed)).
Proof.
  intros Ha Hn. destruct sizes as (Hh & _). cbn [phdrs packed_image library_image image stage2 c_phdrs].
  pose proof (headers_packed (R := R) L _ _ hole lib Hh) as [_ Hp Hoth]. apply Forall_lookup. intros i p E Ht.
  pose proof (ok_table _ _ _ _ lib) as Ht0. unfold loads_aligned in Ha. rewrite Forall_lookup in Ha.
  destruct (decide (i ∈ orderable_positions (l_phdrs L))) as [Hi|Hi].
  - apply list_elem_of_lookup_1 in Hi as [j Hj]. destruct (Forall2_lookup_l _ _ _ _ _ Hp Hj) as (v & Hv & Ev). rewrite E in Ev. injection Ev as <-.
    destruct j as [|[|j]]; cbn in Hv.
    + by injection Hv as <-.
    + injection Hv as <-. cbn. by apply aligned_shift.
    + change ((close_header (l_start L) hole <$> l_loads L) !! j = Some p) in Hv. rewrite list_lookup_fmap in Hv.
      destruct (l_loads L !! j) as [q|] eqn:Eq; [|done]. injection Hv as <-. cbn. pose proof (lt_holds _ _ _ _ _ _ _ _ _ _ _ Ht0) as Hh0.
      rewrite (lt_positions _ _ _ _ _ _ _ _ _ _ _ Ht0) in Hh0. apply holds_cons in Hh0 as [_ Hh0]. apply holds_snoc in Hh0 as [Hh0 _].
      destruct (Forall2_lookup_r _ _ _ _ _ Hh0 Eq) as (i' & _ & Ei). pose proof (Ha i' q Ei Ht) as Hq. unfold closed. case_match; [by apply aligned_shift|done].
  - rewrite (Hoth i Hi) in E. destruct (l_phdrs L !! i) as [q|] eqn:Eq; [|done]. injection E as <-.
    by destruct (not_ordered _ i q Hi Eq).
Qed.
End Run.

(** C15. Unpacking a packed library gives the library back.  Take a library whose first segment
    holds its relocations, whose unused stack segment is in the place the linker puts it, whose dynamic section has
    three spare entries and whose relocations are worth packing, and a libelf that
    writes what it is given.  [PackRelocations] then rewrites the file: it closes a hole of
    whole pages behind the relocations, splits the segment at the hole so that the loaded segments
    stay where pages can be mapped, puts the packed relocations in their section and two
    tags in the dynamic section.  [UnpackRelocations] of that file succeeds and gives the
    file that was packed, bytes, offsets, segments and dynamic entries included, except that
    relative relocations come before the others. *)
Theorem pack_unpack L rels padding packed :
  (∀ e, 0 < elf_update e) → packable_library L rels padding packed →
  ∃ f1 f2,
    PackRelocations elf_update (new_file (Image (file_with L rels))) = Ok (true, f1) ∧
    fd_ f1 = Image (packed_image L rels padding packed) ∧
    (loads_aligned (l_phdrs L) → (l_addr L - l_next L) mod kPreserveAlignment = 0 →
      loads_aligned (phdrs (packed_image L rels padding packed))) ∧
    UnpackRelocations elf_update (new_file (fd_ f1)) = Ok (true, f2) ∧
    fd_ f2 = Image (file_with L (relatives rels ++ others rels)).
Proof.
  intros Hu HL. exists (closed_file L (packed_image L rels padding packed)), (closed_file L (library_file L (encode (reordered rels)))).
  split_and!; [by apply pack_run|done|by apply packed_aligned|by apply unpack_run|done].
Qed.
End Files.

(** C16. The padding that the packer chooses.  For any numbers of relative and other
    relocations that fit in memory, the loops that choose the padding end, and what they choose
    is the least number of null relocations for which the hole is a positive number of whole
    4096-byte pages and the relocation section does not become empty; when there is no
    such number, and only then, there is nothing to pack. *)
Theorem alignment_padding_least `{TL : TargetLaws} `{ET : !ElfTarget} `{BD : Build} {R : Type} `{RL : !Relocation R} (n k : nat) :
  0 < sizeof R → Z.of_nat n * sizeof R < 2 ^ 64 →
  (∃ q, alignment_padding (R := R) n k = Ok (Some q) ∧ admissible (R := R) n k q ∧ ∀ p, admissible (R := R) n k p → (q ≤ p)%nat) ∨
  (alignment_padding (R := R) n k = Ok None ∧ ∀ p, ¬ admissible (R := R) n k p).
Proof. intros Hs. by apply alignment_padding_cases. Qed.

End ElfSpec.
