(* ===== verification/ElfExample.v ===== *)
(** A shared library for 32-bit ARM that is packed and unpacked (see [ElfSpec]). *)

From stdpp Require Import strings.
From S2P Require Import Prelude RelocationPacker RelocationSpec ElfFile ElfLayout ElfDynamic ElfSegments ElfHeaders ElfImage ElfLibrary ElfPack ElfSpec.
Local Open Scope Z_scope.

Module ElfExample.
Import RelocationPacker RelocationSpec ElfFile ElfLayout ElfDynamic ElfSegments ElfHeaders ElfImage ElfLibrary ElfPack ElfSpec.

(** R_ARM_RELATIVE is 23 and EM_ARM 40. *)
#[local] Instance arm32 : Target := {|
  addr_bits := 32;
  kRelativeRelocationCode := 23;
  ELF_R_TYPE := λ info, Z.land info 255;
  ELF_R_INFO := λ sym type, Z.shiftl sym 8 + type;
|}.
#[local] Instance arm32_laws : TargetLaws.
Proof. split; [by left|done]. Qed.
#[local] Instance arm32_elf : ElfTarget := {| kMachine := 40; kFileClass := 1; kNoRelocationCode := 0; ELF_R_SYM := λ info, Z.shiftr info 8 |}.
#[local] Existing Instance debug_build.

(** A relocation of a symbol, 600 relative ones, and another of the symbol. *)
Definition relative_at (i : nat) : Rel := mk_rel (0x4000 + 4 * Z.of_nat i) 23.
Definition example_relocations : list Rel := mk_rel 0x5000 0x102 :: map relative_at (seq 0 600) ++ [mk_rel 0x5004 0x102].
Definition section (name : string) (type addr offset size : Z) : Elf_Scn := mk_scn (mk_shdr name type addr offset size 4) [].
Definition example_sections : list Elf_Scn := [
  section ".hash" 5 212 212 96;
  section ".rel.dyn" SHT_REL 308 308 4816;
  section ".text" 1 5136 5136 1000;
  section ".dynamic" 6 12288 8192 64;
  section ".android.rel.dyn" 1 0 9000 4;
  section ".shstrtab" 3 0 9004 80]%string.
Definition example_loads : list Phdr := [mk_phdr PT_LOAD 8192 12288 12288 808 1000 6 4096].
Definition example_headers : list Phdr := [
  mk_phdr 6 52 52 52 160 160 4 4;
  mk_phdr PT_LOAD 0 0 0 6136 6136 5 4096;
  mk_phdr PT_LOAD 8192 12288 12288 808 1000 6 4096;
  mk_phdr PT_DYNAMIC 8192 12288 12288 64 64 6 4;
  mk_phdr PT_GNU_STACK 0 0 0 0 0 6 16].
Definition example_library : Library := {|
  l_ehdr := mk_ehdr 40 ET_DYN 52 9100 1 ELFDATA2LSB; l_phdrs := example_headers; l_sections := example_sections;
  l_relocations := 1; l_packed := 4; l_dynamic := 3; l_last := 2;
  l_rel_align := 4; l_packed_align := 1; l_dynamic_align := 4;
  l_live := [mk_dyn 17 308; mk_dyn DT_RELSZ 4816; mk_dyn DT_RELENT 8; mk_dyn DT_RELCOUNT 600]; l_spare := 1;
  l_first := 1; l_stack := 4; l_others := [2%nat]; l_loads := example_loads;
  l_fsz := 6136; l_flags := 5; l_align := 4096; l_stack_align := 16; l_next := 5136; l_addr := 5136; l_end := 8192;
|}.
Definition example_packed : list Z :=
  Eval vm_compute in match PackRel (relatives example_relocations) [] with Ok packed => packed | Fault _ => [] end.

(** Sections one at a time. *)
Ltac each_entry i E :=
  lazymatch type of E with
  | [] !! _ = _ => done
  | _ => destruct i as [|i]; [injection E as <-|cbn [lookup list_lookup] in E; each_entry i E]
  end.
Tactic Notation "each_section" := let i := fresh "i" in let s := fresh "s" in let E := fresh "E" in
  intros i s E; unfold example_sections in E; each_entry i E.

Lemma example_size : Z.of_nat (length (encode example_relocations)) = 4816.
Proof. vm_compute. reflexivity. Qed.
Lemma example_order : section_order 308 4816 6136 8192 1 2 0 example_sections.
Proof.
  split.
  - each_section; cbn; lia.
  - intros s E. by injection E as <-.
  - each_section; cbn; unfold is_u; cbn; lia.
  - each_section; cbn; lia.
  - each_section; cbn; lia.
  - cbn. lia.
Qed.
Lemma example_table : library_table 308 4816 1 4 [2%nat] example_loads 6136 5 4096 16 example_headers.
Proof.
  split.
  - vm_compute. reflexivity.
  - change (orderable_positions example_headers) with [1; 2; 4]%nat. repeat constructor.
  - repeat constructor; cbn; lia.
  - intros [|[|j]] x y Hx Hy; done.
  - intros i p E. unfold example_headers in E. each_entry i E; (split; [split; cbn; lia|cbn; lia]).
Qed.
Ltac small := cbn; unfold outside, is_u; cbn; lia.
Lemma example_library_ok : library_ok example_library REL (sizeof Rel) 4816.
Proof.
  split.
  - done.
  - done.
  - done.
  - done.
  - small.
  - small.
  - small.
  - small.
  - small.
  - small.
  - exact example_table.
  - vm_compute. reflexivity.
  - small.
  - exact example_order.
  - split; eexists; (split; [reflexivity|done]).
  - by eexists.
  - by eexists.
  - cbn [l_sections l_relocations example_library]. each_section; intros Hi; by (lia || vm_compute).
  - by eexists.
  - cbn [l_sections l_packed example_library]. each_section; intros Hi; by (lia || vm_compute).
  - by vm_compute.
  - by repeat constructor.
  - by vm_compute.
  - eexists _, _. split; [reflexivity|]. split; [vm_compute; reflexivity|]. by vm_compute.
  - cbn [l_sections l_dynamic example_library]. each_section; intros Hi; by (lia || vm_compute).
  - done.
  - split_and!.
    + do 4 (constructor; [done|]). constructor.
    + do 4 (constructor; [by vm_compute|]). constructor.
    + do 4 (constructor; [by intros [E|E]; vm_compute in E|]). constructor.
Qed.
Lemma example_packs : packable (relatives example_relocations).
Proof.
  assert (relatives example_relocations = map relative_at (seq 0 600)) as -> by (vm_compute; reflexivity). split_and!.
  - apply Forall_forall. intros r Hr. apply list_elem_of_In, in_map_iff in Hr as (i & <- & Hi). apply in_seq in Hi.
    split; [unfold is_u; cbn; lia|done].
  - generalize 600%nat as n. intros n. generalize 0%nat as k. induction n as [|n IH]; intros k; cbn [seq map]; constructor; [done|].
    destruct n; cbn [seq map]; constructor. cbn. lia.
  - rewrite length_map, length_seq. lia.
  - rewrite length_map, length_seq. lia.
Qed.
(** 88 null relocations are left, and 4096 bytes are taken out. *)
Lemma example_packable : packable_library example_library example_relocations 88 example_packed.
Proof.
  split.
  - change (library_ok example_library REL (sizeof Rel) (Z.of_nat (length (encode example_relocations)))). rewrite example_size. exact example_library_ok.
  - unfold example_relocations. constructor; [small|]. apply Forall_app_2; [|constructor; [small|done]].
    apply Forall_forall. intros r Hr. apply list_elem_of_In, in_map_iff in Hr as (i & <- & Hi). apply in_seq in Hi. small.
  - unfold example_relocations. constructor; [done|]. apply Forall_app_2; [|by repeat constructor].
    apply Forall_forall. intros r Hr. apply list_elem_of_In, in_map_iff in Hr as (i & <- & Hi). done.
  - unfold example_relocations. constructor; [done|]. apply Forall_app_2; [|by repeat constructor].
    apply Forall_forall. intros r Hr. apply list_elem_of_In, in_map_iff in Hr as (i & <- & Hi). done.
  - exact example_packs.
  - vm_compute. reflexivity.
  - vm_compute. reflexivity.
  - by vm_compute.
  - split; [|by vm_compute]. cbn [l_sections example_library]. each_section; by vm_compute.
  - by vm_compute.
  - split; [by vm_compute|done].
Qed.

(** libelf writes 8192 bytes. *)
Definition writes (e : Elf) : Z := 8192.
Lemma pack_unpack_witness :
  packable_library example_library example_relocations 88 example_packed ∧
  ∃ f1 f2,
    PackRelocations writes (new_file (Image (file_with example_library example_relocations))) = Ok (true, f1) ∧
    fd_ f1 = Image (packed_image example_library example_relocations 88 example_packed) ∧
    (loads_aligned (l_phdrs example_library) → (l_addr example_library - l_next example_library) mod kPreserveAlignment = 0 →
      loads_aligned (phdrs (packed_image example_library example_relocations 88 example_packed))) ∧
    UnpackRelocations writes (new_file (fd_ f1)) = Ok (true, f2) ∧
    fd_ f2 = Image (file_with example_library (relatives example_relocations ++ others example_relocations)).
Proof.
  split; [exact example_packable|].
  exact (pack_unpack writes example_library example_relocations 88 example_packed (λ e, eq_refl) example_packable).
Defined.
Lemma alignment_padding_least_witness :
  0 < sizeof Rel ∧ 600 * sizeof Rel < 2 ^ 64 ∧ admissible (R := Rel) 600 2 88 ∧
  ((∃ q, alignment_padding (R := Rel) 600 2 = Ok (Some q) ∧ admissible (R := Rel) 600 2 q ∧ ∀ p, admissible (R := Rel) 600 2 p → (q ≤ p)%nat) ∨
   (alignment_padding (R := Rel) 600 2 = Ok None ∧ ∀ p, ¬ admissible (R := Rel) 600 2 p)).
Proof.
  split; [done|]. split; [done|]. split; [split; [lia|split; [lia|reflexivity]]|].
  apply (alignment_padding_least (R := Rel) 600 2); done.
Defined.

End ElfExample.
